(* ===== verification/_CoqProject ===== *)
-Q . S2P
Prelude.v
GoStrings.v
Hoare.v
FileMeta.v
Database.v
Names.v
Store.v
RepairQueue.v
Integrity.v
Intents.v
Opening.v
Glob.v
Validate.v
Server.v
Sync.v
Breaker.v
Locks.v
Conditions.v
Streaming.v
Transfer.v
Scheduler.v
Volume.v
Paths.v
Resolve.v
Indexing.v
Apply.v
Heap.v
Runes.v
Paging.v
Listing.v
Walk.v
Catalog.v
Replace.v
Recovery.v
Multipart.v
Uploads.v
Storage.v
Commits.v
Accounting.v
Writes.v
Removal.v
Writers.v
Readers.v
Sweep.v
Events.v
Config.v
Readiness.v
Signing.v
