(* ===== verification/Prelude.v ===== *)
(** * Birak: a verification library for the replicated file server

    Birak keeps one directory tree identical on several nodes. Every node serves its tree through
    gateways (S3, WebDAV, SFTP, a web page), indexes it in SQLite, and pulls changes from its
    peers over HTTP. This library models the code that decides what is true of a file and keeps
    that decision through failures, and proves the properties the design depends on.

    ** The program and how its parts meet

    A local write is found by the watcher ([internal/watcher]), which hashes it, makes it durable
    and commits a row to the store ([internal/store]) under the next version and a clock above
    everything it replaces. The cluster API ([internal/server]) serves rows as a stream of
    changes and as a manifest. The syncer ([internal/syncer]) polls both, keeps what is newer
    than its own rows in a durable queue, and moves its cursor only past what is queued. Workers
    of the queue transfer the bytes into scratch files that survive interruptions, verify them,
    and publish them under a replica intent, so that a crash anywhere is repaired at the next
    start. Conflicts are decided by one order on states that every node computes alike.

    ** Files of the library

    - Prelude: results, the state-and-error monad every stateful component is written in,
      machine integers, shared lemmas and hints. GoStrings: the parts of Go's strings, strconv
      and path packages the code calls. Hoare: triples for the monad.
    - FileMeta: [FileMeta], logical clocks and the conflict order (store.go, clock.go,
      conflicts.go). Names: portable names (names.go). Database: the tables, statements that may
      fail, transactions, and the in-memory fields of the store.
    - Store: committing states, versions, change and manifest pages, cursors, acknowledgements,
      tombstone purging (store.go). RepairQueue: the durable queue with its caps, lanes and
      cached totals (store.go). Integrity: quarantine (integrity.go). Intents: local and replica
      intents, subtree queries, partial downloads (intents.go, partials.go). Opening: migrations
      and what a restart rebuilds (store.go).
    - Glob, Validate: filepath.Match and the checks on what a peer says (syncer.go). Server: the
      cluster guard and the change and manifest endpoints (server.go). Sync: polling and
      reconciliation (syncer.go). Readiness: admission of a new replica and the loops over peers
      (readiness.go, syncer.go).
    - Breaker: the deletion breaker (breaker.go). Volume: the directory with what a crash keeps
      of it, and the file primitives (fileops). Paths: the client namespace (gateway.go).
      Resolve: the resolution of client paths over the texts of symbolic links (resolve.go,
      gateway.go). Indexing: indexing, quarantining and recovering one name (watcher.go, commits.go).
    - Transfer: resumable transfers (partial.go and the transfer half of downloadAndApply).
      Scheduler: the apply loop with its lanes, and the per-name lock (syncer.go). Apply:
      publication, deletions, conflict copies, namespace settling and the queue's worker
      (syncer.go, namespace.go).
    - Locks: WebDAV locks (locks.go, handlers.go). Conditions: conditional requests and ranges of
      the S3 gateway (conditions.go). Streaming: signed streaming uploads (streaming.go).
    - Listing: bucket listings of the S3 gateway (listing.go, catalog.go, handlers.go), with
      Heap (container/heap), Runes (UTF-8 and [prefixEnd]) and Paging ([paginate] and the
      bounded candidates); Walk and Catalog prove what the two ways of listing return.
    - Replace: a source taking the place of a file or tree through a journal (replace.go,
      replacement_tree.go), with a logic for runs that are cut anywhere; Recovery: what it proves.
    - Multipart: the staging store of S3 multipart uploads (multipart.go, completion.go), over an
      interface for publication; Uploads: what it guarantees.
    - Storage: the sentinel that ties a database to its volume and the measurement of how finely
      the volume keeps times (watcher.go, mtime.go). Commits: the commit
      every gateway operation runs in, with the watcher's hooks around it (fileops.go,
      commits.go), over an interface for the recovery of interrupted replacements; Accounting:
      the invariant commits keep. Writes: publishing, renaming and creating (fileops.go,
      conditional.go). Removal: removing files and trees in batches (remove_tree.go). Writers:
      open files of the gateways (fileops.go). Readers: opens without the commit lock and the
      quarantine fence (reader.go, commits.go). Sweep: the pass that finds what changed without
      an event (watcher.go, scrub.go, breaker.go). Events: the event loop, the backlog and the
      processing loop (watcher.go).
    - Signing: AWS signatures of S3 requests (sigv4.go, [authenticate] of s3.go), which also seed the
      chunk signatures of Streaming.
    - Config: defaults, the environment, validation and warnings (config.go).

    Definitions carry the names of the functions they translate; a Go method that reads and
    writes its receiver is a function in [SE S E], which keeps the state after a failure.

    ** What the theorems show

    - Discovery loses nothing: a cursor moves only over the page the peer served, past
      changes that are held, queued or unusable, a poll leaves no gap against the peer's own endpoint, a manifest comparison ends
      and covers every state, and the queue never forgets or regresses accepted work; an empty
      replica is admitted only if its own run has the moment at which it had caught up with a
      peer.
    - Durability: commits are all or nothing; opening a database rebuilds every counter and
      fence; indexing never puts the store ahead of the disk; publishing and deleting recover
      from a crash at any point to the old state or exactly the peer's; replacing a tree, cut
      anywhere and recovered in any number of attempts, ends before or after it, and recovery
      deletes only what its journal lists; quarantine survives
      failures and restarts; an interrupted transfer is continued, and one that succeeds has
      exactly the announced bytes.
    - Commits of gateways: whatever fails or is killed, each name has its row or lies below a
      path announced in the database, and a restart settles what is announced; what is
      acknowledged (an upload, a closed file, a removed tree) is on the disk after any power loss
      and in the index, and the run of a close up to its rename ends on the generation the writer
      opened. A node never takes a missing, empty or foreign volume for its own, checking it
      changes nothing but the probe of the first check, and the granularity measured is the
      finest that fits.
    - Quarantine reaches readers: whatever the interleaving of opens and quarantines, a reader of
      a damaged generation fails and a quarantined name is not opened. A sweep that reports no
      error has dealt with every name on the disk and in the index, one taken as unchanged having
      been seen with its row's size and time, and its pages end. No change
      the event loop is told of is lost between the two loops, and the processing loop catches
      up, the scans it asks for itself included; its backlog is a queue of distinct names.
    - Configuration: what is accepted is well formed, the environment decides exactly or the
      configuration is refused, and nothing is exposed without a warning.
    - Convergence: the conflict order is a total preorder, valid clocks compare as the integers
      they denote, and a local write dominates its namespace.
    - Concurrency: the apply loop, in every interleaving, keeps one worker per name within its
      limits and can always shut down; the per-name lock excludes, does not leak and lets every
      name proceed; WebDAV locks exclude writers without the token.
    - Bounds: over the breaker's life, the deletions published in any ten minutes stay within its
      limit, restarts after a saved window included; clocks stay canonical past 64 bits.
    - Authentication of S3 requests: an accepted signature authorises one request (or exhibits a
      collision of the hash functions), for a bounded time; what is signed as the protocol says
      is admitted; the canonical query is a faithful image of the parameters.
    - Gateways: whatever links lie on it, a client path the code admits leads to an entry of the
      served tree that clients may name; conditional writes hit the generation the
      client saw; streaming uploads are authentic and received whole; a listing made with
      bounded memory, by walking or from the catalog, is the listing of the whole bucket, and
      its tokens lead through every key once; an acknowledged part of a multipart upload
      survives crashes, a completed upload is exactly the parts the client named, and completing
      it again is answered alike.

    ** Modelling choices

    SQLite is a record of finite maps; each statement takes an element of a list that says
    whether it fails, and a transaction that fails restores the tables. System calls take an
    element of a list of faults in the same way, so a theorem over all such lists covers every
    place a call can fail; a crash keeps for each name the durable or the visible entry, and
    bytes only if they were flushed. Clock readings, random tokens, peers' answers, the order of
    Go's maps and what other goroutines do between critical sections are inputs. SHA-256, HMAC,
    base64, Unicode folding and lower case, net/http's range parser and the parsers of URLs, addresses and
    durations are parameters; theorems that rely on
    them name what they assume. Integers are [Z] with Go's wrap-around written out where it can
    occur. Loops that are not structural carry a bound that the code itself gives: the length of
    a name for loops over its ancestors, the number of rows for paging loops, the length of the
    input for parsers; the theorems about them are of the total function. Step relations are used
    where goroutines interleave (the apply loop, the per-name lock, readers and the
    quarantine, the watcher's two loops).

    ** Not modelled

    In the tree the components share, a link carries the name it finally leads to; [SafePath]
    resolves every component through such links there, and over the links' own texts in Resolve,
    while the file operations reach a file through a link at its own name only: a file below a
    linked directory has one name, the real one. Hard links are not tracked. The laws of the
    recovery of replacements that commits rely on ([TreeRecoveryLaws], [JournalLaws]) are an
    interface: Replace models that recovery on a tree of its own, and the two are not connected.
    The bytes of a staged part count as flushed once the part has its name, versions are counted
    without the bound of int64, and the removal of a staging directory takes the descriptor last. Logging, metrics, templates and the
    rendering of XML are left out, as are timers (a step may happen at any time). The
    scrub's pacing, S3 routing, copies and other object handlers, WebDAV methods other than LOCK
    and UNLOCK, SFTP, the web page and the daemon's wiring are not modelled. *)

From stdpp Require Export prelude strings gmap sorting.
From Stdlib Require Export ZArith Lia Ascii.

#[global] Arguments String.append : simpl nomatch.
#[global] Open Scope Z_scope.

(** ** Results, and a state-and-error monad

    A Go function returning [(T, error)] is a [result]; a method that reads and
    writes its receiver is a function of [SE]: the state after the call is kept on
    the error paths too, since Go does not undo what a failing method did. *)

Inductive result (E A : Type) : Type :=
| Ok (a : A)
| Err (e : E).
Arguments Ok {E A} _.
Arguments Err {E A} _.

Definition is_ok {E A} (r : result E A) : bool :=
  match r with Ok _ => true | Err _ => false end.

Definition SE (S E A : Type) : Type := S -> result E A * S.

Section Monad.
Context {S E : Type}.

Definition retS {A} (a : A) : SE S E A := fun s => (Ok a, s).
Definition failS {A} (e : E) : SE S E A := fun s => (Err e, s).
Definition bindS {A B} (c : SE S E A) (k : A -> SE S E B) : SE S E B :=
  fun s => match c s with
           | (Ok a, s') => k a s'
           | (Err e, s') => (Err e, s')
           end.
Definition getS : SE S E S := fun s => (Ok s, s).
Definition modifyS (f : S -> S) : SE S E unit := fun s => (Ok tt, f s).
Definition liftS {A} (r : result E A) : SE S E A := fun s => (r, s).
(** [err := f(); ...] where the caller inspects the error itself. *)
Definition tryS {A} (c : SE S E A) : SE S E (result E A) :=
  fun s => let '(r, s') := c s in (Ok r, s').

(** Run a component's operation inside a larger state. *)
Definition zoomS {T E' A} (get : T -> S) (put : S -> T -> T) (wrap : E -> E') (c : SE S E A) : SE T E' A :=
  fun t => let '(r, s') := c (get t) in
           (match r with Ok a => Ok a | Err e => Err (wrap e) end, put s' t).

(** [for _, x := range l { if err := f(x); err != nil { return err } }] *)
Fixpoint forS {A} (f : A -> SE S E unit) (l : list A) : SE S E unit :=
  match l with
  | [] => retS tt
  | x :: l' => bindS (f x) (fun _ => forS f l')
  end.
End Monad.

Declare Scope birak_scope.
Delimit Scope birak_scope with birak.
Notation "'let!' x := c 'in' k" := (bindS c (fun x => k))
  (at level 10, x pattern, c at level 100, k at level 200) : birak_scope.
Notation "'do!' c 'then' k" := (bindS c (fun _ => k))
  (at level 10, c at level 100, k at level 200) : birak_scope.
#[global] Open Scope birak_scope.

(** The part of [bindS] a proof needs: a successful run splits in two successful
    runs, and a failing one fails in one of the two halves. *)
Section MonadFacts.
Context {S E : Type}.

Lemma bindS_Ok {A B} (c : SE S E A) (k : A -> SE S E B) s b s' :
  bindS c k s = (Ok b, s') <-> exists a s1, c s = (Ok a, s1) /\ k a s1 = (Ok b, s').
Proof. unfold bindS. split.
  - destruct (c s) as [[a|e] s1]; intros H; [eauto|discriminate H].
  - by intros (a & s1 & -> & H). Qed.

Lemma bindS_Err {A B} (c : SE S E A) (k : A -> SE S E B) s e s' :
  bindS c k s = (Err e, s') <->
  c s = (Err e, s') \/ exists a s1, c s = (Ok a, s1) /\ k a s1 = (Err e, s').
Proof. unfold bindS. split.
  - destruct (c s) as [[a|e'] s1]; intros H; [right; eauto|left; by simplify_eq].
  - by intros [-> | (a & s1 & -> & H)]. Qed.

Lemma bindS_run {A B} (c : SE S E A) (k : A -> SE S E B) s :
  bindS c k s = match c s with (Ok a, s1) => k a s1 | (Err e, s1) => (Err e, s1) end.
Proof. done. Qed.

(** A relation between the state before and after every run, whatever the result. *)
Definition keeps {A} (R : S -> S -> Prop) (c : SE S E A) : Prop :=
  forall s, R s (c s).2.

Lemma keeps_bind {A B} (R : S -> S -> Prop) `{!PreOrder R} (c : SE S E A) (k : A -> SE S E B) :
  keeps R c -> (forall a, keeps R (k a)) -> keeps R (bindS c k).
Proof.
  intros Hc Hk s. specialize (Hc s). unfold bindS.
  destruct (c s) as [[a|e] s1]; simpl in *; [|done].
  etrans; [exact Hc|apply Hk].
Qed.

Lemma keeps_ret {A} (R : S -> S -> Prop) `{!PreOrder R} (a : A) : keeps R (retS (E:=E) a).
Proof. intros s. reflexivity. Qed.

Lemma keeps_fail {A} (R : S -> S -> Prop) `{!PreOrder R} e : keeps R (failS (A:=A) (E:=E) e).
Proof. intros s. reflexivity. Qed.

Lemma keeps_get (R : S -> S -> Prop) `{!PreOrder R} : keeps R (getS (E:=E)).
Proof. intros s. reflexivity. Qed.

Lemma keeps_lift {A} (R : S -> S -> Prop) `{!PreOrder R} (r : result E A) : keeps R (liftS r).
Proof. intros s. reflexivity. Qed.

Lemma keeps_modify (R : S -> S -> Prop) f : (forall s, R s (f s)) -> keeps R (modifyS (E:=E) f).
Proof. intros H s. apply H. Qed.

Lemma keeps_for {A} (R : S -> S -> Prop) `{!PreOrder R} (f : A -> SE S E unit) l :
  (forall x, keeps R (f x)) -> keeps R (forS f l).
Proof.
  intros Hf. induction l as [|x l IH]; simpl; [by apply keeps_ret|].
  apply keeps_bind; auto.
Qed.
End MonadFacts.

(** ** Machine integers *)

Definition MaxInt64 : Z := 9223372036854775807.
Definition MinInt64 : Z := -9223372036854775808.
Definition in_int64 (z : Z) : Prop := MinInt64 <= z <= MaxInt64.
(** Go's int64 arithmetic wraps; uint64 counters wrap at 2^64. *)
Definition wrap64 (z : Z) : Z := (z - MinInt64) mod 2 ^ 64 + MinInt64.
Definition wrapu64 (z : Z) : Z := z mod 2 ^ 64.

Lemma wrap64_id z : in_int64 z -> wrap64 z = z.
Proof.
  unfold wrap64, in_int64, MinInt64, MaxInt64. intros H.
  rewrite Z.mod_small; lia.
Qed.

Lemma wrap64_range z : in_int64 (wrap64 z).
Proof.
  unfold wrap64, in_int64, MinInt64, MaxInt64.
  pose proof (Z.mod_pos_bound (z - -9223372036854775808) (2 ^ 64)). lia.
Qed.

(** ** Three-way comparisons

    Go's [cmp.Compare], [strings.Compare] and the program's own comparisons return
    -1, 0 or 1: the type [comparison], with [Lt], [Eq] and [Gt]. *)

Class CmpPreorder {A} (c : A -> A -> comparison) : Prop := {
  cmp_opp : forall x y, c y x = CompOpp (c x y);
  cmp_le_trans : forall x y z, c x y <> Gt -> c y z <> Gt -> c x z <> Gt
}.

Section CmpFacts.
Context {A : Type} (c : A -> A -> comparison) `{!CmpPreorder c}.

Lemma cmp_refl x : c x x = Eq.
Proof. pose proof (cmp_opp (c:=c) x x) as H. by destruct (c x x). Qed.

Lemma cmp_Eq_sym x y : c x y = Eq -> c y x = Eq.
Proof. intros H. rewrite (cmp_opp (c:=c)), H. done. Qed.

Lemma cmp_Lt_Gt x y : c x y = Lt <-> c y x = Gt.
Proof. rewrite (cmp_opp (c:=c) x y). destruct (c x y); simpl; split; congruence. Qed.

Lemma cmp_Eq_trans x y z : c x y = Eq -> c y z = Eq -> c x z = Eq.
Proof.
  intros H1 H2.
  assert (c x z <> Gt) as Ha by (apply (cmp_le_trans (c:=c) x y z); congruence).
  assert (c z x <> Gt) as Hb.
  { apply (cmp_le_trans (c:=c) z y x); rewrite (cmp_opp (c:=c)); [rewrite H2|rewrite H1]; done. }
  rewrite (cmp_opp (c:=c) x z) in Hb. destruct (c x z); naive_solver.
Qed.

Lemma cmp_Lt_le_trans x y z : c x y = Lt -> c y z <> Gt -> c x z = Lt.
Proof.
  intros H1 H2.
  assert (c x z <> Gt) as Ha by (apply (cmp_le_trans (c:=c) x y z); congruence).
  destruct (c x z) eqn:E; try done. exfalso.
  assert (c y x <> Gt) as Hb.
  { apply (cmp_le_trans (c:=c) y z x); [done|]. rewrite (cmp_opp (c:=c)), E. done. }
  rewrite (cmp_opp (c:=c) x y), H1 in Hb. done.
Qed.

Lemma cmp_le_Lt_trans x y z : c x y <> Gt -> c y z = Lt -> c x z = Lt.
Proof.
  intros H1 H2.
  assert (c x z <> Gt) as Ha by (apply (cmp_le_trans (c:=c) x y z); congruence).
  destruct (c x z) eqn:E; try done. exfalso.
  assert (c z y <> Gt) as Hb.
  { apply (cmp_le_trans (c:=c) z x y); [|done]. rewrite (cmp_opp (c:=c)), E. done. }
  rewrite (cmp_opp (c:=c) y z), H2 in Hb. done.
Qed.

Lemma cmp_Gt_trans x y z : c x y = Gt -> c y z = Gt -> c x z = Gt.
Proof.
  rewrite <- !cmp_Lt_Gt. intros H1 H2. by apply (cmp_Lt_le_trans z y x); [|congruence].
Qed.

Lemma cmp_Eq_l x y z : c x y = Eq -> c x z = c y z.
Proof.
  intros H. pose proof (cmp_Eq_sym _ _ H) as H'.
  destruct (c y z) eqn:E.
  - by apply (cmp_Eq_trans x y z).
  - by apply (cmp_le_Lt_trans x y z); [congruence|].
  - apply cmp_Lt_Gt. apply cmp_Lt_Gt in E.
    by apply (cmp_Lt_le_trans z y x); [|congruence].
Qed.

Lemma cmp_Eq_r x y z : c y z = Eq -> c x y = c x z.
Proof.
  intros H. rewrite (cmp_opp (c:=c) y x), (cmp_opp (c:=c) z x). by rewrite (cmp_Eq_l _ _ _ H).
Qed.
End CmpFacts.

(** [c] decides; where it says equal, [d] does. *)
Definition lex {A} (c d : A -> A -> comparison) (x y : A) : comparison :=
  match c x y with Eq => d x y | r => r end.

(** Comparison of a derived key. *)
Definition on_key {A B} (f : A -> B) (c : B -> B -> comparison) (x y : A) : comparison :=
  c (f x) (f y).

#[export] Instance CmpPreorder_lex {A} (c d : A -> A -> comparison) :
  CmpPreorder c -> CmpPreorder d -> CmpPreorder (lex c d).
Proof.
  intros Hc Hd. split; unfold lex.
  - intros x y. rewrite (cmp_opp (c:=c) x y). destruct (c x y); simpl; [apply cmp_opp|done|done].
  - intros x y z. destruct (c x y) eqn:E1; [| |done].
    + rewrite (cmp_Eq_l c _ _ z E1). destruct (c y z); [|done|done]. apply cmp_le_trans.
    + intros _ H2. rewrite (cmp_Lt_le_trans c x y z); [done|done|].
      intros E2. by rewrite E2 in H2.
Qed.

#[export] Instance CmpPreorder_on_key {A B} (f : A -> B) (c : B -> B -> comparison) :
  CmpPreorder c -> CmpPreorder (on_key f c).
Proof. intros Hc. split; unfold on_key; intros; [apply cmp_opp|by eapply cmp_le_trans]. Qed.

#[export] Instance CmpPreorder_Z : CmpPreorder Z.compare.
Proof.
  split; [intros; by rewrite Z.compare_antisym|].
  intros x y z. change (x <= y -> y <= z -> x <= z). lia.
Qed.

Lemma String_leb_compare s t : String.leb s t = true <-> String.compare s t <> Gt.
Proof. unfold String.leb. destruct (String.compare s t); naive_solver. Qed.

#[export] Instance CmpPreorder_string : CmpPreorder String.compare.
Proof.
  split; [intros; by rewrite String.compare_antisym|].
  intros x y z. rewrite <- !String_leb_compare.
  intros H1 H2. apply Is_true_true. apply Is_true_true in H1, H2.
  by apply (transitivity (R:=String.le) (y:=y)).
Qed.
