(* ===== verification/GoStrings.v ===== *)
(** * What the program uses of Go's strings, path, strconv and unicode/utf8

    A Go string is a byte sequence: Rocq's [string], a list of 8-bit [ascii].
    [strings.Compare] and SQLite's BINARY collation compare bytes: [String.compare]. *)

From S2P Require Import Prelude.

(** Go's [<] and [<=] on strings. *)
Notation "s <s t" := (String.ltb s t) (at level 70) : birak_scope.
Notation "s <=s t" := (String.leb s t) (at level 70) : birak_scope.
Notation "s =s t" := (String.eqb s t) (at level 70) : birak_scope.

(** [strings.HasPrefix(s, p)] *)
Definition HasPrefix (s p : string) : bool := String.prefix p s.

(** [strings.TrimPrefix(s, p)] *)
Definition TrimPrefix (s p : string) : string :=
  if HasPrefix s p then String.substring (String.length p) (String.length s - String.length p)%nat s
  else s.

Definition str1 (c : ascii) : string := String c "".

(** [strings.Split(s, sep)] for a one-byte separator: never empty. *)
Fixpoint Split (s : string) (sep : ascii) : list string :=
  match s with
  | "" => [""]
  | String c s' =>
      if Ascii.eqb c sep then "" :: Split s' sep
      else match Split s' sep with
           | [] => [str1 c]
           | part :: rest => String c part :: rest
           end
  end.

(** [strings.Join(parts, sep)] *)
Fixpoint Join (parts : list string) (sep : string) : string :=
  match parts with
  | [] => ""
  | [p] => p
  | p :: rest => p +:+ sep +:+ Join rest sep
  end.

(** [strings.IndexByte] split in two: the text before the first [sep] and after it. *)
Fixpoint Cut (s : string) (sep : ascii) : option (string * string) :=
  match s with
  | "" => None
  | String c s' =>
      if Ascii.eqb c sep then Some ("", s')
      else match Cut s' sep with
           | Some (a, b) => Some (String c a, b)
           | None => None
           end
  end.

Definition ContainsByte (s : string) (c : ascii) : bool :=
  match Cut s c with Some _ => true | None => false end.

(** ** Package path

    [path.Clean] is [filepath.Clean] on the unix builds: empty and "." elements go,
    an inner ".." removes the element before it, a leading ".." stays unless the path
    is rooted, and an empty result is ".". *)
Fixpoint clean_go (rooted : bool) (stack parts : list string) : list string :=
  match parts with
  | [] => rev stack
  | p :: rest =>
      if (p =s "") || (p =s ".") then clean_go rooted stack rest
      else if p =s ".." then
        match stack with
        | top :: below =>
            if top =s ".." then clean_go rooted (p :: stack) rest
            else clean_go rooted below rest
        | [] => if rooted then clean_go rooted [] rest else clean_go rooted [p] rest
        end
      else clean_go rooted (p :: stack) rest
  end.

Definition Clean (p : string) : string :=
  if p =s "" then "."
  else
    let rooted := HasPrefix p "/" in
    let body := Join (clean_go rooted [] (Split p "/")) "/" in
    if rooted then "/" +:+ body else if body =s "" then "." else body.

(** Everything up to and including the last slash: the directory half of [path.Split]. *)
Fixpoint dir_part (s : string) : string :=
  match s with
  | "" => ""
  | String c s' =>
      if ContainsByte s "/" then String c (dir_part s') else ""
  end.

(** [path.Dir(p)] *)
Definition Dir (p : string) : string := Clean (dir_part p).

(** [filepath.IsLocal] on unix. *)
Definition IsLocal (p : string) : bool :=
  if HasPrefix p "/" || (p =s "") then false
  else
    let hasDots := existsb (fun part => (part =s ".") || (part =s "..")) (Split p "/") in
    let p' := if hasDots then Clean p else p in
    negb ((p' =s "..") || HasPrefix p' "../").

(** ** Decimal text *)

Definition byte_val (c : ascii) : Z := Z.of_N (Ascii.N_of_ascii c).
Definition is_digit (c : ascii) : bool := (48 <=? byte_val c) && (byte_val c <=? 57).
Definition digit_val (c : ascii) : Z := byte_val c - 48.

Fixpoint all_digits (s : string) : bool :=
  match s with "" => true | String c s' => is_digit c && all_digits s' end.

Definition slen (s : string) : Z := Z.of_nat (String.length s).

(** The number a digit string denotes, most significant digit first. *)
Fixpoint dec_val (s : string) : Z :=
  match s with
  | "" => 0
  | String c s' => digit_val c * 10 ^ slen s' + dec_val s'
  end.

Definition digit_char (d : Z) : ascii := Ascii.ascii_of_N (Z.to_N (48 + d)).

(** [strconv.FormatInt(n, 10)]: twenty digits cover every int64. *)
Fixpoint format_go (fuel : nat) (n : Z) (acc : string) : string :=
  match fuel with
  | O => acc
  | S fuel' =>
      let acc' := String (digit_char (n mod 10)) acc in
      if n / 10 =? 0 then acc' else format_go fuel' (n / 10) acc'
  end.

Definition FormatInt (n : Z) : string :=
  if n <? 0 then String "-" (format_go 20 (- n) "") else format_go 20 n "".

(** [strconv.ParseInt(s, 10, 64)]: an optional sign, at least one digit, within range. *)
Definition ParseInt (s : string) : option Z :=
  let '(neg, body) :=
    match s with
    | String "-" s' => (true, s')
    | String "+" s' => (false, s')
    | _ => (false, s)
    end in
  if (body =s "") || negb (all_digits body) then None
  else
    let v := if neg then - dec_val body else dec_val body in
    if (MinInt64 <=? v) && (v <=? MaxInt64) then Some v else None.

(** ** [utf8.ValidString] *)

Definition byte_in (lo hi : Z) (c : ascii) : bool := (lo <=? byte_val c) && (byte_val c <=? hi).
Definition cont (c : ascii) : bool := byte_in 128 191 c.

Fixpoint ValidString (s : string) : bool :=
  match s with
  | "" => true
  | String c0 s1 =>
      if byte_in 0 127 c0 then ValidString s1
      else match s1 with
           | "" => false
           | String c1 s2 =>
               if byte_in 194 223 c0 then cont c1 && ValidString s2
               else match s2 with
                    | "" => false
                    | String c2 s3 =>
                        if byte_in 224 224 c0 then byte_in 160 191 c1 && cont c2 && ValidString s3
                        else if byte_in 237 237 c0 then byte_in 128 159 c1 && cont c2 && ValidString s3
                        else if byte_in 225 239 c0 then cont c1 && cont c2 && ValidString s3
                        else match s3 with
                             | "" => false
                             | String c3 s4 =>
                                 if byte_in 240 240 c0 then byte_in 144 191 c1 && cont c2 && cont c3 && ValidString s4
                                 else if byte_in 241 243 c0 then cont c1 && cont c2 && cont c3 && ValidString s4
                                 else if byte_in 244 244 c0 then byte_in 128 143 c1 && cont c2 && cont c3 && ValidString s4
                                 else false
                             end
                    end
           end
  end.

(** ** Facts *)

Lemma HasPrefix_spec s p : HasPrefix s p = true <-> exists t, s = p +:+ t.
Proof.
  unfold HasPrefix. revert s. induction p as [|c p IH]; intros s; simpl.
  - split; [by exists s|by destruct s].
  - destruct s as [|c' s]; simpl.
    { split; [done|]. intros [t Ht]. discriminate Ht. }
    destruct (ascii_dec c c') as [->|Hne].
    + rewrite IH. split; intros [t Ht]; exists t; [by rewrite Ht|by injection Ht].
    + split; [done|]. intros [t Ht]. by injection Ht as -> _.
Qed.

Lemma HasPrefix_app p t : HasPrefix (p +:+ t) p = true.
Proof. apply HasPrefix_spec. by exists t. Qed.

Lemma string_app_assoc (a b c : string) : (a +:+ b) +:+ c = a +:+ b +:+ c.
Proof. induction a as [|x a IH]; simpl; [done|by rewrite IH]. Qed.

Lemma string_app_nil_r (a : string) : a +:+ "" = a.
Proof. induction a as [|x a IH]; simpl; [done|by rewrite IH]. Qed.

Lemma string_length_app (a b : string) : String.length (a +:+ b) = (String.length a + String.length b)%nat.
Proof. induction a as [|x a IH]; simpl; [done|by rewrite IH]. Qed.

Lemma slen_app a b : slen (a +:+ b) = slen a + slen b.
Proof. unfold slen. rewrite string_length_app. lia. Qed.

Lemma slen_cons c s : slen (String c s) = slen s + 1.
Proof. unfold slen. simpl. lia. Qed.

Lemma slen_nonneg s : 0 <= slen s.
Proof. unfold slen. lia. Qed.

Lemma TrimPrefix_app p t : TrimPrefix (p +:+ t) p = t.
Proof.
  unfold TrimPrefix. rewrite HasPrefix_app, string_length_app.
  replace (String.length p + String.length t - String.length p)%nat with (String.length t) by lia.
  induction p as [|c p IH]; simpl; [|done]. clear.
  induction t as [|c t IH]; simpl; [done|by rewrite IH].
Qed.

Lemma HasPrefix_trans s p q : HasPrefix s p = true -> HasPrefix p q = true -> HasPrefix s q = true.
Proof.
  rewrite !HasPrefix_spec. intros [t ->] [u ->]. exists (u +:+ t). by rewrite string_app_assoc.
Qed.

(** Two prefixes of one string. *)
Lemma prefixes_comparable s p q : HasPrefix s p = true -> HasPrefix s q = true -> HasPrefix p q = true \/ HasPrefix q p = true.
Proof.
  revert p q. induction s as [|c s IH]; intros p q Hp Hq; apply HasPrefix_spec in Hp as [t Hp], Hq as [u Hq].
  - destruct p; [|done]. right. by destruct q.
  - destruct p as [|a p]; [right; by destruct q|]. destruct q as [|b q]; [by left|]. injection Hp as <- Hp. injection Hq as <- Hq.
    destruct (IH p q) as [H|H]; [apply HasPrefix_spec; by exists t|apply HasPrefix_spec; by exists u|left|right];
      apply HasPrefix_spec in H as [v ->]; apply HasPrefix_spec; by exists v.
Qed.

(** Comparison of strings that share a prefix is comparison of the rests. *)
Lemma compare_app p a b : String.compare (p +:+ a) (p +:+ b) = String.compare a b.
Proof.
  induction p as [|c p IH]; simpl; [done|].
  unfold Ascii.compare. by rewrite N.compare_refl.
Qed.

Lemma string_ltb_spec s t : (s <s t) = true <-> String.compare s t = Lt.
Proof. unfold String.ltb. destruct (String.compare s t); naive_solver. Qed.

Lemma N_of_ascii_inj a b : N_of_ascii a = N_of_ascii b -> a = b.
Proof. intros H. rewrite <- (ascii_N_embedding a), <- (ascii_N_embedding b). by rewrite H. Qed.

(** '/' is the byte right before '0', so the half-open range between the two
    extensions of a name holds exactly the strings below that name. *)
Lemma subtree_range name s :
  ((name +:+ "/" <=s s) && (s <s name +:+ "0")) = HasPrefix s (name +:+ "/").
Proof.
  apply eq_true_iff_eq. rewrite andb_true_iff, String_leb_compare, string_ltb_spec, HasPrefix_spec.
  revert s. induction name as [|c name IH]; intros s; simpl.
  - destruct s as [|x s]; simpl; [split; [intros [? ?]; done|intros [t Ht]; discriminate Ht]|].
    unfold Ascii.compare.
    change (N_of_ascii "/") with 47%N. change (N_of_ascii "0") with 48%N.
    split.
    + intros [H1 H2].
      assert (N_of_ascii x = 47%N) as Hx.
      { destruct (N.compare_spec 47 (N_of_ascii x)); [done| |done].
        destruct (N.compare_spec (N_of_ascii x) 48) as [E| |]; [|lia|done].
        by destruct s. }
      exists s. f_equal. by apply N_of_ascii_inj.
    + intros [t Ht]. injection Ht as -> ->.
      change (N_of_ascii "/") with 47%N. simpl. split; [by destruct t|done].
  - destruct s as [|x s]; simpl; [split; [intros [? ?]; done|intros [t Ht]; discriminate Ht]|].
    unfold Ascii.compare.
    destruct (N.compare_spec (N_of_ascii c) (N_of_ascii x)) as [E|E|E].
    + apply N_of_ascii_inj in E as ->. rewrite N.compare_refl, IH.
      split; intros [t Ht]; exists t; [by rewrite Ht|by injection Ht].
    + rewrite (proj2 (N.compare_gt_iff (N_of_ascii x) (N_of_ascii c)) E).
      split; [by intros [_ ?]|]. intros [t Ht]. injection Ht as -> _. lia.
    + split; [intros [? _]; done|]. intros [t Ht]. injection Ht as -> _. lia.
Qed.

(** *** Split and Join *)

Lemma Split_nonnil s sep : Split s sep <> [].
Proof. destruct s as [|c s]; simpl; [done|]. destruct (Ascii.eqb c sep); [done|]. by destruct (Split s sep). Qed.

Lemma Join_cons p rest sep : rest <> [] -> Join (p :: rest) sep = p +:+ sep +:+ Join rest sep.
Proof. by destruct rest. Qed.

Lemma Join_cons_char c p rest sep : Join (String c p :: rest) sep = String c (Join (p :: rest) sep).
Proof. by destruct rest. Qed.

Lemma Join_Split s sep : Join (Split s sep) (str1 sep) = s.
Proof.
  induction s as [|c s IH]; simpl; [done|].
  destruct (Ascii.eqb_spec c sep) as [->|Hne].
  - rewrite Join_cons by apply Split_nonnil. by rewrite IH.
  - pose proof (Split_nonnil s sep). destruct (Split s sep) as [|p rest]; [done|].
    by rewrite Join_cons_char, IH.
Qed.

Lemma ContainsByte_cons c s sep :
  ContainsByte (String c s) sep = Ascii.eqb c sep || ContainsByte s sep.
Proof.
  unfold ContainsByte. simpl. destruct (Ascii.eqb c sep); [done|]. by destruct (Cut s sep) as [[??]|].
Qed.

Lemma Split_no_sep s sep : Forall (fun p => ContainsByte p sep = false) (Split s sep).
Proof.
  induction s as [|c s IH]; simpl; [by constructor|].
  destruct (Ascii.eqb_spec c sep) as [->|Hne]; [by constructor|].
  destruct (Split s sep) as [|p rest]; [constructor; [|done]|].
  - unfold str1. rewrite ContainsByte_cons. by destruct (Ascii.eqb_spec c sep).
  - inversion_clear IH. constructor; [|done].
    rewrite ContainsByte_cons. destruct (Ascii.eqb_spec c sep); [done|]. by simpl.
Qed.

(** *** Decimal text *)

Lemma digit_range c : is_digit c = true -> 0 <= digit_val c <= 9.
Proof. unfold is_digit, digit_val. rewrite andb_true_iff, !Z.leb_le. lia. Qed.

Lemma dec_val_bounds s : all_digits s = true -> 0 <= dec_val s < 10 ^ slen s.
Proof.
  induction s as [|c s IH]; [done|]. simpl. rewrite andb_true_iff. intros [Hc Hs].
  apply digit_range in Hc. specialize (IH Hs).
  rewrite slen_cons, Z.pow_add_r by (pose proof (slen_nonneg s); lia). nia.
Qed.

Lemma dec_val_leading c s :
  all_digits (String c s) = true -> c <> "0"%char -> 10 ^ slen s <= dec_val (String c s).
Proof.
  simpl. rewrite andb_true_iff. intros [Hc Hs] Hne.
  pose proof (dec_val_bounds s Hs). apply digit_range in Hc as Hd.
  assert (digit_val c <> 0) as Hd0.
  { intros E. apply Hne, N_of_ascii_inj. unfold digit_val, byte_val in E.
    change (N_of_ascii "0") with 48%N. lia. }
  assert (0 < 10 ^ slen s) by (apply Z.pow_pos_nonneg; [lia|apply slen_nonneg]).
  nia.
Qed.

(** Byte order is numeric order on digit strings of one length. *)
Lemma compare_dec_val a b :
  all_digits a = true -> all_digits b = true -> String.length a = String.length b ->
  String.compare a b = Z.compare (dec_val a) (dec_val b).
Proof.
  revert b. induction a as [|x a IH]; intros [|y b]; simpl; try done.
  rewrite !andb_true_iff. intros [Hx Ha] [Hy Hb] Hlen. injection Hlen as Hlen.
  specialize (IH b Ha Hb Hlen). unfold Ascii.compare.
  assert (slen a = slen b) as Hs by (unfold slen; lia).
  pose proof (dec_val_bounds a Ha) as Ba. pose proof (dec_val_bounds b Hb) as Bb. rewrite Hs in *.
  unfold digit_val, byte_val.
  destruct (N.compare_spec (N_of_ascii x) (N_of_ascii y)) as [E|E|E].
  - rewrite E, IH. symmetry. apply Z.add_compare_mono_l.
  - symmetry. apply Z.compare_lt_iff. nia.
  - symmetry. apply Z.compare_gt_iff. nia.
Qed.

(** A longer digit string without a leading zero denotes a larger number. *)
Lemma dec_val_longer a b :
  all_digits a = true -> all_digits b = true ->
  (exists c b', b = String c b' /\ c <> "0"%char) ->
  (String.length a < String.length b)%nat -> dec_val a < dec_val b.
Proof.
  intros Ha Hb (c & b' & -> & Hc) Hlen.
  pose proof (dec_val_bounds a Ha). pose proof (dec_val_leading c b' Hb Hc).
  simpl in Hlen. assert (10 ^ slen a <= 10 ^ slen b').
  { apply Z.pow_le_mono_r; unfold slen; lia. }
  lia.
Qed.

Lemma digit_char_spec d : 0 <= d <= 9 -> is_digit (digit_char d) = true /\ digit_val (digit_char d) = d.
Proof.
  intros H. unfold is_digit, digit_val, byte_val, digit_char.
  rewrite N_ascii_embedding by lia. rewrite Z2N.id by lia.
  rewrite andb_true_iff, !Z.leb_le. lia.
Qed.

Lemma format_go_spec fuel n acc :
  0 <= n < 10 ^ Z.of_nat fuel -> (0 < fuel)%nat -> all_digits acc = true ->
  all_digits (format_go fuel n acc) = true /\
  dec_val (format_go fuel n acc) = n * 10 ^ slen acc + dec_val acc /\
  format_go fuel n acc <> "".
Proof.
  revert n acc. induction fuel as [|fuel IH]; [lia|]. intros n acc Hn _ Hacc. simpl.
  pose proof (Z.mod_pos_bound n 10 ltac:(lia)) as Hm.
  destruct (digit_char_spec (n mod 10) ltac:(lia)) as [Hd1 Hd2].
  pose proof (Z.div_mod n 10 ltac:(lia)) as Hdm.
  destruct (Z.eqb_spec (n / 10) 0) as [E|E].
  - simpl. rewrite Hd1, Hd2, Hacc. split; [done|]. split; [|done]. rewrite E in Hdm. lia.
  - assert (fuel <> O) as Hfuel.
    { intros ->. change (10 ^ Z.of_nat 1) with 10 in Hn. apply E. apply Z.div_small. lia. }
    destruct (IH (n / 10) (String (digit_char (n mod 10)) acc)) as (H1 & H2 & H3); [|lia|simpl; by rewrite Hd1|].
    { split; [apply Z.div_pos; lia|]. apply Z.div_lt_upper_bound; [lia|].
      rewrite <- Z.pow_succ_r by lia. rewrite <- Nat2Z.inj_succ. lia. }
    split; [done|]. split; [|done]. rewrite H2. simpl. rewrite Hd2, slen_cons.
    rewrite Z.pow_add_r by (pose proof (slen_nonneg acc); lia). change (10 ^ 1) with 10.
    set (q := n / 10) in *. set (r := n mod 10) in *. rewrite Hdm. ring.
Qed.

Lemma FormatInt_spec n :
  0 <= n <= MaxInt64 -> all_digits (FormatInt n) = true /\ dec_val (FormatInt n) = n /\ FormatInt n <> "".
Proof.
  intros Hn. unfold FormatInt. rewrite (proj2 (Z.ltb_ge n 0)) by lia.
  destruct (format_go_spec 20 n "") as (H1 & H2 & H3); [|lia|done|].
  - unfold MaxInt64 in Hn. change (10 ^ Z.of_nat 20) with 100000000000000000000. lia.
  - split; [done|]. split; [|done]. rewrite H2. change (slen "") with 0. rewrite Z.pow_0_r. simpl. lia.
Qed.

Lemma digit_not_sign c s : all_digits (String c s) = true -> c <> "-"%char /\ c <> "+"%char.
Proof. simpl. rewrite andb_true_iff. intros [H _]. split; intros ->; done. Qed.

(** Formatting and parsing are inverse on the non-negative int64 range. *)
Lemma ParseInt_FormatInt n : 0 <= n <= MaxInt64 -> ParseInt (FormatInt n) = Some n.
Proof.
  intros Hn. destruct (FormatInt_spec n Hn) as (H1 & H2 & H3).
  unfold ParseInt. set (s := FormatInt n) in *. clearbody s.
  destruct s as [|c s]; [done|]. destruct (digit_not_sign c s H1) as [Hm Hp].
  assert (match String c s with
          | String "-" s' => (true, s') | String "+" s' => (false, s') | _ => (false, String c s) end
          = (false, String c s)) as ->.
  { destruct c as [[] [] [] [] [] [] [] []]; try reflexivity; exfalso; by (apply Hm || apply Hp). }
  rewrite H1, H2. simpl. unfold MinInt64, MaxInt64 in *.
  rewrite (proj2 (Z.leb_le _ _)), (proj2 (Z.leb_le _ _)) by lia. done.
Qed.

Lemma Join_Split_slash s : Join (Split s "/") "/" = s.
Proof. exact (Join_Split s "/"). Qed.

(** ASCII letters to lower case. *)
Definition lower_byte (c : ascii) : ascii :=
  if byte_in 65 90 c then Ascii.ascii_of_N (N_of_ascii c + 32) else c.
Fixpoint ascii_lower (s : string) : string :=
  match s with "" => "" | String c s' => String (lower_byte c) (ascii_lower s') end.

(** ** Trimming *)

Fixpoint srev_onto (s acc : string) : string :=
  match s with "" => acc | String c s' => srev_onto s' (String c acc) end.
Definition srev (s : string) : string := srev_onto s "".

(** [unicode.IsSpace], by the bytes of its UTF-8 form: one byte below U+0080, U+0085 and
    U+00A0 in two, and U+1680, U+2000 to U+200A, U+2028, U+2029, U+202F, U+205F and U+3000
    in three. *)
Definition space1 (c : ascii) : bool := byte_in 9 13 c || byte_in 32 32 c.
Definition space2 (c0 c1 : ascii) : bool := byte_in 194 194 c0 && (byte_in 133 133 c1 || byte_in 160 160 c1).
Definition space3 (c0 c1 c2 : ascii) : bool :=
  (byte_in 225 225 c0 && byte_in 154 154 c1 && byte_in 128 128 c2) ||
  (byte_in 226 226 c0 && byte_in 128 128 c1 && (byte_in 128 138 c2 || byte_in 168 169 c2 || byte_in 175 175 c2)) ||
  (byte_in 226 226 c0 && byte_in 129 129 c1 && byte_in 159 159 c2) ||
  (byte_in 227 227 c0 && byte_in 128 128 c1 && byte_in 128 128 c2).

(** Strips leading runes; [flip] reads the bytes of each rune in reverse. *)
Fixpoint strip_spaces (flip : bool) (s : string) : string :=
  match s with
  | "" => ""
  | String c0 s1 =>
      if space1 c0 then strip_spaces flip s1
      else match s1 with
           | "" => s
           | String c1 s2 =>
               if (if flip then space2 c1 c0 else space2 c0 c1) then strip_spaces flip s2
               else match s2 with
                    | "" => s
                    | String c2 s3 =>
                        if (if flip then space3 c2 c1 c0 else space3 c0 c1 c2) then strip_spaces flip s3 else s
                    end
           end
  end.

(** [strings.TrimSpace(s)] *)
Definition TrimSpace (s : string) : string := srev (strip_spaces true (srev (strip_spaces false s))).

(** [strings.TrimLeft(s, cutset)] and [strings.Trim(s, cutset)] for a set of ASCII bytes. *)
Fixpoint TrimLeft (s : string) (cutset : string) : string :=
  match s with
  | "" => ""
  | String c s' => if ContainsByte cutset c then TrimLeft s' cutset else s
  end.
Definition Trim (s : string) (cutset : string) : string := srev (TrimLeft (srev (TrimLeft s cutset)) cutset).

(** [strings.HasSuffix(s, p)] and [strings.TrimSuffix(s, p)] *)
Definition HasSuffix (s p : string) : bool := HasPrefix (srev s) (srev p).
Definition TrimSuffix (s p : string) : string := srev (TrimPrefix (srev s) (srev p)).

Lemma srev_onto_app s acc : srev_onto s acc = srev s +:+ acc.
Proof.
  unfold srev. revert acc. induction s as [|c s IH]; intros acc; simpl; [done|].
  rewrite IH, (IH (String c "")), string_app_assoc. done.
Qed.

Lemma srev_cons c s : srev (String c s) = srev s +:+ str1 c.
Proof. unfold srev at 1. simpl. by rewrite srev_onto_app. Qed.

Lemma srev_app a b : srev (a +:+ b) = srev b +:+ srev a.
Proof.
  induction a as [|c a IH]; simpl; [by rewrite string_app_nil_r|].
  by rewrite !srev_cons, IH, string_app_assoc.
Qed.

Lemma srev_involutive s : srev (srev s) = s.
Proof. induction s as [|c s IH]; [done|]. by rewrite srev_cons, srev_app, IH. Qed.

Lemma TrimSuffix_app s p : TrimSuffix (s +:+ p) p = s.
Proof. unfold TrimSuffix. rewrite srev_app, TrimPrefix_app. apply srev_involutive. Qed.

Lemma Cut_spec s sep :
  match Cut s sep with
  | Some (a, b) => s = a +:+ String sep b /\ ContainsByte a sep = false
  | None => ContainsByte s sep = false
  end.
Proof.
  induction s as [|c s IH]; [done|]. unfold ContainsByte. cbn [Cut].
  destruct (Ascii.eqb c sep) eqn:E; [by apply Ascii.eqb_eq in E as ->|].
  destruct (Cut s sep) as [[a b]|] eqn:Ec; [|done]. destruct IH as [-> IH]. split; [done|].
  unfold ContainsByte in IH. cbn [Cut]. rewrite E. by destruct (Cut a sep) as [[??]|].
Qed.

Lemma Cut_app a sep b : ContainsByte a sep = false -> Cut (a +:+ String sep b) sep = Some (a, b).
Proof.
  induction a as [|c a IH]; intros H; simpl; [by rewrite Ascii.eqb_refl|].
  unfold ContainsByte in H. cbn [Cut] in H. destruct (Ascii.eqb c sep); [done|].
  rewrite IH; [done|]. unfold ContainsByte. by destruct (Cut a sep) as [[??]|].
Qed.

(** Text that starts and ends with a visible ASCII byte is left alone. *)
Definition visible (c : ascii) : bool := byte_in 33 126 c.

Lemma strip_visible flip c s : visible c = true -> strip_spaces flip (String c s) = String c s.
Proof.
  unfold visible, byte_in. intros [H1 H2]%andb_true_iff. apply Z.leb_le in H1, H2.
  assert (forall lo hi, 127 <= lo -> byte_in lo hi c = false) as Hhi.
  { intros lo hi Hlo. unfold byte_in. by rewrite (proj2 (Z.leb_gt lo (byte_val c))) by lia. }
  cbn [strip_spaces]. unfold space1, space2, space3. unfold byte_in at 1 2.
  rewrite (proj2 (Z.leb_gt (byte_val c) 13)), (proj2 (Z.leb_gt (byte_val c) 32)) by lia. rewrite !andb_false_r. cbn [orb].
  destruct s as [|c1 s]; [done|]. rewrite !Hhi by lia. cbn [orb andb]. rewrite andb_false_r.
  destruct flip; (destruct s as [|c2 s]; [done|]); rewrite ?Hhi by lia; cbn [orb andb]; rewrite ?andb_false_r; done.
Qed.

Lemma TrimSpace_id c s d t : visible c = true -> visible d = true -> String c s = t +:+ str1 d -> TrimSpace (String c s) = String c s.
Proof.
  intros Hc Hd E. unfold TrimSpace. rewrite (strip_visible _ _ _ Hc), E, srev_app.
  change (srev (str1 d) +:+ srev t) with (String d (srev t)). rewrite (strip_visible _ _ _ Hd), srev_cons, srev_involutive. done.
Qed.

Lemma digit_visible c : is_digit c = true -> visible c = true.
Proof. unfold is_digit, visible, byte_in. rewrite !andb_true_iff, !Z.leb_le. lia. Qed.

Lemma string_snoc s : s <> "" -> exists t d, s = t +:+ str1 d.
Proof.
  induction s as [|c s IH]; [done|]. intros _. destruct s as [|c' s]; [by exists "", c|].
  destruct IH as (t & d & E); [done|]. exists (String c t), d. by rewrite E.
Qed.

Lemma all_digits_app a b : all_digits (a +:+ b) = all_digits a && all_digits b.
Proof. induction a as [|c a IH]; simpl; [done|]. by rewrite IH, andb_assoc. Qed.

Lemma Split_plain s sep : ContainsByte s sep = false -> Split s sep = [s].
Proof.
  induction s as [|c s IH]; intros H; [done|]. rewrite ContainsByte_cons in H. apply orb_false_iff in H as [H1 H2].
  cbn [Split]. rewrite H1. by rewrite (IH H2).
Qed.

Lemma ContainsByte_app a b c : ContainsByte (a +:+ b) c = ContainsByte a c || ContainsByte b c.
Proof. induction a as [|x a IH]; [done|]. simpl String.append. by rewrite !ContainsByte_cons, IH, orb_assoc. Qed.

Lemma digits_plain s sep : all_digits s = true -> is_digit sep = false -> ContainsByte s sep = false.
Proof.
  intros Hs Hsep. induction s as [|c s IH]; [done|]. simpl in Hs. apply andb_true_iff in Hs as [Hc Hs].
  rewrite ContainsByte_cons, IH by done. rewrite orb_false_r. apply Ascii.eqb_neq. intros ->. congruence.
Qed.

(** ** Hexadecimal text *)

Definition hex_char (d : Z) : ascii := Ascii.ascii_of_N (Z.to_N (if d <? 10 then 48 + d else 87 + d)).
Definition lower_hex (c : ascii) : bool := is_digit c || byte_in 97 102 c.
Definition any_hex (c : ascii) : bool := lower_hex c || byte_in 65 70 c.
Definition hex_digit_val (c : ascii) : Z :=
  if is_digit c then byte_val c - 48 else if byte_in 97 102 c then byte_val c - 87 else byte_val c - 55.

Fixpoint all_bytes (f : ascii -> bool) (s : string) : bool :=
  match s with "" => true | String c s' => f c && all_bytes f s' end.

(** The number hexadecimal digits denote, read from the left. *)
Fixpoint hex_acc (acc : Z) (s : string) : Z :=
  match s with "" => acc | String c s' => hex_acc (acc * 16 + hex_digit_val c) s' end.

Fixpoint hex_go (fuel : nat) (n : Z) (acc : string) : string :=
  match fuel with
  | O => acc
  | S fuel' =>
      let acc' := String (hex_char (n mod 16)) acc in
      if n / 16 =? 0 then acc' else hex_go fuel' (n / 16) acc'
  end.

(** [fmt.Sprintf("%x", n)] for an int64: sixteen digits cover its magnitude. *)
Definition FormatHex (n : Z) : string := if n <? 0 then String "-" (hex_go 16 (- n) "") else hex_go 16 n "".

Lemma hex_char_spec d : 0 <= d < 16 -> lower_hex (hex_char d) = true /\ hex_digit_val (hex_char d) = d.
Proof.
  intros Hd. assert (d = 0 \/ d = 1 \/ d = 2 \/ d = 3 \/ d = 4 \/ d = 5 \/ d = 6 \/ d = 7 \/ d = 8 \/ d = 9 \/ d = 10 \/ d = 11 \/ d = 12 \/ d = 13 \/ d = 14 \/ d = 15) as H by lia.
  repeat destruct H as [->|H]; try (subst d); vm_compute; done.
Qed.

Lemma hex_go_spec fuel n acc :
  0 <= n < 16 ^ Z.of_nat fuel -> (0 < fuel)%nat -> all_bytes lower_hex acc = true ->
  hex_acc 0 (hex_go fuel n acc) = hex_acc n acc /\ all_bytes lower_hex (hex_go fuel n acc) = true /\ hex_go fuel n acc <> "" /\
  (String.length (hex_go fuel n acc) <= fuel + String.length acc)%nat.
Proof.
  revert n acc. induction fuel as [|fuel IH]; intros n acc Hn Hf Ha; [lia|]. cbn [hex_go].
  pose proof (Z.mod_pos_bound n 16 ltac:(lia)) as Hm. destruct (hex_char_spec (n mod 16) Hm) as [Hh Hv].
  pose proof (Z.div_mod n 16 ltac:(lia)) as Hdm.
  destruct (n / 16 =? 0) eqn:E; [apply Z.eqb_eq in E|apply Z.eqb_neq in E].
  - cbn [hex_acc all_bytes String.length]. rewrite Hv, Hh, Ha. replace (0 * 16 + n mod 16) with n by lia. split_and!; try done. lia.
  - assert (0 < n / 16) as Hq. { pose proof (Z.div_pos n 16 ltac:(lia) ltac:(lia)). lia. }
    assert (n / 16 < 16 ^ Z.of_nat fuel) as Hlt.
    { apply Z.div_lt_upper_bound; [lia|]. rewrite <- Z.pow_succ_r by lia. replace (Z.succ (Z.of_nat fuel)) with (Z.of_nat (S fuel)) by lia. lia. }
    destruct fuel as [|fuel]; [simpl in Hlt; lia|].
    destruct (IH (n / 16) (String (hex_char (n mod 16)) acc)) as (I1 & I2 & I3 & I4); [lia|lia|cbn [all_bytes]; by rewrite Hh, Ha|].
    rewrite I1. cbn [hex_acc]. rewrite Hv. replace (n / 16 * 16 + n mod 16) with n by lia. cbn [String.length] in I4. split_and!; try done. lia.
Qed.

Lemma all_bytes_plain f s sep : all_bytes f s = true -> f sep = false -> ContainsByte s sep = false.
Proof.
  intros Hs Hsep. induction s as [|c s IH]; [done|]. simpl in Hs. apply andb_true_iff in Hs as [Hc Hs].
  rewrite ContainsByte_cons, IH by done. rewrite orb_false_r. apply Ascii.eqb_neq. intros ->. congruence.
Qed.

Lemma all_bytes_app f a b : all_bytes f (a +:+ b) = all_bytes f a && all_bytes f b.
Proof. induction a as [|c a IH]; simpl; [done|]. by rewrite IH, andb_assoc. Qed.

Lemma FormatHex_nonneg n : 0 <= n <= MaxInt64 ->
  hex_acc 0 (FormatHex n) = n /\ all_bytes lower_hex (FormatHex n) = true /\ FormatHex n <> "" /\ (String.length (FormatHex n) <= 16)%nat.
Proof.
  intros Hn. unfold FormatHex. rewrite (proj2 (Z.ltb_ge n 0)) by lia.
  apply (hex_go_spec 16 n ""); [|lia|done]. change (16 ^ Z.of_nat 16) with 18446744073709551616. unfold MaxInt64 in Hn. lia.
Qed.

Lemma FormatHex_neg n : MinInt64 <= n < 0 ->
  exists h, FormatHex n = String "-" h /\ hex_acc 0 h = - n /\ all_bytes lower_hex h = true /\ h <> "".
Proof.
  intros Hn. unfold FormatHex. rewrite (proj2 (Z.ltb_lt n 0)) by lia. exists (hex_go 16 (- n) ""). split; [done|].
  destruct (hex_go_spec 16 (- n) "") as (H1 & H2 & H3 & _); [|lia|done|done].
  change (16 ^ Z.of_nat 16) with 18446744073709551616. unfold MinInt64 in Hn. lia.
Qed.

Lemma FormatHex_inj a b : in_int64 a -> in_int64 b -> FormatHex a = FormatHex b -> a = b.
Proof.
  unfold in_int64. intros Ha Hb E. destruct (decide (a < 0)), (decide (b < 0)).
  - destruct (FormatHex_neg a) as (h & Ea & Va & _); [lia|]. destruct (FormatHex_neg b) as (h' & Eb & Vb & _); [lia|].
    rewrite Ea, Eb in E. injection E as ->. lia.
  - destruct (FormatHex_neg a) as (h & Ea & _); [lia|]. destruct (FormatHex_nonneg b) as (_ & Hb' & _); [lia|].
    rewrite <- E, Ea in Hb'. simpl in Hb'. discriminate Hb'.
  - destruct (FormatHex_neg b) as (h & Eb & _); [lia|]. destruct (FormatHex_nonneg a) as (_ & Ha' & _); [lia|].
    rewrite E, Eb in Ha'. simpl in Ha'. discriminate Ha'.
  - destruct (FormatHex_nonneg a) as (Va & _); [lia|]. destruct (FormatHex_nonneg b) as (Vb & _); [lia|]. congruence.
Qed.

Lemma lower_hex_visible c : lower_hex c = true -> visible c = true.
Proof. unfold lower_hex, is_digit, visible, byte_in. rewrite orb_true_iff, !andb_true_iff, !Z.leb_le. lia. Qed.

Lemma lower_hex_any c : lower_hex c = true -> any_hex c = true.
Proof. unfold any_hex. by intros ->. Qed.
