(* ===== verification/Hoare.v ===== *)
(** * Program logic for the state-and-error monad

    Triples with a postcondition for success and one for failure, and the rules the proofs
    about transfers and publication use. *)

From S2P Require Import Prelude.

Section Hoare.
Context {S E : Type}.

Definition triple {A} (P : S -> Prop) (c : SE S E A) (Q : A -> S -> Prop) (F : E -> S -> Prop) : Prop :=
  forall s, P s -> match c s with (Ok a, s') => Q a s' | (Err e, s') => F e s' end.

Lemma triple_bind {A B} P (c : SE S E A) (k : A -> SE S E B) Q R F :
  triple P c Q F -> (forall a, triple (Q a) (k a) R F) -> triple P (bindS c k) R F.
Proof.
  intros Hc Hk s Hs. specialize (Hc s Hs). unfold bindS. destruct (c s) as [[a|e] s']; [|done]. by apply Hk.
Qed.

Lemma triple_conseq {A} (P P' : S -> Prop) (c : SE S E A) (Q Q' : A -> S -> Prop) (F F' : E -> S -> Prop) :
  triple P c Q F -> (forall s, P' s -> P s) -> (forall a s, Q a s -> Q' a s) -> (forall e s, F e s -> F' e s) -> triple P' c Q' F'.
Proof. intros H HP HQ HF s Hs. specialize (H s (HP s Hs)). destruct (c s) as [[a|e] s']; auto. Qed.

Lemma triple_ret {A} (P : S -> Prop) (a : A) (Q : A -> S -> Prop) F : (forall s, P s -> Q a s) -> triple P (retS a) Q F.
Proof. intros H s Hs. by apply H. Qed.

Lemma triple_fail {A} (P : S -> Prop) e (Q : A -> S -> Prop) (F : E -> S -> Prop) : (forall s, P s -> F e s) -> triple P (failS e) Q F.
Proof. intros H s Hs. by apply H. Qed.

Lemma triple_get (P : S -> Prop) (F : E -> S -> Prop) : triple P getS (fun v s => v = s /\ P s) F.
Proof. intros s Hs. done. Qed.

Lemma triple_modify (P : S -> Prop) f (Q : unit -> S -> Prop) (F : E -> S -> Prop) : (forall s, P s -> Q tt (f s)) -> triple P (modifyS f) Q F.
Proof. intros H s Hs. by apply H. Qed.

Lemma triple_lift {A} (P : S -> Prop) (r : result E A) (Q : A -> S -> Prop) F :
  (forall s, P s -> match r with Ok a => Q a s | Err e => F e s end) -> triple P (liftS r) Q F.
Proof. intros H s Hs. specialize (H s Hs). by destruct r. Qed.

Lemma triple_try {A} (P : S -> Prop) (c : SE S E A) (Q : A -> S -> Prop) (F : E -> S -> Prop) (F' : E -> S -> Prop) :
  triple P c Q F -> triple P (tryS c) (fun r s => match r with Ok a => Q a s | Err e => F e s end) F'.
Proof. intros H s Hs. specialize (H s Hs). unfold tryS. by destruct (c s) as [[a|e] s']. Qed.

Lemma triple_pre {A} (P : S -> Prop) (phi : Prop) (c : SE S E A) Q F : (phi -> triple P c Q F) -> triple (fun s => phi /\ P s) c Q F.
Proof. intros H s [Hp Hs]. by apply H. Qed.

Lemma triple_exists {A B} (P : B -> S -> Prop) (c : SE S E A) Q F : (forall b, triple (P b) c Q F) -> triple (fun s => exists b, P b s) c Q F.
Proof. intros H s [b Hs]. by apply (H b). Qed.

(** A run that succeeds, from a triple. *)
Lemma triple_Ok {A} P (c : SE S E A) Q F s a s' : triple P c Q F -> P s -> c s = (Ok a, s') -> Q a s'.
Proof. intros H Hs E'. specialize (H s Hs). by rewrite E' in H. Qed.

(** What every run keeps, a triple keeps on both ends. *)
Lemma triple_keeps {A} (R : S -> S -> Prop) (P : S -> Prop) (c : SE S E A) :
  keeps R c -> (forall s s', R s s' -> P s -> P s') -> triple P c (fun _ => P) (fun _ => P).
Proof. intros Hk HR s Hs. specialize (Hk s). destruct (c s) as [[a|e] s']; by eapply HR. Qed.
End Hoare.
