(* ===== verification/FileMeta.v ===== *)
(** * File states and their conflict order

    internal/store: the [FileMeta] record, the logical clock with its decimal
    extension (clock.go), the order that decides every conflict ([CompareState],
    store.go) and the namespace tombstones and conflict copies of conflicts.go. *)

From S2P Require Import Prelude GoStrings.

(** ** Data *)

Record FileMeta := mkFileMeta {
  Name : string;
  ModTime : Z;
  Size : Z;
  Hash : string;
  Deleted : bool;
  Version : Z;
  BigClock : string;
  Clock : Z;
  SupersededBy : string;
  ConflictOf : string;
  DeletedAt : Z
}.

#[export] Instance FileMeta_eq_dec : EqDecision FileMeta.
Proof. solve_decision. Defined.

(** A state with nothing but a name set: Go's zero value of the other fields. *)
Definition zeroMeta (name : string) : FileMeta := {|
  Name := name; ModTime := 0; Size := 0; Hash := ""; Deleted := false; Version := 0;
  BigClock := ""; Clock := 0; SupersededBy := ""; ConflictOf := ""; DeletedAt := 0
|}.

Definition set_clocks (f : FileMeta) (clock : Z) (big : string) : FileMeta := {|
  Name := Name f; ModTime := ModTime f; Size := Size f; Hash := Hash f; Deleted := Deleted f;
  Version := Version f; BigClock := big; Clock := clock; SupersededBy := SupersededBy f;
  ConflictOf := ConflictOf f; DeletedAt := DeletedAt f
|}.

(** ** The logical clock *)

(** [func (f FileMeta) StateClock() int64] *)
Definition StateClock (f : FileMeta) : Z :=
  if negb (Clock f =? 0) then Clock f else ModTime f.

(** [func compareDecimal(a, b string) int] *)
Definition compareDecimal (a b : string) : comparison :=
  match Z.compare (slen a) (slen b) with
  | Eq => String.compare a b
  | c => c
  end.

Inductive clock_error := NonCanonicalClock | InvalidClockDigits | ClockWithinInt64.

(** [func ValidateClock(f FileMeta) error] *)
Definition ValidateClock (f : FileMeta) : result clock_error unit :=
  match BigClock f with
  | "" => Ok tt
  | String c0 _ =>
      if negb (Clock f =? MaxInt64) || (slen (BigClock f) <? 19) || Ascii.eqb c0 "0"
      then Err NonCanonicalClock
      else if negb (all_digits (BigClock f)) then Err InvalidClockDigits
      else match compareDecimal (BigClock f) (FormatInt MaxInt64) with
           | Gt => Ok tt
           | _ => Err ClockWithinInt64
           end
  end.

(** [func CompareClock(a, b FileMeta) int] *)
Definition CompareClock (a b : FileMeta) : comparison :=
  if negb (BigClock a =s "") && negb (BigClock b =s "") then compareDecimal (BigClock a) (BigClock b)
  else if negb (BigClock a =s "") then Gt
  else if negb (BigClock b =s "") then Lt
  else Z.compare (StateClock a) (StateClock b).

(** The carry loop of [AdvanceClock], from the last digit to the first: the carry left
    over and the digits written. *)
Fixpoint incr_digits (s : string) : bool * string :=
  match s with
  | "" => (true, "")
  | String c s' =>
      let '(carry, t) := incr_digits s' in
      if carry
      then if Ascii.eqb c "9" then (true, String "0" t)
           else (false, String (Ascii.ascii_of_N (N_of_ascii c + 1)) t)
      else (false, String c t)
  end.

(** The part of [AdvanceClock] below its early return: one above [p]. *)
Definition bumpClock (f p : FileMeta) : FileMeta :=
  if (BigClock p =s "") && (StateClock p <? MaxInt64)
  then set_clocks f (wrap64 (StateClock p + 1)) ""
  else
    let digits := if BigClock p =s "" then FormatInt (StateClock p) else BigClock p in
    let '(carry, b) := incr_digits digits in
    set_clocks f MaxInt64 (if carry then String "1" b else b).

(** [func AdvanceClock(f *FileMeta, previous *FileMeta)] *)
Definition AdvanceClock (f : FileMeta) (previous : option FileMeta) : FileMeta :=
  let f1 := if BigClock f =s "" then set_clocks f (Z.max (Z.max 1 (Clock f)) (ModTime f)) (BigClock f) else f in
  match previous with
  | None => f1
  | Some p =>
      match CompareClock f1 p with
      | Gt => f1
      | _ => bumpClock f1 p
      end
  end.

(** ** The conflict order *)

(** A state counts as live when its file exists, or when it records which live state
    displaced it. *)
Definition live (f : FileMeta) : bool := negb (Deleted f) || negb (SupersededBy f =s "").
Definition rankName (f : FileMeta) : string :=
  if negb (SupersededBy f =s "") then SupersededBy f else Name f.

Definition compareMeta (a b : FileMeta) : comparison :=
  match CompareClock a b with
  | Eq =>
      if ModTime a <? ModTime b then Lt
      else if ModTime b <? ModTime a then Gt
      else if negb (Bool.eqb (live a) (live b)) then (if negb (live a) then Lt else Gt)
      else if negb (live a) then Eq
      else match String.compare (Hash a) (Hash b) with
           | Eq => String.compare (rankName a) (rankName b)
           | c => c
           end
  | c => c
  end.

(** [func CompareState(a, b *FileMeta) int]: no state precedes every state. *)
Definition CompareState (a b : option FileMeta) : comparison :=
  match a, b with
  | None, None => Eq
  | None, Some _ => Lt
  | Some _, None => Gt
  | Some a, Some b => compareMeta a b
  end.

(** [func remoteWins(local *store.FileMeta, remote store.FileMeta) bool] *)
Definition remoteWins (local : option FileMeta) (remote : FileMeta) : bool :=
  match CompareState (Some remote) local with Gt => true | _ => false end.

(** ** Namespace conflicts *)

(** [func NamespaceConflict(a, b string) bool] *)
Definition NamespaceConflict (a b : string) : bool :=
  HasPrefix a (b +:+ "/") || HasPrefix b (a +:+ "/").

(** [func Superseded(name string, winner FileMeta) FileMeta] *)
Definition Superseded (name : string) (winner : FileMeta) : FileMeta := {|
  Name := name; ModTime := ModTime winner; Size := 0; Hash := Hash winner; Deleted := true;
  Version := 0; BigClock := BigClock winner; Clock := StateClock winner;
  SupersededBy := Name winner; ConflictOf := ""; DeletedAt := 0
|}.

Section ConflictCopy.
(** hex(SHA-256(JSON [name, hash])), the digest of the copy's name. *)
Context (conflictDigest : string -> string -> string).

(** [func ConflictCopyName(name, hash string) string] *)
Definition ConflictCopyName (name hash : string) : string :=
  "birak-conflict-" +:+ conflictDigest name hash.

(** [func ConflictCopy(meta FileMeta) FileMeta] *)
Definition ConflictCopy (meta : FileMeta) : FileMeta := {|
  Name := ConflictCopyName (Name meta) (Hash meta); ModTime := ModTime meta; Size := Size meta;
  Hash := Hash meta; Deleted := false; Version := 0; BigClock := BigClock meta;
  Clock := StateClock meta; SupersededBy := ""; ConflictOf := Name meta; DeletedAt := 0
|}.
End ConflictCopy.

(** ** What a clock denotes

    The abstract clock is an unbounded integer; [Clock] holds it while it fits and
    [BigClock] beyond. *)

Definition clockZ (f : FileMeta) : Z :=
  if BigClock f =s "" then StateClock f else dec_val (BigClock f).

(** The metadata a node can hold: int64 fields and a canonical extension. *)
Definition clock_ok (f : FileMeta) : Prop :=
  in_int64 (Clock f) /\ in_int64 (ModTime f) /\ ValidateClock f = Ok tt.

(** What [AdvanceClock] takes as the state's own proposal. *)
Definition ownClock (f : FileMeta) : Z :=
  if BigClock f =s "" then Z.max (Z.max 1 (Clock f)) (ModTime f) else dec_val (BigClock f).

(** ** The conflict order is a total preorder *)

Lemma eqs_true a b : (a =s b) = true <-> a = b.
Proof. apply String.eqb_eq. Qed.
Lemma eqs_false a b : (a =s b) = false <-> a <> b.
Proof. apply String.eqb_neq. Qed.
Lemma eqs_refl a : (a =s a) = true.
Proof. by apply String.eqb_eq. Qed.

#[export] Instance CmpPreorder_decimal : CmpPreorder compareDecimal.
Proof. change compareDecimal with (lex (on_key slen Z.compare) String.compare). apply _. Qed.

Definition b2z (b : bool) : Z := if b then 1 else 0.

Definition clockKeyCmp : FileMeta -> FileMeta -> comparison :=
  lex (on_key (fun m => b2z (negb (BigClock m =s ""))) Z.compare)
      (lex (on_key BigClock compareDecimal)
           (on_key (fun m => if BigClock m =s "" then StateClock m else 0) Z.compare)).

Lemma CompareClock_lex a b : CompareClock a b = clockKeyCmp a b.
Proof.
  unfold CompareClock, clockKeyCmp, lex, on_key.
  destruct (BigClock a =s "") eqn:Ea, (BigClock b =s "") eqn:Eb; simpl; try done.
  - apply eqs_true in Ea as ->. apply eqs_true in Eb as ->. done.
  - by destruct (compareDecimal (BigClock a) (BigClock b)).
Qed.

#[export] Instance CmpPreorder_clock : CmpPreorder CompareClock.
Proof.
  assert (CmpPreorder clockKeyCmp) as H by (unfold clockKeyCmp; apply _).
  split; intros *; rewrite !CompareClock_lex; [apply cmp_opp|apply cmp_le_trans].
Qed.

Definition metaKeyCmp : FileMeta -> FileMeta -> comparison :=
  lex CompareClock
    (lex (on_key ModTime Z.compare)
      (lex (on_key (fun m => b2z (live m)) Z.compare)
        (lex (on_key (fun m => if live m then Hash m else "") String.compare)
             (on_key (fun m => if live m then rankName m else "") String.compare)))).

Lemma compareMeta_lex a b : compareMeta a b = metaKeyCmp a b.
Proof.
  unfold compareMeta, metaKeyCmp, lex, on_key.
  destruct (CompareClock a b); [|done|done].
  destruct (Z.compare_spec (ModTime a) (ModTime b)) as [E|E|E].
  - rewrite E, Z.ltb_irrefl. destruct (live a), (live b); done.
  - by rewrite (proj2 (Z.ltb_lt _ _) E).
  - rewrite (proj2 (Z.ltb_ge _ _)), (proj2 (Z.ltb_lt _ _) E) by lia. done.
Qed.

#[export] Instance CmpPreorder_meta : CmpPreorder compareMeta.
Proof.
  assert (CmpPreorder metaKeyCmp) as H by (unfold metaKeyCmp; apply _).
  split; intros *; rewrite !compareMeta_lex; [apply cmp_opp|apply cmp_le_trans].
Qed.

#[export] Instance CmpPreorder_state : CmpPreorder CompareState.
Proof.
  split.
  - intros [a|] [b|]; simpl; try done. apply cmp_opp.
  - intros [a|] [b|] [c|]; simpl; try done. apply cmp_le_trans.
Qed.

Lemma remoteWins_spec local remote :
  remoteWins local remote = true <-> CompareState local (Some remote) = Lt.
Proof.
  unfold remoteWins. rewrite (cmp_Lt_Gt CompareState).
  by destruct (CompareState (Some remote) local).
Qed.

Lemma string_compare_Eq s t : String.compare s t = Eq <-> s = t.
Proof.
  split; [apply String.compare_eq_iff|]. intros ->. apply (cmp_refl String.compare).
Qed.

(** When two states of the conflict order are tied. *)
Lemma lex_Eq {A} (c d : A -> A -> comparison) x y : lex c d x y = Eq <-> c x y = Eq /\ d x y = Eq.
Proof.
  unfold lex. destruct (c x y); [tauto| |]; (split; [discriminate|intros [? _]; discriminate]).
Qed.

Lemma compareMeta_Eq a b :
  compareMeta a b = Eq <->
  CompareClock a b = Eq /\ ModTime a = ModTime b /\ live a = live b /\
  (live a = true -> Hash a = Hash b /\ rankName a = rankName b).
Proof.
  rewrite compareMeta_lex. unfold metaKeyCmp. rewrite !lex_Eq. unfold on_key.
  rewrite !Z.compare_eq_iff, !string_compare_Eq.
  destruct (live a), (live b); simpl; naive_solver.
Qed.

(** ** Clocks denote integers *)

Lemma maxint_text : FormatInt MaxInt64 = "9223372036854775807".
Proof. reflexivity. Qed.

Lemma clock_ok_big f :
  ValidateClock f = Ok tt -> BigClock f <> "" ->
  Clock f = MaxInt64 /\ all_digits (BigClock f) = true /\
  (exists c s, BigClock f = String c s /\ c <> "0"%char) /\ MaxInt64 < dec_val (BigClock f).
Proof.
  unfold ValidateClock. destruct (BigClock f) as [|c0 s] eqn:E; [done|]. intros H _.
  destruct (Z.eqb_spec (Clock f) MaxInt64) as [Hc|]; [|done]. simpl in H.
  destruct (slen (String c0 s) <? 19) eqn:Hl; [done|]. simpl in H.
  destruct (Ascii.eqb_spec c0 "0") as [|Hne]; [done|]. 
  destruct (is_digit c0 && all_digits s) eqn:Hd; [|done]. simpl in H.
  assert (exists c s', String c0 s = String c s' /\ c <> "0"%char) as Hex by eauto.
  split; [done|]. split; [done|]. split; [done|].
  apply Z.ltb_ge in Hl.
  destruct (compareDecimal _ _) eqn:Hcmp in H; try done. rewrite maxint_text in Hcmp.
  unfold compareDecimal in Hcmp. change (slen "9223372036854775807") with 19 in Hcmp.
  change MaxInt64 with (dec_val "9223372036854775807").
  destruct (Z.compare_spec (slen (String c0 s)) 19) as [El|El|El].
  - rewrite compare_dec_val in Hcmp; [|done|done|unfold slen in El; simpl in *; lia].
    by apply Z.compare_gt_iff in Hcmp.
  - lia.
  - apply dec_val_longer; [done|done|done|]. unfold slen in El. simpl in *. lia.
Qed.

Lemma compareDecimal_numeric a b :
  all_digits a = true -> all_digits b = true ->
  (exists c s, a = String c s /\ c <> "0"%char) -> (exists c s, b = String c s /\ c <> "0"%char) ->
  compareDecimal a b = Z.compare (dec_val a) (dec_val b).
Proof.
  intros Ha Hb La Lb. unfold compareDecimal, slen.
  destruct (Z.compare_spec (Z.of_nat (String.length a)) (Z.of_nat (String.length b))) as [E|E|E].
  - apply compare_dec_val; [done|done|lia].
  - symmetry. apply Z.compare_lt_iff. apply dec_val_longer; auto. lia.
  - symmetry. apply Z.compare_gt_iff. apply dec_val_longer; auto. lia.
Qed.

Lemma StateClock_int64 f : clock_ok f -> in_int64 (StateClock f).
Proof. intros (H1 & H2 & _). unfold StateClock. by destruct (Clock f =? 0). Qed.

(** On every pair of states whose clocks pass [ValidateClock], [CompareClock] is the
    comparison of the integers the clocks denote: the decimal extension continues the
    int64 order without a gap or an inversion. *)
Lemma CompareClock_clockZ a b :
  clock_ok a -> clock_ok b -> CompareClock a b = Z.compare (clockZ a) (clockZ b).
Proof.
  intros Ha Hb. unfold CompareClock, clockZ.
  pose proof (StateClock_int64 a Ha) as Sa. pose proof (StateClock_int64 b Hb) as Sb.
  destruct Ha as (_ & _ & Ha), Hb as (_ & _ & Hb). unfold in_int64 in *.
  destruct (BigClock a =s "") eqn:Ea, (BigClock b =s "") eqn:Eb; simpl; try done.
  - apply eqs_false in Eb. destruct (clock_ok_big b Hb Eb) as (_ & _ & _ & ?).
    symmetry. apply Z.compare_lt_iff. lia.
  - apply eqs_false in Ea. destruct (clock_ok_big a Ha Ea) as (_ & _ & _ & ?).
    symmetry. apply Z.compare_gt_iff. lia.
  - apply eqs_false in Ea, Eb.
    destruct (clock_ok_big a Ha Ea) as (_ & ? & ? & _), (clock_ok_big b Hb Eb) as (_ & ? & ? & _).
    by apply compareDecimal_numeric.
Qed.

(** ** Advancing a clock *)

Lemma incr_digits_spec s :
  all_digits s = true ->
  all_digits (incr_digits s).2 = true /\ slen (incr_digits s).2 = slen s /\
  (if (incr_digits s).1 then 10 ^ slen s else 0) + dec_val (incr_digits s).2 = dec_val s + 1.
Proof.
  induction s as [|c s IH]; [done|]. simpl. rewrite andb_true_iff. intros [Hc Hs].
  specialize (IH Hs). destruct (incr_digits s) as [carry t]; simpl in IH.
  destruct IH as (IH1 & IH2 & IH3). pose proof (slen_nonneg s) as Hn.
  destruct carry; simpl in *; [destruct (Ascii.eqb_spec c "9") as [->|Hne]; simpl|]; rewrite ?slen_cons, ?IH1, ?IH2.
  - split; [done|]. split; [done|].
    rewrite Z.pow_add_r by lia. change (digit_val "9") with 9. change (digit_val "0") with 0. lia.
  - apply digit_range in Hc as Hd.
    assert (digit_val c <> 9) as H9.
    { intros E. apply Hne, N_of_ascii_inj. unfold digit_val, byte_val in E.
      change (N_of_ascii "9") with 57%N. lia. }
    unfold is_digit, digit_val, byte_val in *. rewrite N_ascii_embedding by lia.
    split; [|split; [done|lia]].
    rewrite !andb_true_iff, !Z.leb_le. repeat split; lia.
  - rewrite Hc. split; [done|]. split; [done|]. lia.
Qed.

(** A number that has more digits than fit, or is above MaxInt64, validates. *)
Lemma ValidateClock_big f :
  Clock f = MaxInt64 -> all_digits (BigClock f) = true ->
  (exists c s, BigClock f = String c s /\ c <> "0"%char) -> MaxInt64 < dec_val (BigClock f) ->
  ValidateClock f = Ok tt.
Proof.
  intros Hc Hd Hl Hv. pose proof Hl as (c & s & E & Hne). unfold ValidateClock. rewrite E.
  rewrite <- E. rewrite Hc, Z.eqb_refl.
  assert (19 <= slen (BigClock f)) as Hlen.
  { pose proof (dec_val_bounds _ Hd) as B. destruct (Z_lt_ge_dec (slen (BigClock f)) 19) as [Hlt|]; [|lia].
    assert (10 ^ slen (BigClock f) <= 10 ^ 18) by (apply Z.pow_le_mono_r; lia).
    change (10 ^ 18) with 1000000000000000000 in *. unfold MaxInt64 in Hv. lia. }
  rewrite (proj2 (Z.ltb_ge _ _) Hlen). simpl.
  destruct (Ascii.eqb_spec c "0"); [done|]. rewrite Hd. simpl.
  rewrite compareDecimal_numeric; [|done|done|done|].
  - change (dec_val (FormatInt MaxInt64)) with MaxInt64.
    by rewrite (proj2 (Z.compare_gt_iff _ _) Hv).
  - rewrite maxint_text. eauto.
Qed.

Lemma incr_valid digits carry b :
  all_digits digits = true -> (exists c s, digits = String c s /\ c <> "0"%char) ->
  MaxInt64 <= dec_val digits -> incr_digits digits = (carry, b) ->
  let out := if carry then String "1" b else b in
  all_digits out = true /\ (exists c s, out = String c s /\ c <> "0"%char) /\ dec_val out = dec_val digits + 1.
Proof.
  intros Hd (c & s & -> & Hne) Hmax Hi. pose proof (incr_digits_spec _ Hd) as (H1 & H2 & H3).
  rewrite Hi in H1, H2, H3. simpl in H1, H2, H3. destruct carry; simpl.
  - rewrite H1, H2. split; [done|]. split; [eauto|].
    change (digit_val "1") with 1. rewrite slen_cons in *. lia.
  - split; [done|]. split; [|simpl in *; lia].
    simpl in Hi. destruct (incr_digits s) as [carry' t].
    destruct carry'; [destruct (Ascii.eqb_spec c "9")|]; simplify_eq; [|eauto].
    eexists _, _. split; [done|]. simpl in Hd. apply andb_true_iff in Hd as [Hc _].
    apply digit_range in Hc. intros E. apply (f_equal N_of_ascii) in E.
    unfold digit_val, byte_val in Hc. rewrite N_ascii_embedding in E by lia.
    change (N_of_ascii "0") with 48%N in E. lia.
Qed.

Definition same_but_clocks (f g : FileMeta) : Prop := g = set_clocks f (Clock g) (BigClock g).

Lemma own_step_ok f :
  clock_ok f ->
  let f1 := if BigClock f =s "" then set_clocks f (Z.max (Z.max 1 (Clock f)) (ModTime f)) (BigClock f) else f in
  clock_ok f1 /\ clockZ f1 = ownClock f /\ 1 <= clockZ f1 /\ same_but_clocks f f1.
Proof.
  intros (H1 & H2 & H3). unfold ownClock, same_but_clocks. destruct (BigClock f =s "") eqn:E; simpl.
  - apply eqs_true in E. unfold clock_ok, clockZ, StateClock, ValidateClock, in_int64, MinInt64, MaxInt64 in *. simpl.
    rewrite E. simpl. destruct (Z.eqb_spec (Z.max (Z.max 1 (Clock f)) (ModTime f)) 0); simpl; [lia|].
    repeat split; try lia.
  - apply eqs_false in E as E'. destruct (clock_ok_big f H3 E') as (_ & _ & _ & ?).
    split; [done|]. unfold clockZ. rewrite E. split; [done|]. split; [unfold MaxInt64 in *; lia|]. by destruct f.
Qed.

Lemma bumpClock_ok f p :
  clock_ok f -> clock_ok p -> 1 <= clockZ p ->
  clock_ok (bumpClock f p) /\ same_but_clocks f (bumpClock f p) /\ clockZ (bumpClock f p) = clockZ p + 1.
Proof.
  intros Hf Hp H1. pose proof (StateClock_int64 p Hp) as Sp. unfold bumpClock.
  destruct (BigClock p =s "") eqn:Eb; simpl; [destruct (Z.ltb_spec (StateClock p) MaxInt64) as [El|El]|].
  - unfold clockZ in *. rewrite Eb in *.
    rewrite wrap64_id by (unfold in_int64, MinInt64 in *; lia).
    set (q := StateClock p) in *. clearbody q. unfold clock_ok, StateClock. simpl.
    destruct (Z.eqb_spec (q + 1) 0) as [E|E]; [lia|].
    split; [|done]. split; [unfold in_int64, MinInt64 in *; lia|]. split; [apply Hf|done].
  - unfold clockZ at 2. rewrite Eb.
    assert (StateClock p = MaxInt64) as -> by (unfold in_int64 in Sp; lia).
    split; [|split; [done|reflexivity]]. unfold clock_ok. simpl. split; [done|]. split; [apply Hf|done].
  - destruct (incr_digits (BigClock p)) as [carry b] eqn:Ei. apply eqs_false in Eb as Eb'.
    destruct Hp as (_ & _ & Hv). destruct (clock_ok_big p Hv Eb') as (_ & D1 & D2 & D3).
    destruct (incr_valid _ carry b D1 D2 ltac:(lia) Ei) as (V1 & V2 & V3).
    set (out := if carry then String "1" b else b) in *. unfold clockZ. rewrite Eb. simpl.
    assert ((out =s "") = false) as ->.
    { apply eqs_false. destruct V2 as (? & ? & -> & _). done. }
    split; [|done]. unfold clock_ok. simpl. split; [done|]. split; [apply Hf|].
    apply ValidateClock_big; simpl; try done. lia.
Qed.

Lemma AdvanceClock_ok f previous :
  clock_ok f -> (forall p, previous = Some p -> clock_ok p) ->
  let g := AdvanceClock f previous in
  clock_ok g /\ same_but_clocks f g /\
  clockZ g = match previous with None => ownClock f | Some p => Z.max (ownClock f) (clockZ p + 1) end.
Proof.
  intros Hf Hp. unfold AdvanceClock. pose proof (own_step_ok f Hf) as (H1 & H2 & H3 & H4).
  set (f1 := if BigClock f =s "" then _ else f) in *. clearbody f1. cbv zeta in *.
  destruct previous as [p|]; [|done]. specialize (Hp p eq_refl).
  pose proof (CompareClock_clockZ f1 p H1 Hp) as Hcmp. rewrite H2 in *.
  assert (ownClock f <= clockZ p -> clock_ok (bumpClock f1 p) /\ same_but_clocks f (bumpClock f1 p) /\
    clockZ (bumpClock f1 p) = Z.max (ownClock f) (clockZ p + 1)) as Hbump.
  { intros Hle. destruct (bumpClock_ok f1 p H1 Hp ltac:(lia)) as (B1 & B2 & B3).
    split; [done|]. split; [|lia]. unfold same_but_clocks in *. rewrite B2, H4. done. }
  destruct (Z.compare_spec (ownClock f) (clockZ p)); rewrite Hcmp; [apply Hbump; lia..|].
  split; [done|]. split; [done|]. lia.
Qed.

(** ** Properties *)

(** C36. The conflict order is the same total preorder at every node: any two states are
    comparable, swapping the arguments flips the answer, and the order is transitive,
    whatever bytes the clocks and names hold. *)
Theorem CompareState_total_preorder (a b c : option FileMeta) :
  CompareState a a = Eq /\
  CompareState b a = CompOpp (CompareState a b) /\
  (CompareState a b <> Gt -> CompareState b c <> Gt -> CompareState a c <> Gt).
Proof. split; [apply (cmp_refl CompareState)|]. split; [apply cmp_opp|apply cmp_le_trans]. Qed.

(** Two states tie only when clock and mtime agree and they are both plain deletions,
    or both carry the same content under the same (or the same superseding) name: a tie
    never hides two different live contents. *)
Theorem CompareState_tie (a b : FileMeta) :
  CompareState (Some a) (Some b) = Eq <->
  CompareClock a b = Eq /\ ModTime a = ModTime b /\ live a = live b /\
  (live a = true -> Hash a = Hash b /\ rankName a = rankName b).
Proof. apply compareMeta_Eq. Qed.

(** On states whose clocks pass [ValidateClock], [CompareClock] compares the unbounded
    integers the clocks denote: the decimal extension continues the int64 order. *)
Theorem CompareClock_numeric (a b : FileMeta) :
  clock_ok a -> clock_ok b -> CompareClock a b = Z.compare (clockZ a) (clockZ b).
Proof. apply CompareClock_clockZ. Qed.

Definition tenTo19 : FileMeta := set_clocks (zeroMeta "a") MaxInt64 "10000000000000000000".
Definition atMax : FileMeta := set_clocks (zeroMeta "a") MaxInt64 "".

Lemma tenTo19_ok : clock_ok tenTo19.
Proof. split; [|split]; [split; discriminate|split; discriminate|reflexivity]. Qed.
Lemma atMax_ok : clock_ok atMax.
Proof. split; [|split]; [split; discriminate|split; discriminate|reflexivity]. Qed.

Lemma CompareClock_numeric_witness :
  CompareClock tenTo19 atMax = Z.compare (clockZ tenTo19) (clockZ atMax).
Proof. exact (CompareClock_numeric tenTo19 atMax tenTo19_ok atMax_ok). Defined.

(** A local mutation always gets a clock strictly above the observed one, at least its
    own proposal and exactly one above the observed state otherwise, canonical even when
    the observed clock is MaxInt64 or already extended; nothing but the clock changes. *)
Theorem AdvanceClock_dominates (f p : FileMeta) :
  clock_ok f -> clock_ok p ->
  let g := AdvanceClock f (Some p) in
  ValidateClock g = Ok tt /\ CompareClock g p = Gt /\
  clockZ g = Z.max (ownClock f) (clockZ p + 1) /\ g = set_clocks f (Clock g) (BigClock g).
Proof.
  intros Hf Hp. destruct (AdvanceClock_ok f (Some p) Hf) as (H1 & H2 & H3); [by intros ? [= <-]|].
  cbv zeta in *. split; [apply H1|]. split; [|done].
  rewrite CompareClock_clockZ, H3 by done. apply Z.compare_gt_iff. lia.
Qed.

Lemma AdvanceClock_dominates_witness :
  BigClock (AdvanceClock (zeroMeta "a") (Some atMax)) = "9223372036854775808" /\
  CompareClock (AdvanceClock (zeroMeta "a") (Some atMax)) atMax = Gt.
Proof.
  split; [reflexivity|].
  assert (clock_ok (zeroMeta "a")) as H by (split; [|split]; [split; discriminate|split; discriminate|reflexivity]).
  exact (proj1 (proj2 (AdvanceClock_dominates (zeroMeta "a") atMax H atMax_ok))).
Defined.

Lemma Superseded_ties name w :
  Deleted w = false -> SupersededBy w = "" -> Name w <> "" -> compareMeta (Superseded name w) w = Eq.
Proof.
  intros H1 H2 H3. apply compareMeta_Eq. unfold live, rankName. simpl. rewrite H1, H2. simpl.
  rewrite (proj2 (eqs_false _ _) H3). simpl. split; [|done].
  assert (StateClock (Superseded name w) = StateClock w) as Hs.
  { unfold Superseded, StateClock. simpl.
    destruct (Z.eqb_spec (Clock w) 0) as [E|E]; simpl; [by destruct (ModTime w =? 0)|].
    by rewrite (proj2 (Z.eqb_neq _ _) E). }
  rewrite CompareClock_lex. unfold clockKeyCmp. rewrite !lex_Eq. unfold on_key. rewrite Hs.
  rewrite (cmp_refl compareDecimal). simpl. by rewrite !Z.compare_refl.
Qed.

(** A namespace tombstone carries its winner's rank and invents none: against every
    state, and against no state, it compares exactly as the live state that displaced it. *)
Theorem Superseded_same_rank (name : string) (w : FileMeta) (x : option FileMeta) :
  Deleted w = false -> SupersededBy w = "" -> Name w <> "" ->
  CompareState (Some (Superseded name w)) x = CompareState (Some w) x.
Proof.
  intros H1 H2 H3. apply (cmp_Eq_l CompareState). by apply Superseded_ties.
Qed.

Lemma Superseded_same_rank_witness :
  CompareState (Some (Superseded "a/b" tenTo19)) (Some atMax) = CompareState (Some tenTo19) (Some atMax).
Proof. by apply (Superseded_same_rank "a/b" tenTo19 (Some atMax)). Defined.
