(* ===== verification/Database.v ===== *)
(** * The metadata database and the store that owns it

    internal/store/store.go: the SQLite tables (schema of [migrate]) as finite maps and
    sets, the [Store] struct with its in-memory caches, and the effects its methods are
    written in: single statements, transactions with rollback, and database failures.

    A statement can fail at any point (disk full, I/O error, busy timeout). Which ones
    fail is an input: [faults] is consumed one element per statement, [true] meaning this
    statement fails, and an exhausted list means no further failure. A failing statement
    has no effect, and a transaction that does not commit leaves the tables as they were. *)

From S2P Require Import Prelude GoStrings FileMeta.

(** ** Rows *)

(** What a JSON column holds: nothing, the encoding of a state, or text that does not
    decode. The encoding carries every field of [FileMeta] but [DeletedAt]. *)
Inductive encoded :=
| EncEmpty
| EncMeta (m : FileMeta)
| EncInvalid.

Definition json_Marshal (m : FileMeta) : encoded := EncMeta {|
  Name := Name m; ModTime := ModTime m; Size := Size m; Hash := Hash m; Deleted := Deleted m;
  Version := Version m; BigClock := BigClock m; Clock := Clock m; SupersededBy := SupersededBy m;
  ConflictOf := ConflictOf m; DeletedAt := 0
|}.

(** [json.Unmarshal] of the column; empty text is not JSON either. *)
Definition json_Unmarshal (e : encoded) : option FileMeta :=
  match e with EncMeta m => Some m | EncEmpty | EncInvalid => None end.

Record PeerState := mkPeerState { ps_Version : Z; ps_Epoch : string }.

Record repair_row := mkRepairRow {
  rr_version : Z;
  rr_attempts : Z;
  rr_next_attempt : Z;
  rr_first_seen : Z;
  rr_last_error : string;
  rr_metadata : encoded;
  rr_revision : Z;
  rr_large : bool
}.

Record partial_row := mkPartialRow {
  pd_metadata : encoded;
  pd_path : string;
  pd_verified_bytes : Z;
  pd_prefix_hash : string;
  pd_updated_at : Z
}.

Record ack_row := mkAckRow { ack_version : Z; ack_updated_at : Z; ack_epoch : string }.

(** ** Tables *)

Record DB := mkDB {
  files : gmap string FileMeta;
  namespace_names : gmap string string;
  local_intents : gset string;
  quarantine : gset string;
  damaged_objects : gset string;
  replica_intents : gmap string encoded;
  cursors : gmap string PeerState;
  node_meta : gmap string string;
  repair_queue : gmap (string * string) repair_row;
  partial_downloads : gmap string partial_row;
  peer_acks : gmap string ack_row
}.

Definition emptyDB : DB := mkDB ∅ ∅ ∅ ∅ ∅ ∅ ∅ ∅ ∅ ∅ ∅.

Definition upd_files f (d : DB) : DB := mkDB (f (files d)) (namespace_names d) (local_intents d) (quarantine d) (damaged_objects d) (replica_intents d) (cursors d) (node_meta d) (repair_queue d) (partial_downloads d) (peer_acks d).
Definition upd_names f (d : DB) : DB := mkDB (files d) (f (namespace_names d)) (local_intents d) (quarantine d) (damaged_objects d) (replica_intents d) (cursors d) (node_meta d) (repair_queue d) (partial_downloads d) (peer_acks d).
Definition upd_local f (d : DB) : DB := mkDB (files d) (namespace_names d) (f (local_intents d)) (quarantine d) (damaged_objects d) (replica_intents d) (cursors d) (node_meta d) (repair_queue d) (partial_downloads d) (peer_acks d).
Definition upd_quarantine f (d : DB) : DB := mkDB (files d) (namespace_names d) (local_intents d) (f (quarantine d)) (damaged_objects d) (replica_intents d) (cursors d) (node_meta d) (repair_queue d) (partial_downloads d) (peer_acks d).
Definition upd_damaged f (d : DB) : DB := mkDB (files d) (namespace_names d) (local_intents d) (quarantine d) (f (damaged_objects d)) (replica_intents d) (cursors d) (node_meta d) (repair_queue d) (partial_downloads d) (peer_acks d).
Definition upd_replica f (d : DB) : DB := mkDB (files d) (namespace_names d) (local_intents d) (quarantine d) (damaged_objects d) (f (replica_intents d)) (cursors d) (node_meta d) (repair_queue d) (partial_downloads d) (peer_acks d).
Definition upd_cursors f (d : DB) : DB := mkDB (files d) (namespace_names d) (local_intents d) (quarantine d) (damaged_objects d) (replica_intents d) (f (cursors d)) (node_meta d) (repair_queue d) (partial_downloads d) (peer_acks d).
Definition upd_meta f (d : DB) : DB := mkDB (files d) (namespace_names d) (local_intents d) (quarantine d) (damaged_objects d) (replica_intents d) (cursors d) (f (node_meta d)) (repair_queue d) (partial_downloads d) (peer_acks d).
Definition upd_queue f (d : DB) : DB := mkDB (files d) (namespace_names d) (local_intents d) (quarantine d) (damaged_objects d) (replica_intents d) (cursors d) (node_meta d) (f (repair_queue d)) (partial_downloads d) (peer_acks d).
Definition upd_partials f (d : DB) : DB := mkDB (files d) (namespace_names d) (local_intents d) (quarantine d) (damaged_objects d) (replica_intents d) (cursors d) (node_meta d) (repair_queue d) (f (partial_downloads d)) (peer_acks d).
Definition upd_acks f (d : DB) : DB := mkDB (files d) (namespace_names d) (local_intents d) (quarantine d) (damaged_objects d) (replica_intents d) (cursors d) (node_meta d) (repair_queue d) (partial_downloads d) (f (peer_acks d)).

(** ** The store *)

Record RepairStats := mkRepairStats { st_Total : Z; st_Due : Z; st_OldestAgeMS : Z }.

Record Store := mkStore {
  db : DB;
  faults : list bool;
  cachedNextVer : Z;
  epoch : string;
  incarnation : string;
  repairLimit : Z;
  statsCache : RepairStats;
  statsValid : bool;
  statsGen : Z;
  queueSize : gmap string Z;
  quarantined : gset string;
  damagedObjects : gset string;
  integrityGen : Z;
  countVersion : Z;
  countValid : bool;
  countCached : Z;
  enqueued : Z
}.

(** [NoAckGate], [DefaultRepairLimit], [LargeRepairBytes] *)
Definition NoAckGate : Z := MaxInt64.
Definition DefaultRepairLimit : Z := 100000.
Definition LargeRepairBytes : Z := Z.shiftl 8 20.

(** The [Store] value [New] starts from, before it reads the database. *)
Definition freshStore (d : DB) (fs : list bool) : Store := {|
  db := d; faults := fs; cachedNextVer := 0; epoch := ""; incarnation := "";
  repairLimit := DefaultRepairLimit; statsCache := mkRepairStats 0 0 0; statsValid := false;
  statsGen := 0; queueSize := ∅; quarantined := ∅; damagedObjects := ∅; integrityGen := 0;
  countVersion := 0; countValid := false; countCached := 0; enqueued := 0
|}.

Definition set_db (d : DB) (s : Store) : Store := mkStore d (faults s) (cachedNextVer s) (epoch s) (incarnation s) (repairLimit s) (statsCache s) (statsValid s) (statsGen s) (queueSize s) (quarantined s) (damagedObjects s) (integrityGen s) (countVersion s) (countValid s) (countCached s) (enqueued s).
Definition set_faults (l : list bool) (s : Store) : Store := mkStore (db s) l (cachedNextVer s) (epoch s) (incarnation s) (repairLimit s) (statsCache s) (statsValid s) (statsGen s) (queueSize s) (quarantined s) (damagedObjects s) (integrityGen s) (countVersion s) (countValid s) (countCached s) (enqueued s).
Definition set_nextVer (v : Z) (s : Store) : Store := mkStore (db s) (faults s) v (epoch s) (incarnation s) (repairLimit s) (statsCache s) (statsValid s) (statsGen s) (queueSize s) (quarantined s) (damagedObjects s) (integrityGen s) (countVersion s) (countValid s) (countCached s) (enqueued s).
Definition set_epochs (e i : string) (s : Store) : Store := mkStore (db s) (faults s) (cachedNextVer s) e i (repairLimit s) (statsCache s) (statsValid s) (statsGen s) (queueSize s) (quarantined s) (damagedObjects s) (integrityGen s) (countVersion s) (countValid s) (countCached s) (enqueued s).
Definition set_limit (l : Z) (s : Store) : Store := mkStore (db s) (faults s) (cachedNextVer s) (epoch s) (incarnation s) l (statsCache s) (statsValid s) (statsGen s) (queueSize s) (quarantined s) (damagedObjects s) (integrityGen s) (countVersion s) (countValid s) (countCached s) (enqueued s).
Definition set_stats (c : RepairStats) (v : bool) (g : Z) (s : Store) : Store := mkStore (db s) (faults s) (cachedNextVer s) (epoch s) (incarnation s) (repairLimit s) c v g (queueSize s) (quarantined s) (damagedObjects s) (integrityGen s) (countVersion s) (countValid s) (countCached s) (enqueued s).
Definition set_queueSize (q : gmap string Z) (s : Store) : Store := mkStore (db s) (faults s) (cachedNextVer s) (epoch s) (incarnation s) (repairLimit s) (statsCache s) (statsValid s) (statsGen s) q (quarantined s) (damagedObjects s) (integrityGen s) (countVersion s) (countValid s) (countCached s) (enqueued s).
Definition set_integrity (q o : gset string) (g : Z) (s : Store) : Store := mkStore (db s) (faults s) (cachedNextVer s) (epoch s) (incarnation s) (repairLimit s) (statsCache s) (statsValid s) (statsGen s) (queueSize s) q o g (countVersion s) (countValid s) (countCached s) (enqueued s).
Definition set_count (ver : Z) (valid : bool) (c : Z) (s : Store) : Store := mkStore (db s) (faults s) (cachedNextVer s) (epoch s) (incarnation s) (repairLimit s) (statsCache s) (statsValid s) (statsGen s) (queueSize s) (quarantined s) (damagedObjects s) (integrityGen s) ver valid c (enqueued s).
Definition set_enqueued (n : Z) (s : Store) : Store := mkStore (db s) (faults s) (cachedNextVer s) (epoch s) (incarnation s) (repairLimit s) (statsCache s) (statsValid s) (statsGen s) (queueSize s) (quarantined s) (damagedObjects s) (integrityGen s) (countVersion s) (countValid s) (countCached s) n.

(** ** Errors *)

Inductive err :=
| EDb                                   (* the database refused or failed *)
| EInvalidName (name : string)          (* ErrInvalidName *)
| ENameCollision (wanted actual : string) (* ErrNameCollision *)
| EClock (e : clock_error)
| ERepairQueueFull (peer : string) (held : Z) (* ErrRepairQueueFull *)
| EBadLimit (limit : Z)
| EDecode.

Abbreviation St := (SE Store err).

(** ** Statements and transactions *)

(** One statement: [f] gives its rows or count and the tables after it. *)
Definition statement {A} (f : DB -> A * DB) : St A := fun s =>
  match faults s with
  | true :: fs => (Err EDb, set_faults fs s)
  | false :: fs => let '(a, d) := f (db s) in (Ok a, set_db d (set_faults fs s))
  | [] => let '(a, d) := f (db s) in (Ok a, set_db d s)
  end.

Definition query {A} (f : DB -> A) : St A := statement (fun d => (f d, d)).
Definition exec (f : DB -> DB) : St unit := statement (fun d => (tt, f d)).

(** [tx, err := db.Begin(); defer tx.Rollback(); ...]: the body says whether it reached
    [Commit]; returning without it, or failing, rolls the tables back. In-memory fields
    are not part of the transaction. *)
Definition transact {A} (body : St (bool * A)) : St A := fun s =>
  match query (fun _ => tt) s with
  | (Err e, s0) => (Err e, s0)
  | (Ok _, s0) =>
      match body s0 with
      | (Err e, s1) => (Err e, set_db (db s0) s1)
      | (Ok (false, a), s1) => (Ok a, set_db (db s0) s1)
      | (Ok (true, a), s1) =>
          match query (fun _ => tt) s1 with
          | (Err e, s2) => (Err e, set_db (db s0) s2)
          | (Ok _, s2) => (Ok a, s2)
          end
      end
  end.

(** ** Query clauses *)

(** [LIMIT n]: SQLite takes a negative limit as no limit. *)
Definition sql_limit {A} (n : Z) (l : list A) : list A :=
  if n <? 0 then l else take (Z.to_nat n) l.

Fixpoint leading_digits (s : string) : string :=
  match s with
  | String c s' => if is_digit c then String c (leading_digits s') else ""
  | "" => ""
  end.

(** [CAST(text AS INTEGER)]: the leading integer, 0 when there is none. *)
Definition sql_cast (s : string) : Z :=
  match s with
  | String "-" s' => - dec_val (leading_digits s')
  | String "+" s' => dec_val (leading_digits s')
  | _ => dec_val (leading_digits s)
  end.

(** [ORDER BY f LIMIT n] over rows that satisfy the WHERE clause. *)
Definition by_Z {A} (f : A -> Z) (x y : A) : Prop := f x <= f y.
Definition by_string {A} (f : A -> string) (x y : A) : Prop := String.le (f x) (f y).
#[export] Instance by_Z_dec {A} (f : A -> Z) : RelDecision (by_Z f).
Proof. intros x y. unfold by_Z. apply _. Defined.
#[export] Instance by_string_dec {A} (f : A -> string) : RelDecision (by_string f).
Proof. intros x y. unfold by_string. apply _. Defined.

Definition select {K V} `{Countable K} (where_ : V -> bool) (t : gmap K V) : list V :=
  base.filter (fun v => where_ v = true) (map_to_list t).*2.

(** ** Facts about statements and transactions *)

Definition nofault (s : Store) : Prop := faults s = [].

(** [s'] is [s] with other tables and a shorter fault list: no in-memory field moved. *)
Definition memory_kept (s s' : Store) : Prop := s' = set_faults (faults s') (set_db (db s') s).

#[export] Instance memory_kept_preorder : PreOrder memory_kept.
Proof.
  split.
  - intros []. done.
  - intros s1 s2 s3 H1 H2. unfold memory_kept in *. rewrite H2, H1. done.
Qed.

(** Neither the tables nor a field moved. *)
Definition untouched (s s' : Store) : Prop := s' = set_faults (faults s') s.

#[export] Instance untouched_preorder : PreOrder untouched.
Proof.
  split.
  - intros []. done.
  - intros s1 s2 s3 H1 H2. unfold untouched in *. rewrite H2, H1. done.
Qed.

Lemma untouched_memory s s' : untouched s s' -> memory_kept s s'.
Proof. unfold untouched, memory_kept. intros ->. by destruct s. Qed.

Lemma untouched_db s s' : untouched s s' -> db s' = db s.
Proof. intros ->. done. Qed.

Lemma statement_Ok {A} (f : DB -> A * DB) s a s' :
  statement f s = (Ok a, s') ->
  a = (f (db s)).1 /\ db s' = (f (db s)).2 /\ memory_kept s s'.
Proof.
  unfold statement, memory_kept. destruct (f (db s)) as [a0 d].
  destruct (faults s) as [|[] fs]; intros H; simplify_eq; by destruct s.
Qed.

Lemma statement_Err {A} (f : DB -> A * DB) s e s' :
  statement f s = (Err e, s') -> e = EDb /\ untouched s s'.
Proof.
  unfold statement, untouched. destruct (f (db s)) as [a0 d].
  destruct (faults s) as [|[] fs]; intros H; simplify_eq; by destruct s.
Qed.

Lemma statement_nofault {A} (f : DB -> A * DB) s :
  nofault s -> statement f s = (Ok (f (db s)).1, set_db (f (db s)).2 s).
Proof. unfold nofault, statement. intros ->. by destruct (f (db s)). Qed.

Lemma query_Ok {A} (f : DB -> A) s a s' :
  query f s = (Ok a, s') -> a = f (db s) /\ untouched s s'.
Proof.
  unfold query. intros H. apply statement_Ok in H as (-> & H2 & H3). split; [done|].
  unfold untouched, memory_kept in *. rewrite H3 at 1. rewrite H2. simpl. by destruct s.
Qed.

Lemma query_Err {A} (f : DB -> A) s e s' : query f s = (Err e, s') -> e = EDb /\ untouched s s'.
Proof. apply statement_Err. Qed.

Lemma query_nofault {A} (f : DB -> A) s : nofault s -> query f s = (Ok (f (db s)), s).
Proof. intros H. unfold query. rewrite statement_nofault by done. by destruct s. Qed.

Lemma exec_nofault (f : DB -> DB) s : nofault s -> exec f s = (Ok tt, set_db (f (db s)) s).
Proof. intros H. unfold exec. by rewrite statement_nofault by done. Qed.

Lemma exec_Ok (f : DB -> DB) s a s' :
  exec f s = (Ok a, s') -> db s' = f (db s) /\ memory_kept s s'.
Proof. unfold exec. intros H. by apply statement_Ok in H as (_ & ? & ?). Qed.

Lemma exec_Err (f : DB -> DB) s e s' : exec f s = (Err e, s') -> e = EDb /\ untouched s s'.
Proof. apply statement_Err. Qed.

(** A query never changes anything; a statement only the tables. *)
Lemma keeps_query {A} (f : DB -> A) : keeps untouched (query f).
Proof.
  intros s. destruct (query f s) as [[a|e] s'] eqn:E; [by apply query_Ok in E as [_ ?]|by apply query_Err in E as [_ ?]].
Qed.

Lemma keeps_statement {A} (f : DB -> A * DB) : keeps memory_kept (statement f).
Proof.
  intros s. destruct (statement f s) as [[a|e] s'] eqn:E.
  - by apply statement_Ok in E as (_ & _ & ?).
  - apply statement_Err in E as [_ ?]. by apply untouched_memory.
Qed.

Lemma transact_Err {A} (body : St (bool * A)) s e s' :
  keeps memory_kept body -> transact body s = (Err e, s') -> untouched s s'.
Proof.
  intros Hb. unfold transact.
  destruct (query (fun _ => tt) s) as [[[]|e0] s0] eqn:E0.
  - apply query_Ok in E0 as [_ H0]. specialize (Hb s0). pose proof (untouched_db _ _ H0) as Hdb.
    destruct (body s0) as [[[[] a]|e1] s1] eqn:E1; simpl in Hb; [|done|].
    + destruct (query (fun _ => tt) s1) as [[[]|e2] s2] eqn:E2; [done|]. intros [= <- <-].
      apply query_Err in E2 as [_ H2]. unfold untouched, memory_kept in *.
      rewrite H2, Hb, H0. by destruct s.
    + intros [= <- <-]. unfold untouched, memory_kept in *. rewrite Hb, H0. by destruct s.
  - intros [= <- <-]. by apply query_Err in E0 as [_ ?].
Qed.

Lemma transact_Ok {A} (body : St (bool * A)) s a s' :
  keeps memory_kept body -> transact body s = (Ok a, s') ->
  memory_kept s s' /\
  exists b s0 s1, untouched s s0 /\ body s0 = (Ok (b, a), s1) /\
    db s' = if b then db s1 else db s.
Proof.
  intros Hb. unfold transact.
  destruct (query (fun _ => tt) s) as [[[]|e0] s0] eqn:E0; [|done].
  apply query_Ok in E0 as [_ H0]. specialize (Hb s0). pose proof (untouched_db _ _ H0) as Hdb.
  destruct (body s0) as [[[[] a1]|e1] s1] eqn:E1; simpl in Hb; [| |done].
  - destruct (query (fun _ => tt) s1) as [[[]|e2] s2] eqn:E2; [|done]. intros [= <- <-].
    apply query_Ok in E2 as [_ H2]. split.
    + etrans; [by apply untouched_memory|]. etrans; [exact Hb|by apply untouched_memory].
    + exists true, s0, s1. split; [done|]. split; [done|]. by apply untouched_db.
  - intros [= <- <-]. split; [|exists false, s0, s1; by rewrite Hdb].
    unfold untouched, memory_kept in *. rewrite Hb, H0. by destruct s.
Qed.

Lemma transact_nofault {A} (body : St (bool * A)) s a s1 :
  nofault s -> nofault s1 -> body s = (Ok (true, a), s1) -> transact body s = (Ok a, s1).
Proof.
  intros H H1 Hb. unfold transact. by rewrite (query_nofault _ s), Hb, (query_nofault _ s1) by done.
Qed.

(** A program made of statements leaves memory alone. *)
Lemma keeps_memory_query {A} (f : DB -> A) : keeps memory_kept (query f).
Proof. apply keeps_statement. Qed.
Lemma keeps_memory_exec (f : DB -> DB) : keeps memory_kept (exec f).
Proof. apply keeps_statement. Qed.

Create HintDb birak discriminated.
#[export] Hint Resolve keeps_memory_query keeps_memory_exec keeps_query keeps_statement : birak.
#[export] Hint Extern 2 (keeps _ (bindS _ _)) => apply keeps_bind; [apply _| |intros ?] : birak.
#[export] Hint Extern 1 (keeps _ (retS _)) => apply keeps_ret; apply _ : birak.
#[export] Hint Extern 1 (keeps _ (failS _)) => apply keeps_fail; apply _ : birak.
#[export] Hint Extern 1 (keeps _ (liftS _)) => apply keeps_lift; apply _ : birak.
#[export] Hint Extern 2 (keeps _ (forS _ _)) => apply keeps_for; [apply _|intros ?] : birak.
#[export] Hint Extern 3 (keeps _ (match ?x with _ => _ end)) => destruct x : birak.

(** Take a successful (or failing) run of a program apart, one step at a time. *)
Ltac run_step :=
  match goal with
  | H : bindS _ _ _ = (Ok _, _) |- _ =>
      apply bindS_Ok in H as (? & ? & ? & H)
  | H : retS _ _ = (_, _) |- _ => unfold retS in H; simplify_eq
  | H : liftS _ _ = (_, _) |- _ => unfold liftS in H; simplify_eq
  | H : failS _ _ = (_, _) |- _ => unfold failS in H; simplify_eq
  | H : getS _ = (_, _) |- _ => unfold getS in H; simplify_eq
  | H : modifyS _ _ = (_, _) |- _ => unfold modifyS in H; simplify_eq
  | H : query _ _ = (Ok _, _) |- _ => apply query_Ok in H as [? ?]; subst
  | H : exec _ _ = (Ok _, _) |- _ => apply exec_Ok in H as [? ?]
  end.
Ltac run_inv := repeat run_step.

(** ** Facts about query clauses *)

Lemma elem_of_select {K V} `{Countable K} (where_ : V -> bool) (t : gmap K V) v :
  v ∈ select where_ t <-> where_ v = true /\ exists k, t !! k = Some v.
Proof.
  unfold select. rewrite list_elem_of_filter, list_elem_of_fmap.
  split; intros [? Hv]; (split; [done|]).
  - destruct Hv as ([k v'] & -> & Hin). exists k. by apply elem_of_map_to_list.
  - destruct Hv as [k Hk]. exists (k, v). split; [done|]. by apply elem_of_map_to_list.
Qed.

#[export] Instance by_Z_trans {A} (f : A -> Z) : Transitive (by_Z f).
Proof. intros x y z. unfold by_Z. lia. Qed.
#[export] Instance by_Z_total {A} (f : A -> Z) : Total (by_Z f).
Proof. intros x y. unfold by_Z. lia. Qed.
#[export] Instance by_string_trans {A} (f : A -> string) : Transitive (by_string f).
Proof. intros x y z. unfold by_string. apply transitivity. Qed.
#[export] Instance by_string_total {A} (f : A -> string) : Total (by_string f).
Proof. intros x y. apply (total String.le). Qed.

Lemma elem_of_merge_sort {A} (R : relation A) `{!RelDecision R} (l : list A) x :
  x ∈ merge_sort R l <-> x ∈ l.
Proof. by rewrite (merge_sort_Permutation R l). Qed.

Lemma sql_limit_prefix {A} n (l : list A) : sql_limit n l `prefix_of` l.
Proof. unfold sql_limit. case_match; [done|]. apply prefix_take. Qed.

Lemma sql_limit_elem {A} n (l : list A) x : x ∈ sql_limit n l -> x ∈ l.
Proof. intros H. destruct (sql_limit_prefix n l) as [k Hk]. rewrite Hk. set_solver. Qed.

(** What a page leaves out comes strictly after its last row. *)
Lemma last_elem_of {A} (l : list A) d : l <> [] -> List.last l d ∈ l.
Proof.
  induction l as [|x [|y l] IH]; [done|intros _; simpl; set_solver|]. intros _.
  change (List.last (x :: y :: l) d) with (List.last (y :: l) d). apply list_elem_of_further. by apply IH.
Qed.

Lemma sorted_last {A} (R : relation A) (l : list A) d x :
  StronglySorted R l -> x ∈ l -> x = List.last l d \/ R x (List.last l d).
Proof.
  induction 1 as [|a l Hs IH Hall]; intros Hx; [set_solver|]. destruct l as [|b l]; [left; set_solver|].
  change (List.last (a :: b :: l) d) with (List.last (b :: l) d). apply elem_of_cons in Hx as [->|Hx]; [|by apply IH].
  right. rewrite Forall_forall in Hall. apply Hall. by apply last_elem_of.
Qed.

Lemma page_rest {A} (R : relation A) (p rest : list A) d y :
  StronglySorted R (p ++ rest) -> NoDup (p ++ rest) -> p <> [] -> y ∈ rest ->
  R (List.last p d) y /\ List.last p d <> y.
Proof.
  intros Hs Hn Hne Hy. pose proof (last_elem_of p d Hne) as Hl.
  split; [by apply (StronglySorted_app_1_elem_of R p rest)|].
  apply NoDup_app in Hn as (_ & Hd & _). intros E. apply (Hd (List.last p d)); [done|by rewrite E].
Qed.

Lemma sql_limit_split {A} n (l : list A) : 0 < n -> exists rest, l = (sql_limit n l ++ rest)%list /\ (sql_limit n l = [] -> l = []).
Proof.
  intros Hn. unfold sql_limit. rewrite (proj2 (Z.ltb_ge n 0)) by lia.
  exists (drop (Z.to_nat n) l). split; [by rewrite take_drop|].
  destruct l; [done|]. destruct (Z.to_nat n) eqn:E; [lia|done].
Qed.
