(* ===== verification/Names.v ===== *)
(** * The portable namespace

    internal/store/names.go: one persistent spelling per case-folded path component.
    Unicode normalization and case folding are golang.org/x/text, a parameter here. *)

From S2P Require Import Prelude GoStrings FileMeta Database.

(** [norm.NFC.String(cases.Fold().String(norm.NFC.String(part)))] of one component. *)
Class NameFolding := foldKey : string -> string.

Definition bad_part (part : string) : bool := (part =s "") || (part =s ".") || (part =s "..").

Section Names.
Context `{NameFolding}.

(** The loop of [nameParts]: [folded] and [original] are the text so far. *)
Fixpoint nameParts_go (name folded original : string) (parts : list string) : result err (list (string * string)) :=
  match parts with
  | [] => Ok []
  | part :: rest =>
      if bad_part part then Err (EInvalidName name)
      else
        let key := foldKey part in
        let sep := if negb (original =s "") then "/" else "" in
        let original' := (original +:+ sep) +:+ part in
        let folded' := (folded +:+ sep) +:+ key in
        match nameParts_go name folded' original' rest with
        | Err e => Err e
        | Ok out => Ok ((folded', original') :: out)
        end
  end.

(** [func nameParts(name string) ([][2]string, error)] *)
Definition nameParts (name : string) : result err (list (string * string)) :=
  if negb (ValidString name) || (name =s "") then Err (EInvalidName name)
  else nameParts_go name "" "" (Split name "/").

(** One iteration of [bindName]: reserve the spelling, then compare with whoever holds it. *)
Definition bindPart (part : string * string) : St unit :=
  do! exec (upd_names (fun t => match t !! part.1 with
                                | Some _ => t
                                | None => <[part.1 := part.2]> t
                                end)) then
  let! actual := query (fun d => namespace_names d !! part.1) in
  match actual with
  | None => failS EDb
  | Some actual => if negb (actual =s part.2) then failS (ENameCollision part.2 actual) else retS tt
  end.

(** [func bindName(tx *sql.Tx, name string) error] *)
Definition bindName (name : string) : St unit :=
  let! parts := liftS (nameParts name) in
  forS bindPart parts.

Definition checkPart (part : string * string) : St unit :=
  let! actual := query (fun d => namespace_names d !! part.1) in
  match actual with
  | None => retS tt
  | Some actual => if negb (actual =s part.2) then failS (ENameCollision part.2 actual) else retS tt
  end.

(** [func (s *Store) CheckName(name string) error] *)
Definition CheckName (name : string) : St unit :=
  let! parts := liftS (nameParts name) in
  forS checkPart parts.

(** The paging loop of [migrateNames]: pages of a thousand names after the last one seen.
    Each page that is not empty moves [after] forward, so the table size bounds the pages. *)
Fixpoint migrate_pages (fuel : nat) (after : string) : St unit :=
  match fuel with
  | O => retS tt
  | S fuel' =>
      let! names := query (fun d => sql_limit 1000
                             (merge_sort String.le (base.filter (fun n => (after <s n) = true) (elements (dom (files d)))))) in
      match names with
      | [] => retS tt
      | _ => do! forS bindName names then migrate_pages fuel' (List.last names after)
      end
  end.

(** [func (s *Store) migrateNames() error] *)
Definition migrateNames : St unit :=
  transact (
    let! migrated := query (fun d => node_meta d !! "portable_names_v1") in
    match migrated with
    | Some _ => retS (false, tt)
    | None =>
        let! s := getS in (* the model's page bound *)
        do! migrate_pages (S (size (files (db s)))) "" then
        do! exec (upd_meta (fun t => <["portable_names_v1" := "1"]> t)) then
        retS (true, tt)
    end).
End Names.

(** ** Canonical names *)

Definition good_part (p : string) : Prop := bad_part p = false.
Definition canonical (name : string) : Prop :=
  ValidString name = true /\ name <> "" /\ Forall good_part (Split name "/").

(** The non-empty prefixes of a list, shortest first. *)
Fixpoint prefixes {A} (l : list A) : list (list A) :=
  match l with
  | [] => []
  | x :: r => [x] :: map (cons x) (prefixes r)
  end.

Lemma good_part_nonempty p : good_part p -> p <> "".
Proof. unfold good_part, bad_part. rewrite !orb_false_iff, !eqs_false. tauto. Qed.

Lemma Join_snoc l p sep : l <> [] -> Join (l ++ [p]) sep = (Join l sep +:+ sep) +:+ p.
Proof.
  induction l as [|x l IH]; [done|]. intros _. destruct l as [|y l].
  - simpl. by rewrite string_app_assoc.
  - change ((x :: y :: l) ++ [p])%list with (x :: ((y :: l) ++ [p]))%list.
    rewrite Join_cons by done. rewrite IH by done. rewrite (Join_cons x) by done.
    by rewrite !string_app_assoc.
Qed.

Lemma Join_nonempty l sep : l <> [] -> Forall (fun p => p <> "") l -> Join l sep <> "".
Proof.
  intros Hne Hl. destruct Hl as [|x [|y l] Hx Hl]; [done|done|].
  rewrite Join_cons by done. destruct x; [done|]. done.
Qed.

Section NameFacts.
Context `{NameFolding}.

Definition part_of (ps : list string) : string * string := (Join (map foldKey ps) "/", Join ps "/").

Lemma nameParts_go_ok name pre parts :
  Forall good_part pre -> Forall good_part parts ->
  nameParts_go name (Join (map foldKey pre) "/") (Join pre "/") parts =
  Ok (map (fun ps => part_of (pre ++ ps)) (prefixes parts)).
Proof.
  revert pre. induction parts as [|p parts IH]; intros pre Hpre Hparts; [done|]. simpl.
  inversion_clear Hparts as [|? ? Hp Hrest]. unfold good_part in Hp. rewrite Hp.
  assert (forall f, (Join (map f pre) "/" +:+ (if negb (Join pre "/" =s "") then "/" else "")) +:+ f p
            = Join (map f (pre ++ [p])) "/") as Hsnoc.
  { intros f. rewrite map_app. simpl. destruct pre as [|x pre']; [done|].
    rewrite Join_snoc by done.
    assert (Join (x :: pre') "/" =s "" = false) as ->; [|done]. apply eqs_false.
    apply Join_nonempty; [done|]. eapply Forall_impl; [exact Hpre|apply good_part_nonempty]. }
  rewrite (Hsnoc foldKey). specialize (Hsnoc id). rewrite !map_id in Hsnoc. simpl in Hsnoc.
  unfold id in Hsnoc. rewrite Hsnoc.
  rewrite IH; [|apply Forall_app; split; [done|by constructor]|done].
  f_equal. f_equal. rewrite map_map. apply map_ext. intros ps.
  by rewrite <- app_assoc.
Qed.

Lemma nameParts_go_bad name pre fo parts :
  ~ Forall good_part parts -> nameParts_go name fo pre parts = Err (EInvalidName name).
Proof.
  revert pre fo. induction parts as [|p parts IH]; intros pre fo Hbad; [by destruct Hbad|]. simpl.
  destruct (bad_part p) eqn:Hp; [done|]. rewrite IH; [done|].
  intros Hg. apply Hbad. by constructor.
Qed.

Lemma nameParts_spec name :
  (canonical name /\ nameParts name = Ok (map part_of (prefixes (Split name "/")))) \/
  (~ canonical name /\ nameParts name = Err (EInvalidName name)).
Proof.
  unfold nameParts, canonical.
  destruct (ValidString name) eqn:Hv; simpl; [|right; naive_solver].
  destruct (name =s "") eqn:Hn; simpl; [right; apply eqs_true in Hn; naive_solver|].
  apply eqs_false in Hn.
  destruct (decide (Forall good_part (Split name "/"))) as [Hg|Hg].
  - left. split; [done|]. by rewrite (nameParts_go_ok name []).
  - right. split; [naive_solver|]. by apply nameParts_go_bad.
Qed.

Lemma nameParts_Ok name parts :
  nameParts name = Ok parts -> canonical name /\ parts = map part_of (prefixes (Split name "/")).
Proof. intros E. destruct (nameParts_spec name) as [[? E']|[? E']]; rewrite E' in E; naive_solver. Qed.

(** The last part is the whole name. *)
Lemma prefixes_last {A} (l : list A) : l <> [] -> l ∈ prefixes l.
Proof.
  induction l as [|x [|y l] IH]; [done|intros _; simpl; set_solver|]. intros _.
  change (prefixes (x :: y :: l)) with ([x] :: map (cons x) (prefixes (y :: l))).
  apply list_elem_of_further, list_elem_of_In, (in_map (cons x)), list_elem_of_In. by apply IH.
Qed.

Definition foldName (name : string) : string := Join (map foldKey (Split name "/")) "/".

Lemma whole_name_part name parts :
  nameParts name = Ok parts -> (foldName name, name) ∈ parts.
Proof.
  intros E. apply nameParts_Ok in E as [_ ->].
  rewrite list_elem_of_In. apply in_map_iff. exists (Split name "/").
  split; [unfold part_of; by rewrite Join_Split_slash|].
  rewrite <- list_elem_of_In. apply prefixes_last, Split_nonnil.
Qed.

(** Longer prefixes fold to longer keys, so the keys of one name are distinct. *)
Definition keyOf (ps : list string) : string := Join (map foldKey ps) "/".

Lemma keyOf_snoc pre y : pre <> [] -> slen (keyOf pre) < slen (keyOf (pre ++ [y])).
Proof.
  intros Hne. unfold keyOf. rewrite map_app. change (map foldKey [y]) with [foldKey y].
  rewrite Join_snoc by by destruct pre. rewrite !slen_app. change (slen "/") with 1.
  pose proof (slen_nonneg (foldKey y)). lia.
Qed.

Lemma keyOf_longer pre l ps : pre <> [] -> ps ∈ prefixes l -> slen (keyOf pre) < slen (keyOf (pre ++ ps)).
Proof.
  revert pre ps. induction l as [|y l IH]; intros pre ps Hne; simpl; [set_solver|].
  rewrite elem_of_cons. intros [->|Hin]; [by apply keyOf_snoc|].
  apply list_elem_of_In, in_map_iff in Hin as (ps' & <- & Hin). apply list_elem_of_In in Hin.
  specialize (IH (pre ++ [y]) ps' ltac:(by destruct pre) Hin). rewrite <- app_assoc in IH. simpl in IH.
  pose proof (keyOf_snoc pre y Hne). lia.
Qed.

Lemma part_keys_NoDup_app pre l : NoDup (map (fun ps => keyOf (pre ++ ps)) (prefixes l)).
Proof.
  revert pre. induction l as [|x l IH]; intros pre; simpl; [constructor|]. rewrite map_map. constructor.
  - rewrite list_elem_of_In, in_map_iff. intros (ps & E & Hin). apply list_elem_of_In in Hin.
    pose proof (keyOf_longer (pre ++ [x]) l ps ltac:(by destruct pre) Hin) as Hl.
    rewrite <- app_assoc in Hl. simpl in Hl. rewrite E in Hl. lia.
  - specialize (IH (pre ++ [x])%list). erewrite map_ext; [exact IH|]. intros ps. simpl. by rewrite <- app_assoc.
Qed.

Lemma part_keys_NoDup l : NoDup (map fst (map part_of (prefixes l))).
Proof. rewrite map_map. apply (part_keys_NoDup_app [] l). Qed.
End NameFacts.

(** ** Binding names *)

(** [d'] is [d] with further spellings reserved and nothing else changed. *)
Definition only_names (d d' : DB) : Prop :=
  d' = upd_names (fun _ => namespace_names d') d /\ namespace_names d ⊆ namespace_names d'.

#[export] Instance only_names_preorder : PreOrder only_names.
Proof.
  split.
  - intros []. by split.
  - intros d1 d2 d3 [H1 S1] [H2 S2]. split; [by rewrite H2, H1 at 1|by etrans].
Qed.

Lemma only_names_files d d' : only_names d d' -> files d' = files d.
Proof. intros [-> _]. done. Qed.

Section Binding.
Context `{NameFolding}.

Definition bound (d : DB) (part : string * string) : Prop := namespace_names d !! part.1 = Some part.2.

Lemma bound_mono d d' part : only_names d d' -> bound d part -> bound d' part.
Proof. intros [_ Hs] Hb. eapply lookup_weaken; eauto. Qed.

Lemma bindPart_Ok part s s' :
  bindPart part s = (Ok tt, s') -> only_names (db s) (db s') /\ memory_kept s s' /\ bound (db s') part.
Proof.
  unfold bindPart. intros E. run_inv.
  match goal with H : untouched ?a ?b |- _ => pose proof (untouched_db _ _ H) as Hdb; apply untouched_memory in H end.
  repeat case_match; run_inv; try done.
  match goal with Hx : namespace_names _ !! _ = Some ?a, Hn : negb (?a =s _) = false |- _ =>
    rename Hx into Hact; apply negb_false_iff, eqs_true in Hn; subst end.
  split; [|split; [by etrans|unfold bound; by rewrite Hdb]].
  rewrite Hdb. match goal with H : db _ = upd_names _ _ |- _ => rewrite H end. split.
  - by destruct (db s).
  - simpl. destruct (namespace_names (db s) !! part.1) eqn:E; [done|]. by apply insert_subseteq.
Qed.

Lemma forS_bind_Ok parts s s' :
  forS bindPart parts s = (Ok tt, s') ->
  only_names (db s) (db s') /\ memory_kept s s' /\ Forall (bound (db s')) parts.
Proof.
  revert s. induction parts as [|p parts IH]; intros s E; simpl in E; run_inv; [done|].
  match goal with Hp : bindPart _ _ = (Ok ?u, _) |- _ => destruct u; apply bindPart_Ok in Hp as (? & ? & ?) end.
  apply IH in E as (? & ? & ?). split; [by etrans|]. split; [by etrans|]. constructor; [|done].
  by eapply bound_mono.
Qed.

(** Every part of [name], the name itself included, is reserved with its spelling. *)
Definition name_bound (d : DB) (name : string) : Prop :=
  exists parts, nameParts name = Ok parts /\ Forall (bound d) parts.

Lemma name_bound_mono d d' name : only_names d d' -> name_bound d name -> name_bound d' name.
Proof.
  intros Ho (parts & E & Hb). exists parts. split; [done|].
  eapply Forall_impl; [exact Hb|]. intros. by eapply bound_mono.
Qed.

Lemma bindName_Ok name s s' :
  bindName name s = (Ok tt, s') ->
  only_names (db s) (db s') /\ memory_kept s s' /\ name_bound (db s') name.
Proof.
  unfold bindName. intros E. run_inv. apply forS_bind_Ok in E as (? & ? & ?).
  split; [done|]. split; [done|]. by eexists.
Qed.

Lemma keeps_bindName name : keeps memory_kept (bindName name).
Proof. unfold bindName, bindPart. eauto 20 with birak. Qed.

(** Two bound names with one folded form are one name. *)
Lemma name_bound_inj d n1 n2 :
  name_bound d n1 -> name_bound d n2 -> foldName n1 = foldName n2 -> n1 = n2.
Proof.
  intros (p1 & E1 & B1) (p2 & E2 & B2) Hf.
  apply whole_name_part in E1, E2. rewrite Forall_forall in B1, B2.
  apply B1 in E1. apply B2 in E2. unfold bound in *. simpl in *. rewrite Hf in E1. naive_solver.
Qed.

(** The two loops agree as long as they look at the same reservations. *)
Lemma check_bind_agree parts s s0 :
  nofault s -> nofault s0 -> NoDup (map fst parts) ->
  (forall p, p ∈ parts -> namespace_names (db s) !! p.1 = namespace_names (db s0) !! p.1) ->
  (forS bindPart parts s).1 = (forS checkPart parts s0).1.
Proof.
  revert s. induction parts as [|p parts IH]; intros s Hs Hs0 Hnd Hag; [done|].
  simpl. inversion_clear Hnd as [|? ? Hnin Hnd'].
  unfold bindS at 1 2. unfold bindPart at 1, checkPart at 1. unfold bindS at 1 2 3.
  rewrite exec_nofault by done. rewrite !query_nofault by done.
  pose proof (Hag p (list_elem_of_here _ _)) as Hp. simpl. rewrite Hp.
  destruct (namespace_names (db s0) !! p.1) as [actual|] eqn:E0.
  - rewrite Hp. destruct (negb (actual =s p.2)); [done|]. simpl.
    apply IH; [done|done|done|]. intros q Hq. simpl. rewrite Hp. apply Hag. by apply list_elem_of_further.
  - rewrite lookup_insert_eq, eqs_refl. simpl.
    apply IH; [done|done|done|]. intros q Hq. simpl. rewrite Hp, lookup_insert_ne.
    + apply Hag. by apply list_elem_of_further.
    + intros E. apply Hnin. rewrite E, list_elem_of_In. apply in_map. by apply list_elem_of_In.
Qed.
End Binding.

(** ** Migration of an existing database *)

Section Migration.
Context `{NameFolding}.

Lemma forS_bindName_Ok names s s' :
  forS bindName names s = (Ok tt, s') ->
  only_names (db s) (db s') /\ memory_kept s s' /\ Forall (name_bound (db s')) names.
Proof.
  revert s. induction names as [|n names IH]; intros s E; simpl in E; run_inv; [done|].
  match goal with Hn : bindName _ _ = (Ok ?u, _) |- _ => destruct u; apply bindName_Ok in Hn as (? & ? & ?) end.
  apply IH in E as (? & ? & ?). split; [by etrans|]. split; [by etrans|]. constructor; [|done].
  by eapply name_bound_mono.
Qed.

Definition names_after (d : DB) (after : string) : list string :=
  base.filter (fun n => (after <s n) = true) (elements (dom (files d))).

Lemma elem_of_names_after d after n :
  n ∈ names_after d after <-> (after <s n) = true /\ is_Some (files d !! n).
Proof. unfold names_after. by rewrite list_elem_of_filter, elem_of_elements, elem_of_dom. Qed.

Lemma page_names d after :
  exists rest, merge_sort String.le (names_after d after) =
    (sql_limit 1000 (merge_sort String.le (names_after d after)) ++ rest)%list /\
    (sql_limit 1000 (merge_sort String.le (names_after d after)) = [] -> names_after d after = []) /\
    (sql_limit 1000 (merge_sort String.le (names_after d after)) <> [] ->
     let l := List.last (sql_limit 1000 (merge_sort String.le (names_after d after))) after in
     l ∈ names_after d after /\ forall y, y ∈ rest -> (l <s y) = true).
Proof.
  destruct (sql_limit_split 1000 (merge_sort String.le (names_after d after)) ltac:(lia)) as (rest & Hsplit & Hnil).
  exists rest. split; [done|].
  pose proof (merge_sort_Permutation String.le (names_after d after)) as Hperm. split.
  - intros E. apply Hnil in E. rewrite E in Hperm. by apply Permutation_nil_l in Hperm.
  - intros Hne. cbv zeta. set (p := sql_limit 1000 _) in *. split.
    + rewrite <- Hperm, Hsplit. apply elem_of_app. left. by apply last_elem_of.
    + intros y Hy.
      pose proof (StronglySorted_merge_sort String.le (names_after d after)) as Hs.
      assert (NoDup (p ++ rest)) as Hnd.
      { rewrite <- Hsplit, Hperm. apply NoDup_filter, NoDup_elements. }
      rewrite Hsplit in Hs. destruct (page_rest String.le p rest after y Hs Hnd Hne Hy) as [Hle Hneq].
      apply string_ltb_spec. apply Is_true_true, String_leb_compare in Hle.
      destruct (String.compare _ y) eqn:E; try done. by apply String.compare_eq_iff in E.
Qed.

Lemma names_after_size d after : (length (names_after d after) <= size (files d))%nat.
Proof. unfold names_after. etrans; [apply length_filter|]. by rewrite <- size_dom. Qed.

Lemma names_after_shrinks d d' after l :
  files d' = files d -> l ∈ names_after d after ->
  (length (names_after d' l) < length (names_after d after))%nat.
Proof.
  intros Hfiles Hl. apply elem_of_names_after in Hl as Hl'. destruct Hl' as [Hal Hlin].
  assert (l :: names_after d' l ⊆+ names_after d after) as Hsub.
  { apply NoDup_submseteq.
    - constructor; [|apply NoDup_filter, NoDup_elements].
      rewrite elem_of_names_after. intros [Hc _]. apply string_ltb_spec in Hc.
      by rewrite (cmp_refl String.compare) in Hc.
    - intros n [->|Hn]%elem_of_cons; [done|].
      apply elem_of_names_after in Hn as [Hn1 Hn2]. apply elem_of_names_after.
      rewrite Hfiles in Hn2. split; [|done]. apply string_ltb_spec in Hal, Hn1. apply string_ltb_spec.
      apply (cmp_Lt_le_trans String.compare after l n); [done|congruence]. }
  apply submseteq_length in Hsub. simpl in Hsub. lia.
Qed.

Lemma migrate_pages_Ok fuel after s s' :
  (length (names_after (db s) after) < fuel)%nat ->
  migrate_pages fuel after s = (Ok tt, s') ->
  only_names (db s) (db s') /\ memory_kept s s' /\
  (forall n, (after <s n) = true -> is_Some (files (db s) !! n) -> name_bound (db s') n).
Proof.
  revert after s. induction fuel as [|fuel IH]; intros after s Hfuel E; [lia|].
  cbn [migrate_pages] in E. run_inv.
  match goal with Hu : untouched ?a ?b |- _ => pose proof (untouched_db _ _ Hu) as Hdb; apply untouched_memory in Hu end.
  destruct (page_names (db s) after) as (rest & Hsplit & Hnil & Hlast).
  unfold names_after in Hsplit at 2. unfold names_after in Hnil at 1. unfold names_after in Hlast at 1 2.
  destruct (sql_limit _ _) as [|x p] eqn:Ep.
  - run_inv. split; [by rewrite Hdb|]. split; [done|]. intros n Hn Hin.
    assert (n ∈ names_after (db s) after) as Hc by by apply elem_of_names_after.
    rewrite Hnil in Hc by done. set_solver.
  - run_inv. destruct (Hlast ltac:(done)) as [Hl Hrest]. cbv zeta in *.
    set (l := List.last (x :: p) after) in *.
    match goal with Hb : forS bindName _ _ = (Ok ?u, ?s1) |- _ => destruct u; rename s1 into sb; apply forS_bindName_Ok in Hb as (Ho & Hm & Hbound) end.
    rewrite Hdb in Ho. pose proof (only_names_files _ _ Ho) as Hfiles.
    assert (forall n, n ∈ names_after (db s) after -> n ∈ x :: p \/ (l <s n) = true) as Hcase.
    { intros n Hn. rewrite <- (elem_of_merge_sort String.le) in Hn. rewrite Hsplit in Hn.
      apply elem_of_app in Hn as [?|?]; [by left|right; by apply Hrest]. }
    apply IH in E as (Ho2 & Hm2 & Hb2); [|pose proof (names_after_shrinks (db s) (db sb) after l Hfiles Hl); lia].
    split; [by etrans|]. split; [by repeat (etrans; [eassumption|])|].
    intros n Hn Hin. assert (n ∈ names_after (db s) after) as Hna by by apply elem_of_names_after.
    destruct (Hcase n Hna) as [Hp|Hgt].
    + rewrite Forall_forall in Hbound. eapply name_bound_mono; [exact Ho2|]. by apply Hbound.
    + apply Hb2; [done|]. by rewrite Hfiles.
Qed.
End Migration.

Section MigrateFacts.
Context `{NameFolding}.

Lemma keeps_migrate fuel after : keeps memory_kept (migrate_pages fuel after).
Proof.
  revert after. induction fuel as [|fuel IH]; intros after; simpl; [eauto with birak|].
  apply keeps_bind; [apply _|eauto with birak|]. intros [|n names]; [eauto with birak|].
  apply keeps_bind; [apply _| |intros; apply IH]. apply keeps_for; [apply _|intros; apply keeps_bindName].
Qed.

Lemma keeps_migrate_tx :
  keeps memory_kept (let! migrated := query (fun d => node_meta d !! "portable_names_v1") in
    match migrated with
    | Some _ => retS (false, tt)
    | None =>
        let! s := getS in
        do! migrate_pages (S (size (files (db s)))) "" then
        do! exec (upd_meta (fun t => <["portable_names_v1" := "1"]> t)) then
        retS (true, tt)
    end).
Proof.
  apply keeps_bind; [apply _|eauto with birak|]. intros [?|]; [eauto with birak|].
  apply keeps_bind; [apply _|apply keeps_get; apply _|]. intros s1.
  apply keeps_bind; [apply _|apply keeps_migrate|]. eauto with birak.
Qed.

(** A successful migration: nothing the second time, every spelling reserved the first. *)
Lemma migrateNames_Ok s s' :
  migrateNames s = (Ok tt, s') ->
  memory_kept s s' /\ is_Some (node_meta (db s') !! "portable_names_v1") /\
  match node_meta (db s) !! "portable_names_v1" with
  | Some _ => db s' = db s
  | None => exists nn, namespace_names (db s) ⊆ nn /\
      db s' = upd_meta (fun t => <["portable_names_v1" := "1"]> t) (upd_names (fun _ => nn) (db s)) /\
      forall n, n <> "" -> is_Some (files (db s) !! n) -> name_bound (db s') n
  end.
Proof.
  unfold migrateNames. intros E. apply transact_Ok in E as (M & b & s0 & s1 & U & E & Hdb); [|apply keeps_migrate_tx].
  split; [done|]. apply untouched_db in U. apply bindS_Ok in E as (v & s2 & E1 & E). apply query_Ok in E1 as [-> U2].
  apply untouched_db in U2. rewrite U in *. destruct (node_meta (db s) !! "portable_names_v1") as [t|] eqn:Ef.
  { injection E as <- <-. rewrite Hdb. split; [|done]. by exists t. }
  apply bindS_Ok in E as (s3 & s3' & E3 & E). injection E3 as <- <-.
  apply bindS_Ok in E as ([] & s4 & E4 & E). apply bindS_Ok in E as ([] & s5 & E5 & E). injection E as <- <-.
  apply exec_Ok in E5 as [H5 _]. apply migrate_pages_Ok in E4 as ([Ho Hs] & _ & Hb); [|apply Nat.lt_succ_r, names_after_size].
  rewrite U2 in *. rewrite Hdb, H5. split; [simpl; rewrite lookup_insert_eq; by eexists|].
  exists (namespace_names (db s4)). split; [done|]. split; [by rewrite Ho|]. intros n Hn Hin.
  destruct (Hb n) as (parts & Ep & Hp); [by destruct n|done|]. by exists parts.
Qed.
End MigrateFacts.

(** ** Properties *)

Section NameProperties.
Context `{NameFolding}.

(** [CheckName], which runs without reserving anything, gives exactly the verdict
    [bindName] would give in its transaction: success, the invalid name, or the first
    collision with the spelling that holds it. *)
Theorem CheckName_agrees (name : string) (s : Store) :
  nofault s -> (CheckName name s).1 = (bindName name s).1.
Proof.
  intros Hs. unfold CheckName, bindName, bindS, liftS.
  destruct (nameParts name) as [parts|e] eqn:E; [|done].
  apply nameParts_Ok in E as [_ ->]. symmetry.
  apply check_bind_agree; [done|done|apply part_keys_NoDup|done].
Qed.

(** Migration of a database from before spellings were reserved: success means every
    indexed name and every directory above it is reserved with its own spelling, whatever
    the number of pages; any failure, a collision included, leaves the tables untouched. *)
Theorem migrateNames_reserves_all (s : Store) :
  node_meta (db s) !! "portable_names_v1" = None ->
  match migrateNames s with
  | (Ok _, s') => files (db s') = files (db s) /\
      forall n, n <> "" -> is_Some (files (db s) !! n) -> name_bound (db s') n
  | (Err _, s') => db s' = db s
  end.
Proof.
  intros Hnone. destruct (migrateNames s) as [[[]|e] s'] eqn:E.
  - apply migrateNames_Ok in E as (_ & _ & H2). rewrite Hnone in H2. destruct H2 as (nn & _ & Hd & Hb).
    split; [by rewrite Hd|done].
  - apply transact_Err in E; [|apply keeps_migrate_tx]. by apply untouched_db.
Qed.
End NameProperties.

(** ASCII case folding, one instance of the parameter. *)
Definition asciiFolding : NameFolding := ascii_lower.

Definition sampleStore : Store :=
  freshStore (upd_files (fun _ => {[ "docs/App.apk" := zeroMeta "docs/App.apk" ]}) emptyDB) [].

Lemma CheckName_agrees_witness :
  (CheckName (H := asciiFolding) "docs/App.apk" sampleStore).1 = Ok tt /\
  (bindName (H := asciiFolding) "docs/App.apk" sampleStore).1 = Ok tt.
Proof.
  assert ((CheckName (H := asciiFolding) "docs/App.apk" sampleStore).1 = Ok tt) as E by reflexivity.
  split; [exact E|]. rewrite <- E. symmetry. exact (CheckName_agrees (H := asciiFolding) _ sampleStore eq_refl).
Defined.

Lemma migrateNames_reserves_all_witness :
  (migrateNames (H := asciiFolding) sampleStore).1 = Ok tt /\
  name_bound (H := asciiFolding) (db (migrateNames (H := asciiFolding) sampleStore).2) "docs/App.apk".
Proof.
  pose proof (migrateNames_reserves_all (H := asciiFolding) sampleStore eq_refl) as Hm.
  assert ((migrateNames (H := asciiFolding) sampleStore).1 = Ok tt) as E by (vm_compute; reflexivity).
  split; [exact E|]. destruct (migrateNames sampleStore) as [[u|e] s'].
  - apply Hm; [discriminate|]. by eexists.
  - discriminate E.
Defined.

(** ** Canonical names as paths *)

Lemma Split_app_slash a b : Split (a +:+ String "/" b) "/" = (Split a "/" ++ Split b "/")%list.
Proof.
  induction a as [|c a IH]; [done|].
  change (String c a +:+ String "/" b) with (String c (a +:+ String "/" b)). cbn [Split].
  destruct (Ascii.eqb c "/"); rewrite IH; [done|].
  pose proof (Split_nonnil a "/"). by destruct (Split a "/").
Qed.

Lemma Split_app_sep a b : Split (a +:+ "/" +:+ b) "/" = (Split a "/" ++ Split b "/")%list.
Proof. apply Split_app_slash. Qed.

Lemma Split_no_slash p : ContainsByte p "/" = false -> Split p "/" = [p].
Proof.
  induction p as [|c p IH]; [done|]. rewrite ContainsByte_cons, orb_false_iff. intros [Hc Hp].
  simpl. rewrite Hc, IH by done. done.
Qed.

Lemma Split_Join l :
  l <> [] -> Forall (fun p => ContainsByte p "/" = false) l -> Split (Join l "/") "/" = l.
Proof.
  induction l as [|p l IH]; [done|]. intros _ Hl. inversion_clear Hl as [|? ? Hp Hl'].
  destruct l as [|q l]; [by apply Split_no_slash|].
  rewrite Join_cons by done. rewrite Split_app_sep, Split_no_slash, IH by done. done.
Qed.

Lemma Join_app l1 l2 : l1 <> [] -> l2 <> [] -> Join (l1 ++ l2) "/" = Join l1 "/" +:+ "/" +:+ Join l2 "/".
Proof.
  induction l1 as [|p l1 IH]; [done|]. intros _ H2. destruct l1 as [|q l1].
  - simpl app. by rewrite Join_cons.
  - change ((p :: q :: l1) ++ l2)%list with (p :: ((q :: l1) ++ l2))%list.
    rewrite Join_cons by done. rewrite IH by done. rewrite (Join_cons p) by done.
    by rewrite !string_app_assoc.
Qed.

Lemma dir_part_no_slash p : ContainsByte p "/" = false -> dir_part p = "".
Proof. destruct p as [|c p]; [done|]. cbn [dir_part]. by intros ->. Qed.

Lemma dir_part_app a p : ContainsByte p "/" = false -> dir_part (a +:+ "/" +:+ p) = a +:+ "/".
Proof.
  intros Hp. induction a as [|c a IH].
  - change ("" +:+ "/" +:+ p) with (String "/" p). cbn [dir_part]. rewrite ContainsByte_cons. simpl.
    by rewrite dir_part_no_slash.
  - change (String c a +:+ "/" +:+ p) with (String c (a +:+ "/" +:+ p)). cbn [dir_part].
    assert (forall x, ContainsByte (x +:+ "/" +:+ p) "/" = true) as Hc.
    { induction x as [|d x IHx]; [done|]. change (String d x +:+ "/" +:+ p) with (String d (x +:+ "/" +:+ p)).
      rewrite ContainsByte_cons, IHx. by destruct (Ascii.eqb d "/"). }
    rewrite ContainsByte_cons, Hc, orb_true_r, IH. done.
Qed.

Lemma good_part_spec p : good_part p <-> p <> "" /\ p <> "." /\ p <> "..".
Proof. unfold good_part, bad_part. rewrite !orb_false_iff, !eqs_false. tauto. Qed.

Lemma clean_go_good rooted stack parts :
  Forall good_part parts -> clean_go rooted stack parts = (rev stack ++ parts)%list.
Proof.
  intros Hp. revert stack. induction Hp as [|p parts Hg Hp IH]; intros stack; simpl; [by rewrite app_nil_r|].
  apply good_part_spec in Hg as (H1 & H2 & H3).
  rewrite (proj2 (eqs_false p "") H1), (proj2 (eqs_false p ".") H2), (proj2 (eqs_false p "..") H3).
  simpl. rewrite IH. simpl. by rewrite <- app_assoc.
Qed.

(** Cleaning a canonical name, with or without a trailing slash, gives the name. *)
Lemma clean_go_app rooted stack parts :
  Forall good_part parts -> clean_go rooted stack (parts ++ [""]) = (rev stack ++ parts)%list.
Proof.
  intros Hp. revert stack. induction Hp as [|p parts Hg Hp IH]; intros stack; simpl; [by rewrite app_nil_r|].
  apply good_part_spec in Hg as (H1 & H2 & H3).
  rewrite (proj2 (eqs_false p "") H1), (proj2 (eqs_false p ".") H2), (proj2 (eqs_false p "..") H3).
  simpl. rewrite IH. simpl. by rewrite <- app_assoc.
Qed.

Definition clean_parts (l : list string) : Prop :=
  Forall good_part l /\ Forall (fun p => ContainsByte p "/" = false) l.

Lemma Join_not_rooted l rest : clean_parts l -> l <> [] -> HasPrefix (Join l "/" +:+ rest) "/" = false.
Proof.
  intros [Hg Hs] Hne. destruct l as [|p l]; [done|].
  inversion_clear Hg as [|? ? Hp _]. inversion_clear Hs as [|? ? Hc _].
  apply good_part_nonempty in Hp. destruct p as [|c p]; [done|].
  rewrite ContainsByte_cons, orb_false_iff in Hc. destruct Hc as [Hc _]. rewrite Join_cons_char.
  apply not_true_is_false. intros [t Ht]%HasPrefix_spec. injection Ht as -> _. discriminate Hc.
Qed.

Lemma Clean_dir l : clean_parts l -> l <> [] -> Clean (Join l "/" +:+ "/") = Join l "/".
Proof.
  intros Hl Hne. pose proof Hl as [Hg Hs].
  assert (Join l "/" <> "") as Hj.
  { apply Join_nonempty; [done|]. eapply Forall_impl; [exact Hg|apply good_part_nonempty]. }
  unfold Clean. assert (((Join l "/" +:+ "/") =s "") = false) as ->.
  { apply eqs_false. by destruct (Join l "/"). }
  rewrite Join_not_rooted by done.
  replace (Join l "/" +:+ "/") with (Join l "/" +:+ "/" +:+ "") by done.
  rewrite Split_app_sep, Split_Join by done. change (Split "" "/") with [""].
  rewrite clean_go_app by done. simpl. by rewrite (proj2 (eqs_false _ _) Hj).
Qed.

Lemma Dir_snoc l p : clean_parts (l ++ [p]) -> Dir (Join (l ++ [p]) "/") = if decide (l = []) then "." else Join l "/".
Proof.
  intros [Hg Hs]. apply Forall_app in Hg as [Hg _], Hs as [Hs Hp]. inversion_clear Hp as [|? ? Hp' _].
  unfold Dir. case_decide as E.
  - subst l. simpl. by rewrite dir_part_no_slash.
  - rewrite Join_app by done. rewrite dir_part_app by done. by apply Clean_dir.
Qed.

Lemma canonical_parts name : canonical name -> clean_parts (Split name "/").
Proof. intros (_ & _ & Hg). split; [done|]. apply Split_no_sep. Qed.
