(* ===== verification/Store.v ===== *)
(** * File states, versions and cursors

    internal/store/store.go without the repair queue: committing a file state under a new
    version, the change stream and the manifest, live listings, peer cursors and
    acknowledgements, node values, and opening a database. *)

From S2P Require Import Prelude GoStrings FileMeta Database Names.

(** ** Committing a file state *)

(** The loop that collects a name and its ancestors in [namespaceClock]. Each step drops a
    component, so the length of the name bounds the steps. *)
Fixpoint ancestors (fuel : nat) (p : string) : list string :=
  match fuel with
  | O => []
  | S fuel' =>
      p :: let parent := Dir p in
           if (parent =s ".") || (parent =s p) then [] else ancestors fuel' parent
  end.

(** [name IN (...) OR (name>=? AND name<?)] *)
Definition in_namespace (name : string) (row : FileMeta) : bool :=
  existsb (String.eqb (Name row)) (ancestors (S (String.length name)) name) ||
  ((name +:+ "/" <=s Name row) && (Name row <s name +:+ "0")).

(** [MAX(x)] over the rows: none when there is no row. *)
Definition sql_max (l : list Z) : option Z :=
  match l with [] => None | x :: r => Some (fold_left Z.max r x) end.

(** [ORDER BY length(x) DESC, x DESC LIMIT 1] over the rows where [x] is not empty. *)
Definition longest_max (l : list string) : option string :=
  match base.filter (fun x => (x =s "") = false) l with
  | [] => None
  | x :: r => Some (fold_left (fun m y => match compareDecimal y m with Gt => y | _ => m end) r x)
  end.

(** [func namespaceClock(tx *sql.Tx, name string) ( *FileMeta, error)] *)
Definition namespaceClock (name : string) : St (option FileMeta) :=
  let! clock := query (fun d => sql_max (map StateClock (select (in_namespace name) (files d)))) in
  match clock with
  | None => retS None
  | Some clock =>
      let! big := query (fun d => longest_max (map BigClock (select (in_namespace name) (files d)))) in
      retS (Some (set_clocks (zeroMeta "") clock (default "" big)))
  end.

(** [UPDATE node_meta SET value = CAST(value AS INTEGER) + 1 WHERE key = 'last_version' RETURNING ...];
    versions are counted without an upper bound here and in [commitPut], so the two agree with
    the int64 of the code below [MaxInt64]. *)
Definition nextVersion : St Z :=
  let! r := statement (fun d =>
    match node_meta d !! "last_version" with
    | None => (None, d)
    | Some v => (Some (sql_cast v + 1), upd_meta (fun t => <["last_version" := FormatInt (sql_cast v + 1)]> t) d)
    end) in
  match r with None => failS EDb | Some v => retS v end.

(** The row [commitPut] writes. *)
Definition committed (meta : FileMeta) (ver now : Z) : FileMeta := {|
  Name := Name meta; ModTime := ModTime meta; Size := Size meta; Hash := Hash meta;
  Deleted := Deleted meta; Version := ver; BigClock := BigClock meta; Clock := Clock meta;
  SupersededBy := SupersededBy meta; ConflictOf := ConflictOf meta;
  DeletedAt := if Deleted meta then now else 0
|}.

Section Put.
Context `{NameFolding}.

Definition clockErr (r : result clock_error unit) : result err unit :=
  match r with Ok u => Ok u | Err e => Err (EClock e) end.

(** The transaction of [commitPut]. *)
Definition commitPut_tx (now : Z) (meta : FileMeta) (local : bool) : St (bool * Z) :=
  do! bindName (Name meta) then
  do! liftS (clockErr (ValidateClock meta)) then
  let! meta' := (if local
                 then let! previous := namespaceClock (Name meta) in retS (AdvanceClock meta previous)
                 else retS meta) in
  let! ver := nextVersion in
  do! exec (upd_files (fun t => <[Name meta := committed meta' ver now]> t)) then
  do! exec (upd_replica (fun t => delete (Name meta) t)) then
  retS (true, ver).

(** [func (s *Store) commitPut(meta FileMeta, local bool) (int64, error)] *)
Definition commitPut (now : Z) (meta : FileMeta) (local : bool) : St Z :=
  let! ver := transact (commitPut_tx now meta local) in
  do! modifyS (set_nextVer (ver + 1)) then
  retS ver.

(** [PutLocal], [PutRemote] and [PutFile]: [put] only adds a log line to [commitPut]. *)
Definition PutLocal (now : Z) (meta : FileMeta) : St Z := commitPut now meta true.
Definition PutRemote (now : Z) (meta : FileMeta) : St Z := commitPut now meta false.
Definition PutFile (now : Z) (name : string) (modTime size : Z) (hash : string) (deleted : bool) : St Z :=
  commitPut now {| Name := name; ModTime := modTime; Size := size; Hash := hash; Deleted := deleted;
                   Version := 0; BigClock := ""; Clock := 0; SupersededBy := ""; ConflictOf := "";
                   DeletedAt := 0 |} false.
End Put.

(** ** Reading *)

Definition GetFile (name : string) : St (option FileMeta) := query (fun d => files d !! name).

(** [func (s *Store) GetChanges(sinceVersion int64, limit int) ([]FileMeta, error)] *)
Definition changesSince (d : DB) (since limit : Z) : list FileMeta :=
  sql_limit limit (merge_sort (by_Z Version) (select (fun r => since <? Version r) (files d))).
Definition GetChanges (since limit : Z) : St (list FileMeta) := query (fun d => changesSince d since limit).

(** [func (s *Store) ListManifest(afterName string, limit int) ([]FileMeta, error)] *)
Definition manifestAfter (d : DB) (after : string) (limit : Z) : list FileMeta :=
  sql_limit limit (merge_sort (by_string Name) (select (fun r => after <s Name r) (files d))).
Definition ListManifest (after : string) (limit : Z) : St (list FileMeta) :=
  query (fun d => manifestAfter d after limit).

(** [func (s *Store) ListNonDeleted(afterName string, limit int) ([]FileMeta, error)] *)
Definition ListNonDeleted (after : string) (limit : Z) : St (list FileMeta) :=
  query (fun d => sql_limit limit (merge_sort (by_string Name)
    (select (fun r => negb (Deleted r) && (after <s Name r)) (files d)))).

(** [func (s *Store) ListLiveRange(ctx, from, until, after string, limit int) ([]FileMeta, error)]:
    one lower bound, the cursor when it is inside the range. *)
Definition liveRange (d : DB) (from until after : string) (limit : Z) : list FileMeta :=
  let lower r := if from <=s after then after <s Name r else from <=s Name r in
  sql_limit limit (merge_sort (by_string Name)
    (select (fun r => negb (Deleted r) && lower r && (Name r <s until)) (files d))).
Definition ListLiveRange (from until after : string) (limit : Z) : St (list FileMeta) :=
  if (limit <=? 0) || (10000 <? limit) then failS (EBadLimit limit)
  else query (fun d => liveRange d from until after limit).

(** [func (s *Store) GetFilesBatch(names []string) (map[string]*FileMeta, error)] *)
Definition GetFilesBatch (names : list string) : St (gmap string FileMeta) :=
  match names with
  | [] => retS ∅
  | _ => query (fun d => base.filter (fun kv : string * FileMeta => kv.1 ∈ names) (files d))
  end.

(** [func (s *Store) MaxVersion() (int64, error)] *)
Definition MaxVersion : St Z :=
  let! s := getS in
  if cachedNextVer s <=? 1 then retS 0 else retS (cachedNextVer s - 1).

Definition liveCount (d : DB) : Z := Z.of_nat (length (select (fun r => negb (Deleted r)) (files d))).

(** [func (s *Store) FileCount() (int64, error)] *)
Definition FileCount : St Z :=
  let! version := MaxVersion in
  let! s := getS in
  if countValid s && (countVersion s =? version) then retS (countCached s)
  else
    let! count := query liveCount in
    do! modifyS (set_count version true count) then
    retS count.

(** ** Node values *)

Definition PerPeerKeyPrefix : string := "reconcile_position:".

Definition NodeValue (key : string) : St string := query (fun d => default "" (node_meta d !! key)).
Definition SetNodeValue (key value : string) : St unit := exec (upd_meta (fun t => <[key := value]> t)).

(** ** Peers *)

Definition GetPeerState (peer : string) : St PeerState :=
  query (fun d => default (mkPeerState 0 "") (cursors d !! peer)).
Definition SetPeerState (peer : string) (ps : PeerState) : St unit :=
  exec (upd_cursors (fun t => <[peer := ps]> t)).
Definition GetCursor (peer : string) : St Z :=
  let! ps := GetPeerState peer in retS (ps_Version ps).
Definition SetCursor (peer : string) (version : Z) : St unit :=
  exec (upd_cursors (fun t => <[peer := mkPeerState version
    (match t !! peer with Some ps => ps_Epoch ps | None => "" end)]> t)).

(** [key LIKE 'prefix%']: '_' stands for any byte, letters match without case. *)
Fixpoint like_prefix (pat s : string) : bool :=
  match pat, s with
  | "", _ => true
  | String _ _, "" => false
  | String p pat', String c s' =>
      (Ascii.eqb p "_" || Ascii.eqb (lower_byte p) (lower_byte c)) && like_prefix pat' s'
  end.

(** [func (s *Store) pruneNodeKeysLocked(keep []string) error] *)
Definition pruneNodeKeysLocked (keep : list string) : St unit :=
  let! keys := query (fun d => base.filter (fun k => like_prefix PerPeerKeyPrefix k = true) (elements (dom (node_meta d)))) in
  let stale := base.filter (fun k => TrimPrefix k PerPeerKeyPrefix ∉ keep) keys in
  forS (fun key => exec (upd_meta (fun t => delete key t))) stale.

(** [func (s *Store) PruneCursors(keep []string) error] *)
Definition PruneCursors (keep : list string) : St unit :=
  do! (match keep with
       | [] => exec (upd_cursors (fun _ => ∅))
       | _ => exec (upd_cursors (fun t => base.filter (fun kv : string * PeerState => kv.1 ∈ keep) t))
       end) then
  pruneNodeKeysLocked keep.

(** [func (s *Store) RecordAckEpoch(peerID, epoch string, version int64) error] *)
Definition RecordAckEpoch (now : Z) (peer epoch : string) (version : Z) : St unit :=
  if peer =s "" then retS tt
  else exec (upd_acks (fun t => <[peer := mkAckRow version now epoch]> t)).
Definition RecordAck (now : Z) (peer : string) (version : Z) : St unit := RecordAckEpoch now peer "" version.

Definition sql_min (l : list Z) : option Z :=
  match l with [] => None | x :: r => Some (fold_left Z.min r x) end.

(** [func (s *Store) MinAckedVersion(staleAfter time.Duration) (int64, error)] *)
Definition MinAckedVersion (now staleAfter : Z) : St Z :=
  let! m := query (fun d => sql_min (map ack_version (select (fun a => now - staleAfter <=? ack_updated_at a) (peer_acks d)))) in
  retS (default NoAckGate m).

Definition PeerAcks : St (gmap string Z) := query (fun d => ack_version <$> peer_acks d).

(** [func (s *Store) PurgeTombstones(ttl time.Duration, maxVersion int64) (int64, error)] *)
Definition purgeable (cutoff maxVersion : Z) (r : FileMeta) : bool :=
  Deleted r && (DeletedAt r <? cutoff) && (Version r <=? maxVersion).
Definition PurgeTombstones (now ttl maxVersion : Z) : St Z :=
  statement (fun d =>
    (Z.of_nat (length (select (purgeable (now - ttl) maxVersion) (files d))),
     upd_files (fun t => base.filter (fun kv : string * FileMeta => purgeable (now - ttl) maxVersion kv.2 = false) t) d)).

(** ** The namespace a local commit observes *)

Lemma ancestors_clean fuel l :
  clean_parts l -> l <> [] -> (length l <= fuel)%nat ->
  forall x, x ∈ ancestors fuel (Join l "/") <-> exists ps, ps ∈ prefixes l /\ x = Join ps "/".
Proof.
  revert l. induction fuel as [|fuel IH]; intros l Hl Hne Hf x; [destruct l; simpl in Hf; [done|lia]|].
  destruct (exists_last Hne) as (l' & p & ->). cbn [ancestors].
  rewrite Dir_snoc by done. rewrite elem_of_cons.
  assert (forall ps, ps ∈ prefixes (l' ++ [p]) <-> ps = (l' ++ [p])%list \/ ps ∈ prefixes l') as Hpre.
  { clear. induction l' as [|y l' IH]; intros ps; simpl; [set_solver|].
    rewrite !elem_of_cons, !list_elem_of_In, !in_map_iff. setoid_rewrite <- list_elem_of_In.
    setoid_rewrite IH. split.
    - intros [->|(z & <- & [->|Hz])]; eauto.
    - intros [->|[->|(z & <- & Hz)]]; eauto. }
  setoid_rewrite Hpre. case_decide as El.
  - subst l'. simpl. split; [intros [->|Hx]; [by exists [p]; auto|set_solver]|].
    intros (ps & [->|Hps] & ->); [by left|set_solver].
  - assert (clean_parts l') as Hl'.
    { destruct Hl as [H1 H2]. apply Forall_app in H1 as [H1 _], H2 as [H2 _]. by split. }
    rewrite length_app in Hf. simpl in Hf.
    assert ((Join l' "/" =s ".") = false) as ->.
    { apply eqs_false. intros E. pose proof (Split_Join l' El (proj2 Hl')) as Es. rewrite E in Es.
      change (Split "." "/") with ["."] in Es. subst l'. destruct Hl' as [Hg _]. by inversion_clear Hg. }
    assert ((Join l' "/" =s Join (l' ++ [p]) "/") = false) as ->.
    { apply eqs_false. intros E. apply (f_equal slen) in E. rewrite Join_snoc, !slen_app in E by done.
      change (slen "/") with 1 in E. pose proof (slen_nonneg p). lia. }
    simpl. rewrite (IH l' Hl' El ltac:(lia)). split.
    + intros [->|(ps & Hps & ->)]; eauto.
    + intros (ps & [->|Hps] & ->); eauto.
Qed.

Lemma length_Split s : (length (Split s "/") <= S (String.length s))%nat.
Proof.
  induction s as [|c s IH]; simpl; [lia|]. destruct (Ascii.eqb c "/"); simpl; [lia|].
  destruct (Split s "/"); simpl in *; lia.
Qed.

Lemma prefixes_spec {A} (l ps : list A) : ps ∈ prefixes l <-> ps <> [] /\ exists rest, l = (ps ++ rest)%list.
Proof.
  revert ps. induction l as [|x l IH]; intros ps; simpl.
  - split; [set_solver|]. intros [Hne [rest E]]. by destruct ps.
  - rewrite elem_of_cons, list_elem_of_In, in_map_iff. setoid_rewrite <- list_elem_of_In. split.
    + intros [->|(z & <- & Hz)]; [split; [done|by exists l]|]. apply IH in Hz as [_ [rest ->]].
      split; [done|by exists rest].
    + intros [Hne [rest E]]. destruct ps as [|y ps]; [done|]. simplify_list_eq.
      destruct ps as [|z ps]; [by left|]. right. exists (z :: ps). split; [done|]. apply IH.
      split; [done|by exists rest].
Qed.

(** The rows [namespaceClock] ranges over are exactly the name's own row, its ancestors'
    and its descendants'. *)
Definition related (name other : string) : Prop :=
  other = name \/ HasPrefix name (other +:+ "/") = true \/ HasPrefix other (name +:+ "/") = true.

Lemma in_namespace_spec name row :
  canonical name -> in_namespace name row = true <-> related name (Name row).
Proof.
  intros Hc. unfold in_namespace, related. rewrite orb_true_iff, subtree_range, existsb_exists.
  pose proof (canonical_parts name Hc) as Hp.
  assert (forall x, x ∈ ancestors (S (String.length name)) name <->
            exists ps, ps ∈ prefixes (Split name "/") /\ x = Join ps "/") as Ha.
  { pose proof (ancestors_clean (S (String.length name)) _ Hp (Split_nonnil name "/") (length_Split name)) as Ha.
    by rewrite Join_Split_slash in Ha. }
  setoid_rewrite <- list_elem_of_In. setoid_rewrite String.eqb_eq.
  assert ((exists x, x ∈ ancestors (S (String.length name)) name /\ Name row = x) <->
          Name row = name \/ HasPrefix name (Name row +:+ "/") = true) as ->; [|tauto].
  split.
  - intros (x & Hx & <-). apply Ha in Hx as (ps & Hps & ->).
    apply prefixes_spec in Hps as (Hps & rest & E). destruct rest as [|q rest].
    + left. rewrite app_nil_r in E. rewrite <- E. apply Join_Split_slash.
    + right. apply HasPrefix_spec. exists (Join (q :: rest) "/"). rewrite string_app_assoc.
      rewrite <- Join_app by done. rewrite <- E. symmetry. apply Join_Split_slash.
  - intros [E|E].
    + exists name. split; [|done]. apply Ha. exists (Split name "/").
      split; [apply prefixes_last, Split_nonnil|symmetry; apply Join_Split_slash].
    + apply HasPrefix_spec in E as [t E]. rewrite string_app_assoc in E.
      exists (Name row). split; [|done]. apply Ha. exists (Split (Name row) "/").
      split; [|symmetry; apply Join_Split_slash]. apply prefixes_spec. split; [apply Split_nonnil|].
      exists (Split t "/"). rewrite E. apply Split_app_sep.
Qed.

Lemma fold_max_spec r x : fold_left Z.max r x ∈ x :: r /\ forall y, y ∈ x :: r -> y <= fold_left Z.max r x.
Proof.
  revert x. induction r as [|z r IH]; intros x; simpl.
  - split; [set_solver|]. intros y Hy. assert (y = x) by set_solver. lia.
  - destruct (IH (Z.max x z)) as [Hin Hle]. split.
    + destruct (Z.max_spec x z) as [[_ E]|[_ E]]; rewrite E in Hin |- *; set_solver.
    + intros y Hy. pose proof (Hle (Z.max x z) (list_elem_of_here _ _)) as Hm.
      apply elem_of_cons in Hy as [->|[->|Hy]%elem_of_cons]; [lia|lia|]. apply Hle. by apply list_elem_of_further.
Qed.

Lemma sql_max_spec l :
  match sql_max l with
  | None => l = []
  | Some m => m ∈ l /\ forall x, x ∈ l -> x <= m
  end.
Proof. destruct l as [|x r]; simpl; [done|]. apply fold_max_spec. Qed.

Lemma fold_longest_spec r x :
  let step := fun m y => match compareDecimal y m with Gt => y | _ => m end in
  fold_left step r x ∈ x :: r /\ forall y, y ∈ x :: r -> compareDecimal y (fold_left step r x) <> Gt.
Proof.
  intros step. revert x. induction r as [|z r IH]; intros x; simpl.
  - split; [set_solver|]. intros y Hy. assert (y = x) as -> by set_solver. by rewrite (cmp_refl compareDecimal).
  - destruct (IH (step x z)) as [Hin Hle].
    assert (step x z = x \/ step x z = z) as Hor by (unfold step; destruct (compareDecimal z x); auto).
    assert (compareDecimal x (step x z) <> Gt /\ compareDecimal z (step x z) <> Gt) as [Hx Hz].
    { unfold step. destruct (compareDecimal z x) eqn:E; rewrite ?(cmp_refl compareDecimal), ?E; (split; [|congruence]); try done.
      apply (cmp_Lt_Gt compareDecimal) in E. congruence. }
    split.
    { apply elem_of_cons in Hin as [->|Hin]; [|by do 2 apply list_elem_of_further].
      destruct Hor as [-> | ->]; [apply list_elem_of_here|apply list_elem_of_further, list_elem_of_here]. }
    intros y Hy. pose proof (Hle (step x z) (list_elem_of_here _ _)) as Hm.
    apply elem_of_cons in Hy as [->|[->|Hy]%elem_of_cons];
      [by apply (cmp_le_trans (c:=compareDecimal) _ (step x z))..|]. apply Hle. by apply list_elem_of_further.
Qed.

Lemma longest_max_spec l :
  match longest_max l with
  | None => forall x, x ∈ l -> x = ""
  | Some m => m ∈ l /\ m <> "" /\ forall x, x ∈ l -> x <> "" -> compareDecimal x m <> Gt
  end.
Proof.
  unfold longest_max. destruct (base.filter _ l) as [|x r] eqn:E.
  - intros x Hx. destruct (x =s "") eqn:Ex; [by apply eqs_true in Ex|].
    assert (x ∈ base.filter (fun x => (x =s "") = false) l) as Hf by by apply list_elem_of_filter.
    rewrite E in Hf. set_solver.
  - destruct (fold_longest_spec r x) as [Hin Hle]. cbv zeta in *. rewrite <- E in Hin, Hle.
    apply list_elem_of_filter in Hin as [H1 H2]. split; [done|]. split; [by apply eqs_false|].
    intros y Hy Hne. apply Hle. apply list_elem_of_filter. split; [by apply eqs_false|done].
Qed.

(** What [namespaceClock] reads. *)
Definition observedClock (d : DB) (name : string) : option FileMeta :=
  match sql_max (map StateClock (select (in_namespace name) (files d))) with
  | None => None
  | Some clock => Some (set_clocks (zeroMeta "") clock
      (default "" (longest_max (map BigClock (select (in_namespace name) (files d))))))
  end.

Lemma namespaceClock_Ok name s r s' :
  namespaceClock name s = (Ok r, s') -> untouched s s' /\ r = observedClock (db s) name.
Proof.
  unfold namespaceClock, observedClock. intros E. run_inv.
  destruct (sql_max _) as [clock|]; run_inv; [|done].
  match goal with H1 : untouched s ?a, H2 : untouched ?a s' |- _ => pose proof (untouched_db _ _ H1) as Hdb end.
  rewrite Hdb. split; [by etrans|done].
Qed.

Definition clocks_ok (d : DB) : Prop := map_Forall (fun _ r => clock_ok r) (files d).
Definition well_keyed (d : DB) : Prop := map_Forall (fun k r => Name r = k) (files d).

Lemma in_select_map {B} (g : FileMeta -> B) w d x :
  x ∈ map g (select w (files d)) <-> exists k r, files d !! k = Some r /\ w r = true /\ x = g r.
Proof.
  rewrite list_elem_of_In, in_map_iff. setoid_rewrite <- list_elem_of_In. setoid_rewrite elem_of_select.
  split; [intros (r & <- & Hw & k & Hk)|intros (k & r & Hk & Hw & ->)]; eauto 10.
Qed.

(** The observed clock is itself a valid clock and at or above every row it covers. *)
Lemma observedClock_spec d name :
  clocks_ok d ->
  match observedClock d name with
  | None => forall k r, files d !! k = Some r -> in_namespace name r = false
  | Some p => clock_ok p /\
      forall k r, files d !! k = Some r -> in_namespace name r = true -> clockZ r <= clockZ p
  end.
Proof.
  intros Hok. unfold observedClock.
  pose proof (sql_max_spec (map StateClock (select (in_namespace name) (files d)))) as Hmax.
  pose proof (longest_max_spec (map BigClock (select (in_namespace name) (files d)))) as Hbig.
  destruct (sql_max _) as [clock|].
  2:{ intros k r Hk. destruct (in_namespace name r) eqn:E; [|done].
      assert (StateClock r ∈ map StateClock (select (in_namespace name) (files d))) as Hin
        by (apply in_select_map; eauto). rewrite Hmax in Hin. set_solver. }
  destruct Hmax as [Hc Hle]. apply in_select_map in Hc as (k0 & r0 & Hk0 & _ & ->).
  pose proof (StateClock_int64 r0 (Hok _ _ Hk0)) as Hi0.
  assert (forall k r, files d !! k = Some r -> in_namespace name r = true -> StateClock r <= StateClock r0) as Hle'.
  { intros k r Hk Hn. apply Hle, in_select_map. eauto. }
  assert (forall c b, clockZ (set_clocks (zeroMeta "") c b) = if b =s "" then c else dec_val b) as Hz.
  { intros c b. unfold clockZ, StateClock. simpl. destruct (b =s ""); [|done].
    by destruct (Z.eqb_spec c 0) as [->|]. }
  destruct (longest_max _) as [big|]; simpl.
  - destruct Hbig as (Hb & Hbne & Hbl). apply in_select_map in Hb as (kb & rb & Hkb & Hnb & ->).
    pose proof (Hok _ _ Hkb) as (_ & _ & Hvb). destruct (clock_ok_big rb Hvb Hbne) as (Hcb & D1 & D2 & D3).
    assert (StateClock r0 = MaxInt64) as Hmaxed.
    { pose proof (Hle' kb rb Hkb Hnb) as H. unfold StateClock at 1 in H. rewrite Hcb in H. simpl in H.
      unfold in_int64 in Hi0. lia. }
    split.
    + unfold clock_ok. simpl. split; [done|]. split; [done|]. apply ValidateClock_big; simpl; try done.
    + intros k r Hk Hn. rewrite Hz, (proj2 (eqs_false _ _) Hbne). unfold clockZ.
      destruct (BigClock r =s "") eqn:Er; [pose proof (Hle' _ _ Hk Hn); lia|]. apply eqs_false in Er.
      pose proof (Hok _ _ Hk) as (_ & _ & Hvr). destruct (clock_ok_big r Hvr Er) as (_ & E1 & E2 & _).
      assert (compareDecimal (BigClock r) (BigClock rb) <> Gt) as Hcmp.
      { apply Hbl; [|done]. apply in_select_map. eauto. }
      rewrite compareDecimal_numeric in Hcmp by done. by apply Z.compare_le_iff in Hcmp.
  - split; [by split|]. intros k r Hk Hn. rewrite Hz. simpl. unfold clockZ.
    rewrite (Hbig (BigClock r)) by (apply in_select_map; eauto). simpl. by eapply Hle'.
Qed.

(** ** What a commit does *)

Lemma leading_digits_id s : all_digits s = true -> leading_digits s = s.
Proof. induction s as [|c s IH]; simpl; [done|]. rewrite andb_true_iff. intros [-> Hs]. by rewrite IH. Qed.

Lemma sql_cast_FormatInt v : 0 <= v <= MaxInt64 -> sql_cast (FormatInt v) = v.
Proof.
  intros Hv. destruct (FormatInt_spec v Hv) as (H1 & H2 & H3). unfold sql_cast.
  destruct (FormatInt v) as [|c s]; [done|]. destruct (digit_not_sign c s H1) as [Hm Hp].
  rewrite leading_digits_id by done.
  assert (forall s1 s2 s3 : Z, match String c s with String "-" _ => s1 | String "+" _ => s2 | _ => s3 end = s3) as E.
  { intros. destruct c as [[] [] [] [] [] [] [] []]; try reflexivity; exfalso; by (apply Hm || apply Hp). }
  destruct c as [[] [] [] [] [] [] [] []]; first [exact H2 | exfalso; by (apply Hm || apply Hp)].
Qed.

Section PutFacts.
Context `{NameFolding}.

(** The tables after a commit: spellings [nn] reserved, version counter and row written,
    the name's replica intent resolved. *)
Definition put_tables (d : DB) (nn : gmap string string) (row : FileMeta) : DB :=
  upd_replica (fun t => delete (Name row) t)
    (upd_files (fun t => <[Name row := row]> t)
      (upd_meta (fun t => <["last_version" := FormatInt (Version row)]> t)
        (upd_names (fun _ => nn) d))).

Lemma AdvanceClock_fields f p :
  let g := AdvanceClock f p in
  Name g = Name f /\ ModTime g = ModTime f /\ Size g = Size f /\ Hash g = Hash f /\
  Deleted g = Deleted f /\ SupersededBy g = SupersededBy f /\ ConflictOf g = ConflictOf f.
Proof.
  unfold AdvanceClock, bumpClock. destruct p as [p|], (BigClock f =s ""); simpl; try done.
  all: destruct (CompareClock _ p); [destruct (_ && _)|destruct (_ && _)|done]; try done.
  all: by destruct (incr_digits _).
Qed.

Definition putState (d : DB) (meta : FileMeta) (local : bool) : FileMeta :=
  if local then AdvanceClock meta (observedClock d (Name meta)) else meta.

Lemma keeps_namespaceClock name : keeps memory_kept (namespaceClock name).
Proof. unfold namespaceClock. eauto 10 with birak. Qed.

Lemma keeps_nextVersion : keeps memory_kept nextVersion.
Proof. unfold nextVersion. eauto 10 with birak. Qed.

Lemma keeps_commitPut_tx now meta local : keeps memory_kept (commitPut_tx now meta local).
Proof.
  unfold commitPut_tx. apply keeps_bind; [apply _|apply keeps_bindName|]. intros _.
  apply keeps_bind; [apply _|eauto with birak|]. intros _.
  apply keeps_bind; [apply _| |].
  - destruct local; [|eauto with birak]. apply keeps_bind; [apply _|apply keeps_namespaceClock|eauto with birak].
  - intros m. apply keeps_bind; [apply _|apply keeps_nextVersion|]. eauto 10 with birak.
Qed.

Lemma nextVersion_Ok s v s' :
  nextVersion s = (Ok v, s') ->
  memory_kept s s' /\ exists t, node_meta (db s) !! "last_version" = Some t /\ v = sql_cast t + 1 /\
  db s' = upd_meta (fun m => <["last_version" := FormatInt v]> m) (db s).
Proof.
  unfold nextVersion. intros E. apply bindS_Ok in E as (r & s1 & E & E1).
  apply statement_Ok in E as (-> & Hdb & Hm).
  destruct (node_meta (db s) !! "last_version") as [t|] eqn:Ev; simpl in *; run_inv.
  split; [done|]. by exists t.
Qed.

Lemma commitPut_tx_Ok now meta local s b ver s' :
  commitPut_tx now meta local s = (Ok (b, ver), s') ->
  b = true /\ ValidateClock meta = Ok tt /\ name_bound (db s') (Name meta) /\
  exists t nn, node_meta (db s) !! "last_version" = Some t /\ ver = sql_cast t + 1 /\
    namespace_names (db s) ⊆ nn /\
    db s' = put_tables (db s) nn (committed (putState (db s) meta local) ver now).
Proof.
  unfold commitPut_tx. intros E.
  apply bindS_Ok in E as ([] & s1 & E1 & E). apply bindName_Ok in E1 as (Hon & _ & Hbound).
  pose proof (only_names_files _ _ Hon) as Hf. destruct Hon as [Hd1 Hnn].
  apply bindS_Ok in E as (u & s2 & E2 & E).
  destruct (ValidateClock meta) as [[]|] eqn:Hv; unfold liftS in E2; simpl in E2; simplify_eq.
  apply bindS_Ok in E as (m' & s3 & E3 & E).
  assert (untouched s2 s3 /\ m' = putState (db s2) meta local) as [Hu ->].
  { unfold putState. destruct local; run_inv; [|done].
    match goal with Hn : namespaceClock _ _ = _ |- _ => apply namespaceClock_Ok in Hn as [? ->] end. done. }
  apply bindS_Ok in E as (v & s4 & E4 & E). apply nextVersion_Ok in E4 as (_ & t & Ht & Hver & Hd4). run_inv.
  apply untouched_db in Hu. rewrite Hu in *. rewrite Hd1 in Ht. simpl in Ht.
  assert (putState (db s2) meta local = putState (db s) meta local) as Hps.
  { unfold putState, observedClock. by rewrite Hf. }
  assert (Name (putState (db s) meta local) = Name meta) as Hname.
  { unfold putState. destruct local; [|done]. apply AdvanceClock_fields. }
  split; [done|]. split; [done|]. rewrite Hps in *.
  assert (db s' = put_tables (db s) (namespace_names (db s2)) (committed (putState (db s) meta local) (sql_cast t + 1) now)) as Hd.
  { repeat match goal with Hx : db _ = _ |- _ => rewrite Hx; clear Hx end.
    unfold put_tables, committed. simpl. rewrite Hname. done. }
  split; [|exists t, (namespace_names (db s2)); done].
  destruct Hbound as (parts & Hp & Hb). exists parts. split; [done|]. by rewrite Hd.
Qed.
End PutFacts.

(** ** Invariant *)

Section Invariant.
Context `{NameFolding}.

Record store_inv (s : Store) : Prop := {
  inv_keyed : well_keyed (db s);
  inv_clocks : clocks_ok (db s);
  inv_names : forall n, is_Some (files (db s) !! n) -> name_bound (db s) n;
  inv_counter : node_meta (db s) !! "last_version" = Some (FormatInt (cachedNextVer s - 1));
  inv_next : 1 <= cachedNextVer s <= MaxInt64;
  inv_versions : map_Forall (fun _ r => 1 <= Version r < cachedNextVer s) (files (db s));
  inv_distinct : forall k1 k2 r1 r2, files (db s) !! k1 = Some r1 -> files (db s) !! k2 = Some r2 ->
                   Version r1 = Version r2 -> k1 = k2;
  inv_count : countVersion s < cachedNextVer s /\
              (countValid s = true -> countVersion s = cachedNextVer s - 1 -> countCached s = liveCount (db s))
}.

(** What an incoming or local state must satisfy to be committed: int64 fields, which
    every [FileMeta] of the program has. *)
Definition int64_meta (m : FileMeta) : Prop := in_int64 (Clock m) /\ in_int64 (ModTime m).

Lemma commitPut_Err now meta local s e s' : commitPut now meta local s = (Err e, s') -> untouched s s'.
Proof.
  unfold commitPut. intros E. apply bindS_Err in E as [E|(v & s1 & E & E1)].
  - apply transact_Err in E; [done|apply keeps_commitPut_tx].
  - apply bindS_Err in E1 as [E1|(? & ? & _ & E1)]; done.
Qed.

Lemma commitPut_Ok now meta local s ver s' :
  store_inv s -> commitPut now meta local s = (Ok ver, s') ->
  ver = cachedNextVer s /\ ValidateClock meta = Ok tt /\ name_bound (db s') (Name meta) /\
  memory_kept (set_nextVer (ver + 1) s) s' /\
  exists nn, namespace_names (db s) ⊆ nn /\
    db s' = put_tables (db s) nn (committed (putState (db s) meta local) ver now).
Proof.
  intros Hinv. unfold commitPut. intros E. apply bindS_Ok in E as (v & s1 & E & E1).
  apply transact_Ok in E as (Hm & b & s0 & s2 & Hu & E & Hdb); [|apply keeps_commitPut_tx].
  apply commitPut_tx_Ok in E as (-> & Hv & Hb & t & nn & Ht & Hver & Hnn & Hd).
  apply untouched_db in Hu. rewrite Hu in *. pose proof (inv_counter _ Hinv) as Hc. pose proof (inv_next _ Hinv).
  assert (v = cachedNextVer s) as Hv'.
  { rewrite Hc in Ht. injection Ht as <-. rewrite Hver, sql_cast_FormatInt; lia. }
  run_inv. split; [done|]. split; [done|]. split; [simpl; by rewrite Hdb|].
  split; [|exists nn; simpl; by rewrite Hdb].
  unfold memory_kept in *. rewrite Hm. by destruct s.
Qed.

Lemma clock_ok_committed m ver now : clock_ok m -> clock_ok (committed m ver now).
Proof. done. Qed.

Lemma putState_ok d meta local :
  clocks_ok d -> int64_meta meta -> ValidateClock meta = Ok tt -> clock_ok (putState d meta local).
Proof.
  intros Hd [H1 H2] Hv. assert (clock_ok meta) as Hm by done. unfold putState. destruct local; [|done].
  pose proof (observedClock_spec d (Name meta) Hd) as Ho.
  apply (AdvanceClock_ok meta _ Hm). intros p Hp. rewrite Hp in Ho. apply Ho.
Qed.

Lemma putState_name d meta local : Name (putState d meta local) = Name meta.
Proof. unfold putState. destruct local; [|done]. apply AdvanceClock_fields. Qed.

Lemma untouched_inv s s' : untouched s s' -> store_inv s -> store_inv s'.
Proof. intros -> []. by split. Qed.

Lemma commitPut_inv now meta local s :
  store_inv s -> int64_meta meta -> cachedNextVer s < MaxInt64 -> store_inv (commitPut now meta local s).2.
Proof.
  intros Hinv Hm Hroom. destruct (commitPut now meta local s) as [[ver|e] s'] eqn:E.
  2:{ apply commitPut_Err in E. by eapply untouched_inv. }
  apply commitPut_Ok in E as (-> & Hv & Hb & Hmem & nn & Hnn & Hd); [|done]. simpl.
  pose proof (putState_ok (db s) meta local (inv_clocks _ Hinv) Hm Hv) as Hok.
  set (row := committed _ _ _) in *. assert (Version row = cachedNextVer s) as Hvr by done.
  assert (Name row = Name meta) as Hnr by apply putState_name.
  assert (files (db s') = <[Name meta := row]> (files (db s))) as Hf by (rewrite <- Hnr, Hd; done).
  unfold memory_kept in Hmem. pose proof (inv_next _ Hinv) as Hnext.
  assert (cachedNextVer s' = cachedNextVer s + 1) as Hcn by by rewrite Hmem.
  split; rewrite ?Hcn.
  - unfold well_keyed. rewrite Hf. apply map_Forall_insert_2; [done|apply Hinv].
  - unfold clocks_ok. rewrite Hf. apply map_Forall_insert_2; [done|apply Hinv].
  - intros n Hn. destruct (decide (n = Name meta)) as [->|Hne]; [done|].
    rewrite Hf, lookup_insert_ne in Hn by done. destruct (inv_names _ Hinv n Hn) as (parts & Hp & Hbd).
    exists parts. split; [done|]. eapply Forall_impl; [exact Hbd|]. intros p Hp'. unfold bound in *.
    rewrite Hd. simpl. by eapply lookup_weaken.
  - rewrite Hd. simpl. rewrite lookup_insert_eq. do 2 f_equal. lia.
  - lia.
  - rewrite Hf. apply map_Forall_insert_2; [lia|]. intros k r Hk. pose proof (inv_versions _ Hinv k r Hk). simpl in *. lia.
  - intros k1 k2 r1 r2. rewrite Hf. rewrite !lookup_insert_Some.
    intros [[<- <-]|[Hn1 H1]] [[<- <-]|[Hn2 H2]] Ev; [done| | |by eapply (inv_distinct _ Hinv)].
    + pose proof (inv_versions _ Hinv _ _ H2). simpl in *. lia.
    + pose proof (inv_versions _ Hinv _ _ H1). simpl in *. lia.
  - destruct (inv_count _ Hinv) as [H1 H2]. rewrite Hmem. simpl. split; [lia|]. intros _ E. lia.
Qed.
End Invariant.

(** ** Pages of the change stream and of the manifest *)

Lemma NoDup_select (w : FileMeta -> bool) (t : gmap string FileMeta) :
  map_Forall (fun k r => Name r = k) t -> NoDup (select w t).
Proof.
  intros Hk. unfold select. apply NoDup_filter.
  rewrite <- (list_fmap_id (map_to_list t).*2). apply NoDup_fmap_2_strong; [done|].
  apply NoDup_fmap_2_strong; [|apply NoDup_map_to_list].
  intros [k1 r1] [k2 r2] H1 H2 E. simpl in E. subst r2.
  apply elem_of_map_to_list in H1, H2. f_equal. by rewrite <- (Hk _ _ H1), <- (Hk _ _ H2).
Qed.

Lemma StronglySorted_prefix {A} (R : relation A) l1 l2 : StronglySorted R (l1 ++ l2) -> StronglySorted R l1.
Proof. apply StronglySorted_app_1_l. Qed.

(** One page: rows in order, from the selection only, and nothing between them left out. *)
Lemma page_spec (R : relation FileMeta) `{!RelDecision R, !Transitive R, !Total R} w t limit d :
  map_Forall (fun k r => Name r = k) t -> 0 < limit ->
  let page := sql_limit limit (merge_sort R (select w t)) in
  StronglySorted R page /\ NoDup page /\
  (forall r, r ∈ page -> w r = true /\ exists k, t !! k = Some r) /\
  (forall k r, t !! k = Some r -> w r = true ->
     r ∈ page \/ page <> [] /\ R (List.last page d) r /\ List.last page d <> r).
Proof.
  intros Hk Hl page. pose proof (NoDup_select w t Hk) as Hnd.
  pose proof (merge_sort_Permutation R (select w t)) as Hp.
  pose proof (StronglySorted_merge_sort R (select w t)) as Hs.
  destruct (sql_limit_split limit (merge_sort R (select w t)) Hl) as (rest & Hsplit & Hnil).
  fold page in Hsplit, Hnil.
  assert (NoDup (page ++ rest)) as Hnd' by by rewrite <- Hsplit, Hp.
  assert (StronglySorted R (page ++ rest)) as Hs' by by rewrite <- Hsplit.
  split; [by eapply StronglySorted_prefix|]. split; [by apply NoDup_app in Hnd' as (? & _ & _)|]. split.
  - intros r Hr. apply (elem_of_select (K:=string)). apply sql_limit_elem in Hr.
    by apply elem_of_merge_sort in Hr.
  - intros k r Ht Hw. assert (r ∈ merge_sort R (select w t)) as Hin.
    { apply elem_of_merge_sort, elem_of_select. eauto. }
    rewrite Hsplit in Hin. apply elem_of_app in Hin as [?|Hr]; [by left|right].
    assert (page <> []) as Hne.
    { intros E. rewrite E, (Hnil E) in Hsplit. simpl in Hsplit. subst rest. set_solver. }
    split; [done|]. by apply (page_rest R page rest).
Qed.

(** ** Properties *)

Section StoreProperties.
Context `{NameFolding}.

(** Pages of the change stream, for the clients of this file too. *)
Lemma changesSince_complete (s : Store) (since limit : Z) (d : FileMeta) :
  store_inv s -> 0 < limit ->
  let page := changesSince (db s) since limit in
  StronglySorted (fun a b => Version a < Version b) page /\
  (forall r, r ∈ page -> since < Version r /\ files (db s) !! Name r = Some r) /\
  (forall k r, files (db s) !! k = Some r -> since < Version r ->
     r ∈ page \/ page <> [] /\ Version (List.last page d) < Version r).
Proof.
  intros Hinv Hl page. pose proof (inv_keyed _ Hinv) as Hk.
  destruct (page_spec (by_Z Version) (fun r => since <? Version r) (files (db s)) limit d Hk Hl) as (P1 & P2 & P3 & P4).
  fold (changesSince (db s) since limit) in P1, P2, P3, P4. fold page in P1, P2, P3, P4.
  assert (forall a b ka kb, files (db s) !! ka = Some a -> files (db s) !! kb = Some b -> a <> b -> Version a <> Version b) as Hdist.
  { intros a b ka kb Ha Hb Hne E. pose proof (inv_distinct _ Hinv _ _ _ _ Ha Hb E) as ->. naive_solver. }
  split; [|split].
  - clear P4. induction P1 as [|a l Hs IH Hall]; [constructor|].
    apply NoDup_cons in P2 as [Hnin P2]. constructor.
    + apply IH; [done|]. intros r Hr. apply P3. by apply list_elem_of_further.
    + rewrite Forall_forall in Hall |- *. intros b Hb. specialize (Hall b Hb). unfold by_Z in Hall.
      destruct (P3 a (list_elem_of_here _ _)) as [_ [ka Ha]]. destruct (P3 b (list_elem_of_further _ _ _ Hb)) as [_ [kb Hkb]].
      assert (Version a <> Version b); [|lia]. apply (Hdist a b ka kb Ha Hkb). intros ->. done.
  - intros r Hr. destruct (P3 r Hr) as [Hw [k Hkr]]. split; [by apply Z.ltb_lt|]. by rewrite (Hk _ _ Hkr).
  - intros k r Hr Hs. destruct (P4 k r Hr) as [?|(Hne & Hle & Hneq)]; [by apply Z.ltb_lt|by left|right].
    split; [done|]. unfold by_Z in Hle.
    destruct (P3 _ (last_elem_of page d Hne)) as [_ [kl Hkl]].
    assert (Version (List.last page d) <> Version r); [|lia]. by eapply Hdist.
Qed.

Lemma manifestAfter_complete (d : DB) (after : string) (limit : Z) (x : FileMeta) :
  well_keyed d -> 0 < limit ->
  let page := manifestAfter d after limit in
  (forall r, r ∈ page -> String.compare after (Name r) = Lt /\ files d !! Name r = Some r) /\
  (forall k r, files d !! k = Some r -> String.compare after k = Lt ->
     r ∈ page \/ page <> [] /\ String.compare (Name (List.last page x)) k = Lt).
Proof.
  intros Hk Hl page.
  destruct (page_spec (by_string Name) (fun r => after <s Name r) (files d) limit x Hk Hl) as (_ & _ & P3 & P4).
  fold (manifestAfter d after limit) in P3, P4. fold page in P3, P4. split.
  - intros r Hr. destruct (P3 r Hr) as [Hw [k Hkr]]. split; [by apply string_ltb_spec|]. by rewrite (Hk _ _ Hkr).
  - intros k r Hr Hlt. rewrite <- (Hk _ _ Hr) in Hlt. apply string_ltb_spec in Hlt.
    destruct (P4 k r Hr Hlt) as [?|(Hne & Hle & Hneq)]; [by left|right]. split; [done|]. unfold by_string in Hle.
    destruct (P3 _ (last_elem_of page x Hne)) as [_ [kl Hkl]].
    assert (String.compare (Name (List.last page x)) (Name r) <> Gt) as Hc.
    { apply String_leb_compare. apply Is_true_true. exact Hle. }
    rewrite (Hk _ _ Hr) in Hc. destruct (String.compare (Name (List.last page x)) k) eqn:E; [|done|done].
    exfalso. apply Hneq. apply String.compare_eq_iff in E. pose proof (Hk _ _ Hkl) as En. simpl in En. rewrite <- E, En in Hr. congruence.
Qed.

(** C17. A commit that fails, wherever a statement, the name check or the clock check fails,
    leaves every table and every cached counter as it was; one that succeeds assigns the
    next version, writes exactly the given state under it with the name reserved, and drops
    the name's replica intent, touching no other row. *)
Theorem commitPut_atomic (now : Z) (meta : FileMeta) (local : bool) (s : Store) :
  store_inv s ->
  match commitPut now meta local s with
  | (Err _, s') => db s' = db s /\ cachedNextVer s' = cachedNextVer s
  | (Ok ver, s') =>
      ver = cachedNextVer s /\ cachedNextVer s' = ver + 1 /\ name_bound (db s') (Name meta) /\
      files (db s') = <[Name meta := committed (putState (db s) meta local) ver now]> (files (db s)) /\
      replica_intents (db s') = delete (Name meta) (replica_intents (db s)) /\
      repair_queue (db s') = repair_queue (db s) /\ cursors (db s') = cursors (db s)
  end.
Proof.
  intros Hinv. destruct (commitPut now meta local s) as [[ver|e] s'] eqn:E.
  - apply commitPut_Ok in E as (-> & Hv & Hb & Hmem & nn & _ & Hd); [|done].
    split; [done|]. split; [by rewrite Hmem|]. split; [done|].
    pose proof (putState_name (db s) meta local) as Hn. rewrite Hd. unfold put_tables. simpl. by rewrite Hn.
  - apply commitPut_Err in E as ->. done.
Qed.

(** A local mutation outranks everything it observed: its committed clock is strictly
    above the clock of the file's own row, of every ancestor and of every descendant, so a
    file-for-directory replacement wins whatever the timestamps are. *)
Theorem PutLocal_dominates (now : Z) (meta : FileMeta) (s s' : Store) (ver : Z) :
  store_inv s -> int64_meta meta -> PutLocal now meta s = (Ok ver, s') ->
  exists row, files (db s') !! Name meta = Some row /\ Hash row = Hash meta /\
    forall other r, files (db s) !! other = Some r -> related (Name meta) other -> CompareClock row r = Gt.
Proof.
  intros Hinv Hm E. unfold PutLocal in E. apply commitPut_Ok in E as (-> & Hv & Hb & _ & nn & _ & Hd); [|done].
  set (row := committed _ _ _) in *. exists row.
  assert (Name row = Name meta) as Hn by apply (putState_name (db s) meta true).
  split.
  { rewrite Hd. change (<[Name row := row]> (files (db s)) !! Name meta = Some row). by rewrite Hn, lookup_insert_eq. }
  split; [apply AdvanceClock_fields|]. intros other r Hr Hrel.
  pose proof (inv_clocks _ Hinv) as Hcl. pose proof (Hcl _ _ Hr) as Hrok.
  pose proof (putState_ok (db s) meta true Hcl Hm Hv) as Hok.
  destruct Hb as (parts & Hp & _). apply nameParts_Ok in Hp as [Hcan _].
  assert (in_namespace (Name meta) r = true) as Hin.
  { apply in_namespace_spec; [done|]. by rewrite (inv_keyed _ Hinv _ _ Hr). }
  rewrite CompareClock_clockZ by done. apply Z.compare_gt_iff.
  change (clockZ r < clockZ (putState (db s) meta true)). unfold putState.
  pose proof (observedClock_spec (db s) (Name meta) Hcl) as Ho.
  destruct (observedClock (db s) (Name meta)) as [p|] eqn:Ep.
  - destruct Ho as [Hpok Hle]. specialize (Hle _ _ Hr Hin).
    destruct Hm as [Hm1 Hm2]. assert (clock_ok meta) as Hmok by done.
    destruct (AdvanceClock_ok meta (Some p) Hmok) as (_ & _ & Hz); [by intros ? [= <-]|]. rewrite Hz. lia.
  - by rewrite (Ho _ _ Hr) in Hin.
Qed.

(** A page of the change stream is strictly increasing in version, holds only rows past
    the cursor, and skips none: every row past the cursor is on the page or past its last
    entry, so moving the cursor to the last entry loses nothing. *)
Theorem GetChanges_complete (s : Store) (since limit : Z) (d : FileMeta) :
  store_inv s -> 0 < limit ->
  let page := changesSince (db s) since limit in
  StronglySorted (fun a b => Version a < Version b) page /\
  (forall r, r ∈ page -> since < Version r /\ files (db s) !! Name r = Some r) /\
  (forall k r, files (db s) !! k = Some r -> since < Version r ->
     r ∈ page \/ page <> [] /\ Version (List.last page d) < Version r).
Proof. apply changesSince_complete. Qed.

(** The seek of a live listing, with the single lower bound it gives SQLite, returns the
    same page as filtering the live rows by the range and by the cursor separately. *)
Theorem ListLiveRange_reference (s : Store) (from until after : string) (limit : Z) :
  liveRange (db s) from until after limit =
  sql_limit limit (merge_sort (by_string Name)
    (select (fun r => negb (Deleted r) && ((from <=s Name r) && (Name r <s until)) && (after <s Name r)) (files (db s)))).
Proof.
  unfold liveRange. f_equal. f_equal. unfold select. apply list_filter_iff. intros r.
  rewrite !andb_true_iff.
  enough ((if from <=s after then after <s Name r else from <=s Name r) = true <->
          (from <=s Name r) = true /\ (after <s Name r) = true) as He by (rewrite He; tauto).
  rewrite String_leb_compare, string_ltb_spec.
  destruct (from <=s after) eqn:E.
  - apply String_leb_compare in E. rewrite string_ltb_spec. split; [|tauto]. intros Hlt. split; [|done].
    rewrite (cmp_le_Lt_trans String.compare from after (Name r)); done.
  - rewrite String_leb_compare. split; [|tauto]. intros Hle. split; [done|].
    assert (String.compare after from = Lt) as Hlt.
    { apply (cmp_Lt_Gt String.compare). apply not_true_iff_false in E. rewrite String_leb_compare in E.
      destruct (String.compare from after); [exfalso; by apply E|exfalso; by apply E|done]. }
    by apply (cmp_Lt_le_trans String.compare after from (Name r)).
Qed.
End StoreProperties.

(** ** Witnesses *)

(** A new database: no rows, version counter at zero. *)
Definition initialStore : Store :=
  set_nextVer 1 (freshStore (upd_meta (fun t => <["last_version" := "0"]> t) emptyDB) []).

Lemma initialStore_inv `{NameFolding} : store_inv initialStore.
Proof.
  split; try done. intros n [r Hr]. done.
Qed.

Definition fileAt (name : string) (mtime : Z) : FileMeta := {|
  Name := name; ModTime := mtime; Size := 3; Hash := "ab"; Deleted := false; Version := 0;
  BigClock := ""; Clock := 0; SupersededBy := ""; ConflictOf := ""; DeletedAt := 0
|}.

Definition storeWithChild : Store := (PutRemote (H := asciiFolding) 7 (fileAt "a/b" 50) initialStore).2.

Lemma storeWithChild_inv : store_inv (H := asciiFolding) storeWithChild.
Proof.
  apply commitPut_inv; [apply initialStore_inv|by repeat split|].
  change (1 < MaxInt64). done.
Qed.

Lemma commitPut_atomic_witness :
  (commitPut (H := asciiFolding) 9 (fileAt "A/c" 60) true storeWithChild).1 = Err (ENameCollision "A" "a") /\
  db (commitPut (H := asciiFolding) 9 (fileAt "A/c" 60) true storeWithChild).2 = db storeWithChild.
Proof.
  pose proof (commitPut_atomic (H := asciiFolding) 9 (fileAt "A/c" 60) true storeWithChild storeWithChild_inv) as Ha.
  assert ((commitPut (H := asciiFolding) 9 (fileAt "A/c" 60) true storeWithChild).1 = Err (ENameCollision "A" "a")) as E
    by (vm_compute; reflexivity).
  split; [exact E|]. destruct (commitPut _ _ _ _) as [[v|e] s']; [discriminate E|]. apply Ha.
Defined.

Lemma PutLocal_dominates_witness :
  exists row, files (db (PutLocal (H := asciiFolding) 9 (fileAt "a" 10) storeWithChild).2) !! "a" = Some row /\
    forall r, files (db storeWithChild) !! "a/b" = Some r -> CompareClock row r = Gt.
Proof.
  destruct (PutLocal_dominates (H := asciiFolding) 9 (fileAt "a" 10) storeWithChild
              (PutLocal (H := asciiFolding) 9 (fileAt "a" 10) storeWithChild).2 2 storeWithChild_inv) as (row & H1 & _ & H3).
  - by repeat split.
  - vm_compute. reflexivity.
  - exists row. split; [exact H1|]. intros r Hr. apply (H3 "a/b" r Hr). right. right. reflexivity.
Defined.

Lemma GetChanges_complete_witness :
  changesSince (db storeWithChild) 0 10 <> [] /\
  StronglySorted (fun a b => Version a < Version b) (changesSince (db storeWithChild) 0 10).
Proof.
  split; [vm_compute; discriminate|].
  exact (proj1 (GetChanges_complete (H := asciiFolding) storeWithChild 0 10 (zeroMeta "") storeWithChild_inv eq_refl)).
Defined.
