(* ===== verification/RepairQueue.v ===== *)
(** * The durable repair queue

    internal/store/store.go: the rows that record changes still to be applied, one per
    (peer, name), with the per-peer cap, the revision that tells a worker whether its row was
    replaced meanwhile, the two lanes, and the cached summaries. *)

From S2P Require Import Prelude GoStrings FileMeta Database Names Store.

Record RepairItem := mkRepairItem {
  ri_PeerID : string;
  ri_Name : string;
  ri_Version : Z;
  ri_Attempts : Z;
  ri_FirstSeen : Z;
  ri_LastError : string;
  ri_Revision : Z;
  ri_Meta : option FileMeta
}.

(** [func IsLargeRepair(meta *FileMeta) bool] *)
Definition IsLargeRepair (meta : option FileMeta) : bool :=
  match meta with
  | None => false
  | Some m => negb (Deleted m) && (LargeRepairBytes <=? Size m)
  end.

(** ** In-memory queue bookkeeping *)

(** [func (s *Store) SetRepairLimit(limit int64)] *)
Definition SetRepairLimit (limit : Z) : St unit := modifyS (set_limit (Z.max 0 limit)).

Definition queuedForS (s : Store) (peer : string) : Z := default 0 (queueSize s !! peer).

(** [func (s *Store) queuedFor(peerID string) int64] *)
Definition queuedFor (peer : string) : St Z := let! s := getS in retS (queuedForS s peer).

(** [func (s *Store) addQueueSize(peerID string, delta int64)] *)
Definition addQueueSize (peer : string) (delta : Z) : St unit :=
  modifyS (fun s => set_stats (statsCache s) false (wrapu64 (statsGen s + 1))
    (set_queueSize (<[peer := Z.max 0 (queuedForS s peer + delta)]> (queueSize s)) s)).

(** [func (s *Store) invalidateQueueStats()] *)
Definition invalidateQueueStats : St unit :=
  modifyS (fun s => set_stats (statsCache s) false (wrapu64 (statsGen s + 1)) s).

Definition PendingRepairCount (peer : string) : St Z := queuedFor peer.

(** ** Enqueueing *)

Record queuedChange := mkQueuedChange { qc_name : string; qc_version : Z; qc_meta : option FileMeta }.

(** Counters of the batch loop: last revision used, new rows, rows written. *)
Record batchState := mkBatch { bs_revision : Z; bs_fresh : Z; bs_written : Z }.

(** The upsert: a new row is due at once; an existing one keeps its schedule. *)
Definition upsertRow (old : option repair_row) (now : Z) (reason : string) (version revision : Z)
    (encoded_ : encoded) (large : bool) : repair_row :=
  match old with
  | None => mkRepairRow version 0 now now reason encoded_ revision large
  | Some r => mkRepairRow (Z.max (rr_version r) version) (rr_attempts r) (rr_next_attempt r)
                (rr_first_seen r) reason encoded_ revision large
  end.

(** The loop of [enqueue] over one batch; [queued] is the peer's queue length before it. *)
Fixpoint enqueue_loop (now : Z) (peer reason : string) (limit queued : Z) (bs : batchState)
    (batch : list queuedChange) : St (batchState * option err) :=
  match batch with
  | [] => retS (bs, None)
  | change :: rest =>
      let! row := query (fun d => repair_queue d !! (peer, qc_name change)) in
      let isNew := match row with None => true | Some _ => false end in
      if isNew && (0 <? limit) && (limit <=? queued + bs_fresh bs)
      then retS (bs, Some (ERepairQueueFull peer (queued + bs_fresh bs)))
      else
        let encoded0 := match row with None => EncEmpty | Some r => rr_metadata r end in
        let kept := json_Unmarshal encoded0 in
        let same := match qc_meta change, kept with
                    | Some m, Some k => match CompareState (Some m) (Some k) with Gt => false | _ => true end
                    | _, _ => false
                    end in
        if same then enqueue_loop now peer reason limit queued bs rest
        else
          let encoded1 := match qc_meta change with Some m => json_Marshal m | None => encoded0 end in
          let kept1 := match qc_meta change with Some m => Some m | None => kept end in
          let revision := wrap64 (bs_revision bs + 1) in
          do! exec (upd_queue (fun t => <[(peer, qc_name change) :=
                 upsertRow (t !! (peer, qc_name change)) now reason (qc_version change) revision encoded1 (IsLargeRepair kept1)]> t)) then
          enqueue_loop now peer reason limit queued
            (mkBatch revision (if isNew then bs_fresh bs + 1 else bs_fresh bs) (bs_written bs + 1)) rest
  end.

Definition readRevision : St Z :=
  let! v := query (fun d => node_meta d !! "repair_revision") in
  match v with None => failS EDb | Some t => retS (sql_cast t) end.

(** The transaction of [enqueue]: it commits only if it wrote a row. *)
Definition enqueue_tx (now : Z) (peer reason : string) (batch : list queuedChange) : St (bool * (batchState * option err)) :=
  do! query (fun _ => tt) then (* prepare the lookup *)
  do! query (fun _ => tt) then (* prepare the upsert *)
  let! revision := readRevision in
  let! queued := queuedFor peer in
  let! s := getS in
  let! out := enqueue_loop now peer reason (repairLimit s) queued (mkBatch revision 0 0) batch in
  let '(bs, full) := out in
  if bs_written bs =? 0 then retS (false, (bs, full))
  else
    do! exec (upd_meta (fun t => match t !! "repair_revision" with
                                 | Some _ => <["repair_revision" := FormatInt (bs_revision bs)]> t
                                 | None => t
                                 end)) then
    retS (true, (bs, full)).

(** [func (s *Store) enqueue(peerID, reason string, batch []queuedChange) (int, error)]:
    the count comes with the error when the cap stopped the batch part-way. *)
Definition enqueue (now : Z) (peer reason : string) (batch : list queuedChange) : St (Z * option err) :=
  match batch with
  | [] => retS (0, None)
  | _ =>
      let! out := transact (enqueue_tx now peer reason batch) in
      let '(bs, full) := out in
      if bs_written bs =? 0 then retS (0, full)
      else
        do! modifyS (fun s => set_enqueued (wrap64 (enqueued s + bs_written bs)) s) then
        do! (if 0 <? bs_fresh bs then addQueueSize peer (bs_fresh bs) else invalidateQueueStats) then
        retS (bs_written bs, full)
  end.

Definition changeOf (m : FileMeta) : queuedChange := mkQueuedChange (Name m) (Version m) (Some m).

(** [EnqueueChanges], [EnqueueChange], [EnqueueRepair] *)
Definition EnqueueChanges (now : Z) (peer : string) (metas : list FileMeta) (reason : string) : St (Z * option err) :=
  enqueue now peer reason (map changeOf metas).
Definition EnqueueChange (now : Z) (peer : string) (meta : FileMeta) (reason : string) : St (Z * option err) :=
  enqueue now peer reason [changeOf meta].
Definition EnqueueRepair (now : Z) (peer name : string) (version : Z) (reason : string) : St (Z * option err) :=
  enqueue now peer reason [mkQueuedChange name version None].

(** ** Reading due work *)

Definition by_due (x y : (string * string) * repair_row) : Prop := rr_next_attempt x.2 <= rr_next_attempt y.2.
#[export] Instance by_due_dec : RelDecision by_due.
Proof. intros x y. unfold by_due. apply _. Defined.

Definition itemOf (kv : (string * string) * repair_row) : result err RepairItem :=
  let '((peer, name), r) := kv in
  let item m := mkRepairItem peer name (rr_version r) (rr_attempts r) (rr_first_seen r) (rr_last_error r) (rr_revision r) m in
  match rr_metadata r with
  | EncEmpty => Ok (item None)
  | EncMeta m => Ok (item (Some m))
  | EncInvalid => Err EDecode
  end.

Fixpoint scanItems (l : list ((string * string) * repair_row)) : result err (list RepairItem) :=
  match l with
  | [] => Ok []
  | kv :: rest =>
      match itemOf kv with
      | Err e => Err e
      | Ok it => match scanItems rest with Err e => Err e | Ok its => Ok (it :: its) end
      end
  end.

(** [func (s *Store) dueRepairs(query string, args ...any) ([]RepairItem, error)] *)
Definition dueRows (where_ : repair_row -> bool) (d : DB) (now : Z) (peer : string) (limit : Z) :=
  sql_limit limit (merge_sort by_due
    (base.filter (fun kv : (string * string) * repair_row =>
       kv.1.1 = peer /\ where_ kv.2 = true /\ rr_next_attempt kv.2 <= now) (map_to_list (repair_queue d)))).
Definition DueRepairs (now : Z) (peer : string) (limit : Z) : St (list RepairItem) :=
  let! rows := query (fun d => dueRows (fun _ => true) d now peer limit) in
  liftS (scanItems rows).
Definition DueRepairsInLane (now : Z) (peer : string) (large : bool) (limit : Z) : St (list RepairItem) :=
  let! rows := query (fun d => dueRows (fun r => Bool.eqb (rr_large r) large) d now peer limit) in
  liftS (scanItems rows).

(** [func (s *Store) QueuedNames(names []string) (map[string]bool, error)]: chunks of 500. *)
Fixpoint QueuedNames_loop (fuel : nat) (names : list string) (acc : gset string) : St (gset string) :=
  match fuel, names with
  | O, _ | _, [] => retS acc
  | S fuel', _ =>
      let chunk := take 500 names in
      let! found := query (fun d => list_to_set
        (base.filter (fun n => n ∈ chunk) (map (fun kv => kv.1.2) (map_to_list (repair_queue d)))) : gset string) in
      QueuedNames_loop fuel' (drop 500 names) (acc ∪ found)
  end.
Definition QueuedNames (names : list string) : St (gset string) := QueuedNames_loop (length names) names ∅.

(** ** Resolving and deferring *)

Definition deleteRow (p : repair_row -> bool) (key : string * string) (d : DB) : Z * DB :=
  match repair_queue d !! key with
  | Some r => if p r then (1, upd_queue (fun t => delete key t) d) else (0, d)
  | None => (0, d)
  end.

(** [func (s *Store) trackDeletion(peerID string, result sql.Result)] after the statement:
    a failed delete removed nothing. *)
Definition deleteTracked (p : repair_row -> bool) (peer name : string) : St unit :=
  let! r := tryS (statement (deleteRow p (peer, name))) in
  do! addQueueSize peer (- match r with Ok n => n | Err _ => 0 end) then
  liftS (match r with Ok _ => Ok tt | Err e => Err e end).

Definition ResolveRepair (peer name : string) : St unit := deleteTracked (fun _ => true) peer name.
Definition ResolveRepairItem (item : RepairItem) : St unit :=
  deleteTracked (fun r => rr_revision r =? ri_Revision item) (ri_PeerID item) (ri_Name item).

Definition deferRow (now retryAfter : Z) (cause : string) (r : repair_row) : repair_row :=
  mkRepairRow (rr_version r) (rr_attempts r + 1) (now + retryAfter) (rr_first_seen r) cause
    (rr_metadata r) (rr_revision r) (rr_large r).

Definition updateRow (p : repair_row -> bool) (f : repair_row -> repair_row) (key : string * string) : St unit :=
  let! r := tryS (exec (upd_queue (fun t => match t !! key with
                                            | Some row => if p row then <[key := f row]> t else t
                                            | None => t
                                            end))) in
  do! invalidateQueueStats then liftS r.

Definition DeferRepair (now : Z) (peer name : string) (retryAfter : Z) (cause : string) : St unit :=
  updateRow (fun _ => true) (deferRow now retryAfter cause) (peer, name).
Definition DeferRepairItem (now : Z) (item : RepairItem) (retryAfter : Z) (cause : string) : St unit :=
  updateRow (fun r => rr_revision r =? ri_Revision item) (deferRow now retryAfter cause) (ri_PeerID item, ri_Name item).

(** ** Summaries *)

(** [func (s *Store) queryRepairStats() (RepairStats, error)]: [now2] is the second clock
    reading, taken for the age. *)
Definition computeStats (d : DB) (now now2 : Z) : RepairStats :=
  let rows := (map_to_list (repair_queue d)).*2 in
  mkRepairStats (Z.of_nat (length rows))
    (Z.of_nat (length (base.filter (fun r => rr_next_attempt r <= now) rows)))
    (match sql_min (map rr_first_seen rows) with
     | Some oldest => Z.quot (wrap64 (now2 - oldest)) 1000000
     | None => 0
     end).
Definition queryRepairStats (now now2 : Z) : St RepairStats := query (fun d => computeStats d now now2).

(** [func (s *Store) RepairQueueStats() (RepairStats, error)], in the two halves between which
    other goroutines may run: the first returns the answer and, when it was computed, the
    generation it belongs to; the second stores it. *)
Definition statsRead (now now2 : Z) : St (RepairStats * option Z) :=
  let! s := getS in
  if statsValid s then retS (statsCache s, None)
  else let! st := queryRepairStats now now2 in retS (st, Some (statsGen s)).
Definition statsWrite (st : RepairStats) (generation : Z) : St unit :=
  modifyS (fun s => if statsGen s =? generation then set_stats st true (statsGen s) s else s).
Definition RepairQueueStats (now now2 : Z) : St RepairStats :=
  let! r := statsRead now now2 in
  let '(st, generation) := r in
  do! (match generation with Some g => statsWrite st g | None => retS tt end) then
  retS st.

(** ** What a batch does to the queue *)

Definition peer_map (t : gmap (string * string) repair_row) (peer : string) : gmap (string * string) repair_row :=
  base.filter (fun kv : (string * string) * repair_row => kv.1.1 = peer) t.
Definition peer_rows (d : DB) (peer : string) : Z := Z.of_nat (size (peer_map (repair_queue d) peer)).

(** The state a row carries, if its metadata decodes. *)
Definition row_state (row : repair_row) : option FileMeta := json_Unmarshal (rr_metadata row).

Lemma peer_rows_insert t peer name row p :
  Z.of_nat (size (peer_map (<[(peer, name) := row]> t) p)) =
  Z.of_nat (size (peer_map t p)) +
  (if decide (p = peer) then (match t !! (peer, name) with None => 1 | Some _ => 0 end) else 0).
Proof.
  unfold peer_map. case_decide as E.
  - subst p. rewrite map_filter_insert_True by done. rewrite map_size_insert, map_lookup_filter.
    destruct (t !! (peer, name)) as [r|]; simpl; [|lia]. rewrite option_guard_True by done. simpl. lia.
  - rewrite map_filter_insert_False by (simpl; congruence).
    rewrite map_filter_delete_not by (simpl; congruence). lia.
Qed.

Lemma peer_rows_delete t peer name p :
  Z.of_nat (size (peer_map (delete (peer, name) t) p)) =
  Z.of_nat (size (peer_map t p)) -
  (if decide (p = peer) then (match t !! (peer, name) with None => 0 | Some _ => 1 end) else 0).
Proof.
  unfold peer_map. rewrite map_filter_delete. case_decide as E.
  - subst p. rewrite map_size_delete, map_lookup_filter.
    destruct (t !! (peer, name)) as [r|] eqn:Et; simpl; [|lia]. rewrite option_guard_True by done. simpl.
    assert (size (peer_map t peer) <> 0)%nat as Hne; [|unfold peer_map in Hne; lia].
    apply (map_size_ne_0_lookup_2 _ (peer, name)). unfold peer_map. rewrite map_lookup_filter, Et. simpl.
    by rewrite option_guard_True.
  - rewrite delete_id; [lia|]. rewrite map_lookup_filter. destruct (t !! (peer, name)); simpl; [|done].
    by rewrite option_guard_False by (simpl; congruence).
Qed.

(** A row sits in the lane its state belongs to. *)
Definition lane_ok (_ : string * string) (row : repair_row) : Prop := rr_large row = IsLargeRepair (row_state row).

Record grows (peer : string) (bs : batchState) (d : DB) (bs' : batchState) (d' : DB) : Prop := {
  g_only : d' = upd_queue (fun _ => repair_queue d') d;
  g_rows : forall p, peer_rows d' p = peer_rows d p + (if decide (p = peer) then bs_fresh bs' - bs_fresh bs else 0);
  g_keep : forall k row m, repair_queue d !! k = Some row -> row_state row = Some m ->
             exists row' m', repair_queue d' !! k = Some row' /\ row_state row' = Some m' /\
                             CompareState (Some m) (Some m') <> Gt;
  g_count : 0 <= bs_fresh bs' - bs_fresh bs <= bs_written bs' - bs_written bs;
  g_same : bs_written bs = bs_written bs' -> d' = d;
  g_rev : bs_revision bs' = bs_revision bs + (bs_written bs' - bs_written bs);
  g_new : forall k row', repair_queue d' !! k = Some row' ->
            repair_queue d !! k = Some row' \/
            k.1 = peer /\ bs_revision bs < rr_revision row' <= bs_revision bs';
  g_stay : forall k row, repair_queue d !! k = Some row -> is_Some (repair_queue d' !! k);
  g_lane : map_Forall lane_ok (repair_queue d) -> map_Forall lane_ok (repair_queue d')
}.

Lemma grows_refl peer bs d : grows peer bs d bs d.
Proof.
  split; try done; try lia.
  - by destruct d.
  - intros p. case_decide; lia.
  - intros k row m H1 H2. exists row, m. by rewrite (cmp_refl CompareState).
  - intros k row' Hr. by left.
Qed.

Lemma grows_trans peer b1 d1 b2 d2 b3 d3 :
  grows peer b1 d1 b2 d2 -> grows peer b2 d2 b3 d3 -> grows peer b1 d1 b3 d3.
Proof.
  intros G1 G2. pose proof (g_count _ _ _ _ _ G1) as C1. pose proof (g_count _ _ _ _ _ G2) as C2.
  pose proof (g_rev _ _ _ _ _ G1) as R1. pose proof (g_rev _ _ _ _ _ G2) as R2. split; try lia.
  - rewrite (g_only _ _ _ _ _ G2), (g_only _ _ _ _ _ G1). done.
  - intros p. rewrite (g_rows _ _ _ _ _ G2), (g_rows _ _ _ _ _ G1). case_decide; lia.
  - intros k row m H1 H2. destruct (g_keep _ _ _ _ _ G1 k row m H1 H2) as (r2 & m2 & H3 & H4 & H5).
    destruct (g_keep _ _ _ _ _ G2 k r2 m2 H3 H4) as (r3 & m3 & H6 & H7 & H8).
    exists r3, m3. split; [done|]. split; [done|]. by apply (cmp_le_trans (c:=CompareState) _ (Some m2)).
  - intros E. rewrite (g_same _ _ _ _ _ G2), (g_same _ _ _ _ _ G1); [done|lia|lia].
  - intros k row' Hr. destruct (g_new _ _ _ _ _ G2 k row' Hr) as [H2|[? ?]]; [|right; lia || (split; [done|lia])].
    destruct (g_new _ _ _ _ _ G1 k row' H2) as [?|[? ?]]; [by left|right; split; [done|lia]].
  - intros k row Hr. destruct (g_stay _ _ _ _ _ G1 k row Hr) as [r2 H2]. by eapply (g_stay _ _ _ _ _ G2).
  - intros Hl. by apply (g_lane _ _ _ _ _ G2), (g_lane _ _ _ _ _ G1).
Qed.

(** Writing one row. *)
Lemma grows_write peer name bs d row' :
  let old := repair_queue d !! (peer, name) in
  rr_revision row' = bs_revision bs + 1 -> lane_ok (peer, name) row' ->
  (forall row m, old = Some row -> row_state row = Some m ->
     exists m', row_state row' = Some m' /\ CompareState (Some m) (Some m') <> Gt) ->
  grows peer bs d
    (mkBatch (bs_revision bs + 1) (match old with None => bs_fresh bs + 1 | Some _ => bs_fresh bs end) (bs_written bs + 1))
    (upd_queue (fun t => <[(peer, name) := row']> t) d).
Proof.
  intros old Hrev Hlane Hkeep. split; simpl; try done.
  - intros p. unfold peer_rows. simpl. rewrite peer_rows_insert. fold old. repeat case_decide; destruct old; lia.
  - intros k row m H1 H2. destruct (decide (k = (peer, name))) as [->|Hne].
    + destruct (Hkeep row m H1 H2) as (m' & H3 & H4). exists row', m'. by rewrite lookup_insert_eq.
    + exists row, m. rewrite lookup_insert_ne by done. split; [done|]. split; [done|]. by rewrite (cmp_refl compareMeta).
  - destruct old; lia.
  - lia.
  - lia.
  - intros k r Hr. apply lookup_insert_Some in Hr as [[<- <-]|[_ Hr]]; [right; simpl; split; [done|lia]|by left].
  - intros k row Hr. destruct (decide (k = (peer, name))) as [->|Hne]; [rewrite lookup_insert_eq; eauto|].
    rewrite lookup_insert_ne by done. eauto.
  - intros Hl. by apply map_Forall_insert_2.
Qed.

(** A change is recorded when its row exists and carries its state or a greater one. *)
Definition recorded (d : DB) (peer : string) (c : queuedChange) : Prop :=
  exists row, repair_queue d !! (peer, qc_name c) = Some row /\
    forall m, qc_meta c = Some m -> exists m', row_state row = Some m' /\ CompareState (Some m) (Some m') <> Gt.

Lemma recorded_grows peer bs d bs' d' c : grows peer bs d bs' d' -> recorded d peer c -> recorded d' peer c.
Proof.
  intros G (row & Hr & Hm). destruct (g_stay _ _ _ _ _ G _ _ Hr) as [row' Hr'].
  exists row'. split; [done|]. intros m Hc. destruct (Hm m Hc) as (m1 & H1 & H2).
  destruct (g_keep _ _ _ _ _ G _ _ _ Hr H1) as (r2 & m2 & H3 & H4 & H5). simplify_eq.
  exists m2. split; [done|]. by apply (cmp_le_trans (c:=CompareState) _ (Some m1)).
Qed.

Lemma json_same_rank m : exists m', json_Unmarshal (json_Marshal m) = Some m' /\ CompareState (Some m) (Some m') = Eq.
Proof.
  eexists. split; [reflexivity|]. change (compareMeta m m = Eq). apply (cmp_refl compareMeta).
Qed.

Lemma json_same_rank_r m x : CompareState x (json_Unmarshal (json_Marshal m)) = CompareState x (Some m).
Proof.
  destruct (json_same_rank m) as (m' & -> & E). symmetry. by apply (cmp_Eq_r CompareState).
Qed.

Definition loop_post (peer : string) (limit queued : Z) (bs : batchState) (batch : list queuedChange)
    (s : Store) (bs' : batchState) (full : option err) (s' : Store) : Prop :=
  memory_kept s s' /\ grows peer bs (db s) bs' (db s') /\
  (0 < limit -> bs_fresh bs' = bs_fresh bs \/ queued + bs_fresh bs' <= limit) /\
  (full = None -> forall c, c ∈ batch -> recorded (db s') peer c) /\
  (full <> None -> 0 < limit /\ limit <= queued + bs_fresh bs' /\ full = Some (ERepairQueueFull peer (queued + bs_fresh bs'))).

(** The row of an existing file keeps its state unless the change outranks it. *)
Definition outranked (c : queuedChange) (encoded0 : encoded) : bool :=
  match qc_meta c, json_Unmarshal encoded0 with
  | Some m, Some k => match CompareState (Some m) (Some k) with Gt => false | _ => true end
  | _, _ => false
  end.

Definition row_encoded (old : option repair_row) : encoded :=
  match old with None => EncEmpty | Some r => rr_metadata r end.

(** Skipping an outranked change: the row already holds something at least as great. *)
Lemma recorded_skip d peer c :
  outranked c (row_encoded (repair_queue d !! (peer, qc_name c))) = true -> recorded d peer c.
Proof.
  unfold outranked, recorded. destruct (qc_meta c) as [m|]; [|done].
  destruct (repair_queue d !! (peer, qc_name c)) as [r|]; simpl; [|done]. intros Hs.
  exists r. split; [done|]. intros m0 [= <-]. unfold row_state.
  destruct (json_Unmarshal (rr_metadata r)) as [k|]; [|done]. exists k. split; [done|].
  simpl. intros Hg. by rewrite Hg in Hs.
Qed.

Lemma grows_upsert now peer reason bs d c :
  let old := repair_queue d !! (peer, qc_name c) in
  let enc := match qc_meta c with Some m => json_Marshal m | None => row_encoded old end in
  let large := IsLargeRepair (match qc_meta c with Some m => Some m | None => json_Unmarshal (row_encoded old) end) in
  let row' := upsertRow old now reason (qc_version c) (bs_revision bs + 1) enc large in
  let d' := upd_queue (fun t => <[(peer, qc_name c) := row']> t) d in
  outranked c (row_encoded old) = false ->
  grows peer bs d
    (mkBatch (bs_revision bs + 1) (match old with None => bs_fresh bs + 1 | Some _ => bs_fresh bs end) (bs_written bs + 1)) d' /\
  recorded d' peer c.
Proof.
  intros old enc large row' d' Hs.
  assert (row_state row' = json_Unmarshal enc) as Hst by by (unfold row', upsertRow; destruct old).
  split.
  - apply grows_write; [by unfold row', upsertRow; destruct old| |].
    { unfold lane_ok. rewrite Hst. unfold row', upsertRow, enc, large. destruct old, (qc_meta c); done. }
    fold old. intros row m Ho Hm.
    rewrite Hst. unfold row_state in Hm. rewrite Ho in Hs. unfold enc, row_encoded. rewrite Ho. unfold outranked in Hs.
    destruct (qc_meta c) as [mc|].
    + simpl in Hs. rewrite Hm in Hs. eexists. split; [reflexivity|]. change (compareMeta m mc <> Gt).
      simpl in Hs. rewrite (cmp_opp (c:=compareMeta) mc m). by destruct (compareMeta mc m).
    + exists m. split; [done|]. by rewrite (cmp_refl CompareState).
  - exists row'. unfold d'. simpl. rewrite lookup_insert_eq. split; [done|]. intros m Hm. rewrite Hst.
    unfold enc. rewrite Hm. destruct (json_same_rank m) as (m' & H1 & H2). exists m'. split; [done|]. change (CompareState (Some m) (Some m') <> Gt). by rewrite H2.
Qed.

Lemma enqueue_loop_Ok now peer reason limit queued bs batch s bs' full s' :
  0 <= bs_revision bs -> bs_revision bs + Z.of_nat (length batch) <= MaxInt64 ->
  enqueue_loop now peer reason limit queued bs batch s = (Ok (bs', full), s') ->
  loop_post peer limit queued bs batch s bs' full s'.
Proof.
  revert bs s. induction batch as [|c batch IH]; intros bs s Hr0 Hr1 E; cbn [enqueue_loop length] in E, Hr1.
  { unfold retS in E. simplify_eq. split; [done|]. split; [apply grows_refl|]. split; [by left|]. split; [set_solver|done]. }
  apply bindS_Ok in E as (row & s1 & E1 & E). apply query_Ok in E1 as [-> Hu].
  apply untouched_db in Hu as Hdb. apply untouched_memory in Hu as Hmem. cbv zeta in E.
  set (old := repair_queue (db s) !! (peer, qc_name c)) in *.
  destruct (match old with None => true | Some _ => false end && (0 <? limit) && (limit <=? queued + bs_fresh bs)) eqn:Efull.
  { unfold retS in E. simplify_eq. apply andb_true_iff in Efull as [[_ H1]%andb_true_iff H2].
    apply Z.ltb_lt in H1. apply Z.leb_le in H2. unfold loop_post. rewrite Hdb.
    split; [done|]. split; [apply grows_refl|]. split; [by left|]. split; [done|]. done. }
  change (match old with None => EncEmpty | Some r => rr_metadata r end) with (row_encoded old) in E.
  fold (outranked c (row_encoded old)) in E.
  destruct (outranked c (row_encoded old)) eqn:Esame.
  - apply recorded_skip in Esame. apply IH in E as (P1 & P2 & P3 & P4 & P5); [|lia|lia]. rewrite Hdb in *. unfold loop_post.
    split; [by etrans|]. split; [done|]. split; [done|]. split; [|done]. intros Hn x [->|Hx]%elem_of_cons; [|by apply P4].
    by eapply recorded_grows.
  - apply bindS_Ok in E as ([] & s2 & E2 & E). apply exec_Ok in E2 as [Hdb2 Hmem2]. rewrite Hdb in Hdb2.
    rewrite (wrap64_id (bs_revision bs + 1)) in E, Hdb2 by (unfold in_int64, MinInt64; lia).
    destruct (grows_upsert now peer reason bs (db s) c Esame) as [G Hc].
    fold old in G, Hc. set (row' := upsertRow old _ _ _ _ _ _) in G, Hc.
    assert (db s2 = upd_queue (fun t => <[(peer, qc_name c) := row']> t) (db s)) as Hd2 by done.
    rewrite <- Hd2 in G, Hc.
    apply IH in E as (P1 & P2 & P3 & P4 & P5); [|simpl; lia|simpl; lia]. unfold loop_post.
    split; [by repeat (etrans; [eassumption|])|]. split; [eapply grows_trans; [|exact P2]; by destruct old|]. split; [|split; [|done]].
    + intros Hl. destruct (P3 Hl) as [E3|E3]; [|by right]. rewrite E3. simpl.
      destruct old; [by left|]. right. simpl in Efull. apply andb_false_iff in Efull as [Ef|Ef]; [apply Z.ltb_ge in Ef; lia|].
      apply Z.leb_gt in Ef. lia.
    + intros Hn x [->|Hx]%elem_of_cons; [|by apply P4]. by eapply recorded_grows.
Qed.

Lemma keeps_enqueue_loop now peer reason limit queued bs batch :
  keeps memory_kept (enqueue_loop now peer reason limit queued bs batch).
Proof.
  revert bs. induction batch as [|c batch IH]; intros bs; cbn [enqueue_loop]; [by apply keeps_ret, _|].
  apply keeps_bind; [apply _|auto with birak|]. intros row. cbv zeta.
  destruct (_ && _); [by apply keeps_ret, _|]. destruct (match qc_meta c with Some _ => _ | None => _ end); [apply IH|].
  apply keeps_bind; [apply _|auto with birak|]. intros _. apply IH.
Qed.

Lemma keeps_enqueue_tx now peer reason batch : keeps memory_kept (enqueue_tx now peer reason batch).
Proof.
  unfold enqueue_tx, readRevision, queuedFor.
  repeat (apply keeps_bind; [apply _| |intros ?]);
    auto using keeps_enqueue_loop, keeps_get, memory_kept_preorder with birak.
Qed.

(** ** Invariant *)

(** The counter of the revisions handed out so far. *)
Definition revision_of (d : DB) : Z := default 0 (sql_cast <$> node_meta d !! "repair_revision").

Record queue_inv (s : Store) : Prop := {
  q_sizes : forall peer, queuedForS s peer = peer_rows (db s) peer;
  q_total : statsValid s = true -> st_Total (statsCache s) = Z.of_nat (size (repair_queue (db s)));
  q_counter : is_Some (node_meta (db s) !! "repair_revision");
  q_revisions : 0 <= revision_of (db s) /\
    map_Forall (fun _ row => rr_revision row <= revision_of (db s)) (repair_queue (db s));
  q_lanes : map_Forall lane_ok (repair_queue (db s))
}.

(** What a batch did, seen from outside: [Ok (n, full)]. *)
Record enqueue_post (peer : string) (batch : list queuedChange) (s : Store) (written : Z) (full : option err) (s' : Store) : Prop := {
  ep_inv : queue_inv s';
  ep_other : forall p, p <> peer -> peer_rows (db s') p = peer_rows (db s) p;
  ep_cap : 0 < repairLimit s -> peer_rows (db s') peer <= Z.max (repairLimit s) (peer_rows (db s) peer);
  ep_keep : forall k row m, repair_queue (db s) !! k = Some row -> row_state row = Some m ->
    exists row' m', repair_queue (db s') !! k = Some row' /\ row_state row' = Some m' /\
      CompareState (Some m) (Some m') <> Gt;
  ep_all : full = None -> forall c, c ∈ batch -> recorded (db s') peer c;
  ep_full : full <> None -> 0 < repairLimit s <= peer_rows (db s') peer /\
    full = Some (ERepairQueueFull peer (peer_rows (db s') peer));
  ep_rev : revision_of (db s) <= revision_of (db s') <= revision_of (db s) + Z.of_nat (length batch) /\
    forall k row', repair_queue (db s') !! k = Some row' ->
      repair_queue (db s) !! k = Some row' \/ revision_of (db s) < rr_revision row';
  ep_files : files (db s') = files (db s) /\ cursors (db s') = cursors (db s) /\ repairLimit s' = repairLimit s;
  ep_written : 0 <= written
}.

Definition write_revision (r : Z) (d : DB) : DB :=
  upd_meta (fun t => match t !! "repair_revision" with
                     | Some _ => <["repair_revision" := FormatInt r]> t
                     | None => t
                     end) d.

Lemma loop_written_bound now peer reason limit queued bs batch s bs' full s' :
  enqueue_loop now peer reason limit queued bs batch s = (Ok (bs', full), s') ->
  bs_written bs' <= bs_written bs + Z.of_nat (length batch).
Proof.
  revert bs s. induction batch as [|c batch IH]; intros bs s E; cbn [enqueue_loop length] in E |- *.
  { injection E as <- <- <-. lia. }
  apply bindS_Ok in E as (row & s1 & _ & E). cbv zeta in E.
  destruct (_ && _) in E; [injection E as <- <- <-; lia|].
  destruct (match qc_meta c with Some _ => _ | None => _ end) in E.
  - apply IH in E. lia.
  - apply bindS_Ok in E as ([] & s2 & _ & E). apply IH in E. simpl in E. lia.
Qed.

Lemma enqueue_tx_Ok now peer reason batch s b bs full s' :
  queue_inv s -> revision_of (db s) + Z.of_nat (length batch) <= MaxInt64 ->
  enqueue_tx now peer reason batch s = (Ok (b, (bs, full)), s') ->
  exists s1, loop_post peer (repairLimit s) (peer_rows (db s) peer) (mkBatch (revision_of (db s)) 0 0) batch s bs full s1 /\
    b = negb (bs_written bs =? 0) /\ bs_written bs <= Z.of_nat (length batch) /\ db s' = (if b then write_revision (bs_revision bs) (db s1) else db s1).
Proof.
  intros Hinv Hroom E. unfold enqueue_tx in E.
  apply bindS_Ok in E as ([] & s1 & E1 & E). apply query_Ok in E1 as [_ U1].
  apply bindS_Ok in E as ([] & s2 & E2 & E). apply query_Ok in E2 as [_ U2].
  apply bindS_Ok in E as (r & s3 & E3 & E). unfold readRevision in E3.
  apply bindS_Ok in E3 as (v & s4 & E4 & E3). apply query_Ok in E4 as [-> U3].
  assert (untouched s s2) as U by by etrans. rewrite (untouched_db _ _ U) in E3.
  destruct (q_counter _ Hinv) as [t Ht]. rewrite Ht in E3. injection E3 as <- <-.
  assert (untouched s s4) as U4 by by etrans. clear U1 U2 U3 U.
  apply bindS_Ok in E as (q & s5 & E5 & E). injection E5 as <- <-.
  apply bindS_Ok in E as (s5' & s5'' & E5 & E). injection E5 as <- <-.
  apply bindS_Ok in E as ([bs1 f1] & s6 & E6 & E).
  assert (revision_of (db s) = sql_cast t) as Hrev by (unfold revision_of; by rewrite Ht).
  assert (queuedForS s4 peer = peer_rows (db s) peer) as Hq by (rewrite U4; apply (q_sizes _ Hinv)).
  assert (repairLimit s4 = repairLimit s) as Hlim by by rewrite U4.
  rewrite Hq, Hlim, <- Hrev in E6. apply loop_written_bound in E6 as Hwb. simpl in Hwb.
  apply enqueue_loop_Ok in E6 as (P1 & P2 & P3); [|apply (q_revisions _ Hinv)|done].
  rewrite (untouched_db _ _ U4) in P2. apply untouched_memory in U4.
  assert (memory_kept s s6) as M by by etrans. exists s6. destruct (bs_written bs1 =? 0) eqn:Ew.
  - injection E as <- <- <- <-. by rewrite Ew.
  - apply bindS_Ok in E as ([] & s7 & E7 & E). apply exec_Ok in E7 as [Hd _]. injection E as <- <- <- <-. by rewrite Ew.
Qed.

Lemma revision_of_write r d :
  is_Some (node_meta d !! "repair_revision") -> 0 <= r <= MaxInt64 -> revision_of (write_revision r d) = r.
Proof.
  intros [t Ht] Hr. unfold revision_of, write_revision. simpl. rewrite Ht, lookup_insert_eq. simpl.
  by apply sql_cast_FormatInt.
Qed.

(** The committed tables after a batch that wrote rows keep the queue's invariants. *)
Lemma grows_revision_bound peer bs d bs' d' :
  grows peer bs d bs' d' -> map_Forall (fun _ row => rr_revision row <= bs_revision bs) (repair_queue d) ->
  map_Forall (fun _ row => rr_revision row <= bs_revision bs') (repair_queue d').
Proof.
  intros G Hb k row Hr. pose proof (g_rev _ _ _ _ _ G). pose proof (g_count _ _ _ _ _ G).
  destruct (g_new _ _ _ _ _ G k row Hr) as [Ho|[_ ?]]; [|lia]. specialize (Hb k row Ho). simpl in *. lia.
Qed.

Lemma enqueue_Err now peer reason batch s e s' :
  enqueue now peer reason batch s = (Err e, s') -> untouched s s'.
Proof.
  unfold enqueue. destruct batch as [|c batch]; [done|]. intros E.
  apply bindS_Err in E as [E|([bs full] & s1 & _ & E)]; [by eapply transact_Err; [apply keeps_enqueue_tx|]|].
  destruct (bs_written bs =? 0); [done|]. unfold bindS, modifyS, addQueueSize, invalidateQueueStats, retS in E.
  by destruct (0 <? bs_fresh bs).
Qed.

(** The store once the batch's transaction has committed: counters follow the tables. *)
Definition settle (peer : string) (bs : batchState) (s : Store) : Store :=
  let s1 := set_enqueued (wrap64 (enqueued s + bs_written bs)) s in
  set_stats (statsCache s1) false (wrapu64 (statsGen s1 + 1))
    (if 0 <? bs_fresh bs
     then set_queueSize (<[peer := Z.max 0 (queuedForS s peer + bs_fresh bs)]> (queueSize s)) s1
     else s1).

Lemma enqueue_Ok now peer reason batch s written full s' :
  batch <> [] -> enqueue now peer reason batch s = (Ok (written, full), s') ->
  exists bs s1, transact (enqueue_tx now peer reason batch) s = (Ok (bs, full), s1) /\ written = bs_written bs /\
    s' = if bs_written bs =? 0 then s1 else settle peer bs s1.
Proof.
  unfold enqueue. destruct batch as [|c batch]; [done|]. intros _ E.
  apply bindS_Ok in E as ([bs f] & s1 & E1 & E). exists bs, s1. destruct (bs_written bs =? 0) eqn:Ew.
  - injection E as <- <- <-. apply Z.eqb_eq in Ew. by rewrite Ew.
  - unfold bindS, modifyS, addQueueSize, invalidateQueueStats, retS in E. unfold settle.
    destruct (0 <? bs_fresh bs); injection E as <- <- <-; done.
Qed.

Lemma queue_inv_settle peer bs s s1 :
  queue_inv s -> memory_kept s s1 -> 0 <= bs_fresh bs ->
  (forall p, peer_rows (db s1) p = peer_rows (db s) p + (if decide (p = peer) then bs_fresh bs else 0)) ->
  is_Some (node_meta (db s1) !! "repair_revision") ->
  0 <= revision_of (db s1) ->
  map_Forall (fun _ row => rr_revision row <= revision_of (db s1)) (repair_queue (db s1)) ->
  map_Forall lane_ok (repair_queue (db s1)) ->
  queue_inv (settle peer bs s1).
Proof.
  intros Hinv Hm Hf Hrows Hc Hr0 Hr Hlane. unfold memory_kept in Hm.
  assert (queueSize s1 = queueSize s) as Hq by by rewrite Hm.
  assert (db (settle peer bs s1) = db s1) as Hd by by (unfold settle; destruct (0 <? bs_fresh bs)).
  split; rewrite ?Hd; try done.
  - intros p. rewrite Hrows, <- (q_sizes _ Hinv). unfold settle, queuedForS. destruct (0 <? bs_fresh bs) eqn:Ef; simpl; rewrite Hq.
    + case_decide as Ep; [subst p; rewrite lookup_insert_eq|by rewrite lookup_insert_ne, Z.add_0_r by done].
      simpl. fold (queuedForS s peer). rewrite (q_sizes _ Hinv). unfold peer_rows. lia.
    + apply Z.ltb_ge in Ef. case_decide; lia.
Qed.

Lemma queue_inv_untouched s s' : untouched s s' -> queue_inv s -> queue_inv s'.
Proof. intros -> []. by split. Qed.

(** Same tables and memory: what a batch that wrote nothing leaves. *)
Lemma queue_inv_same s s' : memory_kept s s' -> db s' = db s -> queue_inv s -> queue_inv s'.
Proof. intros M E []. unfold memory_kept in M. rewrite E in M. rewrite M. by split. Qed.

(** The state after a batch, in terms of the tables its loop left: the queue and the
    revision counter of the loop, every other table and the limit unchanged. *)
Lemma enqueue_settled peer batch s bs full s1 s3 s' :
  queue_inv s -> revision_of (db s) + Z.of_nat (length batch) <= MaxInt64 ->
  bs_written bs <= Z.of_nat (length batch) -> memory_kept s s1 ->
  loop_post peer (repairLimit s) (peer_rows (db s) peer) (mkBatch (revision_of (db s)) 0 0) batch s bs full s3 ->
  db s1 = (if bs_written bs =? 0 then db s else write_revision (bs_revision bs) (db s3)) ->
  s' = (if bs_written bs =? 0 then s1 else settle peer bs s1) ->
  repair_queue (db s') = repair_queue (db s3) /\ files (db s') = files (db s3) /\ cursors (db s') = cursors (db s3) /\
  revision_of (db s') = bs_revision bs /\ repairLimit s' = repairLimit s /\ queue_inv s'.
Proof.
  intros Hinv Hroom Hwb M (_ & G & _) Hdb Hs'.
  pose proof (g_rev _ _ _ _ _ G) as Grev. pose proof (g_count _ _ _ _ _ G) as Gc. pose proof (g_rows _ _ _ _ _ G) as Grows.
  destruct (q_revisions _ Hinv) as [Hr0 Hrb]. pose proof (grows_revision_bound _ _ _ _ _ G Hrb) as Hrb'. simpl in *.
  assert (repairLimit s1 = repairLimit s) as Hl1 by by rewrite M.
  destruct (bs_written bs =? 0) eqn:Ew.
  - apply Z.eqb_eq in Ew. subst s'. pose proof (g_same _ _ _ _ _ G) as Gs. simpl in Gs.
    rewrite (Gs (eq_sym Ew)), Hdb. split_and!; try done; try lia. by apply (queue_inv_same s s1).
  - apply Z.eqb_neq in Ew.
    assert (node_meta (db s3) = node_meta (db s)) as Hnm by by rewrite (g_only _ _ _ _ _ G).
    pose proof (q_counter _ Hinv) as Hcnt. rewrite <- Hnm in Hcnt.
    assert (revision_of (db s1) = bs_revision bs) as Hrv by (rewrite Hdb; apply revision_of_write; [done|lia]).
    assert (db s' = db s1 /\ repairLimit s' = repairLimit s1) as [Hd' Hl'].
    { rewrite Hs'. unfold settle. by destruct (0 <? bs_fresh bs). }
    rewrite Hl', Hd', Hrv. split_and!; [by rewrite Hdb..|done|done|]. subst s'.
    apply (queue_inv_settle _ _ s); rewrite ?Hrv; try done; try lia.
    + intros p. change (peer_rows (db s1) p) with (Z.of_nat (size (peer_map (repair_queue (db s1)) p))). rewrite Hdb. simpl. fold (peer_rows (db s3) p). rewrite Grows. case_decide; lia.
    + rewrite Hdb. simpl. destruct Hcnt as [t Ht]. rewrite Ht, lookup_insert_eq. eauto.
    + by rewrite Hdb.
    + rewrite Hdb. apply (g_lane _ _ _ _ _ G), (q_lanes _ Hinv).
Qed.

Lemma enqueue_spec now peer reason batch s written full s' :
  batch <> [] -> queue_inv s -> revision_of (db s) + Z.of_nat (length batch) <= MaxInt64 ->
  enqueue now peer reason batch s = (Ok (written, full), s') -> enqueue_post peer batch s written full s'.
Proof.
  intros Hne Hinv Hroom E. apply enqueue_Ok in E as (bs & s1 & E & -> & Hs'); [|done].
  apply transact_Ok in E as (M & b & s0 & s2 & U & E & Hdb); [|apply keeps_enqueue_tx].
  pose proof (untouched_db _ _ U) as Hd0. pose proof Hroom as Hroom0. rewrite <- Hd0 in Hroom0.
  apply enqueue_tx_Ok in E as (s3 & Hpost & -> & Hwb & Hd2); [|by eapply queue_inv_untouched|done].
  assert (loop_post peer (repairLimit s) (peer_rows (db s) peer) (mkBatch (revision_of (db s)) 0 0) batch s bs full s3) as Hp0.
  { unfold loop_post in *. rewrite Hd0 in Hpost. assert (repairLimit s0 = repairLimit s) as Hl by by rewrite U.
    rewrite Hl in Hpost. destruct Hpost as [M3 ?]. split; [|done]. etrans; [by apply untouched_memory|done]. }
  clear Hpost. assert (db s1 = if bs_written bs =? 0 then db s else write_revision (bs_revision bs) (db s3)) as Hdb1.
  { rewrite Hdb. destruct (bs_written bs =? 0); [done|]. done. }
  destruct (enqueue_settled peer batch s bs full s1 s3 s' Hinv Hroom Hwb M Hp0 Hdb1 Hs') as (Q & F & C & R & L & I).
  destruct Hp0 as (_ & G & Pcap & Pall & Pfull).
  pose proof (g_rev _ _ _ _ _ G) as Grev. pose proof (g_count _ _ _ _ _ G) as Gc. pose proof (g_rows _ _ _ _ _ G) as Grows. simpl in *.
  assert (forall p, peer_rows (db s') p = peer_rows (db s3) p) as Hrows by (intros p; unfold peer_rows; by rewrite Q).
  assert (peer_rows (db s') peer = peer_rows (db s) peer + bs_fresh bs) as Hp by (rewrite Hrows, Grows; case_decide; [lia|done]).
  split; try done; try lia.
  - intros p Hpn. rewrite Hrows, Grows. case_decide; [done|lia].
  - rewrite Q. apply (g_keep _ _ _ _ _ G).
  - intros Hf c Hc. destruct (Pall Hf c Hc) as (row & Hrow). exists row. by rewrite Q.
  - intros Hf. rewrite Hp. destruct (Pfull Hf) as (? & ? & ?). split; [lia|done].
  - rewrite R. split; [lia|]. rewrite Q. intros k row' Hk. destruct (g_new _ _ _ _ _ G k row' Hk) as [?|[_ ?]]; [by left|right; simpl in *; lia].
  - rewrite F, C, L. by rewrite (g_only _ _ _ _ _ G).
Qed.

(** ** The other operations *)

Definition after_delete (peer : string) (n : Z) (s : Store) : Store :=
  set_stats (statsCache s) false (wrapu64 (statsGen s + 1))
    (set_queueSize (<[peer := Z.max 0 (queuedForS s peer - n)]> (queueSize s)) s).

Lemma deleteTracked_run p peer name s :
  exists s1 n, (deleteTracked p peer name s).2 = after_delete peer n s1 /\
    (untouched s s1 /\ n = 0 \/ memory_kept s s1 /\ (n, db s1) = deleteRow p (peer, name) (db s)).
Proof.
  unfold deleteTracked, bindS, tryS, addQueueSize, modifyS, liftS, after_delete.
  destruct (statement (deleteRow p (peer, name)) s) as [[n|e] s1] eqn:E; simpl.
  - apply statement_Ok in E as (-> & Hd & M). exists s1, (deleteRow p (peer, name) (db s)).1.
    rewrite Z.add_opp_r. split; [done|]. right. split; [done|]. rewrite Hd. by destruct (deleteRow _ _ _).
  - apply statement_Err in E as [_ U]. exists s1, 0. split; [done|]. by left.
Qed.

(** Removing rows, and rewriting their schedule, are what the remaining operations do. *)
Record shrinks (d d' : DB) : Prop := {
  sh_only : d' = upd_queue (fun _ => repair_queue d') d;
  sh_rows : forall k row', repair_queue d' !! k = Some row' ->
    exists row, repair_queue d !! k = Some row /\ rr_revision row' = rr_revision row /\
      rr_metadata row' = rr_metadata row /\ rr_large row' = rr_large row
}.

Lemma shrinks_refl d : shrinks d d.
Proof. split; [by destruct d|]. eauto. Qed.

Lemma shrinks_bounds d d' :
  shrinks d d' -> is_Some (node_meta d !! "repair_revision") ->
  0 <= revision_of d /\ map_Forall (fun _ row => rr_revision row <= revision_of d) (repair_queue d) ->
  map_Forall lane_ok (repair_queue d) ->
  is_Some (node_meta d' !! "repair_revision") /\ revision_of d' = revision_of d /\
  map_Forall (fun _ row => rr_revision row <= revision_of d') (repair_queue d') /\ map_Forall lane_ok (repair_queue d').
Proof.
  intros [Ho Hr] Hc [H0 Hb] Hl. assert (node_meta d' = node_meta d) as Hn by by rewrite Ho.
  assert (revision_of d' = revision_of d) as Hrev by (unfold revision_of; by rewrite Hn). rewrite Hn, Hrev.
  split_and!; try done.
  - intros k row' Hk. destruct (Hr k row' Hk) as (row & Hk' & -> & _). by apply (Hb k row).
  - intros k row' Hk. destruct (Hr k row' Hk) as (row & Hk' & _ & Hm & Hlg). unfold lane_ok, row_state. rewrite Hlg, Hm. by apply (Hl k row).
Qed.

Lemma deleteRow_shrinks p peer name d n d' :
  (n, d') = deleteRow p (peer, name) d ->
  shrinks d d' /\ forall q, peer_rows d' q = peer_rows d q - (if decide (q = peer) then n else 0).
Proof.
  unfold deleteRow. destruct (repair_queue d !! (peer, name)) as [r|] eqn:Er; [destruct (p r)|];
    intros [= -> ->]; (split; [|intros q]); try apply shrinks_refl; try (case_decide; lia).
  - split; simpl; [done|]. intros k row' Hk. apply lookup_delete_Some in Hk as [_ Hk]. eauto.
  - unfold peer_rows. simpl. rewrite peer_rows_delete, Er. done.
Qed.

Lemma deleteTracked_inv p peer name s : queue_inv s -> queue_inv (deleteTracked p peer name s).2.
Proof.
  intros Hinv. destruct (deleteTracked_run p peer name s) as (s1 & n & -> & Hrun).
  assert (memory_kept s s1 /\ shrinks (db s) (db s1) /\ forall q, peer_rows (db s1) q = peer_rows (db s) q - (if decide (q = peer) then n else 0)) as (M & Hsh & Hrows).
  { destruct Hrun as [[U ->]|[M Hd]].
    - rewrite (untouched_db _ _ U). split; [by apply untouched_memory|]. split; [apply shrinks_refl|]. intros q. case_decide; lia.
    - apply deleteRow_shrinks in Hd as [? ?]. done. }
  destruct (shrinks_bounds _ _ Hsh (q_counter _ Hinv) (q_revisions _ Hinv) (q_lanes _ Hinv)) as (H1 & H2 & H3 & H4).
  assert (queueSize s1 = queueSize s) as Hq by by rewrite M.
  split; simpl; try done.
  - intros q. change (peer_rows (db (after_delete peer n s1)) q) with (peer_rows (db s1) q). rewrite Hrows, <- (q_sizes _ Hinv).
    unfold queuedForS, after_delete. simpl. rewrite Hq. case_decide as Eq.
    + subst q. rewrite lookup_insert_eq. simpl. unfold queuedForS. rewrite Hq. fold (queuedForS s peer).
      specialize (Hrows peer). rewrite decide_True in Hrows by done. rewrite (q_sizes _ Hinv). unfold peer_rows in *. lia.
    + by rewrite lookup_insert_ne, Z.sub_0_r.
  - split; [|done]. rewrite H2. apply (q_revisions _ Hinv).
Qed.

Definition same_identity (f : repair_row -> repair_row) : Prop :=
  forall r, rr_revision (f r) = rr_revision r /\ rr_metadata (f r) = rr_metadata r /\ rr_large (f r) = rr_large r.

Definition updateTable (p : repair_row -> bool) (f : repair_row -> repair_row) (key : string * string)
    (t : gmap (string * string) repair_row) : gmap (string * string) repair_row :=
  match t !! key with Some row => if p row then <[key := f row]> t else t | None => t end.

Lemma updateTable_shrinks p f key d :
  same_identity f ->
  shrinks d (upd_queue (updateTable p f key) d) /\ forall q, peer_rows (upd_queue (updateTable p f key) d) q = peer_rows d q.
Proof.
  intros Hf. unfold updateTable, peer_rows. split; [split; [done|]|]; simpl.
  - intros k row'. destruct (repair_queue d !! key) as [r|] eqn:Er; [destruct (p r)|]; [|by eauto..].
    intros Hk. apply lookup_insert_Some in Hk as [[<- <-]|[_ Hk]]; [|by eauto]. exists r. destruct (Hf r) as (-> & -> & ->). done.
  - intros q. destruct (repair_queue d !! key) as [r|] eqn:Er; [destruct (p r)|]; [|done..].
    destruct key as [peer name]. rewrite peer_rows_insert, Er. case_decide; lia.
Qed.

Lemma updateRow_inv p f key s : same_identity f -> queue_inv s -> queue_inv (updateRow p f key s).2.
Proof.
  intros Hf Hinv.
  assert (exists s1, (updateRow p f key s).2 = set_stats (statsCache s1) false (wrapu64 (statsGen s1 + 1)) s1 /\
            memory_kept s s1 /\ shrinks (db s) (db s1) /\ forall q, peer_rows (db s1) q = peer_rows (db s) q) as (s1 & -> & M & Hsh & Hrows).
  { unfold updateRow, bindS, tryS, invalidateQueueStats, modifyS, liftS. fold (updateTable p f key).
    destruct (exec _ s) as [[[]|e] s1] eqn:E; exists s1; (split; [done|]).
    - apply exec_Ok in E as [Hd M]. rewrite Hd. split; [done|]. by apply updateTable_shrinks.
    - apply exec_Err in E as [_ U]. rewrite (untouched_db _ _ U). split; [by apply untouched_memory|]. split; [apply shrinks_refl|done]. }
  destruct (shrinks_bounds _ _ Hsh (q_counter _ Hinv) (q_revisions _ Hinv) (q_lanes _ Hinv)) as (H1 & H2 & H3 & H4).
  split; simpl; try done.
  - intros q. change (queuedForS s1 q = peer_rows (db s1) q). rewrite Hrows, <- (q_sizes _ Hinv). by rewrite M.
  - split; [|done]. rewrite H2. apply (q_revisions _ Hinv).
Qed.

Lemma RepairQueueStats_inv now now2 s : queue_inv s -> queue_inv (RepairQueueStats now now2 s).2.
Proof.
  intros Hinv. unfold RepairQueueStats, statsRead. unfold bindS at 1 2, getS at 1.
  destruct (statsValid s) eqn:Ev; [done|]. unfold queryRepairStats, bindS.
  destruct (query (fun d => computeStats d now now2) s) as [[st|e] s1] eqn:E.
  - apply query_Ok in E as [-> U]. unfold statsWrite, modifyS, retS. rewrite U. simpl. rewrite Z.eqb_refl.
    destruct Hinv. split; try done. intros _. simpl. by rewrite length_fmap, length_map_to_list.
  - apply query_Err in E as [_ U]. by eapply queue_inv_untouched.
Qed.

(** ** Sequences of operations

    Every method holds the store's mutex, so concurrent callers produce some sequence of
    whole operations; each may meet database failures of its own. *)

Inductive queue_op :=
| OpEnqueue (now : Z) (peer reason : string) (batch : list queuedChange)
| OpResolve (peer name : string)
| OpResolveItem (item : RepairItem)
| OpDefer (now : Z) (peer name : string) (retryAfter : Z) (cause : string)
| OpDeferItem (now : Z) (item : RepairItem) (retryAfter : Z) (cause : string)
| OpStats (now now2 : Z)
| OpLimit (limit : Z).

Definition run_op (op : queue_op) (s : Store) : Store :=
  match op with
  | OpEnqueue now peer reason batch => (enqueue now peer reason batch s).2
  | OpResolve peer name => (ResolveRepair peer name s).2
  | OpResolveItem item => (ResolveRepairItem item s).2
  | OpDefer now peer name retryAfter cause => (DeferRepair now peer name retryAfter cause s).2
  | OpDeferItem now item retryAfter cause => (DeferRepairItem now item retryAfter cause s).2
  | OpStats now now2 => (RepairQueueStats now now2 s).2
  | OpLimit limit => (SetRepairLimit limit s).2
  end.

(** The revision counter must not overflow: a batch needs as many revisions as entries. *)
Definition op_room (op : queue_op) (s : Store) : Prop :=
  match op with
  | OpEnqueue _ _ _ batch => revision_of (db s) + Z.of_nat (length batch) <= MaxInt64
  | _ => True
  end.

Inductive queue_steps : Store -> Store -> Prop :=
| steps_refl s : queue_steps s s
| steps_op s op fs s' : op_room op s -> queue_steps (run_op op (set_faults fs s)) s' -> queue_steps s s'.

Lemma queue_inv_set_faults fs s : queue_inv s -> queue_inv (set_faults fs s).
Proof. intros []. by split. Qed.

Lemma deferRow_identity now retryAfter cause : same_identity (deferRow now retryAfter cause).
Proof. done. Qed.

Lemma run_op_inv op s : queue_inv s -> op_room op s -> queue_inv (run_op op s).
Proof.
  intros Hinv Hroom. destruct op as [now peer reason batch| | | | | |]; simpl in *.
  - destruct batch as [|c batch]; [done|].
    destruct (enqueue now peer reason (c :: batch) s) as [[[w full]|e] s'] eqn:E; simpl.
    + apply enqueue_spec in E; [apply E|done|done|done].
    + apply enqueue_Err in E. by eapply queue_inv_untouched.
  - by apply deleteTracked_inv.
  - by apply deleteTracked_inv.
  - by apply updateRow_inv.
  - by apply updateRow_inv.
  - by apply RepairQueueStats_inv.
  - destruct Hinv. by split.
Qed.

(** A row present later is an earlier one, possibly rescheduled, or was written since and
    carries a revision the earlier store had not handed out. *)
Definition rev_frame (d d' : DB) : Prop :=
  revision_of d <= revision_of d' /\
  forall k row', repair_queue d' !! k = Some row' ->
    (exists row, repair_queue d !! k = Some row /\ rr_revision row' = rr_revision row /\ rr_metadata row' = rr_metadata row) \/
    revision_of d < rr_revision row'.

#[export] Instance rev_frame_preorder : PreOrder rev_frame.
Proof.
  split.
  - intros d. split; [done|]. eauto.
  - intros d1 d2 d3 [L1 H1] [L2 H2]. split; [lia|]. intros k row3 Hk.
    destruct (H2 k row3 Hk) as [(row2 & Hk2 & E1 & E2)|?]; [|right; lia].
    destruct (H1 k row2 Hk2) as [(row1 & Hk1 & E3 & E4)|?]; [left; exists row1; split_and!; congruence|right; lia].
Qed.

Lemma shrinks_frame d d' : shrinks d d' -> rev_frame d d'.
Proof.
  intros [Ho Hr]. assert (revision_of d' = revision_of d) as E by by rewrite Ho. split; [lia|].
  intros k row' Hk. destruct (Hr k row' Hk) as (row & ? & ? & ? & _). eauto.
Qed.

Lemma deleteTracked_shrinks p peer name s : shrinks (db s) (db (deleteTracked p peer name s).2).
Proof.
  destruct (deleteTracked_run p peer name s) as (s1 & n & -> & [[U _]|[_ Hd]]); simpl.
  - rewrite (untouched_db _ _ U). apply shrinks_refl.
  - apply deleteRow_shrinks in Hd as [Hd _]. exact Hd.
Qed.

Lemma updateRow_db p f key s :
  db (updateRow p f key s).2 = db s \/ db (updateRow p f key s).2 = upd_queue (updateTable p f key) (db s).
Proof.
  unfold updateRow, bindS, tryS, invalidateQueueStats, modifyS, liftS. fold (updateTable p f key).
  destruct (exec _ s) as [[[]|e] s1] eqn:E; simpl.
  - apply exec_Ok in E as [-> _]. by right.
  - apply exec_Err in E as [_ ->]. by left.
Qed.

Lemma RepairQueueStats_db now now2 s : db (RepairQueueStats now now2 s).2 = db s.
Proof.
  unfold RepairQueueStats, statsRead. unfold bindS at 1 2, getS at 1. destruct (statsValid s); [done|].
  unfold queryRepairStats, bindS. destruct (query _ s) as [[st|e] s1] eqn:E.
  - apply query_Ok in E as [-> U]. unfold statsWrite, modifyS, retS. simpl. rewrite <- (untouched_db _ _ U).
    by destruct (statsGen s1 =? statsGen s).
  - apply query_Err in E as [_ U]. by apply untouched_db.
Qed.

Lemma run_op_frame op s : queue_inv s -> op_room op s -> rev_frame (db s) (db (run_op op s)).
Proof.
  intros Hinv Hroom. destruct op as [now peer reason batch| | | | | |]; simpl in *.
  - destruct batch as [|c batch]; [done|].
    destruct (enqueue now peer reason (c :: batch) s) as [[[w full]|e] s'] eqn:E; simpl.
    + apply enqueue_spec in E; [|done|done|done]. destruct (ep_rev _ _ _ _ _ _ E) as [? Hr]. split; [lia|].
      intros k row' Hk. destruct (Hr k row' Hk); eauto.
    + apply enqueue_Err in E. by rewrite (untouched_db _ _ E).
  - by apply shrinks_frame, deleteTracked_shrinks.
  - by apply shrinks_frame, deleteTracked_shrinks.
  - unfold DeferRepair. destruct (updateRow_db (fun _ => true) (deferRow now retryAfter cause) (peer, name) s) as [-> | ->]; [done|].
    apply shrinks_frame. by apply updateTable_shrinks.
  - unfold DeferRepairItem. set (p := fun r => _). destruct (updateRow_db p (deferRow now retryAfter cause) (ri_PeerID item, ri_Name item) s) as [-> | ->]; [done|].
    apply shrinks_frame. by apply updateTable_shrinks.
  - by rewrite RepairQueueStats_db.
  - done.
Qed.

Lemma queue_steps_inv s s' : queue_inv s -> queue_steps s s' -> queue_inv s' /\ rev_frame (db s) (db s').
Proof.
  intros Hinv Hst. induction Hst as [s|s op fs s' Hroom Hst IH]; [done|].
  pose proof (queue_inv_set_faults fs s Hinv) as Hi0.
  assert (op_room op (set_faults fs s)) as Hroom' by by destruct op.
  destruct IH as [IH1 IH2]; [by apply run_op_inv|]. split; [done|].
  etrans; [|exact IH2]. by apply (run_op_frame op (set_faults fs s)).
Qed.

(** ** Due rows *)

#[export] Instance by_due_trans : Transitive by_due.
Proof. intros x y z. unfold by_due. lia. Qed.
#[export] Instance by_due_total : Total by_due.
Proof. intros x y. unfold by_due. lia. Qed.

Lemma elem_of_dueRows w d now peer limit kv :
  kv ∈ dueRows w d now peer limit ->
  kv.1.1 = peer /\ w kv.2 = true /\ rr_next_attempt kv.2 <= now /\ repair_queue d !! kv.1 = Some kv.2.
Proof.
  unfold dueRows. intros Hin%sql_limit_elem. apply elem_of_merge_sort, list_elem_of_filter in Hin as [(? & ? & ?) Hin2].
  destruct kv as [k r]. by apply elem_of_map_to_list in Hin2.
Qed.

(** A due row is on the page, or the page is full of rows due no later. *)
Lemma dueRows_complete w d now peer limit k row :
  0 < limit -> repair_queue d !! k = Some row -> k.1 = peer -> w row = true -> rr_next_attempt row <= now ->
  (k, row) ∈ dueRows w d now peer limit \/
  Z.of_nat (length (dueRows w d now peer limit)) = limit /\
  forall kv, kv ∈ dueRows w d now peer limit -> rr_next_attempt kv.2 <= rr_next_attempt row.
Proof.
  intros Hl Hk Hp Hw Hd. unfold dueRows. set (rows := base.filter _ _).
  assert ((k, row) ∈ merge_sort by_due rows) as Hin.
  { apply elem_of_merge_sort, list_elem_of_filter. split; [done|]. by apply elem_of_map_to_list. }
  pose proof (StronglySorted_merge_sort by_due rows) as Hs. unfold sql_limit. rewrite (proj2 (Z.ltb_ge limit 0)) by lia.
  rewrite <- (take_drop (Z.to_nat limit) (merge_sort by_due rows)) in Hin, Hs.
  apply elem_of_app in Hin as [?|Hr]; [by left|right]. split.
  - rewrite length_take. assert (drop (Z.to_nat limit) (merge_sort by_due rows) <> []) as Hne by (intros E; rewrite E in Hr; set_solver).
    assert (Z.to_nat limit < length (merge_sort by_due rows))%nat; [|lia].
    destruct (decide (length (merge_sort by_due rows) <= Z.to_nat limit)%nat); [|lia]. by rewrite drop_ge in Hne.
  - intros kv Hkv. by apply (StronglySorted_app_1_elem_of by_due _ _ kv (k, row) Hs).
Qed.

Lemma scanItems_Ok rows items it :
  scanItems rows = Ok items -> it ∈ items -> exists kv, kv ∈ rows /\ itemOf kv = Ok it.
Proof.
  revert items. induction rows as [|kv rows IH]; intros items E Hit; simpl in E; [injection E as <-; set_solver|].
  destruct (itemOf kv) as [i|e] eqn:Ei; [|done]. destruct (scanItems rows) as [its|e]; [|done]. injection E as <-.
  apply elem_of_cons in Hit as [->|Hit]; [exists kv; set_solver|]. destruct (IH its eq_refl Hit) as (kv' & ? & ?).
  exists kv'. set_solver.
Qed.

Lemma itemOf_Ok kv it :
  itemOf kv = Ok it -> ri_PeerID it = kv.1.1 /\ ri_Name it = kv.1.2 /\ ri_Revision it = rr_revision kv.2 /\ ri_Meta it = row_state kv.2.
Proof. destruct kv as [[peer name] r]. unfold itemOf, row_state. simpl. destruct (rr_metadata r); intros [= <-]; done. Qed.

(** ** Properties *)

(** The queue's bookkeeping stays right under any sequence of operations, whichever
    statements fail: the cached length of every peer's queue is its number of rows, a cached
    summary that is valid counts the rows there are, no row carries a revision the counter has
    not reached, and every row is filed in the lane of the state it carries. *)
Theorem queue_bookkeeping (s s' : Store) :
  queue_inv s -> queue_steps s s' ->
  (forall peer, queuedForS s' peer = peer_rows (db s') peer) /\
  (statsValid s' = true -> st_Total (statsCache s') = Z.of_nat (size (repair_queue (db s')))) /\
  (forall k row, repair_queue (db s') !! k = Some row ->
     rr_revision row <= revision_of (db s') /\ rr_large row = IsLargeRepair (row_state row)).
Proof.
  intros Hinv Hst. destruct (queue_steps_inv s s' Hinv Hst) as [[H1 H2 _ [_ H3] H4] _].
  split; [done|]. split; [done|]. intros k row Hk. split; [by apply (H3 k)|by apply (H4 k)].
Qed.

(** C16. Queueing a batch of changes loses no work: without the queue-full error every change
    is recorded under its name with its state or a greater one; the error is given only when
    the peer's queue holds as many rows as the limit allows, and the cap is never exceeded;
    rows queued before keep their state unless a greater one replaces it; other peers' queues
    are untouched. A database failure leaves every table and counter as it was. *)
Theorem enqueue_no_lost_work (now : Z) (peer reason : string) (batch : list queuedChange) (s : Store) :
  batch <> [] -> queue_inv s -> revision_of (db s) + Z.of_nat (length batch) <= MaxInt64 ->
  match enqueue now peer reason batch s with
  | (Err _, s') => untouched s s'
  | (Ok (_, full), s') =>
      match full with
      | None => forall c, c ∈ batch -> recorded (db s') peer c
      | Some e => e = ERepairQueueFull peer (peer_rows (db s') peer) /\ 0 < repairLimit s <= peer_rows (db s') peer
      end /\
      (0 < repairLimit s -> peer_rows (db s') peer <= Z.max (repairLimit s) (peer_rows (db s) peer)) /\
      (forall k row m, repair_queue (db s) !! k = Some row -> row_state row = Some m ->
         exists row' m', repair_queue (db s') !! k = Some row' /\ row_state row' = Some m' /\
           CompareState (Some m) (Some m') <> Gt) /\
      (forall p, p <> peer -> peer_rows (db s') p = peer_rows (db s) p)
  end.
Proof.
  intros Hne Hinv Hroom. destruct (enqueue now peer reason batch s) as [[[w full]|e] s'] eqn:E; [|by apply enqueue_Err in E].
  apply enqueue_spec in E; [|done|done|done]. split; [|split; [apply E|split; apply E]].
  destruct full as [e|]; [|by apply E]. destruct (ep_full _ _ _ _ _ _ E) as [? [= ->]]; [done|]. done.
Qed.

(** A worker that finishes an item cannot erase or reschedule newer work: whatever ran
    since it read the item, a row whose state is no longer the one it read survives its
    resolve and its defer unchanged, failures included. A row it did read, not rewritten
    since, is removed by the resolve unless the database fails. *)
Theorem ResolveRepairItem_keeps_newer (now retryAfter : Z) (cause : string) (s s' : Store)
    (row row' : repair_row) (item : RepairItem) :
  queue_inv s -> repair_queue (db s) !! (ri_PeerID item, ri_Name item) = Some row ->
  itemOf ((ri_PeerID item, ri_Name item), row) = Ok item -> queue_steps s s' ->
  repair_queue (db s') !! (ri_PeerID item, ri_Name item) = Some row' ->
  (row_state row' <> ri_Meta item ->
    repair_queue (db (ResolveRepairItem item s').2) !! (ri_PeerID item, ri_Name item) = Some row' /\
    repair_queue (db (DeferRepairItem now item retryAfter cause s').2) !! (ri_PeerID item, ri_Name item) = Some row') /\
  (rr_revision row' = rr_revision row -> nofault s' ->
    repair_queue (db (ResolveRepairItem item s').2) !! (ri_PeerID item, ri_Name item) = None).
Proof.
  intros Hinv Hrow Hitem Hst Hrow'. destruct (queue_steps_inv s s' Hinv Hst) as [_ [_ Hfr]].
  apply itemOf_Ok in Hitem as (_ & _ & Hrv & Hm). simpl in *.
  set (key := (ri_PeerID item, ri_Name item)) in *. set (p := fun r => rr_revision r =? ri_Revision item).
  split.
  - intros Hne. assert (p row' = false) as Hp.
    { apply Z.eqb_neq. rewrite Hrv. destruct (Hfr key row' Hrow') as [(row1 & Hk1 & _ & Emd)|Hlt].
      - rewrite Hrow in Hk1. injection Hk1 as <-. destruct Hne. unfold row_state in *. by rewrite Emd.
      - pose proof (proj2 (q_revisions _ Hinv) key row Hrow) as Hb. simpl in Hb. lia. }
    split.
    + unfold ResolveRepairItem. fold p. destruct (deleteTracked_run p (ri_PeerID item) (ri_Name item) s') as (s1 & n & -> & [[U _]|[_ Hd]]); simpl.
      * by rewrite (untouched_db _ _ U).
      * unfold deleteRow in Hd. fold key in Hd. rewrite Hrow', Hp in Hd. by injection Hd as _ ->.
    + unfold DeferRepairItem. fold p key. destruct (updateRow_db p (deferRow now retryAfter cause) key s') as [-> | ->]; [done|].
      simpl. unfold updateTable. by rewrite Hrow', Hp.
  - intros He Hnf. unfold ResolveRepairItem, deleteTracked, bindS, tryS. fold p. rewrite statement_nofault by done.
    unfold deleteRow. fold key. rewrite Hrow'. assert (p row' = true) as -> by (apply Z.eqb_eq; lia).
    simpl. by rewrite lookup_delete_eq.
Qed.

(** The two lanes share the queue out: an item a lane returns is due, belongs to the peer
    and has the lane's size class, and a due row is missing from its own lane's page only when
    that page is full of rows due no later, so large transfers never hide small work. *)
Theorem DueRepairsInLane_complete (now : Z) (peer : string) (large : bool) (limit : Z) (s : Store) (items : list RepairItem) :
  queue_inv s -> 0 < limit -> (DueRepairsInLane now peer large limit s).1 = Ok items ->
  (forall it, it ∈ items -> ri_PeerID it = peer /\ IsLargeRepair (ri_Meta it) = large /\
     exists row, repair_queue (db s) !! (peer, ri_Name it) = Some row /\ rr_next_attempt row <= now /\ rr_revision row = ri_Revision it) /\
  (forall name row, repair_queue (db s) !! (peer, name) = Some row -> rr_next_attempt row <= now ->
     IsLargeRepair (row_state row) = large ->
     ((peer, name), row) ∈ dueRows (fun r => Bool.eqb (rr_large r) large) (db s) now peer limit \/
     Z.of_nat (length (dueRows (fun r => Bool.eqb (rr_large r) large) (db s) now peer limit)) = limit /\
     forall kv, kv ∈ dueRows (fun r => Bool.eqb (rr_large r) large) (db s) now peer limit -> rr_next_attempt kv.2 <= rr_next_attempt row).
Proof.
  intros Hinv Hl E. unfold DueRepairsInLane, bindS in E.
  destruct (query _ s) as [[rows|e] s1] eqn:Eq; [|done]. apply query_Ok in Eq as [-> _]. simpl in E. split.
  - intros it Hit. destruct (scanItems_Ok _ _ _ E Hit) as ([[p n] r] & Hkv & Hi).
    apply elem_of_dueRows in Hkv as (H1 & H2 & H3 & H4). apply itemOf_Ok in Hi as (I1 & I2 & I3 & I4). simpl in *. subst p.
    split; [done|]. rewrite I4, I2. split; [|by eauto]. rewrite <- (q_lanes _ Hinv _ _ H4). by apply Bool.eqb_prop.
  - intros name row Hk Hd Hlg. apply dueRows_complete; try done. rewrite (q_lanes _ Hinv _ _ Hk), Hlg. apply Bool.eqb_reflx.
Qed.

(** ** Witnesses *)

Definition emptyQueue : Store :=
  set_limit 2 (set_db (upd_meta (fun t => <["repair_revision" := "0"]> t) (db initialStore)) initialStore).

Lemma emptyQueue_inv : queue_inv emptyQueue.
Proof. split; done. Qed.

Definition oneQueued : Store := run_op (OpEnqueue 5 "p" "sync" [changeOf (fileAt "a" 50)]) (set_faults [] emptyQueue).

Lemma oneQueued_steps : queue_steps emptyQueue oneQueued.
Proof. apply (steps_op _ (OpEnqueue 5 "p" "sync" [changeOf (fileAt "a" 50)]) []); [done|]. apply steps_refl. Qed.

Lemma oneQueued_inv : queue_inv oneQueued.
Proof. apply (queue_steps_inv emptyQueue); [apply emptyQueue_inv|apply oneQueued_steps]. Qed.

Lemma queue_bookkeeping_witness : queuedForS oneQueued "p" = 1 /\ peer_rows (db oneQueued) "p" = 1.
Proof.
  rewrite (proj1 (queue_bookkeeping emptyQueue oneQueued emptyQueue_inv oneQueued_steps) "p").
  split; vm_compute; reflexivity.
Defined.

Definition threeChanges : list queuedChange := [changeOf (fileAt "a" 60); changeOf (fileAt "b" 1); changeOf (fileAt "c" 1)].

Lemma enqueue_no_lost_work_witness :
  (enqueue 6 "p" "sync" threeChanges oneQueued).1 = Ok (2, Some (ERepairQueueFull "p" 2)) /\
  peer_rows (db (enqueue 6 "p" "sync" threeChanges oneQueued).2) "p" <= 2.
Proof.
  pose proof (enqueue_no_lost_work 6 "p" "sync" threeChanges oneQueued ltac:(discriminate) oneQueued_inv ltac:(vm_compute; discriminate)) as T.
  assert ((enqueue 6 "p" "sync" threeChanges oneQueued).1 = Ok (2, Some (ERepairQueueFull "p" 2))) as E by (vm_compute; reflexivity).
  split; [exact E|]. destruct (enqueue 6 "p" "sync" threeChanges oneQueued) as [[[w f]|e] s']; [|discriminate E].
  destruct T as (_ & T & _). change (2 <= 2) in T || idtac. apply (Z.le_trans _ _ _ (T eq_refl)). vm_compute. discriminate.
Defined.

Definition itemA : RepairItem :=
  match (DueRepairs 5 "p" 10 oneQueued).1 with Ok (it :: _) => it | _ => mkRepairItem "" "" 0 0 0 "" 0 None end.
Definition twiceQueued : Store := run_op (OpEnqueue 6 "p" "sync" [changeOf (fileAt "a" 60)]) (set_faults [] oneQueued).

Lemma twiceQueued_steps : queue_steps oneQueued twiceQueued.
Proof.
  unfold twiceQueued. eapply steps_op; [|apply steps_refl].
  unfold op_room. apply Z.leb_le. vm_compute. reflexivity.
Qed.

Lemma ResolveRepairItem_keeps_newer_witness :
  exists row', repair_queue (db twiceQueued) !! ("p", "a") = Some row' /\
    repair_queue (db (ResolveRepairItem itemA twiceQueued).2) !! ("p", "a") = Some row'.
Proof.
  destruct (repair_queue (db oneQueued) !! ("p", "a")) as [row|] eqn:E1; [|vm_compute in E1; discriminate E1].
  destruct (repair_queue (db twiceQueued) !! ("p", "a")) as [row'|] eqn:E2; [|vm_compute in E2; discriminate E2].
  exists row'. split; [reflexivity|].
  refine (proj1 (proj1 (ResolveRepairItem_keeps_newer 0 0 "" oneQueued twiceQueued row row' itemA oneQueued_inv E1 _ _ E2) _)).
  - vm_compute in E1. injection E1 as <-. vm_compute. reflexivity.
  - exact twiceQueued_steps.
  - vm_compute in E2. injection E2 as <-. vm_compute. discriminate.
Defined.

Lemma DueRepairsInLane_complete_witness :
  (DueRepairsInLane 5 "p" false 10 oneQueued).1 = Ok [itemA] /\ IsLargeRepair (ri_Meta itemA) = false.
Proof.
  assert ((DueRepairsInLane 5 "p" false 10 oneQueued).1 = Ok [itemA]) as E by (vm_compute; reflexivity).
  split; [exact E|].
  apply (proj1 (DueRepairsInLane_complete 5 "p" false 10 oneQueued [itemA] oneQueued_inv eq_refl E) itemA).
  apply list_elem_of_here.
Defined.
