(* ===== verification/Integrity.v ===== *)
(** * Quarantine of damaged content

    internal/store/integrity.go: the durable tables of quarantined names and damaged file
    objects, the in-memory sets that fence reads, and the generation callers cache under. *)

From S2P Require Import Prelude GoStrings FileMeta Database.

(** ** Operations *)

(** [func (s *Store) loadQuarantine() error]: rows are added to what memory already holds. *)
Definition loadQuarantine : St unit :=
  let! names := query (fun d => quarantine d) in
  do! modifyS (fun s => set_integrity (quarantined s ∪ names) (damagedObjects s) (integrityGen s) s) then
  let! objects := query (fun d => damaged_objects d) in
  modifyS (fun s => set_integrity (quarantined s) (damagedObjects s ∪ objects) (integrityGen s) s).

Definition IsDamagedObject (key : string) (s : Store) : bool := bool_decide (key ∈ damagedObjects s).
Definition IsQuarantined (name : string) (s : Store) : bool := bool_decide (name ∈ quarantined s).
Definition QuarantinedNames (s : Store) : list string := elements (quarantined s).
Definition QuarantineSnapshot (s : Store) : Z * list string := (integrityGen s, elements (quarantined s)).
Definition QuarantineGeneration (s : Store) : Z * Z := (integrityGen s, Z.of_nat (size (quarantined s))).
Definition QuarantineCount (s : Store) : Z := Z.of_nat (size (quarantined s)).

(** [func (s *Store) SetQuarantined(name, key string) error]: memory first, then the tables. *)
Definition SetQuarantined (name key : string) : St unit :=
  do! modifyS (fun s => set_integrity ({[name]} ∪ quarantined s) ({[key]} ∪ damagedObjects s)
                          (wrapu64 (integrityGen s + 1)) s) then
  transact (
    do! exec (upd_quarantine (fun t => {[name]} ∪ t)) then
    do! exec (upd_damaged (fun t => {[key]} ∪ t)) then
    retS (true, tt)).

(** [func (s *Store) ClearQuarantine(name, verifiedKey string) error]: the tables first. *)
Definition ClearQuarantine (name verifiedKey : string) : St unit :=
  do! transact (
    do! exec (upd_quarantine (fun t => t ∖ {[name]})) then
    do! (if verifiedKey =s "" then retS tt else exec (upd_damaged (fun t => t ∖ {[verifiedKey]}))) then
    retS (true, tt)) then
  modifyS (fun s => set_integrity (quarantined s ∖ {[name]}) (damagedObjects s ∖ {[verifiedKey]})
                      (wrapu64 (integrityGen s + 1)) s).

(** ** What each run leaves *)

Lemma keeps_set_tx name key :
  keeps memory_kept (do! exec (upd_quarantine (fun t => {[name]} ∪ t)) then
    do! exec (upd_damaged (fun t => {[key]} ∪ t)) then (retS (true, tt) : St (bool * unit))).
Proof. eauto 10 with birak. Qed.

Lemma keeps_clear_tx name key :
  keeps memory_kept (do! exec (upd_quarantine (fun t => t ∖ {[name]})) then
    do! (if key =s "" then retS tt else exec (upd_damaged (fun t => t ∖ {[key]}))) then (retS (true, tt) : St (bool * unit))).
Proof. eauto 10 with birak. Qed.

Lemma SetQuarantined_run name key s :
  let '(r, s') := SetQuarantined name key s in
  quarantined s' = {[name]} ∪ quarantined s /\ damagedObjects s' = {[key]} ∪ damagedObjects s /\
  integrityGen s' = wrapu64 (integrityGen s + 1) /\
  db s' = if is_ok r then upd_damaged (fun t => {[key]} ∪ t) (upd_quarantine (fun t => {[name]} ∪ t) (db s)) else db s.
Proof.
  destruct (SetQuarantined name key s) as [[[]|e] s'] eqn:E; unfold SetQuarantined in E;
    unfold bindS at 1, modifyS at 1 in E; set (s0 := set_integrity _ _ _ s) in E.
  - apply transact_Ok in E as (M & b & s1 & s2 & U & E & Hd); [|apply keeps_set_tx].
    apply bindS_Ok in E as ([] & s3 & E1 & E). apply exec_Ok in E1 as [H1 _].
    apply bindS_Ok in E as ([] & s4 & E2 & E). apply exec_Ok in E2 as [H2 _]. injection E as <- <-.
    rewrite Hd, H2, H1, (untouched_db _ _ U). rewrite M. done.
  - apply transact_Err in E; [|apply keeps_set_tx]. by rewrite E.
Qed.

Lemma ClearQuarantine_run name key s :
  let '(r, s') := ClearQuarantine name key s in
  if is_ok r
  then quarantined s' = quarantined s ∖ {[name]} /\ damagedObjects s' = damagedObjects s ∖ {[key]} /\
       integrityGen s' = wrapu64 (integrityGen s + 1) /\ quarantine (db s') = quarantine (db s) ∖ {[name]} /\
       damaged_objects (db s') = (if key =s "" then damaged_objects (db s) else damaged_objects (db s) ∖ {[key]})
  else untouched s s'.
Proof.
  destruct (ClearQuarantine name key s) as [[[]|e] s'] eqn:E; unfold ClearQuarantine in E; simpl.
  - apply bindS_Ok in E as ([] & s1 & E & E2). injection E2 as <-.
    apply transact_Ok in E as (M & b & s2 & s3 & U & E & Hd); [|apply keeps_clear_tx].
    apply bindS_Ok in E as ([] & s4 & E1 & E). apply exec_Ok in E1 as [H1 _].
    apply bindS_Ok in E as ([] & s5 & E2 & E). injection E as <- <-. simpl. rewrite Hd.
    assert (db s5 = if key =s "" then db s4 else upd_damaged (fun t => t ∖ {[key]}) (db s4)) as ->.
    { destruct (key =s ""); [by injection E2 as <-|]. by apply exec_Ok in E2 as [-> _]. }
    rewrite H1, (untouched_db _ _ U). rewrite M. by destruct (key =s "").
  - apply bindS_Err in E as [E|([] & s1 & _ & E)]; [|done]. by apply transact_Err in E; [|apply keeps_clear_tx].
Qed.

(** A restart forgets memory and loads the tables again. *)
Definition Reopen (s : Store) : result err unit * Store := loadQuarantine (set_integrity ∅ ∅ 0 s).

Lemma Reopen_Ok s u s' :
  Reopen s = (Ok u, s') -> quarantined s' = quarantine (db s) /\ damagedObjects s' = damaged_objects (db s) /\ db s' = db s.
Proof.
  unfold Reopen, loadQuarantine. set (s0 := set_integrity ∅ ∅ 0 s). intros E.
  apply bindS_Ok in E as (names & s1 & E1 & E). apply query_Ok in E1 as [-> U1].
  apply bindS_Ok in E as ([] & s2 & E2 & E). injection E2 as <-.
  apply bindS_Ok in E as (objs & s3 & E3 & E). apply query_Ok in E3 as [-> U3]. injection E as <- <-. simpl.
  rewrite U3. simpl. rewrite U1. simpl. split_and!; [set_solver..|done].
Qed.

(** ** Runs of the component *)

Inductive integrity_op :=
| ISet (name key : string)
| IClear (name key : string)
| IReopen.

Definition run_integrity (op : integrity_op) (s : Store) : result err unit * Store :=
  match op with
  | ISet name key => SetQuarantined name key s
  | IClear name key => ClearQuarantine name key s
  | IReopen => Reopen s
  end.

(** Steps in which no successful [ClearQuarantine] of [name] occurs. A failed reopen is a
    process that does not start. *)
Inductive fence_steps (name : string) : Store -> Store -> Prop :=
| fence_refl s : fence_steps name s s
| fence_op s op fs r s1 s' :
    run_integrity op (set_faults fs s) = (r, s1) ->
    (is_ok r = true -> forall key, op <> IClear name key) ->
    (op = IReopen -> is_ok r = true) ->
    fence_steps name s1 s' -> fence_steps name s s'.

Lemma fence_step_keeps name op s r s1 :
  run_integrity op s = (r, s1) -> (is_ok r = true -> forall key, op <> IClear name key) -> (op = IReopen -> is_ok r = true) ->
  name ∈ quarantine (db s) /\ name ∈ quarantined s -> name ∈ quarantine (db s1) /\ name ∈ quarantined s1.
Proof.
  intros E Hop Hre [Hd Hm]. destruct op as [n k|n k|]; simpl in E.
  - pose proof (SetQuarantined_run n k s) as H. rewrite E in H. destruct H as (-> & _ & _ & ->).
    split; [|set_solver]. destruct (is_ok r); simpl; set_solver.
  - pose proof (ClearQuarantine_run n k s) as H. rewrite E in H. destruct (is_ok r).
    + destruct H as (-> & _ & _ & -> & _). assert (name <> n) by (intros ->; by apply (Hop eq_refl k)). set_solver.
    + by rewrite H.
  - destruct r as [u|e]; [|by discriminate Hre]. apply Reopen_Ok in E as (-> & _ & ->). done.
Qed.

(** The fence in memory is at least as strict as the tables. *)
Definition fence_inv (s : Store) : Prop :=
  quarantine (db s) ⊆ quarantined s /\ damaged_objects (db s) ∖ {[""]} ⊆ damagedObjects s.

Lemma run_integrity_inv op s : fence_inv s -> fence_inv (run_integrity op s).2 \/ (run_integrity op s).1 = Err EDb /\ op = IReopen.
Proof.
  intros [H1 H2]. destruct op as [n k|n k|]; simpl.
  - left. pose proof (SetQuarantined_run n k s) as H. destruct (SetQuarantined n k s) as [r s']. destruct H as (E1 & E2 & _ & E3).
    unfold fence_inv. simpl. rewrite E1, E2, E3. destruct (is_ok r); simpl; set_solver.
  - left. pose proof (ClearQuarantine_run n k s) as H. destruct (ClearQuarantine n k s) as [r s']. unfold fence_inv. simpl.
    destruct (is_ok r); [|by rewrite H]. destruct H as (-> & -> & _ & -> & ->). split; [set_solver|].
    destruct (k =s "") eqn:Ek; [|set_solver]. apply eqs_true in Ek as ->. set_solver.
  - destruct (Reopen s) as [[u|e] s'] eqn:E; simpl.
    + left. apply Reopen_Ok in E as (E1 & E2 & E3). unfold fence_inv. rewrite E1, E2, E3. set_solver.
    + right. split; [|done]. unfold Reopen, loadQuarantine in E. set (s0 := set_integrity _ _ _ _) in E.
      apply bindS_Err in E as [E|(x & s1 & _ & E)]; [by apply query_Err in E as [-> _]|].
      apply bindS_Err in E as [E|(y & s2 & _ & E)]; [done|].
      apply bindS_Err in E as [E|(z & s3 & _ & E)]; [by apply query_Err in E as [-> _]|done].
Qed.

(** ** Properties *)

(** A name quarantined with success stays fenced, in memory and in the tables, through
    any later quarantines, clears of other names, failed clears of its own, database failures
    and restarts, until a clear of that name succeeds. *)
Theorem quarantine_is_durable (name key : string) (s s1 s' : Store) :
  SetQuarantined name key s = (Ok tt, s1) -> fence_steps name s1 s' ->
  IsQuarantined name s' = true /\ name ∈ quarantine (db s').
Proof.
  intros E Hst. assert (name ∈ quarantine (db s1) /\ name ∈ quarantined s1) as Hin.
  { pose proof (SetQuarantined_run name key s) as H. rewrite E in H. destruct H as (-> & _ & _ & ->). simpl. set_solver. }
  clear E. enough (name ∈ quarantine (db s') /\ name ∈ quarantined s') as [? ?].
  { split; [|done]. by apply bool_decide_eq_true. }
  induction Hst as [s1|s1 op fs r s2 s' E H1 H2 Hst IH]; [done|]. apply IH. by eapply fence_step_keeps.
Qed.

(** Reads are fenced whatever the database does: [SetQuarantined] fences the name and the
    object even when it reports a failure, [ClearQuarantine] lifts the fence only when it
    succeeds, both move the generation whenever they change the fence, and the fence in memory
    is never weaker than the tables a restart would load. *)
Theorem quarantine_fence_first (name key : string) (s : Store) :
  fence_inv s ->
  let '(r1, s1) := SetQuarantined name key s in
  let '(r2, s2) := ClearQuarantine name key s in
  (IsQuarantined name s1 = true /\ IsDamagedObject key s1 = true /\ integrityGen s1 = wrapu64 (integrityGen s + 1) /\ fence_inv s1) /\
  (fence_inv s2 /\
   if is_ok r2 then IsQuarantined name s2 = false /\ integrityGen s2 = wrapu64 (integrityGen s + 1)
   else quarantined s2 = quarantined s /\ damagedObjects s2 = damagedObjects s /\ db s2 = db s).
Proof.
  intros Hinv. pose proof (SetQuarantined_run name key s) as R1. pose proof (ClearQuarantine_run name key s) as R2.
  pose proof (run_integrity_inv (ISet name key) s Hinv) as I1. pose proof (run_integrity_inv (IClear name key) s Hinv) as I2. simpl in I1, I2.
  destruct (SetQuarantined name key s) as [r1 s1], (ClearQuarantine name key s) as [r2 s2]. simpl in I1, I2.
  destruct I1 as [I1|[_ ?]]; [|done]. destruct I2 as [I2|[_ ?]]; [|done]. destruct R1 as (Q1 & D1 & G1 & _). split.
  - unfold IsQuarantined, IsDamagedObject. rewrite Q1, D1, !bool_decide_eq_true. split_and!; [set_solver..|done|done].
  - split; [done|]. destruct (is_ok r2); [|by rewrite R2]. destruct R2 as (Q2 & _ & G2 & _). split; [|done].
    unfold IsQuarantined. rewrite Q2. apply bool_decide_eq_false. set_solver.
Qed.

(** ** Witnesses *)

Definition quarantineSample : Store := freshStore emptyDB [].

Lemma quarantine_is_durable_witness :
  let s1 := (SetQuarantined "a" "1:2" quarantineSample).2 in
  let s2 := (ClearQuarantine "a" "1:2" (set_faults [false; true] s1)).2 in
  IsQuarantined "a" (Reopen (set_faults [] s2)).2 = true.
Proof.
  intros s1 s2. apply (quarantine_is_durable "a" "1:2" quarantineSample s1).
  - reflexivity.
  - refine (fence_op "a" s1 (IClear "a" "1:2") [false; true] (ClearQuarantine "a" "1:2" (set_faults [false; true] s1)).1 s2 _ (surjective_pairing _) _ _ _);
      [vm_compute; discriminate|discriminate|].
    refine (fence_op "a" s2 IReopen [] (Reopen (set_faults [] s2)).1 (Reopen (set_faults [] s2)).2 _ (surjective_pairing _) _ _ (fence_refl _ _)); [discriminate|vm_compute; reflexivity].
Defined.

Lemma quarantine_fence_first_witness :
  (SetQuarantined "a" "1:2" (set_faults [true] quarantineSample)).1 = Err EDb /\
  IsQuarantined "a" (SetQuarantined "a" "1:2" (set_faults [true] quarantineSample)).2 = true.
Proof.
  assert (fence_inv (set_faults [true] quarantineSample)) as Hinv by (split; set_solver).
  pose proof (quarantine_fence_first "a" "1:2" (set_faults [true] quarantineSample) Hinv) as T.
  split; [reflexivity|]. destruct (SetQuarantined _ _ _) as [r1 s1], (ClearQuarantine _ _ _) as [r2 s2].
  exact (proj1 (proj1 T)).
Defined.
