(* ===== verification/Intents.v ===== *)
(** * Intents and interrupted downloads

    internal/store/intents.go and partials.go: the rows that carry a gateway's mutation and a
    replica's publication across a restart, the subtree queries, and the records of downloads
    that stopped part-way. *)

From S2P Require Import Prelude GoStrings FileMeta Database Names Store.

(** ** Local intents *)

Section Local.
Context `{NameFolding}.

(** [func (s *Store) BeginLocal(paths []string) error] *)
Definition beginOne (path : string) : St unit :=
  do! bindName path then exec (upd_local (fun t => {[path]} ∪ t)).
Definition BeginLocal (paths : list string) : St unit :=
  transact (do! forS beginOne paths then retS (true, tt)).
End Local.

(** [func (s *Store) LocalIntents() ([]string, error)] *)
Definition LocalIntents : St (list string) :=
  query (fun d => merge_sort String.le (elements (local_intents d))).

(** [func (s *Store) HasLocalIntent(name string) (bool, error)] *)
Definition HasLocalIntent (name : string) : St bool :=
  let! paths := LocalIntents in
  retS (existsb (fun p => (name =s p) || HasPrefix name (p +:+ "/")) paths).

(** [func (s *Store) EndLocal(paths []string) error] *)
Definition EndLocal (paths : list string) : St unit :=
  transact (do! forS (fun p => exec (upd_local (fun t => t ∖ {[p]}))) paths then retS (true, tt)).

(** ** Replica intents *)

(** [StageReplica], [ReplicaIntent], [ReplicaIntents], [ClearReplicaIntent] *)
Definition StageReplica (meta : FileMeta) : St unit :=
  exec (upd_replica (fun t => <[Name meta := json_Marshal meta]> t)).
Definition ReplicaIntent (name : string) : St (option FileMeta) :=
  let! row := query (fun d => replica_intents d !! name) in
  match row with
  | None => retS None
  | Some e => match json_Unmarshal e with Some m => retS (Some m) | None => failS EDecode end
  end.
Definition ReplicaIntents : St (list string) :=
  query (fun d => merge_sort String.le (elements (dom (replica_intents d)))).
Definition ClearReplicaIntent (name : string) : St unit := exec (upd_replica (fun t => delete name t)).

(** ** Subtrees *)

(** [func (s *Store) listSubtree(query, path string) ([]FileMeta, error)]: the name itself and
    the byte range of names under it; the order of the rows is SQLite's choice. *)
Definition in_subtree (path : string) (r : FileMeta) : bool :=
  (Name r =s path) || ((path +:+ "/" <=s Name r) && (Name r <s path +:+ "0")).
Definition listSubtree (where_ : FileMeta -> bool) (path : string) : St (list FileMeta) :=
  query (fun d => select (fun r => where_ r && in_subtree path r) (files d)).
Definition ListSubtree (path : string) : St (list FileMeta) := listSubtree (fun _ => true) path.
Definition ListLiveSubtree (path : string) : St (list FileMeta) := listSubtree (fun r => negb (Deleted r)) path.

(** ** Interrupted downloads *)

Record PartialDownload := mkPartial {
  pt_Meta : FileMeta;
  pt_Path : string;
  pt_Verified : Z;
  pt_Prefix : string;
  pt_Updated : Z
}.

Definition scanPartial (row : partial_row) : result err PartialDownload :=
  match json_Unmarshal (pd_metadata row) with
  | None => Err EDecode
  | Some m => Ok (mkPartial m (pd_path row) (pd_verified_bytes row) (pd_prefix_hash row) (pd_updated_at row))
  end.

Fixpoint scanPartials (rows : list (string * partial_row)) : result err (list PartialDownload) :=
  match rows with
  | [] => Ok []
  | (_, row) :: rest =>
      match scanPartial row with
      | Err e => Err e
      | Ok p => match scanPartials rest with Err e => Err e | Ok ps => Ok (p :: ps) end
      end
  end.

(** [PartialDownloads], [SavePartialDownload], [DropPartialDownload] *)
Definition PartialDownloads : St (list PartialDownload) :=
  let! rows := query (fun d => merge_sort (by_string fst) (map_to_list (partial_downloads d))) in
  liftS (scanPartials rows).
Definition SavePartialDownload (now : Z) (p : PartialDownload) : St unit :=
  exec (upd_partials (fun t => <[Name (pt_Meta p) :=
    mkPartialRow (json_Marshal (pt_Meta p)) (pt_Path p) (pt_Verified p) (pt_Prefix p) now]> t)).
Definition DropPartialDownload (name : string) : St unit := exec (upd_partials (fun t => delete name t)).

(** ** Facts *)

Section Facts.
Context `{NameFolding}.

(** Only reserved spellings and local intents moved, and neither shrank. *)
Record begun (d d' : DB) : Prop := {
  bg_only : d' = upd_local (fun _ => local_intents d') (upd_names (fun _ => namespace_names d') d);
  bg_names : namespace_names d ⊆ namespace_names d';
  bg_local : local_intents d ⊆ local_intents d'
}.

#[export] Instance begun_preorder : PreOrder begun.
Proof.
  split; [by intros []; split|]. intros d1 d2 d3 [A1 B1 C1] [A2 B2 C2]. split; [|by etrans|set_solver].
  rewrite A2 at 1. rewrite A1. done.
Qed.

Lemma beginOne_Ok path s s' :
  beginOne path s = (Ok tt, s') ->
  begun (db s) (db s') /\ name_bound (db s') path /\ local_intents (db s') = {[path]} ∪ local_intents (db s).
Proof.
  unfold beginOne. intros E. apply bindS_Ok in E as ([] & s1 & E1 & E). apply bindName_Ok in E1 as (Ho & _ & Hb).
  apply exec_Ok in E as [Hd _]. destruct Ho as [H1 H2].
  assert (local_intents (db s1) = local_intents (db s)) as Hl by by rewrite H1.
  rewrite Hd. simpl. rewrite Hl. split; [|split; [|done]].
  - split; simpl; [by rewrite H1|by apply H2|set_solver].
  - destruct Hb as (parts & Hp & Hf). exists parts. by split.
Qed.

Lemma name_bound_begun d d' n : begun d d' -> name_bound d n -> name_bound d' n.
Proof.
  intros [_ Hn _] (parts & Hp & Hf). exists parts. split; [done|]. eapply Forall_impl; [exact Hf|].
  intros x Hx. unfold bound in *. by eapply lookup_weaken.
Qed.

Lemma forS_beginOne_Ok paths s s' :
  forS beginOne paths s = (Ok tt, s') ->
  begun (db s) (db s') /\ Forall (name_bound (db s')) paths /\ local_intents (db s') = list_to_set paths ∪ local_intents (db s).
Proof.
  revert s. induction paths as [|p paths IH]; intros s E; simpl in E.
  - injection E as <-. split; [done|]. split; [constructor|set_solver].
  - apply bindS_Ok in E as ([] & s1 & E1 & E). apply beginOne_Ok in E1 as (B1 & N1 & L1).
    apply IH in E as (B2 & N2 & L2). split; [by etrans|]. split.
    + constructor; [by eapply name_bound_begun|done].
    + rewrite L2, L1. simpl. set_solver.
Qed.

Lemma keeps_begin paths : keeps memory_kept (do! forS beginOne paths then (retS (true, tt) : St (bool * unit))).
Proof.
  apply keeps_bind; [apply _| |intros ?; auto with birak]. apply keeps_for; [apply _|]. intros p. unfold beginOne.
  apply keeps_bind; [apply _|apply keeps_bindName|]. auto with birak.
Qed.
End Facts.

Lemma forS_end_Ok paths s s' :
  forS (fun p => exec (upd_local (fun t => t ∖ {[p]}))) paths s = (Ok tt, s') ->
  db s' = upd_local (fun t => t ∖ list_to_set paths) (db s).
Proof.
  revert s. induction paths as [|p paths IH]; intros s E; simpl in E.
  - injection E as <-. destruct (db s) eqn:Ed. unfold upd_local. simpl. f_equal. apply leibniz_equiv. set_solver.
  - apply bindS_Ok in E as ([] & s1 & E1 & E). apply exec_Ok in E1 as [H1 _]. apply IH in E as ->. rewrite H1.
    unfold upd_local. simpl. f_equal. apply leibniz_equiv. set_solver.
Qed.

Lemma keeps_end paths :
  keeps memory_kept (do! forS (fun p => exec (upd_local (fun t => t ∖ {[p]}))) paths then (retS (true, tt) : St (bool * unit))).
Proof. eauto 10 with birak. Qed.

Lemma existsb_intent name l :
  existsb (fun p => (name =s p) || HasPrefix name (p +:+ "/")) l = true <->
  exists p, p ∈ l /\ (name = p \/ HasPrefix name (p +:+ "/") = true).
Proof.
  rewrite existsb_exists. setoid_rewrite <- list_elem_of_In. setoid_rewrite orb_true_iff. by setoid_rewrite eqs_true.
Qed.

Lemma HasLocalIntent_Ok name s b s' :
  HasLocalIntent name s = (Ok b, s') ->
  b = true <-> exists p, p ∈ local_intents (db s) /\ (name = p \/ HasPrefix name (p +:+ "/") = true).
Proof.
  unfold HasLocalIntent, LocalIntents. intros E. apply bindS_Ok in E as (l & s1 & E1 & E). apply query_Ok in E1 as [-> _].
  injection E as <- <-. rewrite existsb_intent. setoid_rewrite elem_of_merge_sort. by setoid_rewrite elem_of_elements.
Qed.

(** Records of downloads in the shape [SavePartialDownload] writes. *)
Definition partials_ok (d : DB) : Prop :=
  map_Forall (fun k row => exists m, pd_metadata row = EncMeta m /\ Name m = k) (partial_downloads d).

Definition without_DeletedAt (m : FileMeta) : FileMeta := default m (json_Unmarshal (json_Marshal m)).

Lemma scanPartials_total rows :
  Forall (fun kr => exists m, pd_metadata kr.2 = EncMeta m) rows ->
  exists ps, scanPartials rows = Ok ps /\ forall p, p ∈ ps <-> exists kr, kr ∈ rows /\ scanPartial kr.2 = Ok p.
Proof.
  induction 1 as [|[k row] rows [m Hm] Hf (ps & IH1 & IH2)]; simpl; [exists []; split; [done|set_solver]|].
  simpl in Hm. destruct (scanPartial row) as [p0|e] eqn:E; [|unfold scanPartial in E; by rewrite Hm in E].
  rewrite IH1. exists (p0 :: ps). split; [done|]. intros p. rewrite elem_of_cons, IH2. split.
  - intros [->|(kr & ? & ?)]; [exists (k, row); set_solver|exists kr; set_solver].
  - intros (kr & [->|?]%elem_of_cons & Hs); [left; simpl in Hs; congruence|right; eauto].
Qed.

Lemma PartialDownloads_total s :
  nofault s -> partials_ok (db s) ->
  exists ps, PartialDownloads s = (Ok ps, s) /\
    forall p, p ∈ ps <-> exists k row, partial_downloads (db s) !! k = Some row /\ scanPartial row = Ok p.
Proof.
  intros Hn Hok. unfold PartialDownloads, bindS. rewrite query_nofault by done.
  destruct (scanPartials_total (merge_sort (by_string fst) (map_to_list (partial_downloads (db s))))) as (ps & E & Hps).
  { apply Forall_forall. intros [k row] Hin. apply elem_of_merge_sort, elem_of_map_to_list in Hin.
    destruct (Hok k row Hin) as (m & Hm & _). by exists m. }
  exists ps. unfold liftS. rewrite E. split; [done|]. intros p. rewrite Hps. setoid_rewrite elem_of_merge_sort.
  split; [intros ([k row] & Hin & ?)|intros (k & row & Hk & ?)].
  - apply elem_of_map_to_list in Hin. eauto.
  - exists (k, row). by rewrite elem_of_map_to_list.
Qed.

(** ** Properties *)

Section IntentProperties.
Context `{NameFolding}.

(** A gateway's mutation is announced for all of its paths or none: when [BeginLocal]
    fails no table moved; when it succeeds every path's spelling is reserved, exactly the given
    paths were added, and [HasLocalIntent] then answers yes exactly for names at or below a
    path announced now or before. [EndLocal] of the same paths withdraws exactly those. *)
Theorem BeginLocal_EndLocal (paths : list string) (s s' s2 : Store) (r : result err unit) :
  BeginLocal paths s = (r, s') -> EndLocal paths s' = (Ok tt, s2) ->
  match r with
  | Err _ => db s' = db s
  | Ok _ =>
      Forall (name_bound (db s')) paths /\ files (db s') = files (db s) /\
      (forall name b s3, HasLocalIntent name s' = (Ok b, s3) -> b = true <->
         exists p, (p ∈ paths \/ p ∈ local_intents (db s)) /\ (name = p \/ HasPrefix name (p +:+ "/") = true)) /\
      local_intents (db s2) = local_intents (db s) ∖ list_to_set paths /\ files (db s2) = files (db s)
  end.
Proof.
  intros E E2. destruct r as [[]|e]; [|by apply transact_Err, untouched_db in E; [|apply keeps_begin]].
  apply transact_Ok in E as (_ & b & s0 & s1 & U & E & Hd); [|apply keeps_begin].
  apply bindS_Ok in E as ([] & s3 & E & Er). injection Er as <- <-. apply forS_beginOne_Ok in E as (B & N & L).
  rewrite (untouched_db _ _ U) in *. rewrite Hd.
  assert (files (db s3) = files (db s)) as Hf by by rewrite (bg_only _ _ B).
  split; [done|]. split; [done|]. split.
  - intros name b s4 Hh. apply HasLocalIntent_Ok in Hh. rewrite Hh, Hd, L. split.
    + intros (p & Hp & ?). exists p. split; [set_solver|done].
    + intros (p & Hp & ?). exists p. split; [set_solver|done].
  - apply transact_Ok in E2 as (_ & b & s4 & s5 & U2 & E2 & Hd2); [|apply keeps_end].
    apply bindS_Ok in E2 as ([] & s6 & E2 & Er). injection Er as <- <-. apply forS_end_Ok in E2.
    rewrite Hd2, E2, (untouched_db _ _ U2), Hd. simpl. split; [|done]. rewrite L. apply leibniz_equiv. set_solver.
Qed.

(** A replica intent bridges the filesystem and the database: what [StageReplica] recorded
    is what recovery reads back (every field but the local deletion time), and committing the
    name's state, local or remote, removes it in the same transaction. *)
Theorem replica_intent_lifecycle (now : Z) (meta next : FileMeta) (local : bool) (s s1 s2 : Store) (ver : Z) :
  store_inv s -> StageReplica meta s = (Ok tt, s1) -> Name next = Name meta -> commitPut now next local s1 = (Ok ver, s2) ->
  nofault s1 -> nofault s2 ->
  (ReplicaIntent (Name meta) s1).1 = Ok (Some (without_DeletedAt meta)) /\
  (ReplicaIntent (Name meta) s2).1 = Ok None /\ is_Some (files (db s2) !! Name meta).
Proof.
  intros Hinv E1 Hn E2 F1 F2. apply exec_Ok in E1 as [Hd M].
  assert (store_inv s1) as Hinv1.
  { unfold memory_kept in M. rewrite Hd in M. rewrite M. destruct Hinv. by split. }
  apply commitPut_Ok in E2 as (-> & _ & _ & _ & nn & _ & Hd2); [|done].
  unfold ReplicaIntent, bindS. rewrite !query_nofault by done. rewrite Hd. simpl. rewrite lookup_insert_eq. split; [done|].
  rewrite Hd2. unfold put_tables. simpl. rewrite putState_name, Hn, lookup_delete_eq. split; [done|]. rewrite lookup_insert_eq. eauto.
Qed.
End IntentProperties.

(** A subtree query returns each row at or below the path exactly once and no other: the
    byte range "path/" to "path0" is exactly the names with the path as a directory prefix, so
    "docs2" is not under "docs". The live variant only leaves tombstones out. *)
Theorem ListSubtree_exact (path : string) (s s' : Store) (rows : list FileMeta) (onlyLive : bool) :
  well_keyed (db s) ->
  (if onlyLive then ListLiveSubtree path else ListSubtree path) s = (Ok rows, s') ->
  NoDup rows /\
  forall r, r ∈ rows <-> files (db s) !! Name r = Some r /\
    (Name r = path \/ HasPrefix (Name r) (path +:+ "/") = true) /\ (onlyLive = true -> Deleted r = false).
Proof.
  intros Hk E.
  assert (exists w, (forall r, w r = true <-> (onlyLive = true -> Deleted r = false)) /\
            rows = select (fun r => w r && in_subtree path r) (files (db s))) as (w & Hw & ->).
  { destruct onlyLive; apply query_Ok in E as [-> _]; eexists; (split; [|reflexivity]); intros r.
    - rewrite negb_true_iff. naive_solver.
    - naive_solver. }
  split; [by apply NoDup_select|]. intros r. rewrite elem_of_select, andb_true_iff, Hw. unfold in_subtree.
  rewrite orb_true_iff, eqs_true, subtree_range. split.
  - intros [[? ?] [k Hr]]. split; [|done]. by rewrite (Hk _ _ Hr).
  - intros (? & ? & ?). split; [done|]. eauto.
Qed.

(** The record of an interrupted download is read back as it was saved (its state up to
    the local deletion time, with the time of saving), in place of any earlier record of the
    name, beside the records of every other name; dropping it removes only it. *)
Theorem SavePartialDownload_roundtrip (now : Z) (p : PartialDownload) (s s1 s2 : Store) :
  partials_ok (db s) -> nofault s1 -> nofault s2 ->
  SavePartialDownload now p s = (Ok tt, s1) -> DropPartialDownload (Name (pt_Meta p)) s1 = (Ok tt, s2) ->
  let saved := mkPartial (without_DeletedAt (pt_Meta p)) (pt_Path p) (pt_Verified p) (pt_Prefix p) now in
  exists before after,
    PartialDownloads s1 = (Ok before, s1) /\ PartialDownloads s2 = (Ok after, s2) /\
    (forall q, q ∈ before <-> q = saved \/ q ∈ after) /\
    (forall q, q ∈ after -> Name (pt_Meta q) <> Name (pt_Meta p)) /\
    (forall k row q, partial_downloads (db s) !! k = Some row -> scanPartial row = Ok q -> k <> Name (pt_Meta p) -> q ∈ after).
Proof.
  intros Hok N1 N2 E1 E2 saved. apply exec_Ok in E1 as [H1 _]. apply exec_Ok in E2 as [H2 _].
  set (n := Name (pt_Meta p)) in *. set (row0 := mkPartialRow _ _ _ _ _) in H1.
  assert (partials_ok (db s1)) as Hok1.
  { unfold partials_ok. rewrite H1. apply map_Forall_insert_2; [by eexists|done]. }
  assert (partials_ok (db s2)) as Hok2 by (unfold partials_ok; rewrite H2; by apply map_Forall_delete).
  destruct (PartialDownloads_total s1 N1 Hok1) as (before & P1 & Q1).
  destruct (PartialDownloads_total s2 N2 Hok2) as (after & P2 & Q2).
  assert (forall k row, partial_downloads (db s2) !! k = Some row <-> k <> n /\ partial_downloads (db s1) !! k = Some row) as Hdel.
  { intros k row. rewrite H2. simpl. rewrite lookup_delete_Some. naive_solver. }
  assert (scanPartial row0 = Ok saved) as Hs by done.
  assert (partial_downloads (db s1) !! n = Some row0) as Hr by (rewrite H1; simpl; by rewrite lookup_insert_eq).
  exists before, after. split; [done|]. split; [done|]. split_and!.
  - intros q. rewrite Q1, Q2. setoid_rewrite Hdel. split.
    + intros (k & row & Hk & Hq). destruct (decide (k = n)) as [->|Hne]; [left; simplify_eq; congruence|right; eauto].
    + intros [->|(k & row & [_ Hk] & Hq)]; eauto.
  - intros q Hq. apply Q2 in Hq as (k & row & Hk & Hq). pose proof (Hok2 k row Hk) as (m & Hm & Hnm). apply Hdel in Hk as [Hne _].
    unfold scanPartial in Hq. rewrite Hm in Hq. injection Hq as <-. simpl. congruence.
  - intros k row q Hk Hq Hne. apply Q2. exists k, row. split; [|done]. apply Hdel. split; [done|].
    rewrite H1. simpl. by rewrite lookup_insert_ne by congruence.
Qed.

(** ** Witnesses *)

Lemma BeginLocal_EndLocal_witness :
  let s' := (BeginLocal (H := asciiFolding) ["a"; "c/d"] storeWithChild).2 in
  let s2 := (EndLocal ["a"; "c/d"] s').2 in
  (HasLocalIntent "c/d/e" s').1 = Ok true /\ local_intents (db s2) = local_intents (db storeWithChild) ∖ list_to_set ["a"; "c/d"].
Proof.
  intros s' s2.
  destruct (BeginLocal_EndLocal (H := asciiFolding) ["a"; "c/d"] storeWithChild s' s2 (Ok tt)) as (_ & _ & _ & T & _).
  - vm_compute. reflexivity.
  - vm_compute. reflexivity.
  - split; [vm_compute; reflexivity|exact T].
Defined.

Lemma replica_intent_lifecycle_witness :
  let s1 := (StageReplica (fileAt "a/b" 70) storeWithChild).2 in
  (ReplicaIntent "a/b" s1).1 = Ok (Some (without_DeletedAt (fileAt "a/b" 70))) /\
  (ReplicaIntent "a/b" (PutRemote (H := asciiFolding) 8 (fileAt "a/b" 70) s1).2).1 = Ok None.
Proof.
  intros s1.
  destruct (replica_intent_lifecycle (H := asciiFolding) 8 (fileAt "a/b" 70) (fileAt "a/b" 70) false storeWithChild s1
    (PutRemote (H := asciiFolding) 8 (fileAt "a/b" 70) s1).2 2 storeWithChild_inv) as (T1 & T2 & _).
  1-5: vm_compute; reflexivity.
  exact (conj T1 T2).
Defined.

Lemma ListSubtree_exact_witness :
  exists rows, (ListSubtree "a" storeWithChild).1 = Ok rows /\ rows <> [] /\ NoDup rows.
Proof.
  exists (match (ListSubtree "a" storeWithChild).1 with Ok rows => rows | Err _ => [] end).
  split; [vm_compute; reflexivity|]. split; [vm_compute; discriminate|].
  refine (proj1 (ListSubtree_exact "a" storeWithChild (ListSubtree "a" storeWithChild).2 _ false _ _)).
  - apply (inv_keyed (H := asciiFolding)), storeWithChild_inv.
  - vm_compute. reflexivity.
Defined.

Definition partialSample : PartialDownload := mkPartial (fileAt "a/b" 70) ".birak/x" 100 "ff" 0.

Lemma SavePartialDownload_roundtrip_witness :
  exists before, (PartialDownloads (SavePartialDownload 9 partialSample storeWithChild).2).1 = Ok before /\
    mkPartial (without_DeletedAt (fileAt "a/b" 70)) ".birak/x" 100 "ff" 9 ∈ before.
Proof.
  destruct (SavePartialDownload_roundtrip 9 partialSample storeWithChild
    (SavePartialDownload 9 partialSample storeWithChild).2
    (DropPartialDownload "a/b" (SavePartialDownload 9 partialSample storeWithChild).2).2) as (before & after & T1 & _ & T2 & _).
  - intros k row Hk. vm_compute in Hk. discriminate Hk.
  - vm_compute. reflexivity.
  - vm_compute. reflexivity.
  - vm_compute. reflexivity.
  - vm_compute. reflexivity.
  - exists before. rewrite T1. split; [reflexivity|]. apply T2. left. reflexivity.
Defined.
