(* ===== verification/Opening.v ===== *)
(** * Opening a database

    internal/store/store.go [New]: the schema step, the one-off migrations, the counters and
    the in-memory caches rebuilt from the tables. What is in memory when the process stops is
    lost, so this is also what every restart and every crash recovery runs. *)

From S2P Require Import Prelude GoStrings FileMeta Database Names Store RepairQueue Integrity.

(** ** Migrations *)

(** [INSERT INTO node_meta(key,value) VALUES (key, v) ON CONFLICT DO UPDATE SET value =
    MAX(CAST(value AS INTEGER), v)] *)
Definition raise_counter (key : string) (v : Z) (t : gmap string string) : gmap string string :=
  <[key := FormatInt (match t !! key with Some old => Z.max (sql_cast old) v | None => v end)]> t.

Definition max_or_zero (l : list Z) : Z := default 0 (sql_max l).

(** The rows [migrateRepairLanes] moves to the large lane. *)
Definition lane_of_json (r : repair_row) : repair_row :=
  match rr_metadata r with
  | EncMeta m => if negb (Deleted m) && (LargeRepairBytes <=? Size m)
                 then mkRepairRow (rr_version r) (rr_attempts r) (rr_next_attempt r) (rr_first_seen r)
                        (rr_last_error r) (rr_metadata r) (rr_revision r) true
                 else r
  | EncEmpty | EncInvalid => r
  end.

(** [func (s *Store) migrateRepairLanes() error] *)
Definition migrateRepairLanes : St unit :=
  do! exec (fun d => d) then (* CREATE INDEX *)
  transact (
    let! done_ := query (fun d => node_meta d !! "repair_lanes_v1") in
    match done_ with
    | Some _ => retS (false, tt)
    | None =>
        do! exec (upd_queue (fun t => lane_of_json <$> t)) then
        do! exec (upd_meta (fun t => <["repair_lanes_v1" := "1"]> t)) then
        retS (true, tt)
    end).

Definition stamp_tombstone (now : Z) (r : FileMeta) : FileMeta :=
  if Deleted r && (DeletedAt r =? 0) then {|
    Name := Name r; ModTime := ModTime r; Size := Size r; Hash := Hash r; Deleted := Deleted r;
    Version := Version r; BigClock := BigClock r; Clock := Clock r; SupersededBy := SupersededBy r;
    ConflictOf := ConflictOf r; DeletedAt := now |}
  else r.

(** [func (s *Store) migrate() error] on a database with the current columns: the schema text
    creates nothing, and each of the ten column checks only inspects its table. *)
Definition migrate (now : Z) : St unit :=
  do! exec (fun d => d) then
  do! forS (fun _ => query (fun _ => tt)) (seq 0 10) then
  do! migrateRepairLanes then
  do! exec (fun d => upd_meta (raise_counter "repair_revision"
              (max_or_zero (map rr_revision (map_to_list (repair_queue d)).*2))) d) then
  exec (upd_files (fun t => stamp_tombstone now <$> t)).

(** [func (s *Store) loadQueueSizes() error]: one count per peer that has rows. *)
Definition queueSizes (t : gmap (string * string) repair_row) : gmap string Z :=
  map_fold (fun k _ acc => <[k.1 := default 0 (acc !! k.1) + 1]> acc) ∅ t.
Definition loadQueueSizes : St unit :=
  let! sizes := query (fun d => queueSizes (repair_queue d)) in
  modifyS (fun s => set_queueSize (sizes ∪ queueSize s) s).

(** [func (s *Store) loadOrCreateEpoch() (string, error)]; [random] is the hex of the random
    bytes, none when the system has no randomness to give. *)
Definition createEpoch (random : option string) : St string :=
  match random with
  | None => failS EDb
  | Some r => do! exec (upd_meta (fun t => <["epoch" := r]> t)) then retS r
  end.
Definition loadOrCreateEpoch (random : option string) : St string :=
  let! v := query (fun d => node_meta d !! "epoch") in
  match v with
  | Some e => if e =s "" then createEpoch random else retS e
  | None => createEpoch random
  end.

Section New.
Context `{NameFolding}.

(** [func New(dbPath string, logger *slog.Logger) ( *Store, error)] after [sql.Open] *)
Definition openStore (now : Z) (random1 random2 : option string) : St unit :=
  do! migrate now then
  do! migrateNames then
  do! exec (fun d => upd_meta (raise_counter "last_version" (max_or_zero (map Version (map_to_list (files d)).*2))) d) then
  let! maxVer := query (fun d => node_meta d !! "last_version") in
  do! (match maxVer with None => failS EDb | Some v => modifyS (set_nextVer (sql_cast v + 1)) end) then
  do! loadQueueSizes then
  let! epoch := loadOrCreateEpoch random1 in
  match random2 with
  | None => failS EDb
  | Some r =>
      do! modifyS (set_epochs epoch (epoch +:+ "-" +:+ r)) then
      loadQuarantine
  end.

Definition New (now : Z) (random1 random2 : option string) (d : DB) (fs : list bool) : result err Store :=
  match openStore now random1 random2 (freshStore d fs) with
  | (Ok _, s) => Ok s
  | (Err e, _) => Err e
  end.
End New.

(** ** The counters *)

Lemma max_or_zero_bound l : Forall (fun x => x <= max_or_zero l) l /\ (Forall (fun x => 0 <= x) l -> 0 <= max_or_zero l).
Proof.
  unfold max_or_zero. destruct l as [|x l]; simpl; [by split|].
  assert (forall a, a <= fold_left Z.max l a /\ Forall (fun y => y <= fold_left Z.max l a) l) as Hf.
  { induction l as [|y l IH]; intros a; simpl; [split; [lia|constructor]|]. destruct (IH (Z.max a y)) as [H1 H2].
    split; [lia|]. constructor; [lia|done]. }
  destruct (Hf x) as [H1 H2]. split; [by constructor|]. intros Hx. inversion_clear Hx. lia.
Qed.

Lemma max_or_zero_le l b : 0 <= b -> Forall (fun x => x <= b) l -> max_or_zero l <= b.
Proof.
  unfold max_or_zero. intros Hb Hl. destruct Hl as [|x l Hx Hl]; simpl; [done|].
  revert x Hx. induction Hl as [|y l Hy Hl IH]; intros x Hx; simpl; [done|]. apply IH. lia.
Qed.

(** The counter after raising it: at least what it was, and at least the given maximum. *)
Definition counter (key : string) (d : DB) : Z := default 0 (sql_cast <$> node_meta d !! key).

Lemma raise_counter_spec key v d b :
  0 <= v <= b -> counter key d <= b -> b <= MaxInt64 ->
  let d' := upd_meta (raise_counter key v) d in
  exists c, node_meta d' !! key = Some (FormatInt c) /\ counter key d' = c /\ v <= c <= b /\ counter key d <= c.
Proof.
  intros Hv Hc Hb d'. unfold counter in *. unfold d', raise_counter. simpl. setoid_rewrite lookup_insert_eq. simpl.
  destruct (node_meta d !! key) as [old|]; simpl in *.
  - exists (Z.max (sql_cast old) v). split; [done|]. rewrite sql_cast_FormatInt by lia. lia.
  - exists v. split; [done|]. rewrite sql_cast_FormatInt by lia. lia.
Qed.

(** The in-memory queue lengths after opening are the row counts. *)
Lemma queueSizes_spec t peer : default 0 (queueSizes t !! peer) = Z.of_nat (size (peer_map t peer)).
Proof.
  unfold queueSizes. revert peer.
  apply (map_fold_weak_ind (fun r (t : gmap (string * string) repair_row) => forall peer, default 0 (r !! peer) = Z.of_nat (size (peer_map t peer)))).
  - intros peer. unfold peer_map. by rewrite map_filter_empty, map_size_empty.
  - intros [p n] row m r Hm IH peer. rewrite peer_rows_insert, Hm. simpl. case_decide as E.
    + subst peer. rewrite lookup_insert_eq. simpl. by rewrite IH.
    + rewrite lookup_insert_ne by congruence. rewrite IH. lia.
Qed.

Lemma lane_of_json_fields r :
  rr_metadata (lane_of_json r) = rr_metadata r /\ rr_revision (lane_of_json r) = rr_revision r /\
  (rr_large r = false -> rr_large (lane_of_json r) = IsLargeRepair (row_state r)).
Proof.
  unfold lane_of_json, row_state. destruct (rr_metadata r) as [|m|] eqn:E; simpl; try done.
  destruct (negb (Deleted m) && _) eqn:E2; simpl; rewrite ?E; done.
Qed.

(** ** What each step of opening leaves *)

Definition lanes_of (d : DB) : DB :=
  match node_meta d !! "repair_lanes_v1" with
  | Some _ => d
  | None => upd_meta (fun t => <["repair_lanes_v1" := "1"]> t) (upd_queue (fun t => lane_of_json <$> t) d)
  end.

Lemma migrateRepairLanes_Ok s s' :
  migrateRepairLanes s = (Ok tt, s') -> memory_kept s s' /\ db s' = lanes_of (db s).
Proof.
  unfold migrateRepairLanes. intros E. apply bindS_Ok in E as ([] & s1 & E1 & E). apply exec_Ok in E1 as [H1 M1].
  apply transact_Ok in E as (M & b & s2 & s3 & U & E & Hd).
  2:{ apply keeps_bind; [apply _|eauto with birak|]. intros [?|]; eauto 10 with birak. }
  split; [by etrans|]. apply untouched_db in U. unfold lanes_of. rewrite H1 in *.
  apply bindS_Ok in E as (v & s4 & E2 & E). apply query_Ok in E2 as [-> U2]. apply untouched_db in U2. rewrite U in *.
  destruct (node_meta (db s) !! "repair_lanes_v1"); [by injection E as <- <-|].
  apply bindS_Ok in E as ([] & s5 & E5 & E). apply bindS_Ok in E as ([] & s6 & E6 & E). injection E as <- <-.
  apply exec_Ok in E5 as [H5 _], E6 as [H6 _]. by rewrite Hd, H6, H5, U2.
Qed.

Definition migrated (now : Z) (d : DB) : DB :=
  let d1 := lanes_of d in
  upd_files (fun t => stamp_tombstone now <$> t)
    (upd_meta (raise_counter "repair_revision" (max_or_zero (map rr_revision (map_to_list (repair_queue d1)).*2))) d1).

Lemma forS_query_Ok {A} (l : list A) s s' : forS (fun _ => query (fun _ => tt)) l s = (Ok tt, s') -> untouched s s'.
Proof.
  revert s. induction l as [|x l IH]; intros s E; simpl in E; [by injection E as <-|].
  apply bindS_Ok in E as ([] & s1 & E1 & E). apply query_Ok in E1 as [_ U]. etrans; [exact U|by apply IH].
Qed.

Lemma migrate_Ok now s s' : migrate now s = (Ok tt, s') -> memory_kept s s' /\ db s' = migrated now (db s).
Proof.
  unfold migrate. intros E. apply bindS_Ok in E as ([] & s1 & E1 & E). apply exec_Ok in E1 as [H1 M1].
  apply bindS_Ok in E as ([] & s2 & E2 & E). apply forS_query_Ok in E2. pose proof (untouched_db _ _ E2) as H2. apply untouched_memory in E2.
  apply bindS_Ok in E as ([] & s3 & E3 & E). apply migrateRepairLanes_Ok in E3 as [M3 H3].
  apply bindS_Ok in E as ([] & s4 & E4 & E). apply exec_Ok in E4 as [H4 M4]. apply exec_Ok in E as [H5 M5].
  split; [by repeat (etrans; [eassumption|])|]. by rewrite H5, H4, H3, H2, H1.
Qed.

Lemma loadOrCreateEpoch_Ok random s e s' :
  loadOrCreateEpoch random s = (Ok e, s') ->
  memory_kept s s' /\ (db s' = db s \/ db s' = upd_meta (fun t => <["epoch" := e]> t) (db s)) /\
  (forall old, node_meta (db s) !! "epoch" = Some old -> old <> "" -> e = old).
Proof.
  unfold loadOrCreateEpoch. intros E. apply bindS_Ok in E as (v & s1 & E1 & E). apply query_Ok in E1 as [-> U].
  pose proof (untouched_db _ _ U) as Hd. apply untouched_memory in U.
  assert (forall r0, createEpoch random s1 = (Ok r0, s') ->
            memory_kept s s' /\ (db s' = db s \/ db s' = upd_meta (fun t => <["epoch" := r0]> t) (db s))) as Hcreate.
  { intros r0. unfold createEpoch. destruct random as [r|]; [|done]. intros E2. apply bindS_Ok in E2 as ([] & s2 & E2 & E3).
    injection E3 as <- <-. apply exec_Ok in E2 as [H2 M2]. split; [by etrans|]. right. by rewrite H2, Hd. }
  destruct (node_meta (db s) !! "epoch") as [old|]; [destruct (old =s "") eqn:Eo|].
  - apply eqs_true in Eo as ->. destruct (Hcreate _ E) as [? ?]. split; [done|]. split; [done|]. by intros ? [= <-].
  - injection E as <- <-. split; [done|]. split; [by left|]. by intros ? [= <-].
  - destruct (Hcreate _ E) as [? ?]. done.
Qed.

(** ** The durable part of the invariants *)

Section Recovery.
Context `{NameFolding}.

(** What the tables of a database written by this program satisfy, whether or not its one-off
    migrations have run yet. *)
Record durable (d : DB) : Prop := {
  du_keyed : well_keyed d;
  du_clocks : clocks_ok d;
  du_named : files d !! "" = None;
  du_names : is_Some (node_meta d !! "portable_names_v1") -> forall n, is_Some (files d !! n) -> name_bound d n;
  du_versions : map_Forall (fun _ r => 1 <= Version r < MaxInt64) (files d);
  du_distinct : forall k1 k2 r1 r2, files d !! k1 = Some r1 -> files d !! k2 = Some r2 -> Version r1 = Version r2 -> k1 = k2;
  du_last : counter "last_version" d < MaxInt64;
  du_revisions : map_Forall (fun _ r => 0 <= rr_revision r <= MaxInt64) (repair_queue d);
  du_revision : counter "repair_revision" d <= MaxInt64;
  du_lanes : if node_meta d !! "repair_lanes_v1" then map_Forall lane_ok (repair_queue d)
             else map_Forall (fun _ r => rr_large r = false) (repair_queue d)
}.

Lemma lanes_of_facts d :
  durable d ->
  files (lanes_of d) = files d /\ namespace_names (lanes_of d) = namespace_names d /\
  (forall k, k <> "repair_lanes_v1" -> node_meta (lanes_of d) !! k = node_meta d !! k) /\
  map_Forall lane_ok (repair_queue (lanes_of d)) /\
  map_Forall (fun _ r => 0 <= rr_revision r <= MaxInt64) (repair_queue (lanes_of d)) /\
  (forall k, option_map rr_metadata (repair_queue (lanes_of d) !! k) = option_map rr_metadata (repair_queue d !! k)).
Proof.
  intros Hd. pose proof (du_lanes _ Hd) as Hl. unfold lanes_of. destruct (node_meta d !! "repair_lanes_v1"); simpl.
  - split_and!; try done. apply (du_revisions _ Hd).
  - split_and!; try done.
    + intros k Hk. by rewrite lookup_insert_ne.
    + intros k row Hk. rewrite lookup_fmap in Hk. apply fmap_Some in Hk as (r & Hr & ->).
      destruct (lane_of_json_fields r) as (Hm & _ & Hlg). unfold lane_ok, row_state. rewrite Hm. by apply Hlg, (Hl k).
    + intros k row Hk. rewrite lookup_fmap in Hk. apply fmap_Some in Hk as (r & Hr & ->).
      destruct (lane_of_json_fields r) as (_ & Hv & _). rewrite Hv. by apply (du_revisions _ Hd k).
    + intros k. rewrite lookup_fmap. destruct (repair_queue d !! k) as [r|]; [|done]. simpl. f_equal. apply lane_of_json_fields.
Qed.

Lemma map_values_Forall {K V} `{Countable K} (P : V -> Prop) (t : gmap K V) :
  map_Forall (fun _ v => P v) t <-> Forall P (map_to_list t).*2.
Proof.
  rewrite Forall_forall. split.
  - intros Ht v Hv. apply list_elem_of_fmap in Hv as ([k v'] & -> & Hin). apply elem_of_map_to_list in Hin. by apply (Ht k).
  - intros Ht k v Hk. apply Ht, list_elem_of_fmap. exists (k, v). split; [done|]. by apply elem_of_map_to_list.
Qed.

(** After [migrate] the queue's durable invariants hold outright. *)
Lemma migrated_queue now d :
  durable d ->
  let d' := migrated now d in
  is_Some (node_meta d' !! "repair_revision") /\ 0 <= revision_of d' /\
  map_Forall (fun _ r => rr_revision r <= revision_of d') (repair_queue d') /\ map_Forall lane_ok (repair_queue d').
Proof.
  intros Hd d'. destruct (lanes_of_facts d Hd) as (_ & _ & Hk & Hl & Hr & _).
  set (revs := map rr_revision (map_to_list (repair_queue (lanes_of d))).*2).
  assert (Forall (fun x => 0 <= x <= MaxInt64) revs) as Hb.
  { apply map_values_Forall in Hr. unfold revs. by apply Forall_fmap. }
  assert (0 <= max_or_zero revs <= MaxInt64) as Hm.
  { split; [apply max_or_zero_bound; eapply Forall_impl; [exact Hb|]; simpl; lia|].
    apply max_or_zero_le; [done|]. eapply Forall_impl; [exact Hb|]. simpl. lia. }
  destruct (raise_counter_spec "repair_revision" (max_or_zero revs) (lanes_of d) MaxInt64 Hm) as (c & Hc & Hcc & Hcb & _); [|done|].
  { unfold counter. rewrite Hk by done. apply (du_revision _ Hd). }
  assert (revision_of d' = c) as -> by exact Hcc.
  split; [by exists (FormatInt c)|]. split; [lia|]. split; [|done].
  intros k row Hrow. destruct (max_or_zero_bound revs) as [Hall _]. rewrite Forall_forall in Hall.
  assert (rr_revision row <= max_or_zero revs); [|lia]. apply Hall. unfold revs. apply list_elem_of_fmap. exists row. split; [done|].
  apply list_elem_of_fmap. exists (k, row). split; [done|]. by apply elem_of_map_to_list.
Qed.

(** Tombstone stamping leaves everything but the deletion time. *)
Lemma stamp_fields now r :
  let r' := stamp_tombstone now r in
  Name r' = Name r /\ Version r' = Version r /\ Clock r' = Clock r /\ BigClock r' = BigClock r /\ ModTime r' = ModTime r /\
  Deleted r' = Deleted r /\ Hash r' = Hash r /\ Size r' = Size r /\ SupersededBy r' = SupersededBy r /\ ConflictOf r' = ConflictOf r /\
  CompareState (Some r) (Some r') = Eq.
Proof.
  intros r'. unfold r', stamp_tombstone. destruct (Deleted r && (DeletedAt r =? 0)); simpl; split_and!; try done;
    [change (compareMeta r r = Eq)|]; apply (cmp_refl compareMeta).
Qed.

Lemma stamp_map_Forall now (P : string -> FileMeta -> Prop) (t : gmap string FileMeta) :
  (forall k r, P k r -> P k (stamp_tombstone now r)) -> map_Forall P t -> map_Forall P (stamp_tombstone now <$> t).
Proof. intros HP Ht k r Hk. rewrite lookup_fmap in Hk. apply fmap_Some in Hk as (r0 & Hr0 & ->). by apply HP, Ht. Qed.

(** The files table and the counter once [last_version] is raised. *)
Lemma opened_versions now d :
  durable d ->
  let t := stamp_tombstone now <$> files d in
  map_Forall (fun k r => Name r = k) t /\ map_Forall (fun _ r => clock_ok r) t /\
  map_Forall (fun _ r => 1 <= Version r < MaxInt64) t /\
  (forall k1 k2 r1 r2, t !! k1 = Some r1 -> t !! k2 = Some r2 -> Version r1 = Version r2 -> k1 = k2) /\
  0 <= max_or_zero (map Version (map_to_list t).*2) <= MaxInt64 - 1 /\
  map_Forall (fun _ r => Version r <= max_or_zero (map Version (map_to_list t).*2)) t.
Proof.
  intros Hd t. assert (forall r, Version (stamp_tombstone now r) = Version r) as Hv by (intros r; apply stamp_fields).
  assert (map_Forall (fun _ r => 1 <= Version r < MaxInt64) t) as Hver.
  { apply stamp_map_Forall; [|apply (du_versions _ Hd)]. intros k r. by rewrite Hv. }
  assert (Forall (fun x => 1 <= x <= MaxInt64 - 1) (map Version (map_to_list t).*2)) as Hb.
  { apply Forall_forall. intros x Hx. apply list_elem_of_fmap in Hx as (r & -> & Hr). apply list_elem_of_fmap in Hr as ([k r'] & -> & Hr).
    apply elem_of_map_to_list in Hr. specialize (Hver k r' Hr). simpl in *. lia. }
  split_and!; try done.
  - apply stamp_map_Forall; [|apply (du_keyed _ Hd)]. intros k r <-. apply stamp_fields.
  - apply stamp_map_Forall; [|apply (du_clocks _ Hd)]. intros k r. destruct (stamp_fields now r) as (_ & _ & H3 & H4 & H5 & _).
    unfold clock_ok, ValidateClock, in_int64 in *. by rewrite H3, H4, H5.
  - intros k1 k2 r1 r2 H1 H2 Ev. unfold t in H1, H2. rewrite lookup_fmap in H1, H2.
    apply fmap_Some in H1 as (x1 & H1 & ->), H2 as (x2 & H2 & ->). rewrite !Hv in Ev. by eapply (du_distinct _ Hd).
  - apply max_or_zero_bound. eapply Forall_impl; [exact Hb|]. simpl. lia.
  - apply max_or_zero_le; [done|]. eapply Forall_impl; [exact Hb|]. simpl. lia.
  - destruct (max_or_zero_bound (map Version (map_to_list t).*2)) as [Hall _]. rewrite Forall_forall in Hall.
    intros k r Hr. apply Hall. apply list_elem_of_fmap. exists r. split; [done|]. apply list_elem_of_fmap. exists (k, r).
    split; [done|]. by apply elem_of_map_to_list.
Qed.
End Recovery.

Section Restart.
Context `{NameFolding}.

Definition numbered (d : DB) : DB :=
  upd_meta (raise_counter "last_version" (max_or_zero (map Version (map_to_list (files d)).*2))) d.

(** Everything [openStore] did, in terms of the tables it found. *)
Record opened (now : Z) (d : DB) (s' : Store) : Prop := {
  op_tables : exists s1 s2, db s1 = migrated now d /\ migrateNames s1 = (Ok tt, s2) /\
    (db s' = numbered (db s2) \/ db s' = upd_meta (fun t => <["epoch" := epoch s']> t) (numbered (db s2)));
  op_next : cachedNextVer s' = counter "last_version" (db s') + 1;
  op_sizes : queueSize s' = queueSizes (repair_queue (db s'));
  op_caches : statsValid s' = false /\ countValid s' = false /\ countVersion s' = 0 /\ repairLimit s' = DefaultRepairLimit;
  op_fence : quarantined s' = quarantine (db s') /\ damagedObjects s' = damaged_objects (db s');
  op_epoch : forall old, node_meta d !! "epoch" = Some old -> old <> "" -> epoch s' = old
}.

Lemma node_meta_migrated now d k :
  k <> "repair_lanes_v1" -> k <> "repair_revision" -> node_meta (migrated now d) !! k = node_meta d !! k.
Proof.
  intros H1 H2. unfold migrated, raise_counter, lanes_of. simpl. rewrite lookup_insert_ne by congruence.
  destruct (node_meta d !! "repair_lanes_v1"); [done|]. simpl. by rewrite lookup_insert_ne by congruence.
Qed.

Lemma node_meta_named s s' k :
  migrateNames s = (Ok tt, s') -> k <> "portable_names_v1" -> node_meta (db s') !! k = node_meta (db s) !! k.
Proof.
  intros E Hk. apply migrateNames_Ok in E as (_ & _ & E). destruct (node_meta (db s) !! "portable_names_v1"); [by rewrite E|].
  destruct E as (nn & _ & -> & _). simpl. by rewrite lookup_insert_ne by congruence.
Qed.

Lemma openStore_Ok now r1 r2 d fs s' : openStore now r1 r2 (freshStore d fs) = (Ok tt, s') -> opened now d s'.
Proof.
  unfold openStore. set (s := freshStore d fs). intros E.
  apply bindS_Ok in E as ([] & s1 & E1 & E). apply migrate_Ok in E1 as [M1 D1].
  apply bindS_Ok in E as ([] & s2 & E2 & E). pose proof (proj1 (migrateNames_Ok _ _ E2)) as M2.
  apply bindS_Ok in E as ([] & s3 & E3 & E). apply exec_Ok in E3 as [D3 M3]. fold (numbered (db s2)) in D3.
  apply bindS_Ok in E as (v & s4 & E4 & E). apply query_Ok in E4 as [-> U4].
  apply bindS_Ok in E as ([] & s5 & E5 & E).
  destruct (node_meta (db s3) !! "last_version") as [t|] eqn:Et; [|done]. injection E5 as <-.
  apply bindS_Ok in E as ([] & s6 & E6 & E). unfold loadQueueSizes in E6.
  apply bindS_Ok in E6 as (q & s7 & E7 & E6). apply query_Ok in E7 as [-> U7]. injection E6 as <-.
  apply bindS_Ok in E as (e & s8 & E8 & E). apply loadOrCreateEpoch_Ok in E8 as (M8 & D8 & Hep).
  destruct r2 as [r|]; [|done]. apply bindS_Ok in E as ([] & s9 & E9 & E). injection E9 as <-.
  unfold loadQuarantine in E. apply bindS_Ok in E as (ns & s10 & E10 & E). apply query_Ok in E10 as [-> U10].
  apply bindS_Ok in E as ([] & s11 & E11 & E). injection E11 as <-.
  apply bindS_Ok in E as (os & s12 & E12 & E). apply query_Ok in E12 as [-> U12]. injection E as <-.
  assert (memory_kept s s3) as M by by repeat (etrans; [eassumption|]).
  rewrite U7 in M8, D8, Hep. simpl in M8, D8, Hep. rewrite U4 in M8, D8, Hep. simpl in M8, D8, Hep.
  rewrite U12. simpl. rewrite U10. simpl. rewrite D3 in D8, Hep, Et. unfold memory_kept in M, M8. rewrite M in M8.
  assert (forall k, k <> "portable_names_v1" -> node_meta (db s2) !! k = node_meta (migrated now d) !! k) as Hk2.
  { intros k Hk. by rewrite (node_meta_named _ _ k E2 Hk), D1. }
  assert (repair_queue (db s8) = repair_queue (db s2) /\ node_meta (db s8) !! "last_version" = Some t) as [Hq Hl].
  { destruct D8 as [-> | ->]; [done|]. split; [done|]. simpl. by rewrite lookup_insert_ne. }
  split; simpl.
  - exists s1, s2. by rewrite D1.
  - unfold counter. rewrite Hl. by rewrite M8.
  - rewrite Hq. rewrite M8. simpl. by rewrite (right_id_L ∅ (∪)), D3.
  - by rewrite M8.
  - rewrite M8. simpl. split; apply leibniz_equiv; set_solver.
  - intros old Hold Hne. apply Hep; [|done]. unfold numbered, raise_counter. simpl. rewrite lookup_insert_ne by done.
    rewrite Hk2 by done. by rewrite node_meta_migrated.
Qed.
End Restart.

Section OpeningProperties.
Context `{NameFolding}.

Lemma lookup_counter_ne key k v (t : gmap string string) : k <> key -> raise_counter key v t !! k = t !! k.
Proof. intros Hne. unfold raise_counter. by rewrite lookup_insert_ne by congruence. Qed.

(** The tables once opening is over, relative to those found. *)
Lemma opened_tables now d s' :
  durable d -> opened now d s' ->
  files (db s') = (stamp_tombstone now <$> files d) /\ repair_queue (db s') = repair_queue (migrated now d) /\
  node_meta (db s') !! "repair_revision" = node_meta (migrated now d) !! "repair_revision" /\
  (forall n, is_Some (files d !! n) -> name_bound (db s') n) /\
  node_meta (db s') !! "last_version" = Some (FormatInt (counter "last_version" (db s'))) /\
  map_Forall (fun _ r => Version r <= counter "last_version" (db s')) (files (db s')) /\
  0 <= counter "last_version" (db s') < MaxInt64 /\ counter "last_version" d <= counter "last_version" (db s') /\
  quarantine (db s') = quarantine d /\ damaged_objects (db s') = damaged_objects d.
Proof.
  intros Hd [(s1 & s2 & D1 & E & Hdb) _ _ _ _ _].
  pose proof (fun k => node_meta_named s1 s2 k E) as Hnm. apply migrateNames_Ok in E as (_ & _ & E).
  destruct (opened_versions now d Hd) as (_ & _ & _ & _ & Hmx & Hle). set (t := stamp_tombstone now <$> files d) in *.
  destruct (lanes_of_facts d Hd) as (Hlf & Hln & _ & _ & _ & _).
  assert (files (db s1) = t /\ namespace_names (db s1) = namespace_names d) as [Hf1 Hn1].
  { rewrite D1. unfold migrated, t. simpl. by rewrite Hlf, Hln. }
  assert (files (db s2) = t /\ repair_queue (db s2) = repair_queue (db s1) /\ quarantine (db s2) = quarantine d /\
          damaged_objects (db s2) = damaged_objects d /\ forall n, is_Some (files d !! n) -> name_bound (db s2) n) as (Hf2 & Hq2 & Hqu & Hdo & Hb2).
  { assert (quarantine (db s1) = quarantine d /\ damaged_objects (db s1) = damaged_objects d) as [<- <-].
    { rewrite D1. unfold migrated, lanes_of. destruct (node_meta d !! "repair_lanes_v1"); done. }
    pose proof (du_names _ Hd) as Hdn. rewrite D1, node_meta_migrated in E by done. rewrite <- D1 in E.
    destruct (node_meta d !! "portable_names_v1") as [x|] eqn:Ep.
    - rewrite E. split_and!; try done. intros n Hn. destruct (Hdn ltac:(by exists x) n Hn) as (parts & Hp & Hbd).
      exists parts. split; [done|]. eapply Forall_impl; [exact Hbd|]. intros y. unfold bound. by rewrite Hn1.
    - destruct E as (nn & _ & Hd2 & Hb). split_and!; [by rewrite Hd2..|]. intros n Hn. apply Hb.
      + intros ->. rewrite (du_named _ Hd) in Hn. by destruct Hn.
      + rewrite Hf1. unfold t. rewrite lookup_fmap. by apply fmap_is_Some. }
  destruct (raise_counter_spec "last_version" (max_or_zero (map Version (map_to_list t).*2)) (db s2) (MaxInt64 - 1) Hmx)
    as (c & Hc & Hcc & Hcb & Hcold); [|done|].
  { unfold counter. rewrite (Hnm "last_version") by done. rewrite D1, node_meta_migrated by done. pose proof (du_last _ Hd) as Hl. unfold counter in Hl. lia. }
  assert (upd_meta (raise_counter "last_version" (max_or_zero (map Version (map_to_list t).*2))) (db s2) = numbered (db s2)) as Hnum
    by by (unfold numbered; rewrite Hf2).
  rewrite Hnum in Hc, Hcc.
  assert (counter "last_version" d <= c) as Hcd.
  { unfold counter in Hcold |- *. rewrite (Hnm "last_version") in Hcold by done. by rewrite D1, node_meta_migrated in Hcold. }
  assert (node_meta (numbered (db s2)) !! "repair_revision" = node_meta (migrated now d) !! "repair_revision") as Hrr.
  { unfold numbered. simpl. rewrite lookup_counter_ne by done. by rewrite (Hnm "repair_revision"), D1. }
  assert (forall (P : DB -> Prop), P (numbered (db s2)) -> (forall e, P (upd_meta (fun t => <["epoch" := e]> t) (numbered (db s2)))) -> P (db s')) as Hcase
    by (intros P ? ?; destruct Hdb as [-> | ->]; auto).
  assert (forall k, k <> "epoch" -> node_meta (db s') !! k = node_meta (numbered (db s2)) !! k) as Hmeta.
  { intros k Hk. apply Hcase; [reflexivity|]. intros e. simpl. rewrite lookup_insert_ne by congruence. reflexivity. }
  assert (counter "last_version" (db s') = c) as Hc1 by (unfold counter; rewrite Hmeta by discriminate; exact Hcc).
  rewrite Hc1, !Hmeta by discriminate.
  assert (files (db s') = t) as Hf' by (apply Hcase; [|intros e]; exact Hf2).
  split_and!; [exact Hf'| |exact Hrr| |exact Hc| |lia|lia|exact Hcd| |].
  - apply Hcase; [|intros e]; simpl; by rewrite Hq2, D1.
  - intros n Hn. apply Hcase; [exact (Hb2 n Hn)|intros e; exact (Hb2 n Hn)].
  - rewrite Hf'. intros k r Hr. specialize (Hle k r Hr). simpl in *. lia.
  - apply Hcase; [|intros e]; exact Hqu.
  - apply Hcase; [|intros e]; exact Hdo.
Qed.

(** C34. Opening restores everything a process keeps in memory from the tables alone, so a
    crash at any point loses nothing: from any database this program wrote, migrated or not,
    a successful [New] yields a store in which the version counter is past every version ever
    assigned, every name's spelling is reserved, every queue length is its number of rows and
    every row is in its lane, the quarantine fence is the one on disk, and no file state or
    queued state has changed (an old tombstone only gains its deletion time). *)
Theorem New_recovers (now : Z) (random1 random2 : option string) (d : DB) (fs : list bool) (s : Store) :
  durable d -> New now random1 random2 d fs = Ok s ->
  store_inv s /\ queue_inv s /\ fence_inv s /\ quarantined s = quarantine d /\
  counter "last_version" d < cachedNextVer s /\
  (forall n, files (db s) !! n = stamp_tombstone now <$> (files d !! n)) /\
  (forall k, option_map rr_metadata (repair_queue (db s) !! k) = option_map rr_metadata (repair_queue d !! k)).
Proof.
  intros Hd E. unfold New in E. destruct (openStore now random1 random2 (freshStore d fs)) as [[[]|e] s'] eqn:Eo; [|done].
  injection E as ->. apply openStore_Ok in Eo as Ho. destruct (opened_tables now d s Hd Ho) as (F & Q & R & N & L & V & B & C & Qu & Dm).
  destruct Ho as [_ Hnext Hsz (Hs1 & Hs2 & Hs3 & _) [Hq Hdm] _].
  destruct (opened_versions now d Hd) as (K & CK & VR & DI & _ & _). destruct (migrated_queue now d Hd) as (R1 & R2 & R3 & R4).
  assert (revision_of (db s) = revision_of (migrated now d)) as Hrev by (unfold revision_of; by rewrite R).
  split_and!.
  - split; unfold well_keyed, clocks_ok; rewrite ?F; try done.
    + intros n Hn. apply N. rewrite lookup_fmap in Hn. by apply fmap_is_Some in Hn.
    + rewrite Hnext, L. do 2 f_equal. lia.
    + lia.
    + intros k r Hr. specialize (VR k r Hr). rewrite F in V. specialize (V k r Hr). simpl in *. lia.
    + rewrite Hs3. split; [lia|]. by rewrite Hs2.
  - split; rewrite ?Hrev, ?Q, ?R; try done.
    + intros peer. unfold queuedForS, peer_rows. rewrite Hsz. apply queueSizes_spec.
    + by rewrite Hs1.
  - split; [by rewrite Hq|]. rewrite Hdm. set_solver.
  - by rewrite Hq.
  - lia.
  - intros n. rewrite F. apply lookup_fmap.
  - intros k. rewrite Q. destruct (lanes_of_facts d Hd) as (_ & _ & _ & _ & _ & Hm). exact (Hm k).
Qed.
End OpeningProperties.

(** ** Witness *)

(** The tables left by a process that stopped with a file and a queued change. *)
Definition stoppedTables : DB := upd_queue (fun _ => repair_queue (db oneQueued)) (db storeWithChild).

Lemma stoppedTables_durable : durable (H := asciiFolding) stoppedTables.
Proof.
  pose proof storeWithChild_inv as [K C N _ _ _ D _]. split.
  - exact K.
  - exact C.
  - reflexivity.
  - intros _. exact N.
  - apply (bool_decide_unpack _). vm_compute. exact I.
  - exact D.
  - reflexivity.
  - apply (bool_decide_unpack _). vm_compute. exact I.
  - apply Z.leb_le. reflexivity.
  - change (map_Forall (fun _ r => rr_large r = false) (repair_queue (db oneQueued))).
    apply (bool_decide_unpack _). vm_compute. exact I.
Qed.

Lemma New_recovers_witness :
  exists s, New (H := asciiFolding) 100 (Some "00") (Some "11") stoppedTables [] = Ok s /\
    queue_inv s /\ queuedForS s "p" = 1 /\ cachedNextVer s = 2.
Proof.
  destruct (New (H := asciiFolding) 100 (Some "00") (Some "11") stoppedTables []) as [s|e] eqn:E;
    [|vm_compute in E; discriminate E].
  exists s. split; [reflexivity|].
  destruct (New_recovers (H := asciiFolding) 100 (Some "00") (Some "11") stoppedTables [] s stoppedTables_durable E) as (_ & Hq & _).
  split; [exact Hq|]. vm_compute in E. injection E as <-. split; vm_compute; reflexivity.
Defined.
