(* ===== verification/Glob.v ===== *)
(** * Shell patterns

    Go's [filepath.Match] on unix, which the ignore list of internal/watcher uses: chunks
    between stars, classes and escapes, matched chunk by chunk from the left. *)

From S2P Require Import Prelude GoStrings.

(** ** Runes *)

Definition RuneError : Z := 65533.

Definition cont_bits (c : ascii) : Z := byte_val c - 128.

(** [utf8.DecodeRuneInString]: the rune and the number of bytes it takes. *)
Definition DecodeRune (s : string) : Z * nat :=
  match s with
  | "" => (RuneError, 0%nat)
  | String c0 s1 =>
      let b0 := byte_val c0 in
      if b0 <? 128 then (b0, 1%nat)
      else match s1 with
      | "" => (RuneError, 1%nat)
      | String c1 s2 =>
          if byte_in 194 223 c0 && cont c1 then ((b0 - 192) * 64 + cont_bits c1, 2%nat)
          else match s2 with
          | "" => (RuneError, 1%nat)
          | String c2 s3 =>
              let ok1 := if byte_in 224 224 c0 then byte_in 160 191 c1
                         else if byte_in 237 237 c0 then byte_in 128 159 c1
                         else byte_in 225 239 c0 && cont c1 in
              if ok1 && cont c2 then (((b0 - 224) * 64 + cont_bits c1) * 64 + cont_bits c2, 3%nat)
              else match s3 with
              | "" => (RuneError, 1%nat)
              | String c3 _ =>
                  let ok4 := if byte_in 240 240 c0 then byte_in 144 191 c1
                             else if byte_in 244 244 c0 then byte_in 128 143 c1
                             else byte_in 241 243 c0 && cont c1 in
                  if ok4 && cont c2 && cont c3
                  then ((((b0 - 240) * 64 + cont_bits c1) * 64 + cont_bits c2) * 64 + cont_bits c3, 4%nat)
                  else (RuneError, 1%nat)
              end
          end
      end
  end.

Fixpoint sdrop (n : nat) (s : string) : string :=
  match n, s with
  | O, _ => s
  | S n', String _ s' => sdrop n' s'
  | S _, "" => ""
  end.
Lemma sdrop_app (a b : string) : sdrop (String.length a) (a +:+ b) = b.
Proof. by induction a. Qed.

(** ** Chunks *)

Fixpoint strip_stars (pattern : string) : bool * string :=
  match pattern with
  | String "*" p' => (true, snd (strip_stars p'))
  | _ => (false, pattern)
  end.

Fixpoint scan_body (inrange : bool) (pattern : string) : string * string :=
  match pattern with
  | "" => ("", "")
  | String c p' =>
      if Ascii.eqb c "\" then
        match p' with
        | "" => (String c "", "")
        | String c' p'' => let '(chunk, rest) := scan_body inrange p'' in (String c (String c' chunk), rest)
        end
      else if Ascii.eqb c "*" && negb inrange then ("", pattern)
      else
        let inrange' := if Ascii.eqb c "[" then true else if Ascii.eqb c "]" then false else inrange in
        let '(chunk, rest) := scan_body inrange' p' in (String c chunk, rest)
  end.

(** [func scanChunk(pattern string) (star bool, chunk, rest string)] *)
Definition scanChunk (pattern : string) : bool * string * string :=
  let '(star, p) := strip_stars pattern in
  let '(chunk, rest) := scan_body false p in
  (star, chunk, rest).

(** [func getEsc(chunk string) (r rune, nchunk string, err error)] *)
Definition getEsc (chunk : string) : option (Z * string) :=
  let after := match chunk with
               | "" => None
               | String c rest =>
                   if Ascii.eqb c "-" || Ascii.eqb c "]" then None
                   else if Ascii.eqb c "\" then (if rest =s "" then None else Some rest) else Some chunk
               end in
  match after with
  | None => None
  | Some chunk' =>
      let '(r, n) := DecodeRune chunk' in
      let rest := sdrop n chunk' in
      if ((r =? RuneError) && (n =? 1)%nat) || (rest =s "") then None else Some (r, rest)
  end.

(** The ranges of a class up to its closing bracket. *)
Fixpoint match_ranges (fuel : nat) (r : Z) (chunk : string) (nrange : nat) (matched : bool) : option (bool * string) :=
  match fuel with
  | O => None
  | S fuel' =>
      match chunk, nrange with
      | String "]" rest, S _ => Some (matched, rest)
      | _, _ =>
          match getEsc chunk with
          | None => None
          | Some (lo, rest) =>
              match rest with
              | String "-" rest' =>
                  match getEsc rest' with
                  | None => None
                  | Some (hi, rest'') => match_ranges fuel' r rest'' (S nrange) (matched || ((lo <=? r) && (r <=? hi)))
                  end
              | _ => match_ranges fuel' r rest (S nrange) (matched || ((lo <=? r) && (r <=? lo)))
              end
          end
      end
  end.

(** [func matchChunk(chunk, s string) (rest string, ok bool, err error)]: none is
    ErrBadPattern, [Some None] no match. A failed match still reads the chunk to its end. *)
Fixpoint match_chunk (fuel : nat) (chunk s : string) (failed : bool) : option (option string) :=
  match fuel with
  | O => None
  | S fuel' =>
      match chunk with
      | "" => Some (if failed then None else Some s)
      | String c chunk' =>
          let failed := failed || (s =s "") in
          if Ascii.eqb c "[" then
            let '(r, n) := if failed then (0, 0%nat) else DecodeRune s in
            let s' := sdrop n s in
            let '(negated, body) := match chunk' with
                                    | String "^" b => (true, b)
                                    | _ => (false, chunk')
                                    end in
            match match_ranges (S (String.length body)) r body 0 false with
            | None => None
            | Some (m, rest) => match_chunk fuel' rest s' (failed || Bool.eqb m negated)
            end
          else if Ascii.eqb c "?" then
            if failed then match_chunk fuel' chunk' s true
            else match_chunk fuel' chunk' (sdrop (snd (DecodeRune s)) s) (HasPrefix s "/")
          else
            let lit := if Ascii.eqb c "\" then match chunk' with "" => None | String c' r => Some (c', r) end
                       else Some (c, chunk') in
            match lit with
            | None => None
            | Some (c', rest) =>
                match failed, s with
                | false, String x s' => match_chunk fuel' rest s' (negb (Ascii.eqb c' x))
                | _, _ => match_chunk fuel' rest s true
                end
            end
      end
  end.
Definition matchChunk (chunk s : string) : option (option string) := match_chunk (S (String.length chunk)) chunk s false.

(** The search after a star: skip bytes up to a slash. *)
Fixpoint match_skipping (chunk : string) (last : bool) (name : string) : option (option string) :=
  match name with
  | "" => Some None
  | String c name' =>
      if Ascii.eqb c "/" then Some None
      else match matchChunk chunk name' with
           | None => None
           | Some (Some t) => if last && negb (t =s "") then match_skipping chunk last name' else Some (Some t)
           | Some None => match_skipping chunk last name'
           end
  end.

(** [filepath.Match(pattern, name)] with its error discarded, as the ignore list does: the
    pattern shortens with every chunk. *)
Fixpoint match_go (fuel : nat) (pattern name : string) : bool :=
  match fuel with
  | O => false
  | S fuel' =>
      if pattern =s "" then name =s ""
      else
        let '(star, chunk, rest) := scanChunk pattern in
        if star && (chunk =s "") then negb (ContainsByte name "/")
        else
          let last := rest =s "" in
          match matchChunk chunk name with
          | Some (Some t) =>
              if (t =s "") || negb last then match_go fuel' rest t
              else if star then
                match match_skipping chunk last name with Some (Some t') => match_go fuel' rest t' | _ => false end
              else false
          | None => false
          | Some None =>
              if star then
                match match_skipping chunk last name with Some (Some t') => match_go fuel' rest t' | _ => false end
              else false
          end
  end.
Definition Match (pattern name : string) : bool := match_go (S (String.length pattern)) pattern name.

Example match_star : Match "*.tmp" "a.tmp" = true /\ Match "*.tmp" "a.tmpx" = false /\ Match "a*b?[c-e]" "axxbzd" = true
  /\ Match "[^a]x" "bx" = true /\ Match "[a" "a" = false /\ Match "\*" "*" = true /\ Match "a*" "a/b" = false.
Proof. by vm_compute. Qed.

(** ** The patterns the program itself uses *)

Lemma match_literal_chunk fuel lit s :
  Forall (fun c => c ∉ ["["; "?"; "\"]%char) (String.list_ascii_of_string lit) -> (String.length lit < fuel)%nat ->
  match_chunk fuel lit s false = Some (if HasPrefix s lit then Some (sdrop (String.length lit) s) else None).
Proof.
  assert (forall fuel lit s, Forall (fun c => c ∉ ["["; "?"; "\"]%char) (String.list_ascii_of_string lit) ->
            (String.length lit < fuel)%nat -> match_chunk fuel lit s true = Some None) as Hfail.
  { clear. induction fuel as [|fuel IH]; intros lit s Hl Hf; [lia|]. destruct lit as [|c lit]; [done|]. simpl in *.
    inversion_clear Hl as [|? ? Hc Hl']. rewrite !not_elem_of_cons in Hc. destruct Hc as (H1 & H2 & H3 & _).
    rewrite (proj2 (Ascii.eqb_neq c "[") H1), (proj2 (Ascii.eqb_neq c "?") H2), (proj2 (Ascii.eqb_neq c "\") H3). apply IH; [done|lia]. }
  revert lit s. induction fuel as [|fuel IH]; intros lit s Hl Hf; [lia|]. destruct lit as [|c lit]; [by destruct s|]. simpl in *.
  inversion_clear Hl as [|? ? Hc Hl']. rewrite !not_elem_of_cons in Hc. destruct Hc as (H1 & H2 & H3 & _).
  rewrite (proj2 (Ascii.eqb_neq c "[") H1), (proj2 (Ascii.eqb_neq c "?") H2), (proj2 (Ascii.eqb_neq c "\") H3).
  destruct s as [|x s]; simpl; [apply Hfail; [done|lia]|].
  unfold HasPrefix. simpl. destruct (ascii_dec c x) as [->|Hne].
  - rewrite Ascii.eqb_refl. simpl. apply IH; [done|lia].
  - rewrite (proj2 (Ascii.eqb_neq c x) Hne). simpl. apply Hfail; [done|lia].
Qed.

Lemma Match_prefix_star lit s :
  lit <> "" -> Forall (fun c => c ∉ ["["; "?"; "\"; "*"; "]"]%char) (String.list_ascii_of_string lit) -> ContainsByte s "/" = false ->
  Match (lit +:+ "*") s = HasPrefix s lit.
Proof.
  intros Hne Hl Hs. unfold Match. 
  assert (scan_body false (lit +:+ "*") = (lit, "*")) as Hscan.
  { clear Hne. induction lit as [|c lit IH]; [done|]. simpl in *. inversion_clear Hl as [|? ? Hc Hl']. rewrite !not_elem_of_cons in Hc.
    destruct Hc as (H1 & H2 & H3 & H4 & H5 & _).
    rewrite (proj2 (Ascii.eqb_neq c "[") H1), (proj2 (Ascii.eqb_neq c "\") H3), (proj2 (Ascii.eqb_neq c "*") H4), (proj2 (Ascii.eqb_neq c "]") H5).
    simpl. by rewrite IH. }
  assert (scanChunk (lit +:+ "*") = (false, lit, "*")) as Hsc.
  { unfold scanChunk. destruct lit as [|c lit]; [done|]. inversion_clear Hl as [|? ? Hc Hl']. rewrite !not_elem_of_cons in Hc.
    change (String c lit +:+ "*") with (String c (lit +:+ "*")) in *.
    assert (strip_stars (String c (lit +:+ "*")) = (false, String c (lit +:+ "*"))) as ->.
    { cbn [strip_stars]. destruct c as [[] [] [] [] [] [] [] []]; try done. }
    by rewrite Hscan. }
  assert (Forall (fun c => c ∉ ["["; "?"; "\"]%char) (String.list_ascii_of_string lit)) as Hl3.
  { eapply Forall_impl; [exact Hl|]. intros c Hc. rewrite !not_elem_of_cons in *. tauto. }
  assert ((lit +:+ "*" =s "") = false) as Hn by by destruct lit.
  destruct (String.length (lit +:+ "*")) as [|n] eqn:En; [by destruct lit|]. cbn [match_go]. rewrite Hn, Hsc. simpl.
  unfold matchChunk. rewrite match_literal_chunk by (done || lia). destruct (HasPrefix s lit) eqn:Ep; [|done].
  rewrite orb_true_r. apply HasPrefix_spec in Ep as [t ->].
  assert (sdrop (String.length lit) (lit +:+ t) = t) as -> by (clear; induction lit; [by destruct t|done]).
  change (scanChunk "*") with (true, "", ""). simpl.
  assert (ContainsByte t "/" = false) as ->; [|done].
  clear -Hs. induction lit as [|c lit IH]; [done|]. unfold ContainsByte in *. simpl in Hs. apply IH.
  destruct (Ascii.eqb c "/"); [done|]. by destruct (Cut (lit +:+ t) "/") as [[? ?]|].
Qed.
