(* ===== verification/Validate.v ===== *)
(** * What a peer's metadata must satisfy

    internal/syncer/syncer.go (validateSyncName, validateMetadata, validateChange and the
    header parsers), internal/watcher/watcher.go (ShouldIgnore) and internal/gateway/gateway.go
    (IsScratchFile): the checks that stand between a peer's reply and the local filesystem. *)

From S2P Require Import Prelude GoStrings FileMeta Database Names Glob.

(** ** Reserved and ignored names *)

Definition tempFilePrefix : string := ".birak-tmp-".
Definition backupFilePrefix : string := ".birak-bak-".

(** [func IsScratchFile(name string) bool] *)
Definition IsScratchFile (name : string) : bool := HasPrefix name tempFilePrefix || HasPrefix name backupFilePrefix.

(** [filepath.Base]: trailing slashes go, then everything up to the last slash. *)
Definition Base (p : string) : string :=
  if p =s "" then "."
  else match base.filter (fun x => x <> "") (Split p "/") with
       | [] => "/"
       | parts => List.last parts "."
       end.

(** [func ShouldIgnore(relPath string, patterns []string) bool] *)
Definition ShouldIgnore (relPath : string) (patterns : list string) : bool :=
  let parts := Split relPath "/" in
  if (List.hd "" parts =s ".birak") then true
  else
    let base := Base relPath in
    if Match (tempFilePrefix +:+ "*") base then true
    else if Match (backupFilePrefix +:+ "*") base then true
    else if existsb (fun pattern => Match pattern base) patterns then true
    else existsb (fun part => existsb (fun pattern => Match pattern part) patterns) (removelast parts).

(** ** Metadata *)

Inductive invalid :=
| NonCanonical (name : string)
| Reserved (name : string)
| MalformedContent
| BadClock (e : clock_error)
| MalformedTombstone
| MalformedCopy
| Ignored (name : string).

(** [func validateSyncName(name string) error] *)
Definition validateSyncName (name : string) : option invalid :=
  if (name =s ".") || negb (IsLocal name) || negb (Clean name =s name) || ContainsByte name "000" then Some (NonCanonical name)
  else if ShouldIgnore name [] then Some (Reserved name)
  else if existsb IsScratchFile (Split name "/") then Some (Reserved name)
  else None.

Definition hex_digit (c : ascii) : bool := is_digit c || byte_in 97 102 c || byte_in 65 70 c.

(** [func isSHA256Hex(value string) bool]: 64 lower-case hex digits. *)
Definition isSHA256Hex (value : string) : bool :=
  if negb (slen value =? 64) || negb (value =s ascii_lower value) then false
  else forallb hex_digit (String.list_ascii_of_string value).

Section Validate.
Context (conflictDigest : string -> string -> string).

(** [func validateMetadata(change store.FileMeta) error] *)
Definition validateMetadata (change : FileMeta) : option invalid :=
  match validateSyncName (Name change) with
  | Some e => Some e
  | None =>
      if negb (Deleted change) && ((Size change <? 0) || (Size change =? MaxInt64) || negb (isSHA256Hex (Hash change)))
      then Some MalformedContent
      else match ValidateClock change with
      | Err e => Some (BadClock e)
      | Ok _ =>
          let tombstone :=
            if SupersededBy change =s "" then None
            else if negb (Deleted change) || negb (Size change =? 0) || negb (isSHA256Hex (Hash change))
                    || negb (NamespaceConflict (Name change) (SupersededBy change))
            then Some MalformedTombstone
            else validateSyncName (SupersededBy change) in
          match tombstone with
          | Some e => Some e
          | None =>
              if ConflictOf change =s "" then None
              else if Deleted change || negb (Name change =s ConflictCopyName conflictDigest (ConflictOf change) (Hash change))
              then Some MalformedCopy
              else validateSyncName (ConflictOf change)
          end
      end
  end.

(** [func (s *Syncer) validateChange(change store.FileMeta) error] *)
Definition validateChange (ignorePatterns : list string) (change : FileMeta) : option invalid :=
  match validateMetadata change with
  | Some e => Some e
  | None =>
      match List.find (fun name => negb (name =s "") && ShouldIgnore name ignorePatterns)
              [Name change; SupersededBy change; ConflictOf change] with
      | Some name => Some (Ignored name)
      | None => None
      end
  end.
End Validate.

(** ** Headers *)

(** [func parseInt64Header(v string) (int64, bool)] *)
Definition parseInt64Header (v : string) : Z * bool :=
  if v =s "" then (0, false)
  else match ParseInt v with Some n => (n, true) | None => (0, false) end.

Fixpoint oct_val (acc : Z) (s : string) : option Z :=
  match s with
  | "" => Some acc
  | String c s' => if byte_in 48 55 c then oct_val (acc * 8 + digit_val c) s' else None
  end.

(** [strconv.ParseUint(v, 8, 32)] *)
Definition ParseUint8_32 (v : string) : option Z :=
  if v =s "" then None
  else match oct_val 0 v with Some n => if n <? 2 ^ 32 then Some n else None | None => None end.

(** [func parseFileMode(v string) (os.FileMode, bool)] *)
Definition parseFileMode (v : string) : Z * bool :=
  if v =s "" then (0, false)
  else match ParseUint8_32 v with
       | Some n => if (n =? 0) || (511 <? n) then (0, false) else (n, true)
       | None => (0, false)
       end.

(** ** Facts *)

Lemma IsScratchFile_Match base :
  ContainsByte base "/" = false ->
  Match (tempFilePrefix +:+ "*") base || Match (backupFilePrefix +:+ "*") base = IsScratchFile base.
Proof.
  intros Hb. unfold IsScratchFile.
  assert (forall p, p = tempFilePrefix \/ p = backupFilePrefix -> Match (p +:+ "*") base = HasPrefix base p) as Hm.
  { intros p Hp. apply Match_prefix_star; [by destruct Hp as [-> | ->]| |done].
    destruct Hp as [-> | ->]; apply (bool_decide_unpack _); vm_compute; exact I. }
  by rewrite !Hm by auto.
Qed.

(** Elements [Clean] drops or rewrites. *)
Lemma clean_go_length rooted stack parts :
  (length (clean_go rooted stack parts) <= length stack + length parts)%nat /\
  (length (clean_go rooted stack parts) = length stack + length parts ->
   Forall (fun p => p <> "" /\ p <> ".") parts)%nat.
Proof.
  revert stack. induction parts as [|p parts IH]; intros stack; simpl.
  { rewrite length_rev. split; [lia|constructor]. }
  destruct ((p =s "") || (p =s ".")) eqn:E1.
  { destruct (IH stack) as [H1 _]. split; lia. }
  apply orb_false_iff in E1 as [E1 E2]. apply eqs_false in E1, E2.
  destruct (p =s "..") eqn:E3.
  - destruct stack as [|top below]; [destruct rooted|destruct (top =s "..")]; simpl.
    + destruct (IH []) as [H1 _]. simpl in *. split; lia.
    + destruct (IH [p]) as [H1 H2]. simpl in *. split; [lia|]. intros Hl. constructor; [done|]. apply H2. lia.
    + destruct (IH (p :: top :: below)) as [H1 H2]. simpl in *. split; [lia|]. intros Hl. constructor; [done|]. apply H2. lia.
    + destruct (IH below) as [H1 _]. split; lia.
  - destruct (IH (p :: stack)) as [H1 H2]. simpl in *. split; [lia|]. intros Hl. constructor; [done|]. apply H2. lia.
Qed.

Lemma clean_go_dots rooted top below parts :
  top <> ".." -> length (clean_go rooted (top :: below) parts) = (length (top :: below) + length parts)%nat ->
  Forall (fun p => p <> "..") parts.
Proof.
  revert top below. induction parts as [|p parts IH]; intros top below Ht Hl; [constructor|]. simpl in Hl.
  destruct ((p =s "") || (p =s ".")) eqn:E1.
  { pose proof (proj1 (clean_go_length rooted (top :: below) parts)). simpl in *. lia. }
  destruct (p =s "..") eqn:E3.
  - rewrite (proj2 (eqs_false top "..") Ht) in Hl. pose proof (proj1 (clean_go_length rooted below parts)). lia.
  - apply eqs_false in E3. constructor; [done|]. apply (IH p (top :: below)); [done|]. simpl. lia.
Qed.

Lemma clean_go_incl rooted stack parts p : p ∈ clean_go rooted stack parts -> p ∈ stack \/ p ∈ parts.
Proof.
  revert stack. induction parts as [|q parts IH]; intros stack Hp; simpl in Hp.
  { left. by rewrite list_elem_of_In, <- in_rev, <- list_elem_of_In in Hp. }
  destruct ((q =s "") || (q =s ".")); [apply IH in Hp; set_solver|].
  destruct (q =s ".."); [destruct stack as [|top below]; [destruct rooted|destruct (top =s "..")]|]; apply IH in Hp; set_solver.
Qed.

Lemma Split_parts_plain s : Forall (fun p => ContainsByte p "/" = false) (Split s "/").
Proof.
  induction s as [|c s IH]; simpl; [by repeat constructor|]. destruct (Ascii.eqb c "/") eqn:E; [by constructor|].
  destruct (Split s "/") as [|p l] eqn:Es; [by apply Split_nonnil in Es|].
  inversion_clear IH as [|? ? Hp Hl]. constructor; [|done]. unfold ContainsByte in *. simpl. rewrite E.
  by destruct (Cut p "/") as [[? ?]|].
Qed.

(** A relative path that is its own [Clean] form, is not "." and is local has only ordinary
    components. *)
Lemma canonical_of_clean name :
  name <> "." -> IsLocal name = true -> Clean name = name -> Forall good_part (Split name "/").
Proof.
  intros Hdot Hloc Hcl. unfold IsLocal in Hloc. destruct (HasPrefix name "/" || (name =s "")) eqn:E0; [done|].
  apply orb_false_iff in E0 as [Hroot Hne]. unfold Clean in Hcl. rewrite Hne, Hroot in Hcl.
  set (out := clean_go false [] (Split name "/")) in *.
  destruct (Join out "/" =s "") eqn:Eb; [by symmetry in Hcl|].
  assert (Split name "/" = out) as Hs.
  { rewrite <- Hcl at 1. apply Split_Join; [intros E; by rewrite E in Eb|]. apply Forall_forall. intros p Hp.
    apply clean_go_incl in Hp as [?|Hp]; [set_solver|]. pose proof (Split_parts_plain name) as Hf. rewrite Forall_forall in Hf. by apply Hf. }
  assert (length out = (length (@nil string) + length (Split name "/"))%nat) as Hlen by by rewrite Hs.
  pose proof (proj2 (clean_go_length false [] (Split name "/")) Hlen) as Hd1.
  assert (Forall (fun p => p <> "..") (Split name "/")) as Hd2.
  { destruct (existsb (fun part => (part =s ".") || (part =s "..")) (Split name "/")) eqn:Ex.
    - assert (Clean name = name) as Hc by (unfold Clean; rewrite Hne, Hroot; fold out; by rewrite Eb).
      rewrite Hc in Hloc. apply negb_true_iff, orb_false_iff in Hloc as [Hl1 Hl2].
      destruct (Split name "/") as [|p parts] eqn:Esp; [constructor|]. unfold out in Hlen. simpl in Hlen.
      inversion_clear Hd1 as [|? ? [Hp1 Hp2] Hd1']. rewrite (proj2 (eqs_false p "") Hp1), (proj2 (eqs_false p ".") Hp2) in Hlen. simpl in Hlen.
      destruct (p =s "..") eqn:Ep.
      + exfalso. apply eqs_true in Ep as ->. pose proof (Join_Split_slash name) as Hj. rewrite Esp in Hj.
        destruct parts as [|q parts]; [simpl in Hj; by rewrite <- Hj in Hl1|].
        rewrite Join_cons in Hj by done. assert (HasPrefix name "../" = true) as Hx; [|by rewrite Hx in Hl2].
        apply HasPrefix_spec. exists (Join (q :: parts) "/"). rewrite <- Hj. done.
      + apply eqs_false in Ep. constructor; [done|]. by apply (clean_go_dots false p []).
    - apply Forall_forall. intros p Hp ->. assert (existsb (fun part => (part =s ".") || (part =s "..")) (Split name "/") = true) as Hx.
      { apply existsb_exists. exists "..". split; [by apply list_elem_of_In|done]. }
      by rewrite Hx in Ex. }
  apply Forall_forall. intros p Hp. rewrite Forall_forall in Hd1, Hd2. unfold good_part, bad_part.
  destruct (Hd1 p Hp) as [H1 H2]. specialize (Hd2 p Hp). rewrite !orb_false_iff. by rewrite !eqs_false.
Qed.

(** ** Properties *)

(** A name accepted from a peer is safe to resolve under the sync root: it is one or more
    ordinary components (none empty, "." or ".."), holds no NUL, never lies in the private
    ".birak" directory, and none of its components is reserved for scratch or backup files. *)
Theorem validateSyncName_safe (name : string) :
  validateSyncName name = None ->
  Forall good_part (Split name "/") /\ ContainsByte name "000" = false /\
  List.hd "" (Split name "/") <> ".birak" /\ Forall (fun part => IsScratchFile part = false) (Split name "/").
Proof.
  unfold validateSyncName. destruct ((name =s ".") || negb (IsLocal name) || negb (Clean name =s name) || ContainsByte name "000") eqn:E1; [done|].
  rewrite !orb_false_iff, !negb_false_iff, eqs_false, eqs_true in E1. destruct E1 as [[[H1 H2] H3] H4].
  destruct (ShouldIgnore name []) eqn:E2; [done|]. destruct (existsb IsScratchFile (Split name "/")) eqn:E3; [done|]. intros _.
  split; [by apply canonical_of_clean|]. split; [done|]. split.
  - unfold ShouldIgnore in E2. destruct (List.hd "" (Split name "/") =s ".birak") eqn:Eb; [done|]. by apply eqs_false.
  - apply Forall_forall. intros p Hp. destruct (IsScratchFile p) eqn:Ep; [|done].
    assert (existsb IsScratchFile (Split name "/") = true) as Hx; [|by rewrite Hx in E3].
    apply existsb_exists. exists p. split; [by apply list_elem_of_In|done].
Qed.

(** Metadata accepted from a peer can be committed: its name reserves without an
    invalid-name error, its clock passes the store's own check, live content has a size a
    transfer can bound and a full SHA-256, a namespace tombstone really is displaced by a
    name in its own path, and a conflict copy carries the name derived from its origin. *)
Theorem validateMetadata_committable (conflictDigest : string -> string -> string) (change : FileMeta) :
  validateMetadata conflictDigest change = None -> ValidString (Name change) = true ->
  canonical (Name change) /\ ValidateClock change = Ok tt /\
  (Deleted change = false -> 0 <= Size change /\ Size change <> MaxInt64 /\ slen (Hash change) = 64) /\
  (SupersededBy change <> "" -> Deleted change = true /\ NamespaceConflict (Name change) (SupersededBy change) = true) /\
  (ConflictOf change <> "" -> Deleted change = false /\ Name change = ConflictCopyName conflictDigest (ConflictOf change) (Hash change)).
Proof.
  unfold validateMetadata. intros Hv Hutf.
  destruct (validateSyncName (Name change)) eqn:E1; [done|]. 
  destruct (negb (Deleted change) && _) eqn:E2; [done|]. destruct (ValidateClock change) as [[]|] eqn:E3; [|done].
  assert (Forall good_part (Split (Name change) "/") /\ Name change <> "") as [Hgood Hne].
  { unfold validateSyncName in E1. destruct ((Name change =s ".") || _ || _ || _) eqn:E4; [done|].
    rewrite !orb_false_iff, !negb_false_iff, eqs_false, eqs_true in E4. destruct E4 as [[[H1 H2] H3] _].
    split; [by apply canonical_of_clean|]. intros E. by rewrite E in H2. }
  split; [done|]. split; [done|]. split.
  { intros Hd. rewrite Hd in E2. simpl in E2. rewrite !orb_false_iff, negb_false_iff, Z.ltb_ge, Z.eqb_neq in E2.
    destruct E2 as [[? ?] Hh]. split; [done|]. split; [done|]. unfold isSHA256Hex in Hh.
    destruct (negb (slen (Hash change) =? 64) || _) eqn:E5; [done|]. apply orb_false_iff in E5 as [E5 _].
    by apply negb_false_iff, Z.eqb_eq in E5. }
  destruct (SupersededBy change =s "") eqn:E6.
  - apply eqs_true in E6. split; [done|]. intros Hc. rewrite (proj2 (eqs_false _ _) Hc) in Hv.
    destruct (Deleted change || _) eqn:E7; [done|]. by rewrite orb_false_iff, negb_false_iff, eqs_true in E7.
  - destruct (negb (Deleted change) || _ || _ || _) eqn:E7; [done|]. destruct (validateSyncName (SupersededBy change)) eqn:E8; [done|].
    rewrite !orb_false_iff, !negb_false_iff in E7. destruct E7 as [[[Hd _] _] Hns]. split; [done|].
    intros Hc. rewrite (proj2 (eqs_false _ _) Hc), Hd in Hv. done.
Qed.

(** A peer cannot ask for a mode outside the permission bits (no setuid, setgid or sticky
    file), and the modes it can ask for are exactly 1 to 0777. *)
Theorem parseFileMode_bounds (v : string) :
  let '(mode, ok) := parseFileMode v in
  if ok then 1 <= mode <= 511 /\ ParseUint8_32 v = Some mode else mode = 0.
Proof.
  unfold parseFileMode. destruct (v =s ""); [done|]. destruct (ParseUint8_32 v) as [n|] eqn:E; [|done].
  destruct ((n =? 0) || (511 <? n)) eqn:Eb; [done|]. apply orb_false_iff in Eb as [E1 E2]. apply Z.eqb_neq in E1. apply Z.ltb_ge in E2.
  assert (0 <= n); [|split; [lia|done]].
  unfold ParseUint8_32 in E. destruct (v =s ""); [done|]. destruct (oct_val 0 v) as [m|] eqn:Eo; [|done].
  destruct (m <? 2 ^ 32); [|done]. injection E as ->.
  assert (forall s acc r, 0 <= acc -> oct_val acc s = Some r -> 0 <= r) as Hpos; [|by eapply (Hpos v 0)].
  clear. induction s as [|c s IH]; intros acc r Ha Ho; simpl in Ho; [by injection Ho as <-|].
  destruct (byte_in 48 55 c) eqn:Ec; [|done]. eapply IH; [|exact Ho].
  unfold byte_in in Ec. apply andb_true_iff in Ec as [Ec _]. apply Z.leb_le in Ec. unfold digit_val. lia.
Qed.

(** ** Witnesses *)

Lemma validateSyncName_safe_witness :
  validateSyncName "docs/App.apk" = None /\ Forall good_part (Split "docs/App.apk" "/").
Proof. split; [vm_compute; reflexivity|]. apply (validateSyncName_safe "docs/App.apk"). vm_compute. reflexivity. Defined.

Definition sha0 : string := "e3b0c44298fc1c149afbf4c8996fb92427ae41e4649b934ca495991b7852b855".
Definition wireMeta (name : string) (version : Z) : FileMeta := {|
  Name := name; ModTime := version; Size := 0; Hash := sha0; Deleted := false; Version := version;
  BigClock := ""; Clock := 5; SupersededBy := ""; ConflictOf := ""; DeletedAt := 0
|}.

Lemma validateMetadata_committable_witness :
  validateMetadata (fun a b => a +:+ b) (wireMeta "docs/a" 1) = None /\ canonical "docs/a".
Proof.
  split; [vm_compute; reflexivity|].
  apply (validateMetadata_committable (fun a b => a +:+ b) (wireMeta "docs/a" 1)); vm_compute; reflexivity.
Defined.
