(* ===== verification/Server.v ===== *)
(** * The cluster API

    internal/server/server.go: the guard that authenticates a peer and stamps every reply with
    the node's identity, incarnation and highest version, and the change stream and manifest
    endpoints behind it. A handler is a program over the node's store; its reply is a value. *)

From S2P Require Import Prelude GoStrings FileMeta Database Names Store.

Definition ProtocolVersion : string := "4".

(** Query parameters and headers of a cluster request; absent is "". *)
Record Request := mkRequest {
  rq_secret : string;
  rq_nodeID : string;
  rq_protocol : string;
  rq_nodeEpoch : string;
  rq_since : string;
  rq_limit : string;
  rq_after : string;
  rq_epoch : string
}.

Record Response (A : Type) := mkResponse {
  rs_status : Z;
  rs_protocol : string;
  rs_nodeID : string;
  rs_epoch : string;
  rs_max : string;
  rs_body : option A
}.
Arguments mkResponse {A} _ _ _ _ _ _.
Arguments rs_status {A} _.
Arguments rs_protocol {A} _.
Arguments rs_nodeID {A} _.
Arguments rs_epoch {A} _.
Arguments rs_max {A} _.
Arguments rs_body {A} _.

Record Server := mkServer {
  sv_store : Store;
  sv_nodeID : string;
  sv_secret : string;
  sv_pollers : gmap string Z
}.
Definition sv_set_store (s : Store) (v : Server) : Server := mkServer s (sv_nodeID v) (sv_secret v) (sv_pollers v).
Definition sv_set_pollers (p : gmap string Z) (v : Server) : Server := mkServer (sv_store v) (sv_nodeID v) (sv_secret v) p.

Abbreviation Sv := (SE Server err).
Definition onStore {A} (c : St A) : Sv A := zoomS sv_store sv_set_store (fun e => e) c.

(** What a handler writes: a status and, on success, the value it encodes. *)
Definition reply (A : Type) : Type := Z * option A.
Definition StatusOK : Z := 200.
Definition StatusBadRequest : Z := 400.
Definition StatusUnauthorized : Z := 401.
Definition StatusNotFound : Z := 404.
Definition StatusUpgradeRequired : Z := 426.
Definition StatusInternal : Z := 500.

(** [func parseLimit(w http.ResponseWriter, r *http.Request, def int) (int, bool)] *)
Definition parseLimit (limitStr : string) (def : Z) : option Z :=
  if limitStr =s "" then Some def
  else match ParseInt limitStr with
       | None => None
       | Some parsed => if parsed <=? 0 then None else Some (Z.min parsed 10000)
       end.

(** [func (s *Server) guard(next http.HandlerFunc) http.HandlerFunc] *)
Definition guard {A} (now : Z) (next : Request -> Sv (reply A)) (r : Request) : Sv (Response A) :=
  let! v := getS in
  if negb (sv_secret v =s "") && negb (rq_secret r =s sv_secret v)
  then retS (mkResponse StatusUnauthorized ProtocolVersion "" "" "" None)
  else if negb (rq_nodeID r =s "") && negb (rq_protocol r =s ProtocolVersion)
  then retS (mkResponse StatusUpgradeRequired ProtocolVersion "" "" "" None)
  else
    do! (if rq_nodeID r =s "" then retS tt
         else modifyS (fun v => sv_set_pollers (<[rq_nodeID r := now]> (sv_pollers v)) v)) then
    let! maxVer := tryS (onStore MaxVersion) in
    let max := match maxVer with Ok m => FormatInt m | Err _ => "" end in
    let! out := next r in
    retS (mkResponse (fst out) ProtocolVersion (sv_nodeID v) (incarnation (sv_store v)) max (snd out)).

(** [func (s *Server) handleChanges(w http.ResponseWriter, r *http.Request)] *)
Definition handleChanges (now : Z) (r : Request) : Sv (reply (list FileMeta)) :=
  if rq_since r =s "" then retS (StatusBadRequest, None)
  else match ParseInt (rq_since r) with
  | None => retS (StatusBadRequest, None)
  | Some since =>
      if since <? 0 then retS (StatusBadRequest, None)
      else match parseLimit (rq_limit r) 1000 with
      | None => retS (StatusBadRequest, None)
      | Some limit =>
          let! v := getS in
          do! (if rq_nodeID r =s "" then retS tt
               else
                 let ack := if negb (rq_epoch r =s "") && negb (rq_epoch r =s incarnation (sv_store v)) then 0 else since in
                 do! tryS (onStore (RecordAckEpoch now (rq_nodeID r) (rq_nodeEpoch r) ack)) then retS tt) then
          let! changes := tryS (onStore (GetChanges since limit)) in
          match changes with
          | Err _ => retS (StatusInternal, None)
          | Ok changes => retS (StatusOK, Some changes)
          end
      end
  end.

(** [func (s *Server) handleManifest(w http.ResponseWriter, r *http.Request)] *)
Definition handleManifest (r : Request) : Sv (reply (list FileMeta)) :=
  match parseLimit (rq_limit r) 1000 with
  | None => retS (StatusBadRequest, None)
  | Some limit =>
      let! entries := tryS (onStore (ListManifest (rq_after r) limit)) in
      match entries with
      | Err _ => retS (StatusInternal, None)
      | Ok entries => retS (StatusOK, Some entries)
      end
  end.

(** ** Facts *)

Lemma parseLimit_range limitStr def l : 0 < def <= 10000 -> parseLimit limitStr def = Some l -> 0 < l <= 10000.
Proof.
  unfold parseLimit. intros Hd. destruct (limitStr =s ""); [by intros [= <-]|]. destruct (ParseInt limitStr) as [p|]; [|done].
  destruct (p <=? 0) eqn:E; [done|]. apply Z.leb_gt in E. intros [= <-]. lia.
Qed.

Lemma parseLimit_small n def : 0 < n <= 10000 -> parseLimit (FormatInt n) def = Some n.
Proof.
  intros Hn. unfold parseLimit. destruct (FormatInt_spec n) as (Hd & _); [unfold MaxInt64; lia|].
  destruct (FormatInt n =s "") eqn:E.
  - apply eqs_true in E. assert (ParseInt (FormatInt n) = Some n) as Hp by (apply ParseInt_FormatInt; unfold MaxInt64; lia).
    by rewrite E in Hp.
  - rewrite ParseInt_FormatInt by (unfold MaxInt64; lia). rewrite (proj2 (Z.leb_gt n 0)) by lia. f_equal. lia.
Qed.

(** Only the peer's acknowledgement, the pollers and the fault list move. *)
Lemma onStore_query {A} (f : DB -> A) v :
  exists r v', tryS (onStore (query f)) v = (Ok r, v') /\ untouched (sv_store v) (sv_store v') /\
    (forall a, r = Ok a -> a = f (db (sv_store v))) /\ (faults (sv_store v) = [] -> r = Ok (f (db (sv_store v)))).
Proof.
  unfold tryS, onStore, zoomS. destruct (query f (sv_store v)) as [[a|e] s'] eqn:E.
  - apply query_Ok in E as [-> U]. eexists _, _. split; [done|]. split; [done|]. split; [by intros ? [= <-]|done].
  - pose proof (query_Err _ _ _ _ E) as [_ U]. eexists _, _. split; [done|]. split; [done|]. split; [done|].
    intros Hf. by rewrite query_nofault in E.
Qed.

Lemma RecordAckEpoch_files now peer epoch version s : files (db (RecordAckEpoch now peer epoch version s).2) = files (db s).
Proof.
  unfold RecordAckEpoch. destruct (peer =s ""); [done|]. destruct (exec _ s) as [[[]|e] s1] eqn:E; simpl.
  - by apply exec_Ok in E as [-> _].
  - apply exec_Err in E as [_ U]. by rewrite (untouched_db _ _ U).
Qed.

Lemma handleChanges_reply (now since : Z) (r : Request) (v : Server) :
  0 <= since <= MaxInt64 -> rq_since r = FormatInt since ->
  exists status body v', handleChanges now r v = (Ok (status, body), v') /\
    files (db (sv_store v')) = files (db (sv_store v)) /\
    match parseLimit (rq_limit r) 1000 with
    | None => status = StatusBadRequest /\ body = None
    | Some limit => 0 < limit <= 10000 /\
        (status = StatusOK /\ body = Some (changesSince (db (sv_store v)) since limit) \/ status = StatusInternal /\ body = None)
    end.
Proof.
  intros Hs Hr. unfold handleChanges. rewrite Hr, ParseInt_FormatInt by done.
  destruct (FormatInt since =s "") eqn:Ee.
  { apply eqs_true in Ee. pose proof (ParseInt_FormatInt since Hs) as Hp. by rewrite Ee in Hp. }
  rewrite (proj2 (Z.ltb_ge since 0)) by lia. destruct (parseLimit (rq_limit r) 1000) as [limit|] eqn:El; [|by eexists _, _, _].
  pose proof (parseLimit_range (rq_limit r) 1000 limit ltac:(lia) El) as Hl. unfold bindS at 1, getS at 1. set (ack := if negb (rq_epoch r =s "") && negb (rq_epoch r =s incarnation (sv_store v)) then 0 else since).
  assert (exists v1, (if rq_nodeID r =s "" then retS tt
      else do! tryS (onStore (RecordAckEpoch now (rq_nodeID r) (rq_nodeEpoch r) ack)) then retS tt) v = (Ok tt, v1) /\
      files (db (sv_store v1)) = files (db (sv_store v))) as (v1 & E1 & Hf1).
  { destruct (rq_nodeID r =s ""); [by eexists|]. unfold bindS, tryS, onStore, zoomS.
    pose proof (RecordAckEpoch_files now (rq_nodeID r) (rq_nodeEpoch r) ack (sv_store v)) as Hr'.
    destruct (RecordAckEpoch now (rq_nodeID r) (rq_nodeEpoch r) ack (sv_store v)) as [[[]|e] s1]; by eexists. }
  unfold bindS at 1. rewrite E1. unfold bindS. destruct (onStore_query (fun d => changesSince d since limit) v1) as (res & v2 & E2 & U & Hval & _).
  unfold GetChanges. rewrite E2. assert (changesSince (db (sv_store v1)) since limit = changesSince (db (sv_store v)) since limit) as Hc
    by (unfold changesSince; by rewrite Hf1).
  destruct res as [ch|e]; eexists _, _, _; (split; [done|]); (split; [by rewrite (untouched_db _ _ U)|]); (split; [done|]).
  - left. rewrite (Hval ch eq_refl), Hc. done.
  - by right.
Qed.

Lemma guard_run {A} now (next : Request -> Sv (reply A)) r v resp b v' :
  guard now next r v = (Ok resp, v') -> rs_body resp = Some b ->
  exists v1, sv_store v1 = sv_store v /\ next r v1 = (Ok (rs_status resp, Some b), v').
Proof.
  unfold guard. intros E Hs. rewrite bindS_run in E. simpl in E.
  destruct (_ && _) in E; [injection E as <- _; done|]. destruct (_ && _) in E; [injection E as <- _; done|].
  apply bindS_Ok in E as ([] & v1 & E1 & E). assert (sv_store v1 = sv_store v) as H1 by (destruct (rq_nodeID r =s ""); by injection E1 as <-).
  apply bindS_Ok in E as (mx & v2 & E2 & E). assert (sv_store v2 = sv_store v) as H2.
  { unfold tryS, onStore, zoomS, MaxVersion, bindS, getS in E2. rewrite H1 in E2. destruct (cachedNextVer (sv_store v) <=? 1); by injection E2 as _ <-. }
  apply bindS_Ok in E as ([st body] & v3 & E3 & E). injection E as <- <-. simpl in *. subst body. by exists v2.
Qed.

(** ** Properties *)

(** The guard: with a secret configured, a request without it gets 401 and runs no
    handler, and a peer that speaks another protocol gets 426; a reply that did run the handler
    names this node, its incarnation and its highest assigned version. The store is only ever
    changed by the handler. *)
Theorem guard_admits {A} (now : Z) (next : Request -> Sv (reply A)) (r : Request) (v v' : Server) (resp : Response A) :
  guard now next r v = (Ok resp, v') ->
  rs_protocol resp = ProtocolVersion /\
  (sv_secret v <> "" -> rq_secret r <> sv_secret v -> rs_status resp = StatusUnauthorized /\ v' = v) /\
  ((sv_secret v = "" \/ rq_secret r = sv_secret v) -> rq_nodeID r <> "" -> rq_protocol r <> ProtocolVersion ->
     rs_status resp = StatusUpgradeRequired /\ v' = v) /\
  ((sv_secret v = "" \/ rq_secret r = sv_secret v) -> (rq_nodeID r = "" \/ rq_protocol r = ProtocolVersion) ->
     exists v1, next r v1 = (Ok (rs_status resp, rs_body resp), v') /\ sv_store v1 = sv_store v /\
       rs_nodeID resp = sv_nodeID v /\ rs_epoch resp = incarnation (sv_store v) /\
       rs_max resp = FormatInt (if cachedNextVer (sv_store v) <=? 1 then 0 else cachedNextVer (sv_store v) - 1)).
Proof.
  unfold guard. intros E. apply bindS_Ok in E as (v0 & v0' & E0 & E). injection E0 as <- <-.
  destruct (negb (sv_secret v =s "") && negb (rq_secret r =s sv_secret v)) eqn:Es.
  { injection E as <- <-. apply andb_true_iff in Es as [E1 E2]. apply negb_true_iff, eqs_false in E1, E2. naive_solver. }
  assert (sv_secret v = "" \/ rq_secret r = sv_secret v) as Hs.
  { apply andb_false_iff in Es as [Es|Es]; apply negb_false_iff, eqs_true in Es; auto. }
  destruct (negb (rq_nodeID r =s "") && negb (rq_protocol r =s ProtocolVersion)) eqn:Ep.
  { injection E as <- <-. apply andb_true_iff in Ep as [E1 E2]. apply negb_true_iff, eqs_false in E1, E2. naive_solver. }
  assert (rq_nodeID r = "" \/ rq_protocol r = ProtocolVersion) as Hp.
  { apply andb_false_iff in Ep as [Ep|Ep]; apply negb_false_iff, eqs_true in Ep; auto. }
  apply bindS_Ok in E as ([] & v1 & E1 & E). assert (sv_store v1 = sv_store v) as Hv1.
  { destruct (rq_nodeID r =s ""); by injection E1 as <-. }
  apply bindS_Ok in E as (mx & v2 & E2 & E).
  assert (sv_store v2 = sv_store v /\ mx = Ok (if cachedNextVer (sv_store v) <=? 1 then 0 else cachedNextVer (sv_store v) - 1)) as [Hv2 ->].
  { unfold tryS, onStore, zoomS, MaxVersion, bindS, getS in E2. rewrite Hv1 in E2.
    destruct (cachedNextVer (sv_store v) <=? 1); by injection E2 as <- <-. }
  apply bindS_Ok in E as ([st body] & v3 & E3 & E). injection E as <- <-. simpl.
  split; [done|]. split; [naive_solver|]. split; [naive_solver|]. intros _ _. by exists v2.
Qed.

(** The change stream endpoint answers with exactly the store's page of changes past the
    requested version (the limit bounded to 10000), rejects a missing, negative or malformed
    cursor with 400, reports a database failure as 500, and never changes a file state. *)
Theorem handleChanges_serves (now since : Z) (r : Request) (v : Server) :
  0 <= since <= MaxInt64 -> rq_since r = FormatInt since ->
  exists status body v', handleChanges now r v = (Ok (status, body), v') /\
    files (db (sv_store v')) = files (db (sv_store v)) /\
    match parseLimit (rq_limit r) 1000 with
    | None => status = StatusBadRequest /\ body = None
    | Some limit => 0 < limit <= 10000 /\
        (status = StatusOK /\ body = Some (changesSince (db (sv_store v)) since limit) \/ status = StatusInternal /\ body = None)
    end.
Proof. apply handleChanges_reply. Qed.

(** ** Witnesses *)

Definition sampleRequest : Request := mkRequest "s3cret" "node-b" "4" "e" "0" "100" "" "".
Definition sampleServer : Server := mkServer storeWithChild "node-a" "s3cret" ∅.

Lemma guard_admits_witness :
  exists resp, (guard 7 (handleChanges 7) sampleRequest sampleServer).1 = Ok resp /\ rs_nodeID resp = "node-a" /\ rs_max resp = "1".
Proof.
  destruct (guard 7 (handleChanges 7) sampleRequest sampleServer) as [[resp|e] v'] eqn:E; [|vm_compute in E; discriminate E].
  exists resp. split; [reflexivity|].
  destruct (guard_admits 7 (handleChanges 7) sampleRequest sampleServer v' resp E) as (_ & _ & _ & T).
  destruct T as (v1 & _ & _ & Hid & _ & Hmax); [right; reflexivity|right; reflexivity|]. split; [exact Hid|]. rewrite Hmax. vm_compute. reflexivity.
Defined.

Lemma handleChanges_serves_witness :
  exists body v', handleChanges 7 sampleRequest sampleServer = (Ok (StatusOK, body), v') /\ body <> None.
Proof.
  destruct (handleChanges_serves 7 0 sampleRequest sampleServer) as (status & body & v' & E & _ & T).
  - split; vm_compute; discriminate.
  - vm_compute. reflexivity.
  - change (parseLimit (rq_limit sampleRequest) 1000) with (Some 100) in T. destruct T as [_ [[-> Hb]|[-> _]]].
    + exists body, v'. split; [exact E|]. rewrite Hb. discriminate.
    + vm_compute in E. discriminate E.
Defined.
