(* ===== verification/Sync.v ===== *)
(** * Discovering changes

    internal/syncer/syncer.go: polling a peer's change stream and walking its manifest, with
    everything that decides what to record: identity and order checks on the reply, cursor
    resets, collapsing, validation and comparison with the local index. Neither loop applies
    anything; both only fill the durable queue. The peer is a function from requests to
    replies, no reply standing for a transport failure. *)

From S2P Require Import Prelude GoStrings FileMeta Database Names Store RepairQueue Integrity Validate Server.

(** ** State *)

Record peerStat := mkPeerStat {
  pst_cursor : Z;
  pst_peerMaxVersion : Z;
  pst_epoch : string;
  pst_self : bool
}.
Definition noStat : peerStat := mkPeerStat 0 0 "" false.

Record Options := mkOptions {
  BatchLimit : Z;
  ReconcilePageBudget : Z
}.

Record Syncer := mkSyncer {
  sy_store : Store;
  sy_nodeID : string;
  sy_ignore : list string;
  sy_opts : Options;
  sy_stats : gmap string peerStat;
  sy_peerIDs : gset string;
  sy_wake : gset string;
  sy_skipped : Z;
  sy_cancel : list bool
}.

Definition sy_set_store (s : Store) (y : Syncer) : Syncer := mkSyncer s (sy_nodeID y) (sy_ignore y) (sy_opts y) (sy_stats y) (sy_peerIDs y) (sy_wake y) (sy_skipped y) (sy_cancel y).
Definition sy_set_stats (t : gmap string peerStat) (y : Syncer) : Syncer := mkSyncer (sy_store y) (sy_nodeID y) (sy_ignore y) (sy_opts y) t (sy_peerIDs y) (sy_wake y) (sy_skipped y) (sy_cancel y).
Definition sy_set_peerIDs (t : gset string) (y : Syncer) : Syncer := mkSyncer (sy_store y) (sy_nodeID y) (sy_ignore y) (sy_opts y) (sy_stats y) t (sy_wake y) (sy_skipped y) (sy_cancel y).
Definition sy_set_wake (t : gset string) (y : Syncer) : Syncer := mkSyncer (sy_store y) (sy_nodeID y) (sy_ignore y) (sy_opts y) (sy_stats y) (sy_peerIDs y) t (sy_skipped y) (sy_cancel y).
Definition sy_set_skipped (n : Z) (y : Syncer) : Syncer := mkSyncer (sy_store y) (sy_nodeID y) (sy_ignore y) (sy_opts y) (sy_stats y) (sy_peerIDs y) (sy_wake y) n (sy_cancel y).
Definition sy_set_cancel (l : list bool) (y : Syncer) : Syncer := mkSyncer (sy_store y) (sy_nodeID y) (sy_ignore y) (sy_opts y) (sy_stats y) (sy_peerIDs y) (sy_wake y) (sy_skipped y) l.

Inductive serr :=
| SStore (e : err)
| SRequest                       (* the transport failed *)
| SProtocol (got : string)
| SSelfPeer                      (* errSelfPeer *)
| SDuplicateNodeID (id : string) (* errDuplicateNodeID *)
| SStatus (code : Z)
| SDecode
| SPageTooLong (got : Z)
| SBadOrder
| SCancelled
| SJoin (a b : serr).

Abbreviation Sy := (SE Syncer serr).

Definition inStore {A} (c : St A) : Sy A := zoomS sy_store sy_set_store SStore c.

(** [if err := ctx.Err(); err != nil]: when the context ends is an input, one element per
    check. *)
Definition ctxErr : Sy unit := fun y =>
  match sy_cancel y with
  | true :: l => (Err SCancelled, sy_set_cancel l y)
  | false :: l => (Ok tt, sy_set_cancel l y)
  | [] => (Ok tt, y)
  end.

(** [func (s *Syncer) withStat(peerURL string, fn func( *peerStat))] *)
Definition withStat (peer : string) (f : peerStat -> peerStat) : Sy unit :=
  modifyS (fun y => sy_set_stats (<[peer := f (default noStat (sy_stats y !! peer))]> (sy_stats y)) y).

(** [func (s *Syncer) notifyApply(peerURL string)]: a channel of one slot. *)
Definition notifyApply (peer : string) : Sy unit := modifyS (fun y => sy_set_wake ({[peer]} ∪ sy_wake y) y).

(** [retireSelfPeer], [isSelfPeer] *)
Definition retireSelfPeer (peer : string) : Sy unit :=
  withStat peer (fun st => mkPeerStat (pst_cursor st) (pst_peerMaxVersion st) (pst_epoch st) true).
Definition isSelfPeer (peer : string) : Sy bool :=
  do! withStat peer (fun st => st) then
  let! y := getS in
  retS (pst_self (default noStat (sy_stats y !! peer))).

(** ** Requests *)

(** [func (s *Syncer) checkPeerIdentity(resp *http.Response) error] *)
Definition checkPeerIdentity {A} (resp : Response A) : Sy unit :=
  if negb (rs_protocol resp =s ProtocolVersion) then failS (SProtocol (rs_protocol resp))
  else
    let id := rs_nodeID resp in
    let! y := getS in
    if negb (id =s "") && (id =s sy_nodeID y)
    then if rs_epoch resp =s incarnation (sy_store y) then failS SSelfPeer else failS (SDuplicateNodeID id)
    else if negb (id =s "") then modifyS (fun y => sy_set_peerIDs ({[id]} ∪ sy_peerIDs y) y)
    else retS tt.

(** [func (s *Syncer) doRequest(ctx context.Context, reqURL string) ( *http.Response, error)] *)
Definition doRequest {A} (sent : option (Response A)) : Sy (Response A) :=
  match sent with
  | None => failS SRequest
  | Some resp => do! checkPeerIdentity resp then retS resp
  end.

(** ** Deciding what to record *)

(** [func needsCursorReset(state store.PeerState, epoch string, peerMax int64, hasMax bool) (bool, string)] *)
Definition needsCursorReset (state : PeerState) (epoch : string) (peerMax : Z) (hasMax : bool) : bool :=
  if ps_Version state =? 0 then false
  else if negb (epoch =s "") && negb (ps_Epoch state =s "") && negb (epoch =s ps_Epoch state) then true
  else hasMax && (peerMax <? ps_Version state).

(** [func collapseByName(changes []store.FileMeta) ([]store.FileMeta, int64)] *)
Fixpoint collapse_loop (changes : list FileMeta) (batchMax : Z) (index : gmap string nat) (out : list FileMeta) : list FileMeta * Z :=
  match changes with
  | [] => (out, batchMax)
  | change :: rest =>
      let batchMax := if batchMax <? Version change then Version change else batchMax in
      match index !! Name change with
      | Some pos =>
          match out !! pos with
          | Some old => collapse_loop rest batchMax index (if Version old <? Version change then <[pos := change]> out else out)
          | None => (out, batchMax) (* index out of range *)
          end
      | None => collapse_loop rest batchMax (<[Name change := length out]> index) (out ++ [change])
      end
  end.
Definition collapseByName (changes : list FileMeta) : list FileMeta * Z := collapse_loop changes 0 ∅ [].

Section Sync.
Context (conflictDigest : string -> string -> string).

Definition usable (ignore : list string) (change : FileMeta) : bool :=
  match validateChange conflictDigest ignore change with None => true | Some _ => false end.

(** The filtering loops of [enqueueBatch] and [reconcilePage]: what is dropped is counted. *)
Fixpoint keepUsable (changes : list FileMeta) : Sy (list FileMeta) :=
  match changes with
  | [] => retS []
  | change :: rest =>
      let! y := getS in
      if usable (sy_ignore y) change
      then let! out := keepUsable rest in retS (change :: out)
      else do! modifyS (fun y => sy_set_skipped (wrap64 (sy_skipped y + 1)) y) then keepUsable rest
  end.

(** [func (s *Syncer) newerThanLocal(entries []store.FileMeta) ([]store.FileMeta, error)] *)
Definition isWanted (s : Store) (local : gmap string FileMeta) (entry : FileMeta) : bool :=
  let mine := local !! Name entry in
  remoteWins mine entry ||
  (IsQuarantined (Name entry) s && match CompareState (Some entry) mine with Eq => true | _ => false end).
Definition newerThanLocal (entries : list FileMeta) : Sy (list FileMeta) :=
  match entries with
  | [] => retS []
  | _ =>
      let! local := inStore (GetFilesBatch (map Name entries)) in
      let! y := getS in
      retS (base.filter (fun e => isWanted (sy_store y) local e = true) entries)
  end.

(** [EnqueueChanges] as its callers use it: a full queue is an error. *)
Definition record (now : Z) (peer : string) (wanted : list FileMeta) (reason : string) : Sy Z :=
  let! out := inStore (EnqueueChanges now peer wanted reason) in
  let '(n, full) := out in
  match full with Some e => failS (SStore e) | None => retS n end.

(** [func (s *Syncer) enqueueBatch(ctx context.Context, peerURL string, changes []store.FileMeta) error] *)
Definition enqueueBatch (now : Z) (peer : string) (changes : list FileMeta) : Sy unit :=
  do! ctxErr then
  let! usable := keepUsable changes in
  let! wanted := newerThanLocal usable in
  do! record now peer wanted "polled" then
  retS tt.

(** ** Polling *)

Section Poll.
(** The peer's answer to [/changes?since=..&limit=..&epoch=..]. *)
Context (changesFrom : Z -> Z -> string -> option (Response (list FileMeta))).

Fixpoint inOrder (previous : Z) (changes : list FileMeta) : bool :=
  match changes with
  | [] => true
  | change :: rest => (previous <? Version change) && inOrder (Version change) rest
  end.

(** [func (s *Syncer) syncBatch(ctx context.Context, peerURL string) (int, bool, error)] *)
Definition syncBatch (now : Z) (peer : string) : Sy (Z * bool) :=
  let! state := inStore (GetPeerState peer) in
  let! y0 := getS in
  let limit := BatchLimit (sy_opts y0) in
  let! resp := doRequest (changesFrom (ps_Version state) limit (ps_Epoch state)) in
  if negb (rs_status resp =? StatusOK) then failS (SStatus (rs_status resp))
  else
    let epoch := rs_epoch resp in
    let '(peerMax, hasMax) := parseInt64Header (rs_max resp) in
    do! withStat peer (fun st => mkPeerStat (ps_Version state) (if hasMax then peerMax else pst_peerMaxVersion st) epoch (pst_self st)) then
    if needsCursorReset state epoch peerMax hasMax
    then do! inStore (SetPeerState peer (mkPeerState 0 epoch)) then retS (0, true)
    else
      do! (if negb (ps_Epoch state =s epoch) && negb (epoch =s "")
           then inStore (SetPeerState peer (mkPeerState (ps_Version state) epoch)) else retS tt) then
      match rs_body resp with
      | None => failS SDecode
      | Some changes =>
          if limit <? Z.of_nat (length changes) then failS (SPageTooLong (Z.of_nat (length changes)))
          else if negb (inOrder (ps_Version state) changes) then failS SBadOrder
          else match changes with
          | [] => retS (0, false)
          | _ =>
              let '(latest, batchMax) := collapseByName changes in
              do! enqueueBatch now peer latest then
              do! (if ps_Version state <? batchMax
                   then do! inStore (SetPeerState peer (mkPeerState batchMax epoch)) then
                        withStat peer (fun st => mkPeerStat batchMax (pst_peerMaxVersion st) (pst_epoch st) (pst_self st))
                   else retS tt) then
              do! notifyApply peer then
              retS (Z.of_nat (length changes), false)
          end
      end.

(** [func (s *Syncer) syncOnce(ctx context.Context, peerURL string) (int, error)]: one retry
    after a reset. *)
Definition syncOnce (now : Z) (peer : string) : Sy Z :=
  let! first := syncBatch now peer in
  if snd first then let! second := syncBatch now peer in retS (fst second)
  else retS (fst first).
End Poll.

(** ** Reconciliation *)

(** [func (s *Syncer) reconcilePage(peerURL string, page []store.FileMeta) (int, error)] *)
Definition reconcilePage (now : Z) (peer : string) (page : list FileMeta) : Sy Z :=
  let! usable := keepUsable page in
  let! wanted := newerThanLocal usable in
  record now peer wanted "reconcile".

Definition reconcilePositionKey (peer : string) : string := PerPeerKeyPrefix +:+ peer.
Definition manifestPageSize : Z := 1000.

Section Reconcile.
(** The peer's answer to [/manifest?after=..&limit=..]. *)
Context (manifestFrom : string -> Z -> option (Response (list FileMeta))).

Fixpoint namesInOrder (previous : string) (page : list FileMeta) : bool :=
  match page with
  | [] => true
  | entry :: rest => (previous <s Name entry) && namesInOrder (Name entry) rest
  end.

(** The closure [interrupted]: the finished pages are kept. *)
Definition interrupted {A} (peer after : string) (cause : serr) : Sy A := fun y =>
  match inStore (SetNodeValue (reconcilePositionKey peer) after) y with
  | (Ok _, y') => (Err cause, y')
  | (Err e, y') => (Err (SJoin cause e), y')
  end.

(** The page loop of [reconcileOnce]: [None] when the fuel is spent. *)
Fixpoint reconcile_loop (fuel : nat) (now : Z) (peer after : string) (pages queued : Z) : Sy (option bool) :=
  match fuel with
  | O => retS None
  | S fuel' =>
      do! ctxErr then
      let! y0 := getS in
      let budget := ReconcilePageBudget (sy_opts y0) in
      if (0 <? budget) && (budget <=? pages)
      then do! inStore (SetNodeValue (reconcilePositionKey peer) after) then retS (Some false)
      else
        let! sent := tryS (doRequest (manifestFrom after manifestPageSize)) in
        match sent with
        | Err e => interrupted peer after e
        | Ok resp =>
            if rs_status resp =? StatusNotFound
            then do! inStore (SetNodeValue (reconcilePositionKey peer) "") then retS (Some false)
            else if negb (rs_status resp =? StatusOK) then interrupted peer after (SStatus (rs_status resp))
            else match rs_body resp with
            | None => interrupted peer after SDecode
            | Some page =>
                if manifestPageSize <? Z.of_nat (length page) then failS (SPageTooLong (Z.of_nat (length page)))
                else match page with
                | [] =>
                    do! inStore (SetNodeValue (reconcilePositionKey peer) "") then
                    do! (if 0 <? queued then notifyApply peer else retS tt) then
                    retS (Some true)
                | _ =>
                    if negb (namesInOrder after page) then failS SBadOrder
                    else
                      let! done_ := tryS (reconcilePage now peer page) in
                      match done_ with
                      | Err e => interrupted peer after e
                      | Ok n => reconcile_loop fuel' now peer (Name (List.last page (zeroMeta ""))) (pages + 1) (queued + n)
                      end
                end
            end
        end
  end.

(** [func (s *Syncer) reconcileOnce(ctx context.Context, peerURL string) (completed bool, err error)] *)
Definition reconcileOnce (fuel : nat) (now : Z) (peer : string) : Sy (option bool) :=
  let! after := inStore (NodeValue (reconcilePositionKey peer)) in
  reconcile_loop fuel now peer after 0 0.
End Reconcile.
End Sync.

(** ** Backoff of failed work *)

Definition minRepairBackoff : Z := 500000000.
Definition maxRepairBackoff : Z := 900000000000.

(** The delay [deferRepair] computes. *)
Definition repairBackoff (attempts : Z) : Z :=
  let backoff := wrap64 (Z.shiftl minRepairBackoff (Z.min attempts 12)) in
  if (maxRepairBackoff <? backoff) || (backoff <=? 0) then maxRepairBackoff else backoff.

(** [func (s *Syncer) deferRepair(peerURL string, item store.RepairItem, cause string) error] and
    [resolveRepair] *)
Definition deferRepair (now : Z) (item : RepairItem) (cause : string) : Sy unit :=
  inStore (DeferRepairItem now item (repairBackoff (ri_Attempts item)) cause).
Definition resolveRepair (item : RepairItem) : Sy unit := inStore (ResolveRepairItem item).

(** ** Facts: collapsing *)

Definition indexed (index : gmap string nat) (out : list FileMeta) : Prop :=
  (forall n pos, index !! n = Some pos -> exists e, out !! pos = Some e /\ Name e = n) /\
  (forall pos e, out !! pos = Some e -> index !! Name e = Some pos).

Lemma indexed_NoDup index out : indexed index out -> NoDup (map Name out).
Proof.
  intros [_ H2]. change (map Name out) with (Name <$> out). apply NoDup_alt. intros i j n Hi Hj.
  rewrite list_lookup_fmap in Hi, Hj. apply fmap_Some in Hi as (a & Hi & ->), Hj as (b & Hj & Hb).
  pose proof (H2 i a Hi) as E1. pose proof (H2 j b Hj) as E2. congruence.
Qed.

Lemma indexed_replace index out pos old change :
  indexed index out -> out !! pos = Some old -> Name old = Name change -> indexed index (<[pos := change]> out).
Proof.
  intros [H1 H2] Hp Hn. assert (pos < length out)%nat as Hlt by by eapply lookup_lt_Some. split.
  - intros n p Hi. destruct (H1 n p Hi) as (e & He & <-). destruct (decide (p = pos)) as [->|Hne].
    + exists change. rewrite list_lookup_insert_eq by done. by simplify_eq.
    + exists e. by rewrite list_lookup_insert_ne by done.
  - intros p e He. destruct (decide (p = pos)) as [->|Hne].
    + rewrite list_lookup_insert_eq in He by done. injection He as <-. rewrite <- Hn. by apply H2.
    + rewrite list_lookup_insert_ne in He by done. by apply H2.
Qed.

Lemma indexed_append index out change :
  indexed index out -> index !! Name change = None -> indexed (<[Name change := length out]> index) (out ++ [change]).
Proof.
  intros [H1 H2] Hn. split.
  - intros n p Hi. apply lookup_insert_Some in Hi as [[<- <-]|[_ Hi]].
    + exists change. split; [by apply list_lookup_middle|done].
    + destruct (H1 n p Hi) as (e & He & <-). exists e. split; [by apply lookup_app_l_Some|done].
  - intros p e He. apply lookup_app_Some in He as [He|[Hl He]].
    + rewrite lookup_insert_ne; [by apply H2|]. intros E. rewrite E, (H2 _ _ He) in Hn. done.
    + apply list_lookup_singleton_Some in He as [Hz <-]. rewrite lookup_insert_eq. f_equal. lia.
Qed.

Lemma replaced_in (out : list FileMeta) pos old c : out !! pos = Some old -> c ∈ <[pos := c]> out.
Proof. intros Ho. apply (list_elem_of_lookup_2 _ pos). apply list_lookup_insert_eq. by eapply lookup_lt_Some. Qed.

(** The newest entry of a name stands for every entry of that name. *)
Definition stands_for (out : list FileMeta) (c : FileMeta) : Prop :=
  exists e, e ∈ out /\ Name e = Name c /\ Version c <= Version e.

Lemma collapse_loop_spec changes batchMax index out latest bm :
  indexed index out -> collapse_loop changes batchMax index out = (latest, bm) ->
  NoDup (map Name latest) /\ (forall e, e ∈ latest -> e ∈ out \/ e ∈ changes) /\
  (forall c, c ∈ out \/ c ∈ changes -> stands_for latest c) /\
  batchMax <= bm /\ Forall (fun c => Version c <= bm) changes /\ (bm = batchMax \/ exists c, c ∈ changes /\ Version c = bm).
Proof.
  revert batchMax index out. induction changes as [|c changes IH]; intros batchMax index out Hi E; simpl in E.
  { injection E as <- <-. split; [by eapply indexed_NoDup|]. split; [by left|]. split.
    - intros c [Hc|Hc]; [|set_solver]. by exists c.
    - split; [lia|]. split; [constructor|by left]. }
  set (bm1 := if batchMax <? Version c then Version c else batchMax) in E.
  assert (batchMax <= bm1 /\ Version c <= bm1 /\ (bm1 = batchMax \/ bm1 = Version c)) as (B1 & B2 & B3).
  { unfold bm1. destruct (batchMax <? Version c) eqn:Eb; [apply Z.ltb_lt in Eb|apply Z.ltb_ge in Eb]; lia. }
  assert (forall index' out', indexed index' out' -> collapse_loop changes bm1 index' out' = (latest, bm) ->
            (forall e, e ∈ out' -> e ∈ out \/ e = c) -> (forall x, x ∈ out \/ x = c -> stands_for out' x) ->
            NoDup (map Name latest) /\ (forall e, e ∈ latest -> e ∈ out \/ e ∈ c :: changes) /\
            (forall x, x ∈ out \/ x ∈ c :: changes -> stands_for latest x) /\
            batchMax <= bm /\ Forall (fun c => Version c <= bm) (c :: changes) /\
            (bm = batchMax \/ exists x, x ∈ c :: changes /\ Version x = bm)) as Hstep.
  { intros index' out' Hi' E' Hsub Hst. destruct (IH _ _ _ Hi' E') as (H1 & H2 & H3 & H4 & H5 & H6). split_and!; [done| | |lia| |].
    - intros e He. destruct (H2 e He) as [Ho|Ho]; [destruct (Hsub e Ho) as [?| ->]; set_solver|set_solver].
    - intros x Hx. assert ((x ∈ out \/ x = c) \/ x ∈ changes) as [Hx'|Hx'] by set_solver; [|by apply H3; right].
      destruct (Hst x Hx') as (e & He & Hn & Hv). destruct (H3 e (or_introl He)) as (e2 & He2 & Hn2 & Hv2).
      exists e2. split; [done|]. split; [congruence|lia].
    - constructor; [lia|done].
    - destruct H6 as [->|(x & Hx & Hv)]; [|right; exists x; set_solver]. destruct B3 as [->| ->]; [by left|]. right. exists c. set_solver. }
  destruct (index !! Name c) as [pos|] eqn:Ei.
  - destruct (proj1 Hi _ _ Ei) as (old & Ho & Hn). rewrite Ho in E. destruct (Version old <? Version c) eqn:Ev.
    + apply Z.ltb_lt in Ev. apply (Hstep index (<[pos := c]> out)); [by eapply indexed_replace|done| |].
      * intros e He. apply list_elem_of_lookup in He as [i He]. apply list_lookup_insert_Some in He as [(_ & <- & _)|[_ He]]; [by right|left; by eapply list_elem_of_lookup_2].
      * intros x [Hx| ->].
        -- apply list_elem_of_lookup in Hx as [i Hx]. destruct (decide (i = pos)) as [->|Hne].
           ++ rewrite Ho in Hx. injection Hx as <-. exists c. split; [by eapply replaced_in|]. split; [done|lia].
           ++ exists x. split; [|done]. apply list_elem_of_lookup. exists i. by rewrite list_lookup_insert_ne by done.
        -- exists c. split; [by eapply replaced_in|done].
    + apply Z.ltb_ge in Ev. apply (Hstep index out); [done|done|by left|]. intros x [Hx| ->]; [by exists x|].
      exists old. split; [by eapply list_elem_of_lookup_2|]. by rewrite Hn.
  - apply (Hstep (<[Name c := length out]> index) (out ++ [c])); [by apply indexed_append|done|set_solver|].
    intros x Hx. exists x. split; [set_solver|done].
Qed.

Lemma collapseByName_spec changes latest bm :
  collapseByName changes = (latest, bm) ->
  NoDup (map Name latest) /\ (forall e, e ∈ latest -> e ∈ changes) /\ (forall c, c ∈ changes -> stands_for latest c) /\
  0 <= bm /\ Forall (fun c => Version c <= bm) changes /\ (bm = 0 \/ exists c, c ∈ changes /\ Version c = bm).
Proof.
  intros E. apply collapse_loop_spec in E as (H1 & H2 & H3 & H4 & H5 & H6); [|by split; intros; set_solver].
  split_and!; try done.
  - intros e He. destruct (H2 e He); [set_solver|done].
  - intros c Hc. apply H3. by right.
Qed.

(** ** Facts: recording *)

Lemma inStore_Ok {A} (c : St A) y a y' :
  inStore c y = (Ok a, y') -> exists s', c (sy_store y) = (Ok a, s') /\ y' = sy_set_store s' y.
Proof. unfold inStore, zoomS. destruct (c (sy_store y)) as [[a'|e] s'] eqn:E; intros [= <- <-]. by exists s'. Qed.

Lemma inStore_Err {A} (c : St A) y e y' :
  inStore c y = (Err e, y') -> exists e0 s', c (sy_store y) = (Err e0, s') /\ e = SStore e0 /\ y' = sy_set_store s' y.
Proof. unfold inStore, zoomS. destruct (c (sy_store y)) as [[a'|e0] s'] eqn:E; intros [= <- <-]. by exists e0, s'. Qed.

(** Configuration never moves. *)
Definition same_config (y y' : Syncer) : Prop :=
  sy_nodeID y' = sy_nodeID y /\ sy_ignore y' = sy_ignore y /\ sy_opts y' = sy_opts y.
#[export] Instance same_config_preorder : PreOrder same_config.
Proof. split; [done|]. intros y1 y2 y3 (? & ? & ?) (? & ? & ?). unfold same_config. split_and!; congruence. Qed.

Lemma ctxErr_run y r y' : ctxErr y = (r, y') -> sy_store y' = sy_store y /\ same_config y y'.
Proof. unfold ctxErr. destruct (sy_cancel y) as [|[] l]; intros [= <- <-]; done. Qed.

Section Facts.
Context (conflictDigest : string -> string -> string).
Notation usable := (usable conflictDigest).
Notation keepUsable := (keepUsable conflictDigest).

Lemma keepUsable_run changes y :
  exists k, keepUsable changes y = (Ok (base.filter (fun c => usable (sy_ignore y) c = true) changes), sy_set_skipped k y).
Proof.
  revert y. induction changes as [|c changes IH]; intros y; simpl.
  { exists (sy_skipped y). by destruct y. }
  unfold bindS at 1, getS at 1. rewrite filter_cons. destruct (usable (sy_ignore y) c) eqn:E.
  - rewrite decide_True by done. unfold bindS. destruct (IH y) as [k ->]. by exists k.
  - rewrite decide_False by done. unfold bindS, modifyS.
    destruct (IH (sy_set_skipped (wrap64 (sy_skipped y + 1)) y)) as [k ->]. by exists k.
Qed.

Lemma isWanted_local s (names : list string) t e :
  Name e ∈ names -> isWanted s (base.filter (fun kv : string * FileMeta => kv.1 ∈ names) t) e = isWanted s t e.
Proof.
  intros Hn. unfold isWanted.
  assert (base.filter (fun kv : string * FileMeta => kv.1 ∈ names) t !! Name e = t !! Name e) as ->; [|done].
  rewrite map_lookup_filter. destruct (t !! Name e) as [m|]; [|done]. simpl. by rewrite option_guard_True.
Qed.

Lemma newerThanLocal_Ok entries y wanted y' :
  newerThanLocal entries y = (Ok wanted, y') ->
  untouched (sy_store y) (sy_store y') /\ same_config y y' /\
  wanted = base.filter (fun e => isWanted (sy_store y) (files (db (sy_store y))) e = true) entries.
Proof.
  unfold newerThanLocal. destruct entries as [|e0 entries]; [intros [= <- <-]; done|]. intros E. set (es := e0 :: entries) in *.
  apply bindS_Ok in E as (local & y1 & E1 & E). apply inStore_Ok in E1 as (s1 & E1 & ->).
  unfold GetFilesBatch, es in E1. change (map Name (e0 :: entries)) with (Name e0 :: map Name entries) in E1. apply query_Ok in E1 as [-> U].
  injection E as <- <-. split; [done|]. split; [done|]. simpl.
  enough (forall l : list FileMeta, (forall e, e ∈ l -> Name e ∈ Name e0 :: map Name entries) ->
     base.filter (fun e => isWanted s1 (base.filter (fun kv : string * FileMeta => kv.1 ∈ Name e0 :: map Name entries) (files (db (sy_store y)))) e = true) l =
     base.filter (fun e => isWanted (sy_store y) (files (db (sy_store y))) e = true) l) as Hl.
  { apply Hl. intros e He. change (Name e ∈ Name <$> es). by apply list_elem_of_fmap_2. }
  induction l as [|e l IH]; intros Hin; [done|]. rewrite !filter_cons.
  assert (isWanted s1 (base.filter (fun kv : string * FileMeta => kv.1 ∈ Name e0 :: map Name entries) (files (db (sy_store y)))) e =
          isWanted (sy_store y) (files (db (sy_store y))) e) as ->.
  { rewrite isWanted_local by (apply Hin; set_solver). unfold isWanted, IsQuarantined. by rewrite U. }
  case_decide; rewrite IH by (intros; apply Hin; set_solver); done.
Qed.

(** What a page's entry may become: dropped as unusable, already held in this or a greater
    state, or in the durable queue with at least this state. *)
Definition handled (ignore : list string) (d : DB) (peer : string) (c : FileMeta) : Prop :=
  usable ignore c = false \/ CompareState (Some c) (files d !! Name c) <> Gt \/ recorded d peer (changeOf c).

(** Recording all wanted entries of a batch handles the whole batch. *)
Lemma record_Ok now peer reason entries y wanted y1 n y' :
  queue_inv (sy_store y) -> revision_of (db (sy_store y)) + Z.of_nat (length entries) <= MaxInt64 ->
  newerThanLocal entries y = (Ok wanted, y1) -> record now peer wanted reason y1 = (Ok n, y') ->
  queue_inv (sy_store y') /\ same_config y y' /\
  files (db (sy_store y')) = files (db (sy_store y)) /\ cursors (db (sy_store y')) = cursors (db (sy_store y)) /\
  (forall c, c ∈ entries -> CompareState (Some c) (files (db (sy_store y')) !! Name c) <> Gt \/ recorded (db (sy_store y')) peer (changeOf c)) /\
  revision_of (db (sy_store y')) <= revision_of (db (sy_store y)) + Z.of_nat (length entries) /\
  (forall p c, recorded (db (sy_store y)) p (changeOf c) -> recorded (db (sy_store y')) p (changeOf c)).
Proof.
  intros Hinv Hroom E1 E2. apply newerThanLocal_Ok in E1 as (U & C & ->). set (w := base.filter _ entries) in *.
  assert (length w <= length entries)%nat as Hlen by apply length_filter.
  unfold record in E2. apply bindS_Ok in E2 as ([k full] & y2 & E2 & E3). apply inStore_Ok in E2 as (s2 & E2 & ->).
  destruct full as [e|]; [done|]. injection E3 as <- <-. simpl.
  pose proof (queue_inv_untouched _ _ U Hinv) as Hinv1. pose proof (untouched_db _ _ U) as Hd.
  assert (forall c, c ∈ entries -> c ∈ w \/ CompareState (Some c) (files (db (sy_store y)) !! Name c) <> Gt) as Hcase.
  { intros c Hc. destruct (decide (c ∈ w)) as [?|Hn]; [by left|right]. intros Hg. apply Hn, list_elem_of_filter. split; [|done].
    unfold isWanted, remoteWins. by rewrite Hg. }
  unfold EnqueueChanges in E2. destruct (decide (w = [])) as [Hw|Hw].
  { rewrite Hw in *. injection E2 as _ <-. rewrite Hd. split_and!; try done; [|lia]. intros c Hc. destruct (Hcase c Hc); [set_solver|by left]. }
  apply enqueue_spec in E2; [|by destruct w|done|rewrite Hd, length_map; lia].
  destruct E2 as [P1 _ _ P4 P5 _ [P7 P7'] (P8 & P9 & _) _]. rewrite Hd in *.
  split_and!; try done.
  - intros c Hc. destruct (Hcase c Hc) as [Hc'|Hc']; [right|left; by rewrite P8].
    apply P5; [done|]. change (changeOf c ∈ changeOf <$> w). by apply list_elem_of_fmap_2.
  - rewrite length_map in P7. lia.
  - intros p c (row & Hr & Hm). destruct (Hm c eq_refl) as (m1 & Hm1 & Hle1). simpl in Hr.
    destruct (P4 _ _ _ Hr Hm1) as (row' & m' & Hr' & Hm' & Hle). exists row'. split; [done|]. intros m [= <-].
    exists m'. split; [done|]. by apply (cmp_le_trans (c:=CompareState) _ (Some m1)).
Qed.

Definition cursorOf (d : DB) (peer : string) : Z := ps_Version (default (mkPeerState 0 "") (cursors d !! peer)).

(** What no step of discovery touches: the file states, and every cursor. *)
Definition steady (y y' : Syncer) : Prop :=
  same_config y y' /\ files (db (sy_store y')) = files (db (sy_store y)) /\ cursors (db (sy_store y')) = cursors (db (sy_store y)).
#[local] Instance steady_preorder : PreOrder steady.
Proof.
  split; [done|]. intros y1 y2 y3 (C1 & F1 & D1) (C2 & F2 & D2). split; [by etrans|]. by rewrite F2, D2.
Qed.

Lemma steady_store y y' : sy_store y' = sy_store y -> same_config y y' -> steady y y'.
Proof. intros H C. split; [done|]. by rewrite H. Qed.

Lemma newerThanLocal_Err entries y e y' :
  newerThanLocal entries y = (Err e, y') -> untouched (sy_store y) (sy_store y') /\ same_config y y'.
Proof.
  unfold newerThanLocal. destruct entries as [|e0 entries]; [done|]. intros E. apply bindS_Err in E as [E|(local & y1 & _ & E)]; [|done].
  apply inStore_Err in E as (e1 & s1 & E & _ & ->). unfold GetFilesBatch in E. apply query_Err in E as [_ U]. done.
Qed.

Lemma record_Err now peer wanted reason y e y' :
  queue_inv (sy_store y) -> revision_of (db (sy_store y)) + Z.of_nat (length wanted) <= MaxInt64 ->
  record now peer wanted reason y = (Err e, y') -> queue_inv (sy_store y') /\ steady y y'.
Proof.
  intros Hinv Hroom E. unfold record in E. apply bindS_Err in E as [E|([n full] & y1 & E1 & E)].
  - apply inStore_Err in E as (e1 & s1 & E & _ & ->). apply enqueue_Err in E. split; [by eapply queue_inv_untouched|].
    split; [done|]. simpl. by rewrite (untouched_db _ _ E).
  - apply inStore_Ok in E1 as (s1 & E1 & ->). destruct full as [e1|]; [|done]. injection E as _ <-. simpl.
    unfold EnqueueChanges in E1. destruct (decide (wanted = [])) as [->|Hne]; [injection E1 as _ _ <-; by destruct y|].
    apply enqueue_spec in E1; [|by destruct wanted|done|by rewrite length_map].
    destruct E1 as [P1 _ _ _ _ _ _ (P8 & P9 & _) _]. done.
Qed.

(** A batch, whatever happens: invariants kept, no cursor moved; with success every entry is
    handled. *)
Lemma enqueueBatch_run now peer changes y r y' :
  queue_inv (sy_store y) -> revision_of (db (sy_store y)) + Z.of_nat (length changes) <= MaxInt64 ->
  enqueueBatch conflictDigest now peer changes y = (r, y') ->
  queue_inv (sy_store y') /\ steady y y' /\
  (r = Ok tt -> forall c, c ∈ changes -> handled (sy_ignore y) (db (sy_store y')) peer c).
Proof.
  intros Hinv Hroom E. unfold enqueueBatch in E. rewrite bindS_run in E.
  destruct (ctxErr y) as [[[]|e] y1] eqn:E1; apply ctxErr_run in E1 as [S1 C1].
  2:{ injection E as <- <-. rewrite S1. split; [done|]. split; [by apply steady_store|done]. }
  rewrite bindS_run in E. destruct (keepUsable_run changes y1) as [k Hk]. rewrite Hk in E.
  destruct C1 as (C1a & C1b & C1c). rewrite C1b in *. set (us := base.filter _ changes) in *. set (y2 := sy_set_skipped k y1) in *.
  assert (length us <= length changes)%nat as Hlen by apply length_filter.
  assert (sy_store y2 = sy_store y) as S2 by done. rewrite <- S2 in Hinv, Hroom.
  assert (steady y y2) as St2 by by apply steady_store.
  rewrite bindS_run in E. destruct (newerThanLocal us y2) as [[wanted|e] y3] eqn:E3.
  2:{ injection E as <- <-. apply newerThanLocal_Err in E3 as [U C]. split; [by eapply queue_inv_untouched|]. split; [|done].
      etrans; [exact St2|]. split; [done|]. by rewrite (untouched_db _ _ U). }
  pose proof (newerThanLocal_Ok _ _ _ _ E3) as (U3 & C3 & Hw).
  rewrite bindS_run in E. destruct (record now peer wanted "polled" y3) as [[n|e] y4] eqn:E4; injection E as <- <-.
  - destruct (record_Ok now peer "polled" us y2 wanted y3 n y4 Hinv ltac:(lia) E3 E4) as (Q & C & F & Cu & Hh & _).
    split; [done|]. split; [etrans; [exact St2|done]|]. intros _ c Hc. unfold handled.
    destruct (usable (sy_ignore y) c) eqn:Eu; [right|by left]. apply Hh. apply list_elem_of_filter. done.
  - assert (length wanted <= length us)%nat by (rewrite Hw; apply length_filter).
    apply record_Err in E4 as [Q St4]; [|by eapply queue_inv_untouched|rewrite (untouched_db _ _ U3); lia].
    split; [done|]. split; [|done]. etrans; [exact St2|]. etrans; [|exact St4]. split; [done|]. by rewrite (untouched_db _ _ U3).
Qed.
End Facts.

(** ** Facts: one poll *)

Lemma inOrder_versions previous changes :
  inOrder previous changes = true -> Forall (fun c => previous < Version c) changes.
Proof.
  revert previous. induction changes as [|c changes IH]; intros previous E; [constructor|]. simpl in E.
  apply andb_true_iff in E as [E1 E2]. apply Z.ltb_lt in E1. constructor; [done|]. eapply Forall_impl; [by apply IH|].
  simpl. intros x. lia.
Qed.

Lemma checkPeerIdentity_run {A} (resp : Response A) y r y' :
  checkPeerIdentity resp y = (r, y') -> sy_store y' = sy_store y /\ same_config y y'.
Proof.
  unfold checkPeerIdentity. destruct (negb (rs_protocol resp =s ProtocolVersion)); [by intros [= <- <-]|].
  rewrite bindS_run. simpl. destruct (negb (rs_nodeID resp =s "") && (rs_nodeID resp =s sy_nodeID y)).
  - by destruct (rs_epoch resp =s incarnation (sy_store y)); intros [= <- <-].
  - by destruct (negb (rs_nodeID resp =s "")); intros [= <- <-].
Qed.

Lemma doRequest_run {A} (sent : option (Response A)) y r y' :
  doRequest sent y = (r, y') -> sy_store y' = sy_store y /\ same_config y y' /\ (forall resp, r = Ok resp -> sent = Some resp).
Proof.
  unfold doRequest. destruct sent as [resp|]; [|by intros [= <- <-]]. rewrite bindS_run.
  destruct (checkPeerIdentity resp y) as [[[]|e] y1] eqn:E; apply checkPeerIdentity_run in E as [S C]; intros [= <- <-]; [|done].
  split; [done|]. split; [done|]. by intros ? [= <-].
Qed.

(** A statement on the cursor table of one peer, or nothing when it fails. *)
Lemma SetPeerState_run peer ps y r y' :
  inStore (SetPeerState peer ps) y = (r, y') ->
  same_config y y' /\ files (db (sy_store y')) = files (db (sy_store y)) /\
  (queue_inv (sy_store y) -> queue_inv (sy_store y')) /\ repair_queue (db (sy_store y')) = repair_queue (db (sy_store y)) /\
  cursors (db (sy_store y')) = match r with Ok _ => <[peer := ps]> (cursors (db (sy_store y))) | Err _ => cursors (db (sy_store y)) end /\
  revision_of (db (sy_store y')) = revision_of (db (sy_store y)).
Proof.
  intros E. unfold SetPeerState in E. destruct r as [[]|e].
  - apply inStore_Ok in E as (s1 & E & ->). apply exec_Ok in E as [Hd M]. simpl. rewrite Hd. split_and!; try done.
    intros []. unfold memory_kept in M. rewrite Hd in M. rewrite M. by split.
  - apply inStore_Err in E as (e0 & s1 & E & _ & ->). apply exec_Err in E as [_ U]. simpl. rewrite (untouched_db _ _ U).
    split_and!; try done. intros Hq. by eapply queue_inv_untouched.
Qed.

Section PollFacts.
Context (conflictDigest : string -> string -> string).
Context (changesFrom : Z -> Z -> string -> option (Response (list FileMeta))).

(** What one poll leaves, whichever way it ends. *)
(** The epoch of the peer remembered beside its cursor. *)
Definition epochOf (d : DB) (peer : string) : string := ps_Epoch (default (mkPeerState 0 "") (cursors d !! peer)).

Definition batch_post (peer : string) (y : Syncer) (r : result serr (Z * bool)) (y' : Syncer) : Prop :=
  let d := db (sy_store y) in let d' := db (sy_store y') in
  queue_inv (sy_store y') /\ files d' = files d /\
  (forall p, p <> peer -> cursors d' !! p = cursors d !! p) /\
  match r with
  | Err _ => cursorOf d' peer = cursorOf d peer
  | Ok (_, true) => cursorOf d' peer = 0
  | Ok (n, false) =>
      exists resp changes, changesFrom (cursorOf d peer) (BatchLimit (sy_opts y)) (epochOf d peer) = Some resp /\ rs_body resp = Some changes /\
        n = Z.of_nat (length changes) /\
        (changes = [] -> cursorOf d' peer = cursorOf d peer) /\
        (changes <> [] -> cursorOf d peer < cursorOf d' peer /\ (exists c, c ∈ changes /\ Version c = cursorOf d' peer)) /\
        (forall c, c ∈ changes -> cursorOf d peer < Version c <= cursorOf d' peer /\
           exists e, e ∈ changes /\ Name e = Name c /\ Version c <= Version e /\ handled conflictDigest (sy_ignore y) d' peer e)
  end.

(** Nothing moved but the peer's epoch and bookkeeping. *)
Definition quiet (peer : string) (y y' : Syncer) : Prop :=
  same_config y y' /\ files (db (sy_store y')) = files (db (sy_store y)) /\
  (queue_inv (sy_store y) -> queue_inv (sy_store y')) /\
  (forall p, p <> peer -> cursors (db (sy_store y')) !! p = cursors (db (sy_store y)) !! p) /\
  cursorOf (db (sy_store y')) peer = cursorOf (db (sy_store y)) peer /\
  revision_of (db (sy_store y')) = revision_of (db (sy_store y)).

#[local] Instance quiet_preorder peer : PreOrder (quiet peer).
Proof.
  split; [done|]. intros y1 y2 y3 (A1 & B1 & C1 & D1 & E1 & F1) (A2 & B2 & C2 & D2 & E2 & F2).
  split_and!; [by etrans|congruence|auto| |congruence|congruence]. intros p Hp. by rewrite D2, D1.
Qed.

Lemma quiet_same_store peer y y' : sy_store y' = sy_store y -> same_config y y' -> quiet peer y y'.
Proof. intros S C. unfold quiet. rewrite S. done. Qed.

Lemma quiet_untouched peer y y' : untouched (sy_store y) (sy_store y') -> same_config y y' -> quiet peer y y'.
Proof.
  intros U C. unfold quiet. rewrite (untouched_db _ _ U). split_and!; try done. intros Hq. by eapply queue_inv_untouched.
Qed.

Lemma quiet_post peer y y1 e y' : quiet peer y y' -> queue_inv (sy_store y) -> y1 = y' -> batch_post peer y (Err e) y1.
Proof. intros (A & B & C & D & E & F) Hq ->. unfold batch_post. split_and!; auto. Qed.

(** The last part of a poll: record the page, then move the cursor. *)
Lemma poll_page now peer y y5 state resp changes latest batchMax r y' :
  queue_inv (sy_store y) -> revision_of (db (sy_store y)) + Z.of_nat (length changes) <= MaxInt64 ->
  quiet peer y y5 -> 0 <= cursorOf (db (sy_store y)) peer -> ps_Version state = cursorOf (db (sy_store y)) peer ->
  ps_Epoch state = epochOf (db (sy_store y)) peer ->
  changesFrom (ps_Version state) (BatchLimit (sy_opts y)) (ps_Epoch state) = Some resp -> rs_body resp = Some changes ->
  inOrder (ps_Version state) changes = true -> changes <> [] -> collapseByName changes = (latest, batchMax) ->
  (do! enqueueBatch conflictDigest now peer latest then
   do! (if ps_Version state <? batchMax
        then do! inStore (SetPeerState peer (mkPeerState batchMax (rs_epoch resp))) then
             withStat peer (fun st => mkPeerStat batchMax (pst_peerMaxVersion st) (pst_epoch st) (pst_self st))
        else retS tt) then
   do! notifyApply peer then retS (Z.of_nat (length changes), false)) y5 = (r, y') ->
  batch_post peer y r y'.
Proof.
  intros Hq Hroom (C5 & F5 & Q5 & O5 & V5 & R5) Hpos Hst Hep Hreq Hbody Hord Hne Hcol E.
  apply collapseByName_spec in Hcol as (Hnd & Hsub & Hstand & _ & Hmax & Hmem). apply inOrder_versions in Hord.
  rewrite Forall_forall in Hmax, Hord.
  assert (length latest <= length changes)%nat as Hlen.
  { apply submseteq_length, NoDup_submseteq; [|done]. change (NoDup (Name <$> latest)) in Hnd. by eapply NoDup_fmap_1. }
  rewrite bindS_run in E. destruct (enqueueBatch conflictDigest now peer latest y5) as [[[]|e] y6] eqn:E6;
    apply enqueueBatch_run in E6 as (Q6 & (C6 & F6 & U6) & H6); auto; try (rewrite R5; lia).
  2:{ injection E as <- <-. unfold batch_post, cursorOf in *. rewrite U6. split_and!; [done|by rewrite F6|done|done]. }
  destruct changes as [|c0 changes0] eqn:Ech; [done|]. rewrite <- Ech in *.
  assert (c0 ∈ changes) as Hc0 by (rewrite Ech; set_solver).
  assert (ps_Version state < batchMax) as Hlt by (pose proof (Hmax _ Hc0); pose proof (Hord _ Hc0); simpl in *; lia).
  rewrite (proj2 (Z.ltb_lt _ _) Hlt) in E. rewrite bindS_run in E. rewrite bindS_run in E.
  destruct (inStore (SetPeerState peer (mkPeerState batchMax (rs_epoch resp))) y6) as [[[]|e] y7] eqn:E7;
    apply SetPeerState_run in E7 as (C7 & F7 & Q7 & RQ7 & U7 & _).
  2:{ injection E as <- <-. unfold batch_post, cursorOf in *. rewrite U7, U6. split_and!; [auto|by rewrite F7, F6|done|done]. }
  injection E as <- <-. simpl. unfold batch_post. simpl. rewrite F7, F6, U7, U6. split; [auto|]. split; [done|]. split.
  { intros p Hp. rewrite lookup_insert_ne by congruence. by apply O5. }
  assert (cursorOf (db (sy_store y7)) peer = batchMax) as Hcur by (unfold cursorOf; by rewrite U7, lookup_insert_eq).
  rewrite Hst, Hep in *. exists resp, changes. rewrite Hcur. split_and!; try done.
  - intros _. split; [done|]. destruct Hmem as [Hz|?]; [|done]. exfalso.
    pose proof (Hmax _ Hc0). pose proof (Hord _ Hc0). simpl in *. lia.
  - intros c Hc. split; [split; [by apply Hord|by apply Hmax]|].
    destruct (Hstand c Hc) as (e & He & Hn & Hv). exists e. split_and!; auto.
    assert (sy_ignore y5 = sy_ignore y) as Hig by apply C5. rewrite <- Hig.
    destruct (H6 eq_refl e He) as [?|[?|(row & Hr & Hm)]]; [by left|right; left; by rewrite F7|right; right].
    exists row. by rewrite RQ7.
Qed.

Lemma syncBatch_run now peer y :
  queue_inv (sy_store y) -> 0 <= cursorOf (db (sy_store y)) peer ->
  revision_of (db (sy_store y)) + BatchLimit (sy_opts y) <= MaxInt64 ->
  batch_post peer y (syncBatch conflictDigest changesFrom now peer y).1 (syncBatch conflictDigest changesFrom now peer y).2.
Proof.
  intros Hq Hpos Hroom. destruct (syncBatch conflictDigest changesFrom now peer y) as [r y'] eqn:E. simpl.
  unfold syncBatch in E. rewrite bindS_run in E.
  destruct (inStore (GetPeerState peer) y) as [[state|e] y1] eqn:E1.
  2:{ injection E as <- <-. apply inStore_Err in E1 as (e0 & s1 & E1 & _ & ->). apply query_Err in E1 as [_ U].
      apply (quiet_post peer y _ _ (sy_set_store s1 y)); [by apply quiet_untouched|done|done]. }
  apply inStore_Ok in E1 as (s1 & E1 & ->). apply query_Ok in E1 as [-> U1]. set (state := default (mkPeerState 0 "") (cursors (db (sy_store y)) !! peer)) in *.
  assert (quiet peer y (sy_set_store s1 y)) as L1 by by apply quiet_untouched.
  rewrite bindS_run in E. simpl in E. rewrite bindS_run in E. set (y1 := sy_set_store s1 y) in *.
  destruct (doRequest (changesFrom (ps_Version state) (BatchLimit (sy_opts y)) (ps_Epoch state)) y1) as [[resp|e] y2] eqn:E2;
    apply doRequest_run in E2 as (S2 & C2 & H2); (assert (quiet peer y y2) as L2 by (etrans; [exact L1|by apply quiet_same_store])).
  2:{ injection E as <- <-. by eapply quiet_post. }
  specialize (H2 resp eq_refl).
  destruct (negb (rs_status resp =? StatusOK)); [injection E as <- <-; by eapply quiet_post|].
  destruct (parseInt64Header (rs_max resp)) as [peerMax hasMax]. rewrite bindS_run in E. simpl in E. set (y3 := sy_set_stats _ y2) in E.
  assert (quiet peer y y3) as L3 by (etrans; [exact L2|by apply quiet_same_store]).
  destruct (needsCursorReset state (rs_epoch resp) peerMax hasMax).
  { rewrite bindS_run in E. destruct (inStore (SetPeerState peer (mkPeerState 0 (rs_epoch resp))) y3) as [[[]|e] y4] eqn:E4;
      apply SetPeerState_run in E4 as (C4 & F4 & Q4 & _ & U4 & _); injection E as <- <-; destruct L3 as (A3 & B3 & D3 & O3 & V3 & R3);
      unfold batch_post, cursorOf in *; rewrite U4, F4; split_and!; auto.
    - intros p Hp. rewrite lookup_insert_ne by congruence. by apply O3.
    - by rewrite lookup_insert_eq. }
  rewrite bindS_run in E.
  destruct ((if negb (ps_Epoch state =s rs_epoch resp) && negb (rs_epoch resp =s "")
             then inStore (SetPeerState peer (mkPeerState (ps_Version state) (rs_epoch resp))) else retS tt) y3) as [r5 y5] eqn:E5.
  assert (quiet peer y y5) as L5.
  { etrans; [exact L3|]. destruct (negb _ && _) in E5; [|by injection E5 as _ <-].
    apply SetPeerState_run in E5 as (C5 & F5 & Q5 & _ & U5 & R5). unfold quiet. split_and!; auto.
    - intros p Hp. rewrite U5. destruct r5; [|done]. by rewrite lookup_insert_ne by congruence.
    - destruct L3 as (_ & _ & _ & _ & V3 & _). rewrite V3. unfold cursorOf at 1. rewrite U5. destruct r5; [by rewrite lookup_insert_eq|done]. }
  destruct r5 as [[]|e]; [|injection E as <- <-; by eapply quiet_post].
  destruct (rs_body resp) as [changes|] eqn:Hbody; [|injection E as <- <-; by eapply quiet_post].
  destruct (BatchLimit (sy_opts y) <? Z.of_nat (length changes)) eqn:Elim; [injection E as <- <-; by eapply quiet_post|].
  destruct (inOrder (ps_Version state) changes) eqn:Eord; simpl in E; [|injection E as <- <-; by eapply quiet_post].
  apply Z.ltb_ge in Elim. destruct changes as [|c0 changes0].
  - injection E as <- <-. destruct L5 as (A & B & C & D & F & G). unfold batch_post. split_and!; auto.
    exists resp, []. split_and!; try done. intros c Hc. set_solver.
  - destruct (collapseByName (c0 :: changes0)) as [latest batchMax] eqn:Ecol.
    eapply (poll_page now peer y y5 state resp (c0 :: changes0) latest batchMax); try done. lia.
Qed.
End PollFacts.

(** ** Facts: one reconciliation *)

Section ReconcileFacts.
Context (conflictDigest : string -> string -> string).
Context (manifestFrom : string -> Z -> option (Response (list FileMeta))).
Notation handled := (handled conflictDigest).

Lemma SetNodeValue_run peer v y r y' :
  inStore (SetNodeValue (reconcilePositionKey peer) v) y = (r, y') ->
  same_config y y' /\ files (db (sy_store y')) = files (db (sy_store y)) /\ repair_queue (db (sy_store y')) = repair_queue (db (sy_store y)) /\
  (queue_inv (sy_store y) -> queue_inv (sy_store y')).
Proof.
  intros E. unfold SetNodeValue in E. destruct r as [[]|e].
  - apply inStore_Ok in E as (s1 & E & ->). apply exec_Ok in E as [Hd M]. simpl. rewrite Hd. split_and!; try done.
    assert (forall k, k = "repair_revision" -> (<[reconcilePositionKey peer := v]> (node_meta (db (sy_store y)))) !! k = node_meta (db (sy_store y)) !! k) as Hk.
    { intros k ->. rewrite lookup_insert_ne; [done|]. unfold reconcilePositionKey, PerPeerKeyPrefix. discriminate. }
    intros [A B C D F]. unfold memory_kept in M. rewrite Hd in M. rewrite M. split; try done.
    + simpl. by rewrite Hk.
    + unfold revision_of in *. simpl. by rewrite Hk.
  - apply inStore_Err in E as (e0 & s1 & E & _ & ->). apply exec_Err in E as [_ U]. simpl. rewrite (untouched_db _ _ U).
    split_and!; try done. intros Hq. by eapply queue_inv_untouched.
Qed.

(** A reconciled page: everything on it is handled, and nothing handled before is lost. *)
Lemma reconcilePage_Ok now peer page y n y' :
  queue_inv (sy_store y) -> revision_of (db (sy_store y)) + Z.of_nat (length page) <= MaxInt64 ->
  reconcilePage conflictDigest now peer page y = (Ok n, y') ->
  queue_inv (sy_store y') /\ same_config y y' /\ files (db (sy_store y')) = files (db (sy_store y)) /\
  revision_of (db (sy_store y')) <= revision_of (db (sy_store y)) + Z.of_nat (length page) /\
  (forall c, c ∈ page -> handled (sy_ignore y) (db (sy_store y')) peer c) /\
  (forall c, handled (sy_ignore y) (db (sy_store y)) peer c -> handled (sy_ignore y) (db (sy_store y')) peer c).
Proof.
  intros Hq Hroom E. unfold reconcilePage in E. rewrite bindS_run in E. destruct (keepUsable_run conflictDigest page y) as [k Hk]. rewrite Hk in E.
  set (us := base.filter _ page) in *. set (y1 := sy_set_skipped k y) in *.
  assert (length us <= length page)%nat as Hlen by apply length_filter.
  apply bindS_Ok in E as (wanted & y2 & E1 & E2).
  destruct (record_Ok now peer "reconcile" us y1 wanted y2 n y' Hq ltac:(simpl; lia) E1 E2) as (Q & C & F & _ & Hh & Hrv & Hmono).
  split; [done|]. split; [done|]. split; [done|]. split; [simpl in Hrv; lia|]. split.
  - intros c Hc. unfold handled. destruct (usable conflictDigest (sy_ignore y) c) eqn:Eu; [right|by left]. apply Hh. by apply list_elem_of_filter.
  - intros c [?|[?|?]]; [by left|right; left; by rewrite F|right; right; by apply Hmono].
Qed.

(** The peer is a node of this program holding the tables [d]. *)
Context (d : DB).
Hypothesis peer_keyed : well_keyed d.
Hypothesis peer_serves : forall after, exists resp, manifestFrom after manifestPageSize = Some resp /\
  rs_status resp = StatusOK /\ rs_body resp = Some (manifestAfter d after manifestPageSize).

Lemma page_length after : Z.of_nat (length (manifestAfter d after manifestPageSize)) <= manifestPageSize.
Proof.
  unfold manifestAfter, sql_limit. rewrite (proj2 (Z.ltb_ge manifestPageSize 0)) by done. rewrite length_take.
  unfold manifestPageSize. lia.
Qed.

Lemma reconcile_loop_complete fuel now peer after pages queued y y' :
  queue_inv (sy_store y) -> revision_of (db (sy_store y)) + manifestPageSize * Z.of_nat fuel <= MaxInt64 ->
  reconcile_loop conflictDigest manifestFrom fuel now peer after pages queued y = (Ok (Some true), y') ->
  queue_inv (sy_store y') /\ files (db (sy_store y')) = files (db (sy_store y)) /\
  (forall c, handled (sy_ignore y) (db (sy_store y)) peer c -> handled (sy_ignore y) (db (sy_store y')) peer c) /\
  (forall k r, files d !! k = Some r -> String.compare after k = Lt -> handled (sy_ignore y) (db (sy_store y')) peer r).
Proof.
  revert after pages queued y. induction fuel as [|fuel IH]; intros after pages queued y Hq Hroom E; [done|].
  cbn [reconcile_loop] in E. apply bindS_Ok in E as ([] & y1 & E1 & E). apply ctxErr_run in E1 as [S1 C1].
  rewrite bindS_run in E. simpl in E. destruct (_ && _) in E.
  { by apply bindS_Ok in E as (? & ? & _ & E). }
  rewrite bindS_run in E. destruct (peer_serves after) as (resp & Hreq & Hstatus & Hbody). unfold tryS in E. rewrite Hreq in E.
  destruct (doRequest (Some resp) y1) as [[resp'|e] y2] eqn:E2; apply doRequest_run in E2 as (S2 & C2 & H2); simpl in E.
  2:{ unfold interrupted in E. by destruct (inStore _ y2) as [[[]|?] ?]. }
  specialize (H2 resp' eq_refl). injection H2 as <-. rewrite Hstatus, Hbody in E. simpl in E.
  pose proof (page_length after) as Hpl. rewrite (proj2 (Z.ltb_ge _ _) Hpl) in E.
  assert (sy_store y2 = sy_store y) as S by by rewrite S2.
  assert (sy_ignore y2 = sy_ignore y) as Hig by (destruct C1 as (_ & I1 & _), C2 as (_ & I2 & _); congruence).
  destruct (manifestAfter_complete d after manifestPageSize (zeroMeta "") peer_keyed) as [_ Hcomp]; [done|].
  destruct (manifestAfter d after manifestPageSize) as [|c0 page0] eqn:Epage.
  - apply bindS_Ok in E as ([] & y3 & E3 & E). apply SetNodeValue_run in E3 as (C3 & F3 & RQ3 & Q3).
    apply bindS_Ok in E as ([] & y4 & E4 & E). injection E as <-.
    assert (sy_store y4 = sy_store y3) as S4 by (destruct (0 <? queued); by injection E4 as <-).
    rewrite S4, F3, S. rewrite S in Q3, RQ3. split; [auto|]. split; [done|]. split.
    + intros c [?|[?|(row & Hr & Hm)]]; [by left|right; left; by rewrite F3, S|right; right]. exists row. by rewrite RQ3.
    + intros k r Hr Hlt. destruct (Hcomp k r Hr Hlt) as [?|[? _]]; [set_solver|done].
  - destruct (negb (namesInOrder after (c0 :: page0))); [done|]. rewrite bindS_run in E. unfold tryS in E.
    destruct (reconcilePage conflictDigest now peer (c0 :: page0) y2) as [[n|e] y3] eqn:E3; simpl in E.
    2:{ unfold interrupted in E. by destruct (inStore _ y3) as [[[]|?] ?]. }
    rewrite Nat2Z.inj_succ, Z.mul_succ_r in Hroom.
    apply reconcilePage_Ok in E3 as (Q3 & C3 & F3 & R3 & H3 & M3); [|by rewrite S|rewrite S; unfold manifestPageSize in *; lia].
    rewrite S in R3, F3, M3. apply IH in E as (Q & F & M & H); [|done|unfold manifestPageSize in *; lia].
    assert (sy_ignore y3 = sy_ignore y) as Hig3 by (destruct C3 as (_ & I3 & _); congruence). rewrite Hig, Hig3 in *.
    split; [done|]. split; [by rewrite F|]. split; [auto|]. intros k r Hr Hlt.
    destruct (Hcomp k r Hr Hlt) as [Hin|[_ Hgt]]; [by apply M, H3|by eapply H].
Qed.

(** The walk of a peer's manifest ends: the names still ahead shrink with every page. *)
Lemma reconcile_loop_total fuel now peer after pages queued y :
  (length (base.filter (fun k => String.compare after k = Lt) (elements (dom (files d)))) < fuel)%nat ->
  (reconcile_loop conflictDigest manifestFrom fuel now peer after pages queued y).1 <> Ok None.
Proof.
  revert after pages queued y. induction fuel as [|fuel IH]; intros after pages queued y Hf; [lia|].
  cbn [reconcile_loop]. rewrite bindS_run. destruct (ctxErr y) as [[[]|e] y1]; [|done]. rewrite bindS_run. simpl.
  destruct (_ && _).
  { rewrite bindS_run. by destruct (inStore _ y1) as [[[]|?] ?]. }
  rewrite bindS_run. unfold tryS. destruct (peer_serves after) as (resp & Hreq & Hstatus & Hbody). rewrite Hreq.
  destruct (doRequest (Some resp) y1) as [[resp'|e] y2] eqn:E2; apply doRequest_run in E2 as (_ & _ & H2); simpl.
  2:{ unfold interrupted. by destruct (inStore _ y2) as [[[]|?] ?]. }
  specialize (H2 resp' eq_refl). injection H2 as <-. rewrite Hstatus, Hbody. simpl.
  rewrite (proj2 (Z.ltb_ge _ _) (page_length after)).
  destruct (manifestAfter_complete d after manifestPageSize (zeroMeta "") peer_keyed) as [Hin _]; [done|].
  destruct (manifestAfter d after manifestPageSize) as [|c0 page0] eqn:Epage.
  { rewrite bindS_run. destruct (inStore _ y2) as [[[]|?] ?]; [|done]. rewrite bindS_run. by destruct (0 <? queued). }
  destruct (negb (namesInOrder after (c0 :: page0))); [done|]. rewrite bindS_run. unfold tryS.
  destruct (reconcilePage conflictDigest now peer (c0 :: page0) y2) as [[n|e] y3]; simpl.
  2:{ unfold interrupted. by destruct (inStore _ y3) as [[[]|?] ?]. }
  apply IH. set (l := List.last (c0 :: page0) (zeroMeta "")).
  assert (l ∈ c0 :: page0) as Hl by by apply last_elem_of. destruct (Hin l Hl) as [Hlt Hk].
  assert (Name l :: base.filter (fun k => String.compare (Name l) k = Lt) (elements (dom (files d)))
          ⊆+ base.filter (fun k => String.compare after k = Lt) (elements (dom (files d)))) as Hsub.
  { apply NoDup_submseteq.
    - constructor; [|apply NoDup_filter, NoDup_elements]. rewrite list_elem_of_filter. intros [Hc _]. by rewrite (cmp_refl String.compare) in Hc.
    - intros k [->|Hk']%elem_of_cons; apply list_elem_of_filter.
      + split; [done|]. apply elem_of_elements, elem_of_dom. eauto.
      + apply list_elem_of_filter in Hk' as [Hk1 Hk2]. split; [|done].
        apply (cmp_Lt_le_trans String.compare after (Name l) k); [done|congruence]. }
  apply submseteq_length in Hsub. cbn [length] in Hsub. apply (proj1 (Nat.lt_succ_r _ _)) in Hf. unfold l in Hsub. simpl in Hsub. eapply Nat.lt_le_trans; [exact Hsub|exact Hf].
Qed.
End ReconcileFacts.

(** ** A peer of this program, seen through its API *)

Definition ask (secret nodeID nodeEpoch since limit after epoch : string) : Request :=
  mkRequest secret nodeID ProtocolVersion nodeEpoch since limit after epoch.

(** The reply of the node [v] to [/changes], through its guard. *)
Definition changesOf (now : Z) (v : Server) (y : Syncer) (since limit : Z) (epoch : string) : option (Response (list FileMeta)) :=
  match guard now (handleChanges now)
          (ask (sv_secret v) (sy_nodeID y) (incarnation (sy_store y)) (FormatInt since) (FormatInt limit) "" epoch) v with
  | (Ok resp, _) => Some resp
  | (Err _, _) => None
  end.
Definition manifestOf (now : Z) (v : Server) (y : Syncer) (after : string) (limit : Z) : option (Response (list FileMeta)) :=
  match guard now handleManifest
          (ask (sv_secret v) (sy_nodeID y) (incarnation (sy_store y)) "" (FormatInt limit) after "") v with
  | (Ok resp, _) => Some resp
  | (Err _, _) => None
  end.

Lemma handleManifest_body limit r v body v' :
  parseLimit (rq_limit r) 1000 = Some limit -> handleManifest r v = (Ok (StatusOK, body), v') ->
  body = Some (manifestAfter (db (sv_store v)) (rq_after r) limit).
Proof.
  unfold handleManifest. intros -> E. rewrite bindS_run in E. unfold ListManifest in E.
  destruct (onStore_query (fun d => manifestAfter d (rq_after r) limit) v) as (res & v1 & E1 & _ & Hv & _). rewrite E1 in E.
  destruct res as [l|e]; [|discriminate E]. rewrite <- (Hv l eq_refl). unfold retS in E. congruence.
Qed.

(** ** Properties *)

(** Collapsing a page keeps, for every name on it, exactly one entry, the newest by the
    peer's version, and reports the highest version of the page; nothing is invented. *)
Theorem collapseByName_newest (changes : list FileMeta) :
  let '(latest, batchMax) := collapseByName changes in
  NoDup (map Name latest) /\ (forall e, e ∈ latest -> e ∈ changes) /\
  (forall c, c ∈ changes -> exists e, e ∈ latest /\ Name e = Name c /\ Version c <= Version e) /\
  Forall (fun c => Version c <= batchMax) changes.
Proof.
  destruct (collapseByName changes) as [latest bm] eqn:E. apply collapseByName_spec in E as (H1 & H2 & H3 & _ & H5 & _). done.
Qed.

(** C1. The cursor never passes unrecorded work. However a poll ends (a failed request, a
    malformed or misordered page, a full queue, a database failure at any statement,
    cancellation), the peer's cursor keeps its version unless the whole page was dealt with.
    A poll that succeeds answers for the page the peer served to the request for the states
    past the stored cursor under the stored epoch: it reports that page's length, an empty
    page leaves the cursor where it was, and otherwise the cursor moves exactly to the highest
    version of the page, when for every entry of the page the newest entry of its name was
    dropped as unusable, was already matched locally, or is in the durable queue. A reset goes
    back to zero. Other peers' cursors and all file states are untouched, and the queue's
    invariant holds. *)
Theorem syncBatch_cursor_safe (conflictDigest : string -> string -> string)
    (changesFrom : Z -> Z -> string -> option (Response (list FileMeta))) (now : Z) (peer : string) (y : Syncer) :
  queue_inv (sy_store y) -> 0 <= cursorOf (db (sy_store y)) peer ->
  revision_of (db (sy_store y)) + BatchLimit (sy_opts y) <= MaxInt64 ->
  let '(r, y') := syncBatch conflictDigest changesFrom now peer y in
  let d := db (sy_store y) in let d' := db (sy_store y') in
  queue_inv (sy_store y') /\ files d' = files d /\ (forall p, p <> peer -> cursors d' !! p = cursors d !! p) /\
  match r with
  | Err _ => cursorOf d' peer = cursorOf d peer
  | Ok (_, true) => cursorOf d' peer = 0
  | Ok (n, false) => exists resp changes,
      changesFrom (cursorOf d peer) (BatchLimit (sy_opts y)) (epochOf d peer) = Some resp /\ rs_body resp = Some changes /\
      n = Z.of_nat (length changes) /\
      (changes = [] -> cursorOf d' peer = cursorOf d peer) /\
      (changes <> [] -> cursorOf d peer < cursorOf d' peer /\ exists c, c ∈ changes /\ Version c = cursorOf d' peer) /\
      (forall c, c ∈ changes -> cursorOf d peer < Version c <= cursorOf d' peer /\
         exists e, e ∈ changes /\ Name e = Name c /\ Version c <= Version e /\ handled conflictDigest (sy_ignore y) d' peer e)
  end.
Proof.
  intros Hq Hc Hroom. pose proof (syncBatch_run conflictDigest changesFrom now peer y Hq Hc Hroom) as P.
  by destruct (syncBatch conflictDigest changesFrom now peer y) as [r y'].
Qed.

(** C2. Polling a node of this program leaves no gap: after a successful poll, every file
    state the peer holds with a version between the old and the new cursor is handled here,
    and if the poll brought nothing the peer has no state past the cursor. *)
Theorem poll_leaves_no_gap `{NameFolding} (conflictDigest : string -> string -> string)
    (now : Z) (peer : string) (v : Server) (y y' : Syncer) (n : Z) :
  store_inv (sv_store v) -> queue_inv (sy_store y) -> 0 <= cursorOf (db (sy_store y)) peer <= MaxInt64 ->
  0 < BatchLimit (sy_opts y) <= 10000 -> revision_of (db (sy_store y)) + BatchLimit (sy_opts y) <= MaxInt64 ->
  syncBatch conflictDigest (changesOf now v y) now peer y = (Ok (n, false), y') ->
  forall k r, files (db (sv_store v)) !! k = Some r -> cursorOf (db (sy_store y)) peer < Version r ->
    n <> 0 /\ (Version r <= cursorOf (db (sy_store y')) peer -> handled conflictDigest (sy_ignore y) (db (sy_store y')) peer r).
Proof.
  intros Hv Hq Hc Hl Hroom E. pose proof (syncBatch_run conflictDigest (changesOf now v y) now peer y Hq (proj1 Hc) Hroom) as P.
  rewrite E in P. destruct P as (_ & _ & _ & resp & changes & Hreq & Hbody & Hn & _ & Hlast & Hall). simpl in *.
  assert (changes = changesSince (db (sv_store v)) (cursorOf (db (sy_store y)) peer) (BatchLimit (sy_opts y))) as Hch.
  { unfold changesOf in Hreq. set (rq := ask _ _ _ _ _ _ _) in Hreq.
    destruct (guard now (handleChanges now) rq v) as [[resp'|e] v'] eqn:Eg; [|done]. injection Hreq as ->.
    apply (guard_run _ _ _ _ _ changes) in Eg as (v2 & S2 & E3); [|done].
    destruct (handleChanges_reply now (cursorOf (db (sy_store y)) peer) rq v2) as (st' & body' & v4 & E4 & _ & T); [lia|done|].
    rewrite E4 in E3. assert (body' = Some changes) as -> by congruence. change (rq_limit rq) with (FormatInt (BatchLimit (sy_opts y))) in T.
    rewrite parseLimit_small in T by done. rewrite S2 in T. destruct T as [_ [[_ [= ->]]|[_ ?]]]; done. }
  destruct (changesSince_complete (sv_store v) (cursorOf (db (sy_store y)) peer) (BatchLimit (sy_opts y)) (zeroMeta "") Hv (proj1 Hl)) as (Hsort & Hin & Hcomp).
  rewrite <- Hch in Hsort, Hin, Hcomp. intros k r Hr Hgt. split.
  - intros Hz. destruct (Hcomp k r Hr Hgt) as [Hx|[Hne _]]; destruct changes; simpl in *; try done; try lia. set_solver.
  - intros Hle. destruct (Hcomp k r Hr Hgt) as [Hx|[Hne Hpast]].
    + destruct (Hall r Hx) as (_ & e & He & Hne & _ & Hh). destruct (Hin e He) as [_ Hke].
      pose proof (inv_keyed _ Hv _ _ Hr) as Hkr. simpl in Hkr. rewrite Hne, Hkr, Hr in Hke. by injection Hke as ->.
    + exfalso. destruct (Hlast Hne) as (_ & c & Hcin & Hcv).
      destruct (sorted_last _ changes (zeroMeta "") c Hsort Hcin) as [->|Hlt]; lia.
Qed.

Definition positionOf (d : DB) (peer : string) : string := default "" (node_meta d !! reconcilePositionKey peer).

Lemma manifestOf_serves now v y :
  nofault (sv_store v) -> forall after, exists resp, manifestOf now v y after manifestPageSize = Some resp /\
    rs_status resp = StatusOK /\ rs_body resp = Some (manifestAfter (db (sv_store v)) after manifestPageSize).
Proof.
  intros Hn after. unfold manifestOf. set (rq := ask _ _ _ _ _ _ _). unfold guard. rewrite bindS_run. unfold getS at 1.
  change (rq_secret rq) with (sv_secret v). rewrite eqs_refl, andb_false_r. change (rq_protocol rq) with ProtocolVersion.
  rewrite eqs_refl, andb_false_r. rewrite bindS_run.
  assert (exists v1, (if rq_nodeID rq =s "" then retS tt
      else modifyS (fun v => sv_set_pollers (<[rq_nodeID rq := now]> (sv_pollers v)) v) : Sv unit) v = (Ok tt, v1) /\ sv_store v1 = sv_store v)
    as (v1 & -> & S1) by (destruct (rq_nodeID rq =s ""); by eexists).
  rewrite bindS_run.
  assert (exists m, tryS (onStore MaxVersion) v1 = (Ok m, sv_set_store (sv_store v) v1)) as [m ->].
  { unfold tryS, onStore, zoomS, MaxVersion, bindS, getS. rewrite S1. destruct (cachedNextVer (sv_store v) <=? 1); by eexists. }
  rewrite bindS_run. set (v2 := sv_set_store (sv_store v) v1). unfold handleManifest at 1.
  change (rq_limit rq) with (FormatInt 1000). rewrite parseLimit_small by lia. rewrite bindS_run. unfold ListManifest.
  destruct (onStore_query (fun d => manifestAfter d (rq_after rq) 1000) v2) as (res & v3 & -> & _ & _ & Hok).
  rewrite (Hok Hn). by eexists.
Qed.

(** C37. A finished comparison with a node of this program has compared everything: walking
    the manifest from the saved position always ends within one page per name, and when it
    reports completion every file state of the peer past that position is handled here. *)
Theorem reconcileOnce_complete `{NameFolding} (conflictDigest : string -> string -> string) (now : Z) (peer : string) (v : Server) (y : Syncer) :
  store_inv (sv_store v) -> nofault (sv_store v) -> queue_inv (sy_store y) ->
  let fuel := S (size (files (db (sv_store v)))) in
  revision_of (db (sy_store y)) + manifestPageSize * Z.of_nat fuel <= MaxInt64 ->
  let '(res, y') := reconcileOnce conflictDigest (manifestOf now v y) fuel now peer y in
  res <> Ok None /\
  (res = Ok (Some true) -> queue_inv (sy_store y') /\ files (db (sy_store y')) = files (db (sy_store y)) /\
     forall k r, files (db (sv_store v)) !! k = Some r -> String.compare (positionOf (db (sy_store y)) peer) k = Lt ->
       handled conflictDigest (sy_ignore y) (db (sy_store y')) peer r).
Proof.
  intros Hv Hn Hq fuel Hroom. pose proof (inv_keyed _ Hv) as Hk. pose proof (manifestOf_serves now v y Hn) as Hserve.
  destruct (reconcileOnce conflictDigest (manifestOf now v y) fuel now peer y) as [res y'] eqn:E. unfold reconcileOnce in E. rewrite bindS_run in E.
  destruct (inStore (NodeValue (reconcilePositionKey peer)) y) as [[after|e] y1] eqn:E1; [|by injection E as <- _].
  apply inStore_Ok in E1 as (s1 & E1 & ->). apply query_Ok in E1 as [-> U].
  fold (positionOf (db (sy_store y)) peer) in E. set (after := positionOf (db (sy_store y)) peer) in *. split.
  - pose proof (reconcile_loop_total conflictDigest (manifestOf now v y) (db (sv_store v)) Hk Hserve fuel now peer after 0 0 (sy_set_store s1 y)) as T.
    rewrite E in T. apply T. unfold fuel. apply Nat.lt_succ_r. etrans; [apply length_filter|]. by rewrite <- size_dom.
  - intros ->. apply (reconcile_loop_complete conflictDigest (manifestOf now v y) (db (sv_store v)) Hk Hserve) in E as (Q & F & _ & Hh).
    + simpl in *. rewrite (untouched_db _ _ U) in F. done.
    + by eapply queue_inv_untouched.
    + simpl. by rewrite (untouched_db _ _ U).
Qed.

(** A failing item is retried for ever, never in a tight loop and never rarer than every
    fifteen minutes: the delay is between the two bounds for every attempt count and never
    shrinks as attempts grow. *)
Theorem repairBackoff_bounds (a b : Z) :
  0 <= a <= b ->
  minRepairBackoff <= repairBackoff a <= repairBackoff b /\ repairBackoff b <= maxRepairBackoff.
Proof.
  intros Hab.
  assert (forall n, 0 <= n -> repairBackoff n = Z.min maxRepairBackoff (minRepairBackoff * 2 ^ Z.min n 12)) as Hb.
  { intros n Hn. unfold repairBackoff, minRepairBackoff, maxRepairBackoff. rewrite Z.shiftl_mul_pow2 by lia.
    assert (0 < 2 ^ Z.min n 12 <= 2 ^ 12) as Hp by (split; [apply Z.pow_pos_nonneg; lia|apply Z.pow_le_mono_r; lia]).
    change (2 ^ 12) with 4096 in Hp. rewrite wrap64_id by (unfold in_int64, MinInt64, MaxInt64; lia).
    destruct (_ || _) eqn:E; [apply orb_true_iff in E as [E|E]; [apply Z.ltb_lt in E|apply Z.leb_le in E]; lia|].
    apply orb_false_iff in E as [E1 E2]. apply Z.ltb_ge in E1. lia. }
  rewrite !Hb by lia. unfold minRepairBackoff, maxRepairBackoff.
  assert (1 <= 2 ^ Z.min a 12 <= 2 ^ Z.min b 12) as Hp.
  { split; [change 1 with (2 ^ 0)|]; apply Z.pow_le_mono_r; lia. }
  lia.
Qed.

(** ** Witnesses *)

Definition noDigest : string -> string -> string := fun a b => a +:+ b.

(** A peer holding two files, and a node that has seen nothing of it. *)
Definition peerStore : Store :=
  (PutLocal (H := asciiFolding) 8 (wireMeta "b" 20)
    (PutLocal (H := asciiFolding) 7 (wireMeta "a" 10) initialStore).2).2.

Lemma store_inv_epochs `{NameFolding} e i s : store_inv s -> store_inv (set_epochs e i s).
Proof. intros []. by split. Qed.

Lemma peerStore_inv : store_inv (H := asciiFolding) peerStore.
Proof.
  apply commitPut_inv; [apply commitPut_inv; [apply initialStore_inv|by repeat split|]|by repeat split|].
  - change (1 < MaxInt64). done.
  - vm_compute. reflexivity.
Qed.

Definition peerNode : Server := mkServer (set_epochs "e1" "e1-x" peerStore) "node-b" "s3cret" ∅.
Definition freshNode : Syncer := mkSyncer emptyQueue "node-a" [] (mkOptions 100 0) ∅ ∅ ∅ 0 [].

Lemma peerNode_inv : store_inv (H := asciiFolding) (sv_store peerNode).
Proof. apply store_inv_epochs, peerStore_inv. Qed.

(** The two ends of a poll: the page does not fit the queue and the cursor stays, or it does
    and the cursor takes the page's highest version, both rows being queued. *)
Definition pollWith (limit : Z) : result serr (Z * bool) * Syncer :=
  let y := sy_set_store (set_limit limit emptyQueue) freshNode in
  syncBatch noDigest (changesOf 9 peerNode y) 9 "http://b" y.

Lemma syncBatch_cursor_safe_witness :
  ((pollWith 1).1 = Err (SStore (ERepairQueueFull "http://b" 1)) /\ cursorOf (db (sy_store (pollWith 1).2)) "http://b" = 0) /\
  ((pollWith 0).1 = Ok (2, false) /\ exists c, Version c = cursorOf (db (sy_store (pollWith 0).2)) "http://b" /\ 0 < Version c /\
     exists e, Name e = Name c /\ handled noDigest [] (db (sy_store (pollWith 0).2)) "http://b" e).
Proof.
  assert (forall limit, queue_inv (sy_store (sy_set_store (set_limit limit emptyQueue) freshNode))) as Hq
    by (intros limit; destruct emptyQueue_inv; by split).
  split.
  - assert ((pollWith 1).1 = Err (SStore (ERepairQueueFull "http://b" 1))) as E by (vm_compute; reflexivity). split; [exact E|].
    pose proof (syncBatch_cursor_safe noDigest (changesOf 9 peerNode (sy_set_store (set_limit 1 emptyQueue) freshNode)) 9 "http://b" _ (Hq 1)
      ltac:(vm_compute; discriminate) ltac:(vm_compute; discriminate)) as T.
    unfold pollWith in E |- *. destruct (syncBatch _ _ _ _ _) as [r y2]. simpl in E. subst r. destruct T as (_ & _ & _ & T). exact T.
  - assert ((pollWith 0).1 = Ok (2, false)) as E by (vm_compute; reflexivity). split; [exact E|].
    pose proof (syncBatch_cursor_safe noDigest (changesOf 9 peerNode (sy_set_store (set_limit 0 emptyQueue) freshNode)) 9 "http://b" _ (Hq 0)
      ltac:(vm_compute; discriminate) ltac:(vm_compute; discriminate)) as T.
    unfold pollWith in E |- *. destruct (syncBatch _ _ _ _ _) as [r y2]. simpl in E. subst r.
    destruct T as (_ & _ & _ & resp & changes & _ & _ & Hn & _ & Hne & Hall).
    destruct Hne as (_ & c & Hc & Hv); [intros ->; discriminate Hn|]. destruct (Hall c Hc) as ([Hlt _] & e & _ & He & _ & Hh).
    exists c. split; [exact Hv|]. split; [exact Hlt|]. exists e. split; [exact He|exact Hh].
Defined.

Lemma poll_leaves_no_gap_witness :
  exists y', syncBatch noDigest (changesOf 9 peerNode (sy_set_store (set_limit 0 emptyQueue) freshNode)) 9 "http://b"
               (sy_set_store (set_limit 0 emptyQueue) freshNode) = (Ok (2, false), y') /\
    forall r, files (db (sv_store peerNode)) !! "a" = Some r -> Version r = 1 -> handled noDigest [] (db (sy_store y')) "http://b" r.
Proof.
  set (y0 := sy_set_store (set_limit 0 emptyQueue) freshNode).
  assert (queue_inv (sy_store y0)) as Hq by (destruct emptyQueue_inv; by split).
  destruct (syncBatch noDigest (changesOf 9 peerNode y0) 9 "http://b" y0) as [r1 y'] eqn:E.
  assert (r1 = Ok (2, false)) as -> by (apply (f_equal fst) in E; vm_compute in E; symmetry; exact E).
  exists y'. split; [reflexivity|]. intros r Hr Hv1.
  apply (poll_leaves_no_gap (H := asciiFolding) noDigest 9 "http://b" peerNode y0 y' 2 peerNode_inv Hq) with (k := "a"); [| | |exact E|exact Hr| |].
  - split; vm_compute; discriminate.
  - split; [reflexivity|vm_compute; discriminate].
  - vm_compute; discriminate.
  - rewrite Hv1. vm_compute. reflexivity.
  - rewrite Hv1. assert (cursorOf (db (sy_store y')) "http://b" = 2) as ->; [|lia].
    assert (cursorOf (db (sy_store (syncBatch noDigest (changesOf 9 peerNode y0) 9 "http://b" y0).2)) "http://b" = 2) as Hc
      by (vm_compute; reflexivity).
    rewrite E in Hc. exact Hc.
Defined.

Lemma reconcileOnce_complete_witness :
  (reconcileOnce noDigest (manifestOf 9 peerNode freshNode) 3 9 "http://b" freshNode).1 = Ok (Some true) /\
  forall r, files (db (sv_store peerNode)) !! "b" = Some r ->
    handled noDigest [] (db (sy_store (reconcileOnce noDigest (manifestOf 9 peerNode freshNode) 3 9 "http://b" freshNode).2)) "http://b" r.
Proof.
  pose proof (reconcileOnce_complete (H := asciiFolding) noDigest 9 "http://b" peerNode freshNode peerNode_inv eq_refl emptyQueue_inv) as T.
  change (S (size (files (db (sv_store peerNode))))) with 3%nat in T. specialize (T ltac:(vm_compute; discriminate)).
  assert ((reconcileOnce noDigest (manifestOf 9 peerNode freshNode) 3 9 "http://b" freshNode).1 = Ok (Some true)) as E by (vm_compute; reflexivity).
  split; [exact E|]. destruct (reconcileOnce _ _ _ _ _ _) as [res y']. simpl in E. destruct T as [_ T]. destruct (T E) as (_ & _ & Hh).
  intros r Hr. apply (Hh "b" r Hr). vm_compute. reflexivity.
Defined.

Lemma repairBackoff_bounds_witness : minRepairBackoff <= repairBackoff 3 <= repairBackoff 40 /\ repairBackoff 40 <= maxRepairBackoff.
Proof. apply (repairBackoff_bounds 3 40). lia. Defined.
