(* ===== verification/Breaker.v ===== *)
(** * The deletion breaker

    internal/watcher/breaker.go: deletions inferred from absence are collected in groups and
    published only within a budget per ten minutes; a group that does not fit is held whole.
    The clock, what publishing one name finds on disk and in the index, and which database
    calls fail are inputs. *)

From S2P Require Import Prelude GoStrings FileMeta.

Definition DefaultMaxExternalDeletions : Z := 1000.
Definition externalDeletionWindow : Z := 600000000000. (* ten minutes, in nanoseconds *)

(** ** Groups *)

Record deletionGroup := mkGroup {
  dg_keep : Z;
  dg_names : list string;
  dg_seen : gset string;
  dg_count : Z
}.

(** [func newDeletionGroup(keep int) *deletionGroup] *)
Definition newDeletionGroup (keep : Z) : deletionGroup := mkGroup keep [] ∅ 0.

(** [func (g *deletionGroup) add(name string)] *)
Definition add (g : deletionGroup) (name : string) : deletionGroup :=
  if decide (name ∈ dg_seen g) then g
  else if Z.of_nat (length (dg_names g)) <? dg_keep g
  then mkGroup (dg_keep g) (dg_names g ++ [name]) ({[name]} ∪ dg_seen g) (dg_count g + 1)
  else mkGroup (dg_keep g) (dg_names g) (dg_seen g) (dg_count g + 1).

(** [func (g *deletionGroup) merge(other *deletionGroup)] *)
Definition merge (g : deletionGroup) (other : option deletionGroup) : deletionGroup :=
  match other with
  | None => g
  | Some o =>
      let g' := fold_left add (dg_names o) g in
      mkGroup (dg_keep g') (dg_names g') (dg_seen g') (dg_count g' + (dg_count o - Z.of_nat (length (dg_names o))))
  end.

(** ** State *)

Record publication := mkPublication { pb_At : Z; pb_Count : Z }.

(** What the node_meta row holds: nothing, an encoded window, or text that does not decode. *)
Inductive saved_window := SavedNone | Saved (w : list publication) | SavedGarbage.

Record Breaker := mkBreaker {
  bk_limit : Z;                      (* maxExternalDeletions *)
  bk_events : option deletionGroup;
  bk_window : list publication;
  bk_loaded : bool;
  bk_held : Z;
  bk_saved : saved_window            (* the external_deletions_window row *)
}.

Definition bk_set_window (w : list publication) (b : Breaker) : Breaker := mkBreaker (bk_limit b) (bk_events b) w (bk_loaded b) (bk_held b) (bk_saved b).
Definition bk_set_held (n : Z) (b : Breaker) : Breaker := mkBreaker (bk_limit b) (bk_events b) (bk_window b) (bk_loaded b) n (bk_saved b).
Definition bk_set_events (g : option deletionGroup) (b : Breaker) : Breaker := mkBreaker (bk_limit b) g (bk_window b) (bk_loaded b) (bk_held b) (bk_saved b).
Definition bk_set_saved (w : saved_window) (b : Breaker) : Breaker := mkBreaker (bk_limit b) (bk_events b) (bk_window b) (bk_loaded b) (bk_held b) w.

(** [func (w *Watcher) SetMaxExternalDeletions(limit int)] *)
Definition SetMaxExternalDeletions (limit : Z) (b : Breaker) : Breaker :=
  mkBreaker (Z.max 0 limit) (bk_events b) (bk_window b) (bk_loaded b) (bk_held b) (bk_saved b).

(** [func (w *Watcher) sweepDeletions() *deletionGroup] *)
Definition sweepDeletions (b : Breaker) : option deletionGroup :=
  if bk_limit b <=? 0 then None else Some (newDeletionGroup (bk_limit b)).

(** [func (w *Watcher) deferEventDeletion(name string)] *)
Definition deferEventDeletion (name : string) (b : Breaker) : Breaker :=
  let g := match bk_events b with Some g => g | None => newDeletionGroup (Z.max 1 (bk_limit b)) end in
  bk_set_events (Some (add g name)) b.

(** [func (w *Watcher) takeEventDeletions() *deletionGroup] *)
Definition takeEventDeletions (b : Breaker) : option deletionGroup * Breaker := (bk_events b, bk_set_events None b).

(** ** The window *)

(** [func (w *Watcher) publishedInWindowLocked() int] *)
Definition inWindow (now : Z) (w : list publication) : list publication :=
  base.filter (fun p => now - externalDeletionWindow < pb_At p) w.
Definition published (w : list publication) : Z := fold_right (fun p n => pb_Count p + n) 0 w.
Definition publishedInWindowLocked (now : Z) (b : Breaker) : Z * Breaker :=
  let kept := inWindow now (bk_window b) in (published kept, bk_set_window kept b).

Definition by_At (x y : publication) : Prop := pb_At x <= pb_At y.
#[export] Instance by_At_dec : RelDecision by_At.
Proof. intros x y. unfold by_At. apply _. Defined.

(** [func (w *Watcher) loadDeletionWindowLocked()]; [readOk] is false when the row cannot be
    read. *)
Definition loadDeletionWindowLocked (readOk : bool) (b : Breaker) : Breaker :=
  if bk_loaded b then b
  else
    let w := if readOk then match bk_saved b with SavedNone => bk_window b | Saved w => w | SavedGarbage => [] end else [] in
    mkBreaker (bk_limit b) (bk_events b) (merge_sort by_At w) true (bk_held b) (bk_saved b).

(** [func (w *Watcher) saveDeletionWindowLocked()]; [writeOk] is false when the row cannot be
    written. *)
Definition saveDeletionWindowLocked (now : Z) (writeOk : bool) (b : Breaker) : Breaker :=
  let '(_, b) := publishedInWindowLocked now b in
  if writeOk then bk_set_saved (Saved (bk_window b)) b else b.

(** ** Publishing *)

Inductive perr := PBusy | PIntegrity | PUnindexable | PStorage | PDb | POther | PCancelled | PHeld.

(** What one attempt meets: the storage check, the index before, the re-indexing, the index after. *)
Record attempt := mkAttempt {
  at_storage : bool;
  at_before : result perr (option FileMeta);
  at_refresh : option perr;
  at_after : result perr (option FileMeta)
}.

Definition tombstone (m : option FileMeta) : bool := match m with Some f => Deleted f | None => false end.

(** [func (w *Watcher) publishDeletion(name string) (bool, error)] *)
Definition publishDeletion (a : attempt) : bool * option perr :=
  if negb (at_storage a) then (false, Some PStorage)
  else match at_before a with
  | Err e => (false, Some e)
  | Ok None => (false, None)
  | Ok (Some before) =>
      if Deleted before then (false, None)
      else match at_refresh a with
      | Some e => (false, Some e)
      | None =>
          match at_after a with
          | Err e => (false, Some e)
          | Ok after => (tombstone after, None)
          end
      end
  end.

(** Faults of one name that do not stop the group. *)
Definition tolerated (e : option perr) : bool :=
  match e with None | Some PBusy | Some PIntegrity | Some PUnindexable => true | _ => false end.

(** [func (w *Watcher) publishDeletions(ctx context.Context, names []string) (int, error)];
    [ctx] is one element per check of the context. *)
Fixpoint publishDeletions (ctx : list bool) (attempts : string -> attempt) (names : list string) (count : Z) : Z * option perr :=
  match names with
  | [] => (count, None)
  | name :: rest =>
      match ctx with
      | true :: _ => (count, Some PCancelled)
      | _ =>
          let '(deleted, err) := publishDeletion (attempts name) in
          let count := if deleted then count + 1 else count in
          if tolerated err then publishDeletions (tail ctx) attempts rest count else (count, err)
      end
  end.

(** Everything a decision reads from outside: the clock at the check, at the append and at the
    save, the database's answers, cancellation and the attempts. *)
Record world := mkWorld {
  w_now1 : Z; w_now2 : Z; w_now3 : Z;
  w_readOk : bool; w_writeOk : bool;
  w_ctx : list bool;
  w_attempts : string -> attempt
}.

(** [func (w *Watcher) settleDeletions(ctx context.Context, group *deletionGroup, authoritative bool) error];
    the number published comes with the error. *)
Definition settleDeletions (w : world) (group : option deletionGroup) (authoritative : bool) (b : Breaker) : Z * option perr * Breaker :=
  let limit := bk_limit b in
  let b := loadDeletionWindowLocked (w_readOk w) b in
  let '(used, b) := publishedInWindowLocked (w_now1 w) b in
  let alreadyHeld := 0 <? bk_held b in
  match group with
  | None => (0, None, if authoritative then bk_set_held 0 b else b)
  | Some g =>
      if dg_count g =? 0 then (0, None, if authoritative then bk_set_held 0 b else b)
      else if negb authoritative && alreadyHeld then (0, Some PHeld, b)
      else if (0 <? limit) && (limit - used <? dg_count g) then (0, Some PHeld, bk_set_held (dg_count g) b)
      else
        let '(n, err) := publishDeletions (w_ctx w) (w_attempts w) (dg_names g) 0 in
        let b := if 0 <? n
                 then saveDeletionWindowLocked (w_now3 w) (w_writeOk w) (bk_set_window (bk_window b ++ [mkPublication (w_now2 w) n]) b)
                 else b in
        match err with
        | Some e => (n, Some e, b)
        | None => (n, None, if authoritative then bk_set_held 0 b else b)
        end
  end.

(** [func (w *Watcher) settleEventDeletions(ctx context.Context)]: the reported error, if any. *)
Definition settleEventDeletions (w : world) (b : Breaker) : Z * option perr * Breaker :=
  let '(group, b) := takeEventDeletions b in
  match group with
  | None => (0, None, b)
  | Some g =>
      if dg_count g =? 0 then (0, None, b)
      else let '(n, err, b) := settleDeletions w (Some g) false b in
           (n, match err with Some PHeld => None | e => e end, b)
  end.

(** ** Facts about groups *)

(** A group knows every name it was given, or is over its size. *)
Record group_ok (given : list string) (g : deletionGroup) : Prop := {
  go_seen : forall n, n ∈ dg_seen g <-> n ∈ dg_names g;
  go_nodup : NoDup (dg_names g);
  go_sub : forall n, n ∈ dg_names g -> n ∈ given;
  go_count : Z.of_nat (length (dg_names g)) <= dg_count g;
  go_keep : Z.of_nat (length (dg_names g)) <= Z.max 0 (dg_keep g);
  go_all : dg_count g <= dg_keep g -> forall n, n ∈ given -> n ∈ dg_names g
}.

Lemma group_ok_new keep : group_ok [] (newDeletionGroup keep).
Proof. split; simpl; try set_solver; try lia. constructor. Qed.

Lemma group_ok_add given g name : group_ok given g -> group_ok (name :: given) (add g name).
Proof.
  intros [H1 H2 H3 H4 H5 H6]. unfold add. case_decide as Hs.
  { split; try done; [set_solver|]. intros Hk n [->|Hn]%elem_of_cons; [by apply H1|by apply H6]. }
  destruct (Z.of_nat (length (dg_names g)) <? dg_keep g) eqn:El; [apply Z.ltb_lt in El|apply Z.ltb_ge in El]; split; simpl.
  - intros n. rewrite elem_of_union, elem_of_singleton, H1, elem_of_app. set_solver.
  - apply NoDup_app. split; [done|]. split; [|apply NoDup_singleton]. intros n Hn ->%list_elem_of_singleton. by apply Hs, H1.
  - intros n. rewrite elem_of_app. set_solver.
  - rewrite length_app. simpl. lia.
  - rewrite length_app. simpl. lia.
  - intros Hk n [->|Hn]%elem_of_cons; [set_solver|]. apply elem_of_app. left. apply H6; [lia|done].
  - done.
  - done.
  - set_solver.
  - lia.
  - done.
  - intros Hk. exfalso. lia.
Qed.

Lemma add_keep g name : dg_keep (add g name) = dg_keep g.
Proof. unfold add. case_decide; [done|]. by destruct (_ <? _). Qed.

Lemma group_ok_adds given names g : group_ok given g -> group_ok (names ++ given) (fold_left add names g).
Proof.
  revert given g. induction names as [|n names IH]; intros given g Hg; [done|]. simpl.
  pose proof (IH (n :: given) (add g n) (group_ok_add _ _ _ Hg)) as [A B C D E F].
  assert (forall x, x ∈ names ++ n :: given <-> x ∈ n :: names ++ given) as Hx by set_solver.
  split; try done; intros; [apply Hx; auto|apply F; [done|by apply Hx]].
Qed.

Lemma adds_keep names g : dg_keep (fold_left add names g) = dg_keep g.
Proof. revert g. induction names as [|n names IH]; intros g; [done|]. simpl. by rewrite IH, add_keep. Qed.

Lemma adds_count l g :
  NoDup l -> dg_count (fold_left add l g) = dg_count g + Z.of_nat (length (base.filter (fun n => n ∉ dg_seen g) l)).
Proof.
  intros Hn. revert g. induction Hn as [|n l Hnl Hn IH]; intros g; cbn [fold_left]; [simpl; lia|].
  rewrite IH, filter_cons. unfold add. case_decide as Hs; [by rewrite decide_False by (intros Hc; by apply Hc)|].
  rewrite decide_True by done. cbn [length]. destruct (_ <? _); simpl; [|lia].
  assert (base.filter (fun x => x ∉ {[n]} ∪ dg_seen g) l = base.filter (fun x => x ∉ dg_seen g) l) as ->; [|lia].
  clear IH. induction l as [|x l IH]; [done|]. rewrite !filter_cons. apply not_elem_of_cons in Hnl as [Hx Hl].
  apply NoDup_cons in Hn as [_ Hn]. rewrite IH by done.
  destruct (decide (x ∉ dg_seen g)) as [H1|H1]; [rewrite decide_True by set_solver|rewrite decide_False by set_solver]; done.
Qed.

Lemma adds_count_bound given l g : group_ok given g -> NoDup l -> Z.of_nat (length l) <= dg_count (fold_left add l g).
Proof.
  intros Hg Hl. rewrite adds_count by done. pose proof (go_count _ _ Hg).
  assert (length l = length (base.filter (fun n => n ∉ dg_seen g) l) + length (base.filter (fun n => n ∈ dg_seen g) l))%nat as Hlen.
  { clear. induction l as [|x l IH]; [done|]. rewrite !filter_cons. repeat case_decide; simpl; try lia; exfalso; tauto. }
  assert (length (base.filter (fun n => n ∈ dg_seen g) l) <= length (dg_names g))%nat; [|lia].
  apply submseteq_length, NoDup_submseteq; [by apply NoDup_filter|]. intros n [Hn _]%list_elem_of_filter. by apply (go_seen _ _ Hg).
Qed.

(** Merging: what the other group lost count of makes this one at least as large. *)
Lemma group_ok_merge given g given' o :
  group_ok given g -> group_ok given' o -> dg_keep o = dg_keep g -> group_ok (given' ++ given) (merge g (Some o)).
Proof.
  intros Hg Ho Hk. pose proof (group_ok_adds given (dg_names o) g Hg) as [A B C D E F].
  pose proof (adds_count_bound given (dg_names o) g Hg (go_nodup _ _ Ho)) as Hcb. destruct Ho as [_ _ C' D' _ F'].
  rewrite adds_keep in *. split; simpl; rewrite ?adds_keep; try done; try lia.
  - intros n Hn. apply C in Hn. apply elem_of_app in Hn as [Hn|Hn]; [|set_solver]. apply elem_of_app. left. by apply C'.
  - intros Hc n Hn. apply F; [lia|]. apply elem_of_app in Hn as [Hn|Hn]; [|set_solver]. apply elem_of_app. left. apply F'; [|done].
    rewrite Hk. lia.
Qed.

(** ** Facts about publishing *)

Definition becomesTombstone (attempts : string -> attempt) (name : string) : bool := fst (publishDeletion (attempts name)).

Lemma publishDeletions_count ctx attempts names count :
  let '(n, err) := publishDeletions ctx attempts names count in
  count <= n <= count + Z.of_nat (length names) /\
  (err = None -> n = count + Z.of_nat (length (base.filter (fun x => becomesTombstone attempts x = true) names))).
Proof.
  revert ctx count. induction names as [|x names IH]; intros ctx count; cbn [publishDeletions]; [simpl; lia|].
  set (k := match ctx with true :: _ => (count, Some PCancelled) | _ => _ end).
  assert (k = (count, Some PCancelled) \/
          k = (let '(deleted, err) := publishDeletion (attempts x) in
               let count := if deleted then count + 1 else count in
               if tolerated err then publishDeletions (tail ctx) attempts names count else (count, err))) as [-> | ->].
  { unfold k. destruct ctx as [|[] ctx]; auto. }
  { simpl. split; [lia|done]. }
  assert (becomesTombstone attempts x = fst (publishDeletion (attempts x))) as Hbt by done. rewrite filter_cons.
  destruct (publishDeletion (attempts x)) as [deleted err] eqn:Ed. simpl in Hbt. cbn [length].
  destruct (tolerated err) eqn:Et; [|destruct deleted; (split; [lia|]); by intros ->].
  specialize (IH (tail ctx) (if deleted then count + 1 else count)).
  destruct (publishDeletions (tail ctx) attempts names (if deleted then count + 1 else count)) as [n e]. destruct IH as [IH1 IH2].
  destruct deleted; [rewrite decide_True by done|rewrite decide_False by (by rewrite Hbt)]; cbn [length]; (split; [lia|]); intros He; specialize (IH2 He); lia.
Qed.

Lemma published_app w1 w2 : published (w1 ++ w2) = published w1 + published w2.
Proof. induction w1 as [|p w1 IH]; simpl; [done|]. rewrite IH. lia. Qed.

Definition counts_ok (w : list publication) : Prop := Forall (fun p => 0 <= pb_Count p) w.

Lemma published_nonneg w : counts_ok w -> 0 <= published w.
Proof. induction 1; simpl; lia. Qed.

Lemma inWindow_mono now now' w : counts_ok w -> now <= now' -> published (inWindow now' w) <= published (inWindow now w).
Proof.
  intros Hc Hn. unfold inWindow. induction Hc as [|p w Hp Hc IH]; [simpl; lia|]. rewrite !filter_cons. repeat case_decide; simpl; lia.
Qed.

Lemma inWindow_idem now now' w : now' <= now -> inWindow now (inWindow now' w) = inWindow now w.
Proof.
  intros Hn. unfold inWindow. induction w as [|p w IH]; [done|]. rewrite !filter_cons.
  destruct (decide (now' - externalDeletionWindow < pb_At p)) as [H1|H1].
  - rewrite filter_cons, IH. done.
  - rewrite IH. by rewrite decide_False by lia.
Qed.

Lemma counts_ok_filter now w : counts_ok w -> counts_ok (inWindow now w).
Proof. intros Hc. unfold inWindow, counts_ok in *. rewrite Forall_forall in *. intros p [_ Hp]%list_elem_of_filter. by apply Hc. Qed.

Lemma published_perm w1 w2 : w1 ≡ₚ w2 -> published w1 = published w2.
Proof. induction 1; simpl; lia. Qed.

(** The publications a decision starts from. *)
Definition loadedWindow (readOk : bool) (b : Breaker) : list publication := bk_window (loadDeletionWindowLocked readOk b).
Definition usedAt (w : world) (b : Breaker) : Z := published (inWindow (w_now1 w) (loadedWindow (w_readOk w) b)).

(** ** Properties *)

(** A group of missing files is published whole or not at all. When it exceeds what is
    left of the budget nothing is published, its size is held as a fault, and the budget spent
    so far is unchanged; when it fits, every name the scan found missing is looked at, and
    exactly those still missing become tombstones, unless a hard fault stops the group. *)
Theorem settleDeletions_all_or_nothing (w : world) (given : list string) (g : deletionGroup) (b : Breaker) :
  group_ok given g -> 0 < bk_limit b <= dg_keep g -> 0 < dg_count g -> counts_ok (loadedWindow (w_readOk w) b) ->
  let '(n, err, b') := settleDeletions w (Some g) true b in
  if bk_limit b - usedAt w b <? dg_count g
  then n = 0 /\ err = Some PHeld /\ bk_held b' = dg_count g /\ bk_window b' = inWindow (w_now1 w) (loadedWindow (w_readOk w) b) /\ bk_saved b' = bk_saved b
  else (forall x, x ∈ given -> x ∈ dg_names g) /\ n <= dg_count g /\
       (err = None -> bk_held b' = 0 /\ n = Z.of_nat (length (base.filter (fun x => becomesTombstone (w_attempts w) x = true) (dg_names g)))).
Proof.
  intros Hg Hl Hc Hw. unfold settleDeletions. unfold publishedInWindowLocked at 1. fold (loadedWindow (w_readOk w) b).
  rewrite (proj2 (Z.eqb_neq (dg_count g) 0)) by lia. simpl negb. cbn [andb]. fold (usedAt w b).
  rewrite (proj2 (Z.ltb_lt 0 (bk_limit b))) by lia. cbn [andb].
  destruct (bk_limit b - usedAt w b <? dg_count g) eqn:E.
  - split_and!; try done. unfold loadDeletionWindowLocked. by destruct (bk_loaded b).
  - apply Z.ltb_ge in E. pose proof (publishDeletions_count (w_ctx w) (w_attempts w) (dg_names g) 0) as P.
    destruct (publishDeletions (w_ctx w) (w_attempts w) (dg_names g) 0) as [n err]. destruct P as [P1 P2].
    assert (0 <= usedAt w b) by by apply published_nonneg, counts_ok_filter.
    pose proof (go_count _ _ Hg) as Hgc. pose proof (go_all _ _ Hg ltac:(lia)) as Hall.
    destruct err as [e|]; (split; [done|]); (split; [lia|]); [done|]. intros _. split; [done|]. by rewrite (P2 eq_refl).
Qed.

(** ** The life of the breaker *)

(** Whether an attempt published a deletion: the row was live before and is read back as a
    tombstone after the re-indexing. *)
Definition struck (a : attempt) : bool :=
  match at_storage a, at_before a, at_refresh a, at_after a with
  | true, Ok (Some before), None, Ok (Some after) => negb (Deleted before) && Deleted after
  | _, _, _, _ => false
  end.

(** The names a group turns into tombstones before a hard fault or cancellation stops it. *)
Fixpoint struckNames (ctx : list bool) (attempts : string -> attempt) (names : list string) : list string :=
  match names with
  | [] => []
  | name :: rest =>
      match ctx with
      | true :: _ => []
      | _ => (if struck (attempts name) then [name] else []) ++
             (if tolerated (snd (publishDeletion (attempts name))) then struckNames (tail ctx) attempts rest else [])
      end
  end.

(** The deletions a decision published: none when it held the group, and otherwise those the
    attempts on its names made. *)
Definition heldBack (out : Z * option perr * Breaker) : bool :=
  (fst (fst out) =? 0) && match snd (fst out) with Some PHeld => true | _ => false end.
Definition struckBy (w : world) (group : option deletionGroup) (authoritative : bool) (b : Breaker) : list string :=
  match group with
  | None => []
  | Some g => if (dg_count g =? 0) || heldBack (settleDeletions w group authoritative b) then []
              else struckNames (w_ctx w) (w_attempts w) (dg_names g)
  end.

(** How many of the instants fall in the ten minutes up to [until]. *)
Definition inTenMinutes (until : Z) (history : list Z) : Z :=
  Z.of_nat (length (base.filter (fun t => until - externalDeletionWindow < t <= until) history)).

(** A decision as the watcher makes it: the clock does not go back, a window not loaded yet can
    be read, and each deletion is published at an instant between the check of the budget and
    the record of the group. *)
Definition decided (clock : Z) (w : world) (b : Breaker) (names : list string) (ts : list Z) : Prop :=
  clock <= w_now1 w /\ w_now1 w <= w_now2 w /\ w_now2 w <= w_now3 w /\ (bk_loaded b = true \/ w_readOk w = true) /\
  length ts = length names /\ Forall (fun t => w_now1 w <= t <= w_now2 w) ts.

(** The breaker through decisions of scans and of the event path, names reported missing,
    changes of the limit and restarts: the instants of every deletion published so far, the
    clock, and whether the last group published is in the saved window. *)
Inductive lived (limit : Z) : Breaker -> list Z -> Z -> bool -> Prop :=
| lived_new (l c : Z) : 0 < l <= limit -> lived limit (mkBreaker l None [] false 0 SavedNone) [] c true
| lived_scan b h c p given g authoritative w ts n err b' :
    lived limit b h c p -> group_ok given g ->
    settleDeletions w (Some g) authoritative b = (n, err, b') ->
    decided c w b (struckBy w (Some g) authoritative b) ts ->
    lived limit b' (h ++ ts) (w_now3 w) (if 0 <? n then w_writeOk w else p)
| lived_empty b h c p authoritative w n err b' :
    lived limit b h c p -> settleDeletions w None authoritative b = (n, err, b') -> decided c w b [] [] ->
    lived limit b' h (w_now3 w) p
| lived_events b h c p w ts n err b' :
    lived limit b h c p -> settleEventDeletions w b = (n, err, b') ->
    decided c w b (struckBy w (bk_events b) false (bk_set_events None b)) ts ->
    lived limit b' (h ++ ts) (w_now3 w) (if 0 <? n then w_writeOk w else p)
| lived_missing b h c p name : lived limit b h c p -> lived limit (deferEventDeletion name b) h c p
| lived_limit b h c p l : lived limit b h c p -> 0 < l <= limit -> lived limit (SetMaxExternalDeletions l b) h c p
| lived_restart b h c l : lived limit b h c true -> 0 < l <= limit ->
    lived limit (mkBreaker l None [] false 0 (bk_saved b)) h c true.

(** The count a decision reports, and charges, is that of the deletions it published. *)
Lemma struck_publishDeletion a : struck a = fst (publishDeletion a).
Proof.
  unfold struck, publishDeletion. destruct (at_storage a); [|done]. destruct (at_before a) as [[m|]|e]; [|done|done].
  destruct (at_refresh a); simpl; [by destruct (Deleted m)|]. destruct (Deleted m); simpl.
  - by destruct (at_after a) as [[]|].
  - by destruct (at_after a) as [[]|].
Qed.

Lemma publishDeletions_struck ctx attempts names count :
  fst (publishDeletions ctx attempts names count) = count + Z.of_nat (length (struckNames ctx attempts names)).
Proof.
  revert ctx count. induction names as [|x names IH]; intros ctx count; cbn [publishDeletions struckNames]; [simpl; lia|].
  assert (forall ctx',
    fst (let '(deleted, err) := publishDeletion (attempts x) in
         let count := if deleted then count + 1 else count in
         if tolerated err then publishDeletions ctx' attempts names count else (count, err)) =
    count + Z.of_nat (length ((if struck (attempts x) then [x] else []) ++
      (if tolerated (snd (publishDeletion (attempts x))) then struckNames ctx' attempts names else [])))) as Hgo.
  { intros ctx'. rewrite struck_publishDeletion. destruct (publishDeletion (attempts x)) as [deleted err]. cbn [fst snd].
    rewrite length_app. destruct (tolerated err); [rewrite IH|]; destruct deleted; simpl; lia. }
  destruct ctx as [|[] ctx]; [apply (Hgo [])| |apply (Hgo ctx)]. simpl. lia.
Qed.


Lemma settleDeletions_None w authoritative b n err b' :
  settleDeletions w None authoritative b = (n, err, b') ->
  n = 0 /\ bk_limit b' = bk_limit b /\ bk_events b' = bk_events b /\ bk_saved b' = bk_saved b /\ bk_loaded b' = true /\
  bk_window b' = inWindow (w_now1 w) (loadedWindow (w_readOk w) b).
Proof.
  unfold settleDeletions, publishedInWindowLocked, loadedWindow, loadDeletionWindowLocked. intros E.
  destruct (bk_loaded b) eqn:El, authoritative; injection E as <- _ <-; simpl; by rewrite ?El.
Qed.

(** One decision: what it published fits what was left of the budget, and is charged. *)
Lemma settleDeletions_charges w given g authoritative b n err b' :
  group_ok given g -> 0 < bk_limit b -> settleDeletions w (Some g) authoritative b = (n, err, b') ->
  let kept := inWindow (w_now1 w) (loadedWindow (w_readOk w) b) in
  n = Z.of_nat (length (struckBy w (Some g) authoritative b)) /\
  bk_limit b' = bk_limit b /\ bk_events b' = bk_events b /\ bk_loaded b' = true /\
  (n = 0 \/ published kept + n <= bk_limit b) /\
  bk_window b' = (if 0 <? n then inWindow (w_now3 w) (kept ++ [mkPublication (w_now2 w) n]) else kept) /\
  bk_saved b' = (if (0 <? n) && w_writeOk w then Saved (bk_window b') else bk_saved b).
Proof.
  intros Hg Hl E. cbn [struckBy]. unfold heldBack. rewrite E. cbn [fst snd]. revert E.
  unfold settleDeletions. unfold publishedInWindowLocked at 1. fold (loadedWindow (w_readOk w) b).
  set (kept := inWindow (w_now1 w) (loadedWindow (w_readOk w) b)). set (b1 := bk_set_window kept _).
  assert (bk_window b1 = kept /\ bk_limit b1 = bk_limit b /\ bk_events b1 = bk_events b /\ bk_loaded b1 = true /\ bk_saved b1 = bk_saved b) as (W1 & L1 & V1 & D1 & S1).
  { unfold b1, loadDeletionWindowLocked. by destruct (bk_loaded b) eqn:?. }
  clearbody b1. destruct (dg_count g =? 0) eqn:Ec.
  { intros E. destruct authoritative; injection E as <- _ <-; cbn; split_and!; auto. }
  cbn [orb]. destruct (negb authoritative && (0 <? bk_held b1)).
  { intros [= <- <- <-]. cbn. split_and!; auto. }
  rewrite (proj2 (Z.ltb_lt 0 (bk_limit b))) by lia. cbn [andb].
  destruct (bk_limit b - published kept <? dg_count g) eqn:Ef.
  { intros [= <- <- <-]. cbn. split_and!; auto. }
  apply Z.ltb_ge in Ef. pose proof (publishDeletions_count (w_ctx w) (w_attempts w) (dg_names g) 0) as P.
  pose proof (publishDeletions_struck (w_ctx w) (w_attempts w) (dg_names g) 0) as Q.
  destruct (publishDeletions (w_ctx w) (w_attempts w) (dg_names g) 0) as [m err0]. destruct P as [P _]. cbn [fst] in Q.
  pose proof (go_count _ _ Hg) as Hgc. set (b2 := if 0 <? m then _ else b1). intros E.
  assert (n = m /\ bk_window b' = bk_window b2 /\ bk_limit b' = bk_limit b2 /\ bk_events b' = bk_events b2 /\
          bk_loaded b' = bk_loaded b2 /\ bk_saved b' = bk_saved b2) as (-> & W & L & V & D & Sv).
  { destruct err0; [by injection E as <- _ <-|]. by destruct authoritative; injection E as <- _ <-. }
  rewrite W, L, V, D, Sv. clear E W L V D Sv.
  split. { destruct ((m =? 0) && _) eqn:Eh; [|lia]. apply andb_true_iff in Eh as [Eh%Z.eqb_eq _]. exact Eh. }
  unfold b2, saveDeletionWindowLocked, publishedInWindowLocked. destruct (0 <? m) eqn:Em; [apply Z.ltb_lt in Em|apply Z.ltb_ge in Em; cbn; split_and!; auto; left; lia].
  destruct (w_writeOk w); cbn; rewrite W1; split_and!; auto; lia.
Qed.

(** The publications remembered cover every deletion a later check could still have to count. *)
Definition madeAfter (s : Z) (history : list Z) : Z := Z.of_nat (length (base.filter (fun t => s < t) history)).
Definition remembered (s : Z) (w : list publication) : Z := published (base.filter (fun p => s < pb_At p) w).
Definition recalls (clock : Z) (h : list Z) (w : list publication) : Prop :=
  counts_ok w /\ forall s, clock - externalDeletionWindow <= s -> madeAfter s h <= remembered s w.

Definition savedWindow (b : Breaker) : list publication := match bk_saved b with Saved w => w | _ => [] end.

Record breaker_inv (limit : Z) (b : Breaker) (h : list Z) (clock : Z) (persisted : bool) : Prop := {
  bi_limit : 0 < bk_limit b <= limit;
  bi_events : forall g, bk_events b = Some g -> exists given, group_ok given g;
  bi_window : recalls clock h (loadedWindow true b);
  bi_saved : persisted = true -> recalls clock h (savedWindow b);
  bi_past : Forall (fun t => t <= clock) h;
  bi_budget : forall until, inTenMinutes until h <= limit
}.

Lemma madeAfter_app s h1 h2 : madeAfter s (h1 ++ h2) = madeAfter s h1 + madeAfter s h2.
Proof. unfold madeAfter. rewrite filter_app, length_app. lia. Qed.

Lemma madeAfter_none s h : Forall (fun t => t <= s) h -> madeAfter s h = 0.
Proof.
  unfold madeAfter. induction 1 as [|t h Ht Hh IH]; [done|]. rewrite filter_cons, decide_False by lia. done.
Qed.

Lemma madeAfter_length s h : 0 <= madeAfter s h <= Z.of_nat (length h).
Proof. unfold madeAfter. pose proof (length_filter (fun t => s < t) h). lia. Qed.

Lemma remembered_app s w1 w2 : remembered s (w1 ++ w2) = remembered s w1 + remembered s w2.
Proof. unfold remembered. by rewrite filter_app, published_app. Qed.

(** Dropping what is older than the window loses nothing a later check counts. *)
Lemma remembered_inWindow s now w : now - externalDeletionWindow <= s -> remembered s (inWindow now w) = remembered s w.
Proof.
  intros Hs. unfold remembered, inWindow. induction w as [|q w IH]; [done|]. rewrite filter_cons.
  destruct (decide (now - externalDeletionWindow < pb_At q)).
  - rewrite !filter_cons. destruct (decide (s < pb_At q)); simpl; by rewrite IH.
  - rewrite IH, filter_cons, decide_False by lia. done.
Qed.

Lemma remembered_mono s s' w : counts_ok w -> s <= s' -> remembered s' w <= remembered s w.
Proof. intros Hc Hs. unfold remembered. induction Hc as [|q w Hq Hc IH]; [simpl; lia|]. rewrite !filter_cons. repeat case_decide; simpl; lia. Qed.

Lemma remembered_perm s w1 w2 : w1 ≡ₚ w2 -> remembered s w1 = remembered s w2.
Proof. intros Hp. apply published_perm. by apply filter_Permutation. Qed.

Lemma recalls_perm clock h w1 w2 : w1 ≡ₚ w2 -> recalls clock h w1 -> recalls clock h w2.
Proof.
  intros Hp [Hc Hs]. split; [unfold counts_ok in *; by rewrite <- Hp|]. intros s Hle. rewrite <- (remembered_perm s _ _ Hp). by apply Hs.
Qed.

Lemma recalls_later clock clock' h w : clock <= clock' -> recalls clock h w -> recalls clock' h w.
Proof. intros Hc [H1 H2]. split; [done|]. intros s Hs. apply H2. lia. Qed.

Lemma recalls_prune clock now h w : now <= clock -> recalls clock h w -> recalls clock h (inWindow now w).
Proof. intros Hc [H1 H2]. split; [by apply counts_ok_filter|]. intros s Hs. rewrite remembered_inWindow by lia. by apply H2. Qed.

(** A group just published, each deletion no later than its record. *)
Lemma recalls_record clock h w ts at_ : Forall (fun t => t <= at_) ts ->
  recalls clock h w -> recalls clock (h ++ ts) (w ++ [mkPublication at_ (Z.of_nat (length ts))]).
Proof.
  intros Ht [H1 H2]. split; [apply Forall_app; split; [done|]; repeat constructor; simpl; lia|]. intros s Hs.
  rewrite madeAfter_app, remembered_app. specialize (H2 s Hs). unfold remembered at 2. rewrite filter_cons. simpl pb_At.
  destruct (decide (s < at_)) as [Hlt|Hge].
  - pose proof (madeAfter_length s ts). simpl. lia.
  - rewrite (madeAfter_none s ts) by (eapply Forall_impl; [exact Ht|]; simpl; intros; lia). simpl. lia.
Qed.

Lemma loadedWindow_loaded readOk b : bk_loaded b = true -> loadedWindow readOk b = bk_window b.
Proof. unfold loadedWindow, loadDeletionWindowLocked. by intros ->. Qed.

Lemma loadedWindow_read readOk b : bk_loaded b = true \/ readOk = true -> loadedWindow readOk b = loadedWindow true b.
Proof. intros [Hl| ->]; [|done]. by rewrite !loadedWindow_loaded. Qed.

Lemma loadedWindow_events readOk g b : loadedWindow readOk (bk_set_events g b) = loadedWindow readOk b.
Proof. unfold loadedWindow, loadDeletionWindowLocked. simpl. by destruct (bk_loaded b). Qed.

Lemma loadedWindow_limit readOk l b : loadedWindow readOk (SetMaxExternalDeletions l b) = loadedWindow readOk b.
Proof. unfold loadedWindow, loadDeletionWindowLocked. simpl. by destruct (bk_loaded b). Qed.

Lemma tenMinutes_app until h1 h2 : inTenMinutes until (h1 ++ h2) = inTenMinutes until h1 + inTenMinutes until h2.
Proof. unfold inTenMinutes. rewrite filter_app, length_app. lia. Qed.

Lemma tenMinutes_after until h : 0 <= inTenMinutes until h <= madeAfter (until - externalDeletionWindow) h.
Proof.
  unfold inTenMinutes, madeAfter. split; [lia|]. apply inj_le. induction h as [|t h IH]; [done|].
  rewrite !filter_cons. repeat case_decide; simpl; lia.
Qed.

Lemma tenMinutes_later until h : Forall (fun t => until < t) h -> inTenMinutes until h = 0.
Proof. unfold inTenMinutes. induction 1 as [|t h Ht Hh IH]; [done|]. rewrite filter_cons, decide_False by lia. done. Qed.

(** The deletions of a decision that fits leave every ten minutes within the limit. *)
Lemma budget_step limit l clock now h w ts :
  clock <= now -> recalls clock h w -> Forall (fun t => now <= t) ts -> l <= limit ->
  (length ts = 0%nat \/ published (inWindow now w) + Z.of_nat (length ts) <= l) ->
  (forall until, inTenMinutes until h <= limit) -> forall until, inTenMinutes until (h ++ ts) <= limit.
Proof.
  intros Hc [Hw Hcov] Hts Hl Hfit Hb until. rewrite tenMinutes_app. specialize (Hb until).
  destruct Hfit as [Hz|Hfit]; [destruct ts; [unfold inTenMinutes at 2; simpl; lia|done]|].
  destruct (decide (until < now)) as [Hlt|Hge].
  - rewrite (tenMinutes_later until ts) by (eapply Forall_impl; [exact Hts|]; simpl; intros; lia). lia.
  - pose proof (tenMinutes_after until h). pose proof (tenMinutes_after until ts). pose proof (madeAfter_length (until - externalDeletionWindow) ts).
    specialize (Hcov (until - externalDeletionWindow) ltac:(lia)).
    pose proof (remembered_mono (now - externalDeletionWindow) (until - externalDeletionWindow) w Hw ltac:(lia)) as Hm.
    change (published (inWindow now w)) with (remembered (now - externalDeletionWindow) w) in Hfit. lia.
Qed.

(** One decision keeps the invariant, whatever it published. *)
Lemma scan_inv limit b h c p given g authoritative w ts n err b' :
  breaker_inv limit b h c p -> group_ok given g -> settleDeletions w (Some g) authoritative b = (n, err, b') ->
  decided c w b (struckBy w (Some g) authoritative b) ts ->
  breaker_inv limit b' (h ++ ts) (w_now3 w) (if 0 <? n then w_writeOk w else p).
Proof.
  intros [L V W Sv P B] Hg E (T1 & T2 & T3 & Hread & Hlen & Hts).
  apply (settleDeletions_charges _ given) in E as (Hn & L' & V' & D' & Hfit & W' & S'); [|done|lia].
  rewrite loadedWindow_read in W', Hfit by done. rewrite <- Hlen in Hn.
  assert (Forall (fun t => w_now1 w <= t) ts /\ Forall (fun t => t <= w_now2 w) ts) as [Hlo Hhi]
    by (split; eapply Forall_impl; try exact Hts; simpl; lia).
  set (kept := inWindow (w_now1 w) (loadedWindow true b)) in *.
  assert (recalls (w_now3 w) h kept) as Hkept by (apply recalls_prune; [lia|]; apply (recalls_later c); [lia|done]).
  assert (recalls (w_now3 w) (h ++ ts) (bk_window b')) as Hcov.
  { rewrite W'. destruct (0 <? n) eqn:En.
    - apply recalls_prune; [lia|]. rewrite Hn. by apply recalls_record.
    - apply Z.ltb_ge in En. destruct ts; [by rewrite app_nil_r|]. simpl in Hn. lia. }
  split.
  - by rewrite L'.
  - by rewrite V'.
  - by rewrite loadedWindow_loaded.
  - intros Hp. unfold savedWindow. rewrite S'. destruct (0 <? n) eqn:En; [rewrite Hp; exact Hcov|]. simpl.
    apply Z.ltb_ge in En. destruct ts; [|simpl in Hn; lia]. rewrite app_nil_r. apply (recalls_later c); [lia|]. by apply Sv.
  - apply Forall_app. split; eapply Forall_impl; [exact P|simpl; lia|exact Hhi|simpl; lia].
  - apply (budget_step limit (bk_limit b) c (w_now1 w) h (loadedWindow true b)); auto; [apply L|]. destruct Hfit as [Hz|Hfit]; [left; lia|right; by rewrite <- Hn].
Qed.

(** Steps that publish nothing: only the window may be pruned. *)
Lemma quiet_inv limit b h c p b' c' :
  breaker_inv limit b h c p -> c <= c' -> 0 < bk_limit b' <= limit -> (forall g, bk_events b' = Some g -> exists given, group_ok given g) ->
  recalls c' h (loadedWindow true b') -> bk_saved b' = bk_saved b -> breaker_inv limit b' h c' p.
Proof.
  intros [L V W Sv P B] Hc Hl Hv Hw Hs. split; auto.
  - intros Hp. unfold savedWindow. rewrite Hs. apply (recalls_later c); [lia|]. by apply Sv.
  - eapply Forall_impl; [exact P|]. simpl. lia.
Qed.

Lemma group_ok_events (events : option deletionGroup) name l :
  (forall g, events = Some g -> exists given, group_ok given g) ->
  exists given, group_ok given (add (match events with Some g => g | None => newDeletionGroup l end) name).
Proof.
  intros He. destruct events as [g|]; [destruct (He g eq_refl) as [given Hg]|]; eexists; apply group_ok_add; [exact Hg|apply group_ok_new].
Qed.

Lemma lived_inv limit b h c p : lived limit b h c p -> breaker_inv limit b h c p.
Proof.
  induction 1 as [l c Hl|b h c p given g authoritative w ts n err b' Hb IH Hg E Hd|b h c p authoritative w n err b' Hb IH E Hd
                 |b h c p w ts n err b' Hb IH E Hd|b h c p name Hb IH|b h c p l Hb IH Hl|b h c l Hb IH Hl].
  - assert (recalls c [] []) as H0 by (split; [constructor|]; intros s _; done).
    split; try done. intros t. unfold inTenMinutes. simpl. lia.
  - by eapply scan_inv.
  - destruct Hd as (T1 & T2 & T3 & Hread & _). apply settleDeletions_None in E as (_ & L' & V' & S' & D' & W').
    rewrite loadedWindow_read in W' by done. apply (quiet_inv limit b h c p); auto; [lia|rewrite L'; apply IH|rewrite V'; apply IH|].
    rewrite loadedWindow_loaded, W' by done. apply recalls_prune; [lia|]. apply (recalls_later c); [lia|apply IH].
  - unfold settleEventDeletions, takeEventDeletions in E.
    assert (breaker_inv limit (bk_set_events None b) h c p) as IH' by (apply (quiet_inv limit b h c p); auto; [lia|apply IH|done|rewrite loadedWindow_events; apply IH]).
    destruct (bk_events b) as [g|] eqn:Eg.
    2:{ injection E as <- _ <-. destruct Hd as (T1 & T2 & T3 & _ & Hl & _). destruct ts; [|done]. rewrite app_nil_r. simpl.
        apply (quiet_inv limit (bk_set_events None b) h c p); auto; [lia|apply IH'|apply IH'|]. apply (recalls_later c); [lia|apply IH']. }
    destruct (bi_events _ _ _ _ _ IH g Eg) as [given Hg]. destruct (dg_count g =? 0) eqn:Ec.
    { injection E as <- _ <-. destruct Hd as (T1 & T2 & T3 & _ & Hl & _). cbn [struckBy] in Hl. rewrite Ec in Hl. destruct ts; [|done]. rewrite app_nil_r. simpl.
      apply (quiet_inv limit (bk_set_events None b) h c p); auto; [lia|apply IH'|apply IH'|]. apply (recalls_later c); [lia|apply IH']. }
    destruct (settleDeletions w (Some g) false (bk_set_events None b)) as [[n0 err0] b0] eqn:Es. injection E as <- _ <-.
    by eapply scan_inv.
  - apply (quiet_inv limit b h c p); auto; [lia|apply IH| |unfold deferEventDeletion; rewrite loadedWindow_events; apply IH].
    intros g [= <-]. apply group_ok_events, IH.
  - apply (quiet_inv limit b h c p); auto; [lia|simpl; lia|apply IH|rewrite loadedWindow_limit; apply IH].
  - split; try done; [|apply IH..].
    apply (recalls_perm c h (savedWindow b)); [|by apply IH]. unfold loadedWindow, loadDeletionWindowLocked, savedWindow. simpl.
    by rewrite merge_sort_Permutation; destruct (bk_saved b).
Qed.

(** C38. The budget holds over any ten minutes of the breaker's life, restarts included.
    Whatever groups the scans and the event path decide and however each decision ends, the
    deletions actually published, each counted at the instant its row became a tombstone and was
    read back as one, number at most [limit] in every period of ten minutes, [limit] being the highest limit in
    force. A restart may come between decisions once the last group published is in the saved
    window, and the window is read back; the clock does not go backwards. *)
Theorem settleDeletions_budget (limit : Z) (b : Breaker) (history : list Z) (clock : Z) (persisted : bool) (until : Z) :
  lived limit b history clock persisted -> inTenMinutes until history <= limit.
Proof. intros Hl. apply (bi_budget _ _ _ _ _ (lived_inv _ _ _ _ _ Hl)). Qed.

(** ** Witnesses *)

(** Two files that vanished, with and without room for them. *)
Definition gone : attempt := mkAttempt true (Ok (Some (zeroMeta "x"))) None (Ok (Some (Superseded "x" (zeroMeta "y")))).
Definition quietWorld : world := mkWorld 1000 1000 1000 true true [] (fun _ => gone).
Definition groupOf (names : list string) (keep : Z) : deletionGroup := fold_left add names (newDeletionGroup keep).

Lemma groupOf_ok names keep : group_ok names (groupOf names keep).
Proof.
  pose proof (group_ok_adds [] names (newDeletionGroup keep) (group_ok_new keep)) as Hg. by rewrite app_nil_r in Hg.
Qed.

Lemma settleDeletions_all_or_nothing_witness :
  settleDeletions quietWorld (Some (groupOf ["a"; "b"; "a"] 1)) true (mkBreaker 1 None [] false 0 SavedNone) =
    (0, Some PHeld, mkBreaker 1 None [] true 2 SavedNone) /\
  fst (settleDeletions quietWorld (Some (groupOf ["a"; "b"; "a"] 2)) true (mkBreaker 2 None [] false 0 SavedNone)) = (2, None) /\
  forall x, x ∈ ["a"; "b"; "a"] -> x ∈ dg_names (groupOf ["a"; "b"; "a"] 2).
Proof.
  pose proof (settleDeletions_all_or_nothing quietWorld ["a"; "b"; "a"] (groupOf ["a"; "b"; "a"] 2) (mkBreaker 2 None [] false 0 SavedNone)
    (groupOf_ok _ _) ltac:(vm_compute; split; [reflexivity|discriminate]) ltac:(vm_compute; reflexivity) ltac:(constructor)) as T.
  split; [vm_compute; reflexivity|]. split; [vm_compute; reflexivity|].
  destruct (settleDeletions quietWorld (Some (groupOf ["a"; "b"; "a"] 2)) true (mkBreaker 2 None [] false 0 SavedNone)) as [[n err] b'].
  exact (proj1 T).
Defined.

(** Two deletions in one group, a restart that reads them back, and a third that no longer
    fits: it waits, and fits again once ten minutes have passed. *)
Definition dayWorld (now : Z) : world := mkWorld now now now true true [] (fun _ => gone).
Definition decide3 : Breaker :=
  snd (settleDeletions (dayWorld 1000) (Some (groupOf ["a"; "b"] 2)) true (mkBreaker 2 None [] false 0 SavedNone)).
Definition decide4 : Breaker := snd (settleDeletions (dayWorld 2000) (Some (groupOf ["c"] 2)) true (mkBreaker 2 None [] false 0 (bk_saved decide3))).
Definition decide5 : Breaker := snd (settleDeletions (dayWorld 700000000000) (Some (groupOf ["c"] 2)) true decide4).

Lemma settleDeletions_budget_witness :
  bk_held decide4 = 1 /\ bk_window decide5 = [mkPublication 700000000000 1] /\
  inTenMinutes 700000000000 [1000; 1000; 700000000000] <= 2.
Proof.
  split; [vm_compute; reflexivity|]. split; [vm_compute; reflexivity|].
  refine (settleDeletions_budget 2 decide5 ([1000; 1000] ++ [] ++ [700000000000]) 700000000000 true 700000000000 _).
  assert (lived 2 (mkBreaker 2 None [] false 0 SavedNone) [] 0 true) as L0 by (apply lived_new; lia).
  pose proof (lived_scan 2 _ _ _ _ _ (groupOf ["a"; "b"] 2) true (dayWorld 1000) [1000; 1000] 2 None decide3 L0 (groupOf_ok _ _)
    ltac:(vm_compute; reflexivity) ltac:(split_and!; [vm_compute; discriminate..|by right|vm_compute; reflexivity|repeat constructor; discriminate])) as L1.
  pose proof (lived_restart 2 decide3 _ _ 2 L1 ltac:(lia)) as L2.
  pose proof (lived_scan 2 _ _ _ _ _ (groupOf ["c"] 2) true (dayWorld 2000) [] 0 (Some PHeld) decide4 L2 (groupOf_ok _ _)
    ltac:(vm_compute; reflexivity) ltac:(split_and!; [vm_compute; discriminate..|by right|vm_compute; reflexivity|constructor])) as L3.
  pose proof (lived_scan 2 _ _ _ _ _ (groupOf ["c"] 2) true (dayWorld 700000000000) [700000000000] 1 None decide5 L3 (groupOf_ok _ _)
    ltac:(vm_compute; reflexivity) ltac:(split_and!; [vm_compute; discriminate..|by left|vm_compute; reflexivity|repeat constructor; discriminate])) as L4.
  exact L4.
Defined.
