(* ===== verification/Locks.v ===== *)
(** * WebDAV write locks

    internal/gateway/webdav/locks.go (the in-memory lock table) and the handlers of
    webdav/handlers.go and webdav/webdav.go that use it: LOCK, UNLOCK and the check in front
    of every mutating request. Times and durations are nanoseconds; the clock and the random
    token of a new lock are inputs. *)

From S2P Require Import Prelude GoStrings.

Definition Second : Z := 1000000000.
Definition defaultLockTimeout : Z := 3600 * Second.
Definition maxLockTimeout : Z := 24 * 3600 * Second.
Definition maxLocks : nat := 10000.

Record lock := mkLock { lk_token : string; lk_path : string; lk_depth : string; lk_expires : Z }.

(** [func (lk *lock) covers(path string) bool] *)
Definition covers (lk : lock) (path : string) : bool :=
  if lk_path lk =s path then true
  else if lk_depth lk =s "infinity"
  then if lk_path lk =s "" then true else HasPrefix path (lk_path lk +:+ "/")
  else false.

Notation lockManager := (gmap string lock).

(** [func newLockManager() *lockManager] *)
Definition newLockManager : lockManager := ∅.

(** [func (m *lockManager) reap(now time.Time)] *)
Definition reap (now : Z) (m : lockManager) : lockManager :=
  base.filter (fun p => now <= lk_expires (snd p)) m.

(** [func isDescendant(p, ancestor string) bool] *)
Definition isDescendant (p ancestor : string) : bool :=
  if ancestor =s "" then negb (p =s "") else HasPrefix p (ancestor +:+ "/").

(** Does a live lock stand in the way of a new one? *)
Definition conflicts (path depth : string) (lk : lock) : bool :=
  covers lk path || ((depth =s "infinity") && isDescendant (lk_path lk) path).

(** [func (m *lockManager) create(path, depth string, timeout time.Duration) ( *lock, bool)];
    [token] is what [newLockToken] draws. *)
Definition create (now : Z) (token path depth : string) (timeout : Z) (m : lockManager) : option lock * lockManager :=
  let m := reap now m in
  if (maxLocks <=? size m)%nat then (None, m)
  else if existsb (fun p => conflicts path depth (snd p)) (map_to_list m) then (None, m)
  else let lk := mkLock token path depth (now + timeout) in (Some lk, <[token := lk]> m).

(** [func (m *lockManager) refresh(token string, timeout time.Duration) ( *lock, bool)] *)
Definition refresh (now : Z) (token : string) (timeout : Z) (m : lockManager) : option lock * lockManager :=
  let m := reap now m in
  match m !! token with
  | None => (None, m)
  | Some lk => let lk := mkLock (lk_token lk) (lk_path lk) (lk_depth lk) (now + timeout) in (Some lk, <[token := lk]> m)
  end.

(** [func (m *lockManager) unlock(token string) bool] *)
Definition unlock (token : string) (m : lockManager) : bool * lockManager :=
  match m !! token with
  | None => (false, m)
  | Some _ => (true, delete token m)
  end.

(** [func parseIfTokens(h string) map[string]bool]: every turn of the loop consumes text. *)
Fixpoint parseIf_loop (fuel : nat) (h : string) (out : gset string) : gset string :=
  match fuel with
  | O => out
  | S fuel =>
      match Cut h "<" with
      | None => out
      | Some (_, rest) =>
          match Cut rest ">" with
          | None => out
          | Some (token, h) => parseIf_loop fuel h ({[token]} ∪ out)
          end
      end
  end.
Definition parseIfTokens (h : string) : gset string := parseIf_loop (String.length h) h ∅.

(** [func (m *lockManager) canModify(path, ifHeader string) bool] *)
Definition canModify (now : Z) (path ifHeader : string) (m : lockManager) : bool * lockManager :=
  let m := reap now m in
  let tokens := parseIfTokens ifHeader in
  (negb (existsb (fun p => covers (snd p) path && negb (bool_decide (lk_token (snd p) ∈ tokens))) (map_to_list m)), m).

(** [func parseTimeout(h string) time.Duration]; [n * time.Second] is an int64 product. *)
Fixpoint timeout_loop (parts : list string) : Z :=
  match parts with
  | [] => defaultLockTimeout
  | part :: rest =>
      let part := TrimSpace part in
      if HasPrefix part "Second-" then
        match ParseInt (TrimPrefix part "Second-") with
        | Some n =>
            if 0 <? n then let d := wrap64 (n * Second) in if maxLockTimeout <? d then maxLockTimeout else d
            else timeout_loop rest
        | None => timeout_loop rest
        end
      else timeout_loop rest
  end.
Definition parseTimeout (h : string) : Z := timeout_loop (Split h ",").

(** ** The handlers *)

Inductive lockReply :=
  | LockForbidden                                        (* 403 *)
  | LockLocked                                           (* 423 *)
  | LockOK (token depth : string) (secs : Z).            (* 200, with the lock's description *)

(** [func writeLockResponse(w http.ResponseWriter, lk *lock, status int)] *)
Definition writeLockResponse (now : Z) (lk : lock) : lockReply :=
  LockOK (lk_token lk) (lk_depth lk) (Z.max 0 (Z.quot (lk_expires lk - now) Second)).

(** The If header's tokens, in the order the map yields them, each with the clock then. *)
Fixpoint refresh_loop (tokens : list (Z * string)) (relName : string) (timeout : Z) (m : lockManager) : option lock * lockManager :=
  match tokens with
  | [] => (None, m)
  | (now, token) :: rest =>
      let '(found, m) := refresh now token timeout m in
      match found with
      | Some lk => if covers lk relName then (Some lk, m) else refresh_loop rest relName timeout m
      | None => refresh_loop rest relName timeout m
      end
  end.

Record lockRequest := mkLockRequest {
  rq_relName : option string;          (* what resolvePath answers *)
  rq_Timeout : string; rq_If : string; rq_Depth : string;
  rq_order : list (Z * string);        (* the tokens of rq_If as iterated *)
  rq_now : Z; rq_token : string; rq_written : Z
}.

(** [func (g *Gateway) handleLock(w http.ResponseWriter, r *http.Request)] *)
Definition handleLock (r : lockRequest) (m : lockManager) : lockReply * lockManager :=
  match rq_relName r with
  | None => (LockForbidden, m)
  | Some relName =>
      let timeout := parseTimeout (rq_Timeout r) in
      let '(refreshed, m) := if rq_If r =s "" then (None, m) else refresh_loop (rq_order r) relName timeout m in
      match refreshed with
      | Some lk => (writeLockResponse (rq_written r) lk, m)
      | None =>
          let depth := if rq_Depth r =s "0" then "0" else "infinity" in
          let '(made, m) := create (rq_now r) (rq_token r) relName depth timeout m in
          match made with
          | None => (LockLocked, m)
          | Some lk => (writeLockResponse (rq_written r) lk, m)
          end
      end
  end.

(** [func (g *Gateway) handleUnlock(w http.ResponseWriter, r *http.Request)]: the status. *)
Definition handleUnlock (lockToken : string) (m : lockManager) : Z * lockManager :=
  let token := Trim lockToken "<> " in
  if token =s "" then (400, m)
  else let '(ok, m) := unlock token m in (if ok then 204 else 409, m).

(** [func (g *Gateway) lockBlocked(w http.ResponseWriter, r *http.Request, relPath string) bool] *)
Definition lockBlocked (now : Z) (relPath ifHeader : string) (m : lockManager) : bool * lockManager :=
  let '(ok, m) := canModify now relPath ifHeader m in (negb ok, m).

(** ** Facts about the table *)

Lemma existsb_map (f : string * lock -> bool) (m : lockManager) :
  existsb f (map_to_list m) = false <-> forall t l, m !! t = Some l -> f (t, l) = false.
Proof.
  split.
  - intros H t l Hl. destruct (f (t, l)) eqn:E; [|done]. rewrite <- H. symmetry. apply existsb_exists.
    exists (t, l). split; [|done]. apply list_elem_of_In. by apply elem_of_map_to_list.
  - intros H. apply not_true_iff_false. intros ([t l] & Hin & Hf)%existsb_exists.
    apply list_elem_of_In, elem_of_map_to_list in Hin. by rewrite (H _ _ Hin) in Hf.
Qed.

Lemma reap_lookup now m t l : reap now m !! t = Some l <-> m !! t = Some l /\ now <= lk_expires l.
Proof. unfold reap. apply map_lookup_filter_Some. Qed.

(** What the table promises: locks are filed under their own token, none covers the path of
    another, and there are at most [maxLocks]. *)
Record locks_ok (m : lockManager) : Prop := {
  lo_token : forall t l, m !! t = Some l -> lk_token l = t;
  lo_exclusive : forall t1 t2 l1 l2, m !! t1 = Some l1 -> m !! t2 = Some l2 -> t1 <> t2 -> covers l1 (lk_path l2) = false;
  lo_size : (size m <= maxLocks)%nat
}.

Lemma locks_ok_sub m m' : m' ⊆ m -> locks_ok m -> locks_ok m'.
Proof.
  intros Hs [H1 H2 H3]. split.
  - intros t l Hl. eapply H1, lookup_weaken; done.
  - intros t1 t2 l1 l2 L1 L2. apply H2; by eapply lookup_weaken.
  - etransitivity; [by apply map_subseteq_size|done].
Qed.

Lemma locks_ok_reap now m : locks_ok m -> locks_ok (reap now m).
Proof. apply locks_ok_sub, map_filter_subseteq. Qed.

Lemma covers_path l : covers l (lk_path l) = true.
Proof. unfold covers. by rewrite String.eqb_refl. Qed.

(** A new lock that conflicts with none covers none. *)
Lemma conflicts_false path depth lk token expires :
  conflicts path depth lk = false ->
  covers lk path = false /\ covers (mkLock token path depth expires) (lk_path lk) = false.
Proof.
  unfold conflicts. intros [Hc Hd]%orb_false_iff. split; [done|]. unfold covers. simpl.
  destruct (path =s lk_path lk) eqn:E.
  { apply String.eqb_eq in E as ->. by rewrite covers_path in Hc. }
  destruct (depth =s "infinity"); [|done]. simpl in Hd. unfold isDescendant in Hd.
  destruct (path =s "") eqn:Ep; [|done]. apply String.eqb_eq in Ep as ->.
  apply negb_false_iff, String.eqb_eq in Hd. by rewrite Hd in E.
Qed.

(** Replacing or adding one entry keeps the promises when the entry is compatible with the rest. *)
Lemma locks_ok_insert m t l :
  locks_ok m -> lk_token l = t -> (is_Some (m !! t) \/ (size m < maxLocks)%nat) ->
  (forall t' l', m !! t' = Some l' -> t' <> t -> covers l' (lk_path l) = false /\ covers l (lk_path l') = false) ->
  locks_ok (<[t := l]> m).
Proof.
  intros [H1 H2 H3] Ht Hsz Hc. split.
  - intros t' l' [[<- <-]|[_ Hl]]%lookup_insert_Some; [done|by apply H1].
  - intros t1 t2 l1 l2 [[<- <-]|[N1 L1]]%lookup_insert_Some [[<- <-]|[N2 L2]]%lookup_insert_Some Hne; [done| | |by eapply H2].
    + by apply (Hc t2 l2).
    + by apply (Hc t1 l1).
  - destruct Hsz as [Hs|Hs]; [rewrite map_size_insert_Some by done; done|].
    rewrite map_size_insert. destruct (m !! t); simpl; lia.
Qed.

Lemma create_ok now token path depth timeout m : locks_ok m -> locks_ok (create now token path depth timeout m).2.
Proof.
  intros Hok%(locks_ok_reap now). unfold create. destruct (maxLocks <=? size (reap now m))%nat eqn:Es; [done|].
  apply Nat.leb_gt in Es. destruct (existsb _ _) eqn:Ex; [done|]. rewrite existsb_map in Ex.
  apply locks_ok_insert; [done|done|by right|]. intros t' l' Hl _. apply conflicts_false. exact (Ex _ _ Hl).
Qed.

Lemma covers_same l l' p : lk_path l = lk_path l' -> lk_depth l = lk_depth l' -> covers l p = covers l' p.
Proof. unfold covers. by intros -> ->. Qed.

Lemma refresh_ok now token timeout m : locks_ok m -> locks_ok (refresh now token timeout m).2.
Proof.
  intros Hok%(locks_ok_reap now). unfold refresh. destruct (reap now m !! token) as [lk|] eqn:El; [|done].
  apply locks_ok_insert; [done|exact (lo_token _ Hok token lk El)|left; by exists lk|]. intros t' l' Hl Hne. simpl. split.
  - by apply (lo_exclusive _ Hok t' token).
  - rewrite (covers_same _ lk) by done. by apply (lo_exclusive _ Hok token t').
Qed.

Lemma unlock_ok token m : locks_ok m -> locks_ok (unlock token m).2.
Proof. intros Hok. unfold unlock. destruct (m !! token); [|done]. by apply (locks_ok_sub m), Hok; apply delete_subseteq. Qed.

Lemma refresh_loop_ok tokens relName timeout m : locks_ok m -> locks_ok (refresh_loop tokens relName timeout m).2.
Proof.
  revert m. induction tokens as [|[now token] tokens IH]; intros m Hok; [done|]. cbn [refresh_loop].
  pose proof (refresh_ok now token timeout m Hok) as Hr. destruct (refresh now token timeout m) as [[lk|] m']; [|by apply IH].
  destruct (covers lk relName); [done|by apply IH].
Qed.

Lemma handleLock_ok r m : locks_ok m -> locks_ok (handleLock r m).2.
Proof.
  intros Hok. unfold handleLock. destruct (rq_relName r) as [relName|]; [|done].
  set (refr := if rq_If r =s "" then _ else _).
  assert (locks_ok refr.2) as Hr by (unfold refr; destruct (_ =s _); [done|by apply refresh_loop_ok]).
  destruct refr as [[lk|] m1]; [done|]. set (depth := if _ =s "0" then "0" else "infinity").
  pose proof (create_ok (rq_now r) (rq_token r) relName depth (parseTimeout (rq_Timeout r)) m1 Hr) as Hc.
  by destruct (create _ _ _ _ _ m1) as [[lk|] m2].
Qed.

(** Two locks over the same resource are one inside the other. *)
Lemma slash_prefixes a b x y :
  a +:+ "/" +:+ x = b +:+ "/" +:+ y -> a = b \/ HasPrefix a (b +:+ "/") = true \/ HasPrefix b (a +:+ "/") = true.
Proof.
  setoid_rewrite HasPrefix_spec. revert b. induction a as [|c a IH]; intros [|d b] E; simpl in E.
  - by left.
  - injection E as <- E. right. right. by exists b.
  - injection E as -> E. right. left. by exists a.
  - injection E as <- E. destruct (IH b E) as [->|[[t ->]|[t ->]]]; [by left|right; left; by exists t|right; right; by exists t].
Qed.

Lemma covers_comparable l1 l2 p :
  covers l1 p = true -> covers l2 p = true -> covers l1 (lk_path l2) = true \/ covers l2 (lk_path l1) = true.
Proof.
  unfold covers. destruct (lk_path l1 =s p) eqn:E1.
  { apply String.eqb_eq in E1 as ->. by right. }
  destruct (lk_path l2 =s p) eqn:E2.
  { apply String.eqb_eq in E2 as ->. rewrite E1. by left. }
  destruct (lk_depth l1 =s "infinity"); [|done]. destruct (lk_depth l2 =s "infinity"); [|done].
  destruct (lk_path l1 =s "") eqn:Z1; [intros _ _; left; by case (lk_path l1 =s lk_path l2)|]. destruct (lk_path l2 =s "") eqn:Z2; [intros _ _; right; by case (lk_path l2 =s lk_path l1)|].
  intros [x ->]%HasPrefix_spec [y E]%HasPrefix_spec. rewrite !string_app_assoc in E.
  destruct (slash_prefixes _ _ _ _ E) as [->|[H|H]].
  - left. by rewrite String.eqb_refl.
  - right. rewrite H. by case (lk_path l2 =s lk_path l1).
  - left. rewrite H. by case (lk_path l1 =s lk_path l2).
Qed.

Lemma one_cover m t1 t2 l1 l2 p :
  locks_ok m -> m !! t1 = Some l1 -> m !! t2 = Some l2 -> covers l1 p = true -> covers l2 p = true -> t1 = t2.
Proof.
  intros Hok L1 L2 C1 C2. destruct (decide (t1 = t2)) as [|Hne]; [done|]. exfalso.
  destruct (covers_comparable _ _ _ C1 C2) as [H|H]; [rewrite (lo_exclusive _ Hok t1 t2) in H by done|rewrite (lo_exclusive _ Hok t2 t1) in H by done]; done.
Qed.

(** ** Sequences of requests *)

(** What reaches the table: LOCK, UNLOCK with its Lock-Token header, and the check in front of
    PUT, DELETE, MKCOL, MOVE, COPY and PROPPATCH. *)
Inductive request :=
  | RLock (r : lockRequest)
  | RUnlock (lockToken : string)
  | RModify (now : Z) (relPath ifHeader : string).

Definition serve (m : lockManager) (q : request) : lockManager :=
  match q with
  | RLock r => (handleLock r m).2
  | RUnlock t => (handleUnlock t m).2
  | RModify now p h => (lockBlocked now p h m).2
  end.
Definition serve_all (qs : list request) (m : lockManager) : lockManager := fold_left serve qs m.

Lemma serve_ok m q : locks_ok m -> locks_ok (serve m q).
Proof.
  intros Hok. destruct q as [r|t|now p h]; simpl; [by apply handleLock_ok| |by apply locks_ok_reap].
  unfold handleUnlock. destruct (_ =s _); [done|]. pose proof (unlock_ok (Trim t "<> ") m Hok) as Hu. by destruct (unlock _ m).
Qed.

Lemma serve_all_ok qs m : locks_ok m -> locks_ok (serve_all qs m).
Proof. revert m. induction qs as [|q qs IH]; intros m Hok; [done|]. by apply IH, serve_ok. Qed.

Lemma locks_ok_new : locks_ok newLockManager.
Proof. split; [done|done|]. unfold newLockManager. rewrite map_size_empty. lia. Qed.

(** A request that neither ends the lock [token], nor renews it, nor comes after [expires]. *)
Definition spares (token : string) (expires : Z) (q : request) : Prop :=
  match q with
  | RLock r => rq_token r <> token /\ rq_now r <= expires /\ Forall (fun p => fst p <= expires /\ snd p <> token) (rq_order r)
  | RUnlock t => Trim t "<> " <> token
  | RModify now _ _ => now <= expires
  end.

Section Held.
Context (token : string) (lk : lock).

Lemma reap_spares now m : now <= lk_expires lk -> m !! token = Some lk -> reap now m !! token = Some lk.
Proof. intros. by apply reap_lookup. Qed.

Lemma refresh_loop_spares tokens relName timeout m :
  Forall (fun p => fst p <= lk_expires lk /\ snd p <> token) tokens -> m !! token = Some lk ->
  (refresh_loop tokens relName timeout m).2 !! token = Some lk.
Proof.
  intros Hf. revert m. induction Hf as [|[now t] tokens [H1 H2] Hf IH]; intros m Hl; [done|]. cbn [refresh_loop].
  assert ((refresh now t timeout m).2 !! token = Some lk) as Hr.
  { unfold refresh. destruct (reap now m !! t) eqn:E; simpl; [rewrite lookup_insert_ne by done|]; by apply reap_spares. }
  destruct (refresh now t timeout m) as [[l|] m']; [destruct (covers l relName); [done|]|]; by apply IH.
Qed.

Lemma create_spares now t path depth timeout m :
  t <> token -> now <= lk_expires lk -> m !! token = Some lk -> (create now t path depth timeout m).2 !! token = Some lk.
Proof.
  intros Hne Hn Hl. unfold create. destruct (_ <=? _)%nat; [by apply reap_spares|]. destruct (existsb _ _); [by apply reap_spares|].
  simpl. rewrite lookup_insert_ne by done. by apply reap_spares.
Qed.

Lemma serve_spares m q : spares token (lk_expires lk) q -> m !! token = Some lk -> serve m q !! token = Some lk.
Proof.
  destruct q as [r|t|now p h]; simpl; [intros (H1 & H2 & H3) Hl|intros H Hl|intros; by apply reap_spares].
  - unfold handleLock. destruct (rq_relName r) as [relName|]; [|done].
    set (refr := if rq_If r =s "" then _ else _).
    assert (refr.2 !! token = Some lk) as Hr by (unfold refr; destruct (_ =s _); [done|by apply refresh_loop_spares]).
    destruct refr as [[l|] m1]; [done|]. set (depth := if _ =s "0" then "0" else "infinity").
    pose proof (create_spares (rq_now r) (rq_token r) relName depth (parseTimeout (rq_Timeout r)) m1 H1 H2 Hr) as Hc.
    by destruct (create _ _ _ _ _ m1) as [[l|] m2].
  - unfold handleUnlock, unlock. destruct (_ =s _); [done|]. destruct (m !! Trim t "<> "); [|done]. simpl. by rewrite lookup_delete_ne.
Qed.

Lemma serve_all_spares qs m :
  Forall (spares token (lk_expires lk)) qs -> m !! token = Some lk -> serve_all qs m !! token = Some lk.
Proof. intros Hf. revert m. induction Hf as [|q qs Hq Hf IH]; intros m Hl; [done|]. by apply IH, serve_spares. Qed.

(** While the lock is live, a covered resource is writable exactly with its token. *)
Lemma canModify_held now path ifHeader m :
  locks_ok m -> m !! token = Some lk -> now <= lk_expires lk -> covers lk path = true ->
  (canModify now path ifHeader m).1 = bool_decide (token ∈ parseIfTokens ifHeader).
Proof.
  intros Hok%(locks_ok_reap now) Hl Hn Hc. pose proof (reap_spares now m Hn Hl) as Hr. simpl.
  rewrite <- (negb_involutive (bool_decide _)). f_equal. destruct (bool_decide (token ∈ _)) eqn:Eb; simpl.
  - apply existsb_map. intros t l Hlt. simpl. destruct (covers l path) eqn:Ec; [|done]. simpl.
    rewrite (one_cover _ t token l lk path Hok Hlt Hr Ec Hc) in Hlt. rewrite (lo_token _ Hok _ _ Hlt). by rewrite Eb.
  - apply not_false_iff_true. rewrite existsb_map. intros H. specialize (H _ _ Hr). simpl in H.
    rewrite Hc, (lo_token _ Hok _ _ Hr), Eb in H. done.
Qed.
End Held.

(** ** Facts about the headers *)

Lemma parseIf_loop_out fuel h out : parseIf_loop fuel h out = parseIf_loop fuel h ∅ ∪ out.
Proof.
  revert h out. induction fuel as [|fuel IH]; intros h out; simpl; [set_solver|].
  destruct (Cut h "<") as [[a rest]|]; [|set_solver]. destruct (Cut rest ">") as [[t h']|]; [|set_solver].
  rewrite (IH h' ({[t]} ∪ out)), (IH h' ({[t]} ∪ ∅)). set_solver.
Qed.

Lemma parseIf_loop_fuel fuel h : (String.length h <= fuel)%nat -> parseIf_loop fuel h ∅ = parseIfTokens h.
Proof.
  unfold parseIfTokens. generalize (@empty (gset string) _). remember (String.length h) as n eqn:En. assert (String.length h <= n)%nat as Hn by lia. clear En.
  revert fuel h Hn. induction n as [|n IH]; intros fuel h Hn out Hf.
  { destruct h; [|simpl in Hn; lia]. by destruct fuel. }
  destruct fuel as [|fuel]; [lia|]. simpl. pose proof (Cut_spec h "<") as Hc.
  destruct (Cut h "<") as [[a rest]|]; [|done]. destruct Hc as [-> _]. pose proof (Cut_spec rest ">") as Hc.
  destruct (Cut rest ">") as [[t h']|]; [|done]. destruct Hc as [-> _]. rewrite string_length_app in Hn. simpl in Hn.
  rewrite string_length_app in Hn. simpl in Hn. apply IH; lia.
Qed.

(** The first bracketed token of a header, whatever stands before it. *)
Lemma parseIfTokens_cons before token rest :
  ContainsByte before "<" = false -> ContainsByte token ">" = false ->
  parseIfTokens (before +:+ "<" +:+ token +:+ ">" +:+ rest) = {[token]} ∪ parseIfTokens rest.
Proof.
  intros Hb Ht. set (h := before +:+ _). unfold parseIfTokens at 1.
  assert (String.length h = S (String.length before + String.length token + 1 + String.length rest)) as ->.
  { unfold h. rewrite !string_length_app. simpl. lia. }
  cbn [parseIf_loop]. unfold h. change ("<" +:+ token +:+ ">" +:+ rest) with (String "<" (token +:+ ">" +:+ rest)).
  rewrite (Cut_app before "<" _ Hb). change (token +:+ ">" +:+ rest) with (token +:+ String ">" rest). rewrite (Cut_app token ">" _ Ht).
  rewrite parseIf_loop_out, parseIf_loop_fuel by lia. set_solver.
Qed.

Lemma parseIfTokens_skip c rest : c <> "<"%char -> parseIfTokens (String c rest) = parseIfTokens rest.
Proof.
  intros Hc%Ascii.eqb_neq. rewrite <- (parseIf_loop_fuel (String.length (String c rest)) rest) by (simpl; lia).
  unfold parseIfTokens. cbn [String.length parseIf_loop Cut]. rewrite Hc. by destruct (Cut rest "<") as [[a b]|].
Qed.

(** The header a client builds from the tokens it holds. *)
Definition ifHeader (tokens : list string) : string := fold_right (fun t h => "(<" +:+ t +:+ ">)" +:+ h) "" tokens.

Lemma parseTimeout_second n :
  0 < n <= MaxInt64 -> parseTimeout ("Second-" +:+ FormatInt n) = Z.min (wrap64 (n * Second)) maxLockTimeout.
Proof.
  intros Hn. destruct (FormatInt_spec n) as (Hd & _ & Hne); [lia|]. unfold parseTimeout.
  rewrite Split_plain by (rewrite ContainsByte_app, (digits_plain _ "," Hd eq_refl); reflexivity). cbn [timeout_loop].
  destruct (string_snoc (FormatInt n) Hne) as (t & d & Et).
  assert (TrimSpace ("Second-" +:+ FormatInt n) = "Second-" +:+ FormatInt n) as ->.
  { apply (TrimSpace_id "S" _ d ("Second-" +:+ t)); [reflexivity| |by rewrite Et].
    rewrite Et, all_digits_app in Hd. apply andb_true_iff in Hd as [_ Hd]. simpl in Hd. rewrite andb_true_r in Hd. by apply digit_visible. }
  rewrite HasPrefix_app, TrimPrefix_app, ParseInt_FormatInt by lia. rewrite (proj2 (Z.ltb_lt 0 n)) by lia. cbn zeta.
  destruct (maxLockTimeout <? _) eqn:E; [apply Z.ltb_lt in E|apply Z.ltb_ge in E]; lia.
Qed.

Lemma locks_exclude history token lk qs now path h :
  serve_all history newLockManager !! token = Some lk -> Forall (spares token (lk_expires lk)) qs ->
  now <= lk_expires lk -> covers lk path = true ->
  let m := serve_all qs (serve_all history newLockManager) in
  (size m <= maxLocks)%nat /\ m !! token = Some lk /\
  (forall t l, m !! t = Some l -> covers l path = true -> t = token) /\
  (lockBlocked now path h m).1 = negb (bool_decide (token ∈ parseIfTokens h)).
Proof.
  intros Hl Hq Hn Hc m. assert (locks_ok m) as Hok by apply serve_all_ok, serve_all_ok, locks_ok_new.
  pose proof (serve_all_spares token lk qs _ Hq Hl) as Hm. fold m in Hm. split; [apply Hok|]. split; [done|]. split.
  - intros t l Ht Hct. by eapply one_cover.
  - unfold lockBlocked. pose proof (canModify_held token lk now path h m Hok Hm Hn Hc) as Hcm.
    destruct (canModify now path h m) as [ok m']. simpl in *. by rewrite Hcm.
Qed.

(** ** Properties *)

(** C39. A lock excludes other writers. Take any sequence of LOCK, UNLOCK and mutating requests
    that leaves a lock in the table, and any further requests that neither unlock nor renew it
    and come before it expires: the lock is still there, it is the only lock covering the
    resources it covers, the table stays within its bound, and a request to change such a
    resource is refused with 423 exactly when its If header lacks the lock's token. *)
Theorem lock_excludes_writers (history qs : list request) (token path ifH : string) (lk : lock) (now : Z) :
  serve_all history newLockManager !! token = Some lk -> Forall (spares token (lk_expires lk)) qs ->
  now <= lk_expires lk -> covers lk path = true ->
  let m := serve_all qs (serve_all history newLockManager) in
  (size m <= maxLocks)%nat /\ m !! token = Some lk /\
  (forall t l, m !! t = Some l -> covers l path = true -> t = token) /\
  (lockBlocked now path ifH m).1 = negb (bool_decide (token ∈ parseIfTokens ifH)).
Proof. apply locks_exclude. Qed.

(** The If header a client builds from tokens it holds is read back as those tokens. *)
Theorem parseIfTokens_roundtrip (tokens : list string) :
  Forall (fun t => ContainsByte t ">" = false) tokens -> parseIfTokens (ifHeader tokens) = list_to_set tokens.
Proof.
  induction 1 as [|t tokens Ht _ IH]; [done|]. cbn [ifHeader fold_right list_to_set]. fold (ifHeader tokens).
  change ("(<" +:+ t +:+ ">)" +:+ ifHeader tokens) with ("(" +:+ "<" +:+ t +:+ ">)" +:+ ifHeader tokens).
  change (">)" +:+ ifHeader tokens) with (">" +:+ String ")" (ifHeader tokens)).
  by rewrite parseIfTokens_cons, parseIfTokens_skip, IH.
Qed.

(** A Timeout header that asks for at most 2^32-1 seconds, the most the protocol allows,
    gives a lock of that length capped at a day. *)
Theorem parseTimeout_clamped (n : Z) :
  0 < n <= 4294967295 ->
  parseTimeout ("Second-" +:+ FormatInt n) = Z.min (n * Second) maxLockTimeout /\
  0 < parseTimeout ("Second-" +:+ FormatInt n) <= maxLockTimeout.
Proof.
  intros Hn. rewrite parseTimeout_second by (unfold MaxInt64; lia).
  rewrite wrap64_id by (unfold in_int64, MinInt64, MaxInt64, Second; lia). split; [done|]. unfold maxLockTimeout, Second. lia.
Qed.

(** Beyond that the product wraps: the longest request that still fits an int64 number of
    seconds gives a lock that has already expired, instead of one of a day. *)
Theorem parseTimeout_overflow : parseTimeout "Second-9223372037" < 0 /\ parseTimeout "Second-9223372036" = maxLockTimeout.
Proof. split; [apply Z.ltb_lt|]; vm_compute; reflexivity. Qed.

(** The check before a mutating request looks at locks on the resource and above it only: a
    request on a collection, such as DELETE or MOVE, passes although a member is locked. *)
Theorem member_lock_not_enforced (now : Z) (lk : lock) (dir ifH : string) :
  HasPrefix (lk_path lk) (dir +:+ "/") = true -> (lockBlocked now dir ifH {[lk_token lk := lk]}).1 = false.
Proof.
  intros [rest Hp]%HasPrefix_spec. unfold lockBlocked, canModify. simpl. rewrite negb_involutive. apply existsb_map.
  intros t l [Hl _]%reap_lookup. apply lookup_singleton_Some in Hl as [_ <-]. simpl.
  assert (covers lk dir = false) as ->; [|done]. unfold covers. rewrite Hp.
  assert (forall s, (dir +:+ "/") +:+ rest <> dir +:+ s \/ s <> "") as Hlen.
  { intros [|c s]; [left|by right]. rewrite string_app_nil_r. intros E%(f_equal String.length). rewrite !string_length_app in E. simpl in E. lia. }
  destruct (_ =s dir) eqn:E; [apply String.eqb_eq in E; destruct (Hlen "") as [H|H]; [|done]; by rewrite string_app_nil_r in H|].
  destruct (lk_depth lk =s "infinity"); [|done]. destruct (_ =s "") eqn:E0; [apply String.eqb_eq in E0; by destruct dir|].
  apply not_true_iff_false. intros [x Hx]%HasPrefix_spec. apply (f_equal String.length) in Hx. rewrite !string_length_app in Hx. simpl in Hx. lia.
Qed.

(** ** Witnesses *)

Definition lockDocs : request := RLock (mkLockRequest (Some "docs") "Second-60" "" "infinity" [] 0 "opaquelocktoken:a" 0).
Definition lockOther : request := RLock (mkLockRequest (Some "docs/x") "" "" "0" [] 1 "opaquelocktoken:b" 1).
Definition docsLock : lock := mkLock "opaquelocktoken:a" "docs" "infinity" 60000000000.

Lemma lock_excludes_writers_witness :
  let m := serve_all [lockOther; RUnlock "<opaquelocktoken:b>"] (serve_all [lockDocs] newLockManager) in
  m !! "opaquelocktoken:a" = Some docsLock /\
  (lockBlocked 5 "docs/x/y" "" m).1 = true /\ (lockBlocked 5 "docs/x/y" "(<opaquelocktoken:a>)" m).1 = false.
Proof.
  assert (serve_all [lockDocs] newLockManager !! "opaquelocktoken:a" = Some docsLock) as H1 by (vm_compute; reflexivity).
  assert (Forall (spares "opaquelocktoken:a" (lk_expires docsLock)) [lockOther; RUnlock "<opaquelocktoken:b>"]) as H2.
  { apply Forall_cons. split; [|apply Forall_cons; split; [|apply Forall_nil; exact I]]; cbn [spares lockOther].
    - split; [apply String.eqb_neq; vm_compute; reflexivity|]. split; [discriminate|apply Forall_nil; exact I].
    - apply String.eqb_neq; vm_compute; reflexivity. }
  intros m. split; [|split].
  - apply (lock_excludes_writers [lockDocs] _ "opaquelocktoken:a" "docs/x/y" "" docsLock 5 H1 H2); [discriminate|reflexivity].
  - destruct (lock_excludes_writers [lockDocs] _ "opaquelocktoken:a" "docs/x/y" "" docsLock 5 H1 H2) as (_ & _ & _ & E); [discriminate|reflexivity|exact E].
  - destruct (lock_excludes_writers [lockDocs] _ "opaquelocktoken:a" "docs/x/y" "(<opaquelocktoken:a>)" docsLock 5 H1 H2) as (_ & _ & _ & E); [discriminate|reflexivity|exact E].
Defined.

Lemma parseIfTokens_roundtrip_witness : parseIfTokens "(<opaquelocktoken:a>)(<opaquelocktoken:b>)" = {["opaquelocktoken:a"; "opaquelocktoken:b"]}.
Proof.
  transitivity (list_to_set (C:=gset string) ["opaquelocktoken:a"; "opaquelocktoken:b"]); [|cbn [list_to_set foldr]; by rewrite union_empty_r_L].
  exact (parseIfTokens_roundtrip ["opaquelocktoken:a"; "opaquelocktoken:b"] ltac:(repeat constructor)).
Defined.

Lemma parseTimeout_clamped_witness : parseTimeout "Second-4294967295" = maxLockTimeout /\ parseTimeout "Second-30" = 30000000000.
Proof.
  split; [exact (proj1 (parseTimeout_clamped 4294967295 ltac:(lia)))|exact (proj1 (parseTimeout_clamped 30 ltac:(lia)))].
Defined.
