(* ===== verification/Conditions.v ===== *)
(** * Conditional requests and ranges of the S3 gateway

    internal/gateway/s3/conditions.go with [etagFor] (s3/handlers.go): preconditions of reads,
    copies and writes, and the classification of a Range header before net/http's
    ServeContent parses it. The request's headers are a function from name to value
    ([Header.Get]); http.ParseTime is a parameter. Times are nanoseconds. *)

From S2P Require Import Prelude GoStrings.

Definition secondNs : Z := 1000000000.

(** What the code reads of an [os.FileInfo]. *)
Record FileInfo := mkInfo { fi_Size : Z; fi_ModTime : Z; fi_IsRegular : bool }.

(** [time.Time.Truncate(time.Second)] *)
Definition truncateSecond (t : Z) : Z := t - t mod secondNs.

Definition quote : string := str1 (Ascii.ascii_of_nat 34).

(** [func etagFor(fi os.FileInfo) string] *)
Definition etagFor (fi : FileInfo) : string :=
  quote +:+ FormatHex (fi_Size fi) +:+ "-" +:+ FormatHex (fi_ModTime fi) +:+ quote.

(** [func normalizeETag(etag string) string] *)
Definition normalizeETag (etag : string) : string := Trim (TrimPrefix (TrimSpace etag) "W/") quote.

(** [func etagListMatches(list, etag string) bool] *)
Definition etagListMatches (list etag : string) : bool :=
  let want := normalizeETag etag in
  existsb (fun candidate =>
    let candidate := TrimSpace candidate in
    (candidate =s "*") || (negb (candidate =s "") && (normalizeETag candidate =s want))) (Split list ",").

Inductive condition := conditionMet | conditionFailed | conditionNotModified.

Record conditionalHeaders := mkHeaders { ch_ifMatch : string; ch_ifUnmodifiedSince : string; ch_ifNoneMatch : string; ch_ifModifiedSince : string }.
Definition readConditions : conditionalHeaders := mkHeaders "If-Match" "If-Unmodified-Since" "If-None-Match" "If-Modified-Since".
Definition copyConditions : conditionalHeaders :=
  mkHeaders "X-Amz-Copy-Source-If-Match" "X-Amz-Copy-Source-If-Unmodified-Since"
            "X-Amz-Copy-Source-If-None-Match" "X-Amz-Copy-Source-If-Modified-Since".

Section Reads.
Context (ParseTime : string -> option Z).

(** [func parseHTTPDate(raw string) (time.Time, bool)] *)
Definition parseHTTPDate (raw : string) : option Z := if raw =s "" then None else ParseTime raw.

(** [func evaluateConditions(r *http.Request, names conditionalHeaders, info os.FileInfo) condition] *)
Definition evaluateConditions (header : string -> string) (names : conditionalHeaders) (info : FileInfo) : condition :=
  let etag := etagFor info in
  let modified := truncateSecond (fi_ModTime info) in
  let raw := header (ch_ifMatch names) in
  let failed :=
    if negb (raw =s "") then negb (etagListMatches raw etag)
    else match parseHTTPDate (header (ch_ifUnmodifiedSince names)) with
         | Some since => since <? modified
         | None => false
         end in
  if failed then conditionFailed
  else
    let raw := header (ch_ifNoneMatch names) in
    let unchanged :=
      if negb (raw =s "") then etagListMatches raw etag
      else match parseHTTPDate (header (ch_ifModifiedSince names)) with
           | Some since => negb (since <? modified)
           | None => false
           end in
    if unchanged then conditionNotModified else conditionMet.

(** [func ifRangeHolds(r *http.Request, info os.FileInfo) bool] *)
Definition ifRangeHolds (header : string -> string) (info : FileInfo) : bool :=
  let raw := TrimSpace (header "If-Range") in
  if raw =s "" then true
  else if HasPrefix raw quote || HasPrefix raw "W/"
  then negb (HasPrefix raw "W/") && (raw =s etagFor info)
  else match parseHTTPDate raw with
       | Some t => truncateSecond (fi_ModTime info) =? t
       | None => false
       end.
End Reads.

(** ** Conditional writes *)

Inductive statError := statNotExist | statNotDir | statOther.

(** [func readMissing(err error) bool] *)
Definition readMissing (e : statError) : bool := match e with statNotExist | statNotDir => true | statOther => false end.

Inductive writeError := errNotImplemented | errPreconditionFailed | errNoSuchKey | errStat (e : statError).

Record writeConditions := mkWriteConditions { wc_ifNoneMatch : bool; wc_ifMatch : string }.

(** [func parseWriteConditions(r *http.Request) (writeConditions, *objectFailure)] *)
Definition parseWriteConditions (header : string -> string) : result writeError writeConditions :=
  let raw := TrimSpace (header "If-None-Match") in
  let rest (none : bool) := Ok (mkWriteConditions none (TrimSpace (header "If-Match"))) in
  if raw =s "" then rest false
  else if negb (raw =s "*") then Err errNotImplemented
  else rest true.

(** [func (c writeConditions) empty() bool] *)
Definition wc_empty (c : writeConditions) : bool := negb (wc_ifNoneMatch c) && (wc_ifMatch c =s "").

(** [func (c writeConditions) check(current os.FileInfo, statErr error) error] *)
Definition check (c : writeConditions) (current : result statError FileInfo) : option writeError :=
  let decide' (exists' : bool) (etag : string) :=
    if wc_ifNoneMatch c && exists' then Some errPreconditionFailed
    else if negb (wc_ifMatch c =s "")
    then if negb exists' then Some errNoSuchKey
         else if negb (etagListMatches (wc_ifMatch c) etag) then Some errPreconditionFailed else None
    else None in
  match current with
  | Err e => if negb (readMissing e) then Some (errStat e) else decide' false ""
  | Ok info => decide' (fi_IsRegular info) (etagFor info)
  end.

(** [func (c writeConditions) precondition() func(os.FileInfo, error) error], applied. *)
Definition precondition (c : writeConditions) (current : result statError FileInfo) : option writeError :=
  if wc_empty c then None else check c current.

(** ** Ranges *)

Inductive rangeOutcome := rangeNone | rangeServe | rangeIgnore | rangeUnsatisfiable.

(** The loop over the specs of [classifyRange]: [None] is its early [return rangeIgnore]. *)
Fixpoint classify_loop (specs : list string) (size : Z) (satisfiable named : bool) : option (bool * bool) :=
  match specs with
  | [] => Some (satisfiable, named)
  | spec :: rest =>
      let spec := TrimSpace spec in
      if spec =s "" then classify_loop rest size satisfiable named
      else match Cut spec "-" with
      | None => None
      | Some (first, last) =>
          let first := TrimSpace first in
          let last := TrimSpace last in
          if first =s "" then
            match ParseInt last with
            | None => None
            | Some n =>
                if (last =s "") || HasPrefix last "-" || (n <? 0) then None
                else classify_loop rest size (satisfiable || ((0 <? n) && (0 <? size))) true
            end
          else match ParseInt first with
          | None => None
          | Some start =>
              if start <? 0 then None
              else if negb (last =s "")
              then match ParseInt last with
                   | None => None
                   | Some end' => if end' <? start then None else classify_loop rest size (satisfiable || (start <? size)) true
                   end
              else classify_loop rest size (satisfiable || (start <? size)) true
          end
      end
  end.

Definition unit' : string := "bytes=".

(** [func classifyRange(header string, size int64) rangeOutcome] *)
Definition classifyRange (header : string) (size : Z) : rangeOutcome :=
  if header =s "" then rangeNone
  else if negb (HasPrefix header unit') then rangeIgnore
  else match classify_loop (Split (TrimPrefix header unit') ",") size false false with
  | None => rangeIgnore
  | Some (satisfiable, named) =>
      if negb named then rangeIgnore
      else if satisfiable then rangeServe
      else if size =? 0 then rangeIgnore
      else rangeUnsatisfiable
  end.

(** *** net/http's own parser, which ServeContent runs on what is let through *)

Record httpRange := mkRange { hr_start : Z; hr_length : Z }.
Inductive rangeError := errInvalidRange | errNoOverlap.

(** [textproto.TrimString]: space, tab, line feed and carriage return. *)
Definition isASCIISpace (c : ascii) : bool := byte_in 32 32 c || byte_in 9 10 c || byte_in 13 13 c.
Fixpoint strip_ascii (s : string) : string :=
  match s with "" => "" | String c s' => if isASCIISpace c then strip_ascii s' else s end.
Definition TrimString (s : string) : string := srev (strip_ascii (srev (strip_ascii s))).

Fixpoint parse_loop (specs : list string) (size : Z) (ranges : list httpRange) (noOverlap : bool) : option (list httpRange * bool) :=
  match specs with
  | [] => Some (ranges, noOverlap)
  | ra :: rest =>
      let ra := TrimString ra in
      if ra =s "" then parse_loop rest size ranges noOverlap
      else match Cut ra "-" with
      | None => None
      | Some (start, end') =>
          let start := TrimString start in
          let end' := TrimString end' in
          if start =s "" then
            if (end' =s "") || HasPrefix end' "-" then None
            else match ParseInt end' with
                 | None => None
                 | Some i =>
                     if i <? 0 then None
                     else let i := Z.min i size in
                          parse_loop rest size (ranges ++ [mkRange (size - i) i]) noOverlap
                 end
          else match ParseInt start with
          | None => None
          | Some i =>
              if i <? 0 then None
              else if size <=? i then parse_loop rest size ranges true
              else if end' =s "" then parse_loop rest size (ranges ++ [mkRange i (size - i)]) noOverlap
              else match ParseInt end' with
                   | None => None
                   | Some j => if j <? i then None
                               else parse_loop rest size (ranges ++ [mkRange i (Z.min j (size - 1) - i + 1)]) noOverlap
                   end
          end
      end
  end.

Definition parseRange (s : string) (size : Z) : result rangeError (list httpRange) :=
  if s =s "" then Ok []
  else if negb (HasPrefix s unit') then Err errInvalidRange
  else match parse_loop (Split (TrimPrefix s unit') ",") size [] false with
  | None => Err errInvalidRange
  | Some (ranges, noOverlap) => if noOverlap && (match ranges with [] => true | _ => false end) then Err errNoOverlap else Ok ranges
  end.

(** ** Facts about entity tags *)

Lemma TrimLeft_keep c s cutset : ContainsByte cutset c = false -> TrimLeft (String c s) cutset = String c s.
Proof. intros H. cbn [TrimLeft]. by rewrite H. Qed.

(** Quotes around text without quotes at its ends come off. *)
Lemma Trim_quoted c s t d : ContainsByte quote c = false -> ContainsByte quote d = false -> String c s = t +:+ str1 d ->
  Trim (quote +:+ String c s +:+ quote) quote = String c s.
Proof.
  intros Hc Hd E. unfold Trim. set (q := Ascii.ascii_of_nat 34).
  assert (forall x, TrimLeft (quote +:+ x) quote = TrimLeft x quote) as Hq by (intros x; done).
  rewrite Hq. simpl String.append at 1. rewrite TrimLeft_keep by done.
  change (String c (s +:+ quote)) with (String c s +:+ quote). rewrite srev_app. change (srev quote) with quote. rewrite Hq, E, srev_app.
  change (srev (str1 d) +:+ srev t) with (String d (srev t)). rewrite TrimLeft_keep by done.
  by rewrite srev_cons, srev_involutive.
Qed.

(** The tag without its quotes. *)
Definition tagBody (fi : FileInfo) : string := FormatHex (fi_Size fi) +:+ "-" +:+ FormatHex (fi_ModTime fi).

Definition info_ok (fi : FileInfo) : Prop := 0 <= fi_Size fi <= MaxInt64 /\ in_int64 (fi_ModTime fi).

Definition tag_char (c : ascii) : bool := lower_hex c || Ascii.eqb c "-".

Lemma FormatHex_chars n : in_int64 n -> all_bytes tag_char (FormatHex n) = true /\ exists t d, FormatHex n = t +:+ str1 d /\ lower_hex d = true.
Proof.
  assert (forall s, all_bytes lower_hex s = true -> all_bytes tag_char s = true) as Hm.
  { intros s. induction s as [|c s IH]; [done|]. simpl. intros [H1 H2]%andb_true_iff. unfold tag_char at 1. by rewrite H1, IH. }
  assert (forall s, all_bytes lower_hex s = true -> s <> "" -> exists t d, s = t +:+ str1 d /\ lower_hex d = true) as Hl.
  { intros s Ha (t & d & ->)%string_snoc. exists t, d. split; [done|]. rewrite all_bytes_app in Ha. apply andb_true_iff in Ha as [_ Ha].
    simpl in Ha. by rewrite andb_true_r in Ha. }
  intros [H1 H2]. destruct (decide (n < 0)).
  - destruct (FormatHex_neg n) as (h & -> & _ & Ha & Hne); [lia|]. split; [simpl; by rewrite Hm|].
    destruct (Hl h Ha Hne) as (t & d & -> & Hd). by exists (String "-" t), d.
  - destruct (FormatHex_nonneg n) as (_ & Ha & Hne & _); [lia|]. auto.
Qed.

Lemma tagBody_shape fi : info_ok fi ->
  all_bytes tag_char (tagBody fi) = true /\ exists c s t d, tagBody fi = String c s /\ tagBody fi = t +:+ str1 d /\ lower_hex c = true /\ lower_hex d = true.
Proof.
  intros [Hs Ht]. destruct (FormatHex_nonneg _ Hs) as (_ & Ha & Hne & _). destruct (FormatHex_chars _ Ht) as (Hc & t & d & Et & Hd).
  destruct (FormatHex_chars (fi_Size fi)) as [Hsz _]; [unfold in_int64, MinInt64; lia|]. unfold tagBody. split.
  - rewrite !all_bytes_app, Hsz, Hc. done.
  - destruct (FormatHex (fi_Size fi)) as [|c s] eqn:Es; [done|]. simpl in Ha. apply andb_true_iff in Ha as [Hcx _].
    exists c, (s +:+ "-" +:+ FormatHex (fi_ModTime fi)), (String c s +:+ "-" +:+ t), d. rewrite Et, !string_app_assoc. done.
Qed.

Lemma tag_char_not_quote c : tag_char c = true -> ContainsByte quote c = false.
Proof.
  intros H. unfold quote, str1. rewrite ContainsByte_cons. apply orb_false_iff. split; [|done]. apply Ascii.eqb_neq. intros <-. discriminate H.
Qed.

Lemma lower_hex_tag c : lower_hex c = true -> tag_char c = true.
Proof. unfold tag_char. by intros ->. Qed.

Lemma normalizeETag_etagFor fi : info_ok fi -> TrimSpace (etagFor fi) = etagFor fi /\ normalizeETag (etagFor fi) = tagBody fi.
Proof.
  intros Hok. destruct (tagBody_shape fi Hok) as (_ & c & s & t & d & E1 & E2 & Hc & Hd).
  assert (etagFor fi = quote +:+ tagBody fi +:+ quote) as Ee by (unfold etagFor, tagBody; by rewrite !string_app_assoc).
  assert (TrimSpace (etagFor fi) = etagFor fi) as Ht.
  { rewrite Ee. change (quote +:+ tagBody fi +:+ quote) with (String (Ascii.ascii_of_nat 34) (tagBody fi +:+ quote)).
    apply (TrimSpace_id _ _ (Ascii.ascii_of_nat 34) (quote +:+ tagBody fi)); [done|done|]. by rewrite string_app_assoc. }
  split; [done|]. unfold normalizeETag. rewrite Ht, Ee.
  assert (TrimPrefix (quote +:+ tagBody fi +:+ quote) "W/" = quote +:+ tagBody fi +:+ quote) as -> by done.
  rewrite E1. apply (Trim_quoted c s t d); [by apply tag_char_not_quote, lower_hex_tag|by apply tag_char_not_quote, lower_hex_tag|].
  by rewrite <- E1.
Qed.

Lemma tagBody_inj a b : info_ok a -> info_ok b -> tagBody a = tagBody b -> fi_Size a = fi_Size b /\ fi_ModTime a = fi_ModTime b.
Proof.
  intros [Sa Ta] [Sb Tb] E. destruct (FormatHex_nonneg _ Sa) as (_ & Ha & _). destruct (FormatHex_nonneg _ Sb) as (_ & Hb & _).
  pose proof (Cut_app (FormatHex (fi_Size a)) "-" (FormatHex (fi_ModTime a)) (all_bytes_plain _ _ "-" Ha eq_refl)) as C1.
  pose proof (Cut_app (FormatHex (fi_Size b)) "-" (FormatHex (fi_ModTime b)) (all_bytes_plain _ _ "-" Hb eq_refl)) as C2.
  unfold tagBody in E. change (FormatHex (fi_Size a) +:+ String "-" (FormatHex (fi_ModTime a)) = FormatHex (fi_Size b) +:+ String "-" (FormatHex (fi_ModTime b))) in E.
  rewrite E in C1. rewrite C1 in C2. injection C2 as E1 E2. split; apply FormatHex_inj; try done; unfold in_int64, MinInt64 in *; lia.
Qed.

(** A tag this server issued names another object of it exactly when size and time agree. *)
Lemma etagListMatches_etagFor a b : info_ok a -> info_ok b ->
  etagListMatches (etagFor a) (etagFor b) = bool_decide (fi_Size a = fi_Size b /\ fi_ModTime a = fi_ModTime b).
Proof.
  intros Ha Hb. destruct (normalizeETag_etagFor a Ha) as [T1 N1]. destruct (normalizeETag_etagFor b Hb) as [_ N2].
  destruct (tagBody_shape a Ha) as (Hch & c & s & t & d & E1 & _ & Hc & _).
  unfold etagListMatches. rewrite Split_plain.
  2:{ unfold etagFor. change ("-" +:+ FormatHex (fi_ModTime a) +:+ quote) with ("-" +:+ (FormatHex (fi_ModTime a) +:+ quote)).
      assert (quote +:+ FormatHex (fi_Size a) +:+ "-" +:+ FormatHex (fi_ModTime a) +:+ quote = quote +:+ tagBody a +:+ quote) as -> by (unfold tagBody; by rewrite !string_app_assoc).
      rewrite !ContainsByte_app. rewrite (all_bytes_plain _ _ "," Hch eq_refl). reflexivity. }
  cbn [existsb]. rewrite T1, N1, N2, orb_false_r.
  assert ((etagFor a =s "*") = false) as -> by done. assert ((etagFor a =s "") = false) as -> by done. cbn [negb andb orb].
  apply eq_true_iff_eq. rewrite String.eqb_eq, bool_decide_eq_true. split; [by apply tagBody_inj|].
  intros [E2 E3]. unfold tagBody. by rewrite E2, E3.
Qed.

(** ** Facts about ranges *)

(** Header text without the whitespace only [TrimSpace] knows: bytes below U+0080 except
    vertical tab and form feed. *)
Definition plain_byte (c : ascii) : bool := byte_in 0 127 c && negb (byte_in 11 12 c).

Lemma space1_plain c : plain_byte c = true -> space1 c = isASCIISpace c.
Proof.
  unfold plain_byte, space1, isASCIISpace, byte_in. intros H. apply eq_true_iff_eq.
  rewrite !andb_true_iff, negb_true_iff, andb_false_iff, !Z.leb_le, !Z.leb_gt in H. rewrite !orb_true_iff, !andb_true_iff, !Z.leb_le. lia.
Qed.

Lemma high_plain c lo hi : plain_byte c = true -> 128 <= lo -> byte_in lo hi c = false.
Proof.
  unfold plain_byte. rewrite andb_true_iff. unfold byte_in at 1. rewrite andb_true_iff, !Z.leb_le. intros [[_ H] _] Hlo.
  unfold byte_in. by rewrite (proj2 (Z.leb_gt lo (byte_val c))) by lia.
Qed.

Lemma strip_spaces_plain flip s : all_bytes plain_byte s = true -> strip_spaces flip s = strip_ascii s.
Proof.
  induction s as [|c s IH]; intros Hs; [done|]. cbn [all_bytes] in Hs. apply andb_true_iff in Hs as [Hc Hs].
  cbn [strip_spaces strip_ascii]. rewrite space1_plain by done. destruct (isASCIISpace c); [by apply IH|].
  destruct s as [|c1 s]; [done|]. cbn [all_bytes] in Hs. apply andb_true_iff in Hs as [Hc1 Hs]. unfold space2, space3.
  rewrite !(high_plain c), !(high_plain c1) by (done || lia). destruct flip; cbn [andb orb].
  - destruct s as [|c2 s]; [done|]. by rewrite !andb_false_r.
  - by destruct s as [|c2 s].
Qed.

Lemma all_bytes_srev f s : all_bytes f (srev s) = all_bytes f s.
Proof. induction s as [|c s IH]; [done|]. rewrite srev_cons, all_bytes_app, IH. cbn [all_bytes str1]. rewrite andb_true_r. apply andb_comm. Qed.

Lemma all_bytes_strip_ascii f s : all_bytes f s = true -> all_bytes f (strip_ascii s) = true.
Proof. induction s as [|c s IH]; intros H; [done|]. cbn [strip_ascii]. destruct (isASCIISpace c); [|done]. apply IH. cbn [all_bytes] in H. by apply andb_true_iff in H as [_ H]. Qed.

Lemma TrimSpace_plain s : all_bytes plain_byte s = true -> TrimSpace s = TrimString s.
Proof.
  intros H. unfold TrimSpace, TrimString. rewrite (strip_spaces_plain false) by done. rewrite (strip_spaces_plain true); [done|].
  rewrite all_bytes_srev. by apply all_bytes_strip_ascii.
Qed.

Lemma all_bytes_TrimString f s : all_bytes f s = true -> all_bytes f (TrimString s) = true.
Proof. intros H. unfold TrimString. rewrite all_bytes_srev. apply all_bytes_strip_ascii. rewrite all_bytes_srev. by apply all_bytes_strip_ascii. Qed.

Lemma all_bytes_Cut f s sep a b : all_bytes f s = true -> Cut s sep = Some (a, b) -> all_bytes f a = true /\ all_bytes f b = true.
Proof.
  intros H E. pose proof (Cut_spec s sep) as Hc. rewrite E in Hc. destruct Hc as [-> _]. rewrite all_bytes_app in H. cbn [all_bytes] in H.
  apply andb_true_iff in H as [H1 H2]. by apply andb_true_iff in H2 as [_ H2].
Qed.

Lemma all_bytes_Split f s sep : all_bytes f s = true -> Forall (fun p => all_bytes f p = true) (Split s sep).
Proof.
  induction s as [|c s IH]; intros H; [by repeat constructor|]. cbn [all_bytes] in H. apply andb_true_iff in H as [Hc Hs].
  specialize (IH Hs). cbn [Split]. destruct (Ascii.eqb c sep); [by constructor|]. pose proof (Split_nonnil s sep).
  destruct (Split s sep) as [|p rest]; [done|]. apply Forall_cons in IH as [H1 H2]. constructor; [|done]. cbn [all_bytes]. by rewrite Hc, H1.
Qed.

(** A range ServeContent can serve from an object of this size. *)
Definition within (size : Z) (r : httpRange) : Prop := 0 <= hr_start r /\ 0 <= hr_length r /\ hr_start r + hr_length r <= size.
Definition selects (r : httpRange) : Prop := 0 < hr_length r.

Lemma ranges_snoc size ranges r (sat b : bool) :
  Forall (within size) ranges -> (sat = true <-> Exists selects ranges) -> within size r -> (b = true <-> selects r) ->
  Forall (within size) (ranges ++ [r]) /\ (sat || b = true <-> Exists selects (ranges ++ [r])).
Proof.
  intros H1 H2 H3 H4. rewrite Forall_app, Exists_app, orb_true_iff, Forall_singleton, Exists_cons, Exists_nil. naive_solver.
Qed.

Lemma classify_parse specs size ranges sat named no res :
  0 <= size -> Forall (fun p => all_bytes plain_byte p = true) specs ->
  Forall (within size) ranges -> (sat = true <-> Exists selects ranges) ->
  classify_loop specs size sat named = Some res ->
  exists ranges' no', parse_loop specs size ranges no = Some (ranges', no') /\ Forall (within size) ranges' /\ (res.1 = true <-> Exists selects ranges').
Proof.
  intros Hsz Hp. revert ranges sat named no. induction Hp as [|spec specs Hs Hp IH]; intros ranges sat named no Hw He.
  { intros [= <-]. by exists ranges, no. }
  cbn [classify_loop parse_loop]. rewrite (TrimSpace_plain spec Hs). destruct (TrimString spec =s ""); [by apply IH|].
  destruct (Cut (TrimString spec) "-") as [[first last]|] eqn:Ec; [|done].
  destruct (all_bytes_Cut _ _ _ _ _ (all_bytes_TrimString _ _ Hs) Ec) as [Hf Hl].
  rewrite (TrimSpace_plain first Hf), (TrimSpace_plain last Hl). destruct (TrimString first =s "").
  - destruct (ParseInt (TrimString last)) as [n|]; [|done]. destruct ((TrimString last =s "") || HasPrefix (TrimString last) "-"); [done|].
    cbn [orb]. destruct (n <? 0) eqn:En; [done|]. apply Z.ltb_ge in En.
    destruct (ranges_snoc size ranges (mkRange (size - Z.min n size) (Z.min n size)) sat ((0 <? n) && (0 <? size))) as [H1 H2]; try done.
    + unfold within. simpl. lia.
    + unfold selects. simpl. rewrite andb_true_iff, !Z.ltb_lt. lia.
    + by apply IH.
  - destruct (ParseInt (TrimString first)) as [start|]; [|done]. destruct (start <? 0) eqn:Est; [done|]. apply Z.ltb_ge in Est.
    assert (forall end', start <= end' -> start < size ->
      Forall (within size) (ranges ++ [mkRange start (Z.min end' (size - 1) - start + 1)]) /\
      (sat || true = true <-> Exists selects (ranges ++ [mkRange start (Z.min end' (size - 1) - start + 1)]))) as Hend.
    { intros end' H1 H2. apply ranges_snoc; try done; [unfold within; simpl; lia|]. unfold selects. simpl. intuition lia. }
    destruct (TrimString last =s ""); cbn [negb].
    + destruct (size <=? start) eqn:Eo; [apply Z.leb_le in Eo|apply Z.leb_gt in Eo].
      * rewrite (proj2 (Z.ltb_ge start size)), orb_false_r by lia. by apply IH.
      * rewrite (proj2 (Z.ltb_lt start size)) by lia. destruct (Hend (size - 1)) as [H1 H2]; [lia|lia|].
        replace (Z.min (size - 1) (size - 1) - start + 1) with (size - start) in H1, H2 by lia. by apply IH.
    + destruct (ParseInt (TrimString last)) as [end'|]; [|done]. destruct (end' <? start) eqn:Ee; [done|]. apply Z.ltb_ge in Ee.
      destruct (size <=? start) eqn:Eo; [apply Z.leb_le in Eo|apply Z.leb_gt in Eo].
      * rewrite (proj2 (Z.ltb_ge start size)), orb_false_r by lia. by apply IH.
      * rewrite (proj2 (Z.ltb_lt start size)) by lia. destruct (Hend end') as [H1 H2]; [lia|lia|]. by apply IH.
Qed.

(** ** Properties *)

(** A conditional read follows the generation the client saw: with the ETag it was given
    as If-Match the object is served exactly while size and modification time are unchanged,
    and with it as If-None-Match the answer is 304 exactly then. *)
Theorem evaluateConditions_generation (ParseTime : string -> option Z) (header : string -> string) (names : conditionalHeaders) (seen cur : FileInfo) :
  info_ok seen -> info_ok cur ->
  let same := bool_decide (fi_Size seen = fi_Size cur /\ fi_ModTime seen = fi_ModTime cur) in
  (header (ch_ifMatch names) = etagFor seen -> header (ch_ifNoneMatch names) = "" -> header (ch_ifModifiedSince names) = "" ->
   evaluateConditions ParseTime header names cur = if same then conditionMet else conditionFailed) /\
  (header (ch_ifMatch names) = "" -> header (ch_ifUnmodifiedSince names) = "" -> header (ch_ifNoneMatch names) = etagFor seen ->
   evaluateConditions ParseTime header names cur = if same then conditionNotModified else conditionMet).
Proof.
  intros Hs Hc same. unfold evaluateConditions. split.
  - intros -> -> ->. change (etagFor seen =s "") with false. cbn [negb]. rewrite etagListMatches_etagFor by done. fold same. by destruct same.
  - intros -> -> ->. change (etagFor seen =s "") with false. cbn [negb]. rewrite etagListMatches_etagFor by done. fold same. by destruct same.
Qed.

(** A conditional write is decided by the destination as it is under the commit lock:
    with If-Match it goes through only onto the generation the client saw, with
    If-None-Match: * only onto a free key, and a destination that cannot be looked at refuses both. *)
Theorem precondition_generation (header : string -> string) (seen : FileInfo) (current : result statError FileInfo) (c : writeConditions) :
  info_ok seen -> (forall info, current = Ok info -> info_ok info) -> parseWriteConditions header = Ok c ->
  (header "If-Match" = etagFor seen -> header "If-None-Match" = "" ->
   precondition c current = None <->
   exists info, current = Ok info /\ fi_IsRegular info = true /\ fi_Size seen = fi_Size info /\ fi_ModTime seen = fi_ModTime info) /\
  (header "If-Match" = "" -> header "If-None-Match" = "*" ->
   precondition c current = None <->
   (exists e, current = Err e /\ readMissing e = true) \/ (exists info, current = Ok info /\ fi_IsRegular info = false)).
Proof.
  intros Hs Hcur Hp. unfold parseWriteConditions in Hp. destruct (normalizeETag_etagFor seen Hs) as [Ht _].
  split; intros E1 E2; rewrite E1, E2 in Hp.
  - change (TrimSpace "" =s "") with true in Hp. cbn iota zeta beta in Hp. rewrite Ht in Hp. injection Hp as <-. unfold precondition, wc_empty, check. cbn [wc_ifNoneMatch wc_ifMatch].
    change (etagFor seen =s "") with false. cbn [negb andb]. destruct current as [info|e].
    + destruct (fi_IsRegular info) eqn:Er; cbn [negb]; [|split; [done|intros (i & [= <-] & Hr & _); congruence]]. rewrite etagListMatches_etagFor by eauto.
      case_bool_decide as Hb; cbn [negb]; (split; [|intros (i & [= <-] & _ & Hr); done || by destruct Hb]); [by exists info|done].
    + destruct (readMissing e); cbn [negb]; (split; [done|intros (i & [=] & _)]).
  - change (TrimSpace "*") with "*" in Hp. change (TrimSpace "") with "" in Hp. cbn in Hp.
    injection Hp as <-. unfold precondition, wc_empty, check. cbn [wc_ifNoneMatch wc_ifMatch negb andb]. destruct current as [info|e].
    + destruct (fi_IsRegular info) eqn:Er; (split; [|intros [(e & [=] & _)|(i & [= <-] & Hr)]; congruence || done]); [done|right; by exists info].
    + destruct (readMissing e) eqn:Er; cbn [negb]; (split; [|intros [(e' & [= <-] & Hr)|(i & [=] & _)]; congruence || done]); [left; by exists e|done].
Qed.

(** A Range header let through as satisfiable is one net/http's ServeContent parses into
    ranges of the object, at least one of which selects a byte, so it never answers 416
    itself; one refused as unsatisfiable selects no byte there. *)
Theorem classifyRange_agrees (header : string) (size : Z) :
  0 <= size -> all_bytes plain_byte header = true ->
  (classifyRange header size = rangeServe ->
   exists ranges, parseRange header size = Ok ranges /\ Forall (within size) ranges /\ Exists selects ranges) /\
  (classifyRange header size = rangeUnsatisfiable ->
   0 < size /\ forall ranges, parseRange header size = Ok ranges -> ~ Exists selects ranges).
Proof.
  intros Hsz Hp. unfold classifyRange, parseRange. destruct (header =s ""); [done|]. destruct (HasPrefix header unit') eqn:Ep; [|done]. cbn [negb].
  apply HasPrefix_spec in Ep as [rest ->]. rewrite TrimPrefix_app. rewrite all_bytes_app in Hp. apply andb_true_iff in Hp as [_ Hp].
  destruct (classify_loop (Split rest ",") size false false) as [[sat named]|] eqn:Ec; [|done].
  destruct (classify_parse _ size [] false false false _ Hsz (all_bytes_Split _ _ "," Hp) (Forall_nil_2 _) ltac:(rewrite Exists_nil; done) Ec)
    as (ranges & no & -> & Hw & He). cbn [fst] in He.
  destruct named; [|done]. cbn [negb]. destruct sat.
  - split; [|done]. intros _. pose proof (proj1 He eq_refl) as Hex. exists ranges. destruct ranges; [by apply Exists_nil in Hex|]. rewrite andb_false_r. done.
  - destruct (size =? 0) eqn:E0; [done|]. apply Z.eqb_neq in E0. split; [done|]. intros _. split; [lia|]. intros ranges'.
    destruct (no && _); [done|]. intros [= <-] Hex. by apply He in Hex.
Qed.

(** ** Witnesses *)

Definition anObject : FileInfo := mkInfo 10 1700000000000000000 true.
Definition replaced : FileInfo := mkInfo 10 1700000001000000000 true.
Definition sent (name value : string) : string -> string := fun n => if n =s name then value else "".

Lemma info_ok_samples : info_ok anObject /\ info_ok replaced.
Proof. unfold info_ok, in_int64, MinInt64, MaxInt64. simpl. lia. Qed.

Lemma evaluateConditions_generation_witness :
  evaluateConditions (fun _ => None) (sent "If-Match" (etagFor anObject)) readConditions anObject = conditionMet /\
  evaluateConditions (fun _ => None) (sent "If-None-Match" (etagFor anObject)) readConditions replaced = conditionMet.
Proof.
  destruct info_ok_samples as [H1 H2]. split.
  - exact (proj1 (evaluateConditions_generation (fun _ => None) (sent "If-Match" (etagFor anObject)) readConditions anObject anObject H1 H1) eq_refl eq_refl eq_refl).
  - exact (proj2 (evaluateConditions_generation (fun _ => None) (sent "If-None-Match" (etagFor anObject)) readConditions anObject replaced H1 H2) eq_refl eq_refl eq_refl).
Defined.

Lemma precondition_generation_witness :
  precondition (mkWriteConditions false (etagFor anObject)) (Ok anObject) = None /\
  precondition (mkWriteConditions true "") (Err statNotExist) = None.
Proof.
  destruct info_ok_samples as [H1 H2]. split.
  - apply (proj1 (precondition_generation (sent "If-Match" (etagFor anObject)) anObject (Ok anObject) (mkWriteConditions false (etagFor anObject)) H1
      ltac:(intros info [= <-]; exact H1) ltac:(vm_compute; reflexivity))); [reflexivity|reflexivity|]. exists anObject. done.
  - apply (proj2 (precondition_generation (sent "If-None-Match" "*") anObject (Err statNotExist) (mkWriteConditions true "") H1
      ltac:(intros info [=]) ltac:(vm_compute; reflexivity))); [reflexivity|reflexivity|]. left. by exists statNotExist.
Defined.

Lemma classifyRange_agrees_witness :
  exists ranges, parseRange "bytes=0-4, -3" 10 = Ok ranges /\ Forall (within 10) ranges /\ Exists selects ranges.
Proof.
  apply (proj1 (classifyRange_agrees "bytes=0-4, -3" 10 ltac:(lia) ltac:(vm_compute; reflexivity))). vm_compute. reflexivity.
Defined.
