(* ===== verification/Streaming.v ===== *)
(** * Streaming uploads

    internal/gateway/s3/streaming.go: the aws-chunked decoder, the signature chain over its
    chunks and the checks a request body passes before it counts as received. SHA-256, HMAC,
    the flexible checksums and base64 are parameters. The request body is the bytes still to
    come and what ends them; [rd_joined] tells whether its last bytes arrive together with the
    end, which a 4096-byte read buffer can tell apart. *)

From S2P Require Import Prelude GoStrings.

Definition chunkLineLimit : nat := 4096.
Definition maxTrailerLines : nat := 32.
Definition chunkSignatureAlgorithm : string := "AWS4-HMAC-SHA256-PAYLOAD".
Definition trailerSignatureAlgorithm : string := "AWS4-HMAC-SHA256-TRAILER".
Definition trailerSignatureHeader : string := "x-amz-trailer-signature".
Definition emptySHA256 : string := "e3b0c44298fc1c149afbf4c8996fb92427ae41e4649b934ca495991b7852b855".

Definition nl : ascii := Ascii.ascii_of_nat 10.
Definition cr : ascii := Ascii.ascii_of_nat 13.
Definition CRLF : string := String cr (str1 nl).

(** ** The buffered request body *)

Inductive bodyEnd := EndEOF | EndFault.
Record body := mkBody { rd_bytes : string; rd_end : bodyEnd; rd_joined : bool }.
Definition rd_set (s : string) (b : body) : body := mkBody s (rd_end b) (rd_joined b).

Fixpoint splitAt (n : nat) (s : string) : string * string :=
  match n, s with
  | S n, String c s => let '(a, b) := splitAt n s in (String c a, b)
  | _, _ => ("", s)
  end.

Inductive sliceError := SliceFull | SliceEnd (e : bodyEnd).

(** [bufio.Reader.ReadSlice]: the line, why it is not one, and the reader after it. *)
Definition ReadSlice (delim : ascii) (b : body) : string * option sliceError * body :=
  let s := rd_bytes b in
  let stuck :=
    if (String.length s <? chunkLineLimit)%nat || ((String.length s =? chunkLineLimit)%nat && rd_joined b)
    then (s, Some (SliceEnd (rd_end b)), rd_set "" b)
    else let '(line, rest) := splitAt chunkLineLimit s in (line, Some SliceFull, rd_set rest b) in
  match Cut s delim with
  | Some (before, after) =>
      if (String.length before <? chunkLineLimit)%nat then (before +:+ str1 delim, None, rd_set after b) else stuck
  | None => stuck
  end.

(** [io.ReadFull] for the two bytes behind a chunk. *)
Definition ReadFull2 (b : body) : option string * body :=
  match rd_bytes b with
  | String c0 (String c1 rest) => (Some (String c0 (str1 c1)), rd_set rest b)
  | _ => (None, rd_set "" b)
  end.

(** [strings.ToLower], as far as it decides equality with ASCII text: the two other letters
    whose lower case is ASCII are U+0130 and U+212A. *)
Fixpoint ToLower (s : string) : string :=
  match s with
  | "" => ""
  | String c0 s1 =>
      match s1 with
      | String c1 s2 =>
          if byte_in 196 196 c0 && byte_in 176 176 c1 then String "i" (ToLower s2)
          else match s2 with
               | String c2 s3 =>
                   if byte_in 226 226 c0 && byte_in 132 132 c1 && byte_in 170 170 c2 then String "k" (ToLower s3)
                   else String (lower_byte c0) (ToLower s1)
               | "" => String (lower_byte c0) (ToLower s1)
               end
      | "" => String (lower_byte c0) ""
      end
  end.

(** [func isHexSHA256(s string) bool] *)
Definition isHexSHA256 (s : string) : bool := (String.length s =? 64)%nat && all_bytes lower_hex s.

(** ** Failures *)

Inductive failure :=
  | EOF | errChunkEncoding | errChunkTruncated | errChunkSignature | errMalformedTrailer | errDecodedLength
  | errTrailerValue | errBadDigest | errBody.

#[export] Instance failure_eq_dec : EqDecision failure.
Proof. solve_decision. Defined.

(** [func truncation(err error) error] *)
Definition truncation (e : bodyEnd) : failure := match e with EndEOF => errChunkTruncated | EndFault => errBody end.

Section Streaming.
Context (sha256Hex : string -> string) (hmacHex : string -> string -> string).

(** ** The signature chain *)

Record chunkSigner := mkSigner { sg_key : string; sg_amzDate : string; sg_scope : string; sg_prev : string; sg_hashed : string }.

Definition stringToSign (s : chunkSigner) (prev algorithm digest : string) : string :=
  let sep := str1 nl in algorithm +:+ sep +:+ sg_amzDate s +:+ sep +:+ sg_scope s +:+ sep +:+ prev +:+ sep +:+ digest.

(** [func (s *chunkSigner) verify(sig, algorithm, digest string) bool] *)
Definition verify (sig algorithm digest : string) (s : chunkSigner) : bool * chunkSigner :=
  let want := hmacHex (sg_key s) (stringToSign s (sg_prev s) algorithm digest) in
  if want =s sig then (true, mkSigner (sg_key s) (sg_amzDate s) (sg_scope s) sig "")
  else (false, mkSigner (sg_key s) (sg_amzDate s) (sg_scope s) (sg_prev s) "").

(** [func (s *chunkSigner) verifyChunk(sig string) bool] *)
Definition verifyChunk (sig : string) (s : chunkSigner) : bool * chunkSigner :=
  verify sig chunkSignatureAlgorithm (emptySHA256 +:+ str1 nl +:+ sha256Hex (sg_hashed s)) s.

(** [func (s *chunkSigner) verifyTrailer(canonical, sig string) bool] *)
Definition verifyTrailer (canonical sig : string) (s : chunkSigner) : bool * chunkSigner :=
  verify sig trailerSignatureAlgorithm (sha256Hex canonical) s.

(** ** The decoder *)

Record chunkReader := mkReader {
  cr_src : body; cr_signed : bool; cr_signer : option chunkSigner; cr_trailing : bool; cr_declared : string; cr_emptyOK : bool;
  cr_started : bool; cr_left : Z; cr_open : bool; cr_sig : string; cr_trailers : list (string * string); cr_err : option failure
}.

Definition cr_set_src (b : body) (c : chunkReader) : chunkReader :=
  mkReader b (cr_signed c) (cr_signer c) (cr_trailing c) (cr_declared c) (cr_emptyOK c) (cr_started c) (cr_left c) (cr_open c) (cr_sig c) (cr_trailers c) (cr_err c).
Definition cr_set_signer (s : option chunkSigner) (c : chunkReader) : chunkReader :=
  mkReader (cr_src c) (cr_signed c) s (cr_trailing c) (cr_declared c) (cr_emptyOK c) (cr_started c) (cr_left c) (cr_open c) (cr_sig c) (cr_trailers c) (cr_err c).
Definition cr_set_open (started open' : bool) (left' : Z) (sig : string) (c : chunkReader) : chunkReader :=
  mkReader (cr_src c) (cr_signed c) (cr_signer c) (cr_trailing c) (cr_declared c) (cr_emptyOK c) started left' open' sig (cr_trailers c) (cr_err c).
Definition cr_set_trailers (t : list (string * string)) (c : chunkReader) : chunkReader :=
  mkReader (cr_src c) (cr_signed c) (cr_signer c) (cr_trailing c) (cr_declared c) (cr_emptyOK c) (cr_started c) (cr_left c) (cr_open c) (cr_sig c) t (cr_err c).
Definition cr_set_err (e : option failure) (c : chunkReader) : chunkReader :=
  mkReader (cr_src c) (cr_signed c) (cr_signer c) (cr_trailing c) (cr_declared c) (cr_emptyOK c) (cr_started c) (cr_left c) (cr_open c) (cr_sig c) (cr_trailers c) e.

(** [c.signer != nil && !c.signer.verifyChunk(c.sig)]: true when the chunk may pass. *)
Definition checkChunk (c : chunkReader) : bool * chunkReader :=
  match cr_signer c with
  | None => (true, c)
  | Some s => let '(ok, s) := verifyChunk (cr_sig c) s in (ok, cr_set_signer (Some s) c)
  end.

(** The same for [!c.signer.verifyTrailer(canonical, value)]. *)
Definition checkTrailer (canonical value : string) (c : chunkReader) : bool * chunkReader :=
  match cr_signer c with
  | None => (true, c)
  | Some s => let '(ok, s) := verifyTrailer canonical value s in (ok, cr_set_signer (Some s) c)
  end.

(** [strings.Cut]: the whole text when the separator is absent. *)
Definition cutAll (s : string) (sep : ascii) : string * string * bool :=
  match Cut s sep with Some (a, b) => (a, b, true) | None => (s, "", false) end.

Definition hasTrailer (name : string) (c : chunkReader) : bool := existsb (fun p => fst p =s name) (cr_trailers c).

(** One line of the trailer section; [continue] goes on with what the signature covers so
    far and whether it was seen. *)
Definition trailer_line (continue : string -> bool -> chunkReader -> failure * chunkReader)
    (line canonical : string) (signed : bool) (c : chunkReader) : failure * chunkReader :=
  let text := TrimSpace line in
  if text =s "" then continue canonical signed c
  else
    let '(name, value, ok) := cutAll text ":" in
    let name := ToLower (TrimSpace name) in
    let value := TrimSpace value in
    if negb ok || (name =s "") || signed then (errMalformedTrailer, c)
    else if name =s trailerSignatureHeader then
      if negb (cr_signed c) || negb (cr_trailing c) then (errMalformedTrailer, c)
      else if negb (isHexSHA256 value) then (errChunkSignature, c)
      else let '(good, c) := checkTrailer canonical value c in
           if good then continue canonical true c else (errChunkSignature, c)
    else if negb (name =s cr_declared c) then (errMalformedTrailer, c)
    else if hasTrailer name c then (errMalformedTrailer, c)
    else continue (canonical +:+ name +:+ ":" +:+ value +:+ str1 nl) signed (cr_set_trailers (cr_trailers c ++ [(name, value)]) c).

(** The loop of [func (c *chunkReader) readTrailers() error]: [turns] lines may still come. *)
Fixpoint trailer_loop (turns : nat) (canonical : string) (signed : bool) (c : chunkReader) : failure * chunkReader :=
  match turns with
  | O => (errMalformedTrailer, c)
  | S turns =>
      let '(line, err, src) := ReadSlice nl (cr_src c) in
      let c := cr_set_src src c in
      match err with
      | Some SliceFull => (errMalformedTrailer, c)
      | Some (SliceEnd EndFault) => (errBody, c)
      | _ =>
          trailer_line (fun canonical signed c =>
            match err with
            | None => trailer_loop turns canonical signed c
            | Some _ => if cr_signed c && cr_trailing c && negb signed then (errMalformedTrailer, c) else (EOF, c)
            end) line canonical signed c
      end
  end.
Definition readTrailers (c : chunkReader) : failure * chunkReader := trailer_loop maxTrailerLines "" false (cr_set_trailers [] c).

(** The chunk header: its size, and what follows the semicolon. *)
Definition chunkSize (line : string) : option (Z * string) :=
  let '(size, ext, _) := cutAll (TrimSuffix (TrimSuffix line (str1 nl)) (str1 cr)) ";" in
  if (String.length size =? 0)%nat || (16 <? String.length size)%nat || negb (all_bytes any_hex size) then None
  else let n := hex_acc 0 size in if n <? 2 ^ 63 then Some (n, ext) else None.

(** The first half of [next]: the bytes behind a chunk's data and its signature. *)
Definition closeChunk (c : chunkReader) : option failure * chunkReader :=
  if negb (cr_open c) then (None, c)
  else
    let '(crlf, src) := ReadFull2 (cr_src c) in
    let c := cr_set_src src c in
    match crlf with
    | None => (Some (truncation (rd_end (cr_src c))), c)
    | Some crlf =>
        if negb (crlf =s CRLF) then (Some errChunkEncoding, c)
        else let '(ok, c) := checkChunk c in
             if ok then (None, cr_set_open (cr_started c) false (cr_left c) (cr_sig c) c) else (Some errChunkSignature, c)
    end.

(** Its second half: the header of the next chunk, or the end. *)
Definition openChunk (c : chunkReader) : option failure * chunkReader :=
  let '(line, err, src) := ReadSlice nl (cr_src c) in
  let c := cr_set_src src c in
  match err with
  | Some SliceFull => (Some errChunkEncoding, c)
  | Some (SliceEnd e) =>
      if negb (cr_started c) && (String.length line =? 0)%nat && (match e with EndEOF => true | EndFault => false end) && cr_emptyOK c
      then (Some EOF, cr_set_trailers [] c)
      else (Some (truncation e), c)
  | None =>
      let c := cr_set_open true (cr_open c) (cr_left c) (cr_sig c) c in
      match chunkSize line with
      | None => (Some errChunkEncoding, c)
      | Some (n, ext) =>
          let '(name, sig, _) := cutAll ext "=" in
          if cr_signed c && (negb (name =s "chunk-signature") || negb (isHexSHA256 sig)) then (Some errChunkSignature, c)
          else
            let c := if cr_signed c then cr_set_open (cr_started c) (cr_open c) (cr_left c) sig c else c in
            if n =? 0 then
              let '(ok, c) := checkChunk c in
              if ok then let '(e, c) := readTrailers c in (Some e, c) else (Some errChunkSignature, c)
            else (None, cr_set_open (cr_started c) true n (cr_sig c) c)
      end
  end.

(** [func (c *chunkReader) next() error] *)
Definition next (c : chunkReader) : option failure * chunkReader :=
  let '(e, c) := closeChunk c in
  match e with Some e => (Some e, c) | None => openChunk c end.

Definition hashChunk (data : string) (c : chunkReader) : chunkReader :=
  match cr_signer c with
  | None => c
  | Some s => cr_set_signer (Some (mkSigner (sg_key s) (sg_amzDate s) (sg_scope s) (sg_prev s) (sg_hashed s +:+ data))) c
  end.

(** The second half of [Read]: bytes of the open chunk, at most [want]. *)
Definition readOpen (want : nat) (c : chunkReader) : string * option failure * chunkReader :=
  let '(data, rest) := splitAt (Z.to_nat (Z.min (cr_left c) (Z.of_nat want))) (rd_bytes (cr_src c)) in
  let c := hashChunk data (cr_set_open (cr_started c) (cr_open c) (cr_left c - slen data) (cr_sig c) (cr_set_src (rd_set rest (cr_src c)) c)) in
  if data =s "" then let e := truncation (rd_end (cr_src c)) in ("", Some e, cr_set_err (Some e) c)
  else (data, None, c).

(** [func (c *chunkReader) Read(p []byte) (int, error)]: at most [want] bytes, the lesser of
    len(p) and what the buffer yields at once. *)
Definition Read (want : nat) (c : chunkReader) : string * option failure * chunkReader :=
  match cr_err c with
  | Some e => ("", Some e, c)
  | None =>
      if (want =? 0)%nat then ("", None, c)
      else
        let '(e, c) := if cr_left c =? 0 then next c else (None, c) in
        match e with
        | Some e => ("", Some e, cr_set_err (Some e) c)
        | None => readOpen want c
        end
  end.

(** ** The payload *)

Context (digest : string -> string -> string) (digestSize : string -> nat) (base64Decode : string -> option string).

Record checksum := mkChecksum { ck_name : string; ck_hashed : string; ck_want : option string; ck_trailing : bool }.

(** [func (c *checksum) decode(value string) ([]byte, bool)] *)
Definition decode (c : checksum) (value : string) : option string :=
  match base64Decode (TrimSpace value) with
  | Some want => if (String.length want =? digestSize (ck_name c))%nat then Some want else None
  | None => None
  end.

(** What the payload reads from: the body itself, or the decoder over it. *)
Inductive source := Plain (b : body) | Chunked (c : chunkReader).

Record payload := mkPayload { pl_src : source; pl_length : Z; pl_n : Z; pl_sum : option checksum; pl_err : option failure }.

Definition source_read (want : nat) (s : source) : string * option failure * source :=
  match s with
  | Plain b =>
      if (want =? 0)%nat then ("", None, s)
      else let '(data, rest) := splitAt want (rd_bytes b) in
           if data =s "" then ("", Some (match rd_end b with EndEOF => EOF | EndFault => errBody end), s)
           else (data, None, Plain (rd_set rest b))
  | Chunked c => let '(data, e, c) := Read want c in (data, e, Chunked c)
  end.

Definition trailersOf (s : source) : list (string * string) := match s with Plain _ => [] | Chunked c => cr_trailers c end.

Definition lookupTrailer (name : string) (l : list (string * string)) : option string :=
  match find (fun p => fst p =s name) l with Some (_, v) => Some v | None => None end.

(** [func (p *payload) finish() error] *)
Definition finish (p : payload) : failure * payload :=
  if (0 <=? pl_length p) && negb (pl_n p =? pl_length p) then (errDecodedLength, p)
  else match pl_sum p with
  | None => (EOF, p)
  | Some sum =>
      let check (sum : checksum) :=
        let p := mkPayload (pl_src p) (pl_length p) (pl_n p) (Some sum) (pl_err p) in
        if negb (match ck_want sum with Some want => digest (ck_name sum) (ck_hashed sum) =s want | None => false end)
        then (errBadDigest, p) else (EOF, p) in
      if ck_trailing sum then
        match lookupTrailer (ck_name sum) (trailersOf (pl_src p)) with
        | None => (errMalformedTrailer, p)
        | Some value =>
            match decode sum value with
            | None => (errTrailerValue, p)
            | Some want => check (mkChecksum (ck_name sum) (ck_hashed sum) (Some want) (ck_trailing sum))
            end
        end
      else check sum
  end.

(** [func (p *payload) Read(b []byte) (int, error)] *)
Definition payload_Read (want : nat) (p : payload) : string * option failure * payload :=
  match pl_err p with
  | Some e => ("", Some e, p)
  | None =>
      let '(data, err, src) := source_read want (pl_src p) in
      let n := pl_n p + slen data in
      let p := mkPayload src (pl_length p) n (pl_sum p) None in
      if (0 <=? pl_length p) && (pl_length p <? n) then ("", Some errDecodedLength, mkPayload src (pl_length p) n (pl_sum p) (Some errDecodedLength))
      else
        let p := mkPayload src (pl_length p) n
          (match pl_sum p with Some s => Some (mkChecksum (ck_name s) (ck_hashed s +:+ data) (ck_want s) (ck_trailing s)) | None => None end) None in
        let '(err, p) := match err with Some EOF => let '(e, p) := finish p in (Some e, p) | e => (e, p) end in
        (data, err, mkPayload (pl_src p) (pl_length p) (pl_n p) (pl_sum p) err)
  end.

(** The handler's copy of the body to a scratch file: it reads, [reads] bytes at most each
    time, until an error. [None] means it has not seen the end yet. *)
Fixpoint copy (reads : list nat) (p : payload) : string * option failure * payload :=
  match reads with
  | [] => ("", None, p)
  | want :: reads =>
      let '(data, err, p) := payload_Read want p in
      match err with
      | Some e => (data, Some e, p)
      | None => let '(more, err, p) := copy reads p in (data +:+ more, err, p)
      end
  end.
End Streaming.

(** ** Facts about the body *)

Lemma splitAt_app n s : forall a b, splitAt n s = (a, b) -> s = a +:+ b.
Proof.
  revert s. induction n as [|n IH]; intros [|c s] a b; simpl; try (intros [= <- <-]; done).
  destruct (splitAt n s) as [x y] eqn:E. intros [= <- <-]. simpl. by rewrite (IH _ _ _ E).
Qed.

Lemma splitAt_length n s : forall a b, splitAt n s = (a, b) -> String.length a = Nat.min n (String.length s).
Proof.
  revert s. induction n as [|n IH]; intros [|c s] a b; simpl; try (intros [= <- <-]; done).
  destruct (splitAt n s) as [x y] eqn:E. intros [= <- <-]. simpl. by rewrite (IH _ _ _ E).
Qed.

Lemma splitAt_prefix n s t : forall a b, splitAt n s = (a, b) -> (n <= String.length s)%nat -> splitAt n (s +:+ t) = (a, b +:+ t).
Proof.
  revert s. induction n as [|n IH]; intros [|c s] a b; simpl; try (intros [= <- <-] Hn; done || lia).
  destruct (splitAt n s) as [x y] eqn:E. intros [= <- <-] Hn. by rewrite (IH s x y E) by lia.
Qed.

Lemma ReadSlice_bytes delim b line e b' :
  ReadSlice delim b = (line, e, b') -> rd_bytes b = line +:+ rd_bytes b' /\ rd_end b' = rd_end b /\ rd_joined b' = rd_joined b.
Proof.
  unfold ReadSlice.
  assert (forall x : string * option sliceError * body,
    x = (if (String.length (rd_bytes b) <? chunkLineLimit)%nat || ((String.length (rd_bytes b) =? chunkLineLimit)%nat && rd_joined b)
         then (rd_bytes b, Some (SliceEnd (rd_end b)), rd_set "" b)
         else let '(line, rest) := splitAt chunkLineLimit (rd_bytes b) in (line, Some SliceFull, rd_set rest b)) ->
    x = (line, e, b') -> rd_bytes b = line +:+ rd_bytes b' /\ rd_end b' = rd_end b /\ rd_joined b' = rd_joined b) as Hstuck.
  { intros x ->. destruct (_ || _); [intros [= <- <- <-]; simpl; by rewrite string_app_nil_r|].
    destruct (splitAt chunkLineLimit (rd_bytes b)) as [l r] eqn:E. intros [= <- <- <-]. by rewrite (splitAt_app _ _ _ _ E). }
  pose proof (Cut_spec (rd_bytes b) delim) as Hc. destruct (Cut (rd_bytes b) delim) as [[before after]|]; [|by apply Hstuck].
  destruct (String.length before <? chunkLineLimit)%nat; [|by apply Hstuck]. destruct Hc as [Hb _].
  intros [= <- <- <-]. rewrite Hb, string_app_assoc. done.
Qed.

Lemma ReadSlice_end delim b line e b' : ReadSlice delim b = (line, Some (SliceEnd e), b') -> rd_bytes b' = "" /\ e = rd_end b.
Proof.
  unfold ReadSlice. destruct (Cut (rd_bytes b) delim) as [[before after]|]; [destruct (_ <? _)%nat; [done|]|].
  all: destruct (_ || _); [intros [= <- <- <-]; done|]; by destruct (splitAt chunkLineLimit (rd_bytes b)).
Qed.

(** A line shorter than the buffer, with its newline, is read whole. *)
Lemma ReadSlice_line line rest e j :
  ContainsByte line nl = false -> (String.length line < chunkLineLimit)%nat ->
  ReadSlice nl (mkBody (line +:+ String nl rest) e j) = (line +:+ str1 nl, None, mkBody rest e j).
Proof.
  intros Hl Hn. unfold ReadSlice. cbn [rd_bytes]. rewrite Cut_app by done. by rewrite (proj2 (Nat.ltb_lt _ _)) by done.
Qed.

Lemma ReadFull2_bytes b crlf b' : ReadFull2 b = (Some crlf, b') -> rd_bytes b = crlf +:+ rd_bytes b'.
Proof. unfold ReadFull2. destruct (rd_bytes b) as [|c0 [|c1 rest]] eqn:E; [done|done|]. intros [= <- <-]. done. Qed.

Lemma hex_acc_nonneg acc s : 0 <= acc -> all_bytes any_hex s = true -> 0 <= hex_acc acc s.
Proof.
  revert acc. induction s as [|c s IH]; intros acc Ha Hs; [done|]. cbn [all_bytes hex_acc] in *. apply andb_true_iff in Hs as [Hc Hs].
  apply IH; [|done]. unfold any_hex, lower_hex, is_digit, byte_in in Hc. unfold hex_digit_val, is_digit, byte_in.
  destruct ((48 <=? byte_val c) && (byte_val c <=? 57)) eqn:E1; [apply andb_true_iff in E1 as [E1 _]; apply Z.leb_le in E1; lia|].
  destruct ((97 <=? byte_val c) && (byte_val c <=? 102)) eqn:E2; [apply andb_true_iff in E2 as [E2 _]; apply Z.leb_le in E2; lia|].
  cbn [orb] in Hc. apply andb_true_iff in Hc as [Hc _]. apply Z.leb_le in Hc. lia.
Qed.

Lemma chunkSize_nonneg line n ext : chunkSize line = Some (n, ext) -> 0 <= n.
Proof.
  unfold chunkSize. destruct (cutAll _ ";") as [[size ext'] b]. destruct (_ || _ || negb (all_bytes any_hex size)) eqn:E; [done|].
  apply orb_false_iff in E as [_ E]. apply negb_false_iff in E. destruct (_ <? _); [|done]. intros [= <- _]. by apply hex_acc_nonneg.
Qed.

(** ** Soundness of the decoder *)

Section Sound.
Context (sha256Hex : string -> string) (hmacHex : string -> string -> string).
Context (s0 : chunkSigner) (c0 : chunkReader).

(** What the signature of a chunk, and of the trailers, must be. *)
Definition chunkMac (prev data : string) : string :=
  hmacHex (sg_key s0) (stringToSign s0 prev chunkSignatureAlgorithm (emptySHA256 +:+ str1 nl +:+ sha256Hex data)).
Definition trailerMac (prev canonical : string) : string :=
  hmacHex (sg_key s0) (stringToSign s0 prev trailerSignatureAlgorithm (sha256Hex canonical)).

(** A chunk on the wire: its header line, the signature in it, its data. *)
Record frame := mkFrame { fr_line : string; fr_sig : string; fr_data : string }.

(** The header line announces a chunk of [n] bytes signed [sig]. *)
Definition announces (line : string) (n : Z) (sig : string) : Prop :=
  exists ext, chunkSize line = Some (n, ext) /\ (cutAll ext "=").1 = ("chunk-signature", sig) /\ isHexSHA256 sig = true.

Fixpoint wire (l : list frame) : string :=
  match l with [] => "" | f :: l => fr_line f +:+ fr_data f +:+ CRLF +:+ wire l end.
Fixpoint contents (l : list frame) : string :=
  match l with [] => "" | f :: l => fr_data f +:+ contents l end.
Fixpoint lastSig (prev : string) (l : list frame) : string :=
  match l with [] => prev | f :: l => lastSig (fr_sig f) l end.

(** Every chunk is announced with its size and carries the signature chained from [prev]. *)
Fixpoint chained (prev : string) (l : list frame) : Prop :=
  match l with
  | [] => True
  | f :: l => announces (fr_line f) (slen (fr_data f)) (fr_sig f) /\ fr_sig f = chunkMac prev (fr_data f) /\ chained (fr_sig f) l
  end.

Lemma wire_snoc l f : wire (l ++ [f]) = wire l +:+ fr_line f +:+ fr_data f +:+ CRLF.
Proof. induction l as [|g l IH]; simpl; [done|]. rewrite IH, !string_app_assoc. done. Qed.
Lemma contents_snoc l f : contents (l ++ [f]) = contents l +:+ fr_data f.
Proof. induction l as [|g l IH]; simpl; [by rewrite string_app_nil_r|]. by rewrite IH, string_app_assoc. Qed.
Lemma lastSig_snoc prev l f : lastSig prev (l ++ [f]) = fr_sig f.
Proof. revert prev. induction l as [|g l IH]; intros prev; simpl; [done|apply IH]. Qed.
Lemma chained_snoc prev l f :
  chained prev l -> announces (fr_line f) (slen (fr_data f)) (fr_sig f) -> fr_sig f = chunkMac (lastSig prev l) (fr_data f) -> chained prev (l ++ [f]).
Proof. revert prev. induction l as [|g l IH]; intros prev; simpl; [done|]. intros (H1 & H2 & H3) Ha Hs. auto. Qed.

(** The bytes the whole body held, and the settings, which never change. *)
Definition wholeBody : string := rd_bytes (cr_src c0).
Definition settings (c : chunkReader) : Prop :=
  cr_signed c = true /\ cr_trailing c = cr_trailing c0 /\ cr_declared c = cr_declared c0 /\ cr_emptyOK c = cr_emptyOK c0.
Definition sameKey (s : chunkSigner) : Prop := sg_key s = sg_key s0 /\ sg_amzDate s = sg_amzDate s0 /\ sg_scope s = sg_scope s0.

(** Between chunks, after [out] was handed on. *)
Record between (out : string) (c : chunkReader) : Prop := {
  bt_settings : settings c;
  bt_err : cr_err c = None;
  bt_left : cr_left c = 0;
  bt_open : cr_open c = false;
  bt_state : exists l s, cr_signer c = Some s /\ sameKey s /\ sg_hashed s = "" /\ sg_prev s = lastSig (sg_prev s0) l /\
    chained (sg_prev s0) l /\ out = contents l /\ wholeBody = wire l +:+ rd_bytes (cr_src c) /\ (cr_started c = false -> l = [])
}.

(** Inside a chunk. *)
Record inside (out : string) (c : chunkReader) : Prop := {
  in_settings : settings c;
  in_err : cr_err c = None;
  in_left : 0 <= cr_left c;
  in_open : cr_open c = true;
  in_started : cr_started c = true;
  in_state : exists l s line, cr_signer c = Some s /\ sameKey s /\ sg_prev s = lastSig (sg_prev s0) l /\
    chained (sg_prev s0) l /\ out = contents l +:+ sg_hashed s /\ announces line (cr_left c + slen (sg_hashed s)) (cr_sig c) /\
    wholeBody = wire l +:+ line +:+ sg_hashed s +:+ rd_bytes (cr_src c)
}.

(** What EOF means: the body is the chained chunks, a last chunk of size zero whose signature
    continues the chain, and trailers that are signed when the payload has them; or it was
    empty where that stands for an empty payload. *)
Fixpoint canon (l : list (string * string)) : string :=
  match l with [] => "" | (name, value) :: l => name +:+ ":" +:+ value +:+ str1 nl +:+ canon l end.
Definition signedTrailers (prev rest : string) (trailers : list (string * string)) : Prop :=
  exists pre line post name value, rest = pre +:+ line +:+ post /\ cutAll (TrimSpace line) ":" = (name, value, true) /\
    ToLower (TrimSpace name) = trailerSignatureHeader /\ TrimSpace value = trailerMac prev (canon trailers).
Definition accepted (out : string) (trailers : list (string * string)) : Prop :=
  (cr_emptyOK c0 = true /\ wholeBody = "" /\ out = "") \/
  exists l line sig rest, chained (sg_prev s0) l /\ out = contents l /\ wholeBody = wire l +:+ line +:+ rest /\
    announces line 0 sig /\ sig = chunkMac (lastSig (sg_prev s0) l) "" /\
    (cr_trailing c0 = true -> signedTrailers sig rest trailers).

Lemma stringToSign_same s prev a d : sameKey s -> stringToSign s prev a d = stringToSign s0 prev a d.
Proof. intros (_ & H2 & H3). unfold stringToSign. by rewrite H2, H3. Qed.

Lemma verify_true sig a d s s' : sameKey s -> verify hmacHex sig a d s = (true, s') ->
  sig = hmacHex (sg_key s0) (stringToSign s0 (sg_prev s) a d) /\ sameKey s' /\ sg_prev s' = sig /\ sg_hashed s' = "".
Proof.
  intros Hk. unfold verify. destruct (_ =s sig) eqn:E; [|done]. apply String.eqb_eq in E. intros [= <-].
  rewrite (stringToSign_same s) in E by done. destruct Hk as (H1 & H2 & H3). rewrite H1 in E. done.
Qed.

Lemma checkChunk_true c s c' : cr_signer c = Some s -> sameKey s -> checkChunk sha256Hex hmacHex c = (true, c') ->
  exists s', c' = cr_set_signer (Some s') c /\ cr_sig c = chunkMac (sg_prev s) (sg_hashed s) /\ sameKey s' /\ sg_prev s' = cr_sig c /\ sg_hashed s' = "".
Proof.
  intros Hs Hk. unfold checkChunk. rewrite Hs. destruct (verifyChunk sha256Hex hmacHex (cr_sig c) s) as [ok s'] eqn:E. intros [= -> <-].
  apply verify_true in E as (H1 & H2 & H3 & H4); [|done]. by exists s'.
Qed.

Lemma closeChunk_sound out c c' : inside out c -> cr_left c = 0 -> closeChunk sha256Hex hmacHex c = (None, c') -> between out c'.
Proof.
  intros [Hset Herr Hl Ho Hst (l & s & line & Hs & Hk & Hp & Hch & Hout & Ha & Hb)] Hl0. unfold closeChunk. rewrite Ho. cbn [negb].
  destruct (ReadFull2 (cr_src c)) as [[crlf|] src] eqn:Er; [|done]. apply ReadFull2_bytes in Er.
  destruct (crlf =s CRLF) eqn:Ec; [|done]. apply String.eqb_eq in Ec as ->. cbn [negb].
  destruct (checkChunk sha256Hex hmacHex (cr_set_src src c)) as [[] c1] eqn:Ek; [|done]. intros [= <-].
  destruct (checkChunk_true (cr_set_src src c) s c1 Hs Hk Ek) as (s' & -> & Hsig & Hk' & Hp' & Hh'). cbn [cr_sig cr_set_src] in Hsig, Hp'.
  split; try done. exists (l ++ [mkFrame line (cr_sig c) (sg_hashed s)]), s'.
  rewrite wire_snoc, contents_snoc, lastSig_snoc. cbn [fr_line fr_sig fr_data]. rewrite Hl0 in Ha.
  split_and!; try done.
  - apply chained_snoc; [done|done|]. cbn [fr_sig fr_data]. by rewrite Hsig, Hp.
  - rewrite Hb, Er, !string_app_assoc. done.
  - cbn. by rewrite Hst.
Qed.

Lemma canon_snoc l n v : canon (l ++ [(n, v)]) = canon l +:+ n +:+ ":" +:+ v +:+ str1 nl.
Proof. induction l as [|[n' v'] l IH]; [done|]. cbn [canon app]. rewrite IH, !string_app_assoc. done. Qed.

Lemma trailer_line_sound (k : string -> bool -> chunkReader -> failure * chunkReader) s line canonical signed c c' body' :
  sameKey s -> (signed = false -> cr_signer c = Some s) -> cr_signed c = true -> cr_trailing c = true -> canonical = canon (cr_trailers c) ->
  body' = line +:+ rd_bytes (cr_src c) ->
  (forall canonical' signed' c2, cr_src c2 = cr_src c -> cr_signed c2 = true -> cr_trailing c2 = true -> canonical' = canon (cr_trailers c2) ->
    (signed' = false -> cr_signer c2 = Some s) -> k canonical' signed' c2 = (EOF, c') ->
    (signed' = true -> cr_trailers c' = cr_trailers c2) /\ (signed' = false -> signedTrailers (sg_prev s) body' (cr_trailers c'))) ->
  trailer_line sha256Hex hmacHex k line canonical signed c = (EOF, c') ->
  (signed = true -> cr_trailers c' = cr_trailers c) /\ (signed = false -> signedTrailers (sg_prev s) body' (cr_trailers c')).
Proof.
  intros Hk Hs Hsig Htr Hcan Hb Hcont. unfold trailer_line. destruct (TrimSpace line =s ""); [by apply Hcont|].
  destruct (cutAll (TrimSpace line) ":") as [[name value] ok] eqn:Ecut.
  destruct (negb ok || (ToLower (TrimSpace name) =s "") || signed) eqn:Eg; [done|].
  apply orb_false_iff in Eg as [Eg ->]. apply orb_false_iff in Eg as [Eok _]. apply negb_false_iff in Eok as ->.
  destruct (ToLower (TrimSpace name) =s trailerSignatureHeader) eqn:En.
  - rewrite Hsig, Htr. cbn [negb orb]. destruct (isHexSHA256 (TrimSpace value)); [|done]. cbn [negb]. unfold checkTrailer. rewrite (Hs eq_refl).
    destruct (verifyTrailer sha256Hex hmacHex canonical (TrimSpace value) s) as [[] s'] eqn:Ev; [|done]. apply verify_true in Ev as (Ev & _); [|done].
    intros H. apply Hcont in H as [Ht _]; [|done..]. split; [done|]. intros _. rewrite (Ht eq_refl).
    apply String.eqb_eq in En. exists "", line, (rd_bytes (cr_src c)), name, value. cbn [cr_trailers cr_set_signer]. rewrite <- Hcan. done.
  - destruct (_ =s cr_declared c); [|done]. cbn [negb]. destruct (hasTrailer _ c); [done|].
    intros H. apply Hcont in H; [|done|done|done|by cbn [cr_trailers cr_set_trailers]; rewrite canon_snoc, Hcan|done]. split; [done|apply H].
Qed.

(** Reading trailers to the end of a signed payload that has them means their signature was
    seen and covers them. *)
Lemma trailer_loop_sound s turns canonical signed c c' :
  sameKey s -> (signed = false -> cr_signer c = Some s) -> cr_signed c = true -> cr_trailing c = true -> canonical = canon (cr_trailers c) ->
  trailer_loop sha256Hex hmacHex turns canonical signed c = (EOF, c') ->
  (signed = true -> cr_trailers c' = cr_trailers c) /\
  (signed = false -> signedTrailers (sg_prev s) (rd_bytes (cr_src c)) (cr_trailers c')).
Proof.
  intros Hk. revert canonical signed c. induction turns as [|turns IH]; intros canonical signed c Hs Hsig Htr Hcan; [done|].
  cbn [trailer_loop]. destruct (ReadSlice nl (cr_src c)) as [[line err] src] eqn:Er. apply ReadSlice_bytes in Er as (Er & _ & _).
  assert (trailer_line sha256Hex hmacHex (fun canonical signed c =>
            match err with
            | None => trailer_loop sha256Hex hmacHex turns canonical signed c
            | Some _ => if cr_signed c && cr_trailing c && negb signed then (errMalformedTrailer, c) else (EOF, c)
            end) line canonical signed (cr_set_src src c) = (EOF, c') ->
    (signed = true -> cr_trailers c' = cr_trailers c) /\ (signed = false -> signedTrailers (sg_prev s) (rd_bytes (cr_src c)) (cr_trailers c'))) as H.
  { apply (trailer_line_sound _ s line canonical signed (cr_set_src src c)); try done. intros canonical' signed' c2 S1 S2 S3 S4 S5. destruct err as [e|].
    - rewrite S2, S3. destruct signed'; [|done]. intros [= ->]. done.
    - intros H. destruct (IH _ _ _ S5 S2 S3 S4 H) as [I1 I2]. split; [done|]. intros E. destruct (I2 E) as (pre & ln & post & n & v & J1 & J2).
      exists (line +:+ pre), ln, post, n, v. split; [|done]. rewrite Er. cbn [cr_src cr_set_src] in S1. rewrite <- S1, J1, !string_app_assoc. done. }
  by destruct err as [[|[]]|].
Qed.

Lemma openChunk_sound out c e c' : between out c -> openChunk sha256Hex hmacHex c = (e, c') ->
  match e with
  | None => inside out c' /\ 0 < cr_left c'
  | Some EOF => accepted out (cr_trailers c')
  | Some _ => True
  end.
Proof.
  intros [Hset Herr Hl Ho (l & s & Hs & Hk & Hh & Hp & Hch & Hout & Hb & Hst)]. unfold openChunk.
  destruct (ReadSlice nl (cr_src c)) as [[line err] src] eqn:Er. pose proof (ReadSlice_bytes _ _ _ _ _ Er) as (Hsrc & _).
  destruct err as [[|e']|].
  { by intros [= <- <-]. }
  { destruct (ReadSlice_end _ _ _ _ _ Er) as [He _]. cbn [cr_started cr_set_src cr_emptyOK].
    destruct (negb (cr_started c) && (String.length line =? 0)%nat && (match e' with EndEOF => true | EndFault => false end) && cr_emptyOK c) eqn:Eg; intros [= <- <-];
      [|by destruct e']. repeat rewrite andb_true_iff in Eg. destruct Eg as [[[E1 E2] E3] E4]. apply negb_true_iff in E1. apply Nat.eqb_eq in E2.
    left. destruct Hset as (_ & _ & _ & Hemp). rewrite <- Hemp. split; [done|]. rewrite (Hst E1) in *. split; [|done].
    rewrite Hb, Hsrc, He. by destruct line. }
  destruct (chunkSize line) as [[n ext]|] eqn:Es; [|by intros [= <- <-]].
  destruct (cutAll ext "=") as [[name sig] b] eqn:Ec. destruct Hset as (Hsgn & Htr & Hdecl & Hemp). change (cr_signed (cr_set_open _ _ _ _ _)) with (cr_signed c). rewrite Hsgn. cbn [andb].
  destruct (negb (name =s "chunk-signature") || negb (isHexSHA256 sig)) eqn:Eg; [by intros [= <- <-]|].
  apply orb_false_iff in Eg as [En Ex]. apply negb_false_iff in En, Ex. apply String.eqb_eq in En as ->.
  assert (announces line n sig) as Ha by (exists ext; by rewrite Ec).
  set (c1 := cr_set_open _ _ _ sig _). destruct (n =? 0) eqn:E0.
  - apply Z.eqb_eq in E0 as ->. destruct (checkChunk sha256Hex hmacHex c1) as [[] c2] eqn:Ek; [|by intros [= <- <-]].
    destruct (checkChunk_true c1 s c2 Hs Hk Ek) as (s' & -> & Hsig & Hk' & Hp' & _). change (cr_sig c1) with sig in Hsig, Hp'.
    unfold readTrailers. destruct (trailer_loop _ _ _ _ _ _) as [e' c3] eqn:Et. intros [= <- <-]. destruct e'; try done.
    right. exists l, line, sig, (rd_bytes src). split_and!; try done.
    + by rewrite Hb, Hsrc.
    + by rewrite Hsig, Hh, Hp.
    + intros Htr0. rewrite <- Hp'. eapply (trailer_loop_sound s') in Et as [_ Et]; [by apply Et|done|done|done|by cbn; rewrite Htr|done].
  - apply Z.eqb_neq in E0. intros [= <- <-].
    pose proof (chunkSize_nonneg _ _ _ Es) as Hn. cbn [cr_left cr_set_open]. split; [|lia]. split; [by split_and!|done|exact Hn|done|done|].
    exists l, s, line. cbn [cr_signer cr_set_open cr_left cr_sig cr_src c1]. rewrite Hh, string_app_nil_r. change (slen "") with 0. rewrite Z.add_0_r.
    split_and!; try done. by rewrite Hb, Hsrc.
Qed.

Definition decoding (out : string) (c : chunkReader) : Prop := between out c \/ inside out c.

Lemma next_sound out c e c' : decoding out c -> cr_left c = 0 -> next sha256Hex hmacHex c = (e, c') ->
  match e with None => inside out c' /\ 0 < cr_left c' | Some EOF => accepted out (cr_trailers c') | Some _ => True end.
Proof.
  intros Hd Hl. unfold next. destruct (closeChunk sha256Hex hmacHex c) as [e1 c1] eqn:Ec.
  assert (e1 <> Some EOF) as Hne.
  { unfold closeChunk in Ec. destruct (negb (cr_open c)); [by injection Ec as <- _|]. destruct (ReadFull2 (cr_src c)) as [[crlf|] src].
    - destruct (negb _); [by injection Ec as <- _|]. by destruct (checkChunk _ _ _) as [[] c2]; injection Ec as <- _.
    - injection Ec as <- _. unfold truncation. by destruct (rd_end _). }
  destruct e1 as [e1|].
  { intros [= <- <-]. by destruct e1. }
  apply openChunk_sound. destruct Hd as [Hd|Hd]; [|by eapply closeChunk_sound].
  unfold closeChunk in Ec. rewrite (bt_open _ _ Hd) in Ec. cbn [negb] in Ec. by injection Ec as <-.
Qed.

Lemma Read_sound out want c data e c' : decoding out c -> Read sha256Hex hmacHex want c = (data, e, c') ->
  match e with
  | None => decoding (out +:+ data) c'
  | Some EOF => data = "" /\ accepted out (cr_trailers c')
  | Some _ => True
  end.
Proof.
  intros Hd. unfold Read. assert (cr_err c = None) as -> by by destruct Hd as [Hd|Hd]; destruct Hd.
  destruct (want =? 0)%nat; [intros [= <- <- <-]; by rewrite string_app_nil_r|].
  destruct (if cr_left c =? 0 then next sha256Hex hmacHex c else (None, c)) as [e1 c1] eqn:En.
  assert (match e1 with None => inside out c1 /\ 0 < cr_left c1 | Some EOF => accepted out (cr_trailers c1) | Some _ => True end) as H1.
  { destruct (cr_left c =? 0) eqn:E0; [apply Z.eqb_eq in E0; by eapply next_sound|]. apply Z.eqb_neq in E0. injection En as <- <-.
    destruct Hd as [Hd|Hd]; [by destruct (E0 (bt_left _ _ Hd))|]. split; [done|]. pose proof (in_left _ _ Hd). lia. }
  destruct e1 as [e1|]. { intros [= <- <- <-]. by destruct e1. }
  destruct H1 as [[Hset Herr Hl Ho Hst (l & s & line & Hs & Hk & Hp & Hch & Hout & Ha & Hb)] Hpos]. unfold readOpen.
  destruct (splitAt _ (rd_bytes (cr_src c1))) as [d rest] eqn:Esp. pose proof (splitAt_app _ _ _ _ Esp) as Hsrc. apply splitAt_length in Esp.
  assert (slen d <= cr_left c1) as Hdl by (unfold slen; lia).
  unfold hashChunk. cbn [cr_signer cr_set_open cr_set_src]. rewrite Hs.
  destruct (d =s "").
  { intros [= <- <- <-]. unfold truncation. by destruct (rd_end _). }
  intros [= <- <- <-]. right. split; [done|done|cbn; lia|done|done|]. exists l, (mkSigner (sg_key s) (sg_amzDate s) (sg_scope s) (sg_prev s) (sg_hashed s +:+ d)), line.
  cbn [cr_signer cr_set_signer cr_left cr_set_open cr_sig cr_src cr_set_src rd_bytes rd_set sg_hashed sg_prev]. rewrite slen_app.
  replace (cr_left c1 - slen d + (slen (sg_hashed s) + slen d)) with (cr_left c1 + slen (sg_hashed s)) by lia.
  split_and!; try done; [by rewrite Hout, string_app_assoc|by rewrite Hb, Hsrc, !string_app_assoc].
Qed.

Context (digest : string -> string -> string) (digestSize : string -> nat) (base64Decode : string -> option string).

(** What the request declared about the decoded bytes holds of [out]. *)
Definition declaredHolds (p : payload) (out : string) (trailers : list (string * string)) : Prop :=
  (0 <= pl_length p -> slen out = pl_length p) /\
  (forall sum, pl_sum p = Some sum ->
     if ck_trailing sum
     then exists value, lookupTrailer (ck_name sum) trailers = Some value /\ decode digestSize base64Decode sum value = Some (digest (ck_name sum) out)
     else ck_want sum = Some (digest (ck_name sum) out)).

Lemma finish_EOF p p' : finish digest digestSize base64Decode p = (EOF, p') ->
  pl_src p' = pl_src p /\ (0 <= pl_length p -> pl_n p = pl_length p) /\
  (forall sum, pl_sum p = Some sum ->
     if ck_trailing sum
     then exists value, lookupTrailer (ck_name sum) (trailersOf (pl_src p)) = Some value /\ decode digestSize base64Decode sum value = Some (digest (ck_name sum) (ck_hashed sum))
     else ck_want sum = Some (digest (ck_name sum) (ck_hashed sum))).
Proof.
  unfold finish. destruct ((0 <=? pl_length p) && negb (pl_n p =? pl_length p)) eqn:El; [done|].
  assert (0 <= pl_length p -> pl_n p = pl_length p) as Hlen.
  { intros H. rewrite (proj2 (Z.leb_le 0 _)) in El by done. cbn [andb] in El. by apply negb_false_iff, Z.eqb_eq in El. }
  destruct (pl_sum p) as [sum|]; [|intros [= <-]; done]. destruct (ck_trailing sum) eqn:Et.
  - destruct (lookupTrailer _ _) as [value|] eqn:Ev; [|done]. destruct (decode _ _ sum value) as [want|] eqn:Ed; [|done]. cbn [ck_want ck_name ck_hashed].
    destruct (_ =s want) eqn:E; [|done]. apply String.eqb_eq in E. intros [= <-]. split; [done|]. split; [done|].
    intros sum' [= <-]. rewrite Et. exists value. by rewrite Ev, Ed, E.
  - destruct (ck_want sum) as [want|] eqn:Ew; [|done]. destruct (_ =s want) eqn:E; [|done]. apply String.eqb_eq in E. intros [= <-].
    split; [done|]. split; [done|]. intros sum' [= <-]. by rewrite Et, E.
Qed.

(** The payload while [out] was read from the chunked source. *)
Definition hashedSum (out : string) (sum sum' : option checksum) : Prop :=
  match sum, sum' with
  | None, None => True
  | Some s, Some s' => ck_name s' = ck_name s /\ ck_want s' = ck_want s /\ ck_trailing s' = ck_trailing s /\ ck_hashed s' = out
  | _, _ => False
  end.

Lemma copy_sound p0 reads p c out more e p' :
  pl_err p = None -> pl_src p = Chunked c -> decoding out c -> pl_n p = slen out -> pl_length p = pl_length p0 -> hashedSum out (pl_sum p0) (pl_sum p) ->
  copy sha256Hex hmacHex digest digestSize base64Decode reads p = (more, e, p') ->
  e = Some EOF -> exists trailers, accepted (out +:+ more) trailers /\ declaredHolds p0 (out +:+ more) trailers.
Proof.
  revert p c out more. induction reads as [|want reads IH]; intros p c out more Herr Hsrc Hd Hn Hlen Hsum; [by intros [= <- <- <-]|].
  cbn [copy]. unfold payload_Read. rewrite Herr, Hsrc. cbn [source_read]. destruct (Read sha256Hex hmacHex want c) as [[data e1] c1] eqn:Er.
  pose proof (Read_sound _ _ _ _ _ _ Hd Er) as Hr. cbn [pl_length pl_sum].
  destruct ((0 <=? pl_length p) && (pl_length p <? pl_n p + slen data)); [intros [= <- <- <-]; done|].
  set (sum1 := match pl_sum p with Some s => _ | None => None end).
  assert (hashedSum (out +:+ data) (pl_sum p0) sum1) as Hs1.
  { unfold sum1, hashedSum in *. destruct (pl_sum p0), (pl_sum p); try done. cbn. destruct Hsum as (A & B & C & D). by rewrite A, B, C, D. }
  destruct e1 as [e1|].
  - destruct (decide (e1 = EOF)) as [->|Hne].
    + destruct Hr as [-> Hacc]. destruct (finish _ _ _ _) as [e2 p2] eqn:Ef. intros [= <- <- <-] [= ->]. apply finish_EOF in Ef as (_ & Hl & Hck).
      rewrite string_app_nil_r in *. exists (cr_trailers c1). split; [done|]. cbn [pl_length pl_n pl_sum pl_src trailersOf] in Hl, Hck. change (slen "") with 0 in Hl. split.
      * rewrite <- Hlen. intros H. rewrite <- Hn. rewrite <- (Hl H). lia.
      * intros sum Hs. unfold hashedSum in Hs1. rewrite Hs in Hs1. destruct sum1 as [s'|]; [|done]. destruct Hs1 as (A & B & C & D).
        specialize (Hck s' eq_refl). unfold decode in *. rewrite A, B, C, D in Hck. exact Hck.
    + destruct e1; try done; intros [= <- <- <-]; done.
  - destruct (copy _ _ _ _ _ reads _) as [[more' e2] p2] eqn:Ecp. intros [= <- <- <-] He.
    eapply (IH _ c1 (out +:+ data)) in Ecp; [|done|done|done|by cbn; rewrite slen_app, Hn|done|done|done].
    by rewrite <- string_app_assoc.
Qed.
End Sound.

(** ** Completeness of the decoder: what a signing client sends is accepted *)

Section Complete.
Context (sha256Hex : string -> string) (hmacHex : string -> string -> string) (s0 : chunkSigner).
Context (digest : string -> string -> string) (digestSize : string -> nat) (base64Decode : string -> option string).
Notation mac := (chunkMac sha256Hex hmacHex s0).
Notation chained' := (chained sha256Hex hmacHex s0).

(** A header line that fits the read buffer. *)
Definition line_ok (line : string) : Prop :=
  exists x, line = x +:+ str1 nl /\ ContainsByte x nl = false /\ (String.length x < chunkLineLimit)%nat.

Definition lastLine (prev : string) (l : list frame) (line : string) : Prop :=
  line_ok line /\ announces line 0 (mac (lastSig prev l) "").

(** In front of the chunks [l] and the end of the body. *)
Record atChunks (prev : string) (l : list frame) (c : chunkReader) : Prop := {
  ac_err : cr_err c = None;
  ac_signed : cr_signed c = true;
  ac_trailing : cr_trailing c = false;
  ac_end : rd_end (cr_src c) = EndEOF;
  ac_lines : Forall (fun f => line_ok (fr_line f) /\ fr_data f <> "") l;
  ac_chained : chained' prev l;
  ac_signer : exists s, cr_signer c = Some s /\ sameKey s0 s /\ sg_prev s = prev /\ sg_hashed s = "";
  ac_bytes : exists line, lastLine prev l line /\ rd_bytes (cr_src c) = wire l +:+ line +:+ CRLF;
  ac_open : cr_open c = false;
  ac_left : cr_left c = 0
}.

(** Inside a chunk of which [d] is still to come, in front of the chunks [l]. *)
Record atData (d : string) (l : list frame) (c : chunkReader) : Prop := {
  ad_err : cr_err c = None;
  ad_signed : cr_signed c = true;
  ad_trailing : cr_trailing c = false;
  ad_end : rd_end (cr_src c) = EndEOF;
  ad_lines : Forall (fun f => line_ok (fr_line f) /\ fr_data f <> "") l;
  ad_chained : chained' (cr_sig c) l;
  ad_signer : exists s, cr_signer c = Some s /\ sameKey s0 s /\ cr_sig c = mac (sg_prev s) (sg_hashed s +:+ d);
  ad_bytes : exists line, lastLine (cr_sig c) l line /\ rd_bytes (cr_src c) = d +:+ CRLF +:+ wire l +:+ line +:+ CRLF;
  ad_open : cr_open c = true;
  ad_left : cr_left c = slen d
}.

Lemma verifyChunk_complete s sig : sameKey s0 s -> sig = mac (sg_prev s) (sg_hashed s) ->
  verifyChunk sha256Hex hmacHex sig s = (true, mkSigner (sg_key s) (sg_amzDate s) (sg_scope s) sig "").
Proof.
  intros Hk ->. unfold verifyChunk, verify. rewrite (stringToSign_same s0 s) by done. pose proof Hk as (-> & _ & _).
  fold (mac (sg_prev s) (sg_hashed s)). by rewrite String.eqb_refl.
Qed.

Lemma closeChunk_complete l c : atData "" l c -> exists c', closeChunk sha256Hex hmacHex c = (None, c') /\ atChunks (cr_sig c) l c'.
Proof.
  intros [H1 H2 H3 H4 H5 H6 (s & Hs & Hk & Hsig) (line & Hl & Hb) Ho Hleft]. unfold closeChunk. rewrite Ho. cbn [negb].
  assert (ReadFull2 (cr_src c) = (Some CRLF, rd_set (wire l +:+ line +:+ CRLF) (cr_src c))) as -> by (unfold ReadFull2; by rewrite Hb).
  rewrite String.eqb_refl. cbn [negb]. unfold checkChunk. cbn [cr_signer cr_set_src cr_sig]. rewrite Hs, string_app_nil_r in *.
  rewrite verifyChunk_complete by done. eexists. split; [reflexivity|]. split; try done.
  - eexists. split; [reflexivity|]. done.
  - by exists line.
Qed.

Lemma openChunk_cons prev f l c : atChunks prev (f :: l) c ->
  exists c', openChunk sha256Hex hmacHex c = (None, c') /\ atData (fr_data f) l c'.
Proof.
  intros [H1 H2 H3 H4 H5 H6 (s & Hs & Hk & Hp & Hh) (line & Hl & Hb) Ho Hleft]. apply Forall_cons in H5 as [[(x & Ex & Hx & Hxl) Hne] H5].
  destruct H6 as ((ext & Hsz & Hcut & Hhex) & Hsig & H6). unfold openChunk.
  assert (ReadSlice nl (cr_src c) = (fr_line f, None, rd_set (fr_data f +:+ CRLF +:+ wire l +:+ line +:+ CRLF) (cr_src c))) as ->.
  { destruct (cr_src c) as [bytes e j]. cbn [rd_bytes] in Hb. subst bytes. cbn [wire]. rewrite Ex, !string_app_assoc. cbn [String.append str1].
    exact (ReadSlice_line x (fr_data f +:+ CRLF +:+ wire l +:+ line +:+ CRLF) e j Hx Hxl). }
  cbn [cr_signed cr_set_open cr_set_src]. rewrite Hsz. destruct (cutAll ext "=") as [[nm sg] b]. cbn [fst] in Hcut. injection Hcut as -> ->.
  rewrite H2, Hhex, String.eqb_refl. cbn [negb andb orb]. assert (0 < slen (fr_data f)) as Hpos by (destruct (fr_data f); [done|rewrite slen_cons; pose proof (slen_nonneg s1); lia]).
  rewrite (proj2 (Z.eqb_neq _ 0)) by lia. eexists. split; [reflexivity|]. split; try done.
  - exists s. split; [done|]. split; [done|]. cbn. by rewrite Hh, Hp.
  - by exists line.
Qed.

Lemma trailer_loop_blank n canonical signed c : cr_trailing c = false -> rd_bytes (cr_src c) = CRLF -> rd_end (cr_src c) = EndEOF ->
  (trailer_loop sha256Hex hmacHex (S (S n)) canonical signed c).1 = EOF.
Proof.
  intros Ht Hb He. destruct (cr_src c) as [bytes e j] eqn:Ec. cbn [rd_bytes rd_end] in Hb, He. subst bytes e.
  assert (ReadSlice nl (mkBody CRLF EndEOF j) = (CRLF, @None sliceError, mkBody "" EndEOF j)) as R1 by (destruct j; reflexivity).
  assert (ReadSlice nl (mkBody "" EndEOF j) = ("", Some (SliceEnd EndEOF), mkBody "" EndEOF j)) as R2 by (destruct j; reflexivity).
  cbn [trailer_loop]. rewrite Ec, R1. unfold trailer_line at 1. replace (TrimSpace CRLF =s "") with true by reflexivity.
  cbn [cr_src cr_set_src]. rewrite R2. unfold trailer_line. replace (TrimSpace "" =s "") with true by reflexivity.
  cbn [cr_signed cr_trailing cr_set_src]. by rewrite Ht, andb_false_r.
Qed.

Lemma readTrailers_blank c : cr_trailing c = false -> rd_bytes (cr_src c) = CRLF -> rd_end (cr_src c) = EndEOF ->
  (readTrailers sha256Hex hmacHex c).1 = EOF.
Proof. intros Ht Hb He. unfold readTrailers. apply (trailer_loop_blank 30); done. Qed.

Lemma openChunk_nil prev c : atChunks prev [] c -> (openChunk sha256Hex hmacHex c).1 = Some EOF.
Proof.
  intros [H1 H2 H3 H4 H5 H6 (s & Hs & Hk & Hp & Hh) (line & [(x & Ex & Hx & Hxl) (ext & Hsz & Hcut & Hhex)] & Hb) Ho Hleft]. unfold openChunk. cbn [wire] in Hb.
  assert (ReadSlice nl (cr_src c) = (line, None, rd_set CRLF (cr_src c))) as ->.
  { destruct (cr_src c) as [bytes e j]. cbn [rd_bytes] in Hb. subst bytes. rewrite Ex. cbn [String.append]. rewrite !string_app_assoc. cbn [String.append str1].
    exact (ReadSlice_line x CRLF e j Hx Hxl). }
  cbn [cr_signed cr_set_open cr_set_src]. rewrite Hsz. destruct (cutAll ext "=") as [[nm sg] b]. cbn [fst lastSig] in Hcut. injection Hcut as -> ->.
  cbn [lastSig] in Hhex. rewrite H2, Hhex, String.eqb_refl. cbn [negb andb orb]. change (0 =? 0) with true. cbn iota. unfold checkChunk. cbn [cr_signer cr_set_open cr_set_src]. rewrite Hs.
  cbn [cr_sig cr_set_open]. rewrite verifyChunk_complete by (done || by rewrite Hh, Hp).
  match goal with |- context [readTrailers _ _ ?c1] => pose proof (readTrailers_blank c1 H3 eq_refl H4) as Ht end.
  destruct (readTrailers _ _ _) as [e c3]. cbn in Ht. by rewrite Ht.
Qed.

(** What is still to come: [d] of the open chunk, then the chunks [l]. *)
Definition coming (d : string) (l : list frame) (c : chunkReader) : Prop :=
  atData d l c \/ (d = "" /\ exists prev, atChunks prev l c).

Lemma readOpen_complete want d l c : (0 < want)%nat -> d <> "" -> atData d l c ->
  exists d1 d2 c', readOpen want c = (d1, None, c') /\ d = d1 +:+ d2 /\ d1 <> "" /\ atData d2 l c'.
Proof.
  intros Hw Hd [H1 H2 H3 H4 H5 H6 (s & Hs & Hk & Hsig) (line & Hl & Hb) Ho Hleft]. unfold readOpen.
  set (k := Z.to_nat (Z.min (cr_left c) (Z.of_nat want))).
  assert (0 < k <= String.length d)%nat as Hkd by (unfold k; rewrite Hleft; unfold slen; destruct d; [done|simpl; lia]).
  destruct (splitAt k d) as [d1 d2] eqn:Esp. pose proof (splitAt_length _ _ _ _ Esp) as Hl1.
  assert (splitAt k (rd_bytes (cr_src c)) = (d1, d2 +:+ CRLF +:+ wire l +:+ line +:+ CRLF)) as ->.
  { rewrite Hb. apply splitAt_prefix; [done|lia]. }
  apply splitAt_app in Esp. assert (d1 <> "") as Hne by (intros ->; simpl in Hl1; lia).
  unfold hashChunk. cbn [cr_signer cr_set_open cr_set_src]. rewrite Hs. rewrite (proj2 (String.eqb_neq d1 "") Hne).
  exists d1, d2. eexists. split; [reflexivity|]. split; [done|]. split; [done|]. split; try done.
  - eexists. split; [reflexivity|]. split; [done|]. cbn [sg_prev sg_hashed cr_sig cr_set_signer]. by rewrite string_app_assoc, <- Esp.
  - by exists line.
  - cbn. rewrite Hleft, Esp, slen_app. lia.
Qed.

Lemma Read_complete want d l c : (0 < want)%nat -> coming d l c ->
  (d +:+ contents l = "" /\ exists c', Read sha256Hex hmacHex want c = ("", Some EOF, c')) \/
  exists d1 d' l' c', Read sha256Hex hmacHex want c = (d1, None, c') /\ d1 <> "" /\ coming d' l' c' /\ d +:+ contents l = d1 +:+ d' +:+ contents l'.
Proof.
  intros Hw Hc. unfold Read. assert (cr_err c = None) as -> by by destruct Hc as [Hc|[_ [prev Hc]]]; destruct Hc.
  rewrite (proj2 (Nat.eqb_neq want 0)) by lia. destruct (decide (d = "")) as [->|Hd].
  - assert (cr_left c = 0) as -> by (destruct Hc as [Hc|[_ [prev Hc]]]; destruct Hc; done). change (0 =? 0) with true. cbn iota.
    assert (exists prev c1, next sha256Hex hmacHex c = openChunk sha256Hex hmacHex c1 /\ atChunks prev l c1) as (prev & c1 & -> & H1).
    { unfold next. destruct Hc as [Hc|[_ [prev Hc]]].
      - destruct (closeChunk_complete l c Hc) as (c1 & -> & H1). by exists (cr_sig c), c1.
      - unfold closeChunk. rewrite (ac_open _ _ _ Hc). by exists prev, c. }
    destruct l as [|f l].
    + left. split; [done|]. pose proof (openChunk_nil prev c1 H1) as He. destruct (openChunk _ _ c1) as [e c2]. cbn in He. subst e. eauto.
    + right. pose proof (ac_lines _ _ _ H1) as Hl. apply Forall_cons in Hl as [[_ Hne] _].
      destruct (openChunk_cons prev f l c1 H1) as (c2 & -> & H2). destruct (readOpen_complete want _ l c2 Hw Hne H2) as (d1 & d2 & c' & E & Ed & Hd1 & H3).
      exists d1, d2, l, c'. split; [done|]. split; [done|]. split; [by left|]. cbn [contents]. by rewrite Ed, string_app_assoc.
  - right. destruct Hc as [Hc|[? _]]; [|done]. rewrite (ad_left _ _ _ Hc). rewrite (proj2 (Z.eqb_neq (slen d) 0)) by (unfold slen; destruct d; simpl; [done|lia]).
    destruct (readOpen_complete want d l c Hw Hd Hc) as (d1 & d2 & c' & E & -> & Hd1 & H3).
    exists d1, d2, l, c'. split; [done|]. split; [done|]. split; [by left|]. by rewrite string_app_assoc.
Qed.

(** The declared length and checksum of the decoded bytes [total]. *)
Definition declares (total : string) (length' : Z) (sum : option checksum) : Prop :=
  (length' < 0 \/ length' = slen total) /\
  match sum with None => True | Some s => ck_trailing s = false /\ ck_want s = Some (digest (ck_name s) total) end.
Definition hashedSoFar (out : string) (sum : option checksum) : Prop := match sum with None => True | Some s => ck_hashed s = out end.

Lemma copy_complete reads p c d l out :
  Forall (fun want => (0 < want)%nat) reads -> (String.length (d +:+ contents l) < length reads)%nat ->
  pl_err p = None -> pl_src p = Chunked c -> coming d l c -> pl_n p = slen out -> hashedSoFar out (pl_sum p) ->
  declares (out +:+ d +:+ contents l) (pl_length p) (pl_sum p) ->
  exists p', copy sha256Hex hmacHex digest digestSize base64Decode reads p = (d +:+ contents l, Some EOF, p').
Proof.
  intros Hr. revert p c d l out. induction Hr as [|want reads Hw Hr IH]; intros p c d l out Hlen Herr Hsrc Hc Hn Hh Hd; [simpl in Hlen; lia|].
  cbn [copy]. unfold payload_Read. rewrite Herr, Hsrc. cbn [source_read]. destruct Hd as [Hd1 Hd2].
  destruct (Read_complete want d l c Hw Hc) as [[E [c' ->]]|(d1 & d' & l' & c' & -> & Hne & Hc' & E)]; rewrite E in *.
  - cbn [pl_length pl_sum]. rewrite string_app_nil_r in Hd1, Hd2. change (slen "") with 0. rewrite Z.add_0_r, Hn.
    assert ((0 <=? pl_length p) && (pl_length p <? slen out) = false) as ->.
    { destruct Hd1 as [Hd1|Hd1]; [by rewrite (proj2 (Z.leb_gt 0 _))|]. rewrite (proj2 (Z.ltb_ge _ _)) by lia. apply andb_false_r. }
    unfold finish. cbn [pl_length pl_n pl_sum pl_src].
    assert ((0 <=? pl_length p) && negb (slen out =? pl_length p) = false) as ->.
    { destruct Hd1 as [Hd1|Hd1]; [by rewrite (proj2 (Z.leb_gt 0 _))|]. rewrite Hd1, Z.eqb_refl. apply andb_false_r. }
    destruct (pl_sum p) as [s|]; [|eauto]. destruct Hd2 as [Ht Hwant]. cbn [ck_trailing ck_want ck_name ck_hashed]. rewrite Ht, Hwant.
    cbn [hashedSoFar] in Hh. rewrite Hh, string_app_nil_r, String.eqb_refl. cbn [negb]. eauto.
  - cbn [pl_length pl_sum]. rewrite Hn, <- slen_app. assert (slen (out +:+ d1) <= slen (out +:+ d1 +:+ d' +:+ contents l')) as Hle.
    { rewrite !slen_app. pose proof (slen_nonneg d'). pose proof (slen_nonneg (contents l')). lia. }
    assert ((0 <=? pl_length p) && (pl_length p <? slen (out +:+ d1)) = false) as ->.
    { destruct Hd1 as [Hd1|Hd1]; [by rewrite (proj2 (Z.leb_gt 0 _))|]. rewrite (proj2 (Z.ltb_ge _ _)) by lia. apply andb_false_r. }
    set (p1 := mkPayload _ _ _ _ _).
    destruct (IH p1 c' d' l' (out +:+ d1)) as [p' Hp']; try done.
    + rewrite string_length_app in Hlen. simpl in Hlen. destruct d1; [done|]. simpl in Hlen. lia.
    + cbn [p1 pl_sum]. destruct (pl_sum p); [|done]. cbn [hashedSoFar ck_hashed] in *. by rewrite Hh.
    + cbn [p1 pl_length pl_sum]. rewrite string_app_assoc. split; [done|]. by destruct (pl_sum p).
    + rewrite Hp'. eauto.
Qed.

(** *** The client *)

Context (Hmac : forall key message, isHexSHA256 (hmacHex key message) = true).

Definition chunkLine (n : Z) (sig : string) : string := FormatHex n +:+ ";chunk-signature=" +:+ sig +:+ CRLF.

Fixpoint frames (prev : string) (datas : list string) : list frame :=
  match datas with
  | [] => []
  | d :: datas => let sig := mac prev d in mkFrame (chunkLine (slen d) sig) sig d :: frames sig datas
  end.

(** The body of a signed upload: the chunks, the last one of size zero, a blank line. *)
Definition signedBody (datas : list string) : string :=
  let l := frames (sg_prev s0) datas in wire l +:+ chunkLine 0 (mac (lastSig (sg_prev s0) l) "") +:+ CRLF.

Lemma chunkLine_ok n sig : isHexSHA256 sig = true -> 0 <= n <= MaxInt64 -> line_ok (chunkLine n sig) /\ announces (chunkLine n sig) n sig.
Proof.
  intros Hs Hn. destruct (FormatHex_nonneg n Hn) as (Hv & Hx & Hne & Hlen). pose proof Hs as Hs'. unfold isHexSHA256 in Hs'.
  apply andb_true_iff in Hs' as [Hsl Hsx]. apply Nat.eqb_eq in Hsl.
  set (y := FormatHex n +:+ String ";" ("chunk-signature" +:+ String "=" sig)).
  assert (chunkLine n sig = (y +:+ str1 cr) +:+ str1 nl) as Ey by (unfold chunkLine, y; rewrite !string_app_assoc; done). rewrite Ey. split.
  - exists (y +:+ str1 cr). split; [done|]. split.
    + change y with (FormatHex n +:+ ";chunk-signature=" +:+ sig). rewrite !ContainsByte_app.
      rewrite (all_bytes_plain _ _ nl Hx eq_refl), (all_bytes_plain _ _ nl Hsx eq_refl). reflexivity.
    + unfold y, chunkLineLimit. rewrite !string_length_app. simpl. rewrite Hsl. lia.
  - exists ("chunk-signature" +:+ String "=" sig). split; [|split; [|done]].
    + unfold chunkSize. rewrite !TrimSuffix_app. unfold cutAll, y. rewrite (Cut_app _ ";") by exact (all_bytes_plain _ _ ";" Hx eq_refl).
      rewrite (proj2 (Nat.eqb_neq (String.length (FormatHex n)) 0)) by (destruct (FormatHex n); [done|simpl; lia]).
      rewrite (proj2 (Nat.ltb_ge 16 _)) by lia. assert (all_bytes any_hex (FormatHex n) = true) as ->.
      { clear -Hx. induction (FormatHex n) as [|c s IH]; [done|]. cbn [all_bytes] in *. apply andb_true_iff in Hx as [H1 H2]. by rewrite (lower_hex_any _ H1), IH. }
      cbn [negb orb]. rewrite Hv. rewrite (proj2 (Z.ltb_lt n (2 ^ 63))) by (unfold MaxInt64 in Hn; change (2 ^ 63) with 9223372036854775808; lia). done.
    + unfold cutAll. rewrite (Cut_app "chunk-signature" "=") by reflexivity. done.
Qed.

Lemma frames_ok prev datas : Forall (fun d => d <> "" /\ slen d <= MaxInt64) datas ->
  Forall (fun f => line_ok (fr_line f) /\ fr_data f <> "") (frames prev datas) /\ chained' prev (frames prev datas) /\ contents (frames prev datas) = String.concat "" datas.
Proof.
  intros Hd. revert prev. induction Hd as [|d datas [Hne Hl] Hd IH]; intros prev; [done|]. cbn [frames].
  destruct (chunkLine_ok (slen d) (mac prev d) (Hmac _ _)) as [H1 H2]; [pose proof (slen_nonneg d); lia|].
  destruct (IH (mac prev d)) as (I1 & I2 & I3). split; [by constructor|]. split; [done|]. cbn [contents]. rewrite I3.
  destruct datas; [simpl; by rewrite string_app_nil_r|done].
Qed.
End Complete.

(** ** Properties *)

(** A decoder before its first read. *)
Definition newReader (src : body) (s : chunkSigner) (trailing : bool) (declared : string) (emptyOK : bool) : chunkReader :=
  mkReader src true (Some s) trailing declared emptyOK false 0 false "" [] None.

(** C40. A signed streaming upload that is received to its end is what was signed: the body is
    chunks whose headers announce their sizes and carry signatures chained from the request's
    own, a last chunk of size zero continuing the chain, and, when it has trailers, their
    signature; the bytes handed on are exactly the chunks' data, and they have the declared
    length and checksum. An empty body stands for an empty upload only where that is allowed. *)
Theorem streaming_upload_authentic (sha256Hex : string -> string) (hmacHex : string -> string -> string) (digest : string -> string -> string)
    (digestSize : string -> nat) (base64Decode : string -> option string)
    (src : body) (s : chunkSigner) (trailing emptyOK : bool) (declared : string) (length' : Z) (sum : option checksum)
    (reads : list nat) (out : string) (p' : payload) :
  sg_hashed s = "" -> hashedSoFar "" sum ->
  let c := newReader src s trailing declared emptyOK in
  let p := mkPayload (Chunked c) length' 0 sum None in
  copy sha256Hex hmacHex digest digestSize base64Decode reads p = (out, Some EOF, p') ->
  exists trailers, accepted sha256Hex hmacHex s c out trailers /\ declaredHolds digest digestSize base64Decode p out trailers.
Proof.
  intros Hs Hh c p Hcp. apply (copy_sound sha256Hex hmacHex s c digest digestSize base64Decode p reads p c "" out (Some EOF) p'); try done.
  - left. split; try done. by exists [], s.
  - unfold hashedSum. cbn [p pl_sum]. by destruct sum.
Qed.

(** What a signing client sends is received whole: for any chunks and any sizes the reads
    happen to return, enough reads yield the concatenated data and then the end of the body. *)
Theorem streaming_upload_roundtrip (sha256Hex : string -> string) (hmacHex : string -> string -> string) (digest : string -> string -> string)
    (digestSize : string -> nat) (base64Decode : string -> option string)
    (s : chunkSigner) (joined emptyOK : bool) (declared : string) (datas : list string) (length' : Z) (sum : option checksum) (reads : list nat) :
  (forall key message, isHexSHA256 (hmacHex key message) = true) ->
  sg_hashed s = "" -> hashedSoFar "" sum -> Forall (fun d => d <> "" /\ slen d <= MaxInt64) datas ->
  declares digest (String.concat "" datas) length' sum ->
  Forall (fun want => (0 < want)%nat) reads -> (String.length (String.concat "" datas) < length reads)%nat ->
  let src := mkBody (signedBody sha256Hex hmacHex s datas) EndEOF joined in
  exists p', copy sha256Hex hmacHex digest digestSize base64Decode reads (mkPayload (Chunked (newReader src s false declared emptyOK)) length' 0 sum None)
             = (String.concat "" datas, Some EOF, p').
Proof.
  intros Hmac Hs Hh Hd Hdec Hr Hlen src. set (l := frames sha256Hex hmacHex s (sg_prev s) datas).
  destruct (frames_ok sha256Hex hmacHex s Hmac (sg_prev s) datas Hd) as (H1 & H2 & H3). fold l in H1, H2, H3.
  set (p := mkPayload _ _ _ _ _).
  destruct (copy_complete sha256Hex hmacHex s digest digestSize base64Decode reads p (newReader src s false declared emptyOK) "" l "") as [p' Hp']; try done.
  - cbn [String.append]. by rewrite H3.
  - right. split; [done|]. exists (sg_prev s). split; try done; [by exists s|].
    exists (chunkLine 0 (chunkMac sha256Hex hmacHex s (lastSig (sg_prev s) l) "")). split; [|done].
    apply (chunkLine_ok 0); [apply Hmac|unfold MaxInt64; lia].
  - cbn [String.append]. by rewrite H3.
  - exists p'. cbn [String.append] in Hp'. by rewrite H3 in Hp'.
Qed.

(** ** Witnesses *)

(** A keyed digest for the examples: the message's length, in sixty-four hexadecimal digits. *)
Fixpoint zeros (n : nat) : string := match n with O => "" | S n => String "0" (zeros n) end.
Definition sampleHmac (key message : string) : string := if isHexSHA256 (zeros 62 +:+ FormatHex (16 + slen message mod 240)) then zeros 62 +:+ FormatHex (16 + slen message mod 240) else emptySHA256.
Definition sampleSigner : chunkSigner := mkSigner "key" "20260101T000000Z" "20260101/us-east-1/s3/aws4_request" "seed" "".
Definition sampleDatas : list string := ["hello "; "world"].
Definition sampleBody : body := mkBody (signedBody (fun s => s) sampleHmac sampleSigner sampleDatas) EndEOF true.
Definition sampleReads : list nat := repeat 4%nat 12.
Definition samplePayload : payload := mkPayload (Chunked (newReader sampleBody sampleSigner false "" false)) 11 0 None None.

Lemma sampleHmac_hex key message : isHexSHA256 (sampleHmac key message) = true.
Proof. unfold sampleHmac. destruct (isHexSHA256 (zeros 62 +:+ _)) eqn:E; [done|reflexivity]. Qed.

Lemma streaming_upload_roundtrip_witness :
  exists p', copy (fun s => s) sampleHmac (fun _ _ => "") (fun _ => 0%nat) Some sampleReads samplePayload = ("hello world", Some EOF, p').
Proof.
  apply (streaming_upload_roundtrip (fun s => s) sampleHmac (fun _ _ => "") (fun _ => 0%nat) Some sampleSigner true false "" sampleDatas 11 None sampleReads sampleHmac_hex).
  - reflexivity.
  - exact I.
  - repeat constructor; discriminate.
  - split; [right; reflexivity|exact I].
  - unfold sampleReads. apply Forall_forall. intros want Hw. apply list_elem_of_In, repeat_spec in Hw as ->. lia.
  - vm_compute. lia.
Defined.

Lemma streaming_upload_authentic_witness :
  exists trailers, accepted (fun s => s) sampleHmac sampleSigner (newReader sampleBody sampleSigner false "" false) "hello world" trailers /\
    declaredHolds (fun _ _ => "") (fun _ => 0%nat) Some samplePayload "hello world" trailers.
Proof.
  assert (exists p', copy (fun s => s) sampleHmac (fun _ _ => "") (fun _ => 0%nat) Some sampleReads samplePayload = ("hello world", Some EOF, p')) as [p' E].
  { eexists. vm_compute. reflexivity. }
  exact (streaming_upload_authentic (fun s => s) sampleHmac (fun _ _ => "") (fun _ => 0%nat) Some sampleBody sampleSigner false false "" 11 None sampleReads "hello world" p' eq_refl I E).
Defined.
