(* ===== verification/Transfer.v ===== *)
(** * Resumable transfers

    internal/syncer/partial.go and the transfer half of downloadAndApply (syncer.go): a replica
    is received into a scratch file that survives interruptions, with a durable record of the
    prefix received so far. A scratch file is its current bytes and the bytes a crash is sure to
    leave; which system calls fail, when the context ends and what the network delivers are
    inputs. SHA-256 is a parameter. *)

From S2P Require Import Prelude GoStrings Hoare FileMeta Database Intents RepairQueue Validate.

Definition resumableBytes : Z := Z.shiftl 1 20.
Definition checkpointBytes : Z := Z.shiftl 16 20.
Definition partialMaxAge : Z := 7 * 24 * 3600 * 1000000000.
Definition partialPrefix : string := ".birak-tmp-replica-".
Definition hashBuffer : Z := Z.shiftl 1 20.

(** ** State *)

(** A scratch file: its bytes, those a crash is sure to leave at its beginning (flushed, and not
    cut off or overwritten since), and whether its directory entry was flushed. *)
Record scratch := mkScratch { sc_bytes : string; sc_durable : string; sc_entry : bool }.

Record stage := mkStage {
  sg_meta : FileMeta; sg_rel : string; sg_offset : Z; sg_checkpointed : Z; sg_hasher : string;
  sg_resumable : bool; sg_recorded : bool; sg_dirSynced : bool; sg_invalid : bool; sg_done : bool; sg_open : bool
}.

Record Xfer := mkXfer {
  xf_store : Store;
  xf_partials : gmap string PartialDownload;
  xf_files : gmap string scratch;
  xf_faults : list bool;               (* one element per system call: true fails *)
  xf_cancel : list bool;               (* one element per look at the context *)
  xf_stage : option stage;             (* the stage of the attempt under way *)
  xf_resumed : Z; xf_resumedBytes : Z
}.

Definition xf_set_store (s : Store) (x : Xfer) : Xfer := mkXfer s (xf_partials x) (xf_files x) (xf_faults x) (xf_cancel x) (xf_stage x) (xf_resumed x) (xf_resumedBytes x).
Definition xf_set_partials (p : gmap string PartialDownload) (x : Xfer) : Xfer := mkXfer (xf_store x) p (xf_files x) (xf_faults x) (xf_cancel x) (xf_stage x) (xf_resumed x) (xf_resumedBytes x).
Definition xf_set_files (f : gmap string scratch) (x : Xfer) : Xfer := mkXfer (xf_store x) (xf_partials x) f (xf_faults x) (xf_cancel x) (xf_stage x) (xf_resumed x) (xf_resumedBytes x).
Definition xf_set_faults (l : list bool) (x : Xfer) : Xfer := mkXfer (xf_store x) (xf_partials x) (xf_files x) l (xf_cancel x) (xf_stage x) (xf_resumed x) (xf_resumedBytes x).
Definition xf_set_cancel (l : list bool) (x : Xfer) : Xfer := mkXfer (xf_store x) (xf_partials x) (xf_files x) (xf_faults x) l (xf_stage x) (xf_resumed x) (xf_resumedBytes x).
Definition xf_set_stage (st : option stage) (x : Xfer) : Xfer := mkXfer (xf_store x) (xf_partials x) (xf_files x) (xf_faults x) (xf_cancel x) st (xf_resumed x) (xf_resumedBytes x).
Definition xf_count_resumed (n : Z) (x : Xfer) : Xfer := mkXfer (xf_store x) (xf_partials x) (xf_files x) (xf_faults x) (xf_cancel x) (xf_stage x) (xf_resumed x + 1) (xf_resumedBytes x + n).

Inductive xerr :=
| XStore (e : err) | XSys | XCancelled | XPartialStale | XTooLong | XContentChanged | XInvalidMeta | XRange | XStatus (code : Z) | XRequest | XRead.

Abbreviation X := (SE Xfer xerr).

Definition inDb {A} (c : St A) : X A := zoomS xf_store xf_set_store XStore c.

(** A system call that may fail. *)
Definition sys : X unit := fun x =>
  match xf_faults x with
  | true :: l => (Err XSys, xf_set_faults l x)
  | false :: l => (Ok tt, xf_set_faults l x)
  | [] => (Ok tt, x)
  end.

(** [ctx.Err()] *)
Definition ctxErrX : X unit := fun x =>
  match xf_cancel x with
  | true :: l => (Err XCancelled, xf_set_cancel l x)
  | false :: l => (Ok tt, xf_set_cancel l x)
  | [] => (Ok tt, x)
  end.

Definition getStage : X (option stage) := let! x := getS in retS (xf_stage x).
Definition putStage (st : stage) : X unit := modifyS (xf_set_stage (Some st)).

Definition stage_at (offset checkpointed : Z) (hasher : string) (st : stage) : stage :=
  mkStage (sg_meta st) (sg_rel st) offset checkpointed hasher (sg_resumable st) (sg_recorded st) (sg_dirSynced st) (sg_invalid st) (sg_done st) (sg_open st).
Definition stage_flags (recorded dirSynced invalid done open' : bool) (st : stage) : stage :=
  mkStage (sg_meta st) (sg_rel st) (sg_offset st) (sg_checkpointed st) (sg_hasher st) (sg_resumable st) recorded dirSynced invalid done open'.
Definition set_recorded (b : bool) (st : stage) : stage := stage_flags b (sg_dirSynced st) (sg_invalid st) (sg_done st) (sg_open st) st.
Definition set_dirSynced (b : bool) (st : stage) : stage := stage_flags (sg_recorded st) b (sg_invalid st) (sg_done st) (sg_open st) st.
Definition set_invalid (b : bool) (st : stage) : stage := stage_flags (sg_recorded st) (sg_dirSynced st) b (sg_done st) (sg_open st) st.
Definition set_done (b : bool) (st : stage) : stage := stage_flags (sg_recorded st) (sg_dirSynced st) (sg_invalid st) b (sg_open st) st.
Definition set_closed (st : stage) : stage := stage_flags (sg_recorded st) (sg_dirSynced st) (sg_invalid st) (sg_done st) false st.

(** *** Bytes and files *)

Fixpoint stake (n : nat) (s : string) : string :=
  match n, s with S n, String c s => String c (stake n s) | _, _ => "" end.
Definition firstBytes (n : Z) (s : string) : string := stake (Z.to_nat n) s.

Definition file (rel : string) : X (option scratch) := let! x := getS in retS (xf_files x !! rel).
Definition setFile (rel : string) (f : scratch) : X unit := modifyS (fun x => xf_set_files (<[rel := f]> (xf_files x)) x).

(** The bytes of a file after [p] is written at an offset in it, NULs filling a gap. *)
Fixpoint dropBytes (n : nat) (s : string) : string := match n, s with S n, String _ s => dropBytes n s | _, _ => s end.
Fixpoint zeros (n : nat) : string := match n with O => "" | S n => String "000" (zeros n) end.
Definition overwrite (offset : Z) (p s : string) : string :=
  firstBytes offset s +:+ zeros (Z.to_nat (offset - slen s)) +:+ p +:+ dropBytes (Z.to_nat (offset + slen p)) s.

(** [File.Truncate], [File.Write] at the file's position, [File.Sync], [fileops.SyncDir],
    [os.Remove]. *)
Definition truncateFile (rel : string) (n : Z) : X unit :=
  do! sys then let! f := file rel in
  match f with Some f => setFile rel (mkScratch (firstBytes n (sc_bytes f)) (firstBytes n (sc_durable f)) (sc_entry f)) | None => retS tt end.
Definition writeFile (rel : string) (offset : Z) (p : string) : X unit :=
  do! sys then let! f := file rel in
  match f with Some f => setFile rel (mkScratch (overwrite offset p (sc_bytes f)) (firstBytes offset (sc_durable f)) (sc_entry f)) | None => retS tt end.
Definition syncFile (rel : string) : X unit :=
  do! sys then let! f := file rel in
  match f with Some f => setFile rel (mkScratch (sc_bytes f) (sc_bytes f) (sc_entry f)) | None => retS tt end.
Definition syncDir (rel : string) : X unit :=
  do! sys then let! f := file rel in
  match f with Some f => setFile rel (mkScratch (sc_bytes f) (sc_durable f) true) | None => retS tt end.
Definition removeScratch (rel : string) : X unit := modifyS (fun x => xf_set_files (delete rel (xf_files x)) x).

Section Transfer.
Context (sha256Hex : string -> string).

(** ** Records of partial transfers *)

(** [func (s *Syncer) partialPath(rel string) (string, bool)]: acceptable or not; paths are
    relative to the sync root. *)
Definition partialPath (rel : string) : bool :=
  IsLocal rel && (Clean rel =s rel) && HasPrefix (Base rel) partialPrefix && negb (HasPrefix rel ".birak/").

(** [partial], [rememberPartial], [forgetPartial] *)
Definition partial (name : string) : X (option PartialDownload) := let! x := getS in retS (xf_partials x !! name).
Definition rememberPartial (rec : PartialDownload) : X unit :=
  modifyS (fun x => xf_set_partials (<[Name (pt_Meta rec) := rec]> (xf_partials x)) x).
Definition forgetPartial (name : string) : X unit := modifyS (fun x => xf_set_partials (delete name (xf_partials x)) x).

(** [func (s *Syncer) dropPartial(rec store.PartialDownload)] *)
Definition dropPartial (rec : PartialDownload) : X unit :=
  let! dropped := tryS (inDb (DropPartialDownload (Name (pt_Meta rec)))) in
  match dropped with
  | Err _ => retS tt
  | Ok _ =>
      do! forgetPartial (Name (pt_Meta rec)) then
      if partialPath (pt_Path rec) then removeScratch (pt_Path rec) else retS tt
  end.

(** [func (s *Syncer) settlePartial(name string)]; a failing lookup keeps the record. *)
Definition settlePartial (local : result err (option FileMeta)) (name : string) : X unit :=
  let! rec := partial name in
  match rec with
  | None => retS tt
  | Some rec =>
      match local with
      | Err _ => retS tt
      | Ok local =>
          match CompareState (Some (pt_Meta rec)) local with
          | Gt => retS tt
          | _ => dropPartial rec
          end
      end
  end.

(** The verdict of [loadPartials] on one record: kept or dropped. *)
Definition adoptable (now : Z) (queued : gset string) (files : gmap string scratch) (rec : PartialDownload) : bool :=
  if negb (partialPath (pt_Path rec)) then false
  else if negb (bool_decide (Name (pt_Meta rec) ∈ queued)) then false
  else if partialMaxAge <? now - pt_Updated rec then false
  else match files !! pt_Path rec with
  | None => false
  | Some f => negb (slen (sc_bytes f) <? pt_Verified rec)
  end.

(** [func (s *Syncer) loadPartials()] *)
Definition loadPartials (now : Z) : X unit :=
  do! modifyS (xf_set_partials ∅) then
  let! records := tryS (inDb PartialDownloads) in
  match records with
  | Err _ | Ok [] => retS tt
  | Ok records =>
      let! queued := tryS (inDb (QueuedNames (map (fun r => Name (pt_Meta r)) records))) in
      match queued with
      | Err _ => retS tt
      | Ok queued =>
          forS (fun rec =>
            let! x := getS in
            if adoptable now queued (xf_files x) rec then rememberPartial rec
            else let! _ := tryS (inDb (DropPartialDownload (Name (pt_Meta rec)))) in retS tt) records
      end
  end.

(** ** The stage *)

(** [func hashPrefix(ctx context.Context, h hash.Hash, f *os.File, n int64) error]: the bytes
    hashed, one buffer per turn. *)
Fixpoint hash_loop (fuel : nat) (content hashed : string) (n : Z) : X string :=
  if n <=? 0 then retS hashed
  else match fuel with
  | O => retS hashed
  | S fuel =>
      do! ctxErrX then
      do! sys then
      let chunk := Z.min hashBuffer n in
      let next := firstBytes (slen hashed + chunk) content in
      if slen next <? slen hashed + chunk then failS XPartialStale
      else hash_loop fuel content next (n - chunk)
  end.
Definition hashPrefix (content : string) (n : Z) : X string :=
  do! sys then hash_loop (Z.to_nat (n / hashBuffer) + 1) content "" n.

(** [func (s *Syncer) openPartialFile(rel string) ( *os.File, string, error)]: the storage
    fence, the resolution of both directories and the checks that the file is regular and the
    one looked at are calls that may fail. *)
Definition openPartialFile (rel : string) : X scratch :=
  if negb (partialPath rel) then failS XPartialStale
  else do! sys then do! sys then do! sys then do! sys then
       let! f := file rel in
       match f with
       | None => failS XSys
       | Some f => do! sys then do! sys then retS f
       end.

(** [func (s *Syncer) resumeStage(ctx context.Context, rec store.PartialDownload, meta store.FileMeta) ( *stage, error)] *)
Definition resumeStage (rec : PartialDownload) (meta : FileMeta) : X stage :=
  let! f := openPartialFile (pt_Path rec) in
  do! sys then
  if (pt_Verified rec <=? 0) || (Size meta <=? pt_Verified rec) || (slen (sc_bytes f) <? pt_Verified rec) then failS XPartialStale
  else
    let! hashed := hashPrefix (sc_bytes f) (pt_Verified rec) in
    if negb (sha256Hex hashed =s pt_Prefix rec) then failS XPartialStale
    else
      do! truncateFile (pt_Path rec) (pt_Verified rec) then
      do! sys then
      retS (mkStage meta (pt_Path rec) (pt_Verified rec) (pt_Verified rec) hashed true true true false false true).

(** [func (s *Syncer) resumableStage(ctx context.Context, meta store.FileMeta) ( *stage, error)] *)
Definition resumableStage (meta : FileMeta) : X (option stage) :=
  let! rec := partial (Name meta) in
  match rec with
  | None => retS None
  | Some rec =>
      if (resumableBytes <=? Size meta) && (Hash (pt_Meta rec) =s Hash meta) && (Size (pt_Meta rec) =? Size meta)
      then
        let! r := tryS (resumeStage rec meta) in
        match r with
        | Ok st => retS (Some st)
        | Err _ => do! ctxErrX then do! dropPartial rec then retS None
        end
      else do! dropPartial rec then retS None
  end.

(** [func (s *Syncer) newStage(meta store.FileMeta) ( *stage, error)]; [temp] is the path
    [replicaTemp] creates. *)
Definition newStage (temp : string) (meta : FileMeta) : X stage :=
  do! sys then
  do! setFile temp (mkScratch "" "" false) then
  retS (mkStage meta temp 0 0 "" (resumableBytes <=? Size meta) false false false false true).

(** Its directory entry, flushed once. *)
Definition syncDirOnce (st : stage) : X stage :=
  if negb (sg_dirSynced st) then do! syncDir (sg_rel st) then do! putStage (set_dirSynced true st) then retS (set_dirSynced true st) else retS st.

(** [func (st *stage) checkpoint() error] *)
Definition checkpoint (now : Z) (st : stage) : X stage :=
  do! syncFile (sg_rel st) then
  let! st := syncDirOnce st in
  let rec := mkPartial (sg_meta st) (sg_rel st) (sg_offset st) (sha256Hex (sg_hasher st)) now in
  do! inDb (SavePartialDownload now rec) then
  let st := stage_at (sg_offset st) (sg_offset st) (sg_hasher st) (set_recorded true st) in
  do! putStage st then
  do! rememberPartial rec then
  retS st.

(** [func (st *stage) write(p []byte) error] *)
Definition write (now : Z) (p : string) (st : stage) : X stage :=
  do! writeFile (sg_rel st) (sg_offset st) p then
  let st := stage_at (sg_offset st + slen p) (sg_checkpointed st) (sg_hasher st +:+ p) st in
  do! putStage st then
  if sg_resumable st && (checkpointBytes <=? sg_offset st - sg_checkpointed st) && (sg_offset st <? Size (sg_meta st))
  then let! r := tryS (checkpoint now st) in
       match r with Ok st => retS st | Err _ => let! cur := getStage in retS (default st cur) end
  else retS st.

(** What reading the response body yields: pieces of at most one buffer, then its end. *)
Inductive streamEnd := StreamEOF | StreamFault.

(** [io.LimitReader(body, n)] over such pieces. *)
Fixpoint limitReader (n : Z) (pieces : list string) : list string * option streamEnd :=
  match pieces with
  | [] => ([], None)
  | p :: rest =>
      if n <=? 0 then ([], Some StreamEOF)
      else if n <? slen p then ([firstBytes n p], Some StreamEOF)
      else let '(l, e) := limitReader (n - slen p) rest in (p :: l, e)
  end.

(** [func receive(st *stage, src io.Reader) error] *)
Fixpoint receive (now : Z) (pieces : list string) (theEnd : streamEnd) (st : stage) : X stage :=
  match pieces with
  | [] => match theEnd with StreamEOF => retS st | StreamFault => failS XRead end
  | p :: rest =>
      if 0 <? slen p then
        if Size (sg_meta st) <? sg_offset st + slen p then failS XTooLong
        else
          let! w := tryS (write now p st) in
          match w with
          | Err e => do! putStage (set_invalid true st) then failS e
          | Ok st => receive now rest theEnd st
          end
      else receive now rest theEnd st
  end.

(** [func (st *stage) restart() error] *)
Definition restart (st : stage) : X stage :=
  let! st := (if sg_recorded st
              then do! inDb (DropPartialDownload (Name (sg_meta st))) then
                   let st := set_recorded false st in
                   do! putStage st then do! forgetPartial (Name (sg_meta st)) then retS st
              else retS st) in
  do! truncateFile (sg_rel st) 0 then
  do! sys then
  let st := stage_at 0 0 "" st in
  do! putStage st then retS st.

(** [func (st *stage) closeFile() error] *)
Definition closeFile (st : stage) : X stage :=
  if negb (sg_open st) then retS st
  else do! putStage (set_closed st) then do! sys then retS (set_closed st).

Definition dropRecord (st : stage) : X unit :=
  if sg_recorded st
  then let! _ := tryS (inDb (DropPartialDownload (Name (sg_meta st)))) in forgetPartial (Name (sg_meta st))
  else retS tt.

(** [func (st *stage) discard()] *)
Definition discard (st : stage) : X unit :=
  if sg_done st then retS tt
  else
    let st := set_done true st in
    do! putStage st then
    let! _ := tryS (closeFile st) in
    do! dropRecord st then
    removeScratch (sg_rel st).

(** [func (st *stage) published()]: the rename took the scratch file away. *)
Definition published (st : stage) : X unit :=
  let st := set_done true st in
  do! putStage st then
  let! _ := tryS (closeFile st) in
  dropRecord st.

(** [func (st *stage) release()] *)
Definition release (now : Z) (st : stage) : X unit :=
  if sg_done st then retS tt
  else if negb (sg_invalid st) && sg_resumable st && (0 <? sg_offset st) && (sg_offset st <? Size (sg_meta st))
  then
    let! r := (if sg_checkpointed st <? sg_offset st then tryS (checkpoint now st) else retS (Ok st)) in
    match r with
    | Err _ => let! cur := getStage in discard (default st cur)
    | Ok st => let! _ := tryS (closeFile st) in retS tt
    end
  else discard st.

(** ** The transfer *)

(** [func parseContentRange(value string) (first, last, total int64, ok bool)] *)
Definition parseContentRange (value : string) : option (Z * Z * Z) :=
  if negb (HasPrefix value "bytes ") then None
  else match Cut (TrimPrefix value "bytes ") "/" with
  | None => None
  | Some (span, size) =>
      match Cut span "-" with
      | None => None
      | Some (from, to) =>
          match ParseInt from, ParseInt to, ParseInt size with
          | Some first, Some last, Some total => Some (first, last, total)
          | _, _, _ => None
          end
      end
  end.

(** A peer's answer to the download request. *)
Record reply := mkReply { rp_status : Z; rp_contentRange : string; rp_etag : string; rp_pieces : list string; rp_end : streamEnd }.

Definition quoted (hash : string) : string := String (Ascii.ascii_of_nat 34) (hash +:+ str1 (Ascii.ascii_of_nat 34)).

Definition markInvalid (st : option stage) : X unit :=
  match st with None => retS tt | Some st => putStage (set_invalid true st) end.

(** The switch on the status of the answer. *)
Definition checkStatus (r : reply) (meta : FileMeta) (st : option stage) : X (option stage) :=
  if rp_status r =? 200 then
    match st with
    | None => retS None
    | Some st =>
        let! again := tryS (restart st) in
        match again with
        | Ok st => retS (Some st)
        | Err e => let! cur := getStage in do! markInvalid cur then failS e
        end
    end
  else if rp_status r =? 206 then
    match st, parseContentRange (rp_contentRange r) with
    | Some st', Some (first, last, total) =>
        if (first =? sg_offset st') && (last =? Size meta - 1) && (total =? Size meta)
        then do! modifyS (xf_count_resumed (sg_offset st')) then retS st
        else do! markInvalid st then failS XRange
    | _, _ => do! markInvalid st then failS XRange
    end
  else if rp_status r =? 416 then do! markInvalid st then failS XContentChanged
  else failS (XStatus (rp_status r)).

(** [downloadAndApply] from the request to the flushed scratch file; [send] answers a request
    from the given offset, or not when the request fails or the peer is refused; [temp] is where [replicaTemp] creates a file. The stage that holds
    the verified bytes is returned. *)
Definition fetch (now : Z) (send : Z -> option reply) (temp : string) (meta : FileMeta) : X stage :=
  if (Size meta <? 0) || (Size meta =? MaxInt64) || negb (isSHA256Hex (Hash meta)) then failS XInvalidMeta
  else
    do! ctxErrX then
    let! st := resumableStage meta in
    do! modifyS (xf_set_stage st) then
    let resumeFrom := match st with Some st => sg_offset st | None => 0 end in
    match send resumeFrom with
    | None => failS XRequest
    | Some r =>
        let! st := checkStatus r meta st in
        if negb (rp_etag r =s "") && negb (rp_etag r =s quoted (Hash meta))
        then do! markInvalid st then failS XContentChanged
        else
          let! st := (match st with
                      | Some st => retS st
                      | None => let! st := newStage temp meta in do! putStage st then retS st
                      end) in
          let remaining := Size meta - sg_offset st in
          let '(pieces, cut) := limitReader (remaining + 1) (rp_pieces r) in
          let! got := tryS (receive now pieces (default (rp_end r) cut) st) in
          match got with
          | Err XTooLong => let! cur := getStage in do! markInvalid cur then failS XContentChanged
          | Err e => failS e
          | Ok st =>
              if negb (sg_offset st =? Size meta) then do! putStage (set_invalid true st) then failS XContentChanged
              else if negb (sha256Hex (sg_hasher st) =s Hash meta) then do! putStage (set_invalid true st) then failS XContentChanged
              else
                do! sys then
                do! syncFile (sg_rel st) then
                let! st := closeFile st in
                do! sys then
                retS st
          end
    end.
End Transfer.

(** ** Facts about bytes *)

Lemma stake_length n s : String.length (stake n s) = Nat.min n (String.length s).
Proof. revert s. induction n as [|n IH]; intros [|c s]; simpl; try done. by rewrite IH. Qed.

Lemma stake_all n s : (String.length s <= n)%nat -> stake n s = s.
Proof. revert s. induction n as [|n IH]; intros [|c s]; simpl; intros H; try done; [lia|]. by rewrite IH by lia. Qed.

Lemma stake_stake n m s : (n <= m)%nat -> stake n (stake m s) = stake n s.
Proof. revert m s. induction n as [|n IH]; intros [|m] [|c s] H; simpl; try done; [lia|]. by rewrite IH by lia. Qed.

Lemma slen_firstBytes n s : 0 <= n -> slen (firstBytes n s) = Z.min n (slen s).
Proof. intros H. unfold slen, firstBytes. rewrite stake_length. lia. Qed.

Lemma firstBytes_all s : firstBytes (slen s) s = s.
Proof. unfold firstBytes, slen. rewrite Nat2Z.id. by apply stake_all. Qed.

Lemma dropBytes_all n s : (String.length s <= n)%nat -> dropBytes n s = "".
Proof. revert s. induction n as [|n IH]; intros [|c s] Hn; cbn in *; try done; [lia|]. apply IH. lia. Qed.
Lemma overwrite_end p s : overwrite (slen s) p s = s +:+ p.
Proof.
  unfold overwrite. rewrite firstBytes_all, Z.sub_diag. cbn [Z.to_nat zeros]. rewrite dropBytes_all by (unfold slen; lia). by rewrite string_app_nil_r.
Qed.

Lemma firstBytes_firstBytes n m s : n <= m -> firstBytes n (firstBytes m s) = firstBytes n s.
Proof. intros H. apply stake_stake. lia. Qed.

Lemma stake_app n a b : (n <= String.length a)%nat -> stake n (a +:+ b) = stake n a.
Proof. revert a. induction n as [|n IH]; intros [|c a] H; simpl; try done; [simpl in H; lia|]. simpl in H. by rewrite IH by lia. Qed.

Lemma firstBytes_app n a b : n <= slen a -> firstBytes n (a +:+ b) = firstBytes n a.
Proof. intros H. unfold slen in H. apply stake_app. lia. Qed.

(** ** What the stage and its file have in common *)

(** Assertions about the files and the stage only. *)
Definition onView (P : gmap string scratch -> option stage -> Prop) (x : Xfer) : Prop := P (xf_files x) (xf_stage x).
Definition sameView (x x' : Xfer) : Prop := xf_files x' = xf_files x /\ xf_stage x' = xf_stage x.
#[export] Instance sameView_preorder : PreOrder sameView.
Proof. split; [done|]. intros x y z [H1 H2] [H3 H4]. split; congruence. Qed.

Lemma onView_same P x x' : sameView x x' -> onView P x -> onView P x'.
Proof. unfold onView. by intros [-> ->]. Qed.

Lemma keeps_sys : keeps sameView sys.
Proof. intros x. unfold sys. by destruct (xf_faults x) as [|[] l]. Qed.
Lemma keeps_ctx : keeps sameView ctxErrX.
Proof. intros x. unfold ctxErrX. by destruct (xf_cancel x) as [|[] l]. Qed.
Lemma keeps_inDb {A} (c : St A) : keeps sameView (inDb c).
Proof. intros x. unfold inDb, zoomS. by destruct (c (xf_store x)). Qed.
Lemma keeps_remember rec : keeps sameView (rememberPartial rec).
Proof. by apply keeps_modify. Qed.
Lemma keeps_forget name : keeps sameView (forgetPartial name).
Proof. by apply keeps_modify. Qed.

Lemma view_keeps {A} P (c : X A) : keeps sameView c -> triple (onView P) c (fun _ => onView P) (fun _ => onView P).
Proof. intros H. apply (triple_keeps sameView); [done|]. intros x x'. apply onView_same. Qed.

(** The scratch file holds exactly what was hashed. *)
Definition holds (st : stage) (fs : gmap string scratch) : Prop :=
  exists f, fs !! sg_rel st = Some f /\ sc_bytes f = sg_hasher st /\ slen (sg_hasher st) = sg_offset st.
Definition working (st : stage) : Xfer -> Prop := onView (fun fs cur => holds st fs /\ cur = Some st).

(** Stages that differ in flags only. *)
Definition sameBytes (st st' : stage) : Prop :=
  sg_meta st' = sg_meta st /\ sg_rel st' = sg_rel st /\ sg_offset st' = sg_offset st /\ sg_hasher st' = sg_hasher st.

Lemma holds_same st st' fs : sameBytes st st' -> holds st fs -> holds st' fs.
Proof. intros (_ & H2 & H3 & H4). unfold holds. by rewrite H2, H3, H4. Qed.

(** *** The steps *)

Section Steps.
Context (sha256Hex : string -> string).

(** A call that changes one file when it succeeds and nothing when it fails. *)
Definition touch (rel : string) (g : scratch -> scratch) : X unit :=
  do! sys then let! f := file rel in match f with Some f => setFile rel (g f) | None => retS tt end.

Lemma touch_spec rel g P :
  triple (onView P) (touch rel g)
    (fun _ => onView (fun fs cur => exists fs0, P fs0 cur /\ fs = match fs0 !! rel with Some f => <[rel := g f]> fs0 | None => fs0 end))
    (fun _ => onView P).
Proof.
  intros x Hx. unfold touch, bindS. pose proof (keeps_sys x) as Hk. destruct (sys x) as [[[]|e] x1]; [|by eapply onView_same].
  pose proof (onView_same P x x1 Hk Hx) as H1. cbn. destruct (xf_files x1 !! rel) as [f|] eqn:E; (exists (xf_files x1); split; [exact H1|cbn; by rewrite E]).
Qed.

(** Touching its file so that the bytes stay keeps a stage at work. *)
Lemma touch_working st g : (forall f, sc_bytes (g f) = sc_bytes f) ->
  triple (working st) (touch (sg_rel st) g) (fun _ => working st) (fun _ => working st).
Proof.
  intros Hg. eapply triple_conseq; [apply (touch_spec _ _ (fun fs cur => holds st fs /\ cur = Some st))| | |]; [done| |done].
  intros [] x (fs0 & [(f & Hf & Hb & Hl) Hc] & Efs). unfold working, onView. rewrite Efs. rewrite Hf. split; [|done]. exists (g f). rewrite lookup_insert_eq, Hg. done.
Qed.

Lemma working_keeps {A} st (c : X A) : keeps sameView c -> triple (working st) c (fun _ => working st) (fun _ => working st).
Proof. apply view_keeps. Qed.

Lemma putStage_spec st st' F : sameBytes st st' -> triple (working st) (putStage st') (fun _ => working st') F.
Proof. intros Hs. apply triple_modify. intros x [H1 H2]. split; [|done]. cbn. by eapply holds_same. Qed.

(** Some stage with the same bytes is at work. *)
Definition workingLike (st : stage) (x : Xfer) : Prop := exists st', sameBytes st st' /\ working st' x.

Lemma sameBytes_refl st : sameBytes st st.
Proof. done. Qed.
Lemma sameBytes_trans a b c : sameBytes a b -> sameBytes b c -> sameBytes a c.
Proof. unfold sameBytes. intuition congruence. Qed.

Lemma working_like st st' x : sameBytes st st' -> working st' x -> workingLike st x.
Proof. by exists st'. Qed.

Lemma checkpoint_spec now st :
  triple (working st) (checkpoint sha256Hex now st) (fun st' x => sameBytes st st' /\ working st' x) (fun _ => workingLike st).
Proof.
  assert (forall st', sameBytes st st' -> forall x, working st' x -> workingLike st x) as Hl by (intros; by exists st').
  unfold checkpoint. eapply triple_bind with (Q := fun _ => working st).
  { eapply triple_conseq; [by apply (touch_working st)| | |]; [done|done|]. intros ???. by eapply Hl. }
  intros _. eapply triple_bind with (Q := fun st' x => sameBytes st st' /\ working st' x).
  { unfold syncDirOnce. destruct (negb (sg_dirSynced st)); [|by apply triple_ret].
    eapply triple_bind with (Q := fun _ => working st).
    { eapply triple_conseq; [by apply (touch_working st)| | |]; [done|done|]. intros ???. by eapply Hl. }
    intros _. eapply triple_bind with (Q := fun _ => working (set_dirSynced true st)); [by apply putStage_spec|].
    intros _. by apply triple_ret. }
  intros st1. apply triple_pre. intros Hs1.
  eapply triple_bind with (Q := fun _ => working st1).
  { eapply triple_conseq; [apply working_keeps, keeps_inDb| | |]; [done|done|]. intros ???. by eapply Hl. }
  intros _. set (st2 := stage_at _ _ _ _). assert (sameBytes st st2) as Hs2 by done.
  eapply triple_bind with (Q := fun _ => working st2); [by apply putStage_spec|]. intros _.
  eapply triple_bind with (Q := fun _ => working st2).
  { eapply triple_conseq; [apply working_keeps, keeps_remember| | |]; [done|done|]. intros ???. by eapply Hl. }
  intros _. by apply triple_ret.
Qed.

(** A stage of [meta] at work in the same file, further along. *)
Definition advanced (st st' : stage) : Prop := sg_meta st' = sg_meta st /\ sg_rel st' = sg_rel st.

Lemma write_spec now p st :
  triple (working st) (write sha256Hex now p st)
    (fun st' x => sameBytes (stage_at (sg_offset st + slen p) (sg_checkpointed st) (sg_hasher st +:+ p) st) st' /\ working st' x) (fun _ => working st).
Proof.
  set (st1 := stage_at _ _ _ st). unfold write. fold st1.
  eapply triple_bind with (Q := fun _ => onView (fun fs cur => holds st1 fs /\ cur = Some st)).
  { eapply triple_conseq; [apply (touch_spec (sg_rel st) _ (fun fs cur => holds st fs /\ cur = Some st))| | |]; [done| |done].
    intros [] x (fs0 & [(f & Hf & Hb & Hl) Hc] & Efs). unfold working, onView. rewrite Efs. rewrite Hf. split; [|done]. eexists. rewrite lookup_insert_eq. split; [done|].
    cbn. rewrite Hb, <- Hl, overwrite_end, slen_app. done. }
  intros _. eapply triple_bind with (Q := fun _ => working st1).
  { apply triple_modify. intros x [H1 H2]. done. }
  intros _. destruct (_ && _ && _).
  - eapply triple_bind; [apply triple_try, checkpoint_spec|]. intros [st2|e].
    + by apply triple_ret.
    + apply triple_exists. intros st2. apply triple_pre. intros Hs. unfold getStage. eapply triple_bind; [|intros cur; apply triple_ret].
      { eapply triple_bind; [apply triple_get|]. intros x. apply (triple_ret _ _ (fun cur x => cur = Some st2 /\ working st2 x)). intros x' [-> H]. split; [apply H|done]. }
      intros x [-> H]. done.
  - by apply triple_ret.
Qed.

Lemma receive_spec now pieces theEnd st :
  triple (working st) (receive sha256Hex now pieces theEnd st)
    (fun st' x => advanced st st' /\ working st' x) (fun _ _ => True).
Proof.
  revert st. induction pieces as [|p pieces IH]; intros st; cbn [receive].
  { destruct theEnd; [by apply triple_ret|by apply triple_fail]. }
  destruct (0 <? slen p); [|apply IH]. destruct (_ <? _); [by apply triple_fail|].
  eapply triple_bind; [apply triple_try, write_spec|]. intros [st1|e].
  - apply triple_pre. intros (H1 & H2 & _). eapply triple_conseq; [apply IH| | |]; [done| |done].
    intros st2 x [[A1 A2] Hw]. split; [|done]. split; [by rewrite A1, H1|by rewrite A2, H2].
  - eapply triple_bind with (Q := fun _ _ => True); [by apply triple_modify|]. intros ?. by apply triple_fail.
Qed.

(** Success only: failures end the attempt. *)
Definition succeeds {A} (P : Xfer -> Prop) (c : X A) (Q : A -> Xfer -> Prop) : Prop := triple P c Q (fun _ _ => True).

Lemma succeeds_keeps {A} P (c : X A) : keeps sameView c -> succeeds (onView P) c (fun _ => onView P).
Proof. intros H. eapply triple_conseq; [by apply (view_keeps P)|done|done|done]. Qed.

Lemma working_succeeds {A} st (c : X A) : keeps sameView c -> succeeds (working st) c (fun _ => working st).
Proof. apply succeeds_keeps. Qed.

Lemma restart_spec st : succeeds (working st) (restart st) (fun st' x => advanced st st' /\ working st' x).
Proof.
  unfold restart. eapply triple_bind with (Q := fun st' x => sameBytes st st' /\ working st' x).
  { destruct (sg_recorded st); [|by apply triple_ret].
    eapply triple_bind; [apply working_succeeds, keeps_inDb|]. intros [].
    eapply triple_bind with (Q := fun _ => working (set_recorded false st)); [by apply putStage_spec|]. intros _.
    eapply triple_bind; [apply working_succeeds, keeps_forget|]. intros []. by apply triple_ret. }
  intros st1. apply triple_pre. intros (H1 & H2 & _ & _).
  eapply triple_bind with (Q := fun _ => onView (fun fs cur => exists f, fs !! sg_rel st1 = Some f /\ sc_bytes f = "")).
  { eapply triple_conseq; [apply (touch_spec (sg_rel st1) _ (fun fs cur => holds st1 fs /\ cur = Some st1))| | |]; [done| |done].
    intros [] x (fs0 & [(f & Hf & _) _] & Efs). unfold onView. rewrite Efs, Hf. eexists. rewrite lookup_insert_eq. split; [done|]. by destruct (sc_bytes f). }
  intros _. eapply triple_bind; [apply succeeds_keeps, keeps_sys|]. intros [].
  eapply triple_bind with (Q := fun _ => working (stage_at 0 0 "" st1)).
  { apply triple_modify. intros x (f & Hf & Hb). split; [|done]. by exists f. }
  intros _. by apply triple_ret.
Qed.

Lemma hash_loop_spec fuel content hashed n P :
  hashed = firstBytes (slen hashed) content -> n <= Z.of_nat fuel * hashBuffer -> 0 <= n ->
  succeeds (onView P) (hash_loop fuel content hashed n) (fun h x => (h = firstBytes (slen hashed + n) content /\ slen h = slen hashed + n) /\ onView P x).
Proof.
  revert hashed n. induction fuel as [|fuel IH]; intros hashed n Hh Hn H0.
  all: cbn [hash_loop]; destruct (n <=? 0) eqn:E; [apply Z.leb_le in E; replace n with 0 by lia; rewrite Z.add_0_r; by apply triple_ret|apply Z.leb_gt in E].
  { exfalso. simpl in Hn. lia. }
  eapply triple_bind; [apply succeeds_keeps, keeps_ctx|]. intros []. eapply triple_bind; [apply succeeds_keeps, keeps_sys|]. intros []. cbn zeta.
  assert (0 < hashBuffer) as HB by reflexivity. set (chunk := Z.min hashBuffer n). assert (0 < chunk <= n) as Hc by lia.
  destruct (slen (firstBytes (slen hashed + chunk) content) <? slen hashed + chunk) eqn:Es; [by apply triple_fail|]. apply Z.ltb_ge in Es.
  pose proof (slen_nonneg hashed) as Hnn. pose proof (slen_firstBytes (slen hashed + chunk) content ltac:(lia)) as Hl.
  assert (slen (firstBytes (slen hashed + chunk) content) = slen hashed + chunk) as Hlen by lia.
  eapply triple_conseq; [apply (IH (firstBytes (slen hashed + chunk) content) (n - chunk))| | |]; [by rewrite Hlen| |lia|done| |done].
  - unfold chunk. rewrite Nat2Z.inj_succ, Z.mul_succ_l in Hn. lia.
  - intros h x. rewrite Hlen. by replace (slen hashed + chunk + (n - chunk)) with (slen hashed + n) by lia.
Qed.

Lemma hashPrefix_spec content n P : 0 <= n ->
  succeeds (onView P) (hashPrefix content n) (fun h x => (h = firstBytes n content /\ slen h = n) /\ onView P x).
Proof.
  intros Hn. unfold hashPrefix. eapply triple_bind; [apply succeeds_keeps, keeps_sys|]. intros [].
  apply (hash_loop_spec _ content "" n P); [done| |done]. assert (hashBuffer = 1048576) as -> by reflexivity.
  pose proof (Z.div_mod n 1048576 ltac:(lia)). pose proof (Z.mod_pos_bound n 1048576 ltac:(lia)).
  pose proof (Z.div_pos n 1048576 ltac:(lia) ltac:(lia)). lia.
Qed.

Lemma openPartialFile_spec rel :
  succeeds (fun _ => True) (openPartialFile rel) (fun f => onView (fun fs _ => fs !! rel = Some f)).
Proof.
  unfold openPartialFile. destruct (negb (partialPath rel)); [by apply triple_fail|].
  do 4 (eapply triple_bind with (Q := fun _ _ => True); [by intros x _; destruct (sys x) as [[]?]|]; intros _).
  eapply triple_bind with (Q := fun f => onView (fun fs _ => fs !! rel = f)); [by intros x _|]. intros [f|]; [|by apply triple_fail].
  do 2 (eapply triple_bind; [apply succeeds_keeps, keeps_sys|]; intros []). by apply triple_ret.
Qed.

Lemma resumeStage_spec rec meta :
  succeeds (fun _ => True) (resumeStage sha256Hex rec meta) (fun st => onView (fun fs _ => sg_meta st = meta /\ holds st fs)).
Proof.
  unfold resumeStage. eapply triple_bind; [apply openPartialFile_spec|]. intros f.
  eapply triple_bind; [apply succeeds_keeps, keeps_sys|]. intros [].
  destruct ((pt_Verified rec <=? 0) || (Size meta <=? pt_Verified rec) || (slen (sc_bytes f) <? pt_Verified rec)) eqn:E; [by apply triple_fail|].
  repeat rewrite orb_false_iff in E. destruct E as [[E1 E2] E3]. apply Z.leb_gt in E1.
  eapply triple_bind; [apply hashPrefix_spec; lia|]. intros h. apply triple_pre. intros [-> Hl].
  destruct (negb _); [by apply triple_fail|].
  eapply triple_bind with (Q := fun _ => onView (fun fs _ => exists g, fs !! pt_Path rec = Some g /\ sc_bytes g = firstBytes (pt_Verified rec) (sc_bytes f))).
  { eapply triple_conseq; [apply (touch_spec (pt_Path rec) _ (fun fs _ => fs !! pt_Path rec = Some f))| | |]; [done| |done].
    intros [] x (fs0 & Hf & Efs). unfold onView. rewrite Efs, Hf. eexists. by rewrite lookup_insert_eq. }
  intros _. eapply triple_bind; [apply succeeds_keeps, keeps_sys|]. intros [].
  apply triple_ret. intros x (g & Hg & Hb). split; [done|]. exists g. done.
Qed.

Lemma succeeds_true {A} (c : X A) : succeeds (fun _ => True) c (fun _ _ => True).
Proof. intros x _. by destruct (c x) as [[]?]. Qed.

Lemma resumableStage_spec meta :
  succeeds (fun _ => True) (resumableStage sha256Hex meta)
    (fun r => onView (fun fs _ => match r with Some st => sg_meta st = meta /\ holds st fs | None => True end)).
Proof.
  unfold resumableStage. eapply triple_bind; [apply succeeds_true|]. intros [rec|]; [|by apply triple_ret].
  assert (succeeds (fun _ => True) (do! dropPartial rec then retS (@None stage))
    (fun r => onView (fun fs _ => match r with Some st => sg_meta st = meta /\ holds st fs | None => True end))) as Hd.
  { eapply triple_bind; [apply succeeds_true|]. intros []. by apply triple_ret. }
  destruct (_ && _ && _); [|done]. eapply triple_bind; [apply triple_try, resumeStage_spec|]. intros [st|e].
  - by apply triple_ret.
  - eapply triple_bind with (Q := fun _ _ => True); [|done]. intros x _. by destruct (ctxErrX x) as [[]?].
Qed.

(** Before the bytes arrive: the stage, if any, is at work. *)
Definition staged (meta : FileMeta) (st : option stage) (x : Xfer) : Prop :=
  match st with Some st => sg_meta st = meta /\ working st x | None => True end.

Lemma checkStatus_spec r meta st :
  succeeds (staged meta st) (checkStatus r meta st) (staged meta).
Proof.
  unfold checkStatus. destruct (rp_status r =? 200).
  { destruct st as [st|]; [|by apply triple_ret]. cbn [staged]. apply triple_pre. intros Hm.
    eapply triple_bind; [apply triple_try, restart_spec|]. intros [st1|e].
    - apply triple_pre. intros [H1 _]. apply triple_ret. intros x Hx. split; [congruence|done].
    - eapply triple_bind; [apply succeeds_true|]. intros cur. eapply triple_bind; [apply succeeds_true|]. intros ?. by apply triple_fail. }
  destruct (rp_status r =? 206).
  { destruct st as [st|]; [destruct (parseContentRange _) as [[[first last] total]|]; [destruct (_ && _ && _)|]|].
    { cbn [staged]. apply triple_pre. intros Hm. eapply triple_bind with (Q := fun _ => working st); [by apply triple_modify|]. intros _. by apply triple_ret. }
    all: eapply triple_bind with (Q := fun _ _ => True); [|intros ?; by apply triple_fail].
    all: try (by apply triple_modify); by apply triple_ret. }
  destruct (rp_status r =? 416); [|by apply triple_fail].
  eapply triple_bind with (Q := fun _ _ => True); [|intros ?; by apply triple_fail]. destruct st; [by apply triple_modify|by apply triple_ret].
Qed.

(** A verified scratch file: flushed, of the announced size and hash. *)
Definition verified (meta : FileMeta) (rel : string) (fs : gmap string scratch) : Prop :=
  exists f, fs !! rel = Some f /\ sc_durable f = sc_bytes f /\ slen (sc_bytes f) = Size meta /\ sha256Hex (sc_bytes f) = Hash meta.

Lemma fetch_spec now send temp meta :
  succeeds (fun _ => True) (fetch sha256Hex now send temp meta)
    (fun st => onView (fun fs cur => sg_meta st = meta /\ verified meta (sg_rel st) fs /\ holds st fs /\ cur = Some st)).
Proof.
  unfold fetch. destruct (_ || _ || _); [by apply triple_fail|]. eapply triple_bind; [apply succeeds_true|]. intros [].
  eapply triple_bind; [apply resumableStage_spec|]. intros st0.
  eapply triple_bind with (Q := fun _ => staged meta st0).
  { apply triple_modify. intros x H. destruct st0; [|done]. destruct H as [H1 H2]. split; [done|]. by split. }
  intros _. destruct (send _) as [r|]; [|by apply triple_fail]. eapply triple_bind; [apply checkStatus_spec|]. intros st1.
  destruct (_ && _).
  { eapply triple_bind; [|intros ?; by apply triple_fail]. eapply triple_conseq; [apply succeeds_true|done|done|done]. }
  eapply triple_bind with (Q := fun st x => sg_meta st = meta /\ working st x).
  { destruct st1 as [st|]; [by apply triple_ret|]. eapply triple_bind with (Q := fun st => onView (fun fs _ => sg_meta st = meta /\ holds st fs)).
    - unfold newStage. eapply triple_bind; [eapply triple_conseq; [apply succeeds_true|done|done|done]|]. intros [].
      eapply triple_bind with (Q := fun _ => onView (fun fs _ => fs !! temp = Some (mkScratch "" "" false))).
      + apply triple_modify. intros x _. unfold onView. cbn. by rewrite lookup_insert_eq.
      + intros _. apply triple_ret. intros x Hf. split; [done|]. eexists. by split; [exact Hf|].
    - intros st. eapply triple_bind with (Q := fun _ x => sg_meta st = meta /\ working st x); [|intros _; by apply triple_ret].
      apply triple_modify. intros x [H1 H2]. split; [done|]. by split. }
  intros st2. apply triple_pre. intros Hm2. destruct (limitReader _ _) as [pieces cut].
  eapply triple_bind; [apply triple_try, receive_spec|]. intros [st3|e].
  2:{ destruct e; try by apply triple_fail.
      eapply triple_bind; [apply succeeds_true|]. intros cur. eapply triple_bind; [apply succeeds_true|]. intros ?. by apply triple_fail. }
  apply triple_pre. intros [Hm3 _].
  destruct (sg_offset st3 =? Size meta) eqn:Eo; cbn [negb]; [apply Z.eqb_eq in Eo|by eapply triple_bind; [by apply triple_modify with (Q := fun _ _ => True)|intros ?; by apply triple_fail]].
  destruct (_ =s Hash meta) eqn:Eh; cbn [negb]; [apply String.eqb_eq in Eh|by eapply triple_bind; [by apply triple_modify with (Q := fun _ _ => True)|intros ?; by apply triple_fail]].
  eapply triple_bind; [apply working_succeeds, keeps_sys|]. intros [].
  eapply triple_bind with (Q := fun _ => onView (fun fs cur => verified meta (sg_rel st3) fs /\ holds st3 fs /\ cur = Some st3)).
  { eapply triple_conseq; [apply (touch_spec (sg_rel st3) _ (fun fs cur => holds st3 fs /\ cur = Some st3))| | |]; [done| |done].
    intros [] x (fs0 & [(f & Hf & Hb & Hl) Hc] & Efs). unfold onView. rewrite Efs, Hf. split_and!; [| |done].
    - eexists. rewrite lookup_insert_eq. split; [done|]. cbn. rewrite Hb. split; [done|]. by split; [rewrite Hl|].
    - eexists. rewrite lookup_insert_eq. split; [done|]. cbn. by rewrite Hb. }
  intros _. eapply triple_bind with (Q := fun st => onView (fun fs cur => sg_meta st = meta /\ verified meta (sg_rel st) fs /\ holds st fs /\ cur = Some st)).
  { unfold closeFile. assert (sg_meta st3 = meta) as Hm by congruence. destruct (negb (sg_open st3)); [apply triple_ret; by intros x (A & B & C)|].
    eapply triple_bind with (Q := fun _ => onView (fun fs cur => verified meta (sg_rel st3) fs /\ holds st3 fs /\ cur = Some (set_closed st3))).
    - apply triple_modify. intros x (A & B & C). done.
    - intros _. eapply triple_bind; [apply succeeds_keeps, keeps_sys|]. intros []. apply triple_ret. by intros x (A & B & C). }
  intros st4. eapply triple_bind; [apply succeeds_keeps, keeps_sys|]. intros []. by apply triple_ret.
Qed.
End Steps.

(** ** Without faults *)

Section NoFaults.
Context (sha256Hex : string -> string).

Definition calm (x : Xfer) : Prop := xf_faults x = [] /\ xf_cancel x = [] /\ nofault (xf_store x).

Lemma sys_calm x : calm x -> sys x = (Ok tt, x).
Proof. intros (H & _). unfold sys. by rewrite H. Qed.
Lemma ctx_calm x : calm x -> ctxErrX x = (Ok tt, x).
Proof. intros (_ & H & _). unfold ctxErrX. by rewrite H. Qed.
Lemma touch_calm rel g x : calm x ->
  touch rel g x = (Ok tt, match xf_files x !! rel with Some f => xf_set_files (<[rel := g f]> (xf_files x)) x | None => x end).
Proof. intros H. unfold touch, bindS. rewrite sys_calm by done. cbn. by destruct (xf_files x !! rel). Qed.
Lemma inDb_calm_exec f x : calm x -> inDb (exec f) x = (Ok tt, xf_set_store (set_db (f (db (xf_store x))) (xf_store x)) x).
Proof. intros (_ & _ & H). unfold inDb, zoomS. by rewrite exec_nofault. Qed.

Lemma hash_loop_calm fuel content hashed n x :
  calm x -> n <= Z.of_nat fuel * hashBuffer -> 0 <= n -> slen hashed + n <= slen content -> hashed = firstBytes (slen hashed) content ->
  exists h, hash_loop fuel content hashed n x = (Ok h, x).
Proof.
  intros Hx. revert hashed n. induction fuel as [|fuel IH]; intros hashed n Hn H0 Hl Hh.
  all: cbn [hash_loop]; destruct (n <=? 0) eqn:E; [eexists; reflexivity|apply Z.leb_gt in E].
  { exfalso. simpl in Hn. lia. }
  rewrite bindS_run, ctx_calm, bindS_run, sys_calm by done. cbn zeta. assert (0 < hashBuffer) as HB by reflexivity.
  set (chunk := Z.min hashBuffer n). assert (0 < chunk <= n) as Hc by lia. pose proof (slen_nonneg hashed) as Hnn.
  pose proof (slen_firstBytes (slen hashed + chunk) content ltac:(lia)) as Hlen. rewrite Z.min_l in Hlen by lia.
  rewrite Hlen, Z.ltb_irrefl. apply IH.
  - unfold chunk. rewrite Nat2Z.inj_succ, Z.mul_succ_l in Hn. lia.
  - lia.
  - rewrite Hlen. lia.
  - by rewrite Hlen.
Qed.

Lemma hashPrefix_calm content n x : calm x -> 0 <= n <= slen content -> hashPrefix content n x = (Ok (firstBytes n content), x).
Proof.
  intros Hx Hn. assert (exists h, hashPrefix content n x = (Ok h, x)) as [h Hh].
  { unfold hashPrefix. rewrite bindS_run, sys_calm by done. apply hash_loop_calm; [done| |lia|change (slen "") with 0; lia|done].
    assert (hashBuffer = 1048576) as -> by reflexivity. pose proof (Z.div_mod n 1048576 ltac:(lia)). pose proof (Z.mod_pos_bound n 1048576 ltac:(lia)).
    pose proof (Z.div_pos n 1048576 ltac:(lia) ltac:(lia)). lia. }
  rewrite Hh. pose proof (triple_Ok _ _ _ _ x h x (hashPrefix_spec content n (fun _ _ => True) (proj1 Hn)) I Hh) as [[-> _] _]. done.
Qed.

(** A record whose prefix the file still holds is resumed where it stopped. *)
Lemma resumableStage_calm x meta rec f :
  calm x -> xf_partials x !! Name meta = Some rec -> resumableBytes <= Size meta -> Hash (pt_Meta rec) = Hash meta -> Size (pt_Meta rec) = Size meta ->
  partialPath (pt_Path rec) = true -> xf_files x !! pt_Path rec = Some f -> 0 < pt_Verified rec < Size meta -> pt_Verified rec <= slen (sc_bytes f) ->
  sha256Hex (firstBytes (pt_Verified rec) (sc_bytes f)) = pt_Prefix rec ->
  exists st x', resumableStage sha256Hex meta x = (Ok (Some st), x') /\ sg_offset st = pt_Verified rec /\ sg_hasher st = firstBytes (pt_Verified rec) (sc_bytes f).
Proof.
  intros Hx Hp Hr Hh Hs Hpp Hf Hv Hl Hsha. unfold resumableStage. rewrite bindS_run. cbn. rewrite Hp.
  rewrite (proj2 (Z.leb_le _ _)) by done. rewrite Hh, Hs, String.eqb_refl, Z.eqb_refl. cbn [andb].
  assert (exists st x', resumeStage sha256Hex rec meta x = (Ok st, x') /\ sg_offset st = pt_Verified rec /\ sg_hasher st = firstBytes (pt_Verified rec) (sc_bytes f)) as (st & x' & E & H1 & H2).
  { unfold resumeStage. rewrite bindS_run. unfold openPartialFile. rewrite Hpp. cbn [negb].
    do 4 rewrite bindS_run, sys_calm by done. rewrite bindS_run. cbn [file getS retS bindS]. rewrite Hf. do 2 rewrite bindS_run, sys_calm by done. cbn [retS].
    rewrite bindS_run, sys_calm by done. rewrite (proj2 (Z.leb_gt _ 0)), (proj2 (Z.leb_gt (Size meta) _)), (proj2 (Z.ltb_ge _ _)) by lia. cbn [orb].
    rewrite bindS_run, hashPrefix_calm by (done || lia). rewrite Hsha, String.eqb_refl. cbn [negb].
    rewrite bindS_run. change (truncateFile (pt_Path rec) (pt_Verified rec)) with (touch (pt_Path rec) (fun g => mkScratch (firstBytes (pt_Verified rec) (sc_bytes g)) (firstBytes (pt_Verified rec) (sc_durable g)) (sc_entry g))).
    rewrite touch_calm, Hf by done. rewrite bindS_run. match goal with |- context [sys ?y] => assert (calm y) as Hy by done end.
    rewrite sys_calm by done. by eexists _, _. }
  rewrite bindS_run. unfold tryS. rewrite E. by eexists _, _.
Qed.
End NoFaults.

(** ** The names with queued work *)

Lemma QueuedNames_loop_spec fuel names acc s : nofault s -> (length names <= fuel)%nat ->
  exists q, QueuedNames_loop fuel names acc s = (Ok q, s) /\ acc ⊆ q /\
    (forall n peer row, n ∈ names -> repair_queue (db s) !! (peer, n) = Some row -> n ∈ q).
Proof.
  intros Hs. revert names acc. induction fuel as [|fuel IH]; intros names acc Hl.
  { destruct names; [|simpl in Hl; lia]. exists acc. split; [done|]. split; [done|]. set_solver. }
  destruct names as [|n0 names]; [exists acc; split; [done|]; split; [done|]; set_solver|].
  cbn [QueuedNames_loop]. rewrite bindS_run, query_nofault by done.
  set (found := list_to_set _ : gset string). destruct (IH (drop 500 (n0 :: names)) (acc ∪ found)) as (q & -> & Hsub & Hq).
  { rewrite length_drop. simpl length in *. lia. }
  exists q. split; [done|]. split; [set_solver|]. intros n peer row Hn Hrow.
  rewrite <- (take_drop 500 (n0 :: names)) in Hn. apply elem_of_app in Hn as [Hn|Hn]; [|by eapply Hq].
  apply Hsub, elem_of_union_r. unfold found. apply elem_of_list_to_set, list_elem_of_filter. split; [done|].
  apply list_elem_of_fmap. exists ((peer, n), row). split; [done|]. by apply elem_of_map_to_list.
Qed.

(** ** A restart *)

Section Restart.
Context (sha256Hex : string -> string).

Definition adopt (now : Z) (queued : gset string) (rec : PartialDownload) : X unit :=
  let! x := getS in
  if adoptable now queued (xf_files x) rec then rememberPartial rec
  else let! _ := tryS (inDb (DropPartialDownload (Name (pt_Meta rec)))) in retS tt.

Lemma adopt_calm now queued rec y : calm y ->
  exists y', adopt now queued rec y = (Ok tt, y') /\ calm y' /\ xf_files y' = xf_files y /\
    (adoptable now queued (xf_files y) rec = true -> xf_partials y' !! Name (pt_Meta rec) = Some rec) /\
    (forall n, n <> Name (pt_Meta rec) -> xf_partials y' !! n = xf_partials y !! n).
Proof.
  intros Hy. unfold adopt. rewrite bindS_run. cbn [getS]. destruct (adoptable _ _ _ _).
  - eexists. split; [reflexivity|]. split; [done|]. split; [done|]. cbn. split; [intros _; by rewrite lookup_insert_eq|].
    intros n Hn. by rewrite lookup_insert_ne.
  - rewrite bindS_run. unfold tryS, DropPartialDownload. rewrite inDb_calm_exec by done. eexists. split; [reflexivity|]. done.
Qed.

Lemma adopt_all now queued rec l y :
  calm y -> (forall r, r ∈ l -> Name (pt_Meta r) = Name (pt_Meta rec) -> r = rec) -> adoptable now queued (xf_files y) rec = true ->
  rec ∈ l \/ xf_partials y !! Name (pt_Meta rec) = Some rec ->
  exists y', forS (adopt now queued) l y = (Ok tt, y') /\ calm y' /\ xf_files y' = xf_files y /\ xf_partials y' !! Name (pt_Meta rec) = Some rec.
Proof.
  revert y. induction l as [|r l IH]; intros y Hy Hu Ha Hr; [destruct Hr as [?%elem_of_nil|?]; [done|by exists y]|].
  cbn [forS]. rewrite bindS_run. destruct (adopt_calm now queued r y Hy) as (y1 & -> & Hy1 & Hf & Hk & Ho).
  destruct (IH y1) as (y2 & -> & Hy2 & Hf2 & Hp); [done|intros; apply Hu; [set_solver|done]|by rewrite Hf| |].
  - destruct (decide (Name (pt_Meta r) = Name (pt_Meta rec))) as [En|En].
    + right. assert (r = rec) as -> by (apply Hu; [set_solver|done]). by apply Hk.
    + destruct Hr as [[->|Hr]%elem_of_cons|Hr]; [done|by left|right; by rewrite Ho].
  - exists y2. split; [done|]. split; [done|]. split; [congruence|done].
Qed.

Lemma loadPartials_calm now x n row rec f peer qrow :
  calm x -> partials_ok (db (xf_store x)) -> partial_downloads (db (xf_store x)) !! n = Some row -> scanPartial row = Ok rec ->
  repair_queue (db (xf_store x)) !! (peer, n) = Some qrow -> partialPath (pt_Path rec) = true -> now - pt_Updated rec <= partialMaxAge ->
  xf_files x !! pt_Path rec = Some f -> pt_Verified rec <= slen (sc_bytes f) ->
  exists x', loadPartials now x = (Ok tt, x') /\ calm x' /\ xf_files x' = xf_files x /\ xf_partials x' !! n = Some rec.
Proof.
  intros Hx Hok Hrow Hscan Hq Hpath Hage Hf Hlen. unfold loadPartials. rewrite bindS_run. cbn [modifyS]. set (x0 := xf_set_partials ∅ x).
  assert (calm x0) as Hx0 by done. assert (forall k r p, partial_downloads (db (xf_store x)) !! k = Some r -> scanPartial r = Ok p -> Name (pt_Meta p) = k) as Hname.
  { intros k r p Hr Hp. destruct (Hok k r Hr) as (m & Hm & <-). unfold scanPartial in Hp. rewrite Hm in Hp. by injection Hp as <-. }
  pose proof (Hname _ _ _ Hrow Hscan) as Hn. rewrite bindS_run. unfold tryS at 1.
  destruct (PartialDownloads_total (xf_store x)) as (ps & Hps & Hin); [apply Hx|done|].
  assert (inDb PartialDownloads x0 = (Ok ps, x0)) as -> by (unfold inDb, zoomS; change (xf_store x0) with (xf_store x); rewrite Hps; by destruct x).
  assert (rec ∈ ps) as Hrec by (apply Hin; eauto).
  destruct ps as [|p0 ps']; [by apply elem_of_nil in Hrec|]. set (ps := p0 :: ps') in *. rewrite bindS_run. unfold tryS at 1.
  destruct (QueuedNames_loop_spec (length (map (fun r => Name (pt_Meta r)) ps)) (map (fun r => Name (pt_Meta r)) ps) ∅ (xf_store x)) as (q & Hqn & _ & Hqs); [apply Hx|done|].
  assert (inDb (QueuedNames (map (fun r => Name (pt_Meta r)) ps)) x0 = (Ok q, x0)) as -> by (unfold inDb, zoomS, QueuedNames; cbn [x0 xf_store xf_set_partials]; rewrite Hqn; by destruct x).
  assert (n ∈ q) as Hnq. { eapply Hqs; [|exact Hq]. apply list_elem_of_fmap. by exists rec. }
  assert (adoptable now q (xf_files x0) rec = true) as Ha.
  { unfold adoptable. rewrite Hpath, bool_decide_true by by rewrite Hn. cbn [negb x0 xf_files xf_set_partials].
    rewrite (proj2 (Z.ltb_ge _ _)) by lia. rewrite Hf, (proj2 (Z.ltb_ge _ _)) by done. done. }
  destruct (adopt_all now q rec ps x0 Hx0) as (x' & E & Hx' & Hf' & Hp'); [|done|by left|].
  { intros r Hr Enr. apply Hin in Hr as (k & rr & Hk & Hs). assert (k = n) as -> by (rewrite <- (Hname _ _ _ Hk Hs), <- Hn; done). congruence. }
  exists x'. split; [exact E|]. split; [done|]. split; [done|]. by rewrite <- Hn.
Qed.

(** A stage that may be kept: bytes arrived since the last checkpoint, the end did not. *)
Definition keepable (st : stage) : Prop :=
  sg_done st = false /\ sg_invalid st = false /\ sg_resumable st = true /\ 0 <= sg_checkpointed st < sg_offset st /\ sg_offset st < Size (sg_meta st).

Definition savedRow (now : Z) (st : stage) : partial_row :=
  mkPartialRow (json_Marshal (sg_meta st)) (sg_rel st) (sg_offset st) (sha256Hex (sg_hasher st)) now.

Lemma release_calm now st x f : calm x -> keepable st -> xf_files x !! sg_rel st = Some f -> sc_bytes f = sg_hasher st ->
  (sg_dirSynced st = true -> sc_entry f = true) ->
  exists x', release sha256Hex now st x = (Ok tt, x') /\
    db (xf_store x') = upd_partials (fun t => <[Name (sg_meta st) := savedRow now st]> t) (db (xf_store x)) /\
    xf_files x' !! sg_rel st = Some (mkScratch (sg_hasher st) (sg_hasher st) true).
Proof.
  intros Hx (Hd & Hi & Hr & Hc & Hs) Hf Hb He. unfold release. rewrite Hd, Hi, Hr. rewrite (proj2 (Z.ltb_lt 0 _)), (proj2 (Z.ltb_lt (sg_offset st) _)) by lia. cbn [negb andb].
  rewrite (proj2 (Z.ltb_lt (sg_checkpointed st) _)) by lia. rewrite bindS_run. unfold tryS.
  assert (exists x1 st1, checkpoint sha256Hex now st x = (Ok st1, x1) /\ calm x1 /\
    db (xf_store x1) = upd_partials (fun t => <[Name (sg_meta st) := savedRow now st]> t) (db (xf_store x)) /\
    xf_files x1 !! sg_rel st = Some (mkScratch (sg_hasher st) (sg_hasher st) true)) as (x1 & st1 & -> & Hx1 & Hdb & Hf1).
  { unfold checkpoint. rewrite bindS_run. change (syncFile (sg_rel st)) with (touch (sg_rel st) (fun g => mkScratch (sc_bytes g) (sc_bytes g) (sc_entry g))).
    rewrite touch_calm, Hf by done. set (xa := xf_set_files _ x). assert (calm xa) as Hxa by done.
    assert (xf_files xa !! sg_rel st = Some (mkScratch (sg_hasher st) (sg_hasher st) (sc_entry f))) as Hfa by (cbn; by rewrite lookup_insert_eq, Hb).
    rewrite bindS_run.
    assert (exists xb stb, syncDirOnce st xa = (Ok stb, xb) /\
       calm xb /\ sameBytes st stb /\ xf_store xb = xf_store x /\ xf_files xb !! sg_rel st = Some (mkScratch (sg_hasher st) (sg_hasher st) true)) as (xb & stb & -> & Hxb & (B1 & B2 & B3 & B4) & Hsb & Hfb).
    { unfold syncDirOnce. destruct (sg_dirSynced st) eqn:Eds; cbn [negb].
      - exists xa, st. split; [done|]. split; [done|]. split; [done|]. split; [done|]. by rewrite Hfa, (He eq_refl).
      - rewrite bindS_run. change (syncDir (sg_rel st)) with (touch (sg_rel st) (fun g => mkScratch (sc_bytes g) (sc_durable g) true)).
        rewrite touch_calm, Hfa by done. eexists _, _. split; [reflexivity|]. split; [done|]. split; [done|]. split; [done|]. cbn. by rewrite lookup_insert_eq. }
    cbn zeta. rewrite bindS_run. unfold SavePartialDownload. rewrite inDb_calm_exec by done. eexists _, _. split; [reflexivity|]. split; [done|].
    cbn. rewrite Hsb, B1, B2, B3, B4. done. }
  rewrite bindS_run. unfold tryS, closeFile. destruct (sg_open st1); cbn [negb].
  - rewrite bindS_run. cbn [putStage modifyS]. rewrite bindS_run. match goal with |- context [sys ?y] => assert (calm y) as Hy by done end.
    rewrite sys_calm by done. eexists. split; [reflexivity|]. done.
  - eexists. split; [reflexivity|]. done.
Qed.
End Restart.

(** ** Properties *)

(** After a crash: the database as committed, and in every file whose entry was flushed the
    bytes that were. *)
Definition afterCrash (x x' : Xfer) : Prop :=
  db (xf_store x') = db (xf_store x) /\
  forall rel f, xf_files x !! rel = Some f -> sc_entry f = true -> exists f', xf_files x' !! rel = Some f' /\ HasPrefix (sc_bytes f') (sc_durable f) = true.

(** C18. A transfer only ever hands on a file that is flushed and has the announced size and
    hash, whatever the peer sent, whichever calls failed, and whatever partial file and record
    it resumed from. *)
Theorem fetch_verified (sha256Hex : string -> string) (now : Z) (send : Z -> option reply) (temp : string) (meta : FileMeta) (st : stage) (x x' : Xfer) :
  fetch sha256Hex now send temp meta x = (Ok st, x') ->
  exists f, xf_files x' !! sg_rel st = Some f /\ sc_durable f = sc_bytes f /\ slen (sc_bytes f) = Size meta /\ sha256Hex (sc_bytes f) = Hash meta.
Proof. intros E. by pose proof (triple_Ok _ _ _ _ x st x' (fetch_spec sha256Hex now send temp meta) I E) as (_ & Hv & _). Qed.

(** C19. An interrupted transfer goes on where it stopped: after the attempt is released, a crash
    and a restart within a week, as long as the name is queued, the next attempt asks the peer
    for exactly the bytes that are missing. *)
Theorem interrupted_transfer_resumes (sha256Hex : string -> string) (now now2 : Z) (st : stage) (x : Xfer) (f : scratch) (peer : string) (qrow : repair_row) (meta : FileMeta) :
  calm x -> keepable st -> xf_files x !! sg_rel st = Some f -> sc_bytes f = sg_hasher st -> slen (sg_hasher st) = sg_offset st ->
  (sg_dirSynced st = true -> sc_entry f = true) -> partialPath (sg_rel st) = true -> resumableBytes <= Size meta ->
  Name meta = Name (sg_meta st) -> Hash meta = Hash (sg_meta st) -> Size meta = Size (sg_meta st) ->
  partials_ok (db (xf_store x)) -> repair_queue (db (xf_store x)) !! (peer, Name meta) = Some qrow -> now2 - now <= partialMaxAge ->
  exists x1, release sha256Hex now st x = (Ok tt, x1) /\
  forall x2, afterCrash x1 x2 -> calm x2 ->
  exists x3 st2 x4, loadPartials now2 x2 = (Ok tt, x3) /\ resumableStage sha256Hex meta x3 = (Ok (Some st2), x4) /\
    sg_offset st2 = sg_offset st /\ sg_hasher st2 = sg_hasher st.
Proof.
  intros Hx Hk Hf Hb Hl He Hpath Hres Hn Hh Hs Hok Hq Hage. pose proof Hk as (_ & _ & _ & Hc & Ho).
  destruct (release_calm sha256Hex now st x f Hx Hk Hf Hb He) as (x1 & -> & Hdb & Hf1). exists x1. split; [done|].
  intros x2 [Hdb2 Hfs] Hx2. destruct (Hfs _ _ Hf1 eq_refl) as (f2 & Hf2 & Hp). cbn in Hp. apply HasPrefix_spec in Hp as [more Hp]. rewrite Hdb in Hdb2.
  set (rec := mkPartial (without_DeletedAt (sg_meta st)) (sg_rel st) (sg_offset st) (sha256Hex (sg_hasher st)) now).
  assert (sg_offset st <= slen (sc_bytes f2)) as Hlen by (rewrite Hp, slen_app, Hl; pose proof (slen_nonneg more); lia).
  destruct (loadPartials_calm now2 x2 (Name meta) (savedRow sha256Hex now st) rec f2 peer qrow) as (x3 & E3 & Hx3 & Hf3 & Hp3); try done.
  - unfold partials_ok. rewrite Hdb2. apply map_Forall_insert_2; [by eexists|done].
  - rewrite Hdb2. cbn. rewrite Hn. by rewrite lookup_insert_eq.
  - by rewrite Hdb2.
  - assert (firstBytes (sg_offset st) (sc_bytes f2) = sg_hasher st) as Hfb by (rewrite Hp, <- Hl, firstBytes_app, firstBytes_all by lia; done).
    destruct (resumableStage_calm sha256Hex x3 meta rec f2) as (st2 & x4 & E4 & H1 & H2); try done; [by rewrite Hf3|cbn; lia|cbn; by rewrite Hfb|].
    exists x3, st2, x4. split; [done|]. split; [done|]. split; [done|]. by rewrite H2.
Qed.

(** ** Witnesses *)

Definition bigMeta (size : Z) : FileMeta := {|
  Name := "apk"; ModTime := 1; Size := size; Hash := sha0; Deleted := false; Version := 1;
  BigClock := ""; Clock := 5; SupersededBy := ""; ConflictOf := ""; DeletedAt := 0 |}.
Definition queuedRow : repair_row := mkRepairRow 1 0 0 0 "" (EncMeta (bigMeta 1048576)) 1 false.
Definition idleTransfer (files : gmap string scratch) : Xfer :=
  mkXfer (freshStore (upd_queue (fun t => <[("peer", "apk") := queuedRow]> t) emptyDB) []) ∅ files [] [] None 0 0.
Definition answer (body : list string) (from : Z) : option reply := Some (mkReply 200 "" "" body StreamEOF).
Definition halfStage : stage := mkStage (bigMeta 1048576) ".birak-tmp-replica-1" 3 0 "abc" true false false false false true.
Definition halfFile : scratch := mkScratch "abc" "" false.

Definition firstAttempt : result xerr stage * Xfer := fetch (fun _ => sha0) 0 (answer ["he"; "llo"]) ".birak-tmp-replica-1" (bigMeta 5) (idleTransfer ∅).
Definition helloStage : stage := mkStage (bigMeta 5) ".birak-tmp-replica-1" 5 0 "hello" false false false false false false.

Lemma fetch_verified_witness :
  firstAttempt.1 = Ok helloStage /\
  exists f, xf_files firstAttempt.2 !! ".birak-tmp-replica-1" = Some f /\ sc_durable f = sc_bytes f /\ slen (sc_bytes f) = 5 /\ sha0 = sha0.
Proof.
  assert (firstAttempt.1 = Ok helloStage) as E by (vm_compute; reflexivity). split; [exact E|].
  apply (fetch_verified (fun _ => sha0) 0 (answer ["he"; "llo"]) ".birak-tmp-replica-1" (bigMeta 5) helloStage (idleTransfer ∅) firstAttempt.2).
  rewrite <- E. apply surjective_pairing.
Defined.

Lemma interrupted_transfer_resumes_witness :
  exists x1, release (fun s => s) 10 halfStage (idleTransfer {[".birak-tmp-replica-1" := halfFile]}) = (Ok tt, x1) /\
  forall x2, afterCrash x1 x2 -> calm x2 ->
  exists x3 st2 x4, loadPartials 20 x2 = (Ok tt, x3) /\ resumableStage (fun s => s) (bigMeta 1048576) x3 = (Ok (Some st2), x4) /\
    sg_offset st2 = 3 /\ sg_hasher st2 = "abc".
Proof.
  apply (interrupted_transfer_resumes (fun s => s) 10 20 halfStage (idleTransfer {[".birak-tmp-replica-1" := halfFile]}) halfFile "peer" queuedRow (bigMeta 1048576)).
  - done.
  - unfold keepable. cbn. lia.
  - apply lookup_singleton_eq.
  - reflexivity.
  - reflexivity.
  - done.
  - vm_compute. reflexivity.
  - vm_compute. discriminate.
  - reflexivity.
  - reflexivity.
  - reflexivity.
  - apply map_Forall_empty.
  - vm_compute. reflexivity.
  - vm_compute. discriminate.
Defined.
