(* ===== verification/Scheduler.v ===== *)
(** * The apply scheduler and the per-name lock

    internal/syncer/syncer.go: [repairPeer], the loop that drains one peer's queue with two
    lanes of workers, and [keyedMutex], which serializes work on one name across peers. Both
    are step relations: a step is one turn of the loop, the end of one worker, or one critical
    section of a goroutine; other goroutines may change the store between any two steps. *)

From S2P Require Import Prelude GoStrings FileMeta Database RepairQueue Store.

(** ** State of the loop *)

(** A completion: the name, the lane (true is large) and whether bookkeeping failed. *)
Record completion := mkCompletion { cp_name : string; cp_large : bool; cp_failed : bool }.

Record sched := mkSched {
  sd_small : Z;                          (* lanes[0].active *)
  sd_large : Z;                          (* lanes[1].active *)
  sd_active : gset string;
  sd_paused : bool;
  sd_running : list (RepairItem * bool); (* the workers, with their lane *)
  sd_completed : list completion;        (* the channel's buffer *)
  sd_returned : bool                     (* the loop is over; only workers are left *)
}.

Definition newSched : sched := mkSched 0 0 ∅ false [] [] false.

Definition laneActive (large : bool) (d : sched) : Z := if large then sd_large d else sd_small d.
Definition addActive (large : bool) (n : Z) (d : sched) : sched :=
  mkSched (if large then sd_small d else sd_small d + n) (if large then sd_large d + n else sd_large d)
    (sd_active d) (sd_paused d) (sd_running d) (sd_completed d) (sd_returned d).
Definition setActive (a : gset string) (d : sched) : sched := mkSched (sd_small d) (sd_large d) a (sd_paused d) (sd_running d) (sd_completed d) (sd_returned d).
Definition setPaused (b : bool) (d : sched) : sched := mkSched (sd_small d) (sd_large d) (sd_active d) b (sd_running d) (sd_completed d) (sd_returned d).
Definition setRunning (l : list (RepairItem * bool)) (d : sched) : sched := mkSched (sd_small d) (sd_large d) (sd_active d) (sd_paused d) l (sd_completed d) (sd_returned d).
Definition setCompleted (l : list completion) (d : sched) : sched := mkSched (sd_small d) (sd_large d) (sd_active d) (sd_paused d) (sd_running d) l (sd_returned d).
Definition setReturned (d : sched) : sched := mkSched (sd_small d) (sd_large d) (sd_active d) (sd_paused d) (sd_running d) (sd_completed d) true.

(** ** One turn *)

Section Loop.
Context (limit : Z) (peer : string).

(** Starting one worker. *)
Definition start (large : bool) (item : RepairItem) (d : sched) : sched :=
  setRunning (sd_running d ++ [(item, large)]) (addActive large 1 (setActive ({[ri_Name item]} ∪ sd_active d) d)).

(** The loop over the items of a lane; [ctx] is what each look at the context finds. *)
Fixpoint dispatch_items (large : bool) (ctx : list bool) (items : list RepairItem) (d : sched) : sched :=
  match items with
  | [] => d
  | item :: rest =>
      match ctx with
      | true :: _ => setReturned d
      | _ =>
          if decide (ri_Name item ∈ sd_active d) then dispatch_items large (tail ctx) rest d
          else
            let d := start large item d in
            if laneActive large d =? limit then d else dispatch_items large (tail ctx) rest d
      end
  end.

(** One lane: true tells to go on with the next. *)
Definition dispatch_lane (now : Z) (large : bool) (ctx : list bool) (s : Store) (d : sched) : bool * Store * sched :=
  if laneActive large d =? limit then (true, s, d)
  else match DueRepairsInLane now peer large limit s with
  | (Err _, s) => (false, s, setPaused true d)
  | (Ok items, s) => let d := dispatch_items large ctx items d in (negb (sd_returned d), s, d)
  end.

(** The body after the select; [cancelled] is what [ctx.Err()] tells. *)
Definition dispatch (now : Z) (cancelled : bool) (ctx1 ctx2 : list bool) (s : Store) (d : sched) : Store * sched :=
  if cancelled then (s, setReturned d)
  else if sd_paused d then (s, d)
  else
    let '(go, s, d) := dispatch_lane now false ctx1 s d in
    if go then let '(_, s, d) := dispatch_lane now true ctx2 s d in (s, d) else (s, d).

(** The completion taken from the channel. *)
Definition complete (c : completion) (d : sched) : sched :=
  let d := addActive (cp_large c) (-1) (setActive (sd_active d ∖ {[cp_name c]}) d) in
  if cp_failed c then setPaused true d else d.

(** [func (s *Syncer) repairPeer(ctx context.Context, peerURL string)], with its workers. *)
Inductive step : sched -> sched -> Prop :=
  | step_timer d now cancelled ctx1 ctx2 s : sd_returned d = false -> step d (dispatch now cancelled ctx1 ctx2 s (setPaused false d)).2
  | step_wake d now cancelled ctx1 ctx2 s : sd_returned d = false -> step d (dispatch now cancelled ctx1 ctx2 s d).2
  | step_completed d c rest now cancelled ctx1 ctx2 s : sd_returned d = false -> sd_completed d = c :: rest ->
      step d (dispatch now cancelled ctx1 ctx2 s (complete c (setCompleted rest d))).2
  | step_return d : sd_returned d = false -> step d (setReturned d)
  | step_worker d before item large after failed :
      sd_running d = before ++ (item, large) :: after -> Z.of_nat (length (sd_completed d)) < 2 * limit ->
      step d (setCompleted (sd_completed d ++ [mkCompletion (ri_Name item) large failed]) (setRunning (before ++ after) d)).

Inductive steps : sched -> sched -> Prop :=
  | steps_refl d : steps d d
  | steps_step d1 d2 d3 : steps d1 d2 -> step d2 d3 -> steps d1 d3.

(** ** The invariant *)

(** Everything in flight: workers and completions not yet taken. *)
Definition inFlight (d : sched) : list (string * bool) :=
  map (fun p => (ri_Name p.1, p.2)) (sd_running d) ++ map (fun c => (cp_name c, cp_large c)) (sd_completed d).
Definition inLane (large : bool) (l : list (string * bool)) : Z := Z.of_nat (length (base.filter (fun p => p.2 = large) l)).

Record sched_inv (d : sched) : Prop := {
  si_nodup : NoDup (map fst (inFlight d));
  si_active : forall n, n ∈ sd_active d <-> n ∈ map fst (inFlight d);
  si_small : sd_small d = inLane false (inFlight d);
  si_large : sd_large d = inLane true (inFlight d);
  si_limits : sd_small d <= limit /\ sd_large d <= limit
}.

Lemma inLane_app large l1 l2 : inLane large (l1 ++ l2) = inLane large l1 + inLane large l2.
Proof. unfold inLane. rewrite filter_app, length_app. lia. Qed.

Lemma inLane_cons large p l : inLane large (p :: l) = (if Bool.eqb p.2 large then 1 else 0) + inLane large l.
Proof. unfold inLane. rewrite filter_cons. destruct p as [n b]; cbn [snd]. destruct b, large; case_decide; done || (cbn [Bool.eqb length]; lia). Qed.

Lemma inLane_perm large l1 l2 : l1 ≡ₚ l2 -> inLane large l1 = inLane large l2.
Proof. intros H. unfold inLane. by rewrite H. Qed.

Lemma inLane_total l : inLane false l + inLane true l = Z.of_nat (length l).
Proof. induction l as [|[n []] l IH]; [done| |]; rewrite !inLane_cons; cbn [Bool.eqb snd length]; lia. Qed.

(** The invariant speaks of what is in flight, not of its order. *)
Lemma sched_inv_perm d d' : inFlight d' ≡ₚ inFlight d -> sd_active d' = sd_active d -> sd_small d' = sd_small d -> sd_large d' = sd_large d ->
  sched_inv d -> sched_inv d'.
Proof.
  intros Hp Ha Hs Hl [H1 H2 H3 H4 H5]. split.
  - by rewrite Hp.
  - intros n. by rewrite Ha, H2, Hp.
  - by rewrite Hs, H3, (inLane_perm _ _ _ Hp).
  - by rewrite Hl, H4, (inLane_perm _ _ _ Hp).
  - by rewrite Hs, Hl.
Qed.

Lemma start_inv large item d : sched_inv d -> ri_Name item ∉ sd_active d -> laneActive large d < limit -> sched_inv (start large item d).
Proof.
  intros [H1 H2 H3 H4 H5] Hn Hl.
  assert (inFlight (start large item d) ≡ₚ (ri_Name item, large) :: inFlight d) as Hp.
  { unfold inFlight. cbn. rewrite map_app. cbn. rewrite <- app_assoc. cbn. by rewrite <- Permutation_middle. }
  split.
  - rewrite Hp. cbn. constructor; [by rewrite <- H2|done].
  - intros n. rewrite Hp. cbn. rewrite elem_of_union, elem_of_singleton, H2, elem_of_cons. done.
  - rewrite (inLane_perm _ _ _ Hp), inLane_cons, <- H3. destruct large; cbn; lia.
  - rewrite (inLane_perm _ _ _ Hp), inLane_cons, <- H4. destruct large; cbn; lia.
  - destruct large; cbn in *; lia.
Qed.

Lemma dispatch_items_inv large ctx items d : sched_inv d -> laneActive large d < limit -> sched_inv (dispatch_items large ctx items d).
Proof.
  revert ctx d. induction items as [|item items IH]; intros ctx d Hd Hl; [done|]. cbn [dispatch_items].
  set (k := match ctx with true :: _ => setReturned d | _ => _ end).
  assert (k = setReturned d \/ k = (if decide (ri_Name item ∈ sd_active d) then dispatch_items large (tail ctx) items d
          else let d := start large item d in if laneActive large d =? limit then d else dispatch_items large (tail ctx) items d)) as [-> | ->].
  { unfold k. destruct ctx as [|[] ctx]; auto. }
  { by apply (sched_inv_perm d). }
  case_decide as Ha; [by apply IH|]. cbn zeta. pose proof (start_inv large item d Hd Ha Hl) as Hs.
  destruct (laneActive large (start large item d) =? limit) eqn:E; [done|]. apply Z.eqb_neq in E. apply IH; [done|].
  destruct large; cbn in *; lia.
Qed.

Lemma dispatch_lane_inv now large ctx s d : sched_inv d -> sched_inv (dispatch_lane now large ctx s d).2.
Proof.
  intros Hd. unfold dispatch_lane. destruct (laneActive large d =? limit) eqn:E; [done|]. apply Z.eqb_neq in E.
  destruct (DueRepairsInLane now peer large limit s) as [[items|e] s']; cbn; [|by apply (sched_inv_perm d)].
  apply dispatch_items_inv; [done|]. destruct Hd as [_ _ _ _ Hl]. destruct large; cbn in *; lia.
Qed.

Lemma dispatch_inv now cancelled ctx1 ctx2 s d : sched_inv d -> sched_inv (dispatch now cancelled ctx1 ctx2 s d).2.
Proof.
  intros Hd. unfold dispatch. destruct cancelled; [by apply (sched_inv_perm d)|]. destruct (sd_paused d); [done|]. pose proof (dispatch_lane_inv now false ctx1 s d Hd) as H1.
  destruct (dispatch_lane now false ctx1 s d) as [[go s1] d1]. cbn in H1. destruct go; [|done].
  pose proof (dispatch_lane_inv now true ctx2 s1 d1 H1) as H2. by destruct (dispatch_lane now true ctx2 s1 d1) as [[go s2] d2].
Qed.

Lemma complete_inv c rest d : sched_inv d -> sd_completed d = c :: rest -> sched_inv (complete c (setCompleted rest d)).
Proof.
  intros [H1 H2 H3 H4 H5] Hc. set (d' := complete c (setCompleted rest d)).
  assert (inFlight d ≡ₚ (cp_name c, cp_large c) :: inFlight d') as Hp.
  { unfold inFlight. rewrite Hc. cbn. unfold d', complete. destruct (cp_failed c); cbn; by rewrite Permutation_middle. }
  assert (sd_active d' = sd_active d ∖ {[cp_name c]} /\ sd_small d' = (if cp_large c then sd_small d else sd_small d - 1) /\ sd_large d' = (if cp_large c then sd_large d - 1 else sd_large d)) as (Ea & Es & El).
  { unfold d', complete. destruct (cp_failed c), (cp_large c); cbn; done. }
  rewrite Hp in H1. cbn in H1. apply NoDup_cons in H1 as [Hni H1]. split.
  - done.
  - intros n. rewrite Ea, elem_of_difference, elem_of_singleton, H2, Hp. cbn. rewrite elem_of_cons. split; [intros [[->|?] ?]; done|].
    intros Hn. split; [by right|]. intros ->. done.
  - rewrite Es, H3, (inLane_perm _ _ _ Hp), inLane_cons. cbn. destruct (cp_large c); cbn; lia.
  - rewrite El, H4, (inLane_perm _ _ _ Hp), inLane_cons. cbn. destruct (cp_large c); cbn; lia.
  - rewrite Es, El. destruct (cp_large c); lia.
Qed.

Lemma step_inv d d' : step d d' -> sched_inv d -> sched_inv d'.
Proof.
  intros Hs Hd. destruct Hs as [d now z c1 c2 s _|d now z c1 c2 s _|d c rest now z c1 c2 s _ Hc|d _|d before item large after failed Hr _].
  - apply dispatch_inv. by apply (sched_inv_perm d).
  - by apply dispatch_inv.
  - apply dispatch_inv. by apply complete_inv.
  - by apply (sched_inv_perm d).
  - apply (sched_inv_perm d); try done. unfold inFlight. rewrite Hr. cbn. rewrite !map_app. cbn.
    set (a := map _ before). set (b := map _ after). set (c := map _ (sd_completed d)). set (x := (_, _)).
    rewrite <- !app_assoc. cbn. apply Permutation_app_head. rewrite (Permutation_cons_append (b ++ c)). by rewrite <- app_assoc.
Qed.

Lemma steps_inv d d' : steps d d' -> sched_inv d -> sched_inv d'.
Proof. induction 1; eauto using step_inv. Qed.

Lemma newSched_inv : 0 <= limit -> sched_inv newSched.
Proof. intros H. split; cbn; try done. - constructor. - intros n. set_solver. Qed.

Lemma inLane_le large d : sched_inv d -> inLane large (inFlight d) <= limit.
Proof. intros [_ _ H1 H2 H3]. destruct large; lia. Qed.

(** Room for every completion still to come. *)
Lemma completed_room d : sched_inv d -> Z.of_nat (length (sd_running d)) + Z.of_nat (length (sd_completed d)) <= 2 * limit.
Proof.
  intros Hd. pose proof (inLane_le false d Hd). pose proof (inLane_le true d Hd). pose proof (inLane_total (inFlight d)) as H1.
  unfold inFlight in H1 at 3. rewrite length_app, !length_map in H1. lia.
Qed.

Lemma steps_trans d1 d2 d3 : steps d1 d2 -> steps d2 d3 -> steps d1 d3.
Proof. intros H1 H2. induction H2; eauto using steps_step. Qed.

(** A worker that is done can always leave. *)
Lemma worker_leaves d before item large after failed : sched_inv d -> sd_running d = before ++ (item, large) :: after ->
  step d (setCompleted (sd_completed d ++ [mkCompletion (ri_Name item) large failed]) (setRunning (before ++ after) d)).
Proof.
  intros Hd Hr. apply step_worker; [done|]. pose proof (completed_room d Hd) as H1. rewrite Hr, length_app in H1. cbn in H1. lia.
Qed.

Lemma workers_drain d : sched_inv d -> exists d', steps d d' /\ sd_running d' = [].
Proof.
  remember (length (sd_running d)) as n eqn:En. revert d En. induction n as [|n IH]; intros d En Hd.
  { exists d. split; [constructor|]. by apply nil_length_inv. }
  destruct (sd_running d) as [|[item large] after] eqn:Er; [done|]. injection En as En.
  pose proof (worker_leaves d [] item large after false Hd Er) as Hs. cbn [app] in Hs.
  destruct (IH (setCompleted (sd_completed d ++ [mkCompletion (ri_Name item) large false]) (setRunning after d)) En (step_inv _ _ Hs Hd)) as (d' & H1 & H2). exists d'. split; [|done].
  eapply steps_trans; [|exact H1]. eapply steps_step; [constructor|exact Hs].
Qed.

(** ** Filling the lanes *)

Lemma start_active large item d n : n ∈ sd_active (start large item d) <-> n = ri_Name item \/ n ∈ sd_active d.
Proof. cbn. set_solver. Qed.

Lemma dispatch_items_active large ctx items d n : n ∈ sd_active d -> n ∈ sd_active (dispatch_items large ctx items d).
Proof.
  revert ctx d. induction items as [|item items IH]; intros ctx d Hn; [done|]. cbn [dispatch_items].
  destruct ctx as [|[] ctx]; [|done|]; (case_decide; [by apply IH|]; cbn zeta;
    destruct (_ =? _); [|apply IH]; apply start_active; by right).
Qed.

Lemma dispatch_items_returned large items d : sd_returned (dispatch_items large [] items d) = sd_returned d.
Proof. revert d. induction items as [|item items IH]; intros d; [done|]. cbn [dispatch_items]. case_decide; [apply IH|]. cbn zeta. by destruct (_ =? _); [|rewrite IH]. Qed.

(** Undisturbed, a pass over a lane fills it or starts everything it was given. *)
Lemma dispatch_items_fills large items d :
  laneActive large (dispatch_items large [] items d) = limit \/
  forall item, item ∈ items -> ri_Name item ∈ sd_active (dispatch_items large [] items d).
Proof.
  revert d. induction items as [|item items IH]; intros d; [right; set_solver|]. cbn [dispatch_items].
  case_decide as Ha; [destruct (IH d) as [?|H1]; [by left|right] | cbn zeta; destruct (_ =? _) eqn:E; [left; by apply Z.eqb_eq|];
    destruct (IH (start large item d)) as [?|H1]; [by left|right]];
  intros i [->|Hi]%elem_of_cons; auto; apply dispatch_items_active; [done|apply start_active; by left].
Qed.

Lemma scanItems_names rows items : scanItems rows = Ok items -> map ri_Name items = map (fun kv => kv.1.2) rows.
Proof.
  revert items. induction rows as [|kv rows IH]; intros items E; simpl in E; [by injection E as <-|].
  destruct (itemOf kv) as [i|e] eqn:Ei; [|done]. destruct (scanItems rows) as [its|e]; [|done]. injection E as <-.
  cbn. rewrite (IH its eq_refl). apply itemOf_Ok in Ei as (_ & -> & _). done.
Qed.

Lemma dueRows_NoDup w d now : NoDup (map (fun kv => kv.1.2) (dueRows w d now peer limit)).
Proof.
  apply NoDup_fmap_2_strong; [|unfold dueRows].
  - intros [[p1 n1] r1] [[p2 n2] r2] H1 H2 E. apply elem_of_dueRows in H1 as (A1 & _ & _ & L1), H2 as (A2 & _ & _ & L2).
    cbn in *. subst. rewrite L1 in L2. by injection L2 as ->.
  - assert (NoDup (merge_sort by_due (base.filter (fun kv : (string * string) * repair_row =>
       kv.1.1 = peer /\ w kv.2 = true /\ rr_next_attempt kv.2 <= now) (map_to_list (repair_queue d))))) as H.
    { rewrite merge_sort_Permutation. apply NoDup_filter, NoDup_map_to_list. }
    match type of H with NoDup ?l => destruct (sql_limit_prefix limit l) as [k Ek] end. rewrite Ek in H. by apply NoDup_app in H as [? _].
Qed.

Lemma inLane_elem (names : list string) large l : NoDup names -> (forall n, n ∈ names -> (n, large) ∈ l) -> Z.of_nat (length names) <= inLane large l.
Proof.
  intros Hn Hin. unfold inLane. apply inj_le. transitivity (length (map (fun n => (n, large)) names)); [by rewrite length_map|].
  apply submseteq_length, NoDup_submseteq.
  - apply NoDup_fmap_2; [intros ?? [= ->]; done|done].
  - intros p (n & -> & H)%list_elem_of_fmap. apply list_elem_of_filter. auto.
Qed.

Lemma laneActive_inv large d : sched_inv d -> laneActive large d = inLane large (inFlight d).
Proof. intros [_ _ H1 H2 _]. by destruct large. Qed.

(** Rows that are all in flight in their own lane are no more than its workers. *)
Lemma page_in_lane large items d : sched_inv d -> NoDup (map ri_Name items) -> (forall item, item ∈ items -> ri_Name item ∈ sd_active d) ->
  (forall item, item ∈ items -> (ri_Name item, negb large) ∉ inFlight d) -> Z.of_nat (length items) <= laneActive large d.
Proof.
  intros Hd Hn Ha Ho. rewrite (laneActive_inv large d Hd). rewrite <- (length_map ri_Name). apply inLane_elem; [done|].
  intros n (item & -> & Hi)%list_elem_of_fmap. pose proof (Ha item Hi) as H. apply (si_active _ Hd), list_elem_of_fmap in H as ([n b] & En & Hin).
  cbn in En. subst n. destruct (decide (b = large)) as [->|Hb]; [done|]. exfalso. apply (Ho item Hi).
  by replace (negb large) with b by (destruct b, large; done).
Qed.

(** What a lane's page leaves out when it is short. *)
Lemma DueRepairsInLane_page now large s items : 0 < limit -> DueRepairsInLane now peer large limit s = (Ok items, s) ->
  NoDup (map ri_Name items) /\
  (Z.of_nat (length items) < limit -> forall name row, repair_queue (db s) !! (peer, name) = Some row -> rr_next_attempt row <= now ->
     rr_large row = large -> exists item, item ∈ items /\ ri_Name item = name).
Proof.
  intros Hl E. unfold DueRepairsInLane, bindS in E. destruct (query _ s) as [[rows|e] s1] eqn:Eq; [|done].
  apply query_Ok in Eq as [-> _]. injection E as E. apply scanItems_names in E as En. split; [rewrite En; apply dueRows_NoDup|].
  intros Hlen name row Hk Hn Hr. rewrite <- (length_map ri_Name), En, length_map in Hlen.
  destruct (dueRows_complete (fun r => Bool.eqb (rr_large r) large) (db s) now peer limit (peer, name) row) as [Hin|[Hbad _]]; try done.
  { by rewrite Hr, Bool.eqb_reflx. }
  2:{ lia. }
  assert (name ∈ map ri_Name items) as Hnm.
  { rewrite En. apply list_elem_of_fmap. by exists ((peer, name), row). }
  apply list_elem_of_fmap in Hnm as (item & -> & Hi). eauto.
Qed.
End Loop.

(** ** Properties *)

(** C33. The apply loop of a peer, in every state it can reach under any timing of ticks, wake-ups,
    finishing workers, failures and cancellation, and whatever else changes the store: no two
    workers run on one name, a lane never has more workers than its limit, and a worker that
    finishes always finds room for its completion, whether the loop still runs or has returned,
    so waiting for the workers at shutdown ends. *)
Theorem repairPeer_no_deadlock (limit : Z) (peer : string) (d : sched) :
  0 <= limit -> steps limit peer newSched d ->
  NoDup (map (fun w => ri_Name w.1) (sd_running d)) /\
  (forall large, inLane large (map (fun w => (ri_Name w.1, w.2)) (sd_running d)) <= limit) /\
  (forall before item large after failed, sd_running d = before ++ (item, large) :: after ->
     step limit peer d (setCompleted (sd_completed d ++ [mkCompletion (ri_Name item) large failed]) (setRunning (before ++ after) d))) /\
  (exists d', steps limit peer d d' /\ sd_running d' = []).
Proof.
  intros Hl Hs. pose proof (steps_inv _ _ _ _ Hs (newSched_inv limit Hl)) as Hd. repeat split.
  - pose proof (si_nodup _ _ Hd) as H. unfold inFlight in H. rewrite map_app, map_map in H. by apply NoDup_app in H as [? _].
  - intros large. pose proof (inLane_le limit large d Hd) as H. unfold inFlight in H. rewrite inLane_app in H. unfold inLane in *. lia.
  - intros. by apply worker_leaves.
  - by apply (workers_drain limit peer).
Qed.

(** A turn of the apply loop leaves no slot idle: unless it is cancelled, after a pass over a
    lane the lane is full, or every due row of the lane is in flight, or one of the rows of its
    page is still running in the other lane, which it entered with another size. *)
Theorem dispatch_lane_work_conserving (limit : Z) (peer : string) (now : Z) (large : bool) (s : Store) (d : sched) (items : list RepairItem) :
  0 < limit -> steps limit peer newSched d -> sd_returned d = false -> DueRepairsInLane now peer large limit s = (Ok items, s) ->
  exists d', dispatch_lane limit peer now large [] s d = (true, s, d') /\
    (laneActive large d' = limit \/
     (forall name row, repair_queue (db s) !! (peer, name) = Some row -> rr_next_attempt row <= now -> rr_large row = large -> name ∈ sd_active d') \/
     (exists item, item ∈ items /\ (ri_Name item, negb large) ∈ inFlight d')).
Proof.
  intros Hl Hs Hr E. pose proof (steps_inv _ _ _ _ Hs (newSched_inv limit ltac:(lia))) as Hd. unfold dispatch_lane.
  destruct (laneActive large d =? limit) eqn:Ef; [exists d; split; [done|left; by apply Z.eqb_eq]|]. rewrite E.
  exists (dispatch_items limit large [] items d). split; [by rewrite dispatch_items_returned, Hr|].
  set (d' := dispatch_items _ _ _ _ _). apply Z.eqb_neq in Ef.
  assert (laneActive large d < limit) as Hlane.
  { pose proof (inLane_le limit large d Hd). rewrite <- (laneActive_inv limit) in H by done. lia. }
  pose proof (dispatch_items_inv limit large [] items d Hd Hlane : sched_inv limit d') as Hd'.
  destruct (decide (laneActive large d' = limit)) as [?|Hnf]; [by left|]. right.
  destruct (dispatch_items_fills limit large items d) as [?|Ha]; [done|]. fold d' in Ha.
  destruct (decide (Exists (fun item => (ri_Name item, negb large) ∈ inFlight d') items)) as [Hx|Hx]; [right; by apply Exists_exists in Hx|].
  left. destruct (DueRepairsInLane_page limit peer now large s items Hl E) as [Hn Hp]. intros name row Hk Hnow Hlg.
  pose proof (page_in_lane limit large items d' Hd' Hn Ha ltac:(intros item Hi Hin; apply Hx, Exists_exists; eauto)) as H.
  pose proof (inLane_le limit large d' Hd') as H2. rewrite <- (laneActive_inv limit) in H2 by done.
  destruct (Hp ltac:(lia) name row Hk Hnow Hlg) as (item & Hi & <-). by apply Ha.
Qed.

(** ** Examples *)

Definition oneWorker : sched := (dispatch 1 "p" 5 false [] [] oneQueued newSched).2.

Lemma oneWorker_reached : steps 1 "p" newSched oneWorker.
Proof. eapply steps_step; [constructor|]. apply (step_wake 1 "p" newSched 5 false [] [] oneQueued). reflexivity. Qed.

Lemma repairPeer_no_deadlock_witness :
  map (fun w => ri_Name w.1) (sd_running oneWorker) = ["a"] /\ exists d', steps 1 "p" oneWorker d' /\ sd_running d' = [].
Proof.
  split; [vm_compute; reflexivity|].
  apply (repairPeer_no_deadlock 1 "p" oneWorker ltac:(lia) oneWorker_reached).
Defined.

(** A row of the large lane starts; while it runs its source shrinks, and another small file is
    queued behind it. The page of one row that the small lane reads holds the running name only:
    the small lane stays idle with a due row waiting. *)
Definition bigFile (name : string) (mtime : Z) : FileMeta := mkFileMeta name mtime LargeRepairBytes "ab" false 0 "" 0 "" "" 0.
Definition bigQueued : Store := (enqueue 5 "p" "sync" [changeOf (bigFile "a" 50)] emptyQueue).2.
Definition bigWorker : sched := (dispatch 1 "p" 5 false [] [] bigQueued newSched).2.
Definition shrunkQueued : Store :=
  (enqueue 7 "p" "sync" [changeOf (fileAt "b" 1)] (enqueue 6 "p" "sync" [changeOf (fileAt "a" 60)] bigQueued).2).2.

(** A row that changed lanes while it ran leaves a free slot of its new lane unused. *)
Theorem lane_change_idles_slot :
  steps 1 "p" newSched bigWorker /\
  exists d', dispatch_lane 1 "p" 8 false [] shrunkQueued bigWorker = (true, shrunkQueued, d') /\
    laneActive false d' = 0 /\ "b" ∉ sd_active d' /\
    exists row, repair_queue (db shrunkQueued) !! ("p", "b") = Some row /\ rr_next_attempt row <= 8 /\ rr_large row = false.
Proof.
  split; [eapply steps_step; [constructor|]; apply (step_wake 1 "p" newSched 5 false [] [] bigQueued); reflexivity|].
  exists bigWorker. split; [vm_compute; reflexivity|]. split; [vm_compute; reflexivity|].
  split; [apply (bool_decide_eq_false_1 ("b" ∈ sd_active bigWorker)); vm_compute; reflexivity|].
  eexists. split; [vm_compute; reflexivity|]. cbn. split; [lia|done].
Qed.

Lemma dispatch_lane_work_conserving_witness :
  exists d', dispatch_lane 1 "p" 5 false [] oneQueued newSched = (true, oneQueued, d') /\ laneActive false d' = 1.
Proof.
  assert (DueRepairsInLane 5 "p" false 1 oneQueued = (Ok [itemA], oneQueued)) as E by (vm_compute; reflexivity).
  destruct (dispatch_lane_work_conserving 1 "p" 5 false oneQueued newSched [itemA] ltac:(lia) (steps_refl _ _ _) eq_refl E) as (d' & H & _).
  exists d'. split; [exact H|]. assert (dispatch_lane 1 "p" 5 false [] oneQueued newSched = (true, oneQueued, oneWorker)) as E2 by (vm_compute; reflexivity).
  rewrite E2 in H. injection H as <-. vm_compute. reflexivity.
Defined.

(** ** The per-name lock *)

Module Keyed.

(** [type keyedEntry]: the mutex is a flag, the entry an address of the heap. *)
Record keyedEntry := mkEntry { ke_held : bool; ke_refs : Z }.

(** A goroutine between its call of [lock] and the end of the release function: it waits for the
    entry's mutex, holds it, or has unlocked it and not yet dropped its reference. *)
Inductive phase := Waiting | Holding | Releasing.
#[export] Instance phase_eq_dec : EqDecision phase.
Proof. solve_decision. Defined.

Record thread := mkThread { th_key : string; th_entry : nat; th_phase : phase }.
#[export] Instance thread_eq_dec : EqDecision thread.
Proof. solve_decision. Defined.

(** [type keyedMutex], with the heap its pointers lead into and the goroutines that use it. *)
Record keyedMutex := mkKeyed { km_locks : gmap string nat; km_heap : gmap nat keyedEntry; km_threads : list thread }.
Definition newKeyedMutex : keyedMutex := mkKeyed ∅ ∅ [].

Definition incRefs (n : Z) (e : keyedEntry) : keyedEntry := mkEntry (ke_held e) (ke_refs e + n).
Definition setHeld (b : bool) (e : keyedEntry) : keyedEntry := mkEntry b (ke_refs e).

(** [lock], up to the release of the table's mutex: the entry is found or made, and referenced. *)
Definition lock_ref (key : string) (k : keyedMutex) : keyedMutex :=
  let '(entry, locks, heap) :=
    match km_locks k !! key with
    | Some entry => (entry, km_locks k, km_heap k)
    | None => let entry := fresh (dom (km_heap k)) in (entry, <[key := entry]> (km_locks k), <[entry := mkEntry false 0]> (km_heap k))
    end in
  mkKeyed locks (alter (incRefs 1) entry heap) (mkThread key entry Waiting :: km_threads k).

(** The last section of the release function. *)
Definition unref (key : string) (entry : nat) (threads : list thread) (k : keyedMutex) : keyedMutex :=
  let heap := alter (incRefs (-1)) entry (km_heap k) in
  let zero := match heap !! entry with Some e => ke_refs e =? 0 | None => false end in
  mkKeyed (if zero then delete key (km_locks k) else km_locks k) heap threads.

(** [func (k *keyedMutex) lock(key string) func()] and the function it returns. *)
Inductive kstep : keyedMutex -> keyedMutex -> Prop :=
  | kstep_lock k key : kstep k (lock_ref key k)
  | kstep_acquire k before key entry after e :
      km_threads k = before ++ mkThread key entry Waiting :: after -> km_heap k !! entry = Some e -> ke_held e = false ->
      kstep k (mkKeyed (km_locks k) (alter (setHeld true) entry (km_heap k)) (before ++ mkThread key entry Holding :: after))
  | kstep_unlock k before key entry after :
      km_threads k = before ++ mkThread key entry Holding :: after ->
      kstep k (mkKeyed (km_locks k) (alter (setHeld false) entry (km_heap k)) (before ++ mkThread key entry Releasing :: after))
  | kstep_unref k before key entry after :
      km_threads k = before ++ mkThread key entry Releasing :: after ->
      kstep k (unref key entry (before ++ after) k).

Inductive ksteps : keyedMutex -> keyedMutex -> Prop :=
  | ksteps_refl k : ksteps k k
  | ksteps_step k1 k2 k3 : ksteps k1 k2 -> kstep k2 k3 -> ksteps k1 k3.

(** ** Counting goroutines *)

Fixpoint count (f : thread -> bool) (l : list thread) : Z :=
  match l with [] => 0 | t :: l => (if f t then 1 else 0) + count f l end.
Definition uses (entry : nat) (t : thread) : bool := Nat.eqb (th_entry t) entry.
Definition holds (entry : nat) (t : thread) : bool := Nat.eqb (th_entry t) entry && bool_decide (th_phase t = Holding).

Lemma count_app f l1 l2 : count f (l1 ++ l2) = count f l1 + count f l2.
Proof. induction l1 as [|t l1 IH]; cbn [count app]; lia. Qed.

Lemma count_nonneg f l : 0 <= count f l.
Proof. induction l as [|t l IH]; cbn; [lia|destruct (f t); lia]. Qed.

Lemma count_replace f before t t' after : count f (before ++ t' :: after) = count f (before ++ t :: after) - (if f t then 1 else 0) + (if f t' then 1 else 0).
Proof. rewrite !count_app. cbn [count]. lia. Qed.

Lemma count_remove f before t after : count f (before ++ after) = count f (before ++ t :: after) - (if f t then 1 else 0).
Proof. rewrite !count_app. cbn [count]. lia. Qed.

Lemma count_zero f l t : count f l = 0 -> t ∈ l -> f t = false.
Proof.
  induction l as [|t' l IH]; [set_solver|]. cbn. pose proof (count_nonneg f l). intros H1 [->|Ht]%elem_of_cons; [destruct (f t'); lia|].
  apply IH; [|done]. destruct (f t'); lia.
Qed.

(** ** The invariant *)

Record entry_inv (l : list thread) (entry : nat) (e : keyedEntry) : Prop := {
  ei_refs : ke_refs e = count (uses entry) l;
  ei_live : 0 < ke_refs e;
  ei_held : count (holds entry) l = if ke_held e then 1 else 0
}.

Record keyed_inv (k : keyedMutex) : Prop := {
  ki_threads : forall t, t ∈ km_threads k -> km_locks k !! th_key t = Some (th_entry t);
  ki_entries : forall key entry, km_locks k !! key = Some entry -> exists e, km_heap k !! entry = Some e /\ entry_inv (km_threads k) entry e;
  ki_inj : forall key1 key2 entry, km_locks k !! key1 = Some entry -> km_locks k !! key2 = Some entry -> key1 = key2
}.

Lemma newKeyedMutex_inv : keyed_inv newKeyedMutex.
Proof. split; cbn; [set_solver| |]; intros *; rewrite lookup_empty; done. Qed.

(** A step changes one entry; the others keep their counts. *)
Lemma entry_inv_other (l l' : list thread) (entry : nat) (e : keyedEntry) : entry_inv l entry e ->
  count (uses entry) l' = count (uses entry) l -> count (holds entry) l' = count (holds entry) l -> entry_inv l' entry e.
Proof. intros [H1 H2 H3] Hu Hh. split; [by rewrite Hu|done|by rewrite Hh]. Qed.

Lemma uses_not entry t : th_entry t <> entry -> uses entry t = false /\ holds entry t = false.
Proof. intros H. unfold holds, uses. by rewrite (proj2 (Nat.eqb_neq _ _) H). Qed.

Lemma uses_self key entry p : uses entry (mkThread key entry p) = true /\ holds entry (mkThread key entry p) = bool_decide (p = Holding).
Proof. unfold holds, uses. cbn. by rewrite Nat.eqb_refl. Qed.

(** A goroutine moves from one phase to another at its entry. *)
Lemma move_inv (k : keyedMutex) (before : list thread) (key : string) (entry : nat) (after : list thread) (p p' : phase) (b : bool) :
  keyed_inv k -> km_threads k = before ++ mkThread key entry p :: after ->
  (forall e, km_heap k !! entry = Some e -> (if b then 1 else 0) = (if ke_held e then 1 else 0) - (if bool_decide (p = Holding) then 1 else 0) + (if bool_decide (p' = Holding) then 1 else 0)) ->
  keyed_inv (mkKeyed (km_locks k) (alter (setHeld b) entry (km_heap k)) (before ++ mkThread key entry p' :: after)).
Proof.
  intros [H1 H2 H3] Ht Hb. split; cbn [km_locks km_heap km_threads]; [| |done].
  - intros t Hin. destruct (decide (t = mkThread key entry p')) as [->|Hn].
    + apply (H1 (mkThread key entry p)). rewrite Ht. set_solver.
    + apply H1. rewrite Ht. set_solver.
  - intros key' entry' Hk. destruct (H2 key' entry' Hk) as (e & He & Hi). destruct (decide (entry' = entry)) as [->|Hne].
    + exists (setHeld b e). rewrite lookup_alter_eq, He. split; [done|]. destruct Hi as [I1 I2 I3]. rewrite Ht in I1, I3.
      destruct (uses_self key entry p) as [U1 U2], (uses_self key entry p') as [V1 V2].
      split; cbn; [rewrite (count_replace _ _ (mkThread key entry p)), U1, V1; lia|done|].
      rewrite (count_replace _ _ (mkThread key entry p)), U2, V2, I3. pose proof (Hb e He) as Hb'. destruct b; lia.
    + exists e. rewrite lookup_alter_ne by done. split; [done|]. apply (entry_inv_other (km_threads k)); [done| |]; rewrite Ht;
      rewrite (count_replace _ _ (mkThread key entry p)); destruct (uses_not entry' (mkThread key entry p) (not_eq_sym Hne)) as [U1 U2];
      destruct (uses_not entry' (mkThread key entry p') (not_eq_sym Hne)) as [V1 V2]; rewrite ?U1, ?U2, ?V1, ?V2; lia.
Qed.

Lemma count_none f l : (forall t, t ∈ l -> f t = false) -> count f l = 0.
Proof. induction l as [|t l IH]; intros H; [done|]. cbn [count]. rewrite (H t) by set_solver. rewrite IH; [done|]. intros; apply H; set_solver. Qed.

Lemma fresh_unused k t : keyed_inv k -> t ∈ km_threads k -> th_entry t <> fresh (dom (km_heap k)).
Proof.
  intros [H1 H2 _] Ht E. destruct (H2 _ _ (H1 t Ht)) as (e & He & _). apply (is_fresh (dom (km_heap k))).
  rewrite <- E. apply elem_of_dom. by exists e.
Qed.

Lemma lock_ref_inv key k : keyed_inv k -> keyed_inv (lock_ref key k).
Proof.
  intros Hk. pose proof Hk as [H1 H2 H3]. unfold lock_ref. destruct (km_locks k !! key) as [entry|] eqn:E.
  - split; cbn [km_locks km_heap km_threads]; [|intros key' entry' Hk'|done].
    + intros t [->|Ht]%elem_of_cons; [done|by apply H1].
    + destruct (H2 key' entry' Hk') as (e & He & [I1 I2 I3]). destruct (decide (entry' = entry)) as [->|Hne].
      * exists (incRefs 1 e). rewrite lookup_alter_eq, He. split; [done|]. destruct (uses_self key entry Waiting) as [U1 U2]. change (bool_decide (Waiting = Holding)) with false in U2.
        split; cbn [km_threads count incRefs ke_refs ke_held]; rewrite ?U1, ?U2; lia.
      * exists e. rewrite lookup_alter_ne by done. split; [done|]. destruct (uses_not entry' (mkThread key entry Waiting) (not_eq_sym Hne)) as [U1 U2].
        split; cbn [km_threads count]; rewrite ?U1, ?U2; lia.
  - set (entry := fresh (dom (km_heap k))).
    assert (forall key' entry', km_locks k !! key' = Some entry' -> entry' <> entry) as Hf.
    { intros key' entry' Hk' ->. destruct (H2 _ _ Hk') as (e & He & _). apply (is_fresh (dom (km_heap k))), elem_of_dom. by exists e. }
    split; cbn [km_locks km_heap km_threads].
    + intros t [->|Ht]%elem_of_cons; [by rewrite lookup_insert_eq|]. pose proof (H1 t Ht) as Hl.
      rewrite lookup_insert_ne; [done|]. intros Hkey. rewrite <- Hkey, E in Hl. done.
    + intros key' entry' [[<- <-]|[Hne Hk']]%lookup_insert_Some.
      * exists (mkEntry false 1). rewrite lookup_alter_eq, lookup_insert_eq. split; [done|].
        destruct (uses_self key entry Waiting) as [U1 U2]. change (bool_decide (Waiting = Holding)) with false in U2.
        assert (forall t, t ∈ km_threads k -> uses entry t = false /\ holds entry t = false) as Hn by (intros t Ht; by apply uses_not, fresh_unused).
        split; cbn [km_threads count ke_refs ke_held]; [|lia|]; rewrite ?U1, ?U2, count_none; try done; intros t Ht; by apply Hn.
      * destruct (H2 key' entry' Hk') as (e & He & [I1 I2 I3]). pose proof (Hf _ _ Hk') as Hx. exists e.
        rewrite lookup_alter_ne, lookup_insert_ne by done. split; [done|].
        destruct (uses_not entry' (mkThread key entry Waiting) (not_eq_sym Hx)) as [U1 U2].
        split; cbn [km_threads count]; rewrite ?U1, ?U2; lia.
    + intros key1 key2 entry' [[<- <-]|[Hn1 Hk1]]%lookup_insert_Some [[<- E2]|[Hn2 Hk2]]%lookup_insert_Some; try done.
      * by destruct (Hf _ _ Hk2).
      * subst entry'. by destruct (Hf _ _ Hk1).
      * by apply (H3 _ _ entry').
Qed.

Lemma count_pos f l t : t ∈ l -> f t = true -> 0 < count f l.
Proof.
  intros Hin Hf. pose proof (count_nonneg f l). destruct (decide (count f l = 0)) as [H0|]; [|lia]. by rewrite (count_zero f l t H0 Hin) in Hf.
Qed.

Lemma unref_inv k before key entry after : keyed_inv k -> km_threads k = before ++ mkThread key entry Releasing :: after ->
  keyed_inv (unref key entry (before ++ after) k).
Proof.
  intros [H1 H2 H3] Ht. pose proof (H1 (mkThread key entry Releasing) ltac:(rewrite Ht; set_solver)) as Hl. cbn in Hl.
  destruct (H2 _ _ Hl) as (e & He & [I1 I2 I3]). rewrite Ht in I1, I3. destruct (uses_self key entry Releasing) as [U1 U2].
  change (bool_decide (Releasing = Holding)) with false in U2.
  pose proof (count_remove (uses entry) before (mkThread key entry Releasing) after) as C1. rewrite U1 in C1.
  pose proof (count_remove (holds entry) before (mkThread key entry Releasing) after) as C2. rewrite U2 in C2.
  assert (forall t, t ∈ before ++ after -> km_locks k !! th_key t = Some (th_entry t)) as Hth by (intros t Hin; apply H1; rewrite Ht; set_solver).
  assert (forall key' entry', entry' <> entry -> km_locks k !! key' = Some entry' ->
    exists e', alter (incRefs (-1)) entry (km_heap k) !! entry' = Some e' /\ entry_inv (before ++ after) entry' e') as Hother.
  { intros key' entry' Hne Hk'. destruct (H2 _ _ Hk') as (e' & He' & Hi). exists e'. rewrite lookup_alter_ne by done. split; [done|].
    destruct (uses_not entry' (mkThread key entry Releasing) (not_eq_sym Hne)) as [V1 V2].
    apply (entry_inv_other (km_threads k)); [done| |]; rewrite Ht, (count_remove _ before (mkThread key entry Releasing)), ?V1, ?V2; lia. }
  unfold unref. rewrite lookup_alter_eq, He. cbn [fmap option_fmap option_map incRefs ke_refs]. destruct (ke_refs e + -1 =? 0) eqn:Ez; [apply Z.eqb_eq in Ez|apply Z.eqb_neq in Ez].
  - split; cbn [km_locks km_heap km_threads].
    + intros t Hin. rewrite lookup_delete_ne; [by apply Hth|]. intros Hkey. pose proof (Hth t Hin) as Ht'. rewrite <- Hkey, Hl in Ht'. injection Ht' as Ee.
      assert (uses entry t = true) as Hu by (unfold uses; rewrite Ee; apply Nat.eqb_refl). pose proof (count_pos _ _ _ Hin Hu). lia.
    + intros key' entry' [Hne Hk']%lookup_delete_Some. apply (Hother key'); [|done]. intros ->. apply Hne, (H3 _ _ entry); done.
    + intros key1 key2 entry' [_ Hk1]%lookup_delete_Some [_ Hk2]%lookup_delete_Some. by apply (H3 _ _ entry').
  - split; cbn [km_locks km_heap km_threads]; [done| |done]. intros key' entry' Hk'. destruct (decide (entry' = entry)) as [->|Hne]; [|by apply (Hother key')].
    exists (incRefs (-1) e). rewrite lookup_alter_eq, He. split; [done|]. split; cbn; lia.
Qed.

Lemma kstep_inv k k' : kstep k k' -> keyed_inv k -> keyed_inv k'.
Proof.
  intros Hs Hk. destruct Hs as [k key|k before key entry after e Ht He Hh|k before key entry after Ht|k before key entry after Ht].
  - by apply lock_ref_inv.
  - eapply move_inv; [done|exact Ht|]. intros e' He'. rewrite He in He'. injection He' as <-. by rewrite Hh.
  - eapply move_inv; [done|exact Ht|]. intros e He. change (bool_decide (Holding = Holding)) with true. change (bool_decide (Releasing = Holding)) with false.
    pose proof (ki_threads _ Hk (mkThread key entry Holding) ltac:(rewrite Ht; set_solver)) as Hl.
    destruct (ki_entries _ Hk _ _ Hl) as (e' & He' & [_ _ I3]). cbn in He'. rewrite He in He'. injection He' as <-.
    assert (0 < count (holds entry) (km_threads k)) as Hp.
    { apply (count_pos _ _ (mkThread key entry Holding)); [rewrite Ht; set_solver|]. apply uses_self. }
    cbn in I3. destruct (ke_held e); lia.
  - by apply unref_inv.
Qed.

Lemma ksteps_inv k k' : ksteps k k' -> keyed_inv k -> keyed_inv k'.
Proof. induction 1; eauto using kstep_inv. Qed.

(** What the goroutines of one name still have to do. *)
Definition todo (p : phase) : Z := match p with Waiting => 3 | Holding => 2 | Releasing => 1 end.
Fixpoint work (key : string) (l : list thread) : Z :=
  match l with [] => 0 | t :: l => (if th_key t =s key then todo (th_phase t) else 0) + work key l end.
Lemma work_app key l1 l2 : work key (l1 ++ l2) = work key l1 + work key l2.
Proof. induction l1 as [|t l1 IH]; cbn [work app]; lia. Qed.

Lemma holders_differ k l1 t1 l2 t2 l3 : keyed_inv k ->
  km_threads k = l1 ++ t1 :: l2 ++ t2 :: l3 -> th_key t1 = th_key t2 -> ~ (th_phase t1 = Holding /\ th_phase t2 = Holding).
Proof.
  intros [H1 H2 _] Ht Hkey [P1 P2]. pose proof (H1 t1 ltac:(rewrite Ht; set_solver)) as L1. pose proof (H1 t2 ltac:(rewrite Ht; set_solver)) as L2.
  rewrite <- Hkey, L1 in L2. injection L2 as Ee. destruct (H2 _ _ L1) as (e & _ & [_ _ I3]). rewrite Ht in I3.
  rewrite count_app in I3. cbn [count] in I3. rewrite count_app in I3. cbn [count] in I3.
  assert (holds (th_entry t1) t1 = true /\ holds (th_entry t1) t2 = true) as [E1 E2].
  { unfold holds. rewrite P1, P2, <- Ee, Nat.eqb_refl. done. }
  rewrite E1, E2 in I3. pose proof (count_nonneg (holds (th_entry t1)) l1). pose proof (count_nonneg (holds (th_entry t1)) l2).
  pose proof (count_nonneg (holds (th_entry t1)) l3). destruct (ke_held e); lia.
Qed.

Lemma count_witness f l : 0 < count f l -> exists t, t ∈ l /\ f t = true.
Proof.
  induction l as [|t l IH]; cbn [count]; [lia|]. destruct (f t) eqn:E; [exists t; set_solver|]. intros H.
  destruct (IH H) as (t' & ? & ?). exists t'. set_solver.
Qed.

Lemma locks_in_use k key : keyed_inv k -> is_Some (km_locks k !! key) <-> exists t, t ∈ km_threads k /\ th_key t = key.
Proof.
  intros [H1 H2 H3]. split.
  - intros [entry Hl]. destruct (H2 _ _ Hl) as (e & _ & [I1 I2 _]). rewrite I1 in I2. apply count_witness in I2 as (t & Ht & Hu).
    exists t. split; [done|]. apply Nat.eqb_eq in Hu. apply (H3 _ _ entry); [|done]. rewrite <- Hu. by apply H1.
  - intros (t & Ht & <-). rewrite (H1 t Ht). by eexists.
Qed.

(** The goroutine that moves next on a name: the holder if there is one. *)
Lemma next_mover k t : keyed_inv k -> t ∈ km_threads k ->
  exists t', t' ∈ km_threads k /\ th_key t' = th_key t /\
    (th_phase t' = Waiting -> exists e, km_heap k !! th_entry t' = Some e /\ ke_held e = false).
Proof.
  intros Hk Ht. destruct (ki_entries _ Hk _ _ (ki_threads _ Hk t Ht)) as (e & He & [_ _ I3]). destruct (ke_held e) eqn:Eh.
  - assert (0 < count (holds (th_entry t)) (km_threads k)) as Hp by lia. apply count_witness in Hp as (t' & Ht' & Hh).
    exists t'. apply andb_true_iff in Hh as [Hu Hh]. apply bool_decide_eq_true in Hh. apply Nat.eqb_eq in Hu.
    split; [done|]. split; [|by rewrite Hh]. apply (ki_inj _ Hk _ _ (th_entry t)); [rewrite <- Hu; by apply Hk|by apply Hk].
  - exists t. eauto.
Qed.

Lemma work_replace key before t t' after : th_key t = key -> th_key t' = key -> todo (th_phase t') < todo (th_phase t) ->
  work key (before ++ t' :: after) < work key (before ++ t :: after).
Proof. intros E1 E2 H. rewrite !work_app. cbn [work]. rewrite E1, E2, String.eqb_refl. lia. Qed.

Lemma name_progress k t : keyed_inv k -> t ∈ km_threads k ->
  exists k', kstep k k' /\ work (th_key t) (km_threads k') < work (th_key t) (km_threads k).
Proof.
  intros Hk Ht. destruct (next_mover k t Hk Ht) as ([key entry p] & Ht' & Hkey & Hw). cbn in Hkey, Hw. subst key.
  apply list_elem_of_split in Ht' as (before & after & E). destruct p.
  - destruct (Hw eq_refl) as (e & He & Hh). eexists. split; [eapply kstep_acquire; eauto|]. rewrite E. cbn [km_threads]. by apply work_replace.
  - eexists. split; [eapply kstep_unlock; eauto|]. rewrite E. cbn [km_threads]. by apply work_replace.
  - eexists. split; [eapply kstep_unref; eauto|]. rewrite E. cbn [km_threads unref]. rewrite !work_app. cbn [work th_key th_phase todo].
    rewrite String.eqb_refl. lia.
Qed.

(** ** Property *)

(** The per-name lock, in every state any number of goroutines can bring it to: two
    goroutines never hold the same name, the table has an entry for exactly the names in use, so
    it does not grow with the names ever locked, and whatever other names do, a name in use
    always has a goroutine that can take its next step, so no caller waits on an abandoned entry. *)
Theorem keyedMutex_exclusion (k : keyedMutex) :
  ksteps newKeyedMutex k ->
  (forall l1 t1 l2 t2 l3, km_threads k = l1 ++ t1 :: l2 ++ t2 :: l3 -> th_key t1 = th_key t2 -> ~ (th_phase t1 = Holding /\ th_phase t2 = Holding)) /\
  (forall key, is_Some (km_locks k !! key) <-> exists t, t ∈ km_threads k /\ th_key t = key) /\
  (forall t, t ∈ km_threads k -> exists k', kstep k k' /\ work (th_key t) (km_threads k') < work (th_key t) (km_threads k)).
Proof.
  intros Hs. pose proof (ksteps_inv _ _ Hs newKeyedMutex_inv) as Hk. split; [|split].
  - intros *. by apply holders_differ.
  - intros *. by apply locks_in_use.
  - intros *. by apply name_progress.
Qed.

Definition twoWaiting : keyedMutex := lock_ref "a" (lock_ref "a" newKeyedMutex).
Lemma keyedMutex_exclusion_witness :
  length (km_threads twoWaiting) = 2%nat /\ exists k', kstep twoWaiting k' /\ work "a" (km_threads k') < work "a" (km_threads twoWaiting).
Proof.
  split; [vm_compute; reflexivity|].
  assert (ksteps newKeyedMutex twoWaiting) as Hs by (repeat (eapply ksteps_step; [|apply kstep_lock]); constructor).
  apply (proj2 (proj2 (keyedMutex_exclusion twoWaiting Hs)) (mkThread "a" 0 Waiting)). apply list_elem_of_here.
Defined.
End Keyed.
