(* ===== verification/Volume.v ===== *)
(** * The replicated directory

    The filesystem under the synchronized directory as the watcher and the apply path see it,
    and the system calls of internal/fileops they make. A volume has the tree a process sees
    and, for each name, the entry a crash is sure to leave; a file's bytes survive a crash only
    once they were flushed. Names are exact, as on a case-sensitive filesystem, and hard links
    are not tracked. Which calls fail is an input. *)

From S2P Require Import Prelude GoStrings Hoare FileMeta Database Names Store Intents Transfer.

(** ** Files and trees *)

(** A regular file: its identity, contents and attributes; [in_flushed] says the
    bytes were flushed. *)
Record inode := mkInode { in_dev : Z; in_ino : Z; in_bytes : string; in_mtime : Z; in_mode : Z; in_flushed : bool }.

(** An entry of a directory. A symbolic link has the name its target resolves to, or none when
    that lies out of the directory; one that leads to nothing has a name at which nothing is. *)
Inductive node := NFile (i : inode) | NDir | NLink (target : option string) | NOther.

#[export] Instance inode_eq_dec : EqDecision inode.
Proof. solve_decision. Defined.
#[export] Instance node_eq_dec : EqDecision node.
Proof. solve_decision. Defined.

(** [os.FileInfo] of a regular file, and [same]. *)
Record Info := mkInfo { fi_dev : Z; fi_ino : Z; fi_size : Z; fi_mtime : Z; fi_mode : Z }.
#[export] Instance Info_eq_dec : EqDecision Info.
Proof. solve_decision. Defined.

Definition infoOf (i : inode) : Info := mkInfo (in_dev i) (in_ino i) (slen (in_bytes i)) (in_mtime i) (in_mode i).
Definition same (a b : Info) : bool := bool_decide (a = b).

(** [func GenerationKey(path string, info os.FileInfo) (string, error)] *)
Definition GenerationKey (info : Info) : string :=
  FormatHex (fi_dev info) +:+ ":" +:+ FormatHex (fi_ino info) +:+ ":" +:+ FormatHex (fi_size info) +:+ ":" +:+ FormatHex (fi_mtime info).

(** [func SameModTime(dir string, onDisk time.Time, recorded int64) bool] *)
Definition SameModTime (granularity onDisk recorded : Z) : bool :=
  let diff := wrap64 (onDisk - recorded) in
  if granularity <=? 1 then diff =? 0
  else (if diff <? 0 then wrap64 (- diff) else diff) <? granularity.

(** ** The world *)

Inductive fault := FNone | FFail | FEIO.

(** What indexing leaves for others to see. *)
Record Notes := mkNotes {
  nt_deferred : list string;   (* names handed to deferDeletion *)
  nt_rescans : Z; nt_readErrors : Z; nt_restamped : Z;
  nt_revoked : list Info       (* generations whose readers were revoked *)
}.

Record World := mkWorld {
  wd_xfer : Xfer;              (* the store, the scratch files and the transfer under way *)
  wd_tree : gmap string node;
  wd_durable : gmap string node;
  wd_faults : list fault;
  wd_busy : gset string;       (* names a gateway is writing *)
  wd_notes : Notes
}.

Definition wd_store (w : World) : Store := xf_store (wd_xfer w).
Definition set_xfer (x : Xfer) (w : World) : World := mkWorld x (wd_tree w) (wd_durable w) (wd_faults w) (wd_busy w) (wd_notes w).
Definition set_store (s : Store) (w : World) : World := set_xfer (xf_set_store s (wd_xfer w)) w.
Definition set_tree (t : gmap string node) (w : World) : World := mkWorld (wd_xfer w) t (wd_durable w) (wd_faults w) (wd_busy w) (wd_notes w).
Definition set_durable (t : gmap string node) (w : World) : World := mkWorld (wd_xfer w) (wd_tree w) t (wd_faults w) (wd_busy w) (wd_notes w).
Definition set_wfaults (l : list fault) (w : World) : World := mkWorld (wd_xfer w) (wd_tree w) (wd_durable w) l (wd_busy w) (wd_notes w).
Definition set_notes (n : Notes) (w : World) : World := mkWorld (wd_xfer w) (wd_tree w) (wd_durable w) (wd_faults w) (wd_busy w) n.

Inductive werr :=
| WStore (e : err) | WXfer (e : xerr) | WSys | WEIO | WMissing | WBusy | WIntegrity (name : string) | WUnreadable
| WUnsupported (name : string) | WChanged | WOccupied (name : string) | WUnsafe (name : string).

Abbreviation W := (SE World werr).

Definition inStore {A} (c : St A) : W A := zoomS wd_store set_store WStore c.
Definition inXfer {A} (c : X A) : W A := zoomS wd_xfer set_xfer WXfer c.
Definition getStore : W Store := let! w := getS in retS (wd_store w).

(** ** System calls *)

(** A call that may fail. *)
Definition sysW : W unit := fun w =>
  match wd_faults w with
  | FFail :: l => (Err WSys, set_wfaults l w)
  | FEIO :: l => (Err WEIO, set_wfaults l w)
  | FNone :: l => (Ok tt, set_wfaults l w)
  | [] => (Ok tt, w)
  end.

(** [ctx.Err()] *)
Definition ctxErrW : W unit := inXfer ctxErrX.

(** The name a path leads to, through a final symbolic link. *)
Definition resolve (t : gmap string node) (name : string) : string :=
  match t !! name with Some (NLink (Some target)) => target | _ => name end.
Definition fileAtName (t : gmap string node) (name : string) : option inode :=
  match t !! resolve t name with Some (NFile i) => Some i | _ => None end.

(** [os.Lstat] and [os.Stat]; nothing there is [None]. *)
Definition lstat (name : string) : W (option node) := do! sysW then let! w := getS in retS (wd_tree w !! name).
Definition stat (name : string) : W (option node) := do! sysW then let! w := getS in retS (wd_tree w !! resolve (wd_tree w) name).

(** Changes the file a path leads to, and the same file where a crash is sure to find it. *)
Definition sameFile (a b : inode) : bool := (in_dev a =? in_dev b) && (in_ino a =? in_ino b).
Definition updFile (f : inode -> inode) (name : string) : W unit := modifyS (fun w =>
  let p := resolve (wd_tree w) name in
  match wd_tree w !! p with
  | Some (NFile i) =>
      let w' := set_tree (<[p := NFile (f i)]> (wd_tree w)) w in
      match wd_durable w !! p with
      | Some (NFile j) => if sameFile i j then set_durable (<[p := NFile (f i)]> (wd_durable w)) w' else w'
      | _ => w'
      end
  | _ => w
  end).

(** [os.Chtimes]: the time as the volume stores it. *)
Definition stamped (t : Z) (i : inode) : inode := mkInode (in_dev i) (in_ino i) (in_bytes i) t (in_mode i) (in_flushed i).
Definition chtimes (stored : Z -> Z) (name : string) (t : Z) : W unit := do! sysW then updFile (stamped (stored t)) name.

(** [os.Open], [File.Sync] and [File.Close] on a path. *)
Definition flushed (i : inode) : inode := mkInode (in_dev i) (in_ino i) (in_bytes i) (in_mtime i) (in_mode i) true.
Definition syncPath (name : string) : W unit :=
  do! sysW then
  let! w := getS in
  match fileAtName (wd_tree w) name with
  | None => failS WMissing
  | Some _ => do! sysW then updFile flushed name
  end.

(** [SyncParents] and [SyncSurvivingParent]: the entry of a name is on disk, or its absence.
    (Other entries of the same directories are, too; a crash may still lose them here.) *)
Definition flushEntry (name : string) : W unit := do! sysW then
  modifyS (fun w => set_durable (match wd_tree w !! name with Some n => <[name := n]> | None => delete name end (wd_durable w)) w).
Definition SyncParents (name : string) : W unit := flushEntry name.
Definition SyncSurvivingParent (name : string) : W unit := do! sysW then flushEntry name.

(** [fileops.CheckSpelling]: where names are exact only its own calls can fail. *)
Definition CheckSpelling (name : string) : W unit := sysW.

(** [fileops.BusyLocked] and [BusyTreeLocked] *)
Definition BusyLocked (name : string) (w : World) : bool := bool_decide (name ∈ wd_busy w) || bool_decide (resolve (wd_tree w) name ∈ wd_busy w).
Definition BusyTreeLocked (name : string) (w : World) : bool :=
  BusyLocked name w || existsb (fun b => HasPrefix b (name +:+ "/")) (elements (wd_busy w)).

(** [func RemoveReplicaFile(path string) error] *)
Definition RemoveReplicaFile (name : string) : W unit :=
  let! n := lstat name in
  match n with
  | None | Some NDir => retS tt
  | Some NOther => failS (WUnsupported name)
  | Some _ => do! sysW then modifyS (fun w => set_tree (delete name (wd_tree w)) w)
  end.

(** [func CleanEmptyParentsLocked(...)]: from the parent up, as long as the directory is empty;
    what fails is only logged. Each step drops a component, so the length of the name bounds
    the steps. *)
Definition emptyDirectory (dir : string) (t : gmap string node) : bool :=
  bool_decide (t !! dir = Some NDir) && forallb (fun kv : string * node => negb (HasPrefix kv.1 (dir +:+ "/"))) (map_to_list t).
Fixpoint clean_loop (fuel : nat) (dir : string) : W unit :=
  match fuel with
  | O => retS tt
  | S fuel =>
      if dir =s "." then retS tt
      else
        let! w := getS in
        if negb (emptyDirectory dir (wd_tree w)) || BusyTreeLocked dir w then retS tt
        else
          let! r := tryS sysW in
          match r with
          | Err _ => retS tt
          | Ok _ =>
              do! modifyS (fun w => set_tree (delete dir (wd_tree w)) w) then
              let! r := tryS (flushEntry dir) in
              match r with Err _ => retS tt | Ok _ => clean_loop fuel (Dir dir) end
          end
  end.
Definition CleanEmptyParentsLocked (name : string) : W unit := clean_loop (String.length name) (Dir name).

Section Hashing.
Context (sha256Hex : string -> string).

(** [func Snapshot(path string) (os.FileInfo, string, error)] *)
Definition Snapshot (name : string) : W (Info * string) :=
  let! n := stat name in
  match n with
  | None => failS WMissing
  | Some (NFile i) => do! sysW then retS (infoOf i, sha256Hex (in_bytes i))
  | Some _ => failS (WUnsupported name)
  end.
End Hashing.

(** ** Crashes *)

(** The entry a crash leaves for one name: the durable one or the visible one; the bytes of a
    file that was not flushed can be anything, and so can the times of any file. *)
Definition settles (seen after : option node) : Prop :=
  match seen with
  | Some (NFile i) => exists j, after = Some (NFile j) /\ (in_flushed i = true -> in_bytes j = in_bytes i)
  | _ => after = seen
  end.
Definition crashed (w : World) (tree : gmap string node) : Prop :=
  forall n, settles (wd_tree w !! n) (tree !! n) \/ settles (wd_durable w !! n) (tree !! n).

(** The world after a restart: what the disk held, the same tables, a new process. *)
Definition restarted (w : World) (tree : gmap string node) (s : Store) (w' : World) : Prop :=
  crashed w tree /\ db s = db (wd_store w) /\ wd_store w' = s /\ wd_tree w' = tree /\ wd_durable w' = tree /\
  wd_faults w' = [] /\ wd_busy w' = ∅.

(** ** What calls leave alone *)

(** The rows of the store a call on the volume must not touch by accident. *)
Definition rows_kept (s s' : Store) : Prop := files (db s') = files (db s) /\ replica_intents (db s') = replica_intents (db s).
#[export] Instance rows_kept_preorder : PreOrder rows_kept.
Proof. split; [done|]. intros s1 s2 s3 [H1 H2] [H3 H4]. split; congruence. Qed.

Lemma untouched_rows s s' : untouched s s' -> rows_kept s s'.
Proof. intros H. apply untouched_db in H. unfold rows_kept. by rewrite H. Qed.

Lemma keeps_rows_query {A} (f : DB -> A) : keeps rows_kept (query f).
Proof. intros s. apply untouched_rows, keeps_query. Qed.

Lemma keeps_rows_exec (f : DB -> DB) : (forall d, files (f d) = files d /\ replica_intents (f d) = replica_intents d) -> keeps rows_kept (exec f).
Proof.
  intros Hf s. destruct (exec f s) as [[a|e] s'] eqn:E; cbn.
  - apply exec_Ok in E as [Hd _]. unfold rows_kept. rewrite Hd. apply Hf.
  - apply exec_Err in E as [_ E]. by apply untouched_rows.
Qed.

Lemma keeps_rows_transact {A} (body : St (bool * A)) : keeps memory_kept body -> keeps rows_kept body -> keeps rows_kept (transact body).
Proof.
  intros Hm Hr s. destruct (transact body s) as [[a|e] s'] eqn:E; cbn.
  - apply transact_Ok in E as (_ & b & s0 & s1 & U & E & Hd); [|done]. unfold rows_kept. rewrite Hd. destruct b; [|done].
    specialize (Hr s0). rewrite E in Hr. destruct Hr as [H1 H2]. rewrite (untouched_db _ _ U) in *. done.
  - apply transact_Err in E; [|done]. by apply untouched_rows.
Qed.

Lemma keeps_rows_modify f : (forall s, db (f s) = db s) -> keeps rows_kept (modifyS f : St unit).
Proof. intros Hf s. unfold rows_kept. cbn. by rewrite Hf. Qed.

(** A committed state. *)
Lemma commitPut_rows `{NameFolding} now meta local s r s' : commitPut now meta local s = (r, s') ->
  match r with
  | Ok ver => files (db s') = <[Name meta := committed (putState (db s) meta local) ver now]> (files (db s)) /\
              replica_intents (db s') = delete (Name meta) (replica_intents (db s))
  | Err _ => rows_kept s s'
  end.
Proof.
  intros E. destruct r as [ver|e]; [|by apply commitPut_Err in E; apply untouched_rows].
  unfold commitPut in E. apply bindS_Ok in E as (v & s1 & E & E1).
  apply transact_Ok in E as (_ & b & s0 & s2 & Hu & E & Hdb); [|apply keeps_commitPut_tx].
  apply commitPut_tx_Ok in E as (-> & _ & _ & t & nn & _ & _ & _ & Hd). rewrite (untouched_db _ _ Hu) in Hd.
  unfold bindS, modifyS, retS in E1. injection E1 as <- <-. cbn. rewrite Hdb, Hd. unfold put_tables. cbn. by rewrite putState_name.
Qed.

(** At one name: the same entry, a file with the same bytes, or a directory that may be gone. *)
Definition sameAt (name : string) (t t' : gmap string node) : Prop :=
  match t !! name with
  | Some (NFile i) => exists i', t' !! name = Some (NFile i') /\ in_bytes i' = in_bytes i /\ sameFile i i' = true /\ in_mode i' = in_mode i
  | Some NDir => t' !! name = Some NDir \/ t' !! name = None
  | x => t' !! name = x
  end.

Lemma sameFile_spec a b : sameFile a b = true <-> in_dev a = in_dev b /\ in_ino a = in_ino b.
Proof. unfold sameFile. by rewrite andb_true_iff, !Z.eqb_eq. Qed.

#[export] Instance sameAt_preorder name : PreOrder (sameAt name).
Proof.
  split.
  - intros t. unfold sameAt. destruct (t !! name) as [[i| | |]|] eqn:E; auto. exists i. rewrite sameFile_spec. done.
  - intros t1 t2 t3 H1 H2. unfold sameAt in *. destruct (t1 !! name) as [[i| | |]|]; [|destruct H1 as [E|E]| | |]; try (rewrite ?H1, ?E in H2; auto; done).
    destruct H1 as (i' & E & B & S & M). rewrite E in H2. destruct H2 as (i'' & E' & B' & S' & M'). exists i''.
    rewrite sameFile_spec in *. split; [done|]. split; [congruence|]. destruct S, S'. split; [split; congruence|congruence].
Qed.

(** One name's entry is on disk and will be found after a crash: a file with these bytes, or no
    file ([None]). *)
Definition safeEntry (b : option string) (n : option node) : Prop :=
  match b, n with
  | Some bytes, Some (NFile i) => in_flushed i = true /\ in_bytes i = bytes
  | None, (None | Some NDir) => True
  | _, _ => False
  end.
Definition backed (name : string) (b : option string) (w : World) : Prop := safeEntry b (wd_tree w !! name) /\ safeEntry b (wd_durable w !! name).

(** The store's rows, one name's entry, and its safety. *)
Record still (name : string) (w w' : World) : Prop := mkStill {
  st_rows : rows_kept (wd_store w) (wd_store w');
  st_entry : sameAt name (wd_tree w) (wd_tree w');
  st_backed : forall b, backed name b w -> backed name b w'
}.
#[export] Instance still_preorder name : PreOrder (still name).
Proof. split; [intros w; split; done|]. intros w1 w2 w3 [H1 H2 H3] [H4 H5 H6]. split; [by etrans|by etrans|auto]. Qed.

Lemma still_inStore {A} name (c : St A) : keeps rows_kept c -> keeps (still name) (inStore c).
Proof. intros Hc w. unfold inStore, zoomS. specialize (Hc (wd_store w)). destruct (c (wd_store w)) as [r s']. split; cbn; [done|reflexivity|done]. Qed.

Lemma still_sysW name : keeps (still name) sysW.
Proof. intros w. unfold sysW. destruct (wd_faults w) as [|[] l]; split; cbn; done. Qed.

Lemma still_notes name f : keeps (still name) (modifyS (fun w => set_notes (f w) w) : W unit).
Proof. intros w. split; cbn; done. Qed.

Lemma still_try {A} name (c : W A) : keeps (still name) c -> keeps (still name) (tryS c).
Proof. intros Hc w. specialize (Hc w). unfold tryS. by destruct (c w). Qed.

Lemma safeEntry_upd b i f n : in_bytes (f i) = in_bytes i -> (in_flushed i = true -> in_flushed (f i) = true) ->
  n = Some (NFile i) -> safeEntry b n -> safeEntry b (Some (NFile (f i))).
Proof. intros Hb Hf ->. destruct b; cbn; [|done]. intros [? ?]. rewrite Hb. auto. Qed.

(** Changes of a file that keep its bytes and its identity. *)
Definition mild (f : inode -> inode) : Prop := forall i, in_bytes (f i) = in_bytes i /\ sameFile i (f i) = true /\ in_mode (f i) = in_mode i /\
  (in_flushed i = true -> in_flushed (f i) = true).

Lemma mild_flushed : mild flushed.
Proof. intros i. by rewrite sameFile_spec. Qed.
Lemma mild_stamped t : mild (stamped t).
Proof. intros i. by rewrite sameFile_spec. Qed.

Lemma sameAt_insert name q f t i : mild f -> t !! q = Some (NFile i) -> sameAt name t (<[q := NFile (f i)]> t).
Proof.
  intros Hf E. unfold sameAt. destruct (decide (q = name)) as [<-|Hne].
  - rewrite E, lookup_insert_eq. exists (f i). destruct (Hf i) as (? & ? & ? & ?). done.
  - rewrite lookup_insert_ne by done. destruct (t !! name) as [[j| | |]|]; eauto. exists j. rewrite sameFile_spec. done.
Qed.

Lemma safeEntry_insert b name q f (t : gmap string node) i : mild f -> t !! q = Some (NFile i) ->
  safeEntry b (t !! name) -> safeEntry b (<[q := NFile (f i)]> t !! name).
Proof.
  intros Hf E. destruct (decide (q = name)) as [<-|Hne]; [|by rewrite lookup_insert_ne].
  rewrite lookup_insert_eq, E. destruct (Hf i) as (Hb & _ & _ & Hfl). by apply safeEntry_upd.
Qed.

(** The durable copy of a file is replaced by the changed one; it was the same file. *)
Lemma safeEntry_durable b name q f w i j : mild f -> wd_tree w !! q = Some (NFile i) -> wd_durable w !! q = Some (NFile j) ->
  backed name b w -> safeEntry b (<[q := NFile (f i)]> (wd_durable w) !! name).
Proof.
  intros Hf Ei Ej [H1 H2]. destruct (decide (q = name)) as [<-|Hne]; [|by rewrite lookup_insert_ne].
  rewrite lookup_insert_eq. destruct (Hf i) as (Hb & _ & _ & Hfl). by apply (safeEntry_upd b i f (wd_tree w !! q)).
Qed.

Lemma still_updFile name f p : mild f -> keeps (still name) (updFile f p).
Proof.
  intros Hf w. unfold updFile. cbn. set (q := resolve _ _). destruct (wd_tree w !! q) as [[i| | |]|] eqn:E; try reflexivity.
  assert (still name w (set_tree (<[q := NFile (f i)]> (wd_tree w)) w)) as Hs.
  { split; [done|by apply sameAt_insert|]. intros b [H1 H2]. split; [by apply safeEntry_insert|done]. }
  destruct (wd_durable w !! q) as [[j| | |]|] eqn:Ed; try done. destruct (sameFile i j); [|done].
  destruct Hs as [? ? Hb]. split; [done|done|]. intros b H. split; [by apply (Hb b H)|]. by apply (safeEntry_durable b name q f w i j).
Qed.

Lemma still_flushEntry name p : keeps (still name) (flushEntry p).
Proof.
  unfold flushEntry. apply keeps_bind; [apply _|apply still_sysW|]. intros _ w. split; cbn; [done|reflexivity|]. intros b [H1 H2]. split; [done|]. cbn.
  destruct (decide (p = name)) as [->|Hne].
  - destruct (wd_tree w !! name) eqn:E; [by rewrite lookup_insert_eq|by rewrite lookup_delete_eq].
  - destruct (wd_tree w !! p); [by rewrite lookup_insert_ne|by rewrite lookup_delete_ne].
Qed.

#[export] Hint Resolve still_sysW still_notes still_try still_inStore keeps_rows_query : birak.
#[export] Hint Extern 1 (keeps _ getS) => apply keeps_get; apply _ : birak.
Ltac still := eauto 20 with birak.

Lemma still_lstat name p : keeps (still name) (lstat p).
Proof. unfold lstat. still. Qed.
Lemma still_stat name p : keeps (still name) (stat p).
Proof. unfold stat. still. Qed.
Lemma still_getStore name : keeps (still name) getStore.
Proof. unfold getStore. still. Qed.
Lemma still_SyncSurvivingParent name p : keeps (still name) (SyncSurvivingParent p).
Proof. unfold SyncSurvivingParent. pose proof still_flushEntry. still. Qed.
Lemma still_chtimes name st p t : keeps (still name) (chtimes st p t).
Proof. unfold chtimes. pose proof (still_updFile name _ p (mild_stamped (st t))). still. Qed.
Lemma still_syncPath name p : keeps (still name) (syncPath p).
Proof. unfold syncPath. pose proof (still_updFile name _ p mild_flushed). still. Qed.
Lemma still_Snapshot name sha p : keeps (still name) (Snapshot sha p).
Proof. unfold Snapshot. pose proof still_stat. still. Qed.

Lemma still_rmdir name dir w : wd_tree w !! dir = Some NDir -> still name w (set_tree (delete dir (wd_tree w)) w).
Proof.
  intros E. split; cbn; [done| |]; [unfold sameAt|intros b [H1 H2]; split; [|done]; cbn]; (destruct (decide (dir = name)) as [<-|Hne];
    [rewrite lookup_delete_eq; rewrite E in *; try by destruct b|rewrite lookup_delete_ne by done; try done]).
  - by right.
  - destruct (wd_tree w !! name) as [[j| | |]|]; eauto. exists j. rewrite sameFile_spec. done.
Qed.

Lemma still_clean name fuel dir : keeps (still name) (clean_loop fuel dir).
Proof.
  revert dir. induction fuel as [|fuel IH]; intros dir; cbn [clean_loop]; [still|]. destruct (dir =s "."); [still|].
  intros w. unfold bindS at 1. cbn [getS]. destruct (negb (emptyDirectory dir (wd_tree w)) || BusyTreeLocked dir w) eqn:E; [reflexivity|].
  apply orb_false_iff in E as [E _]. apply negb_false_iff, andb_true_iff in E as [E _]. apply bool_decide_eq_true in E.
  unfold bindS at 1. pose proof (still_try name sysW (still_sysW name) w) as Hs. destruct (tryS sysW w) as [[r|e] w1] eqn:E1; [|done].
  destruct r as [u|e]; [|done]. etrans; [exact Hs|].
  assert (wd_tree w1 = wd_tree w) as Et by (revert E1; unfold tryS, sysW; destruct (wd_faults w) as [|[] ?]; intros [=]; by subst).
  unfold bindS at 1. cbn [modifyS]. etrans.
  { instantiate (1 := set_tree (delete dir (wd_tree w1)) w1). rewrite <- Et in E. by apply still_rmdir. }
  apply (keeps_bind (still name)); [apply still_try, still_flushEntry|]. intros [?|?]; [apply IH|apply keeps_ret, _].
Qed.
