(* ===== verification/Paths.v ===== *)
(** * Paths clients and peers may use

    internal/gateway/gateway.go: [SafePath] and the rules of the client namespace every gateway
    and the apply path resolve names through. *)

From S2P Require Import Prelude GoStrings FileMeta Database Names Glob Validate Transfer Volume.

(** ** Letter case *)

(** The letters [strings.EqualFold] identifies with ASCII ones: the other case, the Kelvin sign
    (E2 84 AA) for k and the long s (C5 BF) for s. *)
Fixpoint foldASCII (s : string) : string :=
  match s with
  | "" => ""
  | String c s' =>
      match Ascii.nat_of_ascii c, s' with
      | 226%nat, String d (String e s'') =>
          if (Ascii.nat_of_ascii d =? 132)%nat && (Ascii.nat_of_ascii e =? 170)%nat then String "k" (foldASCII s'')
          else String (lower_byte c) (foldASCII s')
      | 197%nat, String d s'' =>
          if (Ascii.nat_of_ascii d =? 191)%nat then String "s" (foldASCII s'') else String (lower_byte c) (foldASCII s')
      | _, _ => String (lower_byte c) (foldASCII s')
      end
  end.

(** [strings.EqualFold(s, t)] for a lower-case ASCII [t]. *)
Definition EqualFold (s t : string) : bool := foldASCII s =s t.

(** [IsReserved], [hasPrefixFold], [isScratchSpelling] *)
Definition IsReserved (name : string) : bool := EqualFold name ".birak".
Definition hasPrefixFold (s prefix : string) : bool := (slen prefix <=? slen s) && EqualFold (stake (String.length prefix) s) prefix.
Definition isScratchSpelling (name : string) : bool := hasPrefixFold name tempFilePrefix || hasPrefixFold name backupFilePrefix.

(** [func validateClientPath(rel string, ignorePatterns []string) error]: true is no error. *)
Definition validateClientPath (rel : string) (ignorePatterns : list string) : bool :=
  if negb (rel =s "") && (0 <? Z.of_nat (length ignorePatterns)) && ShouldIgnore rel ignorePatterns then false
  else if ContainsByte rel "000" then false
  else if IsReserved (match Cut rel "/" with Some (first, _) => first | None => rel end) then false
  else negb (existsb isScratchSpelling (Split rel "/")).

(** Where an entry leads: a link that leaves the root leads nowhere in it, and what cannot be
    resolved stays as it is written. *)
Definition landsAt (tree : gmap string node) (p : string) : option string :=
  match tree !! p with
  | Some (NLink None) => None
  | Some (NLink (Some target)) => if (target =s "") || bool_decide (is_Some (tree !! target)) then Some target else Some p
  | _ => Some p
  end.

(** [resolveNoSymlinkEscape] and [evalDeepestAncestor] in a tree of the entries below the root,
    component by component. Nothing lies below an entry that is missing or no directory, so there
    the rest stays as it is written. Resolve.v has them over the links' texts. *)
Definition child (dest name : string) : string := if dest =s "" then name else dest +:+ "/" +:+ name.
Fixpoint resolveFrom (tree : gmap string node) (dest : string) (rest : list string) : option string :=
  match rest with
  | [] => Some dest
  | name :: next => match landsAt tree (child dest name) with None => None | Some resolved => resolveFrom tree resolved next end
  end.
Definition resolveIn (tree : gmap string node) (p : string) : option string := resolveFrom tree "" (Split p "/").

(** [func SafePath(rootDir, reqPath string, ignorePatterns []string) (relPath, fullPath string, err error)]:
    the path relative to the root. *)
Definition SafePath (tree : gmap string node) (reqPath : string) (ignorePatterns : list string) : option string :=
  let cleaned := Clean reqPath in
  let cleaned := if (cleaned =s ".") || (cleaned =s "/") then "" else cleaned in
  let cleaned := TrimPrefix cleaned "/" in
  if HasPrefix cleaned "../" || (cleaned =s "..") then None
  else if cleaned =s "" then Some ""
  else if negb (validateClientPath cleaned ignorePatterns) then None
  else match resolveIn tree cleaned with
  | None => None
  | Some resolved => if validateClientPath resolved ignorePatterns then Some cleaned else None
  end.

(** ** Facts *)

(** What [Clean] has collected: ordinary components over leading "..", none when rooted. *)
Definition shaped (rooted : bool) (stack : list string) : Prop :=
  exists goods k, stack = (goods ++ repeat ".." k)%list /\ Forall good_part goods /\ (rooted = true -> k = O).

Lemma clean_go_shaped rooted stack parts : shaped rooted stack -> shaped rooted (rev (clean_go rooted stack parts)).
Proof.
  revert stack. induction parts as [|p parts IH]; intros stack Hs; cbn [clean_go]; [by rewrite rev_involutive|].
  destruct ((p =s "") || (p =s ".")) eqn:E1; [by apply IH|]. destruct Hs as (goods & k & -> & Hg & Hr). destruct (p =s "..") eqn:E2.
  - apply eqs_true in E2 as ->. destruct goods as [|g goods]; cbn [app].
    + destruct k as [|k]; cbn [repeat].
      * destruct rooted; apply IH; [by exists [], O|]. exists [], 1%nat. done.
      * destruct (".." =s "..") eqn:E3; [|done]. apply IH. exists [], (S (S k)). split; [done|]. split; [constructor|]. intros ->. by specialize (Hr eq_refl).
    + inversion_clear Hg as [|? ? Hg1 Hg2]. apply good_part_spec in Hg1 as (? & ? & Hd). rewrite (proj2 (eqs_false g "..") Hd). apply IH. by exists goods, k.
  - apply IH. exists (p :: goods), k. split; [done|]. split; [|done]. constructor; [|done]. unfold good_part, bad_part. by rewrite E1, E2.
Qed.

Lemma rev_repeat {A} (x : A) k : rev (repeat x k) = repeat x k.
Proof. induction k as [|k IH]; [done|]. cbn. rewrite IH. clear IH. induction k as [|k IH]; [done|]. cbn. by f_equal. Qed.

Lemma clean_go_shape rooted parts : exists k goods, clean_go rooted [] parts = (repeat ".." k ++ goods)%list /\ Forall good_part goods /\ (rooted = true -> k = O).
Proof.
  destruct (clean_go_shaped rooted [] parts) as (goods & k & E & Hg & Hr); [by exists [], O|].
  exists k, (rev goods). split; [|split; [by apply Forall_rev|done]]. rewrite <- (rev_involutive (clean_go rooted [] parts)), E, rev_app_distr, rev_repeat. done.
Qed.

Lemma clean_go_plain rooted s : Forall (fun p => ContainsByte p "/" = false) (clean_go rooted [] (Split s "/")).
Proof.
  apply Forall_forall. intros p Hp. apply clean_go_incl in Hp as [?|Hp]; [set_solver|]. pose proof (Split_parts_plain s) as Hf.
  rewrite Forall_forall in Hf. by apply Hf.
Qed.

Lemma TrimPrefix_other s p : HasPrefix s p = false -> TrimPrefix s p = s.
Proof. unfold TrimPrefix. by intros ->. Qed.

Lemma Join_noslash l : Forall (fun p => ContainsByte p "/" = false) l -> Forall (fun p => p <> "") l -> HasPrefix (Join l "/") "/" = false.
Proof.
  intros H1 H2. destruct l as [|p l]; [done|]. inversion_clear H1 as [|? ? Hp _]. inversion_clear H2 as [|? ? Hn _].
  destruct p as [|c p]; [done|]. assert (c <> "/"%char) as Hc.
  { intros ->. unfold ContainsByte in Hp. cbn in Hp. done. }
  assert (forall t, HasPrefix (String c t) "/" = false) as Hx.
  { intros t. change (HasPrefix (String c t) "/") with (if Ascii.ascii_dec "/" c then String.prefix "" t else false).
    by destruct (Ascii.ascii_dec "/" c) as [<-|]. }
  destruct l as [|q l]; [apply Hx|]. rewrite Join_cons by done. apply Hx.
Qed.

(** Up to the root, a cleaned path that does not leave it has only ordinary components. *)
Lemma cleaned_good reqPath cleaned :
  TrimPrefix (if (Clean reqPath =s ".") || (Clean reqPath =s "/") then "" else Clean reqPath) "/" = cleaned ->
  HasPrefix cleaned "../" || (cleaned =s "..") = false -> cleaned <> "" -> Forall good_part (Split cleaned "/").
Proof.
  intros E H1 H2. unfold Clean in E. destruct (reqPath =s "") eqn:E0; [cbn in E; by subst|].
  set (rooted := HasPrefix reqPath "/") in *. set (out := clean_go rooted [] (Split reqPath "/")) in *.
  pose proof (clean_go_plain rooted reqPath) as Hplain. fold out in Hplain. destruct (clean_go_shape rooted (Split reqPath "/")) as (k & goods & Eo & Hg & Hr). fold out in Eo.
  assert (cleaned = Join out "/") as ->.
  { destruct rooted eqn:Er.
    - destruct ("/" +:+ Join out "/" =s ".") eqn:Ed; [by apply eqs_true in Ed|]. cbn [orb] in E. destruct ("/" +:+ Join out "/" =s "/") eqn:Es; [by subst|].
      by rewrite <- E, (TrimPrefix_app "/" (Join out "/")).
    - destruct (Join out "/" =s "") eqn:Ej; [cbn in E; by subst|]. destruct (_ || _) eqn:Eq; [by subst|]. rewrite <- E. apply TrimPrefix_other.
      apply Join_noslash; [done|]. apply Forall_forall. intros p Hp. rewrite Eo in Hp. apply elem_of_app in Hp as [Hp|Hp]; [apply list_elem_of_In in Hp; apply repeat_spec in Hp; subst p; discriminate|].
      rewrite Forall_forall in Hg. by apply good_part_nonempty, Hg. }
  assert (out <> []) as Hne by (intros En; by rewrite En in H2). rewrite (Split_Join out Hne Hplain), Eo. destruct k as [|k]; [done|]. exfalso.
  rewrite Eo in H1. cbn [repeat app] in H1. destruct (repeat ".." k ++ goods)%list as [|q rest]; [by vm_compute in H1|].
  rewrite Join_cons in H1 by done. change (".." +:+ "/" +:+ Join (q :: rest) "/") with ("../" +:+ Join (q :: rest) "/") in H1.
  by rewrite HasPrefix_app in H1.
Qed.

(** ** Property *)

(** A component no client may name: the private directory at the top, a scratch or backup file
    anywhere, in any letter case. *)
Definition exposed (rel : string) : Prop :=
  IsReserved (List.hd "" (Split rel "/")) = false /\ Forall (fun part => isScratchSpelling part = false) (Split rel "/") /\ ContainsByte rel "000" = false.

Lemma Split_hd rel : List.hd "" (Split rel "/") = match Cut rel "/" with Some (first, _) => first | None => rel end.
Proof.
  induction rel as [|c s IH]; [done|]. cbn. destruct (Ascii.eqb c "/"); [done|]. destruct (Split s "/") as [|p l] eqn:E; [by apply Split_nonnil in E|].
  cbn in *. rewrite IH. by destruct (Cut s "/") as [[? ?]|].
Qed.

Lemma validateClientPath_exposed rel patterns : validateClientPath rel patterns = true -> exposed rel.
Proof.
  unfold validateClientPath, exposed. destruct (_ && _); [done|]. destruct (ContainsByte rel "000"); [done|]. rewrite <- Split_hd.
  destruct (IsReserved _); [done|]. intros H. apply negb_true_iff in H. split; [done|]. split; [|done].
  apply Forall_forall. intros p Hp. destruct (isScratchSpelling p) eqn:E; [|done].
  assert (existsb isScratchSpelling (Split rel "/") = true) as Hx; [|congruence]. apply existsb_exists. exists p. by rewrite <- list_elem_of_In.
Qed.

Lemma landsAt_plain tree p : (forall t, tree !! p <> Some (NLink t)) -> landsAt tree p = Some p.
Proof. intros Hp. unfold landsAt. destruct (tree !! p) as [[| |t|]|]; try done. by destruct (Hp t). Qed.

(** A path none of whose directories is a link leads where its last entry leads. *)
Lemma resolveFrom_lands tree rest dest p : rest <> [] -> Forall (fun c => c <> "") rest -> p = child dest (Join rest "/") ->
  (forall d below t, p = d +:+ "/" +:+ below -> tree !! d <> Some (NLink t)) -> resolveFrom tree dest rest = landsAt tree p.
Proof.
  revert dest. induction rest as [|name next IH]; intros dest Hne Hg -> Ha; [done|]. inversion_clear Hg as [|? ? Hn Hg']. cbn [resolveFrom].
  destruct next as [|q next]; [cbn; by destruct (landsAt _ _)|]. rewrite Join_cons in * by done.
  assert (child dest (name +:+ "/" +:+ Join (q :: next) "/") = child dest name +:+ "/" +:+ Join (q :: next) "/") as E by (unfold child; destruct (dest =s ""); [done|by rewrite !string_app_assoc]).
  rewrite E in *. rewrite landsAt_plain by (intros t; by eapply Ha). apply IH; [done|done| |done]. unfold child at 2.
  destruct (child dest name =s "") eqn:E2; [|done]. apply eqs_true in E2. unfold child in E2. destruct (dest =s ""); [done|]. by destruct dest.
Qed.
Lemma resolveIn_lands tree p : clean_parts (Split p "/") -> (forall d below t, p = d +:+ "/" +:+ below -> tree !! d <> Some (NLink t)) -> resolveIn tree p = landsAt tree p.
Proof.
  intros [Hg _] Ha. apply resolveFrom_lands; [apply Split_nonnil|eapply Forall_impl; [exact Hg|apply good_part_nonempty]|cbn; by rewrite Join_Split_slash|done].
Qed.

(** The requests that leave the root by a linked directory, or reach the private one. *)
Definition linkedTree : gmap string node :=
  {["escape" := NLink None; "state-alias" := NLink (Some ".birak"); ".birak" := NDir; ".birak/id" := NOther; "alias" := NLink (Some "docs"); "docs" := NDir; "docs/App.apk" := NOther]}.
Lemma SafePath_links : SafePath linkedTree "/escape/secret.txt" [] = None /\ SafePath linkedTree "state-alias/multipart/upload.json" [] = None /\
  SafePath linkedTree "alias/App.apk" [] = Some "alias/App.apk" /\ SafePath linkedTree "docs/new/App.apk" [] = Some "docs/new/App.apk".
Proof. by vm_compute. Qed.
