(* ===== verification/Resolve.v ===== *)
(** * Resolving a request through symbolic links

    internal/gateway/gateway.go and resolve.go: [SafePath] with the whole of its resolution,
    component by component, of the requested path. The filesystem is what a kernel shows: entries
    under their real paths, a link with its text. A path below the root of the filesystem is the
    list of its components. *)

From S2P Require Import Prelude GoStrings FileMeta Database Names Glob Validate Transfer Volume Paths.

(** ** The filesystem *)

Inductive fsEntry := FDir | FLink (target : string) | FOther.
Abbreviation FS := (gmap (list string) fsEntry).

Definition absolute (parts : list string) : string := "/" +:+ Join parts "/".
Definition partsOf (p : string) : list string := let r := TrimPrefix p "/" in if r =s "" then [] else Split r "/".
Definition parent (d : list string) : list string := List.removelast d.

(** What the kernel opens: from the directory [d] over the components [path], following [k]
    links, it comes to the entry at its third argument. *)
Inductive walk (fs : FS) : nat -> list string -> list string -> list string -> Prop :=
| walk_end d : walk fs 0 d [] d
| walk_stay k d c path r : c = "" \/ c = "." -> walk fs k d path r -> walk fs k d (c :: path) r
| walk_up k d path r : walk fs k (parent d) path r -> walk fs k d (".." :: path) r
| walk_dir k d c path r : good_part c -> fs !! (d ++ [c])%list = Some FDir -> walk fs k (d ++ [c]) path r -> walk fs k d (c :: path) r
| walk_other d c : good_part c -> fs !! (d ++ [c])%list = Some FOther -> walk fs 0 d [c] (d ++ [c])
| walk_link k d c t path r : good_part c -> fs !! (d ++ [c])%list = Some (FLink t) ->
    walk fs k (if HasPrefix t "/" then [] else d) (Split t "/" ++ path) r -> walk fs (S k) d (c :: path) r.

(** ** The code *)

Definition maxSymlinks : nat := 255.

Section Resolve.
Context (fs : FS).

(** The real path of one whose directories are resolved, ".." at its end aside, and [os.Lstat] of
    it; a link whose text cannot be read is one [os.Lstat] fails on. *)
Definition canon (dest : list string) : list string := clean_go true [] dest.
Definition Lstat (dest : list string) : option fsEntry := fs !! canon dest.

(** The case ".." of [evalEntry], and the directory of a link. *)
Definition dropLast (dest : list string) : list string :=
  if (2 <=? length dest)%nat && negb (List.last dest "" =s "..") then parent dest else (dest ++ [".."])%list.
Definition linkDir (dest : list string) : list string := if (2 <=? length dest)%nat then parent dest else [].

(** [func evalEntry(dir, name string, links *int) (dest string, ok bool)]; [links] are those that
    may still be followed. *)
Fixpoint evalEntry (links : nat) : list string -> list string -> option (list string * nat) :=
  fix go (dest path : list string) : option (list string * nat) :=
    match path with
    | [] => Some (dest, links)
    | elem :: rest =>
        if (elem =s "") || (elem =s ".") then go dest rest
        else if elem =s ".." then go (dropLast dest) rest
        else
          let dest := (dest ++ [elem])%list in
          match Lstat dest with
          | None => None
          | Some FDir => go dest rest
          | Some FOther => match rest with [] => go dest rest | _ => None end
          | Some (FLink target) =>
              match links with
              | O => None
              | S links => evalEntry links (if HasPrefix target "/" then [] else linkDir dest) (Split target "/" ++ rest)
              end
          end
    end.

(** [func evalDeepestAncestor(p string) string] *)
Fixpoint deepest_loop (dest : list string) (links : nat) (rest : list string) : list string :=
  match rest with
  | [] => canon dest
  | name :: next =>
      match evalEntry links dest [name] with
      | None => canon (dest ++ rest)
      | Some (resolved, links) => deepest_loop resolved links next
      end
  end.
Definition evalDeepestAncestor (p : string) : string := absolute (deepest_loop [] maxSymlinks (partsOf p)).

(** [filepath.EvalSymlinks] of an absolute path *)
Definition EvalSymlinks (p : string) : option string :=
  match evalEntry maxSymlinks [] (partsOf p) with Some (dest, _) => Some (absolute (canon dest)) | None => None end.

(** [func resolveNoSymlinkEscape(rootDir, full string) (resolvedPath, realRoot string, rootResolved bool, err error)]
    of absolute paths *)
Definition resolveNoSymlinkEscape (rootDir full : string) : option (string * string * bool) :=
  match EvalSymlinks rootDir with
  | None => Some (full, rootDir, false)
  | Some realRoot =>
      let resolved := evalDeepestAncestor full in
      if negb (resolved =s realRoot) && negb (HasPrefix resolved (realRoot +:+ "/")) then None
      else Some (resolved, realRoot, true)
  end.

(** [filepath.Rel] of a clean path at or below another *)
Definition relTo (root p : string) : string := if p =s root then "" else TrimPrefix p (root +:+ "/").

(** [func SafePath(rootDir, reqPath string, ignorePatterns []string) (relPath, fullPath string, err error)]
    of a clean absolute [rootDir]: the path relative to it. *)
Definition SafePath (rootDir reqPath : string) (ignorePatterns : list string) : option string :=
  let cleaned := Clean reqPath in
  let cleaned := if (cleaned =s ".") || (cleaned =s "/") then "" else cleaned in
  let cleaned := TrimPrefix cleaned "/" in
  if HasPrefix cleaned "../" || (cleaned =s "..") then None
  else if cleaned =s "" then Some ""
  else if negb (validateClientPath cleaned ignorePatterns) then None
  else
    let full := rootDir +:+ "/" +:+ cleaned in
    if negb (HasPrefix full (rootDir +:+ "/")) then None
    else match resolveNoSymlinkEscape rootDir full with
    | None => None
    | Some (resolved, realRoot, rootResolved) =>
        if rootResolved && negb (validateClientPath (relTo realRoot resolved) ignorePatterns) then None
        else Some cleaned
    end.

(** ** Facts *)

Lemma clean_go_split rooted stack l1 l2 : clean_go rooted stack (l1 ++ l2) = clean_go rooted (rev (clean_go rooted stack l1)) l2.
Proof.
  revert stack. induction l1 as [|p l1 IH]; intros stack; cbn [app clean_go]; [by rewrite rev_involutive|].
  destruct (_ || _); [apply IH|]. destruct (p =s ".."); [|apply IH]. destruct stack as [|top below]; [destruct rooted; apply IH|]. destruct (top =s ".."); apply IH.
Qed.
Lemma canon_entry dest c : good_part c -> canon (dest ++ [c]) = (canon dest ++ [c])%list.
Proof.
  intros Hc. unfold canon. rewrite clean_go_split. rewrite clean_go_good by (by constructor). by rewrite rev_involutive.
Qed.
Lemma canon_good dest : Forall good_part (canon dest).
Proof. unfold canon. destruct (clean_go_shape true dest) as (k & goods & -> & Hg & Hk). by rewrite (Hk eq_refl). Qed.
Lemma canon_id l : Forall good_part l -> canon l = l.
Proof. intros Hl. unfold canon. by rewrite clean_go_good. Qed.
Lemma canon_up dest : canon (dest ++ [".."]) = parent (canon dest).
Proof.
  unfold canon. rewrite clean_go_split. pose proof (canon_good dest) as Hg. unfold canon in Hg. set (l := clean_go true [] dest) in *. clearbody l. cbn [clean_go]. cbn.
  destruct l as [|x l _] using rev_ind; [done|]. rewrite rev_app_distr. cbn. apply Forall_app in Hg as [_ Hx]. inversion_clear Hx as [|? ? Hg _]. apply good_part_spec in Hg as (_ & _ & Hd).
  rewrite (proj2 (eqs_false _ _) Hd). cbn. unfold parent. by rewrite rev_involutive, removelast_last.
Qed.

(** A destination is made of ordinary components and "..". *)
Definition built (dest : list string) : Prop := Forall (fun c => good_part c \/ c = "..") dest.
Lemma built_snoc dest c : built dest -> good_part c -> built (dest ++ [c]).
Proof. intros Hb Hc. apply Forall_app. split; [done|]. constructor; [by left|constructor]. Qed.
Lemma last_snoc {A} (l : list A) x d : List.last (l ++ [x])%list d = x.
Proof. induction l as [|y l IH]; [done|]. cbn. destruct (l ++ [x])%list eqn:E; [by destruct l|done]. Qed.
Lemma canon_dropLast dest : built dest -> canon (dropLast dest) = parent (canon dest) /\ built (dropLast dest).
Proof.
  intros Hb. unfold dropLast. destruct (_ && _) eqn:E; [|split; [apply canon_up|apply Forall_app; split; [done|]; repeat constructor; by right]].
  apply andb_true_iff in E as [El Ed]. destruct dest as [|x dest _] using rev_ind; [done|]. rewrite last_snoc in Ed. apply negb_true_iff, eqs_false in Ed.
  apply Forall_app in Hb as [Hb Hx]. inversion_clear Hx as [|? ? [Hg|Hg] _]; [|done]. unfold parent at 1 3. rewrite removelast_last. split; [|done].
  rewrite canon_entry by done. unfold parent. by rewrite removelast_last.
Qed.
Lemma canon_linkDir dest c : built dest -> good_part c -> canon (linkDir (dest ++ [c])) = canon dest /\ built (linkDir (dest ++ [c])).
Proof.
  intros Hb Hc. unfold linkDir, parent. rewrite removelast_last, length_app. cbn [length].
  destruct (2 <=? length dest + 1)%nat eqn:E; [done|]. apply Nat.leb_gt in E. destruct dest; [done|]. cbn in E. lia.
Qed.
Lemma bad_part_cases c : good_part c \/ c = "" \/ c = "." \/ c = "..".
Proof.
  unfold good_part, bad_part. destruct (c =s "") eqn:E1; [apply eqs_true in E1; auto|]. destruct (c =s ".") eqn:E2; [apply eqs_true in E2; auto|].
  destruct (c =s "..") eqn:E3; [apply eqs_true in E3; auto|]. by left.
Qed.
Lemma good_tests c : good_part c -> (c =s "") || (c =s ".") = false /\ (c =s "..") = false.
Proof. unfold good_part, bad_part. intros Hc. apply orb_false_iff in Hc as [? ?]. done. Qed.

Lemma evalEntry_eq links dest path : evalEntry links dest path =
  match path with
  | [] => Some (dest, links)
  | elem :: rest =>
      if (elem =s "") || (elem =s ".") then evalEntry links dest rest
      else if elem =s ".." then evalEntry links (dropLast dest) rest
      else
        let dest := (dest ++ [elem])%list in
        match Lstat dest with
        | None => None
        | Some FDir => evalEntry links dest rest
        | Some FOther => match rest with [] => evalEntry links dest rest | _ => None end
        | Some (FLink target) =>
            match links with
            | O => None
            | S links => evalEntry links (if HasPrefix target "/" then [] else linkDir dest) (Split target "/" ++ rest)
            end
        end
  end.
Proof. by destruct links, path. Qed.

(** What the kernel finds, the code finds, when it may follow as many links. *)
Lemma evalEntry_complete k d path r : walk fs k d path r -> forall links dest, (k <= links)%nat -> built dest -> canon dest = d ->
  exists dest', evalEntry links dest path = Some (dest', (links - k)%nat) /\ canon dest' = r /\ built dest'.
Proof.
  induction 1 as [d|k d c path r Hc _ IH|k d path r _ IH|k d c path r Hc E _ IH|d c Hc E|k d c t path r Hc E _ IH]; intros links dest Hk Hb Hd; rewrite evalEntry_eq.
  - exists dest. by rewrite Nat.sub_0_r.
  - assert ((c =s "") || (c =s ".") = true) as -> by (by destruct Hc as [-> | ->]). by apply IH.
  - cbn. destruct (canon_dropLast dest Hb) as [H1 H2]. apply IH; [done|done|by rewrite H1, Hd].
  - destruct (good_tests c Hc) as [-> ->]. cbv zeta. unfold Lstat. rewrite canon_entry, Hd, E by done. apply IH; [done|by apply built_snoc|by rewrite canon_entry, Hd].
  - destruct (good_tests c Hc) as [-> ->]. cbv zeta. unfold Lstat. rewrite canon_entry, Hd, E by done. rewrite evalEntry_eq. exists (dest ++ [c])%list. rewrite Nat.sub_0_r, canon_entry, Hd by done.
    split; [done|]. split; [done|by apply built_snoc].
  - destruct (good_tests c Hc) as [-> ->]. cbv zeta. unfold Lstat. rewrite canon_entry, Hd, E by done. destruct links as [|links]; [lia|]. destruct (canon_linkDir dest c Hb Hc) as [H1 H2].
    destruct (IH links (if HasPrefix t "/" then [] else linkDir (dest ++ [c]))) as (dest' & H3 & H4 & H5); [lia|destruct (HasPrefix t "/"); [constructor|done]|destruct (HasPrefix t "/"); [done|by rewrite H1, Hd]|].
    exists dest'. by rewrite H3.
Qed.

(** A walk over two lists is a walk over each. *)
Lemma walk_app k d path r : walk fs k d path r -> forall l1 l2, path = (l1 ++ l2)%list ->
  exists k1 k2 e, walk fs k1 d l1 e /\ walk fs k2 e l2 r /\ k = (k1 + k2)%nat.
Proof.
  induction 1 as [d|k d c path r Hc W IH|k d path r W IH|k d c path r Hc E W IH|d c Hc E|k d c t path r Hc E W IH]; intros l1 l2 El.
  1:{ symmetry in El. apply app_nil in El as [-> ->]. exists O, O, d. split; [constructor|]. split; [constructor|done]. }
  all: destruct l1 as [|x l1]; cbn [app] in El; [subst l2; eexists O, _, d; split; [by constructor|]; split; [|by cbn]; first [by apply walk_stay|by apply walk_up|by apply walk_dir|by apply walk_other|by eapply walk_link]|].
  - injection El as <- ->. destruct (IH l1 l2 eq_refl) as (k1 & k2 & e & W1 & W2 & ->). exists k1, k2, e. split; [by constructor|done].
  - injection El as <- ->. destruct (IH l1 l2 eq_refl) as (k1 & k2 & e & W1 & W2 & ->). exists k1, k2, e. split; [by constructor|done].
  - injection El as <- ->. destruct (IH l1 l2 eq_refl) as (k1 & k2 & e & W1 & W2 & ->). exists k1, k2, e. split; [by apply walk_dir|done].
  - injection El as <- El. symmetry in El. apply app_nil in El as [-> ->]. exists O, O, (d ++ [c])%list. split; [by apply walk_other|]. split; [constructor|done].
  - injection El as <- ->. destruct (IH (Split t "/" ++ l1)%list l2 (app_assoc _ _ _)) as (k1 & k2 & e & W1 & W2 & ->). exists (S k1), k2, e. split; [by eapply walk_link|done].
Qed.

(** The deepest ancestor of a path the kernel opens is what it opens. *)
Lemma deepest_walk rest : forall k d r links dest, walk fs k d rest r -> (k <= links)%nat -> built dest -> canon dest = d -> deepest_loop dest links rest = r.
Proof.
  induction rest as [|name next IH]; intros k d r links dest W Hk Hb Hd; cbn [deepest_loop]; [by inversion W; subst|].
  destruct (walk_app _ _ _ _ W [name] next eq_refl) as (k1 & k2 & e & W1 & W2 & ->). destruct (evalEntry_complete _ _ _ _ W1 links dest ltac:(lia) Hb Hd) as (dest' & -> & H1 & H2).
  by eapply (IH k2 e r); [|lia| |].
Qed.

(** Of a path with a component missing in a directory, it is the missing one, and those after it
    as they are written. *)
Lemma deepest_new rest name more k d e links dest : walk fs k d rest e -> (k <= links)%nat -> built dest -> canon dest = d -> Forall good_part (name :: more) -> fs !! (e ++ [name])%list = None ->
  deepest_loop dest links (rest ++ name :: more) = (e ++ name :: more)%list.
Proof.
  revert k d links dest. induction rest as [|c next IH]; intros k d links dest W Hk Hb Hd Hn Hf.
  - inversion W; subst. cbn [app deepest_loop]. pose proof (Forall_inv Hn) as Hg. rewrite evalEntry_eq. destruct (good_tests name Hg) as [-> ->]. cbv zeta. unfold Lstat.
    rewrite canon_entry, Hf by done. unfold canon. rewrite clean_go_split, clean_go_good by done. by rewrite rev_involutive.
  - cbn [app deepest_loop]. destruct (walk_app _ _ _ _ W [c] next eq_refl) as (k1 & k2 & e1 & W1 & W2 & ->). destruct (evalEntry_complete _ _ _ _ W1 links dest ltac:(lia) Hb Hd) as (dest' & -> & H1 & H2).
    by eapply (IH k2 e1); [|lia| | | |].
Qed.

(** What the kernel opens has ordinary components. *)
Lemma clean_app l1 l2 : clean_parts (l1 ++ l2) <-> clean_parts l1 /\ clean_parts l2.
Proof. unfold clean_parts. rewrite !Forall_app. tauto. Qed.
Lemma clean_parent d : clean_parts d -> clean_parts (parent d).
Proof. unfold parent. destruct d as [|x d _] using rev_ind; [done|]. rewrite removelast_last. by intros [? _]%clean_app. Qed.
Lemma walk_clean k d path r : walk fs k d path r -> clean_parts d -> Forall (fun c => ContainsByte c "/" = false) path -> clean_parts r.
Proof.
  induction 1 as [|k d c path r Hc W IH|k d path r W IH|k d c path r Hc E W IH|d c Hc E|k d c t path r Hc E W IH]; intros Hd Hp; [done|..]; inversion_clear Hp as [|? ? Hx Hp'].
  - by apply IH.
  - apply IH; [by apply clean_parent|done].
  - apply IH; [|done]. apply clean_app. split; [done|]. split; by constructor.
  - apply clean_app. split; [done|]. split; by constructor.
  - apply IH; [destruct (HasPrefix t "/"); [split; constructor|done]|]. apply Forall_app. split; [apply Split_parts_plain|done].
Qed.
End Resolve.

(** ** Absolute paths *)

Lemma Join_clean_nonempty l : clean_parts l -> l <> [] -> Join l "/" <> "".
Proof. intros [Hg _] Hn. apply Join_nonempty; [done|]. eapply Forall_impl; [exact Hg|apply good_part_nonempty]. Qed.
Lemma partsOf_absolute l : clean_parts l -> partsOf (absolute l) = l.
Proof.
  intros Hl. unfold partsOf, absolute. rewrite TrimPrefix_app. destruct (decide (l = [])) as [->|Hn]; [done|].
  rewrite (proj2 (eqs_false _ _) (Join_clean_nonempty l Hl Hn)). destruct Hl as [_ Hs]. by apply Split_Join.
Qed.
Lemma absolute_inj a b : clean_parts a -> clean_parts b -> absolute a = absolute b -> a = b.
Proof. intros Ha Hb E. by rewrite <- (partsOf_absolute a Ha), <- (partsOf_absolute b Hb), E. Qed.
Lemma absolute_below rc rel : rc <> [] -> absolute rc +:+ "/" +:+ rel = absolute (rc ++ Split rel "/").
Proof. intros Hn. unfold absolute. rewrite Join_app, Join_Split_slash by (done || apply Split_nonnil). by rewrite string_app_assoc. Qed.

(** A path the code finds in the root lies in it, and [relTo] is the rest. *)
Lemma inside_parts a b : clean_parts a -> clean_parts b -> negb (absolute b =s absolute a) && negb (HasPrefix (absolute b) (absolute a +:+ "/")) = false ->
  exists c, b = (a ++ c)%list /\ relTo (absolute a) (absolute b) = Join c "/".
Proof.
  intros Ha Hb E. unfold relTo. destruct (absolute b =s absolute a) eqn:E1.
  { apply eqs_true, absolute_inj in E1 as ->; [|done|done]. exists []. by rewrite app_nil_r. }
  cbn [negb andb] in E. apply negb_false_iff, HasPrefix_spec in E as [t Et]. destruct (decide (a = [])) as [->|Hn].
  { exfalso. unfold absolute in Et. cbn in Et. injection Et as Et. destruct (decide (b = [])) as [->|Hbn]; [done|].
    pose proof (Join_not_rooted b "" Hb Hbn) as Hr. rewrite string_app_nil_r in Hr. rewrite Et in Hr. change (String "/" t) with ("/" +:+ t) in Hr. by rewrite HasPrefix_app in Hr. }
  exists (Split t "/"). rewrite Et, TrimPrefix_app, Join_Split_slash. split; [|done]. rewrite string_app_assoc, absolute_below in Et by done.
  rewrite <- (partsOf_absolute b Hb), Et. unfold partsOf, absolute. rewrite TrimPrefix_app.
  assert (a ++ Split t "/" <> [])%list as Hne by (by destruct a). assert (Forall (fun p => ContainsByte p "/" = false) (a ++ Split t "/")) as Hs by (apply Forall_app; split; [apply Ha|apply Split_parts_plain]).
  destruct (Join (a ++ Split t "/") "/" =s "") eqn:E2; [|by apply Split_Join]. exfalso. apply eqs_true in E2. rewrite Join_app in E2 by (done || apply Split_nonnil). by destruct (Join a "/").
Qed.

(** ** Property *)

(** A path of the root clients may see: not in the private directory, no scratch or backup file
    in it, no NUL, nor under an ignore rule. *)
Definition admissible (patterns : list string) (rel : string) : Prop :=
  exposed rel /\ (rel <> "" -> patterns <> [] -> ShouldIgnore rel patterns = false).

Lemma validateClientPath_admissible patterns rel : validateClientPath rel patterns = true -> admissible patterns rel.
Proof.
  intros Hv. split; [by eapply validateClientPath_exposed|]. intros Hr Hp. unfold validateClientPath in Hv. rewrite (proj2 (eqs_false _ _) Hr) in Hv.
  destruct patterns as [|x l]; [done|]. destruct (ShouldIgnore rel (x :: l)); [|done]. cbn in Hv. by destruct (length l).
Qed.

Section Confined.
Context (fs : FS) (rc rr : list string) (kr : nat) (patterns : list string).
Context (Hrc : clean_parts rc) (Hne : rc <> []) (Hroot : walk fs kr [] rc rr) (Hkr : (kr <= maxSymlinks)%nat).

Lemma root_clean : clean_parts rr.
Proof. eapply walk_clean; [exact Hroot|split; constructor|apply Hrc]. Qed.

Lemma EvalSymlinks_root : EvalSymlinks fs (absolute rc) = Some (absolute rr).
Proof.
  unfold EvalSymlinks. rewrite partsOf_absolute by done. destruct (evalEntry_complete fs _ _ _ _ Hroot maxSymlinks [] Hkr ltac:(constructor) eq_refl) as (dest & -> & -> & _). done.
Qed.

(** What a request is admitted for: itself, and what its deepest ancestor resolves it to. *)
Lemma SafePath_Some reqPath rel : SafePath fs (absolute rc) reqPath patterns = Some rel -> rel <> "" ->
  clean_parts (Split rel "/") /\ admissible patterns rel /\
  forall r, deepest_loop fs [] maxSymlinks (rc ++ Split rel "/") = r -> clean_parts r -> exists c, r = (rr ++ c)%list /\ admissible patterns (Join c "/").
Proof.
  unfold SafePath. set (cleaned := TrimPrefix _ "/"). intros E Hr. destruct (HasPrefix cleaned "../" || (cleaned =s "..")) eqn:E1; [done|].
  destruct (cleaned =s "") eqn:E2; [by injection E as <-|]. apply eqs_false in E2.
  destruct (validateClientPath cleaned patterns) eqn:E3; [|done]. cbn [negb] in E. destruct (HasPrefix (absolute rc +:+ "/" +:+ cleaned) (absolute rc +:+ "/")); [|done]. cbn [negb] in E.
  unfold resolveNoSymlinkEscape in E. rewrite EvalSymlinks_root in E. cbv zeta in E. destruct (_ && _) eqn:Ein; [done|]. cbn [andb] in E.
  destruct (validateClientPath (relTo _ _) patterns) eqn:E4; [|done]. injection E as <-.
  assert (clean_parts (Split cleaned "/")) as Hclean by (split; [by apply (cleaned_good reqPath)|apply Split_parts_plain]).
  split; [done|]. split; [by apply validateClientPath_admissible|]. intros r Er Hcr. unfold evalDeepestAncestor in *.
  rewrite absolute_below, partsOf_absolute, Er in Ein, E4 by (done || by apply clean_app). destruct (inside_parts rr r root_clean Hcr Ein) as (c & -> & Ec).
  exists c. split; [done|]. rewrite Ec in E4. by apply validateClientPath_admissible.
Qed.

(** C30. A path a client may use stays in the served directory, whatever symbolic links lie on it:
    the root [rc] leads to the real directory [rr], [SafePath] admits the request as [rel]; then
    [rel] is made of ordinary components (none empty, "." or ".."); the entry the kernel comes to
    over [rel], through every link on the way, lies in [rr], and at a path a client may name: not
    in the private directory, no scratch or backup file, in any spelling a case-insensitive
    volume would open, and under no ignore rule; and so does the entry a new name would be, where
    [rel] goes on from an existing directory with a name that is not there. Links may be followed
    as often as the code follows them, 255 times; a kernel gives up after 40. *)
Theorem SafePath_confined (reqPath rel : string) :
  SafePath fs (absolute rc) reqPath patterns = Some rel -> rel <> "" ->
  clean_parts (Split rel "/") /\ admissible patterns rel /\
  (forall k r, walk fs k [] (rc ++ Split rel "/") r -> (k <= maxSymlinks)%nat -> exists c, r = (rr ++ c)%list /\ admissible patterns (Join c "/")) /\
  (forall k there name more d, Split rel "/" = (there ++ name :: more)%list -> walk fs k [] (rc ++ there) d -> (k <= maxSymlinks)%nat -> fs !! (d ++ [name])%list = None ->
     exists c, (d ++ name :: more)%list = (rr ++ c)%list /\ admissible patterns (Join c "/")).
Proof.
  intros E Hr. destruct (SafePath_Some reqPath rel E Hr) as (Hclean & Hadm & Hin). split; [done|]. split; [done|].
  assert (forall l, clean_parts l -> Forall (fun c => ContainsByte c "/" = false) (rc ++ l)) as Hplain by (intros l [_ Hl]; apply Forall_app; split; [apply Hrc|done]).
  assert (clean_parts []) as Hnil by (split; constructor). split.
  - intros k r W Hk. apply Hin; [|eapply walk_clean; [exact W|done|by apply Hplain]]. by eapply (deepest_walk fs _ k []); [exact W|done|constructor|].
  - intros k there name more d El W Hk Hf. rewrite El in Hclean. apply clean_app in Hclean as [Ht Hm]. apply Hin.
    + rewrite El, app_assoc. by eapply (deepest_new fs _ name more k []); [exact W|done|constructor|done|apply Hm|done].
    + apply clean_app. split; [|done]. eapply walk_clean; [exact W|done|by apply Hplain].
Qed.
End Confined.

(** ** A served directory with links *)

(** The served directory is itself reached over a link; in it are a link to a directory out of it,
    one to its private directory, one to a directory of its own and one that leads back to it. *)
Definition linkedFS : FS :=
  list_to_map [([], FDir); (["mnt"], FDir); (["mnt"; "vol"], FDir); (["srv"], FDir); (["srv"; "data"], FLink "../mnt/./vol"); (["etc"], FDir); (["etc"; "secret.txt"], FOther);
     (["mnt"; "vol"; "docs"], FDir); (["mnt"; "vol"; "docs"; "App.apk"], FOther); (["mnt"; "vol"; "alias"], FLink "round/docs/"); (["mnt"; "vol"; "round"], FLink "/srv/data");
     (["mnt"; "vol"; "escape"], FLink "../../etc"); (["mnt"; "vol"; ".birak"], FDir); (["mnt"; "vol"; "state-alias"], FLink ".birak")].
Ltac steps :=
  first [ apply walk_end
        | apply walk_stay; [by (left + right)|]; steps
        | apply walk_up; steps
        | eapply walk_link; [reflexivity|by vm_compute|]; cbn [HasPrefix String.prefix Split app]; vm_compute; steps
        | apply walk_dir; [reflexivity|by vm_compute|]; cbn [app]; steps
        | apply walk_other; [reflexivity|by vm_compute] ].

Lemma SafePath_confined_witness :
  SafePath linkedFS "/srv/data" "/escape/secret.txt" [] = None /\ SafePath linkedFS "/srv/data" "state-alias/multipart/upload.json" [] = None /\
  SafePath linkedFS "/srv/data" "docs/../../x" [] = None /\ SafePath linkedFS "/srv/data" "/alias//App.apk" ["*.tmp"] = Some "alias/App.apk" /\
  walk linkedFS 4 [] ["srv"; "data"; "alias"; "App.apk"] ["mnt"; "vol"; "docs"; "App.apk"] /\
  exists c, ["mnt"; "vol"; "docs"; "App.apk"] = (["mnt"; "vol"] ++ c)%list /\ admissible ["*.tmp"] (Join c "/").
Proof.
  assert (walk linkedFS 1 [] ["srv"; "data"] ["mnt"; "vol"]) as W1 by steps.
  assert (walk linkedFS 4 [] ["srv"; "data"; "alias"; "App.apk"] ["mnt"; "vol"; "docs"; "App.apk"]) as W2 by steps.
  assert (SafePath linkedFS "/srv/data" "/alias//App.apk" ["*.tmp"] = Some "alias/App.apk") as E by (by vm_compute).
  split; [by vm_compute|]. split; [by vm_compute|]. split; [by vm_compute|]. split; [done|]. split; [done|].
  destruct (SafePath_confined linkedFS ["srv"; "data"] ["mnt"; "vol"] 1 ["*.tmp"] ltac:(split; repeat constructor) ltac:(done) W1 ltac:(unfold maxSymlinks; lia) "/alias//App.apk" "alias/App.apk" E ltac:(done)) as (_ & _ & H & _).
  by apply (H 4%nat); [|unfold maxSymlinks; lia].
Defined.
