(* ===== verification/Indexing.v ===== *)
(** * Indexing one name

    internal/watcher: how the watcher turns what it finds on disk at one name into a state of
    the store (watcher.go, scrub.go), quarantines silent damage, and finishes replica commits a
    crash interrupted (commits.go). Every operation runs under the volume's lock, so nothing
    else changes the tree meanwhile. *)

From S2P Require Import Prelude GoStrings Hoare FileMeta Database Names Store RepairQueue Integrity Intents Glob Validate Transfer Volume.

(** [type FileEvent] *)
Record FileEvent := mkEvent { ev_Name : string; ev_ModTime : Z; ev_Size : Z; ev_Hash : string; ev_Deleted : bool }.

(** [type indexOptions]; [deferDeletion] collects into the world's notes. *)
Record indexOptions := mkOptions {
  io_allowIntegrity : bool; io_durable : bool; io_published : gmap string (Info * string);
  io_trustStat : bool; io_deferDeletion : bool
}.
Definition noOptions : indexOptions := mkOptions false false ∅ false false.

(** [func isOutsideSyncDir(relPath string) bool] *)
Definition isOutsideSyncDir (relPath : string) : bool := HasPrefix relPath "../" || (relPath =s "..").

Section Watcher.
Context `{NameFolding} (sha256Hex : string -> string) (stored : Z -> Z) (granularity : Z).
Context (ignorePatterns : list string) (repairPeers : list string) (now : Z).

Definition shouldIgnore (name : string) : bool := ShouldIgnore name ignorePatterns.

(** *** Quarantine *)

(** [NeedsRepair], [requestRescan] and [fileops.RevokeGenerationLocked] *)
Definition NeedsRepair (name : string) : W bool := let! s := getStore in retS (IsQuarantined name s).
Definition requestRescan : W unit := modifyS (fun w => let n := wd_notes w in
  set_notes (mkNotes (nt_deferred n) (nt_rescans n + 1) (nt_readErrors n) (nt_restamped n) (nt_revoked n)) w).
Definition RevokeGenerationLocked (info : Info) : W unit := modifyS (fun w => let n := wd_notes w in
  set_notes (mkNotes (nt_deferred n) (nt_rescans n) (nt_readErrors n) (nt_restamped n) (info :: nt_revoked n)) w).

(** [func (w *Watcher) clearIntegrity(name string, verifiedKey ...string) error] *)
Definition clearIntegrity (name key : string) : W unit :=
  let! s := getStore in
  if negb (IsQuarantined name s) && negb (IsDamagedObject key s) then retS tt
  else
    do! (if key =s "" then SyncSurvivingParent name else retS tt) then
    do! inStore (ClearQuarantine name key) then
    requestRescan.

(** [func (w *Watcher) quarantineFor(meta *store.FileMeta, reason string, cause error) error]:
    it always ends in an error. *)
Definition quarantineFor {A} (meta : FileMeta) (reason : string) : W A :=
  let! n := stat (Name meta) in
  match n with
  | Some (NFile i) =>
      let info := infoOf i in
      let! k := tryS sysW in
      match k with
      | Err e => do! RevokeGenerationLocked info then failS e
      | Ok _ =>
          let! q := tryS (inStore (SetQuarantined (Name meta) (GenerationKey info))) in
          do! RevokeGenerationLocked info then
          match q with
          | Err e => failS e
          | Ok _ =>
              if Hash meta =s "" then failS (WIntegrity (Name meta))
              else
                let! _ := tryS (forS (fun peer =>
                  let! r := inStore (EnqueueChange now peer meta reason) in
                  match r.2 with None => retS tt | Some e => failS (WStore e) end) repairPeers) in
                failS (WIntegrity (Name meta))
          end
      end
  | _ => failS WMissing
  end.

(** [func (w *Watcher) readFailed(name string, existing *store.FileMeta, err error) error] *)
Definition readFailed {A} (existing : option FileMeta) (e : werr) : W A :=
  match e with
  | WEIO =>
      do! modifyS (fun w => let n := wd_notes w in
        set_notes (mkNotes (nt_deferred n) (nt_rescans n) (nt_readErrors n + 1) (nt_restamped n) (nt_revoked n)) w) then
      match existing with
      | Some m => if Deleted m then failS WUnreadable else quarantineFor m "local read error"
      | None => failS WUnreadable
      end
  | _ => failS e
  end.

(** *** Replica intents *)

(** Whether the entry found is the one an intent describes; a timestamp lost meanwhile is
    restored. *)
Definition intentMatches (name : string) (meta : FileMeta) (st : result werr (option node)) : W bool :=
  match st with
  | Err _ => retS false
  | Ok n =>
      if Deleted meta then retS (match n with None | Some NDir => true | _ => false end)
      else match n with
      | None => retS false
      | Some _ =>
          let! snap := Snapshot sha256Hex name in
          let matches := (snap.2 =s Hash meta) && (fi_size snap.1 =? Size meta) in
          do! (if matches && negb (SameModTime granularity (fi_mtime snap.1) (ModTime meta))
               then chtimes stored name (ModTime meta) else retS tt) then
          retS matches
      end
  end.

(** [func (w *Watcher) recoverReplicaLocked(name string) error] *)
Definition recoverReplicaLocked (name : string) : W unit :=
  let! intent := inStore (ReplicaIntent name) in
  match intent with
  | None => retS tt
  | Some meta =>
      let! st := tryS (lstat name) in
      let! matches := intentMatches name meta st in
      if matches : bool then
        do! (if Deleted meta then retS tt else syncPath name) then
        do! SyncSurvivingParent name then
        let! _ := inStore (PutRemote now meta) in retS tt
      else match st with
      | Err e => failS e
      | Ok _ => inStore (ClearReplicaIntent name)
      end
  end.

(** *** Looking at the file *)

(** [func (w *Watcher) unchangedByStat(name string) bool] *)
Definition unchangedByStat (name : string) : W bool :=
  let! q := NeedsRepair name in
  if q : bool then retS false
  else
    let! meta := tryS (inStore (GetFile name)) in
    match meta with
    | Ok (Some meta) =>
        if Deleted meta then retS false
        else
          let! n := tryS (lstat name) in
          match n with
          | Ok (Some (NFile i)) => retS ((slen (in_bytes i) =? Size meta) && SameModTime granularity (in_mtime i) (ModTime meta))
          | _ => retS false
          end
    | _ => retS false
    end.

(** [func (w *Watcher) snapshot(path string, precomputed *hashed) (os.FileInfo, string, error)] *)
Definition snapshot (name : string) (precomputed : option (Info * string)) : W (Info * string) :=
  match precomputed with
  | None => Snapshot sha256Hex name
  | Some (info, hash) =>
      let! n := tryS (stat name) in
      match n with
      | Ok (Some (NFile i)) => if same info (infoOf i) then retS (info, hash) else Snapshot sha256Hex name
      | _ => Snapshot sha256Hex name
      end
  end.

(** [func (w *Watcher) safeSymlinkInfo(path string) (os.FileInfo, bool)]: whether the target may
    be indexed. *)
Definition safeSymlink (target : option string) (w : World) : option string :=
  match target with
  | Some t => if shouldIgnore t then None
              else match wd_tree w !! t with Some NDir | None => None | Some _ => Some t end
  | None => None
  end.

Definition live (m : option FileMeta) : bool := match m with Some m => negb (Deleted m) | None => false end.

(** The end of [inspectFile], for a regular file with a stable hash. *)
Definition inspectRegular (name : string) (existing : option FileMeta) (info : Info) (hash : string) : W (option FileEvent) :=
  let! trusted := inStore (HasLocalIntent name) in
  do! sysW then
  let key := GenerationKey info in
  let! s := getStore in
  if negb trusted && IsDamagedObject key s && match existing with None => true | Some m => negb (Hash m =s hash) end
  then quarantineFor (default (zeroMeta name) existing) "local checksum mismatch"
  else
    let sameStamp := match existing with Some m => SameModTime granularity (fi_mtime info) (ModTime m) | None => false end in
    let sameSize := match existing with Some m => Size m =? fi_size info | None => false end in
    let sameHash := match existing with Some m => Hash m =s hash | None => false end in
    if live existing && negb sameHash && sameStamp && sameSize && negb trusted
    then quarantineFor (default (zeroMeta name) existing) "local checksum mismatch"
    else
      let! s := getStore in
      do! (if IsQuarantined name s || IsDamagedObject key s
           then do! syncPath name then do! SyncSurvivingParent name then clearIntegrity name key
           else retS tt) then
      if live existing && sameHash && sameStamp && sameSize then retS None
      else if negb trusted && live existing && sameHash && sameSize then
        do! chtimes stored name (ModTime (default (zeroMeta name) existing)) then
        do! syncPath name then
        do! modifyS (fun w => let n := wd_notes w in
          set_notes (mkNotes (nt_deferred n) (nt_rescans n) (nt_readErrors n) (nt_restamped n + 1) (nt_revoked n)) w) then
        retS None
      else retS (Some (mkEvent name (fi_mtime info) (fi_size info) hash false)).

(** [func (w *Watcher) inspectFile(name string, opts indexOptions) ( *FileEvent, error)];
    [refreshTarget] indexes the target of a symbolic link. *)
Definition inspectFile (refreshTarget : string -> W unit) (name : string) (opts : indexOptions) : W (option FileEvent) :=
  if isOutsideSyncDir name || shouldIgnore name then retS None
  else
    let! w := getS in
    if BusyLocked name w then failS WBusy
    else
      let! existing := inStore (GetFile name) in
      let! n := lstat name in
      match n with
      | None =>
          if negb (live existing) then do! clearIntegrity name "" then retS None
          else if io_deferDeletion opts then
            do! modifyS (fun w => let n := wd_notes w in
              set_notes (mkNotes (nt_deferred n ++ [name]) (nt_rescans n) (nt_readErrors n) (nt_restamped n) (nt_revoked n)) w) then
            retS None
          else
            do! clearIntegrity name "" then
            do! CleanEmptyParentsLocked name then
            retS (Some (mkEvent name (match existing with Some m => ModTime m | None => 0 end) 0 "" true))
      | Some (NLink target) =>
          let! w := getS in
          match safeSymlink target w with
          | None => if live existing then failS (WUnsupported name) else retS None
          | Some t =>
              do! sysW then
              do! (if t =s name then retS tt else refreshTarget t) then
              match wd_tree w !! t with
              | Some (NFile _) =>
                  let! snap := tryS (snapshot name (io_published opts !! name)) in
                  match snap with
                  | Err e => readFailed existing e
                  | Ok (info, hash) => inspectRegular name existing info hash
                  end
              | _ =>
                  let! _ := inStore (HasLocalIntent name) in
                  if live existing then failS (WUnsupported name) else retS None
              end
          end
      | Some (NFile _) =>
          let! snap := tryS (snapshot name (io_published opts !! name)) in
          match snap with
          | Err e => readFailed existing e
          | Ok (info, hash) => inspectRegular name existing info hash
          end
      | Some n =>
          let! trusted := inStore (HasLocalIntent name) in
          if bool_decide (n = NDir) && trusted && live existing
          then retS (Some (mkEvent name (match existing with Some m => ModTime m | None => 0 end) 0 "" true))
          else if live existing then failS (WUnsupported name) else retS None
      end.

(** *** Indexing *)

Definition metaOf (ev : FileEvent) : FileMeta := {|
  Name := ev_Name ev; ModTime := ev_ModTime ev; Size := ev_Size ev; Hash := ev_Hash ev; Deleted := ev_Deleted ev;
  Version := 0; BigClock := ""; Clock := 0; SupersededBy := ""; ConflictOf := ""; DeletedAt := 0 |}.

(** [func (w *Watcher) refreshFileLocked(name string, opts indexOptions) error], with what it
    does for the target of a link. A target is resolved, so it is no link itself and one level
    is enough. *)
Definition refreshWith (refreshTarget : string -> W unit) (name : string) (opts : indexOptions) : W unit :=
  do! inStore (CheckName name) then
  do! CheckSpelling name then
  let! w := getS in
  if BusyLocked name w then failS WBusy
  else
    do! recoverReplicaLocked name then
    let! unchanged := (if io_trustStat opts then unchangedByStat name else retS false) in
    if unchanged : bool then retS tt
    else
      let! ev := inspectFile refreshTarget name opts in
      match ev with
      | None => retS tt
      | Some ev =>
          do! (if negb (ev_Deleted ev) && negb (io_durable opts) then syncPath name else retS tt) then
          do! (if negb (io_durable opts) then SyncSurvivingParent name else retS tt) then
          let! _ := inStore (PutLocal now (metaOf ev)) in retS tt
      end.
Definition refreshFileLocked : string -> indexOptions -> W unit :=
  refreshWith (fun t => refreshWith (fun t' => failS (WUnsupported t')) t noOptions).
End Watcher.

(** ** What indexing leaves alone *)

Lemma keeps_rows_CheckName `{NameFolding} name : keeps rows_kept (CheckName name).
Proof. unfold CheckName, checkPart. eauto 10 with birak. Qed.
Lemma keeps_rows_GetFile name : keeps rows_kept (GetFile name).
Proof. apply keeps_rows_query. Qed.
Lemma keeps_rows_HasLocalIntent name : keeps rows_kept (HasLocalIntent name).
Proof. unfold HasLocalIntent. eauto 10 with birak. Qed.
Lemma keeps_rows_ReplicaIntent name : keeps rows_kept (ReplicaIntent name).
Proof. unfold ReplicaIntent. eauto 10 with birak. Qed.

Lemma keeps_rows_SetQuarantined name key : keeps rows_kept (SetQuarantined name key).
Proof.
  unfold SetQuarantined. apply keeps_bind; [apply _|by apply keeps_rows_modify|]. intros _.
  apply keeps_rows_transact; [apply keeps_set_tx|].
  repeat (apply keeps_bind; [apply _|by apply keeps_rows_exec|]; intros _). apply keeps_ret, _.
Qed.

Lemma keeps_rows_ClearQuarantine name key : keeps rows_kept (ClearQuarantine name key).
Proof.
  unfold ClearQuarantine. apply keeps_bind; [apply _| |intros _; by apply keeps_rows_modify].
  apply keeps_rows_transact; [apply keeps_clear_tx|]. apply keeps_bind; [apply _|by apply keeps_rows_exec|]. intros _.
  apply keeps_bind; [apply _| |intros _; apply keeps_ret, _]. destruct (key =s ""); [apply keeps_ret, _|by apply keeps_rows_exec].
Qed.

Lemma keeps_rows_enqueue_loop now peer reason limit queued bs batch : keeps rows_kept (enqueue_loop now peer reason limit queued bs batch).
Proof.
  revert bs. induction batch as [|c batch IH]; intros bs; cbn [enqueue_loop]; [apply keeps_ret, _|].
  apply keeps_bind; [apply _|apply keeps_rows_query|]. intros row. cbv zeta. destruct (_ && _); [apply keeps_ret, _|].
  destruct (match qc_meta c with Some _ => _ | None => _ end); [apply IH|].
  apply keeps_bind; [apply _|by apply keeps_rows_exec|]. intros _. apply IH.
Qed.

Lemma keeps_rows_enqueue_tx now peer reason batch : keeps rows_kept (enqueue_tx now peer reason batch).
Proof.
  unfold enqueue_tx, readRevision, queuedFor.
  do 5 (apply keeps_bind; [apply _|eauto using keeps_get, rows_kept_preorder with birak|intros ?]).
  apply keeps_bind; [apply _|apply keeps_rows_enqueue_loop|]. intros [bs full]. destruct (bs_written bs =? 0); [apply keeps_ret, _|].
  apply keeps_bind; [apply _|by apply keeps_rows_exec|]. intros _. apply keeps_ret, _.
Qed.

Lemma keeps_rows_EnqueueChange now peer meta reason : keeps rows_kept (EnqueueChange now peer meta reason).
Proof.
  unfold EnqueueChange, enqueue. apply keeps_bind; [apply _|apply keeps_rows_transact; [apply keeps_enqueue_tx|apply keeps_rows_enqueue_tx]|].
  intros [bs full]. destruct (bs_written bs =? 0); [apply keeps_ret, _|]. apply keeps_bind; [apply _|by apply keeps_rows_modify|]. intros _.
  apply keeps_bind; [apply _| |intros _; apply keeps_ret, _]. destruct (0 <? bs_fresh bs); by apply keeps_rows_modify.
Qed.

#[export] Hint Resolve keeps_rows_CheckName keeps_rows_GetFile keeps_rows_HasLocalIntent keeps_rows_ReplicaIntent
  keeps_rows_SetQuarantined keeps_rows_ClearQuarantine keeps_rows_EnqueueChange
  still_lstat still_stat still_getStore still_flushEntry still_SyncSurvivingParent still_chtimes still_syncPath still_Snapshot still_clean : birak.

Section Still.
Context `{NameFolding} (sha256Hex : string -> string) (stored : Z -> Z) (granularity : Z).
Context (ignorePatterns : list string) (repairPeers : list string) (now : Z).

Lemma still_clearIntegrity name n key : keeps (still name) (clearIntegrity n key).
Proof. unfold clearIntegrity, requestRescan. still. Qed.

Lemma still_quarantineFor {A} name meta reason : keeps (still name) (quarantineFor repairPeers now meta reason : W A).
Proof. unfold quarantineFor, RevokeGenerationLocked. still. Qed.

Lemma still_readFailed {A} name existing e : keeps (still name) (readFailed repairPeers now existing e : W A).
Proof. unfold readFailed. pose proof (fun m r => @still_quarantineFor A name m r). still. Qed.

Lemma still_snapshot name n pre : keeps (still name) (snapshot sha256Hex n pre).
Proof. unfold snapshot. still. Qed.

Lemma still_unchangedByStat name n : keeps (still name) (unchangedByStat granularity n).
Proof. unfold unchangedByStat, NeedsRepair. still. Qed.

Lemma still_inspectRegular name n existing info hash : keeps (still name) (inspectRegular stored granularity repairPeers now n existing info hash).
Proof.
  unfold inspectRegular. pose proof (fun m r => @still_quarantineFor (option FileEvent) name m r). pose proof still_clearIntegrity. still.
Qed.
End Still.

(** ** The store follows the disk *)

Section Follows.
Context `{NameFolding} (sha256Hex : string -> string) (stored : Z -> Z) (granularity : Z).
Context (ignorePatterns : list string) (repairPeers : list string) (now : Z).

Definition rowsOf (w : World) : gmap string FileMeta := files (db (wd_store w)).

(** A row and what is on disk: a tombstone has no file, a live row its bytes. *)
Definition fits (row : FileMeta) (b : option string) : Prop :=
  match b with
  | None => Deleted row = true
  | Some bytes => Deleted row = false /\ sha256Hex bytes = Hash row /\ slen bytes = Size row
  end.

(** What may happen to one name: nothing, or a row that the disk already backs. *)
Record settled (name : string) (w w' : World) : Prop := mkSettled {
  sd_others : forall n, n <> name -> rowsOf w' !! n = rowsOf w !! n;
  sd_row : (rowsOf w' !! name = rowsOf w !! name /\ forall b, backed name b w -> backed name b w') \/
           (exists row b, rowsOf w' !! name = Some row /\ fits row b /\ backed name b w')
}.

Lemma still_settled name w w' : still name w w' -> settled name w w'.
Proof. intros [[H1 _] _ H3]. split; unfold rowsOf; rewrite H1; auto. Qed.

#[export] Instance settled_preorder name : PreOrder (settled name).
Proof.
  split; [intros w; by apply still_settled|]. intros w1 w2 w3 [H1 H2] [H3 H4]. split.
  - intros n Hn. rewrite H3, H1 by done. done.
  - destruct H4 as [[E4 B4]|?]; [|by right]. destruct H2 as [[E2 B2]|(row & b & E2 & F2 & B2)].
    + left. split; [congruence|auto].
    + right. exists row, b. rewrite E4. auto.
Qed.

Lemma keeps_settled {A} name (c : W A) : keeps (still name) c -> keeps (settled name) c.
Proof. intros Hc w. by apply still_settled. Qed.

(** The entry a state of a name describes. *)
Definition entryOf (w : World) (meta : FileMeta) (b : option string) : Prop :=
  fits meta b /\ match b with
                 | None => wd_tree w !! Name meta = None \/ wd_tree w !! Name meta = Some NDir
                 | Some bytes => exists i, wd_tree w !! Name meta = Some (NFile i) /\ in_bytes i = bytes
                 end.

Lemma entryOf_still w w' meta b : still (Name meta) w w' -> entryOf w meta b -> entryOf w' meta b.
Proof.
  intros [_ Hs _] [Hf He]. split; [done|]. unfold sameAt in Hs. destruct b as [bytes|].
  - destruct He as (i & E & Hb). rewrite E in Hs. destruct Hs as (i' & E' & Hb' & _). exists i'. by rewrite <- Hb.
  - destruct He as [E|E]; rewrite E in Hs; [by left|]. destruct Hs; auto.
Qed.

Lemma sysW_frame w : wd_tree (sysW w).2 = wd_tree w /\ wd_durable (sysW w).2 = wd_durable w /\ wd_xfer (sysW w).2 = wd_xfer w /\ wd_busy (sysW w).2 = wd_busy w.
Proof. unfold sysW. destruct (wd_faults w) as [|[] l]; done. Qed.

Lemma syncPath_Ok name w i w' : wd_tree w !! name = Some (NFile i) -> syncPath name w = (Ok tt, w') -> wd_tree w' !! name = Some (NFile (flushed i)).
Proof.
  intros E R. unfold syncPath in R. apply bindS_Ok in R as ([] & w1 & R1 & R). pose proof (sysW_frame w) as (F1 & _). rewrite R1 in F1. cbn in F1.
  unfold bindS at 1 in R. cbn in R. unfold fileAtName, resolve in R. rewrite F1, E, E in R.
  apply bindS_Ok in R as ([] & w2 & R2 & R). pose proof (sysW_frame w1) as (F2 & _). rewrite R2 in F2. cbn in F2.
  unfold updFile, modifyS, resolve in R. rewrite F2, F1, E, E in R. injection R as <-.
  destruct (wd_durable w2 !! name) as [[j| | |]|]; [destruct (sameFile i j)| | | |]; cbn; by rewrite lookup_insert_eq.
Qed.

Lemma flushEntry_Ok name w w' : flushEntry name w = (Ok tt, w') -> wd_tree w' = wd_tree w /\ wd_durable w' !! name = wd_tree w !! name.
Proof.
  intros R. unfold flushEntry in R. apply bindS_Ok in R as ([] & w1 & R1 & R). pose proof (sysW_frame w) as (F1 & _). rewrite R1 in F1. cbn in F1.
  injection R as <-. cbn. rewrite F1. split; [done|]. destruct (wd_tree w !! name); [by rewrite lookup_insert_eq|by rewrite lookup_delete_eq].
Qed.

Lemma SyncSurvivingParent_Ok name w w' : SyncSurvivingParent name w = (Ok tt, w') -> wd_tree w' = wd_tree w /\ wd_durable w' !! name = wd_tree w !! name.
Proof.
  intros R. unfold SyncSurvivingParent in R. apply bindS_Ok in R as ([] & w1 & R1 & R). pose proof (sysW_frame w) as (F1 & _). rewrite R1 in F1. cbn in F1.
  apply flushEntry_Ok in R. by rewrite F1 in R.
Qed.

(** A commit of a state that the disk backs. *)
Lemma commit_settled meta local b w : backed (Name meta) b w -> fits meta b -> settled (Name meta) w (inStore (commitPut now meta local) w).2.
Proof.
  intros Hb Hf. unfold inStore, zoomS. destruct (commitPut now meta local (wd_store w)) as [r s'] eqn:E. apply commitPut_rows in E. destruct r as [ver|e].
  - destruct E as [E _]. split; unfold rowsOf; cbn; rewrite E.
    + intros n Hn. by rewrite lookup_insert_ne.
    + right. eexists _, b. rewrite lookup_insert_eq. split; [done|]. split; [|done].
      assert (Hash (putState (db (wd_store w)) meta local) = Hash meta /\ Size (putState (db (wd_store w)) meta local) = Size meta /\ Deleted (putState (db (wd_store w)) meta local) = Deleted meta) as (E1 & E2 & E3).
      { unfold putState. destruct local; [|done]. destruct (AdvanceClock_fields meta (observedClock (db (wd_store w)) (Name meta))) as (_ & _ & ? & ? & ? & _). done. }
      unfold fits in *. cbn. rewrite E1, E2, E3. done.
  - destruct E as [E _]. split; unfold rowsOf; cbn; rewrite E; [done|]. left. split; [done|]. done.
Qed.

(** Flush the bytes, flush the entry, commit: at every point the store has nothing the disk
    could lose. *)
Lemma flush_commit meta local b w : entryOf w meta b ->
  settled (Name meta) w ((do! (if Deleted meta then retS tt else syncPath (Name meta)) then
                          do! SyncSurvivingParent (Name meta) then let! _ := inStore (commitPut now meta local) in retS tt) w).2.
Proof.
  intros He. set (name := Name meta) in *. unfold bindS at 1.
  assert (keeps (still name) (if Deleted meta then retS tt else syncPath name : W unit)) as K1 by still. specialize (K1 w).
  destruct ((if Deleted meta then retS tt else syncPath name : W unit) w) as [[[]|e] w1] eqn:R1; [|by apply still_settled].
  cbn in K1. assert (entryOf w1 meta b) as He1 by by apply (entryOf_still w).
  assert (forall bytes, b = Some bytes -> safeEntry b (wd_tree w1 !! name)) as Hfl.
  { intros bytes ->. destruct He as [(Hd & _) (i & E & Hb)]. rewrite Hd in R1. rewrite (syncPath_Ok name w i w1 E R1). done. }
  etrans; [by apply still_settled|]. unfold bindS at 1. pose proof (still_SyncSurvivingParent name name w1) as K2.
  destruct (SyncSurvivingParent name w1) as [[[]|e] w2] eqn:R2; [|by apply still_settled].
  cbn in K2. apply SyncSurvivingParent_Ok in R2 as [T2 D2]. etrans; [by apply still_settled|].
  assert (settled name w2 (inStore (commitPut now meta local) w2).2) as Hc.
  { apply (commit_settled meta local b); [|apply He]. unfold backed. fold name. rewrite T2, D2.
    destruct b as [bytes|]; [split; by eapply Hfl|]. destruct He1 as [_ [E|E]]; fold name in E; rewrite E; done. }
  unfold bindS. by destruct (inStore (commitPut now meta local) w2) as [[v|e] w3].
Qed.

Lemma Snapshot_Ok name w info hash w' : (forall t, wd_tree w !! name <> Some (NLink t)) -> Snapshot sha256Hex name w = (Ok (info, hash), w') ->
  exists i, wd_tree w !! name = Some (NFile i) /\ info = infoOf i /\ hash = sha256Hex (in_bytes i).
Proof.
  intros Hl R. unfold Snapshot in R. apply bindS_Ok in R as (n & w1 & R1 & R). unfold stat in R1. apply bindS_Ok in R1 as ([] & w2 & R2 & R1).
  pose proof (sysW_frame w) as (F & _). rewrite R2 in F. cbn in F. injection R1 as <- <-. rewrite F in R.
  assert (resolve (wd_tree w) name = name) as Er. { unfold resolve. destruct (wd_tree w !! name) as [[| |t|]|] eqn:E; try done. by destruct (Hl t). }
  rewrite Er in R. destruct (wd_tree w !! name) as [[i| | |]|]; try done. exists i. apply bindS_Ok in R as ([] & w3 & _ & R). by injection R as <- <-.
Qed.

Lemma still_nolink name w w' : still name w w' -> (forall t, wd_tree w !! name <> Some (NLink t)) -> forall t, wd_tree w' !! name <> Some (NLink t).
Proof.
  intros [_ Hs _] Hl t E. unfold sameAt in Hs. destruct (wd_tree w !! name) as [[i| |t'|]|]; [destruct Hs as (i' & E' & _)|destruct Hs as [E'|E']|..]; rewrite ?E' in E; congruence.
Qed.

Lemma settled_bind {A B} name (c : W A) (k : A -> W B) w : keeps (still name) c ->
  (forall a w1, still name w w1 -> c w = (Ok a, w1) -> settled name w1 (k a w1).2) -> settled name w (bindS c k w).2.
Proof.
  intros Hc Hk. specialize (Hc w). unfold bindS. destruct (c w) as [[a|e] w1]; cbn in *; [|by apply still_settled].
  etrans; [by apply still_settled|by apply Hk].
Qed.

(** A replica intent is kept under the name of its state. *)
Definition intents_named (d : DB) : Prop := forall n e m, replica_intents d !! n = Some e -> json_Unmarshal e = Some m -> Name m = n.

Lemma ReplicaIntent_Ok name s m s' : ReplicaIntent name s = (Ok m, s') ->
  m = (match replica_intents (db s) !! name with Some e => json_Unmarshal e | None => None end) /\ untouched s s'.
Proof.
  intros R. unfold ReplicaIntent in R. apply bindS_Ok in R as (row & s1 & R1 & R). apply query_Ok in R1 as [-> U].
  destruct (replica_intents (db s) !! name) as [e|]; [|by injection R as <- <-]. destruct (json_Unmarshal e); [by injection R as <- <-|done].
Qed.

Lemma inStoreW_Ok {A} (c : St A) w a w' : inStore c w = (Ok a, w') -> exists s', c (wd_store w) = (Ok a, s') /\ w' = set_store s' w.
Proof. unfold inStore, zoomS. destruct (c (wd_store w)) as [[x|e] s']; intros [= <- <-]. eauto. Qed.

Lemma still_intentMatches meta st : keeps (still (Name meta)) (intentMatches sha256Hex stored granularity (Name meta) meta st).
Proof. unfold intentMatches. still. Qed.

Lemma lstat_Ok name w n w' : lstat name w = (Ok n, w') -> n = wd_tree w !! name /\ wd_tree w' = wd_tree w.
Proof.
  intros R. unfold lstat in R. apply bindS_Ok in R as ([] & w1 & R1 & R). pose proof (sysW_frame w) as (F & _). rewrite R1 in F. cbn in F.
  injection R as <- <-. by rewrite F.
Qed.

Lemma tryS_Ok {A} (c : W A) w r w' : tryS c w = (Ok r, w') -> c w = (r, w').
Proof. unfold tryS. destruct (c w) as [x w1]. by intros [= -> ->]. Qed.

Lemma intentMatches_true meta n w w' : (forall t, wd_tree w !! Name meta <> Some (NLink t)) -> n = wd_tree w !! Name meta ->
  intentMatches sha256Hex stored granularity (Name meta) meta (Ok n) w = (Ok true, w') -> exists b, entryOf w' meta b.
Proof.
  intros Hl Hn R. pose proof (still_intentMatches meta (Ok n) w) as K. rewrite R in K. cbn in K. unfold intentMatches in R.
  destruct (Deleted meta) eqn:Ed.
  - exists None. apply (entryOf_still w); [done|]. split; [done|]. rewrite <- Hn. injection R as R _. destruct n as [[]|]; auto; done.
  - destruct n as [n|]; [|done]. apply bindS_Ok in R as ([info hash] & w1 & R1 & R). apply Snapshot_Ok in R1 as (i & Ei & -> & ->); [|done].
    apply bindS_Ok in R as ([] & w2 & R2 & R). injection R as R _. cbn in R. apply andb_true_iff in R as [R3 R4].
    apply String.eqb_eq in R3. apply Z.eqb_eq in R4. exists (Some (in_bytes i)). apply (entryOf_still w); [done|]. split; [done|]. eauto.
Qed.

Lemma recover_settled name w : intents_named (db (wd_store w)) -> (forall t, wd_tree w !! name <> Some (NLink t)) ->
  settled name w (recoverReplicaLocked sha256Hex stored granularity now name w).2.
Proof.
  intros Hn Hl. unfold recoverReplicaLocked. apply settled_bind; [still|]. intros intent w1 K1 R1.
  apply inStoreW_Ok in R1 as (s' & R1 & ->). apply ReplicaIntent_Ok in R1 as [Ei _]. destruct intent as [meta|]; [|reflexivity].
  assert (Name meta = name) as <-.
  { destruct (replica_intents (db (wd_store w)) !! name) as [e|] eqn:E; [|done]. by apply (Hn name e meta). }
  set (w1 := set_store s' w) in *. apply settled_bind; [still|]. intros st w2 K2 R2. apply tryS_Ok in R2.
  apply settled_bind; [apply still_intentMatches|]. intros [] w3 K3 R3.
  - destruct st as [n|e]; [|done]. apply lstat_Ok in R2 as [-> T2].
    assert (forall t, wd_tree w2 !! Name meta <> Some (NLink t)) as Hl2 by by rewrite T2.
    destruct (intentMatches_true meta (wd_tree w1 !! Name meta) w2 w3 Hl2) as [b Hb]; [by rewrite T2|done|].
    by apply (flush_commit meta false b).
  - destruct st as [n|e]; [|reflexivity]. unfold inStore, zoomS, ClearReplicaIntent. destruct (exec _ (wd_store w3)) as [r s3] eqn:E.
    assert (files (db s3) = files (db (wd_store w3))) as Hf.
    { destruct r; [apply exec_Ok in E as [-> _]; done|apply exec_Err in E as [_ E]; by rewrite (untouched_db _ _ E)]. }
    split; unfold rowsOf; cbn; rewrite Hf; [done|]. left. done.
Qed.

Lemma still_bind_run {A B} name (c : W A) (k : A -> W B) w : keeps (still name) c ->
  (forall a w1, still name w w1 -> c w = (Ok a, w1) -> still name w1 (k a w1).2) -> still name w (bindS c k w).2.
Proof.
  intros Hc Hk. specialize (Hc w). unfold bindS. destruct (c w) as [[a|e] w1]; cbn in *; [|done]. etrans; [done|by apply Hk].
Qed.

(** Hashes the caller brings are those of the file as it stands. *)
Definition hashes_ok (opts : indexOptions) (name : string) (w : World) : Prop :=
  forall info hash i, io_published opts !! name = Some (info, hash) -> wd_tree w !! name = Some (NFile i) -> infoOf i = info -> sha256Hex (in_bytes i) = hash.

Abbreviation inspect := (inspectFile sha256Hex stored granularity ignorePatterns repairPeers now).

Lemma still_inspect target name opts w : (forall t, wd_tree w !! name <> Some (NLink t)) -> still name w (inspect target name opts w).2.
Proof.
  intros Hl. unfold inspectFile. destruct (_ || _); [reflexivity|]. apply still_bind_run; [still|]. intros w0 w1 _ [= <- <-].
  destruct (BusyLocked name w); [reflexivity|]. apply still_bind_run; [still|]. intros existing w2 K2 _.
  apply still_bind_run; [still|]. intros n w3 K3 R3. apply lstat_Ok in R3 as [-> T3]. pose proof (still_nolink _ _ _ K2 Hl) as Hl2.
  pose proof (fun n k => still_clearIntegrity name n k) as C. pose proof (fun n pre => still_snapshot sha256Hex name n pre) as C2.
  pose proof (fun ex e => still_readFailed (A := option FileEvent) repairPeers now name ex e) as C3.
  pose proof (fun n ex info hash => still_inspectRegular stored granularity repairPeers now name n ex info hash) as C4.
  destruct (wd_tree w2 !! name) as [[i| |t|]|] eqn:E; [| |by destruct (Hl2 t)| |]; revert w3 K3 T3; intros w3 _ _;
    match goal with |- still _ _ (?c _).2 => assert (keeps (still name) c) as Hc; [unfold CleanEmptyParentsLocked; still|apply Hc] end.
Qed.

Lemma snapshot_Ok name pre w info hash w' : (forall t, wd_tree w !! name <> Some (NLink t)) ->
  (forall info hash i, pre = Some (info, hash) -> wd_tree w !! name = Some (NFile i) -> infoOf i = info -> sha256Hex (in_bytes i) = hash) ->
  snapshot sha256Hex name pre w = (Ok (info, hash), w') ->
  exists i, wd_tree w !! name = Some (NFile i) /\ info = infoOf i /\ hash = sha256Hex (in_bytes i).
Proof.
  intros Hl Hp R. unfold snapshot in R. destruct pre as [[info0 hash0]|]; [|by apply Snapshot_Ok in R].
  apply bindS_Ok in R as (n & w1 & R1 & R). apply tryS_Ok in R1. unfold stat, bindS in R1. pose proof (sysW_frame w) as (F & _).
  destruct (sysW w) as [[[]|e] w2]; cbn in F, R1; injection R1 as <- <-.
  2:{ apply Snapshot_Ok in R; [by rewrite F in R|by rewrite F]. }
  rewrite F in R. assert (resolve (wd_tree w) name = name) as Er. { unfold resolve. destruct (wd_tree w !! name) as [[| |t|]|] eqn:E; try done. by destruct (Hl t). }
  rewrite Er in R. destruct (wd_tree w !! name) as [[i| | |]|] eqn:E; [|by apply Snapshot_Ok in R; rewrite ?F, ?E in *..].
  destruct (same info0 (infoOf i)) eqn:Es.
  - apply bool_decide_eq_true in Es as ->. injection R as <- <- _. exists i. split; [done|]. split; [done|]. symmetry. by apply (Hp (infoOf i) hash0 i).
  - apply Snapshot_Ok in R; by rewrite F, E in *.
Qed.

Lemma fail_quarantineFor {A} meta reason w (a : A) w' : quarantineFor repairPeers now meta reason w <> (Ok a, w').
Proof.
  unfold quarantineFor. intros R. apply bindS_Ok in R as (n & w1 & _ & R). destruct n as [[i| | |]|]; try done.
  apply bindS_Ok in R as ([?|?] & w2 & _ & R); apply bindS_Ok in R as (q & w3 & _ & R); [|done].
  apply bindS_Ok in R as (? & w4 & _ & R). destruct q; [|done]. destruct (Hash meta =s ""); [done|]. by apply bindS_Ok in R as (? & w5 & _ & R).
Qed.

Lemma fail_readFailed {A} existing e w (a : A) w' : readFailed repairPeers now existing e w <> (Ok a, w').
Proof.
  unfold readFailed. intros R. destruct e; try done. apply bindS_Ok in R as (? & w1 & _ & R). destruct existing as [m|]; [|done].
  destruct (Deleted m); [done|]. by apply fail_quarantineFor in R.
Qed.

Lemma inspectRegular_Some name existing info hash w ev w' :
  inspectRegular stored granularity repairPeers now name existing info hash w = (Ok (Some ev), w') -> ev = mkEvent name (fi_mtime info) (fi_size info) hash false.
Proof.
  unfold inspectRegular. intros R. apply bindS_Ok in R as (trusted & w1 & _ & R). apply bindS_Ok in R as (? & w2 & _ & R).
  apply bindS_Ok in R as (s1 & w3 & _ & R). destruct (_ && _); [by apply fail_quarantineFor in R|].
  destruct (_ && negb trusted); [by apply fail_quarantineFor in R|]. apply bindS_Ok in R as (s2 & w4 & _ & R). apply bindS_Ok in R as (? & w5 & _ & R).
  destruct (_ && _); [done|]. destruct (_ && _); [|by injection R as <- _].
  apply bindS_Ok in R as (? & w6 & _ & R). apply bindS_Ok in R as (? & w7 & _ & R). by apply bindS_Ok in R as (? & w8 & _ & R).
Qed.

(** What is reported of a name is what is there. *)
Lemma inspect_event target name opts w ev w' : (forall t, wd_tree w !! name <> Some (NLink t)) -> hashes_ok opts name w ->
  inspect target name opts w = (Ok (Some ev), w') -> ev_Name ev = name /\ exists b, entryOf w' (metaOf ev) b.
Proof.
  intros Hl Hp R. pose proof (still_inspect target name opts w Hl) as K. rewrite R in K. cbn in K.
  cut (ev_Name ev = name /\ exists b, entryOf w (metaOf ev) b).
  { intros [Hn [b Hb]]. split; [done|]. exists b. apply (entryOf_still w); [by rewrite <- Hn in K|done]. }
  clear K. unfold inspectFile in R. destruct (_ || _); [done|]. apply bindS_Ok in R as (w0 & w1 & R1 & R). injection R1 as <- <-.
  destruct (BusyLocked name w); [done|]. apply bindS_Ok in R as (existing & w2 & R2 & R). apply inStoreW_Ok in R2 as (s2 & _ & ->).
  apply bindS_Ok in R as (n & w3 & R3 & R). apply lstat_Ok in R3 as [-> T3]. cbn in T3, R.
  destruct (wd_tree w !! name) as [[i| |t|]|] eqn:E; [| |by destruct (Hl t)| |].
  - apply bindS_Ok in R as (snap & w4 & R4 & R). apply tryS_Ok in R4. destruct snap as [[info hash]|e]; [|by apply fail_readFailed in R].
    apply snapshot_Ok in R4 as (i' & Ei & -> & ->); [|by rewrite T3, E|intros ??? ? Hi; rewrite T3 in Hi; by eapply Hp].
    rewrite T3, E in Ei. injection Ei as <-. apply inspectRegular_Some in R as ->. split; [done|]. exists (Some (in_bytes i)). split; [done|]. cbn. eauto.
  - apply bindS_Ok in R as (trusted & w4 & _ & R). destruct (_ && _); [|by destruct (live existing)].
    injection R as <- _. split; [done|]. exists None. split; [done|]. cbn. auto.
  - apply bindS_Ok in R as (trusted & w4 & _ & R). cbn in R. by destruct (live existing).
  - destruct (live existing); cbn in R; [|by apply bindS_Ok in R as (? & w4 & _ & R)].
    destruct (io_deferDeletion opts); [by apply bindS_Ok in R as (? & w4 & _ & R)|].
    apply bindS_Ok in R as (? & w4 & _ & R). apply bindS_Ok in R as (? & w5 & _ & R). injection R as <- _.
    split; [done|]. exists None. split; [done|]. cbn. auto.
Qed.

(** Recovery leaves the entry itself, too. *)
Definition entryKept (name : string) (w w' : World) : Prop := sameAt name (wd_tree w) (wd_tree w').
#[export] Instance entryKept_preorder name : PreOrder (entryKept name).
Proof. split; [intros w; unfold entryKept; reflexivity|]. intros w1 w2 w3 H1 H2. unfold entryKept in *. by etrans. Qed.

Lemma kept_still {A} name (c : W A) : keeps (still name) c -> keeps (entryKept name) c.
Proof. intros Hc w. apply (Hc w). Qed.
Lemma kept_inStore {A} name (c : St A) : keeps (entryKept name) (inStore c).
Proof. intros w. unfold inStore, zoomS, entryKept. destruct (c (wd_store w)). cbn. reflexivity. Qed.

Lemma kept_recover name : keeps (entryKept name) (recoverReplicaLocked sha256Hex stored granularity now name).
Proof.
  unfold recoverReplicaLocked, intentMatches. pose proof (@kept_inStore) as K1.
  assert (forall n, keeps (entryKept name) (tryS (lstat n))) by (intros; apply kept_still; still).
  assert (forall n, keeps (entryKept name) (Snapshot sha256Hex n)) by (intros; apply kept_still; still).
  assert (forall n t, keeps (entryKept name) (chtimes stored n t)) by (intros; apply kept_still; still).
  assert (forall n, keeps (entryKept name) (syncPath n)) by (intros; apply kept_still; still).
  assert (forall n, keeps (entryKept name) (SyncSurvivingParent n)) by (intros; apply kept_still; still). still.
Qed.

Lemma kept_nolink name w w' : entryKept name w w' -> (forall t, wd_tree w !! name <> Some (NLink t)) -> forall t, wd_tree w' !! name <> Some (NLink t).
Proof.
  intros Hs Hl t E. unfold entryKept, sameAt in Hs. destruct (wd_tree w !! name) as [[i| |t'|]|]; [destruct Hs as (i' & E' & _)|destruct Hs as [E'|E']|..]; rewrite ?E' in E; congruence.
Qed.

(** Without an intent recovery does nothing. *)
Lemma recover_none name w w' : replica_intents (db (wd_store w)) !! name = None ->
  recoverReplicaLocked sha256Hex stored granularity now name w = (Ok tt, w') -> wd_tree w' = wd_tree w.
Proof.
  intros Hi R. unfold recoverReplicaLocked in R. apply bindS_Ok in R as (m & w1 & R1 & R). apply inStoreW_Ok in R1 as (s1 & R1 & ->).
  apply ReplicaIntent_Ok in R1 as [-> _]. rewrite Hi in R. by injection R as <-.
Qed.

Lemma settled_bind2 {A B} name (c : W A) (k : A -> W B) w : settled name w (c w).2 ->
  (forall a w1, c w = (Ok a, w1) -> settled name w1 (k a w1).2) -> settled name w (bindS c k w).2.
Proof. intros Hc Hk. unfold bindS. destruct (c w) as [[a|e] w1]; cbn in *; [|done]. etrans; [done|by apply Hk]. Qed.

Definition treeKept (w w' : World) : Prop := wd_tree w' = wd_tree w.
#[export] Instance treeKept_preorder : PreOrder treeKept.
Proof. split; [done|]. intros w1 w2 w3 H1 H2. unfold treeKept in *. congruence. Qed.

Lemma tree_unchangedByStat name : keeps treeKept (unchangedByStat granularity name).
Proof.
  assert (keeps treeKept sysW) by (intros w; apply sysW_frame).
  assert (forall A (c : W A), keeps treeKept c -> keeps treeKept (tryS c)) by (intros A c Hc w; specialize (Hc w); unfold tryS; by destruct (c w)).
  assert (forall A (c : St A), keeps treeKept (inStore c)) by (intros A c w; unfold inStore, zoomS; by destruct (c (wd_store w))).
  unfold unchangedByStat, NeedsRepair, getStore, lstat. still.
Qed.

Lemma refreshWith_settled target name opts w :
  intents_named (db (wd_store w)) -> (forall t, wd_tree w !! name <> Some (NLink t)) -> io_durable opts = false ->
  io_published opts !! name = None \/ (replica_intents (db (wd_store w)) !! name = None /\ hashes_ok opts name w) ->
  settled name w (refreshWith sha256Hex stored granularity ignorePatterns repairPeers now target name opts w).2.
Proof.
  intros Hn Hl Hd Hp. unfold refreshWith.
  apply settled_bind; [still|]. intros [] w1 K1 R1. apply inStoreW_Ok in R1 as (s1 & R1 & ->). apply settled_bind; [apply still_sysW|].
  intros [] w2 K2 R2. pose proof (sysW_frame (set_store s1 w)) as (T2 & _ & X2 & _). unfold CheckSpelling in R2. rewrite R2 in T2, X2. cbn in T2, X2.
  apply settled_bind; [apply keeps_get, _|]. intros w2' w2'' _ [= <- <-]. destruct (BusyLocked name w2); [reflexivity|].
  pose proof (st_rows _ _ _ K1) as [_ I1]. pose proof (st_rows _ _ _ K2) as [_ I2]. rewrite I1 in I2.
  assert (intents_named (db (wd_store w2))) as Hn2 by (unfold intents_named; by rewrite I2).
  assert (forall t, wd_tree w2 !! name <> Some (NLink t)) as Hl2 by by rewrite T2.
  pose proof (kept_recover name w2) as E3. apply settled_bind2; [by apply recover_settled|]. intros [] w3 R3. rewrite R3 in E3. cbn in E3.
  pose proof (kept_nolink _ _ _ E3 Hl2) as Hl3. assert (hashes_ok opts name w3) as Hp3.
  { destruct Hp as [Hp|[Hp1 Hp2]]; [intros ??? E; by rewrite Hp in E|]. intros ???. rewrite (recover_none name w2 w3), T2; [apply Hp2|by rewrite I2|done]. }
  assert (keeps treeKept (if io_trustStat opts then unchangedByStat granularity name else retS false)) as K4
    by (destruct (io_trustStat opts); [apply tree_unchangedByStat|apply keeps_ret, _]). specialize (K4 w3).
  apply settled_bind; [pose proof (fun n => still_unchangedByStat granularity name n); destruct (io_trustStat opts); still|].
  intros unchanged w4 _ R4. rewrite R4 in K4. unfold treeKept in K4. cbn in K4. destruct unchanged; [reflexivity|].
  assert (forall t, wd_tree w4 !! name <> Some (NLink t)) as Hl4 by by rewrite K4.
  assert (hashes_ok opts name w4) as Hp4 by (intros ???; rewrite K4; apply Hp3).
  apply settled_bind2; [by apply still_settled, still_inspect|]. intros ev w5 R5. destruct ev as [ev|]; [|reflexivity].
  apply inspect_event in R5 as (Hname & b & He); [|done|done]. rewrite Hd.
  replace (negb (ev_Deleted ev) && negb false) with (negb (Deleted (metaOf ev))) by (cbn; by rewrite andb_true_r).
  pose proof (flush_commit (metaOf ev) true b w5 He) as Hf. change (Name (metaOf ev)) with (ev_Name ev) in Hf. rewrite Hname in Hf.
  cbn [negb]. by destruct (Deleted (metaOf ev)).
Qed.
End Follows.

(** ** Damage *)

Section Damage.
Context `{NameFolding} (sha256Hex : string -> string) (stored : Z -> Z) (granularity : Z).
Context (ignorePatterns : list string) (repairPeers : list string) (now : Z).

(** What fences reads. *)
Definition fenced (s s' : Store) : Prop := quarantined s' = quarantined s /\ damagedObjects s' = damagedObjects s.
#[export] Instance fenced_preorder : PreOrder fenced.
Proof. split; [done|]. intros s1 s2 s3 [H1 H2] [H3 H4]. split; congruence. Qed.

Lemma memory_fenced s s' : memory_kept s s' -> fenced s s'.
Proof. intros M. unfold memory_kept in M. by rewrite M. Qed.

Lemma transact_memory {A} (body : St (bool * A)) : keeps memory_kept body -> keeps memory_kept (transact body).
Proof.
  intros Hb s. destruct (transact body s) as [[a|e] s'] eqn:E; cbn; [by apply transact_Ok in E as [? _]|].
  apply transact_Err in E; [|done]. by apply untouched_memory.
Qed.

Lemma fenced_EnqueueChange peer meta reason : keeps fenced (EnqueueChange now peer meta reason).
Proof.
  unfold EnqueueChange, enqueue. apply keeps_bind; [apply _|intros s; apply memory_fenced, transact_memory, keeps_enqueue_tx|].
  intros [bs full]. destruct (bs_written bs =? 0); [apply keeps_ret, _|]. apply keeps_bind; [apply _|by intros s|]. intros _.
  apply keeps_bind; [apply _| |intros _; apply keeps_ret, _]. destruct (0 <? bs_fresh bs); by intros s.
Qed.

Definition fencedW (w w' : World) : Prop := fenced (wd_store w) (wd_store w').
#[export] Instance fencedW_preorder : PreOrder fencedW.
Proof. split; [intros w; unfold fencedW; reflexivity|]. intros w1 w2 w3 H1 H2. unfold fencedW in *. by etrans. Qed.

Lemma fencedW_inStore {A} (c : St A) : keeps fenced c -> keeps fencedW (inStore c).
Proof. intros Hc w. unfold inStore, zoomS, fencedW. specialize (Hc (wd_store w)). by destruct (c (wd_store w)). Qed.

Lemma fencedW_enqueues meta reason : keeps fencedW (tryS (forS (fun peer =>
  let! r := inStore (EnqueueChange now peer meta reason) in match r.2 with None => retS tt | Some e => failS (WStore e) end) repairPeers) : W (result werr unit)).
Proof.
  assert (keeps fencedW (forS (fun peer => let! r := inStore (EnqueueChange now peer meta reason) in
    match r.2 with None => retS tt | Some e => failS (WStore e) end) repairPeers : W unit)) as H1.
  { apply keeps_for; [apply _|]. intros peer. apply keeps_bind; [apply _|apply fencedW_inStore, fenced_EnqueueChange|].
    intros [? [e|]]; [apply keeps_fail, _|apply keeps_ret, _]. }
  intros w. specialize (H1 w). unfold tryS. by destruct (forS _ _ w).
Qed.

(** A quarantine reported as such has fenced the name and its file. *)
Lemma quarantineFor_fences {A} meta reason w w' name : quarantineFor repairPeers now meta reason w = (Err (WIntegrity name) : result werr A, w') ->
  name = Name meta /\ IsQuarantined (Name meta) (wd_store w') = true.
Proof.
  intros R. unfold quarantineFor in R. apply bindS_Err in R as [R|(n & w1 & _ & R)].
  { unfold stat in R. apply bindS_Err in R as [R|(? & ? & _ & R)]; [|done]. unfold sysW in R. destruct (wd_faults w) as [|[] ?]; done. }
  destruct n as [[i| | |]|]; try done. apply bindS_Err in R as [R|(k & w2 & R2 & R)]; [unfold tryS in R; by destruct (sysW w1)|].
  destruct k as [u|e].
  2:{ apply tryS_Ok in R2. apply bindS_Err in R as [R|(? & ? & _ & R)]; [done|]. injection R as -> _. unfold sysW in R2. destruct (wd_faults w1) as [|[] ?]; done. }
  apply bindS_Err in R as [R|(q & w3 & R3 & R)]; [unfold tryS in R; by destruct (inStore _ w2)|]. apply tryS_Ok in R3.
  apply bindS_Err in R as [R|(? & w4 & R4 & R)]; [done|]. injection R4 as _ <-.
  assert (Name meta ∈ quarantined (wd_store w3)) as Hq.
  { revert R3. unfold inStore, zoomS. pose proof (SetQuarantined_run (Name meta) (GenerationKey (infoOf i)) (wd_store w2)) as S.
    destruct (SetQuarantined (Name meta) (GenerationKey (infoOf i)) (wd_store w2)) as [r s']. intros [= <- <-]. cbn. destruct S as [-> _]. set_solver. }
  destruct q as [u'|e].
  2:{ injection R as -> _. revert R3. unfold inStore, zoomS. destruct (SetQuarantined _ _ _) as [[?|?] ?]; done. }
  destruct (Hash meta =s ""); [injection R as <- <-; split; [done|]; unfold IsQuarantined; by apply bool_decide_eq_true|].
  apply bindS_Err in R as [R|(r & w5 & R5 & R)]; [unfold tryS in R; by destruct (forS _ _ _)|]. injection R as <- <-. split; [done|].
  pose proof (fencedW_enqueues meta reason (set_notes (mkNotes (nt_deferred (wd_notes w3)) (nt_rescans (wd_notes w3)) (nt_readErrors (wd_notes w3)) (nt_restamped (wd_notes w3)) (infoOf i :: nt_revoked (wd_notes w3))) w3)) as F.
  rewrite R5 in F. destruct F as [F _]. unfold IsQuarantined. apply bool_decide_eq_true. cbn in F. by rewrite F.
Qed.

(** A world without failures. *)
Definition calmW (w : World) : Prop := wd_faults w = [] /\ nofault (wd_store w).

Lemma sysW_calm w : calmW w -> sysW w = (Ok tt, w).
Proof. intros [E _]. unfold sysW. by rewrite E. Qed.

Lemma set_store_id w : set_store (wd_store w) w = w.
Proof. by destruct w as [[] ? ? ? ? ?]. Qed.

Lemma inStore_same {A} (c : St A) w a : c (wd_store w) = (Ok a, wd_store w) -> inStore c w = (Ok a, w).
Proof. intros E. unfold inStore, zoomS. by rewrite E, set_store_id. Qed.

Lemma lstat_calm name w : calmW w -> lstat name w = (Ok (wd_tree w !! name), w).
Proof. intros Hc. unfold lstat, bindS. by rewrite sysW_calm. Qed.
Lemma stat_calm name w : calmW w -> stat name w = (Ok (wd_tree w !! resolve (wd_tree w) name), w).
Proof. intros Hc. unfold stat, bindS. by rewrite sysW_calm. Qed.

Lemma GetFile_calm name w : calmW w -> inStore (GetFile name) w = (Ok (files (db (wd_store w)) !! name), w).
Proof. intros [_ Hf]. apply inStore_same. unfold GetFile. by rewrite query_nofault. Qed.

Lemma HasLocalIntent_calm name w : calmW w -> exists b, inStore (HasLocalIntent name) w = (Ok b, w).
Proof.
  intros [_ Hf]. eexists. apply inStore_same. unfold HasLocalIntent, LocalIntents, bindS. by rewrite query_nofault.
Qed.

Lemma SetQuarantined_calm name key s : nofault s -> exists s', SetQuarantined name key s = (Ok tt, s').
Proof.
  intros Hf. unfold SetQuarantined. unfold bindS at 1. cbn [modifyS]. eexists. apply transact_nofault; [done| |].
  2:{ unfold bindS. by rewrite !exec_nofault. }
  done.
Qed.

Lemma quarantineFor_calm {A} meta reason i w : calmW w -> wd_tree w !! Name meta = Some (NFile i) ->
  exists w', quarantineFor repairPeers now meta reason w = (Err (WIntegrity (Name meta)) : result werr A, w').
Proof.
  intros Hc E. unfold quarantineFor. unfold bindS at 1. rewrite stat_calm by done. unfold resolve. rewrite E, E.
  unfold bindS at 1. unfold tryS at 1. rewrite sysW_calm by done. unfold bindS at 1. unfold tryS at 1. unfold inStore at 1, zoomS at 1.
  destruct (SetQuarantined_calm (Name meta) (GenerationKey (infoOf i)) (wd_store w)) as (s' & ->); [apply Hc|].
  unfold bindS at 1. cbn [RevokeGenerationLocked modifyS]. destruct (Hash meta =s ""); [eauto|].
  unfold bindS at 1. unfold tryS at 1. destruct (forS _ _ _). eauto.
Qed.

(** Bytes that changed under an unchanged size and time, with no write announced. *)
Record damagedAt (name : string) (w : World) (i : inode) (m : FileMeta) : Prop := {
  da_file : wd_tree w !! name = Some (NFile i);
  da_row : files (db (wd_store w)) !! name = Some m;
  da_name : Name m = name;
  da_live : Deleted m = false;
  da_hash : Hash m <> sha256Hex (in_bytes i);
  da_stamp : SameModTime granularity (in_mtime i) (ModTime m) = true;
  da_size : Size m = slen (in_bytes i);
  da_local : forall p, p ∈ local_intents (db (wd_store w)) -> name <> p /\ HasPrefix name (p +:+ "/") = false;
  da_replica : replica_intents (db (wd_store w)) !! name = None
}.

(** The outcome: an error that leaves the rows alone; reported as damage only with the name
    fenced, and reported as damage when nothing fails. *)
Definition fencedOut {A} (name : string) (w : World) (out : result werr A * World) : Prop :=
  still name w out.2 /\
  match out.1 with
  | Ok _ => False
  | Err e => (forall n, e = WIntegrity n -> n = name /\ IsQuarantined name (wd_store out.2) = true) /\ (calmW w -> e = WIntegrity name)
  end.

Lemma fencedOut_quarantine {A} name reason i m w : Name m = name -> wd_tree w !! name = Some (NFile i) ->
  fencedOut name w (quarantineFor repairPeers now m reason w : result werr A * World).
Proof.
  intros <- E. split; [apply still_quarantineFor|].
  destruct (quarantineFor repairPeers now m reason w) as [[a|e] w'] eqn:R; [by apply fail_quarantineFor in R|]. cbn. split.
  - intros n ->. by apply quarantineFor_fences in R.
  - intros Hc. destruct (@quarantineFor_calm A m reason i w Hc E) as [w2 R2]. rewrite R2 in R. by injection R as <- _.
Qed.

(** After a step that changed nothing that matters. *)
Lemma fencedOut_after {A} name w w1 (out : result werr A * World) : still name w w1 -> (calmW w -> calmW w1) -> fencedOut name w1 out -> fencedOut name w out.
Proof. intros Hs Hc [H1 H2]. split; [by etrans|]. destruct out as [[a|e] w2]; [done|]. destruct H2 as [H2 H3]. split; [done|auto]. Qed.

(** A step before the damage is found: its own failures are no reports of damage. *)
Lemma fencedOut_run {A B} name (c : W A) (k : A -> W B) w : still name w (c w).2 ->
  (forall e w', c w = (Err e, w') -> (forall n, e <> WIntegrity n) /\ ~ calmW w) ->
  (forall a w1, c w = (Ok a, w1) -> (calmW w -> calmW w1) /\ fencedOut name w1 (k a w1)) ->
  fencedOut name w (bindS c k w).
Proof.
  intros Hs He Hk. unfold bindS. destruct (c w) as [[a|e] w1] eqn:R; cbn in Hs.
  - destruct (Hk a w1 eq_refl) as [Hc Hf]. by apply (fencedOut_after name w w1).
  - destruct (He e w1 eq_refl) as [H1 H2]. split; [done|]. cbn. split; [intros n ->; by destruct (H1 n)|done].
Qed.

Lemma fencedOut_bind {A B} name (c : W A) (k : A -> W B) w : keeps (still name) c ->
  (forall e w', c w = (Err e, w') -> (forall n, e <> WIntegrity n) /\ ~ calmW w) ->
  (forall a w1, c w = (Ok a, w1) -> (calmW w -> calmW w1) /\ fencedOut name w1 (k a w1)) ->
  fencedOut name w (bindS c k w).
Proof. intros Hs. apply fencedOut_run, Hs. Qed.

Lemma sysW_errors w e w' : sysW w = (Err e, w') -> (forall n, e <> WIntegrity n) /\ ~ calmW w.
Proof. unfold sysW, calmW. destruct (wd_faults w) as [|[] l]; intros [= <- <-]; (split; [done|intros [? _]; done]). Qed.

Lemma sysW_Ok w a w' : sysW w = (Ok a, w') -> wd_tree w' = wd_tree w /\ wd_store w' = wd_store w /\ (calmW w -> calmW w').
Proof. unfold sysW, calmW, wd_store. destruct (wd_faults w) as [|[] l] eqn:Ef; intros E; simplify_eq; cbn; (split; [done|]; split; [done|]); intros [? ?]; done. Qed.

Lemma query_errors {A} (c : St A) w e w' : (nofault (wd_store w) -> exists a s', c (wd_store w) = (Ok a, s')) -> inStore c w = (Err e, w') ->
  (forall n, e <> WIntegrity n) /\ ~ calmW w.
Proof.
  unfold inStore, zoomS. intros Hc. destruct (c (wd_store w)) as [[a|e0] s'] eqn:E; intros [= <- <-]. split; [done|]. intros [_ Hf].
  destruct (Hc Hf) as (a & s'' & Ha). congruence.
Qed.

Lemma damagedAt_same name w w' i m : wd_tree w' = wd_tree w -> db (wd_store w') = db (wd_store w) -> damagedAt name w i m -> damagedAt name w' i m.
Proof. intros E1 E2 []. split; rewrite ?E1, ?E2; done. Qed.

Lemma untouched_calm w s' : untouched (wd_store w) s' -> (nofault (wd_store w) -> nofault s') -> calmW w -> calmW (set_store s' w).
Proof. intros _ Hf [H1 H2]. split; [done|auto]. Qed.

Lemma inspectRegular_damage name i m w : damagedAt name w i m ->
  fencedOut name w (inspectRegular stored granularity repairPeers now name (Some m) (infoOf i) (sha256Hex (in_bytes i)) w).
Proof.
  intros Hd. unfold inspectRegular. apply fencedOut_bind; [still| |].
  { intros e w'. apply query_errors. intros Hf. unfold HasLocalIntent, LocalIntents, bindS. rewrite query_nofault by done. eauto. }
  intros trusted w1 R1. apply inStoreW_Ok in R1 as (s1 & R1 & ->).
  assert (untouched (wd_store w) s1 /\ (nofault (wd_store w) -> nofault s1)) as [U F1].
  { unfold HasLocalIntent, LocalIntents in R1. apply bindS_Ok in R1 as (l & s2 & R1 & R2). injection R2 as _ <-. split; [by apply query_Ok in R1 as [_ ?]|].
    intros Hf. rewrite query_nofault in R1 by done. by injection R1 as _ <-. }
  assert (trusted = false) as ->.
  { destruct trusted; [|done]. apply HasLocalIntent_Ok in R1 as [R1 _]. destruct (R1 eq_refl) as (p & Hp & Hx). destruct (da_local _ _ _ _ Hd p Hp). intuition congruence. }
  split; [by apply untouched_calm|]. assert (damagedAt name (set_store s1 w) i m) as Hd1 by (eapply damagedAt_same; [|by apply untouched_db|exact Hd]; done).
  apply fencedOut_bind; [still|apply sysW_errors|]. intros [] w2 R2. apply sysW_Ok in R2 as (T2 & S2 & C2). split; [done|].
  assert (damagedAt name w2 i m) as Hd2 by (eapply damagedAt_same; [done|by rewrite S2|done]).
  apply fencedOut_bind; [still|done|]. intros s w3 R3. injection R3 as <- <-. split; [done|].
  destruct (_ && _); [apply (fencedOut_quarantine name _ i); [apply Hd2|apply Hd2]|].
  destruct Hd2. cbn [live infoOf fi_mtime fi_size]. rewrite da_live0, da_stamp0, da_size0, Z.eqb_refl, (proj2 (String.eqb_neq _ _) da_hash0). cbn [negb andb default].
  by apply (fencedOut_quarantine name _ i).
Qed.

(** Looking at a file changes nothing. *)
Definition looked (w w' : World) : Prop := wd_tree w' = wd_tree w /\ wd_store w' = wd_store w /\ (calmW w -> calmW w').
#[export] Instance looked_preorder : PreOrder looked.
Proof. split; [done|]. intros w1 w2 w3 (? & ? & ?) (? & ? & ?). split; [congruence|]. split; [congruence|auto]. Qed.

Lemma looked_sysW : keeps looked sysW.
Proof. intros w. destruct (sysW w) as [[a|e] w'] eqn:R; cbn; [by apply sysW_Ok in R|]. pose proof (sysW_errors _ _ _ R) as [_ Hn].
  pose proof (sysW_frame w) as (F1 & _ & F3 & _). rewrite R in *. cbn in F1, F3. unfold looked, wd_store. cbn. rewrite F3. done. Qed.

Lemma looked_snapshot name pre : keeps looked (snapshot sha256Hex name pre).
Proof.
  pose proof looked_sysW as K. assert (forall n, keeps looked (stat n)) by (unfold stat; still).
  assert (forall n, keeps looked (tryS (stat n))) by (intros n w; specialize (H0 n w); unfold tryS; by destruct (stat n w)).
  assert (forall n, keeps looked (Snapshot sha256Hex n)) by (unfold Snapshot; still). unfold snapshot. still.
Qed.

Lemma Snapshot_errors name w e w' i : wd_tree w !! name = Some (NFile i) -> Snapshot sha256Hex name w = (Err e, w') -> (forall n, e <> WIntegrity n) /\ ~ calmW w.
Proof.
  intros E R. unfold Snapshot in R. apply bindS_Err in R as [R|(n & w1 & R1 & R)].
  - unfold stat in R. apply bindS_Err in R as [R|(? & ? & _ & R)]; [by apply sysW_errors in R|done].
  - unfold stat in R1. apply bindS_Ok in R1 as ([] & w2 & R2 & R1). apply sysW_Ok in R2 as (T & S & C). injection R1 as <- <-. rewrite T in R. unfold resolve in R. rewrite E, E in R.
    apply bindS_Err in R as [R|(? & ? & _ & R)]; [|done]. apply sysW_errors in R as [R1 R2]. auto.
Qed.

Lemma snapshot_errors name pre w e w' i : wd_tree w !! name = Some (NFile i) -> snapshot sha256Hex name pre w = (Err e, w') -> (forall n, e <> WIntegrity n) /\ ~ calmW w.
Proof.
  intros E R. unfold snapshot in R. destruct pre as [[info hash]|]; [|by eapply Snapshot_errors].
  apply bindS_Err in R as [R|(n & w1 & R1 & R)]; [unfold tryS in R; by destruct (stat name w)|].
  assert (looked w w1) as (T & _ & C).
  { apply tryS_Ok in R1. assert (keeps looked (stat name)) as K by (pose proof looked_sysW; unfold stat; still). specialize (K w). by rewrite R1 in K. }
  assert (forall e w', Snapshot sha256Hex name w1 = (Err e, w') -> (forall n, e <> WIntegrity n) /\ ~ calmW w) as Hs.
  { intros e1 w1' R'. eapply Snapshot_errors in R' as [? ?]; [auto|by rewrite T]. }
  destruct n as [[[j| | |]|]|?]; try by eapply Hs. destruct (same info (infoOf j)); [done|by eapply Hs].
Qed.

Lemma inspect_damage target name opts i m w : damagedAt name w i m -> isOutsideSyncDir name = false -> ShouldIgnore name ignorePatterns = false ->
  hashes_ok sha256Hex opts name w -> BusyLocked name w = false ->
  fencedOut name w (inspectFile sha256Hex stored granularity ignorePatterns repairPeers now target name opts w).
Proof.
  intros Hd Ho Hi Hp Hb. unfold inspectFile, shouldIgnore. rewrite Ho, Hi. cbn [orb]. apply fencedOut_bind; [still|done|]. intros w0 w1 R1. injection R1 as <- <-. split; [done|].
  rewrite Hb. apply fencedOut_bind; [still| |].
  { intros e w'. apply query_errors. intros Hf. unfold GetFile. rewrite query_nofault by done. eauto. }
  intros existing w2 R2. apply inStoreW_Ok in R2 as (s2 & R2 & ->).
  assert (nofault (wd_store w) -> nofault s2) as F2.
  { intros Hf. unfold GetFile in R2. rewrite query_nofault in R2 by done. by injection R2 as _ <-. }
  apply query_Ok in R2 as [-> U2]. split; [by apply untouched_calm|].
  assert (damagedAt name (set_store s2 w) i m) as Hd2 by (eapply damagedAt_same; [|by apply untouched_db|exact Hd]; done).
  rewrite (da_row _ _ _ _ Hd). apply fencedOut_bind; [still| |].
  { unfold lstat. intros e w' R. apply bindS_Err in R as [R|(? & ? & _ & R)]; [by apply sysW_errors in R|done]. }
  intros n w3 R3. unfold lstat in R3. apply bindS_Ok in R3 as ([] & w3' & R3 & R3'). injection R3' as <- <-. apply sysW_Ok in R3 as (T3 & S3 & C3). split; [done|].
  assert (damagedAt name w3' i m) as Hd3 by (eapply damagedAt_same; [done|by rewrite S3|done]). rewrite (da_file _ _ _ _ Hd3).
  assert (forall t, wd_tree w3' !! name <> Some (NLink t)) as Hl by (intros t; by rewrite (da_file _ _ _ _ Hd3)).
  unfold bindS at 1. unfold tryS at 1. pose proof (looked_snapshot name (io_published opts !! name) w3') as (T4 & S4 & C4).
  pose proof (still_snapshot sha256Hex name name (io_published opts !! name) w3') as K4.
  destruct (snapshot sha256Hex name (io_published opts !! name) w3') as [[[info hash]|e] w4] eqn:R4; cbn in T4, S4, C4, K4.
  - apply snapshot_Ok in R4 as (i' & Ei & -> & ->); [|done|intros ??? ? Hx; rewrite T3 in Hx; by eapply Hp].
    rewrite (da_file _ _ _ _ Hd3) in Ei. injection Ei as <-.
    assert (damagedAt name w4 i m) as Hd4 by (eapply damagedAt_same; [done|by rewrite S4|done]).
    apply (fencedOut_after name w3' w4); [done|done|by apply inspectRegular_damage].
  - eapply snapshot_errors in R4 as [N4 NC]; [|apply (da_file _ _ _ _ Hd3)]. unfold readFailed.
    destruct e; try (split; [done|]; split; [intros n E; by destruct (N4 n)|done]).
    unfold bindS at 1. cbn [modifyS]. rewrite (da_live _ _ _ _ Hd). set (w5 := set_notes _ w4).
    destruct (fencedOut_quarantine (A := option FileEvent) name "local read error" i m w5 (da_name _ _ _ _ Hd)) as [Hs Hf]; [cbn; rewrite T4; apply Hd3|].
    split; [etrans; [exact K4|]; etrans; [|exact Hs]; split; done|].
    destruct (quarantineFor _ _ _ _ _) as [[?|e] w6]; [done|]. destruct Hf as [Hf _]. split; [done|]. intros Hc. by destruct NC.
Qed.

Lemma looked_untouched {A} (c : St A) w a w' : (nofault (wd_store w) -> nofault (c (wd_store w)).2) -> keeps untouched c -> inStore c w = (Ok a, w') ->
  wd_tree w' = wd_tree w /\ db (wd_store w') = db (wd_store w) /\ (calmW w -> calmW w') /\ wd_busy w' = wd_busy w.
Proof.
  intros Hf Hu R. apply inStoreW_Ok in R as (s' & R & ->). specialize (Hu (wd_store w)). rewrite R in *. cbn in *. split; [done|]. split; [by apply untouched_db in Hu|].
  split; [|done]. intros [? ?]. split; [done|by apply Hf].
Qed.

Lemma refresh_damage target name opts i m w : damagedAt name w i m -> isOutsideSyncDir name = false -> ShouldIgnore name ignorePatterns = false ->
  hashes_ok sha256Hex opts name w -> BusyLocked name w = false -> io_trustStat opts = false -> CheckName name (wd_store w) = (Ok tt, wd_store w) ->
  fencedOut name w (refreshWith sha256Hex stored granularity ignorePatterns repairPeers now target name opts w).
Proof.
  intros Hd Ho Hi Hp Hb Ht Hc. unfold refreshWith. apply fencedOut_bind; [still| |].
  { intros e w' R. unfold inStore, zoomS in R. rewrite Hc in R. done. }
  intros [] w1 R1. rewrite (inStore_same _ _ _ Hc) in R1. injection R1 as <-. split; [done|].
  apply fencedOut_bind; [still|apply sysW_errors|]. intros [] w2 R2. pose proof (sysW_frame w) as (_ & _ & _ & B2). unfold CheckSpelling in R2. rewrite R2 in B2. cbn in B2.
  apply sysW_Ok in R2 as (T2 & S2 & C2). split; [done|]. assert (damagedAt name w2 i m) as Hd2 by (eapply damagedAt_same; [done|by rewrite S2|done]).
  apply fencedOut_bind; [still|done|]. intros w3 w3' R3. injection R3 as <- <-. split; [done|].
  assert (BusyLocked name w2 = false) as Hb2 by (unfold BusyLocked; by rewrite T2, B2). rewrite Hb2.
  apply fencedOut_run.
  { unfold recoverReplicaLocked. apply still_bind_run; [still|]. intros x w4 _ R4. apply inStoreW_Ok in R4 as (s4 & R4 & ->).
    apply ReplicaIntent_Ok in R4 as [-> _]. rewrite (da_replica _ _ _ _ Hd2). reflexivity. }
  { intros e w' R. unfold recoverReplicaLocked in R. apply bindS_Err in R as [R|(x & w4 & R4 & R)].
    - revert R. apply query_errors. intros Hf. unfold ReplicaIntent, bindS. rewrite query_nofault by done. rewrite (da_replica _ _ _ _ Hd2). eauto.
    - apply inStoreW_Ok in R4 as (s4 & R4 & ->). apply ReplicaIntent_Ok in R4 as [-> _]. by rewrite (da_replica _ _ _ _ Hd2) in R. }
  intros [] w4 R4. assert (wd_tree w4 = wd_tree w2 /\ db (wd_store w4) = db (wd_store w2) /\ (calmW w2 -> calmW w4) /\ wd_busy w4 = wd_busy w2) as (T4 & D4 & C4 & B4).
  { unfold recoverReplicaLocked in R4. apply bindS_Ok in R4 as (x & w5 & R5 & R4). pose proof R5 as R6. apply inStoreW_Ok in R6 as (s5 & R6 & _).
    apply ReplicaIntent_Ok in R6 as [-> _]. rewrite (da_replica _ _ _ _ Hd2) in R4. injection R4 as <-. eapply looked_untouched; [| |exact R5].
    - intros Hf. unfold ReplicaIntent, bindS. rewrite query_nofault by done. by rewrite (da_replica _ _ _ _ Hd2).
    - unfold ReplicaIntent. eauto 10 with birak. }
  split; [done|]. assert (damagedAt name w4 i m) as Hd4 by (eapply damagedAt_same; [done|done|done]). rewrite Ht.
  apply fencedOut_bind; [still|done|]. intros unchanged w5 R5. injection R5 as <- <-. split; [done|].
  assert (BusyLocked name w4 = false) as Hb4 by (unfold BusyLocked; by rewrite T4, B4).
  assert (hashes_ok sha256Hex opts name w4) as Hp4 by (intros ???; rewrite T4, T2; apply Hp).
  pose proof (inspect_damage target name opts i m w4 Hd4 Ho Hi Hp4 Hb4) as Hf. unfold bindS.
  destruct (inspectFile _ _ _ _ _ _ _ _ _ _) as [[ev|e] w6]; [by destruct Hf|done].
Qed.
End Damage.

(** ** Properties *)

Section Properties.
Context `{NameFolding} (sha256Hex : string -> string) (stored : Z -> Z) (granularity : Z).
Context (ignorePatterns : list string) (repairPeers : list string) (now : Z).

Lemma safe_settles b n after : safeEntry b n -> settles n after ->
  match b with
  | None => after = None \/ after = Some NDir
  | Some bytes => exists i, after = Some (NFile i) /\ in_bytes i = bytes
  end.
Proof.
  destruct b as [bytes|], n as [[i| | |]|]; cbn; try done.
  - intros [Hf <-] (j & -> & Hj). eauto.
  - by right.
  - by left.
Qed.

(** What backs a name survives a crash. *)
Lemma backed_crash name b w tree : backed name b w -> crashed w tree ->
  match b with
  | None => tree !! name = None \/ tree !! name = Some NDir
  | Some bytes => exists i, tree !! name = Some (NFile i) /\ in_bytes i = bytes
  end.
Proof. intros [H1 H2] Hc. destruct (Hc name) as [H3|H3]; by eapply safe_settles in H3. Qed.


(** C29. Silent damage is never published. A file whose bytes changed while its size and
    modification time did not, with no write announced for it, makes indexing fail, whatever
    else fails: its row stays as it was, so no peer is given the damaged bytes as a new
    version. The damage is reported only with the name fenced from reads, and it is reported
    when nothing else fails. *)
Theorem silent_damage_quarantined (name : string) (opts : indexOptions) (w : World) (i : inode) (m : FileMeta) :
  damagedAt sha256Hex granularity name w i m -> isOutsideSyncDir name = false -> ShouldIgnore name ignorePatterns = false ->
  hashes_ok sha256Hex opts name w -> BusyLocked name w = false -> io_trustStat opts = false -> CheckName name (wd_store w) = (Ok tt, wd_store w) ->
  exists e w', refreshFileLocked sha256Hex stored granularity ignorePatterns repairPeers now name opts w = (Err e, w') /\
    rowsOf w' = rowsOf w /\
    (forall n, e = WIntegrity n -> n = name /\ IsQuarantined name (wd_store w') = true) /\
    (wd_faults w = [] -> nofault (wd_store w) -> e = WIntegrity name).
Proof.
  intros Hd Ho Hi Hp Hb Ht Hc. unfold refreshFileLocked. match goal with |- context [refreshWith _ _ _ _ _ _ ?t name opts w] => set (target := t) end.
  pose proof (refresh_damage sha256Hex stored granularity ignorePatterns repairPeers now target name opts i m w Hd Ho Hi Hp Hb Ht Hc) as [Hs Hf].
  destruct (refreshWith _ _ _ _ _ _ target name opts w) as [[[]|e] w'] eqn:R; [done|]. cbn in Hf, Hs.
  exists e, w'. split; [done|]. destruct Hf as [H1 H2]. split; [apply Hs|]. split; [done|]. intros. by apply H2.
Qed.
End Properties.

(** ** Examples *)

Lemma crashed_visible w : crashed w (wd_tree w).
Proof. intros n. left. unfold settles. destruct (wd_tree w !! n) as [[i| | |]|]; eauto. Qed.

Definition plainWorld (tree : gmap string node) (s : Store) : World :=
  mkWorld (xf_set_store s (idleTransfer ∅)) tree tree [] ∅ (mkNotes [] 0 0 0 []).
Definition hello : inode := mkInode 1 7 "hello" 50 420 false.
Definition idHash (s : string) : string := s.

Abbreviation indexPlain := (refreshFileLocked (H := asciiFolding) idHash (fun t => t) 1 [] ["p"] 9).
Definition newFile : World := plainWorld {["a" := NFile hello]} initialStore.
Definition newIndexed : result werr unit * World := indexPlain "a" noOptions newFile.


(** The file of the index is rewritten in place with its size and time kept. *)
Definition goodRow : FileMeta := mkFileMeta "a" 50 5 "hallo" false 1 "" 0 "" "" 0.
Definition rotten : World := plainWorld {["a" := NFile hello]} (set_db (upd_files (fun t => <["a" := goodRow]> t) (db initialStore)) initialStore).

Lemma silent_damage_quarantined_witness :
  exists e w', indexPlain "a" noOptions rotten = (Err e, w') /\ rowsOf w' = rowsOf rotten /\ e = WIntegrity "a" /\ IsQuarantined "a" (wd_store w') = true.
Proof.
  destruct (silent_damage_quarantined (H := asciiFolding) idHash (fun t => t) 1 [] ["p"] 9 "a" noOptions rotten hello goodRow) as (e & w' & R & Hr & H1 & H2).
  - split; try (vm_compute; reflexivity).
    + vm_compute. discriminate.
    + intros p. change (local_intents (db (wd_store rotten))) with (∅ : gset string). set_solver.
  - vm_compute. reflexivity.
  - vm_compute. reflexivity.
  - intros info hash i E. discriminate E.
  - vm_compute. reflexivity.
  - reflexivity.
  - vm_compute. reflexivity.
  - exists e, w'. split; [exact R|]. split; [exact Hr|]. specialize (H2 eq_refl eq_refl). split; [exact H2|]. apply (H1 "a" H2).
Defined.
