(* ===== verification/Apply.v ===== *)
(** * Applying a peer's change

    internal/syncer: publishing a received file, applying a deletion (syncer.go), settling files
    and directories that want the same place (namespace.go), and the worker of the apply queue.
    Every step runs under the volume's lock; what other goroutines do between two critical
    sections of one worker is an input. The test hook [namespaceStep] does nothing. *)

From S2P Require Import Prelude GoStrings Hoare FileMeta Database Names Store RepairQueue Integrity Intents Glob Validate Sync Transfer Volume Paths Indexing.

(** ** Steps on the volume *)

(** A file number no file has. *)
Definition inoOf (n : node) : Z := match n with NFile i => in_ino i | _ => 0 end.
Definition freshIno (w : World) : Z :=
  1 + foldr Z.max 0 (map (fun kv => inoOf kv.2) (map_to_list (wd_tree w) ++ map_to_list (wd_durable w))).

(** [os.MkdirAll] of a name's directories. *)
Definition mkdirAll (name : string) : W unit := do! sysW then modifyS (fun w =>
  set_tree (foldr (fun dir t => match t !! dir with None => <[dir := NDir]> t | Some _ => t end) (wd_tree w)
    (List.filter (fun d => negb (d =s name)) (ancestors (S (String.length name)) name))) w).

(** [os.Rename] of a finished file onto a name: it replaces a file or a link, not a directory. *)
Definition renameOnto (i : inode) (name : string) : W unit :=
  do! sysW then
  let! w := getS in
  match wd_tree w !! name with
  | Some NDir => failS WSys
  | _ => modifyS (fun w => set_tree (<[name := NFile i]> (wd_tree w)) w)
  end.

Section Apply.
Context `{NameFolding} (sha256Hex : string -> string) (conflictDigest : string -> string -> string) (stored : Z -> Z) (granularity : Z).
Context (ignorePatterns : list string) (repairPeers : list string) (now : Z).

(** [func (s *Syncer) safeLocalPath(name string) (string, error)] *)
Definition safeLocalPath (name : string) : W unit :=
  do! inStore (CheckName name) then
  do! CheckSpelling name then
  match validateSyncName name with
  | Some _ => failS (WUnsafe name)
  | None =>
      let! w := getS in
      match SafePath (wd_tree w) name ignorePatterns with
      | Some rel => if (rel =s "") || negb (rel =s name) then failS (WUnsafe name) else retS tt
      | None => failS (WUnsafe name)
      end
  end.

(** [Watcher.prepareStorageLocked] passes or stops the caller. *)
Definition prepareStorageLocked : W unit := sysW.

(** [RefreshLocked], [RefreshTrustedLocked] and [RefreshPublishedLocked] *)
Abbreviation refresh := (refreshFileLocked sha256Hex stored granularity ignorePatterns repairPeers now).
Definition RefreshLocked (name : string) : W unit := do! prepareStorageLocked then refresh name noOptions.
Definition RefreshTrustedLocked (name : string) : W unit := do! prepareStorageLocked then refresh name (mkOptions false false ∅ true false).
Definition RefreshPublishedLocked (name : string) (info : Info) (hash : string) : W unit :=
  do! prepareStorageLocked then refresh name (mkOptions false false {[name := (info, hash)]} false false).

(** ** Conflict copies *)

(** Where the bytes of a conflicting state are: at a name, or in a scratch file. *)
Inductive source := AtName (name : string) | InScratch (rel : string).

(** [os.Open], and the bytes and mode read from it; only a regular file. *)
Definition readSource (src : source) : W (string * Z) :=
  do! sysW then
  let! w := getS in
  match src with
  | AtName name => match fileAtName (wd_tree w) name with Some i => retS (in_bytes i, in_mode i) | None => failS (WUnsupported name) end
  | InScratch rel => match xf_files (wd_xfer w) !! rel with Some f => retS (sc_bytes f, 384) | None => failS WMissing end
  end.

(** [func (s *Syncer) preserveConflictLocked(ctx context.Context, original store.FileMeta, source string) error] *)
Definition preserveConflictLocked (original : FileMeta) (src : source) : W unit :=
  do! ctxErrW then
  let copyMeta := ConflictCopy conflictDigest original in
  let dest := Name copyMeta in
  do! safeLocalPath dest then
  do! RefreshLocked dest then
  let! previous := inStore (GetFile dest) in
  if live previous then
    (if match previous with Some p => (Hash p =s Hash copyMeta) && (Size p =? Size copyMeta) | None => false end
     then retS tt else failS (WOccupied dest))
  else
    let copyMeta := AdvanceClock copyMeta previous in
    let! read := readSource src in
    let '(bytes, mode) := read in
    do! sysW then (* CreateTemp *)
    do! sysW then (* io.Copy *)
    if negb (slen bytes =? Size original) || negb (sha256Hex bytes =s Hash original) then failS WChanged
    else
      do! sysW then (* Stat of the source *)
      do! sysW then (* Chmod *)
      do! sysW then (* Chtimes *)
      do! sysW then (* Sync and Close *)
      do! ctxErrW then
      do! inStore (StageReplica copyMeta) then
      let! w := getS in
      do! renameOnto (mkInode 0 (freshIno w) bytes (stored (ModTime original)) mode true) dest then
      do! SyncParents dest then
      let! _ := inStore (PutRemote now copyMeta) in
      retS tt.

(** ** Deletions *)

(** The second half of [commitDeletionLocked]: announce, remove, flush, commit. *)
Definition unlinkReplica (meta : FileMeta) : W unit :=
  do! ctxErrW then
  do! inStore (StageReplica meta) then
  do! RemoveReplicaFile (Name meta) then
  do! SyncSurvivingParent (Name meta) then
  do! (if SupersededBy meta =s "" then CleanEmptyParentsLocked (Name meta) else retS tt) then
  let! _ := inStore (PutRemote now meta) in
  retS tt.

(** [func (s *Syncer) commitDeletionLocked(ctx context.Context, meta store.FileMeta, destPath string) error] *)
Definition commitDeletionLocked (meta : FileMeta) : W unit :=
  do! ctxErrW then
  if negb (SupersededBy meta =s "") then
    do! RefreshLocked (Name meta) then
    let! local := inStore (GetFile (Name meta)) in
    if negb (remoteWins local meta) then retS tt
    else
      do! (match local with
           | Some l => if Deleted l then retS tt else preserveConflictLocked l (AtName (Name meta))
           | None => retS tt
           end) then
      unlinkReplica meta
  else unlinkReplica meta.

(** [func (s *Syncer) applyDeletion(ctx context.Context, meta store.FileMeta) error] *)
Definition isIntegrity (r : result werr unit) : bool := match r with Err (WIntegrity _) => true | _ => false end.
Definition applyDeletion (meta : FileMeta) : W unit :=
  do! safeLocalPath (Name meta) then
  let! r := tryS (RefreshTrustedLocked (Name meta)) in
  if negb (is_ok r) && negb (isIntegrity r) then liftS r
  else
    let! local := inStore (GetFile (Name meta)) in
    if negb (remoteWins local meta) then retS tt else commitDeletionLocked meta.

(** ** Files and directories that want the same place *)

(** The closure [add] of [namespaceConflictsLocked]. *)
Definition addConflict (name : string) (found : list FileMeta) : W (list FileMeta) :=
  do! safeLocalPath name then
  let! w := getS in
  if BusyTreeLocked name w then failS WBusy
  else
    do! RefreshLocked name then
    let! meta := inStore (GetFile name) in
    match meta with
    | Some m => if Deleted m then failS (WUnsupported name) else retS (found ++ [m])%list
    | None => failS (WUnsupported name)
    end.

(** The loop over the ancestors: the first that exists and is no directory is in the way. *)
Fixpoint ancestor_loop (names : list string) : W (option (list FileMeta)) :=
  match names with
  | [] => retS None
  | ancestor :: rest =>
      let! n := lstat ancestor in
      match n with
      | None | Some NDir => ancestor_loop rest
      | Some _ => let! found := addConflict ancestor [] in retS (Some found)
      end
  end.

(** [filepath.WalkDir]: the entries of a tree in byte order. *)
Definition below (root : string) (t : gmap string node) : list (string * node) :=
  merge_sort (fun a b : string * node => String.le a.1 b.1)
    (base.filter (fun kv => kv.1 = root \/ HasPrefix kv.1 (root +:+ "/") = true) (map_to_list t)).
Fixpoint walk_loop (entries : list (string * node)) (found : list FileMeta) : W (list FileMeta) :=
  match entries with
  | [] => retS found
  | (name, n) :: rest =>
      do! sysW then
      do! safeLocalPath name then
      match n with
      | NDir => walk_loop rest found
      | _ => let! found := addConflict name found in walk_loop rest found
      end
  end.

(** [func (s *Syncer) namespaceConflictsLocked(name string) ([]store.FileMeta, error)] *)
Definition namespaceConflictsLocked (name : string) : W (list FileMeta) :=
  let! blocked := ancestor_loop (tail (ancestors (S (String.length name)) name)) in
  match blocked with
  | Some found => retS found
  | None =>
      let! n := lstat name in
      match n with
      | Some NDir =>
          let! w := getS in
          if BusyTreeLocked name w then failS WBusy else walk_loop (below name (wd_tree w)) []
      | _ => retS []
      end
  end.

(** [func removeEmptyTree(root string) error] *)
Definition removeEmptyTree (root : string) : W unit :=
  do! sysW then
  let! w := getS in
  let entries := below root (wd_tree w) in
  if forallb (fun kv => bool_decide (kv.2 = NDir)) entries
  then forS (fun kv : string * node => do! sysW then modifyS (fun w => set_tree (delete kv.1 (wd_tree w)) w)) (rev entries)
  else failS WChanged.

(** [func (s *Syncer) settleNamespaceLocked(ctx context.Context, meta store.FileMeta, temporary string) (bool, error)] *)
Definition settleNamespaceLocked (meta : FileMeta) (temporary : string) : W bool :=
  let! conflicts := namespaceConflictsLocked (Name meta) in
  let winner := fold_left (fun winner local => match CompareState (Some local) (Some winner) with Gt => local | _ => winner end) conflicts meta in
  if negb (Name winner =s Name meta) then
    do! preserveConflictLocked meta (InScratch temporary) then
    do! safeLocalPath (Name meta) then
    do! commitDeletionLocked (Superseded (Name meta) winner) then
    retS false
  else
    do! forS (fun local => do! safeLocalPath (Name local) then commitDeletionLocked (Superseded (Name local) meta)) conflicts then
    do! safeLocalPath (Name meta) then
    let! n := tryS (lstat (Name meta)) in
    do! (match n with Ok (Some NDir) => removeEmptyTree (Name meta) | _ => retS tt end) then
    retS true.

(** ** Publication *)

(** [downloadAndApply] from the announcement of the verified file to its row. The scratch file
    was flushed before; renaming keeps its identity. *)
Definition publishReplica (st : stage) (meta : FileMeta) (mode : Z) : W Info :=
  do! ctxErrW then
  do! mkdirAll (Name meta) then
  do! inStore (StageReplica meta) then
  let! w := getS in
  match xf_files (wd_xfer w) !! sg_rel st with
  | None => failS WMissing
  | Some f =>
      let i := mkInode 0 (freshIno w) (sc_bytes f) (stored (ModTime meta)) mode (bool_decide (sc_durable f = sc_bytes f)) in
      do! renameOnto i (Name meta) then
      do! inXfer (removeScratch (sg_rel st)) then
      do! inXfer (published st) then
      do! SyncParents (Name meta) then
      let! _ := inStore (PutRemote now meta) in
      retS (infoOf i)
  end.

(** The rest of [downloadAndApply] after the transfer. *)
Definition publish (st : stage) (meta : FileMeta) (mode : Z) : W unit :=
  do! ctxErrW then
  do! safeLocalPath (Name meta) then
  let! r := tryS (RefreshTrustedLocked (Name meta)) in
  let damaged := isIntegrity r in
  if negb (is_ok r) && negb damaged then liftS r
  else
    let! current := inStore (GetFile (Name meta)) in
    if negb (remoteWins current meta) && negb (damaged && match CompareState (Some meta) current with Eq => true | _ => false end) then retS tt
    else
      let! apply := settleNamespaceLocked meta (sg_rel st) in
      if negb apply then retS tt
      else
        let! info := publishReplica st meta mode in
        RefreshPublishedLocked (Name meta) info (Hash meta).

(** [func (s *Syncer) downloadAndApply(ctx context.Context, peerURL string, meta store.FileMeta) error]:
    [others] is what happens while the transfer runs without the lock. The stage is released
    however the attempt ends. *)
Definition downloadAndApply (others : World -> World) (send : Z -> option reply) (temp : string) (mode : Z) (meta : FileMeta) : W unit :=
  do! safeLocalPath (Name meta) then
  do! inXfer (modifyS (xf_set_stage None)) then
  let! r := tryS (
    let! st := inXfer (fetch sha256Hex now send temp meta) in
    do! modifyS others then
    publish st meta mode) in
  let! st := inXfer getStage in
  do! (match st with Some st => inXfer (release sha256Hex now st) | None => retS tt end) then
  liftS r.

(** ** The worker *)

(** [func (s *Syncer) applyChange(ctx context.Context, peerURL string, change store.FileMeta) error] *)
Definition applyChange (others others2 : World -> World) (send : Z -> option reply) (temp : string) (mode : Z) (change : FileMeta) : W unit :=
  match validateChange conflictDigest ignorePatterns change with
  | Some _ => retS tt
  | None =>
      let! indexed := tryS (inStore (GetFile (Name change))) in
      let! q := NeedsRepair (Name change) in
      if match indexed with Ok local => negb (remoteWins local change) && negb q | Err _ => false end then retS tt
      else
        do! safeLocalPath (Name change) then
        let! r := tryS (RefreshTrustedLocked (Name change)) in
        let damaged := isIntegrity r in
        if negb (is_ok r) && negb damaged then liftS r
        else
          let! local := inStore (GetFile (Name change)) in
          if negb (remoteWins local change) && negb (damaged && match CompareState (Some change) local with Eq => true | _ => false end) then retS tt
          else if negb damaged && live local && negb (Deleted change) &&
                  match local with Some l => (Hash l =s Hash change) && (Size l =? Size change) | None => false end
          then
            do! safeLocalPath (Name change) then
            do! inStore (StageReplica change) then
            do! chtimes stored (Name change) (ModTime change) then
            do! syncPath (Name change) then
            let! _ := inStore (PutRemote now change) in
            retS tt
          else
            do! modifyS others then
            if Deleted change then applyDeletion change else downloadAndApply others2 send temp mode change
  end.

(** [func (s *Syncer) fetchMeta(ctx context.Context, peerURL, name string) ( *store.FileMeta, error)],
    on what the peer answered: a status and the state its body decodes to. *)
Definition fetchMeta (answer : option (Z * option FileMeta)) (name : string) : option (option FileMeta) :=
  match answer with
  | None => None
  | Some (status, body) =>
      if status =? 404 then Some None
      else if negb (status =? 200) then None
      else match body with
      | None => None
      | Some meta => if negb (Name meta =s name) then None
                     else match validateMetadata conflictDigest meta with Some _ => None | None => Some (Some meta) end
      end
  end.

(** [func (s *Syncer) repairOne(ctx context.Context, peerURL string, item store.RepairItem) error];
    the causes recorded with a deferred item are left out. *)
Definition settleItem (item : RepairItem) : W unit :=
  let! local := tryS (inStore (GetFile (ri_Name item))) in
  do! inXfer (settlePartial (match local with Ok l => Ok l | Err _ => Err EDb end) (ri_Name item)) then
  inStore (ResolveRepairItem item).
Definition deferItem (item : RepairItem) : W unit :=
  inStore (DeferRepairItem now item (repairBackoff (ri_Attempts item)) "").
Definition repairOne (others others2 : World -> World) (answer : option (Z * option FileMeta)) (send : Z -> option reply) (temp : string) (mode : Z)
    (item : RepairItem) : W unit :=
  let! held := (match ri_Meta item with
                | None => retS false
                | Some m =>
                    let! q := NeedsRepair (ri_Name item) in
                    if q : bool then retS false
                    else
                      let! local := tryS (inStore (GetFile (ri_Name item))) in
                      retS match local with Ok l => match CompareState (Some m) l with Gt => false | _ => true end | Err _ => false end
                end) in
  if held : bool then settleItem item
  else
    let fetched := fetchMeta answer (ri_Name item) in
    let! gone := tryS (match fetched with None => ctxErrW | Some _ => retS tt end) in
    match gone with
    | Err e => failS e
    | Ok _ =>
        if match fetched, ri_Meta item with None, Some m => negb (Deleted m) | None, None => true | Some _, _ => false end
        then deferItem item
        else
          let meta := match fetched with Some m => m | None => ri_Meta item end in
          let meta := match ri_Meta item with
                      | Some m => match CompareState (Some m) meta with Gt => Some m | _ => meta end
                      | None => meta
                      end in
          match meta with
          | None => deferItem item
          | Some meta =>
              let! r := tryS (applyChange others others2 send temp mode meta) in
              match r with
              | Err e => do! ctxErrW then deferItem item
              | Ok _ => settleItem item
              end
          end
    end.
End Apply.

(** ** Recovery *)

Section Recovery.
Context `{NameFolding} (sha256Hex : string -> string) (stored : Z -> Z) (granularity : Z) (now : Z).

Definition intentsOf (w : World) : gmap string encoded := replica_intents (db (wd_store w)).

(** What a state says of the disk. *)
Definition matchesEntry (meta : FileMeta) (x : option node) : Prop :=
  if Deleted meta then x = None \/ x = Some NDir
  else exists i, x = Some (NFile i) /\ sha256Hex (in_bytes i) = Hash meta /\ slen (in_bytes i) = Size meta.

(** The stored form of a state loses nothing recovery needs. *)
Lemma without_DeletedAt_fields meta :
  json_Unmarshal (json_Marshal meta) = Some (without_DeletedAt meta) /\ Name (without_DeletedAt meta) = Name meta /\
  Deleted (without_DeletedAt meta) = Deleted meta /\ Hash (without_DeletedAt meta) = Hash meta /\ Size (without_DeletedAt meta) = Size meta /\
  forall ver, committed (without_DeletedAt meta) ver now = committed meta ver now.
Proof. unfold without_DeletedAt, json_Marshal, json_Unmarshal. cbn. done. Qed.

Lemma Snapshot_calm name w i : calmW w -> wd_tree w !! name = Some (NFile i) -> Snapshot sha256Hex name w = (Ok (infoOf i, sha256Hex (in_bytes i)), w).
Proof.
  intros Hc E. unfold Snapshot. unfold bindS at 1. rewrite stat_calm by done. unfold resolve. rewrite E, E. unfold bindS. by rewrite sysW_calm.
Qed.

(** Calls of a world without failures end well and leave it so. *)
Definition calmly (w w' : World) : Prop := calmW w' /\ wd_store w' = wd_store w.

Lemma updFile_calm f name w : calmW w -> exists w', updFile f name w = (Ok tt, w') /\ calmly w w'.
Proof.
  intros Hc. unfold updFile, modifyS. eexists. split; [done|]. destruct (wd_tree w !! resolve (wd_tree w) name) as [[i| | |]|]; try done.
  destruct (wd_durable w !! resolve (wd_tree w) name) as [[j| | |]|]; try done. by destruct (sameFile i j).
Qed.

Lemma chtimes_calm name t w : calmW w -> exists w', chtimes stored name t w = (Ok tt, w') /\ calmly w w'.
Proof. intros Hc. unfold chtimes, bindS. rewrite sysW_calm by done. by apply updFile_calm. Qed.

Lemma syncPath_calm name w i : calmW w -> wd_tree w !! name = Some (NFile i) -> exists w', syncPath name w = (Ok tt, w') /\ calmly w w'.
Proof.
  intros Hc E. unfold syncPath. unfold bindS at 1. rewrite sysW_calm by done. unfold bindS at 1. cbn [getS]. unfold fileAtName, resolve. rewrite E, E.
  unfold bindS. rewrite sysW_calm by done. by apply updFile_calm.
Qed.

Lemma SyncSurvivingParent_calm name w : calmW w -> exists w', SyncSurvivingParent name w = (Ok tt, w') /\ calmly w w'.
Proof.
  intros Hc. unfold SyncSurvivingParent, flushEntry. unfold bindS at 1. rewrite sysW_calm by done. unfold bindS. rewrite sysW_calm by done. eexists. split; [done|]. done.
Qed.

(** An entry recovery can judge: for a live state, a file or nothing. *)
Definition judgeable (meta : FileMeta) (x : option node) : Prop := Deleted meta = false -> x = None \/ exists i, x = Some (NFile i).

Lemma intentMatches_calm meta w : calmW w -> judgeable meta (wd_tree w !! Name meta) ->
  exists b w1, intentMatches sha256Hex stored granularity (Name meta) meta (Ok (wd_tree w !! Name meta)) w = (Ok b, w1) /\ calmly w w1 /\
    (b = true <-> matchesEntry meta (wd_tree w !! Name meta)) /\ (b = false -> w1 = w).
Proof.
  intros Hc Hj. unfold intentMatches, matchesEntry. destruct (Deleted meta) eqn:Ed.
  - eexists _, w. split; [done|]. split; [done|]. split; [|done]. destruct (wd_tree w !! Name meta) as [[| | |]|]; (split; [try (by left); by right|try done]); intros [?|?]; done.
  - destruct (Hj Ed) as [E|[i E]]; rewrite E.
    + exists false, w. split; [done|]. split; [done|]. split; [|done]. split; [done|intros (i & ? & _); done].
    + unfold bindS at 1. rewrite (Snapshot_calm _ _ i) by done. cbn [fst snd infoOf fi_size fi_mtime].
      set (b := (sha256Hex (in_bytes i) =s Hash meta) && (slen (in_bytes i) =? Size meta)).
      assert (b = true <-> exists j, Some (NFile i) = Some (NFile j) /\ sha256Hex (in_bytes j) = Hash meta /\ slen (in_bytes j) = Size meta) as Hb.
      { unfold b. rewrite andb_true_iff, eqs_true, Z.eqb_eq. split; [intros [? ?]; eauto|]. intros (j & [= <-] & ? & ?). done. }
      destruct b eqn:Eb; cbn [andb].
      * destruct (negb (SameModTime granularity (in_mtime i) (ModTime meta))).
        -- unfold bindS. destruct (chtimes_calm (Name meta) (ModTime meta) w Hc) as (w1 & -> & Hw). exists true, w1. done.
        -- exists true, w. done.
      * exists false, w. done.
Qed.

(** Recovery in a world without failures: the intent is gone, and the row follows the entry. *)
Lemma recover_calm meta w ver s' : calmW w -> intentsOf w !! Name meta = Some (json_Marshal meta) -> judgeable meta (wd_tree w !! Name meta) ->
  PutRemote now (without_DeletedAt meta) (wd_store w) = (Ok ver, s') ->
  exists w', recoverReplicaLocked sha256Hex stored granularity now (Name meta) w = (Ok tt, w') /\ intentsOf w' !! Name meta = None /\
    ((matchesEntry meta (wd_tree w' !! Name meta) /\ rowsOf w' = <[Name meta := committed meta ver now]> (rowsOf w)) \/
     (~ matchesEntry meta (wd_tree w !! Name meta) /\ rowsOf w' = rowsOf w /\ wd_tree w' = wd_tree w)).
Proof.
  intros Hc Hi Hj Hput. destruct (without_DeletedAt_fields meta) as (J1 & J2 & J3 & J4 & J5 & J6). set (m := without_DeletedAt meta) in *.
  unfold recoverReplicaLocked. unfold bindS at 1. rewrite (inStore_same (ReplicaIntent (Name meta)) w (Some m)).
  2:{ unfold ReplicaIntent, bindS. rewrite query_nofault by apply Hc. unfold intentsOf in Hi. by rewrite Hi, J1. }
  unfold bindS at 1. unfold tryS at 1. rewrite lstat_calm by done. unfold bindS at 1.
  assert (judgeable m (wd_tree w !! Name m)) as Hj' by (unfold judgeable; by rewrite J2, J3).
  destruct (intentMatches_calm m w Hc Hj') as (b & w1 & R1 & [C1 S1] & Hb & Hf). rewrite J2 in R1. rewrite R1.
  pose proof (still_intentMatches sha256Hex stored granularity m (Ok (wd_tree w !! Name m)) w) as K1. rewrite J2, R1 in K1. cbn in K1.
  assert (forall x, matchesEntry m x <-> matchesEntry meta x) as Hm by (intros x; unfold matchesEntry; by rewrite J3, J4, J5). rewrite J2, Hm in Hb.
  destruct b.
  - apply proj1 in Hb. specialize (Hb eq_refl). rewrite J3.
    assert (exists w2, (if Deleted meta then retS tt else syncPath (Name meta)) w1 = (Ok tt, w2) /\ calmly w1 w2) as (w2 & R2 & C2 & S2).
    { unfold matchesEntry in Hb. destruct (Deleted meta); [by exists w1|]. destruct Hb as (i & E & _).
      destruct K1 as [_ K1 _]. unfold sameAt in K1. rewrite E in K1. destruct K1 as (i' & E' & _). by apply (syncPath_calm (Name meta) w1 i'). }
    assert (still (Name meta) w1 w2) as K2.
    { assert (keeps (still (Name meta)) (if Deleted meta then retS tt else syncPath (Name meta))) as K by still. specialize (K w1). by rewrite R2 in K. }
    destruct (SyncSurvivingParent_calm (Name meta) w2 C2) as (w3 & R3 & C3 & S3).
    pose proof (still_SyncSurvivingParent (Name meta) (Name meta) w2) as K3. rewrite R3 in K3. cbn in K3.
    unfold bindS at 1. rewrite R2. unfold bindS at 1. rewrite R3. unfold bindS, inStore, zoomS. rewrite S3, S2, S1, Hput.
    eexists. split; [done|]. apply commitPut_rows in Hput as [P1 P2]. unfold intentsOf, rowsOf. cbn. rewrite P1, P2, J2, lookup_delete_eq. split; [done|].
    left. unfold putState. rewrite J6. split; [|done].
    assert (sameAt (Name meta) (wd_tree w) (wd_tree w3)) as Hs by (etrans; [apply K1|etrans; [apply K2|apply K3]]).
    unfold sameAt in Hs. unfold matchesEntry in *. destruct (Deleted meta).
    + destruct Hb as [E|E]; rewrite E in Hs; [by left|]. destruct Hs; auto.
    + destruct Hb as (i & E & H1 & H2). rewrite E in Hs. destruct Hs as (i' & E' & B & _). exists i'. by rewrite B.
  - specialize (Hf eq_refl) as ->. unfold inStore, zoomS, ClearReplicaIntent. rewrite exec_nofault by apply Hc. eexists. split; [done|].
    unfold intentsOf, rowsOf. cbn. rewrite lookup_delete_eq. split; [done|]. right. split; [|done]. intros Hx. by apply Hb in Hx.
Qed.

(** ** Commits under an intent *)

(** Everything about a name that survives a crash. *)
Record viewKept (name : string) (w w' : World) : Prop := mkViewKept {
  vk_rows : rowsOf w' = rowsOf w; vk_intents : intentsOf w' = intentsOf w;
  vk_tree : wd_tree w' !! name = wd_tree w !! name; vk_durable : wd_durable w' !! name = wd_durable w !! name
}.
#[export] Instance viewKept_preorder name : PreOrder (viewKept name).
Proof. split; [done|]. intros w1 w2 w3 [] []. split; congruence. Qed.

Definition newEntry (meta : FileMeta) (x : option node) : Prop := forall y, settles x y -> matchesEntry meta y.

(** How far a commit under an intent got: not begun; announced, with the entry old or new on
    disk; or done. *)
Inductive progress (meta : FileMeta) (w w' : World) : Prop :=
| PBefore : viewKept (Name meta) w w' -> progress meta w w'
| PStaged : rowsOf w' = rowsOf w -> intentsOf w' = <[Name meta := json_Marshal meta]> (intentsOf w) ->
    (wd_tree w' !! Name meta = wd_tree w !! Name meta \/ newEntry meta (wd_tree w' !! Name meta)) ->
    (wd_durable w' !! Name meta = wd_durable w !! Name meta \/ newEntry meta (wd_durable w' !! Name meta)) -> progress meta w w'
| PDone ver : rowsOf w' = <[Name meta := committed meta ver now]> (rowsOf w) -> intentsOf w' !! Name meta = None ->
    newEntry meta (wd_tree w' !! Name meta) -> newEntry meta (wd_durable w' !! Name meta) -> progress meta w w'.

(** Whenever it stops, a crash and the recovery at the next start leave the old state with the
    old entry or the new state with the new entry, and no intent. *)
Lemma crash_recovers meta w w' tree s w2 ver s' :
  progress meta w w' -> intentsOf w !! Name meta = None -> restarted w' tree s w2 -> nofault s ->
  (forall y, settles (wd_tree w !! Name meta) y \/ settles (wd_durable w !! Name meta) y -> judgeable meta y) ->
  PutRemote now (without_DeletedAt meta) s = (Ok ver, s') ->
  exists w3, recoverReplicaLocked sha256Hex stored granularity now (Name meta) w2 = (Ok tt, w3) /\ intentsOf w3 !! Name meta = None /\
    ((rowsOf w3 !! Name meta = rowsOf w !! Name meta /\ wd_tree w3 !! Name meta = tree !! Name meta /\
      (settles (wd_tree w !! Name meta) (tree !! Name meta) \/ settles (wd_durable w !! Name meta) (tree !! Name meta))) \/
     (exists v, rowsOf w3 !! Name meta = Some (committed meta v now) /\ matchesEntry meta (wd_tree w3 !! Name meta))).
Proof.
  intros Hp Hi (Hcr & Hdb & Hst & Htr & _ & Hfl & _) Hf Hold Hput. specialize (Hcr (Name meta)).
  assert (calmW w2) as Hc by (split; [done|by rewrite Hst]).
  assert (rowsOf w2 = rowsOf w' /\ intentsOf w2 = intentsOf w') as [R2 I2] by (unfold rowsOf, intentsOf; rewrite Hst; by rewrite Hdb).
  assert (intentsOf w2 !! Name meta = None -> recoverReplicaLocked sha256Hex stored granularity now (Name meta) w2 = (Ok tt, w2)) as Hnone.
  { intros Hn. unfold recoverReplicaLocked, bindS. rewrite (inStore_same (ReplicaIntent (Name meta)) w2 None); [done|].
    unfold ReplicaIntent, bindS. rewrite query_nofault by apply Hc. unfold intentsOf in Hn. by rewrite Hn. }
  destruct Hp as [[V1 V2 V3 V4]|V1 V2 V3 V4|v V1 V2 V3 V4].
  - rewrite V2 in I2. exists w2. rewrite I2. split; [by apply Hnone; rewrite I2|]. split; [done|]. left. rewrite R2, V1, Htr. rewrite V3, V4 in Hcr. done.
  - assert (matchesEntry meta (tree !! Name meta) \/ (settles (wd_tree w !! Name meta) (tree !! Name meta) \/ settles (wd_durable w !! Name meta) (tree !! Name meta))) as Hx.
    { destruct Hcr as [Hcr|Hcr]; [destruct V3 as [V|V]|destruct V4 as [V|V]]; (rewrite V in Hcr; auto) || (left; by apply V). }
    assert (judgeable meta (wd_tree w2 !! Name meta)) as Hj.
    { rewrite Htr. destruct Hx as [Hx|Hx]; [|by apply Hold]. unfold matchesEntry, judgeable in *. intros Ed. rewrite Ed in Hx. destruct Hx as (i & -> & _). eauto. }
    destruct (recover_calm meta w2 ver s' Hc) as (w3 & R3 & I3 & Hout); [rewrite I2, V2; apply lookup_insert_eq|done|by rewrite Hst|].
    exists w3. split; [done|]. split; [done|]. destruct Hout as [[Hm Hr]|(Hm & Hr & Ht)].
    + right. exists ver. rewrite Hr, lookup_insert_eq. done.
    + left. rewrite Hr, R2, V1, Ht, Htr. rewrite Htr in Hm. split; [done|]. split; [done|]. destruct Hx as [Hx|Hx]; done.
  - exists w2. rewrite I2. split; [by apply Hnone; rewrite I2|]. split; [done|]. right. exists v. rewrite R2, V1, lookup_insert_eq, Htr. split; [done|].
    destruct Hcr as [Hcr|Hcr]; [by apply V3|by apply V4].
Qed.

(** *** Steps of a commit *)

Lemma view_sysW name : keeps (viewKept name) sysW.
Proof. intros w. pose proof (sysW_frame w) as (F1 & F2 & F3 & _). split; unfold rowsOf, intentsOf, wd_store; by rewrite ?F1, ?F2, ?F3. Qed.

Definition xrows (x x' : Xfer) : Prop := rows_kept (xf_store x) (xf_store x').
#[export] Instance xrows_preorder : PreOrder xrows.
Proof. split; [intros x; unfold xrows; reflexivity|]. intros x1 x2 x3 H1 H2. unfold xrows in *. by etrans. Qed.

Lemma view_inXfer {A} name (c : X A) : keeps xrows c -> keeps (viewKept name) (inXfer c).
Proof. intros Hc w. specialize (Hc (wd_xfer w)). unfold inXfer, zoomS. destruct (c (wd_xfer w)) as [r x']. destruct Hc as [H1 H2]. split; done. Qed.

Lemma xrows_published st : keeps xrows (published st).
Proof.
  unfold published, closeFile, dropRecord, putStage, forgetPartial.
  assert (forall f, (forall x, xf_store (f x) = xf_store x) -> keeps xrows (modifyS f : X unit)) as Hm by (intros f Hf x; unfold xrows; cbn; by rewrite Hf).
  assert (keeps xrows sys) as Hs by (intros x; unfold sys; destruct (xf_faults x) as [|[] ?]; unfold xrows; reflexivity).
  assert (forall A (c : X A), keeps xrows c -> keeps xrows (tryS c)) as Ht by (intros A c Hc x; specialize (Hc x); unfold tryS; by destruct (c x)).
  apply keeps_bind; [apply _|by apply Hm|]. intros _. apply keeps_bind; [apply _| |].
  - apply Ht. destruct (negb _); [apply keeps_ret, _|]. apply keeps_bind; [apply _|by apply Hm|]. intros _.
    apply keeps_bind; [apply _|done|]. intros _. apply keeps_ret, _.
  - intros _. destruct (sg_recorded _); [|apply keeps_ret, _]. apply keeps_bind; [apply _| |intros _; by apply Hm]. apply Ht.
    intros x. unfold inDb, zoomS, DropPartialDownload. pose proof (keeps_rows_exec (upd_partials (fun t => delete (Name (sg_meta (set_done true st))) t)) ltac:(done) (xf_store x)) as K.
    by destruct (exec _ (xf_store x)).
Qed.

Lemma view_ctxErrW name : keeps (viewKept name) ctxErrW.
Proof. apply view_inXfer. intros x. unfold ctxErrX. destruct (xf_cancel x) as [|[] ?]; unfold xrows; reflexivity. Qed.

Lemma mkdirs_other name (t : gmap string node) l :
  foldr (fun dir t => match t !! dir with None => <[dir := NDir]> t | Some _ => t end) t (List.filter (fun d => negb (d =s name)) l) !! name = t !! name.
Proof.
  induction l as [|d l IH]; [done|]. cbn [List.filter]. destruct (d =s name) eqn:E; [done|]. cbn [negb foldr]. apply eqs_false in E.
  destruct (foldr _ _ _ !! d); [done|]. by rewrite lookup_insert_ne.
Qed.

Lemma view_mkdirAll name : keeps (viewKept name) (mkdirAll name).
Proof.
  unfold mkdirAll. apply keeps_bind; [apply _|apply view_sysW|]. intros _ w. split; [done|done| |done]. apply mkdirs_other.
Qed.

(** What came before is part of the old world. *)
Lemma progress_pre meta w w1 w2 : viewKept (Name meta) w w1 -> progress meta w1 w2 -> progress meta w w2.
Proof.
  intros [V1 V2 V3 V4] Hp. destruct Hp as [V|P1 P2 P3 P4|v P1 P2 P3 P4].
  - apply PBefore. destruct V. split; congruence.
  - rewrite V1, V2, V3, V4 in *. by apply PStaged.
  - rewrite V1 in P1. by eapply PDone.
Qed.

Lemma progress_bind {A B} meta w0 (c : W A) (k : A -> W B) w :
  viewKept (Name meta) w0 w -> keeps (viewKept (Name meta)) c ->
  (forall a w1, viewKept (Name meta) w0 w1 -> c w = (Ok a, w1) -> progress meta w0 (k a w1).2) -> progress meta w0 (bindS c k w).2.
Proof.
  intros V Hc Hk. specialize (Hc w). unfold bindS. destruct (c w) as [[a|e] w1] eqn:R; cbn in Hc.
  - apply Hk; [by etrans|done].
  - apply PBefore. by etrans.
Qed.

(** The announcement. *)
Lemma progress_stage {B} meta w0 (k : unit -> W B) w : viewKept (Name meta) w0 w ->
  (forall w1, rowsOf w1 = rowsOf w -> intentsOf w1 = <[Name meta := json_Marshal meta]> (intentsOf w) -> wd_tree w1 = wd_tree w -> wd_durable w1 = wd_durable w ->
     xf_files (wd_xfer w1) = xf_files (wd_xfer w) -> progress meta w0 (k tt w1).2) -> progress meta w0 (bindS (inStore (StageReplica meta)) k w).2.
Proof.
  intros V Hk. unfold bindS, inStore, zoomS, StageReplica. destruct (exec _ (wd_store w)) as [[[]|e] s'] eqn:E.
  - apply exec_Ok in E as [Hd _]. apply Hk; unfold rowsOf, intentsOf; cbn; by rewrite ?Hd.
  - apply exec_Err in E as [_ U]. apply PBefore. etrans; [exact V|]. split; unfold rowsOf, intentsOf; cbn; by rewrite ?(untouched_db _ _ U).
Qed.

(** Steps after it. *)
Record staged (meta : FileMeta) (w0 w : World) : Prop := mkStaged {
  sg_rows : rowsOf w = rowsOf w0; sg_intents : intentsOf w = <[Name meta := json_Marshal meta]> (intentsOf w0);
  sg_tree : wd_tree w !! Name meta = wd_tree w0 !! Name meta \/ newEntry meta (wd_tree w !! Name meta);
  sg_durable : wd_durable w !! Name meta = wd_durable w0 !! Name meta \/ newEntry meta (wd_durable w !! Name meta)
}.

Lemma staged_progress meta w0 w : staged meta w0 w -> progress meta w0 w.
Proof. intros []. by apply PStaged. Qed.

Lemma staged_view meta w0 w w1 : staged meta w0 w -> viewKept (Name meta) w w1 -> staged meta w0 w1.
Proof. intros [S1 S2 S3 S4] [V1 V2 V3 V4]. split; rewrite ?V1, ?V2, ?V3, ?V4; done. Qed.

Lemma staged_bind {A B} meta w0 (c : W A) (k : A -> W B) w : staged meta w0 w -> staged meta w0 (c w).2 ->
  (forall a w1, staged meta w0 w1 -> c w = (Ok a, w1) -> progress meta w0 (k a w1).2) -> progress meta w0 (bindS c k w).2.
Proof. intros Hs Hc Hk. unfold bindS. destruct (c w) as [[a|e] w1] eqn:R; cbn in Hc; [by apply Hk|by apply staged_progress]. Qed.

(** The commit at the end, once the new entry is on disk. *)
Lemma staged_commit {B} meta w0 (b : B) w : staged meta w0 w -> newEntry meta (wd_tree w !! Name meta) -> newEntry meta (wd_durable w !! Name meta) ->
  progress meta w0 ((let! _ := inStore (PutRemote now meta) in retS b) w).2.
Proof.
  intros Hs Ht Hd. unfold bindS, inStore, zoomS. destruct (PutRemote now meta (wd_store w)) as [r s'] eqn:E. apply commitPut_rows in E. destruct r as [ver|e].
  - destruct E as [E1 E2]. apply (PDone meta w0 _ ver); unfold rowsOf, intentsOf; cbn; [|by rewrite E2, lookup_delete_eq|done|done].
    rewrite E1. destruct Hs as [Hr _ _ _]. unfold rowsOf in Hr. rewrite Hr. done.
  - apply staged_progress. eapply staged_view; [done|]. destruct E as [E1 E2]. split; unfold rowsOf, intentsOf; cbn; done.
Qed.

Definition scratchKept (w w' : World) : Prop := xf_files (wd_xfer w') = xf_files (wd_xfer w).
Lemma scratch_sysW w r w' : sysW w = (r, w') -> scratchKept w w'.
Proof. intros R. pose proof (sysW_frame w) as (_ & _ & F & _). rewrite R in F. unfold scratchKept. cbn in F. by rewrite F. Qed.
Lemma scratch_ctxErrW w r w' : ctxErrW w = (r, w') -> scratchKept w w'.
Proof. unfold ctxErrW, inXfer, zoomS, ctxErrX, scratchKept. destruct (xf_cancel (wd_xfer w)) as [|[] ?]; intros [= <- <-]; done. Qed.
Lemma scratch_mkdirAll name w r w' : mkdirAll name w = (r, w') -> scratchKept w w'.
Proof.
  unfold mkdirAll, bindS. destruct (sysW w) as [[[]|e] w1] eqn:R; [|intros [= <- <-]; by apply scratch_sysW in R].
  intros [= <- <-]. apply scratch_sysW in R. done.
Qed.

Lemma file_newEntry meta i : Deleted meta = false -> in_flushed i = true -> sha256Hex (in_bytes i) = Hash meta -> slen (in_bytes i) = Size meta ->
  newEntry meta (Some (NFile i)).
Proof. intros Hd Hf H1 H2 y (j & -> & Hj). unfold matchesEntry. rewrite Hd. exists j. by rewrite Hj. Qed.

Lemma flush_staged meta w0 w : staged meta w0 w -> newEntry meta (wd_tree w !! Name meta) ->
  staged meta w0 (flushEntry (Name meta) w).2.
Proof.
  intros Hs Hn. unfold flushEntry, bindS. pose proof (view_sysW (Name meta) w) as V. destruct (sysW w) as [[[]|e] w1]; cbn in V; [|by eapply staged_view].
  pose proof (staged_view _ _ _ _ Hs V) as [S1 S2 S3 S4]. split; cbn; [done|done|done|]. rewrite <- (vk_tree _ _ _ V) in Hn. right.
  destruct (wd_tree w1 !! Name meta); [by rewrite lookup_insert_eq|by rewrite lookup_delete_eq].
Qed.

(** A file put in place under its intent: rename, flush, commit. *)
Lemma place_progress {A} meta w0 w i (mid : W unit) (a : A) : staged meta w0 w -> newEntry meta (Some (NFile i)) -> keeps (viewKept (Name meta)) mid ->
  progress meta w0 ((do! renameOnto i (Name meta) then do! mid then do! SyncParents (Name meta) then
                     let! _ := inStore (PutRemote now meta) in retS a) w).2.
Proof.
  intros Hs Hn Hmid. unfold bindS at 1. unfold renameOnto. unfold bindS at 1. pose proof (view_sysW (Name meta) w) as V.
  destruct (sysW w) as [[[]|e] w1]; cbn in V; [|apply staged_progress; by eapply staged_view]. pose proof (staged_view _ _ _ _ Hs V) as Hs1.
  unfold bindS at 1. cbn [getS]. assert (staged meta w0 (set_tree (<[Name meta := NFile i]> (wd_tree w1)) w1)) as Hs2.
  { destruct Hs1 as [S1 S2 S3 S4]. split; cbn; [done|done|rewrite lookup_insert_eq; by right|done]. }
  assert (forall w2, w2 = set_tree (<[Name meta := NFile i]> (wd_tree w1)) w1 -> progress meta w0 ((do! mid then do! SyncParents (Name meta) then
                     let! _ := inStore (PutRemote now meta) in retS a) w2).2) as Hrest.
  { intros w2 ->. set (w2 := set_tree _ w1) in *. specialize (Hmid w2). apply staged_bind; [done|by eapply staged_view|]. intros [] w3 Hs3 R3. rewrite R3 in Hmid. cbn in Hmid.
    assert (newEntry meta (wd_tree w3 !! Name meta)) as Hn3 by (rewrite (vk_tree _ _ _ Hmid); unfold w2; cbn; by rewrite lookup_insert_eq).
    apply staged_bind; [done|by apply flush_staged|]. intros [] w4 Hs4 R4. apply flushEntry_Ok in R4 as [T4 D4]. apply staged_commit; [done|by rewrite T4|by rewrite D4]. }
  destruct (wd_tree w1 !! Name meta) as [[| | |]|]; try (by apply Hrest). by apply staged_progress.
Qed.

Lemma publishReplica_progress st meta mode w f :
  xf_files (wd_xfer w) !! sg_rel st = Some f -> sc_durable f = sc_bytes f -> Deleted meta = false -> sha256Hex (sc_bytes f) = Hash meta -> slen (sc_bytes f) = Size meta ->
  progress meta w (publishReplica stored now st meta mode w).2.
Proof.
  intros Hf Hd Hl Hh Hz. unfold publishReplica. apply progress_bind; [reflexivity|apply view_ctxErrW|]. intros [] w1 V1 R1. apply scratch_ctxErrW in R1.
  apply progress_bind; [done|apply view_mkdirAll|]. intros [] w2 V2 R2. apply scratch_mkdirAll in R2.
  apply progress_stage; [done|]. intros w3 S1 S2 S3 S4 S5. unfold bindS at 1. cbn [getS]. unfold scratchKept in *. rewrite S5, R2, R1, Hf.
  set (i := mkInode _ _ _ _ _ _). assert (newEntry meta (Some (NFile i))) as Hn by (apply file_newEntry; [done|cbn; rewrite Hd; by apply bool_decide_eq_true|done|done]).
  assert (staged meta w w3) as Hs by (destruct V2 as [A1 A2 A3 A4]; split; rewrite ?S1, ?S2, ?S3, ?S4, ?A1, ?A2, ?A3, ?A4; auto).
  assert (keeps (viewKept (Name meta)) (do! inXfer (removeScratch (sg_rel st)) then inXfer (published st))) as Hmid.
  { apply keeps_bind; [apply _|apply view_inXfer; intros x; done|]. intros _. apply view_inXfer, xrows_published. }
  pose proof (place_progress meta w w3 i (do! inXfer (removeScratch (sg_rel st)) then inXfer (published st)) (infoOf i) Hs Hn Hmid) as Hp.
  revert Hp. unfold bindS. destruct (renameOnto i (Name meta) w3) as [[[]|e] w4]; [|done]. by destruct (inXfer (removeScratch (sg_rel st)) w4) as [[[]|e] w5].
Qed.

Lemma gone_newEntry meta x : Deleted meta = true -> safeEntry None x -> newEntry meta x.
Proof. intros Hd Hx y Hy. unfold matchesEntry. rewrite Hd. destruct x as [[| | |]|]; cbn in *; auto; done. Qed.

Definition unlinked (meta : FileMeta) (w0 : World) (out : result werr unit * World) : Prop :=
  staged meta w0 out.2 /\ (out.1 = Ok tt -> safeEntry None (wd_tree out.2 !! Name meta)).

Lemma RemoveReplicaFile_staged meta w0 w : Deleted meta = true -> staged meta w0 w -> unlinked meta w0 (RemoveReplicaFile (Name meta) w).
Proof.
  intros Hd Hs. unfold RemoveReplicaFile, lstat. unfold bindS at 1 2. pose proof (view_sysW (Name meta) w) as V1.
  destruct (sysW w) as [[[]|e] w1]; cbn in V1; [|split; [by eapply staged_view|done]]. pose proof (staged_view _ _ _ _ Hs V1) as Hs1. unfold bindS at 1. cbn [getS retS].
  assert (unlinked meta w0 ((do! sysW then modifyS (fun w => set_tree (delete (Name meta) (wd_tree w)) w) : W unit) w1)) as Hrm.
  { unfold bindS. pose proof (view_sysW (Name meta) w1) as V2. destruct (sysW w1) as [[[]|e] w2]; cbn in V2; [|split; [by eapply staged_view|done]].
    pose proof (staged_view _ _ _ _ Hs1 V2) as [S1 S2 S3 S4]. split; [|intros _; cbn; by rewrite lookup_delete_eq].
    split; cbn; [done|done| |done]. right. rewrite lookup_delete_eq. by apply gone_newEntry. }
  destruct (wd_tree w1 !! Name meta) as [[i| |t|]|] eqn:E; try exact Hrm; (split; [done|]); cbn; try done; intros _; by rewrite E.
Qed.

Lemma unlinkReplica_progress meta w : Deleted meta = true -> progress meta w (unlinkReplica now meta w).2.
Proof.
  intros Hd. unfold unlinkReplica. apply progress_bind; [reflexivity|apply view_ctxErrW|]. intros [] w1 V1 _.
  apply progress_stage; [done|]. intros w2 S1 S2 S3 S4 _.
  assert (staged meta w w2) as Hs2 by (destruct V1 as [A1 A2 A3 A4]; split; rewrite ?S1, ?S2, ?S3, ?S4, ?A1, ?A2, ?A3, ?A4; auto).
  destruct (RemoveReplicaFile_staged meta w w2 Hd Hs2) as [Hs3 Hgone]. apply staged_bind; [done|done|]. intros [] w3 Hs3' R3. rewrite R3 in Hgone. specialize (Hgone eq_refl). cbn in Hgone.
  assert (newEntry meta (wd_tree w3 !! Name meta)) as Hn3 by by apply gone_newEntry.
  assert (staged meta w (SyncSurvivingParent (Name meta) w3).2) as Hs4.
  { unfold SyncSurvivingParent, bindS. pose proof (view_sysW (Name meta) w3) as V. destruct (sysW w3) as [[[]|e] w3']; cbn in V; [|by eapply staged_view].
    apply flush_staged; [by eapply staged_view|]. by rewrite (vk_tree _ _ _ V). }
  apply staged_bind; [done|done|]. intros [] w4 Hs4' R4. apply SyncSurvivingParent_Ok in R4 as [T4 D4].
  assert (backed (Name meta) None w4) as Hb by (unfold backed; by rewrite T4, D4).
  assert (keeps (still (Name meta)) (if SupersededBy meta =s "" then CleanEmptyParentsLocked (Name meta) else retS tt)) as Kc
    by (destruct (SupersededBy meta =s ""); [apply still_clean|apply keeps_ret, _]). specialize (Kc w4) as [[K1 K2] _ K3].
  assert (staged meta w ((if SupersededBy meta =s "" then CleanEmptyParentsLocked (Name meta) else retS tt) w4).2) as Hs5.
  { destruct (K3 None Hb) as [B1 B2]. destruct Hs4' as [A1 A2 _ _]. split; [unfold rowsOf in *; congruence|unfold intentsOf in *; congruence| |]; right; by apply gone_newEntry. }
  apply staged_bind; [done|done|]. intros [] w5 _ R5. rewrite R5 in *. cbn in K3, Hs5. destruct (K3 None Hb) as [B1 B2].
  apply staged_commit; [done| |]; by apply gone_newEntry.
Qed.
End Recovery.

(** ** Properties *)

Section ApplyProperties.
Context `{NameFolding} (sha256Hex : string -> string) (stored : Z -> Z) (granularity : Z) (now : Z).

(** C3. Publishing a received file is crash-safe. Wherever it stops, for a failed call, a
    cancelled context or a crash, and whatever of the unflushed directory changes the crash
    keeps, the recovery at the next start ends without an intent in one of two states: the row
    is as it was and the entry is the old one, or the row is exactly the peer's state, with its
    clock, and the file on disk has its size and hash. The bytes of a peer are never left for
    the next scan to index as a new local version, and no row is left without its file. *)
Theorem publishReplica_crash_safe (st : stage) (meta : FileMeta) (mode : Z) (w w' : World) (r : result werr Info) (f : scratch)
    (tree : gmap string node) (s s' : Store) (ver : Z) (w2 : World) :
  Deleted meta = false -> xf_files (wd_xfer w) !! sg_rel st = Some f -> sc_durable f = sc_bytes f ->
  sha256Hex (sc_bytes f) = Hash meta -> slen (sc_bytes f) = Size meta ->
  intentsOf w !! Name meta = None ->
  (forall n, n = wd_tree w !! Name meta \/ n = wd_durable w !! Name meta -> n = None \/ exists i, n = Some (NFile i)) ->
  publishReplica stored now st meta mode w = (r, w') ->
  restarted w' tree s w2 -> nofault s -> PutRemote now (without_DeletedAt meta) s = (Ok ver, s') ->
  exists w3, recoverReplicaLocked sha256Hex stored granularity now (Name meta) w2 = (Ok tt, w3) /\ intentsOf w3 !! Name meta = None /\
    ((rowsOf w3 !! Name meta = rowsOf w !! Name meta /\ wd_tree w3 !! Name meta = tree !! Name meta /\
      (settles (wd_tree w !! Name meta) (tree !! Name meta) \/ settles (wd_durable w !! Name meta) (tree !! Name meta))) \/
     (exists v i, rowsOf w3 !! Name meta = Some (committed meta v now) /\ wd_tree w3 !! Name meta = Some (NFile i) /\
        sha256Hex (in_bytes i) = Hash meta /\ slen (in_bytes i) = Size meta)).
Proof.
  intros Hd Hf Hfl Hh Hz Hi Hold R Hre Hnf Hput. pose proof (publishReplica_progress sha256Hex stored now st meta mode w f Hf Hfl Hd Hh Hz) as Hp. rewrite R in Hp. cbn in Hp.
  destruct (crash_recovers sha256Hex stored granularity now meta w w' tree s w2 ver s' Hp Hi Hre Hnf) as (w3 & R3 & I3 & Hout); [|done|].
  - intros y Hy _. assert (forall n, n = None \/ (exists i, n = Some (NFile i)) -> settles n y -> y = None \/ exists i, y = Some (NFile i)) as Hs.
    { intros n [->|[i ->]]; cbn; [by left|]. intros (j & -> & _). eauto. }
    destruct Hy as [Hy|Hy]; eapply Hs; [apply Hold; by left|done|apply Hold; by right|done].
  - exists w3. split; [done|]. split; [done|]. destruct Hout as [?|(v & Hv & Hm)]; [by left|right]. unfold matchesEntry in Hm. rewrite Hd in Hm.
    destruct Hm as (i & ? & ? & ?). eauto 10.
Qed.

(** Applying a deletion is crash-safe in the same way: wherever it stops, recovery leaves no
    intent and either the old row with the old entry, or the peer's tombstone with no file at
    the name. A tombstone is never recorded over a file that is still there, nor a removed file
    left to be announced again as a deletion of this node's own. *)
Theorem unlinkReplica_crash_safe (meta : FileMeta) (w w' : World) (r : result werr unit)
    (tree : gmap string node) (s s' : Store) (ver : Z) (w2 : World) :
  Deleted meta = true -> intentsOf w !! Name meta = None ->
  unlinkReplica now meta w = (r, w') ->
  restarted w' tree s w2 -> nofault s -> PutRemote now (without_DeletedAt meta) s = (Ok ver, s') ->
  exists w3, recoverReplicaLocked sha256Hex stored granularity now (Name meta) w2 = (Ok tt, w3) /\ intentsOf w3 !! Name meta = None /\
    ((rowsOf w3 !! Name meta = rowsOf w !! Name meta /\ wd_tree w3 !! Name meta = tree !! Name meta /\
      (settles (wd_tree w !! Name meta) (tree !! Name meta) \/ settles (wd_durable w !! Name meta) (tree !! Name meta))) \/
     (exists v, rowsOf w3 !! Name meta = Some (committed meta v now) /\ (wd_tree w3 !! Name meta = None \/ wd_tree w3 !! Name meta = Some NDir))).
Proof.
  intros Hd Hi R Hre Hnf Hput. pose proof (unlinkReplica_progress sha256Hex now meta w Hd) as Hp. rewrite R in Hp. cbn in Hp.
  destruct (crash_recovers sha256Hex stored granularity now meta w w' tree s w2 ver s' Hp Hi Hre Hnf) as (w3 & R3 & I3 & Hout); [|done|].
  - intros y _ Hx. congruence.
  - exists w3. split; [done|]. split; [done|]. destruct Hout as [?|(v & Hv & Hm)]; [by left|right]. unfold matchesEntry in Hm. rewrite Hd in Hm. eauto.
Qed.

(** An intent for a live file over a directory: recovery fails and keeps the intent, so it fails
    again at every start until the directory is removed by hand. *)
Theorem directory_blocks_recovery (meta : FileMeta) (w : World) :
  calmW w -> intentsOf w !! Name meta = Some (json_Marshal meta) -> Deleted meta = false -> wd_tree w !! Name meta = Some NDir ->
  recoverReplicaLocked sha256Hex stored granularity now (Name meta) w = (Err (WUnsupported (Name meta)), w).
Proof.
  intros Hc Hi Hd Hn. destruct (without_DeletedAt_fields now meta) as (J1 & J2 & J3 & _). unfold recoverReplicaLocked. unfold bindS at 1.
  rewrite (inStore_same (ReplicaIntent (Name meta)) w (Some (without_DeletedAt meta))).
  2:{ unfold ReplicaIntent, bindS. rewrite query_nofault by apply Hc. unfold intentsOf in Hi. by rewrite Hi, J1. }
  unfold bindS at 1. unfold tryS at 1. rewrite lstat_calm by done. unfold bindS at 1. unfold intentMatches. rewrite J3, Hd, Hn.
  unfold bindS at 1. unfold Snapshot, bindS. rewrite stat_calm by done. unfold resolve. by rewrite Hn, Hn.
Qed.
End ApplyProperties.

(** ** Examples *)

Definition helloMeta : FileMeta := mkFileMeta "a" 50 5 "hello" false 0 "" 7 "" "" 0.
Definition helloRel : string := ".birak-tmp-replica-1".
Definition received : stage := mkStage helloMeta helloRel 5 0 "hello" false false false false false false.
Definition readyWorld : World :=
  mkWorld (xf_set_store initialStore (idleTransfer {[helloRel := mkScratch "hello" "hello" true]})) ∅ ∅ [FNone; FNone; FFail] ∅ (mkNotes [] 0 0 0 []).
Definition putHello : result werr Info * World := publishReplica (H := asciiFolding) (fun t => t) 9 received helloMeta 420 readyWorld.
Definition reopened (w : World) : World := plainWorld (wd_tree w) (wd_store w).
Definition recommit (meta : FileMeta) (w : World) : result err Z * Store := PutRemote (H := asciiFolding) 9 (without_DeletedAt meta) (wd_store w).

Lemma restarted_visible w : restarted w (wd_tree w) (wd_store w) (reopened w).
Proof. split; [apply crashed_visible|]. done. Qed.

(** The flush of the directory fails after the rename, and the process stops. *)
Lemma publishReplica_crash_safe_witness :
  putHello.1 = Err WSys /\ rowsOf putHello.2 !! "a" = None /\
  exists w3, recoverReplicaLocked (H := asciiFolding) idHash (fun t => t) 1 9 "a" (reopened putHello.2) = (Ok tt, w3) /\ intentsOf w3 !! "a" = None.
Proof.
  split; [vm_compute; reflexivity|]. split; [vm_compute; reflexivity|].
  assert ((recommit helloMeta putHello.2).1 = Ok 1) as E by (vm_compute; reflexivity).
  destruct (publishReplica_crash_safe (H := asciiFolding) idHash (fun t => t) 1 9 received helloMeta 420 readyWorld putHello.2 putHello.1 (mkScratch "hello" "hello" true)
    (wd_tree putHello.2) (wd_store putHello.2) (recommit helloMeta putHello.2).2 1 (reopened putHello.2)) as (w3 & R & I & _).
  - reflexivity.
  - vm_compute. reflexivity.
  - reflexivity.
  - reflexivity.
  - reflexivity.
  - reflexivity.
  - intros n [-> | ->]; left; reflexivity.
  - unfold putHello. destruct (publishReplica _ _ _ _ _ _). reflexivity.
  - apply restarted_visible.
  - vm_compute. reflexivity.
  - unfold recommit in *. destruct (PutRemote 9 (without_DeletedAt helloMeta) (wd_store putHello.2)) as [r s']. cbn in *. rewrite E. reflexivity.
  - exists w3. split; [exact R|exact I].
Defined.

Definition helloGone : FileMeta := mkFileMeta "a" 60 0 "" true 0 "" 8 "" "" 0.
Definition keptWorld : World := mkWorld (xf_set_store initialStore (idleTransfer ∅)) {["a" := NFile hello]} {["a" := NFile hello]} [FNone; FNone; FFail] ∅ (mkNotes [] 0 0 0 []).
Definition unlinkHello : result werr unit * World := unlinkReplica (H := asciiFolding) 9 helloGone keptWorld.

Lemma unlinkReplica_crash_safe_witness :
  unlinkHello.1 = Err WSys /\ wd_tree unlinkHello.2 !! "a" = None /\
  exists w3, recoverReplicaLocked (H := asciiFolding) idHash (fun t => t) 1 9 "a" (reopened unlinkHello.2) = (Ok tt, w3) /\ intentsOf w3 !! "a" = None.
Proof.
  split; [vm_compute; reflexivity|]. split; [vm_compute; reflexivity|].
  assert ((recommit helloGone unlinkHello.2).1 = Ok 1) as E by (vm_compute; reflexivity).
  destruct (unlinkReplica_crash_safe (H := asciiFolding) idHash (fun t => t) 1 9 helloGone keptWorld unlinkHello.2 unlinkHello.1
    (wd_tree unlinkHello.2) (wd_store unlinkHello.2) (recommit helloGone unlinkHello.2).2 1 (reopened unlinkHello.2)) as (w3 & R & I & _).
  - reflexivity.
  - reflexivity.
  - unfold unlinkHello. destruct (unlinkReplica _ _ _). reflexivity.
  - apply restarted_visible.
  - vm_compute. reflexivity.
  - unfold recommit in *. destruct (PutRemote 9 (without_DeletedAt helloGone) (wd_store unlinkHello.2)) as [r s']. cbn in *. rewrite E. reflexivity.
  - exists w3. split; [exact R|exact I].
Defined.
