(* ===== verification/Heap.v ===== *)
(** * Package container/heap

    The binary heap the S3 listing keeps its candidates in: Go's [up], [down], [Push] and [Pop]
    on a slice, for any [Less]. The first element is one no other is less than. *)

From S2P Require Import Prelude.

Section Heap.
Context {A : Type} (less : A -> A -> bool).

(** [h.Swap(i, j)] *)
Definition Swap (i j : nat) (h : list A) : list A :=
  match h !! i, h !! j with
  | Some x, Some y => <[i := y]> (<[j := x]> h)
  | _, _ => h
  end.

(** [h.Less(i, j)] *)
Definition Less (h : list A) (i j : nat) : bool :=
  match h !! i, h !! j with Some x, Some y => less x y | _, _ => false end.

(** [up(h, j)]: the index at least halves. *)
Fixpoint up (fuel : nat) (h : list A) (j : nat) : list A :=
  match fuel with
  | O => h
  | S fuel =>
      let i := ((j - 1) / 2)%nat in
      if (i =? j)%nat || negb (Less h j i) then h else up fuel (Swap i j h) i
  end.

(** [down(h, i, n)]: the index at least doubles. *)
Fixpoint down (fuel : nat) (h : list A) (i n : nat) : list A :=
  match fuel with
  | O => h
  | S fuel =>
      let j1 := (2 * i + 1)%nat in
      if (n <=? j1)%nat then h
      else
        let j2 := (j1 + 1)%nat in
        let j := if (j2 <? n)%nat && Less h j2 j1 then j2 else j1 in
        if negb (Less h j i) then h else down fuel (Swap i j h) j n
  end.

(** [heap.Push(h, x)] *)
Definition Push (h : list A) (x : A) : list A :=
  let h := (h ++ [x])%list in
  up (length h) h (length h - 1).

(** [heap.Pop(h)]: the root, which [down] leaves last. *)
Definition Pop (h : list A) : option (A * list A) :=
  let n := (length h - 1)%nat in
  let h := down (length h) (Swap 0 n h) 0 n in
  match h !! n with Some x => Some (x, take n h) | None => None end.

(** ** Facts *)

(** [x] may stand above [y]. *)
Definition above (h : list A) (p c : nat) : Prop :=
  forall x y, h !! p = Some x -> h !! c = Some y -> less y x = false.

Definition parent (c : nat) : nat := ((c - 1) / 2)%nat.

(** Each of the first [n] elements is below its parent. *)
Definition heaped (n : nat) (h : list A) : Prop :=
  forall c, (0 < c < n)%nat -> above h (parent c) c.

(** [Less] is a strict weak order. *)
Context (less_asym : forall x y, less x y = true -> less y x = false).
Context (less_neg_trans : forall x y z, less y x = false -> less z y = false -> less z x = false).

Lemma lookup_Swap i j h x y k : h !! i = Some x -> h !! j = Some y ->
  Swap i j h !! k = if decide (k = i) then Some y else if decide (k = j) then Some x else h !! k.
Proof.
  intros Hi Hj. unfold Swap. rewrite Hi, Hj. destruct (decide (k = i)) as [-> |].
  { apply list_lookup_insert_eq. rewrite length_insert. eauto using lookup_lt_Some. }
  rewrite list_lookup_insert_ne by done. destruct (decide (k = j)) as [-> |].
  - apply list_lookup_insert_eq. eauto using lookup_lt_Some.
  - by rewrite list_lookup_insert_ne by done.
Qed.

Lemma length_Swap i j h : length (Swap i j h) = length h.
Proof. unfold Swap. destruct (h !! i), (h !! j); by rewrite ?length_insert. Qed.

Lemma Swap_Permutation i j h : Swap i j h ≡ₚ h.
Proof.
  unfold Swap. destruct (h !! i) as [x|] eqn:Ei; [|done]. destruct (h !! j) as [y|] eqn:Ej; [|done].
  by apply Permutation_insert_swap.
Qed.

Lemma Less_true h i j : Less h i j = true -> exists x y, h !! i = Some x /\ h !! j = Some y /\ less x y = true.
Proof. unfold Less. destruct (h !! i) as [x|], (h !! j) as [y|]; intros E; try discriminate E. by exists x, y. Qed.

Lemma Less_false h i j : Less h i j = false -> above h j i.
Proof. unfold Less. intros E x y Hx Hy. by rewrite Hx, Hy in E. Qed.

Lemma above_trans h a b c : is_Some (h !! b) -> above h a b -> above h b c -> above h a c.
Proof. intros [y Hy] H1 H2 x z Hx Hz. eauto. Qed.

Lemma up_Permutation fuel h j : up fuel h j ≡ₚ h.
Proof.
  revert h j. induction fuel as [|fuel IH]; intros h j; cbn [up]; [done|].
  destruct (_ || _); [done|]. by rewrite IH, Swap_Permutation.
Qed.

Lemma down_Permutation fuel h i n : down fuel h i n ≡ₚ h.
Proof.
  revert h i. induction fuel as [|fuel IH]; intros h i; cbn [down]; [done|].
  destruct (n <=? _)%nat; [done|]. destruct (negb _); [done|]. by rewrite IH, Swap_Permutation.
Qed.

Lemma parent_lt c : (0 < c)%nat -> (parent c < c)%nat.
Proof. unfold parent. intros H. pose proof (Nat.Div0.div_le_upper_bound (c - 1) 2 (c - 1)). lia. Qed.

Lemma parent_child c i : (0 < c)%nat -> parent c = i -> c = (2 * i + 1)%nat \/ c = (2 * i + 2)%nat.
Proof. unfold parent. intros Hc Hp. pose proof (Nat.div_mod_eq (c - 1) 2). pose proof (Nat.mod_upper_bound (c - 1) 2). lia. Qed.

Lemma parent_left i : parent (2 * i + 1) = i.
Proof. unfold parent. rewrite Nat.add_sub, Nat.mul_comm. by apply Nat.div_mul. Qed.
Lemma parent_right i : parent (2 * i + 1 + 1) = i.
Proof. unfold parent. rewrite Nat.add_sub, Nat.mul_comm, Nat.div_add_l by lia. change (1 / 2)%nat with 0%nat. lia. Qed.

(** A heap but for the element [j] on its way up: the children of [j] are below its parent. *)
Definition rising (j n : nat) (h : list A) : Prop :=
  (forall c, (0 < c < n)%nat -> c <> j -> above h (parent c) c) /\
  (forall c, (0 < c < n)%nat -> (0 < j)%nat -> parent c = j -> above h (parent j) c).

(** A heap but for the element [i] on its way down: its children are below its parent. *)
Definition sinking (i n : nat) (h : list A) : Prop :=
  (forall c, (0 < c < n)%nat -> parent c <> i -> above h (parent c) c) /\
  (forall c, (0 < c < n)%nat -> (0 < i)%nat -> parent c = i -> above h (parent i) c).

Lemma rising_step h j n x y : (0 < j < n)%nat -> h !! j = Some y -> h !! parent j = Some x -> less y x = true ->
  rising j n h -> rising (parent j) n (Swap (parent j) j h).
Proof.
  intros Hj Ey Ex Hl [H1 H2]. pose proof (parent_lt j ltac:(lia)) as Hp. pose proof (less_asym _ _ Hl) as Hl'. split.
  - intros c Hc Hne u v. pose proof (parent_lt c ltac:(lia)). rewrite !(lookup_Swap (parent j) j h x y) by done.
    destruct (decide (c = parent j)); [done|]. destruct (decide (parent c = parent j)) as [Ec|Ec]; [intros [= <-]|destruct (decide (parent c = j)) as [Ec'|]; [intros [= <-]|]].
    + destruct (decide (c = j)); [by intros [= <-]|]. intros Hv. apply (less_neg_trans y x v Hl'). apply (H1 c); [lia|done|by rewrite Ec|done].
    + destruct (decide (c = j)); [lia|]. intros Hv. by apply (H2 c ltac:(lia) ltac:(lia) Ec').
    + destruct (decide (c = j)) as [-> |]; [done|]. by apply (H1 c).
  - intros c Hc Hpos Hpc u v. pose proof (parent_lt (parent j) Hpos). pose proof (parent_lt c ltac:(lia)).
    rewrite !(lookup_Swap (parent j) j h x y) by done. destruct (decide (parent (parent j) = parent j)); [lia|].
    destruct (decide (parent (parent j) = j)); [lia|]. intros Hu. assert (less x u = false) by (apply (H1 (parent j)); [lia|lia|done|done]).
    destruct (decide (c = parent j)); [lia|]. destruct (decide (c = j)); [by intros [= <-]|].
    intros Hv. apply (less_neg_trans u x v); [done|]. apply (H1 c); [lia|done|by rewrite Hpc|done].
Qed.

Lemma up_heaped fuel h j n : (j < fuel)%nat -> (j < n)%nat -> rising j n h -> heaped n (up fuel h j).
Proof.
  revert h j. induction fuel as [|fuel IH]; intros h j Hf Hn Hr; [lia|]. cbn [up]. fold (parent j).
  destruct ((parent j =? j)%nat || negb (Less h j (parent j))) eqn:E.
  - intros c Hc. destruct Hr as [H1 _]. destruct (decide (c = j)) as [-> |]; [|by apply H1].
    apply orb_true_iff in E as [E|E]; [apply Nat.eqb_eq in E; pose proof (parent_lt j); lia|].
    apply Less_false. by apply negb_true_iff in E.
  - apply orb_false_iff in E as [E1 E2]. apply Nat.eqb_neq in E1. apply negb_false_iff, Less_true in E2 as (y & x & Ey & Ex & Hl).
    assert (0 < j)%nat by (destruct j; [by cbn in E1|lia]). pose proof (parent_lt j ltac:(lia)).
    apply IH; [lia|lia|]. by eapply rising_step; [lia|..].
Qed.

Lemma sinking_step h i j n x y : (i < j < n)%nat -> parent j = i -> h !! i = Some x -> h !! j = Some y -> less y x = true ->
  (forall c, (0 < c < n)%nat -> parent c = i -> above h j c) -> sinking i n h -> sinking j n (Swap i j h).
Proof.
  intros Hj Hp Ex Ey Hl Hmin [H1 H2]. pose proof (less_asym _ _ Hl) as Hl'. split.
  - intros c Hc Hne u v. pose proof (parent_lt c ltac:(lia)). rewrite !(lookup_Swap i j h x y) by done.
    destruct (decide (parent c = j)); [done|]. destruct (decide (parent c = i)) as [Ec|Ec]; [intros [= <-]|intros Hu].
    + destruct (decide (c = i)); [lia|]. destruct (decide (c = j)); [by intros [= <-]|]. intros Hv. by apply (Hmin c ltac:(lia) Ec).
    + destruct (decide (c = i)) as [-> |]; [intros [= <-]; apply (H2 j ltac:(lia) ltac:(lia) Hp); done|].
      destruct (decide (c = j)) as [-> |]; [done|]. by apply (H1 c).
  - intros c Hc Hpos Hpc u v. pose proof (parent_lt c ltac:(lia)). rewrite !(lookup_Swap i j h x y) by done. rewrite Hp.
    destruct (decide (i = i)); [|done]. intros [= <-]. destruct (decide (c = i)); [lia|]. destruct (decide (c = j)); [lia|].
    intros Hv. apply (H1 c ltac:(lia)); [lia|by rewrite Hpc|done].
Qed.

Lemma above_refl h k : above h k k.
Proof. intros a b Ha Hb. rewrite Ha in Hb. injection Hb as <-. destruct (less a a) eqn:E; [|done]. by rewrite (less_asym _ _ E) in E. Qed.

Definition lesser_child (h : list A) (i n : nat) : nat :=
  let j1 := (2 * i + 1)%nat in
  let j2 := (j1 + 1)%nat in
  if (j2 <? n)%nat && Less h j2 j1 then j2 else j1.

Lemma lesser_child_spec h i n (j := lesser_child h i n) : (2 * i + 1 < n <= length h)%nat ->
  (i < j < n)%nat /\ parent j = i /\ (forall c, (0 < c < n)%nat -> parent c = i -> above h j c).
Proof.
  intros Hn. subst j. unfold lesser_child. destruct (2 * i + 1 + 1 <? n)%nat eqn:E2; cbn [andb].
  - apply Nat.ltb_lt in E2. destruct (Less h (2 * i + 1 + 1) (2 * i + 1)) eqn:El.
    + split; [lia|]. split; [apply parent_right|]. intros c Hc Hpc. destruct (parent_child c i ltac:(lia) Hpc) as [-> | ->].
      * apply Less_true in El as (a & b & Ha & Hb & El). intros a' b' Ha' Hb'. simplify_eq. by apply less_asym.
      * replace (2 * i + 2)%nat with (2 * i + 1 + 1)%nat by lia. apply above_refl.
    + split; [lia|]. split; [apply parent_left|]. intros c Hc Hpc. destruct (parent_child c i ltac:(lia) Hpc) as [-> | ->]; [apply above_refl|].
      apply Less_false. by replace (2 * i + 2)%nat with (2 * i + 1 + 1)%nat by lia.
  - apply Nat.ltb_ge in E2. split; [lia|]. split; [apply parent_left|]. intros c Hc Hpc.
    destruct (parent_child c i ltac:(lia) Hpc) as [-> | ->]; [apply above_refl|lia].
Qed.

Lemma down_heaped fuel h i n : (n - i <= fuel)%nat -> (i < n <= length h)%nat -> sinking i n h -> heaped n (down fuel h i n).
Proof.
  revert h i. induction fuel as [|fuel IH]; intros h i Hf Hn Hs; [lia|]. cbn [down].
  destruct (n <=? 2 * i + 1)%nat eqn:En.
  { apply Nat.leb_le in En. intros c Hc. destruct Hs as [H1 _]. apply H1; [done|]. intros Hp. apply (parent_child c i) in Hp; lia. }
  apply Nat.leb_gt in En. fold (lesser_child h i n). destruct (lesser_child_spec h i n) as (Hj & Hp & Hmin); [lia|].
  set (j := lesser_child h i n) in *. destruct (negb (Less h j i)) eqn:El.
  - apply negb_true_iff, Less_false in El. intros c Hc. destruct (decide (parent c = i)) as [Ec|Ec]; [|by apply Hs].
    destruct (lookup_lt_is_Some_2 h j) as [y Hy]; [lia|]. rewrite Ec. by apply (above_trans h i j c); [exists y|done|apply Hmin].
  - apply negb_false_iff, Less_true in El as (y & x & Ey & Ex & Hl). apply IH; [lia|rewrite length_Swap; lia|].
    by eapply sinking_step; [done|..].
Qed.

Lemma down_beyond fuel h i n k : (n <= k)%nat -> (i < n \/ n = 0)%nat -> down fuel h i n !! k = h !! k.
Proof.
  revert h i. induction fuel as [|fuel IH]; intros h i Hk Hi; cbn [down]; [done|].
  destruct (n <=? 2 * i + 1)%nat eqn:En; [done|]. apply Nat.leb_gt in En. fold (lesser_child h i n).
  destruct (negb _) eqn:El; [done|]. apply negb_false_iff, Less_true in El as (y & x & Ey & Ex & Hl).
  assert (lesser_child h i n < n)%nat by (unfold lesser_child; destruct (2 * i + 1 + 1 <? n)%nat eqn:E2; [apply Nat.ltb_lt in E2|]; cbn [andb]; [destruct (Less _ _ _)|]; lia).
  rewrite IH by lia. rewrite (lookup_Swap i _ h x y) by done. destruct (decide (k = i)); [lia|]. by destruct (decide (k = _)); [lia|].
Qed.

(** The root of a heap: no element is less. *)
Lemma heaped_root h x y : heaped (length h) h -> h !! 0%nat = Some x -> y ∈ h -> less y x = false.
Proof.
  intros Hh Hx Hy. apply list_elem_of_lookup in Hy as [k Hk]. revert y Hk. induction k as [k IH] using lt_wf_ind. intros y Hk.
  destruct (decide (k = O)) as [-> |Hk0]; [by apply (above_refl h 0)|]. pose proof (lookup_lt_Some _ _ _ Hk). pose proof (parent_lt k ltac:(lia)).
  destruct (lookup_lt_is_Some_2 h (parent k)) as [z Hz]; [lia|]. apply (less_neg_trans x z y); [by apply (IH (parent k))|].
  by apply (Hh k ltac:(lia)).
Qed.

(** [heap.Push] keeps a heap and adds the element. *)
Lemma Push_spec h x : heaped (length h) h -> heaped (length (Push h x)) (Push h x) /\ Push h x ≡ₚ x :: h.
Proof.
  intros Hh. unfold Push. set (h' := (h ++ [x])%list). assert (length h' = S (length h)) as El by (subst h'; rewrite length_app; cbn; lia).
  assert (up (length h') h' (length h' - 1) ≡ₚ x :: h) as Hp.
  { rewrite up_Permutation. subst h'. by rewrite <- Permutation_cons_append. }
  split; [|done]. rewrite (Permutation_length Hp). cbn [length]. apply up_heaped; [lia|lia|]. split.
  - intros c Hc Hne u v. pose proof (parent_lt c ltac:(lia)). subst h'. rewrite !lookup_app_l by lia. intros Hu Hv. by apply (Hh c ltac:(lia)).
  - intros c Hc Hj Hpc. exfalso. pose proof (parent_lt c ltac:(lia)). lia.
Qed.

(** [heap.Pop] takes an element no other is less than, and keeps a heap of the others. *)
Lemma Pop_spec h : heaped (length h) h -> h <> [] ->
  exists x h', Pop h = Some (x, h') /\ h ≡ₚ x :: h' /\ heaped (length h') h' /\ h !! 0%nat = Some x.
Proof.
  intros Hh Hne. destruct h as [|x0 tl] eqn:Eh; [done|]. rewrite <- Eh in *. unfold Pop. set (n := (length h - 1)%nat).
  assert (length h = S n) as El by (subst n h; cbn; lia). destruct (lookup_lt_is_Some_2 h n) as [z Hz]; [lia|].
  assert (h !! 0%nat = Some x0) as H0 by (by subst h). set (d := down (length h) (Swap 0 n h) 0 n).
  assert (d ≡ₚ h) as Hp by (subst d; by rewrite down_Permutation, Swap_Permutation).
  assert (length d = S n) as Eld by (by rewrite Hp).
  assert (d !! n = Some x0) as Hd.
  { subst d. rewrite down_beyond by lia. rewrite (lookup_Swap 0 n h x0 z) by done. destruct (decide (n = 0%nat)) as [E|]; [rewrite E in Hz; congruence|]. by destruct (decide (n = n)). }
  rewrite Hd. exists x0, (take n d). split; [done|]. split; [|split; [|done]].
  - rewrite <- Hp at 1. rewrite <- (take_drop n d) at 1. rewrite (drop_S d x0 n Hd), drop_ge by lia. by rewrite <- Permutation_cons_append.
  - rewrite length_take, Eld, Nat.min_l by lia. destruct (decide (n = 0%nat)) as [E|Hn]; [intros c Hc; lia|].
    assert (heaped n d) as Hhd.
    { apply down_heaped; [lia|rewrite length_Swap; lia|]. split; [|intros; lia].
      intros c Hc Hpc u v. rewrite !(lookup_Swap 0 n h x0 z) by done. pose proof (parent_lt c ltac:(lia)).
      repeat (destruct (decide _); [lia|]). intros Hu Hv. by apply (Hh c ltac:(lia)). }
    intros c Hc u v. pose proof (parent_lt c ltac:(lia)). rewrite !lookup_take_lt by lia. intros Hu Hv. by apply (Hhd c Hc).
Qed.
End Heap.
