(* ===== verification/Runes.v ===== *)
(** * UTF-8 text and the end of a prefix

    Go's conversion between strings and runes, and [prefixEnd] of internal/gateway/s3/catalog.go:
    the upper bound that turns a prefix into a range of names. *)

From S2P Require Import Prelude GoStrings.

(** ** Runes *)

(** One character of UTF-8: its code and the text after it. A byte that starts none is
    [utf8.RuneError]. *)
Definition RuneError : Z := 65533.
Definition tailBits (c : ascii) : Z := byte_val c - 128.
Definition decodeRune (c0 : ascii) (s1 : string) : Z * string :=
  let b0 := byte_val c0 in
  match s1 with
  | _ =>
      if byte_in 0 127 c0 then (b0, s1)
      else match s1 with
      | String c1 s2 =>
          if byte_in 194 223 c0 && cont c1 then ((b0 - 192) * 64 + tailBits c1, s2)
          else match s2 with
          | String c2 s3 =>
              let lo := if b0 =? 224 then 160 else 128 in
              let hi := if b0 =? 237 then 159 else 191 in
              if byte_in 224 239 c0 && byte_in lo hi c1 && cont c2 then
                ((b0 - 224) * 4096 + tailBits c1 * 64 + tailBits c2, s3)
              else match s3 with
              | String c3 s4 =>
                  let lo := if b0 =? 240 then 144 else 128 in
                  let hi := if b0 =? 244 then 143 else 191 in
                  if byte_in 240 244 c0 && byte_in lo hi c1 && cont c2 && cont c3 then
                    ((b0 - 240) * 262144 + tailBits c1 * 4096 + tailBits c2 * 64 + tailBits c3, s4)
                  else (RuneError, s1)
              | _ => (RuneError, s1)
              end
          | _ => (RuneError, s1)
          end
      | _ => (RuneError, s1)
      end
  end.

(** [[]rune(s)]; every step takes a byte, so the length is enough fuel. *)
Fixpoint runes_go (fuel : nat) (s : string) : list Z :=
  match fuel, s with
  | S fuel, String c s' => let '(r, rest) := decodeRune c s' in r :: runes_go fuel rest
  | _, _ => []
  end.
Definition runes (s : string) : list Z := runes_go (String.length s) s.

(** [string(runes)] *)
Definition byteOf (n : Z) : ascii := Ascii.ascii_of_N (Z.to_N n).
Definition scalar (r : Z) : bool := (0 <=? r) && (r <=? 1114111) && negb ((55296 <=? r) && (r <=? 57343)).
Definition encodeRune (r : Z) : string :=
  let r := if scalar r then r else RuneError in
  if r <? 128 then str1 (byteOf r)
  else if r <? 2048 then String (byteOf (192 + r / 64)) (str1 (byteOf (128 + r mod 64)))
  else if r <? 65536 then
    String (byteOf (224 + r / 4096)) (String (byteOf (128 + r / 64 mod 64)) (str1 (byteOf (128 + r mod 64))))
  else
    String (byteOf (240 + r / 262144)) (String (byteOf (128 + r / 4096 mod 64))
      (String (byteOf (128 + r / 64 mod 64)) (str1 (byteOf (128 + r mod 64))))).
Fixpoint encodeRunes (l : list Z) : string :=
  match l with [] => "" | r :: l => encodeRune r +:+ encodeRunes l end.

Definition MaxRune : Z := 1114111.

(** [func prefixEnd(prefix string) string]: the loop runs from the last rune down. *)
Fixpoint prefixEnd_loop (reversed : list Z) : string :=
  match reversed with
  | [] => ""
  | r :: before =>
      if r =? MaxRune then prefixEnd_loop before
      else
        let r := r + 1 in
        let r := if r =? 55296 then 57344 else r in
        encodeRunes (rev before ++ [r])%list
  end.
Definition prefixEnd (prefix : string) : string := prefixEnd_loop (rev (runes prefix)).


(** ** The order of strings *)

Lemma ltb_irrefl s : (s <s s) = false.
Proof. unfold String.ltb. by rewrite (cmp_refl String.compare). Qed.

Lemma ltb_trans a b c : (a <s b) = true -> (b <s c) = true -> (a <s c) = true.
Proof. rewrite !string_ltb_spec. intros H1 H2. apply (cmp_Lt_le_trans String.compare a b c H1). by rewrite H2. Qed.

Lemma leb_ltb a b : (a <=s b) = negb (b <s a).
Proof. unfold String.leb, String.ltb. rewrite (cmp_opp (c:=String.compare) a b). by destruct (String.compare a b). Qed.

Lemma ltb_total a b : a <> b -> (a <s b) = true \/ (b <s a) = true.
Proof.
  unfold String.ltb. rewrite (cmp_opp (c:=String.compare) a b). destruct (String.compare a b) eqn:E; cbn; [|auto|auto].
  apply String.compare_eq_iff in E. done.
Qed.

Lemma ltb_asym a b : (a <s b) = true -> (b <s a) = false.
Proof. intros H. destruct (b <s a) eqn:E; [|done]. by rewrite <- (ltb_irrefl a), (ltb_trans a b a). Qed.

Lemma ltb_empty s : s <> "" -> ("" <s s) = true.
Proof. by destruct s. Qed.

(** ** Bytes of a character *)

Ltac euclid := Z.to_euclidean_division_equations; lia.

Lemma byte_in_spec lo hi c : byte_in lo hi c = true <-> lo <= byte_val c <= hi.
Proof. unfold byte_in. rewrite andb_true_iff, !Z.leb_le. done. Qed.
Lemma byte_in_false lo hi c : byte_in lo hi c = false <-> ~ (lo <= byte_val c <= hi).
Proof. rewrite <- byte_in_spec. by destruct (byte_in lo hi c). Qed.

Lemma byte_val_range c : 0 <= byte_val c < 256.
Proof. unfold byte_val. pose proof (N_ascii_bounded c). lia. Qed.
Lemma byteOf_val n : 0 <= n < 256 -> byte_val (byteOf n) = n.
Proof. intros H. unfold byte_val, byteOf. rewrite N_ascii_embedding by lia. lia. Qed.
Lemma byteOf_byte_val c : byteOf (byte_val c) = c.
Proof. unfold byteOf, byte_val. rewrite N2Z.id. apply ascii_N_embedding. Qed.

Lemma ltb_bytes a s b t : (String a s <s String b t) = (byte_val a <? byte_val b) || ((byte_val a =? byte_val b) && (s <s t)).
Proof.
  unfold String.ltb, byte_val. cbn [String.compare]. unfold Ascii.compare.
  destruct (N.compare_spec (N_of_ascii a) (N_of_ascii b)) as [E|E|E].
  - rewrite E, Z.ltb_irrefl, Z.eqb_refl. done.
  - assert ((Z.of_N (N_of_ascii a) <? Z.of_N (N_of_ascii b)) = true) as -> by (apply Z.ltb_lt; lia). done.
  - assert ((Z.of_N (N_of_ascii a) <? Z.of_N (N_of_ascii b)) = false) as -> by (apply Z.ltb_ge; lia).
    assert ((Z.of_N (N_of_ascii a) =? Z.of_N (N_of_ascii b)) = false) as -> by (apply Z.eqb_neq; lia). done.
Qed.

Lemma ltb_less a s b t : byte_val a < byte_val b -> (String a s <s String b t) = true.
Proof. intros H. rewrite ltb_bytes. apply Z.ltb_lt in H. by rewrite H. Qed.
Lemma ltb_same a s t : (String a s <s String a t) = (s <s t).
Proof. by rewrite ltb_bytes, Z.ltb_irrefl, Z.eqb_refl. Qed.

Lemma scalar_spec r : scalar r = true <-> 0 <= r <= 1114111 /\ ~ (55296 <= r <= 57343).
Proof. unfold scalar. rewrite !andb_true_iff, negb_true_iff, andb_false_iff, !Z.leb_le, !Z.leb_gt. lia. Qed.

(** The four lengths of an encoding. *)
Lemma encodeRune_cases r : scalar r = true ->
  (r < 128 /\ encodeRune r = str1 (byteOf r)) \/
  (128 <= r < 2048 /\ encodeRune r = String (byteOf (192 + r / 64)) (str1 (byteOf (128 + r mod 64)))) \/
  (2048 <= r < 65536 /\ encodeRune r = String (byteOf (224 + r / 4096)) (String (byteOf (128 + r / 64 mod 64)) (str1 (byteOf (128 + r mod 64))))) \/
  (65536 <= r /\ encodeRune r = String (byteOf (240 + r / 262144)) (String (byteOf (128 + r / 4096 mod 64))
      (String (byteOf (128 + r / 64 mod 64)) (str1 (byteOf (128 + r mod 64)))))).
Proof.
  intros Hr. unfold encodeRune. rewrite Hr. destruct (r <? 128) eqn:E1; [left; apply Z.ltb_lt in E1; auto|]. apply Z.ltb_ge in E1.
  destruct (r <? 2048) eqn:E2; [right; left; apply Z.ltb_lt in E2; auto|]. apply Z.ltb_ge in E2.
  destruct (r <? 65536) eqn:E3; [right; right; left; apply Z.ltb_lt in E3; auto|]. apply Z.ltb_ge in E3. auto.
Qed.

(** A smaller character encodes to bytes that come first, whatever follows. *)
Ltac by_first := apply ltb_less; rewrite !byteOf_val by euclid; euclid.
Lemma ltb_head a b s t : 0 <= a <= b -> b < 256 -> (a = b -> (s <s t) = true) -> (String (byteOf a) s <s String (byteOf b) t) = true.
Proof.
  intros Hab Hb Hst. destruct (Z.eq_dec a b) as [<-|Hne]; [rewrite ltb_same; auto|]. apply ltb_less. rewrite !byteOf_val by lia. lia.
Qed.

Lemma encodeRune_lt r q t u : scalar r = true -> scalar q = true -> r < q -> (encodeRune r +:+ t <s encodeRune q +:+ u) = true.
Proof.
  intros Hr Hq Hlt. pose proof (proj1 (scalar_spec r) Hr) as [Br _]. pose proof (proj1 (scalar_spec q) Hq) as [Bq _].
  destruct (encodeRune_cases r Hr) as [[Rr ->]|[[Rr ->]|[[Rr ->]|[Rr ->]]]], (encodeRune_cases q Hq) as [[Rq ->]|[[Rq ->]|[[Rq ->]|[Rq ->]]]];
    try lia; cbn [String.append str1]; unfold str1; cbn [String.append]; try by_first.
  - apply ltb_head; [euclid|euclid|]. intros E. by_first.
  - apply ltb_head; [euclid|euclid|]. intros E1. apply ltb_head; [euclid|euclid|]. intros E2. by_first.
  - apply ltb_head; [euclid|euclid|]. intros E1. apply ltb_head; [euclid|euclid|]. intros E2. apply ltb_head; [euclid|euclid|]. intros E3. by_first.
Qed.

(** ** Valid text *)

Ltac byte_facts := repeat match goal with
  | H : _ && _ = true |- _ => apply andb_true_iff in H as [? ?]
  | H : byte_in _ _ _ = true |- _ => apply byte_in_spec in H
  | H : byte_in _ _ _ = false |- _ => apply byte_in_false in H
  | H : cont _ = true |- _ => apply byte_in_spec in H
  end.

Lemma ValidString_encode r t : scalar r = true -> ValidString (encodeRune r +:+ t) = ValidString t.
Proof.
  intros Hr. pose proof (proj1 (scalar_spec r) Hr) as [Br Bs].
  assert (forall lo hi n, 0 <= n < 256 -> lo <= n <= hi -> byte_in lo hi (byteOf n) = true) as Hin by (intros; apply byte_in_spec; by rewrite byteOf_val).
  assert (forall lo hi n, 0 <= n < 256 -> ~ (lo <= n <= hi) -> byte_in lo hi (byteOf n) = false) as Hout by (intros; apply byte_in_false; by rewrite byteOf_val).
  destruct (encodeRune_cases r Hr) as [[Rr ->]|[[Rr ->]|[[Rr ->]|[Rr ->]]]]; unfold str1; cbn [String.append ValidString]; unfold cont.
  - by rewrite Hin by lia.
  - rewrite Hout by euclid. rewrite !Hin by euclid. done.
  - rewrite (Hout 0 127), (Hout 194 223) by euclid. destruct (byte_in 224 224 _) eqn:E1; byte_facts; rewrite ?byteOf_val in E1 by euclid.
    + by rewrite !Hin by euclid.
    + destruct (byte_in 237 237 _) eqn:E2; byte_facts; rewrite ?byteOf_val in E2 by euclid; by rewrite !Hin by euclid.
  - rewrite (Hout 0 127), (Hout 194 223), (Hout 224 224), (Hout 237 237), (Hout 225 239) by euclid.
    destruct (byte_in 240 240 _) eqn:E1; byte_facts; rewrite ?byteOf_val in E1 by euclid; [by rewrite !Hin by euclid|].
    destruct (byte_in 241 243 _) eqn:E2; byte_facts; rewrite ?byteOf_val in E2 by euclid; [by rewrite !Hin by euclid|].
    by rewrite !Hin by euclid.
Qed.

(** [decodeRune] reads back a character. *)
Lemma decodeRune_encode r t c s : scalar r = true -> encodeRune r +:+ t = String c s -> decodeRune c s = (r, t).
Proof.
  intros Hr. pose proof (proj1 (scalar_spec r) Hr) as [Br Bs].
  assert (forall lo hi n, 0 <= n < 256 -> lo <= n <= hi -> byte_in lo hi (byteOf n) = true) as Hin by (intros; apply byte_in_spec; by rewrite byteOf_val).
  assert (forall lo hi n, 0 <= n < 256 -> ~ (lo <= n <= hi) -> byte_in lo hi (byteOf n) = false) as Hout by (intros; apply byte_in_false; by rewrite byteOf_val).
  destruct (encodeRune_cases r Hr) as [[Rr ->]|[[Rr ->]|[[Rr ->]|[Rr ->]]]]; unfold str1; cbn [String.append]; intros [= <- <-]; unfold decodeRune, tailBits, cont;
    rewrite !byteOf_val by euclid.
  - by rewrite Hin by lia.
  - rewrite Hout by euclid. rewrite !Hin by euclid. cbn [andb]. f_equal. euclid.
  - rewrite (Hout 0 127), (Hout 194 223) by euclid. cbn [andb]. rewrite (Hin 224 239), (Hin 128 191 (128 + r mod 64)) by euclid. rewrite Hin; [cbn [andb]; f_equal; euclid|euclid|].
    destruct (224 + r / 4096 =? 224) eqn:E1, (224 + r / 4096 =? 237) eqn:E2; rewrite ?Z.eqb_eq, ?Z.eqb_neq in E1, E2; euclid.
  - rewrite (Hout 0 127), (Hout 194 223), (Hout 224 239) by euclid. cbn [andb]. rewrite (Hin 240 244), (Hin 128 191 (128 + r mod 64)), (Hin 128 191 (128 + r / 64 mod 64)) by euclid.
    rewrite Hin; [cbn [andb]; f_equal; euclid|euclid|].
    destruct (240 + r / 262144 =? 240) eqn:E1, (240 + r / 262144 =? 244) eqn:E2; rewrite ?Z.eqb_eq, ?Z.eqb_neq in E1, E2; euclid.
Qed.

(** Valid text is empty or starts with a character. *)
Lemma valid_two c0 c1 (r := (byte_val c0 - 192) * 64 + tailBits c1) : 194 <= byte_val c0 <= 223 -> 128 <= byte_val c1 <= 191 ->
  scalar r = true /\ encodeRune r = String c0 (str1 c1).
Proof.
  intros H0 H1. unfold tailBits in *. assert (scalar r = true) as Hr by (apply scalar_spec; lia). split; [done|].
  destruct (encodeRune_cases r Hr) as [[Rr ->]|[[Rr ->]|[[Rr ->]|[Rr ->]]]]; try (exfalso; lia).
  assert (192 + r / 64 = byte_val c0) as -> by (subst r; euclid). assert (128 + r mod 64 = byte_val c1) as -> by (subst r; euclid). by rewrite !byteOf_byte_val.
Qed.
Lemma valid_three c0 c1 c2 (r := (byte_val c0 - 224) * 4096 + tailBits c1 * 64 + tailBits c2) : 224 <= byte_val c0 <= 239 -> 128 <= byte_val c1 <= 191 -> 128 <= byte_val c2 <= 191 ->
  (byte_val c0 = 224 -> 160 <= byte_val c1) -> (byte_val c0 = 237 -> byte_val c1 <= 159) -> scalar r = true /\ encodeRune r = String c0 (String c1 (str1 c2)).
Proof.
  intros H0 H1 H2 H3 H4. unfold tailBits in *. assert (scalar r = true) as Hr by (apply scalar_spec; lia). split; [done|].
  destruct (encodeRune_cases r Hr) as [[Rr ->]|[[Rr ->]|[[Rr ->]|[Rr ->]]]]; try (exfalso; lia).
  assert (224 + r / 4096 = byte_val c0) as -> by (subst r; euclid). assert (128 + r / 64 mod 64 = byte_val c1) as -> by (subst r; euclid).
  assert (128 + r mod 64 = byte_val c2) as -> by (subst r; euclid). by rewrite !byteOf_byte_val.
Qed.
Lemma valid_four c0 c1 c2 c3 (r := (byte_val c0 - 240) * 262144 + tailBits c1 * 4096 + tailBits c2 * 64 + tailBits c3) : 240 <= byte_val c0 <= 244 ->
  128 <= byte_val c1 <= 191 -> 128 <= byte_val c2 <= 191 -> 128 <= byte_val c3 <= 191 ->
  (byte_val c0 = 240 -> 144 <= byte_val c1) -> (byte_val c0 = 244 -> byte_val c1 <= 143) -> scalar r = true /\ encodeRune r = String c0 (String c1 (String c2 (str1 c3))).
Proof.
  intros H0 H1 H2 H3 H4 H5. unfold tailBits in *. assert (scalar r = true) as Hr by (apply scalar_spec; lia). split; [done|].
  destruct (encodeRune_cases r Hr) as [[Rr ->]|[[Rr ->]|[[Rr ->]|[Rr ->]]]]; try (exfalso; lia).
  assert (240 + r / 262144 = byte_val c0) as -> by (subst r; euclid). assert (128 + r / 4096 mod 64 = byte_val c1) as -> by (subst r; euclid).
  assert (128 + r / 64 mod 64 = byte_val c2) as -> by (subst r; euclid). assert (128 + r mod 64 = byte_val c3) as -> by (subst r; euclid). by rewrite !byteOf_byte_val.
Qed.

Lemma valid_split s : ValidString s = true -> s = "" \/ exists r t, scalar r = true /\ s = encodeRune r +:+ t.
Proof.
  destruct s as [|c0 s]; [by left|]. intros Hv. right. cbn [ValidString] in Hv. pose proof (byte_val_range c0).
  destruct (byte_in 0 127 c0) eqn:E0; byte_facts.
  { exists (byte_val c0), s. assert (scalar (byte_val c0) = true) as Hr by (apply scalar_spec; lia). split; [done|].
    destruct (encodeRune_cases _ Hr) as [[Rr ->]|[[Rr ->]|[[Rr ->]|[Rr ->]]]]; try (exfalso; lia). by rewrite byteOf_byte_val. }
  destruct s as [|c1 s]; [done|]. destruct (byte_in 194 223 c0) eqn:E1; byte_facts.
  { destruct (valid_two c0 c1) as [Hr E]; [done|done|]. by exists ((byte_val c0 - 192) * 64 + tailBits c1), s; rewrite E. }
  destruct s as [|c2 s]; [done|].
  assert (224 <= byte_val c0 <= 239 -> exists r t, scalar r = true /\ String c0 (String c1 (String c2 s)) = encodeRune r +:+ t) as H3.
  { intros Hc. destruct (valid_three c0 c1 c2) as [Hr E];
      [|..|by exists ((byte_val c0 - 224) * 4096 + tailBits c1 * 64 + tailBits c2), s; rewrite E]; try done;
      destruct (byte_in 224 224 c0) eqn:E2, (byte_in 237 237 c0) eqn:E3, (byte_in 225 239 c0) eqn:E4; byte_facts; lia. }
  destruct (decide (224 <= byte_val c0 <= 239)) as [Hc|Hc]; [by apply H3|].
  destruct (byte_in 224 224 c0) eqn:E2, (byte_in 237 237 c0) eqn:E3, (byte_in 225 239 c0) eqn:E4; byte_facts; try lia.
  destruct s as [|c3 s]; [done|].
  destruct (valid_four c0 c1 c2 c3) as [Hr E]; [..|by exists ((byte_val c0 - 240) * 262144 + tailBits c1 * 4096 + tailBits c2 * 64 + tailBits c3), s; rewrite E];
    destruct (byte_in 240 240 c0) eqn:E5, (byte_in 241 243 c0) eqn:E6, (byte_in 244 244 c0) eqn:E7; byte_facts; try done; lia.
Qed.

(** ** The end of a prefix *)

Lemma encodeRunes_app l m : encodeRunes (l ++ m) = encodeRunes l +:+ encodeRunes m.
Proof. induction l as [|r l IH]; [done|]. cbn [app encodeRunes]. by rewrite IH, string_app_assoc. Qed.

Lemma ValidString_encodeRunes l t : Forall (fun r => scalar r = true) l -> ValidString (encodeRunes l +:+ t) = ValidString t.
Proof. induction 1 as [|r l Hr _ IH]; [done|]. cbn [encodeRunes]. by rewrite string_app_assoc, ValidString_encode. Qed.

Lemma encodeRune_length r : scalar r = true -> (0 < String.length (encodeRune r))%nat.
Proof. intros Hr. destruct (encodeRune_cases r Hr) as [[_ ->]|[[_ ->]|[[_ ->]|[_ ->]]]]; cbn; lia. Qed.

Lemma runes_go_valid fuel s : (String.length s <= fuel)%nat -> ValidString s = true ->
  Forall (fun r => scalar r = true) (runes_go fuel s) /\ encodeRunes (runes_go fuel s) = s.
Proof.
  revert s. induction fuel as [|fuel IH]; intros s Hl Hv; [destruct s; [by split; [constructor|]|cbn in Hl; lia]|].
  destruct (valid_split s Hv) as [->|(r & t & Hr & ->)]; [by split; [constructor|]|]. rewrite ValidString_encode in Hv by done.
  rewrite string_length_app in Hl. pose proof (encodeRune_length r Hr). destruct (encodeRune r +:+ t) as [|c s] eqn:E; [by destruct (encodeRune r)|].
  cbn [runes_go]. rewrite (decodeRune_encode r t c s Hr E). destruct (IH t ltac:(lia) Hv) as [H1 H2]. split; [by constructor|]. cbn [encodeRunes]. by rewrite H2.
Qed.

Lemma runes_valid s : ValidString s = true -> Forall (fun r => scalar r = true) (runes s) /\ encodeRunes (runes s) = s.
Proof. by apply runes_go_valid. Qed.

Lemma ValidString_app a b : ValidString a = true -> ValidString (a +:+ b) = ValidString b.
Proof. intros Ha. destruct (runes_valid a Ha) as [H1 H2]. rewrite <- H2 at 1. by apply ValidString_encodeRunes. Qed.

(** The next character after [r]. *)
Definition succRune (r : Z) : Z := if r + 1 =? 55296 then 57344 else r + 1.
Lemma succRune_spec r : scalar r = true -> r <> MaxRune -> scalar (succRune r) = true /\ r < succRune r /\ forall q, scalar q = true -> r < q -> succRune r <= q.
Proof.
  intros Hr Hm. apply scalar_spec in Hr. unfold succRune, MaxRune in *. destruct (r + 1 =? 55296) eqn:E; rewrite ?Z.eqb_eq, ?Z.eqb_neq in E.
  - split; [apply scalar_spec; lia|]. split; [lia|]. intros q Hq%scalar_spec. lia.
  - split; [apply scalar_spec; lia|]. split; [lia|]. intros q Hq%scalar_spec. lia.
Qed.

Lemma prefixEnd_loop_spec l : (exists n, l = repeat MaxRune n) \/
  exists before r n, rev l = (before ++ r :: repeat MaxRune n)%list /\ r <> MaxRune /\ prefixEnd_loop l = encodeRunes (before ++ [succRune r]).
Proof.
  induction l as [|r l IH]; [by left; exists O|]. cbn [prefixEnd_loop]. destruct (r =? MaxRune) eqn:E.
  - apply Z.eqb_eq in E as ->. destruct IH as [[n ->]|(before & r & n & E1 & Hr & E2)]; [by left; exists (S n)|].
    right. exists before, r, (S n). split; [|done]. cbn [rev]. rewrite E1, <- app_assoc. cbn [app]. f_equal. f_equal. change [MaxRune] with (repeat MaxRune 1). by rewrite <- repeat_app, Nat.add_1_r.
  - apply Z.eqb_neq in E. right. by exists (rev l), r, O.
Qed.

(** What lies between two strings with a common start has it too. *)
Lemma between_common x a b s : (s <s x +:+ a) = false -> (s <s x +:+ b) = true -> exists t, s = x +:+ t.
Proof.
  revert s. induction x as [|c x IH]; intros s H1 H2; [by exists s|]. change (String c x +:+ a) with (String c (x +:+ a)) in H1.
  change (String c x +:+ b) with (String c (x +:+ b)) in H2. destruct s as [|d s]; [done|]. rewrite ltb_bytes in H1, H2.
  apply orb_false_iff in H1 as [H1 H1']. rewrite H1 in H2. cbn [orb] in H2. apply andb_true_iff in H2 as [Hc H2]. rewrite Hc in H1'. apply Z.eqb_eq in Hc.
  destruct (IH s H1' H2) as [t ->]. exists t. rewrite <- (byteOf_byte_val d), Hc, byteOf_byte_val. done.
Qed.

Lemma ltb_app x a b : (x +:+ a <s x +:+ b) = (a <s b).
Proof. unfold String.ltb. by rewrite compare_app. Qed.

Lemma max_prefix n t : ValidString t = true -> (t <s encodeRunes (repeat MaxRune n)) = false -> HasPrefix t (encodeRunes (repeat MaxRune n)) = true.
Proof.
  revert t. induction n as [|n IH]; intros t Hv Hlt; [by destruct t|]. cbn [repeat encodeRunes] in *. assert (scalar MaxRune = true) as Hm by done.
  destruct (valid_split t Hv) as [->|(q & u & Hq & ->)]; [vm_compute in Hlt; discriminate Hlt|].
  assert (q = MaxRune) as ->.
  { pose proof (proj1 (scalar_spec q) Hq). destruct (Z.eq_dec q MaxRune) as [|Hne]; [done|]. rewrite encodeRune_lt in Hlt by (done || unfold MaxRune in *; lia). done. }
  rewrite ltb_app in Hlt. rewrite ValidString_encode in Hv by done. destruct (proj1 (HasPrefix_spec _ _) (IH u Hv Hlt)) as [v Ev].
  apply HasPrefix_spec. exists v. by rewrite string_app_assoc, <- Ev.
Qed.

Lemma max_plain n : ContainsByte (encodeRunes (repeat MaxRune n)) "/" = false.
Proof. induction n as [|n IH]; [done|]. cbn [repeat encodeRunes]. by rewrite ContainsByte_app, IH. Qed.

Lemma prefixEnd_spec p : ValidString p = true -> ContainsByte p "/" = true ->
  exists x r n, p = x +:+ encodeRune r +:+ encodeRunes (repeat MaxRune n) /\ prefixEnd p = x +:+ encodeRune (succRune r) /\
    ValidString x = true /\ scalar r = true /\ r <> MaxRune.
Proof.
  intros Hv Hc. destruct (runes_valid p Hv) as [Hs He]. unfold prefixEnd.
  destruct (prefixEnd_loop_spec (rev (runes p))) as [[n E]|(before & r & n & E & Hr & ->)].
  - exfalso. assert (runes p = rev (repeat MaxRune n)) as Ep by (by rewrite <- E, rev_involutive).
    assert (forall m, rev (repeat MaxRune m) = repeat MaxRune m) as Hrev.
    { induction m as [|m IH]; [done|]. cbn [repeat rev]. rewrite IH. change [MaxRune] with (repeat MaxRune 1). by rewrite <- repeat_app, Nat.add_1_r. }
    rewrite Hrev in Ep. rewrite <- He, Ep, max_plain in Hc. done.
  - rewrite rev_involutive in E. rewrite E in He, Hs. apply Forall_app in Hs as [Hb Hs]. apply Forall_cons in Hs as [Hsr _].
    exists (encodeRunes before), r, n. split; [by rewrite <- He, encodeRunes_app|]. split; [by rewrite encodeRunes_app; cbn [encodeRunes]; rewrite string_app_nil_r|].
    split; [|done]. rewrite <- (string_app_nil_r (encodeRunes before)). by rewrite ValidString_encodeRunes.
Qed.

(** [prefixEnd] turns a prefix into a range of names: a valid name starts with the prefix
    exactly when it lies between the prefix and its end in byte order, whatever its characters,
    those next to the surrogates and the last ones of Unicode included. *)
Lemma prefixEnd_range (prefix s : string) :
  ValidString prefix = true -> ContainsByte prefix "/" = true -> ValidString s = true ->
  HasPrefix s prefix = (prefix <=s s) && (s <s prefixEnd prefix).
Proof.
  intros Hv Hc Hs. destruct (prefixEnd_spec prefix Hv Hc) as (x & r & n & -> & -> & Hx & Hr & Hm). destruct (succRune_spec r Hr Hm) as (Hsr & Hlt & Hnext).
  rewrite leb_ltb. apply Bool.eq_true_iff_eq. rewrite andb_true_iff, negb_true_iff. split.
  - intros [t ->]%HasPrefix_spec. rewrite !string_app_assoc, !ltb_app. split.
    2: { rewrite <- (string_app_nil_r (encodeRune (succRune r))). by apply encodeRune_lt. }
    rewrite <- (string_app_nil_r (encodeRunes (repeat MaxRune n))) at 2. rewrite ltb_app. by destruct t.
  - intros [H1 H2]. destruct (between_common x _ _ s H1 H2) as [u ->]. rewrite ltb_app in H1, H2. rewrite ValidString_app in Hs by done.
    destruct (valid_split u Hs) as [->|(q & t & Hq & ->)].
    { pose proof (encodeRune_length r Hr). destruct (encodeRune r); [cbn in *; lia|done]. }
    assert (q = r) as ->.
    { destruct (Z.lt_trichotomy q r) as [Hl|[?|Hl]]; [|done|]; exfalso; [by rewrite encodeRune_lt in H1|].
      specialize (Hnext q Hq Hl). destruct (Z.eq_dec q (succRune r)) as [->|Hne].
      - rewrite <- (string_app_nil_r (encodeRune (succRune r))) in H2 at 2. rewrite ltb_app in H2. by destruct t.
      - pose proof (encodeRune_lt (succRune r) q "" t Hsr Hq ltac:(lia)) as H3. rewrite string_app_nil_r in H3. by rewrite (ltb_asym _ _ H3) in H2. }
    rewrite ltb_app in H1. rewrite ValidString_encode in Hs by done. destruct (proj1 (HasPrefix_spec _ _) (max_prefix n t Hs H1)) as [v ->].
    apply HasPrefix_spec. exists v. by rewrite !string_app_assoc.
Qed.

(** The last character before the surrogates, and the last one of all. *)
Example prefixEnd_surrogates : prefixEnd ("b/" +:+ encodeRune 55295 +:+ encodeRune MaxRune) = "b/" +:+ encodeRune 57344.
Proof. by vm_compute. Qed.

(** Valid text found in valid text starts at a character. *)
Lemma valid_head d : ValidString d = true -> d <> "" -> exists c t, d = String c t /\ ~ (128 <= byte_val c <= 193).
Proof.
  intros Hd Hne. destruct (valid_split d Hd) as [->|(r & t & Hr & ->)]; [done|]. pose proof (proj1 (scalar_spec r) Hr) as [Br _].
  destruct (encodeRune_cases r Hr) as [[Rr ->]|[[Rr ->]|[[Rr ->]|[Rr ->]]]]; unfold str1; cbn [String.append]; do 2 eexists; (split; [reflexivity|]); rewrite byteOf_val; euclid.
Qed.

Lemma app_split a b c d : a +:+ b = c +:+ d -> (String.length a <= String.length c)%nat -> exists e, c = a +:+ e /\ b = e +:+ d.
Proof.
  revert c. induction a as [|x a IH]; intros c E Hl; [by exists c|]. destruct c as [|y c]; [cbn in Hl; lia|]. injection E as <- E.
  destruct (IH c E ltac:(cbn in Hl; lia)) as (e & -> & ->). by exists e.
Qed.

Lemma encode_tail r x c t y : scalar r = true -> encodeRune r = x +:+ String c t +:+ y -> x <> "" -> 128 <= byte_val c <= 191.
Proof.
  intros Hr E Hx. pose proof (proj1 (scalar_spec r) Hr) as [Br _]. change (String c t +:+ y) with (String c (t +:+ y)) in E. set (u := t +:+ y) in *. clearbody u.
  destruct (encodeRune_cases r Hr) as [[Rr E']|[[Rr E']|[[Rr E']|[Rr E']]]]; rewrite E' in E; unfold str1 in E; destruct x as [|c1 x]; try done;
    (destruct x as [|c2 x]; [cbn in E; first [discriminate E|injection E as; subst; rewrite byteOf_val; euclid]|]);
    (destruct x as [|c3 x]; [cbn in E; first [discriminate E|injection E as; subst; rewrite byteOf_val; euclid]|]);
    (destruct x as [|c4 x]; [cbn in E; first [discriminate E|injection E as; subst; rewrite byteOf_val; euclid]|]); cbn in E; try discriminate E.
  all: try (by destruct x).
Qed.

Lemma valid_between n s x d y : (String.length s <= n)%nat -> ValidString s = true -> s = x +:+ d +:+ y -> ValidString d = true -> d <> "" -> ValidString x = true.
Proof.
  revert s x. induction n as [|n IH]; intros s x Hn Hs Es Hd Hne; (destruct x as [|cx x]; [done|]); [destruct s; [done|cbn in Hn; lia]|].
  destruct (valid_split s Hs) as [->|(r & t & Hr & ->)]; [done|]. destruct (valid_head d Hd Hne) as (c & u & -> & Hc). pose proof (encodeRune_length r Hr).
  destruct (decide (String.length (encodeRune r) <= String.length (String cx x))%nat) as [Hle|Hgt].
  - destruct (app_split _ _ _ _ Es Hle) as (e & Ex & Et). rewrite Ex. rewrite ValidString_encode in * by done.
    apply (IH t e); [rewrite string_length_app in Hn; lia|done|done|done|done].
  - exfalso. destruct (app_split (String cx x) (String c u +:+ y) (encodeRune r) t) as (e & Ee & Eu); [done|lia|].
    destruct e as [|b e]; [rewrite string_app_nil_r in Ee; rewrite Ee in Hgt; lia|]. injection Eu as <- _.
    pose proof (encode_tail r (String cx x) c "" e Hr Ee ltac:(done)). lia.
Qed.
