(* ===== verification/Paging.v ===== *)
(** * Pages of an S3 listing

    [paginate] of internal/gateway/s3/handlers.go and the bounded set of candidates of listing.go:
    a page is a window of the keys in order. *)

From S2P Require Import Prelude GoStrings Database Heap Runes.

(** [sort.Search(n, f)]: binary search for the first index where [f] holds. *)
Fixpoint search_loop (fuel : nat) (f : nat -> bool) (i j : nat) : nat :=
  match fuel with
  | O => i
  | S fuel =>
      if (i <? j)%nat then
        let h := ((i + j) / 2)%nat in
        if negb (f h) then search_loop fuel f (h + 1)%nat j else search_loop fuel f i h
      else i
  end.
Definition Search (n : nat) (f : nat -> bool) : nat := search_loop n f 0 n.

(** ** Data *)

Record ObjectInfo := mkObject { ob_Key : string; ob_LastModified : string; ob_ETag : string; ob_Size : Z; ob_StorageClass : string }.
Definition noObject : ObjectInfo := mkObject "" "" "" 0 "".

(** [type listingItem struct]; also the items of [paginate]. *)
Record listingItem := mkItem { li_key : string; li_object : ObjectInfo; li_prefix : bool }.

(** [listingHeap.Less] *)
Definition lessItem (a b : listingItem) : bool := li_key b <s li_key a.

(** A page: objects, common prefixes, whether more follows, and the token to go on from. *)
Record Page := mkPage { pg_objects : list ObjectInfo; pg_prefixes : list string; pg_truncated : bool; pg_next : string }.

(** [func paginate(objects []ObjectInfo, commonPrefixes []string, startAfter string, maxKeys int)].
    [sort.Slice] is not stable, but the callers' keys are distinct. *)
Definition objectItem (o : ObjectInfo) : listingItem := mkItem (ob_Key o) o false.
Definition prefixItem (p : string) : listingItem := mkItem p noObject true.
Definition itemsOf (objects : list ObjectInfo) (commonPrefixes : list string) : list listingItem :=
  merge_sort (by_string li_key) (map objectItem objects ++ map prefixItem commonPrefixes)%list.
Definition paginate (objects : list ObjectInfo) (commonPrefixes : list string) (startAfter : string) (maxKeys : Z) : Page :=
  let items := itemsOf objects commonPrefixes in
  let items :=
    if negb (startAfter =s "") then
      drop (Search (length items) (fun i => match items !! i with Some it => startAfter <s li_key it | None => false end)) items
    else items in
  let isTruncated := maxKeys <? Z.of_nat (length items) in
  let items := if isTruncated then take (Z.to_nat maxKeys) items else items in
  let pageObjects := map li_object (List.filter (fun it => negb (li_prefix it)) items) in
  let pagePrefixes := map li_key (List.filter li_prefix items) in
  let nextToken :=
    if isTruncated && (0 <? Z.of_nat (length items)) then match last items with Some it => li_key it | None => "" end else "" in
  mkPage pageObjects pagePrefixes isTruncated nextToken.

(** ** The candidates of a page *)

(** The callback of [filesystemPage]: the candidates and the keys among them. *)
Definition candidate (after : string) (maxKeys : Z) (st : list listingItem * gset string) (item : listingItem) : list listingItem * gset string :=
  let '(candidates, present) := st in
  if (li_key item <=s after) || bool_decide (li_key item ∈ present) then st
  else
    let push candidates present := (Push lessItem candidates item, {[ li_key item ]} ∪ present) in
    if Z.of_nat (length candidates) =? maxKeys + 1 then
      match candidates with
      | [] => st
      | top :: _ =>
          if li_key top <=s li_key item then st
          else
            match Pop lessItem candidates with
            | None => st
            | Some (old, candidates) => push candidates (present ∖ {[ li_key old ]})
            end
      end
    else push candidates present.


(** ** The order of keys *)

Definition before (x y : listingItem) : Prop := (li_key x <s li_key y) = true.

Lemma lessItem_asym x y : lessItem x y = true -> lessItem y x = false.
Proof. apply ltb_asym. Qed.
Lemma lessItem_neg_trans x y z : lessItem y x = false -> lessItem z y = false -> lessItem z x = false.
Proof.
  unfold lessItem. intros H1 H2. destruct (li_key x <s li_key z) eqn:E; [|done].
  destruct (decide (li_key y = li_key z)) as [Ey|Hn]; [congruence|]. destruct (ltb_total _ _ Hn) as [H|H]; [congruence|].
  by rewrite (ltb_trans _ _ _ E H) in H1.
Qed.

#[export] Instance before_trans : Transitive before.
Proof. intros x y z. apply ltb_trans. Qed.

(** Distinct keys sort strictly, and there is one strictly sorted list of given elements. *)
Lemma sort_strict l : NoDup (map li_key l) -> StronglySorted before (merge_sort (by_string li_key) l).
Proof.
  intros Hn. pose proof (merge_sort_Permutation (by_string li_key) l) as Hp.
  assert (NoDup (map li_key (merge_sort (by_string li_key) l))) as Hn' by (by rewrite Hp).
  pose proof (StronglySorted_merge_sort (by_string li_key) l) as Hs. clear Hp. revert Hs Hn'.
  generalize (merge_sort (by_string li_key) l) as m. induction m as [|x m IH]; intros Hs Hm; [constructor|].
  cbn in Hm. apply NoDup_cons in Hm as [Hx Hm]. apply StronglySorted_inv in Hs as [Hs Hf]. constructor; [by apply IH|].
  rewrite !Forall_forall in *. intros y Hy. specialize (Hf y Hy). unfold before. unfold by_string in Hf.
  assert (li_key x <> li_key y) as Hne by (intros E; apply Hx; rewrite E; apply list_elem_of_In, in_map, list_elem_of_In; done).
  destruct (ltb_total _ _ Hne) as [H|H]; [done|]. apply Is_true_true in Hf. rewrite leb_ltb, H in Hf. done.
Qed.

Lemma strict_first (C F : list listingItem) k :
  StronglySorted before C -> StronglySorted before F -> (forall x, x ∈ C -> x ∈ F) -> (length C <= k)%nat ->
  (forall x, x ∈ F -> x ∈ C \/ (length C = k /\ forall y, y ∈ C -> before y x)) -> C = take k F.
Proof.
  revert C k. induction F as [|x F IH]; intros C k HC HF Hin Hk Hall.
  { rewrite take_nil. destruct C as [|y C]; [done|]. by specialize (Hin y ltac:(set_solver)); apply not_elem_of_nil in Hin. }
  apply StronglySorted_inv in HF as [HF Hx]. rewrite Forall_forall in Hx. destruct (Hall x ltac:(set_solver)) as [HxC|[Hl Hb]].
  - destruct C as [|y C]; [by apply not_elem_of_nil in HxC|]. apply StronglySorted_inv in HC as [HC Hy]. rewrite Forall_forall in Hy.
    assert (forall z, before z z -> False) as Hirr by (intros z Hz; unfold before in Hz; by rewrite ltb_irrefl in Hz).
    assert (y = x) as ->.
    { apply elem_of_cons in HxC as [->|HxC]; [done|]. destruct (proj1 (elem_of_cons F y x) (Hin y ltac:(set_solver))) as [->|HyF]; [done|].
      exfalso. apply (Hirr x). by apply (before_trans x y x); [apply Hx|apply Hy]. }
    destruct k as [|k]; [cbn in Hk; lia|]. cbn [take]. f_equal. apply IH; [done|done| |cbn in Hk; lia|].
    + intros z Hz. destruct (proj1 (elem_of_cons F z x) (Hin z ltac:(set_solver))) as [->|]; [|done]. exfalso. apply (Hirr x). by apply Hy.
    + intros z Hz. destruct (Hall z ltac:(set_solver)) as [HzC|[Hl Hb]].
      * apply elem_of_cons in HzC as [->|]; [|by left]. exfalso. apply (Hirr x). by apply Hx.
      * right. split; [cbn in Hl; lia|]. intros w Hw. apply Hb. set_solver.
  - destruct C as [|y C]; [cbn in Hl; by subst|]. exfalso.
    pose proof (Hb y ltac:(set_solver)) as Hyx. destruct (proj1 (elem_of_cons F y x) (Hin y ltac:(set_solver))) as [->|HyF].
    + unfold before in Hyx. by rewrite ltb_irrefl in Hyx.
    + pose proof (before_trans _ _ _ Hyx (Hx y HyF)) as H. unfold before in H. by rewrite ltb_irrefl in H.
Qed.

Lemma strict_unique (C F : list listingItem) :
  StronglySorted before C -> StronglySorted before F -> (forall x, x ∈ C <-> x ∈ F) -> C = F.
Proof.
  intros HC HF He. rewrite <- (firstn_all2 F (n:=length C + length F)) by lia.
  assert (forall n, (length C <= n)%nat -> C = take n F) as H; [|apply H; lia].
  intros n Hn. apply strict_first; [done|done|by intros x Hx; apply He|done|]. intros x Hx. left. by apply He.
Qed.

Lemma strict_filter (f : listingItem -> bool) F : StronglySorted before F -> StronglySorted before (List.filter f F).
Proof.
  induction 1 as [|x F HF IH Hx]; cbn; [constructor|]. destruct (f x); [|done]. constructor; [done|].
  rewrite !Forall_forall in *. intros y Hy. apply Hx. apply list_elem_of_In in Hy. apply filter_In in Hy as [Hy _]. by apply list_elem_of_In.
Qed.

Lemma filter_all {A} (f : A -> bool) l : (forall x, x ∈ l -> f x = true) -> List.filter f l = l.
Proof. induction l as [|x l IH]; intros H; [done|]. cbn. rewrite (H x) by set_solver. f_equal. apply IH. set_solver. Qed.

(** ** The bounded candidates are the first keys *)

Definition later (after : string) (it : listingItem) : bool := after <s li_key it.

(** Items of one key are the same item. *)
Definition consistent (l : list listingItem) : Prop := forall x y, x ∈ l -> y ∈ l -> li_key x = li_key y -> x = y.

Record kept (after : string) (k : nat) (l : list listingItem) (st : list listingItem * gset string) : Prop := mkKept {
  kept_heap : heaped lessItem (length st.1) st.1;
  kept_keys : NoDup (map li_key st.1);
  kept_present : forall key, key ∈ st.2 <-> key ∈ map li_key st.1;
  kept_from : forall x, x ∈ st.1 -> x ∈ l /\ later after x = true;
  kept_bound : (length st.1 <= k)%nat;
  kept_first : forall x, x ∈ l -> later after x = true -> x ∈ st.1 \/ (length st.1 = k /\ forall y, y ∈ st.1 -> before y x)
}.

Lemma kept_nil after k : kept after k [] ([], ∅).
Proof. split; cbn; try set_solver; [intros c Hc; lia|constructor|lia]. Qed.

Lemma elem_of_keys (x : listingItem) l : x ∈ l -> li_key x ∈ map li_key l.
Proof. intros H. by apply list_elem_of_In, in_map, list_elem_of_In. Qed.
Lemma keys_elem_of key (l : list listingItem) : key ∈ map li_key l -> exists x, x ∈ l /\ li_key x = key.
Proof. intros H. apply list_elem_of_In, in_map_iff in H as (x & <- & Hx). exists x. split; [by apply list_elem_of_In|done]. Qed.

Section Candidates.
Context (after : string) (m : Z) (Hm : 0 <= m).
Abbreviation k := (Z.to_nat (m + 1)).

(** An item that adds nothing to what the candidates say. *)
Lemma kept_skip l st item : kept after k l st -> (later after item = true -> item ∈ st.1 \/ (length st.1 = k /\ forall y, y ∈ st.1 -> before y item)) ->
  kept after k (l ++ [item]) st.
Proof.
  intros [H1 H2 H3 H4 H5 H6] Hi. split; try done; [intros x Hx; split; [apply elem_of_app; left|]; by apply H4|].
  intros x Hx Hl. apply elem_of_app in Hx as [Hx|Hx]; [by apply H6|]. apply list_elem_of_singleton in Hx as ->. by apply Hi.
Qed.

(** A new key, with room for it. *)
Lemma kept_push l st item : kept after k l st -> (length st.1 < k)%nat -> later after item = true -> li_key item ∉ st.2 ->
  kept after k (l ++ [item]) (Push lessItem st.1 item, {[ li_key item ]} ∪ st.2).
Proof.
  intros [H1 H2 H3 H4 H5 H6] Hlen Hl Hnew. destruct (Push_spec lessItem lessItem_asym lessItem_neg_trans st.1 item H1) as [Hh Hp].
  assert (forall x, x ∈ Push lessItem st.1 item <-> x = item \/ x ∈ st.1) as Hin by (intros x; rewrite Hp; apply elem_of_cons).
  split; cbn [fst snd]; [done|rewrite Hp; cbn; apply NoDup_cons; split; [by rewrite <- H3|done]| | |rewrite Hp; cbn; lia|].
  - intros key. rewrite Hp. cbn. rewrite elem_of_cons, elem_of_union, elem_of_singleton, H3. done.
  - intros x Hx. rewrite elem_of_app, list_elem_of_singleton. apply Hin in Hx as [->|Hx]; [by auto|]. destruct (H4 x Hx). auto.
  - intros x Hx Hlx. left. apply Hin. apply elem_of_app in Hx as [Hx|Hx]; [|apply list_elem_of_singleton in Hx; by left].
    destruct (H6 x Hx Hlx) as [?|[? _]]; [by right|lia].
Qed.

(** Whatever is in a full heap is before an item its top is not after. *)
Lemma kept_beyond l cs present top item : kept after k l (cs, present) -> cs !! 0%nat = Some top -> (li_key item <s li_key top) = false ->
  li_key item ∉ present -> forall y, y ∈ cs -> before y item.
Proof.
  intros Hk Htop Et Hp y Hy. pose proof (heaped_root lessItem lessItem_asym lessItem_neg_trans cs top y (kept_heap _ _ _ _ Hk) Htop Hy) as Hr.
  unfold lessItem in Hr. assert (li_key y <> li_key item) as Hne.
  { intros E. apply Hp, (kept_present _ _ _ _ Hk). rewrite <- E. by apply elem_of_keys. }
  destruct (ltb_total _ _ Hne) as [?|Hgt]; [done|]. exfalso.
  destruct (decide (li_key top = li_key item)) as [E|Hn]; [rewrite E in Hr; congruence|]. destruct (ltb_total _ _ Hn) as [H|H]; [|congruence].
  by rewrite (ltb_trans _ _ _ H Hgt) in Hr.
Qed.

(** A full heap gives up its top for an item before it. *)
Lemma kept_replace l cs present top item : kept after k l (cs, present) -> length cs = k -> cs !! 0%nat = Some top -> (li_key item <s li_key top) = true ->
  later after item = true -> li_key item ∉ present ->
  exists cs', Pop lessItem cs = Some (top, cs') /\ kept after k (l ++ [item]) (Push lessItem cs' item, {[ li_key item ]} ∪ present ∖ {[ li_key top ]}).
Proof.
  intros [H1 H2 H3 H4 H5 H6] Efull Htop Et Hl Hp. cbn [fst snd] in *.
  destruct (Pop_spec lessItem lessItem_asym lessItem_neg_trans cs H1) as (old & cs' & Epop & Hperm & Hh & Htop'); [by intros ->|].
  assert (old = top) as -> by congruence. exists cs'. split; [done|]. rewrite Hperm in H2. cbn in H2. apply NoDup_cons in H2 as [Hold H2].
  assert (length cs = S (length cs')) as Elen by (by rewrite Hperm).
  assert (forall x, x ∈ cs' -> before x top) as Hbelow.
  { intros y Hy. pose proof (heaped_root lessItem lessItem_asym lessItem_neg_trans cs top y H1 Htop ltac:(rewrite Hperm; set_solver)) as Hr. unfold lessItem in Hr.
    assert (li_key y <> li_key top) as Hne by (intros E; apply Hold; rewrite <- E; by apply elem_of_keys). destruct (ltb_total _ _ Hne) as [?|?]; [done|congruence]. }
  destruct (Push_spec lessItem lessItem_asym lessItem_neg_trans cs' item Hh) as [Hh' Hp'].
  assert (forall x, x ∈ Push lessItem cs' item <-> x = item \/ x ∈ cs') as Hin by (intros x; rewrite Hp'; apply elem_of_cons).
  assert (li_key item ∉ map li_key cs') as Hnew by (intros H; apply Hp, H3; rewrite Hperm; cbn; set_solver).
  split; cbn [fst snd]; [done|rewrite Hp'; cbn; by apply NoDup_cons| | |rewrite Hp'; cbn; lia|].
  - intros key. rewrite Hp'. cbn. rewrite elem_of_cons, elem_of_union, elem_of_difference, !elem_of_singleton, H3, Hperm. cbn. rewrite elem_of_cons.
    split; [tauto|]. intros [?|Hin']; [tauto|]. right. split; [tauto|]. by intros ->.
  - intros x Hx. rewrite elem_of_app, list_elem_of_singleton. apply Hin in Hx as [->|Hx]; [by auto|]. destruct (H4 x); [rewrite Hperm; set_solver|]. auto.
  - intros x Hx Hlx. assert (length (Push lessItem cs' item) = k) as Ek by (rewrite Hp'; cbn; lia). apply elem_of_app in Hx as [Hx|Hx].
    + assert (x ∈ cs' \/ before top x \/ x = top) as [Hx'|Hx'].
      { destruct (H6 x Hx Hlx) as [Hxc|[_ Hxb]]; [rewrite Hperm in Hxc; apply elem_of_cons in Hxc; tauto|]. right; left. apply Hxb. rewrite Hperm. set_solver. }
      { left. apply Hin. by right. }
      right. split; [done|]. intros y Hy. assert (before y top) as Hyt by (apply Hin in Hy as [->|Hy]; [done|by apply Hbelow]).
      destruct Hx' as [Hx'| ->]; [by apply (before_trans _ top)|done].
    + apply list_elem_of_singleton in Hx as ->. left. apply Hin. by left.
Qed.

Lemma candidate_kept l st item : consistent (l ++ [item]) -> kept after k l st -> kept after k (l ++ [item]) (candidate after m st item).
Proof.
  intros Hc Hk. destruct st as [cs present]. unfold candidate. rewrite leb_ltb. fold (later after item).
  destruct (later after item) eqn:Hl; cbn [negb orb]; [|apply (kept_skip l); [done|by rewrite Hl]].
  case_bool_decide as Hp.
  { apply kept_skip; [done|]. intros _. left. apply (kept_present _ _ _ _ Hk), keys_elem_of in Hp as (x & Hx & E).
    rewrite <- (Hc x item); [done| | |done]; apply elem_of_app; [left; by apply (kept_from _ _ _ _ Hk)|right; set_solver]. }
  pose proof (kept_bound _ _ _ _ Hk) as Hb. cbn [fst] in Hb. destruct (Z.of_nat (length cs) =? m + 1) eqn:En.
  - apply Z.eqb_eq in En. destruct cs as [|top tl] eqn:Ecs; [cbn in En; lia|]. rewrite <- Ecs in *.
    assert (cs !! 0%nat = Some top) as Htop by (by subst cs). rewrite leb_ltb. destruct (li_key item <s li_key top) eqn:Et; cbn [negb].
    + destruct (kept_replace l cs present top item) as (cs' & -> & Hk'); [done|lia|done..].
    + apply kept_skip; [done|]. intros _. right. split; [cbn; lia|]. by apply (kept_beyond l cs present top).
  - apply Z.eqb_neq in En. apply (kept_push l (cs, present)); [done|cbn; lia|done|done].
Qed.

Lemma candidates_kept l : consistent l -> kept after k l (fold_left (candidate after m) l ([], ∅)).
Proof.
  induction l as [|x l IH] using rev_ind; intros Hc; [apply kept_nil|]. rewrite fold_left_app. cbn [fold_left].
  apply candidate_kept; [done|]. apply IH. intros y z Hy Hz. apply Hc; set_solver.
Qed.

(** The candidates in order are the first [m + 1] later keys. *)
Lemma candidates_first l F : consistent l -> StronglySorted before F -> (forall x, x ∈ F <-> x ∈ l) ->
  merge_sort (by_string li_key) (fold_left (candidate after m) l ([], ∅)).1 = take k (List.filter (later after) F).
Proof.
  intros Hc HF He. destruct (candidates_kept l Hc) as [H1 H2 H3 H4 H5 H6]. set (st := fold_left _ _ _) in *.
  assert (forall x, x ∈ List.filter (later after) F <-> x ∈ l /\ later after x = true) as Hf.
  { intros x. rewrite !list_elem_of_In, filter_In, <- !list_elem_of_In, He. done. }
  pose proof (merge_sort_Permutation (by_string li_key) st.1) as Hp.
  apply strict_first; [by apply sort_strict|  |intros x; rewrite Hp, Hf; apply H4|by rewrite Hp|].
  - by apply strict_filter.
  - intros x Hx. apply Hf in Hx as [Hx Hl]. rewrite Hp. destruct (H6 x Hx Hl) as [?|[E Hb]]; [by left|]. right. split; [done|].
    intros y Hy. apply Hb. by rewrite <- Hp.
Qed.
End Candidates.

(** ** What [paginate] returns *)

(** The page of the items that are left after the start. *)
Definition pageOf (items : list listingItem) (maxKeys : Z) : Page :=
  let shown := take (Z.to_nat maxKeys) items in
  mkPage (map li_object (List.filter (fun it => negb (li_prefix it)) shown)) (map li_key (List.filter li_prefix shown))
    (maxKeys <? Z.of_nat (length items))
    (if maxKeys <? Z.of_nat (length items) then match last shown with Some it => li_key it | None => "" end else "").

Lemma search_loop_spec f n fuel i j : (j - i <= fuel)%nat -> (i <= j <= n)%nat ->
  (forall a b, (a <= b < n)%nat -> f a = true -> f b = true) -> (forall a, (a < i)%nat -> f a = false) -> (forall a, (j <= a < n)%nat -> f a = true) ->
  let r := search_loop fuel f i j in (r <= n)%nat /\ (forall a, (a < r)%nat -> f a = false) /\ (forall a, (r <= a < n)%nat -> f a = true).
Proof.
  revert i j. induction fuel as [|fuel IH]; intros i j Hf Hij Hmono Hlo Hhi; cbn [search_loop].
  { assert (i = j) as -> by lia. split; [lia|done]. }
  destruct (i <? j)%nat eqn:E; [|apply Nat.ltb_ge in E; assert (i = j) as -> by lia; split; [lia|done]].
  apply Nat.ltb_lt in E. set (h := ((i + j) / 2)%nat). assert (i <= h < j)%nat as Hh.
  { subst h. pose proof (Nat.div_mod_eq (i + j) 2). pose proof (Nat.mod_upper_bound (i + j) 2). lia. }
  destruct (f h) eqn:Ef; cbn [negb]; apply IH; try done; try lia.
  - intros a Ha. apply (Hmono h a); [lia|done].
  - intros a Ha. destruct (f a) eqn:Ea; [|done]. rewrite <- Ef. symmetry. apply (Hmono a h); [lia|done].
Qed.

Lemma later_drop after l n : (forall i it, l !! i = Some it -> later after it = bool_decide (n <= i)%nat) -> drop n l = List.filter (later after) l.
Proof.
  revert n. induction l as [|x l IH]; intros n Hl; [by rewrite drop_nil|]. cbn. pose proof (Hl O x eq_refl) as Hx. destruct n as [|n].
  - rewrite Hx. cbn. f_equal. rewrite <- (IH O); [by rewrite drop_0|]. intros i it Hi. rewrite (Hl (S i) it Hi). by rewrite !bool_decide_eq_true_2 by lia.
  - rewrite Hx. rewrite bool_decide_eq_false_2 by lia. cbn. apply IH. intros i it Hi. rewrite (Hl (S i) it Hi). apply bool_decide_ext. lia.
Qed.

Lemma later_all (l : list listingItem) : Forall (fun it => li_key it <> "") l -> List.filter (later "") l = l.
Proof. induction 1 as [|x l Hx _ IH]; [done|]. cbn. unfold later at 1. rewrite (ltb_empty _ Hx). by f_equal. Qed.

Lemma strict_lookup F a b x y : StronglySorted before F -> (a < b)%nat -> F !! a = Some x -> F !! b = Some y -> before x y.
Proof.
  intros HF. revert a b. induction HF as [|z F HF IH Hz]; intros a b Hab Ha Hb; [done|]. destruct b as [|b]; [lia|]. destruct a as [|a]; cbn in Ha, Hb.
  - injection Ha as ->. rewrite Forall_forall in Hz. apply Hz. by eapply list_elem_of_lookup_2.
  - by apply (IH a b); [lia|..].
Qed.

Lemma paginate_pageOf objects prefixes after m (F := itemsOf objects prefixes) : 0 <= m ->
  StronglySorted before F -> Forall (fun it => li_key it <> "") F -> paginate objects prefixes after m = pageOf (List.filter (later after) F) m.
Proof.
  intros Hm HF Hne. unfold paginate. fold F.
  assert ((if negb (after =s "") then drop (Search (length F) (fun i => match F !! i with Some it => after <s li_key it | None => false end)) F else F)
    = List.filter (later after) F) as ->.
  { destruct (after =s "") eqn:E; cbn [negb]; [apply String.eqb_eq in E as ->; by rewrite later_all|].
    apply later_drop. intros i it Hi. pose proof (lookup_lt_Some _ _ _ Hi) as Hlt. set (f := fun i => _).
    destruct (search_loop_spec f (length F) (length F) 0 (length F)) as (Hr & Hlo & Hhi); [lia|lia| |lia|lia|].
    - intros a b Hab. subst f. cbn beta. destruct (lookup_lt_is_Some_2 F a) as [x Hx]; [lia|]. destruct (lookup_lt_is_Some_2 F b) as [y Hy]; [lia|]. rewrite Hx, Hy.
      destruct (decide (a = b)) as [-> |Hn]; [congruence|]. intros H. apply (ltb_trans _ (li_key x)); [done|].
      by apply (strict_lookup F a b x y HF); [lia|..].
    - fold (Search (length F) f) in *. assert (later after it = f i) as -> by (subst f; cbn; by rewrite Hi).
      case_bool_decide; [apply Hhi; lia|apply Hlo; lia]. }
  set (L := List.filter (later after) F). unfold pageOf. destruct (m <? Z.of_nat (length L)) eqn:Et.
  - apply Z.ltb_lt in Et. cbn beta iota zeta delta [andb]. destruct (0 <? Z.of_nat (length (take (Z.to_nat m) L))) eqn:E0; [done|]. f_equal.
    apply Z.ltb_ge in E0. by destruct (take (Z.to_nat m) L).
  - apply Z.ltb_ge in Et. cbn beta iota zeta delta [andb]. rewrite (firstn_all2 L) by lia. done.
Qed.

Lemma pageOf_take L m : 0 <= m -> pageOf (take (Z.to_nat (m + 1)) L) m = pageOf L m.
Proof.
  intros Hm. unfold pageOf. rewrite take_take, Nat.min_l by lia. replace (m <? Z.of_nat (length (take (Z.to_nat (m + 1)) L))) with (m <? Z.of_nat (length L)); [done|].
  rewrite length_take. apply Bool.eq_true_iff_eq. rewrite !Z.ltb_lt. lia.
Qed.

(** ** Following the tokens *)

(** A client that asks for page after page until one is not truncated. *)
Fixpoint followPages (fuel : nat) (page : string -> Page) (token : string) : list Page :=
  match fuel with
  | O => []
  | S fuel => let p := page token in if pg_truncated p then p :: followPages fuel page (pg_next p) else [p]
  end.

(** The pages show the given items, each once and in order, with at most [m] entries a page;
    only the last page is not truncated. *)
Definition shows (pages : list Page) (items : list listingItem) (m : Z) : Prop :=
  flat_map pg_objects pages = map li_object (List.filter (fun it => negb (li_prefix it)) items) /\
  flat_map pg_prefixes pages = map li_key (List.filter li_prefix items) /\
  Forall (fun p => Z.of_nat (length (pg_objects p)) + Z.of_nat (length (pg_prefixes p)) <= m) pages /\
  exists front p, pages = (front ++ [p])%list /\ pg_truncated p = false /\ Forall (fun q => pg_truncated q = true) front.

Lemma filter_split {A} (f : A -> bool) l : (length (List.filter (fun x => negb (f x)) l) + length (List.filter f l) = length l)%nat.
Proof. induction l as [|x l IH]; [done|]. cbn. destruct (f x); cbn; lia. Qed.

Lemma pageOf_size L m : 0 <= m -> Z.of_nat (length (pg_objects (pageOf L m))) + Z.of_nat (length (pg_prefixes (pageOf L m))) <= m.
Proof. intros Hm. cbn. rewrite !length_map. pose proof (filter_split li_prefix (take (Z.to_nat m) L)). pose proof (firstn_le_length (Z.to_nat m) L). lia. Qed.

Lemma later_rest t L n x : StronglySorted before L -> take n L !! (n - 1)%nat = Some x -> (0 < n)%nat -> (forall y, y ∈ L -> later t y = true) ->
  List.filter (later (li_key x)) L = drop n L.
Proof.
  intros HL Hx Hn Hl. symmetry. apply later_drop. intros i it Hi. unfold later. rewrite lookup_take_lt in Hx by lia. case_bool_decide as Hc.
  - by apply (strict_lookup L (n - 1) i x it HL); [lia|..].
  - destruct (decide (i = n - 1)%nat) as [-> |]; [assert (it = x) as -> by congruence; apply ltb_irrefl|].
    apply ltb_asym. by apply (strict_lookup L i (n - 1) it x HL); [lia|..].
Qed.

Lemma filter_later_later t u l : (t <s u) = true -> List.filter (later u) (List.filter (later t) l) = List.filter (later u) l.
Proof.
  intros Htu. induction l as [|x l IH]; [done|]. cbn. destruct (later t x) eqn:E; cbn; [by rewrite IH|]. destruct (later u x) eqn:Eu; [|done].
  unfold later in *. by rewrite (ltb_trans _ _ _ Htu Eu) in E.
Qed.

Lemma followPages_shows F m page fuel (ok : string -> Prop) token : 0 < m -> StronglySorted before F ->
  (forall t, ok t -> page t = pageOf (List.filter (later t) F) m) -> (forall it, it ∈ F -> ok (li_key it)) -> ok token ->
  (length (List.filter (later token) F) < fuel)%nat -> shows (followPages fuel page token) (List.filter (later token) F) m.
Proof.
  intros Hm HF Hpage Hok. revert token. induction fuel as [|fuel IH]; intros token Htok Hlen; [lia|]. cbn [followPages]. rewrite Hpage by done.
  set (L := List.filter (later token) F) in *. set (n := Z.to_nat m). pose proof (pageOf_size L m ltac:(lia)) as Hsize.
  destruct (pg_truncated (pageOf L m)) eqn:Et.
  - assert (m < Z.of_nat (length L)) as Hlong by (cbn in Et; by apply Z.ltb_lt in Et).
    destruct (lookup_lt_is_Some_2 (take n L) (n - 1)) as [x Hx]; [rewrite length_take; lia|].
    assert (pg_next (pageOf L m) = li_key x) as ->.
    { cbn. cbn in Et. rewrite Et. fold n. rewrite last_lookup, length_take, Nat.min_l by lia. by replace (Nat.pred n) with (n - 1)%nat by lia; rewrite Hx. }
    assert (x ∈ F /\ later token x = true) as [HxF Hlx].
    { rewrite lookup_take_lt in Hx by lia. apply list_elem_of_lookup_2, list_elem_of_In in Hx. apply filter_In in Hx as [Hx1 Hx2]. by rewrite list_elem_of_In. }
    assert (List.filter (later (li_key x)) F = drop n L) as Hrest.
    { rewrite <- (filter_later_later token) by exact Hlx. fold L. apply (later_rest token); [by apply strict_filter|done|lia|].
      intros y Hy. apply list_elem_of_In in Hy. by apply filter_In in Hy as [_ Hy]. }
    specialize (IH (li_key x)). rewrite Hrest in IH. destruct IH as (I1 & I2 & I3 & front & p & Ef & Hp & Hfront); [by apply Hok|rewrite length_drop; lia|].
    split; [|split; [|split; [by constructor|]]].
    + cbn [flat_map]. rewrite I1. rewrite <- (take_drop n L) at 3. by rewrite List.filter_app, map_app.
    + cbn [flat_map]. rewrite I2. rewrite <- (take_drop n L) at 3. by rewrite List.filter_app, map_app.
    + exists (pageOf L m :: front), p. rewrite Ef. split; [done|]. split; [done|]. by constructor.
  - assert (take n L = L) as HL by (cbn in Et; apply Z.ltb_ge in Et; apply firstn_all2; lia).
    split; [|split; [|split; [by repeat constructor|by exists [], (pageOf L m)]]]; cbn [flat_map pageOf pg_objects pg_prefixes]; fold n; by rewrite app_nil_r, HL.
Qed.
