(* ===== verification/Listing.v ===== *)
(** * S3 bucket listings

    internal/gateway/s3/listing.go, catalog.go and the list handlers of handlers.go: the walk of
    a bucket, the bounded page of its smallest keys, the same page out of the catalog, and the
    V1 and V2 answers. The order in which the system returns the entries of a directory is an
    input, as is the text of a time. Directories reached through a symbolic link are not
    represented: a bucket is a directory of the tree. *)

From S2P Require Import Prelude GoStrings FileMeta Database Names Store Glob Validate Conditions Transfer Volume Paths Heap Runes Paging.

(** ** Go's strings.Index *)

(** [strings.Index(s, substr)] *)
Fixpoint Index (s substr : string) : option nat :=
  if HasPrefix s substr then Some O
  else match s with
       | "" => None
       | String _ s' => match Index s' substr with Some n => Some (S n) | None => None end
       end.

(** ** The walk *)

Section Gateway.
Context (ignorePatterns : list string) (Format : Z -> string) (readdir : string -> list string).

(** [func IsClientVisiblePath(rootDir, fullPath string, ignorePatterns []string) bool], of the
    path relative to the root. *)
Definition IsClientVisiblePath (rel : string) : W bool :=
  if (rel =s ".") || HasPrefix rel "../" then retS false
  else if negb (validateClientPath rel ignorePatterns) then retS false
  else
    let! info := tryS (lstat rel) in
    match info with
    | Err _ | Ok None => retS false
    | Ok (Some (NLink _)) =>
        let! w := getS in
        retS (match SafePath (wd_tree w) rel ignorePatterns with Some _ => true | None => false end)
    | Ok (Some _) => retS true
    end.

(** [func PathResolvesWithin(rootDir, fullPath string) bool] for a directory [SafePath] passed. *)
Definition inDirectory (root path : string) : bool := (path =s root) || HasPrefix path (root +:+ "/").
Definition PathResolvesWithin (tree : gmap string node) (root path : string) : bool :=
  inDirectory root path &&
  match resolveIn tree root, resolveIn tree path with Some realRoot, Some resolved => inDirectory realRoot resolved | _, _ => false end.

Definition objectAt (key : string) (i : inode) : ObjectInfo :=
  let info := Conditions.mkInfo (slen (in_bytes i)) (in_mtime i) true in
  mkObject key (Format (in_mtime i)) (etagFor info) (slen (in_bytes i)) "STANDARD".

(** What a key is shown as: itself or its group. *)
Definition itemFor (prefix delimiter key : string) (i : inode) : listingItem :=
  match (if delimiter =s "" then None else Index (sdrop (String.length prefix) key) delimiter) with
  | Some pos => prefixItem (stake (String.length prefix + pos + String.length delimiter)%nat key)
  | None => objectItem (objectAt key i)
  end.

Section Walk.
Context {S : Type} (ctxErr : W unit) (bp prefix delimiter : string) (visit : S -> listingItem -> S).

(** The body of the loop over the entries; [walk] is the recursive call. A directory that is
    gone is skipped: only opening it says so, before anything in it was visited. *)
Definition walkEntry (walk : string -> S -> W S) (dir name : string) (s : S) : W S :=
  do! ctxErr then
  let path := dir +:+ "/" +:+ name in
  if IsScratchFile name then retS s
  else
    let! info := lstat path in
    match info with
    | None => retS s
    | Some n =>
        let! visible := IsClientVisiblePath path in
        if negb visible then retS s
        else
          let key := TrimPrefix path (bp +:+ "/") in
          let file n :=
            match n with
            | NFile i => if HasPrefix key prefix then retS (visit s (itemFor prefix delimiter key i)) else retS s
            | _ => retS s
            end in
          match n with
          | NDir =>
              let subtree := key +:+ "/" in
              if negb (prefix =s "") && negb (HasPrefix subtree prefix) && negb (HasPrefix prefix subtree) then retS s
              else
                fun w => match walk path s w with (Err WMissing, w') => (Ok s, w') | r => r end
          | NLink _ =>
              let! w := getS in
              if negb (PathResolvesWithin (wd_tree w) bp path) then retS s
              else
                let! info := stat path in
                match info with None => retS s | Some n => file n end
          | _ => file n
          end
    end.

Fixpoint foldW {A} (f : A -> S -> W S) (l : list A) (s : S) : W S :=
  match l with
  | [] => retS s
  | x :: l => let! s := f x s in foldW f l s
  end.

(** [f.ReadDir(256)] until it answers io.EOF. *)
Fixpoint readBatches (fuel : nat) (entry : string -> S -> W S) (names : list string) (s : S) : W S :=
  match fuel with
  | O => retS s
  | Datatypes.S fuel =>
      do! sysW then
      match names with
      | [] => retS s
      | _ =>
          let! s := foldW entry (take 256 names) s in
          readBatches fuel entry (drop 256 names) s
      end
  end.

Fixpoint walk (fuel : nat) (dir : string) (s : S) : W S :=
  match fuel with
  | O => retS s
  | Datatypes.S fuel =>
      do! ctxErr then
      do! sysW then
      let! w := getS in
      match wd_tree w !! dir with
      | None => failS WMissing
      | Some NDir =>
          let names := readdir dir in
          readBatches (Datatypes.S (length names)) (walkEntry (walk fuel) dir) names s
      | Some _ => failS WSys
      end
  end.
End Walk.

(** Every level of the walk has a longer path. *)
Definition depthBound (tree : gmap string node) : nat := Datatypes.S (max_list (map (fun kv => String.length kv.1) (map_to_list tree))).

(** [func (g *Gateway) walkListing(ctx, bp, prefix, delimiter string, visit func(listingItem)) error] *)
Definition walkListing {S} (ctxErr : W unit) (bp prefix delimiter : string) (visit : S -> listingItem -> S) (s : S) : W S :=
  let! w := getS in walk ctxErr bp prefix delimiter visit (depthBound (wd_tree w)) bp s.

(** ** Pages of the filesystem *)

(** [func (g *Gateway) filesystemPage(ctx, bp, prefix, delimiter, after string, maxKeys int)] *)
Definition filesystemPage (bp prefix delimiter after : string) (maxKeys : Z) : W Page :=
  let! st := walkListing ctxErrW bp prefix delimiter (candidate after maxKeys) ([], ∅) in
  let objects := map li_object (List.filter (fun it => negb (li_prefix it)) st.1) in
  let prefixes := map li_key (List.filter li_prefix st.1) in
  retS (paginate objects prefixes after maxKeys).

(** [func (g *Gateway) collectObjects(bp, prefix, delimiter string) ([]ObjectInfo, []string, error)] *)
Definition collectItem (st : list ObjectInfo * gset string) (item : listingItem) : list ObjectInfo * gset string :=
  if li_prefix item then (st.1, {[ li_key item ]} ∪ st.2) else ((st.1 ++ [li_object item])%list, st.2).
Definition collectObjects (bp prefix delimiter : string) : W (list ObjectInfo * list string) :=
  let! st := walkListing (retS tt) bp prefix delimiter collectItem ([], ∅) in
  retS (merge_sort (by_string ob_Key) st.1, merge_sort (by_string id) (elements st.2)).

(** ** Pages of the catalog *)

(** What one row of the catalog turns out to be on disk; an error hides it. *)
Definition catalogFile (bp name : string) : W (option inode) :=
  if ShouldIgnore name ignorePatterns then retS None
  else
    let! w := getS in
    match SafePath (wd_tree w) name ignorePatterns with
    | None => retS None
    | Some path =>
        let! info := tryS (lstat path) in
        match info with
        | Err _ | Ok None => retS None
        | Ok (Some (NLink _)) =>
            let! w := getS in
            if negb (PathResolvesWithin (wd_tree w) bp path) then retS None
            else
              let! info := tryS (stat path) in
              match info with Ok (Some (NFile i)) => retS (Some i) | _ => retS None end
        | Ok (Some (NFile i)) => retS (Some i)
        | Ok (Some _) => retS None
        end
    end.

(** The variables of the loop. *)
Record Scan := mkScan { sc_from : string; sc_cursor : string; sc_objects : list ObjectInfo; sc_prefixes : list string }.
Definition sc_count (sc : Scan) : Z := Z.of_nat (length (sc_objects sc)) + Z.of_nat (length (sc_prefixes sc)).

(** The loop over one page of rows; both breaks end it. *)
Fixpoint scanRows (bp base prefix delimiter after : string) (maxKeys : Z) (page : list FileMeta) (sc : Scan) : W Scan :=
  match page with
  | [] => retS sc
  | meta :: page =>
      do! ctxErrW then
      let sc := mkScan (sc_from sc) (Name meta) (sc_objects sc) (sc_prefixes sc) in
      let key := TrimPrefix (Name meta) base in
      let! file := catalogFile bp (Name meta) in
      match file with
      | None => scanRows bp base prefix delimiter after maxKeys page sc
      | Some i =>
          let item := itemFor prefix delimiter key i in
          if li_prefix item then
            let common := li_key item in
            let prefixes := if after <s common then (sc_prefixes sc ++ [common])%list else sc_prefixes sc in
            retS (mkScan (prefixEnd (base +:+ common)) (sc_cursor sc) (sc_objects sc) prefixes)
          else
            let sc := mkScan (sc_from sc) (sc_cursor sc) (sc_objects sc ++ [li_object item])%list (sc_prefixes sc) in
            if maxKeys <? sc_count sc then retS sc
            else scanRows bp base prefix delimiter after maxKeys page sc
      end
  end.

(** The loop over the pages. Every round moves the cursor past a row. *)
Fixpoint scanPages (fuel : nat) (bp base prefix delimiter after until : string) (maxKeys : Z) (sc : Scan) : W Scan :=
  match fuel with
  | O => retS sc
  | Datatypes.S fuel =>
      if (sc_count sc <=? maxKeys) && (sc_from sc <s until) then
        do! ctxErrW then
        let! page := inStore (ListLiveRange (sc_from sc) until (sc_cursor sc) 128) in
        match page with
        | [] => retS sc
        | _ =>
            let! sc := scanRows bp base prefix delimiter after maxKeys page sc in
            scanPages fuel bp base prefix delimiter after until maxKeys sc
        end
      else retS sc
  end.

(** [func (g *Gateway) listPage(ctx, bp, bucket, prefix, delimiter, after string, maxKeys int)] *)
Definition listPage (hasCatalog : bool) (bp bucket prefix delimiter after : string) (maxKeys : Z) : W Page :=
  if negb hasCatalog then filesystemPage bp prefix delimiter after maxKeys
  else if negb (ValidString prefix) || negb (ValidString after) || negb (ValidString delimiter) then retS (mkPage [] [] false "")
  else
    let base := bucket +:+ "/" in
    let! w := getS in
    let fuel := Datatypes.S (size (files (db (wd_store w)))) in
    let! sc := scanPages fuel bp base prefix delimiter after (prefixEnd (base +:+ prefix)) maxKeys
                 (mkScan (base +:+ prefix) (base +:+ after) [] []) in
    retS (paginate (sc_objects sc) (sc_prefixes sc) after maxKeys).

(** ** The handlers *)

Section Requests.
Context (hasCatalog : bool) (query : string -> string).

(** [func parseMaxKeys(r *http.Request) (int, bool)] *)
Definition parseMaxKeys : option Z :=
  let s := query "max-keys" in
  if s =s "" then Some 1000
  else
    match ParseInt (TrimSpace s) with
    | None => None
    | Some n =>
        let n := if n <=? 0 then 1000 else n in
        Some (if 10000 <? n then 10000 else n)
    end.

Record ListV1 := mkListV1 {
  l1_Name : string; l1_Prefix : string; l1_Marker : string; l1_NextMarker : string; l1_Delimiter : string;
  l1_MaxKeys : Z; l1_IsTruncated : bool; l1_Contents : list ObjectInfo; l1_CommonPrefixes : list string
}.
Record ListV2 := mkListV2 {
  l2_Name : string; l2_Prefix : string; l2_Delimiter : string; l2_MaxKeys : Z; l2_IsTruncated : bool; l2_KeyCount : Z;
  l2_Contents : list ObjectInfo; l2_CommonPrefixes : list string;
  l2_StartAfter : string; l2_ContinuationToken : string; l2_NextContinuationToken : string
}.

(** The status and body of the answer. *)
Inductive listAnswer := S3Error (status : Z) (code : string) | ListedV1 (r : ListV1) | ListedV2 (r : ListV2).

(** [listFailed] *)
Definition listFailed : listAnswer := S3Error 500 "InternalError".

(** [func (g *Gateway) handleListObjectsV1(w, r, bucket, bp string)] *)
Definition handleListObjectsV1 (bucket bp : string) : W listAnswer :=
  let prefix := query "prefix" in
  let delimiter := query "delimiter" in
  let marker := query "marker" in
  match parseMaxKeys with
  | None => retS (S3Error 400 "InvalidArgument")
  | Some maxKeys =>
      let! page := tryS (listPage hasCatalog bp bucket prefix delimiter marker maxKeys) in
      match page with
      | Err _ => retS listFailed
      | Ok p => retS (ListedV1 (mkListV1 bucket prefix marker (pg_next p) delimiter maxKeys (pg_truncated p) (pg_objects p) (pg_prefixes p)))
      end
  end.

(** [func (g *Gateway) handleListObjectsV2(w, r, bucket, bp string)] *)
Definition handleListObjectsV2 (bucket bp : string) : W listAnswer :=
  let prefix := query "prefix" in
  let delimiter := query "delimiter" in
  let startAfter := query "start-after" in
  let contToken := query "continuation-token" in
  match parseMaxKeys with
  | None => retS (S3Error 400 "InvalidArgument")
  | Some maxKeys =>
      let skipAfter := if negb (contToken =s "") then contToken else startAfter in
      let! page := tryS (listPage hasCatalog bp bucket prefix delimiter skipAfter maxKeys) in
      match page with
      | Err _ => retS listFailed
      | Ok p =>
          retS (ListedV2 (mkListV2 bucket prefix delimiter maxKeys (pg_truncated p)
            (Z.of_nat (length (pg_objects p)) + Z.of_nat (length (pg_prefixes p)))
            (pg_objects p) (pg_prefixes p) startAfter contToken (pg_next p)))
      end
  end.

(** [func validateBucketName(name string) bool] *)
Definition validateBucketName (name : string) : bool :=
  if (name =s "") || (name =s ".") || (name =s "..") then false
  else if ContainsByte name "/" || ContainsByte name "\" then false
  else negb (IsReserved name).

(** [func (g *Gateway) handleListObjects(w, r, bucket string)] *)
Definition handleListObjects (bucket : string) : W listAnswer :=
  if negb (validateBucketName bucket) then retS (S3Error 400 "InvalidBucketName")
  else
    let! w := getS in
    match SafePath (wd_tree w) bucket ignorePatterns with
    | None => retS (S3Error 400 "InvalidBucketName")
    | Some bp =>
        let! info := tryS (stat bp) in
        match info with
        | Ok None => retS (S3Error 404 "NoSuchBucket")
        | Ok (Some (NFile _)) | Ok (Some (NLink _)) | Ok (Some NOther) => retS (S3Error 404 "NoSuchBucket")
        | Ok (Some NDir) | Err _ =>
            if query "list-type" =s "2" then handleListObjectsV2 bucket bp else handleListObjectsV1 bucket bp
        end
    end.
End Requests.
End Gateway.
