(* ===== verification/Walk.v ===== *)
(** * The walk of a bucket

    What [walkListing] visits, whatever its callback and whichever calls fail: each listed file
    of the bucket at most once, and all of them when no call fails. Then the page of the
    filesystem is the page of the whole listing, and following the tokens shows every key. *)

From S2P Require Import Prelude GoStrings FileMeta Database Names Store Glob Validate Conditions Transfer Volume Paths Heap Runes Paging Listing.

(** ** Two walks side by side *)

(** Nobody cancels the request. *)
Definition uncancelled (w : World) : Prop := xf_cancel (wd_xfer w) = [].
(** No call fails either. *)
Definition calm (w : World) : Prop := wd_faults w = [] /\ uncancelled w.

(** Run from the same world, the two computations end in the same one with related results. *)
Definition alongside {A B} (R : A -> B -> Prop) (c : W A) (d : W B) : Prop := forall w, uncancelled w ->
  match c w, d w with
  | (Ok a, w1), (Ok b, w2) => R a b /\ w1 = w2 /\ uncancelled w1
  | (Err e, w1), (Err e', w2) => e = e' /\ w1 = w2 /\ uncancelled w1
  | _, _ => False
  end.

Lemma alongside_bind {A B C D} (R : A -> B -> Prop) (Q : C -> D -> Prop) (c : W A) (d : W B) (k : A -> W C) (l : B -> W D) :
  alongside R c d -> (forall a b, R a b -> alongside Q (k a) (l b)) -> alongside Q (bindS c k) (bindS d l).
Proof.
  intros H1 H2 w Hw. specialize (H1 w Hw). unfold bindS. destruct (c w) as [[a|e] w1], (d w) as [[b|e'] w2]; try done.
  destruct H1 as (Hab & -> & Hu). by apply H2.
Qed.

Lemma alongside_ret {A B} (R : A -> B -> Prop) a b : R a b -> alongside R (retS a) (retS b).
Proof. by intros H w Hw. Qed.
Lemma alongside_fail {A B} (R : A -> B -> Prop) e : alongside R (failS e) (failS e).
Proof. by intros w Hw. Qed.

(** A computation that leaves the request's context alone runs alongside itself. *)
Definition contextual {A} (c : W A) : Prop := keeps (fun w w' => uncancelled w -> uncancelled w') c.

#[export] Instance uncancelled_preorder : PreOrder (fun w w' => uncancelled w -> uncancelled w').
Proof. split; [by intros w|intros w1 w2 w3; auto]. Qed.

Lemma alongside_same {A} (c : W A) : contextual c -> alongside eq c c.
Proof. intros H w Hw. specialize (H w Hw). by destruct (c w) as [[a|e] w']. Qed.

Lemma contextual_sysW : contextual sysW.
Proof. intros w Hw. unfold sysW. destruct (wd_faults w) as [|[] l]; done. Qed.
Lemma contextual_lstat p : contextual (lstat p).
Proof. apply keeps_bind; [apply _|apply contextual_sysW|]. intros _. apply keeps_bind; [apply _|apply keeps_get, _|intros; apply keeps_ret, _]. Qed.
Lemma contextual_stat p : contextual (stat p).
Proof. apply keeps_bind; [apply _|apply contextual_sysW|]. intros _. apply keeps_bind; [apply _|apply keeps_get, _|intros; apply keeps_ret, _]. Qed.
Lemma contextual_try {A} (c : W A) : contextual c -> contextual (tryS c).
Proof. intros H w. specialize (H w). unfold tryS. by destruct (c w) as [[a|e] w']. Qed.

Lemma contextual_visible ign p : contextual (IsClientVisiblePath ign p).
Proof.
  unfold IsClientVisiblePath. destruct (_ || _); [apply keeps_ret, _|]. destruct (negb _); [apply keeps_ret, _|].
  apply keeps_bind; [apply _|apply contextual_try, contextual_lstat|]. intros [[[]|]|]; try apply keeps_ret, _.
  apply keeps_bind; [apply _|apply keeps_get, _|intros; apply keeps_ret, _].
Qed.

Lemma ctxErrW_uncancelled w : uncancelled w -> ctxErrW w = (Ok tt, w).
Proof. intros Hw. unfold ctxErrW, inXfer, zoomS, ctxErrX. rewrite Hw. by destruct w. Qed.

Lemma alongside_ctx : alongside (fun _ _ => True) ctxErrW (retS tt).
Proof. intros w Hw. by rewrite ctxErrW_uncancelled. Qed.
Lemma alongside_ctx_same : alongside (fun _ _ => True) ctxErrW ctxErrW.
Proof. intros w Hw. by rewrite ctxErrW_uncancelled. Qed.

Section Alongside.
Context (ign : list string) (Format : Z -> string) (readdir : string -> list string) (bp prefix delimiter : string).
Context {S1 S2 : Type} (ctx1 ctx2 : W unit) (v1 : S1 -> listingItem -> S1) (v2 : S2 -> listingItem -> S2) (R : S1 -> S2 -> Prop).
Context (Hctx : alongside (fun _ _ => True) ctx1 ctx2) (Hv : forall s t it, R s t -> R (v1 s it) (v2 t it)).

Lemma alongside_entry walk1 walk2 dir name s t : (forall p s t, R s t -> alongside R (walk1 p s) (walk2 p t)) -> R s t ->
  alongside R (walkEntry ign Format ctx1 bp prefix delimiter v1 walk1 dir name s) (walkEntry ign Format ctx2 bp prefix delimiter v2 walk2 dir name t).
Proof.
  intros Hw Hs. unfold walkEntry. apply (alongside_bind _ _ _ _ _ _ Hctx). intros _ _ _. destruct (IsScratchFile name); [by apply alongside_ret|].
  apply (alongside_bind eq); [apply alongside_same, contextual_lstat|]. intros info ? <-. destruct info as [n|]; [|by apply alongside_ret].
  apply (alongside_bind eq); [apply alongside_same, contextual_visible|]. intros vis ? <-. destruct vis; [|by apply alongside_ret]. cbn [negb].
  set (key := TrimPrefix _ _). destruct n as [i| |target|].
  - destruct (HasPrefix key prefix); apply alongside_ret; auto.
  - destruct (_ && _); [by apply alongside_ret|]. intros w Hu. specialize (Hw (dir +:+ "/" +:+ name) s t Hs w Hu).
    destruct (walk1 _ s w) as [[a|e] w1], (walk2 _ t w) as [[b|e'] w2]; try done.
    destruct Hw as (<- & <- & Hu1). by destruct e.
  - apply (alongside_bind eq); [apply alongside_same, keeps_get, _|]. intros w ? <-. destruct (negb _); [by apply alongside_ret|].
    apply (alongside_bind eq); [apply alongside_same, contextual_stat|]. intros info ? <-.
    destruct info as [[i| | |]|]; try by apply alongside_ret. destruct (HasPrefix key prefix); apply alongside_ret; auto.
  - by apply alongside_ret.
Qed.

Lemma alongside_foldW {A} (f : A -> S1 -> W S1) (g : A -> S2 -> W S2) l s t : (forall x s t, R s t -> alongside R (f x s) (g x t)) -> R s t ->
  alongside R (foldW f l s) (foldW g l t).
Proof.
  intros Hf. revert s t. induction l as [|x l IH]; intros s t Hs; cbn [foldW]; [by apply alongside_ret|].
  apply (alongside_bind R); [by apply Hf|]. intros s' t'. apply IH.
Qed.

Lemma alongside_batches fuel f g names s t : (forall x s t, R s t -> alongside R (f x s) (g x t)) -> R s t ->
  alongside R (readBatches fuel f names s) (readBatches fuel g names t).
Proof.
  intros Hf. revert names s t. induction fuel as [|fuel IH]; intros names s t Hs; cbn [readBatches]; [by apply alongside_ret|].
  apply (alongside_bind eq); [apply alongside_same, contextual_sysW|]. intros _ _ _. destruct names as [|x names]; [by apply alongside_ret|].
  apply (alongside_bind R); [by apply alongside_foldW|]. intros s' t'. apply IH.
Qed.

Lemma alongside_walk fuel dir s t : R s t ->
  alongside R (walk ign Format readdir ctx1 bp prefix delimiter v1 fuel dir s) (walk ign Format readdir ctx2 bp prefix delimiter v2 fuel dir t).
Proof.
  revert dir s t. induction fuel as [|fuel IH]; intros dir s t Hs; cbn [walk]; [by apply alongside_ret|].
  apply (alongside_bind _ _ _ _ _ _ Hctx). intros _ _ _. apply (alongside_bind eq); [apply alongside_same, contextual_sysW|]. intros _ _ _.
  apply (alongside_bind eq); [apply alongside_same, keeps_get, _|]. intros w ? <-. destruct (wd_tree w !! dir) as [[]|]; try apply alongside_fail.
  apply alongside_batches; [|done]. intros x s' t' Hs'. by apply alongside_entry.
Qed.

Lemma alongside_walkListing s t : R s t ->
  alongside R (walkListing ign Format readdir ctx1 bp prefix delimiter v1 s) (walkListing ign Format readdir ctx2 bp prefix delimiter v2 t).
Proof. intros Hs. apply (alongside_bind eq); [apply alongside_same, keeps_get, _|]. intros w ? <-. by apply alongside_walk. Qed.
End Alongside.

(** ** Paths *)

Lemma Clean_clean p : clean_parts (Split p "/") -> Clean p = p.
Proof.
  intros Hp. pose proof Hp as [Hg Hs]. rewrite <- (Join_Split_slash p). set (l := Split p "/") in *.
  assert (l <> []) as Hne by apply Split_nonnil.
  assert (Join l "/" <> "") as Hj by (apply Join_nonempty; [done|]; eapply Forall_impl; [exact Hg|apply good_part_nonempty]).
  unfold Clean. rewrite (proj2 (eqs_false _ _) Hj). pose proof (Join_not_rooted l "" Hp Hne) as Hr. rewrite string_app_nil_r in Hr.
  rewrite Hr, Split_Join, clean_go_good by done. cbn [rev app]. by rewrite (proj2 (eqs_false _ _) Hj).
Qed.

Lemma clean_not_up p : clean_parts (Split p "/") -> HasPrefix p "../" = false /\ p <> ".." /\ p <> "." /\ p <> "" /\ HasPrefix p "/" = false.
Proof.
  intros [Hg _]. assert (forall q l, Split p "/" = (q :: l)%list -> good_part q) as Hq by (intros q l E; rewrite E in Hg; by inversion Hg).
  assert (p <> "" /\ p <> "." /\ p <> "..") as (H1 & H2 & H3).
  { split; [|split]; intros ->; specialize (Hq _ _ eq_refl); apply good_part_spec in Hq; naive_solver. }
  split; [|split; [done|split; [done|split; [done|]]]].
  - apply not_true_is_false. intros [t ->]%HasPrefix_spec. change ("../" +:+ t) with (".." +:+ "/" +:+ t) in Hq. rewrite Split_app_sep in Hq.
    specialize (Hq _ _ eq_refl). apply good_part_spec in Hq; naive_solver.
  - apply not_true_is_false. intros [t ->]%HasPrefix_spec. change ("/" +:+ t) with ("" +:+ "/" +:+ t) in Hq. rewrite Split_app_sep in Hq.
    specialize (Hq _ _ eq_refl). apply good_part_spec in Hq; naive_solver.
Qed.

Lemma SafePath_clean T p ign : clean_parts (Split p "/") ->
  SafePath T p ign = if validateClientPath p ign && match resolveIn T p with Some resolved => validateClientPath resolved ign | None => false end then Some p else None.
Proof.
  intros Hp. unfold SafePath. rewrite Clean_clean by done. destruct (clean_not_up p Hp) as (H1 & H2 & H3 & H4 & H5).
  rewrite (proj2 (eqs_false p ".") H3). assert ((p =s "/") = false) as -> by (apply eqs_false; by intros ->). cbn [orb]. rewrite TrimPrefix_other by done.
  rewrite H1, (proj2 (eqs_false _ _) H2), (proj2 (eqs_false _ _) H4). cbn [orb]. destruct (validateClientPath p ign); [|done]. cbn [negb andb].
  by destruct (resolveIn T p).
Qed.

(** [p] lies below the directory [d]. *)
Definition below (d p : string) : Prop := exists rest, p = d +:+ "/" +:+ rest.
Definition atOrBelow (d p : string) : Prop := p = d \/ below d p.

Lemma below_split d p : below d p -> exists name, ContainsByte name "/" = false /\ atOrBelow (d +:+ "/" +:+ name) p.
Proof.
  intros [rest ->]. pose proof (Cut_spec rest "/") as Hc. destruct (Cut rest "/") as [[a b]|].
  - destruct Hc as [-> Ha]. exists a. split; [done|]. right. exists b. by rewrite !string_app_assoc.
  - exists rest. split; [done|]. by left.
Qed.

Lemma atOrBelow_below d name p : atOrBelow (d +:+ "/" +:+ name) p -> below d p.
Proof. intros [->|[rest ->]]; [by exists name|]. exists (name +:+ "/" +:+ rest). by rewrite !string_app_assoc. Qed.

Lemma atOrBelow_parts q p : atOrBelow q p -> exists l, Split p "/" = (Split q "/" ++ l)%list.
Proof. intros [->|[rest ->]]; [exists []; by rewrite app_nil_r|]. exists (Split rest "/"). apply Split_app_sep. Qed.

Lemma below_disjoint d a b p : ContainsByte a "/" = false -> ContainsByte b "/" = false ->
  atOrBelow (d +:+ "/" +:+ a) p -> atOrBelow (d +:+ "/" +:+ b) p -> a = b.
Proof.
  intros Ha Hb [l E1]%atOrBelow_parts [l' E2]%atOrBelow_parts. rewrite E1 in E2. rewrite !Split_app_sep, (Split_no_slash a), (Split_no_slash b) in E2 by done.
  rewrite <- !app_assoc in E2. apply app_inv_head in E2. by injection E2.
Qed.

Lemma below_clean d p : below d p -> clean_parts (Split p "/") -> clean_parts (Split d "/").
Proof. intros [rest ->] [H1 H2]. rewrite Split_app_sep in H1, H2. apply Forall_app in H1 as [H1 _], H2 as [H2 _]. done. Qed.

Lemma Base_clean p : clean_parts (Split p "/") -> Base p = List.last (Split p "/") ".".
Proof.
  intros Hp. destruct (clean_not_up p Hp) as (_ & _ & _ & Hne & _). unfold Base. rewrite (proj2 (eqs_false _ _) Hne). destruct Hp as [Hg _].
  assert (base.filter (fun x => x <> "") (Split p "/") = Split p "/") as ->.
  { induction Hg as [|x l Hx _ IH]; [done|]. rewrite filter_cons_True by (by apply good_part_nonempty). by f_equal. }
  pose proof (Split_nonnil p "/"). by destruct (Split p "/").
Qed.

Lemma scratch_spelling name : IsScratchFile name = true -> isScratchSpelling name = true.
Proof.
  unfold IsScratchFile, isScratchSpelling, hasPrefixFold. intros H. apply orb_true_iff in H.
  apply orb_true_iff. destruct H as [[t ->]%HasPrefix_spec|[t ->]%HasPrefix_spec]; [left|right]; apply andb_true_iff;
    (split; [rewrite slen_app; pose proof (slen_nonneg t); apply Z.leb_le; lia|]); rewrite stake_app by lia; by rewrite stake_all by lia.
Qed.

Lemma existsb_in {A} (f : A -> bool) l x : x ∈ l -> f x = true -> existsb f l = true.
Proof. intros Hx Hf. apply existsb_exists. exists x. by rewrite <- list_elem_of_In. Qed.
Lemma existsb_elem {A} (f : A -> bool) l : existsb f l = true -> exists x, x ∈ l /\ f x = true.
Proof. intros (x & Hx & Hf)%existsb_exists. exists x. by rewrite list_elem_of_In. Qed.

(** A directory above a path that clients may use is one they may use. *)
Lemma validateClientPath_parent d p ign : below d p -> clean_parts (Split p "/") -> validateClientPath p ign = true -> validateClientPath d ign = true.
Proof.
  intros Hb Hp Hv. pose proof (below_clean d p Hb Hp) as Hd. pose proof (validateClientPath_exposed _ _ Hv) as (He1 & He2 & He3).
  destruct Hb as [rest ->]. rewrite Split_app_sep in He1, He2. apply Forall_app in He2 as [He2 _]. pose proof (Split_nonnil d "/") as Hnd.
  assert (List.hd "" (Split d "/" ++ Split rest "/")%list = List.hd "" (Split d "/")) as Ehd by (by destruct (Split d "/")). rewrite Ehd in He1.
  unfold validateClientPath in *. rewrite <- Split_hd in *. rewrite ContainsByte_app, orb_false_iff in He3. destruct He3 as [He3 _]. rewrite He3, He1.
  assert (existsb isScratchSpelling (Split d "/") = false) as ->.
  { apply not_true_is_false. intros (x & Hx & Hs)%existsb_elem. rewrite Forall_forall in He2. by rewrite (He2 x Hx) in Hs. }
  destruct (negb (d =s "") && (0 <? Z.of_nat (length ign)) && ShouldIgnore d ign) eqn:E; [|done]. exfalso.
  apply andb_true_iff in E as [E Ei]. apply andb_true_iff in E as [_ El]. rewrite El in Hv.
  destruct (clean_not_up _ Hp) as (_ & _ & _ & Hne & _). rewrite (proj2 (eqs_false _ _) Hne) in Hv. cbn [negb andb] in Hv.
  enough (ShouldIgnore (d +:+ "/" +:+ rest) ign = true) as Hi by (by rewrite Hi in Hv).
  unfold ShouldIgnore in *. rewrite Split_app_sep, Ehd. destruct (List.hd "" (Split d "/") =s ".birak"); [done|].
  assert (Base d ∈ Split d "/") as Hbase by (rewrite Base_clean by done; by apply last_elem_of).
  assert (IsScratchFile (Base d) = false) as Hns.
  { apply not_true_is_false. intros H%scratch_spelling. rewrite Forall_forall in He2. by rewrite (He2 _ Hbase) in H. }
  assert (Match (tempFilePrefix +:+ "*") (Base d) || Match (backupFilePrefix +:+ "*") (Base d) = false) as Hm.
  { rewrite IsScratchFile_Match; [done|]. destruct Hd as [_ Hd]. rewrite Forall_forall in Hd. by apply Hd. }
  apply orb_false_iff in Hm as [Hm1 Hm2]. rewrite Hm1, Hm2 in Ei.
  assert (exists x, x ∈ Split d "/" /\ existsb (fun pattern => Match pattern x) ign = true) as (x & Hx & Hxm).
  { destruct (existsb (fun pattern => Match pattern (Base d)) ign) eqn:Eb; [by exists (Base d)|]. apply existsb_elem in Ei as (x & Hx & Hxm). exists x.
    split; [|done]. rewrite (app_removelast_last "." Hnd). apply elem_of_app. by left. }
  generalize (Base (d +:+ "/" +:+ rest)) as b. intros b. cbv zeta.
  destruct (Match (tempFilePrefix +:+ "*") b); [reflexivity|]. destruct (Match (backupFilePrefix +:+ "*") b); [reflexivity|].
  destruct (existsb (fun pattern => Match pattern b) ign); [reflexivity|].
  apply (existsb_in _ _ x); [|exact Hxm]. rewrite removelast_app by apply Split_nonnil. apply elem_of_app. by left.
Qed.

(** ** What is listed *)

(** A tree as a filesystem keeps it: ordinary names under directories; and what reading its
    directories returns: each name once, in some order, the names of the entries among them. *)
Record Readable (T : gmap string node) (readdir : string -> list string) : Prop := mkReadable {
  rd_names : forall p n, T !! p = Some n -> clean_parts (Split p "/");
  rd_dirs : forall d p n, below d p -> T !! p = Some n -> T !! d = Some NDir;
  rd_once : forall d, NoDup (readdir d);
  rd_plain : forall d, Forall (fun name => ContainsByte name "/" = false) (readdir d);
  rd_all : forall d name n, T !! (d +:+ "/" +:+ name) = Some n -> ContainsByte name "/" = false -> name ∈ readdir d
}.

Section Bucket.
Context (ign : list string) (Format : Z -> string) (readdir : string -> list string) (bp prefix delimiter : string) (T : gmap string node).

(** A path clients may use, and a link at it may lead to. *)
Definition visibleAt (p : string) : bool :=
  validateClientPath p ign && match landsAt T p with Some target => validateClientPath target ign | None => false end.

(** The regular file a path shows clients of the bucket. *)
Definition listedFile (p : string) : option inode :=
  if negb (visibleAt p) then None
  else match T !! p with
       | Some (NFile i) => Some i
       | Some (NLink _) => if PathResolvesWithin T bp p then match T !! resolve T p with Some (NFile i) => Some i | _ => None end else None
       | _ => None
       end.
Definition keyAt (p : string) : string := TrimPrefix p (bp +:+ "/").
Definition listed (p : string) : Prop := is_Some (listedFile p) /\ HasPrefix (keyAt p) prefix = true.
Definition itemAt (p : string) : listingItem :=
  match listedFile p with Some i => itemFor Format prefix delimiter (keyAt p) i | None => prefixItem "" end.

Lemma listed_in p : listed p -> exists n, T !! p = Some n.
Proof. intros [[i Hi] _]. unfold listedFile in Hi. destruct (negb _); [done|]. destruct (T !! p); [by eexists|done]. Qed.
Lemma listed_visible p : listed p -> visibleAt p = true.
Proof. intros [[i Hi] _]. unfold listedFile in Hi. by destruct (visibleAt p). Qed.

Context (HT : Readable T readdir).

Lemma resolveIn_readable p n : T !! p = Some n -> resolveIn T p = landsAt T p.
Proof.
  intros Hn. apply resolveIn_lands; [by eapply (rd_names _ _ HT)|]. intros d rest t ->. by rewrite (rd_dirs _ _ HT d _ n ltac:(by exists rest) Hn).
Qed.

(** *** Soundness: whichever calls fail *)

Definition snoc (l : list listingItem) (it : listingItem) : list listingItem := (l ++ [it])%list.

(** The computation visits listed paths in [U], each once. *)
Definition collects (U : string -> Prop) (c : list listingItem -> W (list listingItem)) : Prop := forall l w, wd_tree w = T ->
  wd_tree (c l w).2 = T /\
  match (c l w).1 with
  | Ok l' => exists ps, l' = (l ++ map itemAt ps)%list /\ NoDup ps /\ forall p, p ∈ ps -> listed p /\ U p
  | Err _ => True
  end.

(** A step that only looks; [P] is what its result says of the tree. *)
Definition looks {A} (P : A -> Prop) (e : W A) : Prop := forall w, wd_tree w = T ->
  wd_tree (e w).2 = T /\ match (e w).1 with Ok a => P a | Err _ => True end.

Lemma collects_look {A} (P : A -> Prop) U (e : W A) (k : A -> list listingItem -> W (list listingItem)) :
  looks P e -> (forall a, P a -> collects U (k a)) -> collects U (fun l => let! a := e in k a l).
Proof.
  intros He Hk l w Hw. specialize (He w Hw). unfold bindS. destruct (e w) as [[a|x] w1]; cbn [fst snd] in *; [|by destruct He].
  destruct He as [Hw1 Ha]. by apply Hk.
Qed.

Lemma collects_nothing U : collects U (fun l => retS l).
Proof. intros l w Hw. split; [done|]. exists []. split; [by rewrite app_nil_r|]. split; [constructor|set_solver]. Qed.

Lemma collects_one (U : string -> Prop) p i : listedFile p = Some i -> U p ->
  collects U (fun l => if HasPrefix (keyAt p) prefix then retS (snoc l (itemFor Format prefix delimiter (keyAt p) i)) else retS l).
Proof.
  intros Hi Hu. destruct (HasPrefix (keyAt p) prefix) eqn:E; [|apply collects_nothing]. intros l w Hw. split; [done|]. exists [p].
  split; [unfold snoc, itemAt; cbn; by rewrite Hi|]. split; [apply NoDup_singleton|]. intros q ->%list_elem_of_singleton. split; [|done]. split; [by exists i|done].
Qed.

Lemma collects_weaken (U V : string -> Prop) c : (forall p, U p -> V p) -> collects U c -> collects V c.
Proof.
  intros Huv Hc l w Hw. destruct (Hc l w Hw) as [H1 H2]. split; [done|]. destruct (c l w).1; [|done]. destruct H2 as (ps & -> & Hn & Hp).
  exists ps. split; [done|]. split; [done|]. intros p Hq. destruct (Hp p Hq). auto.
Qed.

Lemma collects_seq (U V : string -> Prop) c d : (forall p, U p -> V p -> False) -> collects U c -> collects V d ->
  collects (fun p => U p \/ V p) (fun l => let! l := c l in d l).
Proof.
  intros Hdis Hc Hd l w Hw. destruct (Hc l w Hw) as [Hw1 H1]. unfold bindS. destruct (c l w) as [[l1|e] w1]; cbn [fst snd] in *; [|by split].
  destruct H1 as (ps & -> & Hn & Hp). destruct (Hd (l ++ map itemAt ps)%list w1 Hw1) as [Hw2 H2]. split; [done|].
  destruct (d _ w1).1; [|done]. destruct H2 as (qs & -> & Hm & Hq). exists (ps ++ qs)%list. split; [by rewrite map_app, app_assoc|].
  split; [apply NoDup_app; split; [done|split; [|done]]; intros x Hx Hy; destruct (Hp x Hx), (Hq x Hy); eauto|].
  intros p [Hx|Hx]%elem_of_app; [destruct (Hp p Hx)|destruct (Hq p Hx)]; auto.
Qed.

Lemma looks_sysW : looks (fun _ => True) sysW.
Proof. intros w Hw. unfold sysW. destruct (wd_faults w) as [|[] fs]; done. Qed.
Lemma looks_get : looks (fun w => wd_tree w = T) getS.
Proof. by intros w Hw. Qed.
Lemma looks_ret {A} (P : A -> Prop) a : P a -> looks P (retS a).
Proof. by intros Ha w Hw. Qed.
Lemma looks_bind {A B} (P : A -> Prop) (Q : B -> Prop) (e : W A) (k : A -> W B) : looks P e -> (forall a, P a -> looks Q (k a)) -> looks Q (bindS e k).
Proof.
  intros He Hk w Hw. specialize (He w Hw). unfold bindS. destruct (e w) as [[a|x] w1]; cbn [fst snd] in *; [|by destruct He].
  destruct He as [Hw1 Ha]. by apply Hk.
Qed.
Lemma looks_try {A} (P : A -> Prop) (e : W A) : looks P e -> looks (fun r => match r with Ok a => P a | Err _ => True end) (tryS e).
Proof. intros He w Hw. specialize (He w Hw). unfold tryS. destruct (e w) as [[a|x] w1]; done. Qed.
Lemma looks_lstat p : looks (fun n => n = T !! p) (lstat p).
Proof. apply (looks_bind _ _ _ _ looks_sysW). intros _ _. apply (looks_bind _ _ _ _ looks_get). intros w <-. by apply looks_ret. Qed.
Lemma looks_stat p : looks (fun n => n = T !! resolve T p) (stat p).
Proof. apply (looks_bind _ _ _ _ looks_sysW). intros _ _. apply (looks_bind _ _ _ _ looks_get). intros w <-. by apply looks_ret. Qed.
Lemma looks_ctx : looks (fun _ => True) ctxErrW.
Proof. intros w Hw. unfold ctxErrW, inXfer, zoomS, ctxErrX. destruct (xf_cancel (wd_xfer w)) as [|[] l]; done. Qed.

Lemma looks_visible p n : T !! p = Some n -> looks (fun v => v = true -> visibleAt p = true) (IsClientVisiblePath ign p).
Proof.
  intros Hp. unfold IsClientVisiblePath. destruct (_ || _); [by apply looks_ret|]. destruct (validateClientPath p ign) eqn:Ev; cbn [negb]; [|by apply looks_ret].
  apply (looks_bind _ _ _ _ (looks_try _ _ (looks_lstat p))). intros [m|] Hm; [|by apply looks_ret]. rewrite Hp in Hm. subst m.
  unfold visibleAt. rewrite Ev. cbn [andb]. destruct n; try (apply looks_ret; intros _; unfold landsAt; by rewrite Hp, Ev).
  apply (looks_bind _ _ _ _ looks_get). intros w Hw. apply looks_ret. rewrite Hw, SafePath_clean, Ev, (resolveIn_readable p _ Hp) by (by eapply (rd_names _ _ HT)). cbn [andb].
  by destruct (match landsAt T p with Some target => _ | None => _ end).
Qed.

Lemma collects_foldW (f : string -> list listingItem -> W (list listingItem)) (U : string -> string -> Prop) names :
  NoDup names -> (forall a b p, a ∈ names -> b ∈ names -> U a p -> U b p -> a = b) -> (forall a, a ∈ names -> collects (U a) (f a)) ->
  collects (fun p => exists a, a ∈ names /\ U a p) (foldW f names).
Proof.
  induction names as [|a names IH]; intros Hn Hd Hf; [apply collects_nothing|]. apply NoDup_cons in Hn as [Ha Hn]. cbn [foldW].
  eapply collects_weaken; [|apply (collects_seq (U a) (fun p => exists b, b ∈ names /\ U b p)); [|apply Hf; set_solver|apply IH; [done|set_solver|set_solver]]].
  - intros p [H|(b & Hb & H)]; [exists a|exists b]; set_solver.
  - intros p H1 (b & Hb & H2). apply Ha. rewrite (Hd a b p); set_solver.
Qed.

Lemma collects_batches fuel (f : string -> list listingItem -> W (list listingItem)) (U : string -> string -> Prop) names :
  NoDup names -> (forall a b p, a ∈ names -> b ∈ names -> U a p -> U b p -> a = b) -> (forall a, a ∈ names -> collects (U a) (f a)) ->
  collects (fun p => exists a, a ∈ names /\ U a p) (readBatches fuel f names).
Proof.
  revert names. induction fuel as [|fuel IH]; intros names Hn Hd Hf; cbn [readBatches]; [apply collects_nothing|].
  apply (collects_look _ _ _ _ looks_sysW). intros _ _. destruct names as [|x l]; [apply collects_nothing|]. set (names := x :: l) in *.
  pose proof (take_drop 256 names) as Etd. assert (forall a, a ∈ take 256 names -> a ∈ names) as Ht by (intros a Ha; rewrite <- Etd; set_solver).
  assert (forall a, a ∈ drop 256 names -> a ∈ names) as Hr by (intros a Ha; rewrite <- Etd; set_solver).
  rewrite <- Etd in Hn. apply NoDup_app in Hn as (Hn1 & Hn2 & Hn3).
  eapply collects_weaken; [|apply (collects_seq (fun p => exists a, a ∈ take 256 names /\ U a p) (fun p => exists a, a ∈ drop 256 names /\ U a p));
    [|apply collects_foldW; eauto|apply IH; eauto]].
  - intros p [(a & Ha & H)|(a & Ha & H)]; eauto.
  - intros p (a & Ha & H1) (b & Hb & H2). assert (a = b) as -> by eauto. by apply (Hn2 b).
Qed.

Lemma collects_entry walk dir name : (forall p, collects (below p) (walk p)) ->
  collects (atOrBelow (dir +:+ "/" +:+ name)) (walkEntry ign Format ctxErrW bp prefix delimiter snoc walk dir name).
Proof.
  intros Hwalk. unfold walkEntry. set (path := dir +:+ "/" +:+ name). apply (collects_look _ _ _ _ looks_ctx). intros _ _.
  destruct (IsScratchFile name); [apply collects_nothing|]. apply (collects_look _ _ _ _ (looks_lstat path)). intros n Hn.
  destruct n as [n|]; [|apply collects_nothing]. symmetry in Hn. pose proof (rd_names _ _ HT path n Hn) as Hclean.
  apply (collects_look _ _ _ _ (looks_visible path n Hn)). intros v Hv. destruct v; [|apply collects_nothing]. specialize (Hv eq_refl). cbn [negb].
  fold (keyAt path). assert (forall j, listedFile path = Some j -> collects (atOrBelow path)
     (fun l => if HasPrefix (keyAt path) prefix then retS (snoc l (itemFor Format prefix delimiter (keyAt path) j)) else retS l)) as Hone.
  { intros j Hj. apply collects_one; [done|by left]. }
  destruct n as [i| |target|].
  - apply Hone. unfold listedFile. by rewrite Hv, Hn.
  - destruct (_ && _); [apply collects_nothing|]. intros l w Hw. destruct (Hwalk path l w Hw) as [H1 H2].
    destruct (walk path l w) as [[l'|e] w']; cbn [fst snd] in *.
    + split; [done|]. destruct H2 as (ps & -> & Hnd & Hp). exists ps. split; [done|]. split; [done|]. intros p Hpp. destruct (Hp p Hpp). split; [done|by right].
    + destruct e; try done. by apply (collects_nothing (atOrBelow path) l w').
  - apply (collects_look _ _ _ _ looks_get). intros w ->. destruct (PathResolvesWithin T bp path) eqn:Ew; cbn [negb]; [|apply collects_nothing].
    apply (collects_look _ _ _ _ (looks_stat path)). intros m Hm. destruct m as [[j| | |]|]; try apply collects_nothing.
    apply Hone. unfold listedFile. by rewrite Hv, Hn, Ew, <- Hm.
  - apply collects_nothing.
Qed.

Lemma collects_walk fuel dir : collects (below dir) (walk ign Format readdir ctxErrW bp prefix delimiter snoc fuel dir).
Proof.
  revert dir. induction fuel as [|fuel IH]; intros dir; cbn [walk]; [apply collects_nothing|].
  apply (collects_look _ _ _ _ looks_ctx). intros _ _. apply (collects_look _ _ _ _ looks_sysW). intros _ _.
  apply (collects_look _ _ _ _ looks_get). intros w ->. assert (forall e, collects (below dir) (fun _ => failS e)) as Hfail by (by intros e l w' Hw').
  destruct (T !! dir) as [[]|]; try apply Hfail. pose proof (rd_plain _ _ HT dir) as Hpl. rewrite Forall_forall in Hpl.
  eapply collects_weaken; [|apply (collects_batches _ _ (fun a => atOrBelow (dir +:+ "/" +:+ a)))].
  - intros p (a & _ & H). by eapply atOrBelow_below.
  - apply (rd_once _ _ HT).
  - intros a b p Ha Hb. apply below_disjoint; auto.
  - intros a Ha. apply collects_entry. apply IH.
Qed.

(** *** Completeness: when no call fails *)

(** The computation visits every listed path in [U] and changes nothing else. *)
Definition visitsAll (U : string -> Prop) (c : list listingItem -> W (list listingItem)) : Prop := forall l w, wd_tree w = T -> calm w ->
  exists ps, c l w = (Ok (l ++ map itemAt ps)%list, w) /\ forall p, listed p -> U p -> p ∈ ps.

Lemma visitsAll_look {A} U (e : W A) (a : A) (k : A -> list listingItem -> W (list listingItem)) :
  (forall w, wd_tree w = T -> calm w -> e w = (Ok a, w)) -> visitsAll U (k a) -> visitsAll U (fun l => let! a := e in k a l).
Proof. intros He Hk l w Hw Hc. unfold bindS. rewrite (He w Hw Hc). by apply Hk. Qed.

Lemma visitsAll_nothing (U : string -> Prop) : (forall p, listed p -> U p -> False) -> visitsAll U (fun l => retS l).
Proof. intros Hu l w Hw Hc. exists []. split; [by rewrite app_nil_r|]. intros p Hp Hup. by destruct (Hu p Hp Hup). Qed.

Lemma visitsAll_weaken (U V : string -> Prop) c : (forall p, listed p -> V p -> U p) -> visitsAll U c -> visitsAll V c.
Proof. intros Huv Hc l w Hw Hq. destruct (Hc l w Hw Hq) as (ps & E & Hps). exists ps. split; [done|]. intros p Hp Hv. by apply Hps, Huv. Qed.

Lemma visitsAll_seq (U V : string -> Prop) c d : visitsAll U c -> visitsAll V d -> visitsAll (fun p => U p \/ V p) (fun l => let! l := c l in d l).
Proof.
  intros Hc Hd l w Hw Hq. destruct (Hc l w Hw Hq) as (ps & E & Hps). unfold bindS. rewrite E.
  destruct (Hd (l ++ map itemAt ps)%list w Hw Hq) as (qs & E' & Hqs). rewrite E'. exists (ps ++ qs)%list.
  split; [by rewrite map_app, app_assoc|]. intros p Hp [H|H]; apply elem_of_app; auto.
Qed.

Lemma sysW_quiet w : calm w -> sysW w = (Ok tt, w).
Proof. intros [Hf _]. unfold sysW. by rewrite Hf. Qed.
Lemma ctxErrW_quiet w : calm w -> ctxErrW w = (Ok tt, w).
Proof. intros [_ Hu]. by apply ctxErrW_uncancelled. Qed.
Lemma lstat_quiet p w : calm w -> lstat p w = (Ok (wd_tree w !! p), w).
Proof. intros Hc. unfold lstat, bindS. by rewrite sysW_quiet. Qed.
Lemma stat_quiet p w : calm w -> stat p w = (Ok (wd_tree w !! resolve (wd_tree w) p), w).
Proof. intros Hc. unfold stat, bindS. by rewrite sysW_quiet. Qed.

Lemma visible_calm p n w : wd_tree w = T -> calm w -> T !! p = Some n -> IsClientVisiblePath ign p w = (Ok (visibleAt p), w).
Proof.
  intros Hw Hc Hn. pose proof (rd_names _ _ HT p n Hn) as Hclean. destruct (clean_not_up p Hclean) as (H1 & _ & H3 & _).
  unfold IsClientVisiblePath, visibleAt. rewrite H1, (proj2 (eqs_false _ _) H3). cbn [orb]. destruct (validateClientPath p ign) eqn:Ev; [|done]. cbn [negb andb].
  unfold bindS, tryS. rewrite lstat_quiet, Hw, Hn by done. destruct n as [i| |target|]; unfold getS, retS; try (unfold landsAt; by rewrite Hn, Ev).
  rewrite Hw, SafePath_clean, Ev, (resolveIn_readable p _ Hn) by done. cbn [andb]. by destruct (match landsAt T p with Some t => _ | None => _ end).
Qed.

(** Only a directory has listed paths below it, and it is not listed itself. *)
Lemma listed_only path p : listed p -> atOrBelow path p -> T !! path <> Some NDir -> p = path.
Proof. intros Hl [->|Hp] Hn; [done|]. destruct (listed_in p Hl) as [m Hm]. by destruct Hn; eapply (rd_dirs _ _ HT). Qed.

Lemma listed_below path p : listed p -> atOrBelow path p -> T !! path = Some NDir -> below path p.
Proof. intros Hl [->|Hp] Hn; [|done]. destruct Hl as [[i Hi] _]. unfold listedFile in Hi. rewrite Hn in Hi. by destruct (negb _). Qed.

Lemma visibleAt_above d p : listed p -> below d p -> T !! d = Some NDir -> visibleAt d = true.
Proof.
  intros Hl Hb Hd. destruct (listed_in p Hl) as [n Hn]. pose proof (rd_names _ _ HT p n Hn) as Hclean.
  pose proof (listed_visible p Hl) as Hv. unfold visibleAt in *. apply andb_true_iff in Hv as [Hv _]. unfold landsAt. rewrite Hd.
  by rewrite (validateClientPath_parent d p ign Hb Hclean Hv).
Qed.

Lemma scratch_not_listed dir name p : ContainsByte name "/" = false -> IsScratchFile name = true -> listed p -> atOrBelow (dir +:+ "/" +:+ name) p -> False.
Proof.
  intros Hpl Hs Hl Hp. pose proof (listed_visible p Hl) as Hv. unfold visibleAt in Hv. apply andb_true_iff in Hv as [Hv _].
  apply validateClientPath_exposed in Hv as (_ & He & _). apply atOrBelow_parts in Hp as [l E]. rewrite E, Split_app_sep, (Split_no_slash name) in He by done.
  apply Forall_app in He as [He _]. apply Forall_app in He as [_ He]. apply Forall_inv in He. by rewrite (scratch_spelling _ Hs) in He.
Qed.

Lemma keyAt_below key : keyAt (bp +:+ "/" +:+ key) = key.
Proof. unfold keyAt. rewrite <- string_app_assoc. apply TrimPrefix_app. Qed.

(** A directory that holds a listed key is not skipped. *)
Lemma subtree_entered path p : below bp path -> listed p -> below path p ->
  negb (prefix =s "") && negb (HasPrefix (keyAt path +:+ "/") prefix) && negb (HasPrefix prefix (keyAt path +:+ "/")) = false.
Proof.
  intros [key ->] [_ Hp] [rest ->]. rewrite keyAt_below. rewrite !string_app_assoc, keyAt_below in Hp.
  destruct (prefixes_comparable (key +:+ "/" +:+ rest) (key +:+ "/") prefix) as [H|H]; [rewrite <- string_app_assoc; apply HasPrefix_app|done| |];
    rewrite H; cbn [negb]; by rewrite ?andb_false_r.
Qed.

Lemma visitsAll_get U (k : World -> list listingItem -> W (list listingItem)) :
  (forall w, wd_tree w = T -> visitsAll U (k w)) -> visitsAll U (fun l => let! w := getS in k w l).
Proof. intros Hk l w Hw Hc. by apply (Hk w Hw l w). Qed.

Lemma visitsAll_file path j : T !! path <> Some NDir -> listedFile path = Some j ->
  visitsAll (atOrBelow path) (fun l => if HasPrefix (keyAt path) prefix then retS (snoc l (itemFor Format prefix delimiter (keyAt path) j)) else retS l).
Proof.
  intros Hn Hj. destruct (HasPrefix (keyAt path) prefix) eqn:E.
  - intros l w Hw Hc. exists [path]. split; [unfold snoc, itemAt; cbn; by rewrite Hj|]. intros p Hl Hp. rewrite (listed_only path p Hl Hp Hn). set_solver.
  - apply visitsAll_nothing. intros p Hl Hp. pose proof (listed_only path p Hl Hp Hn) as ->. destruct Hl as [_ Hl]. congruence.
Qed.

Lemma visitsAll_none path : T !! path <> Some NDir -> listedFile path = None -> visitsAll (atOrBelow path) (fun l => retS l).
Proof.
  intros Hn Hj. apply visitsAll_nothing. intros p Hl Hp. pose proof (listed_only path p Hl Hp Hn) as ->. destruct Hl as [[i Hi] _]. congruence.
Qed.

(** A hidden entry hides what it holds. *)
Lemma visitsAll_hidden path : visibleAt path = false -> visitsAll (atOrBelow path) (fun l => retS l).
Proof.
  intros Ev. apply visitsAll_nothing. intros p Hl Hp. pose proof (listed_visible p Hl) as Hv. destruct Hp as [->|Hp]; [congruence|].
  destruct (listed_in p Hl) as [m Hm]. by rewrite (visibleAt_above path p Hl Hp (rd_dirs _ _ HT path p m Hp Hm)) in Ev.
Qed.

Lemma visitsAll_entry walk dir name (path := dir +:+ "/" +:+ name) : ContainsByte name "/" = false -> below bp path ->
  (T !! path = Some NDir -> visitsAll (below path) (walk path)) ->
  visitsAll (atOrBelow path) (walkEntry ign Format ctxErrW bp prefix delimiter snoc walk dir name).
Proof.
  intros Hpl Hbp Hwalk. unfold walkEntry. fold path. apply (visitsAll_look _ _ tt); [intros w _; apply ctxErrW_quiet|].
  destruct (IsScratchFile name) eqn:Es; [apply visitsAll_nothing; intros p; by apply scratch_not_listed|].
  apply (visitsAll_look _ _ (T !! path)); [intros w <-; apply lstat_quiet|]. destruct (T !! path) as [n|] eqn:En.
  2: { apply visitsAll_none; [by rewrite En|]. unfold listedFile. rewrite En. by destruct (negb _). }
  apply (visitsAll_look _ _ (visibleAt path)); [intros w Hw Hc; by apply (visible_calm path n)|].
  destruct (visibleAt path) eqn:Ev; cbn [negb]; [|by apply visitsAll_hidden]. fold (keyAt path). destruct n as [i| |target|].
  - apply visitsAll_file; [by rewrite En|]. unfold listedFile. by rewrite Ev, En.
  - destruct (_ && _) eqn:Esub.
    + apply visitsAll_nothing. intros p Hl Hp. by rewrite (subtree_entered path p Hbp Hl (listed_below path p Hl Hp En)) in Esub.
    + intros l w Hw Hc. destruct (Hwalk eq_refl l w Hw Hc) as (ps & E & Hps). exists ps. rewrite E. split; [done|].
      intros p Hl Hp. by apply Hps, listed_below.
  - apply visitsAll_get. intros w ->. destruct (PathResolvesWithin T bp path) eqn:Ew; cbn [negb].
    2: { apply visitsAll_none; [by rewrite En|]. unfold listedFile. by rewrite Ev, En, Ew. }
    apply (visitsAll_look _ _ (T !! resolve T path)); [intros w' <-; apply stat_quiet|].
    destruct (T !! resolve T path) as [[j| | |]|] eqn:Er; try (apply visitsAll_none; [by rewrite En|]; unfold listedFile; by rewrite Ev, En, Ew, Er).
    apply visitsAll_file; [by rewrite En|]. unfold listedFile. by rewrite Ev, En, Ew, Er.
  - apply visitsAll_none; [by rewrite En|]. unfold listedFile. by rewrite Ev, En.
Qed.

Lemma visitsAll_foldW (f : string -> list listingItem -> W (list listingItem)) (U : string -> string -> Prop) names :
  (forall a, a ∈ names -> visitsAll (U a) (f a)) -> visitsAll (fun p => exists a, a ∈ names /\ U a p) (foldW f names).
Proof.
  induction names as [|a names IH]; intros Hf; [apply visitsAll_nothing; set_solver|]. cbn [foldW].
  eapply visitsAll_weaken; [|apply (visitsAll_seq (U a) (fun p => exists b, b ∈ names /\ U b p)); [apply Hf; set_solver|apply IH; set_solver]].
  intros p _ (b & [->|Hb]%elem_of_cons & H); [by left|]. right. by exists b.
Qed.

Lemma visitsAll_batches fuel (f : string -> list listingItem -> W (list listingItem)) (U : string -> string -> Prop) names : (length names < fuel)%nat ->
  (forall a, a ∈ names -> visitsAll (U a) (f a)) -> visitsAll (fun p => exists a, a ∈ names /\ U a p) (readBatches fuel f names).
Proof.
  revert names. induction fuel as [|fuel IH]; intros names Hlen Hf; [lia|]. cbn [readBatches].
  apply (visitsAll_look _ _ tt); [intros w _; apply sysW_quiet|]. destruct names as [|x l]; [apply visitsAll_nothing; set_solver|]. set (names := x :: l) in *.
  pose proof (take_drop 256 names) as Etd.
  eapply visitsAll_weaken; [|apply (visitsAll_seq (fun p => exists a, a ∈ take 256 names /\ U a p) (fun p => exists a, a ∈ drop 256 names /\ U a p));
    [apply visitsAll_foldW|apply IH; [rewrite length_drop; cbn in *; lia|]]; intros a Ha; apply Hf; rewrite <- Etd; set_solver].
  intros p _ (a & Ha & H). rewrite <- Etd in Ha. apply elem_of_app in Ha as [Ha|Ha]; [left|right]; by exists a.
Qed.

Lemma depthBound_spec q n : T !! q = Some n -> (String.length q < depthBound T)%nat.
Proof.
  intros Hq. unfold depthBound. enough (String.length q <= max_list (map (fun kv : string * node => String.length kv.1) (map_to_list T)))%nat by lia.
  apply max_list_elem_of_le.
  apply list_elem_of_In, in_map_iff. exists (q, n). split; [done|]. by apply list_elem_of_In, elem_of_map_to_list.
Qed.

Lemma visitsAll_walk fuel dir : (depthBound T <= fuel + String.length dir)%nat -> atOrBelow bp dir -> T !! dir = Some NDir ->
  visitsAll (below dir) (walk ign Format readdir ctxErrW bp prefix delimiter snoc fuel dir).
Proof.
  revert dir. induction fuel as [|fuel IH]; intros dir Hf Hb Hd; [pose proof (depthBound_spec dir NDir Hd); lia|]. cbn [walk].
  apply (visitsAll_look _ _ tt); [intros w _; apply ctxErrW_quiet|]. apply (visitsAll_look _ _ tt); [intros w _; apply sysW_quiet|].
  apply visitsAll_get. intros w ->. rewrite Hd. pose proof (rd_plain _ _ HT dir) as Hpl. rewrite Forall_forall in Hpl.
  assert (forall a, below bp (dir +:+ "/" +:+ a)) as Hbelow.
  { intros a. destruct Hb as [->|[rest ->]]; [by exists a|]. exists (rest +:+ "/" +:+ a). by rewrite !string_app_assoc. }
  eapply visitsAll_weaken; [|apply (visitsAll_batches _ _ (fun a => atOrBelow (dir +:+ "/" +:+ a))); [lia|]].
  - intros p Hl Hp. destruct (below_split dir p Hp) as (a & Ha & Hpa). exists a. split; [|done]. destruct (listed_in p Hl) as [n Hn].
    destruct Hpa as [->|Hpa]; [by eapply (rd_all _ _ HT)|]. eapply (rd_all _ _ HT); [|done]. by eapply (rd_dirs _ _ HT).
  - intros a Ha. apply visitsAll_entry; [by apply Hpl|apply Hbelow|]. intros Hda. apply IH; [|by right|done].
    rewrite !string_length_app. cbn. lia.
Qed.
End Bucket.

(** ** Items and keys *)

Lemma Index_Some s d n : Index s d = Some n -> exists a b, s = a +:+ d +:+ b /\ String.length a = n.
Proof.
  revert n. induction s as [|c s IH]; intros n; cbn [Index].
  - destruct (HasPrefix "" d) eqn:E; [|done]. intros [= <-]. apply HasPrefix_spec in E as [t E]. by exists "", t.
  - destruct (HasPrefix (String c s) d) eqn:E; [intros [= <-]; apply HasPrefix_spec in E as [t E]; by exists "", t|].
    destruct (Index s d) as [k|]; [|done]. intros [= <-]. destruct (IH k eq_refl) as (a & b & -> & <-). by exists (String c a), b.
Qed.

Lemma Index_None a d b : Index (a +:+ d +:+ b) d <> None.
Proof.
  induction a as [|c a IH].
  - intros H. pose proof (HasPrefix_app d b) as E. change ("" +:+ d +:+ b) with (d +:+ b) in H. destruct (d +:+ b) eqn:Es; cbn [Index] in H; by rewrite E in H.
  - change (String c a +:+ d +:+ b) with (String c (a +:+ d +:+ b)). cbn [Index]. destruct (HasPrefix _ d); [done|]. by destruct (Index (a +:+ d +:+ b) d).
Qed.

Lemma stake_whole a b : stake (String.length a) (a +:+ b) = a.
Proof. rewrite stake_app by lia. by apply stake_all. Qed.

Section Items.
Context (Format : Z -> string) (prefix delimiter : string).

(** A grouped key is shown by the text up to its first delimiter after the prefix. *)
Lemma itemFor_cases key i : HasPrefix key prefix = true ->
  (itemFor Format prefix delimiter key i = objectItem (objectAt Format key i) /\ (delimiter = "" \/ Index (sdrop (String.length prefix) key) delimiter = None)) \/
  (delimiter <> "" /\ exists a b, key = prefix +:+ a +:+ delimiter +:+ b /\ Index (a +:+ delimiter) delimiter <> None /\
     itemFor Format prefix delimiter key i = prefixItem (prefix +:+ a +:+ delimiter)).
Proof.
  intros [s ->]%HasPrefix_spec. unfold itemFor. rewrite sdrop_app. destruct (delimiter =s "") eqn:Ed; [apply eqs_true in Ed; by auto|].
  apply eqs_false in Ed. destruct (Index s delimiter) as [n|] eqn:En; [right|by auto]. destruct (Index_Some s delimiter n En) as (a & b & -> & <-).
  split; [done|]. exists a, b. split; [done|]. split.
  - intros H. apply (Index_None a delimiter ""). by rewrite string_app_nil_r.
  - f_equal. rewrite <- !string_app_assoc.
    replace (String.length prefix + String.length a + String.length delimiter)%nat with (String.length ((prefix +:+ a) +:+ delimiter)) by (rewrite !string_length_app; lia).
    apply stake_whole.
Qed.

Lemma itemFor_key key i : HasPrefix key prefix = true -> li_prefix (itemFor Format prefix delimiter key i) = false -> li_key (itemFor Format prefix delimiter key i) = key.
Proof. intros Hp. destruct (itemFor_cases key i Hp) as [(-> & _)|(_ & a & b & _ & _ & ->)]; done. Qed.

(** An object and a group never share a key, and a group is its key. *)
Lemma itemFor_same k1 i1 k2 i2 : HasPrefix k1 prefix = true -> HasPrefix k2 prefix = true ->
  li_key (itemFor Format prefix delimiter k1 i1) = li_key (itemFor Format prefix delimiter k2 i2) ->
  itemFor Format prefix delimiter k1 i1 = itemFor Format prefix delimiter k2 i2 \/
  (k1 = k2 /\ li_prefix (itemFor Format prefix delimiter k1 i1) = false /\ li_prefix (itemFor Format prefix delimiter k2 i2) = false).
Proof.
  intros H1 H2. destruct (itemFor_cases k1 i1 H1) as [(-> & E1)|(Hd1 & a1 & b1 & _ & F1 & ->)], (itemFor_cases k2 i2 H2) as [(-> & E2)|(Hd2 & a2 & b2 & _ & F2 & ->)];
    cbn; intros E; subst; [by right| | |left; by f_equal].
  - destruct E1 as [?|E1]; [done|]. by rewrite sdrop_app in E1.
  - destruct E2 as [?|E2]; [done|]. by rewrite sdrop_app in E2.
Qed.

Lemma itemFor_nonempty key i : HasPrefix key prefix = true -> key <> "" -> li_key (itemFor Format prefix delimiter key i) <> "".
Proof.
  intros Hp Hk. destruct (itemFor_cases key i Hp) as [(-> & _)|(Hd & a & b & _ & _ & ->)]; [done|]. cbn. intros E.
  apply Hd. destruct prefix; [|done]. by destruct a.
Qed.
End Items.

(** ** Listings *)

(** An item is an object under its key or a group. *)
Definition plainItem (it : listingItem) : Prop := it = if li_prefix it then prefixItem (li_key it) else objectItem (li_object it).
Definition isObject (it : listingItem) : bool := negb (li_prefix it).

Lemma itemFor_plain Format prefix delimiter key i : plainItem (itemFor Format prefix delimiter key i).
Proof. unfold itemFor. by destruct (if delimiter =s "" then None else Index _ _). Qed.

Lemma plain_split C : Forall plainItem C ->
  (map objectItem (map li_object (List.filter isObject C)) ++ map prefixItem (map li_key (List.filter li_prefix C)))%list ≡ₚ C.
Proof.
  induction 1 as [|x C Hx _ IH]; [done|]. unfold plainItem in Hx. cbn [List.filter]. unfold isObject at 1. destruct (li_prefix x); cbn [negb map app].
  - rewrite <- Hx. by rewrite <- Permutation_middle, IH.
  - rewrite <- Hx. by rewrite IH.
Qed.

Lemma itemsOf_sort C : Forall plainItem C -> NoDup (map li_key C) ->
  itemsOf (map li_object (List.filter isObject C)) (map li_key (List.filter li_prefix C)) = merge_sort (by_string li_key) C.
Proof.
  intros Hp Hn. unfold itemsOf. pose proof (plain_split C Hp) as Hs. apply strict_unique; [apply sort_strict; by rewrite Hs|by apply sort_strict|].
  intros x. by rewrite !elem_of_merge_sort, Hs.
Qed.

(** What the reference walk ends with. *)
Lemma collectItem_fold l st : let st' := fold_left collectItem l st in
  st'.1 = (st.1 ++ map li_object (List.filter isObject l))%list /\ forall k, k ∈ st'.2 <-> k ∈ st.2 \/ exists it, it ∈ l /\ li_prefix it = true /\ li_key it = k.
Proof.
  revert st. induction l as [|x l IH]; intros st; cbn [fold_left]; [split; [by rewrite app_nil_r|]; set_solver|].
  destruct (IH (collectItem st x)) as [H1 H2]. cbn zeta. split.
  - rewrite H1. unfold collectItem. cbn [List.filter]. unfold isObject. destruct (li_prefix x); cbn [negb fst]; [done|]. by rewrite <- app_assoc.
  - intros k. rewrite H2. unfold collectItem. destruct (li_prefix x) eqn:Ex; cbn [snd]; [|split].
    + rewrite elem_of_union, elem_of_singleton. split.
      * intros [[->|?]|(it & Hi & Hr)]; [right; exists x; split; [set_solver|done]|by left|right; exists it; split; [set_solver|done]].
      * intros [?|(it & [->|Hi]%elem_of_cons & Hip & <-)]; [left; by right|left; by left|right; by exists it].
    + intros [?|(it & ? & ?)]; [by left|right; exists it; set_solver].
    + intros [?|(it & [->|Hi]%elem_of_cons & Hip & <-)]; [by left|congruence|]. right. by exists it.
Qed.

Section Results.
Context (ign : list string) (Format : Z -> string) (readdir : string -> list string) (bp prefix delimiter : string) (T : gmap string node).
Context (HT : Readable T readdir).
Abbreviation itemOf := (itemAt ign Format bp prefix delimiter T).
Abbreviation shownAt := (fun p => listed ign bp prefix T p /\ below bp p).

Lemma shown_item p : shownAt p -> exists key i, p = bp +:+ "/" +:+ key /\ key <> "" /\ HasPrefix key prefix = true /\ itemOf p = itemFor Format prefix delimiter key i.
Proof.
  intros [Hl [key ->]]. destruct (listed_in _ _ _ _ _ Hl) as [n Hn]. pose proof (rd_names _ _ HT _ _ Hn) as [Hg _].
  destruct Hl as [[i Hi] Hp]. rewrite keyAt_below in Hp. exists key, i. split; [done|]. split; [|split; [done|]].
  - intros ->. rewrite Split_app_sep in Hg. apply Forall_app in Hg as [_ Hg]. apply Forall_inv, good_part_spec in Hg. naive_solver.
  - unfold itemAt. by rewrite Hi, keyAt_below.
Qed.

Lemma shown_consistent p q : shownAt p -> shownAt q -> li_key (itemOf p) = li_key (itemOf q) ->
  itemOf p = itemOf q /\ (li_prefix (itemOf p) = false -> p = q).
Proof.
  intros (k1 & i1 & -> & _ & H1 & E1)%shown_item (k2 & i2 & -> & _ & H2 & E2)%shown_item. rewrite E1, E2. intros E.
  destruct (itemFor_same Format prefix delimiter k1 i1 k2 i2 H1 H2 E) as [Ei|(-> & _)].
  - split; [done|]. intros Hf. assert (k1 = k2) as ->; [|done].
    rewrite <- (itemFor_key Format prefix delimiter k1 i1), <- (itemFor_key Format prefix delimiter k2 i2) by congruence. done.
  - split; [|done]. rewrite E1 in E2. done.
Qed.

Lemma items_consistent ps : (forall p, p ∈ ps -> shownAt p) -> consistent (map itemOf ps).
Proof.
  intros Hps x y Hx Hy E. apply list_elem_of_In, in_map_iff in Hx as (p & <- & Hp), Hy as (q & <- & Hq).
  apply list_elem_of_In in Hp, Hq. by apply shown_consistent; [apply Hps|apply Hps|].
Qed.

Lemma items_plain ps : (forall p, p ∈ ps -> shownAt p) -> Forall (fun it => plainItem it /\ li_key it <> "") (map itemOf ps).
Proof.
  intros Hps. apply Forall_forall. intros x Hx. apply list_elem_of_In, in_map_iff in Hx as (p & <- & Hp). apply list_elem_of_In, Hps in Hp.
  destruct (shown_item p Hp) as (key & i & _ & Hne & Hpre & ->). split; [apply itemFor_plain|by apply itemFor_nonempty].
Qed.

Lemma objects_once ps : NoDup ps -> (forall p, p ∈ ps -> shownAt p) -> NoDup (map li_key (List.filter isObject (map itemOf ps))).
Proof.
  induction 1 as [|p ps Hp Hn IH]; intros Hps; [constructor|]. cbn [map List.filter].
  assert (NoDup (map li_key (List.filter isObject (map itemOf ps)))) as Hrest by (apply IH; intros q Hq; apply Hps; by right).
  destruct (isObject (itemOf p)) eqn:Eo; [|done]. cbn [map]. apply NoDup_cons. split; [|done]. intros Hin.
  apply list_elem_of_In, in_map_iff in Hin as (x & Ek & Hx). apply filter_In in Hx as [Hx _]. apply in_map_iff in Hx as (q & <- & Hq). apply list_elem_of_In in Hq.
  destruct (shown_consistent p q) as [_ Heq]; [apply Hps; by left|apply Hps; by right|done|]. apply Hp. rewrite Heq; [done|]. unfold isObject in Eo.
  by apply negb_true_iff in Eo.
Qed.

(** The items of the reference set, in order. *)
Definition reference (l : list listingItem) : list listingItem :=
  let st := fold_left collectItem l ([], ∅) in itemsOf (merge_sort (by_string ob_Key) st.1) (merge_sort (by_string id) (elements st.2)).

Lemma plain_object it : plainItem it -> isObject it = true -> it = objectItem (li_object it).
Proof. unfold plainItem, isObject. by destruct (li_prefix it). Qed.
Lemma plain_prefix it : plainItem it -> li_prefix it = true -> it = prefixItem (li_key it).
Proof. unfold plainItem. by intros Hp E; rewrite E in Hp. Qed.

Lemma reference_mixture (l : list listingItem) (st := fold_left collectItem l ([], ∅)) : Forall plainItem l -> forall x,
  x ∈ (map objectItem (merge_sort (by_string ob_Key) st.1) ++ map prefixItem (merge_sort (by_string id) (elements st.2)))%list <-> x ∈ l.
Proof.
  intros Hpl x. destruct (collectItem_fold l ([], ∅)) as [H1 H2]. fold st in H1, H2. cbn [fst snd app] in *. rewrite Forall_forall in Hpl.
  rewrite elem_of_app, !list_elem_of_In, !in_map_iff. split.
  - intros [(o & <- & Ho)|(k & <- & Hk)]; apply list_elem_of_In, elem_of_merge_sort in Ho || apply list_elem_of_In, elem_of_merge_sort in Hk.
    + rewrite H1 in Ho. apply list_elem_of_In, in_map_iff in Ho as (it & <- & Hit). apply filter_In in Hit as [Hit Hio].
      rewrite <- plain_object; [done|apply Hpl; by apply list_elem_of_In|done].
    + apply elem_of_elements, H2 in Hk as [Hk|(it & Hit & Hip & <-)]; [set_solver|]. rewrite <- plain_prefix; [by apply list_elem_of_In|by apply Hpl|done].
  - intros Hx. apply list_elem_of_In in Hx. pose proof (Hpl x Hx) as Hp. destruct (li_prefix x) eqn:Ex.
    + right. exists (li_key x). split; [symmetry; by apply plain_prefix|]. apply list_elem_of_In, elem_of_merge_sort, elem_of_elements, H2. right. by exists x.
    + left. exists (li_object x). assert (isObject x = true) as Eo by (unfold isObject; by rewrite Ex). split; [symmetry; by apply plain_object|].
      apply list_elem_of_In, elem_of_merge_sort. rewrite H1. apply list_elem_of_In, in_map_iff. exists x. split; [done|]. apply filter_In. split; [by apply list_elem_of_In|done].
Qed.

Lemma reference_sorted ps : NoDup ps -> (forall p, p ∈ ps -> shownAt p) -> let l := map itemOf ps in
  StronglySorted before (reference l) /\ (forall x, x ∈ reference l <-> x ∈ l) /\ Forall (fun it => li_key it <> "") (reference l).
Proof.
  intros Hn Hps l. pose proof (items_plain ps Hps) as Hpl. fold l in Hpl. assert (Forall plainItem l) as Hp by (eapply Forall_impl; [exact Hpl|by intros x []]).
  pose proof (reference_mixture l Hp) as Hmix. destruct (collectItem_fold l ([], ∅)) as [H1 _].
  assert (forall x, x ∈ reference l <-> x ∈ l) as Hel by (intros x; unfold reference, itemsOf; by rewrite elem_of_merge_sort, Hmix).
  split; [|split; [done|]].
  - unfold reference, itemsOf. apply sort_strict. set (st := fold_left collectItem l ([], ∅)) in *. cbn [fst snd app] in *. rewrite map_app, !map_map. cbn [objectItem prefixItem li_key].
    apply NoDup_app. split; [|split].
    + rewrite (merge_sort_Permutation (by_string ob_Key)), H1. rewrite map_map.
      assert (map (fun x => ob_Key (li_object x)) (List.filter isObject l) = map li_key (List.filter isObject l)) as ->; [|by apply objects_once].
      apply map_ext_in. intros x Hx. apply filter_In in Hx as [Hx Ho]. rewrite Forall_forall in Hp. rewrite (plain_object x) at 2; [done|apply Hp; by apply list_elem_of_In|done].
    + intros k Hk1 Hk2. apply list_elem_of_In, in_map_iff in Hk1 as (o & <- & Ho), Hk2 as (k' & E & Hk). cbn in E. subst k'.
      assert (objectItem o ∈ l) as Hol by (apply Hmix, elem_of_app; left; apply list_elem_of_In, in_map; done).
      assert (prefixItem (ob_Key o) ∈ l) as Hkl by (apply Hmix, elem_of_app; right; apply list_elem_of_In, in_map; done).
      by pose proof (items_consistent ps Hps _ _ Hol Hkl eq_refl).
    + rewrite map_id, (merge_sort_Permutation (by_string id)). apply NoDup_elements.
  - apply Forall_forall. intros x Hx%Hel. rewrite Forall_forall in Hpl. by apply Hpl.
Qed.

(** The page out of the bounded candidates is the page of the reference set. *)
Lemma candidates_page ps after m : 0 <= m -> NoDup ps -> (forall p, p ∈ ps -> shownAt p) ->
  let st := fold_left (candidate after m) (map itemOf ps) ([], ∅) in
  paginate (map li_object (List.filter isObject st.1)) (map li_key (List.filter li_prefix st.1)) after m =
  pageOf (List.filter (later after) (reference (map itemOf ps))) m.
Proof.
  intros Hm Hn Hps st. destruct (reference_sorted ps Hn Hps) as (HF & Hel & Hne). pose proof (items_consistent ps Hps) as Hc.
  pose proof (candidates_kept after m Hm _ Hc) as Hk. pose proof (candidates_first after m Hm _ _ Hc HF Hel) as Hfirst. fold st in Hk, Hfirst.
  pose proof (items_plain ps Hps) as Hpl. rewrite Forall_forall in Hpl.
  assert (forall x, x ∈ st.1 -> plainItem x /\ li_key x <> "") as Hst by (intros x Hx; apply Hpl; by apply (kept_from _ _ _ _ Hk)).
  assert (itemsOf (map li_object (List.filter isObject st.1)) (map li_key (List.filter li_prefix st.1)) = take (Z.to_nat (m + 1)) (List.filter (later after) (reference (map itemOf ps)))) as Ei.
  { rewrite itemsOf_sort, Hfirst; [done|apply Forall_forall; intros x Hx; by apply Hst|apply (kept_keys _ _ _ _ Hk)]. }
  rewrite paginate_pageOf; [|done|rewrite itemsOf_sort; [apply sort_strict, (kept_keys _ _ _ _ Hk)|apply Forall_forall; intros x Hx; by apply Hst|apply (kept_keys _ _ _ _ Hk)]|].
  - rewrite Ei, filter_all, pageOf_take; [done|done|]. intros x Hx. rewrite <- Hfirst, elem_of_merge_sort in Hx. by apply (kept_from _ _ _ _ Hk).
  - rewrite Ei, <- Hfirst. apply Forall_forall. intros x Hx. apply elem_of_merge_sort in Hx. by apply Hst.
Qed.
End Results.

(** ** The page of the filesystem *)

Section Page.
Context (ign : list string) (Format : Z -> string) (readdir : string -> list string) (bp prefix delimiter : string).
Abbreviation visited := (walkListing ign Format readdir ctxErrW bp prefix delimiter snoc []).

Lemma visited_sound w l w' : Readable (wd_tree w) readdir -> visited w = (Ok l, w') ->
  exists ps, l = map (itemAt ign Format bp prefix delimiter (wd_tree w)) ps /\ NoDup ps /\ forall p, p ∈ ps -> listed ign bp prefix (wd_tree w) p /\ below bp p.
Proof.
  intros HT E. destruct (collects_walk ign Format readdir bp prefix delimiter (wd_tree w) HT (depthBound (wd_tree w)) bp [] w eq_refl) as [_ H].
  change (visited w) with (walk ign Format readdir ctxErrW bp prefix delimiter snoc (depthBound (wd_tree w)) bp [] w) in E. by rewrite E in H.
Qed.

Lemma visited_all w : Readable (wd_tree w) readdir -> calm w -> wd_tree w !! bp = Some NDir ->
  exists l, visited w = (Ok l, w) /\ forall p, listed ign bp prefix (wd_tree w) p -> below bp p -> itemAt ign Format bp prefix delimiter (wd_tree w) p ∈ l.
Proof.
  intros HT Hc Hbp. destruct (visitsAll_walk ign Format readdir bp prefix delimiter (wd_tree w) HT (depthBound (wd_tree w)) bp ltac:(lia) ltac:(by left) Hbp [] w eq_refl Hc) as (ps & E & Hps).
  exists (map (itemAt ign Format bp prefix delimiter (wd_tree w)) ps). split; [exact E|]. intros p Hl Hb. apply list_elem_of_In, in_map, list_elem_of_In. by apply Hps.
Qed.

(** Either walk ends as the collecting one does. *)
Lemma collectObjects_visited w : uncancelled w -> collectObjects ign Format readdir bp prefix delimiter w =
  match visited w with
  | (Ok l, w') => let st := fold_left collectItem l ([], ∅) in (Ok (merge_sort (by_string ob_Key) st.1, merge_sort (by_string id) (elements st.2)), w')
  | (Err e, w') => (Err e, w')
  end.
Proof.
  intros Hu. assert (alongside (fun _ _ => True) (retS tt) ctxErrW) as Hctx by (intros w' Hw'; by rewrite ctxErrW_uncancelled).
  pose proof (alongside_walkListing ign Format readdir bp prefix delimiter (retS tt) ctxErrW collectItem snoc (fun st l => st = fold_left collectItem l ([], ∅)) Hctx) as H.
  specialize (H ltac:(intros st l it ->; unfold snoc; by rewrite fold_left_app) ([], ∅) [] eq_refl w Hu). unfold collectObjects, bindS.
  destruct (walkListing _ _ _ (retS tt) _ _ _ _ _ w) as [[st|e] w1], (visited w) as [[l|e'] w2]; try done.
  - destruct H as (-> & -> & _). done.
  - destruct H as (-> & -> & _). done.
Qed.

Lemma filesystemPage_visited w after m : uncancelled w -> filesystemPage ign Format readdir bp prefix delimiter after m w =
  match visited w with
  | (Ok l, w') => let st := fold_left (candidate after m) l ([], ∅) in
                  (Ok (paginate (map li_object (List.filter isObject st.1)) (map li_key (List.filter li_prefix st.1)) after m), w')
  | (Err e, w') => (Err e, w')
  end.
Proof.
  intros Hu.
  pose proof (alongside_walkListing ign Format readdir bp prefix delimiter ctxErrW ctxErrW (candidate after m) snoc (fun st l => st = fold_left (candidate after m) l ([], ∅)) alongside_ctx_same) as H.
  specialize (H ltac:(intros st l it ->; unfold snoc; by rewrite fold_left_app) ([], ∅) [] eq_refl w Hu). unfold filesystemPage, bindS.
  destruct (walkListing _ _ _ ctxErrW _ _ _ (candidate after m) _ w) as [[st|e] w1], (visited w) as [[l|e'] w2]; try done.
  - destruct H as (-> & -> & _). done.
  - destruct H as (-> & -> & _). done.
Qed.

(** C32. A page of an S3 listing made with a heap of at most maxKeys + 1 candidates, as the walk
    meets the files in whatever order the system returns them, is the page that sorting and
    cutting the complete set of objects and common prefixes gives: the same objects, prefixes,
    truncation and token. Where a call of the walk fails, both fail alike. *)
Theorem filesystemPage_reference (after : string) (maxKeys : Z) (w : World) :
  Readable (wd_tree w) readdir -> uncancelled w -> 0 <= maxKeys ->
  filesystemPage ign Format readdir bp prefix delimiter after maxKeys w =
  match collectObjects ign Format readdir bp prefix delimiter w with
  | (Ok (objects, prefixes), w') => (Ok (paginate objects prefixes after maxKeys), w')
  | (Err e, w') => (Err e, w')
  end.
Proof.
  intros HT Hu Hm. rewrite filesystemPage_visited, collectObjects_visited by done. destruct (visited w) as [[l|e] w'] eqn:E; [|done].
  destruct (visited_sound w l w' HT E) as (ps & -> & Hn & Hps). cbn zeta. f_equal. f_equal.
  rewrite (candidates_page ign Format readdir bp prefix delimiter (wd_tree w) HT ps after maxKeys Hm Hn Hps).
  destruct (reference_sorted ign Format readdir bp prefix delimiter (wd_tree w) HT ps Hn Hps) as (HF & _ & Hne). by rewrite paginate_pageOf.
Qed.

(** The listing of a bucket: its visible files with the prefix, as objects or by their groups,
    in order and each once. *)
Definition isListing (T : gmap string node) (F : list listingItem) : Prop :=
  StronglySorted before F /\ forall it, it ∈ F <-> exists p, listed ign bp prefix T p /\ below bp p /\ it = itemAt ign Format bp prefix delimiter T p.

Lemma listing_page w after m : Readable (wd_tree w) readdir -> calm w -> wd_tree w !! bp = Some NDir -> 0 <= m ->
  exists F, isListing (wd_tree w) F /\ filesystemPage ign Format readdir bp prefix delimiter after m w = (Ok (pageOf (List.filter (later after) F) m), w).
Proof.
  intros HT Hc Hbp Hm. destruct (visited_all w HT Hc Hbp) as (l & E & Hall). destruct (visited_sound w l w HT E) as (ps & -> & Hn & Hps).
  destruct (reference_sorted ign Format readdir bp prefix delimiter (wd_tree w) HT ps Hn Hps) as (HF & Hel & Hne).
  exists (reference (map (itemAt ign Format bp prefix delimiter (wd_tree w)) ps)). split.
  - split; [done|]. intros it. rewrite Hel. split.
    + intros Hit. apply list_elem_of_In, in_map_iff in Hit as (p & <- & Hp). apply list_elem_of_In in Hp. exists p. destruct (Hps p Hp). done.
    + intros (p & Hl & Hb & ->). by apply Hall.
  - rewrite filesystemPage_visited by apply Hc. rewrite E. cbn zeta. f_equal. f_equal.
    by apply (candidates_page ign Format readdir bp prefix delimiter (wd_tree w) HT ps after m Hm Hn Hps).
Qed.

Lemma isListing_unique T F G : isListing T F -> isListing T G -> F = G.
Proof. intros [HF HF'] [HG HG']. apply strict_unique; [done|done|]. intros x. by rewrite HF', HG'. Qed.
End Page.
