(* ===== verification/Catalog.v ===== *)
(** * Listings out of the catalog

    The daemon lists a bucket from the names in its database rather than by walking it. The page
    is the same as the filesystem's wherever the database has the bucket's files, and a client
    that follows the tokens sees every key once. *)

From S2P Require Import Prelude GoStrings FileMeta Database Names Store Glob Validate Conditions Transfer Volume Paths Heap Runes Paging Listing Walk.

(** ** First occurrences *)

Lemma Index_first s d k x y : Index s d = Some k -> s = x +:+ d +:+ y -> (k <= String.length x)%nat.
Proof.
  revert k x. induction s as [|c s IH]; intros k x Hi Es.
  - destruct x; [|done]. cbn [Index] in Hi. destruct (HasPrefix "" d) eqn:E; [injection Hi as <-; lia|done].
  - cbn [Index] in Hi. destruct (HasPrefix (String c s) d) eqn:E; [injection Hi as <-; lia|]. destruct (Index s d) as [j|] eqn:Ej; [|done]. injection Hi as <-.
    destruct x as [|c' x]; [|injection Es as -> Es; specialize (IH j x eq_refl Es); cbn; lia].
    change ("" +:+ d +:+ y) with (d +:+ y) in Es. by rewrite Es, HasPrefix_app in E.
Qed.

(** The first occurrence stays the first when text is added after it. *)
Lemma Index_extend a d b : Index (a +:+ d) d = Some (String.length a) -> Index (a +:+ d +:+ b) d = Some (String.length a).
Proof.
  intros H. destruct (Index (a +:+ d +:+ b) d) as [k|] eqn:E; [|by apply Index_None in E]. f_equal.
  pose proof (Index_first _ _ _ a b E eq_refl) as Hle. destruct (Index_Some _ _ _ E) as (x & y & Exy & <-).
  destruct (decide (String.length x = String.length a)) as [|Hne]; [done|]. exfalso.
  assert (stake (String.length x + String.length d) (a +:+ d) = x +:+ d) as Ht.
  { rewrite <- (stake_app _ (a +:+ d) b) by (rewrite string_length_app; lia). rewrite string_app_assoc, Exy, <- string_app_assoc, <- string_length_app. apply stake_whole. }
  assert (exists z, a +:+ d = x +:+ d +:+ z) as [z Ez].
  { exists (sdrop (String.length x + String.length d) (a +:+ d)). rewrite <- string_app_assoc, <- Ht. clear. generalize (a +:+ d) as s. generalize (String.length x + String.length d)%nat as n.
    induction n as [|n IH]; intros s; [by destruct s|]. destruct s as [|c s]; [done|]. cbn. by rewrite <- IH. }
  pose proof (Index_first _ _ _ x z H Ez). lia.
Qed.

(** A key in the group [prefix a delimiter]. *)
Definition groupOf (prefix delimiter key a : string) : Prop :=
  delimiter <> "" /\ Index (a +:+ delimiter) delimiter = Some (String.length a) /\ exists b, key = prefix +:+ a +:+ delimiter +:+ b.

Section Groups.
Context (Format : Z -> string) (prefix delimiter : string).

Lemma Index_cut s d k a b : Index s d = Some k -> s = a +:+ d +:+ b -> String.length a = k -> Index (a +:+ d) d = Some (String.length a).
Proof.
  intros Hi -> Hk. destruct (Index (a +:+ d) d) as [j|] eqn:E.
  - f_equal. destruct (Index_Some _ _ _ E) as (x & y & Exy & Ex). pose proof (Index_first _ _ _ a "" E ltac:(by rewrite string_app_nil_r)).
    assert (a +:+ d +:+ b = x +:+ d +:+ (y +:+ b)) as Exb by (rewrite <- string_app_assoc, Exy; by rewrite !string_app_assoc).
    pose proof (Index_first _ _ _ _ _ Hi Exb). lia.
  - exfalso. apply (Index_None a d ""). by rewrite string_app_nil_r.
Qed.

Lemma itemFor_group key i : HasPrefix key prefix = true -> li_prefix (itemFor Format prefix delimiter key i) = true ->
  exists a, groupOf prefix delimiter key a /\ itemFor Format prefix delimiter key i = prefixItem (prefix +:+ a +:+ delimiter).
Proof.
  intros [s ->]%HasPrefix_spec. unfold itemFor. rewrite sdrop_app. destruct (delimiter =s "") eqn:Ed; [done|]. apply eqs_false in Ed.
  destruct (Index s delimiter) as [n|] eqn:En; [|done]. intros _. destruct (Index_Some s delimiter n En) as (a & b & Es & Ha). exists a.
  split; [split; [done|]; split; [by eapply Index_cut|exists b; by rewrite Es]|]. subst s. f_equal. rewrite <- !string_app_assoc, <- Ha.
  replace (String.length prefix + String.length a + String.length delimiter)%nat with (String.length ((prefix +:+ a) +:+ delimiter)) by (rewrite !string_length_app; lia).
  apply stake_whole.
Qed.

Lemma group_itemFor key i a : groupOf prefix delimiter key a -> itemFor Format prefix delimiter key i = prefixItem (prefix +:+ a +:+ delimiter).
Proof.
  intros (Hd & Ha & b & ->). unfold itemFor. rewrite sdrop_app, (proj2 (eqs_false _ _) Hd), (Index_extend _ _ b Ha). f_equal.
  rewrite <- !string_app_assoc. replace (String.length prefix + String.length a + String.length delimiter)%nat with (String.length ((prefix +:+ a) +:+ delimiter)) by (rewrite !string_length_app; lia).
  apply stake_whole.
Qed.

Lemma itemFor_object key i : HasPrefix key prefix = true -> li_prefix (itemFor Format prefix delimiter key i) = false ->
  itemFor Format prefix delimiter key i = objectItem (objectAt Format key i) /\ forall a, ~ groupOf prefix delimiter key a.
Proof.
  intros Hp Ho. destruct (itemFor_cases Format prefix delimiter key i Hp) as [(E & _)|(_ & a & b & _ & _ & E)]; [|by rewrite E in Ho].
  split; [done|]. intros a Ha. by rewrite (group_itemFor key i a Ha) in Ho.
Qed.

(** Items follow their keys: a later key outside the item's group is shown by a later item. *)
Lemma items_in_order k1 i1 k2 i2 : HasPrefix k1 prefix = true -> HasPrefix k2 prefix = true -> (k1 <s k2) = true ->
  HasPrefix k2 (li_key (itemFor Format prefix delimiter k1 i1)) = false \/ li_prefix (itemFor Format prefix delimiter k1 i1) = false ->
  before (itemFor Format prefix delimiter k1 i1) (itemFor Format prefix delimiter k2 i2).
Proof.
  intros H1 H2 Hlt Hout. unfold before. set (it1 := itemFor Format prefix delimiter k1 i1) in *. set (it2 := itemFor Format prefix delimiter k2 i2).
  (* What shows a key is a start of it. *)
  assert (forall k i, HasPrefix k prefix = true -> HasPrefix k (li_key (itemFor Format prefix delimiter k i)) = true) as Hstart.
  { intros k i Hk. destruct (li_prefix (itemFor Format prefix delimiter k i)) eqn:E.
    - destruct (itemFor_group k i Hk E) as (a & (_ & _ & b & ->) & ->). cbn. rewrite <- !string_app_assoc. apply HasPrefix_app.
    - rewrite itemFor_key by done. pose proof (HasPrefix_app k "") as Hk'. by rewrite string_app_nil_r in Hk'. }
  pose proof (Hstart k1 i1 H1) as Hs1. pose proof (Hstart k2 i2 H2) as Hs2. fold it1 in Hs1. fold it2 in Hs2.
  apply HasPrefix_spec in Hs1 as [b1 E1], Hs2 as [b2 E2].
  destruct (li_key it1 <s li_key it2) eqn:Hn; [done|]. exfalso.
  (* Otherwise the second item's text starts the first key. *)
  assert ((k1 <s li_key it2 +:+ "") = false) as Hge.
  { rewrite string_app_nil_r. destruct (k1 <s li_key it2) eqn:E; [|done]. rewrite <- Hn. symmetry. destruct b1 as [|c b1]; [rewrite string_app_nil_r in E1; by rewrite <- E1|].
    apply (ltb_trans _ k1); [|done]. rewrite E1. rewrite <- (string_app_nil_r (li_key it1)) at 1. by rewrite ltb_app. }
  pose proof Hlt as Hlt'. rewrite E2 in Hlt. destruct (between_common _ _ _ k1 Hge Hlt) as [z Ez].
  destruct (li_prefix it2) eqn:Ep2.
  - destruct (itemFor_group k2 i2 H2 Ep2) as (a2 & (Hd & Ha2 & b & Ek2) & Ei2). fold it2 in Ei2. rewrite Ei2 in Ez. cbn in Ez.
    assert (groupOf prefix delimiter k1 a2) as Hg by (split; [done|]; split; [done|]; exists z; by rewrite Ez, !string_app_assoc).
    pose proof (group_itemFor k1 i1 a2 Hg) as Ei1. fold it1 in Ei1. destruct Hout as [Hout|Hout]; [|by rewrite Ei1 in Hout].
    rewrite Ei1 in Hout. cbn [prefixItem li_key] in Hout. by rewrite Ek2, <- !string_app_assoc, HasPrefix_app in Hout.
  - assert (li_key it2 = k2) as Ek2 by (by apply itemFor_key). rewrite Ek2 in Ez. rewrite Ez in Hlt'.
    rewrite <- (string_app_nil_r k2) in Hlt' at 2. rewrite ltb_app in Hlt'. by destruct z.
Qed.
End Groups.

(** ** The scan of the rows *)

Lemma leb_refl a : (a <=s a) = true.
Proof. by rewrite leb_ltb, ltb_irrefl. Qed.
Lemma leb_trans a b c : (a <=s b) = true -> (b <=s c) = true -> (a <=s c) = true.
Proof.
  rewrite !leb_ltb, !negb_true_iff. intros H1 H2. destruct (c <s a) eqn:E; [|done]. destruct (decide (a = b)) as [->|Hne]; [congruence|].
  destruct (ltb_total _ _ Hne) as [H|H]; [|congruence]. by rewrite (ltb_trans _ _ _ E H) in H2.
Qed.
Lemma ltb_leb a b : (a <s b) = true -> (a <=s b) = true.
Proof. intros H. by rewrite leb_ltb, (ltb_asym _ _ H). Qed.
Lemma leb_ltb_trans a b c : (a <=s b) = true -> (b <s c) = true -> (a <s c) = true.
Proof.
  rewrite leb_ltb, negb_true_iff. intros H1 H2. destruct (decide (a = b)) as [->|Hne]; [done|]. destruct (ltb_total _ _ Hne) as [H|H]; [by apply (ltb_trans _ b)|congruence].
Qed.
Lemma ltb_leb_trans a b c : (a <s b) = true -> (b <=s c) = true -> (a <s c) = true.
Proof.
  rewrite leb_ltb, negb_true_iff. intros H1 H2. destruct (decide (b = c)) as [<-|Hne]; [done|]. destruct (ltb_total _ _ Hne) as [H|H]; [by apply (ltb_trans _ b)|congruence].
Qed.
Lemma leb_cases a b : (a <=s b) = true -> a = b \/ (a <s b) = true.
Proof. rewrite leb_ltb, negb_true_iff. intros H. destruct (decide (a = b)) as [|Hne]; [by left|]. destruct (ltb_total _ _ Hne); [by right|congruence]. Qed.
Lemma HasPrefix_leb s p : HasPrefix s p = true -> (p <=s s) = true.
Proof. intros [t ->]%HasPrefix_spec. rewrite leb_ltb. rewrite <- (string_app_nil_r p) at 2. rewrite ltb_app. by destruct t. Qed.
Lemma leb_app x a b : (x +:+ a <=s x +:+ b) = (a <=s b).
Proof. by rewrite !leb_ltb, ltb_app. Qed.

Section Scan.
Context (ign : list string) (Format : Z -> string) (readdir : string -> list string) (bucket prefix delimiter after : string).
Context (T : gmap string node) (HT : Readable T readdir).
Abbreviation base := (bucket +:+ "/").
Abbreviation itemOf := (itemAt ign Format bucket prefix delimiter T).
Abbreviation shownAt := (fun p => listed ign bucket prefix T p /\ below bucket p).

(** What the scan has found, and the names it has not come to. *)
Definition found (sc : Scan) : list listingItem := (map objectItem (sc_objects sc) ++ map prefixItem (sc_prefixes sc))%list.
Definition ahead (sc : Scan) (n : string) : bool := (sc_cursor sc <s n) && (sc_from sc <=s n).

(** The scan has found the items of the shown names it has passed, and they come first. *)
Record scanned (sc : Scan) : Prop := mkScanned {
  sn_items : forall it, it ∈ found sc -> exists p, shownAt p /\ it = itemOf p /\ later after it = true;
  sn_keys : NoDup (map li_key (found sc));
  sn_done : forall p, shownAt p -> later after (itemOf p) = true -> ahead sc p = false -> itemOf p ∈ found sc;
  sn_ahead : forall p, shownAt p -> later after (itemOf p) = true -> ahead sc p = true -> forall c, c ∈ found sc -> before c (itemOf p);
  sn_cursor : (base +:+ after <=s sc_cursor sc) = true
}.

(** A shown name starts with the bucket and the prefix, and its item starts its key. *)
Lemma shown_key p : shownAt p -> exists key i, p = base +:+ key /\ HasPrefix key prefix = true /\ itemOf p = itemFor Format prefix delimiter key i /\
  HasPrefix key (li_key (itemOf p)) = true.
Proof.
  intros Hp. destruct (shown_item ign Format readdir bucket prefix delimiter T HT p Hp) as (key & i & -> & _ & Hpre & Ei). exists key, i.
  split; [by rewrite string_app_assoc|]. split; [done|]. split; [done|]. rewrite Ei. destruct (li_prefix (itemFor Format prefix delimiter key i)) eqn:E.
  - destruct (itemFor_group Format prefix delimiter key i Hpre E) as (a & (_ & _ & b & ->) & ->). cbn [prefixItem li_key]. rewrite <- !string_app_assoc. apply HasPrefix_app.
  - rewrite itemFor_key by done. pose proof (HasPrefix_app key "") as Hk. by rewrite string_app_nil_r in Hk.
Qed.

Lemma scanned_start : scanned (mkScan (base +:+ prefix) (base +:+ after) [] []).
Proof.
  split; cbn [found sc_objects sc_prefixes map app sc_cursor]; [set_solver|constructor| |set_solver|apply leb_refl].
  intros p Hp Hl Ha. exfalso. destruct (shown_key p Hp) as (key & i & -> & Hpre & _ & Hk). unfold ahead in Ha. cbn [sc_cursor sc_from] in Ha.
  rewrite ltb_app, leb_app, (HasPrefix_leb _ _ Hpre), andb_true_r in Ha. pose proof (HasPrefix_leb _ _ Hk) as Hle.
  by rewrite (ltb_leb_trans _ _ _ Hl Hle) in Ha.
Qed.

(** One row, the first that is ahead: its item is found when it is later than the start, and
    the names passed are those of the same item. *)
Lemma scanned_row sc sc' n : scanned sc -> ahead sc n = true -> shownAt n -> (forall p, shownAt p -> ahead sc p = true -> (n <=s p) = true) ->
  sc_cursor sc' = n -> (sc_from sc <=s sc_from sc') = true ->
  found sc' ≡ₚ (if later after (itemOf n) then itemOf n :: found sc else found sc)%list ->
  (forall p, shownAt p -> (n <s p) = true -> if sc_from sc' <=s p then before (itemOf n) (itemOf p) else itemOf p = itemOf n) -> scanned sc'.
Proof.
  intros [H1 H2 H3 H4 H5] Hn Hsn Hfirst Ec Hf Hfound Hnext. pose proof Hn as Hn'. unfold ahead in Hn'. apply andb_true_iff in Hn' as [Hcn Hfn].
  assert (forall x, x ∈ found sc' <-> (x = itemOf n /\ later after (itemOf n) = true) \/ x ∈ found sc) as Hin.
  { intros x. rewrite Hfound. destruct (later after (itemOf n)); [rewrite elem_of_cons|]; naive_solver. }
  split.
  - intros it [[-> Hl]|Hit]%Hin; [by exists n|by apply H1].
  - rewrite Hfound. destruct (later after (itemOf n)) eqn:El; [|done]. cbn. apply NoDup_cons. split; [|done]. intros (c & Hc & E)%keys_elem_of.
    pose proof (H4 n Hsn El Hn c Hc) as Hb. unfold before in Hb. by rewrite E, ltb_irrefl in Hb.
  - intros p Hp Hl Ha. apply Hin. destruct (decide (p = n)) as [->|Hne]; [by left|]. destruct (ltb_total _ _ Hne) as [Hlt|Hgt].
    + right. apply H3; [done|done|]. destruct (ahead sc p) eqn:E; [|done]. specialize (Hfirst p Hp E). by rewrite leb_ltb, Hlt in Hfirst.
    + unfold ahead in Ha. rewrite Ec, Hgt in Ha. cbn [andb] in Ha. specialize (Hnext p Hp Hgt). rewrite Ha in Hnext. left. by rewrite <- Hnext.
  - intros p Hp Hl Ha c Hc. unfold ahead in Ha. rewrite Ec in Ha. apply andb_true_iff in Ha as [Hgt Hfp]. specialize (Hnext p Hp Hgt). rewrite Hfp in Hnext.
    apply Hin in Hc as [[-> _]|Hc]; [done|]. apply H4; [done|done| |done]. unfold ahead. by rewrite (ltb_trans _ n), (leb_trans _ (sc_from sc')).
  - rewrite Ec. by apply (leb_trans _ (sc_cursor sc)); [|apply ltb_leb].
Qed.

(** A row that shows nothing. *)
Lemma scanned_skip sc n : scanned sc -> ahead sc n = true -> ~ shownAt n -> (forall p, shownAt p -> ahead sc p = true -> (n <=s p) = true) ->
  scanned (mkScan (sc_from sc) n (sc_objects sc) (sc_prefixes sc)).
Proof.
  intros [H1 H2 H3 H4 H5] Hn Hsn Hfirst. pose proof Hn as Hn'. unfold ahead in Hn'. apply andb_true_iff in Hn' as [Hcn Hfn].
  split; cbn [sc_cursor]; [done|done| | |by apply (leb_trans _ (sc_cursor sc)); [|apply ltb_leb]].
  - intros p Hp Hl Ha. apply H3; [done|done|]. destruct (ahead sc p) eqn:E; [|done]. destruct (leb_cases _ _ (Hfirst p Hp E)) as [<-|Hlt]; [done|].
    unfold ahead in Ha, E. cbn [sc_cursor sc_from] in Ha. apply andb_true_iff in E as [_ E]. by rewrite Hlt, E in Ha.
  - intros p Hp Hl Ha. apply H4; [done|done|]. unfold ahead in *. cbn [sc_cursor sc_from] in Ha. apply andb_true_iff in Ha as [Hgt Hfp]. by rewrite (ltb_trans _ n), Hfp.
Qed.

Context (Hbucket : ValidString bucket = true) (Hprefix : ValidString prefix = true) (Hdelimiter : ValidString delimiter = true).
Context (Hshown : forall p, shownAt p -> ValidString p = true).

Lemma base_valid : ValidString base = true.
Proof. by rewrite ValidString_app. Qed.
Lemma base_slash t : ContainsByte (base +:+ t) "/" = true.
Proof. rewrite !ContainsByte_app. by rewrite orb_true_r. Qed.

(** The item of valid names has valid text. *)
Lemma shown_item_valid p : shownAt p -> ValidString (li_key (itemOf p)) = true.
Proof.
  intros Hp. destruct (shown_key p Hp) as (key & i & En & Hpre & -> & _). pose proof (Hshown p Hp) as Hv. rewrite En, ValidString_app in Hv by apply base_valid.
  destruct (li_prefix (itemFor Format prefix delimiter key i)) eqn:E; [|by rewrite itemFor_key].
  destruct (itemFor_group Format prefix delimiter key i Hpre E) as (a & (Hd & _ & b & ->) & ->). cbn [prefixItem li_key]. rewrite ValidString_app in Hv |- * by done.
  rewrite ValidString_app; [done|]. by apply (valid_between _ _ a delimiter b (le_n _) Hv).
Qed.

(** A row that is an object. *)
Lemma scanned_object sc n : scanned sc -> ahead sc n = true -> shownAt n -> (forall p, shownAt p -> ahead sc p = true -> (n <=s p) = true) ->
  li_prefix (itemOf n) = false -> scanned (mkScan (sc_from sc) n (sc_objects sc ++ [li_object (itemOf n)]) (sc_prefixes sc)).
Proof.
  intros Hsc Hn Hsn Hfirst Ho. pose proof Hn as Hn'. unfold ahead in Hn'. apply andb_true_iff in Hn' as [Hcn Hfn].
  destruct (shown_key n Hsn) as (key & i & En & Hpre & Ei & _). rewrite Ei in Ho. pose proof (itemFor_key Format prefix delimiter key i Hpre Ho) as Ekey.
  assert (later after (itemOf n) = true) as Hl.
  { unfold later. rewrite Ei, Ekey. rewrite <- (ltb_app base), <- En. by apply (leb_ltb_trans _ (sc_cursor sc)); [apply (sn_cursor _ Hsc)|]. }
  apply (scanned_row sc _ n); [done|done|done|done|done|apply leb_refl| |]; cbn [sc_from].
  - rewrite Hl. unfold found. cbn [sc_objects sc_prefixes]. rewrite map_app. cbn [map]. rewrite <- app_assoc. cbn [app].
    rewrite <- Permutation_middle. rewrite <- plain_object; [done|rewrite Ei; apply itemFor_plain|unfold isObject; by rewrite Ei, Ho].
  - intros p Hp Hlt. rewrite (leb_trans _ n) by (try done; by apply ltb_leb). destruct (shown_key p Hp) as (key' & i' & -> & Hpre' & -> & _). rewrite Ei.
    apply items_in_order; [done|done|by rewrite En, ltb_app in Hlt|by right].
Qed.

(** A row whose key is in a group: the rest of the group is passed over. *)
Lemma scanned_group sc n (common := li_key (itemOf n)) : scanned sc -> ahead sc n = true -> shownAt n -> (forall p, shownAt p -> ahead sc p = true -> (n <=s p) = true) ->
  li_prefix (itemOf n) = true ->
  scanned (mkScan (prefixEnd (base +:+ common)) n (sc_objects sc) (if after <s common then sc_prefixes sc ++ [common] else sc_prefixes sc)) /\
  (sc_from sc <=s prefixEnd (base +:+ common)) = true.
Proof.
  intros Hsc Hn Hsn Hfirst Ho. pose proof Hn as Hn'. unfold ahead in Hn'. apply andb_true_iff in Hn' as [Hcn Hfn].
  destruct (shown_key n Hsn) as (key & i & En & Hpre & Ei & Hstart). fold common in Hstart.
  destruct (itemFor_group Format prefix delimiter key i Hpre) as (a & Hg & Eg); [by rewrite <- Ei|]. assert (common = prefix +:+ a +:+ delimiter) as Ec by (subst common; by rewrite Ei, Eg).
  assert (ValidString (base +:+ common) = true) as Hvc by (rewrite ValidString_app by apply base_valid; by apply shown_item_valid).
  assert (forall p, shownAt p -> HasPrefix p (base +:+ common) = (base +:+ common <=s p) && (p <s prefixEnd (base +:+ common))) as Hrange.
  { intros p Hp. apply prefixEnd_range; [done|apply base_slash|by apply Hshown]. }
  assert (HasPrefix n (base +:+ common) = true) as Hnc.
  { apply HasPrefix_spec in Hstart as [t Et]. rewrite En, Et, <- string_app_assoc. apply HasPrefix_app. }
  pose proof Hnc as Hnr. rewrite (Hrange n Hsn) in Hnr. apply andb_true_iff in Hnr as [Hlo Hhi].
  assert ((sc_from sc <=s prefixEnd (base +:+ common)) = true) as Hff by (apply ltb_leb, (leb_ltb_trans _ n); done). split; [|done].
  apply (scanned_row sc _ n); [done|done|done|done|done|done| |]; cbn [sc_from].
  - unfold later. fold common. unfold found. cbn [sc_objects sc_prefixes]. destruct (after <s common); [|done]. rewrite map_app, app_assoc. cbn [map].
    rewrite <- Permutation_cons_append. f_equiv. subst common. symmetry. apply plain_prefix; [rewrite Ei; apply itemFor_plain|done].
  - intros p Hp Hlt. destruct (shown_key p Hp) as (key' & i' & Ep & Hpre' & Ei' & _). destruct (prefixEnd (base +:+ common) <=s p) eqn:Ep'.
    + rewrite Ei, Ei'. apply items_in_order; [done|done|by rewrite En, Ep, ltb_app in Hlt|]. left. rewrite <- Ei. fold common.
      apply not_true_is_false. intros [t Et]%HasPrefix_spec. assert (HasPrefix p (base +:+ common) = true) as Hc by (rewrite Ep, Et, <- string_app_assoc; apply HasPrefix_app).
      rewrite (Hrange p Hp) in Hc. apply andb_true_iff in Hc as [_ Hc]. by rewrite leb_ltb, Hc in Ep'.
    + rewrite leb_ltb, negb_false_iff in Ep'. assert (HasPrefix p (base +:+ common) = true) as Hc.
      { rewrite (Hrange p Hp), Ep', andb_true_r. by apply ltb_leb, (leb_ltb_trans _ n). }
      apply HasPrefix_spec in Hc as [t Et]. rewrite Ep, (string_app_assoc base common t) in Et. apply (f_equal (sdrop (String.length base))) in Et. rewrite !sdrop_app in Et.
      rewrite Ei, Eg, Ei'. apply group_itemFor. destruct Hg as (Hd & Ha & _). split; [done|]. split; [done|]. exists t. by rewrite Et, Ec, !string_app_assoc.
Qed.
End Scan.

(** ** The rows of the catalog *)

(** The database answers, its names are canonical, and it has a live row for every file the
    bucket shows. It may have more: rows of files that are gone or hidden are passed over. *)
Record Catalogued (ign : list string) (bucket : string) (w : World) : Prop := mkCatalogued {
  ct_store : nofault (wd_store w);
  ct_names : forall k r, files (db (wd_store w)) !! k = Some r -> Name r = k /\ canonical k;
  ct_rows : forall p i, listedFile ign bucket (wd_tree w) p = Some i -> below bucket p ->
              exists r, files (db (wd_store w)) !! p = Some r /\ Deleted r = false
}.

Lemma ignored_hidden p ign : clean_parts (Split p "/") -> ShouldIgnore p ign = true -> validateClientPath p ign = false.
Proof.
  intros Hp Hi. apply not_true_is_false. intros Hv. pose proof (validateClientPath_exposed _ _ Hv) as (H1 & H2 & _).
  destruct (clean_not_up p Hp) as (_ & _ & _ & Hne & _). unfold validateClientPath in Hv. rewrite (proj2 (eqs_false _ _) Hne), Hi in Hv. cbn [negb andb] in Hv.
  destruct ign as [|x ign]; [|cbn in Hv; discriminate Hv]. clear Hv. unfold ShouldIgnore in Hi. destruct (List.hd "" (Split p "/") =s ".birak") eqn:Eh.
  { apply eqs_true in Eh. rewrite Eh in H1. by vm_compute in H1. }
  assert (Base p ∈ Split p "/") as Hbase by (rewrite Base_clean by done; apply last_elem_of, Split_nonnil).
  assert (IsScratchFile (Base p) = false) as Hns.
  { apply not_true_is_false. intros H%scratch_spelling. rewrite Forall_forall in H2. by rewrite (H2 _ Hbase) in H. }
  rewrite <- IsScratchFile_Match in Hns by (destruct Hp as [_ Hp]; rewrite Forall_forall in Hp; by apply Hp). apply orb_false_iff in Hns as [Hn1 Hn2].
  rewrite Hn1, Hn2 in Hi. cbn [existsb] in Hi. revert Hi. generalize (removelast (Split p "/")) as l. by induction l.
Qed.

Section Rows.
Context (ign : list string) (Format : Z -> string) (readdir : string -> list string) (bucket prefix delimiter after : string) (maxKeys : Z) (w : World).
Context (HT : Readable (wd_tree w) readdir) (Hcalm : calm w) (Hcat : Catalogued ign bucket w) (Hmax : 0 <= maxKeys).
Context (Hbucket : ValidString bucket = true) (Hprefix : ValidString prefix = true) (Hdelimiter : ValidString delimiter = true).
Abbreviation T := (wd_tree w).
Abbreviation base := (bucket +:+ "/").
Abbreviation until := (prefixEnd (base +:+ prefix)).
Abbreviation itemOf := (itemAt ign Format bucket prefix delimiter T).
Abbreviation shownAt := (fun p => listed ign bucket prefix T p /\ below bucket p).
Abbreviation done_with := (scanned ign Format bucket prefix delimiter after T).

Lemma catalogFile_calm n : clean_parts (Split n "/") -> catalogFile ign bucket n w = (Ok (listedFile ign bucket T n), w).
Proof.
  intros Hn. unfold catalogFile, listedFile. destruct (ShouldIgnore n ign) eqn:Ei.
  { unfold visibleAt. by rewrite (ignored_hidden n ign Hn Ei). }
  destruct (T !! n) as [nd|] eqn:Et.
  2: { unfold bindS, getS. destruct (SafePath T n ign) as [path|] eqn:Es; [|by destruct (negb _)]. rewrite (SafePath_clean T n ign Hn) in Es. destruct (_ && _); [|done]. injection Es as <-.
    unfold tryS. rewrite (lstat_quiet n w Hcalm), Et. by destruct (negb _). }
  unfold bindS, getS. rewrite (SafePath_clean T n ign Hn), (resolveIn_readable readdir T HT n nd Et). fold (visibleAt ign T n). destruct (visibleAt ign T n); [|done]. cbn [negb].
  unfold tryS. rewrite (lstat_quiet n w Hcalm), Et. destruct nd as [i| |target|]; try done.
  destruct (PathResolvesWithin T bucket n); [|done]. cbn [negb]. rewrite (stat_quiet n w Hcalm). by destruct (T !! resolve T n) as [[]|].
Qed.

Lemma shown_row p : shownAt p -> exists r, files (db (wd_store w)) !! p = Some r /\ Deleted r = false /\ Name r = p /\ canonical p.
Proof.
  intros [[[i Hi] _] Hb]. destruct (ct_rows _ _ _ Hcat p i Hi Hb) as (r & Hr & Hd). exists r. destruct (ct_names _ _ _ Hcat p r Hr). done.
Qed.
Lemma shown_valid p : shownAt p -> ValidString p = true.
Proof. intros Hp. destruct (shown_row p Hp) as (r & _ & _ & _ & Hc). apply Hc. Qed.

(** The names of the range are those of the bucket with the prefix. *)
Lemma in_range n : canonical n -> HasPrefix n (base +:+ prefix) = (base +:+ prefix <=s n) && (n <s until).
Proof. intros (Hv & _). apply prefixEnd_range; [rewrite ValidString_app; [done|by apply base_valid]|by apply base_slash|done]. Qed.

Lemma shown_range p : shownAt p -> HasPrefix p (base +:+ prefix) = true.
Proof.
  intros [[_ Hp] [key ->]]. rewrite keyAt_below in Hp. apply HasPrefix_spec in Hp as [t ->]. rewrite <- !string_app_assoc. apply HasPrefix_app.
Qed.

Lemma range_shown n i : HasPrefix n (base +:+ prefix) = true -> listedFile ign bucket T n = Some i -> shownAt n.
Proof.
  intros [t ->]%HasPrefix_spec Hi. split; [split; [by exists i|]|].
  - rewrite !string_app_assoc, keyAt_below. apply HasPrefix_app.
  - exists (prefix +:+ t). by rewrite !string_app_assoc.
Qed.

(** The rows of a page: in order, ahead of the scan, with no shown name between them. *)
Record rowsOK (page : list FileMeta) (sc : Scan) : Prop := mkRowsOK {
  ro_sorted : StronglySorted (fun a b => (Name a <s Name b) = true) page;
  ro_each : Forall (fun r => canonical (Name r) /\ ahead sc (Name r) = true /\ HasPrefix (Name r) (base +:+ prefix) = true) page;
  ro_first : forall p, shownAt p -> ahead sc p = true -> p ∈ map Name page \/ Forall (fun r => (Name r <s p) = true) page
}.

Lemma rowsOK_first r page sc p : rowsOK (r :: page) sc -> shownAt p -> ahead sc p = true -> (Name r <=s p) = true.
Proof.
  intros [H1 H2 H3] Hp Ha. apply StronglySorted_inv in H1 as [_ H1]. rewrite Forall_forall in H1. destruct (H3 p Hp Ha) as [Hin|Hall].
  - cbn in Hin. apply elem_of_cons in Hin as [->|Hin]; [apply leb_refl|]. apply list_elem_of_In, in_map_iff in Hin as (x & <- & Hx). by apply ltb_leb, H1, list_elem_of_In.
  - apply Forall_inv in Hall. by apply ltb_leb.
Qed.

Lemma rowsOK_tail r page sc sc' : rowsOK (r :: page) sc -> sc_cursor sc' = Name r -> sc_from sc' = sc_from sc -> rowsOK page sc'.
Proof.
  intros [H1 H2 H3] Ec Ef. apply StronglySorted_inv in H1 as [H1 H1']. apply Forall_cons in H2 as [Hr H2]. destruct Hr as (_ & Hr & _).
  unfold ahead in Hr. apply andb_true_iff in Hr as [Hcr Hfr]. split; [done| |].
  - rewrite !Forall_forall in *. intros x Hx. destruct (H2 x Hx) as (Hc & Ha & Hp). split; [done|]. split; [|done]. unfold ahead in *.
    apply andb_true_iff in Ha as [_ Ha]. by rewrite Ec, Ef, (H1' x Hx), Ha.
  - intros p Hp Ha. unfold ahead in Ha. rewrite Ec, Ef in Ha. apply andb_true_iff in Ha as [Hlt Hf].
    destruct (H3 p Hp) as [Hin|Hall]; [unfold ahead; by rewrite (ltb_trans _ (Name r)), Hf| |right; by apply Forall_inv_tail in Hall].
    cbn in Hin. apply elem_of_cons in Hin as [->|Hin]; [by rewrite ltb_irrefl in Hlt|by left].
Qed.

(** Later states have less ahead. *)
Lemma ahead_mono sc sc' n q : ahead sc n = true -> sc_cursor sc' = n -> (sc_from sc <=s sc_from sc') = true -> ahead sc' q = true -> ahead sc q = true.
Proof.
  intros Hn Ec Hf Hq. unfold ahead in *. rewrite Ec in Hq. apply andb_true_iff in Hn as [Hn _], Hq as [Hq Hq']. by rewrite (ltb_trans _ n), (leb_trans _ (sc_from sc')).
Qed.
Lemma ahead_passed sc n : sc_cursor sc = n -> ahead sc n = false.
Proof. intros <-. unfold ahead. by rewrite ltb_irrefl. Qed.

Lemma count_found sc : sc_count sc = Z.of_nat (length (found sc)).
Proof. unfold sc_count, found. rewrite length_app, !length_map. lia. Qed.

Lemma scanRows_ok page sc : done_with sc -> sc_count sc <= maxKeys -> rowsOK page sc ->
  exists sc', scanRows ign Format bucket base prefix delimiter after maxKeys page sc w = (Ok sc', w) /\ done_with sc' /\ sc_count sc' <= maxKeys + 1 /\
    (sc_from sc <=s sc_from sc') = true /\ (forall q, ahead sc' q = true -> ahead sc q = true) /\ (forall r, head page = Some r -> ahead sc' (Name r) = false).
Proof.
  revert sc. induction page as [|r page IH]; intros sc Hsc Hcnt Hok; cbn [scanRows].
  { exists sc. split; [done|]. split; [done|]. split; [lia|]. split; [apply leb_refl|]. by split. }
  unfold bindS. rewrite (ctxErrW_quiet w Hcalm). set (n := Name r). pose proof (ro_each _ _ Hok) as Heach. apply Forall_inv in Heach as (Hcan & Hah & Hrange).
  rewrite (catalogFile_calm n (canonical_parts n Hcan)). pose proof (rowsOK_first r page sc) as Hfirst.
  assert (forall sc1, done_with sc1 -> sc_count sc1 <= maxKeys -> sc_cursor sc1 = n -> sc_from sc1 = sc_from sc ->
    exists sc', scanRows ign Format bucket base prefix delimiter after maxKeys page sc1 w = (Ok sc', w) /\ done_with sc' /\ sc_count sc' <= maxKeys + 1 /\
    (sc_from sc <=s sc_from sc') = true /\ (forall q, ahead sc' q = true -> ahead sc q = true) /\ (forall r', head (r :: page) = Some r' -> ahead sc' (Name r') = false)) as Hgo.
  { intros sc1 Hsc1 Hc1 Ec1 Ef1. destruct (IH sc1 Hsc1 Hc1) as (sc' & E & H1 & H2 & Hf' & H3 & _); [by eapply rowsOK_tail|]. exists sc'. split; [done|]. split; [done|]. split; [done|]. split; [by rewrite <- Ef1|].
    split; [intros q Hq; apply (ahead_mono sc sc1 n); [done|done|by rewrite Ef1, leb_refl|by apply H3]|]. intros r' [= <-]. fold n.
    destruct (ahead sc' n) eqn:Ea; [|done]. by rewrite <- (ahead_passed sc1 n Ec1), (H3 n Ea). }
  destruct (listedFile ign bucket T n) as [i|] eqn:El.
  2: { apply Hgo; [|done|done|done]. apply (scanned_skip ign Format bucket prefix delimiter after T); [done|done| |by intros; apply Hfirst]. intros [[[i Hi] _] _]. congruence. }
  assert (shownAt n) as Hsn by (by apply (range_shown n i)).
  assert (itemFor Format prefix delimiter (TrimPrefix n base) i = itemOf n) as Eit by (unfold itemAt; by rewrite El). rewrite Eit.
  destruct (li_prefix (itemOf n)) eqn:Ep.
  - destruct (scanned_group ign Format readdir bucket prefix delimiter after T HT Hbucket Hprefix Hdelimiter shown_valid sc n Hsc Hah Hsn ltac:(by intros; apply Hfirst) Ep) as [Hg Hff].
    eexists. split; [reflexivity|]. cbn [sc_from sc_cursor sc_objects sc_prefixes]. split; [exact Hg|]. split.
    + unfold sc_count in *. cbn [sc_objects sc_prefixes]. destruct (after <s _); [rewrite length_app; cbn; lia|lia].
    + split; [done|]. split; [intros q; by apply (ahead_mono sc _ n)|]. intros r' [= <-]. by apply ahead_passed.
  - pose proof (scanned_object ign Format readdir bucket prefix delimiter after T HT sc n Hsc Hah Hsn ltac:(by intros; apply Hfirst) Ep) as Ho.
    set (sc1 := mkScan (sc_from sc) n (sc_objects sc ++ [li_object (itemOf n)]) (sc_prefixes sc)) in *. cbn [sc_from sc_cursor sc_objects sc_prefixes]. fold sc1.
    assert (sc_count sc1 = sc_count sc + 1) as Ecnt by (unfold sc_count; cbn; rewrite length_app; cbn; lia).
    destruct (maxKeys <? sc_count sc1) eqn:Em; [|apply Z.ltb_ge in Em; by apply Hgo].
    exists sc1. split; [done|]. split; [done|]. split; [lia|]. split; [apply leb_refl|]. split; [intros q; apply (ahead_mono sc sc1 n); [done|done|apply leb_refl]|]. intros r' [= <-]. by apply ahead_passed.
Qed.

(** The live rows ahead of the scan, and a page of them. *)
Definition todo (sc : Scan) : list FileMeta :=
  select (fun r => negb (Deleted r) && ((sc_from sc <=s Name r) && (Name r <s until)) && (sc_cursor sc <s Name r)) (files (db (wd_store w))).

Lemma ListLiveRange_calm sc : inStore (ListLiveRange (sc_from sc) until (sc_cursor sc) 128) w = (Ok (sql_limit 128 (merge_sort (by_string Name) (todo sc))), w).
Proof.
  unfold inStore, zoomS, ListLiveRange. change ((128 <=? 0) || (10000 <? 128)) with false. cbv iota. rewrite query_nofault by apply (ct_store _ _ _ Hcat). rewrite ListLiveRange_reference. fold (todo sc).
  do 2 f_equal. by destruct w as [[] ? ? ? ? ?].
Qed.

Lemma todo_spec sc r : r ∈ todo sc <-> files (db (wd_store w)) !! Name r = Some r /\ Deleted r = false /\ ahead sc (Name r) = true /\ (Name r <s until) = true.
Proof.
  unfold todo. rewrite elem_of_select. unfold ahead. rewrite !andb_true_iff, negb_true_iff. split.
  - intros (((Hd & Hf & Hu) & Hc) & k & Hk). destruct (ct_names _ _ _ Hcat k r Hk) as [<- _]. done.
  - intros (Hr & Hd & (Hc & Hf) & Hu). split; [done|]. by exists (Name r).
Qed.

Lemma todo_once sc : NoDup (map Name (todo sc)).
Proof.
  unfold todo, select. assert (NoDup (map Name (map_to_list (files (db (wd_store w)))).*2)) as Hall.
  { assert (map Name (map_to_list (files (db (wd_store w)))).*2 = (map_to_list (files (db (wd_store w)))).*1) as ->; [|apply NoDup_fst_map_to_list].
    assert (forall k r, (k, r) ∈ map_to_list (files (db (wd_store w))) -> Name r = k) as Hk by (intros k r Hkr%elem_of_map_to_list; by apply (ct_names _ _ _ Hcat)).
    induction (map_to_list (files (db (wd_store w)))) as [|[k r] l IH]; [done|]. cbn. rewrite (Hk k r) by (by left). f_equal. apply IH. intros k' r' H. apply Hk. by right. }
  revert Hall. generalize (map_to_list (files (db (wd_store w)))).*2 as l. induction l as [|r l IH]; intros Hn; [constructor|]. cbn in Hn. apply NoDup_cons in Hn as [Hr Hn].
  rewrite filter_cons. destruct (decide _); [|by apply IH]. cbn. apply NoDup_cons. split; [|by apply IH]. intros Hin. apply Hr.
  apply list_elem_of_In, in_map_iff in Hin as (x & <- & Hx). apply list_elem_of_In, list_elem_of_filter in Hx as [_ Hx]. by apply list_elem_of_In, in_map, list_elem_of_In.
Qed.

Lemma todo_sorted sc : StronglySorted (fun a b => (Name a <s Name b) = true) (merge_sort (by_string Name) (todo sc)).
Proof.
  pose proof (StronglySorted_merge_sort (by_string Name) (todo sc)) as Hs. pose proof (todo_once sc) as Hn. rewrite <- (merge_sort_Permutation (by_string Name) (todo sc)) in Hn.
  revert Hs Hn. generalize (merge_sort (by_string Name) (todo sc)) as l. induction l as [|x l IH]; intros Hs Hn; [constructor|]. apply StronglySorted_inv in Hs as [Hs Hx]. cbn in Hn.
  apply NoDup_cons in Hn as [Hnx Hn]. constructor; [by apply IH|]. rewrite Forall_forall in *. intros y Hy. specialize (Hx y Hy). unfold by_string in Hx. apply Is_true_true in Hx.
  destruct (leb_cases _ _ Hx) as [E|]; [|done]. destruct Hnx. rewrite E. by apply list_elem_of_In, in_map, list_elem_of_In.
Qed.

Lemma page_rowsOK sc (page := sql_limit 128 (merge_sort (by_string Name) (todo sc))) : (base +:+ prefix <=s sc_from sc) = true -> rowsOK page sc.
Proof.
  intros Hf. pose proof (todo_sorted sc) as Hs. set (l := merge_sort _ _) in *. assert (forall x, x ∈ l <-> x ∈ todo sc) as Hl by (intros x; apply elem_of_merge_sort).
  pose proof (take_drop 128 l) as Etd. change page with (take 128 l) in *.
  assert (StronglySorted (fun a b => (Name a <s Name b) = true) (take 128 l) /\ forall a b, a ∈ take 128 l -> b ∈ drop 128 l -> (Name a <s Name b) = true) as [Hs1 Hs2].
  { rewrite <- Etd in Hs. revert Hs. generalize (take 128 l) as u. generalize (drop 128 l) as v. clear. intros v u. induction u as [|x u IH]; intros Hs; [split; [constructor|set_solver]|].
    cbn in Hs. apply StronglySorted_inv in Hs as [Hs Hx]. destruct (IH Hs) as [H1 H2]. apply Forall_app in Hx as [Hx Hxv]. split; [by constructor|].
    intros a b [->|Ha]%elem_of_cons Hb; [|by apply H2]. rewrite Forall_forall in Hxv. by apply Hxv. }
  split; [done| |].
  - apply Forall_forall. intros r Hr. assert (r ∈ todo sc) as Ht by (apply Hl; rewrite <- Etd; set_solver). apply todo_spec in Ht as (Hk & Hd & Ha & Hu).
    destruct (ct_names _ _ _ Hcat _ _ Hk) as [_ Hc]. split; [done|]. split; [done|]. rewrite in_range by done. rewrite Hu, andb_true_r.
    unfold ahead in Ha. apply andb_true_iff in Ha as [_ Ha]. by apply (leb_trans _ (sc_from sc)).
  - intros p Hp Ha. destruct (shown_row p Hp) as (r & Hr & Hd & En & Hc). pose proof (shown_range p Hp) as Hrange. rewrite in_range in Hrange by done.
    apply andb_true_iff in Hrange as [_ Hu]. assert (r ∈ l) as Hin by (apply Hl, todo_spec; by rewrite En). rewrite <- Etd in Hin. apply elem_of_app in Hin as [Hin|Hin].
    + left. rewrite <- En. by apply list_elem_of_In, in_map, list_elem_of_In.
    + right. apply Forall_forall. intros x Hx. rewrite <- En. by apply Hs2.
Qed.

Lemma todo_shrinks sc sc' r : r ∈ todo sc -> (forall q, ahead sc' q = true -> ahead sc q = true) -> ahead sc' (Name r) = false -> (length (todo sc') < length (todo sc))%nat.
Proof.
  intros Hr Hmono Hno. assert (NoDup (todo sc')) as Hn by (eapply NoDup_fmap_1; apply (todo_once sc')).
  assert (r :: todo sc' ⊆+ todo sc) as Hsub; [|apply submseteq_length in Hsub; cbn in Hsub; lia].
  apply NoDup_submseteq; [apply NoDup_cons; split; [|done]; intros (_ & _ & Ha & _)%todo_spec; congruence|].
  intros x [->|Hx]%elem_of_cons; [done|]. apply todo_spec in Hx as (H1 & H2 & H3 & H4). apply todo_spec. auto.
Qed.

Lemma scanPages_ok fuel sc : done_with sc -> sc_count sc <= maxKeys + 1 -> (base +:+ prefix <=s sc_from sc) = true -> (length (todo sc) < fuel)%nat ->
  exists sc', scanPages ign Format fuel bucket base prefix delimiter after until maxKeys sc w = (Ok sc', w) /\ done_with sc' /\ sc_count sc' <= maxKeys + 1 /\
    (sc_count sc' = maxKeys + 1 \/ forall p, shownAt p -> ahead sc' p = false).
Proof.
  revert sc. induction fuel as [|fuel IH]; intros sc Hsc Hcnt Hf Hlen; [lia|]. cbn [scanPages]. destruct (sc_count sc <=? maxKeys) eqn:Ec; cbn [andb].
  2: { apply Z.leb_gt in Ec. exists sc. split; [done|]. split; [done|]. split; [done|]. left. lia. }
  apply Z.leb_le in Ec. destruct (sc_from sc <s until) eqn:Eu.
  2: { exists sc. split; [done|]. split; [done|]. split; [done|]. right. intros p Hp. destruct (shown_row p Hp) as (r & _ & _ & _ & Hc).
       pose proof (shown_range p Hp) as Hrange. rewrite in_range in Hrange by done. apply andb_true_iff in Hrange as [_ Hu].
       unfold ahead. destruct (sc_from sc <=s p) eqn:E; [|apply andb_false_r]. by rewrite (leb_ltb_trans _ _ _ E Hu) in Eu. }
  unfold bindS. rewrite (ctxErrW_quiet w Hcalm), ListLiveRange_calm. pose proof (page_rowsOK sc Hf) as Hok. set (page := sql_limit 128 _) in *.
  destruct page as [|r page'] eqn:Epage.
  { exists sc. split; [done|]. split; [done|]. split; [done|]. right. intros p Hp. destruct (ahead sc p) eqn:Ea; [|done]. exfalso.
    destruct (shown_row p Hp) as (r & Hr & Hd & En & Hc). pose proof (shown_range p Hp) as Hrange. rewrite in_range in Hrange by done. apply andb_true_iff in Hrange as [_ Hu].
    assert (r ∈ merge_sort (by_string Name) (todo sc)) as Hin by (apply elem_of_merge_sort, todo_spec; by rewrite En).
    destruct (sql_limit_split 128 (merge_sort (by_string Name) (todo sc)) ltac:(lia)) as (rest & _ & Hnil). rewrite Hnil in Hin by exact Epage. by apply not_elem_of_nil in Hin. }
  rewrite <- Epage in *. destruct (scanRows_ok page sc Hsc Ec Hok) as (sc' & -> & Hsc' & Hcnt' & Hff & Hmono & Hhead).
  assert (r ∈ todo sc) as Hr. { apply (elem_of_merge_sort (by_string Name)), (sql_limit_elem 128). fold page. rewrite Epage. by left. }
  apply IH; [done|done|by apply (leb_trans _ (sc_from sc))|].
  pose proof (todo_shrinks sc sc' r Hr Hmono ltac:(apply Hhead; by rewrite Epage)). lia.
Qed.

Lemma todo_bound sc : (length (todo sc) <= size (files (db (wd_store w))))%nat.
Proof. unfold todo, select. rewrite <- length_map_to_list, <- (length_fmap snd). apply length_filter. Qed.

Lemma scan_page F : ValidString after = true -> isListing ign Format bucket prefix delimiter T F ->
  listPage ign Format readdir true bucket bucket prefix delimiter after maxKeys w = (Ok (pageOf (List.filter (later after) F) maxKeys), w).
Proof.
  intros Hafter [HF HF']. unfold listPage. rewrite Hprefix, Hafter, Hdelimiter. cbn [negb orb]. unfold bindS, getS.
  destruct (scanPages_ok (S (size (files (db (wd_store w))))) (mkScan (base +:+ prefix) (base +:+ after) [] [])) as (sc & -> & Hsc & Hcnt & Hend);
    [by apply (scanned_start ign Format readdir bucket prefix delimiter after T HT)|unfold sc_count; cbn [sc_objects sc_prefixes length]; lia|apply leb_refl|pose proof (todo_bound (mkScan (base +:+ prefix) (base +:+ after) [] [])); lia|].
  unfold retS. do 2 f_equal. pose proof (sort_strict (found sc) (sn_keys _ _ _ _ _ _ _ _ Hsc)) as Hsort. fold (itemsOf (sc_objects sc) (sc_prefixes sc)) in Hsort.
  assert (forall x, x ∈ itemsOf (sc_objects sc) (sc_prefixes sc) <-> x ∈ found sc) as Hel by (intros x; apply elem_of_merge_sort).
  assert (forall x, x ∈ List.filter (later after) F <-> x ∈ F /\ later after x = true) as HfF by (intros x; rewrite !list_elem_of_In; apply filter_In).
  assert (itemsOf (sc_objects sc) (sc_prefixes sc) = take (Z.to_nat (maxKeys + 1)) (List.filter (later after) F)) as Ei.
  { assert (length (itemsOf (sc_objects sc) (sc_prefixes sc)) = length (found sc)) as El by (unfold itemsOf; by rewrite merge_sort_Permutation).
    rewrite count_found in Hcnt, Hend. apply strict_first; [done|by apply strict_filter| |lia|].
    - intros x Hx%Hel. apply HfF. destruct (sn_items _ _ _ _ _ _ _ _ Hsc x Hx) as (p & [Hp Hb] & -> & Hl). split; [|done]. apply HF'. by exists p.
    - intros x [Hx Hl]%HfF. apply HF' in Hx as (p & Hp & Hb & ->). rewrite Hel. destruct (ahead sc p) eqn:Ea; [right|left; by apply (sn_done _ _ _ _ _ _ _ _ Hsc)].
      destruct Hend as [Hfull|Hnone]; [|by rewrite (Hnone p) in Ea]. split; [lia|]. intros y Hy%Hel. by apply (sn_ahead _ _ _ _ _ _ _ _ Hsc p). }
  rewrite paginate_pageOf; [|done|done|].
  - rewrite Ei, filter_all, pageOf_take; [done|done|]. intros x Hx. rewrite <- Ei in Hx. apply Hel in Hx. by destruct (sn_items _ _ _ _ _ _ _ _ Hsc x Hx) as (p & _ & _ & Hl).
  - apply Forall_forall. intros x Hx%Hel. destruct (sn_items _ _ _ _ _ _ _ _ Hsc x Hx) as (p & Hp & -> & _).
    destruct (shown_item ign Format readdir bucket prefix delimiter T HT p Hp) as (key & i & _ & Hne & Hpre & ->). by apply itemFor_nonempty.
Qed.
End Rows.

(** ** The two listings agree *)

Section Parity.
Context (ign : list string) (Format : Z -> string) (readdir : string -> list string).

(** A request of valid text about a bucket that is there. *)
Definition listable (bucket prefix delimiter : string) (w : World) : Prop :=
  wd_tree w !! bucket = Some NDir /\ ValidString bucket = true /\ ValidString prefix = true /\ ValidString delimiter = true.

(** The catalog gives the page the filesystem gives. Where the database has a live row for
    every file a bucket shows, whatever else it holds, the page found by seeking in the index of
    names, 128 rows at a time and past each group at once, has the same objects, common
    prefixes, truncation and token as the page of the walk. *)
Theorem listPage_catalog (bucket prefix delimiter after : string) (maxKeys : Z) (w : World) :
  Readable (wd_tree w) readdir -> calm w -> Catalogued ign bucket w -> listable bucket prefix delimiter w -> ValidString after = true -> 0 <= maxKeys ->
  listPage ign Format readdir true bucket bucket prefix delimiter after maxKeys w =
  listPage ign Format readdir false bucket bucket prefix delimiter after maxKeys w.
Proof.
  intros HT Hc Hcat (Hdir & Hb & Hp & Hd) Ha Hm.
  destruct (listing_page ign Format readdir bucket prefix delimiter w after maxKeys HT Hc Hdir Hm) as (F & HF & E).
  rewrite (scan_page ign Format readdir bucket prefix delimiter after maxKeys w HT Hc Hcat Hm Hb Hp Hd F Ha HF). cbn [listPage negb]. by rewrite E.
Qed.

(** ** Following the tokens *)

(** The request with a continuation token, and what a client reads of the answer. *)
Definition withToken (query : string -> string) (token name : string) : string := if name =s "continuation-token" then token else query name.
Definition pageOfAnswer (r : result werr listAnswer) : Page :=
  match r with Ok (ListedV2 l) => mkPage (l2_Contents l) (l2_CommonPrefixes l) (l2_IsTruncated l) (l2_NextContinuationToken l) | _ => mkPage [] [] false "" end.

(** C31. A client that asks for page after page, passing each answer's continuation token back,
    is shown every visible file of the bucket with the prefix, as an object or by its common
    prefix, exactly once and in key order, in pages of at most max-keys entries; it stops after a
    page that is not truncated. With the catalog and without it. *)
Theorem ListObjectsV2_complete (hasCatalog : bool) (query : string -> string) (bucket : string) (maxKeys : Z) (w : World) :
  Readable (wd_tree w) readdir -> calm w -> (hasCatalog = true -> Catalogued ign bucket w) ->
  listable bucket (query "prefix") (query "delimiter") w -> validateBucketName bucket = true -> validateClientPath bucket ign = true ->
  query "list-type" = "2" -> query "start-after" = "" -> parseMaxKeys query = Some maxKeys ->
  exists F, isListing ign Format bucket (query "prefix") (query "delimiter") (wd_tree w) F /\
    forall fuel, (length F < fuel)%nat ->
      shows (followPages fuel (fun token => pageOfAnswer (handleListObjects ign Format readdir hasCatalog (withToken query token) bucket w).1) "") F maxKeys.
Proof.
  intros HT Hc Hcat Hl Hname Hpath Htype Hstart Hmax. pose proof Hl as (Hdir & Hb & Hp & Hd).
  assert (0 < maxKeys) as Hm.
  { unfold parseMaxKeys in Hmax. destruct (_ =s _); [injection Hmax as <-; lia|]. destruct (ParseInt _) as [n|]; [|done]. injection Hmax as <-.
    destruct (n <=? 0) eqn:E1; [done|]. apply Z.leb_gt in E1. destruct (10000 <? n) eqn:E2; [lia|done]. }
  destruct (listing_page ign Format readdir bucket (query "prefix") (query "delimiter") w "" maxKeys HT Hc Hdir ltac:(lia)) as (F & HF & _). exists F. split; [done|].
  intros fuel Hfuel.
  assert (forall token, (hasCatalog = true -> ValidString token = true) ->
    listPage ign Format readdir hasCatalog bucket bucket (query "prefix") (query "delimiter") token maxKeys w = (Ok (pageOf (List.filter (later token) F) maxKeys), w)) as Hpage.
  { intros token Ht. destruct hasCatalog.
    - by apply scan_page; [..|by apply Hcat|lia|done|done|done|by apply Ht|done].
    - destruct (listing_page ign Format readdir bucket (query "prefix") (query "delimiter") w token maxKeys HT Hc Hdir ltac:(lia)) as (G & HG & E).
      cbn [listPage negb]. by rewrite E, (isListing_unique _ _ _ _ _ _ _ _ HG HF). }
  assert (forall token, (hasCatalog = true -> ValidString token = true) ->
    pageOfAnswer (handleListObjects ign Format readdir hasCatalog (withToken query token) bucket w).1 = pageOf (List.filter (later token) F) maxKeys) as Hanswer.
  { intros token Ht. unfold handleListObjects. rewrite Hname. cbn [negb]. unfold bindS at 1, getS. rewrite SafePath_clean, (resolveIn_readable readdir (wd_tree w) HT bucket NDir Hdir) by (by apply (rd_names _ _ HT bucket NDir)).
    unfold landsAt. rewrite Hdir, Hpath. cbn [andb]. unfold bindS at 1, tryS. rewrite (stat_quiet bucket w Hc). unfold resolve. rewrite Hdir, Hdir.
    change (withToken query token "list-type") with (query "list-type"). rewrite Htype. cbn [String.eqb Ascii.eqb Bool.eqb].
    unfold handleListObjectsV2. change (parseMaxKeys (withToken query token)) with (parseMaxKeys query). rewrite Hmax.
    change (withToken query token "prefix") with (query "prefix"). change (withToken query token "delimiter") with (query "delimiter").
    change (withToken query token "start-after") with (query "start-after"). change (withToken query token "continuation-token") with token. rewrite Hstart.
    assert ((if negb (token =s "") then token else "") = token) as -> by (by destruct token). unfold bindS, tryS. by rewrite Hpage. }
  assert (List.filter (later "") F = F) as Eall.
  { apply later_all, Forall_forall. intros x Hx. apply HF in Hx as (p & Hlp & Hbp & ->).
    destruct (shown_item ign Format readdir bucket (query "prefix") (query "delimiter") (wd_tree w) HT p (conj Hlp Hbp)) as (key & i & _ & Hne & Hpre & ->). by apply itemFor_nonempty. }
  match goal with |- shows (followPages _ ?page _) _ _ =>
    pose proof (followPages_shows F maxKeys page fuel (fun t => hasCatalog = true -> ValidString t = true) "" Hm (proj1 HF) Hanswer) as Hshows end.
  rewrite Eall in Hshows. apply Hshows; [|done|done]. intros it Hit Hhc. apply HF in Hit as (p & Hlp & Hbp & ->).
  apply (shown_item_valid ign Format readdir bucket (query "prefix") (query "delimiter") (wd_tree w) HT Hb Hp Hd); [|done].
  intros q Hq. by apply (shown_valid ign bucket (query "prefix") w (Hcat Hhc)).
Qed.
End Parity.

(** ** Checking a tree *)

(** A directory's entries as a table, and the conditions of [Readable] as computable checks. *)
Definition readdirOf (m : gmap string (list string)) (d : string) : list string := default [] (m !! d).

Lemma readable_check T m :
  map_Forall (fun p (_ : node) => Forall good_part (Split p "/")) T ->
  map_Forall (fun p (_ : node) => Forall (fun ps => ps = Split p "/" \/ T !! Join ps "/" = Some NDir) (prefixes (Split p "/"))) T ->
  map_Forall (fun d names => NoDup names /\ Forall (fun name => ContainsByte name "/" = false) names) m ->
  map_Forall (fun p (_ : node) => removelast (Split p "/") = [] \/ List.last (Split p "/") "" ∈ readdirOf m (Join (removelast (Split p "/")) "/")) T ->
  Readable T (readdirOf m).
Proof.
  intros H1 H2 H3 H4. split.
  - intros p n Hp. split; [by apply (H1 p n)|apply Split_no_sep].
  - intros d p n [rest ->] Hp. specialize (H2 _ _ Hp). cbn beta in H2. rewrite Split_app_sep, Forall_forall in H2.
    assert (Split d "/" ∈ prefixes (Split d "/" ++ Split rest "/")) as Hin.
    { pose proof (Split_nonnil d "/") as Hd. generalize (Split rest "/") as r. revert Hd. generalize (Split d "/") as l. induction l as [|x l IH]; intros Hne r; [done|].
      cbn. destruct l as [|y l]; [by left|]. right. apply list_elem_of_In, in_map, list_elem_of_In. by apply IH. }
    destruct (H2 _ Hin) as [E|E]; [|by rewrite Join_Split_slash in E]. exfalso. apply (f_equal length) in E. rewrite length_app in E.
    pose proof (Split_nonnil rest "/"). destruct (Split rest "/"); [done|cbn in E; lia].
  - intros d. unfold readdirOf. destruct (m !! d) as [l|] eqn:E; [|constructor]. by apply (H3 d l).
  - intros d. unfold readdirOf. destruct (m !! d) as [l|] eqn:E; [|constructor]. by apply (H3 d l).
  - intros d name n Hp Hn. specialize (H4 _ _ Hp). cbn beta in H4. rewrite Split_app_sep, (Split_no_slash name), removelast_last, last_last, Join_Split_slash in H4 by done.
    destruct H4 as [E|]; [by apply Split_nonnil in E|done].
Qed.

(** A bucket with a directory, two files and a link. *)
Definition fileOf (ino : Z) (bytes : string) : node := NFile (mkInode 1 ino bytes 0 420 true).
Definition bucketTree : gmap string node :=
  {["b" := NDir; "b/a" := NDir; "b/a/1" := fileOf 1 "x"; "b/a/2" := fileOf 2 "yy"; "b/c" := fileOf 3 "zzz"; "b/l" := NLink (Some "b/c")]}.
Definition bucketDirs : gmap string (list string) := {["b" := ["l"; "c"; "a"]; "b/a" := ["2"; "1"]]}.

(** Its catalog, with a row of a file that is gone. *)
Definition bucketRows : gmap string FileMeta :=
  {["b/a/1" := zeroMeta "b/a/1"; "b/a/2" := zeroMeta "b/a/2"; "b/c" := zeroMeta "b/c"; "b/l" := zeroMeta "b/l"; "b/gone" := zeroMeta "b/gone"]}.
Definition bucketWorld : World :=
  mkWorld (xf_set_store (set_db (upd_files (fun _ => bucketRows) emptyDB) initialStore) (idleTransfer ∅)) bucketTree bucketTree [] ∅ (mkNotes [] 0 0 0 []).

Ltac table := apply (bool_decide_unpack _); vm_compute; exact I.

Lemma bucket_readable : Readable (wd_tree bucketWorld) (readdirOf bucketDirs).
Proof. apply readable_check; unfold good_part; table. Qed.

Lemma bucket_calm : calm bucketWorld.
Proof. by vm_compute. Qed.

Lemma bucket_catalogued : Catalogued [] "b" bucketWorld.
Proof.
  split; [by vm_compute| |].
  - assert (map_Forall (fun k r => Name r = k /\ ValidString k = true /\ k <> "" /\ Forall (fun p => bad_part p = false) (Split k "/")) bucketRows) as H by table.
    intros k r Hk. apply (H k r). exact Hk.
  - intros p i Hi _. change (wd_tree bucketWorld) with bucketTree in Hi.
    assert (map_Forall (fun q (_ : node) => match listedFile [] "b" bucketTree q, bucketRows !! q with Some _, None => false | Some _, Some r => negb (Deleted r) | None, _ => true end = true) bucketTree) as H by table.
    assert (exists n, bucketTree !! p = Some n) as [n Hn] by (unfold listedFile in Hi; destruct (negb _); [done|]; destruct (bucketTree !! p); [by eexists|done]).
    specialize (H p n Hn). cbn beta in H. rewrite Hi in H. change (files (db (wd_store bucketWorld))) with bucketRows.
    destruct (bucketRows !! p) as [r|]; [|discriminate H]. exists r. split; [done|]. by apply negb_true_iff in H.
Qed.

Definition bucketQuery (name : string) : string :=
  if name =s "list-type" then "2" else if name =s "delimiter" then "/" else if name =s "max-keys" then "2" else "".

Lemma listPage_catalog_witness :
  listPage [] FormatInt (readdirOf bucketDirs) true "b" "b" "" "/" "" 2 bucketWorld = listPage [] FormatInt (readdirOf bucketDirs) false "b" "b" "" "/" "" 2 bucketWorld /\
  match (listPage [] FormatInt (readdirOf bucketDirs) true "b" "b" "" "/" "" 2 bucketWorld).1 with
  | Ok p => map ob_Key (pg_objects p) = ["c"] /\ pg_prefixes p = ["a/"] /\ pg_next p = "c" /\ pg_truncated p = true
  | Err _ => False
  end.
Proof.
  split; [|by vm_compute]. apply (listPage_catalog [] FormatInt (readdirOf bucketDirs) "b" "" "/" "" 2 bucketWorld); [apply bucket_readable|apply bucket_calm|apply bucket_catalogued| |done|lia].
  by vm_compute.
Defined.

Lemma ListObjectsV2_complete_witness :
  exists F, isListing [] FormatInt "b" "" "/" (wd_tree bucketWorld) F /\
    forall fuel, (length F < fuel)%nat ->
      shows (followPages fuel (fun token => pageOfAnswer (handleListObjects [] FormatInt (readdirOf bucketDirs) true (withToken bucketQuery token) "b" bucketWorld).1) "") F 2.
Proof.
  apply (ListObjectsV2_complete [] FormatInt (readdirOf bucketDirs) true bucketQuery "b" 2 bucketWorld);
    [apply bucket_readable|apply bucket_calm|intros _; apply bucket_catalogued|by vm_compute..].
Defined.

Lemma filesystemPage_reference_witness (faulty := set_wfaults [FNone; FNone; FNone; FFail] bucketWorld) :
  filesystemPage [] FormatInt (readdirOf bucketDirs) "b" "" "/" "" 2 bucketWorld =
    match collectObjects [] FormatInt (readdirOf bucketDirs) "b" "" "/" bucketWorld with (Ok (o, p), w) => (Ok (paginate o p "" 2), w) | (Err e, w) => (Err e, w) end /\
  filesystemPage [] FormatInt (readdirOf bucketDirs) "b" "" "/" "" 2 faulty =
    match collectObjects [] FormatInt (readdirOf bucketDirs) "b" "" "/" faulty with (Ok (o, p), w) => (Ok (paginate o p "" 2), w) | (Err e, w) => (Err e, w) end.
Proof.
  split; apply (filesystemPage_reference [] FormatInt (readdirOf bucketDirs) "b" "" "/"); first [apply bucket_readable|by vm_compute|lia].
Defined.
