(* ===== verification/Replace.v ===== *)
(** * Replacing a file or a tree

    internal/fileops/replace.go and replacement_tree.go: a source, moved or freshly copied, takes
    the place of a destination through a backup and a journal that says how to go on or back.
    Every system call may fail, and the process may be killed at any of them; what is in the
    directories stays as it is then. Objects are trees of files, links and directories; the
    directories above the three paths are fixed, but for the staging directory of a copy. The
    journal's JSON is the record it encodes; SHA-256 is a parameter. *)

From S2P Require Import Prelude GoStrings Hoare Names.

(** ** Objects *)

(** Device and inode, permission bits, and what the object holds. *)
Inductive object :=
| OFile (dev ino perm mtime : Z) (bytes : string)
| OLink (dev ino perm : Z) (target : string)
| ODir (dev ino perm : Z) (children : list (string * object))
| OOther.

(** The type bits of an os.FileMode. *)
Inductive kind := KFile | KLink | KDir.
#[export] Instance kind_eq_dec : EqDecision kind.
Proof. solve_decision. Defined.

(** [type replacementEntry struct] *)
Record replacementEntry := mkEntry {
  re_Name : string; re_Device : Z; re_Inode : Z; re_Mode : kind * Z; re_Size : Z; re_Mtime : Z; re_Hash : string; re_Link : string
}.
#[export] Instance replacementEntry_eq_dec : EqDecision replacementEntry.
Proof. solve_decision. Defined.

(** [type replacement struct] *)
Record replacement := mkReplacement {
  rp_Format : Z; rp_Destination : string; rp_Source : string; rp_Backup : string; rp_CopyStage : string;
  rp_Old : list replacementEntry; rp_New : list replacementEntry; rp_Committed : bool
}.

(** ** The disk *)

(** What a system call meets. *)
Inductive cut := CNone | CFail | CKill.

Record Disk := mkDisk {
  dk_at : gmap string object;            (* the objects at the paths of a replacement *)
  dk_stages : gset string;               (* staging directories *)
  dk_journals : gmap string replacement; (* .birak/transactions *)
  dk_cuts : list cut                     (* one element per system call *)
}.
Definition set_at (m : gmap string object) (dk : Disk) : Disk := mkDisk m (dk_stages dk) (dk_journals dk) (dk_cuts dk).
Definition set_stages (s : gset string) (dk : Disk) : Disk := mkDisk (dk_at dk) s (dk_journals dk) (dk_cuts dk).
Definition set_journals (j : gmap string replacement) (dk : Disk) : Disk := mkDisk (dk_at dk) (dk_stages dk) j (dk_cuts dk).
Definition set_cuts (cs : list cut) (dk : Disk) : Disk := mkDisk (dk_at dk) (dk_stages dk) (dk_journals dk) cs.

Inductive rperr := RKilled | RSys | RInvalid | RConflict (name : string) | RMissingSource | RExists | RUnsupported | RNotFound.

Abbreviation R := (SE Disk rperr).

Definition tick (cs : list cut) : result rperr unit * list cut :=
  match cs with
  | CFail :: cs => (Err RSys, cs)
  | CKill :: cs => (Err RKilled, cs)
  | CNone :: cs => (Ok tt, cs)
  | [] => (Ok tt, [])
  end.

(** A system call without an effect on the paths. *)
Definition sysR : R unit := fun dk => let '(r, cs) := tick (dk_cuts dk) in (r, set_cuts cs dk).

(** What runs after a call returned an error; nothing does in a killed process. *)
Definition catchR {A} (c : R A) (h : rperr -> R A) : R A := fun dk =>
  match c dk with
  | (Err RKilled, dk) => (Err RKilled, dk)
  | (Err e, dk) => h e dk
  | r => r
  end.

(** [errors.Join(c, d)]: both are evaluated. *)
Definition joinR (c d : R unit) : R unit := do! catchR c (fun e => do! d then failS e) then d.

(** [r.Rename] *)
Definition Rename (a b : string) : R unit :=
  do! sysR then
  let! dk := getS in
  match dk_at dk !! a with
  | None => failS RNotFound
  | Some o => modifyS (set_at (<[b := o]> (delete a (dk_at dk))))
  end.

Definition SyncDir : R unit := sysR.

(** ** Manifests *)

Section Replace.
Context (sha256Hex : string -> string).
(** What is at a directory above the paths: nothing, a directory, or something else. *)
Context (kindOf : string -> option bool).

(** [filepath.Join(rel, name)] below the manifest's root. *)
Definition joinRel (rel name : string) : string := if rel =s "." then name else rel +:+ "/" +:+ name.

(** [walk] of [func replacementTree(r *os.Root, name string) ([]replacementEntry, error)] *)
Fixpoint walkTree (o : object) (rel : string) {struct o} : R (list replacementEntry) :=
  do! sysR then
  match o with
  | ODir dev ino perm children =>
      do! sysR then
      let! below :=
        (fix go (l : list (string * object)) : R (list replacementEntry) :=
           match l with
           | [] => retS []
           | (name, child) :: l =>
               let! first := walkTree child (joinRel rel name) in
               let! rest := go l in
               retS (first ++ rest)%list
           end) children in
      do! sysR then
      retS (mkEntry rel dev ino (KDir, perm) 0 0 "" "" :: below)
  | OFile dev ino perm mtime bytes =>
      do! sysR then
      do! sysR then
      retS [mkEntry rel dev ino (KFile, perm) (slen bytes) mtime (sha256Hex bytes) ""]
  | OLink dev ino perm target =>
      do! sysR then
      do! sysR then
      retS [mkEntry rel dev ino (KLink, perm) 0 0 "" target]
  | OOther => failS RUnsupported
  end.

Definition replacementTree (name : string) : R (list replacementEntry) :=
  do! sysR then
  let! dk := getS in
  match dk_at dk !! name with
  | None => retS []
  | Some o => walkTree o "."
  end.

(** [func matchesReplacement(got, want []replacementEntry, allowMissing bool) bool] *)
Definition byName (want : list replacementEntry) : gmap string replacementEntry :=
  fold_left (fun m e => <[re_Name e := e]> m) want ∅.
Definition matchesReplacement (got want : list replacementEntry) (allowMissing : bool) : bool :=
  if negb allowMissing && negb (length got =? length want)%nat then false
  else forallb (fun e => match byName want !! re_Name e with Some expected => bool_decide (e = expected) | None => false end) got.

(** [func localReplacementName(name string) bool] *)
Definition localReplacementName (name : string) : bool := negb (name =s ".") && IsLocal name && (Clean name =s name).

(** [func validateReplacementTree(tree []replacementEntry) error]: true is no error. *)
Definition badName (i : nat) (name : string) : bool := match i with O => negb (name =s ".") | S _ => negb (localReplacementName name) end.
Definition badParent (i : nat) (seen : gmap string kind) (name : string) : bool :=
  match i with O => false | S _ => negb (bool_decide (seen !! Dir name = Some KDir)) end.
Definition badContent (e : replacementEntry) : bool :=
  match re_Mode e with
  | (KFile, _) => negb (slen (re_Hash e) =? 64) || negb (all_bytes any_hex (re_Hash e)) || (re_Size e <? 0)
  | _ => false
  end.
Fixpoint validateEntries (i : nat) (seen : gmap string kind) (tree : list replacementEntry) : bool :=
  match tree with
  | [] => true
  | e :: tree =>
      let name := re_Name e in
      if badName i name then false
      else if bool_decide (is_Some (seen !! name)) then false
      else if badParent i seen name then false
      else if badContent e then false
      else validateEntries (S i) (<[name := (re_Mode e).1]> seen) tree
  end.
Definition validateReplacementTree (tree : list replacementEntry) : bool :=
  match tree with
  | [] => true
  | e :: _ => validateEntries 0 ∅ tree && negb (re_Inode e =? 0)
  end.

(** [filepath.Base] of a clean relative path *)
Definition baseName (p : string) : string := List.last (Split p "/") "".

(** [func validateReplacement(s replacement) error]: true is no error. *)
Definition under (a b : string) : bool := (a =s b) || HasPrefix a (b +:+ "/").
Definition validateReplacement (s : replacement) : bool :=
  let src := rp_Source s in let dst := rp_Destination s in let bak := rp_Backup s in let stage := rp_CopyStage s in
  if negb (rp_Format s =? 1) then false
  else if negb (forallb localReplacementName [dst; src; bak]) then false
  else if under src dst || under dst src || under bak src || under src bak || (bak =s dst) || negb (Dir bak =s Dir dst) ||
          negb (HasPrefix (baseName bak) ".birak-bak-") then false
  else if existsb (fun p => under p ".birak") [src; dst; bak] then false
  else if negb (stage =s "") && (negb (localReplacementName stage) || negb (Dir stage =s Dir dst) ||
          negb (HasPrefix (baseName stage) ".birak-tmp-replace-") || negb (src =s stage +:+ "/payload") || under dst stage) then false
  else if (length (rp_New s) =? 0)%nat then false
  else validateReplacementTree (rp_New s) && validateReplacementTree (rp_Old s).

(** [func safeReplacementParents(r *os.Root, name string) error] *)
Definition dirAt (dk : Disk) (p : string) : option bool := if decide (p ∈ dk_stages dk) then Some true else kindOf p.
Fixpoint checkParents (dirs : list string) : R unit :=
  match dirs with
  | [] => retS tt
  | cur :: dirs =>
      do! sysR then
      let! dk := getS in
      match dirAt dk cur with
      | None => retS tt
      | Some false => failS RInvalid
      | Some true => checkParents dirs
      end
  end.
Definition safeReplacementParents (name : string) : R unit :=
  if negb (localReplacementName name) then failS RInvalid
  else
    let parent := Dir name in
    if parent =s "." then retS tt
    else checkParents (map (fun ps => Join ps "/") (prefixes (Split parent "/"))).

(** ** The journal *)

(** [func writeReplacement(path string, state replacement) error]: a temporary file, renamed. *)
Definition writeReplacement (journal : string) (state : replacement) : R unit :=
  do! sysR then do! sysR then do! sysR then do! sysR then
  do! modifyS (fun dk => set_journals (<[journal := state]> (dk_journals dk)) dk) then
  SyncDir.

(** [func syncReplacementParents(root string, state replacement) error] *)
Definition syncReplacementParents : R unit := joinR sysR sysR.

(** [func removeReplacementTree(r *os.Root, name string, checkpoint func(string)) error]: what is
    left of the object, with the calls still to come. *)
Fixpoint removeObject (o : object) (cs : list cut) {struct o} : result rperr unit * option object * list cut :=
  match tick cs with
  | (Err e, cs) => (Err e, Some o, cs)
  | (Ok _, cs) =>
      match o with
      | ODir dev ino perm children =>
          match tick cs with
          | (Err e, cs) => (Err e, Some o, cs)
          | (Ok _, cs) =>
              let '(r, remains, cs) :=
                (fix go (l : list (string * object)) (cs : list cut) : result rperr unit * list (string * object) * list cut :=
                   match l with
                   | [] => (Ok tt, [], cs)
                   | (name, child) :: l =>
                       match removeObject child cs with
                       | (Ok _, _, cs) => go l cs
                       | (Err e, Some child, cs) => (Err e, (name, child) :: l, cs)
                       | (Err e, None, cs) => (Err e, l, cs)
                       end
                   end) children cs in
              match r with
              | Err e => (Err e, Some (ODir dev ino perm remains), cs)
              | Ok _ =>
                  match tick cs with
                  | (Err e, cs) => (Err e, Some (ODir dev ino perm []), cs)
                  | (Ok _, cs) => (Ok tt, None, cs)
                  end
              end
          end
      | _ =>
          match tick cs with
          | (Err e, cs) => (Err e, Some o, cs)
          | (Ok _, cs) => (Ok tt, None, cs)
          end
      end
  end.
Definition removeReplacementTree (name : string) : R unit := fun dk =>
  match dk_at dk !! name with
  | None => sysR dk
  | Some o =>
      let '(r, remains, cs) := removeObject o (dk_cuts dk) in
      (r, set_cuts cs (set_at (partial_alter (fun _ => remains) name (dk_at dk)) dk))
  end.

(** [r.Remove] of the staging directory: it has to be empty, and may be gone. *)
Definition removeStage (stage : string) : R unit :=
  do! sysR then
  let! dk := getS in
  match dk_at dk !! (stage +:+ "/payload") with
  | Some _ => failS RSys
  | None => modifyS (fun dk => set_stages (dk_stages dk ∖ {[ stage ]}) dk)
  end.

(** The backup is complete, and what was published goes back to the source. *)
Definition restoreRenames (state : replacement) (backup source dest : list replacementEntry) : R unit :=
  let src := rp_Source state in let dst := rp_Destination state in let bak := rp_Backup state in
  if negb (matchesReplacement backup (rp_Old state) false) then failS (RConflict bak)
  else
    do! (if (length dest =? 0)%nat && matchesReplacement source (rp_New state) false then retS tt
         else if (length source =? 0)%nat && matchesReplacement dest (rp_New state) false then
           do! Rename dst src then syncReplacementParents
         else failS (RConflict dst)) then
    (if negb (length (rp_Old state) =? 0)%nat then do! Rename bak dst then SyncDir else retS tt).

(** Undoing a replacement that is not committed, wherever it stopped. *)
Definition rollBack (state : replacement) (backup : list replacementEntry) : R unit :=
  let src := rp_Source state in
  let! source := replacementTree src in
  let! dest := replacementTree (rp_Destination state) in
  let restored := (length backup =? 0)%nat && matchesReplacement dest (rp_Old state) false in
  do! (if restored then
         if negb (matchesReplacement source (rp_New state) (negb (rp_CopyStage state =s ""))) then failS (RConflict src) else retS tt
       else restoreRenames state backup source dest) then
  (if negb (rp_CopyStage state =s "") then removeReplacementTree src else retS tt).

(** The empty stage goes, and last the journal. *)
Definition finishRecovery (journal : string) (state : replacement) : R unit :=
  do! (if negb (rp_CopyStage state =s "") then removeStage (rp_CopyStage state) else retS tt) then
  do! syncReplacementParents then
  do! sysR then
  let! dk := getS in
  match dk_journals dk !! journal with
  | None => failS RNotFound
  | Some _ => do! modifyS (fun dk => set_journals (delete journal (dk_journals dk)) dk) then SyncDir
  end.

(** [func recoverReplacement(r *os.Root, journal string, state replacement, checkpoint func(string)) error] *)
Definition recoverReplacement (journal : string) (state : replacement) : R unit :=
  let bak := rp_Backup state in
  if negb (validateReplacement state) then failS RInvalid
  else
    do! forS safeReplacementParents [rp_Source state; rp_Destination state; bak] then
    let! backup := replacementTree bak in
    do! (if rp_Committed state then
           if negb (matchesReplacement backup (rp_Old state) true) then failS (RConflict bak)
           else removeReplacementTree bak
         else rollBack state backup) then
    finishRecovery journal state.

(** [func isReplacementJournal(name string) bool] *)
Definition isReplacementJournal (name : string) : bool := HasPrefix name "replace-" && HasSuffix name ".json".

(** [func recoverLocked(root string, checkpoint func(string)) error] *)
Definition recoverLocked : R unit :=
  do! sysR then do! sysR then
  do! safeReplacementParents ".birak/transactions/journal" then
  do! sysR then do! sysR then
  let! dk := getS in
  forS (fun entry : string * replacement =>
          if negb (isReplacementJournal entry.1) then retS tt
          else do! sysR then recoverReplacement entry.1 entry.2) (map_to_list (dk_journals dk)).

(** ** Replacing *)

(** [os.MkdirTemp]: a new directory. *)
Definition MkdirTemp (stage : string) : R unit :=
  do! sysR then
  let! dk := getS in
  match dirAt dk stage, dk_at dk !! (stage +:+ "/payload") with
  | None, None => modifyS (fun dk => set_stages ({[ stage ]} ∪ dk_stages dk) dk)
  | _, _ => failS RExists
  end.

(** [RemoveAll] of the stage: what it holds, then the directory. *)
Definition removeAll (stage : string) : R unit :=
  do! removeReplacementTree (stage +:+ "/payload") then removeStage stage.

(** [copy] writes the staging path: the object it built, and whether it succeeded. *)
Definition buildCopy (stage : string) (payload : object) (built : bool) : R unit :=
  do! MkdirTemp stage then
  do! sysR then
  do! modifyS (fun dk => set_at (<[stage +:+ "/payload" := payload]> (dk_at dk)) dk) then
  catchR (do! sysR then if built then retS tt else failS RSys)
    (fun e => do! joinR (removeAll stage) SyncDir then failS e).

(** What has to hold before the journal is written, and the journal's record. *)
Definition prepare (id copyStage src dst : string) : R replacement :=
  do! sysR then
  do! (if negb (localReplacementName src) then failS RInvalid else retS tt) then
  do! safeReplacementParents src then
  do! safeReplacementParents dst then
  let! new := replacementTree src in
  do! (if (length new =? 0)%nat then failS RMissingSource else retS tt) then
  let! old := replacementTree dst in
  let backup := (if Dir dst =s "." then "" else Dir dst +:+ "/") +:+ ".birak-bak-" +:+ id in
  do! sysR then
  let! dk := getS in
  match dk_at dk !! backup with
  | Some _ => failS RExists
  | None =>
      let state := mkReplacement 1 dst src backup copyStage old new false in
      if negb (validateReplacement state) then failS RInvalid else retS state
  end.

Definition markCommitted (state : replacement) : replacement :=
  mkReplacement (rp_Format state) (rp_Destination state) (rp_Source state) (rp_Backup state) (rp_CopyStage state) (rp_Old state) (rp_New state) true.

(** The renames, and what undoes them when one fails. *)
Definition publishTree (journal : string) (state : replacement) : R unit :=
  catchR
    (do! (if negb (length (rp_Old state) =? 0)%nat then do! Rename (rp_Destination state) (rp_Backup state) then SyncDir else retS tt) then
     do! Rename (rp_Source state) (rp_Destination state) then
     syncReplacementParents)
    (fun e => do! catchR (recoverReplacement journal state) (fun _ => failS e) then failS e).

(** [func replaceLocked(root, src, dst string, copy func(string) error, checkpoint func(string)) error] *)
Definition replaceLocked (id stage src dst : string) (copy : option (object * bool)) : R unit :=
  do! sysR then do! sysR then
  do! (if negb (localReplacementName dst) then failS RInvalid else retS tt) then
  do! sysR then
  do! safeReplacementParents ".birak/transactions/journal" then
  do! sysR then
  let! paths :=
    match copy with
    | Some (payload, built) => do! buildCopy stage payload built then retS (stage, stage +:+ "/payload")
    | None => if src =s "" then failS RMissingSource else retS ("", src)
    end in
  let '(copyStage, src) := paths in
  let! state := catchR (prepare id copyStage src dst)
                  (fun e => if copyStage =s "" then failS e else do! catchR (removeAll copyStage) (fun _ => retS tt) then failS e) in
  let journal := "replace-" +:+ id +:+ ".json" in
  do! writeReplacement journal state then
  do! publishTree journal state then
  do! writeReplacement journal (markCommitted state) then
  recoverReplacement journal (markCommitted state).
End Replace.

(** ** Facts about objects and manifests *)

Section ObjectInd.
Context (P : object -> Prop) (Hfile : forall d i p m b, P (OFile d i p m b)) (Hlink : forall d i p t, P (OLink d i p t)) (Hother : P OOther).
Context (Hdir : forall d i p l, Forall (fun nc => P nc.2) l -> P (ODir d i p l)).
Fixpoint object_rec_all (o : object) : P o :=
  match o with
  | OFile d i p m b => Hfile d i p m b
  | OLink d i p t => Hlink d i p t
  | OOther => Hother
  | ODir d i p l => Hdir d i p l
      ((fix go (l : list (string * object)) : Forall (fun nc => P nc.2) l :=
          match l with [] => List.Forall_nil _ | nc :: l => @List.Forall_cons _ _ nc l (object_rec_all nc.2) (go l) end) l)
  end.
End ObjectInd.

Section Manifests.
Context (sha256Hex : string -> string).

(** The entries of an object, as [replacementTree] lists them. *)
Fixpoint manifest (o : object) (rel : string) {struct o} : list replacementEntry :=
  match o with
  | OFile dev ino perm mtime bytes => [mkEntry rel dev ino (KFile, perm) (slen bytes) mtime (sha256Hex bytes) ""]
  | OLink dev ino perm target => [mkEntry rel dev ino (KLink, perm) 0 0 "" target]
  | ODir dev ino perm children =>
      mkEntry rel dev ino (KDir, perm) 0 0 "" "" :: flat_map (fun nc : string * object => manifest nc.2 (joinRel rel nc.1)) children
  | OOther => []
  end.

Fixpoint supported (o : object) : bool :=
  match o with
  | ODir _ _ _ children => forallb (fun nc : string * object => supported nc.2) children
  | OOther => false
  | _ => true
  end.

Definition manifestAt (x : option object) : list replacementEntry := match x with Some o => manifest o "." | None => [] end.
Definition supportedAt (x : option object) : bool := match x with Some o => supported o | None => true end.

Lemma manifest_nonempty o rel : supported o = true -> manifest o rel <> [].
Proof. by destruct o. Qed.

Lemma manifestAt_empty x : supportedAt x = true -> manifestAt x = [] -> x = None.
Proof. destruct x as [o|]; [|done]. intros Hs E. by apply (manifest_nonempty o ".") in Hs. Qed.

(** *** Matching *)

Lemma byName_spec want e : NoDup (map re_Name want) -> e ∈ want -> byName want !! re_Name e = Some e.
Proof.
  unfold byName. induction want as [|x want IH] using rev_ind; [set_solver|]. rewrite map_app, fold_left_app. cbn [map fold_left].
  intros (Hn & Hd & _)%NoDup_app He. apply elem_of_app in He as [He|He].
  - rewrite lookup_insert_ne; [by apply IH|]. intros E. apply (Hd (re_Name e)); [by apply list_elem_of_In, in_map, list_elem_of_In|]. rewrite <- E. by left.
  - apply list_elem_of_singleton in He as ->. by rewrite lookup_insert_eq.
Qed.

Lemma matches_part got want : NoDup (map re_Name want) -> (forall e, e ∈ got -> e ∈ want) -> matchesReplacement got want true = true.
Proof.
  intros Hn Hin. unfold matchesReplacement. cbn [negb andb]. apply forallb_forall. intros e He. rewrite (byName_spec want e Hn) by (apply Hin; by apply list_elem_of_In).
  by apply bool_decide_eq_true.
Qed.
Lemma matches_self l b : NoDup (map re_Name l) -> matchesReplacement l l b = true.
Proof.
  intros Hn. pose proof (matches_part l l Hn ltac:(done)) as H. unfold matchesReplacement in *. cbn [negb andb] in H. by rewrite Nat.eqb_refl, andb_false_r.
Qed.
Lemma matches_length got want : matchesReplacement got want false = true -> length got = length want.
Proof. unfold matchesReplacement. cbn [negb andb]. destruct (length got =? length want)%nat eqn:E; [|done]. intros _. by apply Nat.eqb_eq. Qed.

Lemma validateEntries_once i seen tree : validateEntries i seen tree = true -> NoDup (map re_Name tree) /\ forall e, e ∈ tree -> seen !! re_Name e = None.
Proof.
  revert i seen. induction tree as [|e tree IH]; intros i seen H; [split; [constructor|set_solver]|]. cbn [validateEntries] in H.
  destruct (badName i (re_Name e)); [done|]. case_bool_decide as Hs; [done|]. destruct (badParent i seen (re_Name e)); [done|]. destruct (badContent e); [done|]. destruct (IH _ _ H) as [Hn Hseen]. cbn [map]. split.
  - apply NoDup_cons. split; [|done]. intros Hin. apply list_elem_of_In, in_map_iff in Hin as (x & E & Hx). apply list_elem_of_In, Hseen in Hx. rewrite E, lookup_insert_eq in Hx. done.
  - intros x [->|Hx]%elem_of_cons; [by apply eq_None_not_Some|]. specialize (Hseen x Hx). destruct (decide (re_Name e = re_Name x)) as [E|Hne]; [rewrite E, lookup_insert_eq in Hseen; done|].
    by rewrite lookup_insert_ne in Hseen.
Qed.
Lemma validTree_once tree : validateReplacementTree tree = true -> NoDup (map re_Name tree).
Proof. destruct tree as [|e tree]; [constructor|]. unfold validateReplacementTree. intros [H _]%andb_true_iff. by apply validateEntries_once in H as [? _]. Qed.

(** *** Removal *)

(** What is left of an object is part of it. *)
Definition part (x : option object) (o : option object) : Prop := supportedAt x = true /\ forall e, e ∈ manifestAt x -> e ∈ manifestAt o.

Lemma tick_calm : tick [] = (Ok tt, []).
Proof. done. Qed.
Lemma tick_nil r cs : tick [] = (r, cs) -> r = Ok tt /\ cs = [].
Proof. by intros [= <- <-]. Qed.

Definition removal_ok (o : object) : Prop := forall cs r rest cs', removeObject o cs = (r, rest, cs') ->
  (cs = [] -> r = Ok tt /\ cs' = []) /\
  match r with
  | Ok _ => rest = None
  | Err _ => exists o', rest = Some o' /\ (supported o = true -> supported o' = true) /\ forall rel e, e ∈ manifest o' rel -> e ∈ manifest o rel
  end.

Lemma removeObject_ok o : removal_ok o.
Proof.
  induction o as [d i p m b|d i p t| |d i p l Hl] using object_rec_all; intros cs r rest cs' E; cbn [removeObject] in E.
  1-3: destruct (tick cs) as [[[]|e] cs1] eqn:E1; [destruct (tick cs1) as [[[]|e] cs2] eqn:E2|]; injection E as <- <- <-;
    (split; [intros ->; apply tick_nil in E1 as [E1 ->]; try discriminate E1; try (apply tick_nil in E2 as [E2 ->]; try discriminate E2); done|]);
    first [done|by eexists].
  destruct (tick cs) as [[[]|e] cs1] eqn:E1; [|injection E as <- <- <-; split; [intros ->; by apply tick_nil in E1 as [E1 _]|by eexists]].
  destruct (tick cs1) as [[[]|e] cs2] eqn:E2.
  2: { injection E as <- <- <-. split; [|by eexists]. intros ->. apply tick_nil in E1 as [_ ->]. by apply tick_nil in E2 as [E2 _]. }
  set (go := fix go (l : list (string * object)) (cs : list cut) := _) in E.
  assert (forall cs r l' cs', go l cs = (r, l', cs') -> (cs = [] -> r = Ok tt /\ cs' = []) /\
    (is_ok r = false -> (supported (ODir d i p l) = true -> supported (ODir d i p l') = true) /\
      forall rel e, e ∈ flat_map (fun nc : string * object => manifest nc.2 (joinRel rel nc.1)) l' -> e ∈ flat_map (fun nc : string * object => manifest nc.2 (joinRel rel nc.1)) l)) as Hgo.
  { clear -Hl. induction Hl as [|[n c] l Hc _ IH]; intros cs r l' cs' E; cbn in E; [by injection E as <- <- <-|].
    destruct (removeObject c cs) as [[[[]|e] rest] cs1] eqn:Ec; cbn [snd] in Hc; destruct (Hc _ _ _ _ Ec) as [Hnil Hrest].
    - destruct (IH _ _ _ _ E) as [I1 I2]. split; [intros ->; destruct Hnil as [_ ->]; [done|]; by apply I1|]. intros Hr. destruct (I2 Hr) as [I3 I4]. cbn. split.
      + intros [_ Hs]%andb_true_iff. by apply I3.
      + intros rel e He. apply elem_of_app. right. by apply I4.
    - destruct Hrest as (c' & -> & Hs & Hm). injection E as <- <- <-. split; [intros ->; by destruct (Hnil eq_refl)|]. intros _. cbn. split.
      + intros [Hs1 Hs2]%andb_true_iff. by rewrite Hs, Hs2.
      + intros rel x [Hx|Hx]%elem_of_app; apply elem_of_app; [left; by apply Hm|by right]. }
  destruct (go l cs2) as [[r' l'] cs3] eqn:Eg. destruct (Hgo _ _ _ _ Eg) as [Hnil Hrest]. destruct r' as [[]|e].
  - destruct (tick cs3) as [[[]|e] cs4] eqn:E4; injection E as <- <- <-.
    + split; [|done]. intros ->. apply tick_nil in E1 as [_ ->]. apply tick_nil in E2 as [_ ->]. destruct (Hnil eq_refl) as [_ ->]. by apply tick_nil in E4 as [_ ->].
    + split; [intros ->; apply tick_nil in E1 as [_ ->]; apply tick_nil in E2 as [_ ->]; destruct (Hnil eq_refl) as [_ ->]; by apply tick_nil in E4 as [E4 _]|].
      eexists. split; [done|]. split; [done|]. intros rel x Hx. cbn in *. set_solver.
  - injection E as <- <- <-. split; [intros ->; apply tick_nil in E1 as [_ ->]; apply tick_nil in E2 as [_ ->]; by destruct (Hnil eq_refl)|].
    destruct (Hrest eq_refl) as [H1 H2]. eexists. split; [done|]. split; [done|]. intros rel x Hx. cbn in *. apply elem_of_cons in Hx as [->|Hx]; [by left|]. right. by apply H2.
Qed.
End Manifests.

(** ** A logic for runs that may be cut *)

(** An assertion about the paths, the staging directories and the journals. *)
Abbreviation assertion := (gmap string object -> gset string -> gmap string replacement -> Prop).

Section Logic.
Context (sha256Hex : string -> string) (kindOf : string -> option bool).
(** [q]: no call is cut. A run that fails then has the given excuse. *)
Context (q : bool).

Definition holds (J : assertion) (dk : Disk) : Prop := J (dk_at dk) (dk_stages dk) (dk_journals dk) /\ (q = true -> dk_cuts dk = []).
Definition fails (J : assertion) (excuse : Prop) (dk : Disk) : Prop := J (dk_at dk) (dk_stages dk) (dk_journals dk) /\ (q = true -> excuse /\ dk_cuts dk = []).

(** The run keeps [Q] for its result, or ends in [F] with the excuse. *)
Definition runs {A} (J : assertion) (c : R A) (Q : A -> assertion) (F : assertion) (excuse : Prop) : Prop :=
  triple (holds J) c (fun a => holds (Q a)) (fun _ => fails F excuse).

Lemma runs_bind {A B} (J : assertion) (c : R A) (k : A -> R B) Q K F x : runs J c Q F x -> (forall a, runs (Q a) (k a) K F x) -> runs J (bindS c k) K F x.
Proof. apply triple_bind. Qed.

Lemma runs_weaken {A} (J J' : assertion) (c : R A) (Q Q' : A -> assertion) (F F' : assertion) (x x' : Prop) : runs J c Q F x ->
  (forall m s j, J' m s j -> J m s j) -> (forall a m s j, Q a m s j -> Q' a m s j) -> (forall m s j, F m s j -> F' m s j) -> (x -> x') -> runs J' c Q' F' x'.
Proof. intros H HJ HQ HF Hx. eapply triple_conseq; [exact H|..]; unfold holds, fails; naive_solver. Qed.

Lemma runs_ret {A} (J : assertion) (a : A) (Q : A -> assertion) F x : (forall m s j, J m s j -> Q a m s j) -> runs J (retS a) Q F x.
Proof. intros H. apply triple_ret. intros dk [H1 H2]. split; auto. Qed.
Lemma runs_fail {A} (J : assertion) e (Q : A -> assertion) (F : assertion) (x : Prop) : (forall m s j, J m s j -> F m s j /\ x) -> runs J (failS e) Q F x.
Proof. intros H. apply triple_fail. intros dk [H1 H2]. destruct (H _ _ _ H1). split; auto. Qed.
Lemma runs_pure {A} (phi : Prop) (J : assertion) (c : R A) Q F x : (phi -> runs J c Q F x) -> runs (fun m s j => phi /\ J m s j) c Q F x.
Proof. intros H dk [[Hp HJ] Hq]. by apply H. Qed.
Lemma runs_ex {A T} (J : T -> assertion) (c : R A) Q F x : (forall t, runs (J t) c Q F x) -> runs (fun m s j => exists t, J t m s j) c Q F x.
Proof. intros H dk [[t HJ] Hq]. by apply (H t). Qed.
Lemma runs_or {A} (J1 J2 : assertion) (c : R A) Q F x : runs J1 c Q F x -> runs J2 c Q F x -> runs (fun m s j => J1 m s j \/ J2 m s j) c Q F x.
Proof. intros H1 H2 dk [[HJ|HJ] Hq]; [by apply H1|by apply H2]. Qed.

Lemma runs_stages {A} (J : assertion) (c : R A) Q F x : (forall s0, runs (fun m s j => s = s0 /\ J m s j) c Q F x) -> runs J c Q F x.
Proof. intros H dk [HJ Hq]. apply (H (dk_stages dk)). by split. Qed.

(** A look at the disk: the continuation may use what it sees. *)
Lemma runs_get {B} (J : assertion) (k : Disk -> R B) K F x : (forall d0, J (dk_at d0) (dk_stages d0) (dk_journals d0) ->
    runs (fun m s j => J m s j /\ m = dk_at d0 /\ s = dk_stages d0 /\ j = dk_journals d0) (k d0) K F x) -> runs J (bindS getS k) K F x.
Proof. intros H dk [HJ Hq]. unfold bindS, getS. by apply (H dk HJ). Qed.

Lemma runs_modify (J : assertion) f (Q : unit -> assertion) F x :
  (forall dk, dk_cuts (f dk) = dk_cuts dk) -> (forall dk, J (dk_at dk) (dk_stages dk) (dk_journals dk) -> Q tt (dk_at (f dk)) (dk_stages (f dk)) (dk_journals (f dk))) ->
  runs J (modifyS f) Q F x.
Proof. intros Hf H dk [HJ Hq]. split; [by apply H|]. cbn. by rewrite Hf. Qed.

Lemma runs_sys (J F : assertion) x : (forall m s j, J m s j -> F m s j) -> runs J sysR (fun _ => J) F x.
Proof.
  intros HF dk [HJ Hq]. unfold sysR, tick. destruct (dk_cuts dk) as [|[] cs] eqn:E; cbn; split; auto; intros Hqt; specialize (Hq Hqt); discriminate Hq.
Qed.

(** After a failure that did not kill the process. *)
Lemma runs_catch {A} (J : assertion) (c : R A) h Q (F G : assertion) (x y : Prop) : runs J c Q G y ->
  (forall e, runs (fun m s j => (q = true -> y) /\ G m s j) (h e) Q F x) -> (forall m s j, G m s j -> F m s j) -> (y -> x) -> runs J (catchR c h) Q F x.
Proof.
  intros Hc Hh HGF Hyx dk HJ. specialize (Hc dk HJ). unfold catchR. destruct (c dk) as [[a|e] dk'] eqn:E; [done|]. destruct Hc as [HG Hy].
  destruct e; try (apply Hh; split; [split; [intros Hq; by apply Hy|done]|intros Hq; by apply Hy]).
  split; [by apply HGF|]. intros Hq. destruct (Hy Hq). auto.
Qed.

Lemma runs_join (J F : assertion) c d x : runs J c (fun _ => J) J x -> runs J d (fun _ => J) J x -> (forall m s j, J m s j -> F m s j) -> runs J (joinR c d) (fun _ => J) F x.
Proof.
  intros Hc Hd HF. unfold joinR. apply (runs_bind _ _ _ (fun _ => J)).
  - apply (runs_catch J c _ _ F J x x Hc); [|done|done]. intros e. apply runs_pure. intros Hx. apply (runs_bind _ _ _ (fun _ => J)); [by eapply runs_weaken; [exact Hd|..]|].
    intros _ dk [HJ Hq]. split; [by apply HF|]. intros Hqt. auto.
  - intros _. by eapply runs_weaken; [exact Hd|..].
Qed.

Lemma runs_syncParents (J F : assertion) x : (forall m s j, J m s j -> F m s j) -> runs J syncReplacementParents (fun _ => J) F x.
Proof. intros HF. apply runs_join; [by apply runs_sys|by apply runs_sys|done]. Qed.

(** *** The calls of a replacement *)

Lemma runs_Rename (J F : assertion) (Q : unit -> assertion) a b o x : (forall m s j, J m s j -> F m s j /\ m !! a = Some o /\ Q tt (<[b := o]> (delete a m)) s j) ->
  runs J (Rename a b) Q F x.
Proof.
  intros H. unfold Rename. apply (runs_bind _ _ _ (fun _ => J)); [apply runs_sys; intros m s j HJ; by apply H in HJ as [? _]|]. intros _.
  apply runs_get. intros d0 HJ0. destruct (H _ _ _ HJ0) as (_ & Ha & HQ). rewrite Ha. apply runs_modify; [done|]. intros dk (_ & _ & E2 & E3). cbn. by rewrite E2, E3.
Qed.

Lemma runs_walkTree (J F : assertion) o rel (x : Prop) : (forall m s j, J m s j -> F m s j) -> (supported o = false -> x) ->
  runs J (walkTree sha256Hex o rel) (fun es m s j => (es = manifest sha256Hex o rel /\ supported o = true) /\ J m s j) F x.
Proof.
  intros HF. revert rel. induction o as [d i p mt b|d i p t| |d i p l Hl] using object_rec_all; intros rel Hx; cbn [walkTree];
    (apply (runs_bind _ _ _ (fun _ => J)); [by apply runs_sys|]; intros _).
  1-2: do 2 (apply (runs_bind _ _ _ (fun _ => J)); [by apply runs_sys|]; intros _); by apply runs_ret.
  { apply runs_fail. intros m s j HJ. split; [by apply HF|by apply Hx]. }
  apply (runs_bind _ _ _ (fun _ => J)); [by apply runs_sys|]. intros _.
  apply (runs_bind _ _ _ (fun es m s j => (es = flat_map (fun nc : string * object => manifest sha256Hex nc.2 (joinRel rel nc.1)) l /\ forallb (fun nc : string * object => supported nc.2) l = true) /\ J m s j)).
  - cbn [supported] in Hx. revert Hx. induction Hl as [|[n c] l Hc _ IH]; intros Hx; [by apply runs_ret|].
    apply (runs_bind _ _ _ (fun es m s j => (es = manifest sha256Hex c (joinRel rel n) /\ supported c = true) /\ J m s j)).
    { cbn [snd] in Hc. apply Hc. intros E. apply Hx. cbn [forallb snd]. by rewrite E. }
    intros first. apply runs_pure. intros [-> Hs]. eapply runs_bind; [apply IH; intros E; apply Hx; cbn [forallb snd]; by rewrite Hs, E|].
    intros rest. apply runs_pure. intros [-> Hr]. apply runs_ret. intros m s j HJ. cbn. by rewrite Hs, Hr.
  - intros es. apply runs_pure. intros [-> Hs]. apply (runs_bind _ _ _ (fun _ => J)); [by apply runs_sys|]. intros _. by apply runs_ret.
Qed.

Lemma runs_tree (J F : assertion) name o (x : Prop) : (forall m s j, J m s j -> F m s j /\ m !! name = o) -> (supportedAt o = false -> x) ->
  runs J (replacementTree sha256Hex name) (fun es m s j => (es = manifestAt sha256Hex o /\ supportedAt o = true) /\ J m s j) F x.
Proof.
  intros HJ Hx. unfold replacementTree. apply (runs_bind _ _ _ (fun _ => J)); [apply runs_sys; intros m s j H; by apply HJ in H as [? _]|]. intros _.
  apply runs_get. intros d0 H0. destruct (HJ _ _ _ H0) as [_ E]. rewrite E. destruct o as [o|]; [|by apply runs_ret; intros m s j [H _]].
  eapply runs_weaken; [apply (runs_walkTree (fun m s j => J m s j /\ m = dk_at d0 /\ s = dk_stages d0 /\ j = dk_journals d0) F o "." x); [|done]|..]; [|done| |done|done].
  - intros m s j [H _]. by apply HJ in H as [? _].
  - intros es m s j [[H1 H2] [H _]]. done.
Qed.

Lemma runs_remove (J F : assertion) (Q : unit -> assertion) name (o : option object) x :
  (forall m s j, J m s j -> m !! name = o /\ Q tt (delete name m) s j /\ forall y, part sha256Hex y o -> is_Some y -> F (partial_alter (fun _ => y) name m) s j) ->
  (forall m s j, J m s j -> F m s j) -> supportedAt o = true -> runs J (removeReplacementTree name) Q F x.
Proof.
  intros HJ HF Hs dk [H Hq]. destruct (HJ _ _ _ H) as (Eo & HQ & Hpart). unfold removeReplacementTree. rewrite Eo. destruct o as [o|].
  - destruct (removeObject o (dk_cuts dk)) as [[r rest] cs] eqn:Er. destruct (removeObject_ok sha256Hex o _ _ _ _ Er) as [Hnil Hr]. destruct r as [[]|e].
    + subst rest. split; [exact HQ|]. intros Hqt. cbn. by apply Hnil, Hq.
    + destruct Hr as (o' & -> & Hs' & Hm). split; [|intros Hqt; by destruct (Hnil (Hq Hqt))]. apply Hpart; [|by eexists]. split; [by apply Hs'|]. intros en. apply Hm.
  - pose proof (runs_sys J F x HF dk (conj H Hq)) as Hsys. destruct (sysR dk) as [[[]|e] dk'] eqn:Es; [|done]. destruct Hsys as [HJ' Hq']. split; [|done].
    destruct (HJ _ _ _ HJ') as (Eo' & HQ' & _). by rewrite delete_id in HQ'.
Qed.

(** Removal at a path nothing depends on. *)
Lemma runs_removeAny (J : assertion) name : (forall m s j y, J m s j -> J (partial_alter (fun _ => y) name m) s j) -> runs J (removeReplacementTree name) (fun _ => J) J True.
Proof.
  intros HJ dk [H Hq]. unfold removeReplacementTree. destruct (dk_at dk !! name) as [o|]; [|apply runs_sys; [done|by split]].
  destruct (removeObject o (dk_cuts dk)) as [[r rest] cs] eqn:Er. destruct (removeObject_ok sha256Hex o _ _ _ _ Er) as [Hnil _].
  destruct r; (split; [apply HJ, H|intros Hqt]); [|split; [done|]]; cbn; by apply Hnil, Hq.
Qed.

(** What [safeReplacementParents] finds. *)
Definition dirIn (stages : gset string) (p : string) : option bool := if decide (p ∈ stages) then Some true else kindOf p.
Fixpoint passes (stages : gset string) (dirs : list string) : bool :=
  match dirs with
  | [] => true
  | cur :: dirs => match dirIn stages cur with None => true | Some false => false | Some true => passes stages dirs end
  end.
Definition chain (name : string) : list string := if Dir name =s "." then [] else map (fun ps => Join ps "/") (prefixes (Split (Dir name) "/")).
Definition parentsOK (stages : gset string) (name : string) : bool := localReplacementName name && passes stages (chain name).

Lemma runs_checkParents (J F : assertion) S0 dirs (x : Prop) : (forall m s j, J m s j -> F m s j /\ s = S0) -> (passes S0 dirs = false -> x) ->
  runs J (checkParents kindOf dirs) (fun _ m s j => passes S0 dirs = true /\ J m s j) F x.
Proof.
  intros HJ. induction dirs as [|cur dirs IH]; intros Hx; cbn [checkParents]; [by apply runs_ret|].
  apply (runs_bind _ _ _ (fun _ => J)); [apply runs_sys; intros m s j H; by apply HJ in H as [? _]|]. intros _. apply runs_get. intros d0 H0.
  destruct (HJ _ _ _ H0) as [_ E0]. unfold dirAt. rewrite E0. change (if decide (cur ∈ S0) then Some true else kindOf cur) with (dirIn S0 cur). cbn [passes] in Hx |- *. destruct (dirIn S0 cur) as [[]|].
  - eapply runs_weaken; [apply (IH Hx)|by intros m s j [H _]|done|done|done].
  - apply runs_fail. intros m s j [H _]. split; [by apply HJ in H as [? _]|by apply Hx].
  - apply runs_ret. by intros m s j [H _].
Qed.

Lemma runs_parents (J F : assertion) S0 name (x : Prop) : (forall m s j, J m s j -> F m s j /\ s = S0) -> (parentsOK S0 name = false -> x) ->
  runs J (safeReplacementParents kindOf name) (fun _ m s j => parentsOK S0 name = true /\ J m s j) F x.
Proof.
  intros HJ Hx. unfold safeReplacementParents, parentsOK in *. destruct (localReplacementName name); cbn [negb andb] in *.
  2: { apply runs_fail. intros m s j H. split; [by apply HJ in H as [? _]|by apply Hx]. }
  unfold chain in *. destruct (Dir name =s "."); [by apply runs_ret|]. by apply runs_checkParents.
Qed.

Lemma runs_write (J F : assertion) (Q : unit -> assertion) journal state x :
  (forall m s j, J m s j -> F m s j /\ Q tt m s (<[journal := state]> j) /\ F m s (<[journal := state]> j)) -> runs J (writeReplacement journal state) Q F x.
Proof.
  intros HJ. unfold writeReplacement. do 4 (apply (runs_bind _ _ _ (fun _ => J)); [apply runs_sys; intros m s j H; by apply HJ in H as [? _]|]; intros _).
  apply (runs_bind _ _ _ (fun _ m s j => Q tt m s j /\ F m s j)).
  - apply runs_modify; [done|]. intros dk H. by apply HJ in H as [_ ?].
  - intros []. eapply runs_weaken; [apply (runs_sys (fun m s j => Q tt m s j /\ F m s j) F x)|..]; [by intros m s j [_ ?]|done|by intros [] m s j [? _]|done|done].
Qed.
End Logic.
