(* ===== verification/Recovery.v ===== *)
(** * Replacements recover

    Wherever a replacement is cut, recovery settles it: the proofs about Replace, with the
    states it may stop in, and what recovery may delete. *)

From S2P Require Import Prelude GoStrings Hoare Names Replace.

(** The paths of a valid journal are apart. *)
Lemma valid_apart st : validateReplacement st = true -> rp_Source st <> rp_Destination st /\ rp_Source st <> rp_Backup st /\ rp_Destination st <> rp_Backup st /\
  (rp_CopyStage st <> "" -> rp_Source st = rp_CopyStage st +:+ "/payload").
Proof.
  intros Hv. unfold validateReplacement in Hv. destruct (negb (rp_Format st =? 1)); [done|]. destruct (negb (forallb _ _)); [done|].
  destruct (_ || negb (HasPrefix (baseName (rp_Backup st)) ".birak-bak-")) eqn:E1; [done|]. destruct (existsb _ _); [done|].
  destruct (negb (rp_CopyStage st =s "") && _) eqn:E2; [done|]. clear Hv.
  assert (forall a b, under a b = false -> a <> b) as Hu by (intros a b H ->; unfold under in H; by rewrite String.eqb_refl in H).
  repeat (apply orb_false_iff in E1 as [E1 ?]).
  apply String.eqb_neq in E1. split; [done|]. split; [by apply Hu|]. split.
  - intros E. assert ((rp_Backup st =s rp_Destination st) = true) by (rewrite E; apply String.eqb_refl). congruence.
  - intros Hs. rewrite (proj2 (String.eqb_neq _ _) Hs) in E2. cbn [negb andb] in E2. repeat (apply orb_false_iff in E2 as [E2 ?]).
    match goal with H : negb (rp_Source st =s _) = false |- _ => apply negb_false_iff, String.eqb_eq in H; exact H end.
Qed.

(** ** Recovery *)

Section Recovery.
Context (sha256Hex : string -> string) (kindOf : string -> option bool) (q : bool).
Context (st : replacement) (jn : string) (N : object) (O : option object) (at0 : gmap string object).
Abbreviation src := (rp_Source st).
Abbreviation dst := (rp_Destination st).
Abbreviation bak := (rp_Backup st).
Abbreviation stg := (rp_CopyStage st).
Abbreviation kept_by := (runs q).

(** The journal was written for these objects. *)
Record Journalled : Prop := mkJournalled {
  jl_valid : validateReplacement st = true;
  jl_pending : rp_Committed st = false;
  jl_new : rp_New st = manifest sha256Hex N ".";
  jl_old : rp_Old st = manifestAt sha256Hex O;
  jl_newOK : supported N = true;
  jl_oldOK : supportedAt O = true;
  jl_stage : stg <> "" -> kindOf stg = None
}.
Context (HJ : Journalled).

(** What is at the three paths; nothing else moved. *)
Definition objects (os od ob : option object) (m : gmap string object) : Prop :=
  m !! src = os /\ m !! dst = od /\ m !! bak = ob /\ forall p, p <> src -> p <> dst -> p <> bak -> m !! p = at0 !! p.

(** Where a replacement that is not committed may have stopped, undoing included. *)
Inductive stopped : option object -> option object -> option object -> Prop :=
| st_prepared : stopped (Some N) O None
| st_backedUp : stopped (Some N) None O
| st_published : stopped None (Some N) O
| st_cleaning x : stg <> "" -> part sha256Hex x (Some N) -> stopped x O None.

Definition stagesOK (s : gset string) : Prop := parentsOK kindOf s src = true /\ parentsOK kindOf s dst = true /\ parentsOK kindOf s bak = true.

(** The source of a move stays; the copy is disposed of. *)
Definition keptSource : option object := if stg =s "" then Some N else None.

Definition Here (s0 : gset string) (j0 : gmap string replacement) (os od ob : option object) : assertion :=
  fun m s j => s = s0 /\ j = j0 /\ objects os od ob m.
Definition Pending : assertion := fun m s j => stagesOK s /\ j = {[ jn := st ]} /\ exists os od ob, stopped os od ob /\ objects os od ob m.
Definition Cleaning : assertion := fun m s j => stagesOK s /\ j = {[ jn := markCommitted st ]} /\ exists y, part sha256Hex y O /\ objects None (Some N) y m.
Definition Kept : assertion := fun m s j => j = ∅ /\ objects keptSource O None m.
Definition Replaced : assertion := fun m s j => j = ∅ /\ objects None (Some N) None m.

Lemma paths_apart : src <> dst /\ src <> bak /\ dst <> bak /\ (stg <> "" -> src = stg +:+ "/payload").
Proof. apply valid_apart, (jl_valid HJ). Qed.

Lemma names_once : NoDup (map re_Name (rp_New st)) /\ NoDup (map re_Name (rp_Old st)).
Proof.
  pose proof (jl_valid HJ) as Hv. unfold validateReplacement in Hv. destruct (negb _); [done|]. destruct (negb (forallb _ _)); [done|]. destruct (_ || _); [done|].
  destruct (existsb _ _); [done|]. destruct (_ && _); [done|]. destruct (length (rp_New st) =? 0)%nat; [done|]. apply andb_true_iff in Hv as [H1 H2].
  split; by apply validTree_once.
Qed.

(** *** What the renames and removals do to the three paths *)

Lemma objects_rename_ds od ob m : objects None (Some od) ob m -> objects (Some od) None ob (<[src := od]> (delete dst m)).
Proof.
  destruct paths_apart as (A1 & A2 & A3 & _). intros (H1 & H2 & H3 & H4). repeat split; [simplify_map_eq; done..|]. intros p P1 P2 P3. simplify_map_eq. by apply H4.
Qed.
Lemma objects_rename_bd os o m : objects os None (Some o) m -> objects os (Some o) None (<[dst := o]> (delete bak m)).
Proof.
  destruct paths_apart as (A1 & A2 & A3 & _). intros (H1 & H2 & H3 & H4). repeat split; [simplify_map_eq; done..|]. intros p P1 P2 P3. simplify_map_eq. by apply H4.
Qed.
Lemma objects_rename_db os o m : objects os (Some o) None m -> objects os None (Some o) (<[bak := o]> (delete dst m)).
Proof.
  destruct paths_apart as (A1 & A2 & A3 & _). intros (H1 & H2 & H3 & H4). repeat split; [simplify_map_eq; done..|]. intros p P1 P2 P3. simplify_map_eq. by apply H4.
Qed.
Lemma objects_rename_sd o ob m : objects (Some o) None ob m -> objects None (Some o) ob (<[dst := o]> (delete src m)).
Proof.
  destruct paths_apart as (A1 & A2 & A3 & _). intros (H1 & H2 & H3 & H4). repeat split; [simplify_map_eq; done..|]. intros p P1 P2 P3. simplify_map_eq. by apply H4.
Qed.
Lemma objects_alter_src os od ob x m : objects os od ob m -> objects x od ob (partial_alter (fun _ => x) src m).
Proof.
  destruct paths_apart as (A1 & A2 & A3 & _). intros (H1 & H2 & H3 & H4). unfold objects. rewrite lookup_partial_alter_eq, !lookup_partial_alter_ne by done. repeat split; [done..|].
  intros p P1 P2 P3. rewrite lookup_partial_alter_ne by done. by apply H4.
Qed.
Lemma objects_alter_bak os od ob x m : objects os od ob m -> objects os od x (partial_alter (fun _ => x) bak m).
Proof.
  destruct paths_apart as (A1 & A2 & A3 & _). intros (H1 & H2 & H3 & H4). unfold objects. rewrite lookup_partial_alter_eq, !lookup_partial_alter_ne by done. repeat split; [done..|].
  intros p P1 P2 P3. rewrite lookup_partial_alter_ne by done. by apply H4.
Qed.

(** Without the stage the parents are still safe. *)
Lemma passes_unstage s dirs : stg <> "" -> passes kindOf s dirs = true -> passes kindOf (s ∖ {[ stg ]}) dirs = true.
Proof.
  intros Hs. induction dirs as [|d dirs IH]; [done|]. cbn [passes]. destruct (decide (d = stg)) as [->|Hne].
  - intros _. unfold dirIn. rewrite decide_False by set_solver. by rewrite (jl_stage HJ Hs).
  - assert (dirIn kindOf (s ∖ {[ stg ]}) d = dirIn kindOf s d) as ->.
    { unfold dirIn. destruct (decide (d ∈ s)); [rewrite decide_True by set_solver|rewrite decide_False by set_solver]; done. }
    destruct (dirIn kindOf s d) as [[]|]; auto.
Qed.
Lemma stagesOK_unstage s : stg <> "" -> stagesOK s -> stagesOK (s ∖ {[ stg ]}).
Proof. unfold stagesOK, parentsOK. intros Hs. rewrite !andb_true_iff. intros ([? ?] & [? ?] & [? ?]). repeat split; auto using passes_unstage. Qed.

(** *** The end of every recovery *)

Lemma runs_finish (F : assertion) s0 st' os od ob x : rp_CopyStage st' = stg -> (stg <> "" -> os = None) ->
  (forall m s, s = s0 \/ (stg <> "" /\ s = s0 ∖ {[ stg ]}) -> objects os od ob m -> F m s {[ jn := st' ]}) ->
  (forall m s, objects os od ob m -> F m s ∅) ->
  kept_by (Here s0 {[ jn := st' ]} os od ob) (finishRecovery jn st') (fun _ m s j => j = ∅ /\ objects os od ob m) F x.
Proof.
  intros Est Hos HF HF0. unfold finishRecovery. rewrite Est.
  set (J := (fun m s j => (s = s0 \/ (stg <> "" /\ s = s0 ∖ {[ stg ]})) /\ j = {[ jn := st' ]} /\ objects os od ob m) : assertion).
  assert (forall m s j, J m s j -> F m s j) as HJF by (intros m s j (H1 & -> & H2); by apply HF).
  apply (runs_bind _ _ _ _ (fun _ => J)).
  - destruct (String.eqb_spec stg "") as [E|Hne]; cbn [negb]; [apply runs_ret; intros m s j (-> & -> & H); split; auto|]. unfold removeStage. specialize (Hos Hne) as ->.
    apply (runs_bind _ _ _ _ (fun _ => Here s0 {[ jn := st' ]} None od ob)); [apply runs_sys; intros m s j (-> & -> & H); apply HF; auto|]. intros _.
    apply runs_get. intros d0 (_ & _ & H0 & _). destruct paths_apart as (_ & _ & _ & Hp). rewrite <- (Hp Hne), H0. apply runs_modify; [done|].
    intros dk ((Hs & Hj & Hm) & _ & _ & _). cbn. rewrite Hs. split; auto.
  - intros _. apply (runs_bind _ _ _ _ (fun _ => J)); [by apply runs_syncParents|]. intros _. apply (runs_bind _ _ _ _ (fun _ => J)); [by apply runs_sys|]. intros _.
    apply runs_get. intros d0 (_ & -> & _). rewrite lookup_singleton_eq. apply (runs_bind _ _ _ _ (fun _ m s j => j = ∅ /\ objects os od ob m)).
    + apply runs_modify; [done|]. intros dk ((_ & Hj & Hm) & _ & _ & _). cbn. rewrite Hj. split; [apply delete_singleton_eq|done].
    + intros []. apply runs_sys. intros m s j (-> & H). by apply HF0.
Qed.
(** *** Rolling back *)

Lemma part_self o : supportedAt o = true -> part sha256Hex o o.
Proof. done. Qed.
Lemma part_none o : part sha256Hex None o.
Proof. split; [done|]. intros e H. by apply not_elem_of_nil in H. Qed.

Lemma Here_Pending s0 os od ob m s j : stagesOK s0 -> stopped os od ob -> Here s0 {[ jn := st ]} os od ob m s j -> Pending m s j.
Proof. intros Hs Hst (-> & -> & Hm). split; [done|]. split; [done|]. by exists os, od, ob. Qed.

Lemma runs_dispose s0 x e : stagesOK s0 -> part sha256Hex x (Some N) -> (stg = "" -> x = Some N) ->
  kept_by (Here s0 {[ jn := st ]} x O None) (if negb (stg =s "") then removeReplacementTree src else retS tt)
    (fun _ => Here s0 {[ jn := st ]} keptSource O None) Pending e.
Proof.
  intros Hs Hx Hn. unfold keptSource. destruct (String.eqb_spec stg "") as [E|Hne]; cbn [negb]; [rewrite (Hn E); by apply runs_ret|].
  apply (runs_remove sha256Hex) with (o := x); [| |by destruct Hx].
  - intros m s j (-> & -> & Hm). split; [by destruct Hm|]. split; [split; [done|]; split; [done|]; by eapply (objects_alter_src _ _ _ None)|].
    intros y Hy _. eapply (Here_Pending s0 y O None); [done| |split; [done|]; split; [done|]; by eapply objects_alter_src]. apply st_cleaning; [done|].
    split; [by destruct Hy|]. intros en Hin. by apply Hx, Hy.
  - intros m s j H. by eapply (Here_Pending s0 x O None); [|apply st_cleaning|].
Qed.

Lemma length_manifestAt o : supportedAt o = true -> (length (manifestAt sha256Hex o) =? 0)%nat = bool_decide (o = None).
Proof.
  intros Hs. case_bool_decide as E; [by rewrite E|]. apply Nat.eqb_neq. intros E2%length_zero_iff_nil. by apply E, (manifestAt_empty sha256Hex).
Qed.

Lemma old_self b : matchesReplacement (manifestAt sha256Hex O) (rp_Old st) b = true.
Proof. rewrite <- (jl_old HJ). apply matches_self, names_once. Qed.
Lemma new_self b : matchesReplacement (manifestAt sha256Hex (Some N)) (rp_New st) b = true.
Proof. cbn [manifestAt]. rewrite <- (jl_new HJ). apply matches_self, names_once. Qed.

(** The backup goes back, if there was something at the destination. *)
Lemma runs_restoreDst s0 e : stagesOK s0 ->
  kept_by (Here s0 {[ jn := st ]} (Some N) None O) (if negb (length (rp_Old st) =? 0)%nat then do! Rename bak dst then SyncDir else retS tt)
    (fun _ => Here s0 {[ jn := st ]} (Some N) O None) Pending e.
Proof.
  intros Hs. rewrite (jl_old HJ), length_manifestAt by apply (jl_oldOK HJ). destruct O as [o|] eqn:EO; [rewrite bool_decide_false by done|by apply runs_ret]. cbn [negb].
  rewrite <- EO in *. apply (runs_bind _ _ _ _ (fun _ => Here s0 {[ jn := st ]} (Some N) O None)).
  - apply (runs_Rename _ _ _ _ _ _ o). intros m s j H. split; [eapply (Here_Pending s0 (Some N) None O); [done|apply st_backedUp|done]|]. destruct H as (-> & -> & H). rewrite EO in H |- *.
    split; [by destruct H as (_ & _ & ? & _)|]. split; [done|]. split; [done|]. by apply objects_rename_bd.
  - intros _. apply runs_sys. intros m s j H. eapply (Here_Pending s0 (Some N) O None); [done|apply st_prepared|done].
Qed.

Lemma runs_restoreRenames s0 os od e : stagesOK s0 -> (os, od) = (Some N, None) \/ (os, od) = (None, Some N) ->
  kept_by (Here s0 {[ jn := st ]} os od O) (restoreRenames st (manifestAt sha256Hex O) (manifestAt sha256Hex os) (manifestAt sha256Hex od))
    (fun _ => Here s0 {[ jn := st ]} (Some N) O None) Pending e.
Proof.
  intros Hs Hcase. unfold restoreRenames. rewrite old_self. cbn [negb]. apply (runs_bind _ _ _ _ (fun _ => Here s0 {[ jn := st ]} (Some N) None O)); [|intros _; by apply runs_restoreDst].
  destruct Hcase as [[= -> ->]|[= -> ->]].
  - rewrite new_self. by apply runs_ret.
  - rewrite new_self, length_manifestAt by apply (jl_newOK HJ). rewrite bool_decide_false by done. cbn [andb manifestAt length Nat.eqb].
    apply (runs_bind _ _ _ _ (fun _ => Here s0 {[ jn := st ]} (Some N) None O)).
    + apply (runs_Rename _ _ _ _ _ _ N). intros m s j H. split; [eapply (Here_Pending s0 None (Some N) O); [done|apply st_published|done]|]. destruct H as (-> & -> & H).
      split; [by destruct H as (_ & ? & _)|]. split; [done|]. split; [done|]. by apply objects_rename_ds.
    + intros _. apply runs_syncParents. intros m s j H. eapply (Here_Pending s0 (Some N) None O); [done|apply st_backedUp|done].
Qed.
(** Either everything is where it was, or the renames have to be undone. *)
Lemma stopped_cases os od ob : stopped os od ob ->
  (od = O /\ ob = None /\ part sha256Hex os (Some N) /\ (stg = "" -> os = Some N)) \/
  (ob = O /\ ((os, od) = (Some N, None) /\ O <> None \/ (os, od) = (None, Some N))).
Proof.
  intros Hst. assert (part sha256Hex (Some N) (Some N)) as Hp by apply part_self, (jl_newOK HJ). destruct Hst as [| | |x Hne Hx].
  - by left.
  - destruct O as [o|] eqn:E; [right; split; [done|]; by left|left; done].
  - right. split; [done|]. by right.
  - left. done.
Qed.

Lemma stopped_supported os od ob : stopped os od ob -> supportedAt os = true /\ supportedAt od = true /\ supportedAt ob = true.
Proof. intros Hst. pose proof (jl_newOK HJ). pose proof (jl_oldOK HJ). destruct Hst as [| | |x Hne [Hx _]]; done. Qed.

Lemma runs_rollBack s0 os od ob e : stagesOK s0 -> stopped os od ob ->
  kept_by (Here s0 {[ jn := st ]} os od ob) (rollBack sha256Hex st (manifestAt sha256Hex ob)) (fun _ => Here s0 {[ jn := st ]} keptSource O None) Pending e.
Proof.
  intros Hs Hst. destruct (stopped_supported _ _ _ Hst) as (S1 & S2 & S3). unfold rollBack.
  assert (forall m s j, Here s0 {[ jn := st ]} os od ob m s j -> Pending m s j) as HP by (intros m s j; by apply Here_Pending).
  eapply runs_bind; [apply (runs_tree _ _ _ _ _ os); [intros m s j H; split; [by apply HP|by destruct H as (_ & _ & ? & _)]|congruence]|]. intros source. apply runs_pure. intros [-> _].
  eapply runs_bind; [apply (runs_tree _ _ _ _ _ od); [intros m s j H; split; [by apply HP|by destruct H as (_ & _ & _ & ? & _)]|congruence]|]. intros dest. apply runs_pure. intros [-> _].
  rewrite length_manifestAt by done. destruct (stopped_cases _ _ _ Hst) as [(-> & -> & Hx & Hn)|(-> & Hcase)].
  - rewrite old_self. cbn [andb bool_decide]. apply (runs_bind _ _ _ _ (fun _ => Here s0 {[ jn := st ]} os O None)); [|intros _; by apply runs_dispose].
    assert (matchesReplacement (manifestAt sha256Hex os) (rp_New st) (negb (stg =s "")) = true) as ->; [|by apply runs_ret].
    destruct (String.eqb_spec stg "") as [E|Hne]; [rewrite (Hn E); apply new_self|]. apply matches_part; [apply names_once|]. rewrite (jl_new HJ). apply Hx.
  - assert (bool_decide (O = None) && matchesReplacement (manifestAt sha256Hex od) (rp_Old st) false = false) as ->.
    { destruct Hcase as [[[= -> ->] HO]|[= -> ->]]; [by rewrite bool_decide_false|]. case_bool_decide as E; [|done]. cbn [andb]. apply not_true_iff_false. intros H%matches_length.
      rewrite (jl_old HJ), E in H. apply length_zero_iff_nil in H. by apply (manifestAt_empty sha256Hex) in H; [|apply (jl_newOK HJ)]. }
    apply (runs_bind _ _ _ _ (fun _ => Here s0 {[ jn := st ]} (Some N) O None)); [apply runs_restoreRenames; [done|tauto]|].
    intros _. apply runs_dispose; [done|by apply part_self, (jl_newOK HJ)|done].
Qed.

(** *** Recovery from either journal *)

Lemma runs_threeParents (J F : assertion) s0 e : stagesOK s0 -> (forall m s j, J m s j -> F m s j /\ s = s0) ->
  kept_by J (forS (safeReplacementParents kindOf) [src; dst; bak]) (fun _ => J) F e.
Proof.
  intros (H1 & H2 & H3) HJF. cbn [forS]. apply (runs_bind _ _ _ _ (fun _ => J)); [|intros _; apply (runs_bind _ _ _ _ (fun _ => J)); [|intros _; apply (runs_bind _ _ _ _ (fun _ => J)); [|intros _; by apply runs_ret]]].
  all: eapply runs_weaken; [apply (runs_parents _ _ _ _ s0); [exact HJF|congruence]|done|by intros ? ? ? ? [_ ?]|done|done].
Qed.

Lemma runs_recoverPending : kept_by Pending (recoverReplacement sha256Hex kindOf jn st) (fun _ => Kept) (fun m s j => Pending m s j \/ Kept m s j) False.
Proof.
  intros dk [(Hs & Hj & os & od & ob & Hst & Hm) Hq]. set (s0 := dk_stages dk) in *. revert dk Hj Hm Hq s0 Hs.
  enough (forall s0, stagesOK s0 -> kept_by (Here s0 {[ jn := st ]} os od ob) (recoverReplacement sha256Hex kindOf jn st) (fun _ => Kept) (fun m s j => Pending m s j \/ Kept m s j) False) as H
    by (intros dk Hj Hm Hq s0 Hs; apply (H s0 Hs); by split).
  intros s0 Hs. unfold recoverReplacement. rewrite (jl_valid HJ), (jl_pending HJ). cbn [negb]. destruct (stopped_supported _ _ _ Hst) as (_ & _ & S3).
  assert (forall m s j, Here s0 {[ jn := st ]} os od ob m s j -> Pending m s j \/ Kept m s j) as HP by (intros m s j ?; left; by eapply Here_Pending).
  apply (runs_bind _ _ _ _ (fun _ => Here s0 {[ jn := st ]} os od ob)); [apply (runs_threeParents _ _ s0); [done|]; intros m s j H; split; [by apply HP|by destruct H]|]. intros _.
  eapply runs_bind; [apply (runs_tree _ _ _ _ _ ob); [intros m s j H; split; [by apply HP|by destruct H as (_ & _ & _ & _ & ? & _)]|congruence]|]. intros backup. apply runs_pure. intros [-> _].
  eapply runs_bind; [eapply runs_weaken; [apply (runs_rollBack s0 os od ob False Hs Hst)|done|done|by left|done]|]. intros [].
  eapply runs_weaken; [apply (runs_finish (fun m s j => Pending m s j \/ Kept m s j) s0 st keptSource O None False); [done|..]|done|done|done|done].
  - intros Hne. unfold keptSource. by rewrite (proj2 (String.eqb_neq _ _) Hne).
  - intros m s Hcase Hm. left. split; [destruct Hcase as [->|[Hne ->]]; auto using stagesOK_unstage|]. split; [done|]. exists keptSource, O, None. split; [|done].
    unfold keptSource. destruct (String.eqb_spec stg ""); [apply st_prepared|apply st_cleaning; [done|apply part_none]].
  - intros m s Hm. by right.
Qed.

Lemma runs_recoverCleaning : kept_by Cleaning (recoverReplacement sha256Hex kindOf jn (markCommitted st)) (fun _ => Replaced) (fun m s j => Cleaning m s j \/ Replaced m s j) False.
Proof.
  set (F := (fun m s j => Cleaning m s j \/ Replaced m s j) : assertion).
  enough (forall s0 y, stagesOK s0 -> part sha256Hex y O ->
    kept_by (Here s0 {[ jn := markCommitted st ]} None (Some N) y) (recoverReplacement sha256Hex kindOf jn (markCommitted st)) (fun _ => Replaced) F False) as H
    by (intros dk [(Hs & Hj & y & Hy & Hm) Hq]; apply (H (dk_stages dk) y Hs Hy); by split).
  intros s0 y Hs Hy. assert (forall z m s j, part sha256Hex z O -> Here s0 {[ jn := markCommitted st ]} None (Some N) z m s j -> F m s j) as HF.
  { intros z m s j Hz (-> & -> & Hm). left. split; [done|]. split; [done|]. by exists z. }
  unfold recoverReplacement. change (validateReplacement (markCommitted st)) with (validateReplacement st). rewrite (jl_valid HJ). cbn [negb rp_Committed markCommitted rp_Source rp_Destination rp_Backup rp_Old].
  apply (runs_bind _ _ _ _ (fun _ => Here s0 {[ jn := markCommitted st ]} None (Some N) y)); [apply (runs_threeParents _ _ s0); [done|]; intros m s j H; split; [by eapply HF|by destruct H]|]. intros _.
  eapply runs_bind; [apply (runs_tree _ _ _ _ _ y); [intros m s j H; split; [by eapply HF|by destruct H as (_ & _ & _ & _ & ? & _)]|destruct Hy; congruence]|]. intros backup. apply runs_pure. intros [-> Hsy].
  rewrite (matches_part _ (rp_Old st)); [|apply names_once|rewrite (jl_old HJ); apply Hy]. cbn [negb].
  apply (runs_bind _ _ _ _ (fun _ => Here s0 {[ jn := markCommitted st ]} None (Some N) None)).
  - apply (runs_remove sha256Hex) with (o := y); [|intros m s j H; by eapply HF|done]. intros m s j (-> & -> & Hm). split; [by destruct Hm as (_ & _ & ? & _)|].
    split; [split; [done|]; split; [done|]; by eapply (objects_alter_bak _ _ _ None)|]. intros z Hz _. apply (HF z); [split; [by destruct Hz|]; intros en Hin; by apply Hy, Hz|].
    split; [done|]. split; [done|]. by eapply objects_alter_bak.
  - intros _. eapply runs_weaken; [apply (runs_finish F s0 (markCommitted st) None (Some N) None False); [done|done|..]|done|done|done|done].
    + intros m s Hcase Hm. left. split; [destruct Hcase as [->|[Hne ->]]; auto using stagesOK_unstage|]. split; [done|]. exists None. split; [apply part_none|done].
    + intros m s Hm. by right.
Qed.
(** *** The renames of a replacement *)

Lemma runs_publishTree s0 : stagesOK s0 ->
  kept_by (Here s0 {[ jn := st ]} (Some N) O None) (publishTree sha256Hex kindOf jn st) (fun _ => Here s0 {[ jn := st ]} None (Some N) O)
    (fun m s j => Pending m s j \/ Kept m s j) True.
Proof.
  intros Hs. unfold publishTree.
  assert (forall os od ob, stopped os od ob -> forall m s j, Here s0 {[ jn := st ]} os od ob m s j -> Pending m s j) as HP by (intros os od ob ? m s j; by apply Here_Pending).
  apply (runs_catch _ _ _ _ _ _ Pending True True); [| |by left|done].
  - apply (runs_bind _ _ _ _ (fun _ => Here s0 {[ jn := st ]} (Some N) None O)).
    + rewrite (jl_old HJ), length_manifestAt by apply (jl_oldOK HJ). destruct O as [o|] eqn:EO; [rewrite bool_decide_false by done|by apply runs_ret]. cbn [negb]. rewrite <- EO in *.
      apply (runs_bind _ _ _ _ (fun _ => Here s0 {[ jn := st ]} (Some N) None O)).
      * apply (runs_Rename _ _ _ _ _ _ o). intros m s j H. split; [by eapply HP; [apply st_prepared|]|]. destruct H as (-> & -> & H). rewrite EO in H |- *.
        split; [by destruct H as (_ & ? & _)|]. split; [done|]. split; [done|]. by apply objects_rename_db.
      * intros _. apply runs_sys. apply HP, st_backedUp.
    + intros _. apply (runs_bind _ _ _ _ (fun _ => Here s0 {[ jn := st ]} None (Some N) O)).
      * apply (runs_Rename _ _ _ _ _ _ N). intros m s j H. split; [by eapply HP; [apply st_backedUp|]|]. destruct H as (-> & -> & H). split; [by destruct H|]. split; [done|]. split; [done|]. by apply objects_rename_sd.
      * intros _. apply runs_syncParents. apply HP, st_published.
  - intros e. apply runs_pure. intros _. apply (runs_bind _ _ _ _ (fun _ => Kept)); [|intros []; apply runs_fail; auto].
    apply (runs_catch _ _ _ _ _ _ (fun m s j => Pending m s j \/ Kept m s j) True False runs_recoverPending); [|done|done].
    intros e'. apply runs_pure. intros _. apply runs_fail. auto.
Qed.
End Recovery.

(** A run that may be cut anywhere, and one that is not. *)
Lemma runs_cut {A} (J : assertion) (c : R A) (Q : A -> assertion) (F : assertion) x cs dk r dk' : runs false J c Q F x ->
  J (dk_at dk) (dk_stages dk) (dk_journals dk) -> c (set_cuts cs dk) = (r, dk') ->
  match r with Ok a => Q a (dk_at dk') (dk_stages dk') (dk_journals dk') | Err _ => F (dk_at dk') (dk_stages dk') (dk_journals dk') end.
Proof. intros H HJ E. specialize (H (set_cuts cs dk)). rewrite E in H. destruct r; by apply H. Qed.
Lemma runs_calm {A} (J : assertion) (c : R A) (Q : A -> assertion) (F : assertion) dk : runs true J c Q F False ->
  J (dk_at dk) (dk_stages dk) (dk_journals dk) -> exists a dk', c (set_cuts [] dk) = (Ok a, dk') /\ Q a (dk_at dk') (dk_stages dk') (dk_journals dk').
Proof.
  intros H HJ. specialize (H (set_cuts [] dk)). destruct (c (set_cuts [] dk)) as [[a|e] dk']; [exists a, dk'; split; [done|]; by apply H|].
  destruct H as [_ H]; [by split|]. by destruct (H eq_refl).
Qed.

(** ** Every run of a replacement *)

Section Crash.
Context (sha256Hex : string -> string) (kindOf : string -> option bool).
Context (id stage src dst : string) (copy : option (object * bool)) (at0 : gmap string object).

(** Where the new object comes from. *)
Definition stageOf : string := match copy with Some _ => stage | None => "" end.
Definition sourceOf : string := match copy with Some _ => stage +:+ "/payload" | None => src end.
Definition newObject : option object := match copy with Some (payload, _) => Some payload | None => at0 !! src end.
Definition backupOf : string := (if Dir dst =s "." then "" else Dir dst +:+ "/") +:+ ".birak-bak-" +:+ id.
Definition journalOf : string := "replace-" +:+ id +:+ ".json".
Definition stateOf (N : object) : replacement :=
  mkReplacement 1 dst sourceOf backupOf stageOf (manifestAt sha256Hex (at0 !! dst)) (manifest sha256Hex N ".") false.

(** Nothing changed, a leftover copy in the staging directory apart. *)
Definition Untouched (m : gmap string object) : Prop := forall p, (is_Some copy -> p <> sourceOf) -> m !! p = at0 !! p.
(** The new object took the destination's place, and nothing else changed. *)
Definition Swapped (m : gmap string object) : Prop :=
  is_Some newObject /\ m !! dst = newObject /\ m !! sourceOf = None /\ forall p, p <> dst -> p <> sourceOf -> m !! p = at0 !! p.

Definition Done (m : gmap string object) (s : gset string) (j : gmap string replacement) : Prop := j = ∅ /\ (Untouched m \/ Swapped m).
Definition Underway (N : object) : assertion := fun m s j =>
  (newObject = Some N /\ at0 !! backupOf = None /\ Journalled sha256Hex kindOf (stateOf N) N (at0 !! dst)) /\
  (Pending sha256Hex kindOf (stateOf N) journalOf N (at0 !! dst) at0 m s j \/ Cleaning sha256Hex kindOf (stateOf N) journalOf N (at0 !! dst) at0 m s j).
Definition Settling : assertion := fun m s j => Done m s j \/ exists N, Underway N m s j.

Lemma Kept_Old N m s j : newObject = Some N -> at0 !! backupOf = None -> Kept (stateOf N) N (at0 !! dst) at0 m s j -> j = ∅ /\ Untouched m.
Proof.
  intros HN Hb (-> & H1 & H2 & H3 & H4). split; [done|]. intros p Hp. cbn in *.
  destruct (decide (p = dst)) as [->|P2]; [done|]. destruct (decide (p = backupOf)) as [->|P3]; [congruence|]. destruct (decide (p = sourceOf)) as [->|P1]; [|by apply H4].
  destruct copy as [c|] eqn:Ec; [exfalso; by apply Hp|]. rewrite H1. unfold keptSource. cbn. unfold sourceOf, stageOf, newObject in *. by rewrite Ec in *.
Qed.
Lemma Replaced_New N m s j : newObject = Some N -> at0 !! backupOf = None -> Replaced (stateOf N) N at0 m s j -> j = ∅ /\ Swapped m.
Proof.
  intros HN Hb (-> & H1 & H2 & H3 & H4). split; [done|]. cbn in *. rewrite <- HN in H2. split; [by eexists|]. split; [done|]. split; [done|].
  intros p P1 P2. destruct (decide (p = backupOf)) as [->|P3]; [congruence|]. by apply H4.
Qed.

(** *** Recovery at the next start *)

Hypothesis private : kindOf ".birak" <> Some false /\ kindOf ".birak/transactions" <> Some false.

Lemma private_ok s : parentsOK kindOf s ".birak/transactions/journal" = true.
Proof.
  unfold parentsOK. change (localReplacementName _) with true. cbn [andb]. change (chain _) with [".birak"; ".birak/transactions"]. cbn [passes].
  assert (forall p, kindOf p <> Some false -> dirIn kindOf s p <> Some false) as H by (intros p Hp; unfold dirIn; by destruct (decide (p ∈ s))).
  destruct private as [H1%H H2%H]. destruct (dirIn kindOf s ".birak") as [[]|]; [|done..]. by destruct (dirIn kindOf s ".birak/transactions") as [[]|].
Qed.

Lemma runs_private q (J F : assertion) e : (forall m s j, J m s j -> F m s j) -> runs q J (safeReplacementParents kindOf ".birak/transactions/journal") (fun _ => J) F e.
Proof.
  intros HF dk [HJ Hq]. pose proof (runs_parents kindOf q (fun m s j => J m s j /\ s = dk_stages dk) F (dk_stages dk) ".birak/transactions/journal" e) as H.
  specialize (H ltac:(intros m s j [? ->]; split; auto) ltac:(by rewrite private_ok) dk (conj (conj HJ eq_refl) Hq)).
  destruct (safeReplacementParents kindOf ".birak/transactions/journal" dk) as [[]?]; [|done]. destruct H as [[_ [H _]] Hq']. by split.
Qed.

Lemma isReplacementJournal_id : isReplacementJournal journalOf = true.
Proof.
  unfold isReplacementJournal, journalOf, HasSuffix. apply andb_true_iff. split; [apply HasPrefix_app|]. rewrite !srev_app, string_app_assoc. apply HasPrefix_app.
Qed.

Lemma runs_start q (J F : assertion) (k : R unit) (Q : unit -> assertion) e : (forall m s j, J m s j -> F m s j) -> runs q J k Q F e ->
  runs q J (do! sysR then do! sysR then do! safeReplacementParents kindOf ".birak/transactions/journal" then do! sysR then do! sysR then k) Q F e.
Proof.
  intros HF Hk. do 2 (apply (runs_bind _ _ _ _ (fun _ => J)); [by apply runs_sys|]; intros _). apply (runs_bind _ _ _ _ (fun _ => J)); [by apply runs_private|]. intros _.
  do 2 (apply (runs_bind _ _ _ _ (fun _ => J)); [by apply runs_sys|]; intros _). done.
Qed.

(** One journal is recovered, none leaves all as it is. *)
Lemma runs_recoverOne q (J F : assertion) (Q : unit -> assertion) v e : (forall m s j, J m s j -> F m s j /\ j = {[ journalOf := v ]}) ->
  runs q J (recoverReplacement sha256Hex kindOf journalOf v) Q F e -> runs q J (recoverLocked sha256Hex kindOf) Q F e.
Proof.
  intros HJ Hr. apply runs_start; [intros m s j H; by apply HJ in H as [? _]|]. apply runs_get. intros d0 H0. destruct (HJ _ _ _ H0) as [_ ->].
  rewrite map_to_list_singleton. cbn [forS fst snd]. rewrite isReplacementJournal_id. cbn [negb].
  apply (runs_bind _ _ _ _ Q); [|intros []; by apply runs_ret].
  apply (runs_bind _ _ _ _ (fun _ => J)); [eapply runs_weaken; [apply (runs_sys q J F)|..]; [intros m s j H; by apply HJ in H as [? _]|by intros m s j [? _]|done..]|]. done.
Qed.
Lemma runs_recoverNone q (J : assertion) e : (forall m s j, J m s j -> j = ∅) -> runs q J (recoverLocked sha256Hex kindOf) (fun _ => J) J e.
Proof. intros HJ. apply runs_start; [done|]. apply runs_get. intros d0 H0. rewrite (HJ _ _ _ H0), map_to_list_empty. apply runs_ret. by intros m s j [? _]. Qed.

Lemma runs_recoverLocked q : runs q Settling (recoverLocked sha256Hex kindOf) (fun _ => Done) Settling False.
Proof.
  apply runs_or; [eapply runs_weaken; [apply (runs_recoverNone q Done)|..]; [by intros m s j [? _]|done|done|by left|done]|].
  apply runs_ex. intros N. apply runs_pure. intros (HN & Hb & HJ). apply runs_or.
  - apply (runs_recoverOne _ _ _ _ (stateOf N)); [intros m s j H; split; [right; exists N; split; auto|by destruct H as (_ & ? & _)]|].
    eapply runs_weaken; [apply (runs_recoverPending sha256Hex kindOf q (stateOf N) journalOf N _ at0 HJ)|done|..|done].
    + intros [] m s j H. apply Kept_Old in H as [? ?]; [|done|done]. split; auto.
    + intros m s j [H|H]; [right; exists N; split; auto|left]. apply Kept_Old in H as [? ?]; [|done|done]. split; auto.
  - apply (runs_recoverOne _ _ _ _ (markCommitted (stateOf N))); [intros m s j H; split; [right; exists N; split; auto|by destruct H as (_ & ? & _)]|].
    eapply runs_weaken; [apply (runs_recoverCleaning sha256Hex kindOf q (stateOf N) journalOf N _ at0 HJ)|done|..|done].
    + intros [] m s j H. apply Replaced_New in H as [? ?]; [|done|done]. split; auto.
    + intros m s j [H|H]; [right; exists N; split; auto|left]. apply Replaced_New in H as [? ?]; [|done|done]. split; auto.
Qed.
(** *** Before the journal is written *)

(** The source is complete, at a path of its own or in the staging directory. *)
Definition Ready : assertion := fun m s j =>
  j = ∅ /\ m !! sourceOf = newObject /\ (forall p, p <> sourceOf -> m !! p = at0 !! p) /\ (stageOf <> "" -> kindOf stageOf = None).
(** All but the source is as it was. *)
Definition Idle : assertion := fun m s j => j = ∅ /\ Untouched m.

Lemma Idle_Settling m s j : Idle m s j -> Settling m s j.
Proof. intros [-> H]. left. split; auto. Qed.
Lemma Ready_Idle m s j : Ready m s j -> Idle m s j.
Proof.
  intros (-> & H1 & H2 & _). split; [done|]. intros p Hp. destruct (decide (p = sourceOf)) as [->|]; [|by apply H2]. unfold newObject, sourceOf in *. destruct copy as [c|]; [|done].
  exfalso. by apply Hp.
Qed.

Definition Prepared (N : object) (s0 : gset string) : Prop :=
  newObject = Some N /\ at0 !! backupOf = None /\ Journalled sha256Hex kindOf (stateOf N) N (at0 !! dst) /\ stagesOK kindOf (stateOf N) s0.

Lemma backup_parents s0 st : validateReplacement st = true -> parentsOK kindOf s0 (rp_Destination st) = true -> parentsOK kindOf s0 (rp_Backup st) = true.
Proof.
  unfold validateReplacement. destruct (negb (rp_Format st =? 1)); [done|]. cbn [forallb]. destruct (localReplacementName (rp_Destination st)); [|done].
  destruct (localReplacementName (rp_Source st)); [|done]. destruct (localReplacementName (rp_Backup st)) eqn:Eb; [|done]. cbn [negb andb].
  destruct (_ || negb (HasPrefix (baseName (rp_Backup st)) ".birak-bak-")) eqn:E1; [done|]. intros _ [_ H]%andb_true_iff. apply orb_false_iff in E1 as [E1 _]. apply orb_false_iff in E1 as [_ E1%negb_false_iff%String.eqb_eq].
  unfold parentsOK, chain in *. by rewrite Eb, E1.
Qed.

Lemma Prepared_intro N s0 od : newObject = Some N -> od = (if decide (dst = sourceOf) then newObject else at0 !! dst) -> supported N = true -> supportedAt od = true ->
  (stageOf <> "" -> kindOf stageOf = None) -> parentsOK kindOf s0 sourceOf = true -> parentsOK kindOf s0 dst = true ->
  (if decide (backupOf = sourceOf) then newObject else at0 !! backupOf) = None ->
  validateReplacement (mkReplacement 1 dst sourceOf backupOf stageOf (manifestAt sha256Hex od) (manifest sha256Hex N ".") false) = true ->
  mkReplacement 1 dst sourceOf backupOf stageOf (manifestAt sha256Hex od) (manifest sha256Hex N ".") false = stateOf N /\ Prepared N s0.
Proof.
  intros HN Hod SN SO Hst P1 P2 Hb Hv. set (st := mkReplacement _ _ _ _ _ _ _ _) in *. assert (Journalled sha256Hex kindOf st N od) as HJ by (by split).
  destruct (paths_apart _ _ _ _ _ HJ) as (A1 & A2 & A3 & _). cbn in A1, A2, A3. rewrite decide_False in Hod by done. rewrite decide_False in Hb by done. subst od.
  split; [done|]. split; [done|]. split; [done|]. split; [done|]. split; [done|]. split; [done|]. by apply (backup_parents s0 (stateOf N)).
Qed.

Lemma runs_prepare q s0 : runs q (fun m s j => s = s0 /\ Ready m s j) (prepare sha256Hex kindOf id stageOf sourceOf dst)
  (fun st m s j => (exists N, st = stateOf N /\ Prepared N s0) /\ s = s0 /\ Ready m s j) Ready True.
Proof.
  set (J := (fun m s j => s = s0 /\ Ready m s j) : assertion). set (od := if decide (dst = sourceOf) then newObject else at0 !! dst).
  assert (forall p m s j, J m s j -> m !! p = if decide (p = sourceOf) then newObject else at0 !! p) as Hat.
  { intros p m s j (_ & _ & H1 & H2 & _). destruct (decide (p = sourceOf)) as [->|]; auto. }
  assert (forall m s j, J m s j -> Ready m s j) as HF by (by intros m s j [_ ?]). unfold prepare.
  apply (runs_bind _ _ _ _ (fun _ => J)); [by apply runs_sys|]. intros _.
  apply (runs_bind _ _ _ _ (fun _ => J)); [destruct (localReplacementName sourceOf); [by apply runs_ret|apply runs_fail; auto]|]. intros _.
  eapply runs_bind; [apply (runs_parents kindOf q J Ready s0 sourceOf True); [intros m s j H; split; [by apply HF|by destruct H]|done]|]. intros []. apply runs_pure. intros P1.
  eapply runs_bind; [apply (runs_parents kindOf q J Ready s0 dst True); [intros m s j H; split; [by apply HF|by destruct H]|done]|]. intros []. apply runs_pure. intros P2.
  eapply runs_bind; [apply (runs_tree sha256Hex q J Ready sourceOf newObject True); [intros m s j H; split; [by apply HF|by destruct H as (_ & _ & ? & _)]|done]|]. intros new. apply runs_pure. intros [-> SN].
  apply (runs_bind _ _ _ _ (fun _ m s j => is_Some newObject /\ J m s j)).
  { rewrite length_manifestAt by done. case_bool_decide as HN; [by apply runs_fail; intros m s j H; split; [apply HF|]|]. apply runs_ret. intros m s j H. split; [by apply not_eq_None_Some|done]. }
  intros _. apply runs_pure. intros [N HN].
  eapply runs_bind; [apply (runs_tree sha256Hex q J Ready dst od True); [intros m s j H; split; [by apply HF|by eapply Hat]|done]|]. intros old. apply runs_pure. intros [-> SO].
  apply (runs_bind _ _ _ _ (fun _ => J)); [by apply runs_sys|]. intros _. apply runs_get. intros d0 H0. fold backupOf.
  destruct (dk_at d0 !! backupOf) as [b|] eqn:Eb; [apply runs_fail; intros m s j [H _]; auto|]. rewrite (Hat _ _ _ _ H0) in Eb.
  rewrite HN. cbn [manifestAt]. destruct (validateReplacement _) eqn:Ev; [|apply runs_fail; intros m s j [H _]; auto]. cbn [negb]. apply runs_ret. intros m s j [H _]. split; [|done].
  exists N. apply (Prepared_intro N s0 od); try done; [by rewrite HN in SN|]. by destruct H as (_ & _ & _ & _ & ?).
Qed.
Lemma runs_removeAll q : is_Some copy -> runs q Idle (removeAll stage) (fun _ => Idle) Idle True.
Proof.
  intros Hc. assert (sourceOf = stage +:+ "/payload") as E by (unfold sourceOf; by destruct copy; [|destruct Hc]). unfold removeAll. apply (runs_bind _ _ _ _ (fun _ => Idle)).
  - apply (runs_removeAny sha256Hex). intros m s j y [-> H]. split; [done|]. intros p Hp. rewrite lookup_partial_alter_ne; [by apply H|]. intros <-. by apply (Hp Hc).
  - intros _. unfold removeStage. apply (runs_bind _ _ _ _ (fun _ => Idle)); [by apply runs_sys|]. intros _. apply runs_get. intros d0 _.
    destruct (dk_at d0 !! (stage +:+ "/payload")); [by apply runs_fail; intros m s j [? _]|]. apply runs_modify; [done|]. by intros dk [? _].
Qed.

(** The payload is written to a new directory. *)
Lemma runs_buildCopy q payload built : copy = Some (payload, built) ->
  runs q (fun m s j => j = ∅ /\ m = at0) (buildCopy kindOf stage payload built) (fun _ => Ready) Idle True.
Proof.
  intros Ec. set (J := (fun m s j => j = ∅ /\ m = at0) : assertion). assert (sourceOf = stage +:+ "/payload") as E by (unfold sourceOf; by rewrite Ec).
  assert (newObject = Some payload) as EN by (unfold newObject; by rewrite Ec). assert (stageOf = stage) as Es by (unfold stageOf; by rewrite Ec).
  assert (forall m s j, J m s j -> Idle m s j) as HF by (intros m s j [-> ->]; done). unfold buildCopy.
  apply (runs_bind _ _ _ _ (fun _ m s j => kindOf stage = None /\ J m s j)).
  - unfold MkdirTemp. apply (runs_bind _ _ _ _ (fun _ => J)); [by apply runs_sys|]. intros _. apply runs_get. intros d0 _.
    assert (forall e : rperr, runs q (fun m s j => J m s j /\ m = dk_at d0 /\ s = dk_stages d0 /\ j = dk_journals d0) (failS e) (fun _ : unit => fun m s j => kindOf stage = None /\ J m s j) Idle True) as Hfail
      by (intros e; apply runs_fail; intros m s j [H _]; auto).
    unfold dirAt. destruct (decide (stage ∈ dk_stages d0)); [apply Hfail|]. destruct (kindOf stage) as [[]|]; [apply Hfail..|]. destruct (dk_at d0 !! (stage +:+ "/payload")); [apply Hfail|].
    apply runs_modify; [done|]. by intros dk [? _].
  - intros _. apply runs_pure. intros Hk. apply (runs_bind _ _ _ _ (fun _ => J)); [by apply runs_sys|]. intros _. apply (runs_bind _ _ _ _ (fun _ => Ready)).
    + apply runs_modify; [done|]. intros dk [Hj Hm]. cbn. rewrite Hm. split; [done|]. rewrite E, Es. split; [by rewrite lookup_insert_eq, EN|]. split; [|done]. intros p Hp. by rewrite lookup_insert_ne.
    + intros []. apply (runs_catch _ _ _ _ _ _ Idle True True); [| |done|done].
      * apply (runs_bind _ _ _ _ (fun _ => Ready)); [apply runs_sys, Ready_Idle|]. intros _. destruct built; [by apply runs_ret|]. apply runs_fail. intros m s j H. split; [by apply Ready_Idle|done].
      * intros e. apply runs_pure. intros _. apply (runs_bind _ _ _ _ (fun _ => Idle)); [|intros _; by apply runs_fail].
        apply runs_join; [apply runs_removeAll; by rewrite Ec|by apply runs_sys|done].
Qed.
(** *** From the journal on *)

Lemma runs_publish q N s0 : Prepared N s0 ->
  runs q (fun m s j => s = s0 /\ Ready m s j)
    (do! writeReplacement journalOf (stateOf N) then do! publishTree sha256Hex kindOf journalOf (stateOf N) then
     do! writeReplacement journalOf (markCommitted (stateOf N)) then recoverReplacement sha256Hex kindOf journalOf (markCommitted (stateOf N)))
    (fun _ m s j => j = ∅ /\ Swapped m) Settling True.
Proof.
  intros (HN & Hb & HJ & Hs). pose proof (paths_apart _ _ _ _ _ HJ) as (A1 & A2 & A3 & _). cbn in A1, A2, A3.
  assert (forall m s j, Pending sha256Hex kindOf (stateOf N) journalOf N (at0 !! dst) at0 m s j -> Settling m s j) as HP by (intros m s j H; right; exists N; split; auto).
  assert (forall m s j, Cleaning sha256Hex kindOf (stateOf N) journalOf N (at0 !! dst) at0 m s j -> Settling m s j) as HC by (intros m s j H; right; exists N; split; auto).
  apply (runs_bind _ _ _ _ (fun _ => Here (stateOf N) at0 s0 {[ journalOf := stateOf N ]} (Some N) (at0 !! dst) None)).
  { apply runs_write. intros m s j [-> HR]. split; [by apply Idle_Settling, Ready_Idle|]. destruct HR as (-> & H1 & H2 & _).
    assert (Here (stateOf N) at0 s0 {[ journalOf := stateOf N ]} (Some N) (at0 !! dst) None m s0 (<[journalOf := stateOf N]> ∅)) as H.
    { split; [done|]. split; [done|]. split; [cbn; congruence|]. split; [apply H2; cbn; congruence|]. split; [cbn; rewrite H2; congruence|]. intros p P1 _ _. by apply H2. }
    split; [exact H|]. eapply HP, Here_Pending; [done|apply st_prepared|done]. }
  intros _. apply (runs_bind _ _ _ _ (fun _ => Here (stateOf N) at0 s0 {[ journalOf := stateOf N ]} None (Some N) (at0 !! dst))).
  { eapply runs_weaken; [apply (runs_publishTree sha256Hex kindOf q (stateOf N) journalOf N _ at0 HJ s0 Hs)|done|done| |done].
    intros m s j [H|H]; [by apply HP|]. apply Kept_Old in H as [? ?]; [|done|done]. left. split; auto. }
  intros _. apply (runs_bind _ _ _ _ (fun _ => Cleaning sha256Hex kindOf (stateOf N) journalOf N (at0 !! dst) at0)).
  { apply runs_write. intros m s j H. split; [by eapply HP, Here_Pending; [|apply st_published|]|]. destruct H as (-> & -> & H). rewrite insert_singleton_eq.
    assert (Cleaning sha256Hex kindOf (stateOf N) journalOf N (at0 !! dst) at0 m s0 {[ journalOf := markCommitted (stateOf N) ]}) as HH; [|by split; [|apply HC]].
    split; [done|]. split; [done|]. exists (at0 !! dst). split; [|done]. apply part_self, (jl_oldOK _ _ _ _ _ HJ). }
  intros _. eapply runs_weaken; [apply (runs_recoverCleaning sha256Hex kindOf q (stateOf N) journalOf N _ at0 HJ)|done|..|done].
  - intros [] m s j H. by eapply Replaced_New.
  - intros m s j [H|H]; [by apply HC|]. apply Replaced_New in H as [? ?]; [|done|done]. left. split; auto.
Qed.

Lemma runs_replaceLocked q : runs q (fun m s j => j = ∅ /\ m = at0) (replaceLocked sha256Hex kindOf id stage src dst copy) (fun _ m s j => j = ∅ /\ Swapped m) Settling True.
Proof.
  set (J := (fun m s j => j = ∅ /\ m = at0) : assertion). assert (forall m s j, J m s j -> Settling m s j) as HF by (intros m s j [-> ->]; by apply Idle_Settling). unfold replaceLocked.
  do 2 (apply (runs_bind _ _ _ _ (fun _ => J)); [by apply runs_sys|]; intros _).
  apply (runs_bind _ _ _ _ (fun _ => J)); [destruct (localReplacementName dst); [by apply runs_ret|apply runs_fail; auto]|]. intros _.
  apply (runs_bind _ _ _ _ (fun _ => J)); [by apply runs_sys|]. intros _. apply (runs_bind _ _ _ _ (fun _ => J)); [by apply runs_private|]. intros _.
  apply (runs_bind _ _ _ _ (fun _ => J)); [by apply runs_sys|]. intros _.
  apply (runs_bind _ _ _ _ (fun paths m s j => paths = (stageOf, sourceOf) /\ Ready m s j)).
  { destruct copy as [[payload built]|] eqn:Ec.
    - apply (runs_bind _ _ _ _ (fun _ => Ready)); [eapply runs_weaken; [by apply runs_buildCopy|done|done|apply Idle_Settling|done]|]. intros _. apply runs_ret. intros m s j H. split; [|done].
      unfold stageOf, sourceOf. by rewrite Ec.
    - destruct (src =s ""); [apply runs_fail; auto|]. apply runs_ret. intros m s j [-> ->]. unfold Ready, stageOf, sourceOf, newObject. by rewrite Ec. }
  intros paths. apply runs_pure. intros ->. apply runs_stages. intros s0.
  apply (runs_bind _ _ _ _ (fun st m s j => (exists N, st = stateOf N /\ Prepared N s0) /\ s = s0 /\ Ready m s j)).
  - apply (runs_catch _ _ _ _ _ _ Ready True True (runs_prepare q s0)); [|intros; by apply Idle_Settling, Ready_Idle|done]. intros e. apply runs_pure. intros _.
    destruct copy as [c|] eqn:Ec; unfold stageOf; rewrite Ec; [|apply runs_fail; intros m s j H; split; [by apply Idle_Settling, Ready_Idle|done]].
    assert (forall m s j, Ready m s j -> Settling m s j) as HR by (intros; by apply Idle_Settling, Ready_Idle). destruct (stage =s ""); [apply runs_fail; auto|].
    apply (runs_bind _ _ _ _ (fun _ => Idle)); [|intros []; apply runs_fail; intros m s j H; split; [by apply Idle_Settling|done]].
    eapply runs_weaken; [apply (runs_catch q Idle _ _ (fun _ => Idle) Settling Idle True True); [apply runs_removeAll; by rewrite Ec| |apply Idle_Settling|done]|apply Ready_Idle|done|done|done].
    intros e'. apply runs_pure. intros _. by apply runs_ret.
  - intros st. apply runs_pure. intros (N & -> & HN). by apply runs_publish.
Qed.
End Crash.

(** The process starts again and again: each time recovery runs until it returns or is cut. *)
Definition restarts (sha256Hex : string -> string) (kindOf : string -> option bool) (cuts : list (list cut)) (dk : Disk) : Disk :=
  fold_left (fun dk cs => (recoverLocked sha256Hex kindOf (set_cuts cs dk)).2) cuts dk.

Section CrashTheorem.
Context (sha256Hex : string -> string) (kindOf : string -> option bool).
Context (private : kindOf ".birak" <> Some false /\ kindOf ".birak/transactions" <> Some false).

Lemma restarts_keep (J : assertion) cuts dk : runs false J (recoverLocked sha256Hex kindOf) (fun _ => J) J True ->
  J (dk_at dk) (dk_stages dk) (dk_journals dk) -> J (dk_at (restarts sha256Hex kindOf cuts dk)) (dk_stages (restarts sha256Hex kindOf cuts dk)) (dk_journals (restarts sha256Hex kindOf cuts dk)).
Proof.
  intros HJ. revert dk. induction cuts as [|cs cuts IH]; intros dk H; [done|]. cbn [restarts fold_left]. apply IH.
  destruct (recoverLocked sha256Hex kindOf (set_cuts cs dk)) as [r dk'] eqn:E. pose proof (runs_cut _ _ _ _ _ _ _ _ _ HJ H E). by destruct r.
Qed.

(** C14. However often a replacement and the recoveries after it are cut - a system call fails, or
    the process is killed at one - the next recovery that is not cut succeeds and leaves no
    journal: the volume then either is as before the replacement (an unpublished copy in a
    staging directory apart), or has the new object at the destination, nothing at the source
    and everything else as before; and it is replaced if the replacement returned success. *)
Theorem replace_crash_safe id stage src dst copy cs cuts dk r dk1 : dk_journals dk = ∅ ->
  replaceLocked sha256Hex kindOf id stage src dst copy (set_cuts cs dk) = (r, dk1) ->
  exists dk', recoverLocked sha256Hex kindOf (set_cuts [] (restarts sha256Hex kindOf cuts dk1)) = (Ok tt, dk') /\ dk_journals dk' = ∅ /\
    (Untouched stage src copy (dk_at dk) (dk_at dk') \/ Swapped stage src dst copy (dk_at dk) (dk_at dk')) /\
    (r = Ok tt -> Swapped stage src dst copy (dk_at dk) (dk_at dk')).
Proof.
  intros Hj E. pose proof (runs_cut _ _ _ _ _ _ _ _ _ (runs_replaceLocked sha256Hex kindOf id stage src dst copy (dk_at dk) private false) (conj Hj eq_refl) E) as H.
  destruct r as [[]|e].
  - set (D := (fun m s j => j = ∅ /\ Swapped stage src dst copy (dk_at dk) m) : assertion) in *.
    assert (forall q x, runs q D (recoverLocked sha256Hex kindOf) (fun _ => D) D x) as HD by (intros q x; apply runs_recoverNone; [done|by intros m s j [? _]]).
    destruct (runs_calm _ _ _ _ _ (HD true False) (restarts_keep D cuts dk1 (HD false True) H)) as ([] & dk' & E' & ? & ?). exists dk'. split; [done|]. split; [done|]. split; [auto|done].
  - set (S := Settling sha256Hex kindOf id stage src dst copy (dk_at dk)) in *.
    assert (forall q, runs q S (recoverLocked sha256Hex kindOf) (fun _ => Done stage src dst copy (dk_at dk)) S False) as HS by (intros q; by apply runs_recoverLocked).
    assert (runs false S (recoverLocked sha256Hex kindOf) (fun _ => S) S True) as HS' by (eapply runs_weaken; [apply HS|done|by left|done|done]).
    destruct (runs_calm _ _ _ _ _ (HS true) (restarts_keep S cuts dk1 HS' H)) as ([] & dk' & E' & ? & ?). exists dk'. split; [done|]. split; [done|]. split; [auto|done].
Qed.
End CrashTheorem.

(** ** Recovery spares what the journal does not list *)

Lemma matches_listed got want b e : matchesReplacement got want b = true -> e ∈ got -> e ∈ want.
Proof.
  unfold matchesReplacement. destruct (_ && _); [done|]. intros H He. rewrite forallb_forall in H. specialize (H e (proj1 (list_elem_of_In _ _) He)).
  destruct (byName want !! re_Name e) as [x|] eqn:E; [|done]. apply bool_decide_eq_true in H as <-. clear He. unfold byName in E.
  assert (forall m : gmap string replacementEntry, fold_left (fun m e => <[re_Name e := e]> m) want m !! re_Name e = Some e -> e ∈ want \/ m !! re_Name e = Some e) as H.
  { clear. induction want as [|x want IH]; intros m E; [by right|]. cbn [fold_left] in E. apply IH in E as [?|E]; [left; by right|].
    destruct (decide (re_Name x = re_Name e)) as [En|Hne]; [rewrite En, lookup_insert_eq in E; injection E as ->; left; by left|]. rewrite lookup_insert_ne in E by done. by right. }
  apply H in E as [?|E]; [done|]. by rewrite lookup_empty in E.
Qed.

Section Spares.
Context (sha256Hex : string -> string) (kindOf : string -> option bool) (jn : string) (st : replacement) (at0 : gmap string object).
Abbreviation src := (rp_Source st).
Abbreviation dst := (rp_Destination st).
Abbreviation bak := (rp_Backup st).

(** Every entry of the object is in the journal, checksum and identity included. *)
Definition listed (o : object) : Prop := forall e, e ∈ manifest sha256Hex o "." -> e ∈ rp_Old st \/ e ∈ rp_New st.
Definition Spared : assertion := fun m _ _ => forall p o, at0 !! p = Some o -> (exists p', m !! p' = Some o) \/ listed o.
Definition Exactly (m0 : gmap string object) : assertion := fun m _ _ => m = m0.

Definition sparedAt (m : gmap string object) : Prop := Spared m ∅ ∅.

Lemma spared_rename a b o m : a <> b -> m !! a = Some o -> m !! b = None -> sparedAt m -> sparedAt (<[b := o]> (delete a m)).
Proof.
  intros Hab Ha Hb H p x Hx. destruct (H p x Hx) as [[p' Hp']|Hl]; [|by right]. left. destruct (decide (p' = a)) as [->|Hne]; [exists b; rewrite lookup_insert_eq; congruence|].
  exists p'. rewrite lookup_insert_ne by congruence. by rewrite lookup_delete_ne by congruence.
Qed.
Lemma spared_remove name y m : (forall o, m !! name = Some o -> listed o) -> sparedAt m -> sparedAt (partial_alter (fun _ => y) name m).
Proof.
  intros Hn H p o Hp. destruct (H p o Hp) as [[p' Hp']|Hl]; [|by right]. destruct (decide (p' = name)) as [->|Hne]; [right; by apply Hn|]. left. exists p'. by rewrite lookup_partial_alter_ne.
Qed.

Lemma matched_listed b o want : (want = rp_Old st \/ want = rp_New st) -> matchesReplacement (manifestAt sha256Hex (Some o)) want b = true -> listed o.
Proof. intros [-> | ->] H e He; [left|right]; by eapply matches_listed. Qed.

(** What is at [name] may go. *)
Definition Disposable (name : string) : assertion := fun m _ _ => sparedAt m /\ forall o, m !! name = Some o -> listed o.

Lemma runs_removeListed name : runs false (Disposable name) (removeReplacementTree name) (fun _ => Spared) Spared True.
Proof.
  intros dk [[H Hn] _]. unfold removeReplacementTree. destruct (dk_at dk !! name) as [o|] eqn:E.
  - destruct (removeObject o (dk_cuts dk)) as [[r rest] cs]. destruct r; (split; [|done]); by apply spared_remove; [rewrite E|].
  - by apply (runs_sys false Spared Spared True (fun _ _ _ H => H)).
Qed.

Lemma runs_readTree m name : sparedAt m ->
  runs false (Exactly m) (replacementTree sha256Hex name) (fun es m' s j => (es = manifestAt sha256Hex (m !! name) /\ supportedAt (m !! name) = true) /\ Exactly m m' s j) Spared True.
Proof. intros H. apply runs_tree; [|done]. intros m' s j ->. done. Qed.

Lemma runs_renameFree m a b : a <> b -> m !! b = None -> sparedAt m ->
  runs false (Exactly m) (Rename a b) (fun _ m' s j => exists o, (m !! a = Some o /\ sparedAt (<[b := o]> (delete a m))) /\ Exactly (<[b := o]> (delete a m)) m' s j) Spared True.
Proof.
  intros Hab Hb H. destruct (m !! a) as [o|] eqn:Ea.
  - apply (runs_Rename _ _ _ _ _ _ o). intros m' s j Hm. unfold Exactly in Hm. subst m'. split; [done|]. split; [done|]. exists o. split; [|done]. split; [done|by apply spared_rename].
  - intros dk [Hm _]. unfold Rename, bindS, sysR, getS. destruct (tick (dk_cuts dk)) as [[[]|e] cs]; cbn; [rewrite Hm, Ea|]; (split; [|done]); cbn; by rewrite Hm.
Qed.

Lemma spared_start : sparedAt at0.
Proof. intros p o Hp. left. by exists p. Qed.

Lemma absent_tree o : supportedAt o = true -> (length (manifestAt sha256Hex o) =? 0)%nat = true -> o = None.
Proof. intros Hs. rewrite length_manifestAt by done. apply bool_decide_eq_true. Qed.

(** The backup goes back to where nothing is. *)
Lemma runs_spareBackup m c : validateReplacement st = true -> sparedAt m -> m !! dst = None -> (forall o, m !! src = Some o -> listed o) ->
  runs false (Exactly m) (if (c : bool) then do! Rename bak dst then SyncDir else retS tt) (fun _ => Disposable src) Spared True.
Proof.
  intros Hv H Hd Hs. destruct (valid_apart st Hv) as (A1 & A2 & A3 & _). destruct c; [|apply runs_ret; by intros m' s j ->].
  eapply runs_bind; [by apply runs_renameFree|]. intros []. apply runs_ex. intros o. apply runs_pure. intros [Eb H']. set (m' := <[dst := o]> (delete bak m)) in *.
  eapply runs_weaken; [apply (runs_sys false (Exactly m') Spared True)|..]; [by intros ? ? ? ->|done| |done|done].
  intros [] ? s j ->. split; [done|]. intros x Hx. apply Hs. unfold m' in Hx. rewrite lookup_insert_ne in Hx by done. by rewrite lookup_delete_ne in Hx.
Qed.

Lemma runs_spareRenames backup : validateReplacement st = true -> supportedAt (at0 !! src) = true -> supportedAt (at0 !! dst) = true ->
  runs false (Exactly at0) (restoreRenames st backup (manifestAt sha256Hex (at0 !! src)) (manifestAt sha256Hex (at0 !! dst))) (fun _ => Disposable src) Spared True.
Proof.
  intros Hv Ss Sd. pose proof spared_start as H0. destruct (valid_apart st Hv) as (A1 & A2 & A3 & _). unfold restoreRenames.
  assert (forall e : rperr, runs false (Exactly at0) (failS e) (fun _ : unit => Disposable src) Spared True) as Hfail by (intros e; apply runs_fail; by intros m s j ->).
  destruct (matchesReplacement backup _ _); [|apply Hfail]. cbn [negb].
  destruct (_ && matchesReplacement (manifestAt sha256Hex (at0 !! src)) (rp_New st) false) eqn:E1.
  - apply andb_true_iff in E1 as [Ed Es]. apply absent_tree in Ed; [|done]. apply (runs_bind _ _ _ _ (fun _ => Exactly at0)); [by apply runs_ret|]. intros _.
    apply runs_spareBackup; [done..|]. intros o Eo. rewrite Eo in Es. by apply matched_listed in Es; [|right].
  - destruct (_ && matchesReplacement (manifestAt sha256Hex (at0 !! dst)) (rp_New st) false) eqn:E2; [|intros dk Hdk; by apply Hfail].
    apply andb_true_iff in E2 as [Es Ed]. apply absent_tree in Es; [|done].
    apply (runs_bind _ _ _ _ (fun _ m' s j => exists o, (at0 !! dst = Some o /\ sparedAt (<[src := o]> (delete dst at0))) /\ Exactly (<[src := o]> (delete dst at0)) m' s j)).
    + eapply runs_bind; [by apply runs_renameFree|]. intros []. apply runs_ex. intros o. apply runs_pure. intros [Eo H'].
      eapply runs_weaken; [apply (runs_syncParents false (Exactly (<[src := o]> (delete dst at0))) Spared True)|..]; [by intros ? ? ? ->|done| |done|done]. intros [] m s j ->. by exists o.
    + intros []. apply runs_ex. intros o. apply runs_pure. intros [Eo H']. apply runs_spareBackup; [done|done|by rewrite lookup_insert_ne, lookup_delete_eq by done|].
      intros x Hx. rewrite lookup_insert_eq in Hx. injection Hx as <-. rewrite Eo in Ed. by apply matched_listed in Ed; [|right].
Qed.

Lemma runs_spareRollBack backup : validateReplacement st = true ->
  runs false (Exactly at0) (rollBack sha256Hex st backup) (fun _ => Spared) Spared True.
Proof.
  intros Hv. pose proof spared_start as H0. unfold rollBack.
  eapply runs_bind; [by apply runs_readTree|]. intros source. apply runs_pure. intros [-> Ss]. eapply runs_bind; [by apply runs_readTree|]. intros dest. apply runs_pure. intros [-> Sd].
  apply (runs_bind _ _ _ _ (fun _ => Disposable src)).
  - destruct (_ && _); [|by apply runs_spareRenames].
    destruct (matchesReplacement (manifestAt sha256Hex (at0 !! src)) (rp_New st) (negb (rp_CopyStage st =s ""))) eqn:Em; cbn [negb]; [|apply runs_fail; by intros m s j ->].
    apply runs_ret. intros m s j ->. split; [done|]. intros o Eo. rewrite Eo in Em. by apply matched_listed in Em; [|right].
  - intros []. destruct (negb _); [apply runs_removeListed|]. apply runs_ret. by intros m s j [? _].
Qed.

Lemma runs_spareFinish : runs false Spared (finishRecovery jn st) (fun _ => Spared) Spared True.
Proof.
  unfold finishRecovery. apply (runs_bind _ _ _ _ (fun _ => Spared)).
  - destruct (negb _); [|by apply runs_ret]. unfold removeStage. apply (runs_bind _ _ _ _ (fun _ => Spared)); [by apply runs_sys|]. intros _. apply runs_get. intros d0 _.
    destruct (dk_at d0 !! _); [apply runs_fail; by intros m s j [? _]|]. apply runs_modify; [done|]. by intros dk [? _].
  - intros _. apply (runs_bind _ _ _ _ (fun _ => Spared)); [by apply runs_syncParents|]. intros _. apply (runs_bind _ _ _ _ (fun _ => Spared)); [by apply runs_sys|]. intros _.
    apply runs_get. intros d0 _. destruct (dk_journals d0 !! jn); [|apply runs_fail; by intros m s j [? _]].
    apply (runs_bind _ _ _ _ (fun _ => Spared)); [apply runs_modify; [done|]; by intros dk [? _]|]. intros _. by apply runs_sys.
Qed.

Lemma runs_spareParents m : sparedAt m -> runs false (Exactly m) (forS (safeReplacementParents kindOf) [src; dst; bak]) (fun _ => Exactly m) Spared True.
Proof.
  intros H. assert (forall p, runs false (Exactly m) (safeReplacementParents kindOf p) (fun _ => Exactly m) Spared True) as Hp.
  { intros p. apply runs_stages. intros s0. eapply runs_weaken; [apply (runs_parents kindOf false (fun m' s j => s = s0 /\ Exactly m m' s j) Spared s0 p True)|..].
    - by intros m' s j [-> ->].
    - done.
    - done.
    - by intros ? m' s j [_ [_ ?]].
    - done.
    - done. }
  cbn [forS]. repeat (eapply runs_bind; [apply Hp|]; intros []). by apply runs_ret.
Qed.

Lemma runs_spareRecovery : runs false (Exactly at0) (recoverReplacement sha256Hex kindOf jn st) (fun _ => Spared) Spared True.
Proof.
  pose proof spared_start as H0. unfold recoverReplacement. destruct (validateReplacement st) eqn:Hv; cbn [negb]; [|apply runs_fail; by intros m s j ->].
  apply (runs_bind _ _ _ _ (fun _ => Exactly at0)); [by apply runs_spareParents|]. intros _. eapply runs_bind; [by apply runs_readTree|]. intros backup. apply runs_pure. intros [-> Sb].
  apply (runs_bind _ _ _ _ (fun _ => Spared)); [|intros _; apply runs_spareFinish]. destruct (rp_Committed st); [|by apply runs_spareRollBack].
  destruct (matchesReplacement _ _ _) eqn:Em; cbn [negb]; [|apply runs_fail; by intros m s j ->].
  eapply runs_weaken; [apply (runs_removeListed bak)|..]; [|done|done|done]. intros m s j ->. split; [done|]. intros o Eo. rewrite Eo in Em. by apply matched_listed in Em; [|left].
Qed.
End Spares.

(** C15. Whatever a journal says and whatever the disk holds, a recovery - complete, refused or
    cut - loses no object: each is still somewhere, or every entry of it, with its identity, size,
    time and checksum, is in one of the journal's manifests. *)
Theorem recovery_spares sha256Hex kindOf jn st cs dk r dk' : recoverReplacement sha256Hex kindOf jn st (set_cuts cs dk) = (r, dk') ->
  forall p o, dk_at dk !! p = Some o -> (exists p', dk_at dk' !! p' = Some o) \/ listed sha256Hex st o.
Proof. intros E. pose proof (runs_cut _ _ _ _ _ _ _ _ _ (runs_spareRecovery sha256Hex kindOf jn st (dk_at dk)) eq_refl E) as H. by destruct r. Qed.

(** A directory [doc] replaced by the file [x]: the process is killed once the file is in place,
    and again while it undoes the renames. *)
Definition ex_sha256 (s : string) : string := "0123456789abcdef0123456789abcdef0123456789abcdef0123456789abcdef".
Definition ex_old : object := ODir 1 11 493 [("a", OFile 1 12 420 5 "old")].
Definition ex_new : object := OFile 1 21 420 7 "new".
Definition ex_disk : Disk := mkDisk {[ "doc" := ex_old; "x" := ex_new ]} ∅ ∅ [].
Definition ex_dirs (p : string) : option bool := if p =s ".birak" then Some true else None.
Definition ex_killedAt (n : nat) : list cut := (repeat CNone n ++ [CKill])%list.
Definition ex_run (n : nat) : result rperr unit * Disk := replaceLocked ex_sha256 ex_dirs "ID" "" "x" "doc" None (set_cuts (ex_killedAt n) ex_disk).

Lemma replace_crash_safe_witness : (ex_run 28).1 = Err RKilled /\ (ex_run 50).1 = Ok tt /\
  (exists dk', recoverLocked ex_sha256 ex_dirs (set_cuts [] (restarts ex_sha256 ex_dirs [ex_killedAt 14] (ex_run 28).2)) = (Ok tt, dk') /\ dk_journals dk' = ∅ /\
    (Untouched "" "x" None (dk_at ex_disk) (dk_at dk') \/ Swapped "" "x" "doc" None (dk_at ex_disk) (dk_at dk')) /\ ((ex_run 28).1 = Ok tt -> Swapped "" "x" "doc" None (dk_at ex_disk) (dk_at dk'))).
Proof.
  split; [vm_compute; reflexivity|]. split; [vm_compute; reflexivity|].
  assert (ex_dirs ".birak" <> Some false) as H1 by (vm_compute; discriminate). assert (ex_dirs ".birak/transactions" <> Some false) as H2 by (vm_compute; discriminate).
  exact (replace_crash_safe ex_sha256 ex_dirs (conj H1 H2) "ID" "" "x" "doc" None (ex_killedAt 28) [ex_killedAt 14] ex_disk
    (ex_run 28).1 (ex_run 28).2 eq_refl (surjective_pairing _)).
Defined.

(** The journal of a committed replacement, whose backup holds a file that was added later. *)
Definition ex_committed : replacement :=
  mkReplacement 1 "doc" "x" ".birak-bak-ID" "" (manifest ex_sha256 ex_old ".") (manifest ex_sha256 ex_new ".") true.
Definition ex_edited : object := ODir 1 11 493 [("a", OFile 1 12 420 5 "old"); ("b", OFile 1 13 420 6 "mine")].
Definition ex_backup : Disk := mkDisk {[ "doc" := ex_new; ".birak-bak-ID" := ex_edited ]} ∅ {[ "j" := ex_committed ]} [].

Lemma recovery_spares_witness : (recoverReplacement ex_sha256 ex_dirs "j" ex_committed (set_cuts [] ex_backup)).1 = Err (RConflict ".birak-bak-ID") /\
  ((exists p', dk_at (recoverReplacement ex_sha256 ex_dirs "j" ex_committed (set_cuts [] ex_backup)).2 !! p' = Some ex_edited) \/ listed ex_sha256 ex_committed ex_edited).
Proof.
  split; [vm_compute; reflexivity|].
  exact (recovery_spares ex_sha256 ex_dirs "j" ex_committed [] ex_backup _ _ (surjective_pairing _) ".birak-bak-ID" ex_edited eq_refl).
Defined.
