(* ===== verification/Multipart.v ===== *)
(** * Multipart uploads

    internal/multipart: the staging store behind the S3 multipart API, with its completion records
    and cleanup. A staging directory has the entries a process sees and, once the directory was
    flushed, those a crash is sure to leave. What the volume does with an assembled object is an
    interface. The lock of an upload makes its critical sections follow one another, so a request
    is a sequence of them; what other requests do while a part's body is streaming is an input. *)

From S2P Require Import Prelude GoStrings Hoare FileMeta Database Transfer Volume Paths Streaming Paging.

(** ** Data *)

(** [type Limits struct] *)
Record Limits := mkLimits {
  MinPartBytes : Z; MaxPartBytes : Z; MaxParts : Z; MaxObjectBytes : Z; MaxActiveUploads : Z; MaxConcurrentParts : Z;
  UploadTTL : Z; CleanupInterval : Z; TempFileMaxAge : Z
}.

(** [func (l Limits) withDefaults() Limits] *)
Definition hour : Z := 3600000000000.
Definition orDefault (v d : Z) : Z := if v <=? 0 then d else v.
Definition withDefaults (l : Limits) : Limits :=
  mkLimits (orDefault (MinPartBytes l) (5 * 1024 * 1024)) (orDefault (MaxPartBytes l) (5 * 1024 * 1024 * 1024)) (orDefault (MaxParts l) 10000)
    (MaxObjectBytes l) (if MaxActiveUploads l <? 0 then 0 else MaxActiveUploads l) (MaxConcurrentParts l)
    (orDefault (UploadTTL l) (7 * 24 * hour)) (orDefault (CleanupInterval l) hour) (orDefault (TempFileMaxAge l) (24 * hour)).

(** [type Upload struct], [Part], [Checksums], [CompletePart], [CompleteResult] *)
Record Upload := mkUpload { up_ID : string; up_Bucket : string; up_Key : string; up_Initiated : Z }.
Record Part := mkPart { pt_Number : Z; pt_Size : Z; pt_ETag : string; pt_LastModified : Z }.
Record Checksums := mkChecksums { ContentMD5 : string; ContentSHA256 : string }.
Record CompletePart := mkCompletePart { cp_Number : Z; cp_ETag : string }.
Record CompleteResult := mkResult {
  cr_Bucket : string; cr_Key : string; cr_ETag : string; cr_Size : Z; cr_Parts : Z; cr_Info : Info; cr_Repeated : bool
}.

(** [type completion struct] *)
Record completion := mkCompletion {
  cm_UploadID : string; cm_Bucket : string; cm_Key : string; cm_Dest : string; cm_Parts : string; cm_PartCount : Z;
  cm_ETag : string; cm_Size : Z; cm_ModTime : Z
}.

#[export] Instance Upload_eq_dec : EqDecision Upload.
Proof. solve_decision. Defined.
#[export] Instance Part_eq_dec : EqDecision Part.
Proof. solve_decision. Defined.

(** ** Names *)

Definition lowerHex (n : Z) (s : string) : bool := (slen s =? n) && all_bytes lower_hex s.

(** [func ValidUploadID(id string) bool], [isHexMD5], [isHexSHA256], [normalizeHex] *)
Definition ValidUploadID (id : string) : bool := lowerHex 32 id.
Definition isHexMD5 (s : string) : bool := lowerHex 32 s.
Definition normalizeHex (s : string) : string := ToLower (TrimSpace s).
Definition isConcreteSHA256 (s : string) : bool := lowerHex 64 (normalizeHex s).

(** [%05d] of a number that is not negative *)
Fixpoint padZero (n : nat) (s : string) : string := match n with O => s | S n => String "0" (padZero n s) end.
Definition pad5 (n : Z) : string := let s := FormatInt n in padZero (5 - String.length s) s.

(** [func partFileName(number int, md5hex string) string] *)
Definition partFileName (number : Z) (md5hex : string) : string := "part-" +:+ pad5 number +:+ "-" +:+ md5hex.

(** [func parsePartFileName(name string) (number int, md5hex string, ok bool)] *)
Definition parsePartFileName (name : string) : option (Z * string) :=
  if negb (HasPrefix name "part-") then None
  else match Cut (TrimPrefix name "part-") "-" with
  | None => None
  | Some (numStr, digest) =>
      if negb (slen numStr =? 5) || negb (isHexMD5 digest) then None
      else match ParseInt numStr with
      | None => None
      | Some n => if n <? 1 then None else Some (n, digest)
      end
  end.

(** [func etagMatches(clientETag, digest string) bool]: the digest is lower-case hex. *)
Definition plainETag (s : string) : string := Trim (TrimPrefix (TrimSpace s) "W/") (str1 (ascii_of_nat 34)).
Definition etagMatches (clientETag digest : string) : bool := EqualFold (plainETag clientETag) digest.

(** [hex.EncodeToString] *)
Fixpoint EncodeToString (s : string) : string :=
  match s with
  | "" => ""
  | String c s => String (hex_char (byte_val c / 16)) (String (hex_char (byte_val c mod 16)) (EncodeToString s))
  end.

(** ** The staging area *)

(** A staged part's file; its bytes were flushed before it got this name. *)
Record PartFile := mkPartFile { pf_bytes : string; pf_mtime : Z }.

(** An entry of the staging directory: an upload's directory, or a stray file. Scratch files
    are known by name and time. *)
Record UploadDir := mkUploadDir { ud_meta : option Upload; ud_parts : gmap string PartFile; ud_scratch : gmap string Z; ud_mtime : Z }.
Definition emptyDir (now : Z) : UploadDir := mkUploadDir None ∅ ∅ now.
Definition ud_set_meta (m : option Upload) (d : UploadDir) : UploadDir := mkUploadDir m (ud_parts d) (ud_scratch d) (ud_mtime d).
Definition ud_set_parts (ps : gmap string PartFile) (d : UploadDir) : UploadDir := mkUploadDir (ud_meta d) ps (ud_scratch d) (ud_mtime d).
Definition ud_set_scratch (sc : gmap string Z) (d : UploadDir) : UploadDir := mkUploadDir (ud_meta d) (ud_parts d) sc (ud_mtime d).
Definition ud_touch (now : Z) (d : UploadDir) : UploadDir := mkUploadDir (ud_meta d) (ud_parts d) (ud_scratch d) now.

(** What the assembled object is published through: [fileops.PublishIf] and [fileops.Mkdir] on
    the volume, and [os.Stat] of a regular file there. [SafePath] without ignore patterns says
    whether a client may use the name. *)
Class Publisher (V : Type) := {
  pub_file : V -> string -> option (string * Info);
  pub_safe : V -> string -> bool;
  pub_mkdir : string -> V -> bool * V;
  pub_publishIf : string -> string -> (option Info -> bool) -> V -> option Info * V
}.

(** Publication is atomic: other names keep their files, the destination its own or the
    published one; success tells which generation was published, under the condition. *)
Class PublisherLaws (V : Type) `{!Publisher V} : Prop := {
  pub_mkdir_frame : forall dir v p, pub_file (pub_mkdir dir v).2 p = pub_file v p;
  pub_frame : forall dest b pre v p, p <> dest -> pub_file (pub_publishIf dest b pre v).2 p = pub_file v p;
  pub_ok : forall dest b pre v info, (pub_publishIf dest b pre v).1 = Some info ->
    pub_file (pub_publishIf dest b pre v).2 dest = Some (b, info) /\ fi_size info = slen b /\ pre (snd <$> pub_file v dest) = true;
  pub_err : forall dest b pre v, (pub_publishIf dest b pre v).1 = None ->
    pub_file (pub_publishIf dest b pre v).2 dest = pub_file v dest \/ exists info, pub_file (pub_publishIf dest b pre v).2 dest = Some (b, info)
}.

Section Multipart.
Context {V : Type} `{!Publisher V}.
(** MD5's sixteen bytes, SHA-256 in hex, and base64. *)
Context (md5 : string -> string) (sha256Hex : string -> string) (base64Decode : string -> option string).
Context (root : string) (limits : Limits).

(** [type Store struct]. [mp_linked] has the staging directories whose entry is on disk, and
    [mp_kept] what of their contents is. *)
Record MP := mkMP {
  mp_staging : gmap string UploadDir;
  mp_kept : gmap string UploadDir;
  mp_linked : gset string;
  mp_completed : gmap string (completion * Z);
  mp_inflight : Z;
  mp_volume : V;
  mp_faults : list bool
}.
Definition set_staging (x : gmap string UploadDir) (s : MP) : MP := mkMP x (mp_kept s) (mp_linked s) (mp_completed s) (mp_inflight s) (mp_volume s) (mp_faults s).
Definition set_kept (x : gmap string UploadDir) (s : MP) : MP := mkMP (mp_staging s) x (mp_linked s) (mp_completed s) (mp_inflight s) (mp_volume s) (mp_faults s).
Definition set_linked (x : gset string) (s : MP) : MP := mkMP (mp_staging s) (mp_kept s) x (mp_completed s) (mp_inflight s) (mp_volume s) (mp_faults s).
Definition set_completed (x : gmap string (completion * Z)) (s : MP) : MP := mkMP (mp_staging s) (mp_kept s) (mp_linked s) x (mp_inflight s) (mp_volume s) (mp_faults s).
Definition set_inflight (x : Z) (s : MP) : MP := mkMP (mp_staging s) (mp_kept s) (mp_linked s) (mp_completed s) x (mp_volume s) (mp_faults s).
Definition set_volume (x : V) (s : MP) : MP := mkMP (mp_staging s) (mp_kept s) (mp_linked s) (mp_completed s) (mp_inflight s) x (mp_faults s).
Definition set_mfaults (x : list bool) (s : MP) : MP := mkMP (mp_staging s) (mp_kept s) (mp_linked s) (mp_completed s) (mp_inflight s) (mp_volume s) x.

Inductive mperr :=
| ErrNoSuchUpload | ErrInvalidPartNumber | ErrInvalidPart | ErrInvalidPartOrder | ErrEmptyPartList | ErrPartTooSmall | ErrPartTooLarge
| ErrObjectTooLarge | ErrTooManyUploads | ErrBusy | ErrBadDigest | ErrContentSHA256Mismatch | ErrCorruptPart
| EBody | ESys | EDest | EPublish.

Abbreviation M := (SE MP mperr).

(** A system call that may fail. *)
Definition sysM : M unit := fun s =>
  match mp_faults s with
  | true :: l => (Err ESys, set_mfaults l s)
  | false :: l => (Ok tt, set_mfaults l s)
  | [] => (Ok tt, s)
  end.

(** [errors.Join], and calls whose error is dropped. *)
Definition joinM (c d : M unit) : M unit :=
  let! r := tryS c in
  let! r' := tryS d in
  match r, r' with Ok _, Ok _ => retS tt | Err e, _ => failS e | _, Err e => failS e end.
Definition quietly (c : M unit) : M unit := do! tryS c then retS tt.

(** [s.syncDirectory(dir)] of an upload's directory and of the staging directory *)
Definition syncUpload (id : string) : M unit := do! sysM then
  modifyS (fun s => set_kept (partial_alter (fun _ => mp_staging s !! id) id (mp_kept s)) s).
Definition syncStaging : M unit := do! sysM then modifyS (fun s => set_linked (dom (mp_staging s)) s).

(** Changes to an upload's directory; each call sets its time. *)
Definition updDir (id : string) (f : UploadDir -> UploadDir) : M unit := modifyS (fun s => set_staging (alter f id (mp_staging s)) s).
Definition dirOf (id : string) : M (option UploadDir) := let! s := getS in retS (mp_staging s !! id).

(** [func (s *Store) readMeta(id string) (Upload, error)] *)
Definition readMeta (id : string) : M Upload :=
  if negb (ValidUploadID id) then failS ErrNoSuchUpload
  else
    do! sysM then
    let! d := dirOf id in
    match d with
    | Some (mkUploadDir (Some up) _ _ _) => if up_ID up =s id then retS up else failS ErrNoSuchUpload
    | _ => failS ErrNoSuchUpload
    end.

(** [fileops.CreateTemp] and [os.Remove] of a scratch file *)
Definition createTemp (id tmp : string) (now : Z) : M unit :=
  do! sysM then
  let! d := dirOf id in
  match d with
  | None => failS ErrNoSuchUpload
  | Some _ => updDir id (fun d => ud_touch now (ud_set_scratch (<[tmp := now]> (ud_scratch d)) d))
  end.
Definition dropTemp (id tmp : string) (now : Z) : M unit := do! sysM then updDir id (fun d => ud_touch now (ud_set_scratch (delete tmp (ud_scratch d)) d)).

(** [func (s *Store) writeMeta(dir string, up Upload) error] *)
Definition writeMeta (id tmp : string) (up : Upload) (now : Z) : M unit :=
  do! createTemp id tmp now then
  let! r := tryS (do! sysM then do! sysM then do! sysM then
                  do! sysM then updDir id (fun d => ud_touch now (ud_set_meta (Some up) (ud_set_scratch (delete tmp (ud_scratch d)) d)))) in
  match r with
  | Err e => do! quietly (dropTemp id tmp now) then failS e
  | Ok _ => syncUpload id
  end.

(** [func (s *Store) countUploads() (int, error)] *)
Definition countUploads : M Z :=
  do! sysM then
  let! s := getS in
  retS (Z.of_nat (length (List.filter (fun kv : string * UploadDir => ValidUploadID kv.1) (map_to_list (mp_staging s))))).

(** [os.RemoveAll] of an upload's directory: the entries one by one, here the descriptor last. *)
Definition removeAllDir (id : string) : M unit :=
  let! d := dirOf id in
  match d with
  | None => sysM
  | Some d =>
      do! forS (fun name => do! sysM then updDir id (fun d => ud_set_parts (delete name (ud_parts d)) d)) (map fst (map_to_list (ud_parts d))) then
      do! sysM then
      do! updDir id (ud_set_meta None) then
      do! sysM then
      modifyS (fun s => set_staging (delete id (mp_staging s)) s)
  end.

(** [func (s *Store) removeStagingEntry(path string) error] *)
Definition removeStagingEntry (id : string) : M unit :=
  do! sysM then
  do! removeAllDir id then
  syncStaging.

(** ** Operations *)

(** [func (s *Store) Create(bucket, key string) (Upload, error)]: the identifier, the scratch
    name and the time are inputs. *)
Definition persistUpload (id tmp : string) (up : Upload) (now : Z) : M unit :=
  do! writeMeta id tmp up now then
  syncStaging.
Definition Create (id tmp bucket key : string) (now : Z) : M Upload :=
  do! (if 0 <? MaxActiveUploads limits then
         let! n := countUploads in
         if MaxActiveUploads limits <=? n then failS ErrTooManyUploads else retS tt
       else retS tt) then
  let up := mkUpload id bucket key now in
  do! sysM then
  do! sysM then
  let! d := dirOf id in
  match d with
  | Some _ => failS ESys
  | None =>
      do! modifyS (fun s => set_staging (<[id := emptyDir now]> (mp_staging s)) s) then
      let! r := tryS (persistUpload id tmp up now) in
      match r with
      | Err e => do! quietly (removeStagingEntry id) then failS e
      | Ok _ => retS up
      end
  end.

(** What a body's reader delivers, up to one byte past the cap; whether it ended in an error. *)
Definition received (body : string) : string := stake (Z.to_nat (MaxPartBytes limits + 1)) body.
Definition copyError (body : string) (ended : bool) : option mperr :=
  if negb ended && (slen body <=? MaxPartBytes limits) then Some EBody
  else if MaxPartBytes limits <? slen (received body) then Some ErrPartTooLarge
  else None.

(** The digests the client declared: [None] is a malformed Content-MD5. *)
Definition wantedMD5 (checks : Checksums) : option (option string) :=
  if ContentMD5 checks =s "" then Some None
  else match base64Decode (TrimSpace (ContentMD5 checks)) with
  | Some raw => if slen raw =? 16 then Some (Some raw) else None
  | None => None
  end.
Definition checkDigests (want : option string) (checks : Checksums) (body : string) : option mperr :=
  if match want with Some raw => negb (raw =s md5 body) | None => false end then Some ErrBadDigest
  else if isConcreteSHA256 (ContentSHA256 checks) && negb (sha256Hex body =s normalizeHex (ContentSHA256 checks)) then Some ErrContentSHA256Mismatch
  else None.

(** [func (s *Store) removeSupersededParts(dir string, number int, keepDigest string) error] *)
Definition superseded (number : Z) (keepDigest name : string) : bool :=
  match parsePartFileName name with Some (n, digest) => (n =? number) && negb (digest =s keepDigest) | None => false end.
Definition removePart (id name : string) (now : Z) : M unit :=
  do! sysM then updDir id (fun d => ud_touch now (ud_set_parts (delete name (ud_parts d)) d)).
Definition removeSupersededParts (id : string) (number : Z) (keepDigest : string) (now : Z) : M unit :=
  do! sysM then
  let! d := dirOf id in
  match d with
  | None => failS ESys
  | Some d => forS (fun name => removePart id name now) (List.filter (superseded number keepDigest) (map fst (map_to_list (ud_parts d))))
  end.

(** The commit of a part under the upload's lock and the volume's. *)
Definition publishPart (id tmp : string) (number : Z) (body digest : string) (now : Z) : M unit :=
  let final := partFileName number digest in
  do! sysM then
  let! d := dirOf id in
  let fresh := match d with Some d => negb (bool_decide (is_Some (ud_parts d !! final))) | None => true end in
  do! sysM then
  match d with
  | None => failS ESys
  | Some _ =>
      do! sysM then
      do! updDir id (fun d => ud_touch now (ud_set_parts (<[final := mkPartFile body now]> (ud_parts d)) (ud_set_scratch (delete tmp (ud_scratch d)) d))) then
      let! r := tryS (syncUpload id) in
      match r with
      | Err e =>
          do! (if fresh then quietly (joinM (removePart id final now) (syncUpload id)) else retS tt) then
          failS e
      | Ok _ =>
          do! removeSupersededParts id number digest now then
          syncUpload id
      end
  end.

(** [func (s *Store) WritePart(uploadID string, number int, body io.Reader, checks Checksums) (Part, error)];
    [meanwhile] is what other requests do while the body is streaming. *)
Definition streamPart (id tmp : string) (body : string) (ended : bool) (want : option string) (checks : Checksums) (now : Z) : M unit :=
  do! createTemp id tmp now then
  let! r := tryS (match copyError body ended with Some e => failS e | None => do! sysM then sysM end) in
  match r with
  | Err e => do! quietly (dropTemp id tmp now) then failS e
  | Ok _ =>
      match checkDigests want checks body with
      | Some e => do! quietly (dropTemp id tmp now) then failS e
      | None => retS tt
      end
  end.
Definition commitPart (id tmp : string) (number : Z) (body : string) (now : Z) : M Part :=
  let digest := EncodeToString (md5 body) in
  let! r := tryS (readMeta id) in
  match r with
  | Err e => do! quietly (dropTemp id tmp now) then failS e
  | Ok _ =>
      let! r := tryS (publishPart id tmp number body digest now) in
      match r with
      | Err e => do! quietly (dropTemp id tmp now) then failS e
      | Ok _ => retS (mkPart number (slen body) digest now)
      end
  end.
Definition WritePart (meanwhile : MP -> MP) (id tmp : string) (number : Z) (body : string) (ended : bool) (checks : Checksums) (now : Z) : M Part :=
  if negb (ValidUploadID id) then failS ErrNoSuchUpload
  else if (number <? 1) || (MaxParts limits <? number) then failS ErrInvalidPartNumber
  else match wantedMD5 checks with
  | None => failS ErrBadDigest
  | Some want =>
      let! s := getS in
      if (0 <? MaxConcurrentParts limits) && (MaxConcurrentParts limits <=? mp_inflight s) then failS ErrBusy
      else
        do! modifyS (fun s => set_inflight (mp_inflight s + 1) s) then
        let! r := tryS (do! readMeta id then
                        do! streamPart id tmp body ended want checks now then
                        do! modifyS meanwhile then
                        commitPart id tmp number body now) in
        do! modifyS (fun s => set_inflight (mp_inflight s - 1) s) then
        liftS r
  end.
(** ** Listing *)

(** [func (s *Store) stagedParts(id string) ([]Part, error)]: of several files for one number
    the newest counts. *)
Definition newerPart (candidate current : Part) : bool :=
  (pt_LastModified current <? pt_LastModified candidate) ||
  ((pt_LastModified candidate =? pt_LastModified current) && (pt_ETag current <s pt_ETag candidate)).
Definition stagePart (byNumber : gmap Z Part) (entry : string * PartFile) : gmap Z Part :=
  match parsePartFileName entry.1 with
  | None => byNumber
  | Some (number, digest) =>
      let candidate := mkPart number (slen (pf_bytes entry.2)) digest (pf_mtime entry.2) in
      match byNumber !! number with
      | Some current => if newerPart candidate current then <[number := candidate]> byNumber else byNumber
      | None => <[number := candidate]> byNumber
      end
  end.
Definition partsByNumber (parts : gmap string PartFile) : gmap Z Part := fold_left stagePart (map_to_list parts) ∅.
Definition numberLe (a b : Part) : Prop := pt_Number a <= pt_Number b.
#[export] Instance numberLe_dec a b : Decision (numberLe a b).
Proof. unfold numberLe. apply _. Defined.
Definition sortedParts (byNumber : gmap Z Part) : list Part := merge_sort numberLe (map snd (map_to_list byNumber)).
Definition stagedParts (id : string) : M (list Part) :=
  do! sysM then
  let! d := dirOf id in
  match d with
  | None => failS ErrNoSuchUpload
  | Some d => retS (sortedParts (partsByNumber (ud_parts d)))
  end.

(** [func (s *Store) ListParts(id string, numberMarker, maxParts int) (parts []Part, truncated bool, next int, err error)] *)
Definition partsPage (all : list Part) (numberMarker maxParts : Z) : list Part * bool * Z :=
  let filtered := List.filter (fun p => numberMarker <? pt_Number p) all in
  if (0 <? maxParts) && (maxParts <? Z.of_nat (length filtered)) then
    let page := take (Z.to_nat maxParts) filtered in
    (page, true, match List.last (map Some page) None with Some p => pt_Number p | None => 0 end)
  else (filtered, false, 0).
Definition ListParts (id : string) (numberMarker maxParts : Z) : M (list Part * bool * Z) :=
  do! readMeta id then
  let! all := stagedParts id in
  retS (partsPage all numberMarker maxParts).

(** [func (s *Store) List(bucket, prefix, keyMarker, uploadIDMarker string, maxUploads int) (uploads []Upload, truncated bool, err error)] *)
Definition uploadLe (a b : Upload) : Prop := Is_true (if up_Key a =s up_Key b then up_ID a <=s up_ID b else up_Key a <=s up_Key b).
#[export] Instance uploadLe_dec a b : Decision (uploadLe a b).
Proof. unfold uploadLe. apply _. Defined.
Definition listed_in (bucket prefix : string) (entry : string * UploadDir) : option Upload :=
  if negb (ValidUploadID entry.1) then None
  else match ud_meta entry.2 with
  | Some up => if (up_ID up =s entry.1) && (up_Bucket up =s bucket) && ((prefix =s "") || HasPrefix (up_Key up) prefix) then Some up else None
  | None => None
  end.
Definition afterMarker (keyMarker uploadIDMarker : string) (up : Upload) : bool :=
  if negb (up_Key up =s keyMarker) then keyMarker <s up_Key up else uploadIDMarker <s up_ID up.
Definition uploadsPage (uploads : list Upload) (keyMarker uploadIDMarker : string) (maxUploads : Z) : list Upload * bool :=
  let rest := if negb (keyMarker =s "") || negb (uploadIDMarker =s "")
              then drop (Search (length uploads) (fun i => match uploads !! i with Some up => afterMarker keyMarker uploadIDMarker up | None => false end)) uploads
              else uploads in
  if (0 <? maxUploads) && (maxUploads <? Z.of_nat (length rest)) then (take (Z.to_nat maxUploads) rest, true) else (rest, false).
Definition UploadList (bucket prefix keyMarker uploadIDMarker : string) (maxUploads : Z) : M (list Upload * bool) :=
  do! sysM then
  let! s := getS in
  retS (uploadsPage (merge_sort uploadLe (omap (listed_in bucket prefix) (map_to_list (mp_staging s)))) keyMarker uploadIDMarker maxUploads).

(** [func (s *Store) HasUploads(bucket string) (bool, error)] *)
Definition HasUploads (bucket : string) : M bool :=
  let! page := UploadList bucket "" "" "" 1 in
  retS (0 <? Z.of_nat (length page.1)).

(** [func (s *Store) Abort(id string) error] *)
Definition AbortUpload (id : string) : M unit :=
  do! readMeta id then
  removeStagingEntry id.
(** ** Completion *)

(** [func (s *Store) validateDest(dest string) error], and the name of the destination below the
    root ([destName]); [root] is absolute and clean. *)
Definition destName (dest : string) : string := TrimPrefix (Clean dest) (root +:+ "/").
Definition validateDest (v : V) (dest : string) : bool :=
  HasPrefix dest "/" && HasPrefix (Clean dest) (root +:+ "/") &&
  negb ((Clean dest =s root +:+ "/.birak") || HasPrefix (Clean dest) (root +:+ "/.birak/")) &&
  pub_safe v (destName dest).

(** The checks on the client's list. *)
Fixpoint checkOrder (prev : Z) (want : list CompletePart) : option mperr :=
  match want with
  | [] => None
  | w :: want =>
      if (cp_Number w <? 1) || (MaxParts limits <? cp_Number w) then Some ErrInvalidPartNumber
      else if cp_Number w <=? prev then Some ErrInvalidPartOrder
      else checkOrder (cp_Number w) want
  end.
Fixpoint selectParts (byNumber : gmap Z Part) (total : Z) (want : list CompletePart) : result mperr (list Part * Z) :=
  match want with
  | [] => Ok ([], total)
  | w :: want =>
      match byNumber !! cp_Number w with
      | None => Err ErrInvalidPart
      | Some p =>
          if negb (etagMatches (cp_ETag w) (pt_ETag p)) then Err ErrInvalidPart
          else if negb (bool_decide (want = [])) && (pt_Size p <? MinPartBytes limits) then Err ErrPartTooSmall
          else
            let total := wrap64 (total + pt_Size p) in
            if (0 <? MaxObjectBytes limits) && (MaxObjectBytes limits <? total) then Err ErrObjectTooLarge
            else match selectParts byNumber total want with
            | Err e => Err e
            | Ok (ps, total) => Ok (p :: ps, total)
            end
      end
  end.

(** The loop of [assemble]: the bytes written, the digests and their count. *)
Fixpoint copyParts (id : string) (parts : list Part) (bytes raws : string) (written : Z) : M (string * string * Z) :=
  match parts with
  | [] => retS (bytes, raws, written)
  | p :: parts =>
      do! sysM then
      let! d := dirOf id in
      match d with
      | None => failS ErrInvalidPart
      | Some d =>
          match ud_parts d !! partFileName (pt_Number p) (pt_ETag p) with
          | None => failS ErrInvalidPart
          | Some f =>
              do! sysM then
              let raw := md5 (pf_bytes f) in
              let n := slen (pf_bytes f) in
              if negb (EncodeToString raw =s pt_ETag p) || negb (n =? pt_Size p) then failS ErrCorruptPart
              else copyParts id parts (bytes +:+ pf_bytes f) (raws +:+ raw) (wrap64 (written + n))
          end
      end
  end.

(** [func (s *Store) assemble(...) (string, os.FileInfo, error)]; the scratch file beside the
    destination is not listed anywhere. *)
Definition assemble (id : string) (parts : list Part) (wantSize : Z) (dest : string) (precondition : option Info -> bool) : M (string * Info) :=
  let! s := getS in
  let '(made, v) := pub_mkdir (Dir dest) (mp_volume s) in
  do! modifyS (set_volume v) then
  do! (if made then retS tt else failS EPublish) then
  do! sysM then
  let! out := copyParts id parts "" "" 0 in
  let '(bytes, raws, written) := out in
  do! (if negb (written =? wantSize) || negb (slen bytes =? wantSize) then failS ESys else retS tt) then
  do! sysM then do! sysM then
  let! s := getS in
  let '(published, v) := pub_publishIf dest bytes precondition (mp_volume s) in
  do! modifyS (set_volume v) then
  match published with
  | None => failS EPublish
  | Some info => retS (EncodeToString (md5 raws) +:+ "-" +:+ FormatInt (Z.of_nat (length parts)), info)
  end.

(** [func partListDigest(parts []CompletePart) string] *)
Definition partListDigest (parts : list CompletePart) : string :=
  sha256Hex (foldr (fun p acc => FormatInt (cp_Number p) +:+ ":" +:+ ToLower (plainETag (cp_ETag p)) +:+ str1 (ascii_of_nat 10) +:+ acc) "" parts).

(** [func (s *Store) recordCompletion(...) error] *)
Definition recordCompletion (up : Upload) (parts : list CompletePart) (dest etag : string) (info : Info) (now : Z) : M unit :=
  do! sysM then do! sysM then do! sysM then do! sysM then do! sysM then
  do! modifyS (fun s => set_completed (<[up_ID up := (mkCompletion (up_ID up) (up_Bucket up) (up_Key up) (destName dest) (partListDigest parts)
      (Z.of_nat (length parts)) etag (fi_size info) (fi_mtime info), now)]> (mp_completed s)) s) then
  sysM.

(** [func (s *Store) repeatCompletion(id string, want []CompletePart, dest string) (CompleteResult, error)] *)
Definition repeatCompletion (id : string) (want : list CompletePart) (dest : string) : M CompleteResult :=
  do! sysM then
  let! s := getS in
  match mp_completed s !! id with
  | None => failS ErrNoSuchUpload
  | Some (rec, _) =>
      if negb (cm_UploadID rec =s id) || negb (cm_Dest rec =s destName dest) || negb (cm_Parts rec =s partListDigest want) then failS ErrNoSuchUpload
      else match pub_file (mp_volume s) (destName dest) with
      | None => failS ErrNoSuchUpload
      | Some (_, info) =>
          if negb (fi_size info =? cm_Size rec) || negb (fi_mtime info =? cm_ModTime rec) then failS ErrNoSuchUpload
          else retS (mkResult (cm_Bucket rec) (cm_Key rec) (cm_ETag rec) (cm_Size rec) (cm_PartCount rec) info true)
      end
  end.

(** [func (s *Store) CompleteIf(...) (CompleteResult, error)] *)
Definition completeStaged (up : Upload) (want : list CompletePart) (dest : string) (precondition : option Info -> bool) (now : Z) : M CompleteResult :=
  let id := up_ID up in
  let! staged := stagedParts id in
  let byNumber := list_to_map (map (fun p => (pt_Number p, p)) staged) : gmap Z Part in
  match checkOrder 0 want with
  | Some e => failS e
  | None =>
      let! sel := liftS (selectParts byNumber 0 want) in
      let '(selected, total) := sel in
      let! out := assemble id selected total (destName dest) precondition in
      let '(etag, info) := out in
      do! quietly (recordCompletion up want dest etag info now) then
      do! quietly (removeStagingEntry id) then
      retS (mkResult (up_Bucket up) (up_Key up) etag (fi_size info) (Z.of_nat (length selected)) info false)
  end.
Definition CompleteIf (id : string) (want : list CompletePart) (dest : string) (precondition : option Info -> bool) (now : Z) : M CompleteResult :=
  if negb (ValidUploadID id) then failS ErrNoSuchUpload
  else if bool_decide (want = []) then failS ErrEmptyPartList
  else
    let! s := getS in
    if negb (validateDest (mp_volume s) dest) then failS EDest
    else
      let! r := tryS (readMeta id) in
      match r with
      | Err ErrNoSuchUpload => repeatCompletion id want dest
      | Err e => failS e
      | Ok up => completeStaged up want dest precondition now
      end.

(** ** Cleanup *)

(** [func lastActivity(dir string) (time.Time, error)] *)
Definition lastActivity (d : UploadDir) : Z :=
  foldr Z.max (ud_mtime d) (map (fun f => pf_mtime f.2) (map_to_list (ud_parts d)) ++ map snd (map_to_list (ud_scratch d)))%list.

(** [func (s *Store) cleanupCompletions(now time.Time) int] *)
Definition cleanupRecord (now : Z) (entry : string * (completion * Z)) : M unit :=
  if negb (ValidUploadID entry.1) || (now - entry.2.2 <=? UploadTTL limits) then retS tt
  else quietly (do! sysM then do! sysM then do! modifyS (fun s => set_completed (delete entry.1 (mp_completed s)) s) then sysM).
Definition cleanupCompletions (now : Z) : M unit :=
  let! r := tryS sysM in
  match r with
  | Err _ => retS tt
  | Ok _ => let! s := getS in forS (cleanupRecord now) (map_to_list (mp_completed s))
  end.

(** [func (s *Store) Cleanup(now time.Time) int]; [meanwhile] is what other requests do before
    the upload's lock is taken. The count is only logged. *)
Definition cleanupEntry (meanwhile : MP -> MP) (now : Z) (id : string) : M unit :=
  let! d := dirOf id in
  match d with
  | None => retS tt
  | Some d =>
      if negb (ValidUploadID id) then
        if UploadTTL limits <? now - ud_mtime d then quietly (removeStagingEntry id) else retS tt
      else if now - lastActivity d <=? UploadTTL limits then retS tt
      else
        do! modifyS meanwhile then
        let! d := dirOf id in
        match d with
        | Some d => if UploadTTL limits <? now - lastActivity d then quietly (removeStagingEntry id) else retS tt
        | None => retS tt
        end
  end.
Definition Cleanup (meanwhile : MP -> MP) (now : Z) : M unit :=
  do! cleanupCompletions now then
  let! r := tryS sysM in
  match r with
  | Err _ => retS tt
  | Ok _ => let! s := getS in forS (cleanupEntry meanwhile now) (map fst (map_to_list (mp_staging s)))
  end.
End Multipart.
