(* ===== verification/Uploads.v ===== *)
(** * What multipart uploads guarantee

    The proofs about Multipart: names of staged parts, parts that survive crashes, assembled
    objects, retried completions, and cleanup. *)

From S2P Require Import Prelude GoStrings Hoare FileMeta Database Transfer Volume Paths Streaming Paging Multipart.

(** ** Names of parts *)

Lemma ParseInt_digits s : all_digits s = true -> s <> "" -> dec_val s <= MaxInt64 -> ParseInt s = Some (dec_val s).
Proof.
  intros H1 H2 H3. unfold ParseInt. destruct s as [|c s]; [done|]. destruct (digit_not_sign c s H1) as [Hm Hp].
  assert (match String c s with String "-" s' => (true, s') | String "+" s' => (false, s') | _ => (false, String c s) end = (false, String c s)) as ->.
  { destruct c as [[] [] [] [] [] [] [] []]; try reflexivity; exfalso; by (apply Hm || apply Hp). }
  rewrite H1. pose proof (dec_val_bounds _ H1). cbn [negb orb String.eqb]. unfold MinInt64 in *. rewrite (proj2 (Z.leb_le _ _)), (proj2 (Z.leb_le _ _)) by lia. done.
Qed.

Lemma format_go_length k fuel n acc : 0 <= n < 10 ^ Z.of_nat k -> (0 < k)%nat -> (String.length (format_go fuel n acc) <= k + String.length acc)%nat.
Proof.
  revert k n acc. induction fuel as [|fuel IH]; intros k n acc Hn Hk; cbn [format_go]; [lia|]. destruct (Z.eqb_spec (n / 10) 0) as [E|E]; [cbn; lia|].
  destruct k as [|k]; [lia|]. assert (k <> O) as Hk0 by (intros ->; change (10 ^ Z.of_nat 1) with 10 in Hn; apply E, Z.div_small; lia).
  etrans; [apply (IH k)|cbn; lia]; [|lia]. split; [apply Z.div_pos; lia|]. apply Z.div_lt_upper_bound; [lia|]. rewrite <- Z.pow_succ_r, <- Nat2Z.inj_succ by lia. lia.
Qed.

Lemma padZero_spec k s : all_digits (padZero k s) = all_digits s /\ dec_val (padZero k s) = dec_val s /\ String.length (padZero k s) = (k + String.length s)%nat.
Proof. induction k as [|k (IH1 & IH2 & IH3)]; [done|]. cbn. rewrite IH1, IH2, IH3. split; [done|]. split; [|done]. unfold digit_val, byte_val. change (N_of_ascii "0") with 48%N. lia. Qed.

Lemma pad5_spec n : 1 <= n <= MaxInt64 -> all_digits (pad5 n) = true /\ dec_val (pad5 n) = n /\ (slen (pad5 n) = 5 <-> n <= 99999).
Proof.
  intros Hn. destruct (FormatInt_spec n) as (H1 & H2 & H3); [lia|]. unfold pad5. destruct (padZero_spec (5 - String.length (FormatInt n)) (FormatInt n)) as (P1 & P2 & P3).
  rewrite P1, P2. split; [done|]. split; [done|]. unfold slen. rewrite P3. split.
  - intros Hl. pose proof (dec_val_bounds _ H1) as Hb. rewrite H2 in Hb. assert (slen (FormatInt n) <= 5) by (unfold slen; lia).
    assert (10 ^ slen (FormatInt n) <= 10 ^ 5) by (apply Z.pow_le_mono_r; lia). lia.
  - intros Hle. assert (String.length (FormatInt n) <= 5)%nat; [|lia]. unfold FormatInt. rewrite (proj2 (Z.ltb_ge n 0)) by lia.
    etrans; [apply (format_go_length 5)|done]; [change (10 ^ Z.of_nat 5) with 100000; lia|lia].
Qed.

(** A staged file's name is read back, up to five digits; a wider number is not recognized. *)
Lemma parsePartFileName_name n d : 1 <= n <= MaxInt64 -> isHexMD5 d = true -> parsePartFileName (partFileName n d) = if n <=? 99999 then Some (n, d) else None.
Proof.
  intros Hn Hd. destruct (pad5_spec n Hn) as (H1 & H2 & H3). unfold parsePartFileName, partFileName. rewrite HasPrefix_app, TrimPrefix_app. cbn [negb].
  change (pad5 n +:+ "-" +:+ d) with (pad5 n +:+ String "-" d). rewrite Cut_app by (apply digits_plain; done). rewrite Hd. cbn [negb]. rewrite orb_false_r.
  destruct (Z.eqb_spec (slen (pad5 n)) 5) as [E|E]; cbn [negb].
  - rewrite (proj2 (Z.leb_le n 99999)) by (by apply H3). rewrite ParseInt_digits; [|done|intros E2; by rewrite E2 in E|lia]. rewrite H2. by rewrite (proj2 (Z.ltb_ge n 1)) by lia.
  - by rewrite (proj2 (Z.leb_gt n 99999)) by (apply Z.nle_gt; intros Hle; apply E, H3, Hle).
Qed.

Lemma partFileName_inj n d d' : partFileName n d = partFileName n d' -> d = d'.
Proof.
  assert (forall x, partFileName n x = ("part-" +:+ pad5 n +:+ "-") +:+ x) as E by (intros x; unfold partFileName; by rewrite !string_app_assoc).
  rewrite !E. intros H. rewrite <- (TrimPrefix_app ("part-" +:+ pad5 n +:+ "-") d), H. apply TrimPrefix_app.
Qed.

Lemma EncodeToString_hex s : all_bytes lower_hex (EncodeToString s) = true /\ slen (EncodeToString s) = 2 * slen s.
Proof.
  induction s as [|c s [IH1 IH2]]; [done|]. cbn [EncodeToString all_bytes]. assert (0 <= byte_val c < 256) as Hc by (unfold byte_val; pose proof (N_ascii_bounded c); lia).
  pose proof (Z.mod_pos_bound (byte_val c) 16 ltac:(lia)). destruct (hex_char_spec (byte_val c / 16)) as [-> _]; [split; [apply Z.div_pos; lia|apply Z.div_lt_upper_bound; lia]|].
  destruct (hex_char_spec (byte_val c mod 16)) as [-> _]; [lia|]. rewrite IH1, !slen_cons, IH2. split; [done|lia].
Qed.

(** ** Which file counts *)

Definition entryFor (parts : list (string * PartFile)) (n : Z) (q : Part) : Prop :=
  exists name f d, (name, f) ∈ parts /\ parsePartFileName name = Some (n, d) /\ q = mkPart n (slen (pf_bytes f)) d (pf_mtime f).

Lemma stagePart_fold l m0 n : (forall q, fold_left stagePart l m0 !! n = Some q -> m0 !! n = Some q \/ entryFor l n q) /\
  (is_Some (m0 !! n) \/ (exists q, entryFor l n q) -> is_Some (fold_left stagePart l m0 !! n)).
Proof.
  revert m0. induction l as [|[name f] l IH]; intros m0; cbn [fold_left].
  - split; [auto|]. intros [?|(q & nm & f & d & Hin & _)]; [done|]. by apply not_elem_of_nil in Hin.
  - destruct (IH (stagePart m0 (name, f))) as [IH1 IH2]. assert (forall q, entryFor l n q -> entryFor ((name, f) :: l) n q) as Hmono.
    { intros q (nm & g & d & Hin & H). exists nm, g, d. split; [by right|done]. }
    assert (forall q, stagePart m0 (name, f) !! n = Some q -> m0 !! n = Some q \/ entryFor ((name, f) :: l) n q) as Hstep.
    { intros q Hq. unfold stagePart in Hq. cbn [fst snd] in Hq. destruct (parsePartFileName name) as [[k d]|] eqn:Ep; [|by left].
      set (c := mkPart k (slen (pf_bytes f)) d (pf_mtime f)) in Hq. assert (<[k := c]> m0 !! n = Some q -> m0 !! n = Some q \/ entryFor ((name, f) :: l) n q) as Hi.
      { intros H. destruct (decide (k = n)) as [->|Hne]; [rewrite lookup_insert_eq in H; injection H as <-; right; exists name, f, d; split; [by left|done]|].
        rewrite lookup_insert_ne in H by done. by left. }
      destruct (m0 !! k) as [cur|]; [destruct (newerPart c cur)|]; [by apply Hi|by left|by apply Hi]. }
    assert (is_Some (m0 !! n) \/ (exists d, parsePartFileName name = Some (n, d)) -> is_Some (stagePart m0 (name, f) !! n)) as Hsome.
    { intros H. unfold stagePart. cbn [fst snd]. destruct (parsePartFileName name) as [[k d]|] eqn:Ep; [|destruct H as [?|(d & ?)]; done].
      assert (forall c, is_Some (m0 !! n) \/ k = n -> is_Some (<[k := c]> m0 !! n)) as Hi.
      { intros c Hc. destruct (decide (k = n)) as [->|Hne]; [rewrite lookup_insert_eq; by eexists|]. rewrite lookup_insert_ne by done. by destruct Hc. }
      assert (is_Some (m0 !! n) \/ k = n) as Hor by (destruct H as [?|(d' & [= -> ->])]; auto).
      destruct (m0 !! k) as [cur|] eqn:Ek; [destruct (newerPart _ cur)|]; [by apply Hi| |by apply Hi]. destruct Hor as [?|<-]; [done|]. by eexists. }
    split.
    + intros q Hq. apply IH1 in Hq as [Hq|Hq]; [by apply Hstep|right; by apply Hmono].
    + intros H. apply IH2. destruct H as [H|(q & nm & g & d & Hin & Hp & ->)]; [left; apply Hsome; by left|].
      apply elem_of_cons in Hin as [[= -> ->]|Hin]; [left; apply Hsome; right; by eexists|right]. eexists. by exists nm, g, d.
Qed.

Lemma partsByNumber_spec parts n : (forall q, partsByNumber parts !! n = Some q -> exists name f d, parts !! name = Some f /\ parsePartFileName name = Some (n, d) /\ q = mkPart n (slen (pf_bytes f)) d (pf_mtime f)) /\
  (forall name f d, parts !! name = Some f -> parsePartFileName name = Some (n, d) -> is_Some (partsByNumber parts !! n)).
Proof.
  unfold partsByNumber. destruct (stagePart_fold (map_to_list parts) ∅ n) as [H1 H2]. split.
  - intros q Hq. apply H1 in Hq as [Hq|(name & f & d & Hin & H)]; [by rewrite lookup_empty in Hq|]. exists name, f, d. by apply elem_of_map_to_list in Hin.
  - intros name f d Hf Hp. apply H2. right. eexists. exists name, f, d. split; [by apply elem_of_map_to_list|done].
Qed.

Section Uploads.
Context {V : Type} `{!Publisher V}.
Context (md5 : string -> string) (sha256Hex : string -> string) (base64Decode : string -> option string).
Context (root : string) (limits : Limits).
Abbreviation MP := (@MP V).
Abbreviation md5hex := (fun b => EncodeToString (md5 b)).

(** ** Parts survive crashes *)

(** Files for one part number have digests of [S], and hold bytes with their digest. *)
Definition onlyDigests (n : Z) (S : gset string) (D : UploadDir) : Prop :=
  forall name f d, ud_parts D !! name = Some f -> parsePartFileName name = Some (n, d) -> d ∈ S /\ md5hex (pf_bytes f) = d.

(** A directory of the upload, with a file for part [n] of digest [A], when there is one. *)
Record dirOK (id : string) (n : Z) (S : gset string) (A : option string) (D : UploadDir) : Prop := mkDirOK {
  do_meta : exists up, ud_meta D = Some up /\ up_ID up = id;
  do_only : onlyDigests n S D;
  do_ack : forall d, A = Some d -> is_Some (ud_parts D !! partFileName n d)
}.

(** The upload is staged, and what a crash leaves of it, too. *)
Record Staged (id : string) (n : Z) (S : gset string) (A : option string) (s : MP) : Prop := mkStaged {
  sg_linked : id ∈ mp_linked s;
  sg_seen : exists D, mp_staging s !! id = Some D /\ dirOK id n S A D;
  sg_kept : exists K, mp_kept s !! id = Some K /\ dirOK id n S A K
}.

Lemma dirOK_weaken id n S S' A D : S ⊆ S' -> dirOK id n S A D -> dirOK id n S' A D.
Proof. intros Hs [H1 H2 H3]. split; [done| |done]. intros name f d E1 E2. destruct (H2 name f d E1 E2). auto. Qed.
Lemma dirOK_noack id n S A D : dirOK id n S A D -> dirOK id n S None D.
Proof. intros [H1 H2 H3]. by split. Qed.
Lemma dirOK_same id n S A D D' : ud_parts D' = ud_parts D -> ud_meta D' = ud_meta D -> dirOK id n S A D -> dirOK id n S A D'.
Proof. intros E1 E2 [H1 H2 H3]. split; [by rewrite E2|unfold onlyDigests; by rewrite E1|by rewrite E1]. Qed.
Lemma dirOK_delete id n S A D D' name : ud_parts D' = delete name (ud_parts D) -> ud_meta D' = ud_meta D -> (forall d, A = Some d -> partFileName n d <> name) ->
  dirOK id n S A D -> dirOK id n S A D'.
Proof.
  intros E1 E2 Hn [H1 H2 H3]. split; [by rewrite E2|intros nm f d Hf Hp; rewrite E1 in Hf; apply lookup_delete_Some in Hf as [_ Hf]; by eapply H2|].
  intros d Ed. rewrite E1, lookup_delete_ne by (apply not_eq_sym; by apply Hn). by apply H3.
Qed.
Lemma dirOK_insert id n S A D D' b t d : 1 <= n <= 99999 -> md5hex b = d -> isHexMD5 d = true -> ud_parts D' = <[partFileName n d := mkPartFile b t]> (ud_parts D) -> ud_meta D' = ud_meta D ->
  dirOK id n S A D -> dirOK id n (S ∪ {[ d ]}) A D'.
Proof.
  intros Hn Hb Hd E1 E2 [H1 H2 H3]. split; [by rewrite E2| |].
  - intros name pf d' F1 F2. rewrite E1 in F1. destruct (decide (partFileName n d = name)) as [<-|Hne].
    + rewrite lookup_insert_eq in F1. injection F1 as <-. rewrite parsePartFileName_name, (proj2 (Z.leb_le n 99999)) in F2 by (unfold MaxInt64 in *; done || lia). injection F2 as <-. set_solver.
    + rewrite lookup_insert_ne in F1 by done. destruct (H2 _ _ _ F1 F2). set_solver.
  - intros d' Ed. rewrite E1. destruct (decide (partFileName n d = partFileName n d')) as [<-|Hne]; [rewrite lookup_insert_eq; by eexists|]. rewrite lookup_insert_ne by done. by apply H3.
Qed.

Lemma Staged_weaken id n S S' A s : S ⊆ S' -> Staged id n S A s -> Staged id n S' A s.
Proof. intros Hs [H1 (D & H2 & H3) (K & H4 & H5)]. split; [done|exists D|exists K]; eauto using dirOK_weaken. Qed.

Lemma triple_sysM (P : MP -> Prop) (F : mperr -> MP -> Prop) : (forall l s, P s -> P (set_mfaults l s)) -> (forall e s, P s -> F e s) -> triple P sysM (fun _ => P) F.
Proof. intros HP HF s Hs. unfold sysM. destruct (mp_faults s) as [|[] l]; [done|by apply HF, HP|by apply HP]. Qed.

Lemma triple_quietly (P Q : MP -> Prop) (c : SE MP mperr unit) (F : mperr -> MP -> Prop) : triple P c (fun _ => Q) (fun _ => Q) -> triple P (quietly c) (fun _ => Q) F.
Proof. intros H s Hs. specialize (H s Hs). unfold quietly, bindS, tryS. by destruct (c s) as [[]?]. Qed.

Lemma triple_joinM (P Q : MP -> Prop) (c d : SE MP mperr unit) : triple P c (fun _ => Q) (fun _ => Q) -> triple Q d (fun _ => Q) (fun _ => Q) -> triple P (joinM c d) (fun _ => Q) (fun _ => Q).
Proof.
  intros Hc Hd s Hs. specialize (Hc s Hs). unfold joinM, bindS, tryS. destruct (c s) as [[]s']; specialize (Hd s' Hc); destruct (d s') as [[] ?]; done.
Qed.

(** A directory's parts and descriptor are all that counts. *)
Definition touches (f : UploadDir -> UploadDir) : Prop := forall d, ud_parts (f d) = ud_parts d /\ ud_meta (f d) = ud_meta d.
Lemma Staged_alter id n S S' A id' f s : S ⊆ S' -> (forall D, dirOK id n S A D -> id' = id -> dirOK id n S' A (f D)) ->
  Staged id n S A s -> Staged id n S' A (set_staging (alter f id' (mp_staging s)) s).
Proof.
  intros HS Hf [H1 (D & H2 & H3) (K & H4 & H5)]. split; [done| |exists K; eauto using dirOK_weaken]. cbn. destruct (decide (id' = id)) as [->|Hne].
  - exists (f D). rewrite lookup_alter_eq, H2. auto.
  - exists D. rewrite lookup_alter_ne by done. eauto using dirOK_weaken.
Qed.
Lemma Staged_touch id n S A id' f s : touches f -> Staged id n S A s -> Staged id n S A (set_staging (alter f id' (mp_staging s)) s).
Proof. intros Hf. apply Staged_alter; [done|]. intros D HD _. destruct (Hf D). by eapply dirOK_same. Qed.

Lemma Staged_sync id n S A s : Staged id n S A s -> Staged id n S A (set_kept (partial_alter (fun _ => mp_staging s !! id) id (mp_kept s)) s).
Proof. intros [H1 (D & H2 & H3) _]. split; [done|by exists D|]. exists D. cbn. by rewrite lookup_partial_alter_eq. Qed.

Definition blind (P : MP -> Prop) : Prop := forall l s, P s -> P (set_mfaults l s).
Lemma Staged_blind id n S A : blind (Staged id n S A).
Proof. intros l s [? ? ?]. by split. Qed.

Lemma triple_syncUpload (P Q : MP -> Prop) id : blind P -> (forall s, P s -> Q (set_kept (partial_alter (fun _ => mp_staging s !! id) id (mp_kept s)) s)) ->
  triple P (syncUpload id) (fun _ => Q) (fun _ => P).
Proof. intros HP HQ. unfold syncUpload. eapply triple_bind; [by apply triple_sysM|]. intros []. by apply triple_modify. Qed.

Lemma triple_dirOf {A} (P : MP -> Prop) id (k : option UploadDir -> SE MP mperr A) Q F :
  (forall d, triple (fun s => P s /\ mp_staging s !! id = d) (k d) Q F) -> triple P (bindS (dirOf id) k) Q F.
Proof. intros H s Hs. apply (H (mp_staging s !! id)). by split. Qed.

Lemma triple_updDir (P Q : MP -> Prop) id f (F : mperr -> MP -> Prop) : (forall s, P s -> Q (set_staging (alter f id (mp_staging s)) s)) -> triple P (updDir id f) (fun _ => Q) F.
Proof. intros H. by apply triple_modify. Qed.

Lemma triple_temp id n S A id' tmp now : triple (Staged id n S A) (createTemp id' tmp now) (fun _ => Staged id n S A) (fun _ => Staged id n S A).
Proof.
  unfold createTemp. eapply triple_bind; [apply triple_sysM; [apply Staged_blind|done]|]. intros [].
  apply triple_dirOf. intros [D|]; [|apply triple_fail; by intros s [? _]]. apply triple_updDir. intros s [Hs _]. by apply Staged_touch.
Qed.
Lemma triple_dropTemp id n S A id' tmp now : triple (Staged id n S A) (dropTemp id' tmp now) (fun _ => Staged id n S A) (fun _ => Staged id n S A).
Proof. unfold dropTemp. eapply triple_bind; [apply triple_sysM; [apply Staged_blind|done]|]. intros []. apply triple_updDir. intros s. by apply Staged_touch. Qed.

(** *** Publishing a part *)

Lemma superseded_other n d name : isHexMD5 d = true -> 1 <= n <= 99999 -> superseded n d name = true -> partFileName n d <> name.
Proof.
  intros Hd Hn H <-. unfold superseded in H. rewrite parsePartFileName_name, (proj2 (Z.leb_le n 99999)) in H by (unfold MaxInt64 in *; done || lia).
  rewrite String.eqb_refl, andb_false_r in H. done.
Qed.

(** Superseded files still there are on the list. *)
Definition leftOn (id : string) (n : Z) (d : string) (L : list string) (s : MP) : Prop :=
  exists D, mp_staging s !! id = Some D /\ forall name, is_Some (ud_parts D !! name) -> superseded n d name = true -> name ∈ L.

Lemma triple_removeList id n S d now L : isHexMD5 d = true -> 1 <= n <= 99999 -> Forall (fun name => superseded n d name = true) L ->
  triple (fun s => Staged id n S (Some d) s /\ leftOn id n d L s) (forS (fun name => removePart id name now) L)
    (fun _ s => Staged id n S (Some d) s /\ leftOn id n d [] s) (fun _ => Staged id n S (Some d)).
Proof.
  intros Hd Hn HL. induction HL as [|name L Hx _ IH]; cbn [forS]; [by apply triple_ret|].
  apply (triple_bind _ _ _ (fun _ s => Staged id n S (Some d) s /\ leftOn id n d L s)); [|intros []; exact IH]. unfold removePart. eapply triple_bind; [apply (triple_sysM (fun s => Staged id n S (Some d) s /\ leftOn id n d (name :: L) s))|].
  - intros l s [H1 H2]. split; [by apply Staged_blind|done].
  - by intros e s [? _].
  - intros []. apply triple_updDir. intros s [H1 (D & H2 & H3)]. split.
    + revert H1. apply Staged_alter; [done|]. intros D' HD' _. eapply (dirOK_delete _ _ _ _ D' _ name); [done|done| |done]. intros d' [= <-]. by apply superseded_other.
    + eexists. cbn. rewrite lookup_alter_eq, H2. split; [reflexivity|]. cbn. intros nm [f Hf] Hs. apply lookup_delete_Some in Hf as [Hne Hf].
      specialize (H3 nm (ex_intro _ f Hf) Hs). apply elem_of_cons in H3 as [->|H3]; done.
Qed.

Lemma triple_removeSuperseded id n S d now : isHexMD5 d = true -> 1 <= n <= 99999 ->
  triple (Staged id n S (Some d)) (removeSupersededParts id n d now) (fun _ s => Staged id n S (Some d) s /\ leftOn id n d [] s) (fun _ => Staged id n S (Some d)).
Proof.
  intros Hd Hn. unfold removeSupersededParts. eapply triple_bind; [apply triple_sysM; [apply Staged_blind|done]|]. intros []. apply triple_dirOf. intros [D|]; [|apply triple_fail; by intros s [? _]].
  eapply triple_conseq; [apply (triple_removeList id n S d now (List.filter (superseded n d) (map fst (map_to_list (ud_parts D))))); [done|done|]| |done|done].
  - apply Forall_forall. intros name Hin. apply list_elem_of_In, filter_In in Hin as [_ ?]. done.
  - intros s [H1 H2]. split; [done|]. exists D. split; [done|]. intros name [f Hf] Hs. apply list_elem_of_In, filter_In. split; [|done].
    apply in_map_iff. exists (name, f). split; [done|]. by apply list_elem_of_In, elem_of_map_to_list.
Qed.

Lemma leftOn_only id n S d s D : Staged id n S (Some d) s -> leftOn id n d [] s -> mp_staging s !! id = Some D -> dirOK id n {[ d ]} (Some d) D.
Proof.
  intros [_ (D' & E' & HD) _] (D'' & E'' & Hl) E. assert (D' = D) as -> by congruence. assert (D'' = D) as -> by congruence. destruct HD as [H1 H2 H3]. split; [done| |done].
  intros name f d' F1 F2. destruct (H2 _ _ _ F1 F2) as [_ Hm]. split; [|done]. destruct (decide (d' = d)) as [->|Hne]; [set_solver|]. exfalso.
  apply (not_elem_of_nil name), Hl; [by eexists|]. unfold superseded. rewrite F2, Z.eqb_refl. by rewrite (proj2 (String.eqb_neq _ _) Hne).
Qed.

Lemma triple_publishPart id n S A tmp b now : let d := md5hex b in isHexMD5 d = true -> 1 <= n <= 99999 ->
  triple (Staged id n S A) (publishPart id tmp n b d now) (fun _ => Staged id n {[ d ]} (Some d))
    (fun _ s => exists A', (A' = A \/ A' = Some d) /\ Staged id n (S ∪ {[ d ]}) A' s).
Proof.
  intros d Hd Hn. unfold publishPart. set (F := fun (_ : mperr) (s : MP) => exists A', (A' = A \/ A' = Some d) /\ Staged id n (S ∪ {[ d ]}) A' s).
  assert (forall (e : mperr) s, Staged id n S A s -> F e s) as HF0 by (intros e s H; exists A; split; [by left|]; revert H; apply Staged_weaken; set_solver).
  assert (forall (e : mperr) s, Staged id n (S ∪ {[ d ]}) A s -> F e s) as HF1 by (intros e s H; exists A; auto).
  assert (forall (e : mperr) s, Staged id n (S ∪ {[ d ]}) (Some d) s -> F e s) as HF2 by (intros e s H; exists (Some d); auto).
  eapply triple_bind; [apply triple_sysM; [apply Staged_blind|apply HF0]|]. intros []. apply triple_dirOf. intros D0.
  eapply triple_bind; [apply (triple_sysM (fun s => Staged id n S A s /\ mp_staging s !! id = D0)); [intros l s [H ?]; split; [by apply Staged_blind|done]|by intros e s [? _]; apply HF0]|]. intros [].
  destruct D0 as [D0|]; [|apply triple_fail; by intros s [? _]; apply HF0].
  eapply triple_bind; [apply (triple_sysM (fun s => Staged id n S A s /\ mp_staging s !! id = Some D0)); [intros l s [H ?]; split; [by apply Staged_blind|done]|by intros e s [? _]; apply HF0]|]. intros [].
  set (f := fun d0 : UploadDir => ud_touch now (ud_set_parts (<[partFileName n d := mkPartFile b now]> (ud_parts d0)) (ud_set_scratch (delete tmp (ud_scratch d0)) d0))).
  (* renamed *)
  set (P1 := fun s => Staged id n (S ∪ {[ d ]}) A s /\ (exists D, mp_staging s !! id = Some D /\ is_Some (ud_parts D !! partFileName n d)) /\
                      (is_Some (ud_parts D0 !! partFileName n d) \/ (forall x, A = Some x -> x <> d))).
  eapply (triple_bind _ _ _ (fun _ => P1)).
  { apply triple_updDir. intros s [Hs E0]. split; [|split].
    - revert Hs. apply Staged_alter; [set_solver|]. intros D HD _. by eapply (dirOK_insert id n S A D (f D) b now d).
    - eexists. cbn. rewrite lookup_alter_eq, E0. split; [reflexivity|]. cbn. rewrite lookup_insert_eq. by eexists.
    - destruct (ud_parts D0 !! partFileName n d) eqn:Ed; [left; by eexists|right]. intros x -> ->. destruct Hs as [_ (D & ED & HD) _]. rewrite E0 in ED. injection ED as <-.
      destruct (do_ack _ _ _ _ _ HD d eq_refl) as [? Hx]. congruence. }
  intros []. eapply (triple_bind _ _ _ (fun r s => match r with Ok _ => Staged id n (S ∪ {[ d ]}) (Some d) s | Err _ => P1 s end)).
  { eapply triple_try. eapply triple_conseq; [apply (triple_syncUpload P1 (Staged id n (S ∪ {[ d ]}) (Some d)))|done|done|by intros e s H; exact H].
    - intros l s (H1 & H2 & H3). split; [by apply Staged_blind|done].
    - intros s (H1 & (D & ED & HD) & _). apply Staged_sync in H1. destruct H1 as [L1 _ (K & EK & HK)]. cbn in EK. rewrite lookup_partial_alter_eq, ED in EK. injection EK as <-.
      assert (dirOK id n (S ∪ {[ d ]}) (Some d) D) as HD' by (destruct HK; split; [done|done|by intros x [= <-]]). split; [done|by exists D|]. exists D. cbn. by rewrite lookup_partial_alter_eq. }
  intros [[]|e].
  - eapply triple_bind; [eapply triple_conseq; [by apply triple_removeSuperseded|done|done|by intros e s H; apply HF2]|]. intros [].
    eapply triple_conseq; [apply (triple_syncUpload (fun s => Staged id n (S ∪ {[ d ]}) (Some d) s /\ leftOn id n d [] s) (Staged id n {[ d ]} (Some d)))|done|done|by intros e s [H _]; apply HF2].
    + intros l s [H1 H2]. split; [by apply Staged_blind|done].
    + intros s [H1 H2]. destruct (sg_seen _ _ _ _ _ H1) as (D & ED & _). pose proof (leftOn_only _ _ _ _ _ _ H1 H2 ED) as HD. destruct H1 as [L1 _ _]. split; [done|by exists D|].
      exists D. cbn. by rewrite lookup_partial_alter_eq.
  - apply (triple_bind _ _ _ (fun _ => Staged id n (S ∪ {[ d ]}) A)); [|intros []; apply triple_fail; exact (HF1 e)].
    case_bool_decide as Hfr; cbn [negb]; [apply triple_ret; by intros s [? _]|].
    apply triple_quietly, triple_joinM; [|eapply triple_conseq; [apply (triple_syncUpload (Staged id n (S ∪ {[ d ]}) A)); [apply Staged_blind|apply Staged_sync]|done|done|done]].
    unfold removePart. apply (triple_bind _ _ _ (fun _ s => P1 s)); [apply triple_sysM; [intros l s (H1 & H2); split; [by apply Staged_blind|done]|by intros e' s [? _]]|]. intros [].
    apply triple_updDir. intros s (H1 & _ & Hor). revert H1. apply Staged_alter; [done|]. intros D HD _. eapply (dirOK_delete _ _ _ _ D _ (partFileName n d)); [done|done| |done].
    intros x Ex E. destruct Hor as [Hor|Hor]; [done|]. apply (Hor x Ex). by apply partFileName_inj in E.
Qed.
(** *** Writing a part *)

Definition indifferent (P : MP -> Prop) : Prop := forall k s, P s -> P (set_inflight k s).
Lemma Staged_indifferent id n S A : indifferent (Staged id n S A).
Proof. intros k s [? ? ?]. by split. Qed.

Lemma triple_readMeta (P : MP -> Prop) id : blind P -> triple P (readMeta id) (fun _ => P) (fun _ => P).
Proof.
  intros HP. unfold readMeta. destruct (ValidUploadID id); cbn [negb]; [|by apply triple_fail]. eapply triple_bind; [by apply triple_sysM|]. intros [].
  apply triple_dirOf. intros [[[up|] ? ? ?]|]; [|by apply triple_fail; intros s [? _]..]. destruct (up_ID up =s id); [apply triple_ret|apply triple_fail]; by intros s [? _].
Qed.

Lemma triple_streamPart id n S A id' tmp body ended want checks now :
  triple (Staged id n S A) (streamPart md5 sha256Hex limits id' tmp body ended want checks now) (fun _ => Staged id n S A) (fun _ => Staged id n S A).
Proof.
  unfold streamPart. eapply triple_bind; [apply triple_temp|]. intros []. assert (forall e : mperr, triple (Staged id n S A) (bindS (quietly (dropTemp id' tmp now)) (fun _ => failS e)) (fun _ : unit => Staged id n S A) (fun _ => Staged id n S A)) as Hdrop.
  { intros e. eapply triple_bind; [apply triple_quietly, triple_dropTemp|]. intros []. by apply triple_fail. }
  apply (triple_bind _ _ _ (fun _ => Staged id n S A)).
  - eapply triple_conseq; [apply (triple_try (Staged id n S A) _ (fun _ => Staged id n S A) (fun _ => Staged id n S A) (fun _ => Staged id n S A))|done|by intros [] s H|done].
    destruct (copyError limits body ended); [by apply triple_fail|]. eapply triple_bind; [apply triple_sysM; [apply Staged_blind|done]|]. intros []. apply triple_sysM; [apply Staged_blind|done].
  - intros [[]|e]; [|apply Hdrop]. destruct (checkDigests md5 sha256Hex want checks body); [apply Hdrop|]. by apply triple_ret.
Qed.

Lemma triple_commitPart id n S A tmp body now : isHexMD5 (md5hex body) = true -> 1 <= n <= 99999 ->
  triple (Staged id n S A) (commitPart md5 id tmp n body now)
    (fun p s => p = mkPart n (slen body) (md5hex body) now /\ Staged id n {[ md5hex body ]} (Some (md5hex body)) s)
    (fun _ s => exists A', (A' = A \/ A' = Some (md5hex body)) /\ Staged id n (S ∪ {[ md5hex body ]}) A' s).
Proof.
  intros Hd Hn. unfold commitPart. set (F := fun s : MP => exists A', (A' = A \/ A' = Some (md5hex body)) /\ Staged id n (S ∪ {[ md5hex body ]}) A' s).
  assert (forall (e : mperr) (Q : Part -> MP -> Prop), triple F (bindS (quietly (dropTemp id tmp now)) (fun _ => failS e)) Q (fun _ : mperr => F)) as Hdrop.
  { intros e Q. apply (triple_bind _ _ _ (fun _ => F)); [|intros []; by apply triple_fail]. apply triple_exists. intros A'. apply triple_pre. intros HA'.
    apply triple_quietly. eapply triple_conseq; [apply triple_dropTemp|done|..]; intros ? s H; exists A'; done. }
  apply (triple_bind _ _ _ (fun r s => Staged id n S A s)).
  { eapply triple_conseq; [apply (triple_try (Staged id n S A) _ (fun _ => Staged id n S A) (fun _ => Staged id n S A) (fun _ => F)), triple_readMeta, Staged_blind|done|by intros [] s H|done]. }
  intros [up|e].
  - eapply (triple_bind _ _ _ (fun r s => match r with Ok _ => Staged id n {[ md5hex body ]} (Some (md5hex body)) s | Err _ => F s end)).
    + eapply triple_try. by apply triple_publishPart.
    + intros [[]|e]; [by apply triple_ret|apply Hdrop].
  - intros s H. apply Hdrop. exists A. split; [by left|]. revert H. apply Staged_weaken. set_solver.
Qed.

Lemma triple_WritePart meanwhile id n S A tmp body ended checks now : isHexMD5 (md5hex body) = true -> n <= 99999 -> (forall s, Staged id n S A s -> Staged id n S A (meanwhile s)) ->
  triple (Staged id n S A) (WritePart md5 sha256Hex base64Decode limits meanwhile id tmp n body ended checks now)
    (fun p s => p = mkPart n (slen body) (md5hex body) now /\ Staged id n {[ md5hex body ]} (Some (md5hex body)) s)
    (fun _ s => exists A', (A' = A \/ A' = Some (md5hex body)) /\ Staged id n (S ∪ {[ md5hex body ]}) A' s).
Proof.
  intros Hd Hn Hm. unfold WritePart. set (F := fun s : MP => exists A', (A' = A \/ A' = Some (md5hex body)) /\ Staged id n (S ∪ {[ md5hex body ]}) A' s).
  assert (forall s, Staged id n S A s -> F s) as HF by (intros s H; exists A; split; [by left|]; revert H; apply Staged_weaken; set_solver).
  destruct (ValidUploadID id); cbn [negb]; [|by apply triple_fail]. destruct (Z.ltb_spec n 1) as [|H1]; [by apply triple_fail|]. destruct (MaxParts limits <? n); [by apply triple_fail|]. cbn [orb].
  destruct (wantedMD5 base64Decode checks) as [want|]; [|by apply triple_fail]. eapply triple_bind; [apply triple_get|]. intros s0. destruct (_ && _); [apply triple_fail; by intros s [_ ?]; apply HF|].
  eapply (triple_bind _ _ _ (fun _ => Staged id n S A)); [apply triple_modify; intros s [_ H]; by apply Staged_indifferent|]. intros [].
  set (Q := fun (p : Part) s => p = mkPart n (slen body) (md5hex body) now /\ Staged id n {[ md5hex body ]} (Some (md5hex body)) s).
  apply (triple_bind _ _ _ (fun r s => match r with Ok p => Q p s | Err _ => F s end)).
  - eapply triple_try. eapply triple_bind; [eapply triple_conseq; [apply triple_readMeta, Staged_blind|done|done|by intros e s H; apply HF]|]. intros up.
    eapply triple_bind; [eapply triple_conseq; [apply triple_streamPart|done|done|by intros e s H; apply HF]|]. intros [].
    apply (triple_bind _ _ _ (fun _ => Staged id n S A)); [by apply triple_modify|]. intros []. by apply triple_commitPart.
  - intros r. apply (triple_bind _ _ _ (fun _ s => match r with Ok p => Q p s | Err _ => F s end)).
    + apply triple_modify. intros s. destruct r as [p|e]; [intros [-> H]; split; [done|by apply Staged_indifferent]|]. intros (A' & ? & H). exists A'. split; [done|]. by apply Staged_indifferent.
    + intros []. apply triple_lift. intros s H. by destruct r.
Qed.
(** *** Crashes *)

(** What a crash leaves of the staging area: a directory whose entry is on disk stays, and each
    of its entries is the one on disk or the one that was seen. *)
Definition dirEntry {T} (f : UploadDir -> T) (d : option UploadDir) (none : T) : T := match d with Some d => f d | None => none end.
Definition survives (s s' : MP) : Prop := forall id,
  (id ∈ mp_linked s -> is_Some (mp_staging s !! id) -> is_Some (mp_staging s' !! id)) /\
  forall D', mp_staging s' !! id = Some D' ->
    (forall name, ud_parts D' !! name = dirEntry (fun d => ud_parts d !! name) (mp_kept s !! id) None \/ ud_parts D' !! name = dirEntry (fun d => ud_parts d !! name) (mp_staging s !! id) None) /\
    (ud_meta D' = dirEntry ud_meta (mp_kept s !! id) None \/ ud_meta D' = dirEntry ud_meta (mp_staging s !! id) None).

(** The upload is there, and lists part [n] with a digest of [S] that its bytes have. *)
Definition lists (id : string) (n : Z) (S : gset string) (s : MP) : Prop :=
  exists D up q, mp_staging s !! id = Some D /\ ud_meta D = Some up /\ up_ID up = id /\ partsByNumber (ud_parts D) !! n = Some q /\ pt_ETag q ∈ S /\
    exists name f, ud_parts D !! name = Some f /\ md5hex (pf_bytes f) = pt_ETag q /\ pt_Size q = slen (pf_bytes f).

Lemma survives_lists id n S d s s' : 1 <= n <= 99999 -> isHexMD5 d = true -> Staged id n S (Some d) s -> survives s s' -> lists id n S s'.
Proof.
  intros Hn Hd [HL (D & ED & HD) (K & EK & HK)] Hc. destruct (Hc id) as [Hc1 Hc2]. destruct Hc1 as [D' ED']; [done|by eexists|]. destruct (Hc2 D' ED') as [Hp Hm].
  rewrite EK, ED in Hp, Hm. cbn [dirEntry] in Hp, Hm. assert (exists up, ud_meta D' = Some up /\ up_ID up = id) as (up & Hup & Hid) by (destruct Hm as [-> | ->]; [apply HK|apply HD]).
  assert (is_Some (ud_parts D' !! partFileName n d)) as [f Hf] by (destruct (Hp (partFileName n d)) as [-> | ->]; [by apply HK|by apply HD]).
  destruct (partsByNumber_spec (ud_parts D') n) as [P1 P2]. assert (parsePartFileName (partFileName n d) = Some (n, d)) as Hpn
    by (rewrite parsePartFileName_name by (unfold MaxInt64; done || lia); by rewrite (proj2 (Z.leb_le _ _)) by lia).
  destruct (P2 _ _ _ Hf Hpn) as [q Hq]. destruct (P1 q Hq) as (name & g & d' & Hg & Hpg & ->). exists D', up, (mkPart n (slen (pf_bytes g)) d' (pf_mtime g)).
  assert (d' ∈ S /\ md5hex (pf_bytes g) = d') as [? ?]. { destruct (Hp name) as [E|E]; rewrite E in Hg; [by apply (do_only _ _ _ _ _ HK name g d')|by apply (do_only _ _ _ _ _ HD name g d')]. }
  split; [done|]. split; [done|]. split; [done|]. split; [done|]. split; [done|]. by exists name, g.
Qed.

(** C26. A part that was acknowledged is never lost: whatever fails while the same part is
    written again, and at whatever point the machine stops, the upload lists the part with its
    old or its new digest and bytes of that digest; and once the new part is acknowledged, with
    the new one. *)
Theorem WritePart_crash_safe meanwhile id n S A tmp body ended checks now s r s1 s2 : (forall b, slen (md5 b) = 16) -> n <= 99999 ->
  Staged id n S A s -> (forall s, Staged id n S A s -> Staged id n S A (meanwhile s)) -> (forall d, A = Some d -> isHexMD5 d = true) ->
  WritePart md5 sha256Hex base64Decode limits meanwhile id tmp n body ended checks now s = (r, s1) -> survives s1 s2 ->
  match r with
  | Ok p => p = mkPart n (slen body) (md5hex body) now /\ lists id n {[ md5hex body ]} s2
  | Err _ => 1 <= n -> is_Some A -> lists id n (S ∪ {[ md5hex body ]}) s2
  end.
Proof.
  intros Hmd5 Hn Hs Hm HA E Hc. assert (forall b, isHexMD5 (md5hex b) = true) as Hhex.
  { intros b. unfold isHexMD5, lowerHex. destruct (EncodeToString_hex (md5 b)) as [-> ->]. by rewrite Hmd5. }
  pose proof (triple_WritePart meanwhile id n S A tmp body ended checks now (Hhex body) Hn Hm s Hs) as H. rewrite E in H. destruct r as [p|e].
  - destruct H as [-> H]. split; [done|]. assert (1 <= n).
    { unfold WritePart in E. destruct (negb (ValidUploadID id)); [done|]. destruct (Z.ltb_spec n 1); [done|lia]. }
    by eapply survives_lists.
  - destruct H as (A' & HA' & H). intros H1 [d Ed]. destruct HA' as [-> | ->]; [rewrite Ed in H; apply (survives_lists id n _ d s1); auto|by apply (survives_lists id n _ (md5hex body) s1)].
Qed.
End Uploads.

(** ** Completing an upload *)

Definition scat (l : list string) : string := foldr String.append "" l.
Lemma scat_cons x l : scat (x :: l) = x +:+ scat l.
Proof. done. Qed.

Section Complete.
Context {V : Type} `{!Publisher V}.
Context (md5 : string -> string) (sha256Hex : string -> string).
Context (root : string) (limits : Limits).
Abbreviation MP := (@MP V).
Abbreviation md5hex := (fun b => EncodeToString (md5 b)).

(** Only the list of faults differs. *)
Definition onlyFaults (s s' : MP) : Prop := exists l, s' = set_mfaults l s.
#[local] Instance onlyFaults_preorder : PreOrder onlyFaults.
Proof. split; [intros s; exists (mp_faults s); by destruct s|]. intros s1 s2 s3 [l ->] [l' ->]. by exists l'. Qed.
Lemma sysM_onlyFaults : keeps onlyFaults sysM.
Proof. intros s. unfold sysM. destruct (mp_faults s) as [|[] l]; cbn; [reflexivity|by exists l..]. Qed.
Lemma dirOf_run {A} id (k : option UploadDir -> SE MP mperr A) s : bindS (dirOf id) k s = k (mp_staging s !! id) s.
Proof. done. Qed.
Lemma keeps_dirOf {A} (R : MP -> MP -> Prop) id (k : option UploadDir -> SE MP mperr A) : (forall d, keeps R (k d)) -> keeps R (bindS (dirOf id) k).
Proof. intros H s. apply H. Qed.
Lemma readMeta_onlyFaults id : keeps onlyFaults (readMeta id).
Proof.
  unfold readMeta. destruct (negb _); [apply keeps_fail, _|]. apply keeps_bind; [apply _|apply sysM_onlyFaults|]. intros _. apply keeps_dirOf.
  intros [[[up|] ? ? ?]|]; [destruct (up_ID up =s id); [apply keeps_ret, _|]|..]; apply keeps_fail, _.
Qed.
Lemma stagedParts_onlyFaults id : keeps onlyFaults (stagedParts id).
Proof. unfold stagedParts. apply keeps_bind; [apply _|apply sysM_onlyFaults|]. intros _. apply keeps_dirOf. intros [d|]; [apply keeps_ret, _|apply keeps_fail, _]. Qed.

(** A part of the list and the bytes copied for it. *)
Definition copied (D : UploadDir) (p : Part) (b : string) : Prop :=
  (exists f, ud_parts D !! partFileName (pt_Number p) (pt_ETag p) = Some f /\ pf_bytes f = b) /\ md5hex b = pt_ETag p /\ slen b = pt_Size p.

Lemma copyParts_onlyFaults id parts bytes raws w : keeps onlyFaults (copyParts md5 id parts bytes raws w).
Proof.
  revert bytes raws w. induction parts as [|p parts IH]; intros bytes raws w; cbn [copyParts]; [apply keeps_ret, _|]. apply keeps_bind; [apply _|apply sysM_onlyFaults|]. intros _. apply keeps_dirOf.
  intros [d|]; [|apply keeps_fail, _]. destruct (ud_parts d !! _); [|apply keeps_fail, _]. apply keeps_bind; [apply _|apply sysM_onlyFaults|]. intros _.
  destruct (_ || _); [apply keeps_fail, _|apply IH].
Qed.

Lemma copyParts_spec id D parts bytes raws w (s : MP) bytes' raws' w' s' : mp_staging s !! id = Some D -> copyParts md5 id parts bytes raws w s = (Ok (bytes', raws', w'), s') ->
  exists bodies, Forall2 (copied D) parts bodies /\ bytes' = bytes +:+ scat bodies /\ raws' = raws +:+ scat (map md5 bodies).
Proof.
  revert bytes raws w s. induction parts as [|p parts IH]; intros bytes raws w s ED H; cbn [copyParts] in H.
  - injection H as <- <- <- <-. exists []. split; [constructor|]. cbn. by rewrite !string_app_nil_r.
  - apply bindS_Ok in H as ([] & s1 & E1 & H). pose proof (sysM_onlyFaults s) as [l El]. rewrite E1 in El. cbn in El. subst s1.
    rewrite dirOf_run in H. cbn [mp_staging set_mfaults] in H. rewrite ED in H. destruct (ud_parts D !! partFileName (pt_Number p) (pt_ETag p)) as [f|] eqn:Ef; [|discriminate H].
    apply bindS_Ok in H as ([] & s2 & E2 & H). pose proof (sysM_onlyFaults (set_mfaults l s)) as [l2 El2]. rewrite E2 in El2. cbn in El2. subst s2.
    destruct (_ || _) eqn:Ec in H; [done|]. apply orb_false_iff in Ec as [C1%negb_false_iff%String.eqb_eq C2%negb_false_iff%Z.eqb_eq].
    apply IH in H as (bodies & HF & -> & ->); [|done]. exists (pf_bytes f :: bodies). split; [constructor; [|done]; split; [by exists f|done]|]. cbn [map]. rewrite !scat_cons, !string_app_assoc. done.
Qed.
(** The list is ascending, within the limits. *)
Lemma checkOrder_spec prev want : checkOrder limits prev want = None ->
  Forall (fun w => prev < cp_Number w /\ 1 <= cp_Number w <= MaxParts limits) want /\ StronglySorted Z.lt (map cp_Number want).
Proof.
  revert prev. induction want as [|w want IH]; intros prev H; [split; constructor|]. cbn [checkOrder] in H.
  destruct (Z.ltb_spec (cp_Number w) 1) as [|G1]; [done|]. destruct (Z.ltb_spec (MaxParts limits) (cp_Number w)) as [|G2]; [done|]. cbn [orb] in H.
  destruct (Z.leb_spec (cp_Number w) prev) as [|G3]; [done|].
  apply IH in H as [H1 H2]. split.
  - constructor; [lia|]. eapply Forall_impl; [exact H1|]. cbn. lia.
  - cbn [map]. constructor; [done|]. apply Forall_fmap. eapply Forall_impl; [exact H1|]. cbn. lia.
Qed.

Definition selects (byNumber : gmap Z Part) (w : CompletePart) (p : Part) : Prop := byNumber !! cp_Number w = Some p /\ etagMatches (cp_ETag w) (pt_ETag p) = true.

Lemma selectParts_spec byNumber total want ps total' : selectParts limits byNumber total want = Ok (ps, total') ->
  Forall2 (selects byNumber) want ps /\ Forall (fun p => MinPartBytes limits <= pt_Size p) (removelast ps) /\ (want <> [] -> 0 < MaxObjectBytes limits -> total' <= MaxObjectBytes limits).
Proof.
  revert total ps. induction want as [|w want IH]; intros total ps H; cbn [selectParts] in H; [injection H as <- <-; split; [constructor|]; split; [constructor|done]|].
  destruct (byNumber !! cp_Number w) as [p|] eqn:Ep; [|done]. destruct (etagMatches _ _) eqn:Ee; [|done]. cbn [negb] in H.
  destruct (negb _ && _) eqn:Es in H; [done|]. destruct (_ && _) eqn:Em in H; [done|]. destruct (selectParts limits byNumber _ want) as [[ps' t']|e] eqn:Er; [|done]. injection H as <- <-.
  destruct (IH _ _ Er) as (H1 & H2 & H3). split; [by constructor|]. split.
  - destruct H1 as [|? ? ? ? ? ?]; [constructor|]. cbn [removelast]. constructor; [|done]. apply andb_false_iff in Es as [Es|Es]; [by rewrite bool_decide_false in Es|]. by apply Z.ltb_ge.
  - intros _ Hpos. destruct want as [|w' want]; [|by apply H3]. cbn in Er. injection Er as <- <-. apply andb_false_iff in Em as [Em%Z.ltb_ge|Em%Z.ltb_ge]; lia.
Qed.

(** The parts a completion chooses from are the ones the directory holds. *)
Lemma stagedMap_spec parts n p : (list_to_map (map (fun p => (pt_Number p, p)) (sortedParts (partsByNumber parts))) : gmap Z Part) !! n = Some p -> partsByNumber parts !! n = Some p.
Proof.
  intros H. apply elem_of_list_to_map_2 in H. apply list_elem_of_In, in_map_iff in H as (q & [= En ->] & Hin). apply list_elem_of_In in Hin. unfold sortedParts in Hin.
  rewrite merge_sort_Permutation in Hin. apply list_elem_of_In, in_map_iff in Hin as ([k q'] & Eq & Hin). cbn in Eq. subst q'. apply list_elem_of_In, elem_of_map_to_list in Hin.
  destruct (partsByNumber_spec parts k) as [H1 _]. destruct (H1 p Hin) as (name & f & d & _ & _ & Ep). rewrite Ep in En. cbn in En. by subst.
Qed.

Context `{!PublisherLaws V}.

(** Files at other names are kept. *)
Definition framed (dest : string) (s s' : MP) : Prop := forall p, p <> dest -> pub_file (mp_volume s') p = pub_file (mp_volume s) p.
#[local] Instance framed_preorder dest : PreOrder (framed dest).
Proof. split; [intros s p Hp; done|]. intros s1 s2 s3 H1 H2 p Hp. rewrite H2, H1 by done. done. Qed.
Lemma onlyFaults_framed dest s s' : onlyFaults s s' -> framed dest s s'.
Proof. intros [l ->] p _. done. Qed.

Definition assembled (D : UploadDir) (parts : list Part) (object etag : string) : Prop :=
  exists bodies, Forall2 (copied D) parts bodies /\ object = scat bodies /\ etag = EncodeToString (md5 (scat (map md5 bodies))) +:+ "-" +:+ FormatInt (Z.of_nat (length parts)).

Lemma triple_assembleTail id D parts size dest pre (s1 : MP) : mp_staging s1 !! id = Some D ->
  triple (onlyFaults s1)
    (do! sysM then
     let! out := copyParts md5 id parts "" "" 0 in
     let '(bytes, raws, written) := out in
     do! (if negb (written =? size) || negb (slen bytes =? size) then failS ESys else retS tt) then
     do! sysM then do! sysM then
     let! s := getS in
     let '(published, v) := pub_publishIf dest bytes pre (mp_volume s) in
     do! modifyS (set_volume v) then
     match published with
     | None => failS EPublish
     | Some info => retS (EncodeToString (md5 raws) +:+ "-" +:+ FormatInt (Z.of_nat (length parts)), info)
     end)
    (fun out s' => exists object l, assembled D parts object out.1 /\ slen object = size /\
       (pub_publishIf dest object pre (mp_volume s1)).1 = Some out.2 /\ s' = set_volume (pub_publishIf dest object pre (mp_volume s1)).2 (set_mfaults l s1))
    (fun _ s' => onlyFaults s1 s' \/ exists object etag l, assembled D parts object etag /\ slen object = size /\
       (pub_publishIf dest object pre (mp_volume s1)).1 = None /\ s' = set_volume (pub_publishIf dest object pre (mp_volume s1)).2 (set_mfaults l s1)).
Proof.
  intros ED. set (F := fun (_ : mperr) s' => _ \/ _). assert (forall {A} (c : SE MP mperr A), keeps onlyFaults c -> triple (onlyFaults s1) c (fun _ => onlyFaults s1) F) as Hk.
  { intros A c Hc. eapply triple_conseq; [apply (triple_keeps onlyFaults (onlyFaults s1) c Hc)|done|done|by intros e t Ht; left]. intros t t' ? ?. by etrans. }
  eapply triple_bind; [apply Hk, sysM_onlyFaults|]. intros [].
  apply (triple_bind _ _ _ (fun out t => (exists bodies, Forall2 (copied D) parts bodies /\ out.1.1 = scat bodies /\ out.1.2 = scat (map md5 bodies)) /\ onlyFaults s1 t)).
  { intros t Ht. pose proof (copyParts_onlyFaults id parts "" "" 0 t) as Hc. destruct (copyParts md5 id parts "" "" 0 t) as [[[[b r] w]|e] t'] eqn:E; cbn in Hc; [|left; by etrans].
    split; [|by etrans]. destruct Ht as [l ->]. eapply copyParts_spec in E as (bodies & HF & -> & ->); [|exact ED]. by exists bodies. }
  intros [[bytes raws] w]. apply triple_pre. intros (bodies & HF & E1 & E2). cbn in E1, E2. subst bytes raws.
  apply (triple_bind _ _ _ (fun _ t => slen (scat bodies) = size /\ onlyFaults s1 t)).
  { destruct (_ || _) eqn:Ew; [apply triple_fail; by left|]. apply triple_ret. intros t Ht. split; [|done]. apply orb_false_iff in Ew as [_ Ew%negb_false_iff%Z.eqb_eq]. done. }
  intros []. apply triple_pre. intros Hsz. eapply triple_bind; [apply Hk, sysM_onlyFaults|]. intros []. eapply triple_bind; [apply Hk, sysM_onlyFaults|]. intros [].
  intros t [l ->]. unfold bindS, getS, modifyS. cbn [mp_volume set_mfaults]. assert (assembled D parts (scat bodies) (EncodeToString (md5 (scat (map md5 bodies))) +:+ "-" +:+ FormatInt (Z.of_nat (length parts)))) as HA by (by exists bodies).
  destruct (pub_publishIf dest (scat bodies) pre (mp_volume s1)) as [[info|] v] eqn:Ep; cbn.
  - exists (scat bodies), l. by rewrite Ep.
  - right. eexists (scat bodies), _, l. rewrite Ep. by split.
Qed.
Lemma assemble_spec id D parts size dest pre (s : MP) r s' : mp_staging s !! id = Some D -> assemble md5 id parts size dest pre s = (r, s') ->
  framed dest s s' /\
  match r with
  | Ok (etag, info) => exists object, assembled D parts object etag /\ slen object = size /\ fi_size info = size /\ pub_file (mp_volume s') dest = Some (object, info)
  | Err _ => pub_file (mp_volume s') dest = pub_file (mp_volume s) dest \/ exists object etag info, assembled D parts object etag /\ pub_file (mp_volume s') dest = Some (object, info)
  end.
Proof.
  intros ED H. unfold assemble in H. rewrite bindS_run in H. cbn [getS] in H. pose proof (pub_mkdir_frame (Dir dest) (mp_volume s)) as Hmk.
  destruct (pub_mkdir (Dir dest) (mp_volume s)) as [made v]. cbn [snd] in Hmk. rewrite bindS_run in H. cbn [modifyS] in H. set (s1 := set_volume v s) in H.
  assert (forall t, onlyFaults s1 t -> framed dest s t /\ pub_file (mp_volume t) dest = pub_file (mp_volume s) dest) as Hsame by (intros t [l ->]; split; [intros p _|]; apply Hmk).
  rewrite bindS_run in H. destruct made; [|injection H as <- <-; destruct (Hsame s1) as [? ?]; [reflexivity|auto]]. cbn [retS] in H.
  pose proof (triple_assembleTail id D parts size dest pre s1 ED s1 ltac:(reflexivity)) as HT. rewrite H in HT.
  assert (forall object l p, p <> dest -> pub_file (mp_volume (set_volume (pub_publishIf dest object pre (mp_volume s1)).2 (set_mfaults l s1))) p = pub_file (mp_volume s) p) as Hfr.
  { intros object l p Hp. cbn. rewrite pub_frame by done. apply Hmk. }
  destruct r as [[etag info]|e].
  - destruct HT as (object & l & HA & Hsz & Hok & ->). split; [intros p Hp; by apply Hfr|]. exists object. cbn [fst snd] in *. destruct (pub_ok _ _ _ _ _ Hok) as (P1 & P2 & _). rewrite P2. done.
  - destruct HT as [HT|(object & etag & l & HA & Hsz & Herr & ->)]; [destruct (Hsame _ HT); auto|]. split; [intros p Hp; by apply Hfr|]. cbn [mp_volume set_volume].
    destruct (pub_err _ _ _ _ Herr) as [->|(info & ->)]; [left; apply Hmk|right; by exists object, etag, info].
Qed.

(** *** The whole completion *)

Definition volumeKept (s s' : MP) : Prop := mp_volume s' = mp_volume s.
#[local] Instance volumeKept_preorder : PreOrder volumeKept.
Proof. split; [done|]. intros s1 s2 s3 H1 H2. unfold volumeKept in *. congruence. Qed.
Lemma sysM_volumeKept : keeps volumeKept sysM.
Proof. intros s. unfold sysM. by destruct (mp_faults s) as [|[] l]. Qed.
Lemma quietly_keeps (c : SE MP mperr unit) : keeps volumeKept c -> keeps volumeKept (quietly c).
Proof. intros H s. specialize (H s). unfold quietly, bindS, tryS. by destruct (c s) as [[]?]. Qed.
Lemma record_volumeKept up want dest etag info now : keeps volumeKept (recordCompletion sha256Hex root up want dest etag info now).
Proof. unfold recordCompletion. do 5 (apply keeps_bind; [apply _|apply sysM_volumeKept|]; intros _). apply keeps_bind; [apply _|by apply keeps_modify|]. intros _. apply sysM_volumeKept. Qed.
Lemma remove_volumeKept id : keeps volumeKept (removeStagingEntry id).
Proof.
  unfold removeStagingEntry. apply keeps_bind; [apply _|apply sysM_volumeKept|]. intros _. apply keeps_bind; [apply _| |].
  - unfold removeAllDir. apply keeps_dirOf. intros [D|]; [|apply sysM_volumeKept]. apply keeps_bind; [apply _| |].
    + apply keeps_for; [apply _|]. intros name. apply keeps_bind; [apply _|apply sysM_volumeKept|]. intros _. by apply keeps_modify.
    + intros _. apply keeps_bind; [apply _|apply sysM_volumeKept|]. intros _. apply keeps_bind; [apply _|by apply keeps_modify|]. intros _.
      apply keeps_bind; [apply _|apply sysM_volumeKept|]. intros _. by apply keeps_modify.
  - intros _. unfold syncStaging. apply keeps_bind; [apply _|apply sysM_volumeKept|]. intros _. by apply keeps_modify.
Qed.

(** What the object of a completion is made of. *)
Record completes (D : UploadDir) (want : list CompletePart) (object etag : string) : Prop := mkCompletes {
  ct_order : StronglySorted Z.lt (map cp_Number want);
  ct_bodies : exists bodies, object = scat bodies /\
    Forall2 (fun w b => etagMatches (cp_ETag w) (md5hex b) = true /\ exists f, ud_parts D !! partFileName (cp_Number w) (md5hex b) = Some f /\ pf_bytes f = b) want bodies /\
    Forall (fun b => MinPartBytes limits <= slen b) (removelast bodies) /\
    etag = EncodeToString (md5 (scat (map md5 bodies))) +:+ "-" +:+ FormatInt (Z.of_nat (length want))
}.
Lemma assembled_completes D want parts object etag : checkOrder limits 0 want = None -> Forall2 (selects (partsByNumber (ud_parts D))) want parts ->
  Forall (fun p => MinPartBytes limits <= pt_Size p) (removelast parts) -> assembled D parts object etag -> completes D want object etag.
Proof.
  intros Ho Hs Hmin (bodies & HF & -> & ->). split; [by apply checkOrder_spec in Ho as [_ ?]|]. exists bodies. split; [done|]. rewrite (Forall2_length _ _ _ Hs). split; [|split; [|done]].
  - clear Hmin Ho. revert bodies HF. induction Hs as [|w p want parts [Hp He] _ IH]; intros bodies HF; inversion HF as [|? b ? bodies' Hc HF']; subst; constructor; [|by apply IH].
    destruct Hc as ((f & Hf & Hb) & Hm & _). rewrite Hm. split; [done|]. exists f. destruct (partsByNumber_spec (ud_parts D) (cp_Number w)) as [H1 _].
    destruct (H1 p Hp) as (name & g & d & _ & _ & ->). done.
  - clear Hs Ho. revert Hmin. induction HF as [|p b parts bodies Hc HF IH]; intros Hmin; [constructor|]. destruct HF as [|p' b' parts bodies ? ?]; [constructor|].
    cbn [removelast] in Hmin |- *. inversion Hmin as [|? ? Hp Hrest]; subst. constructor; [destruct Hc as (_ & _ & ->); done|by apply IH].
Qed.

Lemma completeStaged_spec up want dest pre now (s : MP) D r s' : want <> [] -> mp_staging s !! up_ID up = Some D ->
  completeStaged md5 sha256Hex root limits up want dest pre now s = (r, s') ->
  framed (destName root dest) s s' /\
  match r with
  | Ok res => exists object, completes D want object (cr_ETag res) /\ pub_file (mp_volume s') (destName root dest) = Some (object, cr_Info res) /\
      cr_Size res = slen object /\ cr_Parts res = Z.of_nat (length want) /\ cr_Repeated res = false /\ (0 < MaxObjectBytes limits -> slen object <= MaxObjectBytes limits)
  | Err _ => pub_file (mp_volume s') (destName root dest) = pub_file (mp_volume s) (destName root dest) \/
      exists object etag info, completes D want object etag /\ pub_file (mp_volume s') (destName root dest) = Some (object, info)
  end.
Proof.
  intros Hw ED H. unfold completeStaged in H. rewrite bindS_run in H. pose proof (stagedParts_onlyFaults (up_ID up) s) as Hof.
  destruct (stagedParts (up_ID up) s) as [[staged|e] s1] eqn:Est; cbn [snd] in Hof; [|injection H as <- <-; destruct Hof as [l ->]; split; [by intros p _|by left]].
  assert (staged = sortedParts (partsByNumber (ud_parts D))) as ->.
  { unfold stagedParts in Est. apply bindS_Ok in Est as ([] & s0 & E0 & Est). pose proof (sysM_onlyFaults s) as [l El]. rewrite E0 in El. cbn in El. subst s0.
    rewrite dirOf_run in Est. cbn [mp_staging set_mfaults] in Est. rewrite ED in Est. by injection Est as <- _. }
  destruct Hof as [l ->]. destruct (checkOrder limits 0 want) as [e|] eqn:Eo; [injection H as <- <-; split; [by intros p _|by left]|].
  rewrite bindS_run in H. unfold liftS in H. destruct (selectParts limits _ 0 want) as [[sel total]|e] eqn:Es; [|injection H as <- <-; split; [by intros p _|by left]].
  apply selectParts_spec in Es as (S1 & S2 & S3). assert (Forall2 (selects (partsByNumber (ud_parts D))) want sel) as S1'.
  { eapply Forall2_impl; [exact S1|]. intros w p [Hp ?]. split; [by apply stagedMap_spec|done]. }
  rewrite bindS_run in H. destruct (assemble md5 (up_ID up) sel total (destName root dest) pre (set_mfaults l s)) as [[[etag info]|e] s2] eqn:Ea.
  all: apply assemble_spec with (D := D) in Ea as [Hfr Ha]; [|done].
  - destruct Ha as (object & HA & Hsz & Hi & Hpub). rewrite bindS_run in H.
    pose proof (quietly_keeps _ (record_volumeKept up want dest etag info now) s2) as K1. destruct (quietly (recordCompletion _ _ _ _ _ _ _ _) s2) as [[[]|e] s3] eqn:Eq; [|unfold quietly, bindS, tryS in Eq; by destruct (recordCompletion _ _ _ _ _ _ _ _ _)].
    rewrite bindS_run in H. pose proof (quietly_keeps _ (remove_volumeKept (up_ID up)) s3) as K2. destruct (quietly (removeStagingEntry (up_ID up)) s3) as [[[]|e] s4] eqn:Eq2; [|unfold quietly, bindS, tryS in Eq2; by destruct (removeStagingEntry _ _)].
    injection H as <- <-. cbn [snd] in K1, K2. unfold volumeKept in K1, K2. assert (mp_volume s4 = mp_volume s2) as Ev by congruence. split; [intros p Hp; rewrite Ev; by apply Hfr|].
    exists object. cbn. rewrite Ev, Hi, Hsz, <- (Forall2_length _ _ _ S1). split; [by eapply assembled_completes|]. split; [done|]. split; [done|]. split; [done|]. split; [done|]. intros Hpos. by apply S3.
  - injection H as <- <-. split; [exact Hfr|]. destruct Ha as [?|(object & etag & info & HA & ?)]; [by left|right]. exists object, etag, info. split; [by eapply assembled_completes|done].
Qed.
Lemma readMeta_spec id (s : MP) up s1 : readMeta id s = (Ok up, s1) -> up_ID up = id /\ exists D, mp_staging s !! id = Some D.
Proof.
  unfold readMeta. destruct (negb _); [done|]. intros H. apply bindS_Ok in H as ([] & s0 & E0 & H). pose proof (sysM_onlyFaults s) as [l El]. rewrite E0 in El. cbn in El. subst s0.
  rewrite dirOf_run in H. cbn [mp_staging set_mfaults] in H. destruct (mp_staging s !! id) as [[[u|] ps sc t]|]; [|done..]. destruct (String.eqb_spec (up_ID u) id) as [E|]; [|done].
  injection H as <- _. split; [done|]. by eexists.
Qed.

Lemma repeat_onlyFaults id want dest : keeps onlyFaults (repeatCompletion sha256Hex root id want dest).
Proof.
  unfold repeatCompletion. apply keeps_bind; [apply _|apply sysM_onlyFaults|]. intros _. intros s. rewrite bindS_run. cbn [getS]. destruct (mp_completed s !! id) as [[rec t]|]; [|reflexivity].
  destruct (_ || _); [reflexivity|]. destruct (pub_file _ _) as [[b info]|]; [|reflexivity]. destruct (_ || _); reflexivity.
Qed.

(** C27. A completed upload is exactly what was asked for: the object at the destination is the
    bytes of the staged parts the list names, in ascending order, each with the digest the
    client gave and all but the last of the minimum size, within the object limit; the ETag is
    S3's composite of the parts' digests. A completion that fails leaves the destination as it
    was, or with that complete object; no other object changes either way. An answer marked as
    repeated changes nothing. *)
Theorem CompleteIf_exact id want dest pre now (s : MP) r s' : CompleteIf md5 sha256Hex root limits id want dest pre now s = (r, s') ->
  framed (destName root dest) s s' /\
  match r with
  | Ok res =>
      if cr_Repeated res then mp_volume s' = mp_volume s
      else exists D object, mp_staging s !! id = Some D /\ completes D want object (cr_ETag res) /\ pub_file (mp_volume s') (destName root dest) = Some (object, cr_Info res) /\
        cr_Size res = slen object /\ cr_Parts res = Z.of_nat (length want) /\ (0 < MaxObjectBytes limits -> slen object <= MaxObjectBytes limits)
  | Err _ => pub_file (mp_volume s') (destName root dest) = pub_file (mp_volume s) (destName root dest) \/
      exists D object etag info, mp_staging s !! id = Some D /\ completes D want object etag /\ pub_file (mp_volume s') (destName root dest) = Some (object, info)
  end.
Proof.
  unfold CompleteIf. destruct (negb (ValidUploadID id)); [intros [= <- <-]; split; [by intros p _|by left]|]. case_bool_decide as Hw; [intros [= <- <-]; split; [by intros p _|by left]|].
  rewrite bindS_run. cbn [getS]. destruct (negb (validateDest _ _ _)); [intros [= <- <-]; split; [by intros p _|by left]|]. rewrite bindS_run. unfold tryS.
  pose proof (readMeta_onlyFaults id s) as Hof. destruct (readMeta id s) as [[up|e] s1] eqn:Er; cbn [snd] in Hof; destruct Hof as [l El]; subst s1.
  - apply readMeta_spec in Er as (<- & D & ED). intros H. apply completeStaged_spec with (D := D) in H as [Hfr H]; [|done|done]. split; [exact Hfr|]. destruct r as [res|e].
    + destruct H as (object & H1 & H2 & H3 & H4 & -> & H6). exists D, object. done.
    + destruct H as [?|(object & etag & info & ? & ?)]; [by left|right]. by exists D, object, etag, info.
  - assert (forall e', (Err e', set_mfaults l s) = (r, s') -> framed (destName root dest) s s' /\ match r with Ok res => False | Err _ => pub_file (mp_volume s') (destName root dest) = pub_file (mp_volume s) (destName root dest) end) as Hfail
      by (intros e' [= <- <-]; split; [by intros p _|done]).
    destruct e; try (intros H; apply Hfail in H as [? H]; split; [done|]; destruct r; [done|by left]).
    intros H. pose proof (repeat_onlyFaults id want dest (set_mfaults l s)) as [l2 El2]. rewrite H in El2. cbn in El2. subst s'. split; [by intros p _|]. destruct r as [res|]; [|by left].
    unfold repeatCompletion in H. apply bindS_Ok in H as ([] & s0 & E0 & H). rewrite bindS_run in H. cbn [getS] in H. destruct (mp_completed s0 !! id) as [[rec t]|]; [|done].
    destruct (_ || _); [done|]. destruct (pub_file _ _) as [[b info]|]; [|done]. destruct (_ || _); [done|]. by injection H as <- _.
Qed.

(** *** Retries *)

Lemma sysM_calm (s : MP) : mp_faults s = [] -> sysM s = (Ok tt, s).
Proof. intros E. unfold sysM. by rewrite E. Qed.

Lemma sysM_then {A} (k : unit -> SE MP mperr A) (s : MP) : mp_faults s = [] -> bindS sysM k s = k tt s.
Proof. intros E. by rewrite bindS_run, (sysM_calm s E). Qed.

(** Only the upload's own directory changed. *)
Record beside (id : string) (s s' : MP) : Prop := mkBeside {
  bs_staging : delete id (mp_staging s') = delete id (mp_staging s);
  bs_completed : mp_completed s' = mp_completed s; bs_volume : mp_volume s' = mp_volume s; bs_faults : mp_faults s' = mp_faults s
}.
#[local] Instance beside_preorder id : PreOrder (beside id).
Proof. split; [done|]. intros s1 s2 s3 [] []. split; congruence. Qed.
Lemma beside_updDir id f (s : MP) : beside id s (set_staging (alter f id (mp_staging s)) s).
Proof. split; cbn; try done. apply map_eq. intros k. destruct (decide (k = id)) as [->|Hne]; [by rewrite !lookup_delete_eq|]. by rewrite !lookup_delete_ne, lookup_alter_ne by done. Qed.

Lemma removeList_calm id L (s : MP) : mp_faults s = [] ->
  exists s', forS (fun name => do! sysM then updDir id (fun d => ud_set_parts (delete name (ud_parts d)) d)) L s = (Ok tt, s') /\ beside id s s'.
Proof.
  revert s. induction L as [|name L IH]; intros s Hc; cbn [forS]; [by exists s|]. rewrite !bindS_run, (sysM_calm s Hc). cbn [updDir modifyS].
  set (s1 := set_staging _ s). destruct (IH s1) as (s' & E & Hb); [done|]. exists s'. split; [exact E|]. etrans; [apply beside_updDir|exact Hb].
Qed.

Lemma removeStaging_calm id (s : MP) : mp_faults s = [] -> exists s', removeStagingEntry id s = (Ok tt, s') /\ mp_staging s' = delete id (mp_staging s) /\ mp_completed s' = mp_completed s /\ mp_volume s' = mp_volume s.
Proof.
  intros Hc. unfold removeStagingEntry. rewrite bindS_run, (sysM_calm s Hc), bindS_run. unfold removeAllDir. rewrite dirOf_run. destruct (mp_staging s !! id) as [D|] eqn:ED.
  - destruct (removeList_calm id (map fst (map_to_list (ud_parts D))) s Hc) as (s1 & E1 & [B1 B2 B3 B4]). rewrite bindS_run, E1, bindS_run, sysM_calm by congruence.
    rewrite bindS_run. cbn [updDir modifyS]. rewrite bindS_run, sysM_calm by (cbn; congruence). cbn [modifyS]. unfold syncStaging. rewrite bindS_run, sysM_calm by (cbn; congruence).
    eexists. split; [reflexivity|]. cbn. split; [|done]. rewrite <- B1. apply map_eq. intros k. destruct (decide (k = id)) as [->|Hne]; [by rewrite !lookup_delete_eq|].
    by rewrite !lookup_delete_ne, lookup_alter_ne by done.
  - rewrite (sysM_calm s Hc). unfold syncStaging. rewrite bindS_run, (sysM_calm s Hc). eexists. split; [reflexivity|]. cbn. split; [|done]. by rewrite delete_id.
Qed.
Definition calmKept (s s' : MP) : Prop := mp_faults s = [] -> mp_faults s' = [].
#[local] Instance calmKept_preorder : PreOrder calmKept.
Proof. split; [by intros s H|]. intros s1 s2 s3 H1 H2 H. auto. Qed.
Lemma sysM_calmKept : keeps calmKept sysM.
Proof. intros s H. by rewrite (sysM_calm s H). Qed.
Lemma copyParts_calmKept id parts bytes raws w : keeps calmKept (copyParts (V := V) md5 id parts bytes raws w).
Proof.
  revert bytes raws w. induction parts as [|p parts IH]; intros bytes raws w; cbn [copyParts]; [apply keeps_ret, _|]. apply keeps_bind; [apply _|apply sysM_calmKept|]. intros _. apply keeps_dirOf.
  intros [d|]; [|apply keeps_fail, _]. destruct (ud_parts d !! _); [|apply keeps_fail, _]. apply keeps_bind; [apply _|apply sysM_calmKept|]. intros _. destruct (_ || _); [apply keeps_fail, _|apply IH].
Qed.
Lemma assemble_calmKept id parts size dest pre : keeps calmKept (assemble md5 id parts size dest pre).
Proof.
  intros s. unfold assemble. rewrite bindS_run. cbn [getS]. destruct (pub_mkdir _ _) as [made v]. revert s.
  change (keeps calmKept (do! modifyS (set_volume v) then do! (if made then retS tt else failS EPublish) then do! sysM then
    let! out := copyParts md5 id parts "" "" 0 in let '(bytes, raws, written) := out in
    do! (if negb (written =? size) || negb (slen bytes =? size) then failS ESys else retS tt) then do! sysM then do! sysM then
    let! s := getS in let '(published, v) := pub_publishIf dest bytes pre (mp_volume s) in do! modifyS (set_volume v) then
    match published with None => failS EPublish | Some info => retS (EncodeToString (md5 raws) +:+ "-" +:+ FormatInt (Z.of_nat (length parts)), info) end)).
  apply keeps_bind; [apply _|apply keeps_modify; by intros ? ?|]. intros _. apply keeps_bind; [apply _|destruct made; [apply keeps_ret, _|apply keeps_fail, _]|]. intros _.
  apply keeps_bind; [apply _|apply sysM_calmKept|]. intros _. apply keeps_bind; [apply _|apply copyParts_calmKept|]. intros [[bytes raws] w].
  apply keeps_bind; [apply _|destruct (_ || _); [apply keeps_fail, _|apply keeps_ret, _]|]. intros _. do 2 (apply keeps_bind; [apply _|apply sysM_calmKept|]; intros _).
  intros t. rewrite bindS_run. cbn [getS]. destruct (pub_publishIf _ _ _ _) as [[info|] v']; by intros ?.
Qed.

Lemma completeStaged_calm up want dest pre now (s : MP) res s' : mp_faults s = [] -> completeStaged md5 sha256Hex root limits up want dest pre now s = (Ok res, s') ->
  mp_staging s' !! up_ID up = None /\ exists t, mp_completed s' !! up_ID up = Some (mkCompletion (up_ID up) (cr_Bucket res) (cr_Key res) (destName root dest) (partListDigest sha256Hex want)
    (Z.of_nat (length want)) (cr_ETag res) (cr_Size res) (fi_mtime (cr_Info res)), t) /\ cr_Repeated res = false /\ cr_Parts res = Z.of_nat (length want).
Proof.
  intros Hc H. unfold completeStaged in H. apply bindS_Ok in H as (staged & s1 & E1 & H). assert (s1 = s) as ->.
  { unfold stagedParts in E1. rewrite bindS_run, (sysM_calm s Hc), dirOf_run in E1. destruct (mp_staging s !! up_ID up); [by injection E1|done]. }
  destruct (checkOrder limits 0 want); [done|]. apply bindS_Ok in H as ([sel total] & s1 & E2 & H). unfold liftS in E2. injection E2 as Es <-. apply selectParts_spec in Es as (S1 & _ & _).
  apply bindS_Ok in H as ([etag info] & s2 & E3 & H). pose proof (assemble_calmKept (up_ID up) sel total (destName root dest) pre s) as Hk. rewrite E3 in Hk. specialize (Hk Hc). cbn in Hk.
  rewrite bindS_run in H. unfold quietly at 1 in H. rewrite bindS_run in H. unfold tryS at 1 in H. unfold recordCompletion in H. rewrite !(fun T k => @sysM_then T k s2 Hk), bindS_run in H. cbn [modifyS] in H.
  rewrite sysM_calm in H by done. cbn [retS] in H. rewrite bindS_run in H. set (s3 := set_completed _ s2) in H. destruct (removeStaging_calm (up_ID up) s3) as (s4 & E4 & R1 & R2 & _); [done|].
  unfold quietly in H. rewrite bindS_run in H. unfold tryS in H. rewrite E4 in H. injection H as <- <-. rewrite R1, R2. cbn. rewrite lookup_delete_eq, lookup_insert_eq.
  rewrite <- (Forall2_length _ _ _ S1). split; [done|]. by eexists.
Qed.

(** Completing twice is safe: once a completion went through, repeating it gives the same
    answer, marked as repeated and without touching anything, for as long as the object is the
    one it produced and the record is kept; with another list of parts it is refused. *)
Theorem CompleteIf_retry id want dest pre now (s : MP) res s' pre2 now2 s2 b info want2 : mp_faults s = [] ->
  CompleteIf md5 sha256Hex root limits id want dest pre now s = (Ok res, s') -> cr_Repeated res = false ->
  mp_faults s2 = [] -> mp_completed s2 !! id = mp_completed s' !! id -> mp_staging s2 !! id = mp_staging s' !! id -> validateDest root (mp_volume s2) dest = true ->
  pub_file (mp_volume s2) (destName root dest) = Some (b, info) -> fi_size info = cr_Size res -> fi_mtime info = fi_mtime (cr_Info res) -> want2 <> [] ->
  CompleteIf md5 sha256Hex root limits id want2 dest pre2 now2 s2 =
    (if partListDigest sha256Hex want =s partListDigest sha256Hex want2
     then Ok (mkResult (cr_Bucket res) (cr_Key res) (cr_ETag res) (cr_Size res) (cr_Parts res) info true) else Err ErrNoSuchUpload, s2).
Proof.
  intros Hc H Hr Hc2 E1 E2 Hv Hf Hsz Hmt Hw2. unfold CompleteIf in H. destruct (ValidUploadID id) eqn:Eid; [|done]. cbn [negb] in H. case_bool_decide as Hw; [done|].
  rewrite bindS_run in H. cbn [getS] in H. destruct (negb (validateDest _ _ _)); [done|]. rewrite bindS_run in H. unfold tryS in H.
  pose proof (readMeta_onlyFaults id s) as Hof. destruct (readMeta id s) as [[up|e] s1] eqn:Er; cbn [snd] in Hof.
  2: { destruct e; try discriminate H. unfold repeatCompletion in H. apply bindS_Ok in H as ([] & s0 & E0 & H). rewrite bindS_run in H. cbn [getS] in H. destruct (mp_completed s0 !! id) as [[rec t]|]; [|done].
       destruct (_ || _); [done|]. destruct (pub_file _ _) as [[b' info']|]; [|done]. destruct (_ || _); [done|]. injection H as <- _. done. }
  assert (s1 = s) as ->. { unfold readMeta in Er. rewrite Eid in Er. cbn [negb] in Er. rewrite bindS_run, (sysM_calm s Hc), dirOf_run in Er. destruct (mp_staging s !! id) as [[[u|] ? ? ?]|]; [|done..]. destruct (up_ID u =s id); [by injection Er|done]. }
  apply readMeta_spec in Er as [<- _]. apply completeStaged_calm in H as (H1 & t & H2 & _ & H4); [|done]. rewrite H1 in E2. rewrite H2 in E1.
  unfold CompleteIf. rewrite Eid, bool_decide_false by done. cbn [negb]. rewrite bindS_run. cbn [getS]. rewrite Hv. cbn [negb]. rewrite bindS_run. unfold tryS, readMeta. rewrite Eid. cbn [negb].
  rewrite bindS_run, (sysM_calm s2 Hc2), dirOf_run, E2. cbn. unfold repeatCompletion. rewrite bindS_run, (sysM_calm s2 Hc2), bindS_run. cbn [getS]. rewrite E1. cbn [cm_UploadID cm_Dest cm_Parts cm_Size cm_ModTime].
  rewrite !String.eqb_refl. cbn [negb orb]. destruct (partListDigest sha256Hex want =s partListDigest sha256Hex want2); [|done]. cbn [negb]. rewrite Hf, Hsz, Hmt, !Z.eqb_refl. cbn. by rewrite H4.
Qed.
End Complete.

(** ** Cleanup *)

Section Cleanup.
Context {V : Type} `{!Publisher V}.
Context (limits : Limits) (id : string).
Abbreviation MP := (@MP V).

(** The upload's directory is untouched. *)
Definition dirKept (s s' : MP) : Prop := mp_staging s' !! id = mp_staging s !! id.
#[local] Instance dirKept_preorder : PreOrder dirKept.
Proof. split; [done|]. intros s1 s2 s3 H1 H2. unfold dirKept in *. congruence. Qed.
Lemma sysM_dirKept : keeps dirKept sysM.
Proof. intros s. unfold sysM. by destruct (mp_faults s) as [|[] l]. Qed.
Lemma quietly_dirKept (c : SE MP mperr unit) : keeps dirKept c -> keeps dirKept (quietly c).
Proof. intros H s. specialize (H s). unfold quietly, bindS, tryS. by destruct (c s) as [[]?]. Qed.
Lemma updDir_dirKept id' f : id' <> id -> keeps dirKept (updDir id' f).
Proof. intros Hne. apply keeps_modify. intros s. unfold dirKept. cbn. by rewrite lookup_alter_ne. Qed.

Lemma removeStaging_dirKept id' : id' <> id -> keeps dirKept (removeStagingEntry id').
Proof.
  intros Hne. unfold removeStagingEntry. apply keeps_bind; [apply _|apply sysM_dirKept|]. intros _. apply keeps_bind; [apply _| |].
  - unfold removeAllDir. apply keeps_dirOf. intros [D|]; [|apply sysM_dirKept]. apply keeps_bind; [apply _| |].
    + apply keeps_for; [apply _|]. intros name. apply keeps_bind; [apply _|apply sysM_dirKept|]. intros _. by apply updDir_dirKept.
    + intros _. apply keeps_bind; [apply _|apply sysM_dirKept|]. intros _. apply keeps_bind; [apply _|by apply updDir_dirKept|]. intros _.
      apply keeps_bind; [apply _|apply sysM_dirKept|]. intros _. apply keeps_modify. intros s. unfold dirKept. cbn. by rewrite lookup_delete_ne.
  - intros _. unfold syncStaging. apply keeps_bind; [apply _|apply sysM_dirKept|]. intros _. by apply keeps_modify.
Qed.

Lemma cleanupCompletions_dirKept now : keeps dirKept (cleanupCompletions limits now).
Proof.
  unfold cleanupCompletions. apply keeps_bind; [apply _|intros s; pose proof (sysM_dirKept s); unfold tryS; by destruct (sysM s)|]. intros [[]|e]; [|apply keeps_ret, _].
  intros s. rewrite bindS_run. cbn [getS]. apply keeps_for; [apply _|]. intros [k [rec t]]. unfold cleanupRecord. destruct (_ || _); [apply keeps_ret, _|].
  apply quietly_dirKept. do 2 (apply keeps_bind; [apply _|apply sysM_dirKept|]; intros _). apply keeps_bind; [apply _|by apply keeps_modify|]. intros _. apply sysM_dirKept.
Qed.

(** Cleanup never takes an upload that is in use: one whose newest file or directory time is
    within the retention period stays as it is, whatever else is removed and whatever fails. *)
Theorem Cleanup_spares_active meanwhile now (s : MP) D : ValidUploadID id = true -> mp_staging s !! id = Some D -> now - lastActivity D <= UploadTTL limits ->
  (forall t, mp_staging (meanwhile t) !! id = mp_staging t !! id) ->
  mp_staging (Cleanup limits meanwhile now s).2 !! id = Some D.
Proof.
  intros Hid ED Hact Hm. assert (keeps (fun t t' : MP => mp_staging t !! id = Some D -> mp_staging t' !! id = Some D) (Cleanup limits meanwhile now)) as H; [|by apply H].
  assert (PreOrder (fun t t' : MP => mp_staging t !! id = Some D -> mp_staging t' !! id = Some D)) as HP by (split; [by intros t|intros t1 t2 t3; auto]).
  assert (forall {A} (c : SE MP mperr A), keeps dirKept c -> keeps (fun t t' : MP => mp_staging t !! id = Some D -> mp_staging t' !! id = Some D) c) as Hk by (intros A c Hc t Ht; rewrite (Hc t); done).
  unfold Cleanup. apply keeps_bind; [done|apply Hk, cleanupCompletions_dirKept|]. intros _. apply keeps_bind; [done|apply Hk; intros t; pose proof (sysM_dirKept t); unfold tryS; by destruct (sysM t)|].
  intros [[]|e]; [|by apply keeps_ret]. intros t. rewrite bindS_run. cbn [getS]. apply keeps_for; [done|]. intros id'. unfold cleanupEntry. destruct (decide (id' = id)) as [->|Hne].
  - intros u Eu. rewrite dirOf_run, Eu, Hid. cbn [negb]. rewrite (proj2 (Z.leb_le _ _) Hact). done.
  - apply Hk, keeps_dirOf. intros [d|]; [|apply keeps_ret, _]. destruct (negb (ValidUploadID id')); [destruct (_ <? _); [by apply quietly_dirKept, removeStaging_dirKept|apply keeps_ret, _]|].
    destruct (_ <=? _); [apply keeps_ret, _|]. apply keeps_bind; [apply _|apply keeps_modify; intros u; apply Hm|]. intros _. apply keeps_dirOf. intros [d'|]; [|apply keeps_ret, _].
    destruct (_ <? _); [by apply quietly_dirKept, removeStaging_dirKept|apply keeps_ret, _].
Qed.
End Cleanup.

(** ** Pages of parts *)

Lemma sortedParts_sorted m : (forall n p, m !! n = Some p -> pt_Number p = n) -> StronglySorted (fun a b => pt_Number a < pt_Number b) (sortedParts m).
Proof.
  intros Hn. unfold sortedParts. pose proof (Sorted_merge_sort numberLe (map snd (map_to_list m))) as Hs. apply Sorted_StronglySorted in Hs; [|intros a b c; unfold numberLe; lia].
  assert (NoDup (map pt_Number (merge_sort numberLe (map snd (map_to_list m))))) as Hd.
  { rewrite merge_sort_Permutation, map_map. assert (map (fun x => pt_Number x.2) (map_to_list m) = (map_to_list m).*1) as ->; [|apply NoDup_fst_map_to_list].
    apply map_ext_in. intros [n p] Hin. apply list_elem_of_In, elem_of_map_to_list in Hin. by apply Hn. }
  revert Hs Hd. generalize (merge_sort numberLe (map snd (map_to_list m))) as l. intros l Hs. induction Hs as [|a l Hs IH Hf]; intros Hd; [constructor|]. cbn [map] in Hd. apply NoDup_cons in Hd as [Hni Hd].
  constructor; [by apply IH|]. rewrite Forall_forall in Hf |- *. intros b Hb. specialize (Hf b Hb). unfold numberLe in Hf. assert (pt_Number a <> pt_Number b); [|lia].
  intros E. apply Hni. rewrite E. apply list_elem_of_In, in_map, list_elem_of_In, Hb.
Qed.

Lemma filter_after l (x : Part) r m : StronglySorted (fun a b => pt_Number a < pt_Number b) (l ++ x :: r)%list -> Forall (fun p => m < pt_Number p) (l ++ x :: r)%list ->
  forall all, List.filter (fun p => m <? pt_Number p) all = (l ++ x :: r)%list -> List.filter (fun p => pt_Number x <? pt_Number p) all = r.
Proof.
  intros Hs Hm all E. assert (List.filter (fun p => pt_Number x <? pt_Number p) all = List.filter (fun p => pt_Number x <? pt_Number p) (l ++ x :: r)) as ->.
  { rewrite <- E. apply Forall_app in Hm as [_ Hm]. inversion_clear Hm as [|? ? Hx _]. clear E Hs. induction all as [|p all IH]; [done|]. cbn [List.filter]. destruct (Z.ltb_spec m (pt_Number p)); cbn [List.filter].
    - by rewrite IH.
    - rewrite (proj2 (Z.ltb_ge _ _)) by lia. done. }
  rewrite List.filter_app. cbn [List.filter]. rewrite Z.ltb_irrefl. clear E Hm. induction l as [|a l IH]; cbn [app List.filter] in *.
  - inversion_clear Hs as [|? ? _ Hf]. induction Hf as [|y r Hy _ IH]; [done|]. cbn [List.filter]. by rewrite (proj2 (Z.ltb_lt _ _) Hy), IH.
  - inversion_clear Hs as [|? ? Hs' Hf]. apply Forall_app in Hf as [_ Hf]. inversion_clear Hf as [|? ? Hx _]. rewrite (proj2 (Z.ltb_ge _ _)) by lia. by apply IH.
Qed.

(** Pages follow one another: what is past the marker is this page and, when it is cut short,
    what is past the marker it gives. *)
Lemma partsPage_follows all marker maxParts page truncated next : StronglySorted (fun a b => pt_Number a < pt_Number b) all -> 0 < maxParts ->
  partsPage all marker maxParts = (page, truncated, next) ->
  List.filter (fun p => marker <? pt_Number p) all = (page ++ (if truncated then List.filter (fun p => next <? pt_Number p) all else []))%list /\
  (truncated = true -> page <> [] /\ marker < next) /\ Z.of_nat (length page) <= maxParts.
Proof.
  intros Hs Hmax H. unfold partsPage in H. set (F := List.filter (fun p => marker <? pt_Number p) all) in *. rewrite (proj2 (Z.ltb_lt 0 maxParts)) in H by done. cbn [andb] in H.
  destruct (Z.ltb_spec maxParts (Z.of_nat (length F))) as [Hlt|Hge]; [|injection H as <- <- <-; rewrite app_nil_r; split; [done|]; split; [done|lia]].
  injection H as <- <- <-. assert (StronglySorted (fun a b => pt_Number a < pt_Number b) F) as HsF by (subst F; clear -Hs; induction Hs as [|a l Hs IH Hf]; cbn [List.filter]; [constructor|];
    destruct (marker <? pt_Number a); [|done]; constructor; [done|]; rewrite Forall_forall in *; intros b Hb; apply Hf; apply list_elem_of_In, filter_In in Hb as [? _]; by apply list_elem_of_In).
  assert (Forall (fun p => marker < pt_Number p) F) as HmF by (apply Forall_forall; intros p Hp; apply list_elem_of_In, filter_In in Hp as [_ ?]; by apply Z.ltb_lt).
  set (k := Z.to_nat maxParts). assert (exists l x, take k F = (l ++ [x])%list) as (l & x & Etk).
  { destruct (exists_last (l := take k F)) as (l & x & E); [|by exists l, x]. intros E. apply (f_equal (@length Part)) in E. rewrite length_take in E. cbn in E. lia. }
  rewrite Etk, map_app. cbn [map]. rewrite List.last_last. assert (F = l ++ x :: drop k F)%list as EF by (rewrite <- (take_drop k F) at 1; rewrite Etk, <- app_assoc; done).
  split; [|split].
  - rewrite (filter_after l x (drop k F) marker); [by rewrite <- app_assoc|by rewrite <- EF|by rewrite <- EF|by rewrite <- EF].
  - intros _. split; [by destruct l|]. rewrite EF in HmF. apply Forall_app in HmF as [_ HmF]. by inversion_clear HmF.
  - rewrite <- Etk, length_take. lia.
Qed.

(** A client that follows the markers. *)
Fixpoint followParts (fuel : nat) (all : list Part) (marker maxParts : Z) : list Part :=
  let '(page, truncated, next) := partsPage all marker maxParts in
  match fuel with
  | O => page
  | S fuel => if truncated then (page ++ followParts fuel all next maxParts)%list else page
  end.

Lemma followParts_rest fuel all marker maxParts : StronglySorted (fun a b => pt_Number a < pt_Number b) all -> 0 < maxParts ->
  (length (List.filter (fun p => (marker <? pt_Number p)%Z) all) <= fuel)%nat -> followParts fuel all marker maxParts = List.filter (fun p => marker <? pt_Number p) all.
Proof.
  intros Hs Hmax. revert marker. induction fuel as [|fuel IH]; intros marker Hlen; cbn [followParts]; destruct (partsPage all marker maxParts) as [[page truncated] next] eqn:Ep;
    destruct (partsPage_follows _ _ _ _ _ _ Hs Hmax Ep) as (E & Ht & _); rewrite E in Hlen |- *; destruct truncated; [|by rewrite app_nil_r| |by rewrite app_nil_r];
    destruct (Ht eq_refl) as [Hp _]; destruct page as [|p page]; [done| |done|]; rewrite length_app in Hlen; cbn in Hlen; [lia|]. rewrite IH; [done|lia].
Qed.

(** Listing the parts of an upload page by page gives every staged part number once, in
    ascending order, however small the pages. *)
Theorem ListParts_complete (parts : gmap string PartFile) maxParts : 0 < maxParts ->
  let all := sortedParts (partsByNumber parts) in
  followParts (length all) all 0 maxParts = all /\ StronglySorted (fun a b => pt_Number a < pt_Number b) all /\
  (forall n, (exists p, p ∈ all /\ pt_Number p = n) <-> exists name f d, parts !! name = Some f /\ parsePartFileName name = Some (n, d)).
Proof.
  intros Hmax all. assert (forall n p, partsByNumber parts !! n = Some p -> pt_Number p = n) as Hn.
  { intros n p Hp. destruct (partsByNumber_spec parts n) as [H _]. by destruct (H p Hp) as (name & f & d & _ & _ & ->). }
  pose proof (sortedParts_sorted _ Hn) as Hs. fold all in Hs. assert (forall p, p ∈ all <-> partsByNumber parts !! pt_Number p = Some p) as Hin.
  { intros p. unfold all, sortedParts. rewrite merge_sort_Permutation, list_elem_of_In, in_map_iff. split.
    - intros ([n q] & <- & H). apply list_elem_of_In, elem_of_map_to_list in H. cbn. by rewrite (Hn _ _ H).
    - intros H. exists (pt_Number p, p). split; [done|]. by apply list_elem_of_In, elem_of_map_to_list. }
  split; [|split; [done|]].
  - assert (List.filter (fun p => 0 <? pt_Number p) all = all) as Ef.
    { apply forallb_filter_id. apply forallb_forall. intros p Hp. apply list_elem_of_In, Hin in Hp. destruct (partsByNumber_spec parts (pt_Number p)) as [H _].
      destruct (H p Hp) as (name & f & d & _ & Hpn & _). unfold parsePartFileName in Hpn. destruct (negb _); [done|]. destruct (Cut _ _) as [[a b]|]; [|done]. destruct (_ || _); [done|].
      destruct (ParseInt a) as [k|]; [|done]. destruct (Z.ltb_spec k 1); [done|]. injection Hpn as E _. apply Z.ltb_lt. lia. }
    rewrite followParts_rest; [done|done|done|]. rewrite Ef. done.
  - intros n. destruct (partsByNumber_spec parts n) as [H1 H2]. split.
    + intros (p & Hp & <-). apply Hin in Hp. destruct (H1 p Hp) as (name & f & d & ? & ? & _). by exists name, f, d.
    + intros (name & f & d & Hf & Hp). destruct (H2 name f d Hf Hp) as [p Ep]. exists p. rewrite Hin. by rewrite (Hn _ _ Ep).
Qed.

(** ** A volume in memory, and examples *)

#[export] Instance memoryPublisher : Publisher (gmap string (string * Info)) := {
  pub_file v p := v !! p;
  pub_safe v p := true;
  pub_mkdir dir v := (true, v);
  pub_publishIf dest b pre v :=
    if pre (snd <$> v !! dest) then let info := mkInfo 1 (slen dest) (slen b) 1000 420 in (Some info, <[dest := (b, info)]> v) else (None, v)
}.

#[export] Instance memoryLaws : PublisherLaws (gmap string (string * Info)).
Proof.
  split.
  - done.
  - intros dest b pre v p Hp. cbn. destruct (pre _); [cbn; by rewrite lookup_insert_ne|done].
  - intros dest b pre v info. cbn. destruct (pre _) eqn:E; [|done]. cbn. intros [= <-]. by rewrite lookup_insert_eq.
  - intros dest b pre v. cbn. destruct (pre _); [done|]. auto.
Qed.

Definition toyMD5 (b : string) : string := stake 16 (b +:+ "................").
Lemma toyMD5_length b : slen (toyMD5 b) = 16.
Proof. unfold toyMD5, slen. rewrite stake_length. pose proof (slen_app b "................") as H. unfold slen in H. cbn [String.length] in H. lia. Qed.
Definition toyLimits : Limits := withDefaults (mkLimits 2 100 0 0 0 0 0 0 0).
Definition upID : string := "0123456789abcdef0123456789abcdef".
Definition noChecks : Checksums := mkChecksums "" "".
Definition idle : @MP (gmap string (string * Info)) := mkMP ∅ ∅ ∅ ∅ 0 ∅ [].
Definition writeToy (n : Z) (body : string) (now : Z) := WritePart (V := gmap string (string * Info)) toyMD5 id Some toyLimits (fun s => s) upID "tmp" n body true noChecks now.
Definition started := (Create toyLimits upID "t" "bucket" "key" 10 idle).2.
Definition first := (writeToy 1 "ab" 20 started).2.
Definition second := (writeToy 2 "c" 30 first).2.
Definition etag (b : string) : string := EncodeToString (toyMD5 b).
Definition wanted : list CompletePart := [mkCompletePart 1 (etag "ab"); mkCompletePart 2 (etag "c")].
Definition completeToy (s : @MP (gmap string (string * Info))) := CompleteIf toyMD5 id "/srv" toyLimits upID wanted "/srv/bucket/key" (fun _ => true) 40 s.

Lemma started_Staged : Staged toyMD5 upID 1 ∅ None started.
Proof.
  assert (exists D, mp_staging started !! upID = Some D /\ mp_kept started !! upID = Some D /\ upID ∈ mp_linked started /\ ud_parts D = ∅ /\ exists up, ud_meta D = Some up /\ up_ID up = upID) as (D & E1 & E2 & E3 & E4 & E5).
  { eexists. split; [vm_compute; reflexivity|]. split; [vm_compute; reflexivity|]. split; [by apply (bool_decide_unpack _); vm_compute|]. split; [reflexivity|]. by eexists. }
  assert (dirOK toyMD5 upID 1 ∅ None D) by (split; [done|intros name f d Hf; by rewrite E4, lookup_empty in Hf|done]).
  constructor; [exact E3|exists D; split; assumption|exists D; split; assumption].
Qed.

Lemma survives_same {V} (s : @MP V) : survives s s.
Proof. intros k. split; [done|]. intros D ED. rewrite ED. cbn. auto. Qed.

Lemma WritePart_crash_safe_witness : (writeToy 1 "ab" 20 started).1 = Ok (mkPart 1 2 (etag "ab") 20) /\ lists toyMD5 upID 1 {[ etag "ab" ]} first.
Proof.
  assert ((writeToy 1 "ab" 20 started).1 = Ok (mkPart 1 2 (etag "ab") 20)) as E by (vm_compute; reflexivity). split; [exact E|].
  pose proof (WritePart_crash_safe toyMD5 id Some toyLimits (fun s => s) upID 1 ∅ None "tmp" "ab" true noChecks 20 started (writeToy 1 "ab" 20 started).1 first first
    toyMD5_length ltac:(lia) started_Staged (fun s H => H) ltac:(done) (surjective_pairing _) (survives_same first)) as H.
  rewrite E in H. exact (proj2 H).
Defined.

Lemma CompleteIf_exact_witness : exists res, (completeToy second).1 = Ok res /\ cr_Repeated res = false /\
  exists D object, mp_staging second !! upID = Some D /\ completes toyMD5 toyLimits D wanted object (cr_ETag res) /\
    pub_file (mp_volume (completeToy second).2) "bucket/key" = Some (object, cr_Info res).
Proof.
  eexists. split; [vm_compute; reflexivity|]. split; [reflexivity|].
  pose proof (CompleteIf_exact toyMD5 id "/srv" toyLimits upID wanted "/srv/bucket/key" (fun _ => true) 40 second (completeToy second).1 (completeToy second).2 (surjective_pairing _)) as [_ H].
  assert ((completeToy second).1 = Ok _) as E by (vm_compute; reflexivity). rewrite E in H. cbn [cr_Repeated] in H. destruct H as (D & object & H1 & H2 & H3 & _). exists D, object.
  split; [exact H1|]. split; [exact H2|exact H3].
Defined.

Definition completed := (completeToy second).2.
Definition again (want : list CompletePart) := CompleteIf toyMD5 id "/srv" toyLimits upID want "/srv/bucket/key" (fun _ => false) 50 completed.
Definition answer (repeated : bool) : CompleteResult :=
  mkResult "bucket" "key" (EncodeToString (toyMD5 (toyMD5 "ab" +:+ toyMD5 "c")) +:+ "-2") 3 2 (mkInfo 1 10 3 1000 420) repeated.

Lemma CompleteIf_retry_witness : (completeToy second).1 = Ok (answer false) /\ again wanted = (Ok (answer true), completed).
Proof.
  assert (CompleteIf toyMD5 id "/srv" toyLimits upID wanted "/srv/bucket/key" (fun _ => true) 40 second = (Ok (answer false), completed)) as E by (vm_compute; reflexivity).
  split; [exact (f_equal fst E)|].
  assert (validateDest "/srv" (mp_volume completed) "/srv/bucket/key" = true) as Ev by (vm_compute; reflexivity).
  assert (pub_file (mp_volume completed) (destName "/srv" "/srv/bucket/key") = Some ("abc", mkInfo 1 10 3 1000 420)) as Ef by (vm_compute; reflexivity).
  assert (mp_faults second = []) as E1 by (vm_compute; reflexivity). assert (mp_faults completed = []) as E2 by (vm_compute; reflexivity).
  assert (wanted <> []) as Ew by discriminate. assert (cr_Repeated (answer false) = false) as Er by reflexivity.
  assert (fi_size (mkInfo 1 10 3 1000 420) = cr_Size (answer false)) as Es by reflexivity. assert (fi_mtime (mkInfo 1 10 3 1000 420) = fi_mtime (cr_Info (answer false))) as Em by reflexivity.
  pose proof (CompleteIf_retry toyMD5 id "/srv" toyLimits upID wanted "/srv/bucket/key" (fun _ => true) 40 second (answer false) completed (fun _ => false) 50 completed "abc" (mkInfo 1 10 3 1000 420) wanted
    E1 E Er E2 (eq_refl (mp_completed completed !! upID)) (eq_refl (mp_staging completed !! upID)) Ev Ef Es Em Ew) as H.
  rewrite String.eqb_refl in H. exact H.
Defined.

Lemma Cleanup_spares_active_witness : exists D, mp_staging second !! upID = Some D /\ lastActivity D = 30 /\ mp_staging (Cleanup toyLimits (fun s => s) (30 + 7 * 24 * hour) second).2 !! upID = Some D.
Proof.
  eexists. split; [vm_compute; reflexivity|]. split; [vm_compute; reflexivity|].
  apply (Cleanup_spares_active toyLimits upID (fun s => s) (30 + 7 * 24 * hour) second); [vm_compute; reflexivity..|vm_compute; discriminate|done].
Defined.

Lemma ListParts_complete_witness : exists D, mp_staging second !! upID = Some D /\
  let all := sortedParts (partsByNumber (ud_parts D)) in map pt_Number all = [1; 2] /\ followParts (length all) all 0 1 = all.
Proof.
  eexists. split; [vm_compute; reflexivity|]. split; [vm_compute; reflexivity|].
  match goal with |- followParts _ (sortedParts (partsByNumber ?ps)) _ _ = _ => exact (proj1 (ListParts_complete ps 1 eq_refl)) end.
Defined.

(** A limit of more than 99999 parts is accepted, but part 100000 gets a name that is never read
    back: it is acknowledged and then missing. *)
Lemma wide_part_unlisted :
  let limits := withDefaults (mkLimits 2 100 100000 0 0 0 0 0 0) in
  let out := WritePart (V := gmap string (string * Info)) toyMD5 id Some limits (fun s => s) upID "tmp" 100000 "ab" true noChecks 20 started in
  (exists p, out.1 = Ok p) /\ (ListParts upID 0 1000 out.2).1 = Ok ([], false, 0) /\
  (CompleteIf toyMD5 id "/srv" limits upID [mkCompletePart 100000 (etag "ab")] "/srv/bucket/key" (fun _ => true) 40 out.2).1 = Err ErrInvalidPart.
Proof. split; [eexists; vm_compute; reflexivity|]. split; vm_compute; reflexivity. Qed.
