(* ===== verification/Storage.v ===== *)
(** * Binding the database to its volume

    internal/watcher/watcher.go: the sentinel file that ties the metadata database to the data
    volume ([checkStorageLocked] down to [bindVolumeLocked]). A volume that is missing, empty or
    another one must stop the node instead of looking like a mass deletion. *)

From S2P Require Import Prelude GoStrings Hoare FileMeta Database Names Store RepairQueue Integrity Intents Glob Validate Sync Transfer Volume Paths Indexing Apply.

(** ** The node's view of one volume *)

(** An open writer ([type writer] of fileops). *)
Record writer := mkWriter { wr_path : string; wr_requested : string; wr_original : option Info }.

(** The controller of one root ([rootState]) together with the fields of [Watcher] its hooks
    use. A writer is known by the name of its scratch file. *)
Record Vol := mkVol {
  vo_world : World;
  vo_storageID : option string;
  vo_fence : option (bool * Z);          (* the last validation: whether it passed, when it began *)
  vo_recovered : bool;
  vo_measured : option Z;                (* [mtimeMeasured], with the granularity recorded then *)
  vo_writers : gmap string writer
}.
Definition set_world (w : World) (v : Vol) : Vol := mkVol w (vo_storageID v) (vo_fence v) (vo_recovered v) (vo_measured v) (vo_writers v).
Definition set_storageID (x : option string) (v : Vol) : Vol := mkVol (vo_world v) x (vo_fence v) (vo_recovered v) (vo_measured v) (vo_writers v).
Definition set_fence (x : option (bool * Z)) (v : Vol) : Vol := mkVol (vo_world v) (vo_storageID v) x (vo_recovered v) (vo_measured v) (vo_writers v).
Definition set_recovered (x : bool) (v : Vol) : Vol := mkVol (vo_world v) (vo_storageID v) (vo_fence v) x (vo_measured v) (vo_writers v).
Definition set_measured (x : option Z) (v : Vol) : Vol := mkVol (vo_world v) (vo_storageID v) (vo_fence v) (vo_recovered v) x (vo_writers v).

Inductive verr :=
| VErr (e : werr) | VLayout | VNoSentinel | VMismatch | VEmptyRoot | VUnvalidated | VExists | VPrecondition | VClosed | VTreeChanged.

Abbreviation V := (SE Vol verr).
Definition inWorld {A} (c : W A) : V A := zoomS vo_world set_world VErr c.

(** [errors.Join] of two calls: both are made. *)
Definition joinV (c d : V unit) : V unit :=
  let! r := tryS c in
  let! r' := tryS d in
  match r with Err e => failS e | Ok _ => liftS r' end.

(** A directory with nothing in it; [os.Remove] of a file, a link or an empty directory. *)
Definition emptyAt (t : gmap string node) (n : string) : bool := forallb (fun kv : string * node => negb (HasPrefix kv.1 (n +:+ "/"))) (map_to_list t).
Definition osRemove (name : string) : W unit :=
  do! sysW then
  let! w := getS in
  match wd_tree w !! name with
  | None => failS WMissing
  | Some NDir => if emptyAt (wd_tree w) name then modifyS (fun w => set_tree (delete name (wd_tree w)) w) else failS WSys
  | Some _ => modifyS (fun w => set_tree (delete name (wd_tree w)) w)
  end.

(** ** The sentinel *)

Definition private : string := ".birak".
Definition marker : string := ".birak/storage-id".

Section Storage.
Context (ignorePatterns : list string) (now : Z).

(** [func (w *Watcher) storageMarker() (string, error)]; a root that is missing or no directory
    is a failing call. *)
Definition storageMarker : V unit :=
  do! inWorld sysW then
  let! p := inWorld (lstat private) in
  match p with
  | None | Some NDir =>
      let! m := tryS (inWorld (lstat marker)) in
      match m with
      | Ok None | Ok (Some (NFile _)) | Err _ => retS tt
      | Ok (Some _) => failS VLayout
      end
  | Some _ => failS VLayout
  end.

(** [os.ReadFile] of the sentinel; [None] when it does not exist. *)
Definition readMarker : V (option string) :=
  do! inWorld sysW then
  let! v := getS in
  retS (in_bytes <$> fileAtName (wd_tree (vo_world v)) marker).

(** [func (w *Watcher) checkVolume(id string) error] *)
Definition checkVolume (id : string) : V unit :=
  do! storageMarker then
  let! data := readMarker in
  match data with
  | None => failS VNoSentinel
  | Some data => if data =s id then retS tt else failS VMismatch
  end.

(** Whether the root has an entry that is not ignored. *)
Definition visibleRoot (t : gmap string node) : bool :=
  existsb (fun kv : string * node => negb (ContainsByte kv.1 "/") && negb (shouldIgnore ignorePatterns kv.1)) (map_to_list t).

(** Writing the sentinel: [os.MkdirAll], [os.OpenFile] with [O_CREATE|O_EXCL], then
    [WriteString], [Sync] and [Close], all of which are called. *)
Definition createMarker : V unit :=
  do! inWorld (mkdirAll marker) then
  do! inWorld sysW then
  let! v := getS in
  match wd_tree (vo_world v) !! marker with
  | Some _ => failS VExists
  | None => inWorld (modifyS (fun w => set_tree (<[marker := NFile (mkInode 0 (freshIno w) "" now 384 false)]> (wd_tree w)) w))
  end.
(** A call on the open handle of the new file. *)
Definition onMarker (f : inode -> inode) : W unit := do! sysW then modifyS (fun w =>
  match wd_tree w !! marker with Some (NFile i) => set_tree (<[marker := NFile (f i)]> (wd_tree w)) w | _ => w end).
Definition filled (id : string) (i : inode) : inode := mkInode (in_dev i) (in_ino i) id (in_mtime i) (in_mode i) false.
Definition writeMarker (id : string) : V unit :=
  do! createMarker then
  do! joinV (inWorld (onMarker (filled id))) (joinV (inWorld (onMarker flushed)) (inWorld sysW)) then
  inWorld (do! SyncParents marker then SyncParents private).

(** [func (w *Watcher) bindVolumeLocked() error] *)
Definition bindVolumeLocked : V unit :=
  do! storageMarker then
  let! data := readMarker in
  let id := default "" data in
  let! id := (if negb (id =s "") then retS id
              else
                let! count := inWorld (inStore FileCount) in
                do! inWorld sysW then (* os.ReadDir *)
                let! v := getS in
                if (0 <? count) && negb (visibleRoot (wd_tree (vo_world v))) then failS VEmptyRoot
                else
                  let id := epoch (wd_store (vo_world v)) in
                  do! writeMarker id then retS id) in
  do! inWorld (inStore (SetNodeValue "storage_id" id)) then
  modifyS (set_storageID (Some id)).

(** [func (w *Watcher) checkBindingLocked() error] *)
Definition checkBindingLocked : V unit :=
  let! v := getS in
  match vo_storageID v with
  | Some id => checkVolume id
  | None =>
      let! id := inWorld (inStore (NodeValue "storage_id")) in
      if negb (id =s "") then do! modifyS (set_storageID (Some id)) then checkVolume id
      else bindVolumeLocked
  end.

(** *** How finely the volume keeps times *)

Definition probe : string := ".birak/mtime-probe".
Definition modTimeGranularities : list Z := [1; 100; 1000; 1000000; 1000000000; 2000000000].
Definition modTimeProbes : list Z := [1600000001123456789; 1600000002987654321].

(** [Time.Sub], which saturates, and [func absDuration(d time.Duration) time.Duration] *)
Definition subTimes (t u : Z) : Z := Z.max MinInt64 (Z.min MaxInt64 (t - u)).
Definition absDuration (d : Z) : Z := if d <? 0 then wrap64 (- d) else d.

(** [os.WriteFile] of nothing: opened for writing, created or emptied, written and closed. A link
    at the name of the probe, which nothing here makes, is a failing call. *)
Definition emptied (i : inode) : inode := mkInode (in_dev i) (in_ino i) "" now (in_mode i) false.
Definition writeProbe : W unit :=
  do! sysW then
  let! w := getS in
  do! (match wd_tree w !! private, wd_tree w !! probe with
       | Some NDir, None => modifyS (fun w => set_tree (<[probe := NFile (mkInode 0 (freshIno w) "" now 384 false)]> (wd_tree w)) w)
       | Some NDir, Some (NFile _) => updFile emptied probe
       | _, _ => failS WMissing
       end) then
  let! written := tryS sysW in
  let! closed := tryS sysW in
  match written with Err e => failS e | Ok _ => liftS closed end.

Context (stored : Z -> Z).

(** [func DetectModTimeGranularity(probe string) (time.Duration, error)] *)
Fixpoint probe_loop (stamps : list Z) (worst : Z) : W Z :=
  match stamps with
  | [] => retS worst
  | stamp :: rest =>
      do! chtimes stored probe stamp then
      let! n := stat probe in
      match n with
      | Some (NFile i) => probe_loop rest (Z.max worst (absDuration (subTimes (in_mtime i) stamp)))
      | _ => failS WMissing
      end
  end.
Inductive probeErr := ProbeFailed (e : werr) | ProbeMoved (worst : Z).
Definition DetectModTimeGranularity : W (Z * option probeErr) :=
  let! r := tryS writeProbe in
  match r with
  | Err e => retS (1, Some (ProbeFailed e))
  | Ok _ =>
      let! r := tryS (probe_loop modTimeProbes 0) in
      do! tryS (osRemove probe) then
      retS match r with
           | Err e => (1, Some (ProbeFailed e))
           | Ok worst =>
               match List.find (fun granularity => worst <? granularity) modTimeGranularities with
               | Some granularity => (granularity, None)
               | None => (1, Some (ProbeMoved worst))
               end
           end
  end.

(** [func (w *Watcher) measureModTimeGranularityLocked()], with [SetModTimeGranularity] *)
Definition measureModTimeGranularityLocked : V unit :=
  let! r := inWorld DetectModTimeGranularity in
  modifyS (set_measured (Some (Z.max r.1 1))).

(** [func (w *Watcher) checkStorageLocked() error]. The first check that passes measures; every
    operation that compares times checks first, so that the granularity its comparisons are given
    is the one recorded here. *)
Definition checkStorageLocked : V unit :=
  do! checkBindingLocked then
  let! v := getS in
  match vo_measured v with
  | Some _ => retS tt
  | None => measureModTimeGranularityLocked
  end.

(** [func (w *Watcher) checkBoundVolume() error] *)
Definition checkBoundVolume : V unit :=
  let! v := getS in
  match vo_storageID v with None => failS VUnvalidated | Some id => checkVolume id end.
End Storage.

(** ** Looking changes nothing *)

(** The tables and the disk; [vo_storageID] only remembers what the tables say. *)
Record viewed (v v' : Vol) : Prop := mkViewed {
  vw_tree : wd_tree (vo_world v') = wd_tree (vo_world v);
  vw_durable : wd_durable (vo_world v') = wd_durable (vo_world v);
  vw_db : db (wd_store (vo_world v')) = db (wd_store (vo_world v));
  vw_epoch : epoch (wd_store (vo_world v')) = epoch (wd_store (vo_world v))
}.
#[export] Instance viewed_preorder : PreOrder viewed.
Proof. split; [by intros v|]. intros v1 v2 v3 [] []. split; congruence. Qed.

Lemma viewed_inWorld {A} (c : W A) : (forall w, wd_tree (c w).2 = wd_tree w /\ wd_durable (c w).2 = wd_durable w /\ wd_xfer (c w).2 = wd_xfer w) -> keeps viewed (inWorld c).
Proof.
  intros Hc v. unfold inWorld, zoomS. destruct (Hc (vo_world v)) as (H1 & H2 & H3). destruct (c (vo_world v)) as [r w]. split; cbn in *; unfold wd_store; by rewrite ?H1, ?H2, ?H3.
Qed.
Lemma viewed_sys : keeps viewed (inWorld sysW).
Proof. apply viewed_inWorld. intros w. destruct (sysW_frame w) as (? & ? & ? & _). done. Qed.
Lemma viewed_lstat n : keeps viewed (inWorld (lstat n)).
Proof.
  apply viewed_inWorld. intros w. unfold lstat, bindS. destruct (sysW_frame w) as (H1 & H2 & H3 & _). destruct (sysW w) as [[[]|e] w']; done.
Qed.
Lemma viewed_try {A} (c : V A) : keeps viewed c -> keeps viewed (tryS c).
Proof. intros Hc v. specialize (Hc v). unfold tryS. by destruct (c v). Qed.
Lemma viewed_query {A} (f : DB -> A) : keeps viewed (inWorld (inStore (query f))).
Proof.
  intros v. unfold inWorld, inStore, zoomS. destruct (query f (wd_store (vo_world v))) as [r s] eqn:E. pose proof (keeps_query f (wd_store (vo_world v))) as U.
  rewrite E in U. cbn in U. split; try done; [by apply untouched_db in U|]. apply untouched_memory in U. unfold memory_kept in U. rewrite U. done.
Qed.
#[export] Hint Resolve viewed_sys viewed_lstat viewed_try viewed_query : birak.

Lemma viewed_storageMarker : keeps viewed storageMarker.
Proof. unfold storageMarker. still. Qed.
Lemma viewed_readMarker : keeps viewed readMarker.
Proof. unfold readMarker. still. Qed.
#[export] Hint Resolve viewed_storageMarker viewed_readMarker : birak.
Lemma viewed_checkVolume id : keeps viewed (checkVolume id).
Proof. unfold checkVolume. still. Qed.

(** Up to reading the sentinel not even the store's memory moves. *)
Definition storeKept (v v' : Vol) : Prop := wd_store (vo_world v') = wd_store (vo_world v).
#[export] Instance storeKept_preorder : PreOrder storeKept.
Proof. split; [done|]. intros v1 v2 v3 H1 H2. unfold storeKept in *. congruence. Qed.
Lemma storeKept_sentinel : keeps storeKept storageMarker /\ keeps storeKept readMarker.
Proof.
  assert (keeps storeKept (inWorld sysW)) as K1.
  { intros v. unfold inWorld, zoomS, storeKept. destruct (sysW_frame (vo_world v)) as (_ & _ & H3 & _). destruct (sysW (vo_world v)). cbn in *. unfold wd_store. by rewrite H3. }
  assert (forall n, keeps storeKept (inWorld (lstat n))) as K2.
  { intros n v. specialize (K1 v). revert K1. unfold inWorld, zoomS, lstat, bindS. destruct (sysW (vo_world v)) as [[[]|e] w]; done. }
  assert (forall A (c : V A), keeps storeKept c -> keeps storeKept (tryS c)) as K3 by (intros A c Hc v; specialize (Hc v); unfold tryS; by destruct (c v)).
  split; [unfold storageMarker|unfold readMarker]; still.
Qed.

Lemma readMarker_Ok v data v' : readMarker v = (Ok data, v') -> data = in_bytes <$> fileAtName (wd_tree (vo_world v')) marker.
Proof. unfold readMarker. intros R. apply bindS_Ok in R as ([] & v1 & R1 & R). by injection R as <- <-. Qed.

Lemma checkVolume_Ok id v v' : checkVolume id v = (Ok tt, v') -> exists i, fileAtName (wd_tree (vo_world v')) marker = Some i /\ in_bytes i = id.
Proof.
  unfold checkVolume. intros R. apply bindS_Ok in R as ([] & v1 & R1 & R). apply bindS_Ok in R as (data & v2 & R2 & R). apply readMarker_Ok in R2.
  destruct data as [data|]; [|done]. destruct (data =s id) eqn:E; [|done]. injection R as <-. apply String.eqb_eq in E as ->.
  destruct (fileAtName (wd_tree (vo_world v2)) marker) as [i|]; [|done]. injection R2 as ->. eauto.
Qed.

Lemma joinV_Ok c d v v' : joinV c d v = (Ok tt, v') -> exists v1, c v = (Ok tt, v1) /\ d v1 = (Ok tt, v').
Proof.
  unfold joinV, bindS, tryS. destruct (c v) as [[[]|e] v1]; destruct (d v1) as [[[]|e'] v2] eqn:E; try done. intros [= <-]. eauto.
Qed.

Lemma inWorld_Ok {A} (c : W A) v a v' : inWorld c v = (Ok a, v') -> exists w, c (vo_world v) = (Ok a, w) /\ v' = set_world w v.
Proof. unfold inWorld, zoomS. destruct (c (vo_world v)) as [[x|e] w]; intros [= <- <-]. eauto. Qed.

(** ** Counting *)

Lemma FileCount_live `{NameFolding} s (n : string) r : store_inv s -> files (db s) !! n = Some r -> Deleted r = false -> forall c s', FileCount s = (Ok c, s') -> 0 < c.
Proof.
  intros Hi E Hd c s' R. assert (0 < liveCount (db s)) as Hl.
  { unfold liveCount. assert (r ∈ select (fun r => negb (Deleted r)) (files (db s))) as Hr by (apply elem_of_select; rewrite Hd; eauto).
    destruct (select _ (files (db s))); [by apply elem_of_nil in Hr|cbn; lia]. }
  pose proof (inv_count _ Hi) as [Hc1 Hc2]. pose proof (inv_next _ Hi) as Hn.
  assert (1 < cachedNextVer s) as Hv by (pose proof (inv_versions _ Hi _ _ E) as Hx; cbn in Hx; lia).
  unfold FileCount, MaxVersion in R. apply bindS_Ok in R as (ver & s1 & R1 & R).
  assert (ver = cachedNextVer s - 1 /\ s1 = s) as [-> ->].
  { unfold bindS, getS, retS in R1. destruct (cachedNextVer s <=? 1) eqn:El; [apply Z.leb_le in El; lia|]. by injection R1. }
  unfold bindS at 1 in R. cbn [getS] in R. destruct (countValid s && (countVersion s =? cachedNextVer s - 1)) eqn:Eb.
  - apply andb_true_iff in Eb as [E1 E2]. apply Z.eqb_eq in E2. injection R as <- <-. by rewrite Hc2.
  - apply bindS_Ok in R as (c' & s2 & R2 & R). apply query_Ok in R2 as [-> _]. by injection R as <- <-.
Qed.

Lemma viewed_FileCount : keeps viewed (inWorld (inStore FileCount)).
Proof.
  intros v. unfold inWorld, inStore, zoomS. destruct (FileCount (wd_store (vo_world v))) as [r s] eqn:E.
  assert (db s = db (wd_store (vo_world v)) /\ epoch s = epoch (wd_store (vo_world v))) as [H1 H2]; [|by split].
  revert E. generalize (wd_store (vo_world v)) as s0. intros s0. unfold FileCount, MaxVersion, bindS. cbn.
  destruct (cachedNextVer s0 <=? 1); cbn; (destruct (countValid s0 && _); [by intros [= <- <-]|]);
    destruct (query liveCount s0) as [[c|e] s2] eqn:Q; intros [= <- <-]; pose proof (keeps_query liveCount s0) as U; rewrite Q in U; cbn in U |- *;
    pose proof (untouched_memory _ _ U) as M; unfold memory_kept in M; (split; [by rewrite (untouched_db _ _ U)|]); rewrite M; done.
Qed.
#[export] Hint Resolve viewed_FileCount : birak.

(** ** Properties *)

(** ** The probe *)

(** Everything but the probe's own name, and the tables. *)
Record offProbe (w w' : World) : Prop := mkOffProbe {
  of_tree : forall n, n <> probe -> wd_tree w' !! n = wd_tree w !! n;
  of_durable : forall n, n <> probe -> wd_durable w' !! n = wd_durable w !! n;
  of_xfer : wd_xfer w' = wd_xfer w
}.
#[export] Instance offProbe_preorder : PreOrder offProbe.
Proof. split; [by intros w|]. intros w1 w2 w3 [A1 B1 C1] [A2 B2 C2]. split; [intros n Hn; by rewrite A2, A1|intros n Hn; by rewrite B2, B1|congruence]. Qed.

(** Once the probe is a file, or gone, calls on its name stay on its name. *)
Definition noLinkAt (w : World) : Prop := forall t, wd_tree w !! probe <> Some (NLink t).
Definition onProbe (w w' : World) : Prop := noLinkAt w -> offProbe w w' /\ noLinkAt w'.
#[export] Instance onProbe_preorder : PreOrder onProbe.
Proof. split; [intros w H; by split|]. intros w1 w2 w3 H1 H2 H. destruct (H1 H) as [A1 B1], (H2 B1) as [A2 B2]. split; [by etrans|done]. Qed.

Lemma offProbe_sys w : offProbe w (sysW w).2 /\ wd_tree (sysW w).2 = wd_tree w.
Proof. destruct (sysW_frame w) as (H1 & H2 & H3 & _). split; [|done]. split; [intros n _; by rewrite H1|intros n _; by rewrite H2|done]. Qed.
Lemma onProbe_sys : keeps onProbe sysW.
Proof. intros w Hn. destruct (offProbe_sys w) as [H1 H2]. split; [done|]. unfold noLinkAt. by rewrite H2. Qed.
Lemma onProbe_try {A} (c : W A) : keeps onProbe c -> keeps onProbe (tryS c).
Proof. intros Hc w. specialize (Hc w). unfold tryS. by destruct (c w). Qed.
Lemma onProbe_upd f : keeps onProbe (updFile f probe).
Proof.
  intros w Hn. unfold updFile, modifyS. cbn [snd]. assert (resolve (wd_tree w) probe = probe) as -> by (unfold resolve; destruct (wd_tree w !! probe) as [[]|] eqn:E; try done; by destruct (Hn target)).
  destruct (wd_tree w !! probe) as [[i| | |]|] eqn:E; try by split.
  assert (forall d, noLinkAt (set_durable d (set_tree (<[probe := NFile (f i)]> (wd_tree w)) w))) as Hl by (intros d t; cbn; by rewrite lookup_insert_eq).
  assert (forall n, n <> probe -> <[probe := NFile (f i)]> (wd_tree w) !! n = wd_tree w !! n) as Ht by (intros n Hp; by rewrite lookup_insert_ne).
  destruct (wd_durable w !! probe) as [[j| | |]|]; [destruct (sameFile i j)|..]; (split; [split; cbn; [exact Ht| |done]|apply (Hl (wd_durable w))]); try done.
  intros n Hp. by rewrite lookup_insert_ne.
Qed.
Lemma onProbe_remove : keeps onProbe (osRemove probe).
Proof.
  unfold osRemove. apply keeps_bind; [apply _|apply onProbe_sys|]. intros _. apply keeps_bind; [apply _|apply keeps_get, _|]. intros w0.
  assert (keeps onProbe (modifyS (fun w => set_tree (delete probe (wd_tree w)) w) : W unit)) as Hd.
  { intros w Hn. split; [split; cbn; [intros n Hp; by rewrite lookup_delete_ne|done|done]|]. intros t. cbn. by rewrite lookup_delete_eq. }
  destruct (wd_tree w0 !! probe) as [[]|]; try apply Hd; [|apply keeps_fail, _]. destruct (emptyAt _ _); [apply Hd|apply keeps_fail, _].
Qed.

Section Probe.
Context (now : Z) (stored : Z -> Z).
Lemma onProbe_write : keeps onProbe (writeProbe now).
Proof.
  unfold writeProbe. apply keeps_bind; [apply _|apply onProbe_sys|]. intros _. apply keeps_bind; [apply _|apply keeps_get, _|]. intros w0. apply keeps_bind; [apply _| |].
  - destruct (wd_tree w0 !! private) as [[]|], (wd_tree w0 !! probe) as [[]|]; try apply keeps_fail, _; [apply onProbe_upd|].
    intros w Hn. split; [split; cbn; [intros n Hp; by rewrite lookup_insert_ne|done|done]|]. intros t. cbn. by rewrite lookup_insert_eq.
  - intros _. apply keeps_bind; [apply _|apply onProbe_try, onProbe_sys|]. intros r. apply keeps_bind; [apply _|apply onProbe_try, onProbe_sys|]. intros r'. destruct r; [apply keeps_lift, _|apply keeps_fail, _].
Qed.
Lemma onProbe_loop stamps worst : keeps onProbe (probe_loop stored stamps worst).
Proof.
  revert worst. induction stamps as [|stamp rest IH]; intros worst; cbn [probe_loop]; [apply keeps_ret, _|]. apply keeps_bind; [apply _| |].
  - unfold chtimes. apply keeps_bind; [apply _|apply onProbe_sys|]. intros _. apply onProbe_upd.
  - intros _. apply keeps_bind; [apply _| |].
    + unfold stat. apply keeps_bind; [apply _|apply onProbe_sys|]. intros _. apply keeps_bind; [apply _|apply keeps_get, _|]. intros w. apply keeps_ret, _.
    + intros [[i| | |]|]; [apply IH|apply keeps_fail, _..].
Qed.
Lemma onProbe_detect : keeps onProbe (DetectModTimeGranularity now stored).
Proof.
  unfold DetectModTimeGranularity. apply keeps_bind; [apply _|apply onProbe_try, onProbe_write|]. intros r. destruct r; [|apply keeps_ret, _].
  apply keeps_bind; [apply _|apply onProbe_try, onProbe_loop|]. intros r. apply keeps_bind; [apply _|apply onProbe_try, onProbe_remove|]. intros _. apply keeps_ret, _.
Qed.

(** Measuring touches the probe alone. *)
Lemma detect_offProbe : keeps offProbe (DetectModTimeGranularity now stored).
Proof.
  intros w. destruct (wd_tree w !! probe) as [[]|] eqn:E; try (refine (proj1 (onProbe_detect w _)); intros t'; by rewrite E).
  unfold DetectModTimeGranularity, bindS, tryS, writeProbe, bindS. destruct (offProbe_sys w) as [H1 H2]. destruct (sysW w) as [[[]|e] w1]; [|done]. cbn [fst snd] in H1, H2. cbn [getS]. rewrite H2, E.
  by destruct (wd_tree w !! private) as [[]|].
Qed.
Lemma detect_Ok w : exists r, (DetectModTimeGranularity now stored w).1 = Ok r.
Proof.
  unfold DetectModTimeGranularity, bindS, tryS. destruct (writeProbe now w) as [[[]|e] w1]; [|by eexists]. destruct (probe_loop stored modTimeProbes 0 w1) as [r w2].
  destruct (osRemove probe w2) as [r' w3]. by eexists.
Qed.

(** *** What is measured *)

Definition fileAtProbe (w : World) : Prop := exists i, wd_tree w !! probe = Some (NFile i).
Lemma updProbe_Ok f w w' i : wd_tree w !! probe = Some (NFile i) -> updFile f probe w = (Ok tt, w') -> wd_tree w' !! probe = Some (NFile (f i)).
Proof.
  intros E R. unfold updFile, modifyS, resolve in R. rewrite E, E in R.
  destruct (wd_durable w !! probe) as [[j| | |]|]; [destruct (sameFile i j)|..]; injection R as <-; cbn; by rewrite lookup_insert_eq.
Qed.
Lemma writeProbe_Ok w w' : writeProbe now w = (Ok tt, w') -> fileAtProbe w'.
Proof.
  unfold writeProbe. intros R. apply bindS_Ok in R as ([] & w1 & R1 & R). apply bindS_Ok in R as (w1' & w1'' & Rg & R). injection Rg as <- <-. apply bindS_Ok in R as ([] & w2 & R2 & R).
  assert (fileAtProbe w2) as [i E].
  { destruct (wd_tree w1 !! private) as [[]|]; try done. destruct (wd_tree w1 !! probe) as [[i| | |]|] eqn:E; try done.
    - eexists. by eapply updProbe_Ok.
    - injection R2 as <-. eexists. cbn. by rewrite lookup_insert_eq. }
  exists i. revert R. unfold bindS, tryS. destruct (sysW_frame w2) as (T1 & _). destruct (sysW w2) as [r3 w3]. cbn [fst snd] in T1. destruct (sysW_frame w3) as (T2 & _). destruct (sysW w3) as [r4 w4]. cbn [fst snd] in T2.
  destruct r3 as [[]|]; [|done]. destruct r4 as [[]|]; [|done]. intros [= <-]. by rewrite T2, T1.
Qed.

(** The loss the volume showed on a stamp. *)
Definition lossOf (stamp : Z) : Z := absDuration (subTimes (stored stamp) stamp).
Lemma probe_loop_Ok stamps worst w r w' : fileAtProbe w -> probe_loop stored stamps worst w = (Ok r, w') ->
  worst <= r /\ (forall stamp, stamp ∈ stamps -> lossOf stamp <= r) /\ (r = worst \/ exists stamp, stamp ∈ stamps /\ lossOf stamp = r).
Proof.
  revert worst w. induction stamps as [|stamp rest IH]; intros worst w [i E] R; cbn [probe_loop] in R.
  { injection R as <- <-. split; [lia|]. split; [set_solver|by left]. }
  apply bindS_Ok in R as ([] & w1 & R1 & R). unfold chtimes in R1. apply bindS_Ok in R1 as ([] & w0 & R0 & R1). destruct (sysW_frame w) as (T0 & _). rewrite R0 in T0. cbn in T0. rewrite <- T0 in E.
  pose proof (updProbe_Ok _ _ _ _ E R1) as E1. apply bindS_Ok in R as (n & w2 & R2 & R). unfold stat in R2. apply bindS_Ok in R2 as ([] & w3 & R3 & R2). destruct (sysW_frame w1) as (T3 & _). rewrite R3 in T3. cbn in T3.
  unfold bindS in R2. cbn [getS retS] in R2. unfold resolve in R2. rewrite T3, E1, E1 in R2. injection R2 as <- <-. cbn in R.
  apply IH in R as (H1 & H2 & H3); [|exists (stamped (stored stamp) i); by rewrite T3]. fold (lossOf stamp) in *. split; [lia|]. split.
  - intros s0 [-> |Hs]%elem_of_cons; [lia|by apply H2].
  - destruct H3 as [-> |(s0 & Hs & Hr)]; [|right; exists s0; split; [by right|done]]. destruct (Z.max_spec worst (lossOf stamp)) as [[_ ->]|[_ ->]]; [right; exists stamp; split; [by left|done]|by left].
Qed.

Lemma lossOf_abs stamp : Z.abs (stored stamp - stamp) <= MaxInt64 -> lossOf stamp = Z.abs (stored stamp - stamp).
Proof.
  intros Hb. unfold lossOf, subTimes. assert (Z.max MinInt64 (Z.min MaxInt64 (stored stamp - stamp)) = stored stamp - stamp) as -> by (unfold MinInt64, MaxInt64 in *; lia).
  unfold absDuration. destruct (_ <? 0) eqn:E; [apply Z.ltb_lt in E; rewrite wrap64_id by (unfold in_int64, MinInt64, MaxInt64 in *; lia); lia|apply Z.ltb_ge in E; lia].
Qed.
Lemma SameModTime_loss g stamp : Z.abs (stored stamp - stamp) <= MaxInt64 -> 0 < g -> SameModTime g (stored stamp) stamp = (lossOf stamp <? g).
Proof.
  intros Hb Hg. rewrite lossOf_abs by done. unfold SameModTime. rewrite wrap64_id by (unfold in_int64, MinInt64, MaxInt64 in *; lia). cbv zeta.
  destruct (g <=? 1) eqn:E1; [apply Z.leb_le in E1; apply eq_true_iff_eq; rewrite Z.eqb_eq, Z.ltb_lt; lia|].
  destruct (_ <? 0) eqn:E; [apply Z.ltb_lt in E; rewrite wrap64_id by (unfold in_int64, MinInt64, MaxInt64 in *; lia); f_equal; lia|apply Z.ltb_ge in E; f_equal; lia].
Qed.

Lemma granularities_sorted worst g : List.find (fun granularity => worst <? granularity) modTimeGranularities = Some g ->
  g ∈ modTimeGranularities /\ worst < g /\ forall g', g' ∈ modTimeGranularities -> worst < g' -> g <= g'.
Proof.
  intros E. apply List.find_some in E as E'. destruct E' as [Hin Hlt%Z.ltb_lt]. split; [by apply list_elem_of_In|]. split; [done|]. intros g' Hg' Hw.
  unfold modTimeGranularities in *. cbn [List.find] in E. rewrite !elem_of_cons, elem_of_nil in Hg'.
  repeat match type of E with context [worst <? ?k] => destruct (Z.ltb_spec worst k); [injection E as <-; lia|] end. discriminate E.
Qed.

(** What the check may leave different on the disk: the probe. *)
Record inspected (v v' : Vol) : Prop := mkInspected {
  is_tree : forall n, n <> probe -> wd_tree (vo_world v') !! n = wd_tree (vo_world v) !! n;
  is_durable : forall n, n <> probe -> wd_durable (vo_world v') !! n = wd_durable (vo_world v) !! n;
  is_db : db (wd_store (vo_world v')) = db (wd_store (vo_world v));
  is_epoch : epoch (wd_store (vo_world v')) = epoch (wd_store (vo_world v))
}.
Lemma viewed_inspected v1 v2 v3 : viewed v1 v2 -> inspected v2 v3 -> inspected v1 v3.
Proof. intros [A B C D] [A' B' C' D']. split; [intros n Hn; by rewrite A', A|intros n Hn; by rewrite B', B|congruence|congruence]. Qed.
Lemma inspected_refl v : inspected v v.
Proof. by split. Qed.
Lemma measure_run v : exists g v', measureModTimeGranularityLocked now stored v = (Ok tt, v') /\ inspected v v' /\ vo_storageID v' = vo_storageID v /\
  vo_measured v' = Some g /\ vo_fence v' = vo_fence v /\ vo_recovered v' = vo_recovered v /\ vo_writers v' = vo_writers v /\ wd_xfer (vo_world v') = wd_xfer (vo_world v).
Proof.
  unfold measureModTimeGranularityLocked, bindS, inWorld, zoomS. destruct (detect_Ok (vo_world v)) as [r Er]. destruct (detect_offProbe (vo_world v)) as [A B C].
  destruct (DetectModTimeGranularity now stored (vo_world v)) as [x w]. cbn [fst snd] in *. subst x. exists (Z.max r.1 1), (set_measured (Some (Z.max r.1 1)) (set_world w v)). split; [done|].
  split; [split; cbn; unfold wd_store; try done; by rewrite C|]. by cbn.
Qed.
End Probe.

Section Properties.
Context `{NameFolding} (ignorePatterns : list string) (now : Z) (stored : Z -> Z).

(** The check is the binding, and once a measurement. *)
Lemma checkStorage_run v r v' : checkStorageLocked ignorePatterns now stored v = (r, v') -> exists v1, checkBindingLocked ignorePatterns now v = (r, v1) /\
  ((v' = v1 /\ (r = Ok tt -> is_Some (vo_measured v1))) \/ (r = Ok tt /\ vo_measured v1 = None /\ measureModTimeGranularityLocked now stored v1 = (Ok tt, v'))).
Proof.
  unfold checkStorageLocked. rewrite bindS_run. destruct (checkBindingLocked ignorePatterns now v) as [[[]|e] v1]; [|intros [= <- <-]; exists v1; split; [done|]; by left].
  rewrite bindS_run. cbn. destruct (vo_measured v1) as [g|] eqn:Em; [intros [= <- <-]; exists v1; split; [done|]; left; by rewrite Em|]. intros R. exists v1. destruct (measure_run now stored v1) as (g & v2 & E & _). rewrite E in R. injection R as <- <-. split; [done|]. right. by split.
Qed.
Definition measuredKept (v v' : Vol) : Prop := vo_measured v' = vo_measured v.
#[local] Instance measuredKept_preorder : PreOrder measuredKept.
Proof. split; [done|]. intros v1 v2 v3 H1 H2. unfold measuredKept in *. congruence. Qed.
Lemma measured_kept v r v' : checkBindingLocked ignorePatterns now v = (r, v') -> vo_measured v' = vo_measured v.
Proof.
  intros R. assert (keeps measuredKept (checkBindingLocked ignorePatterns now)) as K; [|specialize (K v); by rewrite R in K]. clear R.
  assert (forall A (c : W A), keeps measuredKept (inWorld c)) as Kw by (intros A c v0; unfold inWorld, zoomS; by destruct (c (vo_world v0))).
  assert (forall A (c : V A), keeps measuredKept c -> keeps measuredKept (tryS c)) as Kt by (intros A c Hc v0; specialize (Hc v0); unfold tryS; by destruct (c v0)).
  assert (forall x, keeps measuredKept (modifyS (set_storageID x) : V unit)) as Ki by by intros x v0.
  unfold checkBindingLocked, bindVolumeLocked, checkVolume, storageMarker, readMarker, writeMarker, createMarker, joinV.
  repeat first [ apply Kw | apply Kt | apply Ki | apply keeps_ret, _ | apply keeps_fail, _ | apply keeps_get, _ | apply keeps_lift, _ | apply keeps_bind; [apply _| |intros ?] | progress cbv zeta
    | match goal with |- keeps _ (match ?x with _ => _ end) => destruct x end ].
Qed.

(** The volume the database was bound to, if any. *)
Definition boundTo (v : Vol) : option string :=
  match vo_storageID v with
  | Some id => Some id
  | None => match node_meta (db (wd_store (vo_world v))) !! "storage_id" with Some id => if id =s "" then None else Some id | None => None end
  end.
Definition sentinel (v : Vol) : option string := in_bytes <$> fileAtName (wd_tree (vo_world v)) marker.

Lemma viewed_sentinel v v' : viewed v v' -> sentinel v' = sentinel v.
Proof. intros [E _ _ _]. unfold sentinel. by rewrite E. Qed.

Lemma checkVolume_sentinel id v v' : checkVolume id v = (Ok tt, v') -> sentinel v' = Some id.
Proof. intros R. apply checkVolume_Ok in R as (i & E & <-). unfold sentinel. by rewrite E. Qed.

(** A run that fails with nothing changed. *)
Definition refused {A} (v : Vol) (out : result verr A * Vol) : Prop := viewed v out.2 /\ exists e, out.1 = Err e.

Lemma refused_bind {A B} (c : V A) (k : A -> V B) v : keeps viewed c -> (forall a v1, c v = (Ok a, v1) -> viewed v v1 -> refused v1 (k a v1)) -> refused v (bindS c k v).
Proof.
  intros Hc Hk. specialize (Hc v). unfold bindS. destruct (c v) as [[a|e] v1] eqn:R; cbn in Hc; [|by split; [|eexists]].
  destruct (Hk a v1 eq_refl Hc) as [K He]. split; [by trans v1|done].
Qed.
Lemma refused_left {A B} (c : V A) (k : A -> V B) v : refused v (c v) -> refused v (bindS c k v).
Proof. intros [K [e He]]. unfold bindS. destruct (c v) as [x v1]. cbn in *. subst x. by split; [|eexists]. Qed.

(** The sentinel is read, and nothing else happens, before a new one is written. *)
Lemma bind_refuses v : sentinel v = None \/ sentinel v = Some "" -> store_inv (wd_store (vo_world v)) ->
  (exists n row, files (db (wd_store (vo_world v))) !! n = Some row /\ Deleted row = false) -> visibleRoot ignorePatterns (wd_tree (vo_world v)) = false ->
  refused v (bindVolumeLocked ignorePatterns now v).
Proof.
  intros Hs Hi (n & row & En & Ed) Hv. unfold bindVolumeLocked. destruct storeKept_sentinel as [S1 S2].
  apply refused_bind; [still|]. intros [] v1 R1 K1. specialize (S1 v). rewrite R1 in S1. unfold storeKept in S1. cbn in S1.
  apply refused_bind; [still|]. intros data v2 R2 K2. specialize (S2 v1). rewrite R2 in S2. unfold storeKept in S2. cbn in S2. rewrite S1 in S2.
  apply readMarker_Ok in R2. change (data = sentinel v2) in R2. rewrite (viewed_sentinel _ _ K2), (viewed_sentinel _ _ K1) in R2.
  assert (default "" data = "") as -> by (destruct Hs as [Hs | Hs]; by rewrite R2, Hs). cbn [negb String.eqb].
  apply refused_left. apply refused_bind; [still|]. intros c v3 R3 K3.
  apply refused_bind; [still|]. intros [] v4 R4 K4. apply refused_bind; [by intros v0|]. intros v5 v5' R5 _. injection R5 as <- <-.
  assert (wd_tree (vo_world v4) = wd_tree (vo_world v)) as -> by (destruct K1, K2, K3, K4; congruence). rewrite Hv.
  assert (0 < c) as Hc. { apply inWorld_Ok in R3 as (w & R3 & _). apply inStoreW_Ok in R3 as (s' & R3 & _). rewrite S2 in R3. by eapply FileCount_live. }
  rewrite (proj2 (Z.ltb_lt 0 c) Hc). split; [reflexivity|]. by eexists.
Qed.

(** The same of the binding alone. *)
Lemma binding_fails_closed (v v' : Vol) (r : result verr unit) :
  checkBindingLocked ignorePatterns now v = (r, v') ->
  match boundTo v with
  | Some id => viewed v v' /\ (r = Ok tt -> sentinel v = Some id)
  | None =>
      store_inv (wd_store (vo_world v)) -> (exists n row, files (db (wd_store (vo_world v))) !! n = Some row /\ Deleted row = false) ->
      visibleRoot ignorePatterns (wd_tree (vo_world v)) = false -> sentinel v = None \/ sentinel v = Some "" ->
      viewed v v' /\ r <> Ok tt
  end.
Proof.
  unfold checkBindingLocked, boundTo. intros R. unfold bindS at 1 in R. cbn [getS] in R.
  assert (forall id v1, viewed v v1 -> checkVolume id v1 = (r, v') -> viewed v v' /\ (r = Ok tt -> sentinel v = Some id)) as Hc.
  { intros id v1 K R1. pose proof (viewed_checkVolume id v1) as K1. rewrite R1 in K1. cbn in K1. assert (viewed v v') as K2 by by etrans. split; [done|].
    intros ->. apply checkVolume_sentinel in R1. by rewrite (viewed_sentinel _ _ K2) in R1. }
  destruct (vo_storageID v) as [id|]; [by apply (Hc id v)|].
  assert (exists x v1, inWorld (inStore (NodeValue "storage_id")) v = (x, v1) /\ viewed v v1 /\ sentinel v1 = sentinel v /\
    match x with Ok id => id = default "" (node_meta (db (wd_store (vo_world v))) !! "storage_id") /\ (store_inv (wd_store (vo_world v)) -> store_inv (wd_store (vo_world v1))) | Err _ => True end) as (x & v1 & E & K & Es & Hx).
  { pose proof (viewed_query (fun d => default "" (node_meta d !! "storage_id")) v) as K. change (query (fun d => default "" (node_meta d !! "storage_id"))) with (NodeValue "storage_id") in K.
    destruct (inWorld (inStore (NodeValue "storage_id")) v) as [x v1] eqn:E. cbn in K. exists x, v1. split; [done|]. split; [done|]. split; [by apply viewed_sentinel|].
    destruct x as [id|]; [|done]. apply inWorld_Ok in E as (w & E & ->). apply inStoreW_Ok in E as (s & E & ->). apply query_Ok in E as [-> U]. split; [done|].
    intros Hi. cbn. pose proof (untouched_memory _ _ U) as M. unfold memory_kept in M. rewrite (untouched_db _ _ U) in M. rewrite M. destruct Hi. by split. }
  unfold bindS at 1 in R. rewrite E in R. destruct x as [id|e].
  2:{ injection R as <- <-. destruct (node_meta (db (wd_store (vo_world v))) !! "storage_id") as [id|]; [destruct (id =s "")|]; done. }
  destruct Hx as [-> Hi]. assert (bindVolumeLocked ignorePatterns now v1 = (r, v') -> store_inv (wd_store (vo_world v)) ->
    (exists n row, files (db (wd_store (vo_world v))) !! n = Some row /\ Deleted row = false) -> visibleRoot ignorePatterns (wd_tree (vo_world v)) = false ->
    sentinel v = None \/ sentinel v = Some "" -> viewed v v' /\ r <> Ok tt) as Hr.
  { intros R1 Hinv Hl Hv Hs. destruct (bind_refuses v1) as [Kb [e He]]; [by rewrite Es|by apply Hi|by rewrite (vw_db _ _ K)|by rewrite (vw_tree _ _ K)|].
    rewrite R1 in Kb, He. cbn in Kb, He. split; [by trans v1|by rewrite He]. }
  destruct (node_meta (db (wd_store (vo_world v))) !! "storage_id") as [id|]; cbn in R.
  - destruct (id =s "") eqn:E0; cbn in R; [|destruct K; apply (Hc id (set_storageID (Some id) v1)); [by split|exact R]].
    intros Hinv Hl Hv Hs. apply (Hr R Hinv Hl Hv Hs).
  - intros Hinv Hl Hv Hs. apply (Hr R Hinv Hl Hv Hs).
Qed.

(** C8. A node never serves a volume that is not its own. Once its database was bound to a
    volume, checking storage passes only when the volume carries that identity: a missing or
    exchanged volume is reported, never adopted. A check that fails, and any check after the
    first that passed, changes neither the disk nor the tables; the one that measures how finely
    the volume keeps times changes nothing but the name of its probe. A database that has live
    files but was never bound refuses a root that has nothing to show and no sentinel, again
    without a change, so an absent mount is not taken for the deletion of every file. *)
Theorem storage_fails_closed (v v' : Vol) (r : result verr unit) :
  checkStorageLocked ignorePatterns now stored v = (r, v') ->
  match boundTo v with
  | Some id => inspected v v' /\ (r <> Ok tt \/ is_Some (vo_measured v) -> viewed v v') /\ (r = Ok tt -> sentinel v = Some id /\ is_Some (vo_measured v'))
  | None =>
      store_inv (wd_store (vo_world v)) -> (exists n row, files (db (wd_store (vo_world v))) !! n = Some row /\ Deleted row = false) ->
      visibleRoot ignorePatterns (wd_tree (vo_world v)) = false -> sentinel v = None \/ sentinel v = Some "" ->
      viewed v v' /\ r <> Ok tt
  end.
Proof.
  intros R. apply checkStorage_run in R as (v1 & R & Hm). pose proof (measured_kept _ _ _ R) as Em. apply binding_fails_closed in R. destruct (boundTo v) as [id|].
  - destruct R as [K Hs]. split; [|split].
    + eapply viewed_inspected; [exact K|]. destruct Hm as [[-> _]|(_ & _ & R)]; [apply inspected_refl|]. destruct (measure_run now stored v1) as (g & v2 & E & I & _). rewrite R in E. by injection E as <-.
    + intros Hx. destruct Hm as [[-> _]|(Hr & Hn & R)]; [done|]. rewrite Em in Hn. rewrite Hn in Hx. destruct Hx as [Hx|[? Hx]]; done.
    + intros Hr. split; [by apply Hs|]. destruct Hm as [[-> Hx]|(_ & Hn & R)]; [by apply Hx|].
      destruct (measure_run now stored v1) as (g & v2 & E & _ & _ & Eg & _). rewrite R in E. injection E as <-. by rewrite Eg.
  - intros H1 H2 H3 H4. destruct (R H1 H2 H3 H4) as [K Hr]. destruct Hm as [[-> _]|(-> & _)]; done.
Qed.


(** C35. The resolution of a volume's timestamps is measured soundly. When the measurement
    succeeds, the granularity recorded is the finest of those supported at which both stamps it
    wrote, as the volume gives them back, compare as the same time; whatever fails, the
    comparison is exact. (The volume moves no stamp by 292 years or more.) *)
Theorem granularity_sound (w w' : World) (g : Z) (e : option probeErr) :
  (forall stamp, stamp ∈ modTimeProbes -> Z.abs (stored stamp - stamp) <= MaxInt64) ->
  DetectModTimeGranularity now stored w = (Ok (g, e), w') ->
  match e with
  | Some _ => g = 1
  | None => g ∈ modTimeGranularities /\ (forall stamp, stamp ∈ modTimeProbes -> SameModTime g (stored stamp) stamp = true) /\
      (forall g', g' ∈ modTimeGranularities -> (forall stamp, stamp ∈ modTimeProbes -> SameModTime g' (stored stamp) stamp = true) -> g <= g')
  end.
Proof.
  intros Hb R. unfold DetectModTimeGranularity in R. rewrite bindS_run in R. unfold tryS in R. destruct (writeProbe now w) as [[[]|er] w1] eqn:R1; [|by injection R as <- <- _].
  apply writeProbe_Ok in R1. rewrite bindS_run in R. destruct (probe_loop stored modTimeProbes 0 w1) as [r w2] eqn:R2. rewrite bindS_run in R. destruct (osRemove probe w2) as [r' w3].
  destruct r as [worst|er]; [|by injection R as <- <- _]. destruct (List.find _ _) as [g0|] eqn:Ef; [|by injection R as <- <- _]. injection R as <- <- _.
  apply probe_loop_Ok in R2 as (H0 & Hle & Hmax); [|done]. apply granularities_sorted in Ef as (Hin & Hlt & Hmin). split; [done|].
  assert (forall g', g' ∈ modTimeGranularities -> 0 < g') as Hpos by (unfold modTimeGranularities; intros g' Hg'; rewrite !elem_of_cons, elem_of_nil in Hg'; lia). split.
  - intros stamp Hs. rewrite SameModTime_loss by auto. apply Z.ltb_lt. specialize (Hle stamp Hs). lia.
  - intros g' Hg' Hall. apply Hmin; [done|]. destruct Hmax as [-> |(stamp & Hs & <-)]; [by apply Hpos|]. specialize (Hall stamp Hs). rewrite SameModTime_loss in Hall by auto. by apply Z.ltb_lt.
Qed.

(** *** A new sentinel *)

Lemma sys_Ok v v' : inWorld sysW v = (Ok tt, v') -> wd_tree (vo_world v') = wd_tree (vo_world v) /\ wd_durable (vo_world v') = wd_durable (vo_world v) /\ wd_store (vo_world v') = wd_store (vo_world v).
Proof.
  intros R. apply inWorld_Ok in R as (w & R & ->). destruct (sysW_frame (vo_world v)) as (H1 & H2 & H3 & _). rewrite R in *. cbn in *. unfold wd_store. by rewrite H3.
Qed.

Definition isDirEntry (x : option node) : Prop := x = None \/ x = Some NDir.

Lemma mkdirMarker_Ok w w' : isDirEntry (wd_tree w !! private) -> mkdirAll marker w = (Ok tt, w') ->
  wd_tree w' !! private = Some NDir /\ wd_tree w' !! marker = wd_tree w !! marker /\ wd_store w' = wd_store w.
Proof.
  intros Hd R. unfold mkdirAll in R. apply bindS_Ok in R as ([] & w1 & R1 & R). destruct (sysW_frame w) as (H1 & _ & H3 & _). rewrite R1 in *. cbn in H1, H3.
  unfold modifyS in R. injection R as <-. change (List.filter _ _) with [private]. cbn [foldr set_tree wd_tree]. rewrite H1. change (Dir marker) with private.
  assert (wd_store w1 = wd_store w) as Es by (unfold wd_store; by rewrite H3). destruct Hd as [E|E]; rewrite E; (split; [|split; [|exact Es]]).
  - by rewrite lookup_insert_eq.
  - by rewrite lookup_insert_ne.
  - done.
  - done.
Qed.

Lemma onMarker_Ok f v v' i : wd_tree (vo_world v) !! marker = Some (NFile i) -> inWorld (onMarker f) v = (Ok tt, v') ->
  wd_tree (vo_world v') !! marker = Some (NFile (f i)) /\ wd_tree (vo_world v') !! private = wd_tree (vo_world v) !! private /\ wd_store (vo_world v') = wd_store (vo_world v).
Proof.
  intros E R. apply inWorld_Ok in R as (w & R & ->). apply bindS_Ok in R as ([] & w1 & R1 & R). destruct (sysW_frame (vo_world v)) as (H1 & _ & H3 & _). rewrite R1 in *. cbn in H1, H3.
  unfold modifyS in R. rewrite H1, E in R. injection R as <-. cbn. rewrite lookup_insert_eq, lookup_insert_ne by done. unfold wd_store. cbn. by rewrite H3.
Qed.

Lemma flushMarker_Ok n v v' : inWorld (SyncParents n) v = (Ok tt, v') ->
  wd_tree (vo_world v') = wd_tree (vo_world v) /\ wd_durable (vo_world v') !! n = wd_tree (vo_world v) !! n /\
  (forall m, m <> n -> wd_durable (vo_world v') !! m = wd_durable (vo_world v) !! m) /\ wd_store (vo_world v') = wd_store (vo_world v).
Proof.
  intros R. apply inWorld_Ok in R as (w & R & ->). unfold SyncParents in R. pose proof (flushEntry_Ok _ _ _ R) as [H1 H2]. split; [done|]. split; [done|].
  unfold flushEntry in R. apply bindS_Ok in R as ([] & w1 & R1 & R). destruct (sysW_frame (vo_world v)) as (G1 & G2 & G3 & _). rewrite R1 in *. cbn in G1, G2, G3.
  injection R as <-. cbn. unfold wd_store. cbn. rewrite G3. split; [|done]. intros m Hm. destruct (wd_tree w1 !! n); [rewrite lookup_insert_ne by done|rewrite lookup_delete_ne by done]; by rewrite G2.
Qed.

(** The sentinel and its directory are on disk, and will be found after a crash. *)
Definition planted (id : string) (v : Vol) : Prop :=
  backed marker (Some id) (vo_world v) /\ wd_tree (vo_world v) !! private = Some NDir /\ wd_durable (vo_world v) !! private = Some NDir.

Lemma writeMarker_planted id v v' : isDirEntry (wd_tree (vo_world v) !! private) -> writeMarker now id v = (Ok tt, v') ->
  planted id v' /\ wd_store (vo_world v') = wd_store (vo_world v).
Proof.
  intros Hd R. unfold writeMarker in R. apply bindS_Ok in R as ([] & v1 & R1 & R).
  assert (exists i, wd_tree (vo_world v1) !! marker = Some (NFile i) /\ wd_tree (vo_world v1) !! private = Some NDir /\ wd_store (vo_world v1) = wd_store (vo_world v)) as (i & E1 & D1 & S1).
  { unfold createMarker in R1. apply bindS_Ok in R1 as ([] & v2 & R2 & R1). apply inWorld_Ok in R2 as (w2 & R2 & ->). apply mkdirMarker_Ok in R2 as (P2 & M2 & S2); [|done].
    apply bindS_Ok in R1 as ([] & v3 & R3 & R1). apply sys_Ok in R3 as (T3 & _ & S3). cbn in T3, S3. unfold bindS at 1 in R1. cbn [getS] in R1.
    destruct (wd_tree (vo_world v3) !! marker); [done|]. injection R1 as <-. cbn. eexists. rewrite lookup_insert_eq, lookup_insert_ne, T3, P2 by done.
    unfold wd_store in *. cbn. by rewrite S3, S2. }
  apply bindS_Ok in R as ([] & v2 & R2 & R). apply joinV_Ok in R2 as (v3 & R3 & R2). apply joinV_Ok in R2 as (v4 & R4 & R2).
  eapply onMarker_Ok in R3 as (E3 & D3 & S3); [|done]. eapply onMarker_Ok in R4 as (E4 & D4 & S4); [|done]. apply sys_Ok in R2 as (T2 & _ & S2).
  assert (exists v5, inWorld (SyncParents marker) v2 = (Ok tt, v5) /\ inWorld (SyncParents private) v5 = (Ok tt, v')) as (v5 & R5 & R6).
  { apply inWorld_Ok in R as (w & R & ->). apply bindS_Ok in R as ([] & w5 & R5 & R). exists (set_world w5 v2). unfold inWorld, zoomS. rewrite R5. split; [done|]. cbn. by rewrite R. }
  apply flushMarker_Ok in R5 as (T5 & F5 & _ & S5). apply flushMarker_Ok in R6 as (T6 & F6 & G6 & S6).
  split; [|congruence]. unfold planted, backed. rewrite F6, G6, F5, T6, T5, T2, E4, D4, D3, D1 by done. cbn. done.
Qed.

Lemma storageMarker_Ok v v' : storageMarker v = (Ok tt, v') -> isDirEntry (wd_tree (vo_world v') !! private).
Proof.
  intros R. pose proof (viewed_storageMarker v) as K. rewrite R in K. cbn in K. unfold storageMarker in R. apply bindS_Ok in R as ([] & v1 & R1 & R). pose proof (viewed_sys v) as K1. rewrite R1 in K1. cbn in K1.
  apply bindS_Ok in R as (p & v2 & R2 & _R). apply inWorld_Ok in R2 as (w2 & R2 & ->). apply lstat_Ok in R2 as [-> _]. rewrite (vw_tree _ _ K), <- (vw_tree _ _ K1).
  destruct (wd_tree (vo_world v1) !! private) as [[]|]; try done; [by right|by left].
Qed.

Lemma set_world_id v : set_world (vo_world v) v = v.
Proof. by destruct v. Qed.
Lemma inWorld_same {A} (c : W A) v a : c (vo_world v) = (Ok a, vo_world v) -> inWorld c v = (Ok a, v).
Proof. intros E. unfold inWorld, zoomS. by rewrite E, set_world_id. Qed.

Lemma checkVolume_calm id v i : calmW (vo_world v) -> wd_tree (vo_world v) !! private = Some NDir -> wd_tree (vo_world v) !! marker = Some (NFile i) -> in_bytes i = id ->
  checkVolume id v = (Ok tt, v).
Proof.
  intros Hc Hp Hm <-. assert (storageMarker v = (Ok tt, v)) as E1.
  { unfold storageMarker, bindS. rewrite (inWorld_same sysW v tt) by by apply sysW_calm. rewrite (inWorld_same (lstat private) v (Some NDir)) by by rewrite lstat_calm, Hp.
    unfold tryS. by rewrite (inWorld_same (lstat marker) v (Some (NFile i))) by by rewrite lstat_calm, Hm. }
  unfold checkVolume. unfold bindS at 1. rewrite E1. unfold readMarker, bindS. rewrite (inWorld_same sysW v tt) by by apply sysW_calm. cbn.
  unfold fileAtName, resolve. rewrite Hm, Hm. cbn. by rewrite String.eqb_refl.
Qed.

Lemma bind_planted v v' : sentinel v = None -> bindVolumeLocked ignorePatterns now v = (Ok tt, v') ->
  planted (epoch (wd_store (vo_world v))) v' /\ vo_storageID v' = Some (epoch (wd_store (vo_world v))) /\
  node_meta (db (wd_store (vo_world v'))) !! "storage_id" = Some (epoch (wd_store (vo_world v))).
Proof.
  intros Hs R. unfold bindVolumeLocked in R. apply bindS_Ok in R as ([] & v1 & R1 & R). pose proof (viewed_storageMarker v) as K1. rewrite R1 in K1. cbn in K1.
  apply storageMarker_Ok in R1. apply bindS_Ok in R as (data & v2 & R2 & R). pose proof (viewed_readMarker v1) as K2. rewrite R2 in K2. cbn in K2.
  apply readMarker_Ok in R2. change (data = sentinel v2) in R2. rewrite (viewed_sentinel _ _ K2), (viewed_sentinel _ _ K1), Hs in R2. subst data. cbn in R.
  apply bindS_Ok in R as (id & v3 & R3 & R). apply bindS_Ok in R3 as (c & v4 & R4 & R3). pose proof (viewed_FileCount v2) as K4. rewrite R4 in K4. cbn in K4.
  apply bindS_Ok in R3 as ([] & v5 & R5 & R3). pose proof (viewed_sys v4) as K5. rewrite R5 in K5. cbn in K5. unfold bindS at 1 in R3. cbn [getS] in R3.
  destruct (_ && _); [done|]. apply bindS_Ok in R3 as ([] & v6 & R6 & R3). injection R3 as <- <-.
  assert (epoch (wd_store (vo_world v5)) = epoch (wd_store (vo_world v))) as Ee by (destruct K1, K2, K4, K5; congruence). rewrite Ee in R6, R.
  apply writeMarker_planted in R6 as [Hp S6]. 2:{ rewrite (vw_tree _ _ K5), (vw_tree _ _ K4), (vw_tree _ _ K2). done. }
  apply bindS_Ok in R as ([] & v7 & R7 & R). apply inWorld_Ok in R7 as (w7 & R7 & ->). apply inStoreW_Ok in R7 as (s7 & R7 & ->). apply exec_Ok in R7 as [Hd _].
  injection R as <-. split; [done|]. split; [done|]. cbn. rewrite Hd. cbn. by rewrite lookup_insert_eq.
Qed.

Lemma unbound_binds v v' : boundTo v = None -> checkBindingLocked ignorePatterns now v = (Ok tt, v') ->
  exists v1, viewed v v1 /\ bindVolumeLocked ignorePatterns now v1 = (Ok tt, v').
Proof.
  intros Hb R. unfold checkBindingLocked, bindS in R. cbn [getS] in R. unfold boundTo in Hb. destruct (vo_storageID v); [done|].
  pose proof (viewed_query (fun d => default "" (node_meta d !! "storage_id")) v) as K. change (query (fun d => default "" (node_meta d !! "storage_id"))) with (NodeValue "storage_id") in K.
  destruct (inWorld (inStore (NodeValue "storage_id")) v) as [[x|e] v1] eqn:E; [|done]. cbn in K. apply inWorld_Ok in E as (w1 & E & _). apply inStoreW_Ok in E as (s & E & _). apply query_Ok in E as [-> _].
  assert (default "" (node_meta (db (wd_store (vo_world v))) !! "storage_id") = "") as E0.
  { destruct (node_meta (db (wd_store (vo_world v))) !! "storage_id") as [i|]; [|done]. destruct (i =s "") eqn:Ei; [by apply String.eqb_eq in Ei|done]. }
  rewrite E0 in R. cbn in R. eauto.
Qed.

(** A node that bound a fresh volume finds it again. When the first check of a root without
    a sentinel passes, the sentinel names the database's epoch and the database the sentinel,
    and after a power loss at that moment, whatever it took back, the next start accepts the
    volume: the sentinel and its directory were flushed before the database was told. *)
Theorem binding_survives_crash (v v' : Vol) (tree : gmap string node) (w : World) :
  boundTo v = None -> sentinel v = None -> epoch (wd_store (vo_world v)) <> "" ->
  checkStorageLocked ignorePatterns now stored v = (Ok tt, v') -> restarted (vo_world v') tree (wd_store w) w -> nofault (wd_store w) ->
  boundTo v' = Some (epoch (wd_store (vo_world v))) /\
  exists v2, checkStorageLocked ignorePatterns now stored (mkVol w None None false None ∅) = (Ok tt, v2) /\ inspected (mkVol w None None false None ∅) v2.
Proof.
  intros Hb Hs He R (Hc & Hdb & _ & Ht & _ & Hf & _) Hn. set (id := epoch (wd_store (vo_world v))) in *.
  assert (planted id v' /\ vo_storageID v' = Some id /\ node_meta (db (wd_store (vo_world v'))) !! "storage_id" = Some id) as (Hp & Hi & Hm).
  { apply checkStorage_run in R as (v0 & R & Hm). apply unbound_binds in R as (v1 & K & R); [|done]. apply bind_planted in R; [|by rewrite (viewed_sentinel _ _ K)]. rewrite (vw_epoch _ _ K) in R. fold id in R.
    destruct Hm as [[-> _]|(_ & _ & Rm)]; [done|]. destruct (measure_run now stored v0) as (g & v2 & E & [I1 I2 I3 _] & Es & _). rewrite Rm in E. injection E as <-.
    unfold planted, backed in *. by rewrite !I1, !I2, I3, Es by done. }
  split; [unfold boundTo; by rewrite Hi|]. destruct Hp as ([M1 M2] & P1 & P2).
  assert (wd_tree w !! private = Some NDir) as Ep by (rewrite Ht; destruct (Hc private) as [Hx|Hx]; rewrite ?P1, ?P2 in Hx; done).
  destruct (backed_crash marker (Some id) (vo_world v') tree (conj M1 M2) Hc) as (i & Em & Eb).
  assert (calmW w) as Hcalm by done. set (v2 := mkVol w None None false None ∅).
  assert (checkBindingLocked ignorePatterns now v2 = (Ok tt, set_storageID (Some id) v2)) as Eb2.
  { unfold checkBindingLocked. unfold bindS at 1. cbn [getS vo_storageID v2].
    unfold bindS at 1. rewrite (inWorld_same _ v2 id). 2:{ apply inStore_same. unfold NodeValue. rewrite query_nofault by done. cbn. by rewrite Hdb, Hm. }
    destruct (id =s "") eqn:Ei; [by apply String.eqb_eq in Ei|]. cbn [negb]. unfold bindS. cbn [modifyS]. apply (checkVolume_calm id _ i); [done|done|cbn; by rewrite Ht|done]. }
  destruct (measure_run now stored (set_storageID (Some id) v2)) as (g & v3 & E3 & I3 & _). exists v3. split; [|eapply viewed_inspected; [|exact I3]; by split].
  unfold checkStorageLocked. rewrite bindS_run, Eb2, bindS_run. exact E3.
Qed.

(** A crash between creating and writing the sentinel leaves an empty file. No later start gets
    past it: the empty sentinel counts as absent and creating it exclusively fails. *)
Lemma empty_sentinel_locks_out v : boundTo v = None -> sentinel v = Some "" -> forall v', checkStorageLocked ignorePatterns now stored v <> (Ok tt, v').
Proof.
  intros Hb Hs v' R. apply checkStorage_run in R as (v0 & R & _). apply unbound_binds in R as (v1 & K & R); [|done]. rewrite <- (viewed_sentinel _ _ K) in Hs. unfold bindVolumeLocked in R.
  apply bindS_Ok in R as ([] & v2 & R2 & R). pose proof (viewed_storageMarker v1) as K2. rewrite R2 in K2. cbn in K2. apply storageMarker_Ok in R2.
  apply bindS_Ok in R as (data & v3 & R3 & R). pose proof (viewed_readMarker v2) as K3. rewrite R3 in K3. cbn in K3.
  apply readMarker_Ok in R3. change (data = sentinel v3) in R3. rewrite (viewed_sentinel _ _ K3), (viewed_sentinel _ _ K2), Hs in R3. subst data. cbn in R.
  apply bindS_Ok in R as (id & v4 & R4 & _). apply bindS_Ok in R4 as (c & v5 & R5 & R4). pose proof (viewed_FileCount v3) as K5. rewrite R5 in K5. cbn in K5.
  apply bindS_Ok in R4 as ([] & v6 & R6 & R4). pose proof (viewed_sys v5) as K6. rewrite R6 in K6. cbn in K6. unfold bindS at 1 in R4. cbn [getS] in R4. destruct (_ && _); [done|].
  apply bindS_Ok in R4 as ([] & v7 & R7 & _). unfold writeMarker in R7. apply bindS_Ok in R7 as ([] & v8 & R8 & _). unfold createMarker in R8.
  apply bindS_Ok in R8 as ([] & v9 & R9 & R8). apply inWorld_Ok in R9 as (w9 & R9 & ->).
  assert (wd_tree (vo_world v6) = wd_tree (vo_world v1)) as T by (destruct K2, K3, K5, K6; congruence).
  apply mkdirMarker_Ok in R9 as (_ & M & _). 2:{ rewrite T, <- (vw_tree _ _ K2). done. }
  apply bindS_Ok in R8 as ([] & v10 & R10 & R8). apply sys_Ok in R10 as (T10 & _ & _). unfold bindS at 1 in R8. cbn [getS] in R8. rewrite T10 in R8. cbn in R8. rewrite M, T in R8.
  unfold sentinel, fileAtName, resolve in Hs. destruct (wd_tree (vo_world v1) !! marker) as [x|] eqn:E; [done|]. by rewrite E in Hs.
Qed.
End Properties.

(** ** Examples *)

Lemma restarted_plain w s : db s = db (wd_store w) -> restarted w (wd_tree w) (wd_store (plainWorld (wd_tree w) s)) (plainWorld (wd_tree w) s).
Proof. intros E. split; [apply crashed_visible|]. by repeat split. Qed.

Definition freshVol : Vol := mkVol (plainWorld ∅ (set_epochs "e1" "e1-x" initialStore)) None None false None ∅.
Definition freshBound : result verr unit * Vol := checkStorageLocked [] 9 (fun t => t) freshVol.

(** A bound database meets an empty directory where its volume was. *)
Definition strayVol : Vol := mkVol (plainWorld ∅ (wd_store (vo_world freshBound.2))) None None false None ∅.
Lemma storage_fails_closed_witness :
  freshBound.1 = Ok tt /\ boundTo strayVol = Some "e1" /\ (checkStorageLocked [] 9 (fun t => t) strayVol).1 = Err VNoSentinel /\ viewed strayVol (checkStorageLocked [] 9 (fun t => t) strayVol).2 /\
  vo_measured freshBound.2 = Some 1 /\ wd_tree (vo_world freshBound.2) !! probe = None.
Proof.
  split; [vm_compute; reflexivity|]. assert (boundTo strayVol = Some "e1") as E by (vm_compute; reflexivity). split; [exact E|]. split; [vm_compute; reflexivity|].
  pose proof (storage_fails_closed (H := asciiFolding) [] 9 (fun t => t) strayVol (checkStorageLocked [] 9 (fun t => t) strayVol).2 (checkStorageLocked [] 9 (fun t => t) strayVol).1 (surjective_pairing _)) as Hx.
  rewrite E in Hx. split; [|split; vm_compute; reflexivity]. refine (proj1 (proj2 Hx) (or_introl _)). vm_compute. discriminate.
Defined.

(** A volume that keeps even seconds, rounding down. *)
Definition evenSeconds (t : Z) : Z := t / 2000000000 * 2000000000.
Lemma granularity_sound_witness :
  exists w', DetectModTimeGranularity 9 evenSeconds (vo_world freshBound.2) = (Ok (2000000000, None), w') /\ SameModTime 2000000000 (evenSeconds 1600000001123456789) 1600000001123456789 = true.
Proof.
  destruct (DetectModTimeGranularity 9 evenSeconds (vo_world freshBound.2)) as [r w'] eqn:E. assert (r = Ok (2000000000, None)) as -> by (apply (f_equal fst) in E; vm_compute in E; symmetry; exact E).
  exists w'. split; [reflexivity|]. refine (proj1 (proj2 (granularity_sound 9 evenSeconds (vo_world freshBound.2) w' 2000000000 None _ E)) _ _); [|apply list_elem_of_here].
  intros stamp Hs. unfold modTimeProbes in Hs. rewrite !elem_of_cons, elem_of_nil in Hs. destruct Hs as [-> |[-> |[]]]; vm_compute; discriminate.
Defined.

Definition reopened : World := plainWorld (wd_tree (vo_world freshBound.2)) (wd_store (vo_world freshBound.2)).
Lemma binding_survives_crash_witness :
  sentinel freshBound.2 = Some "e1" /\ boundTo freshBound.2 = Some "e1" /\ exists v2, checkStorageLocked [] 9 (fun t => t) (mkVol reopened None None false None ∅) = (Ok tt, v2).
Proof.
  split; [vm_compute; reflexivity|].
  assert (freshBound = (Ok tt, freshBound.2)) as E by (rewrite (surjective_pairing freshBound) at 1; f_equal; vm_compute; reflexivity).
  destruct (binding_survives_crash [] 9 (fun t => t) freshVol freshBound.2 (wd_tree (vo_world freshBound.2)) reopened) as (H1 & v2 & H2 & _).
  - vm_compute. reflexivity.
  - vm_compute. reflexivity.
  - vm_compute. discriminate.
  - exact E.
  - exact (restarted_plain (vo_world freshBound.2) (wd_store (vo_world freshBound.2)) eq_refl).
  - vm_compute. reflexivity.
  - split; [exact H1|]. exists v2. exact H2.
Defined.
