(* ===== verification/Commits.v ===== *)
(** * Commits of the gateways

    internal/fileops/fileops.go ([commitPublishedLocked] and the operations built on it) and
    internal/watcher/commits.go (the hooks that announce, index and settle a commit). A commit
    runs under the volume's lock: it records the paths it will touch, changes the disk, indexes
    what it finds there and only then withdraws the record. Paths are relative to the
    synchronized directory with the links above them resolved. *)

From S2P Require Import Prelude GoStrings Hoare FileMeta Database Names Store RepairQueue Integrity Intents Glob Validate Sync Transfer Volume Paths Indexing Apply Storage.

(** At or below a path. *)
Definition atOrUnder (p n : string) : bool := (n =s p) || HasPrefix n (p +:+ "/").

(** What recovery of interrupted replacements offers to validation (replace.go, on its own
    disk). It runs under the lock and never touches the tables. *)
Class TreeRecovery := { RecoverLocked : W unit }.

Section Commits.
Context `{NameFolding} `{TreeRecovery} (sha256Hex : string -> string) (stored : Z -> Z) (granularity : Z).
Context (ignorePatterns : list string) (repairPeers : list string) (now : Z).
(** The order in which a Go map is visited. *)
Context (mapOrder : gset string -> list string).

Abbreviation refresh := (refreshFileLocked sha256Hex stored granularity ignorePatterns repairPeers now).
Abbreviation ignored := (shouldIgnore ignorePatterns).

(** ** Names *)

(** [func (w *Watcher) relativePaths(paths []string) ([]string, error)] *)
Fixpoint relative_loop (paths names : list string) : W (list string) :=
  match paths with
  | [] => retS names
  | name :: rest =>
      do! sysW then (* ResolvePath *)
      if (name =s ".") || isOutsideSyncDir name then failS (WUnsafe name)
      else relative_loop rest (if existsb (String.eqb name) names then names else names ++ [name])%list
  end.
Definition relativePaths (paths : list string) : W (list string) := do! sysW then relative_loop paths [].

(** The walk of [indexPathsLocked]: the files below a path, without ignored directories. *)
Fixpoint walk_names (entries : list (string * node)) (skipped : list string) (names : gset string) : W (gset string) :=
  match entries with
  | [] => retS names
  | (name, n) :: rest =>
      if existsb (fun d => HasPrefix name (d +:+ "/")) skipped then walk_names rest skipped names
      else match n with
      | NDir => if ignored name then walk_names rest (name :: skipped) names
                else do! sysW then walk_names rest skipped names
      | _ => walk_names rest skipped (if ignored name then names else {[name]} ∪ names)
      end
  end.
(** (A path that is missing has no entries.) *)
Definition walkPath (name : string) (names : gset string) : W (gset string) :=
  let! _ := lstat name in
  let! w := getS in
  walk_names (below name (wd_tree w)) [] names.

(** The names a set of paths stands for: live rows, quarantined names and files. *)
Fixpoint collect_names (paths : list string) (names : gset string) : W (gset string) :=
  match paths with
  | [] => retS names
  | name :: rest =>
      if ignored name then collect_names rest names
      else
        let! previous := inStore (ListLiveSubtree name) in
        let! s := getStore in
        let damaged := List.filter (atOrUnder name) (QuarantinedNames s) in
        let! names := walkPath name (list_to_set (map Name previous) ∪ list_to_set damaged ∪ names) in
        collect_names rest names
  end.

Definition isIntegrityErr (e : werr) : bool := match e with WIntegrity _ => true | _ => false end.

(** [func (w *Watcher) indexPathsLocked(paths []string, opts indexOptions) error] *)
Definition indexName (opts : indexOptions) (name : string) : W unit :=
  let! r := tryS (refresh name opts) in
  match r with
  | Ok _ => retS tt
  | Err e => if io_allowIntegrity opts && isIntegrityErr e then retS tt else failS e
  end.
Definition indexPathsLocked (paths : list string) (opts : indexOptions) : W unit :=
  let! names := collect_names paths ∅ in
  forS (indexName opts) (mapOrder names).

(** ** Hooks *)

(** [func (w *Watcher) checkSourcesLocked(paths []string) error] *)
Fixpoint source_names (paths : list string) : W (list string) :=
  match paths with
  | [] => retS []
  | path :: rest =>
      let! n := stat path in
      match n with
      | None => failS WMissing
      | Some (NLink _) => failS (WUnsafe path)
      | Some _ =>
          let! w := getS in
          let! names := source_names rest in
          retS (resolve (wd_tree w) path :: path :: names)
      end
  end.
Definition checkSourcesLocked (paths : list string) : W unit :=
  let! resolved := source_names paths in
  let! names := relativePaths resolved in
  indexPathsLocked names noOptions.

(** [func (w *Watcher) beginCommitLocked(paths []string) error] *)
Definition beginCommitLocked (paths : list string) : W unit :=
  let! names := relativePaths paths in
  do! forS (fun name => inStore (CheckName name)) names then
  do! forS CheckSpelling paths then
  do! indexPathsLocked names (mkOptions true false ∅ true false) then
  inStore (BeginLocal names).

(** The hashes a commit brings, by name; one that cannot be attributed is dropped. *)
Fixpoint attribute (published : list (string * (Info * string))) (acc : gmap string (Info * string)) : W (gmap string (Info * string)) :=
  match published with
  | [] => retS acc
  | (full, entry) :: rest =>
      let! mapped := tryS (relativePaths [full]) in
      attribute rest (match mapped with Ok [name] => <[name := entry]> acc | _ => acc end)
  end.

(** [func (w *Watcher) finishCommitLocked(paths []string, published map[string]fileops.Published) error] *)
Definition finishCommitLocked (paths : list string) (published : gmap string (Info * string)) : W unit :=
  let! names := relativePaths paths in
  let! known := attribute (map_to_list published) ∅ in
  do! indexPathsLocked names (mkOptions false true known false false) then
  inStore (EndLocal names).

(** [func CheckOrphanedBackups(root string, ignore func(string) bool) error] *)
Fixpoint orphan_loop (entries : list (string * node)) (skipped : list string) : W unit :=
  match entries with
  | [] => retS tt
  | (name, n) :: rest =>
      if existsb (fun d => HasPrefix name (d +:+ "/")) skipped then orphan_loop rest skipped
      else if HasPrefix (Base name) backupFilePrefix then failS (WOccupied name)
      else if bool_decide (n = NDir) && ((Base name =s ".birak") || ignored name) then orphan_loop rest (name :: skipped)
      else do! (match n with NDir => sysW | _ => retS tt end) then orphan_loop rest skipped
  end.
Definition CheckOrphanedBackups : W unit :=
  do! sysW then
  let! w := getS in
  orphan_loop (merge_sort (fun a b : string * node => String.le a.1 b.1) (map_to_list (wd_tree w))) [].

(** [func (w *Watcher) validateStorageLocked() error] *)
Definition recoverIntents : W unit :=
  do! CheckOrphanedBackups then
  let! paths := inStore LocalIntents in
  do! indexPathsLocked paths noOptions then
  do! inStore (EndLocal paths) then
  let! replicas := inStore ReplicaIntents in
  forS (recoverReplicaLocked sha256Hex stored granularity now) replicas.
Definition validateStorageLocked : V unit :=
  do! checkStorageLocked ignorePatterns now stored then
  do! inWorld RecoverLocked then
  let! v := getS in
  if vo_recovered v then retS tt
  else do! inWorld recoverIntents then modifyS (set_recovered true).

(** [func (w *Watcher) prepareStorageLocked() error] *)
Definition prepareStorageLocked : V unit :=
  let! r := tryS validateStorageLocked in
  do! modifyS (set_fence (Some (is_ok r, now))) then
  liftS r.

(** [validateRead] and [checkStorageWithoutWaiting]; [lockFree] says whether [TryLock] gets the
    lock. *)
Definition checkStorageWithoutWaiting (lockFree : bool) (maxAge : Z) : V unit :=
  let! v := getS in
  if match vo_fence v with Some (ok, at_) => ok && (now - at_ <? maxAge) | None => false end then retS tt
  else if lockFree then prepareStorageLocked
  else match vo_fence v with
  | None => failS VUnvalidated
  | Some (ok, _) => if ok then checkBoundVolume else failS VUnvalidated
  end.
Definition readFenceTTL : Z := 1000000000.
Definition validateRead (lockFree : bool) : V unit :=
  let! v := getS in
  match vo_fence v with None => prepareStorageLocked | Some _ => checkStorageWithoutWaiting lockFree readFenceTTL end.
Definition ProbeStorage (lockFree : bool) : V unit := checkStorageWithoutWaiting lockFree 0.

(** ** The commit *)

(** [func commitPublishedLocked(dir string, sources, paths []string, published map[string]Published, fn func() error) error];
    the notifier is [requestRescan]. *)
Definition commitPublishedLocked (sources paths : list string) (published : gmap string (Info * string)) (fn : W unit) : V unit :=
  do! prepareStorageLocked then
  do! (match sources with [] => retS tt | _ => inWorld (checkSourcesLocked sources) end) then
  do! inWorld (beginCommitLocked paths) then
  let! r := tryS (inWorld fn) in
  let! rv := tryS (match r with Ok _ => retS tt | Err _ => prepareStorageLocked end) in
  match rv with
  | Err _ => liftS (match r with Ok _ => rv | Err e => Err e end)
  | Ok _ =>
      let! rf := tryS (inWorld (finishCommitLocked paths published)) in
      do! inWorld requestRescan then
      match r with Err e => failS e | Ok _ => liftS rf end
  end.

(** [Commit], [CommitFrom] and [Do] *)
Definition CommitFrom (sources paths : list string) (fn : W unit) : V unit := commitPublishedLocked sources paths ∅ fn.
Definition Commit (paths : list string) (fn : W unit) : V unit := CommitFrom [] paths fn.
Definition Do (fn : W unit) : V unit := do! prepareStorageLocked then inWorld fn.
End Commits.

(** ** What indexing leaves alone *)

(** The tables a commit is about. *)
Definition tables (s : Store) : gmap string FileMeta * gmap string encoded * gset string := (files (db s), replica_intents (db s), local_intents (db s)).
Definition idle (s s' : Store) : Prop := tables s' = tables s.
#[export] Instance idle_preorder : PreOrder idle.
Proof. split; [done|]. intros s1 s2 s3 H1 H2. unfold idle in *. congruence. Qed.

Lemma untouched_idle s s' : untouched s s' -> idle s s'.
Proof. intros U. unfold idle, tables. by rewrite (untouched_db _ _ U). Qed.
Lemma idle_query {A} (f : DB -> A) : keeps idle (query f).
Proof. intros s. apply untouched_idle, keeps_query. Qed.
Lemma idle_modify f : (forall s, db (f s) = db s) -> keeps idle (modifyS f : St unit).
Proof. intros Hf s. unfold idle, tables. cbn. by rewrite Hf. Qed.
Lemma idle_exec (f : DB -> DB) : (forall d, (files (f d), replica_intents (f d), local_intents (f d)) = (files d, replica_intents d, local_intents d)) -> keeps idle (exec f).
Proof.
  intros Hf s. destruct (exec f s) as [[a|e] s'] eqn:E; cbn; [apply exec_Ok in E as [Hd _]; unfold idle, tables; rewrite Hd; apply Hf|].
  apply exec_Err in E as [_ E]. by apply untouched_idle.
Qed.
Lemma idle_transact {A} (body : St (bool * A)) : keeps memory_kept body -> keeps idle body -> keeps idle (transact body).
Proof.
  intros Hm Hr s. destruct (transact body s) as [[a|e] s'] eqn:E; cbn.
  - apply transact_Ok in E as (_ & b & s0 & s1 & U & E & Hd); [|done]. unfold idle, tables. rewrite Hd. destruct b; [|done].
    specialize (Hr s0). rewrite E in Hr. unfold idle, tables in Hr. cbn in Hr. by rewrite <- (untouched_db _ _ U).
  - apply transact_Err in E; [|done]. by apply untouched_idle.
Qed.
Lemma idle_try {A} (c : St A) : keeps idle c -> keeps idle (tryS c).
Proof. intros Hc s. specialize (Hc s). unfold tryS. by destruct (c s). Qed.

Lemma idle_CheckName `{NameFolding} name : keeps idle (CheckName name).
Proof. intros s. destruct (CheckName name s) as [r s'] eqn:E. assert (keeps untouched (CheckName name)) as K by (unfold CheckName, checkPart; eauto 10 with birak).
  specialize (K s). rewrite E in K. by apply untouched_idle. Qed.
Lemma idle_GetFile name : keeps idle (GetFile name).
Proof. apply idle_query. Qed.
Lemma idle_HasLocalIntent name : keeps idle (HasLocalIntent name).
Proof. unfold HasLocalIntent, LocalIntents. apply keeps_bind; [apply _|apply idle_query|]. intros l. apply keeps_ret, _. Qed.
Lemma idle_ReplicaIntent name : keeps idle (ReplicaIntent name).
Proof. unfold ReplicaIntent. pose proof (@idle_query). eauto 10 with birak. Qed.
Lemma idle_SetQuarantined name key : keeps idle (SetQuarantined name key).
Proof.
  unfold SetQuarantined. apply keeps_bind; [apply _|by apply idle_modify|]. intros _. apply idle_transact; [apply keeps_set_tx|].
  repeat (apply keeps_bind; [apply _|by apply idle_exec|]; intros _). apply keeps_ret, _.
Qed.
Lemma idle_ClearQuarantine name key : keeps idle (ClearQuarantine name key).
Proof.
  unfold ClearQuarantine. apply keeps_bind; [apply _| |intros _; by apply idle_modify].
  apply idle_transact; [apply keeps_clear_tx|]. apply keeps_bind; [apply _|by apply idle_exec|]. intros _.
  apply keeps_bind; [apply _| |intros _; apply keeps_ret, _]. destruct (key =s ""); [apply keeps_ret, _|by apply idle_exec].
Qed.
Lemma idle_enqueue_loop now peer reason limit queued bs batch : keeps idle (enqueue_loop now peer reason limit queued bs batch).
Proof.
  revert bs. induction batch as [|c batch IH]; intros bs; cbn [enqueue_loop]; [apply keeps_ret, _|].
  apply keeps_bind; [apply _|apply idle_query|]. intros row. cbv zeta. destruct (_ && _); [apply keeps_ret, _|].
  destruct (match qc_meta c with Some _ => _ | None => _ end); [apply IH|].
  apply keeps_bind; [apply _|by apply idle_exec|]. intros _. apply IH.
Qed.
Lemma idle_EnqueueChange now peer meta reason : keeps idle (EnqueueChange now peer meta reason).
Proof.
  unfold EnqueueChange, enqueue. apply keeps_bind; [apply _|apply idle_transact; [apply keeps_enqueue_tx|]|].
  - unfold enqueue_tx, readRevision, queuedFor. pose proof (@idle_query).
    do 5 (apply keeps_bind; [apply _|eauto using keeps_get, idle_preorder with birak|intros ?]).
    apply keeps_bind; [apply _|apply idle_enqueue_loop|]. intros [bs full]. destruct (bs_written bs =? 0); [apply keeps_ret, _|].
    apply keeps_bind; [apply _|by apply idle_exec|]. intros _. apply keeps_ret, _.
  - intros [bs full]. destruct (bs_written bs =? 0); [apply keeps_ret, _|]. apply keeps_bind; [apply _|by apply idle_modify|]. intros _.
    apply keeps_bind; [apply _| |intros _; apply keeps_ret, _]. destruct (0 <? bs_fresh bs); by apply idle_modify.
Qed.

(** One name's entry: the same file with at least as much of it flushed, a directory that may be
    gone, or the very same entry. *)
Definition heldAt (n : string) (t t' : gmap string node) : Prop :=
  match t !! n with
  | Some (NFile i) => exists i', t' !! n = Some (NFile i') /\ in_bytes i' = in_bytes i /\ sameFile i i' = true /\ (in_flushed i = true -> in_flushed i' = true)
  | Some NDir => t' !! n = Some NDir \/ t' !! n = None
  | x => t' !! n = x
  end.
#[export] Instance heldAt_preorder n : PreOrder (heldAt n).
Proof.
  split.
  - intros t. unfold heldAt. destruct (t !! n) as [[i| | |]|] eqn:E; auto. exists i. rewrite sameFile_spec. done.
  - intros t1 t2 t3 H1 H2. unfold heldAt in *. destruct (t1 !! n) as [[i| | |]|]; [|destruct H1 as [E|E]| | |]; try (rewrite ?H1, ?E in H2; auto; done).
    destruct H1 as (i' & E & B & S & F). rewrite E in H2. destruct H2 as (i'' & E' & B' & S' & F'). exists i''.
    rewrite sameFile_spec in *. split; [done|]. split; [congruence|]. destruct S, S'. split; [split; congruence|auto].
Qed.

(** The volume as indexing leaves it. *)
Record steady (w w' : World) : Prop := mkSteady {
  sy_entry : forall n, heldAt n (wd_tree w) (wd_tree w');
  sy_backed : forall n b, backed n b w -> backed n b w';
  sy_busy : wd_busy w' = wd_busy w
}.
#[export] Instance steady_preorder : PreOrder steady.
Proof.
  split; [intros w; split; [intros n; reflexivity|done|done]|]. intros w1 w2 w3 [H1 H2 H3] [H4 H5 H6]. split; [intros n; etrans; [apply H1|apply H4]|auto|congruence].
Qed.

Lemma steady_frame w w' : wd_tree w' = wd_tree w -> wd_durable w' = wd_durable w -> wd_busy w' = wd_busy w -> steady w w'.
Proof. intros E1 E2 E3. split; [intros n; by rewrite E1|intros n b; unfold backed; by rewrite E1, E2|done]. Qed.
Lemma steady_sysW : keeps steady sysW.
Proof. intros w. destruct (sysW_frame w) as (? & ? & ? & ?). by apply steady_frame. Qed.
Lemma steady_inStore {A} (c : St A) : keeps steady (inStore c).
Proof. intros w. unfold inStore, zoomS. destruct (c (wd_store w)). by apply steady_frame. Qed.
Lemma steady_notes f : keeps steady (modifyS (fun w => set_notes (f w) w) : W unit).
Proof. intros w. by apply steady_frame. Qed.
Lemma steady_try {A} (c : W A) : keeps steady c -> keeps steady (tryS c).
Proof. intros Hc w. specialize (Hc w). unfold tryS. by destruct (c w). Qed.

Lemma heldAt_insert n q f t i : mild f -> t !! q = Some (NFile i) -> heldAt n t (<[q := NFile (f i)]> t).
Proof.
  intros Hf E. unfold heldAt. destruct (decide (q = n)) as [<-|Hne].
  - rewrite E, lookup_insert_eq. exists (f i). destruct (Hf i) as (? & ? & ? & ?). done.
  - rewrite lookup_insert_ne by done. destruct (t !! n) as [[j| | |]|]; eauto. exists j. rewrite sameFile_spec. done.
Qed.
Lemma steady_updFile f p : mild f -> keeps steady (updFile f p).
Proof.
  intros Hf w. split.
  - intros n. unfold updFile. cbn. set (q := resolve _ _). destruct (wd_tree w !! q) as [[i| | |]|] eqn:E; try reflexivity.
    destruct (wd_durable w !! q) as [[j| | |]|]; [destruct (sameFile i j)| | | |]; by apply heldAt_insert.
  - intros n b. apply (still_updFile n f p Hf w).
  - unfold updFile. cbn. destruct (wd_tree w !! _) as [[i| | |]|]; try done. destruct (wd_durable w !! _) as [[j| | |]|]; [destruct (sameFile i j)| | | |]; done.
Qed.
Lemma steady_flushEntry p : keeps steady (flushEntry p).
Proof.
  intros w. split; [|intros n b; apply (still_flushEntry n p w)|].
  - intros n. unfold flushEntry, bindS. pose proof (steady_sysW w) as [K _ _]. destruct (sysW w) as [[[]|e] w1]; apply K.
  - unfold flushEntry, bindS. pose proof (steady_sysW w) as [_ _ K]. destruct (sysW w) as [[[]|e] w1]; apply K.
Qed.

#[export] Hint Resolve idle_query idle_CheckName idle_GetFile idle_HasLocalIntent idle_ReplicaIntent idle_SetQuarantined idle_ClearQuarantine idle_EnqueueChange
  steady_sysW steady_inStore steady_notes steady_try steady_flushEntry : birak.

Lemma steady_lstat p : keeps steady (lstat p).
Proof. unfold lstat. still. Qed.
Lemma steady_stat p : keeps steady (stat p).
Proof. unfold stat. still. Qed.
Lemma steady_getStore : keeps steady getStore.
Proof. unfold getStore. still. Qed.
Lemma steady_SyncSurvivingParent p : keeps steady (SyncSurvivingParent p).
Proof. unfold SyncSurvivingParent. still. Qed.
Lemma steady_chtimes st p t : keeps steady (chtimes st p t).
Proof. unfold chtimes. pose proof (steady_updFile _ p (mild_stamped (st t))). still. Qed.
Lemma steady_syncPath p : keeps steady (syncPath p).
Proof. unfold syncPath. pose proof (steady_updFile _ p mild_flushed). still. Qed.
Lemma steady_Snapshot sha p : keeps steady (Snapshot sha p).
Proof. unfold Snapshot. pose proof steady_stat. still. Qed.

Lemma steady_rmdir dir w : wd_tree w !! dir = Some NDir -> steady w (set_tree (delete dir (wd_tree w)) w).
Proof.
  intros E. split; [|intros n b; apply (still_rmdir n dir w E)|done]. intros n. unfold heldAt. cbn. destruct (decide (dir = n)) as [<-|Hne].
  - rewrite E, lookup_delete_eq. by right.
  - rewrite lookup_delete_ne by done. destruct (wd_tree w !! n) as [[j| | |]|]; eauto. exists j. rewrite sameFile_spec. done.
Qed.
Lemma steady_clean fuel dir : keeps steady (clean_loop fuel dir).
Proof.
  revert dir. induction fuel as [|fuel IH]; intros dir; cbn [clean_loop]; [still|]. destruct (dir =s "."); [still|].
  intros w. unfold bindS at 1. cbn [getS]. destruct (negb (emptyDirectory dir (wd_tree w)) || BusyTreeLocked dir w) eqn:E; [reflexivity|].
  apply orb_false_iff in E as [E _]. apply negb_false_iff, andb_true_iff in E as [E _]. apply bool_decide_eq_true in E.
  unfold bindS at 1. pose proof (steady_try sysW steady_sysW w) as Hs. destruct (tryS sysW w) as [[r|e] w1] eqn:E1; [|done].
  destruct r as [u|e]; [|done]. etrans; [exact Hs|].
  assert (wd_tree w1 = wd_tree w) as Et by (revert E1; unfold tryS, sysW; destruct (wd_faults w) as [|[] ?]; intros [=]; by subst).
  unfold bindS at 1. cbn [modifyS]. etrans.
  { instantiate (1 := set_tree (delete dir (wd_tree w1)) w1). rewrite <- Et in E. by apply steady_rmdir. }
  apply (keeps_bind steady); [apply steady_try, steady_flushEntry|]. intros [?|?]; [apply IH|apply keeps_ret, _].
Qed.
#[export] Hint Resolve steady_lstat steady_stat steady_getStore steady_SyncSurvivingParent steady_chtimes steady_syncPath steady_Snapshot steady_clean : birak.

(** ** Rows that describe the disk *)

Section Describes.
Context `{NameFolding} (sha256Hex : string -> string).

(** What a state says of an entry. A link's row is a copy of its target's and is not followed
    here. *)
Definition fitsEntry (m : FileMeta) (x : option node) : Prop :=
  match x with
  | Some (NFile i) => Deleted m = false /\ sha256Hex (in_bytes i) = Hash m /\ slen (in_bytes i) = Size m
  | Some (NLink _) => True
  | _ => Deleted m = true
  end.
Definition describes (row : option FileMeta) (x : option node) : Prop :=
  match row with Some m => fitsEntry m x | None => match x with Some (NFile _) => False | _ => True end end.
Definition indexedAt (n : string) (w : World) : Prop := describes (rowsOf w !! n) (wd_tree w !! n).

Lemma fitsEntry_held m n t t' : heldAt n t t' -> fitsEntry m (t !! n) -> fitsEntry m (t' !! n).
Proof.
  unfold heldAt. destruct (t !! n) as [[i| | |]|]; [intros (i' & -> & Hb & _)|intros [-> | ->]|intros ->..]; try done. cbn. by rewrite Hb.
Qed.
Lemma describes_held row n t t' : heldAt n t t' -> describes row (t !! n) -> describes row (t' !! n).
Proof.
  intros Hh. destruct row as [m|]; [by apply fitsEntry_held|]. unfold heldAt in Hh. destruct (t !! n) as [[i| | |]|]; [done|destruct Hh as [-> | ->]; done|by rewrite Hh..].
Qed.

(** What a step of indexing may do: no name that was described stops being so. *)
Record advances (w w' : World) : Prop := mkAdvances {
  ad_steady : steady w w';
  ad_indexed : forall n, indexedAt n w -> indexedAt n w';
  ad_locals : local_intents (db (wd_store w')) = local_intents (db (wd_store w));
  ad_replicas : replica_intents (db (wd_store w')) ⊆ replica_intents (db (wd_store w));
  ad_keyed : well_keyed (db (wd_store w)) -> well_keyed (db (wd_store w'));
  ad_rows : dom (rowsOf w) ⊆ dom (rowsOf w');
  ad_row : forall n, rowsOf w' !! n = rowsOf w !! n \/ indexedAt n w'
}.
#[export] Instance advances_preorder : PreOrder advances.
Proof.
  split; [intros w; split; [reflexivity|done..|by left]|]. intros w1 w2 w3 [S1 I1 L1 R1 K1 D1 Q1] [S2 I2 L2 R2 K2 D2 Q2]. split; [by etrans|auto|congruence|by etrans|auto|by etrans|].
  intros n. destruct (Q2 n) as [E2|?]; [|by right]. destruct (Q1 n) as [E1|?]; [left; congruence|right; auto].
Qed.

Definition quiet (w w' : World) : Prop := steady w w' /\ idle (wd_store w) (wd_store w').
#[export] Instance quiet_preorder : PreOrder quiet.
Proof. split; [intros w; split; reflexivity|]. intros w1 w2 w3 [] []. split; by etrans. Qed.

Lemma quiet_advances w w' : quiet w w' -> advances w w'.
Proof.
  intros [Hs Hi]. unfold idle, tables in Hi. injection Hi as H1 H2 H3. split; [done| |done|by rewrite H2|unfold well_keyed; by rewrite H1|unfold rowsOf; by rewrite H1|intros n; left; unfold rowsOf; by rewrite H1].
  intros n. unfold indexedAt, rowsOf. rewrite H1. apply describes_held, Hs.
Qed.

Lemma quiet_inStore {A} (c : St A) : keeps idle c -> keeps quiet (inStore c).
Proof. intros Hc w. split; [apply steady_inStore|]. specialize (Hc (wd_store w)). unfold inStore, zoomS. by destruct (c (wd_store w)). Qed.
Lemma quiet_sysW : keeps quiet sysW.
Proof. intros w. split; [apply steady_sysW|]. destruct (sysW_frame w) as (_ & _ & E & _). unfold wd_store. by rewrite E. Qed.
Lemma quiet_notes f : keeps quiet (modifyS (fun w => set_notes (f w) w) : W unit).
Proof. intros w. split; [apply steady_notes|done]. Qed.
Lemma quiet_try {A} (c : W A) : keeps quiet c -> keeps quiet (tryS c).
Proof. intros Hc w. specialize (Hc w). unfold tryS. by destruct (c w). Qed.
Lemma quiet_updFile f p : mild f -> keeps quiet (updFile f p).
Proof.
  intros Hf w. split; [by apply steady_updFile|]. unfold updFile. cbn. destruct (wd_tree w !! _) as [[i| | |]|]; try reflexivity.
  destruct (wd_durable w !! _) as [[j| | |]|]; [destruct (sameFile i j)| | | |]; reflexivity.
Qed.
Lemma quiet_flushEntry p : keeps quiet (flushEntry p).
Proof.
  intros w. split; [apply steady_flushEntry|]. pose proof (quiet_sysW w) as [_ K]. unfold flushEntry, bindS. destruct (sysW w) as [[[]|e] w1]; exact K.
Qed.
End Describes.

#[export] Hint Resolve quiet_inStore quiet_sysW quiet_notes quiet_try quiet_flushEntry : birak.

Lemma quiet_lstat p : keeps quiet (lstat p).
Proof. unfold lstat. still. Qed.
Lemma quiet_stat p : keeps quiet (stat p).
Proof. unfold stat. still. Qed.
Lemma quiet_getStore : keeps quiet getStore.
Proof. unfold getStore. still. Qed.
Lemma quiet_SyncSurvivingParent p : keeps quiet (SyncSurvivingParent p).
Proof. unfold SyncSurvivingParent. still. Qed.
Lemma quiet_chtimes st p t : keeps quiet (chtimes st p t).
Proof. unfold chtimes. pose proof (quiet_updFile _ p (mild_stamped (st t))). still. Qed.
Lemma quiet_syncPath p : keeps quiet (syncPath p).
Proof. unfold syncPath. pose proof (quiet_updFile _ p mild_flushed). still. Qed.
Lemma quiet_Snapshot sha256Hex p : keeps quiet (Snapshot sha256Hex p).
Proof. unfold Snapshot. pose proof quiet_stat. still. Qed.
Lemma quiet_clean fuel dir : keeps quiet (clean_loop fuel dir).
Proof.
  intros w. split; [apply steady_clean|].
  assert (keeps (fun w w' => wd_store w' = wd_store w) (clean_loop fuel dir)) as K; [|unfold idle; by rewrite (K w)].
  clear. assert (PreOrder (fun w w' => wd_store w' = wd_store w)) by (split; [done|intros ??? -> ->; done]).
  assert (keeps (fun w w' => wd_store w' = wd_store w) sysW) as Ks by (intros w; destruct (sysW_frame w) as (_ & _ & E & _); unfold wd_store; by rewrite E).
  assert (forall A (c : W A), keeps (fun w w' => wd_store w' = wd_store w) c -> keeps (fun w w' => wd_store w' = wd_store w) (tryS c)) as Kt
    by (intros A c Hc w; specialize (Hc w); unfold tryS; by destruct (c w)).
  revert dir. induction fuel as [|fuel IH]; intros dir; cbn [clean_loop]; [still|]. destruct (dir =s "."); [still|].
  apply keeps_bind; [done|still|]. intros w0. destruct (_ || _); [still|]. apply keeps_bind; [done|by apply Kt|]. intros [?|?]; [|still].
  apply keeps_bind; [done|by intros w|]. intros _. apply keeps_bind; [done| |].
  - apply Kt. intros w. specialize (Ks w). unfold flushEntry, bindS. destruct (sysW w) as [[[]|e] w1]; exact Ks.
  - intros [?|?]; [apply IH|still].
Qed.
#[export] Hint Resolve quiet_lstat quiet_stat quiet_getStore quiet_SyncSurvivingParent quiet_chtimes quiet_syncPath quiet_Snapshot quiet_clean : birak.

Section QuietSteps.
Context `{NameFolding} (sha256Hex : string -> string) (stored : Z -> Z) (granularity : Z).
Context (ignorePatterns : list string) (repairPeers : list string) (now : Z).

Lemma quiet_clearIntegrity n key : keeps quiet (clearIntegrity n key).
Proof. unfold clearIntegrity, requestRescan. still. Qed.
Lemma quiet_quarantineFor {A} meta reason : keeps quiet (quarantineFor repairPeers now meta reason : W A).
Proof. unfold quarantineFor, RevokeGenerationLocked. still. Qed.
Lemma quiet_readFailed {A} existing e : keeps quiet (readFailed repairPeers now existing e : W A).
Proof. unfold readFailed. pose proof (fun m r => @quiet_quarantineFor A m r). still. Qed.
Lemma quiet_snapshot n pre : keeps quiet (snapshot sha256Hex n pre).
Proof. unfold snapshot. still. Qed.
Lemma quiet_unchangedByStat n : keeps quiet (unchangedByStat granularity n).
Proof. unfold unchangedByStat, NeedsRepair. still. Qed.
Lemma quiet_inspectRegular n existing info hash : keeps quiet (inspectRegular stored granularity repairPeers now n existing info hash).
Proof. unfold inspectRegular. pose proof (fun m r => @quiet_quarantineFor (option FileEvent) m r). pose proof quiet_clearIntegrity. still. Qed.
Lemma quiet_intentMatches name meta st : keeps quiet (intentMatches sha256Hex stored granularity name meta st).
Proof. unfold intentMatches. still. Qed.
End QuietSteps.

(** ** Indexing one name *)

Section Indexes.
Context `{NameFolding} (sha256Hex : string -> string) (stored : Z -> Z) (granularity : Z).
Context (ignorePatterns : list string) (repairPeers : list string) (now : Z).
Abbreviation adv := (advances sha256Hex).

Lemma adv_bind {A B} (c : W A) (k : A -> W B) w : adv w (c w).2 ->
  (forall a w1, c w = (Ok a, w1) -> adv w w1 -> adv w1 (k a w1).2) -> adv w (bindS c k w).2.
Proof. intros Hc Hk. unfold bindS. destruct (c w) as [[a|e] w1]; cbn in *; [|done]. etrans; [done|by apply Hk]. Qed.
Lemma adv_quiet {A} (c : W A) w : keeps quiet c -> adv w (c w).2.
Proof. intros Hc. apply quiet_advances, Hc. Qed.
Lemma adv_quiet_bind {A B} (c : W A) (k : A -> W B) w : keeps quiet c ->
  (forall a w1, c w = (Ok a, w1) -> quiet w w1 -> adv w1 (k a w1).2) -> adv w (bindS c k w).2.
Proof.
  intros Hc Hk. specialize (Hc w). apply adv_bind; [by apply quiet_advances|]. intros a w1 R _. rewrite R in Hc. by apply Hk.
Qed.

(** The fields a row takes from the state it was made of. *)
Lemma putState_fits d meta local ver x : fitsEntry sha256Hex meta x -> fitsEntry sha256Hex (committed (putState d meta local) ver now) x.
Proof.
  assert (Hash (putState d meta local) = Hash meta /\ Size (putState d meta local) = Size meta /\ Deleted (putState d meta local) = Deleted meta) as (E1 & E2 & E3).
  { unfold putState. destruct local; [|done]. destruct (AdvanceClock_fields meta (observedClock d (Name meta))) as (_ & _ & ? & ? & ? & _). done. }
  unfold fitsEntry. cbn. by rewrite E1, E2, E3.
Qed.

Lemma commit_advances meta local w : fitsEntry sha256Hex meta (wd_tree w !! Name meta) -> adv w (inStore (commitPut now meta local) w).2.
Proof.
  intros Hf. unfold inStore, zoomS. destruct (commitPut now meta local (wd_store w)) as [r s'] eqn:E. pose proof E as E0. apply commitPut_rows in E. destruct r as [ver|e].
  - destruct E as [E1 E2]. assert (local_intents (db s') = local_intents (db (wd_store w))) as E3.
    { unfold commitPut in E0. apply bindS_Ok in E0 as (v & s1 & E & Ex). apply transact_Ok in E as (_ & b & s0 & s2 & Hu & E & Hdb); [|apply keeps_commitPut_tx].
      apply commitPut_tx_Ok in E as (-> & _ & _ & t & nn & _ & _ & _ & Hd). rewrite (untouched_db _ _ Hu) in Hd.
      unfold bindS, modifyS, retS in Ex. injection Ex as <- <-. cbn. rewrite Hdb, Hd. reflexivity. }
    split; cbn.
    + by apply steady_frame.
    + intros n. unfold indexedAt, rowsOf. cbn. rewrite E1. destruct (decide (Name meta = n)) as [<-|Hn]; [|by rewrite lookup_insert_ne].
      rewrite lookup_insert_eq. intros _. by apply putState_fits.
    + done.
    + rewrite E2. apply delete_subseteq.
    + intros Hk n r. rewrite E1. destruct (decide (Name meta = n)) as [<-|Hn]; [|rewrite lookup_insert_ne by done; apply Hk].
      rewrite lookup_insert_eq. intros [= <-]. cbn. apply putState_name.
    + unfold rowsOf. cbn. rewrite E1. intros n Hn. rewrite elem_of_dom in *. by apply lookup_insert_is_Some'; right.
    + intros n. unfold indexedAt, rowsOf. cbn. rewrite E1. destruct (decide (Name meta = n)) as [<-|Hn]; [right|left; by rewrite lookup_insert_ne].
      rewrite lookup_insert_eq. by apply putState_fits.
  - apply quiet_advances. split; [by apply steady_frame|]. apply untouched_idle. by apply commitPut_Err in E0.
Qed.

(** After a successful commit of a state that fits, the name is indexed. *)
Lemma commit_indexes meta local w ver w' : fitsEntry sha256Hex meta (wd_tree w !! Name meta) -> inStore (commitPut now meta local) w = (Ok ver, w') -> indexedAt sha256Hex (Name meta) w'.
Proof.
  intros Hf R. apply inStoreW_Ok in R as (s' & R & ->). apply commitPut_rows in R as [R _]. unfold indexedAt, rowsOf. cbn. rewrite R, lookup_insert_eq. by apply putState_fits.
Qed.

Lemma quiet_fits m w w' n : quiet w w' -> fitsEntry sha256Hex m (wd_tree w !! n) -> fitsEntry sha256Hex m (wd_tree w' !! n).
Proof. intros [[He _ _] _]. by apply fitsEntry_held. Qed.

Lemma entryOf_fits w m b : entryOf sha256Hex w m b -> fitsEntry sha256Hex m (wd_tree w !! Name m).
Proof. intros [Hf He]. destruct b as [bytes|]; cbn in Hf; [|by destruct He as [-> | ->]]. destruct He as (i & -> & <-). done. Qed.

Lemma quiet_link w w' n t : quiet w w' -> wd_tree w !! n = Some (NLink t) -> wd_tree w' !! n = Some (NLink t).
Proof. intros [[He _ _] _] E. specialize (He n). unfold heldAt in He. by rewrite E in He. Qed.

(** Whether or not the name is a link. *)
Lemma link_or_not (w : World) n : (exists t, wd_tree w !! n = Some (NLink t)) \/ (forall t, wd_tree w !! n <> Some (NLink t)).
Proof. destruct (wd_tree w !! n) as [[| |t|]|]; eauto; by right. Qed.

Lemma recover_advances name w : intents_named (db (wd_store w)) -> adv w (recoverReplicaLocked sha256Hex stored granularity now name w).2.
Proof.
  intros Hn. unfold recoverReplicaLocked. apply adv_quiet_bind; [still|]. intros intent w1 R1 K1.
  apply inStoreW_Ok in R1 as (s' & R1 & ->). apply ReplicaIntent_Ok in R1 as [Ei _]. destruct intent as [meta|]; [|reflexivity].
  assert (Name meta = name) as <-.
  { destruct (replica_intents (db (wd_store w)) !! name) as [e|] eqn:E; [|done]. by apply (Hn name e meta). }
  set (w1 := set_store s' w) in *. apply adv_quiet_bind; [still|]. intros st w2 R2 K2. apply tryS_Ok in R2.
  apply adv_quiet_bind; [apply quiet_intentMatches|]. intros matches w3 R3 K3. destruct matches.
  - assert (fitsEntry sha256Hex meta (wd_tree w3 !! Name meta)) as Hf.
    { destruct (link_or_not w2 (Name meta)) as [[t Et]|Hl2]; [by rewrite (quiet_link _ _ _ _ K3 Et)|].
      destruct st as [n|e]; [|done]. apply lstat_Ok in R2 as [-> T2].
      destruct (intentMatches_true sha256Hex stored granularity meta (wd_tree w1 !! Name meta) w2 w3 Hl2) as [b Hb]; [by rewrite T2|done|]. by eapply entryOf_fits. }
    apply adv_quiet_bind; [still|]. intros [] w4 _ K4. apply adv_quiet_bind; [still|]. intros [] w5 _ K5.
    assert (fitsEntry sha256Hex meta (wd_tree w5 !! Name meta)) as Hf5 by (eapply quiet_fits; [exact K5|]; eapply quiet_fits; [exact K4|done]).
    apply adv_bind; [by apply (commit_advances meta false)|]. intros ? ? _ _. reflexivity.
  - destruct st as [n|e]; [|reflexivity]. unfold inStore, zoomS, ClearReplicaIntent. destruct (exec _ (wd_store w3)) as [r s3] eqn:E. destruct r as [[]|e].
    + apply exec_Ok in E as [E _]. split; cbn; try by rewrite E.
      * by apply steady_frame.
      * intros n0. unfold indexedAt, rowsOf. cbn. by rewrite E.
      * rewrite E. apply delete_subseteq.
      * unfold rowsOf. cbn. by rewrite E.
      * intros n0. left. unfold rowsOf. cbn. by rewrite E.
    + apply quiet_advances. split; [by apply steady_frame|]. apply exec_Err in E as [_ E]. by apply untouched_idle.
Qed.

Lemma adv_named w w' : adv w w' -> intents_named (db (wd_store w)) -> intents_named (db (wd_store w')).
Proof. intros Ha Hn n e m He. apply Hn. eapply lookup_weaken; [exact He|apply Ha]. Qed.
Lemma adv_nolink w w' n : adv w w' -> (forall t, wd_tree w !! n <> Some (NLink t)) -> forall t, wd_tree w' !! n <> Some (NLink t).
Proof.
  intros [[He _ _] _ _ _ _ _ _] Hl t E. specialize (He n). unfold heldAt in He. destruct (wd_tree w !! n) as [[i| |t'|]|]; [destruct He as (i' & E' & _)|destruct He as [E' | E']|..]; rewrite ?E' in E; try congruence.
Qed.

Abbreviation inspect := (inspectFile sha256Hex stored granularity ignorePatterns repairPeers now).

Lemma inspect_advances target name opts w : (forall t w, intents_named (db (wd_store w)) -> adv w (target t w).2) -> intents_named (db (wd_store w)) ->
  adv w (inspect target name opts w).2.
Proof.
  intros Ht Hn. unfold inspectFile. destruct (_ || _); [reflexivity|]. apply adv_quiet_bind; [still|]. intros w0 w1 [= <- <-] _.
  destruct (BusyLocked name w); [reflexivity|]. apply adv_quiet_bind; [still|]. intros existing w2 _ K2.
  apply adv_quiet_bind; [still|]. intros n w3 _ K3.
  pose proof (fun n k => quiet_clearIntegrity n k) as C. pose proof (fun n pre => quiet_snapshot sha256Hex n pre) as C2.
  pose proof (fun ex e => quiet_readFailed (A := option FileEvent) repairPeers now ex e) as C3.
  pose proof (fun n ex info hash => quiet_inspectRegular stored granularity repairPeers now n ex info hash) as C4.
  assert (intents_named (db (wd_store w3))) as Hn3 by (eapply adv_named; [apply quiet_advances, K3|]; eapply adv_named; [apply quiet_advances, K2|done]).
  destruct n as [[i| |t|]|]; try (apply adv_quiet; unfold CleanEmptyParentsLocked; still; fail).
  apply adv_quiet_bind; [still|]. intros w4 w4' [= <- <-] _. destruct (safeSymlink ignorePatterns t w3) as [t'|]; [|apply adv_quiet; still].
  apply adv_quiet_bind; [still|]. intros [] w5 _ K5. apply adv_bind.
  { destruct (t' =s name); [reflexivity|]. apply Ht. eapply adv_named; [apply quiet_advances, K5|done]. }
  intros [] w6 _ _. apply adv_quiet. destruct (wd_tree w3 !! t') as [[]|]; still.
Qed.

(** Nothing to report means the row already describes the entry. *)
Lemma inspectRegular_None name existing info hash w w' : inspectRegular stored granularity repairPeers now name existing info hash w = (Ok None, w') ->
  exists m, existing = Some m /\ Deleted m = false /\ Hash m = hash /\ Size m = fi_size info.
Proof.
  unfold inspectRegular. intros R. apply bindS_Ok in R as (trusted & w1 & _ & R). apply bindS_Ok in R as (? & w2 & _ & R).
  apply bindS_Ok in R as (s1 & w3 & _ & R). destruct (_ && _); [by apply fail_quarantineFor in R|].
  destruct (_ && negb trusted); [by apply fail_quarantineFor in R|]. apply bindS_Ok in R as (s2 & w4 & _ & R). apply bindS_Ok in R as (? & w5 & _ & R).
  assert (forall b, live existing && match existing with Some m => Hash m =s hash | None => false end && b && match existing with Some m => Size m =? fi_size info | None => false end = true ->
    exists m, existing = Some m /\ Deleted m = false /\ Hash m = hash /\ Size m = fi_size info) as Hx.
  { intros b E. apply andb_true_iff in E as [E E3]. apply andb_true_iff in E as [E _]. apply andb_true_iff in E as [E1 E2]. destruct existing as [m|]; [|done].
    exists m. split; [done|]. split; [by apply negb_true_iff in E1|]. split; [by apply String.eqb_eq|by apply Z.eqb_eq]. }
  destruct (live existing && _ && _ && _) eqn:E1 in R; [by apply Hx in E1|]. destruct (negb trusted && _ && _ && _) eqn:E2 in R; [|done].
  apply (Hx true). rewrite andb_true_r. destruct trusted; [done|exact E2].
Qed.

(** Hashes a caller brings, whatever happened to the file's times meanwhile. *)
Definition hashes_sure (opts : indexOptions) (w : World) : Prop := forall name info hash i, io_published opts !! name = Some (info, hash) ->
  wd_tree w !! name = Some (NFile i) -> fi_dev info = in_dev i -> fi_ino info = in_ino i -> sha256Hex (in_bytes i) = hash.
Lemma sure_ok opts w name : hashes_sure opts w -> hashes_ok sha256Hex opts name w.
Proof. intros Hs info hash i E1 E2 <-. by eapply Hs. Qed.
Lemma sure_adv opts w w' : adv w w' -> hashes_sure opts w -> hashes_sure opts w'.
Proof.
  intros [[He _ _] _ _ _ _] Hs name info hash i E1 E2 E3 E4. specialize (He name). unfold heldAt in He.
  destruct (wd_tree w !! name) as [[j| |t|]|] eqn:E; [|destruct He as [He | He]|..]; try congruence. destruct He as (i' & Ei & Hb & Hi & _). rewrite E2 in Ei. injection Ei as <-.
  apply sameFile_spec in Hi as [D I]. rewrite Hb. eapply Hs; [done|done|congruence|congruence].
Qed.

Lemma GetFile_rows name w x w' : inStore (GetFile name) w = (Ok x, w') -> x = rowsOf w !! name /\ wd_tree w' = wd_tree w.
Proof. intros R. apply inStoreW_Ok in R as (s & R & ->). by apply query_Ok in R as [-> _]. Qed.

(** Absence that was handed to the caller instead of being published. *)
Definition deferred (opts : indexOptions) (name : string) (w : World) : Prop := io_deferDeletion opts = true /\ wd_tree w !! name = None /\ name ∈ nt_deferred (wd_notes w).

Lemma inspect_none target name opts w w' : (forall t, wd_tree w !! name <> Some (NLink t)) -> hashes_ok sha256Hex opts name w ->
  isOutsideSyncDir name = false -> ShouldIgnore name ignorePatterns = false ->
  inspect target name opts w = (Ok None, w') -> indexedAt sha256Hex name w \/ deferred opts name w'.
Proof.
  intros Hl Hp Ho Hi R. unfold inspectFile, shouldIgnore in R. rewrite Ho, Hi in R. cbn [orb] in R. apply bindS_Ok in R as (w0 & w1 & R1 & R). injection R1 as <- <-.
  destruct (BusyLocked name w); [done|]. apply bindS_Ok in R as (existing & w2 & R2 & R). apply GetFile_rows in R2 as [-> T2].
  apply bindS_Ok in R as (n & w3 & R3 & R). apply lstat_Ok in R3 as [-> T3]. rewrite T2 in R. unfold indexedAt.
  assert (live (rowsOf w !! name) = false -> (forall i, wd_tree w !! name <> Some (NFile i)) -> describes sha256Hex (rowsOf w !! name) (wd_tree w !! name)) as Hdead.
  { intros Hd' Hf. destruct (rowsOf w !! name) as [m|]; cbn in *; [apply negb_false_iff in Hd'|]; destruct (wd_tree w !! name) as [[i| |t|]|]; try done; by destruct (Hf i). }
  destruct (wd_tree w !! name) as [[i| |t|]|] eqn:E; [| |by destruct (Hl t)| |].
  - apply bindS_Ok in R as (snap & w4 & R4 & R). apply tryS_Ok in R4. destruct snap as [[info hash]|e]; [|by apply fail_readFailed in R].
    apply snapshot_Ok in R4 as (i' & Ei & -> & ->); [|by rewrite T3, T2, E|intros ??? ? Hx; rewrite T3, T2 in Hx; by eapply Hp].
    rewrite T3, T2, E in Ei. injection Ei as <-. apply inspectRegular_None in R as (m & -> & H1 & H2 & H3). by left.
  - apply bindS_Ok in R as (trusted & w4 & _ & R). destruct (_ && _); [done|]. destruct (live (rowsOf w !! name)); [done|]. left. by apply Hdead.
  - apply bindS_Ok in R as (trusted & w4 & _ & R). cbn in R. destruct (live (rowsOf w !! name)); [done|]. left. by apply Hdead.
  - destruct (live (rowsOf w !! name)); cbn in R; [|left; by apply Hdead]. destruct (io_deferDeletion opts) eqn:Hd.
    + injection R as <-. right. split; [done|]. split; [cbn; by rewrite T3, T2, E|]. cbn. set_solver.
    + apply bindS_Ok in R as (? & w4 & _ & R). by apply bindS_Ok in R as (? & w5 & _ & R).
Qed.

(** A report is about the name it was asked for. *)
Lemma inspect_name target name opts w ev w' : inspect target name opts w = (Ok (Some ev), w') -> ev_Name ev = name.
Proof.
  unfold inspectFile. destruct (_ || _); [done|]. intros R. apply bindS_Ok in R as (w0 & w1 & R1 & R). injection R1 as <- <-.
  destruct (BusyLocked name w); [done|]. apply bindS_Ok in R as (existing & w2 & _ & R). apply bindS_Ok in R as (n & w3 & _ & R).
  assert (forall (snap : result werr (Info * string)) w4, match snap with Ok (info, hash) => inspectRegular stored granularity repairPeers now name existing info hash
    | Err e => readFailed repairPeers now existing e end w4 = (Ok (Some ev), w') -> ev_Name ev = name) as Hreg.
  { intros [[info hash]|e] w4 R4; [by apply inspectRegular_Some in R4 as ->|by apply fail_readFailed in R4]. }
  destruct n as [[i| |t|]|].
  - apply bindS_Ok in R as (snap & w4 & _ & R). by apply Hreg in R.
  - apply bindS_Ok in R as (trusted & w4 & _ & R). destruct (_ && _); [by injection R as <- _|]. by destruct (live existing).
  - apply bindS_Ok in R as (w4 & w4' & _ & R). destruct (safeSymlink _ _ _) as [t'|]; [|by destruct (live existing)].
    apply bindS_Ok in R as ([] & w5 & _ & R). apply bindS_Ok in R as ([] & w6 & _ & R).
    destruct (wd_tree w4 !! t') as [[]|]; apply bindS_Ok in R as (x & w7 & _ & R); [by apply Hreg in R|by destruct (live existing)..].
  - apply bindS_Ok in R as (trusted & w4 & _ & R). cbn in R. by destruct (live existing).
  - destruct (live existing); cbn in R; [|by apply bindS_Ok in R as (? & w4 & _ & R)].
    destruct (io_deferDeletion opts); [by apply bindS_Ok in R as (? & w4 & _ & R)|].
    apply bindS_Ok in R as (? & w4 & _ & R). apply bindS_Ok in R as (? & w5 & _ & R). by injection R as <- _.
Qed.

(** Options under which success means the row describes the entry. *)
Definition thorough (opts : indexOptions) : Prop := io_trustStat opts = false /\ io_deferDeletion opts = false.
Definition watched (name : string) : Prop := isOutsideSyncDir name = false /\ ShouldIgnore name ignorePatterns = false.

(** The outcome of indexing one name. *)
Definition indexes (name : string) (opts : indexOptions) (w : World) (out : result werr unit * World) : Prop :=
  adv w out.2 /\ (out.1 = Ok tt -> io_trustStat opts = false -> watched name -> indexedAt sha256Hex name out.2 \/ deferred opts name out.2).
Lemma indexes_adv {A} name opts (c : W A) (k : A -> W unit) w : adv w (c w).2 ->
  (forall a w1, c w = (Ok a, w1) -> adv w w1 -> indexes name opts w1 (k a w1)) -> indexes name opts w (bindS c k w).
Proof.
  intros Hc Hk. unfold bindS. destruct (c w) as [[a|e] w1]; cbn in Hc; [|by split].
  destruct (Hk a w1 eq_refl Hc) as [H1 H2]. split; [by etrans|done].
Qed.

(** Flushing before the commit, where the caller did not. *)
Lemma publish_indexes ev opts w : fitsEntry sha256Hex (metaOf ev) (wd_tree w !! ev_Name ev) ->
  indexes (ev_Name ev) opts w ((do! (if negb (ev_Deleted ev) && negb (io_durable opts) then syncPath (ev_Name ev) else retS tt) then
    do! (if negb (io_durable opts) then SyncSurvivingParent (ev_Name ev) else retS tt) then
    let! _ := inStore (PutLocal now (metaOf ev)) in retS tt) w).
Proof.
  intros Hf. assert (keeps quiet (if negb (ev_Deleted ev) && negb (io_durable opts) then syncPath (ev_Name ev) else retS tt : W unit)) as K1 by still.
  apply indexes_adv; [by apply adv_quiet|]. intros [] w1 R1 _. specialize (K1 w). rewrite R1 in K1.
  assert (keeps quiet (if negb (io_durable opts) then SyncSurvivingParent (ev_Name ev) else retS tt : W unit)) as K2 by still.
  apply indexes_adv; [by apply adv_quiet|]. intros [] w2 R2 _. specialize (K2 w1). rewrite R2 in K2.
  assert (fitsEntry sha256Hex (metaOf ev) (wd_tree w2 !! Name (metaOf ev))) as Hf2 by (eapply quiet_fits; [exact K2|]; eapply quiet_fits; [exact K1|exact Hf]).
  apply indexes_adv; [by apply (commit_advances (metaOf ev) true)|]. intros ver w3 R3 _. split; [reflexivity|]. intros _ _ _.
  left. by apply (commit_indexes (metaOf ev) true w2 ver).
Qed.

Lemma refreshWith_indexes target name opts w : (forall t w, intents_named (db (wd_store w)) -> adv w (target t w).2) ->
  intents_named (db (wd_store w)) -> hashes_sure opts w ->
  indexes name opts w (refreshWith sha256Hex stored granularity ignorePatterns repairPeers now target name opts w).
Proof.
  intros Ht Hn Hp. unfold refreshWith. apply indexes_adv; [apply adv_quiet; still|]. intros [] w1 _ A1. apply indexes_adv; [apply adv_quiet; unfold CheckSpelling; still|].
  intros [] w2 _ A2. apply indexes_adv; [apply adv_quiet; still|]. intros w2' w2'' [= <- <-] _. destruct (BusyLocked name w2); [by split|].
  assert (adv w w2) as A by by etrans. assert (intents_named (db (wd_store w2))) as Hn2 by by eapply adv_named.
  apply indexes_adv; [by apply recover_advances|]. intros [] w3 _ A3. apply indexes_adv.
  { apply adv_quiet. destruct (io_trustStat opts); [apply quiet_unchangedByStat|apply keeps_ret, _]. }
  intros unchanged w4 R4 A4. destruct unchanged.
  { split; [reflexivity|]. intros _ Htr _. by rewrite Htr in R4. }
  assert (adv w w4) as A' by (do 2 (etrans; [|eassumption]); done). assert (intents_named (db (wd_store w4))) as Hn4 by by eapply adv_named.
  assert (hashes_sure opts w4) as Hp4 by by eapply sure_adv.
  pose proof (inspect_advances target name opts w4 Ht Hn4) as A5. apply indexes_adv; [done|]. intros ev w5 R5 A5'.
  destruct ev as [ev|].
  - assert (ev_Name ev = name /\ fitsEntry sha256Hex (metaOf ev) (wd_tree w5 !! name)) as [<- Hf]; [|by apply publish_indexes].
    destruct (link_or_not w4 name) as [[t Et]|Hl].
    + split; [by eapply inspect_name|]. assert (wd_tree w5 !! name = Some (NLink t)) as ->; [|done].
      destruct A5' as [[He _ _] _ _ _ _]. specialize (He name). unfold heldAt in He. by rewrite Et in He.
    + apply inspect_event in R5 as (Hname & b & He); [|done|by apply sure_ok]. split; [done|]. apply entryOf_fits in He. by rewrite <- Hname.
  - split; [reflexivity|]. intros _ _ [Ho Hi]. cbn. destruct (link_or_not w5 name) as [[t Et]|Hl5]; [left; unfold indexedAt, describes; rewrite Et; by destruct (rowsOf w5 !! name)|].
    destruct (link_or_not w4 name) as [[t Et]|Hl].
    + destruct A5' as [[He _ _] _ _ _ _]. specialize (He name). unfold heldAt in He. rewrite Et in He. by destruct (Hl5 t).
    + destruct (inspect_none target name opts w4 w5 Hl (sure_ok _ _ _ Hp4) Ho Hi R5) as [?|?]; [left; by apply A5'|by right].
Qed.
End Indexes.

(** ** Indexing paths *)

Lemma atOrUnder_refl n : atOrUnder n n = true.
Proof. unfold atOrUnder. by rewrite String.eqb_refl. Qed.
Lemma atOrUnder_spec p n : atOrUnder p n = true <-> n = p \/ HasPrefix n (p +:+ "/") = true.
Proof. unfold atOrUnder. by rewrite orb_true_iff, eqs_true. Qed.

(** The walk sees the tree as it stands. *)
Lemma below_elem root t n x : (n, x) ∈ below root t <-> t !! n = Some x /\ atOrUnder root n = true.
Proof.
  unfold below. rewrite elem_of_merge_sort, list_elem_of_filter, elem_of_map_to_list, atOrUnder_spec. cbn. tauto.
Qed.

Section Paths.
Context `{NameFolding} (sha256Hex : string -> string) (stored : Z -> Z) (granularity : Z).
Context (ignorePatterns : list string) (repairPeers : list string) (now : Z).
Context (mapOrder : gset string -> list string) (mapOrder_elem : forall N n, n ∈ mapOrder N <-> n ∈ N).
Abbreviation adv := (advances sha256Hex).
Abbreviation index := (indexPathsLocked sha256Hex stored granularity ignorePatterns repairPeers now mapOrder).

(** Names indexing is about: inside the directory, with nothing ignored on the way. *)
Definition tracked (n : string) : Prop := isOutsideSyncDir n = false /\ forall a, atOrUnder a n = true -> ShouldIgnore a ignorePatterns = false.

Lemma walk_names_spec entries skipped names w N w' : walk_names ignorePatterns entries skipped names w = (Ok N, w') ->
  names ⊆ N /\ (Forall (fun d => ShouldIgnore d ignorePatterns = true) skipped -> forall n x, (n, x) ∈ entries -> x <> NDir -> tracked n -> n ∈ N).
Proof.
  revert skipped names w. induction entries as [|[name node] entries IH]; intros skipped names w R; cbn in R; [injection R as <- <-; split; [done|]; intros _ n x Hin; by apply elem_of_nil in Hin|].
  assert (Forall (fun d => ShouldIgnore d ignorePatterns = true) skipped -> existsb (fun d => HasPrefix name (d +:+ "/")) skipped = true -> tracked name -> False) as Hskip.
  { intros Hf He Ht. apply existsb_exists in He as (d & Hd & Hp). rewrite Forall_forall in Hf. specialize (Hf d (proj2 (list_elem_of_In _ _) Hd)).
    destruct Ht as [_ Ht]. rewrite (Ht d) in Hf; [done|]. apply atOrUnder_spec. by right. }
  destruct (existsb _ skipped) eqn:Es.
  { destruct (IH _ _ _ R) as [H1 H2]. split; [done|]. intros Hf n x [[= -> ->]|Hin]%elem_of_cons Hx Ht; [by destruct (Hskip Hf eq_refl Ht)|by eapply H2]. }
  assert (forall skipped' names' w1, names ⊆ names' -> (Forall (fun d => ShouldIgnore d ignorePatterns = true) skipped -> Forall (fun d => ShouldIgnore d ignorePatterns = true) skipped') ->
    (node <> NDir -> tracked name -> name ∈ names') -> walk_names ignorePatterns entries skipped' names' w1 = (Ok N, w') ->
    names ⊆ N /\ (Forall (fun d => ShouldIgnore d ignorePatterns = true) skipped -> forall n x, (n, x) ∈ (name, node) :: entries -> x <> NDir -> tracked n -> n ∈ N)) as Hgo.
  { intros skipped' names' w1 Hn Hs Hk R1. destruct (IH _ _ _ R1) as [H1 H2]. split; [set_solver|]. intros Hf n x [[= -> ->]|Hin]%elem_of_cons Hx Ht; [set_solver|by eapply H2; [auto|..]]. }
  assert (forall names' w1, names' = (if shouldIgnore ignorePatterns name then names else {[name]} ∪ names) -> walk_names ignorePatterns entries skipped names' w1 = (Ok N, w') ->
    names ⊆ N /\ (Forall (fun d => ShouldIgnore d ignorePatterns = true) skipped -> forall n x, (n, x) ∈ (name, node) :: entries -> x <> NDir -> tracked n -> n ∈ N)) as Hfile.
  { intros names' w1 -> R1. eapply (Hgo skipped); [| done| |exact R1].
    - destruct (shouldIgnore ignorePatterns name); set_solver.
    - intros _ [_ Ht]. unfold shouldIgnore. rewrite (Ht name) by apply atOrUnder_refl. set_solver. }
  destruct node; try by eapply Hfile. unfold shouldIgnore in R. destruct (ShouldIgnore name ignorePatterns) eqn:Ei.
  - eapply Hgo; [done| |done|exact R]. intros Hf. by constructor.
  - apply bindS_Ok in R as ([] & w1 & _ & R). eapply Hgo; [done|by intros|done|exact R].
Qed.

Lemma quiet_walk entries skipped names : keeps quiet (walk_names ignorePatterns entries skipped names).
Proof.
  revert skipped names. induction entries as [|[name node] entries IH]; intros skipped names; cbn; [apply keeps_ret, _|].
  destruct (existsb _ _); [apply IH|]. destruct node; try apply IH. destruct (shouldIgnore _ _); [apply IH|]. apply keeps_bind; [apply _|apply quiet_sysW|]. intros _. apply IH.
Qed.
Lemma quiet_walkPath name names : keeps quiet (walkPath ignorePatterns name names).
Proof. unfold walkPath. pose proof quiet_walk. still. Qed.

Lemma walkPath_spec name names w N w' : walkPath ignorePatterns name names w = (Ok N, w') ->
  names ⊆ N /\ forall n x, wd_tree w !! n = Some x -> atOrUnder name n = true -> x <> NDir -> tracked n -> n ∈ N.
Proof.
  intros R. unfold walkPath in R. apply bindS_Ok in R as (n0 & w1 & R1 & R). apply lstat_Ok in R1 as [_ T]. apply bindS_Ok in R as (w2 & w2' & R2 & R). injection R2 as <- <-.
  apply walk_names_spec in R as [H1 H2]. split; [done|]. intros n x E Ha Hx Ht. eapply H2; [done| |done|done]. rewrite T. by apply below_elem.
Qed.

Lemma quiet_collect paths names : keeps quiet (collect_names ignorePatterns paths names).
Proof.
  revert names. induction paths as [|p paths IH]; intros names; cbn; [apply keeps_ret, _|]. destruct (shouldIgnore _ _); [apply IH|].
  apply keeps_bind; [apply _|apply quiet_inStore; unfold ListLiveSubtree, listSubtree; apply idle_query|]. intros previous. apply keeps_bind; [apply _|still|]. intros s. cbv zeta.
  apply keeps_bind; [apply _|apply quiet_walkPath|]. intros names'. apply IH.
Qed.

(** Names no path stands for need no work: nothing is there and no row says otherwise. *)
Lemma collect_names_spec paths names w N w' : well_keyed (db (wd_store w)) -> collect_names ignorePatterns paths names w = (Ok N, w') ->
  names ⊆ N /\ forall p n, p ∈ paths -> atOrUnder p n = true -> tracked n -> n ∈ N \/ describes sha256Hex (rowsOf w !! n) (wd_tree w !! n).
Proof.
  revert names w. induction paths as [|q paths IH]; intros names w Hk R; cbn in R; [injection R as <- <-; split; [done|]; intros p n Hp; by apply elem_of_nil in Hp|].
  unfold shouldIgnore in R. destruct (ShouldIgnore q ignorePatterns) eqn:Eq.
  { destruct (IH _ _ Hk R) as [H1 H2]. split; [done|]. intros p n [-> |Hp]%elem_of_cons Ha Ht; [|by eapply H2]. destruct Ht as [_ Ht]. by rewrite (Ht q Ha) in Eq. }
  apply bindS_Ok in R as (previous & w1 & R1 & R). apply inStoreW_Ok in R1 as (s1 & R1 & ->). pose proof R1 as R1'. unfold ListLiveSubtree, listSubtree in R1'. apply query_Ok in R1' as [_ U].
  pose proof (ListSubtree_exact q (wd_store w) s1 previous true Hk R1) as [_ Hrows]. apply bindS_Ok in R as (s2 & w2 & R2 & R). injection R2 as <- <-.
  apply bindS_Ok in R as (names2 & w3 & R3 & R). pose proof (quiet_walkPath q (list_to_set (map Name previous) ∪ list_to_set (List.filter (atOrUnder q) (QuarantinedNames (wd_store (set_store s1 w)))) ∪ names) (set_store s1 w)) as K3.
  rewrite R3 in K3. cbn in K3. pose proof R3 as R3'. apply walkPath_spec in R3' as [H3 H4].
  assert (rowsOf w3 = rowsOf w /\ forall n, heldAt n (wd_tree w) (wd_tree w3)) as [Er Ht3].
  { destruct K3 as [[He _ _] Hi]. unfold idle, tables in Hi. injection Hi as Hi _ _. cbn in Hi. split; [unfold rowsOf; by rewrite Hi, (untouched_db _ _ U)|exact He]. }
  assert (well_keyed (db (wd_store w3))) as Hk3 by (unfold well_keyed; change (files (db (wd_store w3))) with (rowsOf w3); by rewrite Er).
  destruct (IH names2 w3 Hk3 R) as [H5 H6]. split; [set_solver|]. intros p n [-> |Hp]%elem_of_cons Ha Ht.
  - destruct (rowsOf w !! n) as [m|] eqn:Em.
    + destruct (Deleted m) eqn:Ed.
      * destruct (wd_tree w !! n) as [x|] eqn:Ex; [|by right]. destruct (decide (x = NDir)) as [-> |Hx]; [by right|]. left. apply H5. by eapply (H4 n x).
      * left. apply H5, H3. pose proof (Hk n m Em) as Hn. assert (m ∈ previous) as Hm.
        { apply Hrows. rewrite Hn. split; [done|]. split; [by apply atOrUnder_spec|done]. }
        apply elem_of_union_l, elem_of_union_l, elem_of_list_to_set. rewrite <- Hn. by apply list_elem_of_fmap_2.
    + destruct (wd_tree w !! n) as [x|] eqn:Ex; [|by right]. destruct (decide (x = NDir)) as [-> |Hx]; [by right|]. left. apply H5. by eapply (H4 n x).
  - destruct (H6 p n Hp Ha Ht) as [?|Hd]; [by left|]. rewrite Er in Hd. destruct (decide (n ∈ N)) as [?|Hni]; [by left|right].
    specialize (Ht3 n). unfold heldAt in Ht3. destruct (wd_tree w !! n) as [[i| |t|]|]; [destruct Ht3 as (i' & E' & Hb & _)|destruct Ht3 as [E' | E']|..];
      try (rewrite E' in Hd); try (rewrite Ht3 in Hd); try done; destruct (rowsOf w !! n); cbn in *; try done; by rewrite Hb in Hd.
Qed.

Lemma refresh_indexes name opts w : intents_named (db (wd_store w)) -> hashes_sure sha256Hex opts w ->
  indexes sha256Hex ignorePatterns name opts w (refreshFileLocked sha256Hex stored granularity ignorePatterns repairPeers now name opts w).
Proof.
  intros Hn Hp. unfold refreshFileLocked. apply refreshWith_indexes; [|done|done]. intros t w1 Hn1. apply (refreshWith_indexes _ _ _ _ _ _ _ t noOptions); [|done|intros ???? E; cbn in E; by rewrite lookup_empty in E].
  intros t' w2 _. reflexivity.
Qed.

Lemma indexName_adv opts name w : intents_named (db (wd_store w)) -> hashes_sure sha256Hex opts w ->
  let out := indexName sha256Hex stored granularity ignorePatterns repairPeers now opts name w in
  adv w out.2 /\ (out.1 = Ok tt -> thorough opts -> io_allowIntegrity opts = false -> tracked name -> indexedAt sha256Hex name out.2).
Proof.
  intros Hn Hp. cbv zeta. unfold indexName, bindS, tryS. destruct (refresh_indexes name opts w Hn Hp) as [H1 H2].
  destruct (refreshFileLocked _ _ _ _ _ _ name opts w) as [[[]|e] w1]; cbn in *.
  - split; [done|]. intros _ [Ht Hd] _ [Ho Ha]. destruct (H2 eq_refl Ht) as [?|[Hd' _]]; [split; [done|]; apply Ha, atOrUnder_refl|done|congruence].
  - destruct (io_allowIntegrity opts && isIntegrityErr e) eqn:E; cbn; (split; [done|]); [|done]. intros _ _ Hf. by rewrite Hf in E.
Qed.

Lemma indexNames_adv opts names w : intents_named (db (wd_store w)) -> hashes_sure sha256Hex opts w ->
  let out := forS (indexName sha256Hex stored granularity ignorePatterns repairPeers now opts) names w in
  adv w out.2 /\ (out.1 = Ok tt -> thorough opts -> io_allowIntegrity opts = false -> forall n, n ∈ names -> tracked n -> indexedAt sha256Hex n out.2).
Proof.
  cbv zeta. revert w. induction names as [|name names IH]; intros w Hn Hp; cbn [forS]; [split; [reflexivity|]; intros _ _ _ n Hin; by apply elem_of_nil in Hin|].
  destruct (indexName_adv opts name w Hn Hp) as [A1 I1]. unfold bindS. destruct (indexName _ _ _ _ _ _ opts name w) as [[[]|e] w1]; cbn in A1, I1; [|by split].
  destruct (IH w1) as [A2 I2]; [by eapply adv_named|by eapply sure_adv|]. split; [by etrans|]. intros HOk Ht Hi n [-> |Hin]%elem_of_cons Htr; [|by apply I2].
  apply A2. by apply I1.
Qed.

(** Indexing paths disturbs no row, and when it succeeds every name at or below them has the row
    the disk asks for. *)
Lemma index_spec paths opts w : intents_named (db (wd_store w)) -> hashes_sure sha256Hex opts w ->
  let out := index paths opts w in
  adv w out.2 /\ (out.1 = Ok tt -> well_keyed (db (wd_store w)) -> thorough opts -> io_allowIntegrity opts = false ->
    forall p n, p ∈ paths -> atOrUnder p n = true -> tracked n -> indexedAt sha256Hex n out.2).
Proof.
  intros Hn Hp. cbv zeta. unfold indexPathsLocked, bindS. pose proof (quiet_collect paths ∅ w) as K1. destruct (collect_names ignorePatterns paths ∅ w) as [[N|e] w1] eqn:R; cbn in K1; [|split; [by apply quiet_advances|done]].
  apply (quiet_advances sha256Hex) in K1. destruct (indexNames_adv opts (mapOrder N) w1) as [A2 I2]; [by eapply adv_named|by eapply sure_adv|]. split; [by etrans|].
  intros HOk Hk Ht Hi p n Hin Ha Htr. apply collect_names_spec in R as [_ R]; [|done]. destruct (R p n Hin Ha Htr) as [HN|Hd]; [apply I2; [done..|by apply mapOrder_elem|done]|].
  apply A2, K1. exact Hd.
Qed.
End Paths.
