(* ===== verification/Accounting.v ===== *)
(** * Every change is accounted for

    What the hooks of commits.go keep true of a volume: a name whose row does not describe the
    disk is covered by an announced path, whatever fails and wherever. Interrupted commits are
    therefore found again, and an acknowledged one has its rows. *)

From S2P Require Import Prelude GoStrings Hoare FileMeta Database Names Store RepairQueue Integrity Intents Glob Validate Sync Transfer Volume Paths Indexing Apply Storage Commits.

(** ** What may change on the disk *)

(** Names outside the private directory, and the scratch files among them. *)
Definition elsewhere (n : string) : Prop := atOrUnder private n = false.
Definition temporary (n : string) : Prop := elsewhere n /\ Match (tempFilePrefix +:+ "*") (Base n) = true.

(** Files are moved and removed, never rewritten: every file that is there was there, with the
    same bytes. *)
Definition moves (w w' : World) : Prop := forall n i', elsewhere n -> wd_tree w' !! n = Some (NFile i') ->
  exists m i, elsewhere m /\ wd_tree w !! m = Some (NFile i) /\ sameFile i i' = true /\ in_bytes i' = in_bytes i.
#[export] Instance moves_preorder : PreOrder moves.
Proof.
  split; [intros w n i He E; exists n, i; by rewrite sameFile_spec|]. intros w1 w2 w3 H1 H2 n i3 He E3. destruct (H2 n i3 He E3) as (m & i2 & He2 & E2 & S2 & B2).
  destruct (H1 m i2 He2 E2) as (k & i1 & He1 & E1 & S1 & B1). exists k, i1. rewrite sameFile_spec in *. destruct S1, S2. split; [done|]. split; [done|]. split; [split; congruence|congruence].
Qed.

(** What a file's identity says of its bytes. *)
Definition identified (sha256Hex : string -> string) (info : Info) (hash : string) (w : World) : Prop := forall n i, elsewhere n ->
  wd_tree w !! n = Some (NFile i) -> fi_dev info = in_dev i -> fi_ino info = in_ino i -> sha256Hex (in_bytes i) = hash.
Lemma identified_moves sha info hash w w' : moves w w' -> identified sha info hash w -> identified sha info hash w'.
Proof.
  intros Hm Hi n i' He E D I. destruct (Hm n i' He E) as (m & i & Hem & Em & S & ->). apply sameFile_spec in S as [S1 S2]. eapply Hi; [exact Hem|exact Em|congruence|congruence].
Qed.

Lemma held_back n t t' i' : heldAt n t t' -> t' !! n = Some (NFile i') -> exists i, t !! n = Some (NFile i) /\ sameFile i i' = true /\ in_bytes i' = in_bytes i.
Proof.
  unfold heldAt. destruct (t !! n) as [[i| |t0|]|]; [|intros [E | E]|..]; try congruence. intros (j & E & Hb & Hs & _) E'. rewrite E in E'. injection E' as <-. eauto.
Qed.

(** The whole disk: scratch files stay as they are. *)
Record disk (w w' : World) : Prop := mkDiskStep {
  dk_moves : moves w w';
  dk_temp : forall n, temporary n -> heldAt n (wd_tree w) (wd_tree w')
}.
#[export] Instance disk_preorder : PreOrder disk.
Proof. split; [intros w; split; [reflexivity|intros; reflexivity]|]. intros w1 w2 w3 [] []. split; [by etrans|intros n Hn; etrans; auto]. Qed.

(** What recovery of interrupted replacements promises to a commit: it keeps to names an
    announced path covers, it moves files but writes none, and it leaves scratch files alone. The
    first holds of the journals replace.go writes, each of which is written under an announced
    path; a journal put there by other hands is outside these laws. *)
Class TreeRecoveryLaws `{!TreeRecovery} (ignorePatterns : list string) : Prop := {
  rc_store : forall w, wd_store (RecoverLocked w).2 = wd_store w;
  rc_disk : forall w, disk w (RecoverLocked w).2;
  rc_scope : forall w n, tracked ignorePatterns n -> (exists p, p ∈ local_intents (db (wd_store w)) /\ atOrUnder p n = true) \/
    heldAt n (wd_tree w) (wd_tree (RecoverLocked w).2)
}.

(** ** Steps that never unsettle a row *)

Section Grows.
Context `{NameFolding} (sha256Hex : string -> string).

Record grows (w w' : World) : Prop := mkGrows {
  gr_entry : forall n, elsewhere n -> heldAt n (wd_tree w) (wd_tree w');
  gr_backed : forall n b, elsewhere n -> backed n b w -> backed n b w';
  gr_indexed : forall n, elsewhere n -> indexedAt sha256Hex n w -> indexedAt sha256Hex n w';
  gr_locals : local_intents (db (wd_store w)) ⊆ local_intents (db (wd_store w'));
  gr_replicas : replica_intents (db (wd_store w')) ⊆ replica_intents (db (wd_store w));
  gr_keyed : well_keyed (db (wd_store w)) -> well_keyed (db (wd_store w'))
}.
#[export] Instance grows_preorder : PreOrder grows.
Proof.
  split; [intros w; split; try done; intros; reflexivity|]. intros w1 w2 w3 [] []. split; [intros n Hn; etrans; auto|auto|auto|by etrans|by etrans|auto].
Qed.

Lemma advances_grows w w' : advances sha256Hex w w' -> grows w w'.
Proof. intros [[He Hb _] Hi Hl Hr Hk]. split; [done|by intros n b _; apply Hb|by intros n _; apply Hi|by rewrite Hl|done|done]. Qed.
Lemma quiet_grows w w' : quiet w w' -> grows w w'.
Proof. intros Hq. by apply advances_grows, quiet_advances. Qed.
Lemma grows_disk w w' : grows w w' -> disk w w'.
Proof.
  intros [He _ _ _ _ _]. split; [|intros n [Hn _]; by apply He]. intros n i' Hn E. destruct (held_back n _ _ i' (He n Hn) E) as (i & ? & ? & ?). exists n, i. done.
Qed.

(** Only the private directory changed. *)
Lemma grows_private w w' : (forall n, elsewhere n -> wd_tree w' !! n = wd_tree w !! n /\ wd_durable w' !! n = wd_durable w !! n) -> wd_store w' = wd_store w -> grows w w'.
Proof.
  intros Ht Hs. split; try by rewrite Hs.
  - intros n Hn. unfold heldAt. destruct (Ht n Hn) as [-> _]. destruct (wd_tree w !! n) as [[i| | |]|]; auto. exists i. rewrite sameFile_spec. done.
  - intros n b Hn. unfold backed. destruct (Ht n Hn) as [-> ->]. done.
  - intros n Hn. unfold indexedAt, rowsOf. rewrite Hs. destruct (Ht n Hn) as [-> _]. done.
Qed.
End Grows.

Lemma elsewhere_private n : elsewhere n -> n <> private /\ n <> marker.
Proof. intros Hn. split; intros ->; unfold elsewhere in Hn; vm_compute in Hn; discriminate Hn. Qed.

(** ** Announcing and withdrawing *)

Section Hooks.
Context `{NameFolding} `{TreeRecovery} (sha256Hex : string -> string) (stored : Z -> Z) (granularity : Z).
Context (ignorePatterns : list string) (repairPeers : list string) (now : Z).
Context (mapOrder : gset string -> list string) (mapOrder_elem : forall N n, n ∈ mapOrder N <-> n ∈ N).
Context `{!TreeRecoveryLaws ignorePatterns}.
Abbreviation grow := (grows sha256Hex).
Abbreviation index := (indexPathsLocked sha256Hex stored granularity ignorePatterns repairPeers now mapOrder).

Lemma tracked_elsewhere n : tracked ignorePatterns n -> elsewhere n.
Proof.
  intros [_ Ht]. unfold elsewhere. destruct (atOrUnder private n) eqn:E; [|done]. specialize (Ht private E). unfold ShouldIgnore in Ht. cbn in Ht. done.
Qed.

Definition locals (w : World) : gset string := local_intents (db (wd_store w)).
Definition covered (w : World) (n : string) : Prop := exists p, p ∈ locals w /\ atOrUnder p n = true.
(** Every tracked name has the row the disk asks for or lies below an announced path. *)
Definition accounted (w : World) : Prop := forall n, tracked ignorePatterns n -> indexedAt sha256Hex n w \/ covered w n.
Record healthy (w : World) : Prop := mkHealthy {
  hl_named : intents_named (db (wd_store w));
  hl_keyed : well_keyed (db (wd_store w));
  hl_accounted : accounted w
}.

Lemma grows_named w w' : grow w w' -> intents_named (db (wd_store w)) -> intents_named (db (wd_store w')).
Proof. intros Ha Hn n e m He. apply Hn. eapply lookup_weaken; [exact He|apply Ha]. Qed.
Lemma grows_healthy w w' : grow w w' -> healthy w -> healthy w'.
Proof.
  intros G [H1 H2 H3]. split; [by eapply grows_named|by apply G|]. intros n Ht. destruct (H3 n Ht) as [Hi|(p & Hp & Ha)].
  - left. apply G; [by apply tracked_elsewhere|done].
  - right. exists p. split; [by apply (gr_locals _ _ _ G)|done].
Qed.

Lemma relative_loop_spec paths names w out w' : relative_loop paths names w = (Ok out, w') -> forall x, x ∈ out <-> x ∈ paths \/ x ∈ names.
Proof.
  revert names w. induction paths as [|p paths IH]; intros names w R x; cbn in R; [injection R as <- <-; set_solver|].
  apply bindS_Ok in R as ([] & w1 & _ & R). destruct (_ || _); [done|]. rewrite (IH _ _ R). destruct (existsb (String.eqb p) names) eqn:E.
  - apply existsb_exists in E as (y & Hy & Ey). apply String.eqb_eq in Ey as <-. apply list_elem_of_In in Hy. set_solver.
  - set_solver.
Qed.
Lemma relativePaths_spec paths w names w' : relativePaths paths w = (Ok names, w') -> forall x, x ∈ names <-> x ∈ paths.
Proof. unfold relativePaths. intros R x. apply bindS_Ok in R as ([] & w1 & _ & R). rewrite (relative_loop_spec _ _ _ _ _ R). set_solver. Qed.
Lemma quiet_relativePaths paths : keeps quiet (relativePaths paths).
Proof.
  unfold relativePaths. apply keeps_bind; [apply _|apply quiet_sysW|]. intros _. generalize (@nil string). induction paths as [|p paths IH]; intros names; cbn; [apply keeps_ret, _|].
  apply keeps_bind; [apply _|apply quiet_sysW|]. intros _. destruct (_ || _); [apply keeps_fail, _|apply IH].
Qed.

Lemma BeginLocal_grows names w : let out := inStore (BeginLocal names) w in grow w out.2 /\ (out.1 = Ok tt -> forall p, p ∈ names -> p ∈ locals out.2).
Proof.
  cbv zeta. unfold inStore, zoomS. destruct (BeginLocal names (wd_store w)) as [r s'] eqn:E. destruct r as [[]|e]; cbn.
  - apply transact_Ok in E as (_ & b & s0 & s1 & U & E & Hd); [|apply keeps_begin].
    apply bindS_Ok in E as ([] & s3 & E & Er). injection Er as <- <-. apply forS_beginOne_Ok in E as (B & _ & L). rewrite (untouched_db _ _ U) in *.
    assert (files (db s') = files (db (wd_store w)) /\ replica_intents (db s') = replica_intents (db (wd_store w))) as [Hf Hr] by (rewrite Hd; by rewrite (bg_only _ _ B)).
    split.
    + split; cbn; [by intros n Hn|done| |rewrite Hd, L; set_solver|by rewrite Hr|unfold well_keyed; by rewrite Hf]. intros n _. unfold indexedAt, rowsOf. cbn. by rewrite Hf.
    + intros _ p Hp. unfold locals. cbn. rewrite Hd, L. set_solver.
  - split; [|done]. apply transact_Err in E; [|apply keeps_begin]. apply quiet_grows. split; [by apply steady_frame|by apply untouched_idle].
Qed.

(** Withdrawing paths whose names are all indexed. *)
Lemma EndLocal_healthy names w : healthy w -> (forall p n, p ∈ names -> atOrUnder p n = true -> tracked ignorePatterns n -> indexedAt sha256Hex n w) ->
  let out := inStore (EndLocal names) w in
  healthy out.2 /\ steady w out.2 /\ rowsOf out.2 = rowsOf w /\ (locals out.2 = locals w \/ locals out.2 = locals w ∖ list_to_set names) /\ (out.1 = Ok tt -> locals out.2 = locals w ∖ list_to_set names).
Proof.
  intros Hh Hx. pose proof Hh as [Hn Hk Ha]. cbv zeta. unfold inStore, zoomS. destruct (EndLocal names (wd_store w)) as [r s'] eqn:E. destruct r as [[]|e]; cbn.
  - apply transact_Ok in E as (_ & b & s4 & s5 & U & E & Hd); [|apply keeps_end]. apply bindS_Ok in E as ([] & s6 & E & Er). injection Er as <- <-. apply forS_end_Ok in E.
    rewrite (untouched_db _ _ U) in E. rewrite E in Hd. unfold locals, rowsOf. cbn. rewrite Hd. cbn. split; [|split; [by apply steady_frame|by eauto]].
    split; [cbn; rewrite Hd; exact Hn|cbn; rewrite Hd; exact Hk|]. intros n Ht. unfold indexedAt, rowsOf, covered, locals. cbn. rewrite Hd. cbn. destruct (Ha n Ht) as [Hi|(p & Hp & Hu)]; [by left|].
    destruct (decide (p ∈ names)) as [Hin|Hni]; [left; by apply (Hx p n)|right]. exists p. split; [set_solver|done].
  - apply transact_Err in E; [|apply keeps_end]. assert (quiet w (set_store s' w)) as Q by (split; [by apply steady_frame|by apply untouched_idle]).
    split; [eapply grows_healthy; [by apply quiet_grows|done]|]. split; [by apply Q|]. unfold locals, rowsOf. cbn. rewrite (untouched_db _ _ E). split; [done|]. split; [by left|done].
Qed.

(** ** Hooks *)

Lemma index_grows paths opts w : healthy w -> hashes_sure sha256Hex opts w -> grow w (index paths opts w).2.
Proof. intros [Hn _ _] Hp. by apply advances_grows, index_spec. Qed.

Lemma sure_nothing opts w : io_published opts = ∅ -> hashes_sure sha256Hex opts w.
Proof. intros E name info hash i. by rewrite E, lookup_empty. Qed.

(** Runs of steps that keep a healthy world. *)
Lemma grows_bind {A B} (c : W A) (k : A -> W B) w : grow w (c w).2 -> (forall a w1, c w = (Ok a, w1) -> grow w w1 -> grow w1 (k a w1).2) -> grow w (bindS c k w).2.
Proof. intros Hc Hk. unfold bindS. destruct (c w) as [[a|e] w1]; cbn in *; [|done]. etrans; [done|by apply Hk]. Qed.

Lemma quiet_source_names paths : keeps quiet (source_names paths).
Proof.
  induction paths as [|p paths IH]; cbn; [apply keeps_ret, _|]. apply keeps_bind; [apply _|apply quiet_stat|]. intros n.
  destruct n as [[]|]; try apply keeps_fail, _; (apply keeps_bind; [apply _|apply keeps_get, _|]; intros w; apply keeps_bind; [apply _|apply IH|]; intros ?; apply keeps_ret, _).
Qed.

Lemma checkSources_grows paths w : healthy w -> grow w (checkSourcesLocked sha256Hex stored granularity ignorePatterns repairPeers now mapOrder paths w).2.
Proof.
  intros Hh. unfold checkSourcesLocked. apply grows_bind; [apply quiet_grows, quiet_source_names|]. intros l w1 _ G1. apply grows_bind; [apply quiet_grows, quiet_relativePaths|]. intros names w2 _ G2.
  apply index_grows; [by eapply grows_healthy; [exact G2|]; eapply grows_healthy|by apply sure_nothing].
Qed.

Lemma begin_grows paths w : healthy w ->
  let out := beginCommitLocked sha256Hex stored granularity ignorePatterns repairPeers now mapOrder paths w in
  grow w out.2 /\ (out.1 = Ok tt -> forall p, p ∈ paths -> p ∈ locals out.2).
Proof.
  intros Hh. cbv zeta. unfold beginCommitLocked.
  assert (forall A (c : W A) (k : A -> W unit) w1, grow w1 (c w1).2 ->
    (forall a w2, c w1 = (Ok a, w2) -> grow w1 w2 -> grow w2 (k a w2).2 /\ ((k a w2).1 = Ok tt -> forall p, p ∈ paths -> p ∈ locals (k a w2).2)) ->
    grow w1 (bindS c k w1).2 /\ ((bindS c k w1).1 = Ok tt -> forall p, p ∈ paths -> p ∈ locals (bindS c k w1).2)) as Hb.
  { intros A c k w1 Hc Hk. unfold bindS. destruct (c w1) as [[a|e] w2]; cbn in *; [|done]. destruct (Hk a w2 eq_refl Hc) as [H1 H2]. split; [by etrans|done]. }
  apply Hb; [apply quiet_grows, quiet_relativePaths|]. intros names w1 R1 G1. pose proof (relativePaths_spec _ _ _ _ R1) as Hnames.
  apply Hb. { apply quiet_grows. apply keeps_for; [apply _|]. intros x. still. } intros [] w2 _ G2.
  apply Hb. { apply quiet_grows. apply keeps_for; [apply _|]. intros x. unfold CheckSpelling. still. } intros [] w3 _ G3.
  assert (healthy w3) as Hh3 by (eapply grows_healthy; [exact G3|]; eapply grows_healthy; [exact G2|]; by eapply grows_healthy).
  apply Hb; [apply index_grows; [done|by apply sure_nothing]|]. intros [] w4 _ G4. destruct (BeginLocal_grows names w4) as [G5 L5]. split; [done|]. intros HOk p Hp. apply L5; [done|by apply Hnames].
Qed.

Lemma attribute_spec published acc w known w' : attribute published acc w = (Ok known, w') ->
  forall name e, known !! name = Some e -> (name, e) ∈ published \/ acc !! name = Some e.
Proof.
  revert acc w. induction published as [|[full e0] published IH]; intros acc w R name e Hk; cbn in R; [injection R as <- <-; by right|].
  apply bindS_Ok in R as (mapped & w1 & R1 & R). destruct (IH _ _ R name e Hk) as [?|Hx]; [left; set_solver|].
  destruct mapped as [[|n [|? ?]]|?]; try (by right). destruct (decide (n = name)) as [-> |Hne]; [|rewrite lookup_insert_ne in Hx by done; by right].
  rewrite lookup_insert_eq in Hx. injection Hx as ->. left. apply tryS_Ok in R1. pose proof (relativePaths_spec _ _ _ _ R1 name) as Hn.
  assert (name ∈ [full]) as Hf by (apply Hn; set_solver). apply list_elem_of_singleton in Hf as ->. set_solver.
Qed.
Lemma quiet_attribute published acc : keeps quiet (attribute published acc).
Proof.
  revert acc. induction published as [|[full e] published IH]; intros acc; cbn; [apply keeps_ret, _|].
  apply keeps_bind; [apply _|apply quiet_try, quiet_relativePaths|]. intros mapped. apply IH.
Qed.

(** The last hook. *)
Lemma finish_healthy paths published w : healthy w ->
  (forall full info hash, published !! full = Some (info, hash) -> elsewhere full /\ identified sha256Hex info hash w) ->
  let out := finishCommitLocked sha256Hex stored granularity ignorePatterns repairPeers now mapOrder paths published w in
  healthy out.2 /\ (forall n b, elsewhere n -> backed n b w -> backed n b out.2) /\ (forall n, elsewhere n -> heldAt n (wd_tree w) (wd_tree out.2)) /\
  (out.1 = Ok tt -> (forall p n, p ∈ paths -> atOrUnder p n = true -> tracked ignorePatterns n -> indexedAt sha256Hex n out.2) /\ locals out.2 = locals w ∖ list_to_set paths).
Proof.
  intros Hh Hpub. cbv zeta. unfold finishCommitLocked, bindS.
  pose proof (quiet_relativePaths paths w) as Q1. destruct (relativePaths paths w) as [[names|e] w1] eqn:R1; cbn in Q1; pose proof (quiet_grows sha256Hex _ _ Q1) as G1; [|split; [by eapply grows_healthy|]; split; [apply G1|]; split; [apply G1|done]].
  pose proof (relativePaths_spec _ _ _ _ R1) as Hnames.
  pose proof (quiet_attribute (map_to_list published) ∅ w1) as Q2. destruct (attribute (map_to_list published) ∅ w1) as [[known|e] w2] eqn:R2; cbn in Q2; pose proof (quiet_grows sha256Hex _ _ Q2) as G2;
    (assert (grow w w2) as G by by etrans); [|split; [by eapply grows_healthy|]; split; [apply G|]; split; [apply G|done]].
  set (opts := mkOptions false true known false false). assert (healthy w2) as Hh2 by by eapply grows_healthy.
  assert (hashes_sure sha256Hex opts w2) as Hs.
  { intros name info hash i Hk Ei Hd Hi. cbn in Hk. destruct (attribute_spec _ _ _ _ _ R2 _ _ Hk) as [Hin|Hin]; [|by rewrite lookup_empty in Hin].
    apply elem_of_map_to_list in Hin. destruct (Hpub _ _ _ Hin) as [He Hid]. eapply identified_moves in Hid; [|apply (grows_disk sha256Hex), G]. by eapply Hid. }
  destruct (index_spec sha256Hex stored granularity ignorePatterns repairPeers now mapOrder mapOrder_elem names opts w2 (hl_named _ Hh2) Hs) as [A3 I3].
  destruct (index names opts w2) as [[[]|e] w3]; cbn in A3, I3; pose proof (advances_grows sha256Hex _ _ A3) as G3; (assert (grow w w3) as G' by by etrans);
    [|split; [by eapply grows_healthy|]; split; [apply G'|]; split; [apply G'|done]].
  assert (forall p n, p ∈ names -> atOrUnder p n = true -> tracked ignorePatterns n -> indexedAt sha256Hex n w3) as Hx by (intros p n; apply I3; [done|apply Hh2|done|done]).
  assert (healthy w3) as Hh3 by by eapply grows_healthy. destruct (EndLocal_healthy names w3 Hh3 Hx) as (H4 & S4 & E4 & _ & L4). destruct (inStore (EndLocal names) w3) as [r w4]; cbn in *.
  split; [done|]. split; [intros n b Hn Hb; by apply S4, G'|]. split; [intros n Hn; etrans; [by apply G'|apply S4]|]. intros HOk. split.
  - intros p n Hp Ha Ht. unfold indexedAt. rewrite E4. eapply describes_held; [apply S4|]. eapply Hx; [by apply Hnames|done|done].
  - rewrite L4 by done. assert (locals w3 = locals w) as -> by (unfold locals; rewrite (ad_locals _ _ _ A3); destruct Q1 as [_ Q1], Q2 as [_ Q2]; unfold idle, tables in Q1, Q2; congruence).
    apply leibniz_equiv. set_unfold. intros x. by rewrite Hnames.
Qed.

(** ** Validation *)

Definition growsV (v v' : Vol) : Prop := grow (vo_world v) (vo_world v') /\ vo_recovered v' = vo_recovered v.
#[export] Instance growsV_preorder : PreOrder growsV.
Proof. split; [intros v; split; [reflexivity|done]|]. intros v1 v2 v3 [] []. split; [by etrans|congruence]. Qed.

Lemma growsV_inWorld {A} (c : W A) : (forall w, grow w (c w).2) -> keeps growsV (inWorld c).
Proof. intros Hc v. unfold inWorld, zoomS. specialize (Hc (vo_world v)). destruct (c (vo_world v)). by split. Qed.
Lemma growsV_quiet {A} (c : W A) : keeps quiet c -> keeps growsV (inWorld c).
Proof. intros Hc. apply growsV_inWorld. intros w. apply quiet_grows, Hc. Qed.
Lemma growsV_try {A} (c : V A) : keeps growsV c -> keeps growsV (tryS c).
Proof. intros Hc v. specialize (Hc v). unfold tryS. by destruct (c v). Qed.
Lemma growsV_join c d : keeps growsV c -> keeps growsV d -> keeps growsV (joinV c d).
Proof.
  intros Hc Hd. unfold joinV. apply keeps_bind; [apply _|by apply growsV_try|]. intros r. apply keeps_bind; [apply _|by apply growsV_try|]. intros r'.
  destruct r; [apply keeps_lift, _|apply keeps_fail, _].
Qed.

Lemma growsV_storageMarker : keeps growsV storageMarker.
Proof.
  unfold storageMarker. pose proof (growsV_quiet _ quiet_sysW). pose proof (fun n => growsV_quiet _ (quiet_lstat n)). pose proof (fun A c => @growsV_try A c). still.
Qed.
Lemma growsV_readMarker : keeps growsV readMarker.
Proof. unfold readMarker. pose proof (growsV_quiet _ quiet_sysW). still. Qed.
Lemma growsV_checkVolume id : keeps growsV (checkVolume id).
Proof. unfold checkVolume. pose proof growsV_storageMarker. pose proof growsV_readMarker. still. Qed.

(** Steps inside the private directory. *)
Lemma private_modify (f : World -> World) : (forall w n, elsewhere n -> wd_tree (f w) !! n = wd_tree w !! n /\ wd_durable (f w) !! n = wd_durable w !! n) ->
  (forall w, wd_store (f w) = wd_store w) -> keeps grow (do! sysW then modifyS f : W unit).
Proof.
  intros Ht Hs. apply keeps_bind; [apply _|intros w; apply quiet_grows, quiet_sysW|]. intros _ w. apply grows_private; [apply Ht|apply Hs].
Qed.
Lemma private_flush n : ~ elsewhere n -> keeps grow (flushEntry n).
Proof.
  intros Hn. unfold flushEntry. apply private_modify; [|done]. intros w m Hm. assert (n <> m) by (intros ->; done). split; [done|]. cbn.
  destruct (wd_tree w !! n); [by rewrite lookup_insert_ne|by rewrite lookup_delete_ne].
Qed.
Lemma growsV_writeMarker id : keeps growsV (writeMarker now id).
Proof.
  unfold writeMarker, createMarker. apply keeps_bind; [apply _| |].
  - apply keeps_bind; [apply _|apply growsV_inWorld; unfold mkdirAll; apply private_modify; [|done]|].
    { intros w n Hn. destruct (elsewhere_private n Hn) as [Hp _]. split; [|done]. change (List.filter _ _) with [private]. cbn. change (Dir marker) with private.
      destruct (wd_tree w !! private); [done|]. by rewrite lookup_insert_ne. }
    intros _. apply keeps_bind; [apply _|apply (growsV_quiet _ quiet_sysW)|]. intros _. apply keeps_bind; [apply _|apply keeps_get, _|]. intros v.
    destruct (wd_tree (vo_world v) !! marker); [apply keeps_fail, _|]. apply growsV_inWorld. intros w. apply grows_private; [|done]. intros n Hn. destruct (elsewhere_private n Hn) as [_ Hm].
    cbn. by rewrite lookup_insert_ne.
  - intros _. assert (forall f, keeps growsV (inWorld (onMarker f))) as Ho.
    { intros f. apply growsV_inWorld. unfold onMarker. apply private_modify; [|intros w; by destruct (wd_tree w !! marker) as [[]|]]. intros w n Hn. destruct (elsewhere_private n Hn) as [_ Hm].
      destruct (wd_tree w !! marker) as [[]|]; try done. cbn. by rewrite lookup_insert_ne. }
    apply keeps_bind; [apply _|apply growsV_join; [apply Ho|apply growsV_join; [apply Ho|apply (growsV_quiet _ quiet_sysW)]]|]. intros _.
    apply growsV_inWorld. apply keeps_bind; [apply _|apply private_flush; intros He; by apply elsewhere_private in He as []|]. intros _. apply private_flush. intros He. by apply elsewhere_private in He as [].
Qed.

Lemma growsV_measure : keeps growsV (measureModTimeGranularityLocked now stored).
Proof.
  intros v. destruct (measure_run now stored v) as (g & v' & -> & [I1 I2 _ _] & _ & _ & _ & Hr & _ & Hx). cbn. split; [|done].
  apply grows_private; [|unfold wd_store; by rewrite Hx]. intros n Hn. assert (n <> probe) by (intros ->; unfold elsewhere in Hn; vm_compute in Hn; discriminate Hn). auto.
Qed.

Lemma growsV_checkStorage : keeps growsV (checkStorageLocked ignorePatterns now stored).
Proof.
  pose proof growsV_checkVolume as Kc. pose proof (growsV_quiet _ quiet_sysW) as Ks. unfold checkStorageLocked. apply keeps_bind; [apply _| |intros _; apply keeps_bind; [apply _|apply keeps_get, _|intros v0; destruct (vo_measured v0); [apply keeps_ret, _|apply growsV_measure]]].
  unfold checkBindingLocked, bindVolumeLocked.
  assert (forall x, keeps growsV (modifyS (set_storageID x) : V unit)) as Km by (intros x v; split; [reflexivity|done]).
  apply keeps_bind; [apply _|apply keeps_get, _|]. intros v. destruct (vo_storageID v); [apply Kc|].
  apply keeps_bind; [apply _|apply growsV_quiet, quiet_inStore; unfold NodeValue; apply idle_query|]. intros id. destruct (negb (id =s "")); [apply keeps_bind; [apply _|apply Km|intros _; apply Kc]|].
  apply keeps_bind; [apply _|apply growsV_storageMarker|]. intros _. apply keeps_bind; [apply _|apply growsV_readMarker|]. intros data. cbv zeta. apply keeps_bind; [apply _| |].
  - destruct (negb _); [apply keeps_ret, _|]. apply keeps_bind; [apply _|apply growsV_quiet, quiet_inStore|].
    { unfold FileCount, MaxVersion. pose proof (@idle_query). assert (forall v b c, keeps idle (modifyS (set_count v b c) : St unit)) by (intros; by apply idle_modify). still. }
    intros count. apply keeps_bind; [apply _|apply Ks|]. intros _. apply keeps_bind; [apply _|apply keeps_get, _|]. intros v1. destruct (_ && _); [apply keeps_fail, _|].
    apply keeps_bind; [apply _|apply growsV_writeMarker|]. intros _. apply keeps_ret, _.
  - intros id'. apply keeps_bind; [apply _|apply growsV_quiet, quiet_inStore; unfold SetNodeValue; by apply idle_exec|]. intros _. apply Km.
Qed.

Lemma recoverTrees_healthy w : healthy w -> healthy (RecoverLocked w).2.
Proof.
  intros [Hn Hk Ha]. split; [by rewrite rc_store|by rewrite rc_store|]. intros n Ht. destruct (rc_scope w n Ht) as [Hc|Hh]; [right; unfold covered, locals; by rewrite rc_store|].
  destruct (Ha n Ht) as [Hi|Hc]; [left|right; unfold covered, locals; by rewrite rc_store]. unfold indexedAt, rowsOf. rewrite rc_store. by eapply describes_held.
Qed.

Lemma quiet_orphans : keeps quiet (CheckOrphanedBackups ignorePatterns).
Proof.
  unfold CheckOrphanedBackups. apply keeps_bind; [apply _|apply quiet_sysW|]. intros _. apply keeps_bind; [apply _|apply keeps_get, _|]. intros w.
  generalize (@nil string). induction (merge_sort _ _) as [|[name node] entries IH]; intros skipped; cbn; [apply keeps_ret, _|].
  destruct (existsb _ _); [apply IH|]. destruct (HasPrefix _ _); [apply keeps_fail, _|]. destruct (_ && _); [apply IH|]. apply keeps_bind; [apply _| |intros _; apply IH].
  destruct node; try apply keeps_ret, _. apply quiet_sysW.
Qed.

Lemma recoverReplicas_adv names w : intents_named (db (wd_store w)) -> advances sha256Hex w (forS (recoverReplicaLocked sha256Hex stored granularity now) names w).2.
Proof.
  revert w. induction names as [|n names IH]; intros w Hn; cbn [forS]; [reflexivity|]. apply adv_bind; [by apply recover_advances|]. intros [] w1 _ A1. apply IH. by eapply adv_named.
Qed.

Abbreviation settle := (recoverIntents sha256Hex stored granularity ignorePatterns repairPeers now mapOrder).
Lemma recoverIntents_healthy w : healthy w -> let out := settle w in
  healthy out.2 /\ disk w out.2 /\ (out.1 = Ok tt -> locals out.2 = ∅).
Proof.
  intros Hh. cbv zeta. unfold recoverIntents, bindS.
  pose proof (quiet_grows sha256Hex _ _ (quiet_orphans w)) as G1. destruct (CheckOrphanedBackups ignorePatterns w) as [[[]|e] w1]; cbn in G1; [|split; [by eapply grows_healthy|split; [by eapply grows_disk|done]]].
  pose proof (quiet_grows sha256Hex _ _ (quiet_inStore LocalIntents (idle_query _) w1)) as G2. destruct (inStore LocalIntents w1) as [[paths|e] w2] eqn:R2; cbn in G2;
    (assert (grow w w2) as G by by etrans); [|split; [by eapply grows_healthy|split; [by eapply grows_disk|done]]].
  assert (healthy w2) as Hh2 by by eapply grows_healthy. assert (forall p, p ∈ paths <-> p ∈ locals w2) as Hpaths.
  { apply inStoreW_Ok in R2 as (s & R2 & ->). unfold LocalIntents in R2. apply query_Ok in R2 as [-> U]. intros p. rewrite elem_of_merge_sort, elem_of_elements. unfold locals. cbn. by rewrite (untouched_db _ _ U). }
  pose proof (sure_nothing noOptions w2 eq_refl) as Hs.
  destruct (index_spec sha256Hex stored granularity ignorePatterns repairPeers now mapOrder mapOrder_elem paths noOptions w2 (hl_named _ Hh2) Hs) as [A3 I3].
  destruct (index paths noOptions w2) as [[[]|e] w3]; cbn in A3, I3; pose proof (advances_grows sha256Hex _ _ A3) as G3; (assert (grow w w3) as G' by by etrans);
    [|split; [by eapply grows_healthy|split; [by eapply grows_disk|done]]].
  assert (forall p n, p ∈ paths -> atOrUnder p n = true -> tracked ignorePatterns n -> indexedAt sha256Hex n w3) as Hx by (intros p n; apply I3; [done|apply Hh2|done|done]).
  assert (healthy w3) as Hh3 by by eapply grows_healthy. destruct (EndLocal_healthy paths w3 Hh3 Hx) as (H4 & S4 & _ & _ & L4). destruct (inStore (EndLocal paths) w3) as [[[]|e] w4] eqn:R4; cbn in H4, S4, L4;
    (assert (disk w w4) as D4 by (etrans; [by eapply grows_disk|]; split; [intros n i' Hn E; destruct (held_back n _ _ i' (sy_entry _ _ S4 n) E) as (i & ? & ? & ?); by exists n, i|intros n _; apply S4]));
    [|split; [done|split; [done|done]]].
  pose proof (quiet_grows sha256Hex _ _ (quiet_inStore ReplicaIntents (idle_query _) w4)) as G5. pose proof (quiet_inStore ReplicaIntents (idle_query _) w4) as Q5.
  destruct (inStore ReplicaIntents w4) as [[replicas|e] w5]; cbn in G5, Q5; [|split; [by eapply grows_healthy|split; [etrans; [exact D4|by eapply grows_disk]|done]]].
  assert (healthy w5) as Hh5 by by eapply grows_healthy. pose proof (recoverReplicas_adv replicas w5 (hl_named _ Hh5)) as A6. destruct (forS _ replicas w5) as [r6 w6]; cbn in A6. cbn.
  pose proof (advances_grows sha256Hex _ _ A6) as G6. assert (healthy w6) as Hh6 by by eapply grows_healthy. split; [done|]. split; [etrans; [exact D4|]; etrans; [by eapply grows_disk|by eapply grows_disk]|].
  intros ->. apply leibniz_equiv, elem_of_equiv_empty. intros p Hp. unfold locals in Hp. rewrite (ad_locals _ _ _ A6) in Hp.
  destruct Q5 as [_ Q5]. unfold idle, tables in Q5. injection Q5 as _ _ Q5. rewrite Q5 in Hp. change (p ∈ locals w4) in Hp. rewrite L4 in Hp by done.
  unfold locals in Hp. rewrite (ad_locals _ _ _ A3) in Hp. set_unfold. destruct Hp as [Hp1 Hp2]. by apply Hp2, Hpaths.
Qed.

Abbreviation prepare := (prepareStorageLocked sha256Hex stored granularity ignorePatterns repairPeers now mapOrder).
(** Validation keeps a volume healthy. It withdraws announcements only on its first success, and
    then every tracked name has its row. *)
Record prepared (v v' : Vol) (r : result verr unit) : Prop := mkPrepared {
  pr_healthy : healthy (vo_world v');
  pr_disk : disk (vo_world v) (vo_world v');
  pr_later : vo_recovered v = true -> vo_recovered v' = true /\ locals (vo_world v) ⊆ locals (vo_world v');
  pr_first : r = Ok tt -> vo_recovered v' = true /\ (vo_recovered v = false -> locals (vo_world v') = ∅)
}.
Lemma prepare_spec v : healthy (vo_world v) -> prepared v (prepare v).2 (prepare v).1.
Proof.
  intros Hh. assert (prepared v (validateStorageLocked sha256Hex stored granularity ignorePatterns repairPeers now mapOrder v).2
    (validateStorageLocked sha256Hex stored granularity ignorePatterns repairPeers now mapOrder v).1) as Hv.
  2:{ unfold prepareStorageLocked, bindS, tryS. destruct (validateStorageLocked _ _ _ _ _ _ _ v) as [r v1]. cbn in *. destruct Hv. destruct r; by split. }
  destruct (validateStorageLocked sha256Hex stored granularity ignorePatterns repairPeers now mapOrder v) as [r v'] eqn:R. cbn. unfold validateStorageLocked, bindS in R.
  pose proof (growsV_checkStorage v) as [G1 E1]. destruct (checkStorageLocked ignorePatterns now stored v) as [[[]|e] v1]; cbn in G1, E1.
  2:{ injection R as <- <-. split; [by eapply grows_healthy|by eapply grows_disk| |done]. intros Hr. split; [congruence|apply G1]. }
  assert (healthy (vo_world v1)) as Hh1 by by eapply grows_healthy. unfold inWorld, zoomS in R.
  pose proof (recoverTrees_healthy _ Hh1) as Hh2. pose proof (rc_disk (vo_world v1)) as D2. pose proof (rc_store (vo_world v1)) as S2.
  assert (disk (vo_world v) (RecoverLocked (vo_world v1)).2) as D by (etrans; [by eapply grows_disk|done]).
  assert (locals (vo_world v) ⊆ locals (RecoverLocked (vo_world v1)).2) as L by (unfold locals; rewrite S2; apply G1).
  destruct (RecoverLocked (vo_world v1)) as [[[]|e] w2]; cbn in Hh2, D2, S2, D, L.
  2:{ injection R as <- <-. split; [done|done| |done]. intros Hr. cbn. split; [congruence|done]. }
  unfold getS in R. change (vo_recovered (set_world w2 v1)) with (vo_recovered v1) in R. destruct (vo_recovered v1) eqn:Er.
  { injection R as <- <-. split; cbn [vo_world vo_recovered set_world]; rewrite ?Er; [done|done|done|]. intros _. split; [done|]. intros Hf. congruence. }
  change (vo_world (set_world w2 v1)) with w2 in R. destruct (recoverIntents_healthy w2 Hh2) as (H3 & D3 & I3). destruct (settle w2) as [[[]|e] w3]; cbn in H3, D3, I3; injection R as <- <-; cbn.
  - split; [done|cbn; by trans w2|intros Hr; congruence|]. intros _. split; [done|]. intros _. by apply I3.
  - split; [done|cbn; by trans w2|intros Hr; congruence|done].
Qed.

(** ** Commits *)

(** What a commit's own operation may do: it keeps to the paths it announced, writes no file's
    bytes in place and leaves the tables alone. *)
Record confined (paths : list string) (fn : W unit) : Prop := mkConfined {
  cf_store : forall w, wd_store (fn w).2 = wd_store w;
  cf_moves : forall w, moves w (fn w).2;
  cf_scope : forall w n, tracked ignorePatterns n -> (exists p, p ∈ paths /\ atOrUnder p n = true) \/ heldAt n (wd_tree w) (wd_tree (fn w).2)
}.

Lemma confined_healthy paths fn w : confined paths fn -> healthy w -> (forall p, p ∈ paths -> p ∈ locals w) -> healthy (fn w).2.
Proof.
  intros [Hs _ Hc] [Hn Hk Ha] Hp. split; [by rewrite Hs|by rewrite Hs|]. intros n Ht. destruct (Hc w n Ht) as [(p & Hin & Hu)|Hh].
  - right. exists p. unfold locals. rewrite Hs. split; [by apply Hp|done].
  - destruct (Ha n Ht) as [Hi|Hcv]; [left|right; unfold covered, locals; by rewrite Hs]. unfold indexedAt, rowsOf. rewrite Hs. by eapply describes_held.
Qed.

Abbreviation commit := (commitPublishedLocked sha256Hex stored granularity ignorePatterns repairPeers now mapOrder).

(** The commit up to its announcement. *)
Definition opening (sources paths : list string) : V unit :=
  do! prepare then
  do! (match sources with [] => retS tt | _ => inWorld (checkSourcesLocked sha256Hex stored granularity ignorePatterns repairPeers now mapOrder sources) end) then
  inWorld (beginCommitLocked sha256Hex stored granularity ignorePatterns repairPeers now mapOrder paths).
Record opened (paths : list string) (v v' : Vol) (r : result verr unit) : Prop := mkOpened {
  op_healthy : healthy (vo_world v');
  op_disk : disk (vo_world v) (vo_world v');
  op_ok : r = Ok tt -> vo_recovered v' = true /\ forall p, p ∈ paths -> p ∈ locals (vo_world v')
}.
Lemma opening_spec sources paths v : healthy (vo_world v) -> opened paths v (opening sources paths v).2 (opening sources paths v).1.
Proof.
  intros Hh. destruct (opening sources paths v) as [r v'] eqn:R. cbn. unfold opening, bindS in R. pose proof (prepare_spec v Hh) as [H1 D1 _ F1].
  destruct (prepare v) as [[[]|e] v1]; cbn in H1, D1, F1; [|injection R as <- <-; by split]. destruct F1 as [F1 _]; [done|].
  set (c := match sources with [] => retS tt | _ => _ end : V unit) in R.
  assert (grow (vo_world v1) (vo_world (c v1).2) /\ vo_recovered (c v1).2 = vo_recovered v1) as [G2 E2].
  { unfold c. destruct sources as [|x l]; [split; [reflexivity|done]|]. unfold inWorld, zoomS. pose proof (checkSources_grows (x :: l) (vo_world v1) H1) as G. by destruct (checkSourcesLocked _ _ _ _ _ _ _ _ (vo_world v1)). }
  destruct (c v1) as [[[]|e] v2]; cbn in G2, E2; (assert (healthy (vo_world v2)) as Hh2 by by eapply grows_healthy); (assert (disk (vo_world v) (vo_world v2)) as D2 by (etrans; [exact D1|by eapply grows_disk]));
    [|injection R as <- <-; by split].
  unfold inWorld, zoomS in R. destruct (begin_grows paths (vo_world v2) Hh2) as [G3 L3]. destruct (beginCommitLocked _ _ _ _ _ _ _ paths (vo_world v2)) as [[[]|e] w3]; cbn in G3, L3; injection R as <- <-.
  - split; [by eapply grows_healthy|etrans; [exact D2|by eapply grows_disk]|]. intros _. split; [cbn; congruence|]. by apply L3.
  - split; [by eapply grows_healthy|etrans; [exact D2|by eapply grows_disk]|done].
Qed.

Lemma commit_opening sources paths published fn v : commit sources paths published fn v = (do! opening sources paths then
  let! r := tryS (inWorld fn) in
  let! rv := tryS (match r with Ok _ => retS tt | Err _ => prepare end) in
  match rv with
  | Err _ => liftS (match r with Ok _ => rv | Err e => Err e end)
  | Ok _ =>
      let! rf := tryS (inWorld (finishCommitLocked sha256Hex stored granularity ignorePatterns repairPeers now mapOrder paths published)) in
      do! inWorld requestRescan then
      match r with Err e => failS e | Ok _ => liftS rf end
  end) v.
Proof.
  unfold commitPublishedLocked, opening, bindS. destruct (prepare v) as [[[]|e] v1]; [|reflexivity]. destruct sources as [|x l]; cbn [retS].
  - by destruct (inWorld (beginCommitLocked _ _ _ _ _ _ _ _) v1) as [[[]|e] v2].
  - destruct (inWorld (checkSourcesLocked _ _ _ _ _ _ _ _) v1) as [[[]|e] v2]; [|reflexivity]. by destruct (inWorld (beginCommitLocked _ _ _ _ _ _ _ _) v2) as [[[]|e] v3].
Qed.

(** The hashes a commit brings belong to the files they were taken from. *)
Definition trusted (published : gmap string (Info * string)) (w : World) : Prop := forall full info hash,
  published !! full = Some (info, hash) -> elsewhere full /\ identified sha256Hex info hash w.
Lemma trusted_moves published w w' : moves w w' -> trusted published w -> trusted published w'.
Proof. intros Hm Ht full info hash E. destruct (Ht full info hash E) as [? ?]. split; [done|by eapply identified_moves]. Qed.

(** What is left to do once the operation has run. *)
Lemma closing_spec paths published r v v' out : healthy (vo_world v) -> vo_recovered v = true -> trusted published (vo_world v) ->
  (let! rv := tryS (match r with Ok _ => retS tt | Err _ => prepare end) in
   match rv with
   | Err _ => liftS (match r with Ok _ => rv | Err e => Err e end)
   | Ok _ =>
       let! rf := tryS (inWorld (finishCommitLocked sha256Hex stored granularity ignorePatterns repairPeers now mapOrder paths published)) in
       do! inWorld requestRescan then
       match r with Err e => failS e | Ok _ => liftS rf end
   end) v = (out, v') ->
  healthy (vo_world v') /\
  (out = Ok tt -> r = Ok tt /\ (forall n b, elsewhere n -> backed n b (vo_world v) -> backed n b (vo_world v')) /\
    (forall n, elsewhere n -> heldAt n (wd_tree (vo_world v)) (wd_tree (vo_world v'))) /\
    (forall p n, p ∈ paths -> atOrUnder p n = true -> tracked ignorePatterns n -> indexedAt sha256Hex n (vo_world v')) /\ locals (vo_world v') = locals (vo_world v) ∖ list_to_set paths).
Proof.
  intros Hh Hr Ht R. set (c := match r with Ok _ => retS tt | Err _ => prepare end) in R.
  assert (healthy (vo_world (c v).2) /\ moves (vo_world v) (vo_world (c v).2) /\ (r = Ok tt -> c v = (Ok tt, v))) as (H1 & M1 & E1).
  { unfold c. destruct r as [[]|e]; [split; [done|]; split; [cbn; reflexivity|done]|]. destruct (prepare_spec v Hh) as [H1 D1 _ _]. split; [done|]. split; [apply D1|done]. }
  unfold bindS at 1 in R. unfold tryS at 1 in R. destruct (c v) as [rv v1]; cbn in H1, M1.
  destruct rv as [[]|e]. 2:{ destruct r as [[]|e0]; [by specialize (E1 eq_refl)|]. cbn in R. injection R as <- <-. by split. }
  unfold bindS at 1 in R. unfold tryS at 1 in R. unfold inWorld at 1, zoomS at 1 in R.
  destruct (finish_healthy paths published (vo_world v1) H1) as (H2 & B2 & T2 & I2); [by eapply trusted_moves|].
  destruct (finishCommitLocked _ _ _ _ _ _ _ paths published (vo_world v1)) as [rf w2]; cbn in H2, B2, T2, I2.
  assert (forall (o : V unit), (forall v, (o v).2 = v) -> forall v2, vo_world v2 = w2 -> (do! inWorld requestRescan then o) v2 = (out, v') -> healthy (vo_world v')) as Hq.
  { intros o Ho v2 E2 Ro. unfold bindS in Ro. unfold inWorld, zoomS, requestRescan, modifyS in Ro. rewrite E2 in Ro. match type of Ro with o ?x = _ => assert (v' = x) as -> by (specialize (Ho x); rewrite Ro in Ho; done) end.
    eapply grows_healthy; [apply quiet_grows|exact H2]. split; [by apply steady_frame|done]. }
  split.
  - destruct rf as [[]|e]; (refine (Hq _ _ (set_world w2 v1) eq_refl R); intros v0; destruct r as [[]|?]; done).
  - intros ->. destruct r as [[]|e]; [|exfalso; destruct rf as [[]|e']; cbn in R; discriminate R]. destruct rf as [[]|e]; [|exfalso; cbn in R; discriminate R].
    specialize (E1 eq_refl). injection E1 as <-. destruct (I2 eq_refl) as [I3 L3]. cbn in R. injection R as <-. cbn. split; [done|]. split; [done|]. split; [done|]. split; [|done].
    intros p n Hp Ha Htr. by apply (I3 p n).
Qed.

(** What an acknowledged commit is: its operation ran, on a volume where the announced paths were
    not yet touched and from which indexing changed nothing it did. *)
Record carried (paths : list string) (fn : W unit) (w before after w' : World) : Prop := mkCarried {
  cr_disk : disk w before;
  cr_run : fn before = (Ok tt, after);
  cr_held : forall n, elsewhere n -> heldAt n (wd_tree after) (wd_tree w');
  cr_backed : forall n b, elsewhere n -> backed n b after -> backed n b w';
  cr_indexed : forall p n, p ∈ paths -> atOrUnder p n = true -> tracked ignorePatterns n -> indexedAt sha256Hex n w';
  cr_withdrawn : forall p, p ∈ paths -> p ∉ locals w'
}.

Lemma commit_spec sources paths published fn v r v' : healthy (vo_world v) -> confined paths fn -> trusted published (vo_world v) ->
  commit sources paths published fn v = (r, v') ->
  healthy (vo_world v') /\ (r = Ok tt -> exists v1 after, opening sources paths v = (Ok tt, v1) /\ carried paths fn (vo_world v) (vo_world v1) after (vo_world v')).
Proof.
  intros Hh Hc Ht R. rewrite commit_opening in R. pose proof (opening_spec sources paths v Hh) as [H1 D1 O1]. unfold bindS at 1 in R.
  destruct (opening sources paths v) as [[[]|e] v1] eqn:Eo; cbn in H1, D1, O1; [|injection R as <- <-; by split]. destruct O1 as [F1 L1]; [done|].
  unfold bindS at 1 in R. unfold tryS at 1 in R. unfold inWorld at 1, zoomS at 1 in R.
  pose proof (confined_healthy paths fn (vo_world v1) Hc H1 L1) as H2. pose proof (cf_moves _ _ Hc (vo_world v1)) as M2. destruct (fn (vo_world v1)) as [r2 w2] eqn:R2; cbn in H2, M2.
  set (r' := match r2 with Ok a => Ok a | Err e => Err (VErr e) end : result verr unit) in R.
  apply (closing_spec paths published r' (set_world w2 v1)) in R as [H3 K3]; [|exact H2|exact F1|eapply trusted_moves; [exact M2|]; eapply trusted_moves; [apply D1|done]].
  split; [done|]. intros ->. destruct (K3 eq_refl) as (Er & B3 & T3 & I3 & L3). exists v1, w2. split; [done|]. split; [done| |done|done|done|].
  - destruct r2 as [[]|e]; [done|discriminate Er].
  - intros p Hp. rewrite L3. set_solver.
Qed.

(** C4. No change of a gateway is ever lost to the index. A commit keeps its operation's paths
    announced in the database from before the first change until every name at or below them has
    been indexed. Whichever calls and statements fail (a killed process is one whose later calls
    all fail), whether or not the operation itself succeeds, and in whatever order names are
    visited: afterwards each tracked name has a row that describes what is on the disk, or lies
    below a path that is still announced. An acknowledged commit has withdrawn its paths, and
    every name at or below them has its row. *)
Theorem commit_accounted (sources paths : list string) (published : gmap string (Info * string)) (fn : W unit) (v v' : Vol) (r : result verr unit) :
  healthy (vo_world v) -> confined paths fn -> trusted published (vo_world v) ->
  commit sources paths published fn v = (r, v') ->
  healthy (vo_world v') /\
  (r = Ok tt -> forall p, p ∈ paths -> p ∉ locals (vo_world v') /\ forall n, atOrUnder p n = true -> tracked ignorePatterns n -> indexedAt sha256Hex n (vo_world v')).
Proof.
  intros Hh Hc Ht R. destruct (commit_spec _ _ _ _ _ _ _ Hh Hc Ht R) as [H1 H2]. split; [done|]. intros HOk p Hp. destruct (H2 HOk) as (v1 & after & _ & K).
  split; [by apply K|]. intros n. by apply (cr_indexed _ _ _ _ _ _ K p n).
Qed.

(** C5. A restart settles every interrupted commit. Take a volume on which every change is
    accounted for, and let the process end, with a disk that differs, if at all, at names below
    announced paths. However the first validation of the new process ends, every change is still
    accounted for; when it passes, no path is announced any more and every tracked name has the
    row the disk asks for. *)
Theorem restart_settles (w w2 : World) (v' : Vol) (r : result verr unit) :
  healthy w -> db (wd_store w2) = db (wd_store w) ->
  (forall n, tracked ignorePatterns n -> covered w n \/ heldAt n (wd_tree w) (wd_tree w2)) ->
  prepare (mkVol w2 None None false None ∅) = (r, v') ->
  healthy (vo_world v') /\
  (r = Ok tt -> locals (vo_world v') = ∅ /\ forall n, tracked ignorePatterns n -> indexedAt sha256Hex n (vo_world v')).
Proof.
  intros [Hn Hk Ha] Ed Hd R. assert (healthy w2) as Hh.
  { split; [by rewrite Ed|by rewrite Ed|]. intros n Ht. destruct (Hd n Ht) as [Hc|Hh]; [right; unfold covered, locals; by rewrite Ed|].
    destruct (Ha n Ht) as [Hi|Hc]; [left|right; unfold covered, locals; by rewrite Ed]. unfold indexedAt, rowsOf. rewrite Ed. by eapply describes_held. }
  pose proof (prepare_spec (mkVol w2 None None false None ∅) Hh) as [H1 _ _ F1]. rewrite R in H1, F1. cbn in H1, F1. split; [done|]. intros HOk. destruct (F1 HOk) as [_ L]. specialize (L eq_refl).
  split; [done|]. intros n Ht. destruct (hl_accounted _ H1 n Ht) as [Hi|(p & Hp & _)]; [done|]. rewrite L in Hp. set_solver.
Qed.
End Hooks.
