(* ===== verification/Writes.v ===== *)
(** * What the gateways do to files

    internal/fileops/fileops.go and conditional.go: publishing a finished file, renaming,
    removing and making directories, each as a commit. *)

From S2P Require Import Prelude GoStrings Hoare FileMeta Database Names Store RepairQueue Integrity Intents Glob Validate Sync Transfer Volume Paths Indexing Apply Storage Commits Accounting.

(** ** System calls *)

Definition parentIsDir (t : gmap string node) (n : string) : bool := (Dir n =s ".") || bool_decide (t !! Dir n = Some NDir).

(** The names at or below [src] under their new names, in place of those at or below [dest]; links
    keep what they resolve to. *)
Definition relocate (src dest k : string) : string := dest +:+ sdrop (String.length src) k.
Definition moveTree (src dest : string) (t : gmap string node) : gmap string node :=
  list_to_map (map (fun kv : string * node => (relocate src dest kv.1, kv.2)) (List.filter (fun kv => atOrUnder src kv.1) (map_to_list t)))
  ∪ list_to_map (List.filter (fun kv : string * node => negb (atOrUnder src kv.1) && negb (atOrUnder dest kv.1)) (map_to_list t)).

(** [os.Rename] *)
Definition canReplace (t : gmap string node) (n : node) (dest : string) : bool :=
  match n, t !! dest with
  | _, None => true
  | NDir, Some NDir => emptyAt t dest
  | NDir, Some _ => false
  | _, Some NDir => false
  | _, Some _ => true
  end.
Definition osRename (src dest : string) : W unit :=
  do! sysW then
  let! w := getS in
  match wd_tree w !! src with
  | None => failS WMissing
  | Some n =>
      if src =s dest then retS tt
      else if atOrUnder src dest || negb (parentIsDir (wd_tree w) dest) || negb (canReplace (wd_tree w) n dest) then failS WSys
      else modifyS (fun w => set_tree (moveTree src dest (wd_tree w)) w)
  end.

(** [os.RemoveAll]: what is found, deepest first. *)
Definition osRemoveAll (name : string) : W unit :=
  let! w := getS in
  forS (fun kv : string * node => do! sysW then modifyS (fun w => set_tree (delete kv.1 (wd_tree w)) w)) (rev (below name (wd_tree w))).

(** [errors.Join] *)
Definition joinW (c d : W unit) : W unit :=
  let! r := tryS c in
  let! r' := tryS d in
  match r with Err e => failS e | Ok _ => liftS r' end.

(** [func syncRemovedParent(dir, path string) error] *)
Definition syncRemovedParent (path : string) : W unit := SyncSurvivingParent path.

(** ** Operations *)

Section Writes.
Context `{NameFolding} `{TreeRecovery} (sha256Hex : string -> string) (stored : Z -> Z) (granularity : Z).
Context (ignorePatterns : list string) (repairPeers : list string) (now : Z).
Context (mapOrder : gset string -> list string).

Abbreviation commit := (commitPublishedLocked sha256Hex stored granularity ignorePatterns repairPeers now mapOrder).
Abbreviation prepare := (prepareStorageLocked sha256Hex stored granularity ignorePatterns repairPeers now mapOrder).

(** The operation of [Publish], [PublishIf] and closing a writer. *)
Definition publishFile (scratch dest : string) : W unit :=
  let! w := getS in
  if BusyLocked dest w then failS WBusy
  else
    do! osRename scratch dest then
    SyncParents dest.

(** The scratch file is flushed and hashed before the lock is taken. *)
Definition sealScratch (scratch : string) : W (Info * string) :=
  do! syncPath scratch then
  do! sysW then (* Close *)
  Snapshot sha256Hex scratch.

(** [func Publish(root, scratch, dest string) error] *)
Definition Publish (scratch dest : string) : V unit :=
  let! sealed := inWorld (sealScratch scratch) in
  commit [] [dest] {[dest := sealed]} (publishFile scratch dest).

(** [func PublishIf(root, scratch, dest string, precondition func(current os.FileInfo, err error) error) (os.FileInfo, error)] *)
Definition PublishIf (scratch dest : string) (precondition : option (result werr (option node) -> bool)) : V Info :=
  let! sealed := inWorld (sealScratch scratch) in
  do! (match precondition with
       | None => retS tt
       | Some pre =>
           do! prepare then
           let! current := tryS (inWorld (stat dest)) in
           let current := match current with Ok n => Ok n | Err (VErr e) => Err e | Err _ => Err WSys end in
           if pre current then retS tt else failS VPrecondition
       end) then
  do! commit [] [dest] {[dest := sealed]} (publishFile scratch dest) then
  retS sealed.1.

(** [func Rename(dir, src, dest string) error] *)
Definition renameFile (src dest : string) : W unit :=
  let! w := getS in
  if BusyTreeLocked src w || BusyTreeLocked dest w then failS WBusy
  else
    do! osRename src dest then
    joinW (SyncParents src) (SyncParents dest).
Definition Rename (src dest : string) : V unit :=
  CommitFrom sha256Hex stored granularity ignorePatterns repairPeers now mapOrder [src] [src; dest] (renameFile src dest).

(** [func Mkdir(dir, path string, mode os.FileMode, parents bool) error] *)
Definition osMkdir (path : string) : W unit :=
  do! sysW then
  let! w := getS in
  if negb (parentIsDir (wd_tree w) path) then failS WMissing
  else match wd_tree w !! path with
       | Some _ => failS (WOccupied path)
       | None => modifyS (fun w => set_tree (<[path := NDir]> (wd_tree w)) w)
       end.
Definition osMkdirAll (path : string) : W unit :=
  do! mkdirAll path then
  let! w := getS in
  match wd_tree w !! path with
  | Some NDir => retS tt
  | Some _ => failS (WOccupied path)
  | None => modifyS (fun w => set_tree (<[path := NDir]> (wd_tree w)) w)
  end.
Definition Mkdir (path : string) (parents : bool) : V unit :=
  Do sha256Hex stored granularity ignorePatterns repairPeers now mapOrder
    (do! (if parents then osMkdirAll path else osMkdir path) then SyncParents path).
End Writes.

(** ** Moving names *)

Lemma atOrUnder_split p n : atOrUnder p n = true <-> exists sfx, n = p +:+ sfx /\ (sfx = "" \/ HasPrefix sfx "/" = true).
Proof.
  rewrite atOrUnder_spec, HasPrefix_spec. split.
  - intros [-> |(rest & ->)]; [exists ""; split; [by rewrite string_app_nil_r|by left]|]. exists ("/" +:+ rest). split; [by rewrite string_app_assoc|right]. by apply HasPrefix_spec; exists rest.
  - intros (sfx & -> & [-> |Hs]); [left; apply string_app_nil_r|right]. apply HasPrefix_spec in Hs as (rest & ->). exists rest. by rewrite string_app_assoc.
Qed.

Lemma relocate_app src dest sfx : relocate src dest (src +:+ sfx) = dest +:+ sfx.
Proof. unfold relocate. by rewrite sdrop_app. Qed.
Lemma relocate_under src dest k : atOrUnder src k = true -> atOrUnder dest (relocate src dest k) = true.
Proof. intros (sfx & -> & Hs)%atOrUnder_split. rewrite relocate_app. apply atOrUnder_split. eauto. Qed.

Lemma app_inj_r (p a b : string) : p +:+ a = p +:+ b -> a = b.
Proof. induction p as [|c p IH]; [done|]. intros [= E]. auto. Qed.

Lemma relocate_inj src dest a b : atOrUnder src a = true -> atOrUnder src b = true -> relocate src dest a = relocate src dest b -> a = b.
Proof.
  intros (x & -> & _)%atOrUnder_split (y & -> & _)%atOrUnder_split. rewrite !relocate_app. intros E%app_inj_r. by rewrite E.
Qed.

(** The two halves of a move. *)
Lemma moved_NoDup src dest (t : gmap string node) :
  NoDup (map (fun kv : string * node => (relocate src dest kv.1, kv.2)) (List.filter (fun kv => atOrUnder src kv.1) (map_to_list t))).*1.
Proof.
  pose proof (NoDup_fst_map_to_list t) as Hn. revert Hn. induction (map_to_list t) as [|[k x] l IH]; cbn; [constructor|]. intros [Hk Hn]%NoDup_cons.
  destruct (atOrUnder src k) eqn:E; [|by apply IH]. cbn. constructor; [|by apply IH]. intros Hin. apply Hk.
  apply list_elem_of_fmap in Hin as ([k' x'] & Ek & Hin). cbn in Ek. apply list_elem_of_In, in_map_iff in Hin as ([k2 x2] & [= <- <-] & Hin).
  apply filter_In in Hin as [Hin Hu]. cbn in Hu. apply relocate_inj in Ek as ->; [|done|done]. apply list_elem_of_fmap. exists (k2, x2). split; [done|by apply list_elem_of_In].
Qed.

Lemma moved_lookup src dest (t : gmap string node) n x :
  (list_to_map (map (fun kv : string * node => (relocate src dest kv.1, kv.2)) (List.filter (fun kv => atOrUnder src kv.1) (map_to_list t))) : gmap string node) !! n = Some x <->
  exists k, atOrUnder src k = true /\ n = relocate src dest k /\ t !! k = Some x.
Proof.
  rewrite <- (elem_of_list_to_map (M := gmap string)) by apply moved_NoDup. rewrite list_elem_of_In, in_map_iff. split.
  - intros ([k y] & [= <- <-] & [Hin Hu]%filter_In). exists k. split; [done|]. split; [done|]. by apply elem_of_map_to_list, list_elem_of_In.
  - intros (k & Hu & -> & E). exists (k, x). split; [done|]. apply filter_In. split; [by apply list_elem_of_In, elem_of_map_to_list|done].
Qed.

Lemma filter_fst_sublist {A B} (f : A * B -> bool) (l : list (A * B)) : (List.filter f l).*1 `sublist_of` l.*1.
Proof. induction l as [|x l IH]; cbn; [done|]. destruct (f x); cbn; by constructor. Qed.

Lemma stayed_lookup src dest (t : gmap string node) n x :
  (list_to_map (List.filter (fun kv : string * node => negb (atOrUnder src kv.1) && negb (atOrUnder dest kv.1)) (map_to_list t)) : gmap string node) !! n = Some x <->
  atOrUnder src n = false /\ atOrUnder dest n = false /\ t !! n = Some x.
Proof.
  rewrite <- (elem_of_list_to_map (M := gmap string)). 2:{ eapply sublist_NoDup; [apply (NoDup_fst_map_to_list t)|apply filter_fst_sublist]. }
  rewrite list_elem_of_In, filter_In, <- list_elem_of_In, elem_of_map_to_list. cbn. rewrite andb_true_iff, !negb_true_iff. tauto.
Qed.

Lemma moveTree_file src dest t n x : moveTree src dest t !! n = Some x ->
  (exists k, atOrUnder src k = true /\ n = relocate src dest k /\ t !! k = Some x) \/ (atOrUnder src n = false /\ atOrUnder dest n = false /\ t !! n = Some x).
Proof. unfold moveTree. rewrite lookup_union_Some_raw. intros [E|[_ E]]; [left; by apply moved_lookup|right; by apply stayed_lookup in E]. Qed.

Lemma moveTree_dest src dest t : moveTree src dest t !! dest = t !! src.
Proof.
  assert (relocate src dest src = dest) as Er by (unfold relocate; rewrite <- (string_app_nil_r src) at 2; rewrite sdrop_app; apply string_app_nil_r).
  apply option_eq. intros x. split.
  - intros [(k & Hu & Ek & E)|(_ & Hd & _)]%moveTree_file; [|by rewrite atOrUnder_refl in Hd].
    rewrite <- Er in Ek at 1. apply relocate_inj in Ek as <-; [done|apply atOrUnder_refl|done].
  - intros E. unfold moveTree. apply lookup_union_Some_raw. left. apply moved_lookup. exists src. split; [apply atOrUnder_refl|]. by rewrite Er.
Qed.

Lemma moveTree_other src dest t n : atOrUnder src n = false -> atOrUnder dest n = false -> moveTree src dest t !! n = t !! n.
Proof.
  intros H1 H2. apply option_eq. intros x. split.
  - intros [(k & Hu & -> & _)|(_ & _ & E)]%moveTree_file; [|done]. by rewrite relocate_under in H2.
  - intros E. unfold moveTree. apply lookup_union_Some_raw. right. split; [|by apply stayed_lookup].
    apply eq_None_not_Some. intros [y Hy]. apply moved_lookup in Hy as (k & Hu & -> & _). by rewrite relocate_under in H2.
Qed.

(** Names below one outside the private directory are outside it. *)
Lemma first_part p n : atOrUnder p n = true -> List.hd "" (Split n "/") = List.hd "" (Split p "/").
Proof.
  intros [-> |(t & ->)%HasPrefix_spec]%atOrUnder_spec; [done|]. rewrite string_app_assoc, Split_app_sep. pose proof (Split_nonnil p "/"). by destruct (Split p "/").
Qed.
Lemma private_part n : atOrUnder private n = true <-> List.hd "" (Split n "/") = private.
Proof.
  split; [by intros ->%first_part|]. intros E. rewrite <- (Join_Split_slash n). destruct (Split n "/") as [|x [|y l]]; cbn in E; [done|subst x; reflexivity|subst x].
  apply atOrUnder_spec. right. change (Join (private :: y :: l) "/") with (private +:+ "/" +:+ Join (y :: l) "/"). rewrite <- string_app_assoc. apply HasPrefix_app.
Qed.
Lemma elsewhere_under p n : elsewhere p -> atOrUnder p n = true -> elsewhere n.
Proof.
  unfold elsewhere. intros Hp Hu. apply first_part in Hu. destruct (atOrUnder private n) eqn:E; [|done]. apply private_part in E. rewrite E in Hu. symmetry in Hu. apply private_part in Hu. congruence.
Qed.

Lemma temporary_ignored n patterns : temporary n -> ShouldIgnore n patterns = true.
Proof. intros [_ Hm]. unfold ShouldIgnore. destruct (_ =s ".birak"); [done|]. by rewrite Hm. Qed.

(** ** What operations leave alone *)

Lemma joinW_run c d w : (joinW c d w).2 = (d (c w).2).2.
Proof. unfold joinW, bindS, tryS. destruct (c w) as [r w1]. cbn. destruct (d w1) as [r' w2]. by destruct r. Qed.
Lemma joinW_Ok c d w w' : joinW c d w = (Ok tt, w') -> exists w1, c w = (Ok tt, w1) /\ d w1 = (Ok tt, w').
Proof. unfold joinW, bindS, tryS. destruct (c w) as [[[]|e] w1]; destruct (d w1) as [[[]|e'] w2] eqn:E; try done. intros [= <-]. eauto. Qed.

(** A rename, seen from outside its two paths. *)
Record renamed (src dest : string) (w w' : World) : Prop := mkRenamed {
  rn_store : wd_store w' = wd_store w;
  rn_moves : elsewhere src -> moves w w';
  rn_scope : forall n, atOrUnder src n = false -> atOrUnder dest n = false -> heldAt n (wd_tree w) (wd_tree w')
}.
#[export] Instance renamed_preorder src dest : PreOrder (renamed src dest).
Proof.
  split; [intros w; split; [done|done|intros; reflexivity]|]. intros w1 w2 w3 [] []. split; [congruence|intros He; etrans; auto|intros n H1 H2; etrans; auto].
Qed.
Lemma renamed_steady {A} src dest (c : W A) : keeps steady c -> (forall w, wd_store (c w).2 = wd_store w) -> keeps (renamed src dest) c.
Proof.
  intros Hc Hs w. destruct (Hc w) as [He _ _]. split; [apply Hs| |by intros n _ _]. intros _ n i' Hn E. destruct (held_back n _ _ i' (He n) E) as (i & ? & ? & ?). by exists n, i.
Qed.
Lemma sysW_store w : wd_store (sysW w).2 = wd_store w.
Proof. destruct (sysW_frame w) as (_ & _ & E & _). unfold wd_store. by rewrite E. Qed.
Lemma flushEntry_store n w : wd_store (flushEntry n w).2 = wd_store w.
Proof. unfold flushEntry, bindS. pose proof (sysW_store w). by destruct (sysW w) as [[[]|e] w1]. Qed.

Lemma renamed_osRename src dest : keeps (renamed src dest) (osRename src dest).
Proof.
  unfold osRename. apply keeps_bind; [apply _|apply renamed_steady; [apply steady_sysW|apply sysW_store]|]. intros _ w. unfold bindS. cbn [getS].
  destruct (wd_tree w !! src) as [n|]; [|reflexivity]. destruct (src =s dest); [reflexivity|]. destruct (_ || _); [reflexivity|]. split; cbn; [done| |].
  - intros He n0 i' Hn E. cbn in E. apply moveTree_file in E as [(k & Hu & -> & E)|(_ & _ & E)].
    + exists k, i'. rewrite sameFile_spec. split; [exact (elsewhere_under src k He Hu)|done].
    + exists n0, i'. by rewrite sameFile_spec.
  - intros n0 H1 H2. unfold heldAt. rewrite moveTree_other by done. destruct (wd_tree w !! n0) as [[i| | |]|]; auto. exists i. by rewrite sameFile_spec.
Qed.
Lemma renamed_SyncParents src dest n : keeps (renamed src dest) (SyncParents n).
Proof. apply renamed_steady; [apply steady_flushEntry|apply flushEntry_store]. Qed.

(** ** Publication *)

Section Confined.
Context (ignorePatterns : list string).

(** A rename out of a scratch file touches its destination only. *)
Lemma scratch_confined scratch dest (fn : W unit) : temporary scratch -> keeps (renamed scratch dest) fn -> confined ignorePatterns [dest] fn.
Proof.
  intros Hs Hk. split; [intros w; apply (Hk w)|intros w; apply (Hk w), Hs|]. intros w n Ht. destruct (atOrUnder dest n) eqn:E; [left; exists dest; split; [set_solver|done]|right].
  apply (Hk w); [|done]. destruct (atOrUnder scratch n) eqn:E2; [|done]. destruct Ht as [_ Ht]. specialize (Ht scratch E2). by rewrite temporary_ignored in Ht.
Qed.
Lemma rename_confined src dest : elsewhere src -> confined ignorePatterns [src; dest] (renameFile src dest).
Proof.
  intros He. assert (keeps (renamed src dest) (renameFile src dest)) as Hk.
  { unfold renameFile. apply keeps_bind; [apply _|apply keeps_get, _|]. intros w0. destruct (_ || _); [apply keeps_fail, _|]. apply keeps_bind; [apply _|apply renamed_osRename|]. intros _ w.
    rewrite joinW_run. etrans; apply renamed_SyncParents. }
  split; [intros w; apply (Hk w)|intros w; by apply (Hk w)|]. intros w n Ht.
  destruct (atOrUnder src n) eqn:E1; [left; exists src; split; [set_solver|done]|]. destruct (atOrUnder dest n) eqn:E2; [left; exists dest; split; [set_solver|done]|right]. by apply (Hk w).
Qed.
Lemma publish_renamed scratch dest : keeps (renamed scratch dest) (publishFile scratch dest).
Proof.
  unfold publishFile. apply keeps_bind; [apply _|apply keeps_get, _|]. intros w0. destruct (BusyLocked dest w0); [apply keeps_fail, _|].
  apply keeps_bind; [apply _|apply renamed_osRename|]. intros _. apply renamed_SyncParents.
Qed.
End Confined.

Section Publication.
Context `{NameFolding} `{TreeRecovery} (sha256Hex : string -> string) (stored : Z -> Z) (granularity : Z).
Context (ignorePatterns : list string) (repairPeers : list string) (now : Z).
Context (mapOrder : gset string -> list string) (mapOrder_elem : forall N n, n ∈ mapOrder N <-> n ∈ N).
Context `{!TreeRecoveryLaws ignorePatterns}.
Abbreviation commit := (commitPublishedLocked sha256Hex stored granularity ignorePatterns repairPeers now mapOrder).
Abbreviation prepare := (prepareStorageLocked sha256Hex stored granularity ignorePatterns repairPeers now mapOrder).
Abbreviation fine := (healthy sha256Hex ignorePatterns).

(** No two names of one file. *)
Definition distinct (w : World) : Prop := forall n m i j, elsewhere n -> elsewhere m -> wd_tree w !! n = Some (NFile i) -> wd_tree w !! m = Some (NFile j) -> sameFile i j = true -> n = m.

Lemma Snapshot_tree p w : wd_tree (Snapshot sha256Hex p w).2 = wd_tree w.
Proof.
  unfold Snapshot, stat, bindS. destruct (sysW_frame w) as (T1 & _). destruct (sysW w) as [[[]|e] w1]; cbn in T1 |- *; [|done].
  destruct (wd_tree w1 !! resolve (wd_tree w1) p) as [[j| | |]|]; try done. destruct (sysW_frame w1) as (T2 & _). destruct (sysW w1) as [[[]|e] w2]; cbn in T2 |- *; congruence.
Qed.
(** The identity of a file with one name vouches for its bytes. *)
Lemma flushed_identified scratch w w1 w2 i : temporary scratch -> distinct w -> wd_tree w !! scratch = Some (NFile i) -> steady w w1 -> wd_tree w2 = wd_tree w1 ->
  identified sha256Hex (infoOf (flushed i)) (sha256Hex (in_bytes (flushed i))) w2.
Proof.
  intros Ht Hd E K1 T n k Hn Ek Dk Ik. rewrite T in Ek. destruct (held_back n _ _ k (sy_entry _ _ K1 n) Ek) as (k0 & Ek0 & Sk & Bk). assert (n = scratch) as ->.
  { apply (Hd n scratch k0 i); [done|apply Ht|done|done|]. apply sameFile_spec in Sk as [S1 S2]. apply sameFile_spec. cbn in Dk, Ik. split; congruence. }
  rewrite E in Ek0. injection Ek0 as <-. by rewrite Bk.
Qed.

(** Sealing a scratch file: its bytes are flushed and its identity vouches for them. *)
Lemma sealScratch_Ok scratch w i sealed w' : temporary scratch -> distinct w -> wd_tree w !! scratch = Some (NFile i) -> sealScratch sha256Hex scratch w = (Ok sealed, w') ->
  quiet w w' /\ identified sha256Hex sealed.1 sealed.2 w' /\ fi_size sealed.1 = slen (in_bytes i) /\
  exists i', wd_tree w' !! scratch = Some (NFile i') /\ in_bytes i' = in_bytes i /\ in_flushed i' = true.
Proof.
  intros Ht Hd E R. assert (keeps quiet (sealScratch sha256Hex scratch)) as K by (unfold sealScratch; still). specialize (K w). rewrite R in K. cbn in K. split; [done|].
  unfold sealScratch in R. apply bindS_Ok in R as ([] & w1 & R1 & R). pose proof (syncPath_Ok scratch w i w1 E R1) as E1.
  assert (steady w w1) as K1 by (pose proof (steady_syncPath scratch w) as K1; by rewrite R1 in K1).
  apply bindS_Ok in R as ([] & w2 & R2 & R). destruct (sysW_frame w1) as (T2 & _). rewrite R2 in T2. cbn in T2. destruct sealed as [info hash].
  pose proof (Snapshot_tree scratch w2) as T'. rewrite R in T'. cbn in T'.
  apply Snapshot_Ok in R as (j & Ej & -> & ->); [|intros t; by rewrite T2, E1]. rewrite T2, E1 in Ej. injection Ej as <-. cbn [fst snd].
  split; [eapply flushed_identified; [done|done|done|done|congruence]|]. split; [done|]. exists (flushed i). by rewrite T', T2.
Qed.

(** The rename and the flush of its directory. *)
Lemma publishFile_Ok scratch dest w w' i : scratch <> dest -> wd_tree w !! scratch = Some (NFile i) -> in_flushed i = true -> publishFile scratch dest w = (Ok tt, w') ->
  wd_tree w' !! dest = Some (NFile i) /\ backed dest (Some (in_bytes i)) w'.
Proof.
  intros Hne E Hf R. unfold publishFile in R. unfold bindS at 1 in R. cbn [getS] in R. destruct (BusyLocked dest w); [done|]. apply bindS_Ok in R as ([] & w1 & R1 & R).
  assert (wd_tree w1 !! dest = Some (NFile i)) as E1.
  { unfold osRename in R1. apply bindS_Ok in R1 as ([] & w2 & R2 & R1). destruct (sysW_frame w) as (T2 & _). rewrite R2 in T2. cbn in T2. unfold bindS in R1. cbn [getS] in R1. rewrite T2, E in R1.
    destruct (scratch =s dest) eqn:Ed; [by apply String.eqb_eq in Ed|]. destruct (_ || _); [done|]. injection R1 as <-. cbn. by rewrite moveTree_dest, T2. }
  unfold SyncParents in R. apply flushEntry_Ok in R as [T D]. unfold backed. rewrite T, D, E1. done.
Qed.

Lemma quiet_distinct w w' : quiet w w' -> distinct w -> distinct w'.
Proof.
  intros [[He _ _] _] Hd n m i j Hn Hm E1 E2 Es. destruct (held_back n _ _ i (He n) E1) as (i0 & F1 & S1 & _). destruct (held_back m _ _ j (He m) E2) as (j0 & F2 & S2 & _).
  apply (Hd n m i0 j0); [done..|]. rewrite sameFile_spec in *. destruct Es, S1, S2. split; congruence.
Qed.

(** What publication leaves when it is acknowledged. *)
Record published_ok (dest bytes : string) (w : World) : Prop := mkPublishedOk {
  po_crash : forall tree, crashed w tree -> exists j, tree !! dest = Some (NFile j) /\ in_bytes j = bytes;
  po_row : exists row, rowsOf w !! dest = Some row /\ Deleted row = false /\ Hash row = sha256Hex bytes /\ Size row = slen bytes;
  po_withdrawn : dest ∉ locals w
}.

Lemma tracked_not_temporary n : tracked ignorePatterns n -> temporary n -> False.
Proof. intros [_ Ht] Hs. specialize (Ht n (atOrUnder_refl n)). by rewrite temporary_ignored in Ht. Qed.

(** A commit that put flushed bytes in place. *)
Lemma carried_published paths fn w before after w' dest bytes : carried sha256Hex ignorePatterns paths fn w before after w' ->
  dest ∈ paths -> tracked ignorePatterns dest -> backed dest (Some bytes) after -> published_ok dest bytes w'.
Proof.
  intros [_ _ _ B I L] Hin Hd Ba. pose proof (tracked_elsewhere _ _ Hd) as He. apply (B dest _ He) in Ba. split.
  - intros tree Hc. exact (backed_crash dest _ _ tree Ba Hc).
  - specialize (I dest dest Hin (atOrUnder_refl dest) Hd). unfold indexedAt in I. destruct Ba as [Ba _].
    destruct (wd_tree w' !! dest) as [[j| | |]|]; try done. destruct Ba as [_ <-]. destruct (rowsOf w' !! dest) as [row|]; [|done]. destruct I as (I1 & I2 & I3). eauto.
  - by apply L.
Qed.

Lemma publish_commit scratch dest sealed v r v' i : fine (vo_world v) -> temporary scratch -> tracked ignorePatterns dest ->
  wd_tree (vo_world v) !! scratch = Some (NFile i) -> in_flushed i = true -> identified sha256Hex sealed.1 sealed.2 (vo_world v) ->
  commit [] [dest] {[dest := sealed]} (publishFile scratch dest) v = (r, v') ->
  fine (vo_world v') /\ (r = Ok tt -> published_ok dest (in_bytes i) (vo_world v')).
Proof.
  intros Hh Hs Hd E Hf Hi R. pose proof (tracked_elsewhere _ _ Hd) as He.
  apply (commit_spec sha256Hex stored granularity ignorePatterns repairPeers now mapOrder mapOrder_elem) in R as [H1 H2]; [|done|by apply (scratch_confined _ scratch dest), publish_renamed|].
  2:{ intros full info hash Hl. apply lookup_singleton_Some in Hl as [<- ->]. done. }
  split; [done|]. intros HOk. destruct (H2 HOk) as (v1 & after & _ & Hc). clear H2. set (before := vo_world v1) in *. destruct Hc as [D K T B I L] eqn:Ec. clear Ec.
  pose proof (dk_temp _ _ D scratch Hs) as Hsc. unfold heldAt in Hsc. rewrite E in Hsc. destruct Hsc as (i' & E' & Hb & _ & Hfl).
  assert (scratch <> dest) as Hne by (by intros ->; eapply tracked_not_temporary).
  destruct (publishFile_Ok scratch dest before after i' Hne E' (Hfl Hf) K) as [Ea Ba]. rewrite Hb in Ba. eapply carried_published; [by split|set_solver|done|done].
Qed.

(** C6. An acknowledged upload survives. When [PublishIf] reports success, a power loss at that
    moment, whatever it takes back, leaves the uploaded bytes at the destination, the index
    already has the destination with their hash and size, and nothing about it is pending; the
    generation reported is the scratch file's. Whatever fails on the way, every change stays
    accounted for. *)
Theorem publish_durable (scratch dest : string) (precondition : option (result werr (option node) -> bool)) (v v' : Vol) (r : result verr Info) (i : inode) :
  fine (vo_world v) -> distinct (vo_world v) -> temporary scratch -> tracked ignorePatterns dest ->
  wd_tree (vo_world v) !! scratch = Some (NFile i) ->
  PublishIf sha256Hex stored granularity ignorePatterns repairPeers now mapOrder scratch dest precondition v = (r, v') ->
  fine (vo_world v') /\
  match r with
  | Ok info => published_ok dest (in_bytes i) (vo_world v') /\ fi_size info = slen (in_bytes i)
  | Err _ => True
  end.
Proof.
  intros Hh Hdi Hs Hd E R. unfold PublishIf in R. unfold bindS at 1 in R. unfold inWorld at 1, zoomS at 1 in R.
  assert (keeps quiet (sealScratch sha256Hex scratch)) as K by (unfold sealScratch; still). specialize (K (vo_world v)).
  destruct (sealScratch sha256Hex scratch (vo_world v)) as [[sealed|e] w1] eqn:R1; cbn in K.
  2:{ injection R as <- <-. split; [|done]. by eapply grows_healthy; [apply quiet_grows|]. }
  destruct (sealScratch_Ok _ _ _ _ _ Hs Hdi E R1) as (_ & Hid & Hsz & i1 & E1 & B1 & F1). assert (fine w1) as Hh1 by (by eapply grows_healthy; [apply quiet_grows|]).
  set (v1 := set_world w1 v) in R. set (c := match precondition with None => _ | Some _ => _ end) in R.
  assert (fine (vo_world (c v1).2) /\ disk w1 (vo_world (c v1).2)) as [Hh2 D2].
  { unfold c. destruct precondition as [pre|]; [|split; [done|cbn; reflexivity]]. unfold bindS at 1 3.
    pose proof (prepare_spec sha256Hex stored granularity ignorePatterns repairPeers now mapOrder mapOrder_elem v1 Hh1) as [H2 D2 _ _]. destruct (prepare v1) as [[[]|e] v2]; cbn in H2, D2; [|by split].
    assert (keeps (fun v v' : Vol => quiet (vo_world v) (vo_world v')) (tryS (inWorld (stat dest)))) as K3.
    { intros v0. unfold tryS, inWorld, zoomS. pose proof (quiet_stat dest (vo_world v0)) as Q. by destruct (stat dest (vo_world v0)). }
    specialize (K3 v2). unfold bindS. destruct (tryS (inWorld (stat dest)) v2) as [[cur|e] v3]; cbn in K3; pose proof (quiet_grows sha256Hex _ _ K3) as G3;
      (assert (fine (vo_world v3) /\ disk w1 (vo_world v3)) as [H3 D3] by (split; [by eapply grows_healthy|etrans; [exact D2|by eapply grows_disk]])); [|by split].
    destruct (pre _); by split. }
  unfold bindS at 1 in R. destruct (c v1) as [[[]|e] v2]; cbn in Hh2, D2; [|injection R as <- <-; by split].
  pose proof (dk_temp _ _ D2 scratch Hs) as Hsc. unfold heldAt in Hsc. rewrite E1 in Hsc. destruct Hsc as (i2 & E2 & B2 & _ & F2).
  unfold bindS in R. destruct (commit [] [dest] {[dest := sealed]} (publishFile scratch dest) v2) as [r3 v3] eqn:R3.
  apply (publish_commit _ _ _ _ _ _ i2) in R3 as [H3 P3]; [|done|done|done|done|by apply F2|by eapply identified_moves; [apply D2|]].
  destruct r3 as [[]|e]; injection R as <- <-; (split; [done|]); [|done]. split; [|done]. rewrite <- B1, <- B2. by apply P3.
Qed.
End Publication.

(** ** Examples *)

(** A volume without interrupted replacements. *)
#[export] Instance idleRecovery : TreeRecovery := { RecoverLocked := sysW }.
#[export] Instance idleRecoveryLaws patterns : TreeRecoveryLaws patterns.
Proof.
  split; [apply sysW_store| |intros w n _; right; apply steady_sysW]. intros w. apply (grows_disk (fun s => s)), quiet_grows, quiet_sysW.
Qed.

Lemma elements_order (N : gset string) n : n ∈ elements N <-> n ∈ N.
Proof. apply elem_of_elements. Qed.

Definition upload : inode := mkInode 0 1 "new" 50 420 false.
Definition uploadTree : gmap string node :=
  {[ ".birak" := NDir; ".birak/storage-id" := NFile (mkInode 0 9 "e1" 1 384 true); ".birak-tmp-1" := NFile upload ]}.
Definition uploadStore : Store := set_epochs "e1" "e1-x" (set_db (upd_meta (fun t => <["storage_id" := "e1"]> t) (db initialStore)) initialStore).
Definition uploadVol (faults : list fault) : Vol := mkVol (set_wfaults faults (plainWorld uploadTree uploadStore)) None None false None ∅.
Definition uploaded (faults : list fault) : result verr Info * Vol :=
  PublishIf (H := asciiFolding) idHash (fun t => t) 1 [] ["p"] 9 elements ".birak-tmp-1" "a" None (uploadVol faults).

Lemma uploadTree_lookup n x : uploadTree !! n = Some x ->
  (n = ".birak" /\ x = NDir) \/ (n = ".birak/storage-id" /\ exists i, x = NFile i) \/ (n = ".birak-tmp-1" /\ x = NFile upload).
Proof.
  unfold uploadTree. intros [[<- <-]|[_ E]]%lookup_insert_Some; [by left|right]. apply lookup_insert_Some in E as [[<- <-]|[_ E]]; [left; eauto|right].
  by apply lookup_singleton_Some in E as [<- <-].
Qed.

Lemma uploadVol_healthy fs : healthy idHash [] (vo_world (uploadVol fs)).
Proof.
  split.
  - intros n e m. change (replica_intents (db (wd_store (vo_world (uploadVol fs))))) with (∅ : gmap string encoded). by rewrite lookup_empty.
  - intros n m. change (files (db (wd_store (vo_world (uploadVol fs))))) with (∅ : gmap string FileMeta). by rewrite lookup_empty.
  - intros n [_ Ht]. left. unfold indexedAt. change (rowsOf (vo_world (uploadVol fs))) with (∅ : gmap string FileMeta). rewrite lookup_empty. cbn.
    specialize (Ht n (atOrUnder_refl n)). change (wd_tree (vo_world (uploadVol fs))) with uploadTree. destruct (uploadTree !! n) as [x|] eqn:E; [|done].
    apply uploadTree_lookup in E as [[-> ->]|[[-> [i ->]]|[-> ->]]]; [done|vm_compute in Ht; discriminate Ht..].
Qed.

Lemma uploadVol_distinct fs : distinct (vo_world (uploadVol fs)).
Proof.
  intros n m i j Hn Hm E1 E2 _. change (wd_tree (vo_world (uploadVol fs))) with uploadTree in *.
  apply uploadTree_lookup in E1 as [[-> ?]|[[-> ?]|[-> _]]]; [done|vm_compute in Hn; discriminate Hn|]. apply uploadTree_lookup in E2 as [[-> ?]|[[-> ?]|[-> _]]]; [done|vm_compute in Hm; discriminate Hm|done].
Qed.

Lemma scratch_temporary : temporary ".birak-tmp-1".
Proof. split; vm_compute; reflexivity. Qed.
Lemma a_tracked : tracked [] "a".
Proof.
  split; [vm_compute; reflexivity|]. intros p [<- |(t & Ht)%HasPrefix_spec]%atOrUnder_spec; [vm_compute; reflexivity|]. destruct p as [|c [|d p]]; discriminate Ht.
Qed.

Lemma publish_durable_witness :
  (uploaded []).1 = Ok (mkInfo 0 1 3 50 420) /\ published_ok idHash "a" "new" (vo_world (uploaded []).2).
Proof.
  assert ((uploaded []).1 = Ok (mkInfo 0 1 3 50 420)) as E by (vm_compute; reflexivity). split; [exact E|].
  assert (wd_tree (vo_world (uploadVol [])) !! ".birak-tmp-1" = Some (NFile upload)) as Es by (vm_compute; reflexivity).
  pose proof (publish_durable (H := asciiFolding) idHash (fun t => t) 1 [] ["p"] 9 elements elements_order ".birak-tmp-1" "a" None (uploadVol []) (uploaded []).2 (uploaded []).1 upload
    (uploadVol_healthy []) (uploadVol_distinct []) scratch_temporary a_tracked Es (surjective_pairing _)) as [_ Hx].
  rewrite E in Hx. exact (proj1 Hx).
Defined.

(** The directory could not be flushed: the upload is reported as failed, yet its row is
    published and nothing is pending, and a power loss takes the file back. *)
Lemma crashed_durable w : crashed w (wd_durable w).
Proof. intros n. right. unfold settles. destruct (wd_durable w !! n) as [[i| | |]|]; eauto. Qed.
Definition unflushed : list fault := (repeat FNone 24 ++ [FFail])%list.
Lemma failed_flush_published :
  (uploaded unflushed).1 = Err (VErr WSys) /\ (exists row, rowsOf (vo_world (uploaded unflushed).2) !! "a" = Some row /\ Deleted row = false) /\
  locals (vo_world (uploaded unflushed).2) = ∅ /\ exists tree, crashed (vo_world (uploaded unflushed).2) tree /\ tree !! "a" = None.
Proof.
  split; [vm_compute; reflexivity|]. split; [eexists; vm_compute; split; reflexivity|]. split; [vm_compute; reflexivity|].
  exists (wd_durable (vo_world (uploaded unflushed).2)). split; [apply crashed_durable|vm_compute; reflexivity].
Qed.

(** A commit whose index update fails keeps its path announced; the next start settles it. *)
Definition publishA : W unit := publishFile ".birak-tmp-1" "a".
Lemma publishA_confined : confined [] ["a"] publishA.
Proof. apply (scratch_confined [] ".birak-tmp-1" "a"); [apply scratch_temporary|apply publish_renamed]. Qed.
Definition unindexed : list fault := (repeat FNone 23 ++ [FFail])%list.
Definition committedA (faults : list fault) : result verr unit * Vol :=
  commitPublishedLocked (H := asciiFolding) idHash (fun t => t) 1 [] ["p"] 9 elements [] ["a"] ∅ publishA (uploadVol faults).

Lemma trusted_nothing w : trusted idHash ∅ w.
Proof. intros full info hash E. by rewrite lookup_empty in E. Qed.

Lemma commit_accounted_witness :
  (committedA unindexed).1 = Err (VErr WSys) /\ wd_tree (vo_world (committedA unindexed).2) !! "a" = Some (NFile upload) /\
  rowsOf (vo_world (committedA unindexed).2) !! "a" = None /\ healthy idHash [] (vo_world (committedA unindexed).2) /\
  (committedA []).1 = Ok tt /\ indexedAt idHash "a" (vo_world (committedA []).2).
Proof.
  split; [vm_compute; reflexivity|]. split; [vm_compute; reflexivity|]. split; [vm_compute; reflexivity|]. split.
  - exact (proj1 (commit_accounted (H := asciiFolding) idHash (fun t => t) 1 [] ["p"] 9 elements elements_order [] ["a"] ∅ publishA (uploadVol unindexed) (committedA unindexed).2 (committedA unindexed).1
      (uploadVol_healthy unindexed) publishA_confined (trusted_nothing _) (surjective_pairing _))).
  - assert ((committedA []).1 = Ok tt) as E by (vm_compute; reflexivity). split; [exact E|].
    refine (proj2 (proj2 (commit_accounted (H := asciiFolding) idHash (fun t => t) 1 [] ["p"] 9 elements elements_order [] ["a"] ∅ publishA (uploadVol []) (committedA []).2 (committedA []).1
      (uploadVol_healthy []) publishA_confined (trusted_nothing _) (surjective_pairing _)) E "a" _) "a" (atOrUnder_refl "a") a_tracked). apply list_elem_of_singleton. reflexivity.
Defined.

Definition killed : World := vo_world (committedA unindexed).2.
Lemma killed_healthy : healthy idHash [] killed.
Proof.
  exact (proj1 (commit_spec (H := asciiFolding) idHash (fun t => t) 1 [] ["p"] 9 elements elements_order [] ["a"] ∅ publishA (uploadVol unindexed) (committedA unindexed).1 (committedA unindexed).2
    (uploadVol_healthy unindexed) publishA_confined (trusted_nothing _) (surjective_pairing _))).
Qed.
Definition rebooted : World := plainWorld (wd_tree killed) (wd_store killed).
Definition settledBoot : result verr unit * Vol := prepareStorageLocked (H := asciiFolding) idHash (fun t => t) 1 [] ["p"] 9 elements (mkVol rebooted None None false None ∅).

Lemma plain_db w : db (wd_store (plainWorld (wd_tree w) (wd_store w))) = db (wd_store w).
Proof. reflexivity. Qed.
Lemma plain_held w n : heldAt n (wd_tree w) (wd_tree (plainWorld (wd_tree w) (wd_store w))).
Proof. cbn. reflexivity. Qed.

Lemma restart_settles_witness :
  elements (locals killed) = ["a"] /\ settledBoot.1 = Ok tt /\ locals (vo_world settledBoot.2) = ∅ /\ indexedAt idHash "a" (vo_world settledBoot.2).
Proof.
  split; [vm_compute; reflexivity|]. assert (settledBoot.1 = Ok tt) as E by (vm_compute; reflexivity). split; [exact E|].
  destruct (restart_settles (H := asciiFolding) idHash (fun t => t) 1 [] ["p"] 9 elements elements_order killed rebooted settledBoot.2 settledBoot.1 killed_healthy (plain_db killed)
    (fun n _ => or_intror (plain_held killed n)) (surjective_pairing _)) as [_ Hx].
  destruct (Hx E) as [H1 H2]. split; [exact H1|]. exact (H2 "a" a_tracked).
Defined.
