(* ===== verification/Removal.v ===== *)
(** * Removing files and trees

    internal/fileops/fileops.go ([Remove]) and remove_tree.go: a directory tree is removed a
    batch of files at a time, each batch a commit of its own, with the lock free in between. What
    the walk outside the lock saw, how long each batch took and what others did meanwhile are
    inputs. *)

From S2P Require Import Prelude GoStrings Hoare FileMeta Database Names Store RepairQueue Integrity Intents Glob Validate Sync Transfer Volume Paths Indexing Apply Storage Commits Accounting Writes.

Definition removeBatchFirst : Z := 64.
Definition removeBatchMin : Z := 8.
Definition removeBatchMax : Z := 512.
Definition removeBatchTarget : Z := 100000000.

(** [func nextRemoveBatch(size int, held time.Duration) int]; the quotient is small enough for
    float64 to truncate it exactly. *)
Definition nextRemoveBatch (size held : Z) : Z :=
  let next := 2 * size in
  let next := if 0 <? held then Z.min next (size * removeBatchTarget / held) else next in
  Z.max removeBatchMin (Z.min removeBatchMax next).

(** [func gone(err error) bool] *)
Definition gone (e : werr) : bool := match e with WMissing => true | _ => false end.

(** [func writerInTreeLocked(dir, path string) bool]; hard links are not tracked. *)
Definition writerInTreeLocked (path : string) (w : World) : bool := BusyTreeLocked path w.

(** The operation of [removeBatch]: unlink what is still no directory, then flush the
    directories it was in. *)
Fixpoint unlink_loop (files removed : list string) : W (list string) :=
  match files with
  | [] => retS removed
  | file :: rest =>
      let! n := lstat file in
      match n with
      | None | Some NDir => unlink_loop rest removed
      | Some _ =>
          let! r := tryS (osRemove file) in
          match r with
          | Err e => if gone e then unlink_loop rest (file :: removed) else failS e
          | Ok _ => unlink_loop rest (file :: removed)
          end
      end
  end.
Definition flushNames (names : list string) (w : World) : World :=
  set_durable (foldr (fun n d => match wd_tree w !! n with Some x => <[n := x]> d | None => delete n d end) (wd_durable w) names) w.
Definition SyncDirOf (parent : string) (names : list string) : W unit :=
  do! sysW then modifyS (flushNames (List.filter (fun n => Dir n =s parent) names)).
Definition removeFiles (mapOrder : gset string -> list string) (files : list string) : W unit :=
  let! removed := unlink_loop files [] in
  forS (fun parent => SyncDirOf parent removed) (mapOrder (list_to_set (map Dir removed))).

(** [func removeEmptyTreeLocked(dir, path string) error] *)
Fixpoint rmdir_loop (dirs : list string) (changed : bool) : W unit :=
  match dirs with
  | [] => retS tt
  | dir :: rest =>
      let! r := tryS (osRemove dir) in
      match r with
      | Err e => if negb (gone e) && negb changed then failS e else rmdir_loop rest changed
      | Ok _ => rmdir_loop rest changed
      end
  end.
Definition removeEmptyTreeLocked (path : string) : W unit :=
  let! w := getS in
  let entries := below path (wd_tree w) in
  let dirs := List.filter (fun kv : string * node => bool_decide (kv.2 = NDir)) entries in
  let changed := negb (forallb (fun kv : string * node => bool_decide (kv.2 = NDir)) entries) in
  do! forS (fun _ => sysW) dirs then (* the walk *)
  do! rmdir_loop (rev (map fst dirs)) changed then
  let! r := tryS (syncRemovedParent path) in
  if changed then failS WChanged else liftS r.

(** The operation of [Remove] for anything but a directory tree. *)
Definition removeOne (path : string) (recursive : bool) : W unit :=
  let! w := getS in
  if BusyTreeLocked path w then failS WBusy
  else
    do! (if recursive then osRemoveAll path else osRemove path) then
    syncRemovedParent path.

Section Removal.
Context `{NameFolding} `{TreeRecovery} (sha256Hex : string -> string) (stored : Z -> Z) (granularity : Z).
Context (ignorePatterns : list string) (repairPeers : list string) (now : Z).
Context (mapOrder : gset string -> list string).
Abbreviation commit := (commitPublishedLocked sha256Hex stored granularity ignorePatterns repairPeers now mapOrder).

(** [func removeBatch(dir string, files []string) (time.Duration, int, error)]: how many files
    were left to their writers. *)
Definition removeBatch (files : list string) : V Z :=
  let! v := getS in
  let idle := List.filter (fun file => negb (BusyLocked file (vo_world v))) files in
  let busy := Z.of_nat (length files) - Z.of_nat (length idle) in
  match idle with
  | [] => retS busy
  | _ => do! commit [] idle ∅ (removeFiles mapOrder idle) then retS busy
  end.

(** The batches of [removeTree]: [walked] is what the walk finds, an error where it stops. *)
Definition flushBatch (batch : list string) (size kept : Z) (held : Z) (others : Vol -> Vol) : V (Z * Z) :=
  match batch with
  | [] => retS (size, kept)
  | _ =>
      let! busy := removeBatch batch in
      do! modifyS others then
      retS (nextRemoveBatch size held, kept + busy)
  end.
Fixpoint remove_batches (walked : list (result verr string)) (batch : list string) (size kept : Z) (held : list Z) (others : list (Vol -> Vol)) : V Z :=
  match walked with
  | [] => let! r := flushBatch batch size kept (hd 0 held) (hd id others) in retS r.2
  | Err e :: _ => failS e
  | Ok p :: rest =>
      let batch := (batch ++ [p])%list in
      if size <=? Z.of_nat (length batch) then
        let! r := flushBatch batch size kept (hd 0 held) (hd id others) in
        remove_batches rest [] r.1 r.2 (tail held) (tail others)
      else remove_batches rest batch size kept held others
  end.

(** [func removeTree(dir, path string) error] *)
Definition removeTree (path : string) (walked : list (result verr string)) (held : list Z) (others : list (Vol -> Vol)) : V unit :=
  do! Do sha256Hex stored granularity ignorePatterns repairPeers now mapOrder
    (let! w := getS in if writerInTreeLocked path w then failS WBusy else retS tt) then
  let! kept := remove_batches walked [] removeBatchFirst 0 held others in
  let! r := tryS (Commit sha256Hex stored granularity ignorePatterns repairPeers now mapOrder [path] (removeEmptyTreeLocked path)) in
  if (0 <? kept) && match r with Ok _ => true | Err (VErr WChanged) => true | Err _ => false end then failS (VErr WBusy)
  else liftS r.

(** [func Remove(dir, path string, recursive bool) error] *)
Definition Remove (path : string) (recursive : bool) (walked : list (result verr string)) (held : list Z) (others : list (Vol -> Vol)) : V unit :=
  let! n := (if recursive then tryS (inWorld (lstat path)) else retS (Ok None)) in
  match n with
  | Ok (Some NDir) => removeTree path walked held others
  | _ => Commit sha256Hex stored granularity ignorePatterns repairPeers now mapOrder [path] (removeOne path recursive)
  end.
End Removal.

(** ** What removing leaves alone *)

(** Names go, at or below the given paths, and nothing else changes. *)
Record pruned (paths : list string) (w w' : World) : Prop := mkPruned {
  pn_store : wd_store w' = wd_store w;
  pn_tree : wd_tree w' ⊆ wd_tree w;
  pn_scope : forall n, (forall p, p ∈ paths -> atOrUnder p n = false) -> wd_tree w' !! n = wd_tree w !! n
}.
#[export] Instance pruned_preorder paths : PreOrder (pruned paths).
Proof. split; [intros w; by split|]. intros w1 w2 w3 [] []. split; [congruence|by etrans|intros n Hn; rewrite pn_scope1, pn_scope0 by done; done]. Qed.

Lemma pruned_confined ignorePatterns paths fn : keeps (pruned paths) fn -> confined ignorePatterns paths fn.
Proof.
  intros Hk. split; [intros w; apply (Hk w)| |].
  - intros w n i' Hn E. exists n, i'. rewrite sameFile_spec. split; [done|]. split; [|done]. eapply lookup_weaken; [exact E|apply (Hk w)].
  - intros w n _. destruct (existsb (fun p => atOrUnder p n) paths) eqn:E.
    + left. apply existsb_exists in E as (p & Hp & Hu). exists p. split; [by apply list_elem_of_In|done].
    + right. unfold heldAt. rewrite (pn_scope _ _ _ (Hk w) n). { destruct (wd_tree w !! n) as [[i| | |]|]; auto. exists i. by rewrite sameFile_spec. }
      intros p Hp. apply not_true_is_false. intros Hu. apply not_true_iff_false in E. apply E, existsb_exists. exists p. split; [by apply list_elem_of_In|done].
Qed.

Lemma pruned_sysW paths : keeps (pruned paths) sysW.
Proof. intros w. destruct (sysW_frame w) as (E & _). split; [apply sysW_store|by rewrite E|by rewrite E]. Qed.
Lemma pruned_try {A} paths (c : W A) : keeps (pruned paths) c -> keeps (pruned paths) (tryS c).
Proof. intros Hc w. specialize (Hc w). unfold tryS. by destruct (c w). Qed.
Lemma pruned_flush paths n : keeps (pruned paths) (flushEntry n).
Proof.
  intros w. split; [apply flushEntry_store|..]; unfold flushEntry, bindS; destruct (sysW_frame w) as (E & _); destruct (sysW w) as [[[]|e] w1]; cbn in *; by rewrite E.
Qed.
Lemma pruned_delete paths n w : (exists p, p ∈ paths /\ atOrUnder p n = true) -> pruned paths w (set_tree (delete n (wd_tree w)) w).
Proof.
  intros (p & Hp & Hu). split; [done|cbn; apply delete_subseteq|]. intros m Hm. cbn. apply lookup_delete_ne. intros ->. by rewrite (Hm p Hp) in Hu.
Qed.
Lemma pruned_osRemove paths n : (exists p, p ∈ paths /\ atOrUnder p n = true) -> keeps (pruned paths) (osRemove n).
Proof.
  intros Hn. unfold osRemove. apply keeps_bind; [apply _|apply pruned_sysW|]. intros _ w. unfold bindS. cbn [getS].
  destruct (wd_tree w !! n) as [[]|]; try reflexivity; [by apply pruned_delete| |by apply pruned_delete..]. destruct (emptyAt _ _); [by apply pruned_delete|reflexivity].
Qed.
Lemma pruned_lstat paths n : keeps (pruned paths) (lstat n).
Proof. unfold lstat. apply keeps_bind; [apply _|apply pruned_sysW|]. intros _. apply keeps_bind; [apply _|apply keeps_get, _|]. intros w. apply keeps_ret, _. Qed.

Lemma pruned_unlink paths files removed : (forall f, f ∈ files -> f ∈ paths) -> keeps (pruned paths) (unlink_loop files removed).
Proof.
  revert removed. induction files as [|f files IH]; intros removed Hf; cbn; [apply keeps_ret, _|]. apply keeps_bind; [apply _|apply pruned_lstat|]. intros n.
  assert (forall removed, keeps (pruned paths) (unlink_loop files removed)) as IH' by (intros; apply IH; set_solver).
  assert (keeps (pruned paths) (let! r := tryS (osRemove f) in match r with Ok _ => unlink_loop files (f :: removed) | Err e => if gone e then unlink_loop files (f :: removed) else failS e end)) as Hgo.
  { apply keeps_bind; [apply _|apply pruned_try, pruned_osRemove; exists f; split; [set_solver|apply atOrUnder_refl]|]. intros [?|e]; [apply IH'|]. destruct (gone e); [apply IH'|apply keeps_fail, _]. }
  destruct n as [[]|]; first [apply IH'|apply Hgo].
Qed.
Lemma removeFiles_confined ignorePatterns mapOrder files : confined ignorePatterns files (removeFiles mapOrder files).
Proof.
  apply pruned_confined. unfold removeFiles. apply keeps_bind; [apply _|by apply pruned_unlink|]. intros removed. apply keeps_for; [apply _|]. intros parent. unfold SyncDirOf.
  apply keeps_bind; [apply _|apply pruned_sysW|]. intros _ w. by split.
Qed.

Lemma pruned_rmdir path dirs changed : (forall d, d ∈ dirs -> atOrUnder path d = true) -> keeps (pruned [path]) (rmdir_loop dirs changed).
Proof.
  induction dirs as [|d dirs IH]; intros Hd; cbn; [apply keeps_ret, _|]. apply keeps_bind; [apply _|apply pruned_try, pruned_osRemove; exists path; split; [set_solver|apply Hd; set_solver]|].
  intros [?|e]; [apply IH; set_solver|]. destruct (_ && _); [apply keeps_fail, _|apply IH; set_solver].
Qed.
Lemma removeEmptyTree_confined ignorePatterns path : confined ignorePatterns [path] (removeEmptyTreeLocked path).
Proof.
  apply pruned_confined. unfold removeEmptyTreeLocked. apply keeps_bind; [apply _|apply keeps_get, _|]. intros w0. cbv zeta.
  apply keeps_bind; [apply _|apply keeps_for; [apply _|]; intros _; apply pruned_sysW|]. intros _. apply keeps_bind; [apply _|apply pruned_rmdir|].
  { intros d Hd. apply list_elem_of_In, in_rev, in_map_iff in Hd as ([k x] & <- & [Hin _]%filter_In). apply list_elem_of_In, below_elem in Hin. apply Hin. }
  intros _. apply keeps_bind; [apply _|apply pruned_try; unfold syncRemovedParent, SyncSurvivingParent; apply keeps_bind; [apply _|apply pruned_sysW|intros _; apply pruned_flush]|].
  intros r. destruct (negb _); [apply keeps_fail, _|apply keeps_lift, _].
Qed.
Lemma removeOne_confined ignorePatterns path recursive : confined ignorePatterns [path] (removeOne path recursive).
Proof.
  apply pruned_confined. unfold removeOne. apply keeps_bind; [apply _|apply keeps_get, _|]. intros w0. destruct (BusyTreeLocked path w0); [apply keeps_fail, _|].
  apply keeps_bind; [apply _| |intros _; unfold syncRemovedParent, SyncSurvivingParent; apply keeps_bind; [apply _|apply pruned_sysW|intros _; apply pruned_flush]].
  destruct recursive; [|apply pruned_osRemove; exists path; split; [set_solver|apply atOrUnder_refl]]. unfold osRemoveAll. intros w. unfold bindS. cbn [getS].
  assert (forall kv, kv ∈ rev (below path (wd_tree w)) -> atOrUnder path kv.1 = true) as Hb.
  { intros [k x] Hin. apply list_elem_of_In, in_rev, list_elem_of_In, below_elem in Hin. apply Hin. }
  revert Hb. generalize (rev (below path (wd_tree w))) as l. intros l Hb. revert w. induction l as [|[k x] l IH]; intros w; cbn [forS]; [reflexivity|].
  apply (keeps_bind (pruned [path])).
  - apply keeps_bind; [apply _|apply pruned_sysW|]. intros _ w1. apply pruned_delete. exists path. split; [set_solver|]. apply (Hb (k, x)). set_solver.
  - intros _ w1. apply IH. intros kv Hin. apply Hb. set_solver.
Qed.

(** When the emptied tree is gone, it is gone. *)
Lemma osRemove_Ok n w w' : osRemove n w = (Ok tt, w') -> wd_tree w' !! n = None.
Proof.
  unfold osRemove. intros R. apply bindS_Ok in R as ([] & w1 & _ & R). unfold bindS in R. cbn [getS] in R.
  destruct (wd_tree w1 !! n) as [[]|]; try discriminate R; try (injection R as <-; cbn; by rewrite lookup_delete_eq). destruct (emptyAt _ _); [|done]. injection R as <-. cbn. by rewrite lookup_delete_eq.
Qed.
Lemma osRemove_gone n w e w' : osRemove n w = (Err e, w') -> gone e = true -> wd_tree w' !! n = None.
Proof.
  unfold osRemove. intros R Hg. apply bindS_Err in R as [R|([] & w1 & R1 & R)].
  - unfold sysW in R. destruct (wd_faults w) as [|[] l]; try discriminate R; injection R as <- _; discriminate Hg.
  - unfold bindS in R. cbn [getS] in R. destruct (wd_tree w1 !! n) as [[]|] eqn:E; try discriminate R; [|by injection R as _ <-]. destruct (emptyAt _ _); [done|]. injection R as <- _. discriminate Hg.
Qed.
Lemma rmdir_loop_Ok path dirs w w' : (forall d, d ∈ dirs -> atOrUnder path d = true) -> rmdir_loop dirs false w = (Ok tt, w') -> forall d, d ∈ dirs -> wd_tree w' !! d = None.
Proof.
  revert w. induction dirs as [|d dirs IH]; intros w Hd R x Hx; [by apply elem_of_nil in Hx|]. cbn in R. apply bindS_Ok in R as (r & w1 & R1 & R). apply tryS_Ok in R1.
  assert (wd_tree w1 !! d = None /\ rmdir_loop dirs false w1 = (Ok tt, w')) as [E1 R2].
  { destruct r as [[]|e]; [split; [by apply osRemove_Ok in R1|done]|]. destruct (gone e) eqn:Eg; [|by cbn in R]. split; [by eapply osRemove_gone|done]. }
  apply elem_of_cons in Hx as [-> |Hx]; [|eapply IH; [set_solver|done|done]]. pose proof (pruned_rmdir path dirs false) as K. specialize (K ltac:(set_solver) w1). rewrite R2 in K. cbn in K.
  destruct (wd_tree w' !! d) as [y|] eqn:Ey; [|done]. apply (lookup_weaken _ (wd_tree w1)) in Ey; [congruence|apply K].
Qed.
Lemma removeEmptyTree_Ok path w w' : removeEmptyTreeLocked path w = (Ok tt, w') -> forall n, atOrUnder path n = true -> wd_tree w' !! n = None.
Proof.
  intros R n Hn. pose proof (removeEmptyTree_confined [] path) as _. unfold removeEmptyTreeLocked in R. unfold bindS at 1 in R. cbn [getS] in R. cbv zeta in R.
  set (entries := below path (wd_tree w)) in *. destruct (forallb _ entries) eqn:Ef; cbn [negb] in R.
  2:{ apply bindS_Ok in R as ([] & w1 & _ & R). apply bindS_Ok in R as ([] & w2 & _ & R). by apply bindS_Ok in R as (r & w3 & _ & R). }
  set (dirs := List.filter _ entries) in R. apply bindS_Ok in R as ([] & w1 & R1 & R). apply bindS_Ok in R as ([] & w2 & R2 & R). apply bindS_Ok in R as (r & w3 & R3 & R).
  assert (pruned [path] w w1) as K1 by (assert (keeps (pruned [path]) (forS (fun _ : string * node => sysW) dirs)) as K by (apply keeps_for; [apply _|]; intros _; apply pruned_sysW); specialize (K w); by rewrite R1 in K).
  assert (forall d, d ∈ rev (map fst dirs) -> atOrUnder path d = true) as Hd.
  { intros d Hd. apply list_elem_of_In, in_rev, in_map_iff in Hd as ([k x] & <- & [Hin _]%filter_In). apply list_elem_of_In, below_elem in Hin. apply Hin. }
  pose proof (pruned_rmdir path (rev (map fst dirs)) false Hd w1) as K2. rewrite R2 in K2. cbn in K2.
  assert (pruned [path] w2 w3) as K3.
  { assert (keeps (pruned [path]) (tryS (syncRemovedParent path))) as K by (apply pruned_try; unfold syncRemovedParent, SyncSurvivingParent; apply keeps_bind; [apply _|apply pruned_sysW|intros _; apply pruned_flush]).
    specialize (K w2). by rewrite R3 in K. }
  assert (w' = w3) as -> by (unfold liftS in R; by destruct r; injection R). destruct (wd_tree w3 !! n) as [x|] eqn:E; [|done]. exfalso.
  apply (lookup_weaken _ (wd_tree w2)) in E; [|apply K3]. assert (wd_tree w !! n = Some x) as Ew by (eapply lookup_weaken; [eapply lookup_weaken; [exact E|apply K2]|apply K1]).
  assert ((n, x) ∈ entries) as Hin by by apply below_elem. rewrite (rmdir_loop_Ok path _ w1 w2 Hd R2 n) in E; [done|]. apply list_elem_of_In. rewrite <- in_rev. apply in_map_iff. exists (n, x). split; [done|].
  apply filter_In. split; [by apply list_elem_of_In|]. rewrite forallb_forall in Ef. apply (Ef (n, x)). by apply list_elem_of_In.
Qed.

(** ** Properties *)

Section Properties.
Context `{NameFolding} `{TreeRecovery} (sha256Hex : string -> string) (stored : Z -> Z) (granularity : Z).
Context (ignorePatterns : list string) (repairPeers : list string) (now : Z).
Context (mapOrder : gset string -> list string) (mapOrder_elem : forall N n, n ∈ mapOrder N <-> n ∈ N).
Context `{!TreeRecoveryLaws ignorePatterns}.
Abbreviation fine := (fun v : Vol => healthy sha256Hex ignorePatterns (vo_world v)).
Abbreviation commit := (commitPublishedLocked sha256Hex stored granularity ignorePatterns repairPeers now mapOrder).

Lemma nothing_trusted w : trusted sha256Hex ∅ w.
Proof. intros full info hash E. by rewrite lookup_empty in E. Qed.

(** Steps after which every change is accounted for, whatever fails. *)
Definition safely {A} (c : V A) : Prop := forall v, fine v -> fine (c v).2.
Lemma safely_bind {A B} (c : V A) (k : A -> V B) : safely c -> (forall a, safely (k a)) -> safely (bindS c k).
Proof. intros Hc Hk v Hv. specialize (Hc v Hv). unfold bindS. destruct (c v) as [[a|e] v1]; [by apply Hk|done]. Qed.
Lemma safely_ret {A} (a : A) : safely (retS a).
Proof. by intros v Hv. Qed.
Lemma safely_fail {A} e : safely (failS e : V A).
Proof. by intros v Hv. Qed.
Lemma safely_try {A} (c : V A) : safely c -> safely (tryS c).
Proof. intros Hc v Hv. specialize (Hc v Hv). unfold tryS. by destruct (c v). Qed.
Lemma safely_commit sources paths fn : confined ignorePatterns paths fn -> safely (commit sources paths ∅ fn).
Proof. intros Hc v Hv. by apply (commit_spec sha256Hex stored granularity ignorePatterns repairPeers now mapOrder mapOrder_elem sources paths ∅ fn v (commit sources paths ∅ fn v).1 _ Hv Hc (nothing_trusted _) (surjective_pairing _)). Qed.

Lemma safely_removeBatch files : safely (removeBatch sha256Hex stored granularity ignorePatterns repairPeers now mapOrder files).
Proof.
  unfold removeBatch. apply safely_bind; [by intros v Hv|]. intros v0. cbv zeta. destruct (List.filter _ files) as [|x l]; [apply safely_ret|].
  apply safely_bind; [apply safely_commit, removeFiles_confined|]. intros _. apply safely_ret.
Qed.
Lemma safely_flush batch size kept held others : (forall v, fine v -> fine (others v)) -> safely (flushBatch sha256Hex stored granularity ignorePatterns repairPeers now mapOrder batch size kept held others).
Proof.
  intros Ho. unfold flushBatch. destruct batch as [|x l]; [apply safely_ret|]. apply safely_bind; [apply safely_removeBatch|]. intros busy. apply safely_bind; [intros v Hv; by apply Ho|]. intros _. apply safely_ret.
Qed.
Lemma safely_batches walked batch size kept held others : Forall (fun o : Vol -> Vol => forall v, fine v -> fine (o v)) others ->
  safely (remove_batches sha256Hex stored granularity ignorePatterns repairPeers now mapOrder walked batch size kept held others).
Proof.
  revert batch size kept held others. induction walked as [|[p|e] walked IH]; intros batch size kept held others Ho; cbn [remove_batches]; [| |apply safely_fail].
  - apply safely_bind; [apply safely_flush; destruct Ho; [by intros v|done]|]. intros r. apply safely_ret.
  - destruct (size <=? _); [|by apply IH]. apply safely_bind; [apply safely_flush; destruct Ho; [by intros v|done]|]. intros r. apply IH. by destruct Ho; [constructor|].
Qed.
Lemma safely_Do fn : (forall w, quiet w (fn w).2) -> safely (Do sha256Hex stored granularity ignorePatterns repairPeers now mapOrder fn).
Proof.
  intros Hf. unfold Do. apply safely_bind; [intros v Hv; by apply (prepare_spec sha256Hex stored granularity ignorePatterns repairPeers now mapOrder mapOrder_elem v Hv)|]. intros _ v Hv.
  unfold inWorld, zoomS. specialize (Hf (vo_world v)). destruct (fn (vo_world v)) as [r w]. cbn in *. eapply grows_healthy; [by apply quiet_grows|exact Hv].
Qed.

(** C13. Removing a tree leaves nothing behind and nothing unexplained. Whatever the walk saw,
    however long batches took, whatever others did between batches as long as their changes are
    accounted for, and whatever fails: every change stays accounted for. When the removal
    reports success, no name at or below the path is left on the disk, and each of them is
    deleted in the index, so peers will delete it too. *)
Theorem removeTree_complete (path : string) (walked : list (result verr string)) (held : list Z) (others : list (Vol -> Vol)) (v v' : Vol) (r : result verr unit) :
  fine v -> Forall (fun o : Vol -> Vol => forall v, fine v -> fine (o v)) others ->
  removeTree sha256Hex stored granularity ignorePatterns repairPeers now mapOrder path walked held others v = (r, v') ->
  fine v' /\
  (r = Ok tt -> path ∉ locals (vo_world v') /\ forall n, atOrUnder path n = true ->
     (elsewhere n -> wd_tree (vo_world v') !! n = None) /\ (tracked ignorePatterns n -> live (rowsOf (vo_world v') !! n) = false)).
Proof.
  intros Hv Ho R. unfold removeTree in R. unfold bindS at 1 in R.
  assert (safely (Do sha256Hex stored granularity ignorePatterns repairPeers now mapOrder (let! w := getS in if writerInTreeLocked path w then failS WBusy else retS tt))) as S1.
  { apply safely_Do. intros w. unfold bindS. cbn [getS]. destruct (writerInTreeLocked path w); cbn; reflexivity. }
  specialize (S1 v Hv). destruct (Do _ _ _ _ _ _ _ _ v) as [[[]|e] v1]; [|injection R as <- <-; by split]. cbn in S1.
  pose proof (safely_batches walked [] removeBatchFirst 0 held others Ho v1 S1) as S2. unfold bindS at 1 in R. destruct (remove_batches _ _ _ _ _ _ _ walked [] removeBatchFirst 0 held others v1) as [[kept|e] v2]; [|injection R as <- <-; by split].
  cbn in S2. unfold bindS at 1 in R. unfold tryS at 1 in R. unfold Commit, CommitFrom in R.
  destruct (commit [] [path] ∅ (removeEmptyTreeLocked path) v2) as [r3 v3] eqn:R3.
  apply (commit_spec sha256Hex stored granularity ignorePatterns repairPeers now mapOrder mapOrder_elem) in R3 as [S3 K3]; [|done|apply removeEmptyTree_confined|apply nothing_trusted].
  assert (v' = v3 /\ (r = Ok tt -> r3 = Ok tt)) as [-> Hr].
  { destruct (0 <? kept); cbn in R; [destruct r3 as [[]|[[]| | | | | | | | |]]|destruct r3 as [[]|?]]; injection R as <- <-; done. }
  split; [done|]. intros HOk. destruct (K3 (Hr HOk)) as (v4 & after & _ & [_ Kr Kh _ Ki Kw]). split; [apply Kw; set_solver|]. intros n Hn. pose proof (removeEmptyTree_Ok path (vo_world v4) after Kr n Hn) as En.
  assert (elsewhere n -> wd_tree (vo_world v3) !! n = None) as Hgone by (intros He; specialize (Kh n He); unfold heldAt in Kh; by rewrite En in Kh). split; [done|].
  intros Ht. specialize (Ki path n (proj2 (list_elem_of_singleton _ _) eq_refl) Hn Ht). unfold indexedAt in Ki. rewrite Hgone in Ki by by eapply tracked_elsewhere.
  destruct (rowsOf (vo_world v3) !! n) as [m|]; [|done]. cbn in *. by rewrite Ki.
Qed.
End Properties.

(** ** Examples *)

Lemma nextRemoveBatch_bounds size held : removeBatchMin <= nextRemoveBatch size held <= removeBatchMax.
Proof. unfold nextRemoveBatch, removeBatchMin, removeBatchMax. lia. Qed.

Definition rowX : FileMeta := mkFileMeta "d/x" 50 5 "hello" false 1 "" 0 "" "" 0.
Definition docTree : gmap string node := <["d" := NDir]> (<["d/x" := NFile hello]> uploadTree).
Definition docStore : Store := set_db (upd_files (fun t => <["d/x" := rowX]> t) (db uploadStore)) uploadStore.
Definition docVol : Vol := mkVol (plainWorld docTree docStore) None None false None ∅.
Definition docRemoved : result verr unit * Vol :=
  removeTree (H := asciiFolding) idHash (fun t => t) 1 [] ["p"] 9 elements "d" [Ok "d/x"] [] [] docVol.

Lemma docVol_healthy : healthy idHash [] (vo_world docVol).
Proof.
  split.
  - intros n e m. change (replica_intents (db (wd_store (vo_world docVol)))) with (∅ : gmap string encoded). by rewrite lookup_empty.
  - intros n m. change (files (db (wd_store (vo_world docVol)))) with ({["d/x" := rowX]} : gmap string FileMeta). by intros [<- <-]%lookup_singleton_Some.
  - intros n Ht. left. unfold indexedAt. change (rowsOf (vo_world docVol)) with ({["d/x" := rowX]} : gmap string FileMeta). change (wd_tree (vo_world docVol)) with docTree. unfold docTree.
    destruct (decide (n = "d/x")) as [-> |Hx]; [vm_compute; done|]. rewrite lookup_singleton_ne by done.
    destruct (decide (n = "d")) as [-> |Hd]; [vm_compute; done|]. rewrite !lookup_insert_ne by done.
    destruct (hl_accounted _ _ _ (uploadVol_healthy []) n Ht) as [Hi|(p & Hp & _)].
    + unfold indexedAt in Hi. change (rowsOf (vo_world (uploadVol []))) with (∅ : gmap string FileMeta) in Hi. by rewrite lookup_empty in Hi.
    + change (locals (vo_world (uploadVol []))) with (∅ : gset string) in Hp. set_solver.
Qed.
Lemma dx_tracked : tracked [] "d/x".
Proof.
  split; [vm_compute; reflexivity|]. intros p [<- |(t & Ht)%HasPrefix_spec]%atOrUnder_spec; [vm_compute; reflexivity|].
  destruct p as [|c [|d [|e [|f p]]]]; try discriminate Ht. injection Ht as <- _. vm_compute. reflexivity.
Qed.

Lemma removeTree_complete_witness :
  docRemoved.1 = Ok tt /\ wd_tree (vo_world docRemoved.2) !! "d/x" = None /\ live (rowsOf (vo_world docRemoved.2) !! "d/x") = false /\ is_Some (rowsOf (vo_world docRemoved.2) !! "d/x").
Proof.
  assert (docRemoved.1 = Ok tt) as E by (vm_compute; reflexivity). split; [exact E|].
  destruct (removeTree_complete (H := asciiFolding) idHash (fun t => t) 1 [] ["p"] 9 elements elements_order "d" [Ok "d/x"] [] [] docVol docRemoved.2 docRemoved.1 docVol_healthy (Forall_nil_2 _) (surjective_pairing _)) as [_ Hx].
  destruct (Hx E) as [_ Hn]. destruct (Hn "d/x" eq_refl) as [H1 H2]. split; [apply H1; vm_compute; reflexivity|]. split; [exact (H2 dx_tracked)|]. vm_compute. eexists. reflexivity.
Defined.
