(* ===== verification/Writers.v ===== *)
(** * Open files of the gateways

    internal/fileops/fileops.go: [OpenWriter], the function it returns for closing, and
    [AbortWriter]. A writer stages a whole new generation in a scratch file next to its
    destination; closing publishes it in a commit. The scratch file belongs to its writer alone,
    so what others do while a writer is open happens between the operations here. *)

From S2P Require Import Prelude GoStrings Hoare FileMeta Database Names Store RepairQueue Integrity Intents Glob Validate Sync Transfer Volume Paths Indexing Apply Storage Commits Accounting Writes Removal.

(** The bits of [flag] that matter. *)
Record openFlags := mkFlags { fl_create : bool; fl_excl : bool; fl_trunc : bool }.

(** The names writers hold. *)
Definition busyNames (m : gmap string writer) : gset string :=
  list_to_set (flat_map (fun kv : string * writer => [wr_path kv.2; wr_requested kv.2]) (map_to_list m)).
Definition set_busy (b : gset string) (w : World) : World := mkWorld (wd_xfer w) (wd_tree w) (wd_durable w) (wd_faults w) b (wd_notes w).
Definition set_writers (m : gmap string writer) (v : Vol) : Vol :=
  mkVol (set_busy (busyNames m) (vo_world v)) (vo_storageID v) (vo_fence v) (vo_recovered v) (vo_measured v) m.

(** [CreateTemp] under a name nothing has, [Chmod], [io.Copy] into the scratch file. *)
Definition rewritten (bytes : string) (i : inode) : inode := mkInode (in_dev i) (in_ino i) bytes (in_mtime i) (in_mode i) false.
Definition onFile (f : inode -> inode) (name : string) : W unit := modifyS (fun w =>
  match wd_tree w !! name with Some (NFile i) => set_tree (<[name := NFile (f i)]> (wd_tree w)) w | _ => w end).
Definition createTemp (now : Z) (temp : string) : W unit :=
  do! sysW then
  let! w := getS in
  match wd_tree w !! temp with
  | Some _ => failS (WOccupied temp)
  | None => modifyS (fun w => set_tree (<[temp := NFile (mkInode 0 (freshIno w) "" now 384 false)]> (wd_tree w)) w)
  end.
Definition chmod (mode : Z) (temp : string) : W unit :=
  do! sysW then onFile (fun i => mkInode (in_dev i) (in_ino i) (in_bytes i) (in_mtime i) mode (in_flushed i)) temp.

(** A client's write through the open file. *)
Definition writeStaged (now : Z) (f : string -> string) (temp : string) : W unit :=
  do! sysW then onFile (fun i => mkInode (in_dev i) (in_ino i) (f (in_bytes i)) now (in_mode i) false) temp.

Section Writers.
Context `{NameFolding} `{TreeRecovery} (sha256Hex : string -> string) (stored : Z -> Z) (granularity : Z).
Context (ignorePatterns : list string) (repairPeers : list string) (now : Z).
Context (mapOrder : gset string -> list string).
Abbreviation commit := (commitPublishedLocked sha256Hex stored granularity ignorePatterns repairPeers now mapOrder).
Abbreviation prepare := (prepareStorageLocked sha256Hex stored granularity ignorePatterns repairPeers now mapOrder).

(** [func seedFromCurrent(f *os.File, dest string, info os.FileInfo) error] *)
Definition seedFromCurrent (temp dest : string) (info : Info) : W unit :=
  do! sysW then
  let! w := getS in
  match fileAtName (wd_tree w) dest with
  | None => failS WMissing
  | Some i =>
      do! sysW then
      do! onFile (rewritten (in_bytes i)) temp then
      do! sysW then (* Close *)
      do! sysW then (* Seek *)
      chtimes stored temp (fi_mtime info)
  end.

(** [func AbortWriter(dir string, f *os.File) error] *)
Definition AbortWriter (temp : string) : V unit :=
  let! v := getS in
  match vo_writers v !! temp with
  | None => retS tt
  | Some _ =>
      do! modifyS (set_writers (delete temp (vo_writers v))) then
      joinV (inWorld sysW) (inWorld (osRemove temp))
  end.

(** [OpenWriter] once the destination is known: stage, register, seed. [others] is what happens
    once the lock is dropped for the copy. *)
Definition stageWriter (path dest : string) (original : option Info) (mode : Z) (temp : string) (seed : bool) (others : Vol -> Vol) : V string :=
  do! inWorld (createTemp now temp) then
  let! r := tryS (inWorld (chmod mode temp)) in
  match r with
  | Err e => do! tryS (joinV (inWorld sysW) (inWorld (osRemove temp))) then failS e
  | Ok _ =>
      do! modifyS (fun v => set_writers (<[temp := mkWriter dest path original]> (vo_writers v)) v) then
      match original with
      | Some info =>
          if seed then
            do! modifyS others then
            let! r := tryS (inWorld (seedFromCurrent temp dest info)) in
            match r with
            | Ok _ => retS temp
            | Err e => do! tryS (AbortWriter temp) then failS e
            end
          else retS temp
      | None => retS temp
      end
  end.

(** [func OpenWriter(dir, path string, flag int, mode os.FileMode) ( *os.File, func() error, error)] *)
Definition OpenWriter (path : string) (fl : openFlags) (mode : Z) (temp : string) (others : Vol -> Vol) : V string :=
  do! prepare then
  let! v := getS in
  if BusyLocked path (vo_world v) then failS (VErr WBusy)
  else
    let dest := resolve (wd_tree (vo_world v)) path in
    let! n := inWorld (stat dest) in
    match n with
    | None => if negb (fl_create fl) then failS (VErr WMissing) else stageWriter path dest None mode temp false others
    | Some (NFile i) =>
        if fl_excl fl && fl_create fl then failS VExists
        else
          do! inWorld sysW then (* the probe *)
          do! (if fl_trunc fl then retS tt
               else inWorld (checkSourcesLocked sha256Hex stored granularity ignorePatterns repairPeers now mapOrder [dest; path])) then
          stageWriter path dest (Some (infoOf i)) (in_mode i) temp (negb (fl_trunc fl)) others
    | Some _ => failS (VErr (WUnsupported path))
    end.

(** The operation of closing: the destination must be the generation the writer was opened on. *)
Definition publishStaged (temp : string) (wr : writer) : W unit :=
  let! current := tryS (stat (wr_path wr)) in
  let unchanged := match wr_original wr, current with
                   | Some info, Ok (Some (NFile i)) => if same info (infoOf i) then Ok tt else Err WBusy
                   | Some _, _ => Err WBusy
                   | None, Ok None => Ok tt
                   | None, Ok (Some _) => Err WBusy
                   | None, Err e => Err e
                   end in
  do! liftS unchanged then
  do! osRename temp (wr_path wr) then
  SyncParents (wr_path wr).

(** The function [OpenWriter] returns for closing, on its first call. *)
Definition closeWriter (temp : string) : V unit :=
  let! synced := tryS (inWorld (syncPath temp)) in
  let! staged := (match synced with Ok _ => tryS (inWorld (Snapshot sha256Hex temp)) | Err e => retS (Err e) end) in
  let! v := getS in
  match vo_writers v !! temp with
  | None => failS VClosed
  | Some wr =>
      do! modifyS (set_writers (delete temp (vo_writers v))) then
      let! out := tryS (
        do! joinV (liftS synced) (inWorld sysW) then
        commit [] [wr_path wr; wr_requested wr] (match staged with Ok entry => {[wr_path wr := entry]} | Err _ => ∅ end) (publishStaged temp wr)) in
      do! tryS (inWorld (osRemove temp)) then
      liftS out
  end.
End Writers.

(** ** Properties *)

(** What an operation on the volume leaves of the table of writers. *)
Definition writersKept (v v' : Vol) : Prop := vo_writers v' = vo_writers v.
#[export] Instance writersKept_preorder : PreOrder writersKept.
Proof. split; [done|]. intros v1 v2 v3 H1 H2. unfold writersKept in *. congruence. Qed.
Lemma writers_inWorld {A} (c : W A) : keeps writersKept (inWorld c).
Proof. intros v. unfold inWorld, zoomS. by destruct (c (vo_world v)). Qed.
Lemma writers_try {A} (c : V A) : keeps writersKept c -> keeps writersKept (tryS c).
Proof. intros Hc v. specialize (Hc v). unfold tryS. by destruct (c v). Qed.
Lemma writers_join c d : keeps writersKept c -> keeps writersKept d -> keeps writersKept (joinV c d).
Proof.
  intros Hc Hd. unfold joinV. apply keeps_bind; [apply _|by apply writers_try|]. intros r. apply keeps_bind; [apply _|by apply writers_try|]. intros r'.
  destruct r; [apply keeps_lift, _|apply keeps_fail, _].
Qed.
#[export] Hint Resolve writers_inWorld writers_try writers_join : birak.

Section Properties.
Context `{NameFolding} `{TreeRecovery} (sha256Hex : string -> string) (stored : Z -> Z) (granularity : Z).
Context (ignorePatterns : list string) (repairPeers : list string) (now : Z).
Context (mapOrder : gset string -> list string) (mapOrder_elem : forall N n, n ∈ mapOrder N <-> n ∈ N).
Context `{!TreeRecoveryLaws ignorePatterns}.
Abbreviation fine := (healthy sha256Hex ignorePatterns).
Abbreviation commit := (commitPublishedLocked sha256Hex stored granularity ignorePatterns repairPeers now mapOrder).
Abbreviation prepare := (prepareStorageLocked sha256Hex stored granularity ignorePatterns repairPeers now mapOrder).

(** Following a computation step by step. *)
Ltac follow_writers := repeat first
  [ apply writers_inWorld | apply writers_try | apply writers_join | apply keeps_ret, _ | apply keeps_fail, _ | apply keeps_get, _ | apply keeps_lift, _
  | by intros v | apply keeps_bind; [apply _| |intros ?] | progress cbv zeta
  | match goal with |- keeps _ (match ?x with _ => _ end) => destruct x end ].

Lemma writers_prepare : keeps writersKept prepare.
Proof.
  unfold prepareStorageLocked, validateStorageLocked, checkStorageLocked, checkBindingLocked, bindVolumeLocked, checkVolume, writeMarker, createMarker, storageMarker, readMarker.
  follow_writers.
Qed.
Lemma writers_commit sources paths published fn : keeps writersKept (commit sources paths published fn).
Proof. pose proof writers_prepare. unfold commitPublishedLocked. follow_writers; done. Qed.

Lemma confined_mono paths paths' fn : (forall p, p ∈ paths -> p ∈ paths') -> confined ignorePatterns paths fn -> confined ignorePatterns paths' fn.
Proof. intros Hp [H1 H2 H3]. split; [done|done|]. intros w n Ht. destruct (H3 w n Ht) as [(p & ? & ?)|?]; [left; eauto|by right]. Qed.

Lemma staged_renamed temp wr : keeps (renamed temp (wr_path wr)) (publishStaged temp wr).
Proof.
  unfold publishStaged. apply keeps_bind; [apply _| |].
  { apply renamed_steady; [still|]. intros w. unfold tryS, stat, bindS. pose proof (sysW_store w). by destruct (sysW w) as [[[]|e] w1]. }
  intros current. cbv zeta. apply keeps_bind; [apply _|apply keeps_lift, _|]. intros _. apply keeps_bind; [apply _|apply renamed_osRename|]. intros _. apply renamed_SyncParents.
Qed.

(** The destination as a writer expects it. *)
Definition asOpened (wr : writer) (t : gmap string node) : Prop :=
  match wr_original wr with
  | Some info => exists i, t !! resolve t (wr_path wr) = Some (NFile i) /\ infoOf i = info
  | None => t !! resolve t (wr_path wr) = None
  end.

Lemma publishStaged_Ok temp wr w w' i : temp <> wr_path wr -> wd_tree w !! temp = Some (NFile i) -> in_flushed i = true -> publishStaged temp wr w = (Ok tt, w') ->
  asOpened wr (wd_tree w) /\ backed (wr_path wr) (Some (in_bytes i)) w'.
Proof.
  intros Hne E Hf R. unfold publishStaged in R. apply bindS_Ok in R as (current & w1 & R1 & R). cbv zeta in R. apply bindS_Ok in R as ([] & w2 & R2 & R).
  assert (wd_tree w1 = wd_tree w) as T1. { destruct (sysW_frame w) as (F & _). revert R1. unfold tryS, stat, bindS. by destruct (sysW w) as [[[]|e] w0]; intros [= _ <-]. }
  assert (w2 = w1 /\ asOpened wr (wd_tree w)) as [-> Ho].
  { unfold liftS in R2. apply tryS_Ok in R1. assert (forall n, current = Ok n -> n = wd_tree w !! resolve (wd_tree w) (wr_path wr)) as Hc.
    { intros n ->. unfold stat, bindS in R1. destruct (sysW_frame w) as (F & _). destruct (sysW w) as [[[]|e] w0]; [|done]. cbn in F. injection R1 as <- _. by rewrite F. }
    unfold asOpened. destruct (wr_original wr) as [info|], current as [[n|]|e]; try done.
    - destruct n as [j| | |]; try done. destruct (same info (infoOf j)) eqn:Es; [|done]. injection R2 as <-. apply bool_decide_eq_true in Es. split; [done|]. exists j. by rewrite <- (Hc _ eq_refl).
    - injection R2 as <-. split; [done|]. by rewrite <- (Hc _ eq_refl). }
  split; [done|]. apply bindS_Ok in R as ([] & w3 & R3 & R). assert (wd_tree w3 !! wr_path wr = Some (NFile i)) as E3.
  { unfold osRename in R3. apply bindS_Ok in R3 as ([] & w4 & R4 & R3). destruct (sysW_frame w1) as (T4 & _). rewrite R4 in T4. cbn in T4. unfold bindS in R3. cbn [getS] in R3. rewrite T4, T1, E in R3.
    destruct (temp =s wr_path wr) eqn:Ed; [by apply String.eqb_eq in Ed|]. destruct (_ || _); [done|]. injection R3 as <-. cbn. by rewrite moveTree_dest, T4, T1. }
  unfold SyncParents in R. apply flushEntry_Ok in R as [T D]. unfold backed. by rewrite T, D, E3.
Qed.

(** Dropping the scratch name afterwards. *)
Lemma osRemove_durable n w : wd_durable (osRemove n w).2 = wd_durable w.
Proof.
  unfold osRemove, bindS. destruct (sysW_frame w) as (_ & F & _). destruct (sysW w) as [[[]|e] w1]; [|done]. cbn in F. cbn.
  destruct (wd_tree w1 !! n) as [[]|]; try done. by destruct (emptyAt _ _).
Qed.
Lemma drop_scratch temp w : temporary temp ->
  (fine w -> fine (osRemove temp w).2) /\ (forall dest bytes, tracked ignorePatterns dest -> published_ok sha256Hex dest bytes w -> published_ok sha256Hex dest bytes (osRemove temp w).2).
Proof.
  intros Ht. assert (pruned [temp] w (osRemove temp w).2) as [S T P] by (apply (pruned_osRemove [temp]); exists temp; split; [set_solver|apply atOrUnder_refl]).
  pose proof (osRemove_durable temp w) as D. set (w' := (osRemove temp w).2) in *.
  assert (forall n, tracked ignorePatterns n -> wd_tree w' !! n = wd_tree w !! n) as Hn.
  { intros n [_ Hn]. apply P. intros p ->%list_elem_of_singleton. apply not_true_is_false. intros Hu. specialize (Hn temp Hu). by rewrite temporary_ignored in Hn. }
  split.
  - intros [H1 H2 H3]. split; [by rewrite S|by rewrite S|]. intros n Hx. unfold indexedAt, rowsOf, covered, locals. rewrite S, (Hn n Hx). apply (H3 n Hx).
  - intros dest bytes Hd [C R L]. split; [|unfold rowsOf; by rewrite S|unfold locals; by rewrite S]. intros tree Hc. destruct (C (<[dest := default NDir (tree !! dest)]> (wd_tree w))) as (j & Ej & Bj).
    + intros n. destruct (decide (n = dest)) as [-> |Hne].
      * rewrite lookup_insert_eq. specialize (Hc dest). rewrite (Hn dest Hd), D in Hc. destruct (tree !! dest) as [x|] eqn:Ex; [exact Hc|]. exfalso.
        destruct (C (delete dest (wd_tree w))) as (j & Ej & _); [|by rewrite lookup_delete_eq in Ej]. intros m. destruct (decide (m = dest)) as [-> |Hm]; [by rewrite lookup_delete_eq|].
        rewrite lookup_delete_ne by done. left. unfold settles. destruct (wd_tree w !! m) as [[]|]; eauto.
      * rewrite lookup_insert_ne by done. left. unfold settles. destruct (wd_tree w !! n) as [[]|]; eauto.
    + rewrite lookup_insert_eq in Ej. destruct (tree !! dest) as [x|] eqn:Ex; [cbn in Ej; injection Ej as ->; eauto|]. cbn in Ej. discriminate Ej.
Qed.
(** Which names writers hold is no part of what an invariant speaks of. *)
Lemma fine_set_writers m v : fine (vo_world v) -> fine (vo_world (set_writers m v)).
Proof. intros [H1 H2 H3]. by split. Qed.

(** The seal of [closeWriter]: flushed, and hashed if that succeeds. *)
Definition sealStaged (temp : string) : V (result verr unit * result verr (Info * string)) :=
  let! synced := tryS (inWorld (syncPath temp)) in
  let! staged := (match synced with Ok _ => tryS (inWorld (Snapshot sha256Hex temp)) | Err e => retS (Err e) end) in
  retS (synced, staged).

Lemma sealStaged_spec temp v i : temporary temp -> distinct (vo_world v) -> wd_tree (vo_world v) !! temp = Some (NFile i) -> fine (vo_world v) ->
  exists synced staged v1, sealStaged temp v = (Ok (synced, staged), v1) /\ fine (vo_world v1) /\ vo_writers v1 = vo_writers v /\ disk (vo_world v) (vo_world v1) /\
    (synced = Ok tt -> exists i1, wd_tree (vo_world v1) !! temp = Some (NFile i1) /\ in_bytes i1 = in_bytes i /\ in_flushed i1 = true) /\
    (forall entry, staged = Ok entry -> identified sha256Hex entry.1 entry.2 (vo_world v1)).
Proof.
  intros Ht Hd E Hh. pose proof (steady_syncPath temp (vo_world v)) as K1. pose proof (quiet_syncPath temp (vo_world v)) as Q1. unfold sealStaged, bindS, tryS, inWorld, zoomS.
  destruct (syncPath temp (vo_world v)) as [[[]|e] w1] eqn:R1; cbn in K1, Q1; pose proof (quiet_grows sha256Hex _ _ Q1) as G1.
  2:{ exists (Err (VErr e)), (Err (VErr e)), (set_world w1 v). split; [done|]. split; [by eapply grows_healthy|]. split; [done|]. split; [by eapply grows_disk|]. done. }
  pose proof (syncPath_Ok temp (vo_world v) i w1 E R1) as E1. pose proof (quiet_Snapshot sha256Hex temp w1) as Q2. pose proof (Snapshot_tree sha256Hex temp w1) as T2. cbn [vo_world set_world].
  destruct (Snapshot sha256Hex temp w1) as [r2 w2] eqn:R2. cbn in Q2, T2. pose proof (quiet_grows sha256Hex _ _ (transitivity Q1 Q2)) as G2.
  exists (Ok tt), (match r2 with Ok a => Ok a | Err e => Err (VErr e) end), (set_world w2 v).
  split; [by destruct r2|]. split; [by eapply grows_healthy|]. split; [done|]. split; [by eapply grows_disk|]. cbn [vo_world set_world].
  split; [intros _; exists (flushed i); by rewrite T2|]. intros [info hash] Er. destruct r2 as [[x y]|]; [|done]. injection Er as -> ->.
  apply Snapshot_Ok in R2 as (j & Ej & -> & ->); [|intros t; by rewrite E1]. rewrite E1 in Ej. injection Ej as <-. by eapply flushed_identified.
Qed.
Lemma close_sealed temp v : closeWriter sha256Hex stored granularity ignorePatterns repairPeers now mapOrder temp v =
  bindS (sealStaged temp) (fun x =>
    let! v := getS in
    match vo_writers v !! temp with
    | None => failS VClosed
    | Some wr =>
        do! modifyS (set_writers (delete temp (vo_writers v))) then
        let! out := tryS (
          do! joinV (liftS x.1) (inWorld sysW) then
          commit [] [wr_path wr; wr_requested wr] (match x.2 with Ok entry => {[wr_path wr := entry]} | Err _ => ∅ end) (publishStaged temp wr)) in
        do! tryS (inWorld (osRemove temp)) then
        liftS out
    end) v.
Proof.
  unfold closeWriter, sealStaged, bindS. destruct (tryS (inWorld (syncPath temp)) v) as [[synced|e] v1]; [|done]. destruct synced as [[]|e]; [|done].
  by destruct (tryS (inWorld (Snapshot sha256Hex temp)) v1) as [[staged|e] v2].
Qed.

(** A close up to the instant of its rename: the staged file flushed and hashed, the writer
    withdrawn, its file closed, the commit opened and the destination looked at. *)
Definition upToRename (temp : string) : V writer :=
  let! x := sealStaged temp in
  let! v := getS in
  match vo_writers v !! temp with
  | None => failS VClosed
  | Some wr =>
      do! modifyS (set_writers (delete temp (vo_writers v))) then
      do! joinV (liftS x.1) (inWorld sysW) then
      do! opening sha256Hex stored granularity ignorePatterns repairPeers now mapOrder [] [wr_path wr; wr_requested wr] then
      do! tryS (inWorld (stat (wr_path wr))) then
      retS wr
  end.

(** The commit of a close. *)
Lemma close_commit temp wr synced (staged : result verr (Info * string)) v r v' i : fine (vo_world v) -> temporary temp -> tracked ignorePatterns (wr_path wr) ->
  (synced = Ok tt -> exists i1, wd_tree (vo_world v) !! temp = Some (NFile i1) /\ in_bytes i1 = in_bytes i /\ in_flushed i1 = true) ->
  (forall entry, staged = Ok entry -> identified sha256Hex entry.1 entry.2 (vo_world v)) ->
  (do! joinV (liftS synced) (inWorld sysW) then
   commit [] [wr_path wr; wr_requested wr] (match staged with Ok entry => {[wr_path wr := entry]} | Err _ => ∅ end) (publishStaged temp wr)) v = (r, v') ->
  fine (vo_world v') /\ vo_writers v' = vo_writers v /\
  (r = Ok tt -> published_ok sha256Hex (wr_path wr) (in_bytes i) (vo_world v') /\ exists ready,
     (do! joinV (liftS synced) (inWorld sysW) then
      opening sha256Hex stored granularity ignorePatterns repairPeers now mapOrder [] [wr_path wr; wr_requested wr]) v = (Ok tt, ready) /\
     disk (vo_world v) (vo_world ready) /\ asOpened wr (wd_tree (vo_world ready))).
Proof.
  intros Hh Ht Hd Hs Hp R. assert (keeps (fun v v' : Vol => quiet (vo_world v) (vo_world v') /\ vo_writers v' = vo_writers v) (joinV (liftS synced) (inWorld sysW))) as K.
  { intros v0. unfold joinV, bindS, tryS, liftS, inWorld, zoomS. pose proof (quiet_sysW (vo_world v0)) as Q. destruct synced as [[]|e], (sysW (vo_world v0)) as [[[]|e'] w]; by split. }
  specialize (K v). unfold bindS in R |- *. destruct (joinV (liftS synced) (inWorld sysW) v) as [[[]|e] v1] eqn:R1; cbn in K; destruct K as [K Ew]; pose proof (quiet_grows sha256Hex _ _ K) as G.
  2:{ injection R as <- <-. split; [by eapply grows_healthy|done]. }
  apply joinV_Ok in R1 as (v2 & R2 & R1). assert (synced = Ok tt) as Es by (unfold liftS in R2; by destruct synced as [[]|]). destruct (Hs Es) as (i1 & E1 & B1 & F1).
  pose proof (grows_healthy _ _ _ _ G Hh) as H1. pose proof (grows_disk _ _ _ G) as D1.
  pose proof (writers_commit [] [wr_path wr; wr_requested wr] (match staged with Ok entry => {[wr_path wr := entry]} | Err _ => ∅ end) (publishStaged temp wr) v1) as Ew'. rewrite R in Ew'. cbn in Ew'.
  apply (commit_spec sha256Hex stored granularity ignorePatterns repairPeers now mapOrder mapOrder_elem) in R as [H2 H3]; [|done| |].
  2:{ apply (confined_mono [wr_path wr]); [set_solver|]. eapply scratch_confined; [exact Ht|apply staged_renamed]. }
  2:{ intros full info hash Hl. destruct staged as [entry|]; [|by rewrite lookup_empty in Hl]. apply lookup_singleton_Some in Hl as [<- ->]. split; [by eapply tracked_elsewhere|].
      eapply identified_moves; [apply D1|]. by apply (Hp (info, hash)). }
  split; [done|]. split; [by rewrite Ew'|]. intros HOk. destruct (H3 HOk) as (ready & after & Eo & Hc). set (before := vo_world ready) in *. destruct Hc as [D K' T B I L] eqn:Ec. clear Ec.
  pose proof (dk_temp _ _ (transitivity D1 D) temp Ht) as Hsc. unfold heldAt in Hsc. rewrite E1 in Hsc. destruct Hsc as (i' & E' & Hb & _ & Hfl).
  assert (temp <> wr_path wr) as Hne by (intros ->; by eapply tracked_not_temporary).
  destruct (publishStaged_Ok temp wr before after i' Hne E' (Hfl F1) K') as [Ho Ba]. rewrite Hb, B1 in Ba. split; [|exists ready; split; [done|]; split; [by trans (vo_world v1)|done]].
  eapply carried_published; [by split|set_solver|done|done].
Qed.

(** Looking at a name leaves the volume as it was. *)
Lemma stat_looks p v : exists r v', tryS (inWorld (stat p)) v = (Ok r, v') /\ wd_tree (vo_world v') = wd_tree (vo_world v) /\ disk (vo_world v) (vo_world v').
Proof.
  unfold tryS, inWorld, zoomS, stat, bindS. destruct (sysW_frame (vo_world v)) as (F & _). pose proof (quiet_grows sha256Hex _ _ (quiet_sysW (vo_world v))) as G. apply grows_disk in G.
  destruct (sysW (vo_world v)) as [[[]|e] w]; cbn in *; eauto 6.
Qed.

(** C7. Closing publishes what was written, over the generation that was opened. Whatever fails,
    closing withdraws the writer and keeps every change accounted for. When it reports success,
    the staged bytes survive any power loss, the index has their hash and size, and the run of
    this close up to the instant of its rename had ended with the destination being the
    generation the writer was opened on (or absent, for a new file): no concurrent replacement
    is overwritten. *)
Theorem writer_no_lost_update (temp : string) (wr : writer) (v v' : Vol) (r : result verr unit) (i : inode) :
  fine (vo_world v) -> distinct (vo_world v) -> temporary temp -> vo_writers v !! temp = Some wr -> tracked ignorePatterns (wr_path wr) ->
  wd_tree (vo_world v) !! temp = Some (NFile i) ->
  closeWriter sha256Hex stored granularity ignorePatterns repairPeers now mapOrder temp v = (r, v') ->
  fine (vo_world v') /\ vo_writers v' = delete temp (vo_writers v) /\
  (r = Ok tt -> published_ok sha256Hex (wr_path wr) (in_bytes i) (vo_world v') /\
     exists ready, upToRename temp v = (Ok wr, ready) /\ disk (vo_world v) (vo_world ready) /\ asOpened wr (wd_tree (vo_world ready))).
Proof.
  intros Hh Hdi Ht Hw Hd E R. rewrite close_sealed in R. unfold upToRename. destruct (sealStaged_spec temp v i Ht Hdi E Hh) as (synced & staged & v1 & R1 & H1 & W1 & D1 & S1 & P1).
  unfold bindS at 1 in R. rewrite R1 in R. unfold bindS at 1 in R. cbn [getS fst snd] in R. rewrite W1, Hw in R. unfold bindS at 1 in R. cbn [modifyS] in R.
  set (v2 := set_writers (delete temp (vo_writers v)) v1) in R. unfold bindS at 1 in R. unfold tryS at 1 in R.
  match type of R with context [let (_, _) := ?c v2 in _] => destruct (c v2) as [r3 v3] eqn:R3 end.
  apply (close_commit _ _ _ _ _ _ _ i) in R3 as (H3 & W3 & P3); [|by apply fine_set_writers|done|done|done|done].
  unfold bindS, tryS, liftS, inWorld, zoomS in R. destruct (drop_scratch temp (vo_world v3) Ht) as [F4 P4]. destruct (osRemove temp (vo_world v3)) as [r4 w4]. cbn in F4, P4.
  injection R as <- <-. split; [by apply F4|]. split; [exact W3|]. intros ->. destruct (P3 eq_refl) as (P & ready & Eo & Db & Ho). split; [by apply P4|].
  destruct (stat_looks (wr_path wr) ready) as (r5 & ready' & Es & Et & Ed).
  exists ready'. split; [|split; [etrans; [exact D1|]; etrans; [|exact Ed]; destruct Db; by split|by rewrite Et]].
  unfold bindS at 1. rewrite R1. unfold bindS at 1. cbn [getS fst snd]. rewrite W1, Hw. unfold bindS at 1. cbn [modifyS]. fold v2.
  unfold bindS in Eo |- *. destruct (joinV (liftS synced) (inWorld sysW) v2) as [[[]|?] v4]; [|done]. rewrite Eo. by rewrite Es.
Qed.
End Properties.

(** ** Examples *)

(** A new file, staged and about to be closed. *)
Definition stagedVol : Vol := mkVol (vo_world (uploadVol [])) None None false None {[ ".birak-tmp-1" := mkWriter "a" "a" None ]}.
Definition closed : result verr unit * Vol := closeWriter (H := asciiFolding) idHash (fun t => t) 1 [] ["p"] 9 elements ".birak-tmp-1" stagedVol.
Lemma writer_no_lost_update_witness : closed.1 = Ok tt /\ published_ok idHash "a" "new" (vo_world closed.2) /\ vo_writers closed.2 !! ".birak-tmp-1" = None /\
  exists ready, (upToRename (H := asciiFolding) idHash (fun t => t) 1 [] ["p"] 9 elements ".birak-tmp-1" stagedVol).2 = ready /\ wd_tree (vo_world ready) !! resolve (wd_tree (vo_world ready)) "a" = None.
Proof.
  assert (closed.1 = Ok tt) as E by (vm_compute; reflexivity). split; [exact E|].
  assert (wd_tree (vo_world stagedVol) !! ".birak-tmp-1" = Some (NFile upload)) as Es by (vm_compute; reflexivity).
  pose proof (writer_no_lost_update (H := asciiFolding) idHash (fun t => t) 1 [] ["p"] 9 elements elements_order ".birak-tmp-1" (mkWriter "a" "a" None) stagedVol closed.2 closed.1 upload
    (uploadVol_healthy []) (uploadVol_distinct []) scratch_temporary (lookup_singleton_eq _ _) a_tracked Es (surjective_pairing _)) as (_ & Hw & Hx).
  split; [exact (proj1 (Hx E))|]. split; [rewrite Hw; apply lookup_delete_eq|]. destruct (proj2 (Hx E)) as (ready & Er & _ & Ho). exists ready. rewrite Er. split; [reflexivity|exact Ho].
Defined.

(** Appending through a writer: what was there, then what was written, replaces the file. [touch]
    happens before the file is opened, [meanwhile] while it is open. *)
Definition rewriteVol (f : inode -> inode) (v : Vol) : Vol := (inWorld (onFile f "a") v).2.
Definition touched (t : Z) (i : inode) : inode := mkInode (in_dev i) (in_ino i) (in_bytes i) t (in_mode i) (in_flushed i).
Definition appended (touch meanwhile : Vol -> Vol) : result verr unit * Vol :=
  (do! OpenWriter (H := asciiFolding) idHash (fun t => t) 1 [] ["p"] 9 elements "a" (mkFlags true false false) 420 ".birak-tmp-2" (fun v => v) then
   do! inWorld (writeStaged 90 (fun old => old +:+ "+more") ".birak-tmp-2") then
   do! modifyS meanwhile then
   closeWriter (H := asciiFolding) idHash (fun t => t) 1 [] ["p"] 9 elements ".birak-tmp-2") (touch closed.2).
Definition contentOfA (v : Vol) : option string := in_bytes <$> fileAtName (wd_tree (vo_world v)) "a".

Example append_publishes : (appended id id).1 = Ok tt /\ contentOfA (appended id id).2 = Some "new+more".
Proof. split; vm_compute; reflexivity. Qed.
Example replaced_meanwhile_refused :
  (appended id (rewriteVol (rewritten "other"))).1 = Err (VErr WBusy) /\ contentOfA (appended id (rewriteVol (rewritten "other"))).2 = Some "other".
Proof. split; vm_compute; reflexivity. Qed.

(** A file whose time was changed by hand, and nothing else, refuses an append nobody raced with:
    the generation is taken before the check of the source, which puts the indexed time back. *)
Lemma touched_append_refused : (appended (rewriteVol (touched 60)) id).1 = Err (VErr WBusy) /\ contentOfA (appended (rewriteVol (touched 60)) id).2 = Some "new".
Proof. split; vm_compute; reflexivity. Qed.
