(* ===== verification/Readers.v ===== *)
(** * Readers and the quarantine fence

    internal/fileops/reader.go and the read-side check of internal/watcher/commits.go. Opening a
    reader takes no commit lock: it registers the reader, then checks the fence, while a
    quarantine fences the generation, then revokes the registered readers. The goroutines meet
    only at the store's integrity lock, the registry's lock, the reader's lock and the lock that
    serialises rebuilds of the index of quarantined files, so each step below is what one
    goroutine does inside one of those. *)

From S2P Require Import Prelude GoStrings Hoare FileMeta Database Names Store RepairQueue Integrity Intents Glob Validate Sync Transfer Volume Paths Indexing.

(** ** Data *)

Inductive rerr := RUnreadable | RClosed | REOF.

(** [type quarantineSnapshot struct] *)
Record quarantineSnapshot := mkSnap { qs_gen : Z; qs_built : Z; qs_paths : gset string; qs_files : list Info }.
Definition quarantineIndexTTL : Z := 1000000000.

(** [func (q *quarantineSnapshot) current(gen uint64) bool] *)
Definition current (q : option quarantineSnapshot) (gen now : Z) : bool :=
  match q with None => false | Some q => (gen <=? qs_gen q) && (now - qs_built q <? quarantineIndexTTL) end.

(** Where a goroutine that opens a reader is. *)
Inductive pc :=
| PcOpen                                        (* has the file and its stat *)
| PcKey                                         (* registered; next is IsDamagedObject *)
| PcFence                                       (* next is QuarantineGeneration *)
| PcLoad (gen : Z)                              (* next is the index's snapshot *)
| PcRebuild (gen : Z)                           (* waits for the rebuild lock *)
| PcStat (q : quarantineSnapshot) (names : list string) (* rebuilds, has these names left to stat *)
| PcDecide (q : quarantineSnapshot)
| PcHanded                                      (* OpenReader returned the reader *)
| PcRefused.                                    (* OpenReader closes it and returns an error *)

(** [type Reader struct] *)
Record Reader := mkReader { rd_path : string; rd_info : Info; rd_pc : pc; rd_registered : bool; rd_closing : bool; rd_err : option rerr }.

(** Where the holder of the commit lock is; [fenced] is false when the generation has no key. *)
Inductive qpc := QIdle | QCollect (info : Info) (fenced : bool) | QRevoke (info : Info) (fenced : bool) (targets : list nat).

Record Reading := mkReading {
  st_tree : gmap string node;
  st_store : Store;
  st_now : Z;
  st_readers : gmap nat Reader;
  st_index : option quarantineSnapshot;
  st_rebuilder : option nat;
  st_qpc : qpc;
  st_done : gset string          (* the generations whose quarantine was carried through *)
}.
Definition with_readers (m : gmap nat Reader) (st : Reading) : Reading :=
  mkReading (st_tree st) (st_store st) (st_now st) m (st_index st) (st_rebuilder st) (st_qpc st) (st_done st).
Definition with_index (q : option quarantineSnapshot) (who : option nat) (st : Reading) : Reading :=
  mkReading (st_tree st) (st_store st) (st_now st) (st_readers st) q who (st_qpc st) (st_done st).
Definition with_quarantine (s : Store) (q : qpc) (done : gset string) (st : Reading) : Reading :=
  mkReading (st_tree st) s (st_now st) (st_readers st) (st_index st) (st_rebuilder st) q done.
Definition with_world (t : gmap string node) (now : Z) (st : Reading) : Reading :=
  mkReading t (st_store st) now (st_readers st) (st_index st) (st_rebuilder st) (st_qpc st) (st_done st).

Definition set_pc (p : pc) (r : Reader) : Reader := mkReader (rd_path r) (rd_info r) p (rd_registered r) (rd_closing r) (rd_err r).
Definition set_registered (r : Reader) : Reader := mkReader (rd_path r) (rd_info r) PcKey true (rd_closing r) (rd_err r).
Definition set_closing (r : Reader) : Reader := mkReader (rd_path r) (rd_info r) (rd_pc r) false true (rd_err r).
Definition set_err (e : rerr) (r : Reader) : Reader := mkReader (rd_path r) (rd_info r) (rd_pc r) (rd_registered r) (rd_closing r) (Some e).

(** [os.SameFile]; the width of what [Stat] reports. *)
Definition sameObject (a b : Info) : bool := (fi_dev a =? fi_dev b) && (fi_ino a =? fi_ino b).
Definition machineInfo (i : Info) : bool :=
  (0 <=? fi_dev i) && (fi_dev i <? 2 ^ 64) && (0 <=? fi_ino i) && (fi_ino i <? 2 ^ 64) && (0 <=? fi_size i) && (fi_size i <=? MaxInt64) &&
  (MinInt64 <=? fi_mtime i) && (fi_mtime i <=? MaxInt64).

(** ** The steps of an open *)

(** [func OpenReader(dir, path string) ( *Reader, error)] up to the stat, once the storage fence
    let the read pass. *)
Definition openFile (path : string) (t : gmap string node) : option Reader :=
  match fileAtName t path with
  | Some i => if machineInfo (infoOf i) then Some (mkReader path (infoOf i) PcOpen false false None) else None
  | None => None
  end.

(** [func (w *Watcher) checkRead(path string, info os.FileInfo) error]; [failed] says that the
    path could not be resolved. *)
Definition checkRead (failed : bool) (r : Reader) (s : Store) : pc :=
  if failed then PcRefused
  else if IsDamagedObject (GenerationKey (rd_info r)) s then PcRefused
  else PcFence.

(** [func (q *quarantineIndex) fences(w *Watcher, path string, info os.FileInfo) bool]: the
    generation, the shared snapshot, and the comparison. *)
Definition fences_generation (s : Store) : pc :=
  let '(gen, count) := QuarantineGeneration s in if count =? 0 then PcHanded else PcLoad gen.
Definition fences_load (gen : Z) (q : option quarantineSnapshot) (now : Z) : pc :=
  match q with
  | Some q => if current (Some q) gen now then PcDecide q else PcRebuild gen
  | None => PcRebuild gen
  end.
Definition fences_decide (q : quarantineSnapshot) (r : Reader) : pc :=
  if bool_decide (rd_path r ∈ qs_paths q) then PcRefused
  else if existsb (fun damaged => sameObject damaged (rd_info r)) (qs_files q) then PcRefused
  else PcHanded.

(** [func (q *quarantineIndex) rebuild(w *Watcher, gen uint64) *quarantineSnapshot]: under the
    rebuild lock; one name. *)
Definition rebuild_begin (gen : Z) (q : option quarantineSnapshot) (s : Store) (now : Z) : pc :=
  match q with
  | Some q' => if current q gen now then PcDecide q' else let '(gen, names) := QuarantineSnapshot s in PcStat (mkSnap gen now ∅ []) names
  | None => let '(gen, names) := QuarantineSnapshot s in PcStat (mkSnap gen now ∅ []) names
  end.
Definition rebuild_name (failed : bool) (name : string) (q : quarantineSnapshot) (t : gmap string node) : quarantineSnapshot :=
  mkSnap (qs_gen q) (qs_built q) ({[name]} ∪ qs_paths q)
    (match fileAtName t name with Some i => if failed then qs_files q else infoOf i :: qs_files q | None => qs_files q end).

(** ** The steps of a quarantine *)

(** [func (w *Watcher) quarantineFor(meta *store.FileMeta, reason string, cause error) error] up
    to the fence; [keyFailed] says that the generation has no key. *)
Definition quarantine_fence (keyFailed : bool) (name : string) (i : inode) (s : Store) : Store * qpc :=
  if keyFailed then (s, QCollect (infoOf i) false)
  else ((SetQuarantined name (GenerationKey (infoOf i)) s).2, QCollect (infoOf i) true).

(** [func RevokeGenerationLocked(dir string, info os.FileInfo)]: the targets, under the
    registry's lock; then each of them, under its own. *)
Definition revoke_targets (info : Info) (m : gmap nat Reader) : list nat :=
  (List.filter (fun kv : nat * Reader => rd_registered kv.2 && sameObject info (rd_info kv.2)) (map_to_list m)).*1.
Definition revoke (r : Reader) : Reader := match rd_err r with None => set_err RUnreadable r | Some _ => r end.

(** ** Reading *)

Definition readChunk : Z := 65536.

(** [func (r *Reader) Read(p []byte) (int, error)]; [rest] is the file from its position on. *)
Definition Read (r : Reader) (len : Z) (rest : string) : result rerr string :=
  match rd_err r with
  | Some e => Err e
  | None => if rest =s "" then (if 0 <? len then Err REOF else Ok "") else Ok (stake (Z.to_nat (Z.min len readChunk)) rest)
  end.

(** [func (r *Reader) Seek(off int64, whence int) (int64, error)] to an absolute position. *)
Definition Seek (r : Reader) (off : Z) : result rerr Z := match rd_err r with Some e => Err e | None => Ok off end.

(** [func (r *Reader) ReadAt(p []byte, off int64) (int, error)]: chunk by chunk, with the
    reader's lock released in between; [errs] is what each chunk finds in [r.err]. *)
Fixpoint readAt_loop (errs : list (option rerr)) (contents : string) (off len : Z) (got : string) (fuel : nat) : string * option rerr :=
  if len <=? slen got then (got, None)
  else match fuel with
       | O => (got, None)
       | S fuel =>
           match hd None errs with
           | Some e => (got, Some e)
           | None =>
               let want := Z.min (len - slen got) readChunk in
               let chunk := stake (Z.to_nat want) (sdrop (Z.to_nat (off + slen got)) contents) in
               if slen chunk <? want then (got +:+ chunk, Some REOF)
               else readAt_loop (tail errs) contents off len (got +:+ chunk) fuel
           end
       end.
Definition ReadAt (errs : list (option rerr)) (contents : string) (off len : Z) : string * option rerr :=
  readAt_loop errs contents off len "" (S (Z.to_nat (len / readChunk))).

(** ** All goroutines *)

Inductive action :=
| AOpen (id : nat) (path : string) | ARegister (id : nat) | ACheck (id : nat) (failed : bool)
| AGeneration (id : nat) | ALoad (id : nat) | ARebuild (id : nat) | AStat (id : nat) (failed : bool) | AStore (id : nat) | ADecide (id : nat)
| ADeregister (id : nat) | AClosed (id : nat)
| AQuarantine (name : string) (keyFailed : bool) (faults : list bool) | ACollect | ARevoke | AClear (name key : string) (faults : list bool)
| AWorld (t : gmap string node) (now : Z).

Definition onReader (id : nat) (f : Reader -> option Reader) (st : Reading) : option Reading :=
  r ← st_readers st !! id; r' ← f r; Some (with_readers (<[id := r']> (st_readers st)) st).
Definition movePc (f : pc -> option pc) (r : Reader) : option Reader := (fun p => set_pc p r) <$> f (rd_pc r).

(** One step; [None] when it cannot be taken. The generation counter has 64 bits: it is taken
    not to have wrapped. *)
Definition act (a : action) (st : Reading) : option Reading :=
  match a with
  | AOpen id path =>
      match st_readers st !! id with
      | Some _ => None
      | None => r ← openFile path (st_tree st); Some (with_readers (<[id := r]> (st_readers st)) st)
      end
  | ARegister id => onReader id (fun r => match rd_pc r with PcOpen => Some (set_registered r) | _ => None end) st
  | ACheck id failed => onReader id (fun r => match rd_pc r with PcKey => Some (set_pc (checkRead failed r (st_store st)) r) | _ => None end) st
  | AGeneration id => onReader id (movePc (fun p => match p with PcFence => Some (fences_generation (st_store st)) | _ => None end)) st
  | ALoad id => onReader id (movePc (fun p => match p with PcLoad gen => Some (fences_load gen (st_index st) (st_now st)) | _ => None end)) st
  | ARebuild id =>
      match st_rebuilder st with
      | Some _ => None
      | None =>
          r ← st_readers st !! id;
          match rd_pc r with
          | PcRebuild gen =>
              let p := rebuild_begin gen (st_index st) (st_store st) (st_now st) in
              Some (with_index (st_index st) (match p with PcStat _ _ => Some id | _ => None end)
                      (with_readers (<[id := set_pc p r]> (st_readers st)) st))
          | _ => None
          end
      end
  | AStat id failed =>
      onReader id (movePc (fun p => match p with PcStat q (name :: names) => Some (PcStat (rebuild_name failed name q (st_tree st)) names) | _ => None end)) st
  | AStore id =>
      r ← st_readers st !! id;
      match rd_pc r with
      | PcStat q [] => Some (with_index (Some q) None (with_readers (<[id := set_pc (PcDecide q) r]> (st_readers st)) st))
      | _ => None
      end
  | ADecide id => onReader id (fun r => match rd_pc r with PcDecide q => Some (set_pc (fences_decide q r) r) | _ => None end) st
  | ADeregister id => onReader id (fun r => match rd_pc r with PcHanded | PcRefused => Some (set_closing r) | _ => None end) st
  | AClosed id => onReader id (fun r => if rd_closing r then Some (set_err RClosed r) else None) st
  | AQuarantine name keyFailed faults =>
      match st_qpc st, fileAtName (st_tree st) name with
      | QIdle, Some i =>
          if machineInfo (infoOf i) && (integrityGen (st_store st) + 1 <? 2 ^ 64)
          then let '(s, q) := quarantine_fence keyFailed name i (set_faults faults (st_store st)) in Some (with_quarantine s q (st_done st) st)
          else None
      | _, _ => None
      end
  | ACollect =>
      match st_qpc st with
      | QCollect info fenced => Some (with_quarantine (st_store st) (QRevoke info fenced (revoke_targets info (st_readers st))) (st_done st) st)
      | _ => None
      end
  | ARevoke =>
      match st_qpc st with
      | QRevoke info fenced [] => Some (with_quarantine (st_store st) QIdle (if fenced then {[GenerationKey info]} ∪ st_done st else st_done st) st)
      | QRevoke info fenced (id :: targets) =>
          Some (with_quarantine (st_store st) (QRevoke info fenced targets) (st_done st) (with_readers (alter revoke id (st_readers st)) st))
      | _ => None
      end
  | AClear name key faults =>
      match st_qpc st with
      | QIdle =>
          if integrityGen (st_store st) + 1 <? 2 ^ 64 then
            let '(r, s) := ClearQuarantine name key (set_faults faults (st_store st)) in
            Some (with_quarantine s QIdle (if is_ok r then st_done st ∖ {[key]} else st_done st) st)
          else None
      | _ => None
      end
  | AWorld t now => Some (with_world t now st)
  end.

Inductive reachable (st0 : Reading) : Reading -> Prop :=
| reach_refl : reachable st0 st0
| reach_step st a st' : reachable st0 st -> act a st = Some st' -> reachable st0 st'.

Definition initialReading (st : Reading) : Prop :=
  st_readers st = ∅ /\ st_index st = None /\ st_rebuilder st = None /\ st_qpc st = QIdle /\ st_done st = ∅ /\ integrityGen (st_store st) = 0.

(** ** Keys identify generations *)

Lemma FormatHex_u64 n : 0 <= n < 2 ^ 64 -> hex_acc 0 (FormatHex n) = n /\ all_bytes lower_hex (FormatHex n) = true.
Proof.
  intros Hn. unfold FormatHex. rewrite (proj2 (Z.ltb_ge n 0)) by lia.
  destruct (hex_go_spec 16 n "") as (H1 & H2 & _); [change (16 ^ Z.of_nat 16) with (2 ^ 64); lia|lia|done|]. done.
Qed.

Lemma GenerationKey_inj a b : machineInfo a = true -> machineInfo b = true -> GenerationKey a = GenerationKey b ->
  sameObject a b = true /\ fi_size a = fi_size b /\ fi_mtime a = fi_mtime b.
Proof.
  unfold machineInfo, sameObject. intros Ha Hb E. repeat (apply andb_true_iff in Ha as [Ha ?]; apply andb_true_iff in Hb as [Hb ?]).
  rewrite ?Z.leb_le, ?Z.ltb_lt in *.
  assert (forall n m s t, 0 <= n < 2 ^ 64 -> 0 <= m < 2 ^ 64 -> FormatHex n +:+ String ":" s = FormatHex m +:+ String ":" t -> n = m /\ s = t) as Hc.
  { intros n m s t Hn Hm En. destruct (FormatHex_u64 n Hn) as [V1 A1]. destruct (FormatHex_u64 m Hm) as [V2 A2].
    pose proof (Cut_app (FormatHex n) ":" s (all_bytes_plain _ _ ":" A1 eq_refl)) as C1. pose proof (Cut_app (FormatHex m) ":" t (all_bytes_plain _ _ ":" A2 eq_refl)) as C2.
    rewrite En, C2 in C1. injection C1 as E1 E2. split; [by rewrite <- V1, <- V2, E1|done]. }
  unfold GenerationKey in E. apply Hc in E as [E1 E]; [|lia..]. apply Hc in E as [E2 E]; [|lia..]. apply Hc in E as [E3 E]; [|unfold MaxInt64 in *; lia..].
  apply FormatHex_inj in E; [|unfold in_int64; lia..]. rewrite E1, E2, !Z.eqb_refl. done.
Qed.

(** ** No reader of a quarantined generation is left *)

(** Past the check of its generation. *)
Definition exposed (p : pc) : bool := match p with PcOpen | PcKey | PcRefused => false | _ => true end.
(** A reader that delivers bytes of a generation, or still can come to. *)
Definition loose (key : string) (r : Reader) : Prop := GenerationKey (rd_info r) = key /\ exposed (rd_pc r) = true /\ rd_closing r = false /\ rd_err r = None.

Record reader_ok (r : Reader) : Prop := mkReaderOk {
  ro_machine : machineInfo (rd_info r) = true;
  ro_registered : rd_pc r <> PcOpen -> rd_closing r = false -> rd_registered r = true
}.

Definition revoking (st : Reading) : Prop :=
  match st_qpc st with
  | QIdle => True
  | QCollect info fenced => machineInfo info = true /\ (fenced = true -> GenerationKey info ∈ damagedObjects (st_store st))
  | QRevoke info fenced targets => fenced = true -> GenerationKey info ∈ damagedObjects (st_store st) /\
      forall id r, st_readers st !! id = Some r -> loose (GenerationKey info) r -> id ∈ targets
  end.

Record fence_held (st : Reading) : Prop := mkFenceHeld {
  fh_readers : forall id r, st_readers st !! id = Some r -> reader_ok r;
  fh_damaged : st_done st ⊆ damagedObjects (st_store st);
  fh_done : forall key id r, key ∈ st_done st -> st_readers st !! id = Some r -> loose key r -> False;
  fh_revoking : revoking st
}.

Lemma fh_machine st id r : fence_held st -> st_readers st !! id = Some r -> machineInfo (rd_info r) = true.
Proof. intros Hh E. apply (fh_readers _ Hh _ _ E). Qed.

(** A step of one reader: it does not come loose from a generation that is fenced. *)
Lemma reader_step st id r' : fence_held st -> reader_ok r' ->
  (forall key, key ∈ damagedObjects (st_store st) -> loose key r' -> exists r, st_readers st !! id = Some r /\ loose key r) ->
  fence_held (with_readers (<[id := r']> (st_readers st)) st).
Proof.
  intros [H1 H2 H3 H4] Hr Hl. split; cbn.
  - intros id' r [[<- <-]|[_ E]]%lookup_insert_Some; eauto.
  - done.
  - intros key id' r Hk [[<- <-]|[_ E]]%lookup_insert_Some L; [|by eapply H3]. destruct (Hl key (H2 _ Hk) L) as (r0 & E & L0). by eapply H3.
  - unfold revoking in *. cbn. destruct (st_qpc st) as [|info fenced|info fenced targets]; [done..|]. intros Hf. destruct (H4 Hf) as [Hd Ht]. split; [done|].
    intros id' r [[<- <-]|[_ E]]%lookup_insert_Some L; [|by eapply Ht]. destruct (Hl _ Hd L) as (r0 & E & L0). by eapply Ht.
Qed.

Lemma held_index q who st : fence_held st -> fence_held (with_index q who st).
Proof. intros [H1 H2 H3 H4]. by split. Qed.

Lemma onReader_held id f st st' : fence_held st -> onReader id f st = Some st' ->
  (forall r r', st_readers st !! id = Some r -> f r = Some r' -> reader_ok r' /\ (forall key, key ∈ damagedObjects (st_store st) -> loose key r' -> loose key r)) -> fence_held st'.
Proof.
  intros Hh E Hf. unfold onReader in E. destruct (st_readers st !! id) as [r|] eqn:Er; [|done]. cbn in E. destruct (f r) as [r'|] eqn:Ef; [|done]. injection E as <-.
  destruct (Hf r r' eq_refl Ef) as [Ho Hl]. apply reader_step; [done|done|]. intros key Hk L. exists r. split; [done|]. by apply Hl.
Qed.

(** Going on past the check keeps the reader's fields. *)
Lemma set_pc_held p r key : reader_ok r -> exposed (rd_pc r) = true -> reader_ok (set_pc p r) /\ (loose key (set_pc p r) -> loose key r).
Proof. intros [H1 H2] He. split; [split; [done|]; intros _ Hc; apply H2; [|done]; by intros E; rewrite E in He|]. by intros (L1 & _ & L3 & L4). Qed.

Lemma movePc_held id f st st' : fence_held st -> (forall p p', f p = Some p' -> exposed p = true) -> onReader id (movePc f) st = Some st' -> fence_held st'.
Proof.
  intros Hh Hf E. eapply onReader_held; [done|done|]. intros r r' Er Em. unfold movePc in Em. destruct (f (rd_pc r)) as [p|] eqn:Ep; [|done]. injection Em as <-.
  split; [eapply (set_pc_held _ _ ""); [by eapply fh_readers|by eapply Hf]|]. intros key _. eapply set_pc_held; [by eapply fh_readers|by eapply Hf].
Qed.

Lemma store_held s q done st : fence_held st -> (forall key, key ∈ done -> key ∈ damagedObjects s) ->
  (forall key id r, key ∈ done -> st_readers st !! id = Some r -> loose key r -> False) -> revoking (with_quarantine s q done st) -> fence_held (with_quarantine s q done st).
Proof. intros [H1 H2 H3 H4] Hd Hl Hr. by split. Qed.

Lemma elem_of_targets info m id r : m !! id = Some r -> rd_registered r = true -> sameObject info (rd_info r) = true -> id ∈ revoke_targets info m.
Proof.
  intros E Hr Hs. unfold revoke_targets. apply list_elem_of_fmap. exists (id, r). split; [done|]. apply list_elem_of_In, filter_In.
  split; [by apply list_elem_of_In, elem_of_map_to_list|]. cbn. by rewrite Hr, Hs.
Qed.

Lemma opening_held a st st' : fence_held st -> act a st = Some st' ->
  match a with AQuarantine _ _ _ | ACollect | ARevoke | AClear _ _ _ => True | _ => fence_held st' end.
Proof.
  intros Hh E. destruct a; try done; cbn in E.
  - destruct (st_readers st !! id) eqn:El; [done|]. destruct (openFile path (st_tree st)) as [r|] eqn:Eo; [|done]. injection E as <-.
    unfold openFile in Eo. destruct (fileAtName _ _); [|done]. destruct (machineInfo _) eqn:Em; [|done]. injection Eo as <-. apply reader_step; [done|by split|].
    intros key _ (_ & L & _). done.
  - eapply onReader_held; [done|done|]. cbn. intros r r' Er Ef. destruct (rd_pc r) eqn:Ep; try done. injection Ef as <-. split; [split; [exact (fh_machine _ _ _ Hh Er)|done]|].
    intros key _ (_ & L & _). done.
  - eapply onReader_held; [done|done|]. cbn. intros r r' Er Ef. destruct (rd_pc r) eqn:Ep; try done. injection Ef as <-. destruct (fh_readers _ Hh _ _ Er) as [R1 R2].
    split; [split; [done|]; intros _; apply R2; by rewrite Ep|]. intros key Hk (<- & L & _). unfold checkRead in L. cbn in L, Hk. destruct failed; [done|].
    unfold IsDamagedObject in L. by rewrite bool_decide_eq_true_2 in L by done.
  - eapply movePc_held; [done| |done]. by intros [] p'.
  - eapply movePc_held; [done| |done]. by intros [] p'.
  - destruct (st_rebuilder st); [done|]. destruct (st_readers st !! id) as [r|] eqn:Er; [|done]. cbn in E. destruct (rd_pc r) eqn:Ep; try done. injection E as <-.
    apply held_index, reader_step; [done|eapply (set_pc_held _ _ ""); [by eapply fh_readers|by rewrite Ep]|]. intros key _ L. exists r. split; [done|]. eapply set_pc_held; [by eapply fh_readers|by rewrite Ep|done].
  - eapply movePc_held; [done| |done]. by intros [] p'.
  - destruct (st_readers st !! id) as [r|] eqn:Er; [|done]. cbn in E. destruct (rd_pc r) as [| | | | |q [|]| | |] eqn:Ep; try done. injection E as <-.
    apply held_index, reader_step; [done|eapply (set_pc_held _ _ ""); [by eapply fh_readers|by rewrite Ep]|]. intros key _ L. exists r. split; [done|]. eapply set_pc_held; [by eapply fh_readers|by rewrite Ep|done].
  - eapply onReader_held; [done|done|]. cbn. intros r r' Er Ef. destruct (rd_pc r) eqn:Ep; try done. injection Ef as <-.
    split; [eapply (set_pc_held _ _ ""); [by eapply fh_readers|by rewrite Ep]|]. intros key _. eapply set_pc_held; [by eapply fh_readers|by rewrite Ep].
  - eapply onReader_held; [done|done|]. cbn. intros r r' Er Ef. assert (r' = set_closing r) as -> by (destruct (rd_pc r); congruence).
    split; [split; [exact (fh_machine _ _ _ Hh Er)|done]|]. intros key _ (_ & _ & L & _). done.
  - eapply onReader_held; [done|done|]. cbn. intros r r' Er Ef. destruct (rd_closing r) eqn:Ec; [|done]. injection Ef as <-.
    split; [split; [exact (fh_machine _ _ _ Hh Er)|]; cbn; by rewrite Ec|]. intros key _ (_ & _ & _ & L). done.
  - injection E as <-. destruct Hh. by split.
Qed.

Lemma quarantine_held a st st' : fence_held st -> act a st = Some st' -> fence_held st'.
Proof.
  intros Hh E. pose proof (opening_held a st st' Hh E) as Ho. destruct a; try done; clear Ho; cbn in E; pose proof (fh_revoking _ Hh) as Hq; unfold revoking in Hq.
  - destruct (st_qpc st); try done. destruct (fileAtName _ _) as [i|]; [|done]. destruct (_ && _) eqn:Em; [|done]. apply andb_true_iff in Em as [Em _]. unfold quarantine_fence in E. destruct keyFailed.
    + injection E as <-. apply store_held; [done|apply Hh|apply Hh|done].
    + pose proof (SetQuarantined_run name (GenerationKey (infoOf i)) (set_faults faults (st_store st))) as S.
      destruct (SetQuarantined name (GenerationKey (infoOf i)) (set_faults faults (st_store st))) as [r s]. destruct S as (_ & S & _). injection E as <-. change (damagedObjects (set_faults faults (st_store st))) with (damagedObjects (st_store st)) in S.
      apply store_held; [done| |apply Hh|].
      * intros key Hk. apply (fh_damaged _ Hh) in Hk. rewrite S. set_solver.
      * split; [done|]. intros _. cbn. rewrite S. set_solver.
  - destruct (st_qpc st) as [|info fenced|]; try done. destruct Hq as [Hm Hd]. injection E as <-. apply store_held; [done|apply Hh|apply Hh|]. cbn. intros Hf. split; [by apply Hd|].
    intros id r Er L. destruct (fh_readers _ Hh _ _ Er) as [R1 R2]. destruct L as (L1 & L2 & L3 & _). eapply elem_of_targets; [done|apply R2; [|done]; intros Ep; by rewrite Ep in L2|].
    by apply (GenerationKey_inj info (rd_info r)).
  - destruct (st_qpc st) as [|?|info fenced [|id targets]]; try done; injection E as <-.
    + apply store_held; [done| | |done].
      * intros key Hk. destruct fenced; [|by apply (fh_damaged _ Hh)]. apply elem_of_union in Hk as [->%elem_of_singleton|Hk]; [by apply Hq|by apply (fh_damaged _ Hh)].
      * intros key id r Hk Er L. destruct fenced; [|by eapply fh_done]. apply elem_of_union in Hk as [->%elem_of_singleton|Hk]; [|by eapply fh_done].
        destruct (Hq eq_refl) as [_ Ht]. specialize (Ht id r Er L). by apply elem_of_nil in Ht.
    + assert (forall id' r, alter revoke id (st_readers st) !! id' = Some r -> exists r0, st_readers st !! id' = Some r0 /\ (id' = id -> rd_err r <> None) /\ (forall key, loose key r -> loose key r0) /\ (reader_ok r0 -> reader_ok r)) as Ha.
      { intros id' r Er. destruct (decide (id' = id)) as [-> |Hne].
        - rewrite lookup_alter_eq in Er. destruct (st_readers st !! id) as [r0|]; [|done]. cbn in Er. injection Er as <-. exists r0. split; [done|]. unfold revoke.
          destruct (rd_err r0) eqn:Ee; [rewrite Ee; done|]. split; [done|]. split; [by intros key (_ & _ & _ & L)|]. intros [R1 R2]. by split.
        - rewrite lookup_alter_ne in Er by done. exists r. split; [done|]. done. }
      split; cbn.
      * intros id' r Er. destruct (Ha id' r Er) as (r0 & E0 & _ & _ & Ho). apply Ho. by eapply fh_readers.
      * apply Hh.
      * intros key id' r Hk Er L. destruct (Ha id' r Er) as (r0 & E0 & _ & Hl & _). eapply fh_done; [done|done|done|by apply Hl].
      * intros Hf. destruct (Hq Hf) as [Hd Ht]. split; [done|]. intros id' r Er L. destruct (Ha id' r Er) as (r0 & E0 & Hn & Hl & _).
        specialize (Ht id' r0 E0 (Hl _ L)). apply elem_of_cons in Ht as [-> |Ht]; [|done]. destruct L as (_ & _ & _ & L). by destruct (Hn eq_refl).
  - destruct (st_qpc st); try done. destruct (_ <? _); [|done]. pose proof (ClearQuarantine_run name key (set_faults faults (st_store st))) as S.
    destruct (ClearQuarantine name key (set_faults faults (st_store st))) as [r s]. injection E as <-. destruct (is_ok r).
    + destruct S as (_ & S & _). change (damagedObjects (set_faults faults (st_store st))) with (damagedObjects (st_store st)) in S. apply store_held; [done| | |done].
      * intros k Hk. pose proof (fh_damaged _ Hh) as Hd. rewrite S. set_solver.
      * intros k id r0 Hk. eapply fh_done; [done|]. set_solver.
    + assert (damagedObjects s = damagedObjects (st_store st)) as Es by (apply untouched_memory in S; unfold memory_kept in S; by rewrite S).
      apply store_held; [done|rewrite Es; apply Hh|apply Hh|done].
Qed.

Lemma reachable_held st0 st : initialReading st0 -> reachable st0 st -> fence_held st.
Proof.
  intros (H1 & _ & _ & H2 & H3 & _). induction 1 as [|st a st' _ IH E]; [|by eapply quarantine_held]. split.
  - intros id r. by rewrite H1, lookup_empty.
  - rewrite H3. set_solver.
  - intros key id r. rewrite H3. set_solver.
  - unfold revoking. by rewrite H2.
Qed.

(** ** The index of quarantined names *)

(** A snapshot somebody uses, with the names it still lacks. *)
Definition pcSnap (p : pc) (q : quarantineSnapshot) (pending : list string) : Prop := p = PcStat q pending \/ (p = PcDecide q /\ pending = []).
Definition snapshot_in (st : Reading) (q : quarantineSnapshot) (pending : list string) : Prop :=
  (st_index st = Some q /\ pending = []) \/ exists id r, st_readers st !! id = Some r /\ pcSnap (rd_pc r) q pending.

(** What a step does to the snapshots: they stay, get one name further, or begin. *)
Definition snap_grown (st : Reading) (q : quarantineSnapshot) (pending : list string) : Prop :=
  snapshot_in st q pending \/
  (exists failed name q0, q = rebuild_name failed name q0 (st_tree st) /\ snapshot_in st q0 (name :: pending)) \/
  (q = mkSnap (integrityGen (st_store st)) (st_now st) ∅ [] /\ pending = elements (quarantined (st_store st))).

Lemma insert_snaps st id r' q pending :
  snapshot_in (with_readers (<[id := r']> (st_readers st)) st) q pending -> snapshot_in st q pending \/ pcSnap (rd_pc r') q pending.
Proof. intros [H|(i & r & E & Hp)]; [by left; left|]. cbn in E. apply lookup_insert_Some in E as [[<- <-]|[_ E]]; [by right|left; right; eauto]. Qed.

Lemma onReader_snaps id f st st' q pending : onReader id f st = Some st' -> snapshot_in st' q pending ->
  snapshot_in st q pending \/ exists r r', st_readers st !! id = Some r /\ f r = Some r' /\ pcSnap (rd_pc r') q pending.
Proof.
  intros E Hs. unfold onReader in E. destruct (st_readers st !! id) as [r|] eqn:Er; [|done]. cbn in E. destruct (f r) as [r'|] eqn:Ef; [|done]. injection E as <-.
  apply insert_snaps in Hs as [Hs|Hs]; [by left|right; eauto].
Qed.

Lemma no_snap p q pending : pcSnap p q pending -> match p with PcStat _ _ | PcDecide _ => True | _ => False end.
Proof. by intros [-> |[-> _]]. Qed.

Lemma rebuild_begin_snaps gen st q pending : pcSnap (rebuild_begin gen (st_index st) (st_store st) (st_now st)) q pending -> snap_grown st q pending.
Proof.
  unfold rebuild_begin. intros Hp. assert (pcSnap (PcStat (mkSnap (integrityGen (st_store st)) (st_now st) ∅ []) (elements (quarantined (st_store st)))) q pending -> snap_grown st q pending) as Hn.
  { intros [[= <- <-]|[? _]]; [|done]. by right; right. }
  destruct (st_index st) as [q'|] eqn:Ei; [|by apply Hn]. destruct (current (Some q') gen (st_now st)); [|by apply Hn]. destruct Hp as [?|[[= <-] ->]]; [done|]. left. by left.
Qed.

Lemma act_snaps a st st' q pending : act a st = Some st' -> snapshot_in st' q pending -> snap_grown st q pending.
Proof.
  intros E Hs. destruct a; cbn in E.
  - destruct (st_readers st !! id); [done|]. destruct (openFile path (st_tree st)) as [r|] eqn:Eo; [|done]. injection E as <-. apply insert_snaps in Hs as [Hs|Hs]; [by left|].
    unfold openFile in Eo. destruct (fileAtName _ _); [|done]. destruct (machineInfo _); [|done]. injection Eo as <-. by apply no_snap in Hs.
  - destruct (onReader_snaps _ _ _ _ _ _ E Hs) as [?|(r & r' & Er & Ef & Hp)]; [by left|]. destruct (rd_pc r); try done. injection Ef as <-. by apply no_snap in Hp.
  - destruct (onReader_snaps _ _ _ _ _ _ E Hs) as [?|(r & r' & Er & Ef & Hp)]; [by left|]. destruct (rd_pc r); try done. injection Ef as <-. cbn in Hp. unfold checkRead in Hp.
    destruct failed; [by apply no_snap in Hp|]. destruct (IsDamagedObject _ _); by apply no_snap in Hp.
  - destruct (onReader_snaps _ _ _ _ _ _ E Hs) as [?|(r & r' & Er & Ef & Hp)]; [by left|]. unfold movePc in Ef. destruct (rd_pc r); try done. injection Ef as <-. cbn in Hp.
    unfold fences_generation in Hp. cbn in Hp. destruct (_ =? 0); by apply no_snap in Hp.
  - destruct (onReader_snaps _ _ _ _ _ _ E Hs) as [?|(r & r' & Er & Ef & Hp)]; [by left|]. unfold movePc in Ef. destruct (rd_pc r); try done. injection Ef as <-. cbn in Hp.
    unfold fences_load in Hp. destruct (st_index st) as [q'|] eqn:Ei; [|by apply no_snap in Hp]. destruct (current _ _ _); [|by apply no_snap in Hp].
    destruct Hp as [?|[[= <-] ->]]; [done|]. left. by left.
  - destruct (st_rebuilder st); [done|]. destruct (st_readers st !! id) as [r|] eqn:Er; [|done]. cbn in E. destruct (rd_pc r) as [| | | |gen| | | |]; try done. injection E as <-.
    change (snapshot_in (with_readers (<[id := set_pc (rebuild_begin gen (st_index st) (st_store st) (st_now st)) r]> (st_readers st)) st) q pending) in Hs.
    apply insert_snaps in Hs as [Hs|Hs]; [by left|]. exact (rebuild_begin_snaps gen st q pending Hs).
  - destruct (onReader_snaps _ _ _ _ _ _ E Hs) as [?|(r & r' & Er & Ef & Hp)]; [by left|]. unfold movePc in Ef. destruct (rd_pc r) as [| | | | |q0 [|name names]| | |] eqn:Ep; try done. injection Ef as <-. cbn in Hp.
    destruct Hp as [[= <- <-]|[? _]]; [|done]. right. left. exists failed, name, q0. split; [done|]. right. exists id, r. split; [done|]. by left.
  - destruct (st_readers st !! id) as [r|] eqn:Er; [|done]. cbn in E. destruct (rd_pc r) as [| | | | |q0 [|]| | |] eqn:Ep; try done. injection E as <-.
    assert (snapshot_in st q0 []) as H0 by (right; exists id, r; split; [done|by left]).
    destruct Hs as [[[= <-] ->]|(i & r1 & E1 & Hp)]; [by left|]. cbn in E1. apply lookup_insert_Some in E1 as [[<- <-]|[_ E1]]; [|left; right; eauto]. destruct Hp as [?|[[= <-] ->]]; [done|by left].
  - destruct (onReader_snaps _ _ _ _ _ _ E Hs) as [?|(r & r' & Er & Ef & Hp)]; [by left|]. destruct (rd_pc r); try done. injection Ef as <-. cbn in Hp. unfold fences_decide in Hp.
    destruct (bool_decide _); [by apply no_snap in Hp|]. destruct (existsb _ _); by apply no_snap in Hp.
  - destruct (onReader_snaps _ _ _ _ _ _ E Hs) as [?|(r & r' & Er & Ef & Hp)]; [by left|]. assert (rd_pc r' = rd_pc r) as E1 by (destruct (rd_pc r) eqn:Ep; try done; injection Ef as <-; done).
    left. right. exists id, r. by rewrite <- E1.
  - destruct (onReader_snaps _ _ _ _ _ _ E Hs) as [?|(r & r' & Er & Ef & Hp)]; [by left|]. destruct (rd_closing r); [|done]. injection Ef as <-. left. right. by exists id, r.
  - destruct (st_qpc st); try done. destruct (fileAtName _ _); [|done]. destruct (_ && _); [|done]. destruct (quarantine_fence _ _ _ _) as [s qq]. injection E as <-. by left.
  - destruct (st_qpc st); try done. injection E as <-. by left.
  - destruct (st_qpc st) as [|?|info fenced [|id targets]]; try done; injection E as <-; left; [exact Hs|]. destruct Hs as [Hs|(i & r & Er & Hp)]; [by left|right]. cbn in Er.
    destruct (decide (i = id)) as [-> |Hne]; [|rewrite lookup_alter_ne in Er by done; eauto]. rewrite lookup_alter_eq in Er. destruct (st_readers st !! id) as [r0|] eqn:E0; [|done]. cbn in Er. injection Er as <-.
    exists id, r0. split; [done|]. unfold revoke in Hp. by destruct (rd_err r0).
  - destruct (st_qpc st); try done. destruct (_ <? _); [|done]. destruct (ClearQuarantine _ _ _) as [r s]. injection E as <-. by left.
  - injection E as <-. by left.
Qed.

(** What a step does to the generation and the names it counts. *)
Lemma act_generation a st st' : 0 <= integrityGen (st_store st) -> act a st = Some st' ->
  (integrityGen (st_store st') = integrityGen (st_store st) /\ quarantined (st_store st') = quarantined (st_store st)) \/ integrityGen (st_store st) < integrityGen (st_store st').
Proof.
  intros Hg E. destruct a; cbn in E; try (unfold onReader in E; destruct (st_readers st !! id) as [r|]; [|done]; cbn in E; match type of E with context [?x ≫= _] => destruct x end; [|done]; injection E as <-; by left).
  - destruct (st_readers st !! id); [done|]. destruct (openFile path (st_tree st)); [|done]. injection E as <-. by left.
  - destruct (st_rebuilder st); [done|]. destruct (st_readers st !! id) as [r|]; [|done]. cbn in E. destruct (rd_pc r); try done. injection E as <-. by left.
  - destruct (st_readers st !! id) as [r|]; [|done]. cbn in E. destruct (rd_pc r) as [| | | | |q0 [|]| | |]; try done. injection E as <-. by left.
  - destruct (st_qpc st); try done. destruct (fileAtName _ _) as [i|]; [|done]. destruct (_ && _) eqn:Eb; [|done]. apply andb_true_iff in Eb as [_ Eb]. apply Z.ltb_lt in Eb. unfold quarantine_fence in E.
    destruct keyFailed; [injection E as <-; by left|]. pose proof (SetQuarantined_run name (GenerationKey (infoOf i)) (set_faults faults (st_store st))) as S.
    destruct (SetQuarantined name (GenerationKey (infoOf i)) (set_faults faults (st_store st))) as [r s]. destruct S as (_ & _ & S & _). injection E as <-. right. cbn. rewrite S. unfold wrapu64. cbn. rewrite Z.mod_small by lia. lia.
  - destruct (st_qpc st); try done. injection E as <-. by left.
  - destruct (st_qpc st) as [|?|info fenced [|id targets]]; try done; injection E as <-; by left.
  - destruct (st_qpc st); try done. destruct (_ <? _) eqn:Eb; [|done]. apply Z.ltb_lt in Eb. pose proof (ClearQuarantine_run name key (set_faults faults (st_store st))) as S.
    destruct (ClearQuarantine name key (set_faults faults (st_store st))) as [r s]. injection E as <-. destruct (is_ok r).
    + destruct S as (_ & _ & S & _). right. cbn. rewrite S. unfold wrapu64. cbn. rewrite Z.mod_small by lia. lia.
    + left. apply untouched_memory in S. unfold memory_kept in S. cbn. rewrite S. done.
  - injection E as <-. by left.
Qed.

(** Every snapshot as new as the store names all that is quarantined. *)
Definition complete_at (gen : Z) (names : gset string) (st : Reading) : Prop :=
  forall q pending, snapshot_in st q pending -> gen <= qs_gen q -> names ⊆ qs_paths q ∪ list_to_set pending.
Definition index_inv (st : Reading) : Prop :=
  0 <= integrityGen (st_store st) /\ (forall q pending, snapshot_in st q pending -> qs_gen q <= integrityGen (st_store st)) /\
  complete_at (integrityGen (st_store st)) (quarantined (st_store st)) st.

Lemma complete_step gen names a st st' : act a st = Some st' -> names ⊆ quarantined (st_store st) -> complete_at gen names st -> complete_at gen names st'.
Proof.
  intros E Hn Hc q pending Hs Hg. destruct (act_snaps _ _ _ _ _ E Hs) as [H|[(failed & name & q0 & -> & H)|[-> ->]]]; [by apply Hc| |].
  - specialize (Hc q0 (name :: pending) H Hg). cbn in *. set_solver.
  - cbn. rewrite list_to_set_elements_L. set_solver.
Qed.

Lemma snaps_bounded a st st' g : act a st = Some st' -> integrityGen (st_store st) <= g -> (forall q pending, snapshot_in st q pending -> qs_gen q <= g) ->
  forall q pending, snapshot_in st' q pending -> qs_gen q <= g.
Proof.
  intros E Hg Hb q pending Hs. destruct (act_snaps _ _ _ _ _ E Hs) as [H|[(failed & name & q0 & -> & H)|[-> ->]]]; [by eapply Hb|exact (Hb q0 _ H)|done].
Qed.

Lemma index_step a st st' : act a st = Some st' -> index_inv st -> index_inv st'.
Proof.
  intros E (Hg & Hb & Hc). destruct (act_generation _ _ _ Hg E) as [[Eg En]|Hlt].
  - unfold index_inv. rewrite Eg, En. split; [done|]. split; [by eapply snaps_bounded|by eapply complete_step].
  - pose proof (snaps_bounded _ _ _ _ E (Z.le_refl _) Hb) as Hb'. split; [lia|]. split; [intros q p H; specialize (Hb' q p H); lia|]. intros q p H Hge. specialize (Hb' q p H). lia.
Qed.

Lemma reachable_index st0 st : initialReading st0 -> reachable st0 st -> index_inv st.
Proof.
  intros (H1 & H2 & _ & _ & _ & H3). induction 1 as [|st a st' _ IH E]; [|by eapply index_step].
  assert (forall q p, snapshot_in st0 q p -> False) as Hn by (intros q p [[Hi _]|(id & r & E & _)]; [by rewrite H2 in Hi|by rewrite H1, lookup_empty in E]).
  split; [lia|]. split; intros q p H; by destruct (Hn q p H).
Qed.

(** ** Opening a quarantined name *)

(** A run during which [name] stays quarantined. *)
Inductive while_quarantined (name : string) (st1 : Reading) : Reading -> Prop :=
| wq_refl : while_quarantined name st1 st1
| wq_step st a st' : while_quarantined name st1 st -> act a st = Some st' -> name ∈ quarantined (st_store st') -> while_quarantined name st1 st'.

(** A reader of [name] opened since the generation was [gen]. *)
Definition late_ok (gen : Z) (name : string) (r : Reader) : Prop := rd_path r = name ->
  match rd_pc r with
  | PcLoad g | PcRebuild g => gen <= g
  | PcStat q _ | PcDecide q => gen <= qs_gen q
  | PcHanded => False
  | _ => True
  end.

Record refusing (gen : Z) (name : string) (known : gmap nat Reader) (st : Reading) : Prop := mkRefusing {
  rf_name : name ∈ quarantined (st_store st);
  rf_gen : 0 <= integrityGen (st_store st) /\ gen <= integrityGen (st_store st);
  rf_index : complete_at gen {[name]} st;
  rf_late : forall id r, known !! id = None -> st_readers st !! id = Some r -> late_ok gen name r
}.

Lemma late_insert gen name known st id r' : refusing gen name known st -> (known !! id = None -> late_ok gen name r') ->
  forall i r, known !! i = None -> <[id := r']> (st_readers st) !! i = Some r -> late_ok gen name r.
Proof. intros Hr Hl i r Hk [[<- <-]|[_ E]]%lookup_insert_Some; [by apply Hl|by eapply rf_late]. Qed.

(** The reader's own steps. *)
Lemma onReader_late gen name known id f st st' : refusing gen name known st -> onReader id f st = Some st' ->
  (forall r r', st_readers st !! id = Some r -> f r = Some r' -> late_ok gen name r -> late_ok gen name r') ->
  forall i r, known !! i = None -> st_readers st' !! i = Some r -> late_ok gen name r.
Proof.
  intros Hr E Hf. unfold onReader in E. destruct (st_readers st !! id) as [r|] eqn:Er; [|done]. cbn in E. destruct (f r) as [r'|] eqn:Ef; [|done]. injection E as <-.
  apply (late_insert gen name known st id r' Hr). intros Hk. apply (Hf r r' eq_refl Ef). by eapply rf_late.
Qed.

Lemma quarantine_counted name s : name ∈ quarantined s -> fences_generation s = PcLoad (integrityGen s).
Proof.
  intros Hn. unfold fences_generation. cbn. destruct (Z.of_nat (size (quarantined s)) =? 0) eqn:E; [|done]. apply Z.eqb_eq in E. assert (size (quarantined s) = 0)%nat as E0 by lia.
  apply size_empty_inv in E0. set_solver.
Qed.

Lemma late_step gen name known a st st' : refusing gen name known st -> act a st = Some st' ->
  forall i r, known !! i = None -> st_readers st' !! i = Some r -> late_ok gen name r.
Proof.
  intros Hr E. destruct a; cbn in E.
  - destruct (st_readers st !! id); [done|]. destruct (openFile path (st_tree st)) as [r|] eqn:Eo; [|done]. injection E as <-. apply (late_insert gen name known st id r Hr). intros _ _.
    unfold openFile in Eo. destruct (fileAtName _ _); [|done]. destruct (machineInfo _); [|done]. by injection Eo as <-.
  - eapply onReader_late; [done|done|]. cbn. intros r r' Er Ef _. destruct (rd_pc r); try done. by injection Ef as <-.
  - eapply onReader_late; [done|done|]. cbn. intros r r' Er Ef _. destruct (rd_pc r); try done. injection Ef as <-. intros _. cbn. unfold checkRead. destruct failed; [done|]. by destruct (IsDamagedObject _ _).
  - eapply onReader_late; [done|done|]. unfold movePc. intros r r' Er Ef _. destruct (rd_pc r); try done. injection Ef as <-. intros _. pose proof (quarantine_counted name (st_store st) (rf_name _ _ _ _ Hr)) as Q. unfold fences_generation in Q. cbn in Q |- *. rewrite Q. apply Hr.
  - eapply onReader_late; [done|done|]. unfold movePc. intros r r' Er Ef Hl. destruct (rd_pc r) eqn:Ep; try done. injection Ef as <-. intros Hp. specialize (Hl Hp). rewrite Ep in Hl. cbn. unfold fences_load.
    destruct (st_index st) as [q|]; [|done]. destruct (current (Some q) gen0 (st_now st)) eqn:Ec; [|done]. cbn in Ec. apply andb_true_iff in Ec as [Ec _]. apply Z.leb_le in Ec. lia.
  - destruct (st_rebuilder st); [done|]. destruct (st_readers st !! id) as [r|] eqn:Er; [|done]. cbn in E. destruct (rd_pc r) as [| | | |g| | | |] eqn:Ep; try done. injection E as <-.
    apply (late_insert gen name known st id _ Hr). intros Hk Hp. pose proof (rf_late _ _ _ _ Hr id r Hk Er Hp) as Hl. rewrite Ep in Hl. cbn. unfold rebuild_begin. cbn.
    destruct (st_index st) as [q|]; [|apply Hr]. destruct (current (Some q) g (st_now st)) eqn:Ec; [|apply Hr]. cbn in Ec. apply andb_true_iff in Ec as [Ec _]. apply Z.leb_le in Ec. lia.
  - eapply onReader_late; [done|done|]. unfold movePc. intros r r' Er Ef Hl. destruct (rd_pc r) as [| | | | |q [|n names]| | |] eqn:Ep; try done. injection Ef as <-. intros Hp. specialize (Hl Hp). by rewrite Ep in Hl.
  - destruct (st_readers st !! id) as [r|] eqn:Er; [|done]. cbn in E. destruct (rd_pc r) as [| | | | |q0 [|]| | |] eqn:Ep; try done. injection E as <-.
    apply (late_insert gen name known st id _ Hr). intros Hk Hp. pose proof (rf_late _ _ _ _ Hr id r Hk Er Hp) as Hl. by rewrite Ep in Hl.
  - eapply onReader_late; [done|done|]. cbn. intros r r' Er Ef Hl. destruct (rd_pc r) eqn:Ep; try done. injection Ef as <-. intros Hp. specialize (Hl Hp). rewrite Ep in Hl. cbn. unfold fences_decide.
    assert (name ∈ qs_paths q) as Hin. { specialize (rf_index _ _ _ _ Hr q []) as Hc. cbn in Hc. assert ({[name]} ⊆ qs_paths q ∪ ∅); [|set_solver]. apply Hc; [|done]. right. exists id, r. split; [done|]. by right. }
    cbn in Hp. rewrite bool_decide_eq_true_2 by (by rewrite Hp). done.
  - eapply onReader_late; [done|done|]. cbn. intros r r' Er Ef Hl. assert (r' = set_closing r) as -> by (destruct (rd_pc r); congruence). exact Hl.
  - eapply onReader_late; [done|done|]. cbn. intros r r' Er Ef Hl. destruct (rd_closing r); [|done]. injection Ef as <-. exact Hl.
  - destruct (st_qpc st); try done. destruct (fileAtName _ _); [|done]. destruct (_ && _); [|done]. destruct (quarantine_fence _ _ _ _) as [s qq]. injection E as <-. apply Hr.
  - destruct (st_qpc st); try done. injection E as <-. apply Hr.
  - destruct (st_qpc st) as [|?|info fenced [|id targets]]; try done; injection E as <-; [apply Hr|]. cbn. intros i r Hk Er.
    destruct (decide (i = id)) as [-> |Hne]; [|rewrite lookup_alter_ne in Er by done; by eapply rf_late]. rewrite lookup_alter_eq in Er. destruct (st_readers st !! id) as [r0|] eqn:E0; [|done]. cbn in Er. injection Er as <-.
    pose proof (rf_late _ _ _ _ Hr id r0 Hk E0) as Hl. unfold revoke. by destruct (rd_err r0).
  - destruct (st_qpc st); try done. destruct (_ <? _); [|done]. destruct (ClearQuarantine _ _ _) as [r s]. injection E as <-. apply Hr.
  - injection E as <-. apply Hr.
Qed.

Lemma refusing_run name st1 st : index_inv st1 -> name ∈ quarantined (st_store st1) -> while_quarantined name st1 st ->
  refusing (integrityGen (st_store st1)) name (st_readers st1) st.
Proof.
  intros (Hg & Hb & Hc) Hn. induction 1 as [|st a st' _ IH E Hn'].
  - split; [done|lia| |by intros id r H1 H2; congruence]. intros q p Hs Hge. specialize (Hc q p Hs Hge). set_solver.
  - destruct (act_generation _ _ _ (proj1 (rf_gen _ _ _ _ IH)) E) as [[Eg _]|Hlt];
      (split; [done|destruct (rf_gen _ _ _ _ IH); lia|eapply complete_step; [done| |apply IH]; pose proof (rf_name _ _ _ _ IH); set_solver|by eapply late_step]).
Qed.

(** ** Reading at an offset *)

Lemma stake_sdrop a b s : stake a s +:+ stake b (sdrop a s) = stake (a + b) s.
Proof. revert s. induction a as [|a IH]; intros [|c s]; cbn; [done|done|by destruct b|]. by rewrite IH. Qed.
Lemma sdrop_sdrop a b s : sdrop b (sdrop a s) = sdrop (a + b) s.
Proof. revert s. induction a as [|a IH]; intros [|c s]; cbn; [done|done|by destruct b|]. apply IH. Qed.

(** What [ReadAt] is for: the bytes from [off] on, [len] of them if there are as many. *)
Definition readAtRef (contents : string) (off len : Z) : string * option rerr :=
  let got := stake (Z.to_nat len) (sdrop (Z.to_nat off) contents) in (got, if slen got <? len then Some REOF else None).

Lemma readAt_loop_whole contents off len fuel errs n : Forall (eq None) errs -> 0 <= off ->
  let got := stake n (sdrop (Z.to_nat off) contents) in slen got = Z.of_nat n -> Z.of_nat n <= Z.max 0 len -> len - Z.of_nat n <= Z.of_nat fuel * readChunk ->
  readAt_loop errs contents off len got fuel = readAtRef contents off len.
Proof.
  intros He Ho. revert errs n He. induction fuel as [|fuel IH]; intros errs n He got Hg Hn Hf; cbn [readAt_loop]; rewrite Hg.
  { rewrite (proj2 (Z.leb_le _ _)) by (unfold readChunk in *; lia). unfold readAtRef. assert (Z.to_nat len = n) as -> by lia. fold got. rewrite Hg. by rewrite (proj2 (Z.ltb_ge _ _)) by lia. }
  destruct (len <=? Z.of_nat n) eqn:El.
  { apply Z.leb_le in El. unfold readAtRef. assert (Z.to_nat len = n) as -> by lia. fold got. rewrite Hg. by rewrite (proj2 (Z.ltb_ge _ _)) by lia. }
  apply Z.leb_gt in El. assert (hd None errs = None) as -> by (by destruct He). cbv zeta. set (want := Z.min (len - Z.of_nat n) readChunk).
  assert (Z.to_nat (off + Z.of_nat n) = (Z.to_nat off + n)%nat) as -> by lia. rewrite <- sdrop_sdrop. set (base := sdrop (Z.to_nat off) contents) in *.
  assert (0 < want) as Hw by (unfold want, readChunk; lia). unfold got. rewrite stake_sdrop.
  assert (slen (stake (Z.to_nat want) (sdrop n base)) = slen (stake (n + Z.to_nat want) base) - Z.of_nat n) as Ec.
  { rewrite <- stake_sdrop, slen_app. fold got. lia. }
  destruct (slen (stake (Z.to_nat want) (sdrop n base)) <? want) eqn:Es.
  - apply Z.ltb_lt in Es. rewrite Ec in Es. unfold slen in Es. rewrite stake_length in Es. assert (String.length base < n + Z.to_nat want)%nat as Hs by lia.
    unfold readAtRef. fold base. rewrite !stake_all by (unfold want in *; lia). unfold slen. by rewrite (proj2 (Z.ltb_lt _ _)) by (unfold want in *; lia).
  - apply Z.ltb_ge in Es. rewrite Ec in Es. apply IH.
    + by destruct He.
    + pose proof (stake_length (n + Z.to_nat want) base) as Hl. unfold slen in *. lia.
    + unfold want. lia.
    + unfold want, readChunk in *. lia.
Qed.

(** A reader nobody revokes reads what the file has. *)
Lemma ReadAt_whole errs contents off len : Forall (eq None) errs -> 0 <= off -> ReadAt errs contents off len = readAtRef contents off len.
Proof.
  intros He Ho. unfold ReadAt. change "" with (stake 0 (sdrop (Z.to_nat off) contents)). apply readAt_loop_whole; [done|done|by cbn|lia|].
  unfold readChunk. pose proof (Z.div_mod len 65536). pose proof (Z.mod_pos_bound len 65536). destruct (decide (0 <= len / 65536)); lia.
Qed.

(** ** Properties *)

(** A quarantine that fenced its generation is carried through by its own steps. *)
Lemma revoking_ends info fenced targets st : st_qpc st = QRevoke info fenced targets ->
  exists st', reachable st st' /\ st_qpc st' = QIdle /\ (fenced = true -> GenerationKey info ∈ st_done st').
Proof.
  revert st. induction targets as [|id targets IH]; intros st E.
  - exists (with_quarantine (st_store st) QIdle (if fenced then {[GenerationKey info]} ∪ st_done st else st_done st) st).
    split; [eapply (reach_step _ st ARevoke); [constructor|cbn; by rewrite E]|]. split; [done|]. intros ->. cbn. set_solver.
  - set (st1 := with_quarantine (st_store st) (QRevoke info fenced targets) (st_done st) (with_readers (alter revoke id (st_readers st)) st)).
    destruct (IH st1 eq_refl) as (st' & R & Hq & Hd). exists st'. split; [|done].
    assert (reachable st st1) as R1 by (eapply (reach_step _ st ARevoke); [constructor|cbn; by rewrite E]). clear -R R1. induction R as [|st2 a st3 _ IH2 E]; [done|by eapply reach_step].
Qed.
Lemma quarantine_completes info fenced st : st_qpc st = QCollect info fenced ->
  exists st', reachable st st' /\ st_qpc st' = QIdle /\ (fenced = true -> GenerationKey info ∈ st_done st').
Proof.
  intros E. set (st1 := with_quarantine (st_store st) (QRevoke info fenced (revoke_targets info (st_readers st))) (st_done st) st).
  destruct (revoking_ends info fenced _ st1 eq_refl) as (st' & R & Hx). exists st'. split; [|done].
  assert (reachable st st1) as R1 by (eapply (reach_step _ st ACollect); [constructor|cbn; by rewrite E]). clear -R R1. induction R as [|st2 a st3 _ IH2 E]; [done|by eapply reach_step].
Qed.

(** C10. No byte of a quarantined generation leaves the node. Opens take no commit lock, yet in
    every interleaving of opens, closes, quarantines, repairs and changes of the directory: once
    a quarantine was carried through and until the generation is cleared, every reader of it
    that [OpenReader] returned and that nobody is closing answers reads and seeks with an error,
    whether it was opened before, during or after the quarantine and through whatever name. *)
Theorem quarantine_revokes_readers (st0 st : Reading) (key : string) (id : nat) (r : Reader) :
  initialReading st0 -> reachable st0 st -> key ∈ st_done st -> st_readers st !! id = Some r ->
  GenerationKey (rd_info r) = key -> rd_pc r = PcHanded -> rd_closing r = false ->
  (forall len rest, exists e, Read r len rest = Err e) /\ (forall off, exists e, Seek r off = Err e).
Proof.
  intros H0 Hr Hk Er Hg Hp Hc. pose proof (fh_done _ (reachable_held _ _ H0 Hr) key id r Hk Er) as Hl. unfold Read, Seek.
  destruct (rd_err r) as [e|] eqn:Ee; [by split; eauto|]. destruct Hl. unfold loose. by rewrite Hp.
Qed.

(** A quarantined name is not served, whatever file is there. While a name stays quarantined,
    no open of it that starts is answered with a reader, although the check works from a shared
    snapshot that other goroutines rebuild: the snapshot's generation tells whether it knows the
    name. *)
Theorem quarantined_name_refused (st0 st1 st : Reading) (name : string) (id : nat) (r : Reader) :
  initialReading st0 -> reachable st0 st1 -> name ∈ quarantined (st_store st1) -> while_quarantined name st1 st ->
  st_readers st1 !! id = None -> st_readers st !! id = Some r -> rd_path r = name -> rd_pc r <> PcHanded.
Proof.
  intros H0 Hr Hn Hw Hk Er Hp Eh. pose proof (rf_late _ _ _ _ (refusing_run name st1 st (reachable_index _ _ H0 Hr) Hn Hw) id r Hk Er Hp) as Hl. by rewrite Eh in Hl.
Qed.

(** ** Examples *)

Fixpoint runActions (l : list action) (st : Reading) : option Reading :=
  match l with [] => Some st | a :: l => st' ← act a st; runActions l st' end.
Lemma runActions_reachable l st0 st st' : reachable st0 st -> runActions l st = Some st' -> reachable st0 st'.
Proof.
  revert st. induction l as [|a l IH]; intros st Hr E; cbn in E; [by injection E as <-|]. destruct (act a st) as [st1|] eqn:Ea; [|done]. cbn in E. apply (IH st1); [by eapply reach_step|done].
Qed.

(** A file served under two names of one object, damaged while both are read. *)
Definition damagedFile : node := NFile (mkInode 0 7 "damaged" 50 420 true).
Definition servedReading : Reading := mkReading {[ "a" := damagedFile; "alias" := damagedFile ]} initialStore 0 ∅ None None QIdle ∅.
Definition openAll (id : nat) (path : string) : list action := [AOpen id path; ARegister id; ACheck id false; AGeneration id].
(** The alias is opened, "a" is registered but not checked, the quarantine runs, a late open follows. *)
Definition racing : list action :=
  openAll 0 "alias" ++ [AOpen 1 "a"; ARegister 1; AQuarantine "a" false []; AOpen 2 "a"; ACollect; ARegister 2; ARevoke; ARevoke; ARevoke; ACheck 1 false; ACheck 2 false].
Definition raced : Reading := default servedReading (runActions racing servedReading).
Lemma raced_reachable : reachable servedReading raced.
Proof.
  apply (runActions_reachable racing servedReading servedReading); [constructor|]. unfold raced. destruct (runActions racing servedReading) eqn:E; [done|]. exfalso.
  assert (is_Some (runActions racing servedReading)) as [? E'] by (vm_compute; eexists; reflexivity). congruence.
Qed.
Lemma served_initial : initialReading servedReading.
Proof. by repeat split. Qed.

Definition revokedReader : Reader := mkReader "alias" (mkInfo 0 7 7 50 420) PcHanded true false (Some RUnreadable).
Lemma quarantine_revokes_readers_witness :
  rd_pc <$> st_readers raced !! 1%nat = Some PcRefused /\ rd_pc <$> st_readers raced !! 2%nat = Some PcRefused /\ exists e, Read revokedReader 10 "damaged" = Err e.
Proof.
  split; [vm_compute; reflexivity|]. split; [vm_compute; reflexivity|].
  assert (GenerationKey (mkInfo 0 7 7 50 420) ∈ st_done raced) as Hk by (apply (bool_decide_unpack _); vm_compute; exact I).
  assert (st_readers raced !! 0%nat = Some revokedReader) as E by (vm_compute; reflexivity).
  destruct (quarantine_revokes_readers servedReading raced _ 0 revokedReader served_initial raced_reachable Hk E eq_refl eq_refl eq_refl) as [H _]. apply (H 10 "damaged").
Defined.

(** After the quarantine the name is repaired with another object, and opened again before the
    quarantine is lifted: the name is still refused. *)
Definition repaired : list action :=
  [AWorld {[ "a" := NFile (mkInode 0 8 "good" 60 420 true) ]} 5; AOpen 3 "a"; ARegister 3; ACheck 3 false; AGeneration 3; ALoad 3; ARebuild 3; AStat 3 false; AStore 3; ADecide 3].
Definition reopenedReading : Reading := default raced (runActions repaired raced).
Lemma run_while_quarantined name l st1 st : while_quarantined name st1 st -> (forall a st st', a ∈ l -> act a st = Some st' -> name ∈ quarantined (st_store st) -> name ∈ quarantined (st_store st')) ->
  name ∈ quarantined (st_store st) -> forall st', runActions l st = Some st' -> while_quarantined name st1 st'.
Proof.
  revert st. induction l as [|a l IH]; intros st Hw Hk Hn st' E; cbn in E; [by injection E as <-|]. destruct (act a st) as [st2|] eqn:Ea; [|done]. cbn in E.
  assert (name ∈ quarantined (st_store st2)) as H2 by (eapply Hk; [by left|done|done]). apply (IH st2); [by eapply wq_step| |done|done]. intros b s s' Hb. apply Hk. by right.
Qed.
Lemma opening_keeps_store a st st' : match a with AQuarantine _ _ _ | ACollect | ARevoke | AClear _ _ _ => False | _ => True end -> act a st = Some st' -> st_store st' = st_store st.
Proof.
  intros Ha E. destruct a; try done; cbn in E; try (unfold onReader in E; destruct (st_readers st !! id) as [r|]; [|done]; cbn in E; match type of E with context [?x ≫= _] => destruct x end; [|done]; injection E as <-; done).
  - destruct (st_readers st !! id); [done|]. destruct (openFile path (st_tree st)); [|done]. by injection E as <-.
  - destruct (st_rebuilder st); [done|]. destruct (st_readers st !! id) as [r|]; [|done]. cbn in E. destruct (rd_pc r); try done. by injection E as <-.
  - destruct (st_readers st !! id) as [r|]; [|done]. cbn in E. destruct (rd_pc r) as [| | | | |q0 [|]| | |]; try done. by injection E as <-.
  - by injection E as <-.
Qed.
Lemma repaired_opens a : a ∈ repaired -> match a with AQuarantine _ _ _ | ACollect | ARevoke | AClear _ _ _ => False | _ => True end.
Proof. revert a. apply Forall_forall. repeat constructor. Qed.
Lemma repaired_runs : runActions repaired raced = Some reopenedReading.
Proof.
  unfold reopenedReading. destruct (runActions repaired raced) eqn:Er; [reflexivity|]. assert (is_Some (runActions repaired raced)) as [? Er'] by (vm_compute; eexists; reflexivity). congruence.
Qed.
Lemma quarantined_name_refused_witness : exists r, st_readers reopenedReading !! 3%nat = Some r /\ fi_ino (rd_info r) = 8 /\ rd_pc r <> PcHanded.
Proof.
  assert (is_Some (st_readers reopenedReading !! 3%nat)) as [r E] by (vm_compute; eexists; reflexivity). exists r. split; [exact E|].
  assert (fi_ino (rd_info r) = 8 /\ rd_path r = "a") as [E1 E2] by (vm_compute in E; injection E as <-; split; reflexivity). split; [exact E1|].
  assert ("a" ∈ quarantined (st_store raced)) as Hn by (apply (bool_decide_unpack _); vm_compute; exact I).
  assert (while_quarantined "a" raced reopenedReading) as Hw.
  { apply (run_while_quarantined "a" repaired raced raced (wq_refl _ _)); [|exact Hn|].
    - intros a st st' Ha Hs Hq. rewrite (opening_keeps_store a st st' (repaired_opens a Ha) Hs). exact Hq.
    - exact repaired_runs. }
  assert (st_readers raced !! 3%nat = None) as Hnone by (vm_compute; reflexivity).
  exact (quarantined_name_refused servedReading raced reopenedReading "a" 3 r served_initial raced_reachable Hn Hw Hnone E E2).
Defined.
