(* ===== verification/Sweep.v ===== *)
(** * The watcher's sweep

    internal/watcher: the pass that finds what changed without an event (watcher.go, scrub.go):
    walking the directory in batches, checking every indexed name, deciding what is missing as
    one group (breaker.go), and the status it leaves. The walk, the clock, cancellation and the
    database's answers to the breaker are inputs; indexing runs on the volume. *)

From S2P Require Import Prelude GoStrings Hoare FileMeta Database Names Store RepairQueue Integrity Intents Glob Validate Sync Breaker Transfer Volume Paths Indexing Apply Storage Commits Accounting Writes.

(** ** Skipped names *)

Definition SkipNameCollision : string := "name_collision".
Definition SkipInvalidName : string := "invalid_name".
Definition SkipVanished : string := "vanished".
Definition SkipUnreadable : string := "unreadable".

(** [type skipTally struct]; samples are pairs of reason and name. *)
Record skipTally := mkTally { sk_counts : gmap string Z; sk_samples : list (string * string); sk_seen : gset string }.
Definition emptyTally : skipTally := mkTally ∅ [] ∅.
Definition maxSkipSamples : Z := 10.
Definition maxSkipDedupe : Z := 100000.

(** [func (t *skipTally) add(reason, name string)] *)
Definition tally (reason name : string) (t : skipTally) : skipTally :=
  if bool_decide (name ∈ sk_seen t) then t
  else mkTally (<[reason := default 0 (sk_counts t !! reason) + 1]> (sk_counts t))
         (if Z.of_nat (length (sk_samples t)) <? maxSkipSamples then sk_samples t ++ [(reason, name)] else sk_samples t)
         (if Z.of_nat (size (sk_seen t)) <? maxSkipDedupe then {[name]} ∪ sk_seen t else sk_seen t).

(** [func (t *skipTally) total() int] *)
Definition tallyTotal (t : skipTally) : Z := map_fold (fun _ c n => c + n) 0 (sk_counts t).

(** ** State *)

Inductive serr :=
| SErr (e : verr)          (* from indexing one name or from the store *)
| SStorage (e : verr)      (* storageFault *)
| SCancelled | SScan | SHeld | SBreaker (e : perr) | SPages.

(** How a name was dealt with. *)
Inductive outcome := OIndexed | OUnchanged (seen : Info) | OBusy | OIntegrity | OSkipped (reason : string) | OFault.

(** What the node says of itself. *)
Record Status := mkStatus {
  ss_lastScan : option Z; ss_lastError : option serr; ss_lastSkipped : skipTally; ss_skipTotals : gmap string Z; ss_ready : bool
}.

(** The volume, the breaker, the status and what one sweep carries along. *)
Record Scan := mkScan {
  sn_vol : Vol;
  sn_breaker : Breaker;
  sn_status : Status;
  sn_ctx : list bool;                      (* whether the context is cancelled at each check *)
  sn_deletions : option deletionGroup;
  sn_scanErr : bool;
  sn_integrityErr : bool;
  sn_skips : skipTally;
  sn_log : list (string * outcome)
}.
Abbreviation SN := (SE Scan serr).
Definition sn_world (st : Scan) : World := vo_world (sn_vol st).
Definition set_vol (v : Vol) (st : Scan) : Scan := mkScan v (sn_breaker st) (sn_status st) (sn_ctx st) (sn_deletions st) (sn_scanErr st) (sn_integrityErr st) (sn_skips st) (sn_log st).
Definition set_breaker (b : Breaker) (st : Scan) : Scan := mkScan (sn_vol st) b (sn_status st) (sn_ctx st) (sn_deletions st) (sn_scanErr st) (sn_integrityErr st) (sn_skips st) (sn_log st).
Definition set_status (x : Status) (st : Scan) : Scan := mkScan (sn_vol st) (sn_breaker st) x (sn_ctx st) (sn_deletions st) (sn_scanErr st) (sn_integrityErr st) (sn_skips st) (sn_log st).
Definition set_ctx (l : list bool) (st : Scan) : Scan := mkScan (sn_vol st) (sn_breaker st) (sn_status st) l (sn_deletions st) (sn_scanErr st) (sn_integrityErr st) (sn_skips st) (sn_log st).
Definition set_deletions (g : option deletionGroup) (st : Scan) : Scan := mkScan (sn_vol st) (sn_breaker st) (sn_status st) (sn_ctx st) g (sn_scanErr st) (sn_integrityErr st) (sn_skips st) (sn_log st).
Definition set_scanErr (b : bool) (st : Scan) : Scan := mkScan (sn_vol st) (sn_breaker st) (sn_status st) (sn_ctx st) (sn_deletions st) b (sn_integrityErr st) (sn_skips st) (sn_log st).
Definition set_integrityErr (b : bool) (st : Scan) : Scan := mkScan (sn_vol st) (sn_breaker st) (sn_status st) (sn_ctx st) (sn_deletions st) (sn_scanErr st) b (sn_skips st) (sn_log st).
Definition set_skips (t : skipTally) (st : Scan) : Scan := mkScan (sn_vol st) (sn_breaker st) (sn_status st) (sn_ctx st) (sn_deletions st) (sn_scanErr st) (sn_integrityErr st) t (sn_log st).
Definition set_log (l : list (string * outcome)) (st : Scan) : Scan := mkScan (sn_vol st) (sn_breaker st) (sn_status st) (sn_ctx st) (sn_deletions st) (sn_scanErr st) (sn_integrityErr st) (sn_skips st) l.

Definition inVol {A} (c : V A) : SN A := zoomS sn_vol set_vol SErr c.
Definition onDisk {A} (c : W A) : SN A := inVol (inWorld c).
Definition skip (reason name : string) : SN unit := modifyS (fun st => set_skips (tally reason name (sn_skips st)) st).
Definition note (name : string) (o : outcome) : SN unit := modifyS (fun st => set_log ((name, o) :: sn_log st) st).

(** [ctx.Err()] *)
Definition ctxErr : SN unit :=
  let! st := getS in
  match sn_ctx st with
  | true :: _ => failS SCancelled
  | l => modifyS (set_ctx (tail l))
  end.

(** ** One name *)

(** [func unindexable(err error) string]; which calls fail for want of permission is not told
    apart. *)
Definition unindexable (e : serr) : option string :=
  match e with
  | SErr (VErr (WStore (ENameCollision _ _))) => Some SkipNameCollision
  | SErr (VErr (WStore (EInvalidName _))) => Some SkipInvalidName
  | SErr (VErr WUnreadable) => Some SkipUnreadable
  | _ => None
  end.
Definition isBusy (e : serr) : bool := match e with SErr (VErr WBusy) => true | _ => false end.
Definition isIntegrity (e : serr) : bool := match e with SErr (VErr (WIntegrity _)) => true | _ => false end.

(** The names [deferDeletion] was called with since it was last asked. *)
Definition takeDeferred : SN (list string) :=
  let! st := getS in
  let n := wd_notes (sn_world st) in
  do! onDisk (modifyS (set_notes (mkNotes [] (nt_rescans n) (nt_readErrors n) (nt_restamped n) (nt_revoked n)))) then
  retS (nt_deferred n).

Section Sweep.
Context `{NameFolding} `{TreeRecovery} (sha256Hex : string -> string) (stored : Z -> Z) (granularity : Z).
Context (ignorePatterns : list string) (repairPeers : list string) (now : Z).
Context (mapOrder : gset string -> list string).
Abbreviation prepare := (Commits.prepareStorageLocked sha256Hex stored granularity ignorePatterns repairPeers now mapOrder).
Abbreviation refresh := (refreshFileLocked sha256Hex stored granularity ignorePatterns repairPeers now).
Abbreviation ignored := (shouldIgnore ignorePatterns).

(** [func (w *Watcher) CheckStorage() error] *)
Definition CheckStorage : SN unit := inVol prepare.

(** [func (w *Watcher) scanFileWith(name string, deferDeletion func(string)) error] *)
Definition scanFileWith (name : string) (defer : bool) : SN unit :=
  let! snap := tryS (onDisk (Snapshot sha256Hex name)) in
  let published := match snap with Ok entry => {[name := entry]} | Err _ => ∅ end in
  do! zoomS sn_vol set_vol SStorage prepare then
  onDisk (refresh name (mkOptions false false published false defer)).

(** [func (w *Watcher) sweepKnown(name string, meta *store.FileMeta, deferDeletion func(string)) (bool, error)] *)
Definition sweepKnown (name : string) (meta : option FileMeta) : SN bool :=
  let! damaged := onDisk (NeedsRepair name) in
  let! unchanged := (match meta with
    | Some m =>
        if negb damaged && negb (Deleted m) then
          let! n := tryS (onDisk (lstat name)) in
          retS match n with
               | Ok (Some (NFile i)) =>
                   if (slen (in_bytes i) =? Size m) && SameModTime granularity (in_mtime i) (ModTime m) then Some (infoOf i) else None
               | _ => None
               end
        else retS None
    | None => retS None
    end) in
  match unchanged with
  | Some seen => do! note name (OUnchanged seen) then retS false
  | None =>
    let! st := getS in
    let defer := match sn_deletions st with Some _ => true | None => false end in
    let! r := tryS (scanFileWith name defer) in
    let! missing := takeDeferred in
    do! modifyS (fun st => set_deletions ((fun g => fold_left add missing g) <$> sn_deletions st) st) then
    do! note name (match r with
      | Ok _ => OIndexed
      | Err e => if isIntegrity e then OIntegrity else if isBusy e then OBusy else match unindexable e with Some reason => OSkipped reason | None => OFault end
      end) then
    do! liftS r then
    retS true
  end.

(** ** The walk *)

(** What the walk shows its callback; [EDir] comes with what [Info] of the directory says: its
    filesystem, when the platform knows it. *)
Inductive walkErr := WkVanished | WkUnreadable | WkOther.
Inductive entry := EErr (name : string) (e : walkErr) | EDir (name : string) (device : result walkErr (option Z)) | EFile (name : string).

(** [inspectError] *)
Definition inspectError (name : string) (r : result serr bool) : SN unit :=
  match r with
  | Ok _ => retS tt
  | Err e =>
      if isIntegrity e then modifyS (set_integrityErr true)
      else if isBusy e then retS tt
      else match unindexable e with Some reason => skip reason name | None => modifyS (set_scanErr true) end
  end.

(** [flush] *)
Fixpoint flush_loop (known : gmap string FileMeta) (batch : list string) : SN unit :=
  match batch with
  | [] => retS tt
  | name :: rest =>
      do! ctxErr then
      let! r := tryS (sweepKnown name (known !! name)) in
      do! inspectError name r then
      flush_loop known rest
  end.
Definition flush (batch : list string) : SN unit :=
  match batch with
  | [] => retS tt
  | _ => let! known := onDisk (inStore (GetFilesBatch batch)) in flush_loop known batch
  end.

(** [func checkSameFilesystem(...) error]: whether the directory is skipped. *)
Definition checkSameFilesystem (name : string) (device : result walkErr (option Z)) (rootDevice : Z) : SN bool :=
  match device with
  | Err WkVanished => do! skip SkipVanished name then retS true
  | Err WkUnreadable => do! skip SkipUnreadable name then retS true
  | Err WkOther => do! modifyS (set_scanErr true) then retS true
  | Ok (Some d) => if negb (d =? rootDevice) then do! modifyS (set_scanErr true) then retS true else retS false
  | Ok None => retS false
  end.

Definition batchSize : Z := 256.

(** The callback of the walk, over what is below the root; [root] is what [Info] of the root
    says. *)
Fixpoint walk_loop (queued : string -> bool) (root : option Z) (entries : list entry) (skipped : list string) (batch : list string) : SN (list string) :=
  match entries with
  | [] => retS batch
  | en :: rest =>
      let name := match en with EErr n _ => n | EDir n _ => n | EFile n => n end in
      if existsb (fun d => HasPrefix name (d +:+ "/")) skipped then walk_loop queued root rest skipped batch
      else
        do! ctxErr then
        match en with
        | EErr n WkVanished => do! skip SkipVanished n then walk_loop queued root rest skipped batch
        | EErr n WkUnreadable => do! skip SkipUnreadable n then walk_loop queued root rest skipped batch
        | EErr _ WkOther => do! modifyS (set_scanErr true) then walk_loop queued root rest skipped batch
        | EDir n device =>
            if ignored n then walk_loop queued root rest (n :: skipped) batch
            else match root with
                 | None => walk_loop queued root rest skipped batch
                 | Some rootDevice =>
                     let! out := checkSameFilesystem n device rootDevice in
                     walk_loop queued root rest (if out : bool then n :: skipped else skipped) batch
                 end
        | EFile n =>
            if ignored n || queued n then walk_loop queued root rest skipped batch
            else
              let batch := batch ++ [n] in
              if batchSize <=? Z.of_nat (length batch) then do! flush batch then walk_loop queued root rest skipped []
              else walk_loop queued root rest skipped batch
        end
  end.

(** ** The deletion check *)

Definition deletionPage : Z := 1000.

Fixpoint page_loop (queued : string -> bool) (page : list FileMeta) : SN unit :=
  match page with
  | [] => retS tt
  | meta :: rest =>
      do! ctxErr then
      if ignored (Name meta) || queued (Name meta) then page_loop queued rest
      else
        let! r := tryS (sweepKnown (Name meta) (Some meta)) in
        match r with
        | Ok _ => page_loop queued rest
        | Err e =>
            if isBusy e || isIntegrity e then page_loop queued rest
            else match unindexable e with
                 | Some reason => do! skip reason (Name meta) then page_loop queued rest
                 | None => failS e
                 end
        end
  end.
(** Pages of live rows until there are none; a page moves past its last name. *)
Fixpoint deletion_pages (pages : nat) (queued : string -> bool) (after : string) : SN unit :=
  match pages with
  | O => failS SPages
  | S pages =>
      do! ctxErr then
      let! page := onDisk (inStore (ListNonDeleted after deletionPage)) in
      match page with
      | [] => retS tt
      | first :: _ => do! page_loop queued page then deletion_pages pages queued (Name (List.last page first))
      end
  end.

(** ** Deciding what is missing *)

(** What a volume error means to the breaker. *)
Definition perrOf (e : serr) : perr :=
  if isBusy e then PBusy else if isIntegrity e then PIntegrity else match unindexable e with Some _ => PUnindexable | None => POther end.

(** [func (w *Watcher) publishDeletion(name string) (bool, error)]: what the attempt met. *)
Definition publishDeletion (name : string) : SN attempt :=
  let! s := tryS (inVol prepare) in
  match s with
  | Err _ => retS (mkAttempt false (Ok None) None (Ok None))
  | Ok _ =>
      let! before := tryS (onDisk (inStore (GetFile name))) in
      match before with
      | Err _ => retS (mkAttempt true (Err PDb) None (Ok None))
      | Ok before =>
          if negb (live before) then retS (mkAttempt true (Ok before) None (Ok None))
          else
            let! r := tryS (onDisk (refresh name noOptions)) in
            match r with
            | Err e => retS (mkAttempt true (Ok before) (Some (perrOf e)) (Ok None))
            | Ok _ =>
                let! after := tryS (onDisk (inStore (GetFile name))) in
                retS (mkAttempt true (Ok before) None (match after with Ok x => Ok x | Err _ => Err PDb end))
            end
      end
  end.

(** [func (w *Watcher) publishDeletions(ctx context.Context, names []string) (int, error)]: the
    attempts, up to the one that ends it. *)
Fixpoint publish_loop (ctx : list bool) (names : list string) (tried : gmap string attempt) : SN (gmap string attempt) :=
  match names with
  | [] => retS tried
  | name :: rest =>
      match ctx with
      | true :: _ => retS tried
      | _ =>
          let! a := publishDeletion name in
          let tried := <[name := a]> tried in
          if tolerated (Breaker.publishDeletion a).2 then publish_loop (tail ctx) rest tried else retS tried
      end
  end.

(** The clock and the database as the decision meets them. *)
Record decision := mkDecision { dc_now1 : Z; dc_now2 : Z; dc_now3 : Z; dc_readOk : bool; dc_writeOk : bool }.
Definition untried : attempt := mkAttempt false (Ok None) None (Ok None).

(** Whether a group would be published: the decision of [settleDeletions]. *)
Definition publishes (d : decision) (g : deletionGroup) (authoritative : bool) (b : Breaker) : bool :=
  let '(used, b') := publishedInWindowLocked (dc_now1 d) (loadDeletionWindowLocked (dc_readOk d) b) in
  negb (dg_count g =? 0) && negb (negb authoritative && (0 <? bk_held b')) && negb ((0 <? bk_limit b) && (bk_limit b - used <? dg_count g)).

(** [func (w *Watcher) settleDeletions(ctx context.Context, group *deletionGroup, authoritative bool) error]
    with the publications it makes on the volume. *)
Definition settleOnVolume (d : decision) (g : deletionGroup) (authoritative : bool) : SN (option perr) :=
  let! st := getS in
  let b := sn_breaker st in
  let! tried := publish_loop (sn_ctx st) (if publishes d g authoritative b then dg_names g else []) ∅ in
  let '(_, err, b') := Breaker.settleDeletions
    (Breaker.mkWorld (dc_now1 d) (dc_now2 d) (dc_now3 d) (dc_readOk d) (dc_writeOk d) (sn_ctx st) (fun n => default untried (tried !! n))) (Some g) authoritative b in
  do! modifyS (set_breaker b') then
  retS err.

(** ** The sweep *)

(** The body of [sweep]: whether the deletions were held. *)
Definition sweep_body (d : decision) (queued : string -> bool) (root : option Z) (rootErr : bool) (entries : list entry) (pages : nat) : SN bool :=
  do! CheckStorage then
  do! modifyS (fun st => set_deletions (sweepDeletions (sn_breaker st)) st) then
  do! ctxErr then
  do! (if rootErr : bool then modifyS (set_scanErr true) else retS tt) then
  let! batch := walk_loop queued root entries [] [] in
  let! st := getS in
  do! (if sn_scanErr st then failS SScan else retS tt) then
  do! flush batch then
  let! st := getS in
  do! (if sn_scanErr st then failS SScan else retS tt) then
  do! deletion_pages pages queued "" then
  do! CheckStorage then
  let! st := getS in
  match sn_deletions st with
  | None => do! modifyS (fun st => set_breaker (bk_set_held 0 (sn_breaker st)) st) then retS false
  | Some g =>
      let '(events, b) := takeEventDeletions (sn_breaker st) in
      do! modifyS (set_breaker b) then
      let! err := settleOnVolume d (merge g events) true in
      match err with
      | None => retS false
      | Some PHeld => retS true
      | Some e => failS (SBreaker e)
      end
  end.

(** [func (w *Watcher) sweep(ctx context.Context, queued func(string) bool) (result error)] *)
Definition finished (at_ : Z) (held : bool) (st : Scan) : Scan :=
  let s := sn_status st in
  set_status (mkStatus (Some at_) None (sn_skips st) (union_with (fun a b => Some (a + b)) (ss_skipTotals s) (sk_counts (sn_skips st)))
    (ss_ready s || negb held)) st.
Definition failed (e : serr) (st : Scan) : Scan :=
  let s := sn_status st in set_status (mkStatus (ss_lastScan s) (Some e) (ss_lastSkipped s) (ss_skipTotals s) (ss_ready s)) st.
Definition beginSweep (st : Scan) : Scan :=
  mkScan (sn_vol st) (sn_breaker st) (sn_status st) (sn_ctx st) None false false emptyTally [].
Definition sweep (d : decision) (queued : string -> bool) (root : option Z) (rootErr : bool) (entries : list entry) (pages : nat) : SN unit :=
  do! modifyS beginSweep then
  let! r := tryS (sweep_body d queued root rootErr entries pages) in
  match r with
  | Err e => do! modifyS (failed e) then failS e
  | Ok held =>
      do! modifyS (finished now held) then
      let! st := getS in
      if held : bool then failS SHeld else if sn_integrityErr st then failS (SErr (VErr (WIntegrity ""))) else retS tt
  end.
End Sweep.

(** ** Recovery of replacements *)

(** [func isReplacementJournal(name string) bool], of an entry of [.birak/transactions]. *)
Definition isReplacementJournal (name : string) : bool :=
  (Dir name =s ".birak/transactions") && HasPrefix name ".birak/transactions/replace-" && HasSuffix name ".json".
Definition noJournal (t : gmap string node) : Prop := forall n, isReplacementJournal n = true -> t !! n = None.

(** What a pass relies on of [RecoverLocked]: it has no business with the tables, it only looks
    when no journal is there, and it passes only when it has finished with every journal. *)
Class JournalLaws `{!TreeRecovery} : Prop := {
  jl_store : forall w, wd_store (RecoverLocked w).2 = wd_store w;
  jl_idle : forall w, noJournal (wd_tree w) -> quiet w (RecoverLocked w).2;
  jl_done : forall w w', RecoverLocked w = (Ok tt, w') -> noJournal (wd_tree w')
}.

Lemma noJournal_steady w w' : steady w w' -> noJournal (wd_tree w) -> noJournal (wd_tree w').
Proof. intros Hs Hj n Hn. pose proof (sy_entry _ _ Hs n) as He. unfold heldAt in He. by rewrite (Hj n Hn) in He. Qed.

(** ** Validating storage again *)

(** Once the volume is bound and measured and interrupted commits are settled, validation only
    looks. *)
Definition ready (v : Vol) : Prop := vo_recovered v = true /\ is_Some (vo_storageID v) /\ is_Some (vo_measured v).
Record calmly (v v' : Vol) : Prop := mkCalmly {
  ca_quiet : quiet (vo_world v) (vo_world v');
  ca_recovered : vo_recovered v' = vo_recovered v;
  ca_bound : vo_storageID v' = vo_storageID v;
  ca_measured : vo_measured v' = vo_measured v
}.
#[export] Instance calmly_preorder : PreOrder calmly.
Proof. split; [intros v; by split|]. intros v1 v2 v3 [] []. split; [by etrans|congruence..]. Qed.
Lemma calmly_inWorld {A} (c : W A) : keeps quiet c -> keeps calmly (inWorld c).
Proof. intros Hc v. specialize (Hc (vo_world v)). unfold inWorld, zoomS. destruct (c (vo_world v)) as [r w]. by split. Qed.
Lemma calmly_try {A} (c : V A) : keeps calmly c -> keeps calmly (tryS c).
Proof. intros Hc v. specialize (Hc v). unfold tryS. by destruct (c v). Qed.
Lemma calmly_storageMarker : keeps calmly storageMarker.
Proof.
  pose proof (calmly_inWorld _ quiet_sysW) as K1. pose proof (fun p => calmly_inWorld _ (quiet_lstat p)) as K2. pose proof (fun p => calmly_try _ (K2 p)) as K3. unfold storageMarker. still.
Qed.
Lemma calmly_checkVolume id : keeps calmly (checkVolume id).
Proof. pose proof (calmly_inWorld _ quiet_sysW) as K1. pose proof calmly_storageMarker. unfold checkVolume, readMarker. still. Qed.

Section Validation.
Context `{NameFolding} `{TreeRecovery} (sha256Hex : string -> string) (stored : Z -> Z) (granularity : Z).
Context (ignorePatterns : list string) (repairPeers : list string) (now : Z).
Context (mapOrder : gset string -> list string).
Abbreviation prepare := (Commits.prepareStorageLocked sha256Hex stored granularity ignorePatterns repairPeers now mapOrder).

Context {journal_laws : JournalLaws}.

Lemma calmly_journal v v' : calmly v v' -> noJournal (wd_tree (vo_world v)) -> noJournal (wd_tree (vo_world v')).
Proof. intros K. apply noJournal_steady, (ca_quiet _ _ K). Qed.

Lemma prepare_calm v : ready v -> noJournal (wd_tree (vo_world v)) -> calmly v (prepare v).2.
Proof.
  intros (Hr & [id Hi] & [g Hg]) Hj. unfold Commits.prepareStorageLocked, bindS, tryS.
  assert (calmly v (validateStorageLocked sha256Hex stored granularity ignorePatterns repairPeers now mapOrder v).2) as Hv.
  2:{ destruct (validateStorageLocked _ _ _ _ _ _ _ v) as [r v1]. cbn in *. destruct Hv. destruct r; by split. }
  unfold validateStorageLocked, checkStorageLocked, checkBindingLocked, bindS. cbn [getS]. rewrite Hi. pose proof (calmly_checkVolume id v) as K. destruct (checkVolume id v) as [[[]|e] v1]; cbn in K; [|done].
  rewrite (ca_measured _ _ K), Hg. cbn [retS]. assert (calmly v1 (inWorld RecoverLocked v1).2) as K2.
  { pose proof (jl_idle (vo_world v1) (calmly_journal _ _ K Hj)) as Q. unfold inWorld, zoomS. destruct (RecoverLocked (vo_world v1)) as [r w]. cbn in Q. by split. }
  destruct (inWorld RecoverLocked v1) as [[[]|e] v2]; cbn in K2; [|by trans v1]. cbn.
  assert (vo_recovered v2 = true) as -> by (destruct K, K2; congruence). by trans v1.
Qed.
Lemma calmly_ready v v' : calmly v v' -> ready v -> ready v'.
Proof. intros [_ E1 E2 E3] (R1 & R2 & R3). unfold ready. by rewrite E1, E2, E3. Qed.

(** A validation that passes leaves the volume bound and nothing to settle. *)
Lemma bind_bound v v' : checkStorageLocked ignorePatterns now stored v = (Ok tt, v') -> is_Some (vo_storageID v') /\ is_Some (vo_measured v').
Proof.
  intros R. apply checkStorage_run in R as (v2 & R & Hm). assert (is_Some (vo_storageID v2)) as Hb.
  2:{ destruct Hm as [[-> Hm]|(_ & _ & Rm)]; [by split; [|apply Hm]|]. destruct (measure_run now stored v2) as (g & v3 & E & _ & Es & Eg & _). rewrite Rm in E. injection E as <-. rewrite Es, Eg. by split. }
  clear Hm v'. rename v2 into v'. revert R. unfold checkBindingLocked. intros R. apply bindS_Ok in R as (v0 & v0' & R0 & R). injection R0 as <- <-.
  assert (forall id v1, vo_storageID v1 = Some id -> checkVolume id v1 = (Ok tt, v') -> is_Some (vo_storageID v')) as Hc.
  { intros id v1 E R1. pose proof (calmly_checkVolume id v1) as [_ _ K _]. rewrite R1 in K. cbn in K. rewrite K, E. by eexists. }
  destruct (vo_storageID v) as [id|] eqn:Ei; [by eapply Hc|]. apply bindS_Ok in R as (id & v1 & _ & R). destruct (negb (id =s "")).
  - apply bindS_Ok in R as ([] & v2 & R2 & R). injection R2 as <-. eapply (Hc id); [|exact R]; done.
  - unfold bindVolumeLocked in R. apply bindS_Ok in R as ([] & v2 & _ & R). apply bindS_Ok in R as (data & v3 & _ & R). apply bindS_Ok in R as (id' & v4 & _ & R).
    apply bindS_Ok in R as ([] & v5 & _ & R). injection R as <-. by eexists.
Qed.
Lemma prepare_ready v v' : prepare v = (Ok tt, v') -> ready v'.
Proof.
  unfold Commits.prepareStorageLocked. intros R. apply bindS_Ok in R as (r & v1 & R1 & R). apply bindS_Ok in R as ([] & v2 & R2 & R). injection R2 as <-.
  unfold liftS in R. injection R as -> <-. unfold tryS in R1. destruct (validateStorageLocked _ _ _ _ _ _ _ v) as [r1 v1'] eqn:R1'. injection R1 as -> ->. rename R1' into R1. unfold validateStorageLocked in R1. apply bindS_Ok in R1 as ([] & v2 & R2 & R1). apply bind_bound in R2.
  apply bindS_Ok in R1 as ([] & v3 & R3 & R1). apply inWorld_Ok in R3 as (w3 & _ & ->). apply bindS_Ok in R1 as (v4 & v4' & R4 & R1). injection R4 as <- <-.
  destruct (vo_recovered (set_world w3 v2)) eqn:Er.
  - injection R1 as <-. by split.
  - apply bindS_Ok in R1 as ([] & v5 & R5 & R1). apply inWorld_Ok in R5 as (w5 & _ & ->). injection R1 as <-. by split.
Qed.
End Validation.

(** ** What a step of the sweep keeps *)

Section Keeps.
Context `{NameFolding} (sha256Hex : string -> string).
Abbreviation adv := (advances sha256Hex).

Record sound (st : Scan) : Prop := mkSound {
  so_ready : ready (sn_vol st);
  so_named : intents_named (db (wd_store (sn_world st)));
  so_keyed : well_keyed (db (wd_store (sn_world st)));
  so_journal : noJournal (wd_tree (sn_world st));
  so_group : match sn_deletions st with Some g => exists given, group_ok given g | None => True end
}.

(** A name whose absence the group knows of. *)
Definition handed (name : string) (st : Scan) : Prop :=
  exists g, sn_deletions st = Some g /\ exists given, group_ok given g /\ name ∈ given.

Record sweeping (st st' : Scan) : Prop := mkSweeping {
  sw_sound : sound st';
  sw_adv : adv (sn_world st) (sn_world st');
  sw_log : forall x, x ∈ sn_log st -> x ∈ sn_log st';
  sw_err : sn_scanErr st = true -> sn_scanErr st' = true;
  sw_handed : forall n, handed n st -> handed n st';
  sw_breaker : sn_breaker st' = sn_breaker st;
  sw_status : sn_status st' = sn_status st;
  sw_mode : sn_deletions st = None <-> sn_deletions st' = None
}.
Definition sweeps (st st' : Scan) : Prop := sound st -> sweeping st st'.
Lemma sweeping_trans st1 st2 st3 : sweeping st1 st2 -> sweeping st2 st3 -> sweeping st1 st3.
Proof. intros [S1 ?????? M1] [?????? ? M2]. split; try (by auto); [by etrans|congruence|congruence|]. by rewrite M1. Qed.
Lemma sweeping_refl st : sound st -> sweeping st st.
Proof. intros Hs. split; try done; reflexivity. Qed.
#[export] Instance sweeps_preorder : PreOrder sweeps.
Proof.
  split; [intros st Hs; by apply sweeping_refl|]. intros st1 st2 st3 H1 H2 Hs. pose proof (H1 Hs) as S1. eapply sweeping_trans; [done|]. apply H2, S1.
Qed.

Lemma sweeps_quiet {A} (c : V A) : (forall v, ready v -> noJournal (wd_tree (vo_world v)) -> calmly v (c v).2) -> keeps sweeps (inVol c).
Proof.
  intros Hc st Hs. unfold inVol, zoomS. specialize (Hc (sn_vol st) (so_ready _ Hs) (so_journal _ Hs)). destruct (c (sn_vol st)) as [r v]. cbn in Hc.
  pose proof (quiet_advances sha256Hex _ _ (ca_quiet _ _ Hc)) as Ha. assert (sweeping st (set_vol v st)); [|by destruct r].
  split; try done. split; [by eapply calmly_ready; [|apply Hs]|eapply adv_named; [exact Ha|apply Hs]|apply Ha, Hs|eapply noJournal_steady; [apply Ha|apply Hs]|apply Hs].
Qed.
Lemma sweeps_disk {A} (c : W A) : keeps quiet c -> keeps sweeps (onDisk c).
Proof. intros Hc. apply sweeps_quiet. intros v _ _. by apply calmly_inWorld. Qed.
Lemma sweeps_adv {A} (c : W A) : (forall w, intents_named (db (wd_store w)) -> adv w (c w).2) -> keeps sweeps (onDisk c).
Proof.
  intros Hc st Hs. unfold onDisk, inVol, inWorld, zoomS. specialize (Hc (vo_world (sn_vol st)) (so_named _ Hs)). destruct (c (vo_world (sn_vol st))) as [r w]. cbn in Hc.
  assert (sweeping st (set_vol (set_world w (sn_vol st)) st)); [|by destruct r].
  split; try done. split; [apply Hs|eapply adv_named; [exact Hc|apply Hs]|apply Hc, Hs|eapply noJournal_steady; [apply Hc|apply Hs]|apply Hs].
Qed.
Lemma sweeps_try {A} (c : SN A) : keeps sweeps c -> keeps sweeps (tryS c).
Proof. intros Hc st. specialize (Hc st). unfold tryS. by destruct (c st). Qed.
Lemma sweeps_modify f : (forall st, sn_vol (f st) = sn_vol st /\ sn_deletions (f st) = sn_deletions st /\ sn_breaker (f st) = sn_breaker st /\ sn_status (f st) = sn_status st /\
  (forall x, x ∈ sn_log st -> x ∈ sn_log (f st)) /\ (sn_scanErr st = true -> sn_scanErr (f st) = true)) -> keeps sweeps (modifyS f : SN unit).
Proof.
  intros Hf st [S1 S2 S3 S5 S4]. destruct (Hf st) as (E1 & E2 & E3 & E4 & E5 & E6). cbn. split; try done; unfold sn_world, handed; rewrite ?E1, ?E2; try done.
  split; unfold sn_world; by rewrite ?E1, ?E2.
Qed.
Lemma sweeps_ctx : keeps sweeps ctxErr.
Proof.
  unfold ctxErr. apply keeps_bind; [apply _|apply keeps_get, _|]. intros st. destruct (sn_ctx st) as [|[] l]; [|apply keeps_fail, _|]; apply sweeps_modify; intros st'; by split_and!.
Qed.
Lemma sweeps_skip reason name : keeps sweeps (skip reason name).
Proof. apply sweeps_modify. intros st. by split_and!. Qed.
Lemma sweeps_note name o : keeps sweeps (note name o).
Proof. apply sweeps_modify. intros st. split_and!; try done. intros x Hx. cbn. by right. Qed.
Lemma sweeps_scanErr : keeps sweeps (modifyS (set_scanErr true) : SN unit).
Proof. apply sweeps_modify. intros st. by split_and!. Qed.
Lemma sweeps_integrityErr : keeps sweeps (modifyS (set_integrityErr true) : SN unit).
Proof. apply sweeps_modify. intros st. by split_and!. Qed.
Lemma sweeps_add names : keeps sweeps (modifyS (fun st => set_deletions ((fun g => fold_left add names g) <$> sn_deletions st) st) : SN unit).
Proof.
  intros st [S1 S2 S3 S5 S4]. cbn. split; try done; cbn.
  - split; try done. cbn. destruct (sn_deletions st) as [g|]; [|done]. cbn. destruct S4 as [given Hg]. exists (names ++ given). by apply group_ok_adds.
  - intros n (g & E & given & Hg & Hn). exists (fold_left add names g). cbn. rewrite E. split; [done|]. exists (names ++ given). split; [by apply group_ok_adds|set_solver].
  - by destruct (sn_deletions st).
Qed.
Lemma sweeps_takeDeferred : keeps sweeps takeDeferred.
Proof.
  unfold takeDeferred. apply keeps_bind; [apply _|apply keeps_get, _|]. intros st. cbv zeta. apply keeps_bind; [apply _| |intros _; apply keeps_ret, _]. apply sweeps_disk, (quiet_notes (fun _ => _)).
Qed.
End Keeps.

(** A part of the state that a step leaves alone. *)
Definition fieldKept {X} (f : Scan -> X) (st st' : Scan) : Prop := f st' = f st.
#[export] Instance fieldKept_preorder {X} (f : Scan -> X) : PreOrder (fieldKept f).
Proof. split; [done|]. intros st1 st2 st3 H1 H2. unfold fieldKept in *. congruence. Qed.
Lemma fieldKept_zoom {X A} (f : Scan -> X) (g : verr -> serr) (c : V A) : (forall v st, f (set_vol v st) = f st) -> keeps (fieldKept f) (zoomS sn_vol set_vol g c).
Proof. intros Hf st. unfold zoomS. destruct (c (sn_vol st)) as [r v]. apply (Hf v st). Qed.
Lemma fieldKept_try {X A} (f : Scan -> X) (c : SN A) : keeps (fieldKept f) c -> keeps (fieldKept f) (tryS c).
Proof. intros Hc st. specialize (Hc st). unfold tryS. by destruct (c st). Qed.
Lemma fieldKept_modify {X} (f : Scan -> X) g : (forall st, f (g st) = f st) -> keeps (fieldKept f) (modifyS g : SN unit).
Proof. intros Hf st. apply Hf. Qed.
Ltac follow_err := repeat first
  [ by apply fieldKept_zoom | apply fieldKept_try | apply keeps_ret, _ | apply keeps_fail, _ | apply keeps_get, _ | apply keeps_lift, _ | by apply fieldKept_modify
  | apply keeps_bind; [apply _| |intros ?] | progress cbv zeta | match goal with |- keeps _ (match ?x with _ => _ end) => destruct x end ].

Section Run.
Context `{NameFolding} `{TreeRecovery} (sha256Hex : string -> string) (stored : Z -> Z) (granularity : Z).
Context (ignorePatterns : list string) (repairPeers : list string) (now : Z).
Context (mapOrder : gset string -> list string) (mapOrder_elem : forall N n, n ∈ mapOrder N <-> n ∈ N).
Context {journal_laws : JournalLaws}.
Abbreviation adv := (advances sha256Hex).
Abbreviation steps := (sweeps sha256Hex).
Abbreviation prepare := (Commits.prepareStorageLocked sha256Hex stored granularity ignorePatterns repairPeers now mapOrder).
Abbreviation refresh := (refreshFileLocked sha256Hex stored granularity ignorePatterns repairPeers now).
Abbreviation scan := (scanFileWith sha256Hex stored granularity ignorePatterns repairPeers now mapOrder).
Abbreviation known := (sweepKnown sha256Hex stored granularity ignorePatterns repairPeers now mapOrder).

Lemma sweeping_world st v : sound st -> ready v -> adv (sn_world st) (vo_world v) -> sweeping sha256Hex st (set_vol v st).
Proof. intros Hs Hr Ha. split; try done. split; [done|eapply adv_named; [exact Ha|apply Hs]|apply Ha, Hs|eapply noJournal_steady; [apply Ha|apply Hs]|apply Hs]. Qed.

Lemma Snapshot_sure name w : hashes_sure sha256Hex (mkOptions false false (match (Snapshot sha256Hex name w).1 with Ok entry => {[name := entry]} | Err _ => ∅ end) false false) (Snapshot sha256Hex name w).2.
Proof.
  pose proof (Snapshot_tree sha256Hex name w) as T. destruct (Snapshot sha256Hex name w) as [[[info hash]|e] w'] eqn:R; cbn in *; intros n x y i E Hn _ _; cbn in E; [|by rewrite lookup_empty in E].
  apply lookup_singleton_Some in E as [<- [= <- <-]]. rewrite T in Hn. apply Snapshot_Ok in R as (j & Ej & _ & ->); [|by rewrite Hn]. rewrite Hn in Ej. by injection Ej as <-.
Qed.
Lemma sure_options opts opts' w : io_published opts = io_published opts' -> hashes_sure sha256Hex opts w -> hashes_sure sha256Hex opts' w.
Proof. unfold hashes_sure. by intros ->. Qed.

Lemma scan_spec name defer st : sound st ->
  sweeping sha256Hex st (scan name defer st).2 /\ ((scan name defer st).1 = Ok tt -> watched ignorePatterns name ->
    indexedAt sha256Hex name (sn_world (scan name defer st).2) \/
    (defer = true /\ wd_tree (sn_world (scan name defer st).2) !! name = None /\ name ∈ nt_deferred (wd_notes (sn_world (scan name defer st).2)))).
Proof.
  intros Hs. unfold scanFileWith. unfold bindS, tryS, onDisk, inVol, inWorld, zoomS. pose proof (Snapshot_sure name (vo_world (sn_vol st))) as Hsure.
  pose proof (quiet_Snapshot sha256Hex name (vo_world (sn_vol st))) as Q. destruct (Snapshot sha256Hex name (vo_world (sn_vol st))) as [r1 w1]; cbn in Hsure, Q. cbv zeta.
  set (r1' := match (match r1 with Ok a => Ok a | Err e => Err (VErr e) end) with Ok a => Ok a | Err e => Err (SErr e) end : result serr (Info * string)).
  assert (match r1' with Ok entry => {[name := entry]} | Err _ => ∅ end = match r1 with Ok entry => {[name := entry]} | Err _ => ∅ end :> gmap string (Info * string)) as -> by by destruct r1.
  set (published := match r1 with Ok entry => {[name := entry]} | Err _ => ∅ end) in *. cbn [sn_vol set_vol].
  pose proof (prepare_calm sha256Hex stored granularity ignorePatterns repairPeers now mapOrder (set_world w1 (sn_vol st)) (so_ready _ Hs) (noJournal_steady _ _ (proj1 Q) (so_journal _ Hs))) as K2.
  apply (quiet_advances sha256Hex) in Q. destruct (prepare (set_world w1 (sn_vol st))) as [[[]|e] v2]; cbn in K2; pose proof (quiet_advances sha256Hex _ _ (ca_quiet _ _ K2)) as A2; cbn in A2.
  2:{ split; [|done]. apply (sweeping_world st v2); [done|exact (calmly_ready _ _ K2 (so_ready _ Hs))|by etrans]. }
  assert (adv (sn_world st) (vo_world v2)) as A by by etrans. assert (intents_named (db (wd_store (vo_world v2)))) as Hn by (eapply adv_named; [exact A|apply Hs]).
  assert (hashes_sure sha256Hex (mkOptions false false published false defer) (vo_world v2)) as Hp by (eapply sure_adv; [exact A2|]; by apply (sure_options (mkOptions false false published false false))).
  cbn [sn_vol set_vol]. destruct (refresh_indexes sha256Hex stored granularity ignorePatterns repairPeers now name _ _ Hn Hp) as [A3 I3].
  destruct (refresh name (mkOptions false false published false defer) (vo_world v2)) as [r3 w3]; cbn in A3, I3.
  assert (sweeping sha256Hex st (set_vol (set_world w3 v2) st)) as Hsw.
  { apply sweeping_world; [done| |by etrans]. exact (calmly_ready _ _ K2 (so_ready _ Hs)). }
  destruct r3 as [[]|e]; cbn; (split; [done|]); [|done]. intros _ Hw. destruct (I3 eq_refl eq_refl Hw) as [?|?]; [by left|by right].
Qed.

(** The outcome a name is logged with. *)
Definition outcomeOf (r : result serr unit) : outcome :=
  match r with
  | Ok _ => OIndexed
  | Err e => if isIntegrity e then OIntegrity else if isBusy e then OBusy else match unindexable e with Some reason => OSkipped reason | None => OFault end
  end.

(** The name's row and its file agree: in size, and the row's time is the one the file was seen
    with, as the volume keeps times; it is the file that was seen, with the size it had. *)
Definition agrees (n : string) (seen : Info) (w : World) : Prop :=
  exists i r, wd_tree w !! n = Some (NFile i) /\ rowsOf w !! n = Some r /\ Deleted r = false /\ slen (in_bytes i) = Size r /\
    fi_dev seen = in_dev i /\ fi_ino seen = in_ino i /\ fi_size seen = Size r /\ SameModTime granularity (fi_mtime seen) (ModTime r) = true.
(** A row read earlier is still the name's row, unless the name was indexed since. *)
Definition current (n : string) (meta : option FileMeta) (w : World) : Prop :=
  match meta with Some m => rowsOf w !! n = Some m \/ indexedAt sha256Hex n w | None => True end.
Lemma agrees_adv n seen w w' : adv w w' -> indexedAt sha256Hex n w \/ agrees n seen w -> indexedAt sha256Hex n w' \/ agrees n seen w'.
Proof.
  intros A [Hi|(i & r & Ei & Er & Hd & Hz & H1 & H2 & H3 & H4)]; [left; by apply A|]. destruct (ad_row _ _ _ A n) as [E|?]; [right|by left].
  pose proof (sy_entry _ _ (ad_steady _ _ _ A) n) as He. unfold heldAt in He. rewrite Ei in He. destruct He as (i' & Ei' & Hb & Hsf & _). apply sameFile_spec in Hsf as [D1 D2]. exists i', r. rewrite E, Hb. split_and!; congruence.
Qed.
Lemma current_adv n meta w w' : adv w w' -> current n meta w -> current n meta w'.
Proof.
  intros A. destruct meta as [m|]; [|done]. cbn. intros [E|?]; [|right; by apply A]. destruct (ad_row _ _ _ A n) as [E'|?]; [left; by rewrite E'|by right].
Qed.

(** What is known of a name once it is in the log. *)
Definition dealt (st : Scan) (x : string * outcome) : Prop :=
  match x.2 with
  | OIndexed => watched ignorePatterns x.1 -> indexedAt sha256Hex x.1 (sn_world st) \/ (wd_tree (sn_world st) !! x.1 = None /\ handed x.1 st)
  | OUnchanged seen => indexedAt sha256Hex x.1 (sn_world st) \/ agrees x.1 seen (sn_world st)
  | _ => True
  end.
Lemma dealt_mono st st' x : sweeping sha256Hex st st' -> dealt st x -> dealt st' x.
Proof.
  intros Hs. unfold dealt. destruct x as [n []]; cbn; try done.
  - intros Hd Hw. destruct (Hd Hw) as [?|[Ht ?]]; [left; by apply Hs|right]. split; [|by apply Hs]. pose proof (sy_entry _ _ (ad_steady _ _ _ (sw_adv _ _ _ Hs)) n) as He. unfold heldAt in He. by rewrite Ht in He.
  - apply agrees_adv, Hs.
Qed.

Lemma scan_vol name defer st : exists v, (scan name defer st).2 = set_vol v st.
Proof.
  unfold scanFileWith, bindS, tryS, onDisk, inVol, inWorld, zoomS. destruct (Snapshot sha256Hex name (vo_world (sn_vol st))) as [r1 w1]. cbv zeta. cbn [sn_vol set_vol].
  destruct (prepare (set_world w1 (sn_vol st))) as [[[]|e] v2]; [|by eexists]. cbn [sn_vol set_vol].
  match goal with |- context [refresh ?a ?b ?c] => destruct (refresh a b c) as [[[]|e] w3] end; by eexists.
Qed.

(** One name: it is logged with what is true of it. *)
Lemma known_spec name meta st r st' : sound st -> current name meta (sn_world st) -> known name meta st = (r, st') ->
  sweeping sha256Hex st st' /\ sn_scanErr st' = sn_scanErr st /\ exists o, sn_log st' = (name, o) :: sn_log st /\ dealt st' (name, o) /\
    match r with Ok _ => o <> OFault | Err e => o = outcomeOf (Err e) end.
Proof.
  intros Hs Hcur R. unfold sweepKnown in R. unfold bindS at 1 in R. cbn [onDisk inVol inWorld zoomS NeedsRepair getStore bindS getS retS] in R.
  set (w0 := vo_world (sn_vol st)) in *. assert (set_vol (set_world w0 (sn_vol st)) st = st) as E0 by by destruct st as [[] ? ? ? ? ? ? ? ?]. rewrite E0 in R. clear E0.
  set (c := match meta with Some m => _ | None => _ end) in R.
  assert (exists b st1, c st = (Ok b, st1) /\ sweeping sha256Hex st st1 /\ sn_log st1 = sn_log st /\ sn_scanErr st1 = sn_scanErr st /\
    (forall seen, b = Some seen -> exists m i, meta = Some m /\ Deleted m = false /\ wd_tree (sn_world st1) !! name = Some (NFile i) /\ slen (in_bytes i) = Size m /\
       SameModTime granularity (in_mtime i) (ModTime m) = true /\ seen = infoOf i)) as (b & st1 & Ec & S1 & L1 & F1 & Hb).
  { assert (forall b, b = None -> exists b' st1, (retS b : SN (option Info)) st = (Ok b', st1) /\ sweeping sha256Hex st st1 /\ sn_log st1 = sn_log st /\ sn_scanErr st1 = sn_scanErr st /\
      (forall seen, b' = Some seen -> exists m i, meta = Some m /\ Deleted m = false /\ wd_tree (sn_world st1) !! name = Some (NFile i) /\ slen (in_bytes i) = Size m /\
         SameModTime granularity (in_mtime i) (ModTime m) = true /\ seen = infoOf i)) as Hf
      by (intros b ->; exists None, st; split; [done|]; split; [by apply sweeping_refl|done]).
    unfold c. destruct meta as [m|]; [|by apply Hf]. destruct (negb _ && negb (Deleted m)) eqn:Em; [|by apply Hf]. apply andb_true_iff in Em as [_ Em]. apply negb_true_iff in Em.
    unfold bindS, tryS, onDisk, inVol, inWorld, zoomS. pose proof (quiet_lstat name (vo_world (sn_vol st))) as Q. destruct (lstat name (vo_world (sn_vol st))) as [rl wl] eqn:El; cbn in Q.
    eexists _, (set_vol (set_world wl (sn_vol st)) st). split; [reflexivity|]. split; [apply sweeping_world; [done|apply Hs|by apply quiet_advances]|]. split; [done|]. split; [done|].
    destruct rl as [x|e]; [|done]. apply lstat_Ok in El as [-> T]. destruct (wd_tree (vo_world (sn_vol st)) !! name) as [[i| | |]|] eqn:Et; try done. intros seen Hb. destruct (_ && _) eqn:Hc; [|done]. injection Hb as <-. apply andb_true_iff in Hc as [Hz Hst]. apply Z.eqb_eq in Hz.
    exists m, i. unfold sn_world. cbn. by rewrite T. }
  unfold bindS at 1 in R. rewrite Ec in R. clear c Ec. destruct b as [seen|].
  { destruct (Hb seen eq_refl) as (m & i & -> & Hd & Et & Hz & Hst & ->). cbn in R. injection R as <- <-. set (seen := infoOf i) in *.
    assert (sweeping sha256Hex st (set_log ((name, OUnchanged seen) :: sn_log st1) st1)) as S2 by exact (sweeping_trans _ _ _ _ S1 (sweeps_note sha256Hex name (OUnchanged seen) st1 (sw_sound _ _ _ S1))).
    split; [done|]. split; [done|]. exists (OUnchanged seen). cbn. rewrite L1. split; [done|]. split; [|done]. unfold dealt. cbn.
    apply (current_adv _ _ _ _ (sw_adv _ _ _ S1)) in Hcur as [Er|?]; [right; exists i, m; by repeat split|by left]. }
  clear Hb. unfold bindS at 1 in R. cbn [getS] in R. cbv zeta in R. set (defer := match sn_deletions st1 with Some _ => true | None => false end) in R.
  destruct (scan_spec name defer st1 (sw_sound _ _ _ S1)) as [S2 I2]. destruct (scan_vol name defer st1) as [v2 E2].
  unfold bindS at 1 in R. unfold tryS at 1 in R. destruct (scan name defer st1) as [r2 st2]; cbn in S2, I2, E2. subst st2.
  unfold takeDeferred in R. cbn [bindS getS onDisk inVol inWorld zoomS modifyS retS] in R. cbn [sn_vol set_vol vo_world set_world] in R. unfold sn_world in R. cbn [sn_vol set_vol] in R.
  set (names := nt_deferred (wd_notes (vo_world v2))) in R. set (v3 := set_world _ v2) in R.
  set (st3 := set_log ((name, outcomeOf r2) :: sn_log st1) (set_deletions ((fun g => fold_left add names g) <$> sn_deletions st1) (set_vol v3 (set_vol v2 st1)))). assert (st' = st3 /\ match r with Ok _ => r2 = Ok tt | Err e => r2 = Err e end) as [-> Er].
  { unfold note in R. cbn [bindS modifyS liftS retS] in R. destruct r2 as [[]|e]; cbn in R; injection R as <- <-; done. }
  assert (sweeping sha256Hex (set_vol v2 st1) (set_vol v3 (set_vol v2 st1))) as S3.
  { apply sweeping_world; [apply S2|apply S2|]. apply quiet_advances. apply (quiet_notes (fun _ => _)). }
  pose proof (sweeps_add sha256Hex names (set_vol v3 (set_vol v2 st1)) (sw_sound _ _ _ S3)) as S4. cbn [snd modifyS] in S4.
  pose proof (sweeps_note sha256Hex name (outcomeOf r2) _ (sw_sound _ _ _ S4)) as S5. cbn [note snd modifyS] in S5.
  assert (sweeping sha256Hex st st3) as S6 by exact (sweeping_trans _ _ _ _ S1 (sweeping_trans _ _ _ _ S2 (sweeping_trans _ _ _ _ S3 (sweeping_trans _ _ _ _ S4 S5)))).
  split; [done|]. split; [exact F1|]. exists (outcomeOf r2). split; [cbn; by rewrite L1|]. split; [|destruct r; by rewrite Er].
  unfold dealt. cbn [fst snd]. destruct r2 as [[]|e]; cbn [outcomeOf].
  2:{ destruct (isIntegrity e); [done|]. destruct (isBusy e); [done|]. by destruct (unindexable e). }
  intros Hw. destruct (I2 eq_refl Hw) as [?|(Hdf & Ht & Hin)].
  - left. apply (sw_adv _ _ _ S5), (sw_adv _ _ _ S4), (sw_adv _ _ _ S3). done.
  - right. split; [done|]. unfold defer in Hdf. pose proof (so_group _ (sw_sound _ _ _ S1)) as Hg. destruct (sn_deletions st1) as [g|] eqn:Eg; [|done]. destruct Hg as [given Hg].
    exists (fold_left add names g). split; [done|]. exists (names ++ given). split; [by apply group_ok_adds|]. apply elem_of_app. by left.
Qed.

(** *** Names that are looked at *)

Definition logged (n : string) (st : Scan) : Prop := exists o, (n, o) ∈ sn_log st.
(** Everything in the log is true, and a fault was noticed. *)
Definition truthful (st : Scan) : Prop := forall x, x ∈ sn_log st -> dealt st x /\ (x.2 = OFault -> sn_scanErr st = true).

Record covers {A} (names : list string) (st : Scan) (out : result serr A * Scan) : Prop := mkCovers {
  cv_steps : sweeping sha256Hex st out.2;
  cv_truth : is_ok out.1 = true -> truthful st -> truthful out.2;
  cv_names : is_ok out.1 = true -> forall n, n ∈ names -> logged n out.2
}.
Lemma logged_mono n st st' : sweeping sha256Hex st st' -> logged n st -> logged n st'.
Proof. intros Hs [o Ho]. exists o. by apply Hs. Qed.

Lemma truthful_silent st st' : sweeping sha256Hex st st' -> sn_log st' = sn_log st -> truthful st -> truthful st'.
Proof. intros Hs El Ht x Hx. rewrite El in Hx. destruct (Ht x Hx) as [Hd Hf]. split; [by eapply dealt_mono|]. intros Ho. by apply Hs, Hf. Qed.

Lemma covers_bind {A B} ns ms (c : SN A) (k : A -> SN B) st : covers ns st (c st) ->
  (forall a st1, c st = (Ok a, st1) -> sweeping sha256Hex st st1 -> covers ms st1 (k a st1)) -> covers (ns ++ ms) st (bindS c k st).
Proof.
  intros [C1 C2 C3] Hk. unfold bindS. destruct (c st) as [[a|e] st1]; cbn in *; [|by split]. destruct (Hk a st1 eq_refl C1) as [K1 K2 K3]. split.
  - by eapply sweeping_trans.
  - intros HOk Ht. by apply K2, C2.
  - intros HOk n [Hn|Hn]%elem_of_app; [|by apply K3]. eapply logged_mono; [exact K1|]. by apply C3.
Qed.
Lemma covers_mono {A} ns ms st (out : result serr A * Scan) : (forall n, n ∈ ms -> n ∈ ns) -> covers ns st out -> covers ms st out.
Proof. intros Hn [C1 C2 C3]. split; [done|done|]. intros HOk n Hin. by apply C3, Hn. Qed.

(** Steps that log nothing. *)
Definition silent {A} (c : SN A) : Prop := forall st, sn_log (c st).2 = sn_log st.
Lemma covers_silent {A} (c : SN A) st : keeps steps c -> silent c -> sound st -> covers [] st (c st).
Proof. intros Hk Hs Hst. specialize (Hk st Hst). split; [done| |intros _ n Hn; by apply elem_of_nil in Hn]. intros _. by eapply truthful_silent. Qed.
Lemma silent_zoom {A} f (c : V A) : silent (zoomS sn_vol set_vol f c).
Proof. intros st. unfold zoomS. by destruct (c (sn_vol st)). Qed.
Lemma silent_ctx : silent ctxErr.
Proof. intros st. unfold ctxErr, bindS. cbn. by destruct (sn_ctx st) as [|[] l]. Qed.

Lemma one_name name meta st (k : result serr bool -> SN unit) : sound st -> current name meta (sn_world st) ->
  (forall r st1, known name meta st = (r, st1) -> sweeping sha256Hex st st1 ->
     sweeping sha256Hex st1 (k r st1).2 /\ sn_log (k r st1).2 = sn_log st1 /\
     (is_ok (k r st1).1 = true -> match r with Err e => outcomeOf (Err e) = OFault -> sn_scanErr (k r st1).2 = true | Ok _ => True end)) ->
  covers [name] st (bindS (tryS (known name meta)) k st).
Proof.
  intros Hs Hcur Hk. unfold bindS, tryS. destruct (known name meta st) as [r st1] eqn:R. destruct (known_spec _ _ _ _ _ Hs Hcur R) as (S1 & F1 & o & L1 & D1 & O1).
  destruct (Hk r st1 eq_refl S1) as (S2 & L2 & E2). split.
  - by eapply sweeping_trans.
  - intros HOk Ht x Hx. rewrite L2, L1 in Hx. apply elem_of_cons in Hx as [-> |Hx].
    + split; [by eapply dealt_mono|]. intros Ho. cbn in Ho. subst o. destruct r as [b|e]; [done|]. by apply E2.
    + destruct (Ht x Hx) as [Hd Hf]. split; [by eapply dealt_mono; [exact S2|]; eapply dealt_mono|]. intros Ho. apply S2. rewrite F1. by apply Hf.
  - intros _ n ->%list_elem_of_singleton. exists o. rewrite L2, L1. by left.
Qed.

Lemma inspectError_spec name r st : sound st -> sweeping sha256Hex st (inspectError name r st).2 /\ sn_log (inspectError name r st).2 = sn_log st /\
  (is_ok (inspectError name r st).1 = true -> match r with Err e => outcomeOf (Err e) = OFault -> sn_scanErr (inspectError name r st).2 = true | Ok _ => True end).
Proof.
  intros Hs. unfold inspectError. destruct r as [b|e]; [split; [by apply sweeping_refl|done]|]. cbn [outcomeOf]. destruct (isIntegrity e).
  { split; [by apply (sweeps_integrityErr sha256Hex st Hs)|]. done. }
  destruct (isBusy e); [split; [by apply sweeping_refl|done]|]. destruct (unindexable e) as [reason|]; [split; [by apply (sweeps_skip sha256Hex reason name st Hs)|done]|].
  split; [by apply (sweeps_scanErr sha256Hex st Hs)|]. done.
Qed.

Lemma flush_loop_covers m batch st : sound st -> (forall n, current n (m !! n) (sn_world st)) -> covers batch st (flush_loop sha256Hex stored granularity ignorePatterns repairPeers now mapOrder m batch st).
Proof.
  revert st. induction batch as [|name rest IH]; intros st Hs Hcur; cbn [flush_loop].
  { apply covers_silent; [apply keeps_ret, _|done|done]. }
  change (name :: rest) with ([] ++ [name] ++ rest). apply covers_bind; [by apply covers_silent; [apply sweeps_ctx|apply silent_ctx|]|]. intros [] st1 _ S1. pose proof (sw_sound _ _ _ S1) as Hs1.
  assert (forall n, current n (m !! n) (sn_world st1)) as Hcur1 by (intros n; eapply current_adv; [apply S1|done]). clear st Hs Hcur S1.
  assert (forall st, (forall n, current n (m !! n) (sn_world st)) -> covers [name] st (bindS (tryS (known name (m !! name))) (fun r => inspectError name r) st) ->
    covers ([name] ++ rest) st (bindS (tryS (known name (m !! name))) (fun r => do! inspectError name r then flush_loop sha256Hex stored granularity ignorePatterns repairPeers now mapOrder m rest) st)) as Hb.
  { intros st2 Hc2 Hc. assert (forall x, bindS (tryS (known name (m !! name))) (fun r => do! inspectError name r then x) st2 = bindS (bindS (tryS (known name (m !! name))) (fun r => inspectError name r)) (fun _ => x) st2) as ->.
    { intros x. unfold bindS. destruct (tryS (known name (m !! name)) st2) as [[r|e] st3]; [|done]. by destruct (inspectError name r st3) as [[[]|e] st4]. }
    apply covers_bind; [exact Hc|]. intros _ st3 _ S3. apply IH; [apply S3|]. intros n. eapply current_adv; [apply S3|done]. }
  apply Hb; [done|]. apply one_name; [done|done|]. intros r st2 _ S2. apply inspectError_spec, S2.
Qed.

Lemma flush_covers batch st : sound st -> covers batch st (flush sha256Hex stored granularity ignorePatterns repairPeers now mapOrder batch st).
Proof.
  intros Hs. unfold flush. destruct batch as [|name rest]; [apply covers_silent; [apply keeps_ret, _|done|done]|]. set (batch := name :: rest).
  change batch with ([] ++ batch) at 1. apply covers_bind.
  - apply covers_silent; [|apply silent_zoom|done]. apply sweeps_disk, quiet_inStore. unfold GetFilesBatch, batch. apply idle_query.
  - intros m st1 R S1. apply flush_loop_covers; [apply S1|]. intros n. eapply current_adv; [apply S1|]. unfold onDisk, inVol, inWorld, inStore, zoomS in R. change (wd_store (vo_world (sn_vol st))) with (wd_store (sn_world st)) in R.
    destruct (GetFilesBatch batch (wd_store (sn_world st))) as [[x|e] s] eqn:R1; [|done]. injection R as <- _. unfold GetFilesBatch, batch in R1. apply query_Ok in R1 as [-> _].
    destruct (_ !! n) as [r|] eqn:E; [|done]. left. by apply map_lookup_filter_Some in E as [E _].
Qed.

(** *** The walk *)

(** Below a directory the walk could not look into. *)
Definition unseen (all : list entry) (n : string) : Prop := exists d e, EDir d (Err e) ∈ all /\ HasPrefix n (d +:+ "/") = true.

Record walks (all : list entry) (wants : string -> Prop) (st : Scan) (out : result serr (list string) * Scan) : Prop := mkWalks {
  wk_steps : sweeping sha256Hex st out.2;
  wk_truth : is_ok out.1 = true -> truthful st -> truthful out.2;
  wk_names : forall batch n, out.1 = Ok batch -> wants n -> logged n out.2 \/ n ∈ batch \/ unseen all n \/ sn_scanErr out.2 = true
}.
Lemma walks_bind {A} all ns wants wants' (c : SN A) (k : A -> SN (list string)) st : covers ns st (c st) ->
  (forall a st1, c st = (Ok a, st1) -> sweeping sha256Hex st st1 -> walks all wants' st1 (k a st1)) ->
  (forall n, wants n -> n ∈ ns \/ wants' n) -> walks all wants st (bindS c k st).
Proof.
  intros [C1 C2 C3] Hk Hw. unfold bindS. destruct (c st) as [[a|e] st1]; cbn in *; [|by split]. destruct (Hk a st1 eq_refl C1) as [K1 K2 K3]. split.
  - by eapply sweeping_trans.
  - intros HOk Ht. by apply K2, C2.
  - intros batch n HOk Hn. destruct (Hw n Hn) as [Hn'|Hn']; [|by apply K3]. left. eapply logged_mono; [exact K1|]. by apply C3.
Qed.
Lemma walks_mono all (wants wants' : string -> Prop) st out : (forall n, wants n -> wants' n) -> walks all wants' st out -> walks all wants st out.
Proof. intros Hw [H1 H2 H3]. split; [done|done|]. intros batch n HOk Hn. by apply H3, Hw. Qed.

(** What the rest of the walk is to cover. *)
Definition wanted (queued : string -> bool) (entries : list entry) (batch : list string) (n : string) : Prop :=
  n ∈ batch \/ (EFile n ∈ entries /\ tracked ignorePatterns n /\ queued n = false).
Definition skipped_ok (all : list entry) (skipped : list string) (st : Scan) : Prop :=
  forall d, d ∈ skipped -> ShouldIgnore d ignorePatterns = true \/ (exists e, EDir d (Err e) ∈ all) \/ sn_scanErr st = true.
Lemma skipped_mono all skipped st st' : sweeping sha256Hex st st' -> skipped_ok all skipped st -> skipped_ok all skipped st'.
Proof. intros Hs Hk d Hd. destruct (Hk d Hd) as [?|[?|?]]; [by left|by right; left|right; right]. by apply Hs. Qed.

Lemma sameFilesystem_spec (all : list entry) name device rootDevice st : sound st -> EDir name device ∈ all ->
  covers [] st (checkSameFilesystem name device rootDevice st) /\
  ((checkSameFilesystem name device rootDevice st).1 = Ok true -> (exists e, EDir name (Err e) ∈ all) \/ sn_scanErr (checkSameFilesystem name device rootDevice st).2 = true).
Proof.
  intros Hs Ha. assert (forall reason, covers [] st ((do! skip reason name then retS true : SN bool) st)) as Hskip.
  { intros reason. apply covers_silent; [|by intros st'|done]. apply keeps_bind; [apply _|apply sweeps_skip|intros _; apply keeps_ret, _]. }
  assert (covers [] st ((do! modifyS (set_scanErr true) then retS true : SN bool) st)) as Herr.
  { apply covers_silent; [|by intros st'|done]. apply keeps_bind; [apply _|apply sweeps_scanErr|intros _; apply keeps_ret, _]. }
  unfold checkSameFilesystem. destruct device as [[d|]|[]]; try (split; [apply Hskip|by left; eauto]).
  - destruct (negb (d =? rootDevice)); [split; [apply Herr|by right]|split; [by apply covers_silent; [apply keeps_ret, _| |]|done]].
  - split; [by apply covers_silent; [apply keeps_ret, _| |]|done].
  - split; [apply Herr|by right].
Qed.

Lemma walk_covers all queued root entries skipped batch st : sound st -> (forall en, en ∈ entries -> en ∈ all) -> skipped_ok all skipped st ->
  walks all (wanted queued entries batch) st (walk_loop sha256Hex stored granularity ignorePatterns repairPeers now mapOrder queued root entries skipped batch st).
Proof.
  revert skipped batch st. induction entries as [|en rest IH]; intros skipped batch st Hs Ha Hk; cbn [walk_loop].
  { split; [by apply sweeping_refl|done|]. intros b n [= <-] [?|(Hn & _)]; [by right; left|by apply elem_of_nil in Hn]. }
  assert (forall st, (forall n, EFile n = en -> tracked ignorePatterns n -> queued n = false -> False) -> forall skipped, sound st -> skipped_ok all skipped st ->
    walks all (wanted queued (en :: rest) batch) st (walk_loop sha256Hex stored granularity ignorePatterns repairPeers now mapOrder queued root rest skipped batch st)) as Hpass.
  { intros st1 Hen sk Hs1 Hk1. eapply walks_mono; [|apply IH; [done|set_solver|done]]. intros n [Hn|([Hn|Hn]%elem_of_cons & Ht & Hq)]; [by left|by destruct (Hen n)|by right]. }
  set (name := match en with EErr n _ => n | EDir n _ => n | EFile n => n end). destruct (existsb _ skipped) eqn:Es.
  { apply existsb_exists in Es as (d & Hd & Hp). apply list_elem_of_In in Hd. destruct (Hk d Hd) as [Hi|[[e He]|He]].
    - apply Hpass; [|done|done]. intros n <- [_ Ht] _. rewrite (Ht d) in Hi; [done|]. apply atOrUnder_spec. by right.
    - pose proof (IH skipped batch st Hs ltac:(set_solver) Hk) as [W1 W2 W3]. split; [done|done|]. intros b n HOk [Hn|([Hn|Hn]%elem_of_cons & Ht & Hq)]; [apply W3; [done|by left]| |apply W3; [done|by right]].
      right. right. left. exists d, e. split; [done|]. unfold name in Hp. by rewrite <- Hn in Hp.
    - pose proof (IH skipped batch st Hs ltac:(set_solver) Hk) as [W1 W2 W3]. split; [done|done|]. intros b n HOk _. right. right. right. by apply W1. }
  eapply (walks_bind all [] _ (wanted queued (en :: rest) batch)); [by apply covers_silent; [apply sweeps_ctx|apply silent_ctx|]| |by right]. intros [] st1 _ S1.
  pose proof (sw_sound _ _ _ S1) as Hs1. pose proof (skipped_mono all skipped st st1 S1 Hk) as Hk1. clear st S1 Hs Hk.
  assert (forall (c : SN unit) k, keeps steps c -> silent c -> (forall st, sound st -> skipped_ok all skipped st -> walks all (wanted queued (en :: rest) batch) st (k st)) -> walks all (wanted queued (en :: rest) batch) st1 (bindS c (fun _ => k) st1)) as Hafter.
  { intros c k Kc Sc Hc. eapply (walks_bind all [] _ (wanted queued (en :: rest) batch)); [by apply covers_silent| |by right]. intros [] st2 _ S2. apply Hc; [apply S2|]. by eapply skipped_mono. }
  destruct en as [n e|n device|n].
  - destruct e; apply Hafter; try (apply sweeps_skip || apply sweeps_scanErr || done); intros st2 Hs2 Hk2; by apply Hpass.
  - unfold shouldIgnore. destruct (ShouldIgnore n ignorePatterns) eqn:Ei.
    { apply Hpass; [done|done|]. intros d [-> |Hd]%elem_of_cons; [by left|by apply Hk1]. }
    destruct root as [rootDevice|]; [|by apply Hpass]. destruct (sameFilesystem_spec all n device rootDevice st1 Hs1 ltac:(set_solver)) as [C2 X2].
    eapply (walks_bind all [] _ (wanted queued (EDir n device :: rest) batch)); [exact C2| |by right]. intros out st2 R2 S2. rewrite R2 in X2. cbn in X2. apply Hpass; [done|apply S2|].
    destruct out; [|by eapply skipped_mono]. intros d [-> |Hd]%elem_of_cons; [right; by apply X2|by apply (skipped_mono all skipped st1 st2 S2)].
  - unfold shouldIgnore. destruct (ShouldIgnore n ignorePatterns || queued n) eqn:Ei.
    { apply Hpass; [|done|done]. intros m [= ->] [_ Ht] Hq. rewrite (Ht n (atOrUnder_refl n)), Hq in Ei. done. }
    cbv zeta. assert (forall m, wanted queued (EFile n :: rest) batch m -> m ∈ batch ++ [n] \/ wanted queued rest [] m) as Hw.
    { intros m [Hm|([[= ->]|Hm]%elem_of_cons & Ht & Hq)]; [left; set_solver|left; set_solver|right; by right]. }
    destruct (batchSize <=? _).
    + eapply walks_bind; [by apply flush_covers| |exact Hw]. intros [] st2 _ S2. apply IH; [apply S2|set_solver|by eapply skipped_mono].
    + eapply walks_mono; [|by apply IH; [|set_solver|]]. intros m Hm. destruct (Hw m Hm) as [?|[?|?]]; [by left|set_solver|by right].
Qed.

(** *** The deletion check *)

Definition rowResult (name : string) (r : result serr bool) : SN unit :=
  match r with
  | Ok _ => retS tt
  | Err e => if isBusy e || isIntegrity e then retS tt else match unindexable e with Some reason => skip reason name | None => failS e end
  end.
Lemma rowResult_spec name r st : sound st -> sweeping sha256Hex st (rowResult name r st).2 /\ sn_log (rowResult name r st).2 = sn_log st /\
  (is_ok (rowResult name r st).1 = true -> match r with Err e => outcomeOf (Err e) = OFault -> sn_scanErr (rowResult name r st).2 = true | Ok _ => True end).
Proof.
  intros Hs. unfold rowResult. destruct r as [b|e]; [split; [by apply sweeping_refl|done]|]. cbn [outcomeOf].
  destruct (isBusy e); [split; [by apply sweeping_refl|split; [done|]; by destruct (isIntegrity e)]|]. destruct (isIntegrity e); [split; [by apply sweeping_refl|done]|]. cbn [orb].
  destruct (unindexable e) as [reason|]; [split; [by apply (sweeps_skip sha256Hex reason name st Hs)|done]|]. split; [by apply sweeping_refl|done].
Qed.

Lemma page_loop_covers queued page st : sound st -> (forall m, m ∈ page -> current (Name m) (Some m) (sn_world st)) ->
  covers (map Name (List.filter (fun m => negb (shouldIgnore ignorePatterns (Name m) || queued (Name m))) page)) st
    (page_loop sha256Hex stored granularity ignorePatterns repairPeers now mapOrder queued page st).
Proof.
  revert st. induction page as [|meta rest IH]; intros st Hs Hcur; cbn [page_loop]; [by apply covers_silent; [apply keeps_ret, _| |]|].
  eapply covers_mono; [|apply (covers_bind [] (map Name (List.filter (fun m => negb (shouldIgnore ignorePatterns (Name m) || queued (Name m))) (meta :: rest)))); [by apply covers_silent; [apply sweeps_ctx|apply silent_ctx|]|]].
  { intros n Hn. exact Hn. }
  intros [] st1 _ S1. pose proof (sw_sound _ _ _ S1) as Hs1. assert (forall m, m ∈ meta :: rest -> current (Name m) (Some m) (sn_world st1)) as Hcur1 by (intros m Hm; eapply current_adv; [apply S1|auto]). clear st Hs Hcur S1.
  cbn [List.filter]. destruct (shouldIgnore ignorePatterns (Name meta) || queued (Name meta)); cbn [negb]; [apply IH; [done|intros m Hm; apply Hcur1; by right]|].
  set (tail := page_loop sha256Hex stored granularity ignorePatterns repairPeers now mapOrder queued rest).
  assert (forall r st2, (match r with Ok _ => tail | Err e => if isBusy e || isIntegrity e then tail else match unindexable e with Some reason => do! skip reason (Name meta) then tail | None => failS e end end) st2
    = bindS (rowResult (Name meta) r) (fun _ => tail) st2) as Hb.
  { intros r st2. unfold rowResult. destruct r as [b|e]; [done|]. destruct (isBusy e || isIntegrity e); [done|]. by destruct (unindexable e). }
  assert (forall k, (forall r st2, k r st2 = bindS (rowResult (Name meta) r) (fun _ => tail) st2) ->
    bindS (tryS (known (Name meta) (Some meta))) k st1 = bindS (bindS (tryS (known (Name meta) (Some meta))) (rowResult (Name meta))) (fun _ => tail) st1) as He.
  { intros k Hk. destruct (tryS (known (Name meta) (Some meta)) st1) as [[r|e] st2] eqn:Et; [|unfold bindS; by rewrite Et].
    transitivity (k r st2); [unfold bindS; by rewrite Et|]. rewrite Hk. unfold bindS. by rewrite Et. }
  rewrite He; [|exact Hb]. apply (covers_bind [Name meta]); [|intros [] st2 _ S2; apply IH; [apply S2|intros m Hm; eapply current_adv; [apply S2|apply Hcur1; by right]]]. apply one_name; [done|apply Hcur1; by left|]. intros r st2 _ S2. apply rowResult_spec, S2.
Qed.

(** Pages of live rows leave nothing out. *)
Lemma livePage_complete (d : DB) (after : string) (limit : Z) (x : FileMeta) : well_keyed d -> 0 < limit ->
  let page := sql_limit limit (merge_sort (by_string Name) (select (fun r => negb (Deleted r) && (after <s Name r)) (files d))) in
  forall k r, files d !! k = Some r -> Deleted r = false -> String.compare after k = Lt -> r ∈ page \/ page <> [] /\ String.compare (Name (List.last page x)) k = Lt.
Proof.
  intros Hk Hl page k r Hr Hd Hlt. destruct (page_spec (by_string Name) (fun r => negb (Deleted r) && (after <s Name r)) (files d) limit x Hk Hl) as (_ & _ & P3 & P4). fold page in P3, P4.
  destruct (P4 k r Hr) as [?|(Hne & Hle & Hneq)]; [rewrite Hd; cbn; rewrite (Hk _ _ Hr); by apply string_ltb_spec|by left|right]. split; [done|]. unfold by_string in Hle.
  destruct (P3 _ (last_elem_of page x Hne)) as [_ [kl Hkl]]. assert (String.compare (Name (List.last page x)) (Name r) <> Gt) as Hc by (apply String_leb_compare, Is_true_true; exact Hle).
  rewrite (Hk _ _ Hr) in Hc. destruct (String.compare (Name (List.last page x)) k) eqn:E; [|done|done].
  exfalso. apply Hneq. apply String.compare_eq_iff in E. pose proof (Hk _ _ Hkl) as En. simpl in En. rewrite <- E, En in Hr. congruence.
Qed.

(** They are rows of the table. *)
Lemma livePage_current (after : string) (limit : Z) (st st' : Scan) (page : list FileMeta) : sound st -> 0 < limit -> adv (sn_world st) (sn_world st') ->
  page = sql_limit limit (merge_sort (by_string Name) (select (fun r => negb (Deleted r) && (after <s Name r)) (rowsOf (sn_world st)))) -> forall m, m ∈ page -> current (Name m) (Some m) (sn_world st').
Proof.
  intros Hs Hl A Hp m Hm. eapply current_adv; [exact A|]. left. destruct (page_spec (by_string Name) (fun r => negb (Deleted r) && (after <s Name r)) (rowsOf (sn_world st)) limit m (so_keyed _ Hs) Hl) as (_ & _ & P3 & _).
  rewrite <- Hp in P3. destruct (P3 m Hm) as [_ [k Hk]]. by rewrite (so_keyed _ Hs _ _ Hk).
Qed.

(** A live row without a file was there all along. *)
Lemma lost_before n w w' : adv w w' -> wd_tree w' !! n = None -> live (rowsOf w' !! n) = true -> exists m, rowsOf w !! n = Some m /\ Deleted m = false.
Proof.
  intros Ha Ht Hl. destruct (rowsOf w !! n) as [m|] eqn:Em; [destruct (Deleted m) eqn:Ed; [|by eauto]|]; exfalso.
  - assert (indexedAt sha256Hex n w) as Hi. { unfold indexedAt, describes. rewrite Em. pose proof (sy_entry _ _ (ad_steady _ _ _ Ha) n) as He. unfold heldAt in He.
      destruct (wd_tree w !! n) as [[i| | |]|]; cbn; try done. destruct He as (i' & Ei & _). by rewrite Ht in Ei. }
    apply (ad_indexed _ _ _ Ha) in Hi. unfold indexedAt, describes in Hi. rewrite Ht in Hi. destruct (rowsOf w' !! n) as [m'|]; [|done]. cbn in Hi, Hl. by rewrite Hi in Hl.
  - assert (indexedAt sha256Hex n w) as Hi. { unfold indexedAt, describes. rewrite Em. pose proof (sy_entry _ _ (ad_steady _ _ _ Ha) n) as He. unfold heldAt in He.
      destruct (wd_tree w !! n) as [[i| | |]|]; cbn; try done. destruct He as (i' & Ei & _). by rewrite Ht in Ei. }
    apply (ad_indexed _ _ _ Ha) in Hi. unfold indexedAt, describes in Hi. rewrite Ht in Hi. destruct (rowsOf w' !! n) as [m'|]; [|done]. cbn in Hi, Hl. by rewrite Hi in Hl.
Qed.

Lemma pages_cover pages queued after st r st' : sound st ->
  deletion_pages sha256Hex stored granularity ignorePatterns repairPeers now mapOrder pages queued after st = (r, st') ->
  covers [] st (r, st') /\ (is_ok r = true -> forall w n, adv (sn_world st') w -> tracked ignorePatterns n -> queued n = false -> String.compare after n = Lt ->
    wd_tree w !! n = None -> live (rowsOf w !! n) = true -> logged n st').
Proof.
  revert after st. induction pages as [|pages IH]; intros after st Hs R; cbn [deletion_pages] in R; [injection R as <- <-; split; [split; [by apply sweeping_refl|done|done]|done]|].
  pose proof (covers_silent ctxErr st (sweeps_ctx sha256Hex) silent_ctx Hs) as C1. unfold bindS at 1 in R. destruct (ctxErr st) as [[[]|e] st1]; [|injection R as <- <-; split; [by destruct C1; split|done]]. destruct C1 as [S1 T1 _]; cbn in S1, T1.
  set (q := onDisk (inStore (ListNonDeleted after deletionPage))) in R. assert (covers [] st1 (q st1)) as C2.
  { apply covers_silent; [|apply silent_zoom|apply S1]. apply sweeps_disk, quiet_inStore. apply idle_query. }
  unfold bindS at 1 in R. assert (forall page st2, q st1 = (Ok page, st2) -> page = sql_limit deletionPage (merge_sort (by_string Name) (select (fun r => negb (Deleted r) && (after <s Name r)) (rowsOf (sn_world st1))))) as Hq.
  { intros page st2 Rq. unfold q, onDisk, inVol, inWorld, inStore, zoomS in Rq. destruct (ListNonDeleted after deletionPage (wd_store (vo_world (sn_vol st1)))) as [[x|e] s] eqn:R1; [|done]. injection Rq as <- _. by apply query_Ok in R1 as [-> _]. }
  destruct (q st1) as [[page|e] st2] eqn:Rq; destruct C2 as [S2 T2 _]; cbn in S2, T2; [|injection R as <- <-; split; [split; [by eapply sweeping_trans|done|done]|done]].
  specialize (Hq page st2 eq_refl). assert (forall w n, adv (sn_world st1) w -> String.compare after n = Lt -> wd_tree w !! n = None -> live (rowsOf w !! n) = true ->
    exists m, Name m = n /\ forall x, m ∈ page \/ page <> [] /\ String.compare (Name (List.last page x)) n = Lt) as Hrow.
  { intros w n Hw Hc Ht Hl. destruct (lost_before n (sn_world st1) w Hw Ht Hl) as (m & Em & Ed). exists m. split; [exact (so_keyed _ (sw_sound _ _ _ S1) n m Em)|]. intros x.
    rewrite Hq. exact (livePage_complete (db (wd_store (sn_world st1))) after deletionPage x (so_keyed _ (sw_sound _ _ _ S1)) ltac:(done) n m Em Ed Hc). }
  destruct page as [|first rest].
  { injection R as <- <-. split; [split; [by eapply sweeping_trans|auto|intros _ n Hn; by apply elem_of_nil in Hn]|]. intros _ w n Hw Htr Hqn Hc Ht Hl. exfalso.
    destruct (Hrow w n) as (m & _ & Hm); [etrans; [apply S2|exact Hw]|done..|]. destruct (Hm m) as [Hin|[Hne _]]; [by apply elem_of_nil in Hin|done]. }
  set (page := first :: rest) in *. pose proof (page_loop_covers queued page st2 (sw_sound _ _ _ S2) (livePage_current after deletionPage st1 st2 page (sw_sound _ _ _ S1) ltac:(done) (sw_adv _ _ _ S2) Hq)) as C3. unfold bindS in R.
  destruct (page_loop _ _ _ _ _ _ _ queued page st2) as [[[]|e] st3]; destruct C3 as [S3 T3 N3]; cbn [fst snd is_ok] in S3, T3, N3; [|injection R as <- <-; split; [split; [by eapply sweeping_trans; [|eapply sweeping_trans]|done|done]|done]].
  destruct (IH (Name (List.last page first)) st3 (sw_sound _ _ _ S3) R) as [[S4 T4 _] N4]. cbn in S4, T4, N4.
  assert (sweeping sha256Hex st1 st') as S by (eapply sweeping_trans; [exact S2|]; by eapply sweeping_trans).
  split; [split; [by eapply sweeping_trans|auto|intros _ n Hn; by apply elem_of_nil in Hn]|]. intros HOk w n Hw Htr Hqn Hc Ht Hl.
  destruct (Hrow w n) as (m & <- & Hm); [etrans; [apply S|exact Hw]|done..|]. destruct (Hm first) as [Hin|[_ Hlt]]; [|by apply (N4 HOk w)].
  eapply logged_mono; [exact S4|]. apply N3; [done|]. apply list_elem_of_fmap_2, list_elem_of_In, filter_In.
  split; [by apply list_elem_of_In|]. unfold shouldIgnore. destruct Htr as [_ Htr]. by rewrite (Htr (Name m) (atOrUnder_refl (Name m))), Hqn.
Qed.

(** Only the pages themselves can run out. *)
Definition unspent {A} (c : SN A) : Prop := forall st, (c st).1 <> Err SPages.
Lemma unspent_bind {A B} (c : SN A) (k : A -> SN B) : unspent c -> (forall a, unspent (k a)) -> unspent (bindS c k).
Proof. intros Hc Hk st. unfold bindS. specialize (Hc st). destruct (c st) as [[a|e] st1]; [apply Hk|]. intros E. apply Hc. cbn in *. congruence. Qed.
Lemma unspent_zoom {A} (f : verr -> serr) (c : V A) : (forall e, f e <> SPages) -> unspent (zoomS sn_vol set_vol f c).
Proof. intros Hf st. unfold zoomS. destruct (c (sn_vol st)) as [[a|e] v]; cbn; [done|]. intros [= E]. by apply (Hf e). Qed.
Lemma unspent_try {A} (c : SN A) : unspent (tryS c).
Proof. intros st. unfold tryS. by destruct (c st). Qed.
Ltac spend := repeat first
  [ by apply unspent_zoom | apply unspent_try | by intros ? | apply unspent_bind; [|intros ?] | progress cbv zeta | match goal with |- unspent (match ?x with _ => _ end) => destruct x end ].
Lemma unspent_known name meta : unspent (known name meta).
Proof.
  assert (forall d, unspent (scanFileWith sha256Hex stored granularity ignorePatterns repairPeers now mapOrder name d)) as Hs by (intros d; unfold scanFileWith, onDisk, inVol; spend).
  unfold sweepKnown, takeDeferred, note, onDisk, inVol. do 2 (apply unspent_bind; [spend|intros ?]). case_match; [spend|]. apply unspent_bind; [spend|]. intros st.
  intros st0. unfold bindS at 1. unfold tryS at 1. specialize (Hs (match sn_deletions st with Some _ => true | None => false end) st0). destruct (scanFileWith _ _ _ _ _ _ _ _ _ st0) as [r st1]. cbn in Hs.
  revert st1. change (unspent (let! missing := takeDeferred in do! modifyS (fun st => set_deletions ((fun g => fold_left add missing g) <$> sn_deletions st) st) then
    do! note name (match r with Ok _ => OIndexed | Err e => if isIntegrity e then OIntegrity else if isBusy e then OBusy else match unindexable e with Some reason => OSkipped reason | None => OFault end end) then do! liftS r then retS true)).
  unfold takeDeferred, note, onDisk, inVol. spend.
Qed.
Lemma unspent_page queued page : unspent (page_loop sha256Hex stored granularity ignorePatterns repairPeers now mapOrder queued page).
Proof.
  induction page as [|m page IH]; cbn [page_loop]; [by intros st|]. apply unspent_bind; [unfold ctxErr; spend|]. intros _. destruct (_ || _); [done|]. intros st. unfold bindS at 1. unfold tryS at 1.
  pose proof (unspent_known (Name m) (Some m) st) as K. destruct (known (Name m) (Some m) st) as [[b|e] st1]; [apply IH|]. destruct (_ || _); [apply IH|]. destruct (unindexable e); [clear K; revert st1|intros E; apply K; cbn in *; congruence]. apply (unspent_bind (skip s (Name m))); [by intros ?|done].
Qed.

(** The deletion check ends: every page leaves fewer indexed names ahead. *)
Lemma pages_enough pages queued after st st' : sound st ->
  deletion_pages sha256Hex stored granularity ignorePatterns repairPeers now mapOrder pages queued after st = (Err SPages, st') ->
  (pages <= length (names_after (db (wd_store (sn_world st'))) after))%nat.
Proof.
  revert after st. induction pages as [|pages IH]; intros after st Hs R; [lia|]. cbn [deletion_pages] in R.
  pose proof (covers_silent ctxErr st (sweeps_ctx sha256Hex) silent_ctx Hs) as C1. unfold bindS at 1 in R. destruct (ctxErr st) as [[[]|e] st1] eqn:Rc; [|].
  2:{ exfalso. injection R as -> _. assert (unspent ctxErr) as U by (unfold ctxErr; spend). apply (U st). by rewrite Rc. }
  destruct C1 as [S1 _ _]. cbn in S1. unfold bindS at 1 in R.
  set (q := onDisk (inStore (ListNonDeleted after deletionPage))) in R. destruct (q st1) as [[page|e] st2] eqn:Rq; [|].
  2:{ exfalso. injection R as -> _. assert (unspent q) as U by (unfold q, onDisk, inVol; spend). apply (U st1). by rewrite Rq. }
  assert (sweeping sha256Hex st1 st2) as S2 by (pose proof (sweeps_disk sha256Hex (inStore (ListNonDeleted after deletionPage)) ltac:(apply quiet_inStore, idle_query) st1 (sw_sound _ _ _ S1)) as K; unfold q in Rq; by rewrite Rq in K).
  assert (page = sql_limit deletionPage (merge_sort (by_string Name) (select (fun r => negb (Deleted r) && (after <s Name r)) (rowsOf (sn_world st1))))) as Hq.
  { unfold q, onDisk, inVol, inWorld, inStore, zoomS in Rq. destruct (ListNonDeleted after deletionPage (wd_store (vo_world (sn_vol st1)))) as [[x|e] s] eqn:R1; [|done]. injection Rq as <- _. by apply query_Ok in R1 as [-> _]. }
  destruct page as [|first rest] eqn:Ep; [done|]. rewrite <- Ep in *.
  destruct (page_spec (by_string Name) (fun r => negb (Deleted r) && (after <s Name r)) (rowsOf (sn_world st1)) deletionPage first (so_keyed _ (sw_sound _ _ _ S1)) ltac:(done)) as (_ & _ & P3 & _). rewrite <- Hq in P3.
  destruct (P3 (List.last page first)) as [Hw [k Hk]]; [apply last_elem_of; by rewrite Ep|]. rewrite andb_true_iff in Hw. destruct Hw as [_ Hw].
  unfold bindS in R. pose proof (page_loop_covers queued page st2 (sw_sound _ _ _ S2) (livePage_current after deletionPage st1 st2 page (sw_sound _ _ _ S1) ltac:(done) (sw_adv _ _ _ S2) Hq)) as C3. pose proof (unspent_page queued page st2) as U3.
  destruct (page_loop _ _ _ _ _ _ _ queued page st2) as [[[]|e] st3]; destruct C3 as [S3 _ _]; cbn in S3, U3; [|congruence].
  destruct (pages_cover pages queued _ st3 _ _ (sw_sound _ _ _ S3) R) as [[S4 _ _] _]. cbn in S4. apply IH in R; [|by eapply sw_sound].
  assert (Name (List.last page first) ∈ names_after (db (wd_store (sn_world st'))) after) as Hin.
  { apply elem_of_names_after. split; [done|]. apply elem_of_dom. apply (ad_rows _ _ _ (sw_adv _ _ _ (sweeping_trans _ _ _ _ (sweeping_trans _ _ _ _ S2 S3) S4))).
    apply elem_of_dom. exists (List.last page first). by rewrite (so_keyed _ (sw_sound _ _ _ S1) _ _ Hk). }
  pose proof (names_after_shrinks _ (db (wd_store (sn_world st'))) _ _ eq_refl Hin). lia.
Qed.

(** *** The first validation *)

(** The tables stay in order. *)
Definition ordered (w : World) : Prop := intents_named (db (wd_store w)) /\ well_keyed (db (wd_store w)).
Lemma ordered_grows w w' : grows sha256Hex w w' -> ordered w -> ordered w'.
Proof. intros G [H1 H2]. split; [by eapply grows_named|by apply G]. Qed.
Lemma ordered_adv w w' : adv w w' -> ordered w -> ordered w'.
Proof. intros A. by apply ordered_grows, advances_grows. Qed.
Lemma ordered_quiet w w' : quiet w w' -> ordered w -> ordered w'.
Proof. intros Q. by apply ordered_grows, quiet_grows. Qed.
(** ... and, once they are done with, no journal comes back. *)
Definition tidy (w : World) : Prop := ordered w /\ noJournal (wd_tree w).
Lemma tidy_adv w w' : adv w w' -> tidy w -> tidy w'.
Proof. intros A [H1 H2]. split; [by eapply ordered_adv|eapply noJournal_steady; [apply A|done]]. Qed.
Lemma tidy_quiet w w' : quiet w w' -> tidy w -> tidy w'.
Proof. intros Q. apply tidy_adv, quiet_advances, Q. Qed.
Lemma tidy_EndLocal names w : tidy w -> tidy (inStore (EndLocal names) w).2.
Proof.
  intros [Ho Hj]. split; [|unfold inStore, zoomS; by destruct (EndLocal names (wd_store w))]. clear Hj. unfold inStore, zoomS. destruct (EndLocal names (wd_store w)) as [[[]|e] s'] eqn:E; cbn.
  - apply transact_Ok in E as (_ & b & s4 & s5 & U & E & Hd); [|apply keeps_end]. apply bindS_Ok in E as ([] & s6 & E & Er). injection Er as <- <-. apply forS_end_Ok in E.
    rewrite (untouched_db _ _ U) in E. rewrite E in Hd. destruct Ho as [H1 H2]. split; cbn; rewrite Hd; done.
  - apply transact_Err in E; [|apply keeps_end]. eapply ordered_quiet; [|exact Ho]. split; [by apply steady_frame|by apply untouched_idle].
Qed.
Lemma recoverIntents_tidy w : tidy w -> tidy (recoverIntents sha256Hex stored granularity ignorePatterns repairPeers now mapOrder w).2.
Proof.
  intros Ho. unfold recoverIntents, bindS. pose proof (quiet_orphans ignorePatterns w) as Q1. destruct (CheckOrphanedBackups ignorePatterns w) as [[[]|e] w1]; cbn in Q1; apply (tidy_quiet _ _ Q1) in Ho; [|done].
  pose proof (quiet_inStore LocalIntents (idle_query _) w1) as Q2. destruct (inStore LocalIntents w1) as [[paths|e] w2]; cbn in Q2; apply (tidy_quiet _ _ Q2) in Ho; [|done].
  destruct (index_spec sha256Hex stored granularity ignorePatterns repairPeers now mapOrder mapOrder_elem paths noOptions w2 (proj1 (proj1 Ho)) (sure_nothing _ noOptions w2 eq_refl)) as [A3 _].
  destruct (indexPathsLocked _ _ _ _ _ _ _ paths noOptions w2) as [[[]|e] w3]; cbn in A3; apply (tidy_adv _ _ A3) in Ho; [|done].
  apply (tidy_EndLocal paths) in Ho. destruct (inStore (EndLocal paths) w3) as [[[]|e] w4]; cbn in Ho; [|done].
  pose proof (quiet_inStore ReplicaIntents (idle_query _) w4) as Q5. destruct (inStore ReplicaIntents w4) as [[replicas|e] w5]; cbn in Q5; apply (tidy_quiet _ _ Q5) in Ho; [|done].
  eapply tidy_adv; [|exact Ho]. apply recoverReplicas_adv, (proj1 Ho).
Qed.
Lemma prepare_tidy v r v' : ordered (vo_world v) -> prepare v = (r, v') -> ordered (vo_world v') /\ (r = Ok tt -> noJournal (wd_tree (vo_world v'))).
Proof.
  intros Ho R. unfold Commits.prepareStorageLocked, bindS, tryS in R.
  assert (let '(r1, v1) := validateStorageLocked sha256Hex stored granularity ignorePatterns repairPeers now mapOrder v in ordered (vo_world v1) /\ (r1 = Ok tt -> noJournal (wd_tree (vo_world v1)))) as Hv.
  2:{ destruct (validateStorageLocked _ _ _ _ _ _ _ v) as [r1 v1]. cbn in R. injection R as <- <-. exact Hv. }
  unfold validateStorageLocked, bindS. pose proof (growsV_checkStorage sha256Hex stored ignorePatterns now v) as [G1 _]. destruct (checkStorageLocked ignorePatterns now stored v) as [[[]|e] v1]; cbn in G1; apply (ordered_grows _ _ G1) in Ho; [|done].
  unfold inWorld, zoomS. pose proof (jl_store (vo_world v1)) as E2. pose proof (jl_done (vo_world v1)) as J2. destruct (RecoverLocked (vo_world v1)) as [r2 w2]; cbn in E2.
  assert (ordered w2) as Ho2 by (unfold ordered in *; by rewrite E2). destruct r2 as [[]|e]; [|done]. specialize (J2 w2 eq_refl).
  cbn. destruct (vo_recovered v1); [done|]. pose proof (recoverIntents_tidy w2 (conj Ho2 J2)) as Ht. change (vo_world (set_world w2 v1)) with w2. destruct (recoverIntents _ _ _ _ _ _ _ w2) as [[[]|e] w3]; cbn in Ht; destruct Ht; done.
Qed.

(** *** Publishing what is missing *)

Record aftermath (st st' : Scan) : Prop := mkAftermath {
  am_sound : sound st';
  am_adv : adv (sn_world st) (sn_world st');
  am_log : sn_log st' = sn_log st;
  am_err : sn_scanErr st' = sn_scanErr st;
  am_group : sn_deletions st' = sn_deletions st
}.
Definition settles (st st' : Scan) : Prop := sound st -> aftermath st st'.
#[export] Instance settles_preorder : PreOrder settles.
Proof.
  split; [intros st Hs; split; try done; reflexivity|]. intros st1 st2 st3 H1 H2 Hs. pose proof (H1 Hs) as [S1 A1 L1 E1 G1]. pose proof (H2 S1) as [S2 A2 L2 E2 G2]. split; [done|by etrans|congruence..].
Qed.
Lemma settles_vol {A} (f : verr -> serr) (c : V A) : (forall v, ready v -> noJournal (wd_tree (vo_world v)) -> intents_named (db (wd_store (vo_world v))) -> ready (c v).2 /\ adv (vo_world v) (vo_world (c v).2)) -> keeps settles (zoomS sn_vol set_vol f c).
Proof.
  intros Hc st Hs. destruct (Hc (sn_vol st) (so_ready _ Hs) (so_journal _ Hs) (so_named _ Hs)) as [Hr Ha]. unfold zoomS. destruct (c (sn_vol st)) as [r v]. cbn in *. split; try done.
  split; [done|eapply adv_named; [exact Ha|apply Hs]|apply Ha, Hs|eapply noJournal_steady; [apply Ha|apply Hs]|apply Hs].
Qed.
Lemma settles_try {A} (c : SN A) : keeps settles c -> keeps settles (tryS c).
Proof. intros Hc st. specialize (Hc st). unfold tryS. by destruct (c st). Qed.
Lemma settles_prepare (f : verr -> serr) : keeps settles (zoomS sn_vol set_vol f prepare).
Proof.
  apply settles_vol. intros v Hr Hj _. pose proof (prepare_calm sha256Hex stored granularity ignorePatterns repairPeers now mapOrder v Hr Hj) as K.
  split; [by eapply calmly_ready|]. apply quiet_advances, K.
Qed.
Lemma settles_disk {A} (c : W A) : (forall w, intents_named (db (wd_store w)) -> adv w (c w).2) -> keeps settles (onDisk c).
Proof. intros Hc. apply settles_vol. intros v Hr _ Hn. specialize (Hc (vo_world v) Hn). unfold inWorld, zoomS. by destruct (c (vo_world v)). Qed.
Lemma settles_GetFile name : keeps settles (onDisk (inStore (GetFile name))).
Proof. apply settles_disk. intros w _. apply quiet_advances, quiet_inStore, idle_query. Qed.
Lemma settles_refresh name : keeps settles (onDisk (refresh name noOptions)).
Proof. apply settles_disk. intros w Hn. apply (refresh_indexes sha256Hex stored granularity ignorePatterns repairPeers now name noOptions w Hn), sure_nothing. done. Qed.
Lemma settles_publishDeletion name : keeps settles (publishDeletion sha256Hex stored granularity ignorePatterns repairPeers now mapOrder name).
Proof.
  unfold publishDeletion. pose proof (settles_try _ (settles_prepare SErr)) as K1. pose proof (settles_try _ (settles_GetFile name)) as K2. pose proof (settles_try _ (settles_refresh name)) as K3.
  apply keeps_bind; [apply _|exact K1|]. intros s. destruct s; [|apply keeps_ret, _]. apply keeps_bind; [apply _|exact K2|]. intros before. destruct before as [before|]; [|apply keeps_ret, _].
  destruct (negb (live before)); [apply keeps_ret, _|]. apply keeps_bind; [apply _|exact K3|]. intros r. destruct r; [|apply keeps_ret, _]. apply keeps_bind; [apply _|exact K2|]. intros after. apply keeps_ret, _.
Qed.
Lemma settles_publish_loop ctx names tried : keeps settles (publish_loop sha256Hex stored granularity ignorePatterns repairPeers now mapOrder ctx names tried).
Proof.
  revert ctx tried. induction names as [|name names IH]; intros ctx tried; cbn [publish_loop]; [apply keeps_ret, _|].
  assert (forall ctx', keeps settles (let! a := publishDeletion sha256Hex stored granularity ignorePatterns repairPeers now mapOrder name in
    if tolerated (Breaker.publishDeletion a).2 then publish_loop sha256Hex stored granularity ignorePatterns repairPeers now mapOrder ctx' names (<[name := a]> tried) else retS (<[name := a]> tried))) as Hgo.
  { intros ctx'. apply keeps_bind; [apply _|apply settles_publishDeletion|]. intros a. destruct (tolerated _); [apply IH|apply keeps_ret, _]. }
  destruct ctx as [|[] ctx]; [apply Hgo|apply keeps_ret, _|apply Hgo].
Qed.
Lemma settles_breaker b : keeps settles (modifyS (set_breaker b) : SN unit).
Proof. intros st [S1 S2 S3 S5 S4]. by split. Qed.
Lemma settles_settle d g auth : keeps settles (settleOnVolume sha256Hex stored granularity ignorePatterns repairPeers now mapOrder d g auth).
Proof.
  unfold settleOnVolume. apply keeps_bind; [apply _|apply keeps_get, _|]. intros st. cbv zeta. apply keeps_bind; [apply _|apply settles_publish_loop|]. intros tried.
  destruct (Breaker.settleDeletions _ _ _ _) as [[n err] b']. apply keeps_bind; [apply _|apply settles_breaker|]. intros _. apply keeps_ret, _.
Qed.

(** *** The whole sweep *)

(** The deletion check reports its faults itself. *)
Abbreviation errKept := (fieldKept sn_scanErr).
Lemma errKept_known name meta : keeps errKept (known name meta).
Proof. unfold sweepKnown, scanFileWith, takeDeferred, note, onDisk, inVol. follow_err. Qed.
Lemma errKept_page queued page : keeps errKept (page_loop sha256Hex stored granularity ignorePatterns repairPeers now mapOrder queued page).
Proof. induction page as [|m page IH]; cbn [page_loop]; pose proof errKept_known; unfold ctxErr, skip; follow_err; auto. Qed.
Lemma errKept_pages pages queued after : keeps errKept (deletion_pages sha256Hex stored granularity ignorePatterns repairPeers now mapOrder pages queued after).
Proof. revert after. induction pages as [|pages IH]; intros after; cbn [deletion_pages]; pose proof errKept_page; unfold ctxErr, onDisk, inVol; follow_err; auto. Qed.

Lemma dealt_after st st' x : aftermath st st' -> dealt st x -> dealt st' x.
Proof.
  intros [_ A _ _ G]. unfold dealt, handed. rewrite G. pose proof (sy_entry _ _ (ad_steady _ _ _ A) x.1) as He. unfold heldAt in He. destruct x as [n []]; cbn in *; try done.
  - intros Hd Hw. destruct (Hd Hw) as [?|[Ht ?]]; [left; by apply A|right]. rewrite Ht in He. done.
  - by apply agrees_adv.
Qed.

(** The name was left to its writer, to repair, or to the operator. *)
Definition excused (n : string) (st : Scan) : Prop := exists o, (n, o) ∈ sn_log st /\ match o with OBusy | OIntegrity | OSkipped _ => True | _ => False end.

Record complete (queued : string -> bool) (entries : list entry) (st : Scan) : Prop := mkComplete {
  cm_truth : forall x, x ∈ sn_log st -> dealt st x /\ x.2 <> OFault;
  cm_disk : forall n, EFile n ∈ entries -> tracked ignorePatterns n -> queued n = false -> unseen entries n \/ logged n st;
  cm_lost : forall n, n <> "" -> tracked ignorePatterns n -> queued n = false -> wd_tree (sn_world st) !! n = None -> live (rowsOf (sn_world st) !! n) = true -> logged n st
}.

Lemma compare_empty n : n <> "" -> String.compare "" n = Lt.
Proof. by destruct n. Qed.

Lemma final_settles d (g : option deletionGroup) : keeps settles
  (match g with
   | None => do! modifyS (fun st => set_breaker (bk_set_held 0 (sn_breaker st)) st) then retS false
   | Some g => let! st := getS in
       let '(events, b) := takeEventDeletions (sn_breaker st) in
       do! modifyS (set_breaker b) then
       let! err := settleOnVolume sha256Hex stored granularity ignorePatterns repairPeers now mapOrder d (merge g events) true in
       match err with None => retS false | Some PHeld => retS true | Some e => failS (SBreaker e) end
   end : SN bool).
Proof.
  destruct g as [g|].
  - apply keeps_bind; [apply _|apply keeps_get, _|]. intros st. cbn [takeEventDeletions]. apply keeps_bind; [apply _|apply settles_breaker|]. intros _. apply keeps_bind; [apply _|apply settles_settle|].
    intros err. destruct err as [[]|]; first [apply keeps_ret, _|apply keeps_fail, _].
  - apply keeps_bind; [apply _| |intros _; apply keeps_ret, _]. intros st [S1 S2 S3 S5 S4]. by split.
Qed.

(** After storage is validated the pass starts in order. *)
Lemma checked_sound st sa : ordered (sn_world st) -> CheckStorage sha256Hex stored granularity ignorePatterns repairPeers now mapOrder st = (Ok tt, sa) ->
  sound (set_deletions (sweepDeletions (sn_breaker sa)) sa) /\ sn_log sa = sn_log st.
Proof.
  intros Ho Ra. unfold CheckStorage, inVol, zoomS in Ra. destruct (prepare (sn_vol st)) as [[[]|e] va] eqn:Rv; [|done]. injection Ra as <-. destruct (prepare_tidy _ _ _ Ho Rv) as [Ho' Hj].
  apply prepare_ready in Rv. split; [|done]. split; cbn; [done|apply Ho'|apply Ho'|by apply Hj|]. unfold sweepDeletions. destruct (_ <=? 0); [done|]. eexists. apply group_ok_new.
Qed.

Lemma body_complete d queued root rootErr entries pages st held st' : ordered (sn_world st) -> sn_log st = [] ->
  sweep_body sha256Hex stored granularity ignorePatterns repairPeers now mapOrder d queued root rootErr entries pages st = (Ok held, st') -> complete queued entries st'.
Proof.
  intros Ho El R. unfold sweep_body in R. apply bindS_Ok in R as ([] & sa & Ra & R). apply bindS_Ok in R as ([] & sb & Rb & R). injection Rb as <-.
  destruct (checked_sound st sa Ho Ra) as [Hsb Hla]. rewrite El in Hla.
  set (sb := set_deletions _ sa) in *. assert (truthful sb) as Tb by (intros x Hx; cbn in Hx; rewrite Hla in Hx; by apply elem_of_nil in Hx).
  apply bindS_Ok in R as ([] & sc & Rc & R). pose proof (covers_silent ctxErr sb (sweeps_ctx sha256Hex) silent_ctx Hsb) as Cc. rewrite Rc in Cc. destruct Cc as [Sc Tc _]. cbn in Sc, Tc. specialize (Tc eq_refl Tb).
  apply bindS_Ok in R as ([] & sd & Rd & R). assert (sweeping sha256Hex sc sd /\ truthful sd) as [Sd Td].
  { destruct rootErr; [|injection Rd as <-; split; [by apply sweeping_refl, Sc|done]]. pose proof (covers_silent (modifyS (set_scanErr true)) sc (sweeps_scanErr sha256Hex) ltac:(by intros ?) (sw_sound _ _ _ Sc)) as C. rewrite Rd in C. destruct C as [S T _]. split; [done|by apply T]. }
  apply bindS_Ok in R as (batch & se & Re & R). pose proof (walk_covers entries queued root entries [] [] sd (sw_sound _ _ _ Sd) ltac:(done) ltac:(by intros x Hx; apply elem_of_nil in Hx)) as We. rewrite Re in We.
  destruct We as [Se Te Ne]. cbn [fst snd is_ok] in Se, Te, Ne. specialize (Te eq_refl Td).
  apply bindS_Ok in R as (se' & se2 & Rx & R). injection Rx as <- <-. apply bindS_Ok in R as ([] & se2 & Rx & R). destruct (sn_scanErr se) eqn:Ee; [done|]. injection Rx as <-.
  apply bindS_Ok in R as ([] & sf & Rf & R). pose proof (flush_covers batch se (sw_sound _ _ _ Se)) as Cf. rewrite Rf in Cf. destruct Cf as [Sf Tf Nf]. cbn [fst snd is_ok] in Sf, Tf, Nf. specialize (Tf eq_refl Te).
  apply bindS_Ok in R as (sf' & sf2 & Rx & R). injection Rx as <- <-. apply bindS_Ok in R as ([] & sf2 & Rx & R). destruct (sn_scanErr sf) eqn:Ef; [done|]. injection Rx as <-.
  apply bindS_Ok in R as ([] & sg & Rg & R). destruct (pages_cover pages queued "" sf _ _ (sw_sound _ _ _ Sf) Rg) as [[Sg Tg _] Ng]. cbn [fst snd is_ok] in Sg, Tg, Ng. specialize (Tg eq_refl Tf). specialize (Ng eq_refl).
  pose proof (errKept_pages pages queued "" sf) as Eg. rewrite Rg in Eg. unfold fieldKept in Eg. cbn in Eg. rewrite Ef in Eg.
  apply bindS_Ok in R as ([] & sh & Rh & R). pose proof (settles_prepare SErr sg (sw_sound _ _ _ Sg)) as Ah. unfold CheckStorage, inVol in Rh. rewrite Rh in Ah. cbn in Ah.
  apply bindS_Ok in R as (sh' & sh2 & Rx & R). injection Rx as <- <-.
  pose proof (final_settles d (sn_deletions sh) sh (am_sound _ _ Ah)) as Ai. assert (aftermath sh st') as Ai'.
  { destruct (sn_deletions sh) as [g|]; [|by rewrite R in Ai]. unfold bindS at 1 in Ai. cbn [getS] in Ai. by rewrite R in Ai. }
  clear Ai. assert (aftermath sg st') as A by exact ((settles_preorder.(PreOrder_Transitive) sg sh st' (fun _ => Ah) (fun _ => Ai')) (sw_sound _ _ _ Sg)).
  assert (forall n, logged n sg -> logged n st') as Hl by (intros n [o Hn]; exists o; by rewrite (am_log _ _ A)).
  split.
  - intros x Hx. rewrite (am_log _ _ A) in Hx. destruct (Tg x Hx) as [Hd Hf]. split; [by eapply dealt_after|]. intros Eo. specialize (Hf Eo). congruence.
  - intros n Hn Ht Hq. destruct (Ne batch n eq_refl) as [Hlg|[Hb|[Hu|He]]]; [by right| | | |congruence].
    + right. apply Hl. eapply logged_mono; [exact Sg|]. by eapply logged_mono.
    + right. apply Hl. eapply logged_mono; [exact Sg|]. by apply Nf.
    + by left.
  - intros n Hn Ht Hq Htr Hlv. apply Hl, (Ng (sn_world st')); [apply A|done|done|by apply compare_empty|done|done].
Qed.

(** *** The check of deletions is given enough pages *)

Lemma unspent_inspect name r : unspent (inspectError name r).
Proof. unfold inspectError, skip. spend. Qed.
Lemma unspent_flush batch : unspent (flush sha256Hex stored granularity ignorePatterns repairPeers now mapOrder batch).
Proof.
  unfold flush, onDisk, inVol. destruct batch as [|b bs]; [by intros ?|]. apply unspent_bind; [spend|]. intros rows. generalize (b :: bs). intros batch. induction batch as [|n batch IH]; cbn [flush_loop]; [by intros ?|].
  apply unspent_bind; [unfold ctxErr; spend|]. intros _. apply unspent_bind; [apply unspent_try|]. intros r. apply unspent_bind; [apply unspent_inspect|done].
Qed.
Lemma unspent_walk queued root entries skipped batch : unspent (walk_loop sha256Hex stored granularity ignorePatterns repairPeers now mapOrder queued root entries skipped batch).
Proof.
  revert skipped batch. induction entries as [|en entries IH]; intros skipped batch; cbn [walk_loop]; [by intros ?|]. destruct (existsb _ _); [apply IH|]. apply unspent_bind; [unfold ctxErr; spend|]. intros _.
  destruct en as [n []|n device|n]; try (apply unspent_bind; [by intros ?|done]).
  - destruct (shouldIgnore _ _); [apply IH|]. destruct root as [rd|]; [|apply IH]. apply unspent_bind; [unfold checkSameFilesystem, skip; spend|]. intros out. apply IH.
  - destruct (_ || _); [apply IH|]. cbv zeta. destruct (_ <=? _); [|apply IH]. apply unspent_bind; [apply unspent_flush|done].
Qed.
Lemma unspent_settle d g auth : unspent (settleOnVolume sha256Hex stored granularity ignorePatterns repairPeers now mapOrder d g auth).
Proof.
  assert (forall ctx names tried, unspent (publish_loop sha256Hex stored granularity ignorePatterns repairPeers now mapOrder ctx names tried)) as Hp.
  { intros ctx names. revert ctx. induction names as [|n names IH]; intros ctx tried; cbn [publish_loop]; [by intros ?|].
    assert (unspent (Sweep.publishDeletion sha256Hex stored granularity ignorePatterns repairPeers now mapOrder n)) as Hn by (unfold Sweep.publishDeletion; spend).
    destruct ctx as [|[] ctx]; [|by intros ?|]; (apply unspent_bind; [done|]; intros a; cbv zeta; destruct (tolerated _); [apply IH|by intros ?]). }
  unfold settleOnVolume. apply unspent_bind; [by intros ?|]. intros st. cbv zeta. apply unspent_bind; [apply Hp|]. intros tried. destruct (Breaker.settleDeletions _ _ _ _) as [[n err] b']. spend.
Qed.
Lemma unspent_final d (g : option deletionGroup) : unspent
  (match g with
   | None => do! modifyS (fun st => set_breaker (bk_set_held 0 (sn_breaker st)) st) then retS false
   | Some g => let! st := getS in
       let '(events, b) := takeEventDeletions (sn_breaker st) in
       do! modifyS (set_breaker b) then
       let! err := settleOnVolume sha256Hex stored granularity ignorePatterns repairPeers now mapOrder d (merge g events) true in
       match err with None => retS false | Some PHeld => retS true | Some e => failS (SBreaker e) end
   end : SN bool).
Proof. destruct g as [g|]; [|spend]. apply unspent_bind; [by intros ?|]. intros st. cbn [takeEventDeletions]. apply unspent_bind; [by intros ?|]. intros _. apply unspent_bind; [apply unspent_settle|]. intros err. spend. Qed.

(** A run that fails with this error fails in the first part or in the second. *)
Lemma bindS_spent {A B} (c : SN A) (k : A -> SN B) st st' : unspent c -> bindS c k st = (Err SPages, st') -> exists a st1, c st = (Ok a, st1) /\ k a st1 = (Err SPages, st').
Proof. intros Hc R. unfold bindS in R. specialize (Hc st). destruct (c st) as [[a|e] st1]; [eauto|]. cbn in Hc. congruence. Qed.

Lemma body_enough d queued root rootErr entries pages st st' : ordered (sn_world st) ->
  sweep_body sha256Hex stored granularity ignorePatterns repairPeers now mapOrder d queued root rootErr entries pages st = (Err SPages, st') -> (pages <= size (rowsOf (sn_world st')))%nat.
Proof.
  intros Ho R. unfold sweep_body in R. apply bindS_spent in R as ([] & sa & Ra & R); [|by apply unspent_zoom]. apply bindS_spent in R as ([] & sb & Rb & R); [|by intros ?]. injection Rb as <-.
  destruct (checked_sound st sa Ho Ra) as [Hsb _]. set (sb := set_deletions _ sa) in *.
  apply bindS_spent in R as ([] & sc & Rc & R); [|unfold ctxErr; spend]. pose proof (sweeps_ctx sha256Hex sb Hsb) as Sc. rewrite Rc in Sc. cbn in Sc.
  apply bindS_spent in R as ([] & sd & Rd & R); [|destruct rootErr; by intros ?]. assert (sweeping sha256Hex sc sd) as Sd.
  { destruct rootErr; [|injection Rd as <-; by apply sweeping_refl, Sc]. pose proof (sweeps_scanErr sha256Hex sc (sw_sound _ _ _ Sc)) as S. by rewrite Rd in S. }
  apply bindS_spent in R as (batch & se & Re & R); [|apply unspent_walk]. pose proof (walk_covers entries queued root entries [] [] sd (sw_sound _ _ _ Sd) ltac:(done) ltac:(by intros x Hx; apply elem_of_nil in Hx)) as We. rewrite Re in We. destruct We as [Se _ _]. cbn [fst snd is_ok] in Se.
  apply bindS_spent in R as (se' & se2 & Rx & R); [|by intros ?]. injection Rx as <- <-. apply bindS_spent in R as ([] & se2 & Rx & R); [|destruct (sn_scanErr se); by intros ?]. destruct (sn_scanErr se); [done|]. injection Rx as <-.
  apply bindS_spent in R as ([] & sf & Rf & R); [|apply unspent_flush]. pose proof (flush_covers batch se (sw_sound _ _ _ Se)) as Cf. rewrite Rf in Cf. destruct Cf as [Sf _ _]. cbn [fst snd is_ok] in Sf.
  apply bindS_spent in R as (sf' & sf2 & Rx & R); [|by intros ?]. injection Rx as <- <-. apply bindS_spent in R as ([] & sf2 & Rx & R); [|destruct (sn_scanErr sf); by intros ?]. destruct (sn_scanErr sf); [done|]. injection Rx as <-.
  unfold bindS at 1 in R. destruct (deletion_pages _ _ _ _ _ _ _ pages queued "" sf) as [[[]|e] sg] eqn:Rg.
  - exfalso. apply bindS_spent in R as ([] & sh & Rh & R); [|by apply unspent_zoom]. apply bindS_spent in R as (sh' & sh2 & Rx & R); [|by intros ?]. injection Rx as <- <-.
    pose proof (unspent_final d (sn_deletions sh) sh) as U. apply U. destruct (sn_deletions sh) as [g|]; [|by rewrite R]. unfold bindS at 1. cbn [getS]. by rewrite R.
  - injection R as -> ->. apply pages_enough in Rg; [|apply Sf]. etrans; [exact Rg|]. apply names_after_size.
Qed.

(** The file was seen unchanged, and what was seen is what the row has. *)
Definition agreed (n : string) (st : Scan) : Prop := exists seen, (n, OUnchanged seen) ∈ sn_log st /\ agrees n seen (sn_world st).

(** C9. A sweep the node is satisfied with has looked at everything. When a sweep leaves no
    error in the node's status, each name that replication is about and that the event loop does
    not already have is dealt with. If it is on the disk and the walk showed it, its row
    describes it, or the sweep saw that very file with the row's size and, at the granularity of
    the volume, the row's time, or it was left to a writer, to repair from a peer or, with a count
    by reason, to the operator, unless it lies below a directory that could not be read. If it is
    indexed as present and nothing is on the disk, its absence is in the group the deletion
    breaker decides, or it was left in one of those ways.
    The pages of the deletion check end: more pages than there are rows are never asked for.
    Replacements that were interrupted are recovered first, by a recovery that leaves the tables
    alone, passes only when no journal is left, and only looks when there is none ([JournalLaws]). *)
Theorem sweep_accounts_for_all (d : decision) (queued : string -> bool) (root : option Z) (rootErr : bool) (entries : list entry) (pages : nat) (st st' : Scan) (r : result serr unit) :
  ordered (sn_world st) ->
  sweep sha256Hex stored granularity ignorePatterns repairPeers now mapOrder d queued root rootErr entries pages st = (r, st') ->
  (ss_lastError (sn_status st') = Some SPages -> (pages <= size (rowsOf (sn_world st')))%nat) /\
  (ss_lastError (sn_status st') = None -> forall n, n <> "" -> tracked ignorePatterns n -> queued n = false ->
   match wd_tree (sn_world st') !! n with
   | Some NDir => True
   | Some _ => EFile n ∈ entries -> indexedAt sha256Hex n (sn_world st') \/ agreed n st' \/ excused n st' \/ unseen entries n
   | None => live (rowsOf (sn_world st') !! n) = true -> handed n st' \/ excused n st'
   end).
Proof.
  intros Ho R. assert (match ss_lastError (sn_status st') with None => complete queued entries st' | Some e => e = SPages -> (pages <= size (rowsOf (sn_world st')))%nat end) as Hb.
  { unfold sweep in R. unfold bindS at 1 in R. cbn [modifyS] in R. unfold bindS at 1 in R. unfold tryS at 1 in R.
    destruct (sweep_body _ _ _ _ _ _ _ d queued root rootErr entries pages (beginSweep st)) as [[held|e] s1] eqn:Rb.
    - apply body_complete in Rb; [|done|done]. assert (st' = finished now held s1) as -> by (cbn in R; destruct held; [by injection R as _ <-|]; destruct (sn_integrityErr _); by injection R as _ <-).
      destruct Rb as [B1 B2 B3]. by split.
    - cbn in R. injection R as _ <-. cbn. intros ->. by apply body_enough in Rb. }
  split; [intros E; rewrite E in Hb; by apply Hb|]. intros He n Hne Ht Hq. rewrite He in Hb. destruct Hb as [C1 C2 C3].
  assert (forall o, (n, o) ∈ sn_log st' -> dealt st' (n, o) /\ (excused n st' \/ o = OIndexed \/ exists seen, o = OUnchanged seen)) as Hcase.
  { intros o Hin. destruct (C1 _ Hin) as [Hd Hf]. split; [done|]. destruct o; try (left; by exists (OSkipped ""); fail); try (left; eexists; split; [exact Hin|done]); eauto. }
  destruct (wd_tree (sn_world st') !! n) as [x|] eqn:Ex.
  - assert (EFile n ∈ entries -> indexedAt sha256Hex n (sn_world st') \/ agreed n st' \/ excused n st' \/ unseen entries n) as Hx; [|by destruct x].
    intros Hin. destruct (C2 n Hin Ht Hq) as [?|[o Hn]]; [by auto|]. destruct (Hcase o Hn) as [Hd [?|[-> |[seen ->]]]]; [by auto| |].
    + destruct (Hd ltac:(split; [apply Ht|apply Ht, atOrUnder_refl])) as [?|[Hnone _]]; [by left|]. cbn in Hnone. congruence.
    + destruct Hd as [?|?]; [by left|right; left; by exists seen].
  - intros Hlv. assert (indexedAt sha256Hex n (sn_world st') -> False) as Hno.
    { intros Hi. unfold indexedAt, describes in Hi. rewrite Ex in Hi. destruct (rowsOf (sn_world st') !! n) as [m|]; [|done]. cbn in Hi, Hlv. by rewrite Hi in Hlv. }
    destruct (C3 n Hne Ht Hq Ex Hlv) as [o Hn]. destruct (Hcase o Hn) as [Hd [?|[-> |[seen ->]]]]; [by right| |].
    + destruct (Hd ltac:(split; [apply Ht|apply Ht, atOrUnder_refl])) as [Hi|[_ Hh]]; [by destruct Hno|by left].
    + destruct Hd as [?|(i & r0 & Hi & _)]; [by destruct Hno|]. cbn in Hi. congruence.
Qed.
End Run.

(** ** A run *)

(** A file [a] that no event reported. *)
Definition sweptTree : gmap string node := <["a" := NFile (mkInode 0 2 "new" 50 420 false)]> uploadTree.
Definition sweptVol : Vol := mkVol (plainWorld sweptTree uploadStore) None None false None ∅.
Definition sweptScan : Scan := mkScan sweptVol (mkBreaker 100 None [] true 0 SavedNone) (mkStatus None None emptyTally ∅ false) [] None false false emptyTally [].
Definition sweptEntries : list entry := [EDir ".birak" (Ok (Some 1)); EFile ".birak/storage-id"; EFile ".birak-tmp-1"; EFile "a"].


Lemma sweptScan_ordered : ordered (sn_world sweptScan).
Proof.
  split.
  - intros n e m. change (replica_intents (db (wd_store (sn_world sweptScan)))) with (∅ : gmap string encoded). by rewrite lookup_empty.
  - intros n m. change (files (db (wd_store (sn_world sweptScan)))) with (∅ : gmap string FileMeta). by rewrite lookup_empty.
Qed.

(** A recovery that refuses to go on while a journal is there. *)
Definition journalBlocked (t : gmap string node) : bool := existsb (fun kv : string * node => isReplacementJournal kv.1) (map_to_list t).
#[local] Instance waryRecovery : TreeRecovery :=
  { RecoverLocked := do! sysW then let! w := getS in if journalBlocked (wd_tree w) then failS WSys else retS tt }.
#[local] Instance waryRecoveryLaws : JournalLaws.
Proof.
  assert (forall w, (RecoverLocked w).2 = (sysW w).2) as E.
  { intros w. cbn. rewrite bindS_run. destruct (sysW w) as [[[]|e] w1]; [|done]. rewrite bindS_run. cbn. by destruct (journalBlocked _). }
  split.
  - intros w. rewrite E. apply sysW_store.
  - intros w _. rewrite E. apply quiet_sysW.
  - intros w w' R n Hn. cbn in R. apply bindS_Ok in R as ([] & w1 & _ & R). apply bindS_Ok in R as (w2 & w3 & Rg & R). injection Rg as <- <-.
    destruct (journalBlocked (wd_tree w1)) eqn:Eb; [done|]. injection R as <-. destruct (wd_tree w1 !! n) as [x|] eqn:Ex; [|done]. exfalso.
    apply not_true_iff_false in Eb. apply Eb, existsb_exists. exists (n, x). split; [by apply list_elem_of_In, elem_of_map_to_list|done].
Qed.
Definition sweptWary : result serr unit * Scan :=
  sweep (H := asciiFolding) (H0 := waryRecovery) idHash (fun t => t) 1 [] ["p"] 9 elements (mkDecision 1 2 3 true true) (fun _ => false) (Some 1) false sweptEntries 2 sweptScan.
(** The next sweep finds it unchanged. *)
Definition sweptAgain : result serr unit * Scan :=
  sweep (H := asciiFolding) (H0 := waryRecovery) idHash (fun t => t) 1 [] ["p"] 9 elements (mkDecision 4 5 6 true true) (fun _ => false) (Some 1) false sweptEntries 3 sweptWary.2.

Lemma sweep_accounts_for_all_witness : ss_lastError (sn_status sweptWary.2) = None /\ ss_ready (sn_status sweptWary.2) = true /\
  (indexedAt idHash "a" (sn_world sweptWary.2) \/ agreed 1 "a" sweptWary.2 \/ excused "a" sweptWary.2 \/ unseen sweptEntries "a") /\
  sn_log sweptAgain.2 = [("a", OUnchanged (mkInfo 0 2 3 50 420)); ("a", OUnchanged (mkInfo 0 2 3 50 420))].
Proof.
  assert (ss_lastError (sn_status sweptWary.2) = None) as E by (vm_compute; reflexivity). split; [exact E|]. split; [vm_compute; reflexivity|]. split; [|vm_compute; reflexivity].
  assert (wd_tree (sn_world sweptWary.2) !! "a" = Some (NFile (mkInode 0 2 "new" 50 420 true))) as Ei by (vm_compute; reflexivity).
  assert (EFile "a" ∈ sweptEntries) as Hin by (unfold sweptEntries; do 3 apply list_elem_of_further; apply list_elem_of_here).
  destruct (sweep_accounts_for_all (H := asciiFolding) (H0 := waryRecovery) idHash (fun t => t) 1 [] ["p"] 9 elements elements_order (mkDecision 1 2 3 true true) (fun _ => false) (Some 1) false sweptEntries 2 sweptScan sweptWary.2 sweptWary.1
    sweptScan_ordered (surjective_pairing _)) as [_ Hx].
  specialize (Hx E "a" ltac:(discriminate) a_tracked (eq_refl false)). rewrite Ei in Hx. exact (Hx Hin).
Defined.
