(* ===== verification/Events.v ===== *)
(** * The watcher's event loop

    internal/watcher/watcher.go: what [Run] does with a filesystem event, the debounced batches
    it hands over, the backlog of names the processing goroutine keeps, and its loop. The two
    goroutines interleave; what the kernel reports, timers and ticks are steps that may happen at
    any time. Indexing a name and sweeping run on the volume. *)

From S2P Require Import Prelude GoStrings Hoare FileMeta Database Names Store RepairQueue Integrity Intents Glob Validate Sync Breaker Transfer Volume Paths Indexing Apply Storage Commits Accounting Writes Sweep.

(** ** The backlog *)

(** [type backlog struct] *)
Record backlog := mkBacklog { bl_order : list string; bl_head : nat; bl_set : gset string }.

(** [func newBacklog() *backlog] *)
Definition newBacklog : backlog := mkBacklog [] 0 ∅.
(** [func (b *backlog) len() int] *)
Definition backlogLen (b : backlog) : nat := length (bl_order b) - bl_head b.
(** [func (b *backlog) has(name string) bool] *)
Definition has (b : backlog) (name : string) : bool := bool_decide (name ∈ bl_set b).

(** [func (b *backlog) add(names []string)] *)
Definition addName (b : backlog) (name : string) : backlog :=
  if has b name then b else mkBacklog (bl_order b ++ [name]) (bl_head b) ({[name]} ∪ bl_set b).
Definition addNames (names : list string) (b : backlog) : backlog := fold_left addName names b.

(** [func (b *backlog) next() string]; an index out of range is [None]. *)
Definition next (b : backlog) : option (string * backlog) :=
  match bl_order b !! bl_head b with
  | None => None
  | Some name =>
      let order := <[bl_head b := ""]> (bl_order b) in
      let head := S (bl_head b) in
      let set := bl_set b ∖ {[name]} in
      Some (name,
        if (head =? length order)%nat then mkBacklog [] 0 set
        else if (4096 <=? head)%nat && (length order <=? 2 * head)%nat then mkBacklog (drop head order) 0 set
        else mkBacklog order head set)
  end.

(** The names that wait, first to be indexed first. *)
Definition waiting (b : backlog) : list string := drop (bl_head b) (bl_order b).
(** A queue without repetitions. *)
Definition enqueue (names q : list string) : list string := fold_left (fun q n => if bool_decide (n ∈ q) then q else q ++ [n]) names q.

Lemma enqueue_elem names q : (forall n, n ∈ names -> n ∈ enqueue names q) /\ (forall n, n ∈ q -> n ∈ enqueue names q).
Proof.
  revert q. induction names as [|m names IH]; intros q; [set_solver|]. cbn. destruct (IH (if bool_decide (m ∈ q) then q else q ++ [m])) as [H1 H2]. unfold enqueue in *.
  assert (forall n, n ∈ q \/ n = m -> n ∈ (if bool_decide (m ∈ q) then q else q ++ [m])) as Hm by (intros n; case_bool_decide; set_solver).
  split; [intros n [-> |Hn]%elem_of_cons|intros n Hn]; auto.
Qed.
Lemma enqueue_length names q : (length (enqueue names q) <= length names + length q)%nat.
Proof.
  revert q. induction names as [|m names IH]; intros q; [done|]. cbn. specialize (IH (if bool_decide (m ∈ q) then q else q ++ [m])). unfold enqueue in *. case_bool_decide; [lia|]. rewrite length_app in IH. cbn in IH. lia.
Qed.

Record backlog_ok (b : backlog) : Prop := mkBacklogOk {
  bo_set : forall n, n ∈ bl_set b <-> n ∈ waiting b;
  bo_once : NoDup (waiting b);
  bo_head : (bl_head b <= length (bl_order b))%nat;
  bo_space : (bl_head b < 4096 \/ bl_head b < length (waiting b))%nat
}.

Lemma backlog_ok_new : backlog_ok newBacklog.
Proof. split; cbn; [set_solver|constructor|lia|lia]. Qed.
Lemma backlogLen_waiting b : backlogLen b = length (waiting b).
Proof. unfold backlogLen, waiting. by rewrite length_drop. Qed.
Lemma has_waiting b n : backlog_ok b -> has b n = bool_decide (n ∈ waiting b).
Proof. intros H. unfold has. apply bool_decide_ext, H. Qed.

Lemma addName_ok b n : backlog_ok b -> backlog_ok (addName b n) /\ waiting (addName b n) = (if bool_decide (n ∈ waiting b) then waiting b else waiting b ++ [n]).
Proof.
  intros H. unfold addName. rewrite has_waiting by done. destruct (bool_decide _) eqn:E; [by split|]. apply bool_decide_eq_false in E.
  assert (waiting (mkBacklog (bl_order b ++ [n]) (bl_head b) ({[n]} ∪ bl_set b)) = waiting b ++ [n]) as Ew by (unfold waiting; cbn; by rewrite drop_app_le by apply H).
  split; [|done]. destruct H as [H1 H2 H3 H4]. split; rewrite ?Ew; cbn.
  - intros m. rewrite elem_of_union, elem_of_singleton, elem_of_app, list_elem_of_singleton, H1. tauto.
  - apply NoDup_app. split; [done|]. split; [|apply NoDup_singleton]. intros m Hm ->%list_elem_of_singleton. done.
  - rewrite length_app. cbn. lia.
  - rewrite length_app. cbn. lia.
Qed.
Lemma addNames_ok names b : backlog_ok b -> backlog_ok (addNames names b) /\ waiting (addNames names b) = enqueue names (waiting b).
Proof.
  revert b. induction names as [|n names IH]; intros b H; [done|]. destruct (addName_ok b n H) as [H1 H2]. destruct (IH _ H1) as [H3 H4]. split; [done|].
  cbn. change (fold_left addName names (addName b n)) with (addNames names (addName b n)). by rewrite H4, H2.
Qed.

Lemma next_ok b : backlog_ok b ->
  match waiting b with
  | [] => next b = None
  | n :: rest => exists b', next b = Some (n, b') /\ backlog_ok b' /\ waiting b' = rest
  end.
Proof.
  intros [H1 H2 H3 H4]. unfold next. destruct (waiting b) as [|n rest] eqn:Ew; unfold waiting in Ew.
  - assert (length (bl_order b) <= bl_head b)%nat by (by apply (f_equal length) in Ew; rewrite length_drop in Ew; cbn in Ew; lia). by rewrite lookup_ge_None_2.
  - assert (bl_order b !! bl_head b = Some n) as En by (rewrite <- (Nat.add_0_r (bl_head b)), <- lookup_drop, Ew; done). rewrite En.
    assert (drop (S (bl_head b)) (<[bl_head b := ""]> (bl_order b)) = rest) as Er.
    { rewrite drop_insert_lt by lia. by rewrite <- Nat.add_1_r, <- drop_drop, Ew. }
    assert (length (bl_order b) = S (bl_head b) + length rest)%nat as El by (apply (f_equal length) in Ew; rewrite length_drop in Ew; cbn in Ew; apply lookup_lt_Some in En; lia).
    assert (forall m, m ∈ bl_set b ∖ {[n]} <-> m ∈ rest) as Hset.
    { intros m. rewrite elem_of_difference, elem_of_singleton, H1, elem_of_cons. apply NoDup_cons in H2 as [H2 _]. split; [tauto|]. intros Hm. split; [by right|]. intros ->. done. }
    apply NoDup_cons in H2 as [_ H2]. eexists. split; [reflexivity|]. rewrite length_insert. cbn [length] in H4.
    destruct (Nat.eqb_spec (S (bl_head b)) (length (bl_order b))) as [E|E].
    { assert (rest = []) as -> by (apply nil_length_inv; lia). split; [|done]. by split; cbn; [|constructor|lia|lia]. }
    destruct (_ && _) eqn:Ec.
    { unfold waiting. cbn. rewrite drop_0, Er. split; [|done]. split; unfold waiting; cbn; rewrite ?drop_0, ?Er; [done|done|lia|lia]. }
    unfold waiting. cbn [bl_order bl_head]. rewrite Er. split; [|done]. split; unfold waiting; cbn [bl_order bl_head bl_set]; rewrite ?Er, ?length_insert; [done|done|lia|].
    apply andb_false_iff in Ec as [Ec%Nat.leb_gt|Ec%Nat.leb_gt]; lia.
Qed.

(** The backlog is a queue of distinct names. With a slice, a head index, cleared slots,
    compaction and a set beside it, it behaves as the list of names that wait: adding appends the
    names that are not there, in order, the next name is the first one (there is none exactly when
    the length is zero), membership is exact, and the slots kept for names already taken are
    fewer than 4096 or than the names still waiting. *)
Theorem backlog_refines (b : backlog) (names : list string) (n : string) : backlog_ok b ->
  backlogLen b = length (waiting b) /\ has b n = bool_decide (n ∈ waiting b) /\
  (backlog_ok (addNames names b) /\ waiting (addNames names b) = enqueue names (waiting b)) /\
  match waiting b with
  | [] => next b = None
  | m :: rest => exists b', next b = Some (m, b') /\ backlog_ok b' /\ waiting b' = rest
  end /\
  (length (bl_order b) < length (waiting b) + Nat.max 4096 (length (waiting b)))%nat.
Proof.
  intros H. split; [apply backlogLen_waiting|]. split; [by apply has_waiting|]. split; [by apply addNames_ok|]. split; [by apply next_ok|].
  destruct H as [_ _ H3 H4]. unfold waiting in *. rewrite length_drop in *. lia.
Qed.
Lemma backlog_refines_witness : exists b', next (addNames ["a"; "b"; "a"] newBacklog) = Some ("a", b') /\ waiting b' = ["b"].
Proof.
  destruct (addNames_ok ["a"; "b"; "a"] newBacklog backlog_ok_new) as [H _].
  destruct (backlog_refines (addNames ["a"; "b"; "a"] newBacklog) [] "" H) as (_ & _ & _ & Hn & _).
  assert (waiting (addNames ["a"; "b"; "a"] newBacklog) = ["a"; "b"]) as E by (vm_compute; reflexivity). rewrite E in Hn. destruct Hn as (b' & H1 & _ & H3). exists b'. split; assumption.
Defined.

(** ** The two goroutines *)

Definition workQueueDepth : Z := 256.
Definition maxBacklog : Z := 100000.

(** Where the processing goroutine is. While it indexes a name or sweeps, [due] are the names
    that the look it takes will settle: those reported since are not among them. *)
Inductive lpc := Top | Idle | Naming (name : string) (due : gset string) | Sweeping (due : gset string) | Stopped.

Record Loop := mkLoop {
  lp_pending : gset string;          (* debounced by the event loop *)
  lp_debounce : bool;                (* whether a timer is set *)
  lp_work : list (list string);      (* the channel [work] *)
  lp_rescan : bool;                  (* the channel [rescan], of capacity one *)
  lp_backlog : backlog;
  lp_pc : lpc;
  lp_scan : Scan;
  lp_owed : gset string              (* reported, and not looked at since *)
}.

Definition dueOf (p : lpc) : gset string := match p with Naming _ due => due | Sweeping due => due | _ => ∅ end.
Definition still_due (reported : gset string) (p : lpc) : lpc :=
  match p with Naming n due => Naming n (due ∖ reported) | Sweeping due => Sweeping (due ∖ reported) | p => p end.

(** [func (w *Watcher) requestRescan()] *)
Definition requestRescan (st : Loop) : Loop :=
  mkLoop (lp_pending st) (lp_debounce st) (lp_work st) true (lp_backlog st) (lp_pc st) (lp_scan st) (lp_owed st).
(** [func (w *Watcher) submit(names []string)] *)
Definition submit (names : list string) (st : Loop) : Loop :=
  if Z.of_nat (length (lp_work st)) <? workQueueDepth
  then mkLoop (lp_pending st) (lp_debounce st) (lp_work st ++ [names]) (lp_rescan st) (lp_backlog st) (lp_pc st) (lp_scan st) (lp_owed st)
  else requestRescan st.
(** [flushPending]; [order] is the order the map is ranged over in. *)
Definition flushPending (order : list string) (st : Loop) : Loop :=
  let st0 := mkLoop ∅ false (lp_work st) (lp_rescan st) (lp_backlog st) (lp_pc st) (lp_scan st) (lp_owed st) in
  match order with [] => st0 | _ => submit order st0 end.

(** [func (w *Watcher) absorb(b *backlog)] *)
Fixpoint absorb (work : list (list string)) (b : backlog) : list (list string) * backlog :=
  match work with
  | [] => ([], b)
  | names :: rest => if Z.of_nat (backlogLen b) <? maxBacklog then absorb rest (addNames names b) else (work, b)
  end.

Section Loop.
Context `{NameFolding} `{TreeRecovery} (sha256Hex : string -> string) (stored : Z -> Z) (granularity : Z).
Context (ignorePatterns : list string) (repairPeers : list string) (now : Z).
Context (mapOrder : gset string -> list string).
Abbreviation scan := (scanFileWith sha256Hex stored granularity ignorePatterns repairPeers now mapOrder).

(** The names an event adds to what is pending, or that it is passed over: [created] says that
    the event has [Create], [dir1] and [dir2] whether the two calls of [Stat] find a directory,
    [found] the files the walk of a new directory shows. *)
Definition reportedBy (relPath : string) (created dir1 : bool) (found : list string) (dir2 : bool) : option (gset string) :=
  if (relPath =s ".") || isOutsideSyncDir relPath || shouldIgnore ignorePatterns relPath then None
  else Some ((if created && dir1 then list_to_set (List.filter (fun n => negb (shouldIgnore ignorePatterns n)) found) else ∅)
             ∪ (if dir2 then ∅ else {[relPath]})).
Definition event (relPath : string) (created dir1 : bool) (found : list string) (dir2 : bool) (st : Loop) : Loop :=
  match reportedBy relPath created dir1 found dir2 with
  | None => st
  | Some names => mkLoop (names ∪ lp_pending st) true (lp_work st) (lp_rescan st) (lp_backlog st) (still_due names (lp_pc st)) (lp_scan st) (names ∪ lp_owed st)
  end.

(** [func (w *Watcher) processName(name string)] *)
Definition processName (name : string) : SN unit :=
  let! st := getS in
  let! r := tryS (scan name (0 <? bk_limit (sn_breaker st))) in
  let! missing := takeDeferred in
  do! modifyS (fun st => set_breaker (fold_left (fun b n => deferEventDeletion n b) missing (sn_breaker st)) st) then
  match r with
  | Ok _ => retS tt
  | Err e =>
      if isBusy e || isIntegrity e then retS tt
      else match unindexable e with
           | Some reason => modifyS (fun st =>
               let s := sn_status st in
               set_status (mkStatus (ss_lastScan s) (ss_lastError s) (ss_lastSkipped s)
                 (<[reason := default 0 (ss_skipTotals s !! reason) + 1]> (ss_skipTotals s)) (ss_ready s)) st)
           | None => modifyS (Sweep.failed e)
           end
  end.

(** [func (w *Watcher) settleEventDeletions(ctx context.Context)] on the volume. *)
Definition settleEvents (d : decision) : SN unit :=
  let! st := getS in
  let '(group, b) := takeEventDeletions (sn_breaker st) in
  do! modifyS (set_breaker b) then
  match group with
  | None => retS tt
  | Some g =>
      if dg_count g =? 0 then retS tt
      else
        let! err := settleOnVolume sha256Hex stored granularity ignorePatterns repairPeers now mapOrder d g false in
        match err with
        | None | Some PHeld => retS tt
        | Some e => modifyS (Sweep.failed (SBreaker e))
        end
  end.

(** What may happen next. *)
Inductive occurrence :=
| AEvent (relPath : string) (created dir1 : bool) (found : list string) (dir2 : bool)
| AFlush (order : list string)              (* a timer, or the context at shutdown *)
| AOverflow (lost : gset string)            (* the kernel dropped events and said so *)
| ANotify                                   (* a gateway could not index what it did *)
| ATop (d : decision)                       (* the backlog is empty: settle, then wait *)
| ATake                                     (* a batch arrives *)
| ARescan
| ATick
| AName                                     (* the next name of the backlog *)
| ANamed                                    (* ... has been looked at *)
| ASwept (d : decision) (root : option Z) (rootErr : bool) (entries : list entry) (pages : nat)
| AStop.

Definition with_loop (work : list (list string)) (rescan : bool) (b : backlog) (p : lpc) (st : Loop) : Loop :=
  mkLoop (lp_pending st) (lp_debounce st) work rescan b p (lp_scan st) (lp_owed st).
(** Whether what the loop did on the volume asked for a scan: clearing a quarantine does. *)
Definition askedScan (s s' : Scan) : bool := negb (nt_rescans (wd_notes (sn_world s')) =? nt_rescans (wd_notes (sn_world s))).
(** A look that ends without an error of the node settles what was due. *)
Definition looked (s : Scan) (st : Loop) : Loop :=
  mkLoop (lp_pending st) (lp_debounce st) (lp_work st) (lp_rescan st || askedScan (lp_scan st) s) (lp_backlog st) Top s
    (match ss_lastError (sn_status s) with None => lp_owed st ∖ dueOf (lp_pc st) | Some _ => lp_owed st end).

(** [func (w *Watcher) Run(ctx context.Context) error] and
    [func (w *Watcher) processLoop(ctx context.Context)]: one step of either. *)
Definition react (a : occurrence) (st : Loop) : option Loop :=
  match a with
  | AEvent relPath created dir1 found dir2 => Some (event relPath created dir1 found dir2 st)
  | AFlush order => if bool_decide (list_to_set order = lp_pending st /\ NoDup order) then Some (flushPending order st) else None
  | AOverflow lost => Some (requestRescan (mkLoop (lp_pending st) (lp_debounce st) (lp_work st) (lp_rescan st) (lp_backlog st) (still_due lost (lp_pc st)) (lp_scan st) (lost ∪ lp_owed st)))
  | ANotify => Some (requestRescan st)
  | ATop d =>
      match lp_pc st with
      | Top => if (backlogLen (lp_backlog st) =? 0)%nat
               then let s := (settleEvents d (lp_scan st)).2 in
                    Some (mkLoop (lp_pending st) (lp_debounce st) (lp_work st) (lp_rescan st || askedScan (lp_scan st) s) (lp_backlog st) Idle s (lp_owed st))
               else None
      | _ => None
      end
  | ATake =>
      match lp_pc st, lp_work st with
      | Idle, names :: rest => Some (with_loop rest (lp_rescan st) (addNames names (lp_backlog st)) Top st)
      | _, _ => None
      end
  | ARescan =>
      match lp_pc st with
      | Idle => if lp_rescan st then Some (with_loop (lp_work st) false (lp_backlog st) (Sweeping (lp_owed st ∖ list_to_set (waiting (lp_backlog st)))) st) else None
      | _ => None
      end
  | ATick =>
      match lp_pc st with
      | Idle => Some (with_loop (lp_work st) (lp_rescan st) (lp_backlog st) (Sweeping (lp_owed st ∖ list_to_set (waiting (lp_backlog st)))) st)
      | Top => if (backlogLen (lp_backlog st) =? 0)%nat then None
               else let '(work, b) := absorb (lp_work st) (lp_backlog st) in
                    Some (with_loop work (lp_rescan st) b (Sweeping (lp_owed st ∖ list_to_set (waiting b))) st)
      | _ => None
      end
  | AName =>
      match lp_pc st with
      | Top => if (backlogLen (lp_backlog st) =? 0)%nat then None
               else let '(work, b) := absorb (lp_work st) (lp_backlog st) in
                    match next b with
                    | Some (name, b) => Some (with_loop work (lp_rescan st) b (Naming name {[name]}) st)
                    | None => None
                    end
      | _ => None
      end
  | ANamed => match lp_pc st with Naming name _ => Some (looked (processName name (lp_scan st)).2 st) | _ => None end
  | ASwept d root rootErr entries pages =>
      match lp_pc st with
      | Sweeping _ => Some (looked (sweep sha256Hex stored granularity ignorePatterns repairPeers now mapOrder d (has (lp_backlog st)) root rootErr entries pages (lp_scan st)).2 st)
      | _ => None
      end
  | AStop => match lp_pc st with Top | Idle => Some (with_loop (lp_work st) (lp_rescan st) (lp_backlog st) Stopped st) | _ => None end
  end.

(** The loop begins with a scan of everything. *)
Definition started (scan : Scan) (unknown : gset string) : Loop := mkLoop ∅ false [] false newBacklog (Sweeping unknown) scan unknown.
Inductive runs (st0 : Loop) : Loop -> Prop :=
| runs_start : runs st0 st0
| runs_step st a st' : runs st0 st -> react a st = Some st' -> runs st0 st'.

(** ** What is known of every state *)

(** Something will still look at the name. *)
Definition covered (st : Loop) (n : string) : Prop :=
  n ∈ lp_pending st \/ n ∈ concat (lp_work st) \/ n ∈ waiting (lp_backlog st) \/ lp_rescan st = true \/ n ∈ dueOf (lp_pc st).
Definition busy (p : lpc) : bool := match p with Naming _ _ | Sweeping _ => true | _ => false end.
Definition sweepingNow (p : lpc) : bool := match p with Sweeping _ => true | _ => false end.

Record loop_ok (st : Loop) : Prop := mkLoopOk {
  lk_backlog : backlog_ok (lp_backlog st);
  lk_depth : Z.of_nat (length (lp_work st)) <= workQueueDepth;
  lk_cover : ss_lastError (sn_status (lp_scan st)) = None \/ sweepingNow (lp_pc st) = true -> forall n, n ∈ lp_owed st -> covered st n
}.

Lemma absorb_ok work b work' b' : backlog_ok b -> absorb work b = (work', b') ->
  backlog_ok b' /\ (length work' <= length work)%nat /\ forall n, n ∈ concat work \/ n ∈ waiting b -> n ∈ concat work' \/ n ∈ waiting b'.
Proof.
  revert b. induction work as [|names work IH]; intros b Hb E; cbn in E; [injection E as <- <-; auto|]. destruct (_ <? _); [|by injection E as <- <-].
  destruct (addNames_ok names b Hb) as [H1 H2]. destruct (IH _ H1 E) as (H3 & H4 & H5). split; [done|]. split; [cbn; lia|]. intros n Hn. apply H5. rewrite H2. cbn in Hn. rewrite elem_of_app in Hn.
  destruct (enqueue_elem names (waiting b)) as [K1 K2]. destruct Hn as [[Hn|Hn]|Hn]; [right; by apply K1|by left|right; by apply K2].
Qed.

(** Only a sweep that ends well clears the node's error. *)
Lemma processName_error name s : ss_lastError (sn_status (processName name s).2) = None -> ss_lastError (sn_status s) = None.
Proof.
  unfold processName. unfold bindS at 1. cbn [getS]. unfold bindS at 1. unfold tryS at 1.
  destruct (scan_vol sha256Hex stored granularity ignorePatterns repairPeers now mapOrder name (0 <? bk_limit (sn_breaker s)) s) as [v E]. destruct (scan name _ s) as [r s1]. cbn in E. subst s1.
  unfold takeDeferred. cbn [bindS getS onDisk inVol inWorld zoomS modifyS retS]. destruct r as [[]|e]; [done|]. destruct (_ || _); [done|]. by destruct (unindexable e).
Qed.
Lemma settle_status d g auth : keeps (fieldKept sn_status) (settleOnVolume sha256Hex stored granularity ignorePatterns repairPeers now mapOrder d g auth).
Proof.
  assert (forall n, keeps (fieldKept sn_status) (Sweep.publishDeletion sha256Hex stored granularity ignorePatterns repairPeers now mapOrder n)) as Hp by (intros n; unfold Sweep.publishDeletion, onDisk, inVol; follow_err).
  assert (forall ctx names tried, keeps (fieldKept sn_status) (publish_loop sha256Hex stored granularity ignorePatterns repairPeers now mapOrder ctx names tried)) as Hl.
  { intros ctx names. revert ctx. induction names as [|n names IH]; intros ctx tried; cbn [publish_loop]; follow_err; auto. }
  unfold settleOnVolume. apply keeps_bind; [apply _|apply keeps_get, _|]. intros st. cbv zeta. apply keeps_bind; [apply _|apply Hl|]. intros tried.
  destruct (Breaker.settleDeletions _ _ _ _) as [[n err] b']. follow_err.
Qed.
Lemma settleEvents_error d s : ss_lastError (sn_status (settleEvents d s).2) = None -> ss_lastError (sn_status s) = None.
Proof.
  unfold settleEvents. unfold bindS at 1. cbn [getS takeEventDeletions]. unfold bindS at 1. cbn [modifyS]. destruct (bk_events (sn_breaker s)) as [g|]; [|done]. destruct (_ =? _); [done|].
  unfold bindS. match goal with |- context [settleOnVolume ?a ?b ?c ?d0 ?e ?f ?h ?i ?j ?k ?l] => pose proof (settle_status i j k l) as K; destruct (settleOnVolume a b c d0 e f h i j k l) as [[err|e0] s1] end;
    unfold fieldKept in K; cbn in K; [|cbn; by rewrite K]. destruct err as [[]|]; cbn; try (by rewrite K); done.
Qed.

Lemma covered_reported st names b : (forall n, n ∈ lp_owed st -> covered st n) ->
  forall n, n ∈ names ∪ lp_owed st -> covered (mkLoop (names ∪ lp_pending st) b (lp_work st) (lp_rescan st) (lp_backlog st) (still_due names (lp_pc st)) (lp_scan st) (names ∪ lp_owed st)) n.
Proof.
  intros Hc n [Hn|Hn]%elem_of_union; unfold covered; cbn; [left; set_solver|]. destruct (decide (n ∈ names)) as [Hi|Hi]; [left; set_solver|].
  destruct (Hc n Hn) as [?|[?|[?|[?|Hd]]]]; [left; set_solver|by auto..|]. do 4 right. destruct (lp_pc st); cbn in *; set_solver.
Qed.
Lemma sweeping_due names p : sweepingNow (still_due names p) = sweepingNow p.
Proof. by destruct p. Qed.

Lemma react_ok a st st' : loop_ok st -> react a st = Some st' -> loop_ok st'.
Proof.
  intros [Hb Hd Hc] R. destruct a as [rel created dir1 found dir2|order|lost| |d| | | | | |d root rootErr entries pages|]; cbn in R.
  - injection R as <-. unfold event. destruct (reportedBy _ _ _ _ _) as [names|]; [|by split]. split; [done|done|]. cbn. rewrite sweeping_due. intros He. by apply covered_reported, Hc.
  - destruct (bool_decide _) eqn:E; [|done]. injection R as <-. apply bool_decide_eq_true in E as [E _]. unfold flushPending. destruct order as [|n0 order].
    { split; [done|done|]. cbn. intros He n Hn. destruct (Hc He n Hn) as [Hp|[?|[?|[?|?]]]]; unfold covered; cbn; auto. set_solver. }
    set (names := n0 :: order) in *. unfold submit. cbn [lp_work]. destruct (_ <? _) eqn:El.
    + apply Z.ltb_lt in El. split; cbn; [done|rewrite length_app; cbn; lia|]. intros He n Hn. unfold covered. cbn. rewrite concat_app, elem_of_app. cbn. rewrite app_nil_r.
      destruct (Hc He n Hn) as [Hp|[?|[?|[?|?]]]]; auto. right. left. right. rewrite <- E in Hp. by apply elem_of_list_to_set in Hp.
    + split; cbn; [done|done|]. intros He n Hn. unfold covered. cbn. tauto.
  - injection R as <-. split; cbn; [done|done|]. intros _ n _. unfold covered. cbn. tauto.
  - injection R as <-. split; cbn; [done|done|]. intros _ n _. unfold covered. cbn. tauto.
  - destruct (lp_pc st) eqn:Ep; try done. destruct (_ =? 0)%nat; [|done]. injection R as <-. split; cbn; [done|done|]. intros [He|He]; [|done]. apply settleEvents_error in He.
    intros n Hn. specialize (Hc (or_introl He) n Hn). unfold covered in *. cbn. rewrite orb_true_iff. rewrite Ep in Hc. cbn in Hc. tauto.
  - destruct (lp_pc st) eqn:Ep; try done. destruct (lp_work st) as [|names rest] eqn:Ew; [done|]. injection R as <-. destruct (addNames_ok names _ Hb) as [K1 K2]. split; cbn; [done|cbn in Hd; lia|].
    intros [He|He]; [|done]. intros n Hn. specialize (Hc (or_introl He) n Hn). unfold covered in *. rewrite Ep, Ew in Hc. cbn in *. rewrite K2. rewrite elem_of_app in Hc. destruct (enqueue_elem names (waiting (lp_backlog st))) as [Q1 Q2].
    destruct Hc as [?|[[?|?]|[?|[?|?]]]]; auto.
  - destruct (lp_pc st) eqn:Ep; try done. destruct (lp_rescan st); [|done]. injection R as <-. split; cbn; [done|done|]. intros _ n Hn. unfold covered. cbn. destruct (decide (n ∈ waiting (lp_backlog st))); [by auto|]. do 4 right. set_solver.
  - destruct (lp_pc st) eqn:Ep; try done.
    + destruct (_ =? 0)%nat; [done|]. destruct (absorb _ _) as [work b] eqn:Ea. injection R as <-. apply absorb_ok in Ea as (K1 & K2 & K3); [|done]. split; cbn; [done|lia|]. intros _ n Hn. unfold covered. cbn.
      destruct (decide (n ∈ waiting b)); [by auto|]. do 4 right. set_solver.
    + injection R as <-. split; cbn; [done|done|]. intros _ n Hn. unfold covered. cbn. destruct (decide (n ∈ waiting (lp_backlog st))); [by auto|]. do 4 right. set_solver.
  - destruct (lp_pc st) eqn:Ep; try done. destruct (_ =? 0)%nat; [done|]. destruct (absorb _ _) as [work b] eqn:Ea. apply absorb_ok in Ea as (K1 & K2 & K3); [|done]. pose proof (next_ok b K1) as Hn.
    destruct (waiting b) as [|n0 rest] eqn:Ew; [by rewrite Hn in R|]. destruct Hn as (b' & En & K4 & K5). rewrite En in R. injection R as <-. split; cbn; [done|lia|]. intros [He|He]; [|done]. intros n Hn.
    specialize (Hc (or_introl He) n Hn). unfold covered in *. rewrite Ep in Hc. cbn in *. rewrite K5. specialize (K3 n). rewrite elem_of_cons in K3. rewrite elem_of_singleton.
    destruct Hc as [?|[?|[?|[?|?]]]]; [by auto|destruct (K3 ltac:(by left)) as [?|[?|?]]; by auto|destruct (K3 ltac:(by right)) as [?|[?|?]]; by auto|by auto|set_solver].
  - destruct (lp_pc st) eqn:Ep; try done. injection R as <-. unfold looked. split; cbn; [done|done|]. intros [He|He]; [|done]. rewrite He. apply processName_error in He. intros n [Hn Hnd]%elem_of_difference.
    specialize (Hc (or_introl He) n Hn). unfold covered in *. cbn. rewrite orb_true_iff. rewrite Ep in Hc, Hnd. cbn in *. tauto.
  - destruct (lp_pc st) eqn:Ep; try done. injection R as <-. unfold looked. split; cbn; [done|done|]. intros [He|He]; [|done]. rewrite He. intros n [Hn Hnd]%elem_of_difference.
    specialize (Hc (or_intror eq_refl) n Hn). unfold covered in *. cbn. rewrite orb_true_iff. rewrite Ep in Hc, Hnd. cbn in *. tauto.
  - destruct (lp_pc st) eqn:Ep; try done; injection R as <-; (split; cbn; [done|done|]); intros [He|He] n Hn; try done; specialize (Hc (or_introl He) n Hn); unfold covered in *; rewrite Ep in Hc; done.
Qed.

Lemma runs_ok scan unknown st : runs (started scan unknown) st -> loop_ok st.
Proof.
  induction 1 as [|st a st' _ IH R]; [|by eapply react_ok]. split; cbn; [apply backlog_ok_new|done|]. intros _ n Hn. unfold covered. cbn. tauto.
Qed.

Lemma backlog_empty b : (backlogLen b =? 0)%nat = true -> waiting b = [].
Proof. rewrite backlogLen_waiting. intros E%Nat.eqb_eq. by apply nil_length_inv. Qed.

(** The loop waits only when the backlog is empty. *)
Definition idle_empty (st : Loop) : Prop := lp_pc st = Idle -> waiting (lp_backlog st) = [].
Lemma react_idle a st st' : idle_empty st -> react a st = Some st' -> idle_empty st'.
Proof.
  intros Hi R. unfold idle_empty in *. destruct a as [rel created dir1 found dir2|order|lost| |d| | | | | |d root rootErr entries pages|]; cbn in R.
  - injection R as <-. unfold event. destruct (reportedBy _ _ _ _ _); [|done]. cbn. destruct (lp_pc st); try done.
  - destruct (bool_decide _); [|done]. injection R as <-. unfold flushPending, submit. destruct order; [done|]. by destruct (_ <? _).
  - injection R as <-. cbn. destruct (lp_pc st); try done.
  - by injection R as <-.
  - destruct (lp_pc st); try done. destruct (_ =? 0)%nat eqn:E; [|done]. injection R as <-. cbn. intros _. by apply backlog_empty.
  - destruct (lp_pc st); try done. destruct (lp_work st); [done|]. by injection R as <-.
  - destruct (lp_pc st); try done. destruct (lp_rescan st); [|done]. by injection R as <-.
  - destruct (lp_pc st); try done; [|by injection R as <-]. destruct (_ =? 0)%nat; [done|]. destruct (absorb _ _). by injection R as <-.
  - destruct (lp_pc st); try done. destruct (_ =? 0)%nat; [done|]. destruct (absorb _ _) as [work b]. destruct (next b) as [[n b']|]; [|done]. by injection R as <-.
  - destruct (lp_pc st); try done. by injection R as <-.
  - destruct (lp_pc st); try done. by injection R as <-.
  - destruct (lp_pc st); try done; by injection R as <-.
Qed.
Lemma runs_idle scan unknown st : runs (started scan unknown) st -> idle_empty st.
Proof. induction 1 as [|st a st' _ IH R]; [done|by eapply react_idle]. Qed.

(** C11. No reported change is lost. However the event loop and the processing loop interleave,
    while the node reports no error every name that was reported and not looked at since is
    debounced, in the work queue, in the backlog or being looked at, or a full scan is requested:
    a full queue, an overflow in the kernel, a report that arrives while its name is being looked
    at or during a sweep included. When nothing is queued and the loop waits, everything reported
    has been looked at. The queue between the two loops stays within its depth. *)
Theorem no_reported_change_lost (scan : Scan) (unknown : gset string) (st : Loop) : runs (started scan unknown) st ->
  Z.of_nat (length (lp_work st)) <= workQueueDepth /\
  (ss_lastError (sn_status (lp_scan st)) = None -> forall n, n ∈ lp_owed st -> covered st n) /\
  (ss_lastError (sn_status (lp_scan st)) = None -> lp_pc st = Idle -> lp_pending st = ∅ -> lp_work st = [] -> lp_rescan st = false -> lp_owed st = ∅).
Proof.
  intros R. destruct (runs_ok _ _ _ R) as [_ Hd Hc]. split; [done|]. split; [intros He; by apply Hc; left|]. intros He Hp Ep Ew Er. apply elem_of_equiv_empty_L. intros n Hn.
  pose proof (Hc (or_introl He) n Hn) as Hx. unfold covered in Hx. rewrite Ep, Ew, Er, Hp, (runs_idle _ _ _ R Hp) in Hx. cbn in Hx. set_solver.
Qed.

(** ** Catching up *)

(** Steps the processing loop takes by itself. *)
Definition own (a : occurrence) : bool := match a with ATop _ | ATake | ARescan | AName | ANamed | ASwept _ _ _ _ _ => true | _ => false end.
Definition debt (st : Loop) : nat :=
  (sum_list_with (fun names : list string => 3 + 3 * length names) (lp_work st) + 3 * length (waiting (lp_backlog st)) + (if lp_rescan st then 3 else 0) +
   match lp_pc st with Naming _ _ | Sweeping _ => 2 | Top => 1 | _ => 0 end)%nat.
(** [k] such steps, of which [m] asked for a scan. *)
Inductive works : nat -> nat -> Loop -> Loop -> Prop :=
| works_none st : works 0 0 st st
| works_more k m st a st1 st' : own a = true -> react a st = Some st1 -> works k m st1 st' ->
    works (S k) ((if askedScan (lp_scan st) (lp_scan st1) then 1 else 0) + m) st st'.

Lemma absorb_debt work b work' b' : backlog_ok b -> absorb work b = (work', b') ->
  (sum_list_with (fun names : list string => 3 + 3 * length names) work' + 3 * length (waiting b') <= sum_list_with (fun names : list string => 3 + 3 * length names) work + 3 * length (waiting b))%nat.
Proof.
  revert b. induction work as [|names work IH]; intros b Hb E; cbn in E; [by injection E as <- <-|]. destruct (_ <? _); [|by injection E as <- <-].
  destruct (addNames_ok names b Hb) as [H1 H2]. specialize (IH _ H1 E). rewrite H2 in IH. pose proof (enqueue_length names (waiting b)). cbn [sum_list_with]. lia.
Qed.
Lemma own_pays a st st' : loop_ok st -> own a = true -> react a st = Some st' ->
  (debt st' < debt st + 3 * (if askedScan (lp_scan st) (lp_scan st') then 1 else 0))%nat.
Proof.
  intros [Hb _ _] Ho R. unfold debt. destruct a as [| | | |d| | | | | |d root rootErr entries pages|]; try done; cbn in R; destruct (lp_pc st) eqn:Ep; try done.
  - destruct (_ =? 0)%nat; [|done]. injection R as <-. cbn. destruct (lp_rescan st), (askedScan _ _); cbn; lia.
  - destruct (lp_work st) as [|names rest]; [done|]. injection R as <-. destruct (addNames_ok names _ Hb) as [_ K]. cbn. rewrite K. pose proof (enqueue_length names (waiting (lp_backlog st))). lia.
  - destruct (lp_rescan st); [|done]. injection R as <-. cbn. lia.
  - destruct (_ =? 0)%nat; [done|]. destruct (absorb _ _) as [work b] eqn:Ea. pose proof (absorb_debt _ _ _ _ Hb Ea) as Hl. apply absorb_ok in Ea as (K1 & _); [|done]. pose proof (next_ok b K1) as Hn.
    destruct (waiting b) as [|n0 rest]; [by rewrite Hn in R|]. destruct Hn as (b' & En & _ & K5). rewrite En in R. injection R as <-. cbn [with_loop lp_work lp_backlog lp_rescan lp_pc]. rewrite K5. cbn [length] in Hl. lia.
  - injection R as <-. cbn. destruct (lp_rescan st), (askedScan _ _); cbn; lia.
  - injection R as <-. cbn. destruct (lp_rescan st), (askedScan _ _); cbn; lia.
Qed.

(** A loop that can take no step by itself waits with nothing to do, or has stopped. *)
Lemma own_stuck st : loop_ok st -> idle_empty st -> (forall a st', own a = true -> react a st <> Some st') ->
  lp_pc st = Stopped \/ (lp_pc st = Idle /\ lp_work st = [] /\ lp_rescan st = false /\ waiting (lp_backlog st) = []).
Proof.
  intros [Hb _ _] Hi Hs. set (d := mkDecision 0 0 0 true true). destruct (lp_pc st) eqn:Ep.
  - exfalso. destruct (backlogLen (lp_backlog st) =? 0)%nat eqn:El.
    { eapply (Hs (ATop d)); [done|]. cbn. by rewrite Ep, El. }
    destruct (absorb (lp_work st) (lp_backlog st)) as [work b] eqn:Ea. pose proof Ea as Ea'. apply absorb_ok in Ea as (K1 & _ & K3); [|done]. pose proof (next_ok b K1) as Hn.
    destruct (waiting b) as [|n0 rest] eqn:Ew.
    + destruct (waiting (lp_backlog st)) as [|m0 ms] eqn:Em; [by rewrite backlogLen_waiting, Em in El|]. assert (forall w b1 w' b2, absorb w b1 = (w', b2) -> backlog_ok b1 -> waiting b2 = [] -> waiting b1 = []) as Hk.
      { clear. induction w as [|names w IH]; intros b1 w' b2 E Hb Hw; cbn in E; [by injection E as <- <-|]. destruct (_ <? _); [|by injection E as <- <-].
        destruct (addNames_ok names b1 Hb) as [H1 H2]. specialize (IH _ _ _ E H1 Hw). rewrite H2 in IH. destruct (waiting b1) as [|x xs]; [done|]. destruct (enqueue_elem names (x :: xs)) as [_ K]. specialize (K x ltac:(by left)). rewrite IH in K. by apply elem_of_nil in K. }
      rewrite (Hk _ _ _ _ Ea' Hb Ew) in Em. done.
    + destruct Hn as (b' & En & _). eapply (Hs AName); [done|]. cbn. by rewrite Ep, El, Ea', En.
  - right. split; [done|]. split; [|split; [|by apply Hi]].
    + destruct (lp_work st) as [|names rest] eqn:Ew; [done|]. exfalso. eapply (Hs ATake); [done|]. cbn. by rewrite Ep, Ew.
    + destruct (lp_rescan st) eqn:Er; [|done]. exfalso. eapply (Hs ARescan); [done|]. cbn. by rewrite Ep, Er.
  - exfalso. eapply (Hs ANamed); [done|]. cbn. by rewrite Ep.
  - exfalso. eapply (Hs (ASwept d None true [] 0)); [done|]. cbn. by rewrite Ep.
  - by left.
Qed.

(** C12. The processing loop catches up. From any state it can reach, between two reports the
    steps it takes by itself are paid for by the names, batches and scans that wait, and by the
    scans it asks for on the way: a step that clears a quarantine asks for one, and each such
    step buys at most three more. With nothing to clear it comes to rest within the debt it
    started with. When it can take no more steps, it has stopped or waits with the work queue,
    the backlog and the requests for a scan empty, and with everything but what is still
    debounced looked at unless the node reports an error. *)
Theorem loop_catches_up (scan : Scan) (unknown : gset string) (st st' : Loop) (k m : nat) : runs (started scan unknown) st -> works k m st st' ->
  (k <= debt st + 3 * m)%nat /\
  ((forall a st1, own a = true -> react a st' <> Some st1) ->
   lp_pc st' = Stopped \/
   (lp_pc st' = Idle /\ lp_work st' = [] /\ lp_rescan st' = false /\ waiting (lp_backlog st') = [] /\
    (ss_lastError (sn_status (lp_scan st')) = None -> lp_owed st' ⊆ lp_pending st'))).
Proof.
  intros R W. revert R. induction W as [st|k m st a st1 st' Ho Ra W IH]; intros R.
  - split; [lia|]. intros Hs. destruct (own_stuck st (runs_ok _ _ _ R) (runs_idle _ _ _ R) Hs) as [?|(Hp & Ew & Er & Hb)]; [by left|right]. repeat (split; [done|]). intros He n Hn.
    pose proof (lk_cover _ (runs_ok _ _ _ R) (or_introl He) n Hn) as Hc. unfold covered in Hc. rewrite Hp, Ew, Er, Hb in Hc. cbn in Hc. destruct Hc as [?|[?|[?|[?|?]]]]; [done|by set_solver..].
  - destruct (IH (runs_step _ st a st1 R Ra)) as [Hk Hs]. split; [|done]. pose proof (own_pays a st st1 (runs_ok _ _ _ R) Ho Ra). lia.
Qed.
End Loop.

(** ** A run *)

Abbreviation reactOn := (react (H := asciiFolding) (H0 := idleRecovery) idHash (fun t => t) 1 [] ["p"] 9 elements).
Abbreviation runsOn := (runs (H := asciiFolding) (H0 := idleRecovery) idHash (fun t => t) 1 [] ["p"] 9 elements).
Fixpoint reacts (l : list occurrence) (st : Loop) : option Loop :=
  match l with [] => Some st | a :: l => st' ← reactOn a st; reacts l st' end.
Lemma reacts_runs l st0 st st' : runsOn st0 st -> reacts l st = Some st' -> runsOn st0 st'.
Proof.
  revert st. induction l as [|a l IH]; intros st R E; cbn in E; [by injection E as <-|]. destruct (reactOn a st) as [st1|] eqn:Ea; [|done]. cbn in E. eapply IH; [|exact E]. by eapply runs_step.
Qed.

(** The initial scan; then [a] is written while the loop waits, and again while it is indexed. *)
Definition firstDecision : decision := mkDecision 1 2 3 true true.
Definition writes : list occurrence :=
  [ASwept firstDecision (Some 1) false sweptEntries 2; ATop firstDecision; AEvent "a" false false [] false; AFlush ["a"]; ATake; AName; AEvent "a" false false [] false; ANamed].
Definition catches : list occurrence := [ATop firstDecision; AFlush ["a"]; ATake; AName; ANamed; ATop firstDecision].
Definition startedOn : Loop := started sweptScan {["a"]}.
Definition written : Loop := default startedOn (reacts writes startedOn).
Definition caughtUp : Loop := default written (reacts catches written).
Lemma written_runs : runsOn startedOn written.
Proof. assert (reacts writes startedOn = Some written) as E by (vm_compute; reflexivity). eapply reacts_runs; [apply runs_start|exact E]. Qed.
Lemma caughtUp_runs : runsOn startedOn caughtUp.
Proof. assert (reacts catches written = Some caughtUp) as E by (vm_compute; reflexivity). eapply reacts_runs; [apply written_runs|exact E]. Qed.

Lemma no_reported_change_lost_witness : "a" ∈ lp_owed written /\ covered written "a" /\ lp_owed caughtUp = ∅.
Proof.
  assert ("a" ∈ lp_owed written) as Ha by (assert (bool_decide ("a" ∈ lp_owed written) = true) as E by (vm_compute; reflexivity); exact (bool_decide_eq_true_1 _ E)).
  assert (ss_lastError (sn_status (lp_scan written)) = None) as E1 by (vm_compute; reflexivity). assert (ss_lastError (sn_status (lp_scan caughtUp)) = None) as E2 by (vm_compute; reflexivity).
  assert (lp_pc caughtUp = Idle) as E3 by (vm_compute; reflexivity). assert (lp_pending caughtUp = ∅) as E4 by (vm_compute; reflexivity). assert (lp_work caughtUp = []) as E5 by (vm_compute; reflexivity). assert (lp_rescan caughtUp = false) as E6 by (vm_compute; reflexivity).
  split; [exact Ha|]. split.
  - exact (proj1 (proj2 (no_reported_change_lost (H := asciiFolding) (H0 := idleRecovery) idHash (fun t => t) 1 [] ["p"] 9 elements sweptScan {["a"]} written written_runs)) E1 "a" Ha).
  - exact (proj2 (proj2 (no_reported_change_lost (H := asciiFolding) (H0 := idleRecovery) idHash (fun t => t) 1 [] ["p"] 9 elements sweptScan {["a"]} caughtUp caughtUp_runs)) E2 E3 E4 E5 E6).
Defined.

Abbreviation worksOn := (works (H := asciiFolding) (H0 := idleRecovery) idHash (fun t => t) 1 [] ["p"] 9 elements).
Definition settled : Loop := default startedOn (reacts [ASwept firstDecision (Some 1) false sweptEntries 2; ATop firstDecision] startedOn).
Lemma settled_works : worksOn 2 0 startedOn settled.
Proof.
  assert (exists st1, reactOn (ASwept firstDecision (Some 1) false sweptEntries 2) startedOn = Some st1 /\ reactOn (ATop firstDecision) st1 = Some settled) as (st1 & E1 & E2).
  { unfold settled. cbn [reacts]. destruct (reactOn (ASwept firstDecision (Some 1) false sweptEntries 2) startedOn) as [st1|] eqn:E1; [|vm_compute in E1; discriminate]. exists st1. split; [done|].
    cbn [mbind option_bind]. destruct (reactOn (ATop firstDecision) st1) as [st2|] eqn:E2; [done|]. exfalso. assert ((reactOn (ASwept firstDecision (Some 1) false sweptEntries 2) startedOn ≫= reactOn (ATop firstDecision)) <> None) as K by (vm_compute; discriminate). rewrite E1 in K. by apply K. }
  pose proof (works_more (H := asciiFolding) (H0 := idleRecovery) idHash (fun t => t) 1 [] ["p"] 9 elements 0 0 st1 (ATop firstDecision) settled settled eq_refl E2 (works_none _ _ _ _ _ _ _ _)) as W2.
  pose proof (works_more (H := asciiFolding) (H0 := idleRecovery) idHash (fun t => t) 1 [] ["p"] 9 elements _ _ startedOn (ASwept firstDecision (Some 1) false sweptEntries 2) st1 settled eq_refl E1 W2) as W1.
  assert (askedScan (lp_scan startedOn) (lp_scan st1) = false /\ askedScan (lp_scan st1) (lp_scan settled) = false) as [A1 A2].
  { assert (st1 = default startedOn (reactOn (ASwept firstDecision (Some 1) false sweptEntries 2) startedOn)) as -> by (by rewrite E1). split; vm_compute; reflexivity. }
  rewrite A1, A2 in W1. exact W1.
Qed.
Lemma loop_catches_up_witness : (2 <= debt startedOn + 3 * 0)%nat.
Proof.
  exact (proj1 (loop_catches_up (H := asciiFolding) (H0 := idleRecovery) idHash (fun t => t) 1 [] ["p"] 9 elements sweptScan {["a"]} startedOn settled 2 0
    (runs_start (H := asciiFolding) (H0 := idleRecovery) idHash (fun t => t) 1 [] ["p"] 9 elements startedOn) settled_works)).
Defined.
