(* ===== verification/Config.v ===== *)
(** * Configuration

    internal/config/config.go: defaults, environment overrides, validation and the warnings about
    what a valid configuration still exposes. YAML is the configuration it decodes to;
    [url.Parse], [net.ParseIP], [net.SplitHostPort] and [time.ParseDuration] are parameters. *)

From S2P Require Import Prelude GoStrings Glob Streaming Multipart.

(** ** Patterns of the ignore list *)

(** The remainder of a pattern that did not match is still checked. *)
Fixpoint badRest (fuel : nat) (pattern : string) : bool :=
  if pattern =s "" then false
  else match fuel with
       | O => true
       | S fuel =>
           let '(_, chunk, rest) := scanChunk pattern in
           match matchChunk chunk "" with None => true | Some _ => badRest fuel rest end
       end.
(** [filepath.Match(pattern, name)]: whether it returns ErrBadPattern. *)
Fixpoint bad_go (fuel : nat) (pattern name : string) : bool :=
  if pattern =s "" then false
  else match fuel with
       | O => true
       | S fuel =>
           let '(star, chunk, rest) := scanChunk pattern in
           if star && (chunk =s "") then false
           else
             let last := rest =s "" in
             let skip := if star then match match_skipping chunk last name with Some (Some t) => bad_go fuel rest t | Some None => badRest fuel rest | None => true end else badRest fuel rest in
             match matchChunk chunk name with
             | Some (Some t) => if (t =s "") || negb last then bad_go fuel rest t else skip
             | None => true
             | Some None => skip
             end
       end.
Definition MatchErr (pattern name : string) : bool := bad_go (S (String.length pattern)) pattern name.

Lemma match_ranges_bad fuel r r' chunk k m m' :
  match match_ranges fuel r chunk k m, match_ranges fuel r' chunk k m' with None, None => True | Some (_, x), Some (_, y) => x = y | _, _ => False end.
Proof.
  revert r r' chunk k m m'. induction fuel as [|fuel IH]; intros r r' chunk k m m'; cbn; [done|].
  assert (match (match getEsc chunk with None => None | Some (lo, rest) => match rest with String "-" rest' => match getEsc rest' with None => None | Some (hi, rest'') => match_ranges fuel r rest'' (S k) (m || ((lo <=? r) && (r <=? hi))) end | _ => match_ranges fuel r rest (S k) (m || ((lo <=? r) && (r <=? lo))) end end),
               (match getEsc chunk with None => None | Some (lo, rest) => match rest with String "-" rest' => match getEsc rest' with None => None | Some (hi, rest'') => match_ranges fuel r' rest'' (S k) (m' || ((lo <=? r') && (r' <=? hi))) end | _ => match_ranges fuel r' rest (S k) (m' || ((lo <=? r') && (r' <=? lo))) end end)
          with None, None => True | Some (_, x), Some (_, y) => x = y | _, _ => False end) as Hg.
  { destruct (getEsc chunk) as [[lo rest]|]; [|done]. destruct rest as [|[[] [] [] [] [] [] [] []] rest']; try apply IH. destruct (getEsc rest') as [[hi rest'']|]; [apply IH|done]. }
  destruct chunk as [|[[] [] [] [] [] [] [] []] chunk']; try exact Hg. destruct k; [exact Hg|done].
Qed.
(** Whether a chunk is malformed does not depend on what it is matched against. *)
Lemma match_chunk_bad fuel chunk s f s' f' : match_chunk fuel chunk s f = None -> match_chunk fuel chunk s' f' = None.
Proof.
  revert chunk s f s' f'. induction fuel as [|fuel IH]; intros chunk s f s' f'; cbn [match_chunk]; [done|]. destruct chunk as [|c chunk']; [done|]. cbv zeta. destruct (Ascii.eqb c "[").
  - destruct (if f || (s =s "") then _ else _) as [r n]. destruct (if f' || (s' =s "") then _ else _) as [r' n']. destruct (match chunk' with String "^" b => (true, b) | _ => (false, chunk') end) as [neg body].
    pose proof (match_ranges_bad (S (String.length body)) r r' body 0 false false) as K. destruct (match_ranges _ r body 0 false) as [[m rest]|], (match_ranges _ r' body 0 false) as [[m' rest']|]; try done. subst rest'. apply IH.
  - destruct (Ascii.eqb c "?").
    + destruct (f || _), (f' || _); apply IH.
    + destruct (if Ascii.eqb c "\" then _ else _) as [[c' rest]|]; [|done]. destruct (f || _), s, (f' || _), s'; apply IH.
Qed.
Lemma matchChunk_bad chunk s s' : matchChunk chunk s = None -> matchChunk chunk s' = None.
Proof. apply match_chunk_bad. Qed.

Lemma strip_stars_nostar p : match (strip_stars p).2 with String "*" _ => False | _ => True end.
Proof. induction p as [|[[] [] [] [] [] [] [] []] p IH]; try done. Qed.
Lemma scan_empty p rest : scan_body false p = ("", rest) -> match p with String "*" _ => False | _ => True end -> rest = "".
Proof.
  destruct p as [|c p]; cbn; [by intros [= <-]|]. destruct (Ascii.eqb_spec c "\") as [-> |Hb].
  { destruct p as [|c' p]; [by intros [= _]|]. by destruct (scan_body false p). }
  destruct (Ascii.eqb_spec c "*") as [-> |Hs]; [done|]. cbn. by destruct (scan_body _ p).
Qed.

(** A pattern is malformed or not, whatever the name. *)
Lemma bad_go_rest fuel pattern name : bad_go fuel pattern name = badRest fuel pattern.
Proof.
  revert pattern name. induction fuel as [|fuel IH]; intros pattern name; cbn [bad_go badRest]; (destruct (pattern =s ""); [done|]); [done|]. cbv zeta.
  unfold scanChunk. pose proof (strip_stars_nostar pattern) as Hn. destruct (strip_stars pattern) as [star p]. cbn in Hn. destruct (scan_body false p) as [chunk rest] eqn:Es.
  destruct (star && (chunk =s "")) eqn:Ee.
  { apply andb_true_iff in Ee as [_ Ee]. apply String.eqb_eq in Ee as ->. apply scan_empty in Es as ->; [|done]. cbn. by destruct fuel. }
  assert (forall last, match_skipping chunk last name = None -> matchChunk chunk "" = None) as Hskip.
  { intros last. clear. induction name as [|c name IHn]; cbn [match_skipping]; [done|]. destruct (Ascii.eqb c "/"); [done|]. destruct (matchChunk chunk name) as [[t|]|] eqn:Em; [destruct (last && negb (t =s "")); [exact IHn|done]|exact IHn|]. intros _. by apply (matchChunk_bad _ _ "") in Em. }
  destruct (matchChunk chunk "") as [o|] eqn:E0.
  - destruct (matchChunk chunk name) as [[t|]|] eqn:Em; [| |apply (matchChunk_bad _ _ "") in Em; congruence].
    + destruct ((t =s "") || _); [apply IH|]. destruct star; [|done]. destruct (match_skipping _ _ name) as [[t'|]|] eqn:Ek; [apply IH|done|]. by apply Hskip in Ek.
    + destruct star; [|done]. destruct (match_skipping _ _ name) as [[t'|]|] eqn:Ek; [apply IH|done|]. by apply Hskip in Ek.
  - by rewrite (matchChunk_bad _ _ name E0).
Qed.

(** The bound is enough: a chunk takes at least a byte off the pattern. *)
Lemma scan_body_length inrange p : (String.length (scan_body inrange p).2 <= String.length p)%nat.
Proof.
  revert inrange. induction p as [p IH] using (induction_ltof1 _ String.length). unfold ltof in IH. intros inrange. destruct p as [|c p]; [done|]. cbn [scan_body]. destruct (Ascii.eqb c "\").
  - destruct p as [|c' p]; [cbn; lia|]. specialize (IH p ltac:(cbn; lia) inrange). destruct (scan_body inrange p). cbn in *. lia.
  - destruct (_ && _); [cbn; lia|]. cbv zeta. set (i := if Ascii.eqb c "[" then true else _). specialize (IH p ltac:(cbn; lia) i). destruct (scan_body i p). cbn in *. lia.
Qed.
Lemma strip_stars_length p : (String.length (strip_stars p).2 <= String.length p)%nat /\ ((strip_stars p).1 = true -> (String.length (strip_stars p).2 < String.length p)%nat).
Proof. induction p as [|[[] [] [] [] [] [] [] []] p IH]; cbn; split; try done; cbn in *; lia. Qed.
Lemma scanChunk_length pattern : pattern <> "" -> (String.length (scanChunk pattern).2 < String.length pattern)%nat.
Proof.
  intros Hp. unfold scanChunk. pose proof (strip_stars_nostar pattern) as Hn. destruct (strip_stars_length pattern) as [L1 L2]. destruct (strip_stars pattern) as [star p] eqn:Es. cbn in Hn, L1, L2.
  pose proof (scan_body_length false p) as L3. destruct (scan_body false p) as [chunk rest] eqn:Eb. cbn in *. destruct star; [specialize (L2 eq_refl); lia|].
  destruct p as [|c p]; [destruct pattern as [|[[] [] [] [] [] [] [] []] ?]; cbn in *; congruence|]. cbn [scan_body] in Eb. destruct (Ascii.eqb c "\").
  - destruct p as [|c' p]; [injection Eb as <- <-; cbn in *; lia|]. pose proof (scan_body_length false p). destruct (scan_body false p). injection Eb as <- <-. cbn in *. lia.
  - destruct (Ascii.eqb_spec c "*") as [-> |]; [done|]. cbn in Eb. set (i := if Ascii.eqb c "[" then true else _) in Eb. pose proof (scan_body_length i p). destruct (scan_body i p). injection Eb as <- <-. cbn in *. lia.
Qed.
Lemma badRest_enough fuel fuel' pattern : (String.length pattern <= fuel)%nat -> (String.length pattern <= fuel')%nat -> badRest fuel pattern = badRest fuel' pattern.
Proof.
  revert fuel' pattern. induction fuel as [|fuel IH]; intros fuel' pattern H1 H2; [destruct pattern; [by destruct fuel'|cbn in H1; lia]|]. destruct fuel' as [|fuel']; [destruct pattern; [done|cbn in H2; lia]|]. cbn [badRest].
  destruct (String.eqb_spec pattern "") as [|Hp]; [done|]. pose proof (scanChunk_length pattern Hp) as Hl. destruct (scanChunk pattern) as [[star chunk] rest]. cbn in Hl. destruct (matchChunk chunk ""); [|done]. apply IH; lia.
Qed.

(** ** Data *)

(** [type MultipartConfig struct]; durations are nanoseconds. *)
Record MultipartConfig := mkMultipart {
  mc_MinPartBytes : Z; mc_MaxPartBytes : Z; mc_MaxParts : Z; mc_MaxActiveUploads : Z; mc_MaxConcurrentPartUploads : Z;
  mc_UploadTTL : Z; mc_CleanupInterval : Z; mc_TempFileMaxAge : Z
}.
(** [type SFTPGatewayConfig struct], [HTTPGatewayConfig], [WebDAVGatewayConfig], [S3GatewayConfig] *)
Record SFTPGatewayConfig := mkSFTP { sf_Enabled : bool; sf_ListenAddr : string; sf_Username : string; sf_Password : string; sf_AllowAnonymous : bool; sf_HostKeyPath : string }.
Record HTTPGatewayConfig := mkHTTP { ht_Enabled : bool; ht_ListenAddr : string; ht_Username : string; ht_Password : string; ht_AllowAnonymous : bool }.
Record WebDAVGatewayConfig := mkWebDAV { wv_Enabled : bool; wv_ListenAddr : string; wv_Username : string; wv_Password : string; wv_AllowAnonymous : bool }.
Record S3GatewayConfig := mkS3 {
  s3_Enabled : bool; s3_ListenAddr : string; s3_AccessKey : string; s3_SecretKey : string; s3_AllowAnonymous : bool; s3_Domain : string;
  s3_Buckets : list string; s3_TLSCertFile : string; s3_TLSKeyFile : string
}.
(** [type SyncConfig struct] *)
Record SyncConfig := mkSync {
  sc_PollInterval : Z; sc_BatchLimit : Z; sc_MaxConcurrentDownloads : Z; sc_MaxRepairQueue : Z; sc_TombstoneTTL : Z; sc_ScanInterval : Z;
  sc_ScrubBytesPerSecond : Z; sc_DebounceWindow : Z; sc_RepairInterval : Z; sc_ReconcileInterval : Z; sc_ReconcilePageBudget : Z; sc_MaxExternalDeletions : Z
}.
(** [type Config struct] with [type GatewaysConfig struct] *)
Record Config := mkConfig {
  cf_StorageMode : string; cf_NodeID : string; cf_SyncDir : string; cf_MetaDir : string; cf_ListenAddr : string;
  cf_Peers : list string; cf_Ignore : list string; cf_LogLevel : string; cf_ClusterSecret : string;
  cf_TLSCertFile : string; cf_TLSKeyFile : string; cf_PeerCAFile : string; cf_MetricsToken : string; cf_AccessLog : bool; cf_MaxUploadBytes : Z;
  cf_Multipart : MultipartConfig; cf_Sync : SyncConfig;
  cf_S3 : S3GatewayConfig; cf_WebDAV : WebDAVGatewayConfig; cf_HTTP : HTTPGatewayConfig; cf_SFTP : SFTPGatewayConfig
}.

Definition second : Z := 1000000000.
Definition defaultMaxRepairQueue : Z := 100000.
Definition defaultScrubBytesPerSecond : Z := Z.shiftl 8 20.
Definition defaultNodeID : string := "node-1".
Definition defaultMaxExternalDeletions : Z := 1000.

(** [func DefaultConfig() Config] *)
Definition DefaultConfig : Config :=
  mkConfig "filesystem" "" "./sync" "./meta" ":9100" [] [] "info" "" "" "" "" "" true 0
    (mkMultipart 0 0 0 10000 0 0 0 0)
    (mkSync (3 * second) 1000 5 defaultMaxRepairQueue (168 * 3600 * second) (5 * 60 * second) defaultScrubBytesPerSecond (300 * 1000000) (30 * second) (3600 * second) 64 defaultMaxExternalDeletions)
    (mkS3 false ":9200" "" "" false "" [] "" "") (mkWebDAV false ":9300" "" "" false) (mkHTTP false ":9400" "" "" false) (mkSFTP false ":9500" "" "" false "").

(** ** Values *)

(** [func splitList(s string) []string] *)
Definition splitList (s : string) : list string := List.filter (fun item => negb (item =s "")) (map TrimSpace (Split s ",")).

(** [func parseBool(s string) (bool, error)] *)
Definition parseBool (s : string) : option bool :=
  let v := ToLower (TrimSpace s) in
  if (v =s "true") || (v =s "1") || (v =s "yes") then Some true
  else if (v =s "false") || (v =s "0") || (v =s "no") then Some false
  else None.

(** [logLevels], with the values of [slog.Level]. *)
Definition logLevels (name : string) : option Z :=
  if name =s "debug" then Some (-4) else if name =s "info" then Some 0 else if name =s "warn" then Some 4 else if name =s "error" then Some 8 else None.
(** [func (c Config) SlogLevel() slog.Level] *)
Definition SlogLevel (c : Config) : Z := default 0 (logLevels (ToLower (TrimSpace (cf_LogLevel c)))).

(** [strings.TrimRight(s, cutset)] *)
Definition TrimRight (s cutset : string) : string := srev (TrimLeft (srev s) cutset).

(** [func isPlaceholder(value string) bool] *)
Definition isPlaceholder (value : string) : bool := HasPrefix (ToLower (TrimSpace value)) "changeme".

(** What [url.Parse] says of a peer, and [net.ParseIP] of a host. *)
Record URL := mkURL { u_Scheme : string; u_Host : string; u_Hostname : string; u_User : bool; u_RawQuery : string; u_Fragment : string }.
Record IP := mkIP { ip_Loopback : bool; ip_Private : bool; ip_LinkLocalUnicast : bool }.

(** [type credentialPair struct] *)
Record credentialPair := mkPair { cp_gateway : string; cp_a : string; cp_b : string; cp_enabled : bool; cp_anonymous : bool }.
(** [func (c *Config) credentialPairs() []credentialPair] *)
Definition credentialPairs (c : Config) : list credentialPair :=
  [ mkPair "gateways.s3" (s3_AccessKey (cf_S3 c)) (s3_SecretKey (cf_S3 c)) (s3_Enabled (cf_S3 c)) (s3_AllowAnonymous (cf_S3 c));
    mkPair "gateways.webdav" (wv_Username (cf_WebDAV c)) (wv_Password (cf_WebDAV c)) (wv_Enabled (cf_WebDAV c)) (wv_AllowAnonymous (cf_WebDAV c));
    mkPair "gateways.http" (ht_Username (cf_HTTP c)) (ht_Password (cf_HTTP c)) (ht_Enabled (cf_HTTP c)) (ht_AllowAnonymous (cf_HTTP c));
    mkPair "gateways.sftp" (sf_Username (cf_SFTP c)) (sf_Password (cf_SFTP c)) (sf_Enabled (cf_SFTP c)) (sf_AllowAnonymous (cf_SFTP c)) ].

(** What is wrong, by the setting it is about. *)
Inductive cerr := CInvalid (setting : string) | CEnv (key : string).
Definition bindR {A B} (r : result cerr A) (k : A -> result cerr B) : result cerr B := match r with Ok a => k a | Err e => Err e end.
Local Notation "'let?' x := c 'in' k" := (bindR c (fun x => k)) (at level 200, x name, c at level 100, k at level 200, right associativity).
Definition check {A} (bad : bool) (setting : string) (k : result cerr A) : result cerr A := if bad then Err (CInvalid setting) else k.

(** [func (c *Config) checkCredentials() error] *)
Fixpoint check_pairs (l : list credentialPair) : result cerr unit :=
  match l with
  | [] => Ok tt
  | p :: l =>
      if negb (cp_enabled p) then check_pairs l
      else if (cp_a p =s "") && (cp_b p =s "") && negb (cp_anonymous p) then Err (CInvalid (cp_gateway p))
      else if negb (Bool.eqb (cp_a p =s "") (cp_b p =s "")) then Err (CInvalid (cp_gateway p))
      else if isPlaceholder (cp_a p) || isPlaceholder (cp_b p) then Err (CInvalid (cp_gateway p))
      else check_pairs l
  end.
Definition checkCredentials (c : Config) : result cerr unit :=
  match check_pairs (credentialPairs c) with
  | Err e => Err e
  | Ok _ => check (isPlaceholder (cf_ClusterSecret c)) "cluster_secret" (check (isPlaceholder (cf_MetricsToken c)) "metrics_token" (Ok tt))
  end.

Section Config.
Context (parseURL : string -> option URL) (parseIP : string -> option IP) (splitHostPort : string -> option string) (parseDuration : string -> option Z).

(** [func checkPeerURL(peer string) error]: whether it is refused. *)
Definition checkPeerURL (peer : string) : bool :=
  match parseURL peer with
  | None => true
  | Some u =>
      (negb (u_Scheme u =s "http") && negb (u_Scheme u =s "https")) || (u_Host u =s "") || (u_Hostname u =s "") ||
      (u_User u || negb (u_RawQuery u =s "") || negb (u_Fragment u =s ""))
  end.

(** The peers as [validate] keeps them. *)
Definition peerKey (peer : string) : string := TrimRight (TrimSpace peer) "/".
Fixpoint check_peers (l : list string) (seen : list string) : result cerr (list string) :=
  match l with
  | [] => Ok seen
  | peer :: l =>
      let key := peerKey peer in
      if key =s "" then check_peers l seen
      else if checkPeerURL key then Err (CInvalid "peers")
      else if bool_decide (key ∈ seen) then Err (CInvalid "peers")
      else check_peers l (seen ++ [key])
  end.

Definition controlByte (c : ascii) : bool := (byte_val c <=? 32) || (byte_val c =? 127).
Definition with_identity (peers : list string) (id : string) (c : Config) : Config :=
  mkConfig (cf_StorageMode c) id (cf_SyncDir c) (cf_MetaDir c) (cf_ListenAddr c) peers (cf_Ignore c) (cf_LogLevel c) (cf_ClusterSecret c)
    (cf_TLSCertFile c) (cf_TLSKeyFile c) (cf_PeerCAFile c) (cf_MetricsToken c) (cf_AccessLog c) (cf_MaxUploadBytes c)
    (cf_Multipart c) (cf_Sync c) (cf_S3 c) (cf_WebDAV c) (cf_HTTP c) (cf_SFTP c).

(** The limits [validate] puts on numbers. *)
Definition check_numbers (c : Config) : result cerr unit :=
  let y := cf_Sync c in
  let m := cf_Multipart c in
  check (sc_PollInterval y <=? 0) "sync.poll_interval" (
  check (sc_BatchLimit y <=? 0) "sync.batch_limit" (
  check (sc_MaxConcurrentDownloads y <=? 0) "sync.max_concurrent_downloads" (
  check (sc_MaxRepairQueue y <? 0) "sync.max_repair_queue" (
  check (sc_TombstoneTTL y <=? 0) "sync.tombstone_ttl" (
  check (sc_ScanInterval y <=? 0) "sync.scan_interval" (
  check (sc_DebounceWindow y <? 0) "sync.debounce_window" (
  check (sc_ScrubBytesPerSecond y <? 0) "sync.scrub_bytes_per_second" (
  check (sc_MaxExternalDeletions y <? 0) "sync.max_external_deletions" (
  check (sc_RepairInterval y <? 0) "sync.repair_interval" (
  check (sc_ReconcileInterval y <? 0) "sync.reconcile_interval" (
  check (sc_ReconcilePageBudget y <? 0) "sync.reconcile_page_budget" (
  check (cf_MaxUploadBytes c <? 0) "max_upload_bytes" (
  check (existsb (fun pattern => MatchErr pattern "test") (cf_Ignore c)) "ignore" (
  check (s3_Enabled (cf_S3 c) && (s3_ListenAddr (cf_S3 c) =s "")) "gateways.s3.listen_addr" (
  check (wv_Enabled (cf_WebDAV c) && (wv_ListenAddr (cf_WebDAV c) =s "")) "gateways.webdav.listen_addr" (
  check (ht_Enabled (cf_HTTP c) && (ht_ListenAddr (cf_HTTP c) =s "")) "gateways.http.listen_addr" (
  check (sf_Enabled (cf_SFTP c) && (sf_ListenAddr (cf_SFTP c) =s "")) "gateways.sftp.listen_addr" (
  check ((mc_MinPartBytes m <? 0) || (mc_MaxPartBytes m <? 0)) "multipart part size limits" (
  check ((0 <? mc_MinPartBytes m) && (0 <? mc_MaxPartBytes m) && (mc_MaxPartBytes m <? mc_MinPartBytes m)) "multipart.min_part_bytes" (
  check (mc_MaxParts m <? 0) "multipart.max_parts" (
  check ((mc_MaxActiveUploads m <? 0) || (mc_MaxConcurrentPartUploads m <? 0)) "multipart upload count limits" (
  check ((mc_UploadTTL m <? 0) || (mc_CleanupInterval m <? 0) || (mc_TempFileMaxAge m <? 0)) "multipart durations" (
  Ok tt))))))))))))))))))))))).

(** [func (c *Config) validate() error]: the configuration it leaves. *)
Definition validate (c : Config) : result cerr Config :=
  check (negb (cf_StorageMode c =s "filesystem")) "storage_mode" (
  check (negb (Bool.eqb (s3_TLSCertFile (cf_S3 c) =s "") (s3_TLSKeyFile (cf_S3 c) =s ""))) "S3 TLS certificate and key" (
  check (negb (Bool.eqb (cf_TLSCertFile c =s "") (cf_TLSKeyFile c =s ""))) "tls_cert_file and tls_key_file" (
  check (match logLevels (ToLower (TrimSpace (cf_LogLevel c))) with Some _ => false | None => negb (cf_LogLevel c =s "") end) "log_level" (
  match check_peers (cf_Peers c) [] with
  | Err e => Err e
  | Ok peers =>
      let id := TrimSpace (cf_NodeID c) in
      check ((id =s "") && negb (bool_decide (peers = []))) "node_id" (
      let id := if id =s "" then defaultNodeID else id in
      check (negb (all_bytes (fun b => negb (controlByte b)) id)) "node_id" (
      check (negb (bool_decide (peers = [])) && (cf_ClusterSecret c =s "")) "cluster_secret" (
      match checkCredentials c with
      | Err e => Err e
      | Ok _ =>
          check (cf_SyncDir c =s "") "sync_dir" (
          check (cf_MetaDir c =s "") "meta_dir" (
          check (cf_ListenAddr c =s "") "listen_addr" (
          match check_numbers c with
          | Err e => Err e
          | Ok _ => Ok (with_identity peers id c)
          end)))
      end)))
  end)))).

(** ** The environment *)

Section Environment.
Context (env : string -> string).
Definition envString (key old : string) : string := if env key =s "" then old else env key.
Definition envList (key : string) (old : list string) : list string := if env key =s "" then old else splitList (env key).
Definition envParsed {A} (parse : string -> option A) (key : string) (old : A) : result cerr A :=
  if env key =s "" then Ok old else match parse (env key) with Some v => Ok v | None => Err (CEnv key) end.
Definition envInt (key : string) (old : Z) : result cerr Z := envParsed (fun raw => ParseInt (TrimSpace raw)) key old.
Definition envDuration (key : string) (old : Z) : result cerr Z := envParsed (fun raw => parseDuration (TrimSpace raw)) key old.
Definition envBool (key : string) (old : bool) : result cerr bool := envParsed parseBool key old.

(** [func applyEnv(c *Config) error]; a map is ranged over in any order, which decides only which
    of several bad variables is named. *)
Definition applyEnv (c : Config) : result cerr Config :=
  let y := cf_Sync c in
  let m := cf_Multipart c in
  let s := cf_S3 c in
  let d := cf_WebDAV c in
  let h := cf_HTTP c in
  let f := cf_SFTP c in
  let? maxUpload := envInt "BIRAK_MAX_UPLOAD_BYTES" (cf_MaxUploadBytes c) in
  let? repairQueue := envInt "BIRAK_SYNC_MAX_REPAIR_QUEUE" (sc_MaxRepairQueue y) in
  let? scrub := envInt "BIRAK_SYNC_SCRUB_BYTES_PER_SECOND" (sc_ScrubBytesPerSecond y) in
  let? minPart := envInt "BIRAK_MULTIPART_MIN_PART_BYTES" (mc_MinPartBytes m) in
  let? maxPart := envInt "BIRAK_MULTIPART_MAX_PART_BYTES" (mc_MaxPartBytes m) in
  let? batchLimit := envInt "BIRAK_SYNC_BATCH_LIMIT" (sc_BatchLimit y) in
  let? downloads := envInt "BIRAK_SYNC_MAX_CONCURRENT_DOWNLOADS" (sc_MaxConcurrentDownloads y) in
  let? pageBudget := envInt "BIRAK_SYNC_RECONCILE_PAGE_BUDGET" (sc_ReconcilePageBudget y) in
  let? deletions := envInt "BIRAK_SYNC_MAX_EXTERNAL_DELETIONS" (sc_MaxExternalDeletions y) in
  let? maxParts := envInt "BIRAK_MULTIPART_MAX_PARTS" (mc_MaxParts m) in
  let? uploads := envInt "BIRAK_MULTIPART_MAX_ACTIVE_UPLOADS" (mc_MaxActiveUploads m) in
  let? partUploads := envInt "BIRAK_MULTIPART_MAX_CONCURRENT_PART_UPLOADS" (mc_MaxConcurrentPartUploads m) in
  let? poll := envDuration "BIRAK_SYNC_POLL_INTERVAL" (sc_PollInterval y) in
  let? tombstone := envDuration "BIRAK_SYNC_TOMBSTONE_TTL" (sc_TombstoneTTL y) in
  let? scan := envDuration "BIRAK_SYNC_SCAN_INTERVAL" (sc_ScanInterval y) in
  let? debounce := envDuration "BIRAK_SYNC_DEBOUNCE_WINDOW" (sc_DebounceWindow y) in
  let? repair := envDuration "BIRAK_SYNC_REPAIR_INTERVAL" (sc_RepairInterval y) in
  let? reconcile := envDuration "BIRAK_SYNC_RECONCILE_INTERVAL" (sc_ReconcileInterval y) in
  let? uploadTTL := envDuration "BIRAK_MULTIPART_UPLOAD_TTL" (mc_UploadTTL m) in
  let? cleanup := envDuration "BIRAK_MULTIPART_CLEANUP_INTERVAL" (mc_CleanupInterval m) in
  let? tempAge := envDuration "BIRAK_MULTIPART_TEMP_FILE_MAX_AGE" (mc_TempFileMaxAge m) in
  let? accessLog := envBool "BIRAK_ACCESS_LOG" (cf_AccessLog c) in
  let? s3On := envBool "BIRAK_S3_ENABLED" (s3_Enabled s) in
  let? s3Anon := envBool "BIRAK_S3_ALLOW_ANONYMOUS" (s3_AllowAnonymous s) in
  let? wvOn := envBool "BIRAK_WEBDAV_ENABLED" (wv_Enabled d) in
  let? wvAnon := envBool "BIRAK_WEBDAV_ALLOW_ANONYMOUS" (wv_AllowAnonymous d) in
  let? htOn := envBool "BIRAK_HTTP_ENABLED" (ht_Enabled h) in
  let? htAnon := envBool "BIRAK_HTTP_ALLOW_ANONYMOUS" (ht_AllowAnonymous h) in
  let? sfOn := envBool "BIRAK_SFTP_ENABLED" (sf_Enabled f) in
  let? sfAnon := envBool "BIRAK_SFTP_ALLOW_ANONYMOUS" (sf_AllowAnonymous f) in
  Ok (mkConfig
    (envString "BIRAK_STORAGE_MODE" (cf_StorageMode c)) (envString "BIRAK_NODE_ID" (cf_NodeID c)) (envString "BIRAK_SYNC_DIR" (cf_SyncDir c))
    (envString "BIRAK_META_DIR" (cf_MetaDir c)) (envString "BIRAK_LISTEN_ADDR" (cf_ListenAddr c))
    (envList "BIRAK_PEERS" (cf_Peers c)) (envList "BIRAK_IGNORE" (cf_Ignore c)) (envString "BIRAK_LOG_LEVEL" (cf_LogLevel c)) (envString "BIRAK_CLUSTER_SECRET" (cf_ClusterSecret c))
    (envString "BIRAK_TLS_CERT_FILE" (cf_TLSCertFile c)) (envString "BIRAK_TLS_KEY_FILE" (cf_TLSKeyFile c)) (envString "BIRAK_PEER_CA_FILE" (cf_PeerCAFile c))
    (envString "BIRAK_METRICS_TOKEN" (cf_MetricsToken c)) accessLog maxUpload
    (mkMultipart minPart maxPart maxParts uploads partUploads uploadTTL cleanup tempAge)
    (mkSync poll batchLimit downloads repairQueue tombstone scan scrub debounce repair reconcile pageBudget deletions)
    (mkS3 s3On (envString "BIRAK_S3_LISTEN_ADDR" (s3_ListenAddr s)) (envString "BIRAK_S3_ACCESS_KEY" (s3_AccessKey s)) (envString "BIRAK_S3_SECRET_KEY" (s3_SecretKey s)) s3Anon
       (envString "BIRAK_S3_DOMAIN" (s3_Domain s)) (envList "BIRAK_S3_BUCKETS" (s3_Buckets s)) (envString "BIRAK_S3_TLS_CERT_FILE" (s3_TLSCertFile s)) (envString "BIRAK_S3_TLS_KEY_FILE" (s3_TLSKeyFile s)))
    (mkWebDAV wvOn (envString "BIRAK_WEBDAV_LISTEN_ADDR" (wv_ListenAddr d)) (envString "BIRAK_WEBDAV_USERNAME" (wv_Username d)) (envString "BIRAK_WEBDAV_PASSWORD" (wv_Password d)) wvAnon)
    (mkHTTP htOn (envString "BIRAK_HTTP_LISTEN_ADDR" (ht_ListenAddr h)) (envString "BIRAK_HTTP_USERNAME" (ht_Username h)) (envString "BIRAK_HTTP_PASSWORD" (ht_Password h)) htAnon)
    (mkSFTP sfOn (envString "BIRAK_SFTP_LISTEN_ADDR" (sf_ListenAddr f)) (envString "BIRAK_SFTP_USERNAME" (sf_Username f)) (envString "BIRAK_SFTP_PASSWORD" (sf_Password f)) sfAnon
       (envString "BIRAK_SFTP_HOST_KEY_PATH" (sf_HostKeyPath f)))).
End Environment.

(** [func Load(path string) (Config, error)]; [file] is what the YAML file makes of the defaults:
    nothing when no path is given, an error when it cannot be read or parsed. *)
Definition Load (file : option (result cerr Config)) (env : string -> string) : result cerr Config :=
  let? c := default (Ok DefaultConfig) file in
  let? c := applyEnv env c in
  validate c.

(** ** Warnings *)

(** [func loopbackListener(addr string) bool] *)
Definition loopbackListener (addr : string) : bool :=
  match splitHostPort addr with
  | None => false
  | Some host => if host =s "localhost" then true else match parseIP host with Some ip => ip_Loopback ip | None => false end
  end.

(** [func privateHost(host string) bool] *)
Definition privateHost (host : string) : bool :=
  match parseIP host with
  | Some ip => ip_Loopback ip || ip_Private ip || ip_LinkLocalUnicast ip
  | None =>
      let host := ToLower (TrimSuffix host ".") in
      negb (ContainsByte host ".") || existsb (HasSuffix host) [".local"; ".internal"; ".lan"; ".home.arpa"; ".localhost"]
  end.

(** [func SecurityWarnings(c Config) []string], by what each is about. *)
Inductive warning := WOpenAPI | WPlainPeer (peer : string) | WNoReconcile | WAnonymous (gateway : string).
Definition SecurityWarnings (c : Config) : list warning :=
  ((if (cf_ClusterSecret c =s "") && negb (loopbackListener (cf_ListenAddr c)) then [WOpenAPI] else []) ++
   map WPlainPeer (List.filter (fun peer => match parseURL peer with Some u => (u_Scheme u =s "http") && negb (privateHost (u_Hostname u)) | None => false end) (cf_Peers c)) ++
   (if sc_ReconcileInterval (cf_Sync c) =? 0 then [WNoReconcile] else []) ++
   map (fun p => WAnonymous (cp_gateway p)) (List.filter (fun p => cp_enabled p && cp_anonymous p && (cp_a p =s "") && (cp_b p =s "")) (credentialPairs c)))%list.

(** ** What the environment decides *)

(** The variables and the settings they are for. *)
Definition stringSettings : list (string * (Config -> string)) :=
  [ ("BIRAK_STORAGE_MODE", fun c => cf_StorageMode c);
    ("BIRAK_NODE_ID", fun c => cf_NodeID c);
    ("BIRAK_SYNC_DIR", fun c => cf_SyncDir c);
    ("BIRAK_META_DIR", fun c => cf_MetaDir c);
    ("BIRAK_LISTEN_ADDR", fun c => cf_ListenAddr c);
    ("BIRAK_LOG_LEVEL", fun c => cf_LogLevel c);
    ("BIRAK_CLUSTER_SECRET", fun c => cf_ClusterSecret c);
    ("BIRAK_TLS_CERT_FILE", fun c => cf_TLSCertFile c);
    ("BIRAK_TLS_KEY_FILE", fun c => cf_TLSKeyFile c);
    ("BIRAK_PEER_CA_FILE", fun c => cf_PeerCAFile c);
    ("BIRAK_METRICS_TOKEN", fun c => cf_MetricsToken c);
    ("BIRAK_S3_LISTEN_ADDR", fun c => s3_ListenAddr (cf_S3 c));
    ("BIRAK_S3_ACCESS_KEY", fun c => s3_AccessKey (cf_S3 c));
    ("BIRAK_S3_SECRET_KEY", fun c => s3_SecretKey (cf_S3 c));
    ("BIRAK_S3_DOMAIN", fun c => s3_Domain (cf_S3 c));
    ("BIRAK_S3_TLS_CERT_FILE", fun c => s3_TLSCertFile (cf_S3 c));
    ("BIRAK_S3_TLS_KEY_FILE", fun c => s3_TLSKeyFile (cf_S3 c));
    ("BIRAK_WEBDAV_LISTEN_ADDR", fun c => wv_ListenAddr (cf_WebDAV c));
    ("BIRAK_WEBDAV_USERNAME", fun c => wv_Username (cf_WebDAV c));
    ("BIRAK_WEBDAV_PASSWORD", fun c => wv_Password (cf_WebDAV c));
    ("BIRAK_HTTP_LISTEN_ADDR", fun c => ht_ListenAddr (cf_HTTP c));
    ("BIRAK_HTTP_USERNAME", fun c => ht_Username (cf_HTTP c));
    ("BIRAK_HTTP_PASSWORD", fun c => ht_Password (cf_HTTP c));
    ("BIRAK_SFTP_LISTEN_ADDR", fun c => sf_ListenAddr (cf_SFTP c));
    ("BIRAK_SFTP_USERNAME", fun c => sf_Username (cf_SFTP c));
    ("BIRAK_SFTP_PASSWORD", fun c => sf_Password (cf_SFTP c));
    ("BIRAK_SFTP_HOST_KEY_PATH", fun c => sf_HostKeyPath (cf_SFTP c)) ].
Definition listSettings : list (string * (Config -> list string)) :=
  [ ("BIRAK_PEERS", fun c => cf_Peers c);
    ("BIRAK_IGNORE", fun c => cf_Ignore c);
    ("BIRAK_S3_BUCKETS", fun c => s3_Buckets (cf_S3 c)) ].
Definition intSettings : list (string * (Config -> Z)) :=
  [ ("BIRAK_MAX_UPLOAD_BYTES", fun c => cf_MaxUploadBytes c);
    ("BIRAK_SYNC_MAX_REPAIR_QUEUE", fun c => sc_MaxRepairQueue (cf_Sync c));
    ("BIRAK_SYNC_SCRUB_BYTES_PER_SECOND", fun c => sc_ScrubBytesPerSecond (cf_Sync c));
    ("BIRAK_MULTIPART_MIN_PART_BYTES", fun c => mc_MinPartBytes (cf_Multipart c));
    ("BIRAK_MULTIPART_MAX_PART_BYTES", fun c => mc_MaxPartBytes (cf_Multipart c));
    ("BIRAK_SYNC_BATCH_LIMIT", fun c => sc_BatchLimit (cf_Sync c));
    ("BIRAK_SYNC_MAX_CONCURRENT_DOWNLOADS", fun c => sc_MaxConcurrentDownloads (cf_Sync c));
    ("BIRAK_SYNC_RECONCILE_PAGE_BUDGET", fun c => sc_ReconcilePageBudget (cf_Sync c));
    ("BIRAK_SYNC_MAX_EXTERNAL_DELETIONS", fun c => sc_MaxExternalDeletions (cf_Sync c));
    ("BIRAK_MULTIPART_MAX_PARTS", fun c => mc_MaxParts (cf_Multipart c));
    ("BIRAK_MULTIPART_MAX_ACTIVE_UPLOADS", fun c => mc_MaxActiveUploads (cf_Multipart c));
    ("BIRAK_MULTIPART_MAX_CONCURRENT_PART_UPLOADS", fun c => mc_MaxConcurrentPartUploads (cf_Multipart c)) ].
Definition durationSettings : list (string * (Config -> Z)) :=
  [ ("BIRAK_SYNC_POLL_INTERVAL", fun c => sc_PollInterval (cf_Sync c));
    ("BIRAK_SYNC_TOMBSTONE_TTL", fun c => sc_TombstoneTTL (cf_Sync c));
    ("BIRAK_SYNC_SCAN_INTERVAL", fun c => sc_ScanInterval (cf_Sync c));
    ("BIRAK_SYNC_DEBOUNCE_WINDOW", fun c => sc_DebounceWindow (cf_Sync c));
    ("BIRAK_SYNC_REPAIR_INTERVAL", fun c => sc_RepairInterval (cf_Sync c));
    ("BIRAK_SYNC_RECONCILE_INTERVAL", fun c => sc_ReconcileInterval (cf_Sync c));
    ("BIRAK_MULTIPART_UPLOAD_TTL", fun c => mc_UploadTTL (cf_Multipart c));
    ("BIRAK_MULTIPART_CLEANUP_INTERVAL", fun c => mc_CleanupInterval (cf_Multipart c));
    ("BIRAK_MULTIPART_TEMP_FILE_MAX_AGE", fun c => mc_TempFileMaxAge (cf_Multipart c)) ].
Definition boolSettings : list (string * (Config -> bool)) :=
  [ ("BIRAK_ACCESS_LOG", fun c => cf_AccessLog c);
    ("BIRAK_S3_ENABLED", fun c => s3_Enabled (cf_S3 c));
    ("BIRAK_S3_ALLOW_ANONYMOUS", fun c => s3_AllowAnonymous (cf_S3 c));
    ("BIRAK_WEBDAV_ENABLED", fun c => wv_Enabled (cf_WebDAV c));
    ("BIRAK_WEBDAV_ALLOW_ANONYMOUS", fun c => wv_AllowAnonymous (cf_WebDAV c));
    ("BIRAK_HTTP_ENABLED", fun c => ht_Enabled (cf_HTTP c));
    ("BIRAK_HTTP_ALLOW_ANONYMOUS", fun c => ht_AllowAnonymous (cf_HTTP c));
    ("BIRAK_SFTP_ENABLED", fun c => sf_Enabled (cf_SFTP c));
    ("BIRAK_SFTP_ALLOW_ANONYMOUS", fun c => sf_AllowAnonymous (cf_SFTP c)) ].

(** A variable that is set and does not parse. *)
Definition malformed (env : string -> string) (key : string) : Prop :=
  env key <> "" /\ ((key ∈ intSettings.*1 /\ ParseInt (TrimSpace (env key)) = None) \/ (key ∈ durationSettings.*1 /\ parseDuration (TrimSpace (env key)) = None) \/
                    (key ∈ boolSettings.*1 /\ parseBool (env key) = None)).
Lemma envParsed_Err {A} env (parse : string -> option A) key old e : envParsed env parse key old = Err e -> e = CEnv key /\ env key <> "" /\ parse (env key) = None.
Proof. unfold envParsed. destruct (String.eqb_spec (env key) "") as [|Hn]; [done|]. destruct (parse (env key)); [done|]. by intros [= <-]. Qed.

Lemma known_key {A} (l : list (string * A)) key : existsb (fun kv => kv.1 =s key) l = true -> key ∈ l.*1.
Proof. intros E. apply existsb_exists in E as ([k v] & Hin & E). apply String.eqb_eq in E. cbn in E. subst k. apply list_elem_of_fmap. exists (key, v). split; [done|by apply list_elem_of_In]. Qed.
Lemma bad_int env key old e : existsb (fun kv => kv.1 =s key) intSettings = true -> envInt env key old = Err e -> exists k, e = CEnv k /\ malformed env k.
Proof. intros Hk E. apply envParsed_Err in E as (-> & Hn & Hp). exists key. split; [done|]. split; [done|]. left. split; [by apply known_key|done]. Qed.
Lemma bad_duration env key old e : existsb (fun kv => kv.1 =s key) durationSettings = true -> envDuration env key old = Err e -> exists k, e = CEnv k /\ malformed env k.
Proof. intros Hk E. apply envParsed_Err in E as (-> & Hn & Hp). exists key. split; [done|]. split; [done|]. right. left. split; [by apply known_key|done]. Qed.
Lemma bad_bool env key old e : existsb (fun kv => kv.1 =s key) boolSettings = true -> envBool env key old = Err e -> exists k, e = CEnv k /\ malformed env k.
Proof. intros Hk E. apply envParsed_Err in E as (-> & Hn & Hp). exists key. split; [done|]. split; [done|]. right. right. split; [by apply known_key|done]. Qed.

(** Each setting is the variable's value when it is set, and what it was otherwise. *)
Record overridden (env : string -> string) (c c' : Config) : Prop := mkOverridden {
  ov_string : Forall (fun kv : string * (Config -> string) => kv.2 c' = envString env kv.1 (kv.2 c)) stringSettings;
  ov_list : Forall (fun kv : string * (Config -> list string) => kv.2 c' = envList env kv.1 (kv.2 c)) listSettings;
  ov_int : Forall (fun kv : string * (Config -> Z) => envInt env kv.1 (kv.2 c) = Ok (kv.2 c')) intSettings;
  ov_duration : Forall (fun kv : string * (Config -> Z) => envDuration env kv.1 (kv.2 c) = Ok (kv.2 c')) durationSettings;
  ov_bool : Forall (fun kv : string * (Config -> bool) => envBool env kv.1 (kv.2 c) = Ok (kv.2 c')) boolSettings
}.

Lemma parsed_Ok {A} env (parse : string -> option A) (l : list (string * (Config -> A))) key c c' : Forall (fun kv : string * (Config -> A) => envParsed env parse kv.1 (kv.2 c) = Ok (kv.2 c')) l ->
  key ∈ l.*1 -> env key <> "" -> parse (env key) <> None.
Proof.
  intros Hl Hk Hn Hp. apply list_elem_of_fmap in Hk as (kv & -> & Hin). rewrite Forall_forall in Hl. specialize (Hl kv Hin). unfold envParsed in Hl. apply String.eqb_neq in Hn. rewrite Hn, Hp in Hl. done.
Qed.
Lemma overridden_parses env c c' key : overridden env c c' -> ~ malformed env key.
Proof.
  intros [_ _ H1 H2 H3] [Hn [[Hk Hp]|[[Hk Hp]|[Hk Hp]]]]; [eapply parsed_Ok; [exact H1|done..]|eapply parsed_Ok; [exact H2|done..]|eapply parsed_Ok; [exact H3|done..]].
Qed.

(** The environment decides, and never by halves. Either every variable that is set parses
    and each of the sixty settings is exactly its variable's value, or what it was when the
    variable is empty; or the whole configuration is refused, naming a variable that is set and
    does not parse. No invalid override falls back to the file or to a default. *)
Theorem applyEnv_exact (env : string -> string) (c : Config) :
  match applyEnv env c with
  | Ok c' => overridden env c c' /\ (forall key, ~ malformed env key)
  | Err e => exists key, e = CEnv key /\ malformed env key
  end.
Proof.
  unfold applyEnv. cbv zeta.
  repeat match goal with |- match bindR ?r _ with _ => _ end => destruct r eqn:?; cbn [bindR]; [|first [by eapply bad_int; [|eassumption]|by eapply bad_duration; [|eassumption]|by eapply bad_bool; [|eassumption]]] end.
  match goal with |- overridden _ _ ?c' /\ _ => assert (overridden env c c') as Ho by (split; repeat (apply Forall_cons_2; [first [reflexivity|assumption]|]); apply Forall_nil_2) end.
  split; [exact Ho|]. intros key. by eapply overridden_parses.
Qed.

(** ** What a valid configuration promises *)

(** A peer that can be polled. *)
Definition usablePeer (peer : string) : Prop :=
  peer <> "" /\ exists u, parseURL peer = Some u /\ (u_Scheme u = "http" \/ u_Scheme u = "https") /\ u_Host u <> "" /\ u_Hostname u <> "" /\
    u_User u = false /\ u_RawQuery u = "" /\ u_Fragment u = "".
(** A gateway that asks for credentials nobody can guess from the examples. *)
Definition authenticated (p : credentialPair) : Prop := cp_a p <> "" /\ cp_b p <> "" /\ isPlaceholder (cp_a p) = false /\ isPlaceholder (cp_b p) = false.
Definition anonymous (p : credentialPair) : Prop := cp_anonymous p = true /\ cp_a p = "" /\ cp_b p = "".

Record config_ok (c : Config) : Prop := mkConfigOk {
  ok_mode : cf_StorageMode c = "filesystem";
  ok_tls : (cf_TLSCertFile c = "" <-> cf_TLSKeyFile c = "") /\ (s3_TLSCertFile (cf_S3 c) = "" <-> s3_TLSKeyFile (cf_S3 c) = "");
  ok_level : cf_LogLevel c = "" \/ logLevels (ToLower (TrimSpace (cf_LogLevel c))) = Some (SlogLevel c);
  ok_peers : NoDup (cf_Peers c) /\ forall peer, peer ∈ cf_Peers c -> usablePeer peer;
  ok_id : cf_NodeID c <> "" /\ all_bytes (fun b => negb (controlByte b)) (cf_NodeID c) = true;
  ok_secret : (cf_Peers c <> [] -> cf_ClusterSecret c <> "") /\ isPlaceholder (cf_ClusterSecret c) = false /\ isPlaceholder (cf_MetricsToken c) = false;
  ok_gateways : forall p, p ∈ credentialPairs c -> cp_enabled p = true -> authenticated p \/ anonymous p;
  ok_paths : cf_SyncDir c <> "" /\ cf_MetaDir c <> "" /\ cf_ListenAddr c <> "";
  ok_sync : 0 < sc_PollInterval (cf_Sync c) /\ 0 < sc_BatchLimit (cf_Sync c) /\ 0 < sc_MaxConcurrentDownloads (cf_Sync c) /\ 0 <= sc_MaxRepairQueue (cf_Sync c) /\
    0 < sc_TombstoneTTL (cf_Sync c) /\ 0 < sc_ScanInterval (cf_Sync c) /\ 0 <= sc_DebounceWindow (cf_Sync c) /\ 0 <= sc_ScrubBytesPerSecond (cf_Sync c) /\
    0 <= sc_MaxExternalDeletions (cf_Sync c) /\ 0 <= sc_RepairInterval (cf_Sync c) /\ 0 <= sc_ReconcileInterval (cf_Sync c) /\ 0 <= sc_ReconcilePageBudget (cf_Sync c) /\ 0 <= cf_MaxUploadBytes c;
  ok_ignore : forall pattern name, pattern ∈ cf_Ignore c -> MatchErr pattern name = false;
  ok_addresses : (s3_Enabled (cf_S3 c) = true -> s3_ListenAddr (cf_S3 c) <> "") /\ (wv_Enabled (cf_WebDAV c) = true -> wv_ListenAddr (cf_WebDAV c) <> "") /\
    (ht_Enabled (cf_HTTP c) = true -> ht_ListenAddr (cf_HTTP c) <> "") /\ (sf_Enabled (cf_SFTP c) = true -> sf_ListenAddr (cf_SFTP c) <> "");
  ok_multipart : 0 <= mc_MinPartBytes (cf_Multipart c) /\ 0 <= mc_MaxPartBytes (cf_Multipart c) /\
    (0 < mc_MinPartBytes (cf_Multipart c) -> 0 < mc_MaxPartBytes (cf_Multipart c) -> mc_MinPartBytes (cf_Multipart c) <= mc_MaxPartBytes (cf_Multipart c)) /\
    0 <= mc_MaxParts (cf_Multipart c) /\ 0 <= mc_MaxActiveUploads (cf_Multipart c) /\ 0 <= mc_MaxConcurrentPartUploads (cf_Multipart c) /\
    0 <= mc_UploadTTL (cf_Multipart c) /\ 0 <= mc_CleanupInterval (cf_Multipart c) /\ 0 <= mc_TempFileMaxAge (cf_Multipart c)
}.

Lemma check_Ok {A} bad setting (k : result cerr A) a : check bad setting k = Ok a -> bad = false /\ k = Ok a.
Proof. unfold check. by destruct bad. Qed.
Lemma both_or_none a b : negb (Bool.eqb (a =s "") (b =s "")) = false -> a = "" <-> b = "".
Proof. intros E%negb_false_iff%eqb_prop. rewrite <- !String.eqb_eq, E. reflexivity. Qed.

Lemma check_peers_Ok l seen peers : NoDup seen -> (forall p, p ∈ seen -> usablePeer p) -> check_peers l seen = Ok peers -> NoDup peers /\ forall p, p ∈ peers -> usablePeer p.
Proof.
  revert seen. induction l as [|peer l IH]; intros seen Hn Hs E; cbn in E; [by injection E as <-|]. destruct (String.eqb_spec (peerKey peer) "") as [|Hk]; [by eapply IH|].
  destruct (checkPeerURL (peerKey peer)) eqn:Eu; [done|]. destruct (bool_decide _) eqn:Ed; [done|]. apply bool_decide_eq_false in Ed. eapply IH; [| |exact E].
  - apply NoDup_app. split; [done|]. split; [|apply NoDup_singleton]. by intros p Hp ->%list_elem_of_singleton.
  - intros p [Hp| ->%list_elem_of_singleton]%elem_of_app; [by apply Hs|]. split; [done|]. unfold checkPeerURL in Eu. destruct (parseURL (peerKey peer)) as [u|]; [|done]. exists u. split; [done|].
    rewrite !orb_false_iff, andb_false_iff, !negb_false_iff, !String.eqb_eq, !String.eqb_neq in Eu. destruct Eu as [[[? ?] ?] [[? ?] ?]]. repeat (split; [assumption|]). assumption.
Qed.
Lemma check_pairs_Ok l : check_pairs l = Ok tt -> forall p, p ∈ l -> cp_enabled p = true -> authenticated p \/ anonymous p.
Proof.
  induction l as [|q l IH]; intros E p Hp Hen; [by apply elem_of_nil in Hp|]. cbn in E. apply elem_of_cons in Hp as [-> |Hp].
  - rewrite Hen in E. cbn in E. destruct (_ && _ && _) eqn:E1; [done|]. destruct (negb (Bool.eqb (cp_a q =s "") (cp_b q =s ""))) eqn:E2; [done|]. destruct (_ || _) eqn:E3; [done|]. apply both_or_none in E2. apply orb_false_iff in E3 as [E3 E4].
    destruct (String.eqb_spec (cp_a q) "") as [Ea|Ea].
    + right. pose proof (proj1 E2 Ea) as Eb. rewrite Eb in E1. cbn in E1. apply negb_false_iff in E1. done.
    + left. split; [done|]. split; [by intros Hb%E2|done].
  - destruct (negb _); [by apply IH|]. destruct (_ && _ && _); [done|]. destruct (negb _); [done|]. destruct (_ || _); [done|]. by apply IH.
Qed.
Ltac checked := repeat match goal with H : check _ _ _ = Ok _ |- _ => apply check_Ok in H as [? H] end.
Ltac number := repeat match goal with
  | H : (_ || _) = false |- _ => apply orb_false_iff in H as [? ?]
  | H : (_ <=? _) = false |- _ => apply Z.leb_gt in H
  | H : (_ <? _) = false |- _ => apply Z.ltb_ge in H
  end.

Lemma check_numbers_Ok c : check_numbers c = Ok tt ->
  (forall pattern name, pattern ∈ cf_Ignore c -> MatchErr pattern name = false) /\
  ((s3_Enabled (cf_S3 c) = true -> s3_ListenAddr (cf_S3 c) <> "") /\ (wv_Enabled (cf_WebDAV c) = true -> wv_ListenAddr (cf_WebDAV c) <> "") /\
    (ht_Enabled (cf_HTTP c) = true -> ht_ListenAddr (cf_HTTP c) <> "") /\ (sf_Enabled (cf_SFTP c) = true -> sf_ListenAddr (cf_SFTP c) <> "")) /\
  (0 < sc_PollInterval (cf_Sync c) /\ 0 < sc_BatchLimit (cf_Sync c) /\ 0 < sc_MaxConcurrentDownloads (cf_Sync c) /\ 0 <= sc_MaxRepairQueue (cf_Sync c) /\
    0 < sc_TombstoneTTL (cf_Sync c) /\ 0 < sc_ScanInterval (cf_Sync c) /\ 0 <= sc_DebounceWindow (cf_Sync c) /\ 0 <= sc_ScrubBytesPerSecond (cf_Sync c) /\
    0 <= sc_MaxExternalDeletions (cf_Sync c) /\ 0 <= sc_RepairInterval (cf_Sync c) /\ 0 <= sc_ReconcileInterval (cf_Sync c) /\ 0 <= sc_ReconcilePageBudget (cf_Sync c) /\ 0 <= cf_MaxUploadBytes c) /\
  (0 <= mc_MinPartBytes (cf_Multipart c) /\ 0 <= mc_MaxPartBytes (cf_Multipart c) /\
    (0 < mc_MinPartBytes (cf_Multipart c) -> 0 < mc_MaxPartBytes (cf_Multipart c) -> mc_MinPartBytes (cf_Multipart c) <= mc_MaxPartBytes (cf_Multipart c)) /\
    0 <= mc_MaxParts (cf_Multipart c) /\ 0 <= mc_MaxActiveUploads (cf_Multipart c) /\ 0 <= mc_MaxConcurrentPartUploads (cf_Multipart c) /\
    0 <= mc_UploadTTL (cf_Multipart c) /\ 0 <= mc_CleanupInterval (cf_Multipart c) /\ 0 <= mc_TempFileMaxAge (cf_Multipart c)).
Proof.
  assert (forall a b, a && (b =s "") = false -> a = true -> b <> "") as Haddr by (intros a b E ->; by apply String.eqb_neq).
  intros E. unfold check_numbers in E. cbv zeta in E. checked. split; [|split; [|number; lia]].
  - intros pattern name Hin. match goal with H : existsb _ (cf_Ignore c) = false |- _ => rename H into He end. destruct (MatchErr pattern name) eqn:Em; [|done]. exfalso.
    assert (existsb (fun pattern => MatchErr pattern "test") (cf_Ignore c) = true) as Ht; [|congruence]. apply existsb_exists. exists pattern. split; [by apply list_elem_of_In|]. unfold MatchErr in *. by rewrite bad_go_rest in *.
  - repeat split; eapply Haddr; eassumption.
Qed.

Lemma default_id_plain : all_bytes (fun b => negb (controlByte b)) defaultNodeID = true.
Proof. vm_compute. reflexivity. Qed.

Lemma validate_wf c c' : validate c = Ok c' -> config_ok c'.
Proof.
  intros E. unfold validate in E. checked. destruct (check_peers (cf_Peers c) []) as [peers|] eqn:Ep; [|done]. cbv zeta in E. checked. destruct (checkCredentials c) as [[]|] eqn:Ec; [|done]. checked.
  destruct (check_numbers c) as [[]|] eqn:En; [|done]. injection E as <-. apply check_peers_Ok in Ep as [P1 P2]; [|constructor|by intros p Hp; apply elem_of_nil in Hp].
  unfold checkCredentials in Ec. destruct (check_pairs (credentialPairs c)) as [[]|] eqn:Eg; [|done]. checked. destruct (check_numbers_Ok c En) as (N1 & N2 & N3 & N4).
  repeat match goal with H : negb (Bool.eqb _ _) = false |- _ => apply both_or_none in H end. repeat match goal with H : (_ =s _) = false |- _ => apply String.eqb_neq in H end.
  split; cbn [cf_StorageMode cf_NodeID cf_SyncDir cf_MetaDir cf_ListenAddr cf_Peers cf_Ignore cf_LogLevel cf_ClusterSecret cf_TLSCertFile cf_TLSKeyFile cf_MetricsToken cf_MaxUploadBytes cf_Multipart cf_Sync cf_S3 cf_WebDAV cf_HTTP cf_SFTP with_identity]; try done.
  - by match goal with H : negb (cf_StorageMode c =s _) = false |- _ => apply negb_false_iff, String.eqb_eq in H end.
  - unfold SlogLevel. cbn. destruct (logLevels _); [by right|left]. by match goal with H : negb (cf_LogLevel c =s "") = false |- _ => apply negb_false_iff, String.eqb_eq in H end.
  - match goal with H : negb (all_bytes _ _) = false |- _ => apply negb_false_iff in H; rewrite H end. split; [|done]. by destruct (String.eqb_spec (TrimSpace (cf_NodeID c)) "").
  - split; [|done]. intros Hne. match goal with H : negb _ && (cf_ClusterSecret c =s "") = false |- _ => rename H into Hs end. rewrite bool_decide_eq_false_2 in Hs by done. by apply String.eqb_neq.
  - intros p Hp. by apply (check_pairs_Ok _ Eg).
Qed.
Lemma validate_frame c c' : validate c = Ok c' -> c' = with_identity (cf_Peers c') (cf_NodeID c') c.
Proof.
  intros E. unfold validate in E. checked. destruct (check_peers (cf_Peers c) []) as [peers|]; [|done]. cbv zeta in E. checked. destruct (checkCredentials c); [|done]. checked. destruct (check_numbers c); [|done]. by injection E as <-.
Qed.

(** C20. A configuration that is accepted is well formed. Peers are distinct, non-empty and
    http or https URLs with a host and nothing else, and come with a cluster secret and a node
    name without blanks; every enabled gateway has both credentials or is anonymous by choice with
    neither, and no credential, secret or token is one of the published examples; every ignore
    pattern is well formed, so matching it never fails for any name, although it is tried on one;
    numbers, addresses and certificates are within their limits. Only the peers and the node's
    name are rewritten. *)
Theorem validate_config_ok (c c' : Config) : validate c = Ok c' -> config_ok c' /\ c' = with_identity (cf_Peers c') (cf_NodeID c') c.
Proof.
  intros E. split; [by apply validate_wf in E|by apply validate_frame in E].
Qed.

(** Nothing is exposed in silence. When a configuration loads and gives no warning, every
    enabled gateway asks for two non-empty credentials that are not the published examples, the
    peer API asks for a secret or listens on the loopback interface only, peers over plain HTTP
    are on a private network, and the comparison with peers that finds what the change stream
    misses is on. *)
Theorem no_silent_exposure (file : option (result cerr Config)) (env : string -> string) (c : Config) :
  Load file env = Ok c -> SecurityWarnings c = [] ->
  (forall p, p ∈ credentialPairs c -> cp_enabled p = true -> authenticated p) /\
  ((cf_ClusterSecret c <> "" /\ isPlaceholder (cf_ClusterSecret c) = false) \/ loopbackListener (cf_ListenAddr c) = true) /\
  (forall peer, peer ∈ cf_Peers c -> exists u, parseURL peer = Some u /\ (u_Scheme u = "https" \/ privateHost (u_Hostname u) = true)) /\
  0 < sc_ReconcileInterval (cf_Sync c).
Proof.
  intros El Ew. unfold Load in El. destruct (default (Ok DefaultConfig) file) as [c0|]; [|done]. cbn [bindR] in El. destruct (applyEnv env c0) as [c1|]; [|done]. cbn [bindR] in El.
  apply validate_wf in El as [K1 K2 K3 K4 K5 K6 K7 K8 K9 K10 K11 K12]. unfold SecurityWarnings in Ew. apply app_eq_nil in Ew as [W1 [W2 [W3 W4]%app_eq_nil]%app_eq_nil].
  split; [|split; [|split]].
  - intros p Hp Hen. destruct (K7 p Hp Hen) as [?|(Ha & Hb & Hc)]; [done|]. exfalso. apply map_eq_nil in W4. assert (p ∈ ([] : list credentialPair)) as Hx; [|by apply elem_of_nil in Hx].
    rewrite <- W4. apply list_elem_of_In, filter_In. split; [by apply list_elem_of_In|]. by rewrite Hen, Ha, Hb, Hc.
  - destruct (String.eqb_spec (cf_ClusterSecret c) "") as [|Hn]; [right|left; split; [done|apply K6]]. cbn in W1. by destruct (loopbackListener (cf_ListenAddr c)).
  - intros peer Hp. destruct (proj2 K4 peer Hp) as (_ & u & Hu & Hs & _). exists u. split; [done|]. destruct Hs as [Hs|Hs]; [right|by left]. destruct (privateHost (u_Hostname u)) eqn:Eh; [done|]. exfalso. apply map_eq_nil in W2.
    assert (peer ∈ ([] : list string)) as Hx; [|by apply elem_of_nil in Hx]. rewrite <- W2. apply list_elem_of_In, filter_In. split; [by apply list_elem_of_In|]. by rewrite Hu, Hs, Eh.
  - destruct (Z.eqb_spec (sc_ReconcileInterval (cf_Sync c)) 0); [done|]. lia.
Qed.
End Config.

(** ** The limits of the multipart store *)

(** The store's limits, as the daemon takes them from the configuration. *)
Definition multipartLimits (c : Config) : Limits :=
  let m := cf_Multipart c in
  mkLimits (mc_MinPartBytes m) (mc_MaxPartBytes m) (mc_MaxParts m) (cf_MaxUploadBytes c) (mc_MaxActiveUploads m) (mc_MaxConcurrentPartUploads m)
    (mc_UploadTTL m) (mc_CleanupInterval m) (mc_TempFileMaxAge m).

(** With both limits given, no accepted configuration has a minimum above the maximum. *)
Lemma part_limits_given parseURL c : config_ok parseURL c -> 0 < mc_MinPartBytes (cf_Multipart c) -> 0 < mc_MaxPartBytes (cf_Multipart c) ->
  MinPartBytes (withDefaults (multipartLimits c)) <= MaxPartBytes (withDefaults (multipartLimits c)).
Proof.
  intros [_ _ _ _ _ _ _ _ _ _ _ (_ & _ & Hm & _)] H1 H2. specialize (Hm H1 H2). unfold withDefaults, multipartLimits, orDefault. cbn.
  destruct (Z.leb_spec (mc_MinPartBytes (cf_Multipart c)) 0), (Z.leb_spec (mc_MaxPartBytes (cf_Multipart c)) 0); lia.
Qed.

(** ** Examples *)

Definition sampleURL (s : string) : option URL := if s =s "https://b:9100" then Some (mkURL "https" "b:9100" "b" false "" "") else None.
Definition sampleIP (s : string) : option IP := if s =s "127.0.0.1" then Some (mkIP true false false) else None.
Definition samplePort (s : string) : option string := None.
Definition sampleDuration (s : string) : option Z := if s =s "5s" then Some (5 * second) else None.
Definition sampleEnv (key : string) : string :=
  if key =s "BIRAK_CLUSTER_SECRET" then "k3y" else if key =s "BIRAK_PEERS" then " https://b:9100/ ,," else if key =s "BIRAK_NODE_ID" then "a"
  else if key =s "BIRAK_S3_ENABLED" then "Yes" else if key =s "BIRAK_S3_ACCESS_KEY" then "id" else if key =s "BIRAK_S3_SECRET_KEY" then "key" else "".
Definition sampleLoad : result cerr Config := Load sampleURL sampleDuration None sampleEnv.
Definition sampleConfig : Config := match sampleLoad with Ok c => c | Err _ => DefaultConfig end.

Lemma validate_config_ok_witness : exists c', validate sampleURL sampleConfig = Ok c' /\ config_ok sampleURL c'.
Proof.
  assert (exists c', validate sampleURL sampleConfig = Ok c') as [c' E] by (exists sampleConfig; vm_compute; reflexivity). exists c'. split; [exact E|].
  exact (proj1 (validate_config_ok sampleURL sampleConfig c' E)).
Defined.
Lemma no_silent_exposure_witness : cf_Peers sampleConfig = ["https://b:9100"] /\ forall p, p ∈ credentialPairs sampleConfig -> cp_enabled p = true -> authenticated p.
Proof.
  assert (Load sampleURL sampleDuration None sampleEnv = Ok sampleConfig) as E by (vm_compute; reflexivity). assert (SecurityWarnings sampleURL sampleIP samplePort sampleConfig = []) as W by (vm_compute; reflexivity).
  split; [vm_compute; reflexivity|]. exact (proj1 (no_silent_exposure sampleURL sampleIP samplePort sampleDuration None sampleEnv sampleConfig E W)).
Defined.

(** An override that does not parse refuses the configuration. *)
Example bad_override : Load sampleURL sampleDuration None (fun key => if key =s "BIRAK_SYNC_BATCH_LIMIT" then "1k" else "") = Err (CEnv "BIRAK_SYNC_BATCH_LIMIT").
Proof. vm_compute. reflexivity. Qed.

(** One limit given and the other left to its default is not compared: an accepted configuration
    whose smallest part is larger than its largest. *)
Definition smallParts : Config :=
  mkConfig "filesystem" "" "./sync" "./meta" ":9100" [] [] "info" "k3y" "" "" "" "" true 0 (mkMultipart 0 1048576 0 10000 0 0 0 0)
    (cf_Sync DefaultConfig) (cf_S3 DefaultConfig) (cf_WebDAV DefaultConfig) (cf_HTTP DefaultConfig) (cf_SFTP DefaultConfig).
Example part_limits_contradict : is_ok (validate sampleURL smallParts) = true /\
  MinPartBytes (withDefaults (multipartLimits smallParts)) = 5242880 /\ MaxPartBytes (withDefaults (multipartLimits smallParts)) = 1048576.
Proof. vm_compute. auto. Qed.
