(* ===== verification/Readiness.v ===== *)
(** * Admission of a replica and the loops over its peers

    internal/syncer/readiness.go and the peer loops of syncer.go: the marker that tells a seeded
    node from one that is still catching up, the gate of a load balancer, and one iteration of
    polling and of comparing a peer. Sleeps, cancellation and the order of Go's maps are inputs. *)

From S2P Require Import Prelude GoStrings Hoare FileMeta Database Names Store RepairQueue Glob Validate Server Sync.

(** ** State *)

(** The rest of [type peerStat struct]: whether [lastReconcile] and [lastSuccess] are set. *)
Record standing := mkStanding { sd_reconciled : bool; sd_success : bool; sd_errs : Z; sd_duplicate : bool }.
Definition noStanding : standing := mkStanding false false 0 false.

Record Node := mkNode { nd_sync : Syncer; nd_peers : list string; nd_standing : gmap string standing; nd_initialized : bool }.
Definition set_sync (y : Syncer) (n : Node) : Node := mkNode y (nd_peers n) (nd_standing n) (nd_initialized n).
Definition set_initialized (b : bool) (n : Node) : Node := mkNode (nd_sync n) (nd_peers n) (nd_standing n) b.
Abbreviation No := (SE Node serr).
Definition onSync {A} (c : Sy A) : No A := zoomS nd_sync set_sync (fun e => e) c.
Definition onStoreN {A} (c : St A) : No A := onSync (inStore c).
Definition withStanding (peer : string) (f : standing -> standing) : No unit :=
  modifyS (fun n => mkNode (nd_sync n) (nd_peers n) (<[peer := f (default noStanding (nd_standing n !! peer))]> (nd_standing n)) (nd_initialized n)).
Definition nodeStore (n : Node) : Store := sy_store (nd_sync n).

Definition initializedKey : string := "replica_initialized".

(** ** Admission *)

(** What the walk of [initializeAdmission] shows. *)
Inductive seen := SeenDir (rel : string) | SeenFile (rel : string) | SeenOther (rel : string) | SeenDenied (rel : string) | SeenFail.

(** Whether a regular file was found; [None] when the walk failed. *)
Fixpoint seed_walk (ignore : list string) (entries : list seen) (skipped : list string) : option bool :=
  match entries with
  | [] => Some false
  | SeenFail :: _ => None
  | SeenDenied rel :: rest => seed_walk ignore rest (rel :: skipped)
  | SeenDir rel :: rest =>
      if existsb (fun d => HasPrefix rel (d +:+ "/")) skipped then seed_walk ignore rest skipped
      else seed_walk ignore rest (if ShouldIgnore rel ignore || (rel =s ".birak") then rel :: skipped else skipped)
  | SeenFile rel :: rest =>
      if existsb (fun d => HasPrefix rel (d +:+ "/")) skipped then seed_walk ignore rest skipped
      else if ShouldIgnore rel ignore || (rel =s ".birak") then seed_walk ignore rest skipped
      else Some true
  | SeenOther rel :: rest => seed_walk ignore rest skipped
  end.

(** [func (s *Syncer) initializeAdmission()] *)
Definition initializeAdmission (entries : list seen) : No unit :=
  let! flag := tryS (onStoreN (NodeValue initializedKey)) in
  match flag with
  | Err _ => retS tt
  | Ok flag =>
      if negb (flag =s "") then modifyS (set_initialized (flag =s "1"))
      else
        let! version := tryS (onStoreN MaxVersion) in
        match version with
        | Err _ => retS tt
        | Ok version =>
            let! n := getS in
            match (if (0 <? version) || bool_decide (nd_peers n = []) then Some true else seed_walk (sy_ignore (nd_sync n)) entries []) with
            | None => retS tt
            | Some seeded =>
                let! r := tryS (onStoreN (SetNodeValue initializedKey (if seeded then "1" else "0"))) in
                match r with Err _ => retS tt | Ok _ => modifyS (set_initialized seeded) end
            end
        end
  end.

(** A peer whose observed state was compared and fetched. *)
Definition caughtUp (n : Node) (peer : string) : bool :=
  match sy_stats (nd_sync n) !! peer, nd_standing n !! peer with
  | Some st, Some sd => sd_reconciled sd && sd_success sd && negb (pst_epoch st =s "") && (pst_peerMaxVersion st <=? pst_cursor st) && (sd_errs sd =? 0)
  | _, _ => false
  end.

(** [func (s *Syncer) ServingReady() bool]; [order] is the order the map of peers is ranged over
    in. *)
Fixpoint admit_loop (sources : list string) : No bool :=
  match sources with
  | [] => retS false
  | peer :: rest =>
      let! pending := tryS (onStoreN (PendingRepairCount peer)) in
      match pending with
      | Ok 0 =>
          let! r := tryS (onStoreN (SetNodeValue initializedKey "1")) in
          match r with
          | Err _ => retS false
          | Ok _ => do! modifyS (set_initialized true) then retS true
          end
      | _ => admit_loop rest
      end
  end.
Definition ServingReady (order : list string) : No bool :=
  let! n := getS in
  if nd_initialized n || bool_decide (nd_peers n = []) then retS true
  else admit_loop (List.filter (caughtUp n) order).

(** ** The loops over peers *)

Fixpoint isSelfErr (e : serr) : bool := match e with SSelfPeer => true | SJoin a b => isSelfErr a || isSelfErr b | _ => false end.
Fixpoint isFullErr (e : serr) : bool := match e with SStore (ERepairQueueFull _ _) => true | SJoin a b => isFullErr a || isFullErr b | _ => false end.
Fixpoint isDuplicateErr (e : serr) : bool := match e with SDuplicateNodeID _ => true | SJoin a b => isDuplicateErr a || isDuplicateErr b | _ => false end.

(** What a loop does next: go on at once, sleep (about) so long, or end. *)
Inductive next_step := Again | Sleep (d : Z) | Jitter (d : Z) | Ended.
Definition maxBackoff : Z := 60000000000.

Section Loops.
Context (conflictDigest : string -> string -> string) (pollInterval reconcileInterval : Z) (now : Z) (order : list string).

(** [func (s *Syncer) pollPeer(ctx context.Context, peerURL string)]: one iteration, with the
    backoff it starts and ends with; [cancelled] is the context after a failure. *)
Definition pollPeer (changesFrom : Z -> Z -> string -> option (Response (list FileMeta))) (cancelled : bool) (peer : string) (backoff : Z) : No (next_step * Z) :=
  let! r := tryS (onSync (syncOnce conflictDigest changesFrom now peer)) in
  match r with
  | Err e =>
      if cancelled then retS (Ended, backoff)
      else if isFullErr e then do! onSync (notifyApply peer) then retS (Sleep pollInterval, backoff)
      else if isSelfErr e then do! onSync (retireSelfPeer peer) then retS (Ended, backoff)
      else
        do! withStanding peer (fun s => mkStanding (sd_reconciled s) (sd_success s) (wrap64 (sd_errs s + 1)) (isDuplicateErr e)) then
        retS (Sleep backoff, Z.min (wrap64 (backoff * 2)) maxBackoff)
  | Ok n =>
      do! withStanding peer (fun s => mkStanding (sd_reconciled s) true 0 false) then
      if 0 <? n then retS (Again, pollInterval)
      else
        do! ServingReady order then
        retS (Jitter pollInterval, pollInterval)
  end.

(** [func (s *Syncer) reconcilePeer(ctx context.Context, peerURL string)]: one iteration. *)
Definition reconcilePeer (manifestFrom : string -> Z -> option (Response (list FileMeta))) (fuel : nat) (cancelled : bool) (peer : string) : No next_step :=
  let! r := tryS (onSync (reconcileOnce conflictDigest manifestFrom fuel now peer)) in
  let! ended := (match r with
    | Err e =>
        if isSelfErr e then do! onSync (retireSelfPeer peer) then retS true
        else if isFullErr e then retS false
        else retS cancelled
    | Ok (Some true) => do! withStanding peer (fun s => mkStanding true (sd_success s) (sd_errs s) (sd_duplicate s)) then retS false
    | Ok _ => retS false
    end) in
  if ended : bool then retS Ended
  else
    do! ServingReady order then
    let! n := getS in
    if negb (nd_initialized n) then retS (Jitter 1000000000)
    else if reconcileInterval <=? 0 then retS Ended else retS (Jitter reconcileInterval).
End Loops.

(** ** The marker *)

(** A step of the store that leaves a part of the tables alone. *)
Definition dbKept {X} (f : DB -> X) (s s' : Store) : Prop := f (db s') = f (db s).
#[export] Instance dbKept_preorder {X} (f : DB -> X) : PreOrder (dbKept f).
Proof. split; [done|]. intros s1 s2 s3 H1 H2. unfold dbKept in *. congruence. Qed.
Section Kept.
Context {X : Type} (f : DB -> X).
Lemma dbKept_untouched s s' : untouched s s' -> dbKept f s s'.
Proof. intros U. unfold dbKept. by rewrite (untouched_db _ _ U). Qed.
Lemma dbKept_query {A} (g : DB -> A) : keeps (dbKept f) (query g).
Proof. intros s. apply dbKept_untouched, keeps_query. Qed.
Lemma dbKept_modify g : (forall s, db (g s) = db s) -> keeps (dbKept f) (modifyS g : St unit).
Proof. intros Hg s. unfold dbKept. cbn. by rewrite Hg. Qed.
Lemma dbKept_exec (g : DB -> DB) : (forall d, f (g d) = f d) -> keeps (dbKept f) (exec g).
Proof. intros Hg s. destruct (exec g s) as [[a|e] s'] eqn:E; cbn; [apply exec_Ok in E as [Hd _]; unfold dbKept; rewrite Hd; apply Hg|]. apply exec_Err in E as [_ E]. by apply dbKept_untouched. Qed.
Lemma dbKept_transact {A} (body : St (bool * A)) : keeps memory_kept body -> keeps (dbKept f) body -> keeps (dbKept f) (transact body).
Proof.
  intros Hm Hr s. destruct (transact body s) as [[a|e] s'] eqn:E; cbn; [|apply transact_Err in E; [|done]; by apply dbKept_untouched].
  apply transact_Ok in E as (_ & b & s0 & s1 & U & E & Hd); [|done]. unfold dbKept. rewrite Hd. destruct b; [|done]. specialize (Hr s0). rewrite E in Hr. unfold dbKept in Hr. cbn in Hr. by rewrite <- (untouched_db _ _ U).
Qed.
End Kept.

Definition markerOf (d : DB) : option string := node_meta d !! initializedKey.
Abbreviation marked := (dbKept markerOf).
Definition marker (n : Node) : string := default "" (markerOf (db (nodeStore n))).

Lemma position_not_marker peer : reconcilePositionKey peer <> initializedKey.
Proof. intros E. discriminate E. Qed.
Lemma marked_enqueue now peer reason batch : keeps marked (enqueue now peer reason batch).
Proof.
  assert (forall bs limit queued, keeps marked (enqueue_loop now peer reason limit queued bs batch)) as Hl.
  { intros bs limit queued. revert bs. induction batch as [|c rest IH]; intros bs; cbn [enqueue_loop]; [apply keeps_ret, _|]. apply keeps_bind; [apply _|apply dbKept_query|]. intros row. cbv zeta. destruct (_ && _); [apply keeps_ret, _|].
    destruct (match qc_meta c with Some _ => _ | None => _ end); [apply IH|]. apply keeps_bind; [apply _|by apply dbKept_exec|]. intros _. apply IH. }
  assert (keeps marked (enqueue_tx now peer reason batch)) as Ht.
  { unfold enqueue_tx, readRevision, queuedFor. do 2 (apply keeps_bind; [apply _|apply dbKept_query|intros _]). apply keeps_bind; [apply _| |].
    { apply keeps_bind; [apply _|apply dbKept_query|]. intros v. destruct v; [apply keeps_ret, _|apply keeps_fail, _]. }
    intros rev. apply keeps_bind; [apply _|apply keeps_bind; [apply _|apply keeps_get, _|intros ?; apply keeps_ret, _]|]. intros queued. apply keeps_bind; [apply _|apply keeps_get, _|]. intros s.
    apply keeps_bind; [apply _|apply Hl|]. intros [bs full]. destruct (_ =? 0); [apply keeps_ret, _|]. apply keeps_bind; [apply _| |intros _; apply keeps_ret, _].
    apply dbKept_exec. intros d. unfold markerOf. cbn. destruct (node_meta d !! "repair_revision"); [by rewrite lookup_insert_ne|done]. }
  unfold enqueue. destruct batch; [apply keeps_ret, _|]. apply keeps_bind; [apply _|apply dbKept_transact; [apply keeps_enqueue_tx|exact Ht]|]. intros [bs full]. destruct (_ =? 0); [apply keeps_ret, _|].
  apply keeps_bind; [apply _|by apply dbKept_modify|]. intros _. apply keeps_bind; [apply _| |intros _; apply keeps_ret, _]. destruct (0 <? _); by apply dbKept_modify.
Qed.

(** The same of the node that polls. *)
Definition markedY (y y' : Syncer) : Prop := marked (sy_store y) (sy_store y').
#[export] Instance markedY_preorder : PreOrder markedY.
Proof. split; [intros y; unfold markedY; reflexivity|]. intros y1 y2 y3 H1 H2. unfold markedY in *. by etrans. Qed.
Lemma markedY_store {A} (c : St A) : keeps marked c -> keeps markedY (Sync.inStore c).
Proof. intros Hc y. specialize (Hc (sy_store y)). unfold Sync.inStore, zoomS, markedY. by destruct (c (sy_store y)). Qed.
Lemma markedY_modify f : (forall y, sy_store (f y) = sy_store y) -> keeps markedY (modifyS f : Sy unit).
Proof. intros Hf y. unfold markedY, dbKept. cbn. by rewrite Hf. Qed.
Lemma markedY_try {A} (c : Sy A) : keeps markedY c -> keeps markedY (tryS c).
Proof. intros Hc y. specialize (Hc y). unfold tryS. by destruct (c y). Qed.
Lemma markedY_ctx : keeps markedY ctxErr.
Proof. intros y. unfold ctxErr, markedY, dbKept. by destruct (sy_cancel y) as [|[] l]. Qed.
Lemma markedY_request {A} (sent : option (Response A)) : keeps markedY (doRequest sent).
Proof.
  unfold doRequest, checkPeerIdentity. destruct sent as [resp|]; [|apply keeps_fail, _]. apply keeps_bind; [apply _| |intros _; apply keeps_ret, _]. destruct (negb _); [apply keeps_fail, _|].
  cbv zeta. apply keeps_bind; [apply _|apply keeps_get, _|]. intros y. destruct (_ && _); [destruct (_ =s _); apply keeps_fail, _|]. destruct (negb _); [by apply markedY_modify|apply keeps_ret, _].
Qed.
Lemma markedY_usable conflictDigest changes : keeps markedY (keepUsable conflictDigest changes).
Proof.
  induction changes as [|c rest IH]; cbn [keepUsable]; [apply keeps_ret, _|]. apply keeps_bind; [apply _|apply keeps_get, _|]. intros y. destruct (usable _ _ c).
  - apply keeps_bind; [apply _|apply IH|]. intros out. apply keeps_ret, _.
  - apply keeps_bind; [apply _|by apply markedY_modify|]. intros _. apply IH.
Qed.
Lemma markedY_newer entries : keeps markedY (newerThanLocal entries).
Proof.
  unfold newerThanLocal. destruct entries as [|e rest]; [apply keeps_ret, _|]. apply keeps_bind; [apply _|apply markedY_store, dbKept_query|]. intros local. apply keeps_bind; [apply _|apply keeps_get, _|]. intros y. apply keeps_ret, _.
Qed.
Lemma markedY_record now peer wanted reason : keeps markedY (record now peer wanted reason).
Proof. unfold record. apply keeps_bind; [apply _|apply markedY_store, marked_enqueue|]. intros [n full]. destruct full; [apply keeps_fail, _|apply keeps_ret, _]. Qed.
Lemma markedY_setState peer ps : keeps markedY (Sync.inStore (SetPeerState peer ps)).
Proof. by apply markedY_store, dbKept_exec. Qed.
Lemma markedY_position peer v : keeps markedY (Sync.inStore (SetNodeValue (reconcilePositionKey peer) v)).
Proof. apply markedY_store, dbKept_exec. intros d. unfold markerOf. cbn. by rewrite lookup_insert_ne by apply position_not_marker. Qed.
Lemma markedY_notify peer : keeps markedY (notifyApply peer).
Proof. by apply markedY_modify. Qed.
Lemma markedY_stat peer f : keeps markedY (withStat peer f).
Proof. by apply markedY_modify. Qed.

Lemma markedY_syncOnce conflictDigest changesFrom now peer : keeps markedY (syncOnce conflictDigest changesFrom now peer).
Proof.
  assert (keeps markedY (syncBatch conflictDigest changesFrom now peer)) as Hb.
  { unfold syncBatch. apply keeps_bind; [apply _|apply markedY_store, dbKept_query|]. intros state. apply keeps_bind; [apply _|apply keeps_get, _|]. intros y0. cbv zeta. apply keeps_bind; [apply _|apply markedY_request|]. intros resp.
    destruct (negb _); [apply keeps_fail, _|]. destruct (parseInt64Header _) as [peerMax hasMax]. apply keeps_bind; [apply _|apply markedY_stat|]. intros _.
    destruct (needsCursorReset _ _ _ _); [apply keeps_bind; [apply _|apply markedY_setState|intros _; apply keeps_ret, _]|]. apply keeps_bind; [apply _|destruct (_ && _); [apply markedY_setState|apply keeps_ret, _]|]. intros _.
    destruct (rs_body resp) as [changes|]; [|apply keeps_fail, _]. destruct (_ <? _); [apply keeps_fail, _|]. destruct (negb _); [apply keeps_fail, _|]. destruct changes as [|c rest]; [apply keeps_ret, _|]. destruct (collapseByName _) as [latest batchMax].
    apply keeps_bind; [apply _| |].
    { unfold enqueueBatch. apply keeps_bind; [apply _|apply markedY_ctx|]. intros _. apply keeps_bind; [apply _|apply markedY_usable|]. intros u. apply keeps_bind; [apply _|apply markedY_newer|]. intros w. apply keeps_bind; [apply _|apply markedY_record|]. intros _. apply keeps_ret, _. }
    intros _. apply keeps_bind; [apply _|destruct (_ <? _); [apply keeps_bind; [apply _|apply markedY_setState|intros _; apply markedY_stat]|apply keeps_ret, _]|]. intros _. apply keeps_bind; [apply _|apply markedY_notify|]. intros _. apply keeps_ret, _. }
  unfold syncOnce. apply keeps_bind; [apply _|exact Hb|]. intros first. destruct (snd first); [apply keeps_bind; [apply _|exact Hb|intros ?; apply keeps_ret, _]|apply keeps_ret, _].
Qed.
Lemma markedY_reconcileOnce conflictDigest manifestFrom fuel now peer : keeps markedY (reconcileOnce conflictDigest manifestFrom fuel now peer).
Proof.
  assert (forall A after e, keeps markedY (interrupted (A := A) peer after e)) as Hi.
  { intros A after e y. unfold interrupted. pose proof (markedY_position peer after y) as K. by destruct (Sync.inStore _ y) as [[[]|e'] y']. }
  unfold reconcileOnce. apply keeps_bind; [apply _|apply markedY_store, dbKept_query|]. intros after. generalize 0 at 1. generalize 0. revert after. induction fuel as [|fuel IH]; intros after queued pages; cbn [reconcile_loop]; [apply keeps_ret, _|].
  apply keeps_bind; [apply _|apply markedY_ctx|]. intros _. apply keeps_bind; [apply _|apply keeps_get, _|]. intros y0. cbv zeta. destruct (_ && _); [apply keeps_bind; [apply _|apply markedY_position|intros _; apply keeps_ret, _]|].
  apply keeps_bind; [apply _|apply markedY_try, markedY_request|]. intros sent. destruct sent as [resp|e]; [|apply Hi]. destruct (_ =? _); [apply keeps_bind; [apply _|apply markedY_position|intros _; apply keeps_ret, _]|]. destruct (negb _); [apply Hi|].
  destruct (rs_body resp) as [page|]; [|apply Hi]. destruct (_ <? _); [apply keeps_fail, _|]. destruct page as [|c rest].
  { apply keeps_bind; [apply _|apply markedY_position|]. intros _. apply keeps_bind; [apply _|destruct (0 <? _); [apply markedY_notify|apply keeps_ret, _]|]. intros _. apply keeps_ret, _. }
  destruct (negb _); [apply keeps_fail, _|]. apply keeps_bind; [apply _|apply markedY_try|].
  { unfold reconcilePage. apply keeps_bind; [apply _|apply markedY_usable|]. intros u. apply keeps_bind; [apply _|apply markedY_newer|]. intros w. apply markedY_record. }
  intros r. destruct r as [n|e]; [apply IH|apply Hi].
Qed.

(** ** Becoming ready *)

(** Some peer's observed state was compared and everything queued from it is applied. *)
Definition admittedBy (n : Node) (peer : string) : Prop := caughtUp n peer = true /\ queuedForS (nodeStore n) peer = 0.

(** What a step may do to admission: nothing, or admit on the strength of a peer. *)
Definition sameAdmission (n n' : Node) : Prop := nd_initialized n' = nd_initialized n /\ marker n' = marker n /\ nd_peers n' = nd_peers n.
Definition admission (n n' : Node) : Prop :=
  sameAdmission n n' \/ (nd_initialized n' = true /\ marker n' = "1" /\ nd_peers n' = nd_peers n /\ exists peer, admittedBy n' peer).
#[export] Instance sameAdmission_preorder : PreOrder sameAdmission.
Proof. split; [done|]. intros n1 n2 n3 (? & ? & ?) (? & ? & ?). unfold sameAdmission. split; [congruence|]. split; congruence. Qed.
Lemma same_then n1 n2 n3 : sameAdmission n1 n2 -> admission n2 n3 -> admission n1 n3.
Proof. intros H [?|(? & ? & E & ?)]; [left; by etrans|right]. destruct H as (_ & _ & H). split; [done|]. split; [done|]. split; [congruence|done]. Qed.

Lemma onStoreN_run {A} (c : St A) n : onStoreN c n = let '(r, s) := c (nodeStore n) in (match r with Ok a => Ok a | Err e => Err (SStore e) end, set_sync (sy_set_store s (nd_sync n)) n).
Proof. unfold onStoreN, onSync, inStore, zoomS, nodeStore. by destruct (c (sy_store (nd_sync n))) as [[a|e] s]. Qed.

Lemma admit_loop_spec sources n : (forall p, p ∈ sources -> caughtUp n p = true) -> admission n (admit_loop sources n).2.
Proof.
  revert n. induction sources as [|peer rest IH]; intros n Hc; cbn [admit_loop]; [by left|]. unfold bindS at 1. unfold tryS at 1. rewrite onStoreN_run. unfold PendingRepairCount, queuedFor, bindS at 1, getS, retS at 1.
  assert (set_sync (sy_set_store (nodeStore n) (nd_sync n)) n = n) as -> by by destruct n as [[] ? ? ?].
  destruct (queuedForS (nodeStore n) peer) eqn:Eq; [|apply IH; intros q Hq; apply Hc; by right..]. unfold bindS at 1. unfold tryS at 1. rewrite onStoreN_run. unfold SetNodeValue.
  destruct (exec _ (nodeStore n)) as [[[]|e] s] eqn:E.
  - apply exec_Ok in E as [Ed Em]. right. split; [done|]. split; [unfold marker, nodeStore; cbn; rewrite Ed; unfold markerOf; cbn; by rewrite lookup_insert_eq|]. split; [done|]. exists peer.
    split; [exact (Hc peer ltac:(by left))|]. unfold nodeStore. cbn. unfold memory_kept in Em. by rewrite Em.
  - apply exec_Err in E as [_ E]. left. split; [done|]. split; [|done]. unfold marker, nodeStore. cbn. by rewrite (untouched_db _ _ E).
Qed.
Lemma ServingReady_spec order n : admission n (ServingReady order n).2.
Proof.
  unfold ServingReady, bindS, getS. destruct (_ || _); [by left|]. apply admit_loop_spec. intros p Hp. apply list_elem_of_In, filter_In in Hp. apply Hp.
Qed.

Lemma onSync_same {A} (c : Sy A) : keeps markedY c -> keeps sameAdmission (onSync c).
Proof.
  intros Hc n. specialize (Hc (nd_sync n)). unfold onSync, zoomS. unfold markedY, dbKept in Hc. destruct (c (nd_sync n)) as [r y]. cbn [fst snd] in *. split; [done|]. split; [|done]. unfold marker, nodeStore. cbn [nd_sync set_sync]. by rewrite Hc.
Qed.
Lemma same_try {A} (c : No A) : keeps sameAdmission c -> keeps sameAdmission (tryS c).
Proof. intros Hc n. specialize (Hc n). unfold tryS. by destruct (c n). Qed.
Lemma same_standing peer f : keeps sameAdmission (withStanding peer f).
Proof. by intros n. Qed.

(** Steps that end in asking whether the node is ready. *)
Lemma admission_bind {A B} (c : No A) (k : A -> No B) n : keeps sameAdmission c -> (forall a n, admission n (k a n).2) -> admission n (bindS c k n).2.
Proof. intros Hc Hk. specialize (Hc n). unfold bindS. destruct (c n) as [[a|e] n1]; cbn in Hc; [eapply same_then; [exact Hc|apply Hk]|by left]. Qed.
Lemma admission_same {A} (c : No A) n : keeps sameAdmission c -> admission n (c n).2.
Proof. intros Hc. left. apply Hc. Qed.
Lemma admission_ready {A} order (k : No A) n : keeps (fun n n' => n' = n) k -> admission n (bindS (ServingReady order) (fun _ => k) n).2.
Proof.
  intros Hk. unfold bindS. pose proof (ServingReady_spec order n) as H. destruct (ServingReady order n) as [[b|e] n1]; [|done]. cbn in H. by rewrite (Hk n1).
Qed.

Section Steps.
Context (conflictDigest : string -> string -> string) (pollInterval reconcileInterval now : Z) (order : list string).
Lemma pollPeer_admission changesFrom cancelled peer backoff n : admission n (pollPeer conflictDigest pollInterval now order changesFrom cancelled peer backoff n).2.
Proof.
  unfold pollPeer. apply admission_bind; [apply same_try, onSync_same, markedY_syncOnce|]. intros r n1. destruct r as [k|e].
  - apply admission_bind; [apply same_standing|]. intros _ n2. destruct (0 <? k); [by left|]. apply admission_ready. by intros n3.
  - apply admission_same. destruct cancelled; [apply keeps_ret, _|]. destruct (isFullErr e); [apply keeps_bind; [apply _|apply onSync_same, markedY_notify|intros _; apply keeps_ret, _]|].
    destruct (isSelfErr e); [apply keeps_bind; [apply _|apply onSync_same, markedY_stat|intros _; apply keeps_ret, _]|]. apply keeps_bind; [apply _|apply same_standing|]. intros _. apply keeps_ret, _.
Qed.
Lemma reconcilePeer_admission manifestFrom fuel cancelled peer n : admission n (reconcilePeer conflictDigest reconcileInterval now order manifestFrom fuel cancelled peer n).2.
Proof.
  unfold reconcilePeer. apply admission_bind; [apply same_try, onSync_same, markedY_reconcileOnce|]. intros r n1. apply admission_bind.
  - destruct r as [[[]|]|e]; try apply keeps_ret, _; [apply keeps_bind; [apply _|apply same_standing|intros _; apply keeps_ret, _]|].
    destruct (isSelfErr e); [apply keeps_bind; [apply _|apply onSync_same, markedY_stat|intros _; apply keeps_ret, _]|]. destruct (isFullErr e); apply keeps_ret, _.
  - intros ended n2. destruct ended; [by left|]. apply admission_ready. intros n3. unfold bindS, getS. destruct (negb _); [done|]. by destruct (_ <=? 0).
Qed.
End Steps.

(** ** A node's life *)

(** What the node did, with what came of it. *)
Inductive deed :=
| Polled (peer : string) (r : result serr Z)
| Compared (peer : string) (r : result serr (option bool))
| Asked (r : result serr bool)
| Worked
| Restarted.

(** Polls, comparisons and questions in any order and of any peer; what the workers, the watcher
    and the gateways do to the store; and restarts, which keep the database and forget the rest.
    The trace has every deed, the last one first, and the node after it. *)
Inductive life (n0 : Node) : list (deed * Node) -> Node -> Prop :=
| life_start : life n0 [] n0
| life_poll n tr digest pollInterval now order changesFrom cancelled peer backoff n' : life n0 tr n ->
    n' = (pollPeer digest pollInterval now order changesFrom cancelled peer backoff n).2 ->
    life n0 ((Polled peer (syncOnce digest changesFrom now peer (nd_sync n)).1, n') :: tr) n'
| life_reconcile n tr digest interval now order manifestFrom fuel cancelled peer n' : life n0 tr n ->
    n' = (reconcilePeer digest interval now order manifestFrom fuel cancelled peer n).2 ->
    life n0 ((Compared peer (reconcileOnce digest manifestFrom fuel now peer (nd_sync n)).1, n') :: tr) n'
| life_question n tr order r n' : life n0 tr n -> ServingReady order n = (r, n') -> life n0 ((Asked r, n') :: tr) n'
| life_work n tr s n' : life n0 tr n -> marked (nodeStore n) s -> n' = set_sync (sy_set_store s (nd_sync n)) n -> life n0 ((Worked, n') :: tr) n'
| life_restart n tr y entries n' : life n0 tr n -> marked (nodeStore n) (sy_store y) -> sy_stats y = ∅ ->
    n' = (initializeAdmission entries (mkNode y (nd_peers n) ∅ false)).2 -> life n0 ((Restarted, n') :: tr) n'.

(** The part of a trace since the last restart. *)
Fixpoint thisStart (tr : list (deed * Node)) : list (deed * Node) :=
  match tr with
  | [] => []
  | (Restarted, _) :: _ => []
  | x :: rest => x :: thisStart rest
  end.
Definition comparedIn (tr : list (deed * Node)) (peer : string) : Prop := exists m, (Compared peer (Ok (Some true)), m) ∈ thisStart tr.
Definition polledIn (tr : list (deed * Node)) (peer : string) : Prop := exists k m, (Polled peer (Ok k), m) ∈ thisStart tr.

(** ** Standing comes from deeds *)

Definition credited (compared polled : string -> Prop) (n : Node) : Prop :=
  forall p sd, nd_standing n !! p = Some sd -> (sd_reconciled sd = true -> compared p) /\ (sd_success sd = true -> polled p).
Definition sameStanding (n n' : Node) : Prop := nd_standing n' = nd_standing n.
#[export] Instance sameStanding_preorder : PreOrder sameStanding.
Proof. split; [done|]. unfold sameStanding. intros n1 n2 n3 H1 H2. congruence. Qed.

Lemma standing_onSync {A} (c : Sy A) : keeps sameStanding (onSync c).
Proof. intros n. unfold onSync, zoomS. by destruct (c (nd_sync n)). Qed.
Lemma standing_try {A} (c : No A) : keeps sameStanding c -> keeps sameStanding (tryS c).
Proof. intros Hc n. specialize (Hc n). unfold tryS. by destruct (c n). Qed.
Lemma standing_ready order : keeps sameStanding (ServingReady order).
Proof.
  assert (forall sources, keeps sameStanding (admit_loop sources)) as Hl.
  { induction sources as [|peer rest IH]; cbn [admit_loop]; [apply keeps_ret, _|]. apply keeps_bind; [apply _|apply standing_try, standing_onSync|].
    intros [[|?|?]|e]; [|apply IH..]. apply keeps_bind; [apply _|apply standing_try, standing_onSync|]. intros [[]|e]; [|apply keeps_ret, _].
    apply keeps_bind; [apply _|by intros n|]. intros _. apply keeps_ret, _. }
  unfold ServingReady. apply keeps_bind; [apply _|apply keeps_get, _|]. intros n. destruct (_ || _); [apply keeps_ret, _|apply Hl].
Qed.

(** A start changes neither the peers nor their standing. *)
Lemma start_same (R : Node -> Node -> Prop) `{!PreOrder R} entries :
  (forall A (c : Sy A), keeps R (onSync c)) -> (forall b, keeps R (modifyS (set_initialized b) : No unit)) -> keeps R (initializeAdmission entries).
Proof.
  intros Hy Hb. assert (forall A (c : Sy A), keeps R (tryS (onSync c))) as Ht by (intros A c n; specialize (Hy A c n); unfold tryS; by destruct (onSync c n)).
  unfold initializeAdmission, onStoreN. apply keeps_bind; [apply _|apply Ht|]. intros [flag|e]; [|apply keeps_ret, _].
  destruct (negb _); [apply Hb|]. apply keeps_bind; [apply _|apply Ht|]. intros [version|e]; [|apply keeps_ret, _].
  apply keeps_bind; [apply _|apply keeps_get, _|]. intros n. destruct (if _ || _ then _ else _) as [seeded|]; [|apply keeps_ret, _].
  apply keeps_bind; [apply _|apply Ht|]. intros [[]|e]; [apply Hb|apply keeps_ret, _].
Qed.
Lemma standing_start entries : keeps sameStanding (initializeAdmission entries).
Proof. apply start_same; [apply _|intros A c; apply standing_onSync|by intros b n]. Qed.
Definition samePeers (n n' : Node) : Prop := nd_peers n' = nd_peers n.
#[export] Instance samePeers_preorder : PreOrder samePeers.
Proof. split; [done|]. unfold samePeers. intros n1 n2 n3 H1 H2. congruence. Qed.
Lemma start_peers entries : keeps samePeers (initializeAdmission entries).
Proof. apply start_same; [apply _| |by intros b n]. intros A c n. unfold onSync, zoomS, samePeers. by destruct (c (nd_sync n)). Qed.

Section Credit.
Context (compared polled : string -> Prop).
Abbreviation good := (credited compared polled).
Lemma credited_same n n' : sameStanding n n' -> good n -> good n'.
Proof. unfold sameStanding, credited. by intros ->. Qed.

(** A change of one peer's standing that claims no more than is known. *)
Lemma credited_standing peer f n : good n ->
  (forall sd, (sd_reconciled sd = true -> compared peer) -> (sd_success sd = true -> polled peer) ->
     (sd_reconciled (f sd) = true -> compared peer) /\ (sd_success (f sd) = true -> polled peer)) ->
  good (withStanding peer f n).2.
Proof.
  intros Hg Hf p sd. cbn. destruct (decide (p = peer)) as [-> |Hne]; [|rewrite lookup_insert_ne by done; apply Hg].
  rewrite lookup_insert_eq. intros [= <-]. apply Hf; destruct (nd_standing n !! peer) as [sd|] eqn:E; cbn; try done; by apply (Hg peer sd).
Qed.

Lemma pollPeer_credited digest pollInterval now order changesFrom cancelled peer backoff n :
  good n -> (forall k, (syncOnce digest changesFrom now peer (nd_sync n)).1 = Ok k -> polled peer) ->
  good (pollPeer digest pollInterval now order changesFrom cancelled peer backoff n).2.
Proof.
  intros Hg Hk. unfold pollPeer. rewrite bindS_run. unfold tryS, onSync at 1, zoomS.
  destruct (syncOnce digest changesFrom now peer (nd_sync n)) as [[k|e] y] eqn:E; cbn [fst snd] in *.
  - rewrite bindS_run. destruct (withStanding peer _ (set_sync y n)) as [[[]|e] n1] eqn:Ew; [|discriminate Ew].
    assert (good n1) as H1.
    { replace n1 with (withStanding peer (fun s => mkStanding (sd_reconciled s) true 0 false) (set_sync y n)).2 by by rewrite Ew.
      apply credited_standing; [done|]. intros sd H1 H2. split; [done|]. intros _. by apply (Hk k). }
    destruct (0 <? k); [done|]. eapply credited_same; [|exact H1].
    assert (keeps sameStanding (do! ServingReady order then retS (Jitter pollInterval, pollInterval))) as K; [|apply K].
    apply keeps_bind; [apply _|apply standing_ready|]. intros _. apply keeps_ret, _.
  - destruct cancelled; [done|]. destruct (isFullErr e).
    { eapply credited_same; [|exact Hg]. change (nd_standing n) with (nd_standing (set_sync y n)). rewrite bindS_run.
      pose proof (standing_onSync (notifyApply peer) (set_sync y n)) as K. destruct (onSync _ _) as [[]]; exact K. }
    destruct (isSelfErr e).
    { eapply credited_same; [|exact Hg]. rewrite bindS_run.
      pose proof (standing_onSync (retireSelfPeer peer) (set_sync y n)) as K. destruct (onSync _ _) as [[]]; exact K. }
    rewrite bindS_run. apply (credited_standing peer (fun s => mkStanding (sd_reconciled s) (sd_success s) (wrap64 (sd_errs s + 1)) (isDuplicateErr e)) (set_sync y n)); [done|].
    intros sd H1 H2. by split.
Qed.

Lemma reconcilePeer_credited digest interval now order manifestFrom fuel cancelled peer n :
  good n -> ((reconcileOnce digest manifestFrom fuel now peer (nd_sync n)).1 = Ok (Some true) -> compared peer) ->
  good (reconcilePeer digest interval now order manifestFrom fuel cancelled peer n).2.
Proof.
  intros Hg Hk. unfold reconcilePeer. rewrite bindS_run. unfold tryS, onSync at 1, zoomS.
  destruct (reconcileOnce digest manifestFrom fuel now peer (nd_sync n)) as [r y] eqn:E; cbn [fst snd] in *.
  assert (good (set_sync y n)) as H0 by done.
  assert (forall (k : bool -> No next_step), (forall ended, keeps sameStanding (k ended)) -> forall c : No bool, good (c (set_sync y n)).2 -> good (bindS c k (set_sync y n)).2) as Hbind.
  { intros k Hkeep c Hc. rewrite bindS_run. destruct (c (set_sync y n)) as [[ended|e] n1]; [|exact Hc]. eapply credited_same; [apply Hkeep|exact Hc]. }
  assert (forall ended : bool, keeps sameStanding
    (if ended then retS Ended else do! ServingReady order then let! n := getS in
       if negb (nd_initialized n) then retS (Jitter 1000000000) else if interval <=? 0 then retS Ended else retS (Jitter interval))) as Hrest.
  { intros []; [apply keeps_ret, _|]. apply keeps_bind; [apply _|apply standing_ready|]. intros _. apply keeps_bind; [apply _|apply keeps_get, _|]. intros m.
    destruct (negb _); [|destruct (_ <=? 0)]; apply keeps_ret, _. }
  destruct r as [[[]|]|e]; apply Hbind; try exact Hrest; try exact H0.
  - rewrite bindS_run. apply (credited_standing peer (fun s => mkStanding true (sd_success s) (sd_errs s) (sd_duplicate s)) (set_sync y n)); [done|].
    intros sd H1 H2. split; [|done]. intros _. by apply Hk.
  - destruct (isSelfErr e); [|by destruct (isFullErr e)]. eapply credited_same; [|exact H0]. rewrite bindS_run.
    pose proof (standing_onSync (retireSelfPeer peer) (set_sync y n)) as K. destruct (onSync _ _) as [[]]; exact K.
Qed.
End Credit.

(** A restart reads a marker that is there, or fails to and is not ready. *)
Lemma restart_marked entries n r n' : marker n <> "" -> nd_initialized n = false -> initializeAdmission entries n = (r, n') ->
  marker n' = marker n /\ nd_peers n' = nd_peers n /\ (nd_initialized n' = true -> marker n = "1") /\ (nofault (nodeStore n) -> nd_initialized n' = (marker n =s "1")).
Proof.
  intros Hm Hi R. unfold initializeAdmission, bindS at 1, tryS at 1 in R. rewrite onStoreN_run in R. destruct (NodeValue initializedKey (nodeStore n)) as [[flag|e] s] eqn:E; cbv iota beta zeta in R.
  - unfold NodeValue in E. apply query_Ok in E as [-> U]. change (default "" (node_meta (db (nodeStore n)) !! initializedKey)) with (marker n) in R. assert (negb (marker n =s "") = true) as Hb by (apply negb_true_iff, String.eqb_neq; done). rewrite Hb in R.
    injection R as <- <-. split; [|split; [done|split; [intros E; by apply String.eqb_eq in E|done]]]. change (default "" (markerOf (db s)) = marker n). unfold marker. by rewrite (untouched_db _ _ U).
  - injection R as <- <-. unfold NodeValue in E. pose proof E as E'. apply query_Err in E as [_ U]. split; [change (default "" (markerOf (db s)) = marker n); unfold marker; by rewrite (untouched_db _ _ U)|].
    split; [done|]. split; [cbn; by rewrite Hi|]. intros Hn. exfalso. by rewrite (query_nofault _ _ Hn) in E'.
Qed.

Lemma marker_kept n y ps sds b : marked (nodeStore n) (sy_store y) -> marker (mkNode y ps sds b) = marker n.
Proof. intros Hs. unfold marker. change (nodeStore (mkNode y ps sds b)) with (sy_store y). unfold dbKept in Hs. by rewrite Hs. Qed.

(** No row is queued from a peer whose queue is empty. *)
Lemma empty_queue s peer name : queue_inv s -> queuedForS s peer = 0 -> repair_queue (db s) !! (peer, name) = None.
Proof.
  intros Hq E. rewrite (q_sizes _ Hq) in E. unfold peer_rows in E. assert (peer_map (repair_queue (db s)) peer = ∅) as Em by (apply map_size_empty_iff; lia).
  destruct (repair_queue (db s) !! (peer, name)) as [row|] eqn:Er; [|done]. exfalso. assert (peer_map (repair_queue (db s)) peer !! (peer, name) = Some row) as Hx; [|rewrite Em in Hx; by rewrite lookup_empty in Hx].
  unfold peer_map. by apply map_lookup_filter_Some.
Qed.

(** Through a trace, what a peer is credited with was done since the last restart. *)
Lemma life_credited n0 tr n : nd_standing n0 = ∅ -> life n0 tr n -> credited (comparedIn tr) (polledIn tr) n.
Proof.
  assert (forall (P Q P' Q' : string -> Prop) m, (forall p, P p -> P' p) -> (forall p, Q p -> Q' p) -> credited P Q m -> credited P' Q' m) as Hmono.
  { intros P Q P' Q' m HP HQ Hc p sd E. destruct (Hc p sd E). auto. }
  assert (forall d m tr, d <> Restarted -> thisStart ((d, m) :: tr) = (d, m) :: thisStart tr) as Hts by (intros [] ? ? Hd; by cbn).
  assert (forall d m tr p, d <> Restarted -> comparedIn tr p -> comparedIn ((d, m) :: tr) p) as HC.
  { intros d m tr' p Hd [m' Hm]. exists m'. rewrite Hts by done. by right. }
  assert (forall d m tr p, d <> Restarted -> polledIn tr p -> polledIn ((d, m) :: tr) p) as HP.
  { intros d m tr' p Hd (k & m' & Hm). exists k, m'. rewrite Hts by done. by right. }
  intros H0 L. induction L as [|n tr digest pollInterval now order changesFrom cancelled peer backoff n' L IH ->|n tr digest interval now order manifestFrom fuel cancelled peer n' L IH ->
    |n tr order r n' L IH E|n tr s n' L IH Hs ->|n tr y entries n' L IH Hs Hst ->].
  - intros p sd. by rewrite H0, lookup_empty.
  - apply pollPeer_credited.
    + eapply Hmono; [..|exact IH]; intros p Hp; [by apply HC|by apply HP].
    + intros k Ek. eexists k, _. rewrite Hts by done. rewrite Ek. left.
  - apply reconcilePeer_credited.
    + eapply Hmono; [..|exact IH]; intros p Hp; [by apply HC|by apply HP].
    + intros Ek. eexists. rewrite Hts by done. rewrite Ek. left.
  - eapply credited_same; [pose proof (standing_ready order n) as K; rewrite E in K; exact K|]. eapply Hmono; [..|exact IH]; intros p Hp; [by apply HC|by apply HP].
  - eapply (credited_same _ _ n); [done|]. eapply Hmono; [..|exact IH]; intros p Hp; [by apply HC|by apply HP].
  - intros p sd. pose proof (standing_start entries (mkNode y (nd_peers n) ∅ false)) as K. unfold sameStanding in K. rewrite K. cbn. by rewrite lookup_empty.
Qed.

(** A node that has peers is ready only when admitted. *)
Lemma ready_initialized order n n' : nd_peers n <> [] -> ServingReady order n = (Ok true, n') -> nd_initialized n' = true.
Proof.
  intros Hp. unfold ServingReady. rewrite bindS_run. cbn. rewrite bool_decide_false by done. destruct (nd_initialized n) eqn:Ei; [by intros [= <-]|]. cbn.
  generalize (List.filter (caughtUp n) order). intros sources. clear Hp Ei. revert n. induction sources as [|peer rest IH]; intros n; cbn [admit_loop]; [done|].
  rewrite bindS_run. unfold tryS at 1. destruct (onStoreN _ n) as [[[|?|?]|e] n1]; [|apply IH..].
  rewrite bindS_run. unfold tryS. destruct (onStoreN _ n1) as [[[]|e] n2]; [|done]. by intros [= <-].
Qed.

(** The moment of admission in a trace: before it the node is a replica catching up. *)
Definition admittedIn (tr : list (deed * Node)) (peer : string) : Prop :=
  exists later d n1 earlier, tr = later ++ (d, n1) :: earlier /\ nd_initialized n1 = true /\ admittedBy n1 peer /\
    comparedIn ((d, n1) :: earlier) peer /\ polledIn ((d, n1) :: earlier) peer /\
    (queue_inv (nodeStore n1) -> forall digest ignore c, handled digest ignore (db (nodeStore n1)) peer c ->
       usable digest ignore c = false \/ CompareState (Some c) (files (db (nodeStore n1)) !! Name c) <> Gt).

Lemma caughtUp_credited n peer compared polled : credited compared polled n -> caughtUp n peer = true -> compared peer /\ polled peer.
Proof.
  unfold caughtUp. intros Hc E. destruct (sy_stats (nd_sync n) !! peer); [|done]. destruct (nd_standing n !! peer) as [sd|] eqn:Es; [|done].
  rewrite !andb_true_iff in E. destruct E as ((((E1 & E2) & _) & _) & _). destruct (Hc peer sd Es) as [H1 H2]. auto.
Qed.

Lemma admitted_now n0 tr d n1 peer : nd_standing n0 = ∅ -> life n0 ((d, n1) :: tr) n1 -> nd_initialized n1 = true -> admittedBy n1 peer -> admittedIn ((d, n1) :: tr) peer.
Proof.
  intros H0 L Hi [Hc Hq]. destruct (caughtUp_credited n1 peer _ _ (life_credited _ _ _ H0 L) Hc) as [C P]. exists [], d, n1, tr.
  split; [done|]. split; [done|]. split; [done|]. split; [done|]. split; [done|]. intros Hinv digest ignore c [?|[?|(row & Hrow & _)]]; [by left|by right|].
  by rewrite (empty_queue _ _ _ Hinv Hq) in Hrow.
Qed.
Lemma admitted_later x tr peer : admittedIn tr peer -> admittedIn (x :: tr) peer.
Proof. intros (later & d & n1 & earlier & -> & H). by exists (x :: later), d, n1, earlier. Qed.

Lemma life_admission n0 tr n : nd_peers n0 <> [] -> nd_initialized n0 = false -> marker n0 = "0" -> nd_standing n0 = ∅ -> life n0 tr n ->
  nd_peers n = nd_peers n0 /\
  ((nd_initialized n = false /\ marker n = "0" /\ forall m, (Asked (Ok true), m) ∉ tr) \/ exists peer, admittedIn tr peer).
Proof.
  intros Hp Hi Hm H0 L.
  assert (forall d n tr n', life n0 ((d, n') :: tr) n' -> admission n n' -> (d = Asked (Ok true) -> nd_initialized n' = true) ->
    nd_initialized n = false /\ marker n = "0" /\ (forall m, (Asked (Ok true), m) ∉ tr) ->
    (nd_initialized n' = false /\ marker n' = "0" /\ forall m, (Asked (Ok true), m) ∉ (d, n') :: tr) \/ exists peer, admittedIn ((d, n') :: tr) peer) as Hstep.
  { intros d m tr' m' Lm [(A1 & A2 & _)|(A1 & _ & _ & peer & A)] Hd (B1 & B2 & B3); [left|right; exists peer; by eapply admitted_now].
    rewrite A1, A2. split; [done|]. split; [done|]. intros m1 [[= <- <-]|?]%elem_of_cons; [|by eapply B3]. specialize (Hd eq_refl). congruence. }
  induction L as [|n tr digest pollInterval now order changesFrom cancelled peer backoff n' L IH E|n tr digest interval now order manifestFrom fuel cancelled peer n' L IH E
    |n tr order r n' L IH E|n tr s n' L IH Hs E|n tr y entries n' L IH Hs Hst E].
  - split; [done|]. left. split; [done|]. split; [done|]. intros m Hm'. set_solver.
  - pose proof (pollPeer_admission digest pollInterval now order changesFrom cancelled peer backoff n) as A. rewrite <- E in A.
    destruct IH as [P IH]. split; [by destruct A as [(_ & _ & ->)|(_ & _ & -> & _)]|]. destruct IH as [IH|[q IH]]; [|right; exists q; by apply admitted_later].
    eapply Hstep; [by eapply life_poll|exact A|done|done].
  - pose proof (reconcilePeer_admission digest interval now order manifestFrom fuel cancelled peer n) as A. rewrite <- E in A.
    destruct IH as [P IH]. split; [by destruct A as [(_ & _ & ->)|(_ & _ & -> & _)]|]. destruct IH as [IH|[q IH]]; [|right; exists q; by apply admitted_later].
    eapply Hstep; [by eapply life_reconcile|exact A|done|done].
  - pose proof (ServingReady_spec order n) as A. rewrite E in A. cbn [snd] in A.
    destruct IH as [P IH]. split; [by destruct A as [(_ & _ & ->)|(_ & _ & -> & _)]|]. destruct IH as [IH|[q IH]]; [|right; exists q; by apply admitted_later].
    eapply Hstep; [by eapply life_question|exact A| |done]. intros [= ->]. eapply ready_initialized; [|exact E]. by rewrite P.
  - destruct IH as [P IH]. split; [by rewrite E|]. destruct IH as [(B1 & B2 & B3)|[q IH]]; [left|right; exists q; by apply admitted_later].
    split; [by rewrite E|]. split; [rewrite <- B2, E; by apply (marker_kept n (sy_set_store s (nd_sync n)))|]. intros m [?|?]%elem_of_cons; [done|by eapply B3].
  - destruct IH as [P IH]. destruct (initializeAdmission entries (mkNode y (nd_peers n) ∅ false)) as [r n2] eqn:E2. cbn [snd] in E. subst n2.
    assert (nd_peers n' = nd_peers n) as P' by (pose proof (start_peers entries (mkNode y (nd_peers n) ∅ false)) as K; by rewrite E2 in K).
    split; [congruence|]. destruct IH as [(B1 & B2 & B3)|[q IH]]; [left|right; exists q; by apply admitted_later].
    assert (marker (mkNode y (nd_peers n) ∅ false) = "0") as Hm0 by (by rewrite (marker_kept n y)).
    destruct (restart_marked entries _ r n' ltac:(by rewrite Hm0) eq_refl E2) as (K1 & _ & K3 & _). rewrite Hm0 in *.
    split; [destruct (nd_initialized n'); [by specialize (K3 eq_refl)|done]|]. split; [done|]. intros m [?|?]%elem_of_cons; [done|by eapply B3].
Qed.

(** C25. A replica that starts empty is not taken for a source. Once its marker is written, through
    any order of polls, comparisons, work on the store, questions and restarts, it has answered
    that it is ready, holds itself for admitted, or its database says so, only if this very run
    has a moment of admission: some peer had by then been compared to the end and polled without
    error, both since the last restart, its last version known was reached by the cursor, and
    nothing was left in the queue from it, so that every file state handled from that peer was
    held here in that state or a greater one, or was unusable. Files that arrived before a restart
    do not make it a source. *)
Theorem admission_needs_source (n0 n : Node) (tr : list (deed * Node)) :
  nd_peers n0 <> [] -> nd_initialized n0 = false -> marker n0 = "0" -> nd_standing n0 = ∅ -> life n0 tr n ->
  nd_initialized n = true \/ marker n = "1" \/ (exists m, (Asked (Ok true), m) ∈ tr) ->
  exists peer later d n1 earlier, tr = later ++ (d, n1) :: earlier /\ nd_initialized n1 = true /\ admittedBy n1 peer /\
    comparedIn ((d, n1) :: earlier) peer /\ polledIn ((d, n1) :: earlier) peer /\
    (queue_inv (nodeStore n1) -> forall digest ignore c, handled digest ignore (db (nodeStore n1)) peer c ->
       usable digest ignore c = false \/ CompareState (Some c) (files (db (nodeStore n1)) !! Name c) <> Gt).
Proof.
  intros Hp Hi Hm H0 L Hr. destruct (life_admission n0 tr n Hp Hi Hm H0 L) as [_ [(E1 & E2 & E3)|[peer A]]]; [exfalso|by exists peer].
  destruct Hr as [Hr|[Hr|[m Hr]]]; [congruence|congruence|by eapply E3].
Qed.

(** Admission is not taken back. A node whose database says it was admitted keeps saying so
    through polls and comparisons that fail in any way, work on the store and restarts; and a
    restart whose read of the marker succeeds is ready at once, whatever its peers do. *)
Theorem admission_is_kept (n0 n : Node) (tr : list (deed * Node)) : marker n0 = "1" -> life n0 tr n -> marker n = "1" /\
  (forall y entries order, marked (nodeStore n) (sy_store y) -> nofault (sy_store y) ->
     let n1 := (initializeAdmission entries (mkNode y (nd_peers n) ∅ false)).2 in
     nd_initialized n1 = true /\ ServingReady order n1 = (Ok true, n1)).
Proof.
  intros H0 L. assert (marker n = "1") as Hn.
  { induction L as [|n tr digest pollInterval now order changesFrom cancelled peer backoff n' L IH ->|n tr digest interval now order manifestFrom fuel cancelled peer n' L IH ->
      |n tr order r n' L IH E|n tr s n' L IH Hs ->|n tr y entries n' L IH Hs Hst ->]; [done|..].
    - by destruct (pollPeer_admission digest pollInterval now order changesFrom cancelled peer backoff n) as [(_ & E & _)|(_ & E & _)]; [rewrite E|].
    - by destruct (reconcilePeer_admission digest interval now order manifestFrom fuel cancelled peer n) as [(_ & E & _)|(_ & E & _)]; [rewrite E|].
    - pose proof (ServingReady_spec order n) as A. rewrite E in A. destruct A as [(_ & E' & _)|(_ & E' & _)]; [by etrans; [exact E'|]|done].
    - rewrite <- IH. by apply (marker_kept n (sy_set_store s (nd_sync n))).
    - assert (marker (mkNode y (nd_peers n) ∅ false) = "1") as Hm by (by rewrite (marker_kept n y)).
      destruct (initializeAdmission entries (mkNode y (nd_peers n) ∅ false)) as [r n'] eqn:E. destruct (restart_marked entries _ r n' ltac:(by rewrite Hm) eq_refl E) as (K1 & _). cbn [snd]. by rewrite K1. }
  split; [done|]. intros y entries order Hs Hf. cbv zeta. assert (marker (mkNode y (nd_peers n) ∅ false) = "1") as Hm by (by rewrite (marker_kept n y)).
  destruct (initializeAdmission entries (mkNode y (nd_peers n) ∅ false)) as [r n'] eqn:E. destruct (restart_marked entries _ r n' ltac:(by rewrite Hm) eq_refl E) as (_ & _ & _ & K). specialize (K Hf). rewrite Hm in K. cbn in K. cbn [snd].
  split; [done|]. unfold ServingReady, bindS, getS. by rewrite K.
Qed.

(** ** Examples *)

Definition markedStore (flag : string) : Store := set_db (upd_meta (fun t => <[initializedKey := flag]> t) (db initialStore)) initialStore.
Definition syncerOf (s : Store) (stats : gmap string peerStat) : Syncer := mkSyncer s "a" [] (Sync.mkOptions 10 0) stats ∅ ∅ 0 [].
(** A replica that starts, polls its peer [p] and compares with it; [p] has no files. *)
Definition emptyReply : Response (list FileMeta) := mkResponse StatusOK ProtocolVersion "b" "e" "0" (Some []).
Definition starting : Node := mkNode (syncerOf (markedStore "0") ∅) ["p"] ∅ false.
Definition pollEmpty (n : Node) : Node := (pollPeer (fun a b => a +:+ b) 1000 9 ["p"] (fun _ _ _ => Some emptyReply) false "p" 1000 n).2.
Definition compareEmpty (n : Node) : Node := (reconcilePeer (fun a b => a +:+ b) 1000 9 ["p"] (fun _ _ => Some emptyReply) 2 false "p" n).2.

(** Polled, and asked: not ready; compared: ready, on the strength of [p]. *)
Lemma admission_needs_source_witness :
  (ServingReady ["p"] (pollEmpty starting)).1 = Ok false /\ nd_initialized (compareEmpty (pollEmpty starting)) = true /\
  exists peer n1, (n1 = pollEmpty starting \/ n1 = compareEmpty (pollEmpty starting)) /\ admittedBy n1 peer.
Proof.
  split; [vm_compute; reflexivity|]. assert (nd_initialized (compareEmpty (pollEmpty starting)) = true) as E by (vm_compute; reflexivity). split; [exact E|].
  pose proof (life_reconcile starting _ _ (fun a b => a +:+ b) 1000 9 ["p"] (fun _ _ => Some emptyReply) 2 false "p" _
    (life_poll starting _ _ (fun a b => a +:+ b) 1000 9 ["p"] (fun _ _ _ => Some emptyReply) false "p" 1000 _ (life_start _) eq_refl) eq_refl) as L.
  destruct (admission_needs_source starting (compareEmpty (pollEmpty starting)) _ ltac:(discriminate) eq_refl ltac:(vm_compute; reflexivity) eq_refl L (or_introl E))
    as (peer & later & d & n1 & earlier & Htr & _ & A & _).
  exists peer, n1. split; [|exact A].
  assert ((d, n1) ∈ later ++ (d, n1) :: earlier) as Hin by (apply elem_of_app; right; left). rewrite <- Htr in Hin.
  apply elem_of_cons in Hin as [[= _ ->]|Hin]; [right; reflexivity|]. apply list_elem_of_singleton in Hin as [= _ ->]. left. reflexivity.
Defined.

(** Admitted, and restarted while its peer is down. *)
Definition admittedNode : Node := mkNode (syncerOf (markedStore "1") ∅) ["p"] ∅ true.
Lemma admission_is_kept_witness : nd_initialized (initializeAdmission [] (mkNode (nd_sync admittedNode) ["p"] ∅ false)).2 = true.
Proof.
  assert (marker admittedNode = "1") as Hm by (vm_compute; reflexivity).
  exact (proj1 (proj2 (admission_is_kept admittedNode admittedNode [] Hm (life_start _)) (nd_sync admittedNode) [] [] (eq_refl (markerOf (db (nodeStore admittedNode)))) (eq_refl []))).
Defined.

(** When the first start cannot write the marker, files that arrive from a peer make the next
    start take the replica for a source: it is ready without having compared anything. *)
Definition unmarked : Node := mkNode (syncerOf (set_faults [false; true] initialStore) ∅) ["p"] ∅ false.
Definition afterArrivals (n : Node) : Node := mkNode (syncerOf (set_nextVer 2 (nodeStore n)) ∅) (nd_peers n) ∅ false.
Example unsaved_marker : marker (initializeAdmission [] unmarked).2 = "" /\ nd_initialized (initializeAdmission [] (afterArrivals (initializeAdmission [] unmarked).2)).2 = true.
Proof. vm_compute. auto. Qed.
