(* ===== verification/Signing.v ===== *)
(** * Signatures of S3 requests

    internal/gateway/s3/sigv4.go, [authenticate] of s3.go and [streamingSigner] of streaming.go:
    AWS Signature Version 4 in the Authorization header and in the query of a presigned URL.
    SHA-256 and HMAC are parameters, and so is [strings.ToLower] beyond ASCII, whose tables are
    Unicode's. A request carries what net/http and net/url hand over: the header fields under
    their canonical names, the escaped path and the decoded query. *)

From S2P Require Import Prelude GoStrings Database Conditions Streaming.

Definition sigV4Algorithm : string := "AWS4-HMAC-SHA256".
Definition unsignedPayload : string := "UNSIGNED-PAYLOAD".
Definition presignSkewGrace : Z := 15 * 60 * 1000000000.
Definition maxPresignExpires : Z := 7 * 24 * 60 * 60.

(** ** What the file uses of net/http, net/url, strings, time and encoding/hex *)

Record httpRequest := mkHTTP {
  rq_method : string; rq_escapedPath : string; rq_query : gmap string (list string);
  rq_host : string; rq_contentLength : Z; rq_header : gmap string (list string)
}.

(** [Values.Get] and [Header.Get] for a name in canonical form. *)
Definition first (m : gmap string (list string)) (name : string) : string :=
  match m !! name with Some (v :: _) => v | _ => "" end.

(** [http.CanonicalHeaderKey]: a name that is no token stays as it is. *)
Definition tokenByte (c : ascii) : bool :=
  is_digit c || byte_in 65 90 c || byte_in 97 122 c || ContainsByte "!#$%&'*+-.^_`|~" c.
Definition upper_byte (c : ascii) : ascii := if byte_in 97 122 c then Ascii.ascii_of_N (N_of_ascii c - 32) else c.
Fixpoint canonical_go (upper : bool) (s : string) : string :=
  match s with
  | "" => ""
  | String c s' => String (if upper then upper_byte c else lower_byte c) (canonical_go (Ascii.eqb c "-") s')
  end.
Definition CanonicalHeaderKey (h : string) : string := if all_bytes tokenByte h then canonical_go true h else h.

(** [Header.Values], which makes the name canonical once more. *)
Definition Values (m : gmap string (list string)) (name : string) : list string := default [] (m !! CanonicalHeaderKey name).

(** [strings.Fields]: [word] is the field being read. *)
Definition endWord (word : string) (rest : list string) : list string := if word =s "" then rest else word :: rest.
Fixpoint fields_go (word s : string) : list string :=
  match s with
  | "" => endWord word []
  | String c0 s1 =>
      if space1 c0 then endWord word (fields_go "" s1)
      else match s1 with
           | "" => fields_go (word +:+ str1 c0) s1
           | String c1 s2 =>
               if space2 c0 c1 then endWord word (fields_go "" s2)
               else match s2 with
                    | "" => fields_go (word +:+ str1 c0) s1
                    | String c2 s3 => if space3 c0 c1 c2 then endWord word (fields_go "" s3) else fields_go (word +:+ str1 c0) s1
                    end
           end
  end.
Definition Fields (s : string) : list string := fields_go "" s.

(** [sort.Strings] *)
Definition sortStrings (l : list string) : list string := merge_sort (by_string (fun s => s)) l.

(** [hex.EncodeToString] *)
Fixpoint EncodeToString (s : string) : string :=
  match s with
  | "" => ""
  | String c s' => String (hex_char (byte_val c / 16)) (String (hex_char (byte_val c mod 16)) (EncodeToString s'))
  end.

(** [time.Parse("20060102T150405Z", s)] as nanoseconds since 1970: [getnum] reads two digits, one
    of them optional where the layout does not fix the width, and a fraction may follow the
    seconds although the layout has none. *)
Definition getnum (fixed : bool) (s : string) : option (Z * string) :=
  match s with
  | "" => None
  | String c s1 =>
      if negb (is_digit c) then None
      else match s1 with
           | String d s2 => if is_digit d then Some (digit_val c * 10 + digit_val d, s2) else if fixed then None else Some (digit_val c, s1)
           | "" => if fixed then None else Some (digit_val c, s1)
           end
  end.
Definition getyear (s : string) : option (Z * string) :=
  let '(p, rest) := splitAt 4 s in if (String.length p =? 4)%nat && all_digits p then Some (dec_val p, rest) else None.
Definition inside (lo hi : Z) (r : option (Z * string)) : option (Z * string) :=
  match r with Some (n, s) => if (lo <=? n) && (n <=? hi) then Some (n, s) else None | None => None end.
Definition expect (c : ascii) (s : string) : option string :=
  match s with String d s' => if Ascii.eqb c d then Some s' else None | "" => None end.
Fixpoint takeDigits (s : string) : string * string :=
  match s with
  | String c s' => if is_digit c then let '(a, b) := takeDigits s' in (String c a, b) else ("", s)
  | "" => ("", "")
  end.
(** Nine digits of a fraction count, shorter ones are scaled up. *)
Definition nanoseconds (digits : string) : Z := let '(d, _) := splitAt 9 digits in dec_val d * 10 ^ (9 - slen d).
Definition getfraction (s : string) : Z * string :=
  match s with
  | String p (String d s') =>
      if (Ascii.eqb p "." || Ascii.eqb p ",") && is_digit d
      then let '(digits, rest) := takeDigits (String d s') in (nanoseconds digits, rest) else (0, s)
  | _ => (0, s)
  end.

Definition isLeap (y : Z) : bool := (y mod 4 =? 0) && (negb (y mod 100 =? 0) || (y mod 400 =? 0)).
Definition daysIn (y m : Z) : Z :=
  if m =? 2 then if isLeap y then 29 else 28 else if (m =? 4) || (m =? 6) || (m =? 9) || (m =? 11) then 30 else 31.
(** Days from 0000-01-01 to the start of a year, and of a month in it. *)
Definition daysBeforeYear (y : Z) : Z := 365 * y + (y + 3) / 4 - (y + 99) / 100 + (y + 399) / 400.
Definition daysBeforeMonth (y m : Z) : Z := foldr Z.add 0 (map (fun k => daysIn y (Z.of_nat k)) (seq 1 (Z.to_nat (m - 1)))).
Definition unixDays (y m d : Z) : Z := daysBeforeYear y + daysBeforeMonth y m + (d - 1) - daysBeforeYear 1970.

Definition parseAmzDate (s : string) : option Z :=
  '(y, s) ← getyear s;
  '(mo, s) ← inside 1 12 (getnum true s);
  '(d, s) ← getnum true s;
  s ← expect "T" s;
  '(h, s) ← inside 0 23 (getnum false s);
  '(mi, s) ← inside 0 59 (getnum true s);
  '(sec, s) ← inside 0 59 (getnum true s);
  let '(ns, s) := getfraction s in
  s ← expect "Z" s;
  if (s =s "") && (1 <=? d) && (d <=? daysIn y mo)
  then Some ((((unixDays y mo d * 24 + h) * 60 + mi) * 60 + sec) * 1000000000 + ns) else None.

(** [Time.Sub]: the difference as a duration, at the ends of its range when it does not fit. *)
Definition Sub (t u : Z) : Z :=
  let d := t - u in if d <? MinInt64 then MinInt64 else if MaxInt64 <? d then MaxInt64 else d.

(** ** Parsing *)

(** [type credential struct] *)
Record credential := mkCred { cr_accessKey : string; cr_date : string; cr_region : string; cr_service : string; cr_scope : string }.

(** [func parseCredential(cred string) (credential, bool)] *)
Definition parseCredential (cred : string) : option credential :=
  match Split cred "/" with
  | [p0; p1; p2; p3; p4] =>
      if negb (p4 =s "aws4_request") then None
      else if existsb (fun p => p =s "") [p0; p1; p2; p3; p4] then None
      else Some (mkCred p0 p1 p2 p3 (Join [p1; p2; p3; p4] "/"))
  | _ => None
  end.

(** [func parseAuthHeader(h string) map[string]string] *)
Definition authPart (out : gmap string string) (part : string) : gmap string string :=
  let part := TrimSpace part in
  if part =s "" then out
  else match Cut part "=" with
       | None => out
       | Some (k, v) => <[TrimSpace k := TrimSpace v]> out
       end.
Definition parseAuthHeader (h : string) : gmap string string :=
  foldl authPart ∅ (Split (TrimSpace (TrimPrefix h sigV4Algorithm)) ",").
Definition param (m : gmap string string) (name : string) : string := default "" (m !! name).

(** [func containsHeader(signed []string, name string) bool] *)
Definition containsHeader (signed : list string) (name : string) : bool := existsb (fun h => h =s name) signed.

(** [func awsURIEncode(s string, encodeSlash bool) string] *)
Definition unreserved (c : ascii) : bool :=
  byte_in 65 90 c || byte_in 97 122 c || is_digit c || ContainsByte "-_.~" c.
Definition upper_hex_char (d : Z) : ascii := Ascii.ascii_of_N (Z.to_N (if d <? 10 then 48 + d else 55 + d)).
Fixpoint awsURIEncode (s : string) (encodeSlash : bool) : string :=
  match s with
  | "" => ""
  | String c s' =>
      if unreserved c then String c (awsURIEncode s' encodeSlash)
      else if Ascii.eqb c "/" && negb encodeSlash then String c (awsURIEncode s' encodeSlash)
      else String "%" (String (upper_hex_char (byte_val c / 16)) (String (upper_hex_char (byte_val c mod 16)) (awsURIEncode s' encodeSlash)))
  end.

(** [func trimAll(s string) string] *)
Definition trimAll (s : string) : string := Join (Fields s) " ".

(** [func canonicalQueryString(query url.Values, exclude string) string] *)
Definition canonicalParts (k : string) (vals : list string) : list string :=
  map (fun v => awsURIEncode k true +:+ "=" +:+ awsURIEncode v true) (sortStrings vals).
Definition canonicalQueryString (query : gmap string (list string)) (exclude : string) : string :=
  let keys := sortStrings (List.filter (fun k => negb (k =s exclude)) (map fst (map_to_list query))) in
  Join (flat_map (fun k => canonicalParts k (default [] (query !! k))) keys) "&".

(** [func scopeDateMatches(cred credential, amzDate string) bool] *)
Definition scopeDateMatches (cred : credential) (amzDate : string) : bool :=
  (8 <=? String.length amzDate)%nat && (cr_date cred =s (splitAt 8 amzDate).1).

Section Clock.
Context (now : Z).

(** [func withinSkew(amzDate string) bool]: negation wraps as int64 does. *)
Definition withinSkew (amzDate : string) : bool :=
  match parseAmzDate amzDate with
  | None => false
  | Some t =>
      let delta := Sub now t in
      let delta := if delta <? 0 then wrap64 (- delta) else delta in
      delta <=? presignSkewGrace
  end.

(** [func presignedNotExpired(amzDate, expiresStr string) bool] *)
Definition presignedNotExpired (amzDate expiresStr : string) : bool :=
  match parseAmzDate amzDate with
  | None => false
  | Some t =>
      match ParseInt expiresStr with
      | None => false
      | Some expires =>
          if (expires <? 1) || (maxPresignExpires <? expires) then false
          else if now <? t - presignSkewGrace then false
          else negb (t + expires * 1000000000 <? now)
      end
  end.
End Clock.

(** ** Signing *)

Section Signing.
Context (sha256 : string -> string) (hmacSHA256 : string -> string -> string) (lowerRunes : string -> string).

(** [strings.ToLower] *)
Definition toLower (s : string) : string := if all_bytes (byte_in 0 127) s then ascii_lower s else lowerRunes s.

(** [func splitSignedHeaders(raw string) []string] *)
Definition splitSignedHeaders (raw : string) : list string := sortStrings (map (fun h => toLower (TrimSpace h)) (Split raw ";")).

(** [func canonicalHeaders(r *http.Request, signedHeaders []string) string] *)
Definition headerValue (r : httpRequest) (h : string) : string :=
  if h =s "host" then trimAll (rq_host r)
  else if (h =s "content-length") && (0 <=? rq_contentLength r) then FormatInt (rq_contentLength r)
  else trimAll (Join (Values (rq_header r) (CanonicalHeaderKey h)) ",").
Fixpoint canonicalHeaders (r : httpRequest) (signedHeaders : list string) : string :=
  match signedHeaders with
  | [] => ""
  | h :: rest => h +:+ ":" +:+ headerValue r h +:+ str1 nl +:+ canonicalHeaders r rest
  end.

(** [func sha256Hex(s string) string] *)
Definition sha256Hex (s : string) : string := EncodeToString (sha256 s).

(** [func deriveSigningKey(secret, date, region, service string) []byte] *)
Definition deriveSigningKey (secret date region service : string) : string :=
  let kDate := hmacSHA256 ("AWS4" +:+ secret) date in
  let kRegion := hmacSHA256 kDate region in
  let kService := hmacSHA256 kRegion service in
  hmacSHA256 kService "aws4_request".

(** The two texts [computeSignature] builds. *)
Definition canonicalRequest (r : httpRequest) (signedHeaders : list string) (canonicalQuery payloadHash : string) : string :=
  let canonicalURI := if rq_escapedPath r =s "" then "/" else rq_escapedPath r in
  Join [rq_method r; canonicalURI; canonicalQuery; canonicalHeaders r signedHeaders; Join signedHeaders ";"; payloadHash] (str1 nl).
Definition textToSign (amzDate scope request : string) : string :=
  Join [sigV4Algorithm; amzDate; scope; sha256Hex request] (str1 nl).

(** [func computeSignature(r, secretKey, cred, amzDate, signedHeaders, canonicalQuery, payloadHash) string] *)
Definition computeSignature (r : httpRequest) (secretKey : string) (cred : credential) (amzDate : string)
    (signedHeaders : list string) (canonicalQuery payloadHash : string) : string :=
  let stringToSign := textToSign amzDate (cr_scope cred) (canonicalRequest r signedHeaders canonicalQuery payloadHash) in
  let key := deriveSigningKey secretKey (cr_date cred) (cr_region cred) (cr_service cred) in
  EncodeToString (hmacSHA256 key stringToSign).

Context (now : Z).

(** [func verifyHeaderV4(r *http.Request, accessKey, secretKey string) bool] *)
Definition verifyHeaderV4 (r : httpRequest) (accessKey secretKey : string) : bool :=
  let params := parseAuthHeader (first (rq_header r) "Authorization") in
  match parseCredential (param params "Credential") with
  | None => false
  | Some cred =>
      if negb (cr_accessKey cred =s accessKey) then false
      else
        let signedHeadersRaw := param params "SignedHeaders" in
        let providedSig := param params "Signature" in
        let amzDate := first (rq_header r) "X-Amz-Date" in
        if (signedHeadersRaw =s "") || (providedSig =s "") || (amzDate =s "") then false
        else if negb (withinSkew now amzDate) || negb (scopeDateMatches cred amzDate) then false
        else
          let signedHeaders := splitSignedHeaders signedHeadersRaw in
          if negb (containsHeader signedHeaders "host") then false
          else
            let payloadHash := first (rq_header r) "X-Amz-Content-Sha256" in
            let payloadHash := if payloadHash =s "" then unsignedPayload else payloadHash in
            let expected := computeSignature r secretKey cred amzDate signedHeaders (canonicalQueryString (rq_query r) "") payloadHash in
            expected =s providedSig
  end.

(** [func verifyPresignedV4(r *http.Request, accessKey, secretKey string) bool] *)
Definition verifyPresignedV4 (r : httpRequest) (accessKey secretKey : string) : bool :=
  let q := rq_query r in
  if negb (first q "X-Amz-Algorithm" =s sigV4Algorithm) then false
  else match parseCredential (first q "X-Amz-Credential") with
       | None => false
       | Some cred =>
           if negb (cr_accessKey cred =s accessKey) then false
           else
             let providedSig := first q "X-Amz-Signature" in
             let signedHeadersRaw := first q "X-Amz-SignedHeaders" in
             let amzDate := first q "X-Amz-Date" in
             if (providedSig =s "") || (signedHeadersRaw =s "") || (amzDate =s "") then false
             else if negb (presignedNotExpired now amzDate (first q "X-Amz-Expires")) || negb (scopeDateMatches cred amzDate) then false
             else
               let signedHeaders := splitSignedHeaders signedHeadersRaw in
               if negb (containsHeader signedHeaders "host") then false
               else
                 let expected := computeSignature r secretKey cred amzDate signedHeaders (canonicalQueryString q "X-Amz-Signature") unsignedPayload in
                 expected =s providedSig
       end.

(** [func (g *Gateway) authenticate(r *http.Request) bool] *)
Definition authenticate (accessKey secretKey : string) (r : httpRequest) : bool :=
  if (accessKey =s "") && (secretKey =s "") then true
  else if (accessKey =s "") || (secretKey =s "") then false
  else
    let authHeader := first (rq_header r) "Authorization" in
    if negb (authHeader =s "") then if HasPrefix authHeader sigV4Algorithm then verifyHeaderV4 r accessKey secretKey else false
    else if first (rq_query r) "X-Amz-Algorithm" =s sigV4Algorithm then verifyPresignedV4 r accessKey secretKey
    else false.

(** [func streamingSigner(r *http.Request, secretKey string) ( *chunkSigner, bool)] *)
Definition streamingSigner (r : httpRequest) (secretKey : string) : option chunkSigner :=
  let auth := first (rq_header r) "Authorization" in
  if negb (HasPrefix auth sigV4Algorithm) then None
  else
    let params := parseAuthHeader auth in
    let seed := param params "Signature" in
    let amzDate := first (rq_header r) "X-Amz-Date" in
    match parseCredential (param params "Credential") with
    | None => None
    | Some cred =>
        if (seed =s "") || (amzDate =s "") then None
        else Some (mkSigner (deriveSigningKey secretKey (cr_date cred) (cr_region cred) (cr_service cred)) amzDate (cr_scope cred) seed "")
    end.
End Signing.

(** ** The clock *)

(** The skew window of a header signature, exactly: the stamp lies within fifteen minutes of
    the clock, or so far ahead of it that the difference saturates at the least duration,
    whose negation wraps to itself. *)
Lemma skew_window now amzDate :
  withinSkew now amzDate = true <->
  exists t, parseAmzDate amzDate = Some t /\ (Z.abs (now - t) <= presignSkewGrace \/ 2 ^ 63 <= t - now).
Proof.
  unfold withinSkew, Sub, presignSkewGrace, wrap64, MinInt64, MaxInt64. destruct (parseAmzDate amzDate) as [t|]; [|naive_solver].
  transitivity (Z.abs (now - t) <= 15 * 60 * 1000000000 \/ 2 ^ 63 <= t - now); [|split; [by exists t|by intros (t' & [= <-] & H)]].
  replace (t - now) with (- (now - t)) by lia. generalize (now - t) as d. intros d.
  change (2 ^ 63) with 9223372036854775808. change (2 ^ 64) with 18446744073709551616.
  destruct (Z.ltb_spec d (-9223372036854775808)) as [E|E]; [split; intros _; [right; lia|reflexivity]|].
  destruct (Z.ltb_spec 9223372036854775807 d) as [E'|E']; [split; [discriminate|lia]|].
  destruct (Z.ltb_spec d 0) as [N|N]; rewrite Z.leb_le; [|lia].
  destruct (Z.eq_dec d (-9223372036854775808)) as [-> |]; [split; intros _; [right|]; done|]. rewrite Z.mod_small by lia. lia.
Qed.

(** A presigned request: from a quarter of an hour before its stamp until it expires. *)
Lemma presignedNotExpired_exact now amzDate expiresStr :
  presignedNotExpired now amzDate expiresStr = true <->
  exists t expires, parseAmzDate amzDate = Some t /\ ParseInt expiresStr = Some expires /\ 1 <= expires <= maxPresignExpires /\
    t - presignSkewGrace <= now <= t + expires * 1000000000.
Proof.
  unfold presignedNotExpired. destruct (parseAmzDate amzDate) as [t|]; [|naive_solver].
  destruct (ParseInt expiresStr) as [n|]; [|naive_solver].
  transitivity (1 <= n <= maxPresignExpires /\ t - presignSkewGrace <= now <= t + n * 1000000000); [|split; [intros []; by exists t, n|by intros (t' & n' & [= <-] & [= <-] & H)]].
  destruct (Z.ltb_spec n 1), (Z.ltb_spec maxPresignExpires n); cbn [orb]; try (split; [done|lia]).
  destruct (Z.ltb_spec now (t - presignSkewGrace)); [split; [done|lia]|]. rewrite negb_true_iff, Z.ltb_ge. lia.
Qed.

(** A stamp of the year 9999 is as good as a current one. *)
Example far_future_accepted : parseAmzDate "20130524T000000Z" = Some (1369353600 * 1000000000) /\
  withinSkew (1369353600 * 1000000000) "99991231T235959Z" = true /\ withinSkew (1369353600 * 1000000000) "20130524T001501Z" = false.
Proof. vm_compute. done. Qed.

(** ** Text without a given byte *)

Definition lacks (sep : ascii) (s : string) : Prop := all_bytes (fun c => negb (Ascii.eqb c sep)) s = true.

Lemma lacks_iff sep s : lacks sep s <-> ContainsByte s sep = false.
Proof.
  unfold lacks. induction s as [|c s IH]; [done|]. rewrite ContainsByte_cons. cbn [all_bytes].
  rewrite andb_true_iff, negb_true_iff, orb_false_iff, IH. done.
Qed.

Lemma all_bytes_strip_spaces f flip s : all_bytes f s = true -> all_bytes f (strip_spaces flip s) = true.
Proof.
  remember (String.length s) as n eqn:Hn. revert s Hn. induction n as [n IH] using lt_wf_ind. intros s -> H.
  destruct s as [|c0 s1]; [done|]. cbn [strip_spaces]. pose proof H as H0. cbn [all_bytes] in H. apply andb_true_iff in H as [H1 H2].
  destruct (space1 c0); [apply (IH (String.length s1)); [cbn [String.length]; lia|done|done]|].
  destruct s1 as [|c1 s2]; [done|]. cbn [all_bytes] in H2. apply andb_true_iff in H2 as [H3 H4].
  match goal with |- context [if ?b then _ else _] => destruct b end; [apply (IH (String.length s2)); [cbn [String.length]; lia|done|done]|].
  destruct s2 as [|c2 s3]; [done|]. cbn [all_bytes] in H4. apply andb_true_iff in H4 as [H5 H6].
  match goal with |- context [if ?b then _ else _] => destruct b end; [apply (IH (String.length s3)); [cbn [String.length]; lia|done|done]|done].
Qed.

Lemma all_bytes_TrimSpace f s : all_bytes f s = true -> all_bytes f (TrimSpace s) = true.
Proof. intros H. unfold TrimSpace. rewrite all_bytes_srev. apply all_bytes_strip_spaces. rewrite all_bytes_srev. by apply all_bytes_strip_spaces. Qed.

Lemma all_bytes_TrimPrefix f s p : all_bytes f s = true -> all_bytes f (TrimPrefix s p) = true.
Proof.
  intros H. destruct (HasPrefix s p) eqn:E; [|unfold TrimPrefix; by rewrite E].
  apply HasPrefix_spec in E as [t ->]. rewrite TrimPrefix_app. rewrite all_bytes_app in H. by apply andb_true_iff in H as [_ H].
Qed.

Lemma lacks_app sep a b : lacks sep (a +:+ b) <-> lacks sep a /\ lacks sep b.
Proof. unfold lacks. by rewrite all_bytes_app, andb_true_iff. Qed.

(** The first line of a text, and its last one. *)
Lemma first_line sep a b x y : lacks sep a -> lacks sep b -> a +:+ String sep x = b +:+ String sep y -> a = b /\ x = y.
Proof.
  rewrite !lacks_iff. intros Ha Hb E. pose proof (Cut_app a sep x Ha) as E1. rewrite E, (Cut_app b sep y Hb) in E1. by injection E1 as -> ->.
Qed.

Lemma last_line sep a b x y : lacks sep x -> lacks sep y -> a +:+ String sep x = b +:+ String sep y -> a = b /\ x = y.
Proof.
  intros Hx Hy E. apply (f_equal srev) in E. rewrite !srev_app, !srev_cons, !string_app_assoc in E.
  apply (first_line sep) in E as [E1 E2]; [|unfold lacks; by rewrite all_bytes_srev..].
  apply (f_equal srev) in E1, E2. by rewrite !srev_involutive in *.
Qed.

Lemma Split_cons_sep p sep rest : ContainsByte p sep = false -> Split (p +:+ String sep rest) sep = p :: Split rest sep.
Proof.
  induction p as [|c p IH]; intros H; cbn [String.append Split]; [by rewrite Ascii.eqb_refl|].
  rewrite ContainsByte_cons in H. apply orb_false_iff in H as [H1 H2]. by rewrite H1, (IH H2).
Qed.

Lemma Split_Join_at l sep : l <> [] -> Forall (lacks sep) l -> Split (Join l (str1 sep)) sep = l.
Proof.
  induction l as [|p l IH]; [done|]. intros _ [Hp%lacks_iff Hl]%Forall_cons. destruct l as [|q l]; [by apply Split_plain|].
  rewrite Join_cons by done. change (str1 sep +:+ ?x) with (String sep x). by rewrite Split_cons_sep, IH by done.
Qed.

Lemma Join_inj l1 l2 sep : l1 <> [] -> l2 <> [] -> Forall (lacks sep) l1 -> Forall (lacks sep) l2 -> Join l1 (str1 sep) = Join l2 (str1 sep) -> l1 = l2.
Proof. intros N1 N2 H1 H2 E. rewrite <- (Split_Join_at l1 sep N1 H1), <- (Split_Join_at l2 sep N2 H2). by rewrite E. Qed.

Lemma lacks_Join sep l s : lacks sep s -> Forall (lacks sep) l -> lacks sep (Join l s).
Proof.
  intros Hs. induction 1 as [|p l Hp Hl IH]; [done|]. destruct l as [|q l]; [done|]. rewrite Join_cons by done. by rewrite !lacks_app.
Qed.

(** Trimmed text has no newline. *)
Lemma fields_one_line word s : lacks nl word -> Forall (lacks nl) (fields_go word s).
Proof.
  assert (forall word rest, lacks nl word -> Forall (lacks nl) rest -> Forall (lacks nl) (endWord word rest)) as Hend.
  { intros w rest Hw Hr. unfold endWord. destruct (w =s ""); [done|by constructor]. }
  assert (forall word c, space1 c = false -> lacks nl word -> lacks nl (word +:+ str1 c)) as Hadd.
  { intros w c Hc Hw. apply lacks_app. split; [done|]. unfold lacks. cbn [str1 all_bytes]. rewrite andb_true_r. apply negb_true_iff, Ascii.eqb_neq. intros ->. done. }
  remember (String.length s) as n eqn:Hn. revert word s Hn. induction n as [n IH] using lt_wf_ind. intros word s -> Hw.
  destruct s as [|c0 s1]; [by apply Hend|]. cbn [fields_go].
  destruct (space1 c0) eqn:E0; [apply Hend; [done|]; apply (IH (String.length s1)); [cbn [String.length]; lia|done|done]|].
  destruct s1 as [|c1 s2]; [apply Hend; [by apply Hadd|done]|].
  destruct (space2 c0 c1); [apply Hend; [done|]; apply (IH (String.length s2)); [cbn [String.length]; lia|done|done]|].
  destruct s2 as [|c2 s3]; [|destruct (space3 c0 c1 c2); [apply Hend; [done|]; apply (IH (String.length s3)); [cbn [String.length]; lia|done|done]|]].
  - apply (IH (String.length (String c1 ""))); [cbn [String.length]; lia|done|by apply Hadd].
  - apply (IH (String.length (String c1 (String c2 s3)))); [cbn [String.length]; lia|done|by apply Hadd].
Qed.

Lemma trimAll_one_line s : lacks nl (trimAll s).
Proof. apply lacks_Join; [done|]. by apply fields_one_line. Qed.

(** ** Hexadecimal and percent encoding *)

Lemma byte_pairs c : hex_digit_val (hex_char (byte_val c / 16)) * 16 + hex_digit_val (hex_char (byte_val c mod 16)) = byte_val c /\
  hex_digit_val (upper_hex_char (byte_val c / 16)) * 16 + hex_digit_val (upper_hex_char (byte_val c mod 16)) = byte_val c /\
  unreserved (upper_hex_char (byte_val c / 16)) = true /\ unreserved (upper_hex_char (byte_val c mod 16)) = true /\
  lower_hex (hex_char (byte_val c / 16)) = true /\ lower_hex (hex_char (byte_val c mod 16)) = true.
Proof. destruct c as [[] [] [] [] [] [] [] []]; vm_compute; done. Qed.

Lemma byte_val_inj a b : byte_val a = byte_val b -> a = b.
Proof. unfold byte_val. intros H. apply N_of_ascii_inj. lia. Qed.

Lemma EncodeToString_inj a b : EncodeToString a = EncodeToString b -> a = b.
Proof.
  revert b. induction a as [|c a IH]; intros [|d b]; [done..|]. cbn [EncodeToString]. intros [= H1 H2 H3]. f_equal; [|by apply IH].
  apply byte_val_inj. destruct (byte_pairs c) as [<- _], (byte_pairs d) as [<- _]. by rewrite H1, H2.
Qed.

(** The text a percent-encoded one stands for. *)
Fixpoint uriDecode (s : string) : string :=
  match s with
  | "" => ""
  | String c s1 =>
      if Ascii.eqb c "%"
      then match s1 with
           | String a (String b s3) => String (Ascii.ascii_of_N (Z.to_N (hex_digit_val a * 16 + hex_digit_val b))) (uriDecode s3)
           | _ => String c (uriDecode s1)
           end
      else String c (uriDecode s1)
  end.

Lemma uriDecode_encode s slash : uriDecode (awsURIEncode s slash) = s.
Proof.
  induction s as [|c s IH]; [done|]. cbn [awsURIEncode].
  destruct (unreserved c) eqn:Eu.
  { cbn [uriDecode]. rewrite IH. destruct (Ascii.eqb_spec c "%") as [-> |]; [done|]. done. }
  destruct (Ascii.eqb c "/" && negb slash) eqn:Es.
  { apply andb_true_iff in Es as [->%Ascii.eqb_eq _]. cbn [uriDecode]. rewrite IH. done. }
  cbn [uriDecode]. rewrite Ascii.eqb_refl, IH. f_equal.
  destruct (byte_pairs c) as (_ & -> & _). unfold byte_val. rewrite N2Z.id. apply ascii_N_embedding.
Qed.

Definition encoded (c : ascii) : bool := unreserved c || Ascii.eqb c "%".

Lemma awsURIEncode_bytes s : all_bytes encoded (awsURIEncode s true) = true.
Proof.
  induction s as [|c s IH]; [done|]. cbn [awsURIEncode]. rewrite andb_false_r.
  destruct (unreserved c) eqn:Eu; cbn [all_bytes]; unfold encoded at 1; [by rewrite Eu, IH|].
  rewrite IH. unfold encoded. destruct (byte_pairs c) as (_ & _ & -> & -> & _). done.
Qed.

Lemma awsURIEncode_lacks s c : encoded c = false -> lacks c (awsURIEncode s true).
Proof. intros H. apply lacks_iff, (all_bytes_plain encoded); [apply awsURIEncode_bytes|done]. Qed.

(** ** The canonical query *)

Lemma sortStrings_perm l : sortStrings l ≡ₚ l.
Proof. apply merge_sort_Permutation. Qed.

Lemma sortStrings_nil l : sortStrings l = [] -> l = [].
Proof. intros E. apply Permutation_nil_r. by rewrite <- E, sortStrings_perm. Qed.

(** What a signature covers of a query: every name but the excluded one, its values in order. *)
Definition someSorted (vs : list string) : option (list string) := match vs with [] => None | _ => Some (sortStrings vs) end.
Definition signedQuery (q : gmap string (list string)) (exclude : string) : gmap string (list string) := omap someSorted (base.delete exclude q).

(** The reader of a canonical query. *)
Definition addPair (m : gmap string (list string)) (p : string * string) : gmap string (list string) :=
  <[p.1 := (default [] (m !! p.1) ++ [p.2])%list]> m.
Definition readPart (part : string) : string * string := let '(k, v, _) := cutAll part "=" in (uriDecode k, uriDecode v).
Definition readQuery (text : string) : gmap string (list string) :=
  if text =s "" then ∅ else foldl addPair ∅ (map readPart (Split text "&")).

Lemma readPart_encode k v : readPart (awsURIEncode k true +:+ "=" +:+ awsURIEncode v true) = (k, v).
Proof.
  unfold readPart, cutAll. change ("=" +:+ ?x) with (String "=" x). rewrite Cut_app by (apply lacks_iff; by apply awsURIEncode_lacks).
  by rewrite !uriDecode_encode.
Qed.

Definition valuesOf (k : string) (l : list (string * string)) : list string := map snd (List.filter (fun p => p.1 =s k) l).

Lemma foldl_addPair l m k : foldl addPair m l !! k = match valuesOf k l with [] => m !! k | vs => Some (default [] (m !! k) ++ vs)%list end.
Proof.
  revert m. induction l as [|[k' v] l IH]; intros m; [done|]. cbn [foldl]. rewrite IH. unfold addPair, valuesOf. cbn [fst snd List.filter].
  destruct (String.eqb_spec k' k) as [-> |Hne]; cbn [map snd].
  - rewrite lookup_insert_eq. simpl. destruct (map snd _) as [|v' vs]; [done|]. by rewrite <- app_assoc.
  - by rewrite lookup_insert_ne.
Qed.

Lemma valuesOf_app k l1 l2 : valuesOf k (l1 ++ l2) = (valuesOf k l1 ++ valuesOf k l2)%list.
Proof. unfold valuesOf. by rewrite List.filter_app, map_app. Qed.

Lemma valuesOf_same k vs : valuesOf k (map (pair k) vs) = vs.
Proof. unfold valuesOf. induction vs as [|v vs IH]; [done|]. cbn [map List.filter fst]. rewrite String.eqb_refl. cbn [map snd]. by rewrite IH. Qed.

Lemma valuesOf_other k k' vs : k' <> k -> valuesOf k (map (pair k') vs) = [].
Proof. intros H. unfold valuesOf. induction vs as [|v vs IH]; [done|]. cbn [map List.filter fst]. by rewrite (proj2 (String.eqb_neq k' k) H). Qed.

Lemma valuesOf_flat (f : string -> list string) ks k : NoDup ks ->
  valuesOf k (flat_map (fun k' => map (pair k') (f k')) ks) = if decide (k ∈ ks) then f k else [].
Proof.
  induction 1 as [|k' ks Hk Hks IH]; [done|]. cbn [flat_map]. rewrite valuesOf_app, IH.
  destruct (decide (k = k')) as [-> |Hne].
  - rewrite valuesOf_same. rewrite !decide_False, decide_True by (done || constructor). by rewrite app_nil_r.
  - rewrite valuesOf_other by done. cbn [app]. destruct (decide (k ∈ ks)); [rewrite decide_True by (by constructor)|rewrite decide_False]; [done..|].
    intros [|]%elem_of_cons; done.
Qed.

Definition queryKeys (query : gmap string (list string)) (exclude : string) : list string :=
  sortStrings (List.filter (fun k => negb (k =s exclude)) (map fst (map_to_list query))).

Lemma queryKeys_NoDup q ex : NoDup (queryKeys q ex).
Proof.
  unfold queryKeys. rewrite sortStrings_perm. apply NoDup_ListNoDup, List.NoDup_filter, NoDup_ListNoDup. apply NoDup_fst_map_to_list.
Qed.

Lemma elem_of_queryKeys q ex k : k ∈ queryKeys q ex <-> is_Some (q !! k) /\ k <> ex.
Proof.
  unfold queryKeys. rewrite sortStrings_perm, list_elem_of_In, filter_In, <- list_elem_of_In, negb_true_iff, String.eqb_neq.
  split; (intros [H ?]; split; [|done]).
  - apply list_elem_of_fmap in H as ([k' vs] & -> & H). apply elem_of_map_to_list in H. by exists vs.
  - destruct H as [vs H]. apply list_elem_of_fmap. exists (k, vs). split; [done|]. by apply elem_of_map_to_list.
Qed.

Definition queryPairs (q : gmap string (list string)) (ex : string) : list (string * string) :=
  flat_map (fun k => map (pair k) (sortStrings (default [] (q !! k)))) (queryKeys q ex).
Definition partText (p : string * string) : string := awsURIEncode p.1 true +:+ "=" +:+ awsURIEncode p.2 true.

Lemma canonicalQueryString_pairs q ex : canonicalQueryString q ex = Join (map partText (queryPairs q ex)) "&".
Proof.
  unfold canonicalQueryString, queryPairs. fold (queryKeys q ex). f_equal. induction (queryKeys q ex) as [|k ks IH]; [done|].
  cbn [flat_map]. rewrite map_app, IH. f_equal. unfold canonicalParts. by rewrite map_map.
Qed.

Lemma partText_lacks p c : encoded c = false -> c <> "="%char -> lacks c (partText p).
Proof.
  intros H Hne. unfold partText. rewrite !lacks_app. split_and!; [by apply awsURIEncode_lacks| |by apply awsURIEncode_lacks].
  unfold lacks. cbn [all_bytes]. rewrite andb_true_r. apply negb_true_iff, Ascii.eqb_neq. congruence.
Qed.

Lemma Join_parts_nil l : Join (map partText l) "&" = "" -> l = [].
Proof.
  destruct l as [|p l]; [done|]. cbn [map]. intros E. exfalso. assert (ContainsByte (Join (partText p :: map partText l) "&") "=" = true) as H; [|by rewrite E in H].
  destruct l as [|p' l]; [cbn [map Join]|cbn [map]; rewrite Join_cons by done]; unfold partText at 1; rewrite !ContainsByte_app; cbn; by rewrite ?orb_true_r.
Qed.

Lemma readQuery_pairs l : readQuery (Join (map partText l) "&") = foldl addPair ∅ l.
Proof.
  unfold readQuery. destruct (String.eqb_spec (Join (map partText l) "&") "") as [E|E]; [by rewrite (Join_parts_nil l E)|].
  change "&" with (str1 "&") at 1. rewrite Split_Join_at.
  - f_equal. rewrite map_map. rewrite <- (map_id l) at 2. apply map_ext. intros [k v]. apply readPart_encode.
  - intros En. rewrite En in E. done.
  - apply Forall_forall. intros x (p & -> & _)%list_elem_of_fmap. by apply partText_lacks.
Qed.

Lemma query_read q exclude : readQuery (canonicalQueryString q exclude) = signedQuery q exclude.
Proof.
  rewrite canonicalQueryString_pairs, readQuery_pairs. apply map_eq. intros k. rewrite foldl_addPair, lookup_empty. cbn [default app].
  unfold queryPairs. rewrite (valuesOf_flat (fun k => sortStrings (default [] (q !! k)))) by apply queryKeys_NoDup.
  unfold signedQuery. rewrite lookup_omap. destruct (decide (k ∈ queryKeys q exclude)) as [Hin|Hout].
  - apply elem_of_queryKeys in Hin as [[vs Hvs] Hne]. rewrite lookup_delete_ne, Hvs by done. cbn [mbind option_bind default].
    destruct vs as [|v vs]; [done|]. cbn [someSorted id]. destruct (sortStrings (v :: vs)) eqn:E; [by apply sortStrings_nil in E|done].
  - rewrite elem_of_queryKeys in Hout. destruct (decide (k = exclude)) as [-> |Hne]; [by rewrite lookup_delete_eq|].
    rewrite lookup_delete_ne by done. destruct (q !! k) eqn:E; [|done]. exfalso. apply Hout. split; [by eexists|done].
Qed.

#[export] Instance by_string_antisymm : AntiSymm (=) (by_string (fun s : string => s)).
Proof. intros x y H1 H2. exact (anti_symm String.le x y H1 H2). Qed.

Lemma sorted_filter {A} (R : relation A) f l : StronglySorted R l -> StronglySorted R (List.filter f l).
Proof.
  induction 1 as [|x l Hl IH Hx]; [constructor|]. cbn [List.filter]. destruct (f x); [|done]. constructor; [done|].
  apply Forall_forall. intros y Hy. apply list_elem_of_In, filter_In in Hy as [Hy _]. apply list_elem_of_In in Hy. by apply (proj1 (Forall_forall _ _) Hx).
Qed.

(** Names without values leave no trace in the text. *)
Lemma queryPairs_signed q ex : queryPairs q ex = flat_map (fun k => map (pair k) (default [] (signedQuery q ex !! k))) (sortStrings (map fst (map_to_list (signedQuery q ex)))).
Proof.
  set (full := fun k => negb (match signedQuery q ex !! k with None => true | Some _ => false end)).
  assert (forall k, k ∈ queryKeys q ex -> sortStrings (default [] (q !! k)) = default [] (signedQuery q ex !! k)) as Hv.
  { intros k [[vs Hvs] Hne]%elem_of_queryKeys. unfold signedQuery. rewrite lookup_omap, lookup_delete_ne, Hvs by done. by destruct vs. }
  transitivity (flat_map (fun k => map (pair k) (default [] (signedQuery q ex !! k))) (List.filter full (queryKeys q ex))).
  - unfold queryPairs. revert Hv. generalize (queryKeys q ex) as ks. induction ks as [|k ks IH]; intros Hv; [done|]. cbn [flat_map List.filter].
    rewrite Hv by constructor. rewrite IH by (intros; apply Hv; by constructor). unfold full at 2.
    destruct (signedQuery q ex !! k) eqn:E; cbn [negb flat_map]; rewrite ?E; done.
  - f_equal. apply (StronglySorted_unique (by_string (fun s => s))); [apply sorted_filter, Sorted_StronglySorted; [apply _|]; apply Sorted_merge_sort, _| |].
    { apply Sorted_StronglySorted; [apply _|]. apply Sorted_merge_sort, _. }
    rewrite sortStrings_perm. apply NoDup_Permutation; [apply NoDup_ListNoDup, List.NoDup_filter, NoDup_ListNoDup, queryKeys_NoDup|apply NoDup_fst_map_to_list|].
    intros k. rewrite list_elem_of_In, filter_In, <- list_elem_of_In, elem_of_queryKeys, list_elem_of_fmap. unfold full. split.
    + intros [_ Hf]. destruct (signedQuery q ex !! k) as [vs|] eqn:E; [|done]. exists (k, vs). split; [done|]. by apply elem_of_map_to_list.
    + intros ([k' vs] & -> & H%elem_of_map_to_list). cbn [fst]. rewrite H. split; [|done]. unfold signedQuery in H. rewrite lookup_omap in H.
      destruct (decide (k' = ex)) as [-> |Hne]; [by rewrite lookup_delete_eq in H|]. rewrite lookup_delete_ne in H by done. split; [|done].
      destruct (q !! k'); [by eexists|done].
Qed.

(** C24. The canonical query is a faithful and deterministic image of the parameters it covers: two
    requests have the same canonical query exactly when, the excluded name apart, they carry
    the same names with the same values, in whatever order the values came and the map is
    iterated. *)
Theorem canonicalQuery_faithful q1 q2 ex1 ex2 :
  canonicalQueryString q1 ex1 = canonicalQueryString q2 ex2 <-> signedQuery q1 ex1 = signedQuery q2 ex2.
Proof.
  split; intros E; [by rewrite <- !query_read, E|]. rewrite !canonicalQueryString_pairs, !queryPairs_signed. by rewrite E.
Qed.

(** ** What an accepted signature binds *)

Definition dateByte (c : ascii) : bool := is_digit c || ContainsByte "TZ.," c.

Lemma getnum_bytes fixed s n s' : getnum fixed s = Some (n, s') -> all_bytes dateByte s' = true -> all_bytes dateByte s = true.
Proof.
  unfold getnum. destruct s as [|c s1]; [done|]. destruct (is_digit c) eqn:Ec; [|done]. cbn [negb].
  destruct s1 as [|d s2]; [destruct fixed; [done|]|destruct (is_digit d) eqn:Ed; [|destruct fixed; [done|]]]; intros [= <- <-] H;
    cbn [all_bytes] in *; unfold dateByte at 1; rewrite Ec; cbn [orb andb]; [done| |done]. unfold dateByte at 1. by rewrite Ed.
Qed.

Lemma getnum_fixed s n s' : getnum true s = Some (n, s') -> exists c d, s = String c (String d s') /\ is_digit c = true /\ is_digit d = true.
Proof.
  unfold getnum. destruct s as [|c s1]; [done|]. destruct (is_digit c) eqn:Ec; [|done]. cbn [negb]. destruct s1 as [|d s2]; [done|].
  destruct (is_digit d) eqn:Ed; [|done]. intros [= _ <-]. by exists c, d.
Qed.

Lemma inside_Some lo hi r n s : inside lo hi r = Some (n, s) -> r = Some (n, s) /\ lo <= n <= hi.
Proof. unfold inside. destruct r as [[m t]|]; [|done]. destruct (Z.leb_spec lo m), (Z.leb_spec m hi); cbn [andb]; try done. by intros [= -> ->]. Qed.

Lemma expect_Some c s s' : expect c s = Some s' -> s = String c s'.
Proof. unfold expect. destruct s as [|d t]; [done|]. destruct (Ascii.eqb_spec c d) as [-> |]; [|done]. by intros [= ->]. Qed.

Lemma all_digits_bytes s : all_digits s = true -> all_bytes dateByte s = true.
Proof. induction s as [|c s IH]; [done|]. cbn. intros [H1 H2]%andb_true_iff. unfold dateByte at 1. by rewrite H1, IH. Qed.

Lemma takeDigits_app s a b : takeDigits s = (a, b) -> s = a +:+ b /\ all_digits a = true.
Proof.
  revert a b. induction s as [|c s IH]; intros a b; cbn [takeDigits]; [by intros [= <- <-]|].
  destruct (is_digit c) eqn:Ec; [|by intros [= <- <-]]. destruct (takeDigits s) as [a' b']. intros [= <- <-].
  destruct (IH a' b' eq_refl) as [-> H]. cbn. by rewrite Ec, H.
Qed.

Lemma getfraction_bytes s n s' : getfraction s = (n, s') -> all_bytes dateByte s' = true -> all_bytes dateByte s = true.
Proof.
  unfold getfraction. destruct s as [|p [|d s1]]; [by intros [= <- <-]..|].
  destruct ((Ascii.eqb p "." || Ascii.eqb p ",") && is_digit d) eqn:E; [|by intros [= <- <-]].
  destruct (takeDigits (String d s1)) as [a b] eqn:Et. intros [= <- <-] H. apply takeDigits_app in Et as [Es Ha]. rewrite Es.
  cbn [all_bytes]. rewrite all_bytes_app, H, (all_digits_bytes a Ha). apply andb_true_iff in E as [E _]. rewrite andb_true_r.
  by apply orb_true_iff in E as [->%Ascii.eqb_eq| ->%Ascii.eqb_eq].
Qed.

(** A stamp is one line. *)
Lemma parseAmzDate_one_line s t : parseAmzDate s = Some t -> lacks nl s.
Proof.
  intros H. apply lacks_iff, (all_bytes_plain dateByte); [|done]. revert H. unfold parseAmzDate.
  destruct (getyear s) as [[y s1]|] eqn:E1; cbn [mbind option_bind]; [|done].
  destruct (inside 1 12 _) as [[mo s2]|] eqn:E2; cbn [mbind option_bind]; [|done]. apply inside_Some in E2 as [E2 _].
  destruct (getnum true s2) as [[d s3]|] eqn:E3; cbn [mbind option_bind]; [|done].
  destruct (expect "T" s3) as [s4|] eqn:E4; cbn [mbind option_bind]; [|done]. apply expect_Some in E4 as ->.
  destruct (inside 0 23 _) as [[h s5]|] eqn:E5; cbn [mbind option_bind]; [|done]. apply inside_Some in E5 as [E5 _].
  destruct (inside 0 59 (getnum true s5)) as [[mi s6]|] eqn:E6; cbn [mbind option_bind]; [|done]. apply inside_Some in E6 as [E6 _].
  destruct (inside 0 59 (getnum true s6)) as [[se s7]|] eqn:E7; cbn [mbind option_bind]; [|done]. apply inside_Some in E7 as [E7 _].
  destruct (getfraction s7) as [ns s8] eqn:E8. destruct (expect "Z" s8) as [s9|] eqn:E9; cbn [mbind option_bind]; [|done]. apply expect_Some in E9 as ->.
  destruct (String.eqb_spec s9 "") as [-> |]; [|done]. intros _.
  assert (all_bytes dateByte s1 = true) as H1.
  { eapply getnum_bytes, getnum_bytes, (f_equal (andb true)); [done..|]. cbn [all_bytes andb]. change (dateByte "T") with true. cbn [andb].
    eapply getnum_bytes, getnum_bytes, getnum_bytes, getfraction_bytes; done. }
  unfold getyear in E1. destruct (splitAt 4 s) as [p rest] eqn:Es. apply splitAt_app in Es.
  destruct (_ && all_digits p) eqn:Ep in E1; [|done]. injection E1 as _ ->. apply andb_true_iff in Ep as [_ Ep].
  rewrite Es, all_bytes_app, H1. by rewrite all_digits_bytes.
Qed.

(** What a request says of its signature: the header form when it has an Authorization header. *)
Record claim := mkClaim {
  cl_credential : string; cl_date : string; cl_signedHeaders : string; cl_exclude : string; cl_payload : string; cl_signature : string
}.
Definition claimOf (r : httpRequest) : claim :=
  let auth := first (rq_header r) "Authorization" in
  if auth =s "" then
    let q := rq_query r in
    mkClaim (first q "X-Amz-Credential") (first q "X-Amz-Date") (first q "X-Amz-SignedHeaders") "X-Amz-Signature" unsignedPayload (first q "X-Amz-Signature")
  else
    let params := parseAuthHeader auth in
    let payloadHash := first (rq_header r) "X-Amz-Content-Sha256" in
    mkClaim (param params "Credential") (first (rq_header r) "X-Amz-Date") (param params "SignedHeaders") ""
      (if payloadHash =s "" then unsignedPayload else payloadHash) (param params "Signature").

(** What net/http never puts into a request: a line break in the request line or a field value.
    A presigned URL could hold one in the names of the signed headers; such a URL is left out. *)
Record oneLined (r : httpRequest) : Prop := mkOneLined {
  ol_method : lacks nl (rq_method r);
  ol_path : lacks nl (rq_escapedPath r);
  ol_header : forall name vs v, rq_header r !! name = Some vs -> v ∈ vs -> lacks nl v;
  ol_names : forall vs v, rq_query r !! "X-Amz-SignedHeaders" = Some vs -> v ∈ vs -> lacks nl v;
  ol_length : rq_contentLength r <= MaxInt64
}.

Lemma lacks_first sep m name : (forall vs v, m !! name = Some vs -> v ∈ vs -> lacks sep v) -> lacks sep (first m name).
Proof. unfold first. intros H. destruct (m !! name) as [[|v vs]|]; [done| |done]. apply (H (v :: vs) v); [done|by constructor]. Qed.

Lemma lacks_foldl_authPart sep l m : Forall (lacks sep) l -> (forall k v, m !! k = Some v -> lacks sep v) ->
  forall k v, foldl authPart m l !! k = Some v -> lacks sep v.
Proof.
  intros Hl. revert m. induction Hl as [|p l Hp Hl IH]; intros m Hm; [done|]. cbn [foldl]. apply IH. unfold authPart.
  destruct (TrimSpace p =s ""); [done|]. destruct (Cut (TrimSpace p) "=") as [[a b]|] eqn:Ec; [|done].
  intros k v [[_ <-]|[_ H]]%lookup_insert_Some; [|by apply (Hm k)].
  apply all_bytes_TrimSpace. apply (all_bytes_Cut _ _ _ _ _ (all_bytes_TrimSpace _ _ Hp) Ec).
Qed.

Lemma lacks_param sep h name : lacks sep h -> lacks sep (param (parseAuthHeader h) name).
Proof.
  intros H. unfold param. destruct (parseAuthHeader h !! name) as [v|] eqn:E; [|done].
  refine (lacks_foldl_authPart sep _ ∅ _ _ name v E); [|by intros k w; rewrite lookup_empty].
  apply all_bytes_Split, all_bytes_TrimSpace, all_bytes_TrimPrefix, H.
Qed.

Section Binding.
Context (sha256 : string -> string) (hmacSHA256 : string -> string -> string) (lowerRunes : string -> string).
(** Lower case adds no separator: the only ASCII text it makes out of other characters is letters. *)
Context (lower_adds : forall s c, c = ";"%char \/ c = nl -> lacks c s -> lacks c (lowerRunes s)).

Lemma lower_byte_sep c sep : sep = ";"%char \/ sep = nl -> Ascii.eqb (lower_byte c) sep = Ascii.eqb c sep.
Proof. intros [-> | ->]; destruct c as [[] [] [] [] [] [] [] []]; reflexivity. Qed.

Lemma toLower_lacks sep s : sep = ";"%char \/ sep = nl -> lacks sep s -> lacks sep (toLower lowerRunes s).
Proof.
  intros Hs H. unfold toLower. destruct (all_bytes (byte_in 0 127) s); [|by apply lower_adds].
  unfold lacks in *. induction s as [|c s IH]; [done|]. cbn [ascii_lower all_bytes] in *. apply andb_true_iff in H as [H1 H2].
  rewrite (lower_byte_sep c sep Hs), H1. by apply IH.
Qed.

Lemma splitSignedHeaders_lacks sep raw : sep = ";"%char \/ (sep = nl /\ lacks nl raw) -> Forall (lacks sep) (splitSignedHeaders lowerRunes raw).
Proof.
  intros H. unfold splitSignedHeaders. rewrite sortStrings_perm. apply Forall_forall. intros x (p & -> & Hp)%list_elem_of_fmap.
  apply toLower_lacks; [naive_solver|]. apply all_bytes_TrimSpace. fold (lacks sep p).
  destruct H as [-> |[-> H]].
  - apply lacks_iff. exact (proj1 (Forall_forall _ _) (Split_no_sep raw ";") p Hp).
  - exact (proj1 (Forall_forall _ _) (all_bytes_Split _ raw ";" H) p Hp).
Qed.

Lemma splitSignedHeaders_nonnil raw : splitSignedHeaders lowerRunes raw <> [].
Proof. unfold splitSignedHeaders. intros E%sortStrings_nil. by apply map_eq_nil, Split_nonnil in E. Qed.

Definition namesOf (r : httpRequest) : list string := splitSignedHeaders lowerRunes (cl_signedHeaders (claimOf r)).
Definition requestText (r : httpRequest) : string :=
  canonicalRequest r (namesOf r) (canonicalQueryString (rq_query r) (cl_exclude (claimOf r))) (cl_payload (claimOf r)).

(** What a signature vouches for, as data rather than text. *)
Record signedView := mkView {
  sv_method : string; sv_path : string; sv_query : gmap string (list string);
  sv_headers : list (string * string); sv_payload : string; sv_date : string; sv_scope : string
}.
Definition viewOf (r : httpRequest) (cred : credential) : signedView :=
  mkView (rq_method r) (if rq_escapedPath r =s "" then "/" else rq_escapedPath r)
    (signedQuery (rq_query r) (cl_exclude (claimOf r))) (map (fun h => (h, headerValue r h)) (namesOf r))
    (cl_payload (claimOf r)) (cl_date (claimOf r)) (cr_scope cred).

Lemma FormatInt_one_line n : 0 <= n <= MaxInt64 -> lacks nl (FormatInt n).
Proof.
  intros H. destruct (FormatInt_spec n H) as (Hd & _). apply lacks_iff, (all_bytes_plain is_digit); [|done].
  clear -Hd. induction (FormatInt n) as [|c s IH]; [done|]. cbn in *. apply andb_true_iff in Hd as [-> Hd]. by apply IH.
Qed.

Lemma headerValue_one_line r h : rq_contentLength r <= MaxInt64 -> lacks nl (headerValue r h).
Proof.
  intros Hc. unfold headerValue. destruct (h =s "host"); [apply trimAll_one_line|]. destruct (h =s "content-length"); cbn [andb]; [|apply trimAll_one_line].
  destruct (Z.leb_spec 0 (rq_contentLength r)); [by apply FormatInt_one_line|apply trimAll_one_line].
Qed.

Lemma append_inj (a x y : string) : a +:+ x = a +:+ y -> x = y.
Proof. induction a as [|c a IH]; [done|]. cbn. intros [= E]. by apply IH. Qed.

(** The header block gives the values back. *)
Lemma canonicalHeaders_inj r1 r2 names : rq_contentLength r1 <= MaxInt64 -> rq_contentLength r2 <= MaxInt64 ->
  canonicalHeaders r1 names = canonicalHeaders r2 names -> map (fun h => (h, headerValue r1 h)) names = map (fun h => (h, headerValue r2 h)) names.
Proof.
  intros H1 H2. induction names as [|h names IH]; [done|]. cbn [canonicalHeaders map]. intros E.
  apply append_inj, append_inj in E. change (str1 nl +:+ ?x) with (String nl x) in E.
  apply first_line in E as [-> E]; [|by apply headerValue_one_line..]. f_equal. by apply IH.
Qed.

Lemma canonicalQuery_one_line q ex : lacks nl (canonicalQueryString q ex).
Proof.
  rewrite canonicalQueryString_pairs. apply lacks_Join; [done|]. apply Forall_forall. intros x (p & -> & _)%list_elem_of_fmap. by apply partText_lacks.
Qed.

Lemma claim_one_line r : oneLined r -> lacks nl (cl_signedHeaders (claimOf r)) /\ lacks nl (cl_payload (claimOf r)).
Proof.
  intros [_ _ Hh Hn _]. assert (forall name, lacks nl (first (rq_header r) name)) as Hf by (intros name; apply lacks_first; apply Hh).
  unfold claimOf. destruct (_ =s ""); cbn [cl_signedHeaders cl_payload]; [split; [by apply lacks_first|done]|].
  split; [by apply lacks_param|]. by destruct (_ =s "").
Qed.

(** The canonical request determines what it was made of. *)
Lemma requestText_inj r1 r2 : oneLined r1 -> oneLined r2 ->
  requestText r1 = requestText r2 ->
  rq_method r1 = rq_method r2 /\
  (if rq_escapedPath r1 =s "" then "/" else rq_escapedPath r1) = (if rq_escapedPath r2 =s "" then "/" else rq_escapedPath r2) /\
  canonicalQueryString (rq_query r1) (cl_exclude (claimOf r1)) = canonicalQueryString (rq_query r2) (cl_exclude (claimOf r2)) /\
  map (fun h => (h, headerValue r1 h)) (namesOf r1) = map (fun h => (h, headerValue r2 h)) (namesOf r2) /\
  cl_payload (claimOf r1) = cl_payload (claimOf r2).
Proof.
  intros O1 O2 E. destruct (claim_one_line r1 O1) as [N1 P1], (claim_one_line r2 O2) as [N2 P2].
  assert (forall r, oneLined r -> lacks nl (if rq_escapedPath r =s "" then "/" else rq_escapedPath r)) as Hpath.
  { intros r Hr. destruct (_ =s ""); [done|apply Hr]. }
  assert (forall r, lacks nl (cl_signedHeaders (claimOf r)) -> lacks nl (Join (namesOf r) ";")) as Hnames.
  { intros r Hr. apply lacks_Join; [done|]. apply splitSignedHeaders_lacks. by right. }
  unfold requestText, canonicalRequest in E. cbn [Join] in E. change (str1 nl +:+ ?x) with (String nl x) in E.
  apply first_line in E as [Em E]; [|apply O1|apply O2]. apply first_line in E as [Ep E]; [|by apply Hpath..].
  apply first_line in E as [Eq E]; [|apply canonicalQuery_one_line..].
  change (String nl ?x) with (str1 nl +:+ x) in E. rewrite <- !string_app_assoc in E. rewrite !(string_app_assoc _ (str1 nl)) in E.
  change (str1 nl +:+ ?x) with (String nl x) in E.
  apply last_line in E as [E Ey]; [|done..]. apply last_line in E as [E Ej]; [|by apply Hnames..].
  assert (namesOf r1 = namesOf r2) as En.
  { apply (Join_inj _ _ ";"); try apply splitSignedHeaders_nonnil; [apply splitSignedHeaders_lacks; by left..|done]. }
  split_and!; [done..| |done]. rewrite En in *. apply canonicalHeaders_inj; [apply O1|apply O2|done].
Qed.

Lemma EncodeToString_one_line s : lacks nl (EncodeToString s).
Proof.
  apply lacks_iff, (all_bytes_plain lower_hex); [|done]. induction s as [|c s IH]; [done|]. cbn [EncodeToString all_bytes].
  destruct (byte_pairs c) as (_ & _ & _ & _ & -> & ->). done.
Qed.

Lemma textToSign_inj d1 d2 s1 s2 r1 r2 : lacks nl d1 -> lacks nl d2 -> textToSign sha256 d1 s1 r1 = textToSign sha256 d2 s2 r2 ->
  d1 = d2 /\ s1 = s2 /\ sha256 r1 = sha256 r2.
Proof.
  intros H1 H2 E. unfold textToSign in E. cbn [Join] in E. change (str1 nl +:+ ?x) with (String nl x) in E.
  apply append_inj in E. injection E as E. apply first_line in E as [Ed E]; [|done..].
  apply last_line in E as [Es Eh]; [|apply EncodeToString_one_line..]. split_and!; [done..|]. by apply EncodeToString_inj.
Qed.

(** An accepted request carries a credential of the configured access key for the day of its
    stamp, has its host signed, and its signature is the one the secret key gives. *)
Definition signatureOf (secretKey : string) (r : httpRequest) (cred : credential) : string :=
  hmacSHA256 (deriveSigningKey hmacSHA256 secretKey (cr_date cred) (cr_region cred) (cr_service cred))
    (textToSign sha256 (cl_date (claimOf r)) (cr_scope cred) (requestText r)).

Definition inTime (now : Z) (r : httpRequest) : Prop :=
  if first (rq_header r) "Authorization" =s "" then presignedNotExpired now (cl_date (claimOf r)) (first (rq_query r) "X-Amz-Expires") = true
  else withinSkew now (cl_date (claimOf r)) = true.

Lemma authenticate_claim now accessKey secretKey r : (accessKey <> "" \/ secretKey <> "") ->
  authenticate sha256 hmacSHA256 lowerRunes now accessKey secretKey r = true ->
  exists cred, parseCredential (cl_credential (claimOf r)) = Some cred /\ cr_accessKey cred = accessKey /\
    accessKey <> "" /\ secretKey <> "" /\ inTime now r /\ scopeDateMatches cred (cl_date (claimOf r)) = true /\
    "host" ∈ namesOf r /\ cl_signature (claimOf r) = EncodeToString (signatureOf secretKey r cred).
Proof.
  intros Hc. unfold authenticate. destruct (String.eqb_spec accessKey "") as [-> |Ha], (String.eqb_spec secretKey "") as [-> |Hs]; cbn [andb orb]; [naive_solver|done..|].
  unfold inTime, signatureOf, requestText, namesOf, claimOf. set (auth := first (rq_header r) "Authorization").
  assert (forall l, containsHeader l "host" = true -> "host" ∈ l) as Hhost.
  { intros l (x & Hx & ->%String.eqb_eq)%existsb_exists. by apply list_elem_of_In. }
  destruct (String.eqb_spec auth "") as [Ea|Ea]; cbn [negb].
  - destruct (first (rq_query r) "X-Amz-Algorithm" =s sigV4Algorithm) eqn:Ealg; [|done]. unfold verifyPresignedV4. rewrite Ealg. cbn [negb].
    destruct (parseCredential _) as [cred|] eqn:Ecr; [|done]. destruct (String.eqb_spec (cr_accessKey cred) accessKey) as [Ek|]; [|done]. cbn [negb].
    destruct (_ || _ || _); [done|]. destruct (presignedNotExpired _ _ _) eqn:Et; [|done]. destruct (scopeDateMatches _ _) eqn:Ed; [|done]. cbn [negb orb].
    destruct (containsHeader _ _) eqn:Eh; [|done]. cbn [negb]. intros Esig%String.eqb_eq. exists cred. cbn [cl_credential cl_date cl_signedHeaders cl_signature cl_exclude cl_payload].
    split_and!; try done. by apply Hhost.
  - destruct (HasPrefix auth sigV4Algorithm); [|done]. unfold verifyHeaderV4. fold auth.
    destruct (parseCredential _) as [cred|] eqn:Ecr; [|done]. destruct (String.eqb_spec (cr_accessKey cred) accessKey) as [Ek|]; [|done]. cbn [negb].
    destruct (_ || _ || _); [done|]. destruct (withinSkew _ _) eqn:Et; [|done]. destruct (scopeDateMatches _ _) eqn:Ed; [|done]. cbn [negb orb].
    destruct (containsHeader _ _) eqn:Eh; [|done]. cbn [negb]. intros Esig%String.eqb_eq. exists cred. cbn [cl_credential cl_date cl_signedHeaders cl_signature cl_exclude cl_payload].
    split_and!; try done. by apply Hhost.
Qed.

Lemma inTime_date now r : inTime now r -> lacks nl (cl_date (claimOf r)).
Proof.
  unfold inTime. destruct (_ =s ""); intros H.
  - apply presignedNotExpired_exact in H as (t & ? & H & _). by eapply parseAmzDate_one_line.
  - unfold withinSkew in H. destruct (parseAmzDate _) eqn:E; [|done]. by eapply parseAmzDate_one_line.
Qed.

(** Two inputs that a hash does not tell apart. *)
Definition collision (secretKey : string) (r1 r2 : httpRequest) (c1 c2 : credential) : Prop :=
  (requestText r1 <> requestText r2 /\ sha256 (requestText r1) = sha256 (requestText r2)) \/
  ((deriveSigningKey hmacSHA256 secretKey (cr_date c1) (cr_region c1) (cr_service c1), textToSign sha256 (cl_date (claimOf r1)) (cr_scope c1) (requestText r1)) <>
   (deriveSigningKey hmacSHA256 secretKey (cr_date c2) (cr_region c2) (cr_service c2), textToSign sha256 (cl_date (claimOf r2)) (cr_scope c2) (requestText r2)) /\
   signatureOf secretKey r1 c1 = signatureOf secretKey r2 c2).

(** C21. A signature authorises one request. When the gateway accepts two requests that carry the
    same signature, at whatever times and in whichever form, then they have the same method,
    path, query parameters (the one with the empty name apart in the header form), host, signed headers and their values, payload digest, stamp and
    scope - or the two are an explicit collision of SHA-256 or of HMAC. So a captured signature
    cannot be moved to another object, operation, parameter or host. *)
Theorem signature_binds_request now1 now2 accessKey secretKey r1 r2 : (accessKey <> "" \/ secretKey <> "") ->
  oneLined r1 -> oneLined r2 ->
  authenticate sha256 hmacSHA256 lowerRunes now1 accessKey secretKey r1 = true ->
  authenticate sha256 hmacSHA256 lowerRunes now2 accessKey secretKey r2 = true ->
  cl_signature (claimOf r1) = cl_signature (claimOf r2) ->
  exists c1 c2, parseCredential (cl_credential (claimOf r1)) = Some c1 /\ parseCredential (cl_credential (claimOf r2)) = Some c2 /\
    cr_accessKey c1 = accessKey /\ cr_accessKey c2 = accessKey /\
    (viewOf r1 c1 = viewOf r2 c2 /\ trimAll (rq_host r1) = trimAll (rq_host r2) \/ collision secretKey r1 r2 c1 c2).
Proof.
  intros Hc O1 O2 H1 H2 Es.
  destruct (authenticate_claim _ _ _ _ Hc H1) as (c1 & P1 & A1 & _ & _ & T1 & _ & Hh & S1).
  destruct (authenticate_claim _ _ _ _ Hc H2) as (c2 & P2 & A2 & _ & _ & T2 & _ & _ & S2).
  exists c1, c2. split_and!; [done..|]. rewrite S1, S2 in Es. apply EncodeToString_inj in Es.
  destruct (decide (textToSign sha256 (cl_date (claimOf r1)) (cr_scope c1) (requestText r1) =
                    textToSign sha256 (cl_date (claimOf r2)) (cr_scope c2) (requestText r2))) as [Et|Et]; [|right; right; split; [congruence|done]].
  apply textToSign_inj in Et as (Ed & Esc & Eh); [|by eapply inTime_date..].
  destruct (decide (requestText r1 = requestText r2)) as [Er|Er]; [|right; by left].
  destruct (requestText_inj r1 r2 O1 O2 Er) as (Em & Ep & Eq & Ehd & Ey). left. split.
  - unfold viewOf. rewrite Em, Ep, Ehd, Ey, Ed, Esc. f_equal. rewrite <- !query_read. by rewrite Eq.
  - assert (("host", trimAll (rq_host r1)) ∈ map (fun h => (h, headerValue r2 h)) (namesOf r2)) as H.
    { rewrite <- Ehd. by apply (list_elem_of_fmap_2 (fun h => (h, headerValue r1 h)) _ "host"). }
    apply list_elem_of_fmap in H as (h & [= <- ->] & _). done.
Qed.

(** C22. How long an accepted signature is good for: in the header form the clock is within fifteen
    minutes of its stamp, unless the stamp lies 2^63 nanoseconds ahead; in the presigned form
    the clock is at most fifteen minutes before the stamp and at most a week after it. Either
    way the key was derived for the day of the stamp. *)
Theorem accepted_in_time now accessKey secretKey r : (accessKey <> "" \/ secretKey <> "") ->
  authenticate sha256 hmacSHA256 lowerRunes now accessKey secretKey r = true ->
  exists t cred, parseAmzDate (cl_date (claimOf r)) = Some t /\ parseCredential (cl_credential (claimOf r)) = Some cred /\
    cr_date cred = (splitAt 8 (cl_date (claimOf r))).1 /\
    if first (rq_header r) "Authorization" =s "" then t - presignSkewGrace <= now <= t + maxPresignExpires * 1000000000
    else Z.abs (now - t) <= presignSkewGrace \/ 2 ^ 63 <= t - now.
Proof.
  intros Hc H. destruct (authenticate_claim _ _ _ _ Hc H) as (cred & P & _ & _ & _ & T & D & _).
  apply andb_true_iff in D as [_ D%String.eqb_eq]. unfold inTime in T. destruct (_ =s "").
  - apply presignedNotExpired_exact in T as (t & n & Ht & _ & Hn & Hw). exists t, cred. split_and!; try done; lia.
  - apply skew_window in T as (t & Ht & Hw). by exists t, cred.
Qed.

(** The chunks of a streaming upload are chained to the signature that was accepted. *)
Lemma streamingSigner_seeded now accessKey secretKey r signer : (accessKey <> "" \/ secretKey <> "") ->
  authenticate sha256 hmacSHA256 lowerRunes now accessKey secretKey r = true -> streamingSigner hmacSHA256 r secretKey = Some signer ->
  exists cred, parseCredential (cl_credential (claimOf r)) = Some cred /\ cr_accessKey cred = accessKey /\
    sg_key signer = deriveSigningKey hmacSHA256 secretKey (cr_date cred) (cr_region cred) (cr_service cred) /\
    sg_amzDate signer = cl_date (claimOf r) /\ sg_scope signer = cr_scope cred /\ sg_hashed signer = "" /\
    sg_prev signer = EncodeToString (hmacSHA256 (sg_key signer) (textToSign sha256 (sg_amzDate signer) (sg_scope signer) (requestText r))).
Proof.
  intros Hc H Hs. destruct (authenticate_claim _ _ _ _ Hc H) as (cred & P & A & _ & _ & _ & _ & _ & S). exists cred.
  unfold streamingSigner in Hs. destruct (HasPrefix _ _) eqn:Ep; [|done]. cbn [negb] in Hs.
  unfold signatureOf in S. assert (first (rq_header r) "Authorization" <> "") as Ea by (intros E; by rewrite E in Ep).
  assert (claimOf r = mkClaim (param (parseAuthHeader (first (rq_header r) "Authorization")) "Credential") (first (rq_header r) "X-Amz-Date")
    (cl_signedHeaders (claimOf r)) (cl_exclude (claimOf r)) (cl_payload (claimOf r)) (param (parseAuthHeader (first (rq_header r) "Authorization")) "Signature")) as Ecl.
  { unfold claimOf. by rewrite (proj2 (String.eqb_neq _ _) Ea). }
  rewrite Ecl in P, S |- *. cbn [cl_credential cl_date cl_signature] in *. rewrite P in Hs. destruct (_ || _); [done|]. injection Hs as <-.
  cbn [sg_key sg_amzDate sg_scope sg_prev sg_hashed]. split_and!; done.
Qed.
End Binding.

(** ** Requests signed as the protocol says are accepted *)

Definition wordByte (c : ascii) : bool := visible c && negb (Ascii.eqb c ",").
Definition word (s : string) : Prop := s <> "" /\ all_bytes wordByte s = true.

Lemma word_app a b : word a -> word b -> word (a +:+ b).
Proof. intros [Ha Va] [Hb Vb]. split; [by destruct a|]. by rewrite all_bytes_app, Va, Vb. Qed.

Lemma word_ne s : word s -> s <> "".
Proof. by intros []. Qed.

Lemma word_lacks s : word s -> lacks "," s.
Proof. intros [_ H]. by apply lacks_iff, (all_bytes_plain wordByte). Qed.

Lemma TrimSpace_words a b : word a -> word b -> forall mid, TrimSpace (a +:+ mid +:+ b) = a +:+ mid +:+ b.
Proof.
  intros [Ha Va] [Hb Vb] mid. destruct a as [|c a]; [done|]. destruct (string_snoc b Hb) as (t & d & ->).
  cbn [all_bytes] in Va. rewrite all_bytes_app in Vb. apply andb_true_iff in Va as [Vc _], Vb as [_ Vd]. cbn [str1 all_bytes] in Vd. rewrite andb_true_r in Vd.
  apply andb_true_iff in Vc as [Vc _], Vd as [Vd _]. apply (TrimSpace_id c _ d (String c (a +:+ mid +:+ t))); [done..|].
  cbn [String.append]. by rewrite !string_app_assoc.
Qed.

Lemma TrimSpace_word s : word s -> TrimSpace s = s.
Proof.
  intros [Hs Vs]. destruct (string_snoc s Hs) as (t & d & Ed). destruct s as [|c s]; [done|]. pose proof Vs as Vs'. rewrite Ed, all_bytes_app in Vs'.
  cbn [all_bytes] in Vs. apply andb_true_iff in Vs as [Vc _], Vs' as [_ Vd]. cbn [str1 all_bytes] in Vd. rewrite andb_true_r in Vd.
  apply andb_true_iff in Vc as [Vc _], Vd as [Vd _]. by apply (TrimSpace_id c s d t).
Qed.

Lemma TrimSpace_space s : TrimSpace (String " " s) = TrimSpace s.
Proof. done. Qed.

(** The Authorization header of the protocol. *)
Definition printCredential (accessKey date region service : string) : string := Join [accessKey; date; region; service; "aws4_request"] "/".
Definition printAuth (credential signedHeaders signature : string) : string :=
  sigV4Algorithm +:+ " Credential=" +:+ credential +:+ ", SignedHeaders=" +:+ signedHeaders +:+ ", Signature=" +:+ signature.

Lemma authPart_named name value m pre : word name -> word value -> lacks "=" name -> pre = "" \/ pre = " " ->
  authPart m (pre +:+ name +:+ "=" +:+ value) = <[name := value]> m.
Proof.
  intros Hn Hv Hl Hpre. assert (TrimSpace (pre +:+ name +:+ "=" +:+ value) = name +:+ "=" +:+ value) as E.
  { destruct Hpre as [-> | ->]; cbn [String.append]; rewrite ?TrimSpace_space; exact (TrimSpace_words name value Hn Hv "="). }
  unfold authPart. rewrite E. destruct (String.eqb_spec (name +:+ "=" +:+ value) "") as [E0|_]; [by destruct name|].
  change ("=" +:+ value) with (String "=" value). rewrite Cut_app by (by apply lacks_iff). by rewrite !TrimSpace_word.
Qed.

Lemma parseAuthHeader_print cred signed sig : word cred -> word signed -> word sig ->
  let m := parseAuthHeader (printAuth cred signed sig) in
  param m "Credential" = cred /\ param m "SignedHeaders" = signed /\ param m "Signature" = sig.
Proof.
  intros Hc Hs Hg m. assert (m = <["Signature" := sig]> (<["SignedHeaders" := signed]> (<["Credential" := cred]> ∅))) as ->.
  { unfold m, parseAuthHeader, printAuth. rewrite TrimPrefix_app. set (tail := ", SignedHeaders=" +:+ signed +:+ ", Signature=").
    assert (" Credential=" +:+ cred +:+ ", SignedHeaders=" +:+ signed +:+ ", Signature=" +:+ sig = String " " ("Credential=" +:+ (cred +:+ tail) +:+ sig)) as ->.
    { unfold tail. by rewrite !string_app_assoc. }
    rewrite TrimSpace_space, (TrimSpace_words "Credential=" sig) by done.
    assert ("Credential=" +:+ (cred +:+ tail) +:+ sig = ("" +:+ "Credential" +:+ "=" +:+ cred) +:+ String "," ((" " +:+ "SignedHeaders" +:+ "=" +:+ signed) +:+ String "," (" " +:+ "Signature" +:+ "=" +:+ sig))) as ->.
    { unfold tail. rewrite !string_app_assoc. reflexivity. }
    assert (forall pre name v, lacks "," pre -> lacks "," name -> word v -> lacks "," (pre +:+ name +:+ "=" +:+ v)) as Hl.
    { intros pre name v Hp Hn Hv. rewrite !lacks_app. split_and!; try done. by apply word_lacks. }
    rewrite !Split_cons_sep, Split_plain by (apply lacks_iff; by apply Hl). cbn [foldl].
    rewrite !authPart_named by (done || (by left) || (by right)). done. }
  unfold param. split_and!; by simplify_map_eq.
Qed.

Lemma parseCredential_print accessKey date region service :
  Forall (fun p => p <> "" /\ lacks "/" p) [accessKey; date; region; service] ->
  parseCredential (printCredential accessKey date region service) = Some (mkCred accessKey date region service (Join [date; region; service; "aws4_request"] "/")).
Proof.
  intros H. unfold parseCredential, printCredential. change "/" with (str1 "/") at 1. rewrite Split_Join_at; [|done|].
  - change ("aws4_request" =s "aws4_request") with true. cbn [negb]. destruct (existsb _ _) eqn:E; [|done].
    apply existsb_exists in E as (x & Hx & ->%String.eqb_eq). exfalso. rewrite <- list_elem_of_In in Hx.
    repeat match goal with H : Forall _ (_ :: _) |- _ => apply Forall_cons in H as [[? _] ?] end.
    repeat (apply elem_of_cons in Hx as [Hx|Hx]; [congruence || discriminate|]). by apply not_elem_of_nil in Hx.
  - repeat match goal with H : Forall _ (_ :: _) |- _ => apply Forall_cons in H as [[_ ?] ?] end. repeat constructor; done.
Qed.

Lemma hex_word s : s <> "" -> word (EncodeToString s).
Proof.
  intros H. split; [by destruct s|]. clear H. induction s as [|c s IH]; [done|]. cbn [EncodeToString all_bytes]. rewrite IH.
  assert (forall d, lower_hex d = true -> wordByte d = true) as Hw by (intros [[] [] [] [] [] [] [] []]; vm_compute; done).
  destruct (byte_pairs c) as (_ & _ & _ & _ & H1 & H2). by rewrite (Hw _ H1), (Hw _ H2).
Qed.

(** The day of a stamp is eight digits. *)
Lemma date_word s t : parseAmzDate s = Some t -> word (splitAt 8 s).1 /\ lacks "/" (splitAt 8 s).1 /\ (8 <=? String.length s)%nat = true.
Proof.
  intros H. assert (exists a b c d e f g h rest, s = String a (String b (String c (String d (String e (String f (String g (String h rest))))))) /\
    forallb is_digit [a; b; c; d; e; f; g; h] = true) as (a & b & c & d & e & f & g & h & rest & -> & Hd).
  { unfold parseAmzDate in H. destruct (getyear s) as [[y s1]|] eqn:E1; cbn [mbind option_bind] in H; [|done].
    destruct (inside 1 12 _) as [[mo s2]|] eqn:E2; cbn [mbind option_bind] in H; [|done]. apply inside_Some in E2 as [E2 _].
    destruct (getnum true s2) as [[d s3]|] eqn:E3; cbn [mbind option_bind] in H; [|done]. clear H.
    apply getnum_fixed in E2 as (e & f & -> & He & Hf), E3 as (g & h & -> & Hg & Hh).
    destruct s as [|a [|b [|c [|d' s]]]]; try done. unfold getyear in E1. cbn [splitAt] in E1. destruct (all_digits _) eqn:Ed in E1; [|done].
    cbn [String.length Nat.eqb andb] in E1. injection E1 as _ ->. cbn [all_digits] in Ed. rewrite andb_true_r in Ed.
    exists a, b, c, d', e, f, g, h, s3. split; [done|]. cbn [forallb]. rewrite He, Hf, Hg, Hh. cbn [andb]. by rewrite andb_true_r. }
  assert (forall x, is_digit x = true -> wordByte x = true /\ negb (Ascii.eqb x "/") = true) as Hw.
  { intros [[] [] [] [] [] [] [] []]; vm_compute; done. }
  cbn [splitAt fst String.length Nat.leb]. cbn [forallb] in Hd. rewrite !andb_true_iff in Hd. destruct_and! Hd.
  unfold word, lacks. cbn [all_bytes]. rewrite !(fun x H => proj1 (Hw x H)), !(fun x H => proj2 (Hw x H)) by done. done.
Qed.

(** C23. A request signed as the protocol says is admitted: with the Authorization header printed
    from a credential of the configured key for the day of the stamp, a list of signed headers
    that has the host, and the signature the secret key gives, it passes while the clock is
    within fifteen minutes of the stamp. *)
Theorem signed_request_admitted sha256 hmacSHA256 lowerRunes now accessKey secretKey region service signedHeaders r t :
  let amzDate := first (rq_header r) "X-Amz-Date" in
  let date := (splitAt 8 amzDate).1 in
  let cred := mkCred accessKey date region service (Join [date; region; service; "aws4_request"] "/") in
  let payloadHash := first (rq_header r) "X-Amz-Content-Sha256" in
  let names := splitSignedHeaders lowerRunes signedHeaders in
  let signature := computeSignature sha256 hmacSHA256 r secretKey cred amzDate names (canonicalQueryString (rq_query r) "")
                     (if payloadHash =s "" then unsignedPayload else payloadHash) in
  Forall (fun p => word p /\ lacks "/" p) [accessKey; region; service] -> secretKey <> "" -> word signedHeaders -> "host" ∈ names ->
  (forall k d, hmacSHA256 k d <> "") ->
  parseAmzDate amzDate = Some t -> Z.abs (now - t) <= presignSkewGrace ->
  rq_header r !! "Authorization" = Some [printAuth (printCredential accessKey date region service) signedHeaders signature] ->
  authenticate sha256 hmacSHA256 lowerRunes now accessKey secretKey r = true.
Proof.
  intros amzDate date cred payloadHash names signature Hp Hs Hsh Hhost Hmac Ht Hw Ha.
  assert (word date /\ lacks "/" date /\ (8 <=? String.length amzDate)%nat = true) as (Hd & Hdl & Hlen) by (by eapply date_word).
  assert (word signature) as Hsig by (apply hex_word, Hmac).
  pose proof Hp as Hp'. repeat match goal with H : Forall _ (_ :: _) |- _ => apply Forall_cons in H as [[? ?] ?] end.
  assert (word (printCredential accessKey date region service)) as Hcred.
  { unfold printCredential. cbn [Join]. repeat (apply word_app; [done|]). done. }
  assert (first (rq_header r) "Authorization" = printAuth (printCredential accessKey date region service) signedHeaders signature) as Efirst by (unfold first; by rewrite Ha).
  destruct (parseAuthHeader_print _ _ _ Hcred Hsh Hsig) as (E1 & E2 & E3).
  unfold authenticate. rewrite (proj2 (String.eqb_neq accessKey "")) by (by apply word_ne). rewrite (proj2 (String.eqb_neq secretKey "")) by done. cbn [andb orb].
  rewrite Efirst. rewrite (proj2 (String.eqb_neq (printAuth _ _ _) "")) by done. cbn [negb]. unfold printAuth at 1. rewrite HasPrefix_app. unfold verifyHeaderV4. rewrite Efirst, E1, E2, E3. fold amzDate.
  rewrite parseCredential_print; [|repeat constructor; done || by apply word_ne]. fold cred. cbn [cr_accessKey]. rewrite String.eqb_refl. cbn [negb].
  rewrite !(proj2 (String.eqb_neq _ "")) by ((by apply word_ne) || (intros E; by rewrite E in Ht)). cbn [orb].
  rewrite (proj2 (skew_window now amzDate)) by (exists t; by split; [|left]). unfold scopeDateMatches. cbn [cr_date]. fold date. rewrite Hlen, String.eqb_refl. cbn [andb orb negb].
  fold names. unfold containsHeader. rewrite (proj2 (existsb_exists _ _)) by (exists "host"; split; [by apply list_elem_of_In|apply String.eqb_refl]). cbn [negb].
  fold payloadHash signature. apply String.eqb_refl.
Qed.

(** ** Examples *)

Definition lineFree (m : gmap string (list string)) : bool :=
  forallb (fun kv : string * list string => forallb (fun v => negb (ContainsByte v nl)) kv.2) (map_to_list m).

Lemma lineFree_spec m name vs v : lineFree m = true -> m !! name = Some vs -> v ∈ vs -> lacks nl v.
Proof.
  unfold lineFree. rewrite forallb_forall. intros H Hm Hv. apply elem_of_map_to_list, list_elem_of_In, H in Hm. cbn [snd] in Hm.
  rewrite forallb_forall in Hm. by apply list_elem_of_In, Hm, negb_true_iff, lacks_iff in Hv.
Qed.

Lemma oneLined_check r : lineFree (rq_header r) && lineFree (rq_query r) && negb (ContainsByte (rq_method r) nl) && negb (ContainsByte (rq_escapedPath r) nl) &&
  (rq_contentLength r <=? MaxInt64) = true -> oneLined r.
Proof.
  rewrite !andb_true_iff, !negb_true_iff, <- !lacks_iff, Z.leb_le. intros ((((Hh & Hq) & Hm) & Hp) & Hl). split; try done.
  - intros name vs v. by apply lineFree_spec.
  - intros vs v. by apply lineFree_spec.
Qed.

Definition toySha (s : string) : string := s.
Definition toyMac (k d : string) : string := String "#" (k +:+ ":" +:+ d).
Definition toyLower (s : string) : string := s.
Lemma toyLower_adds s c : c = ";"%char \/ c = nl -> lacks c s -> lacks c (toyLower s).
Proof. done. Qed.
Lemma toyMac_nonempty k d : toyMac k d <> "".
Proof. done. Qed.

Definition sampleNow : Z := 1369353600 * 1000000000.
Definition sampleHeaders : gmap string (list string) :=
  list_to_map [("X-Amz-Date", ["20130524T000000Z"]); ("X-Amz-Content-Sha256", [emptySHA256]); ("Range", ["  bytes=0-9  "])].
Definition samplePlain : httpRequest :=
  mkHTTP "GET" "/photos/a%20b" (list_to_map [("versionId", ["2"; "1"]); ("partNumber", ["3"])]) "s3.example" 0 sampleHeaders.
Definition sampleNames : string := "host;range;x-amz-content-sha256;x-amz-date".
Definition sampleSignature : string :=
  computeSignature toySha toyMac samplePlain "secret" (mkCred "AK" "20130524" "eu" "s3" "20130524/eu/s3/aws4_request") "20130524T000000Z"
    (splitSignedHeaders toyLower sampleNames) (canonicalQueryString (rq_query samplePlain) "") emptySHA256.
Definition sampleAuth : string := printAuth (printCredential "AK" "20130524" "eu" "s3") sampleNames sampleSignature.
Definition withHeader (name value : string) (r : httpRequest) : httpRequest :=
  mkHTTP (rq_method r) (rq_escapedPath r) (rq_query r) (rq_host r) (rq_contentLength r) (<[name := [value]]> (rq_header r)).
Definition withParam (name value : string) (r : httpRequest) : httpRequest :=
  mkHTTP (rq_method r) (rq_escapedPath r) (<[name := [value]]> (rq_query r)) (rq_host r) (rq_contentLength r) (rq_header r).
Definition sampleSigned : httpRequest := withHeader "Authorization" sampleAuth samplePlain.
Abbreviation accepted now r := (authenticate toySha toyMac toyLower now "AK" "secret" r).

Example samples : canonicalQueryString (rq_query samplePlain) "" = "partNumber=3&versionId=1&versionId=2" /\
  accepted sampleNow sampleSigned = true /\ accepted sampleNow samplePlain = false /\
  accepted (sampleNow + 901 * 1000000000) sampleSigned = false /\
  accepted sampleNow (withParam "partNumber" "4" sampleSigned) = false /\ accepted sampleNow (withHeader "Range" "bytes=0-8" sampleSigned) = false.
Proof. vm_compute. done. Qed.

(** The name that stands for "exclude nothing" is one a query can have. *)
Example unnamed_parameter_unsigned : accepted sampleNow (withParam "" "anything" sampleSigned) = true.
Proof. vm_compute. done. Qed.

Lemma signature_binds_request_witness : let r2 := withHeader "User-Agent" "cli" sampleSigned in
  accepted sampleNow sampleSigned = true /\ exists c1 c2, parseCredential (cl_credential (claimOf sampleSigned)) = Some c1 /\ parseCredential (cl_credential (claimOf r2)) = Some c2 /\
    cr_accessKey c1 = "AK" /\ cr_accessKey c2 = "AK" /\
    (viewOf toyLower sampleSigned c1 = viewOf toyLower r2 c2 /\ trimAll (rq_host sampleSigned) = trimAll (rq_host r2) \/
     collision toySha toyMac toyLower "secret" sampleSigned r2 c1 c2).
Proof.
  intros r2. split; [by vm_compute|].
  refine (signature_binds_request toySha toyMac toyLower toyLower_adds sampleNow (sampleNow + 60000000000) "AK" "secret" sampleSigned r2 _ _ _ _ _ _).
  - by left.
  - apply oneLined_check. by vm_compute.
  - apply oneLined_check. by vm_compute.
  - by vm_compute.
  - by vm_compute.
  - by vm_compute.
Defined.

Lemma accepted_in_time_witness : exists t cred, parseAmzDate (cl_date (claimOf sampleSigned)) = Some t /\ parseCredential (cl_credential (claimOf sampleSigned)) = Some cred /\
    cr_date cred = (splitAt 8 (cl_date (claimOf sampleSigned))).1 /\
    if first (rq_header sampleSigned) "Authorization" =s "" then t - presignSkewGrace <= sampleNow <= t + maxPresignExpires * 1000000000
    else Z.abs (sampleNow - t) <= presignSkewGrace \/ 2 ^ 63 <= t - sampleNow.
Proof. refine (accepted_in_time toySha toyMac toyLower sampleNow "AK" "secret" sampleSigned _ _); [by left|by vm_compute]. Defined.

Lemma signed_request_admitted_witness : accepted sampleNow sampleSigned = true.
Proof.
  refine (signed_request_admitted toySha toyMac toyLower sampleNow "AK" "secret" "eu" "s3" sampleNames sampleSigned sampleNow _ _ _ _ toyMac_nonempty _ _ _).
  - repeat constructor; done.
  - done.
  - done.
  - apply list_elem_of_In. vm_compute. by left.
  - by vm_compute.
  - by vm_compute.
  - by vm_compute.
Defined.
